(* ===== verification/_CoqProject ===== *)
-Q . S2P
Prelude.v
Utf8.v
Utf8Facts.v
Grammar.v
GrammarParser.v
GrammarSampler.v
GrammarLang.v
GrammarFacts.v
GrammarLeftRec.v
GrammarFilter.v
GrammarParserFacts.v
GrammarSafety.v
GrammarTheorems.v
GrammarTrigger.v
Batch.v
BatchFacts.v
BatchTheorems.v
BatchInit.v
KvCells.v
KvCellsFacts.v
KvCache.v
KvCacheFacts.v
KvCopy.v
KvSlot.v
KvPlace.v
KvPrepare.v
KvInputs.v
KvContext.v
KvRows.v
KvTheorems.v
KvState.v
KvStateFacts.v
KvTensors.v
KvStateTheorems.v
KvStateSeq.v
KvBatch.v
Decode.v
DecodeFacts.v
DecodeRun.v
DecodeTheorems.v
DecodeKv.v
Recurrent.v
RecurrentFacts.v
RecurrentSteps.v
RecurrentSlot.v
RecurrentStage.v
RecurrentFind.v
RecurrentView.v
RecurrentTheorems.v
RecurrentDecode.v
RecurrentExamples.v
RecurrentState.v
RecurrentRestore.v
RecurrentRestoreSeq.v
RecurrentRefuse.v
Hybrid.v
HybridIswa.v
HybridTheorems.v
Vocabulary.v
SpmTokenizer.v
BpeTokenizer.v
VocabText.v
VocabTokenize.v
MergeFacts.v
MergeQueue.v
SpmFacts.v
BpeFacts.v
TextFacts.v
DetokenizeFacts.v
PartitionFacts.v
SpmRoundtrip.v
TokenizerTheorems.v
ServerQueue.v
ServerTheorems.v
ServerReader.v
NgramCache.v
NgramCacheFacts.v
NgramDraft.v
NgramMap.v
NgramTheorems.v
