(* ===== verification/Prelude.v ===== *)
(** * The inference core of Project_Persona

    Project_Persona is a self-hosted assistant: Python services, clients and a
    daemon around the C++ inference engine vendored in [src/llama_cpp].  This
    library verifies parts of that engine: those with an algorithmic core of
    their own, which decide what text a model may produce and which token sits
    where in its memory.  The sources named below are under [src/llama_cpp].

    ** The parts and how they work together

    The server's threads post requests as tasks into a queue that the main loop
    works off, and readers collect the results ([tools/server/server-queue.cpp]).
    A request's text is checked and split into code points ([src/unicode.cpp],
    [common/unicode.cpp], [tools/server/server-common.cpp]) and cut into tokens
    ([src/llama-vocab.cpp]).  The tokens are put into a batch, which the batch
    allocator validates and cuts into ubatches ([src/llama-batch.cpp]).  The
    memory of the model finds room for every ubatch: a KV cache, which also
    computes the attention mask and the tensor rows for the graph
    ([src/llama-kv-cells.h], [src/llama-kv-cache.cpp], [src/llama-memory.cpp],
    [src/llama-kv-cache-iswa.cpp]), a recurrent memory
    ([src/llama-memory-recurrent.cpp]) or both together
    ([src/llama-memory-hybrid.cpp], [src/llama-memory-hybrid-iswa.cpp]).  The
    context ([src/llama-context.cpp]) drives this: it asks the batch allocator and
    the memory, an interface several classes implement, for ubatches, computes
    them one by one, and hands out their outputs in the order of the batch.  Output
    tokens are filtered and accepted by a GBNF grammar ([src/llama-grammar.cpp])
    and turned into text again; several at a time may be drafted from what the text
    repeats ([common/ngram-cache.cpp], [common/ngram-map.cpp]).  Memories can be
    saved to bytes and restored.

    ** Files

    - [Prelude]: outcomes of C++ code (return, exception, failed assertion,
      undefined behaviour, fuel), loops [foldM], machine integers, C strings,
      tactics and hints.
    - [Utf8], [Utf8Facts]: the UTF-8 codecs of [src/unicode.cpp] and
      [common/unicode.cpp], the byte alphabet of byte-level BPE, [decode_utf8]
      of the grammar, the validators of the server.
    - [Grammar]: rules, stacks and candidates; [llama_grammar_advance_stack],
      [llama_grammar_accept_chr], [llama_grammar_reject_candidates], the
      left-recursion check.  [GrammarParser]: [llama_grammar_parser] in a state
      monad.  [GrammarSampler]: construction, cloning, acceptance of texts and
      tokens, lazy triggers, the masking of logits; the vocabulary and the
      regular expressions are the classes [Vocab] and [Regex].
    - [GrammarLang]: the language of a grammar and its abstract machine.
      [GrammarFacts], [GrammarLeftRec], [GrammarFilter], [GrammarParserFacts],
      [GrammarSafety], [GrammarTrigger]: the lemmas; [GrammarTheorems]: the
      theorems and their witnesses.
    - [Batch]: [llama_batch_allocr] ([init], the three splits, [ubatch_add],
      [ubatch_reserve]); the memory the batch is checked against is the record
      [Memory].  [BatchFacts], [BatchTheorems], [BatchInit].
    - [KvCells]: [llama_kv_cells].  [KvCellsFacts]: its invariant [cells_ok] and
      the effect of every operation ([updates]).
    - [KvCache]: [llama_kv_cache] without tensors: sequence operations,
      [find_slot], [apply_ubatch], [prepare], [update].  [KvCacheFacts] and
      [KvCopy]: the invariant [kv_ok] and the sequence operations; [KvSlot]: the
      slot search; [KvPlace]: placing a ubatch; [KvPrepare]: the trial placement.
    - [KvInputs]: the inputs of the graph ([get_n_kv], the row indices, the
      shifts, [set_input_kq_mask]) and the correctness of the mask; [KvRows]: the
      rows.
    - [KvContext]: [llama_kv_cache_context], the status of memory contexts, the
      cache pair [llama_kv_cache_iswa]; the abstract data type the cache refines.
    - [KvTheorems]: the theorems on the cache and their witnesses.
    - [KvState]: saved states with their tensors.  [KvStateFacts] (bytes, rows,
      ranges), [KvTensors] (layers and cells), [KvStateTheorems] (a whole cache),
      [KvStateSeq] (one sequence).
    - [KvBatch]: the batch allocator, the cache and its context together, from an
      accepted batch to the cells that hold it.
    - [Decode]: [llama_context::encode] and [decode], the output buffers and the
      functions that return outputs.  The memory is the class [memory_i]
      ([llama_memory_i] with [llama_memory_context_i]), with instances for every
      memory below; computing a graph is a parameter.  [DecodeFacts]: swaps, the
      selection sort of the outputs, rows; [DecodeRun]: the loop over the ubatches;
      [DecodeTheorems]: against the interface; [DecodeKv]: with the KV cache, and
      examples.
    - [Recurrent]: [llama_memory_recurrent] with its context.  [RecurrentFacts]
      (invariant), [RecurrentSteps] (operations on sequences), [RecurrentSlot],
      [RecurrentStage], [RecurrentFind] (the phases of [find_slot]),
      [RecurrentView] (the states of the sequences, through the gather of the
      graph), [RecurrentTheorems], [RecurrentDecode],
      [RecurrentExamples].  [RecurrentState]: its saved states; [RecurrentRestore]
      (whole memories), [RecurrentRestoreSeq] (one sequence), [RecurrentRefuse]
      (states that are refused).
    - [Hybrid], [HybridIswa]: the hybrid memories, built from the operations of
      their parts; [HybridTheorems].
    - [Vocabulary]: tokens, their texts, types and scores, the merges, and the
      options of [llama_vocab] the tokenizers look at.  [SpmTokenizer],
      [BpeTokenizer]: the two merging tokenizers, with their priority queues.
      [VocabTokenize]: the partition of a text at its special tokens and
      [tokenize]; [VocabText]: [token_to_piece], its cache and [detokenize].
      [MergeFacts]: the greedy reference; [MergeQueue]: queues that implement it;
      [SpmFacts], [BpeFacts], [TextFacts] (searching and replacing),
      [DetokenizeFacts] (buffers, cleaning), [PartitionFacts], [SpmRoundtrip];
      [TokenizerTheorems]: the theorems and their witnesses.
    - [ServerQueue]: [server_queue] with its main loop, [server_response] and
      [server_response_reader]; runs are interleavings of the main loop with the
      operations of other threads.  [ServerTheorems]: the queue; [ServerReader]:
      the reader.
    - [NgramCache]: the n-gram caches of [common/ngram-cache.cpp].
      [NgramCacheFacts]: counting, merging, saving; [NgramDraft]: the rules a draft
      follows, and the theorems.  [NgramMap]: [common/ngram-map.cpp],
      [common/ngram-mod.cpp] and the choice among the implementations in
      [common/speculative.cpp]; [NgramTheorems].

    ** How code becomes definitions

    A C++ function is a function into [outcome].  Objects are records passed and
    returned; parallel vectors indexed together are one list of records;
    references into a vector are indices.  [assert] and [GGML_ASSERT] are
    [Fatal], also where a release build would go on; an access outside of a
    vector is [Undef]; an exception is [Throw].  The grammar parser, which
    catches, keeps its state in a monad; the readers of saved states, which throw
    with work half done, carry the changed object in the exception ([changing],
    [keeping], [within]).  Unsigned arithmetic wraps where the
    code computes on 32 bits ([u32], [u64], [i32]); positions of tokens and ids of
    tasks are assumed not to overflow.  A function that fills a buffer returns its
    result with the bytes it wrote.  Names are those of the code.

    ** What the theorems show

    - Grammar: the stacks empty out exactly on the texts of the language; a
      candidate is rejected exactly when its text cannot be accepted, what is
      left unmasked can be accepted without an error (both without token
      elements); the parser answers under every allocator and returns well-formed
      rules; checked grammars run in finitely many steps;
      a lazy grammar replays exactly the matched suffix.
    - Text: the codecs are inverse to each other, total where they promise it,
      and agree with each other; the validators decide their languages.
    - Tokens: both merging tokenizers compute the greedy reference and never fail;
      the partition spells its text and leaves no special token in a fragment;
      detokenizing does not depend on the sizes of buffers; SPM tokens of a text
      spell that text.
    - Batches: an accepted batch continues the positions in memory and is cut
      into ubatches that hold every token once with its own data, of the shapes
      the splits promise.
    - KV cache: every operation is answered on every state that satisfies the
      invariant and refines its operation on the relation of cells, sequences
      and positions; in reachable states the queried bounds are those of the
      history; the slot search is exact; the trial placement restores the cache
      and a context completes what it planned; the optimised mask equals the
      naive one; the padded width covers every used cell; tokens are written to
      different rows.
    - Decoding: an accepted batch finds room exactly when there are enough empty
      cells, is then stored completely, and the positions of every sequence stay
      without gaps.  [decode], without
      embeddings and backend samplers, returns 0, 1 or the code of a failed
      computation accordingly; the output asked for by the index of a token is the row that
      was computed for that token; a failed ubatch is taken back.
    - Recurrent and hybrid memory: the operations, with any ids, refine those on a
      map from sequences to positions and states; every sequence of a ubatch is given its
      own last state; decoding leaves both parts of a hybrid memory at the same
      positions, and an operation one part refuses changes neither.
    - Saved states: restoring gives back the tokens and tensor rows, byte for
      byte, for whole memories and for single sequences under another id; a state
      that is refused leaves nothing of the sequence, one that is cut off is left
      half restored.
    - Server queues: no task is lost or made up in any interleaving; the awake main
      loop takes every task and stops when told to; a reader gets each result at
      the index of its task, and an error cancels the rest.
    - N-gram drafts: a cache counts what follows every n-gram, however its text is
      cut into pieces; merging adds counts, and saved caches are read back; every
      drafted token is justified by the counts, by an earlier occurrence or by the
      table; in a conversation whose prompts do not shrink nothing is read outside
      of the history.
    - Theorems of kind error, and the examples in [GrammarTheorems],
      [BatchInit], [KvTheorems], [KvStateSeq], [DecodeKv], [RecurrentExamples],
      [HybridTheorems], [TokenizerTheorems], [ServerTheorems], [NgramDraft] and
      [NgramTheorems], record where the code departs from its comments or its
      intent.

    ** Fuel

    Loops over data are [foldM] or structural.  Fuel stands for recursion the
    code bounds otherwise: [search_fuel size = 2 * size + 3] rounds of the slot
    search ([find_slot_exact] needs no more: each round but two tests a cell);
    [S n_tokens] rounds of the splits (each takes a token); the length of the
    text for the parser, the codecs, replacing and the partition (each round moves
    on); for the queues of the tokenizers the entries that can be pushed (one per
    pair of neighbours and two per merge); for [wait_for_all] the results that
    arrive; for drafts the number of tokens asked for, and for loading a cache the
    bytes of the file; for [llama_grammar_advance_stack] the theorems give a bound
    that depends on the rules and the text.  Where a result is claimed, [NoFuel] is
    excluded by the statement.

    ** Not modelled

    - The Python layer, clients, scripts and web assets: glue and I/O.
    - Tensor computation (ggml and its backends), model files and graphs:
      numeric kernels and generated or hardware code.  The graphs of the memories
      are left out too, but for the gather of recurrent states; saved tensors are
      lists of bytes.
    - Of the context: its construction, graph reservation and reuse, threads,
      adapters, performance counters, training, the cross-attention data of T5.
      Copies from tensors are done at once, where the code waits for them later.
    - Of the vocabulary: loading it from a model file; the WPM, UGM, RWKV and
      PLaMo-2 tokenizers; the regular expressions that cut a text into words for
      BPE, whose words are an input; the tables of [unicode-data.cpp] and
      normalisation.
    - Of the server: HTTP, JSON, slots and their scheduling; multimodal code.  Lost
      notifications and the data races of [running], which [start_loop] and
      [server_response::terminate] write without the mutex.
    - The samplers, which compute with floating point; drafting with a second
      model; templates and the parsers of model outputs in [common].
    - Release builds without assertions; positions of tokens that overflow 32 bits;
      memory exhaustion, but for the growth of the rules in the grammar parser,
      where the length of the source is no bound and the class [Allocator] says
      which allocations are served.  But for the server queues the modelled code is
      called from one thread.

    ** Plan

    What would come next: the tokenizers that do not merge (UGM's lattice, WPM's
    longest matches), the splitters of [src/unicode.cpp] with their tables, and the
    slots of [tools/server/server-context.cpp] between the queues and the batch. *)

From stdpp Require Export base gmap strings list fin_maps sorting.
From Stdlib Require Export ZArith Ascii.
From Stdlib Require Import Lia.

Export ListNotations.
#[global] Open Scope Z_scope.

(** ** Outcomes of C++ code

    A C++ call either returns, throws an exception, fails a
    [GGML_ASSERT]/[assert]/[GGML_ABORT], reads outside of an object
    (undefined behaviour) or, in the model only, runs out of the fuel that
    bounds a recursion which is not structural. *)

Inductive outcome_of (X A : Type) : Type :=
  | Ret (a : A)
  | Throw (e : X)
  | Fatal (msg : string)
  | Undef
  | NoFuel.
Arguments Ret {X A} _.
Arguments Throw {X A} _.
Arguments Fatal {X A} _.
Arguments Undef {X A}.
Arguments NoFuel {X A}.

(** Most of the code lets an exception out only where the objects it has changed
    are given up: the message is all that is left. *)
Notation outcome := (outcome_of string).

#[export] Instance outcome_ret {X} : MRet (outcome_of X) := fun A a => Ret a.
#[export] Instance outcome_bind {X} : MBind (outcome_of X) := fun A B k m =>
  match m with
  | Ret a => k a
  | Throw e => Throw e
  | Fatal e => Fatal e
  | Undef => Undef
  | NoFuel => NoFuel
  end.
#[export] Instance outcome_fmap {X} : FMap (outcome_of X) := fun A B f m =>
  match m with
  | Ret a => Ret (f a)
  | Throw e => Throw e
  | Fatal e => Fatal e
  | Undef => Undef
  | NoFuel => NoFuel
  end.

(** Code whose caller keeps an object that is changed when an exception passes:
    the exception carries the object as it is at that moment.  [keeping s m] is
    [m], run while the object is [s]; [within f m] is [m], run on a part of the
    object, where [f] puts the part in its place. *)
Notation changing S := (outcome_of (string * S)).

Definition map_throw {X Y A} (f : X -> Y) (m : outcome_of X A) : outcome_of Y A :=
  match m with
  | Ret a => Ret a
  | Throw e => Throw (f e)
  | Fatal e => Fatal e
  | Undef => Undef
  | NoFuel => NoFuel
  end.
Definition keeping {S A} (s : S) : outcome A -> changing S A := map_throw (fun e => (e, s)).
Definition within {S T A} (f : S -> T) : changing S A -> changing T A :=
  map_throw (fun e => (e.1, f e.2)).

(** [GGML_ASSERT(b)] and [assert(b)] (the build with assertions enabled). *)
Definition c_assert (b : bool) (msg : string) : outcome unit :=
  if b then Ret () else Fatal msg.

(** An element access [v[i]]: outside of the vector it is undefined. *)
Definition at_ {A} (l : list A) (i : nat) : outcome A :=
  match l !! i with Some x => Ret x | None => Undef end.

(** The same access with a signed index. *)
Definition at_z {A} (l : list A) (z : Z) : outcome A :=
  if z <? 0 then Undef else at_ l (Z.to_nat z).

(** An element update [v[i] = x]: outside of the vector it is undefined. *)
Definition set_ {A} (l : list A) (i : nat) (x : A) : outcome (list A) :=
  if decide (i < length l)%nat then Ret (<[i := x]> l) else Undef.

(** A loop [for (x : l) acc = f(acc, x)] whose body may fail. *)
Fixpoint foldM {X A B} (f : B -> A -> outcome_of X B) (acc : B) (l : list A) : outcome_of X B :=
  match l with
  | [] => Ret acc
  | x :: l' => acc' ← f acc x; foldM f acc' l'
  end.

(** ** Machine integers: the wrap-around of the fixed-width types *)

Definition u8 (z : Z) : Z := z mod 2 ^ 8.
Definition u32 (z : Z) : Z := z mod 2 ^ 32.
Definition u64 (z : Z) : Z := z mod 2 ^ 64.
Definition i32 (z : Z) : Z := (z + 2 ^ 31) mod 2 ^ 32 - 2 ^ 31.

Definition UINT64_MAX : Z := 2 ^ 64 - 1.

(** ** Bytes and C strings

    A byte is a [Z] in [0, 256); a [const char *] is the suffix of the
    NUL-terminated string it points into, so dereferencing it yields the
    head of the suffix, or the terminating 0 at the end. *)

Definition ch (a : ascii) : Z := Z.of_N (N_of_ascii a).

Fixpoint bytes (s : string) : list Z :=
  match s with
  | EmptyString => []
  | String a s' => ch a :: bytes s'
  end.

Definition cstr := list Z.

Definition chr_at (p : cstr) (i : nat) : Z := nth i p 0.

Definition is_byte (b : Z) : bool := (0 <=? b) && (b <? 256).

(** The decimal digits [std::to_string] prints for a non-negative integer. *)
Fixpoint dec_digits (fuel : nat) (z : Z) (acc : list Z) : list Z :=
  match fuel with
  | O => acc
  | S f =>
      let acc' := (48 + z mod 10) :: acc in
      if z / 10 =? 0 then acc' else dec_digits f (z / 10) acc'
  end.

(** Twenty digits are enough for any 64-bit value. *)
Definition to_string (z : Z) : list Z := dec_digits 20 z [].

(** The value of a string of decimal digits. *)
Definition dec_value (l : list Z) : Z := foldl (fun acc c => 10 * acc + (c - 48)) 0 l.

(** ** Tactics *)

(** Peel one bind of an outcome computation that is known to return. *)
Ltac inv_bind H :=
  match type of H with
  | (?m ≫= ?k) = Ret _ =>
      let x := fresh "x" in
      let E := fresh "E" in
      destruct m as [x| | | |] eqn:E; simpl in H; try discriminate H
  | mbind ?k ?m = Ret _ =>
      let x := fresh "x" in
      let E := fresh "E" in
      destruct m as [x| | | |] eqn:E; simpl in H; try discriminate H
  end.

(** Turn boolean comparisons in the context into propositions. *)
Ltac bool_hyps :=
  repeat match goal with
  | H : _ && _ = true |- _ => apply andb_true_iff in H as [? ?]
  | H : _ || _ = false |- _ => apply orb_false_iff in H as [? ?]
  | H : negb _ = true |- _ => apply negb_true_iff in H
  | H : negb _ = false |- _ => apply negb_false_iff in H
  | H : (_ <=? _) = true |- _ => apply Z.leb_le in H
  | H : (_ <=? _) = false |- _ => apply Z.leb_gt in H
  | H : (_ <? _) = true |- _ => apply Z.ltb_lt in H
  | H : (_ <? _) = false |- _ => apply Z.ltb_ge in H
  | H : (_ =? _) = true |- _ => apply Z.eqb_eq in H
  | H : (_ =? _) = false |- _ => apply Z.eqb_neq in H
  | H : bool_decide _ = true |- _ => apply bool_decide_eq_true in H
  | H : bool_decide _ = false |- _ => apply bool_decide_eq_false in H
  end.

(** ** Generic lemmas *)

Create HintDb persona.

Lemma bind_Ret {X A B} (m : outcome_of X A) (k : A -> outcome_of X B) b :
  (m ≫= k) = Ret b <-> exists a, m = Ret a /\ k a = Ret b.
Proof. destruct m; naive_solver. Qed.

Lemma keeping_Ret {S A} (s : S) (m : outcome A) a : keeping s m = Ret a <-> m = Ret a.
Proof. destruct m; naive_solver. Qed.

Lemma within_Ret {S T A} (f : S -> T) (m : changing S A) a : within f m = Ret a <-> m = Ret a.
Proof. destruct m; naive_solver. Qed.

Lemma at_Ret {A} (l : list A) i x : at_ l i = Ret x <-> l !! i = Some x.
Proof. unfold at_. destruct (l !! i); naive_solver. Qed.

Lemma at_z_Ret {A} (l : list A) z x : 0 <= z -> l !! Z.to_nat z = Some x -> at_z l z = Ret x.
Proof. intros Hz Hx. unfold at_z. rewrite (proj2 (Z.ltb_ge z 0)) by lia. by apply at_Ret. Qed.

Lemma set_Ret {A} (l : list A) i x l' :
  set_ l i x = Ret l' <-> (i < length l)%nat /\ l' = <[i := x]> l.
Proof. unfold set_. case_decide; naive_solver. Qed.

Lemma foldM_app {X A B} (f : B -> A -> outcome_of X B) acc l1 l2 :
  foldM f acc (l1 ++ l2) = (acc' ← foldM f acc l1; foldM f acc' l2).
Proof.
  revert acc. induction l1 as [|x l1 IH]; intros acc; simpl; [done|].
  destruct (f acc x); simpl; auto.
Qed.

(** The loop invariant rule for [foldM]. *)
Lemma foldM_inv {X A B} (f : B -> A -> outcome_of X B) (P : B -> Prop) acc l r :
  P acc ->
  (forall b x b', x ∈ l -> P b -> f b x = Ret b' -> P b') ->
  foldM f acc l = Ret r -> P r.
Proof.
  revert acc. induction l as [|x l IH]; intros acc HP Hstep Hf; simpl in *.
  - by injection Hf as <-.
  - inv_bind Hf. eapply IH; [| |exact Hf].
    + eapply Hstep; [left|exact HP|done].
    + intros b y b' Hy. apply Hstep. by right.
Qed.

(** The same rule with termination, for an invariant that names the part done. *)
Lemma foldM_prefix {X A B} (f : B -> A -> outcome_of X B) (P : list A -> B -> Prop) acc l :
  P [] acc ->
  (forall pre x rest b, l = pre ++ x :: rest -> P pre b -> exists b', f b x = Ret b' /\ P (pre ++ [x]) b') ->
  exists r, foldM f acc l = Ret r /\ P l r.
Proof.
  intros H0 Hstep. enough (H : forall pre rest b, l = pre ++ rest -> P pre b ->
    exists r, foldM f b rest = Ret r /\ P l r) by by apply (H []).
  intros pre rest. revert pre. induction rest as [|x rest IH]; intros pre b Hl Hb; simpl.
  - exists b. split; [done|]. by rewrite Hl, app_nil_r.
  - destruct (Hstep pre x rest b Hl Hb) as (b' & -> & Hb'). simpl.
    apply (IH (pre ++ [x])); [|done]. by rewrite <- app_assoc.
Qed.

(** The rule for loops over an interval. *)
Lemma foldM_interval {X B} (f : B -> nat -> outcome_of X B) (P : nat -> B -> Prop) acc n :
  P 0%nat acc -> (forall i b, (i < n)%nat -> P i b -> exists b', f b i = Ret b' /\ P (S i) b') ->
  exists r, foldM f acc (seq 0 n) = Ret r /\ P n r.
Proof.
  intros H0 Hstep. destruct (foldM_prefix f (fun pre b => P (length pre) b) acc (seq 0 n)) as (r & E & Hr); [done| |].
  - intros pre i rest b Hseq Hb. assert (Hi : seq 0 n !! length pre = Some i) by (rewrite Hseq; by apply list_lookup_middle).
    apply lookup_seq in Hi as [-> Hi]. destruct (Hstep _ b Hi Hb) as (b' & E & Hb'). exists b'.
    split; [done|]. rewrite length_app. simpl. by rewrite Nat.add_1_r.
  - exists r. by rewrite length_seq in Hr.
Qed.

(** A loop that appends a list for every element. *)
Lemma foldM_append {X A B} (f : list B -> A -> outcome_of X (list B)) (g : A -> list B) (l : list A) out :
  (forall x out, x ∈ l -> f out x = Ret (out ++ g x)) -> foldM f out l = Ret (out ++ flat_map g l).
Proof.
  revert out. induction l as [|x l IH]; intros out Hf; simpl; [by rewrite app_nil_r|].
  rewrite Hf by set_solver. cbn [mbind outcome_bind]. rewrite IH by (intros; apply Hf; set_solver).
  by rewrite app_assoc.
Qed.

Lemma foldM_ext {X A B} (f g : B -> A -> outcome_of X B) acc l :
  (forall b x, x ∈ l -> f b x = g b x) -> foldM f acc l = foldM g acc l.
Proof.
  revert acc. induction l as [|x l IH]; intros acc H; simpl; [done|].
  rewrite H by left. destruct (g acc x); simpl; auto. apply IH. intros. apply H. by right.
Qed.

(** If [f] succeeds only where [g] does, with the same result, so does its loop. *)
Lemma foldM_mono {X A B} (f g : B -> A -> outcome_of X B) l :
  (forall b x r, f b x = Ret r -> g b x = Ret r) ->
  forall b r, foldM f b l = Ret r -> foldM g b l = Ret r.
Proof.
  intros Hfg. induction l as [|x l IH]; intros b r H; [done|]. simpl in *.
  apply bind_Ret in H as (b' & Hb & H). rewrite (Hfg _ _ _ Hb). simpl. auto.
Qed.

Lemma u32_small z : 0 <= z < 2 ^ 32 -> u32 z = z.
Proof. intros. unfold u32. by apply Z.mod_small. Qed.

Lemma u32_range z : 0 <= u32 z < 2 ^ 32.
Proof. unfold u32. apply Z.mod_pos_bound. lia. Qed.

Lemma u64_small z : 0 <= z < 2 ^ 64 -> u64 z = z.
Proof. intros. unfold u64. by apply Z.mod_small. Qed.

Lemma i32_at_most z : 0 <= z -> i32 z <= z.
Proof. intros Hz. unfold i32. pose proof (Z.mod_le (z + 2 ^ 31) (2 ^ 32)). lia. Qed.

Lemma i32_small z : - 2 ^ 31 <= z < 2 ^ 31 -> i32 z = z.
Proof. intros. unfold i32. rewrite Z.mod_small; lia. Qed.

(** The extremes of a non-empty list, as the ordered containers return them. *)
Lemma foldr_min_spec l : forall x, foldr Z.min x l ∈ x :: l /\ forall y, y ∈ x :: l -> foldr Z.min x l <= y.
Proof.
  induction l as [|z l IH]; intros x; simpl.
  - split; [left|]. intros y. rewrite list_elem_of_singleton. lia.
  - destruct (IH x) as [Hin Hle]. split.
    + destruct (Z.min_spec z (foldr Z.min x l)) as [[_ ->]|[_ ->]]; [right; left|].
      apply elem_of_cons in Hin as [->|?]; [left|by right; right].
    + intros y. rewrite !elem_of_cons. intros Hy.
      assert (Hy' : y = z \/ y ∈ x :: l) by (rewrite elem_of_cons; tauto).
      destruct Hy' as [->|Hy']; [lia|]. specialize (Hle y Hy'). lia.
Qed.

Lemma foldr_max_spec l : forall x, foldr Z.max x l ∈ x :: l /\ forall y, y ∈ x :: l -> y <= foldr Z.max x l.
Proof.
  induction l as [|z l IH]; intros x; simpl.
  - split; [left|]. intros y. rewrite list_elem_of_singleton. lia.
  - destruct (IH x) as [Hin Hle]. split.
    + destruct (Z.max_spec z (foldr Z.max x l)) as [[_ ->]|[_ ->]]; [|right; left].
      apply elem_of_cons in Hin as [->|?]; [left|by right; right].
    + intros y. rewrite !elem_of_cons. intros Hy.
      assert (Hy' : y = z \/ y ∈ x :: l) by (rewrite elem_of_cons; tauto).
      destruct Hy' as [->|Hy']; [lia|]. specialize (Hle y Hy'). lia.
Qed.

#[export] Hint Resolve u32_range : persona.
