(* ===== verification/Utf8.v ===== *)
(** * UTF-8 coding: [src/unicode.cpp], [common/unicode.cpp], the decoder of
    [src/llama-grammar.cpp] and the validators of
    [tools/server/server-common.cpp].

    Five pieces of the code base read UTF-8 independently of each other; they
    are translated one by one and then related: the codepoint reader of the
    tokenizers, the incremental parser of the PEG library, the validity check
    and the truncation check of the server, and the resumable decoder the
    grammar sampler feeds with token pieces.  Bytes are [Z] in [0, 256). *)

From S2P Require Import Prelude.

(** ** [src/unicode.cpp] *)
Module Unicode.

Definition len_lookup : list Z := [1; 1; 1; 1; 1; 1; 1; 1; 1; 1; 1; 1; 2; 2; 3; 4].

Definition unicode_len_utf8 (src : Z) : Z :=
  nth (Z.to_nat (Z.shiftr src 4)) len_lookup 0.

Definition unicode_cpt_to_utf8 (cpt : Z) : outcome (list Z) :=
  if cpt <=? 0x7f then Ret [u8 cpt]
  else if (0x80 <=? cpt) && (cpt <=? 0x7ff) then
    Ret [Z.lor 0xc0 (Z.land (Z.shiftr cpt 6) 0x1f);
         Z.lor 0x80 (Z.land cpt 0x3f)]
  else if (0x800 <=? cpt) && (cpt <=? 0xffff) then
    Ret [Z.lor 0xe0 (Z.land (Z.shiftr cpt 12) 0x0f);
         Z.lor 0x80 (Z.land (Z.shiftr cpt 6) 0x3f);
         Z.lor 0x80 (Z.land cpt 0x3f)]
  else if (0x10000 <=? cpt) && (cpt <=? 0x10ffff) then
    Ret [Z.lor 0xf0 (Z.land (Z.shiftr cpt 18) 0x07);
         Z.lor 0x80 (Z.land (Z.shiftr cpt 12) 0x3f);
         Z.lor 0x80 (Z.land (Z.shiftr cpt 6) 0x3f);
         Z.lor 0x80 (Z.land cpt 0x3f)]
  else Throw "invalid codepoint".

(** [for cpt in cps: result.append(unicode_cpt_to_utf8(cpt))] *)
Definition unicode_cpts_to_utf8 (cps : list Z) : outcome (list Z) :=
  foldM (fun acc cpt => b ← unicode_cpt_to_utf8 cpt; Ret (acc ++ b)) [] cps.

(** [(c & 0xc0) == 0x80]: a continuation byte. *)
Definition is_cont (b : Z) : bool := Z.land b 0xc0 =? 0x80.

(** Returns the codepoint and the new value of the reference [offset]. *)
Definition unicode_cpt_from_utf8 (utf8 : list Z) (offset : nat) : outcome (Z * nat) :=
  let b k := nth (offset + k) utf8 0 in
  let size := length utf8 in
  c_assert (offset <? size)%nat "offset < utf8.size()";;
  if Z.land (b 0%nat) 0x80 =? 0 then Ret (b 0%nat, (offset + 1)%nat)
  else if Z.land (b 0%nat) 0x40 =? 0 then Throw "invalid character"
  else if Z.land (b 0%nat) 0x20 =? 0 then
    if (size <=? offset + 1)%nat || negb (is_cont (b 1%nat)) then Throw "invalid character"
    else Ret (Z.lor (Z.shiftl (Z.land (b 0%nat) 0x1f) 6) (Z.land (b 1%nat) 0x3f),
              (offset + 2)%nat)
  else if Z.land (b 0%nat) 0x10 =? 0 then
    if (size <=? offset + 2)%nat || negb (is_cont (b 1%nat)) || negb (is_cont (b 2%nat))
    then Throw "invalid character"
    else Ret (Z.lor (Z.lor (Z.shiftl (Z.land (b 0%nat) 0x0f) 12)
                           (Z.shiftl (Z.land (b 1%nat) 0x3f) 6))
                    (Z.land (b 2%nat) 0x3f),
              (offset + 3)%nat)
  else if Z.land (b 0%nat) 0x08 =? 0 then
    if (size <=? offset + 3)%nat || negb (is_cont (b 1%nat)) || negb (is_cont (b 2%nat))
       || negb (is_cont (b 3%nat))
    then Throw "invalid character"
    else Ret (Z.lor (Z.lor (Z.lor (Z.shiftl (Z.land (b 0%nat) 0x07) 18)
                                  (Z.shiftl (Z.land (b 1%nat) 0x3f) 12))
                           (Z.shiftl (Z.land (b 2%nat) 0x3f) 6))
                    (Z.land (b 3%nat) 0x3f),
              (offset + 4)%nat)
  else Throw "failed to convert utf8 to codepoint".

(** The [while (offset < utf8.size())] loop; an invalid sequence becomes
    U+FFFD and one byte is skipped. *)
Fixpoint cpts_loop (fuel : nat) (utf8 : list Z) (offset : nat) (result : list Z)
    : outcome (list Z) :=
  match fuel with
  | O => NoFuel
  | S f =>
      if (offset <? length utf8)%nat then
        match unicode_cpt_from_utf8 utf8 offset with
        | Ret (c, offset') => cpts_loop f utf8 offset' (result ++ [c])
        | Throw _ => cpts_loop f utf8 (offset + 1) (result ++ [0xFFFD])
        | Fatal e => Fatal e
        | Undef => Undef
        | NoFuel => NoFuel
        end
      else Ret result
  end.

Definition unicode_cpts_from_utf8 (utf8 : list Z) : outcome (list Z) :=
  cpts_loop (S (length utf8)) utf8 0 [].

(** The GPT-2 byte alphabet. [byte_ranges] are the three [for] ranges the two
    map builders share. *)
Definition byte_ranges : list Z := seqZ 0x21 (0x7E - 0x21 + 1) ++ seqZ 0xA1 (0xAC - 0xA1 + 1)
                                   ++ seqZ 0xAE (0xFF - 0xAE + 1).

Definition unicode_byte_to_utf8_map : outcome (gmap Z (list Z)) :=
  m ← foldM (fun (m : gmap Z (list Z)) c => s ← unicode_cpt_to_utf8 c; Ret (<[c := s]> m))
        ∅ byte_ranges;
  '(m, _) ← foldM (fun '((m, n) : gmap Z (list Z) * Z) c =>
       match m !! c with
       | Some _ => Ret (m, n)
       | None => s ← unicode_cpt_to_utf8 (256 + n); Ret (<[c := s]> m, n + 1)
       end) (m, 0) (seqZ 0 256);
  Ret m.

Definition unicode_utf8_to_byte_map : outcome (gmap (list Z) Z) :=
  m ← foldM (fun (m : gmap (list Z) Z) c => s ← unicode_cpt_to_utf8 c; Ret (<[s := c]> m))
        ∅ byte_ranges;
  '(m, _) ← foldM (fun '((m, n) : gmap (list Z) Z * Z) c =>
       s ← unicode_cpt_to_utf8 c;
       match m !! s with
       | Some _ => Ret (m, n)
       | None => s' ← unicode_cpt_to_utf8 (256 + n); Ret (<[s' := c]> m, n + 1)
       end) (m, 0) (seqZ 0 256);
  Ret m.

Definition unicode_byte_to_utf8 (byte : Z) : outcome (list Z) :=
  m ← unicode_byte_to_utf8_map;
  match m !! byte with Some s => Ret s | None => Throw "out_of_range" end.

Definition unicode_utf8_to_byte (utf8 : list Z) : outcome Z :=
  m ← unicode_utf8_to_byte_map;
  match m !! utf8 with Some b => Ret b | None => Throw "out_of_range" end.

(** One word: the text is re-encoded codepoint by codepoint, then every byte
    is mapped to its printable stand-in. *)
Definition byte_encode_word (word : list Z) : outcome (list Z) :=
  utf_word ← unicode_cpts_from_utf8 word;
  text_utf ← foldM (fun acc c => s ← unicode_cpt_to_utf8 c; Ret (acc ++ s)) [] utf_word;
  foldM (fun acc c => s ← unicode_byte_to_utf8 c; Ret (acc ++ s)) [] text_utf.

Definition unicode_byte_encoding_process (bpe_words : list (list Z)) : outcome (list (list Z)) :=
  foldM (fun acc w => e ← byte_encode_word w; Ret (acc ++ [e])) [] bpe_words.

End Unicode.

(** ** [common/unicode.cpp] *)
Module CommonUnicode.
Import Unicode.

Definition utf8_sequence_length (first_byte : Z) : Z :=
  nth (Z.to_nat (Z.shiftr first_byte 4)) len_lookup 0.

Inductive utf8_parse_result :=
  | SUCCESS (codepoint : Z) (bytes_consumed : nat)
  | INCOMPLETE
  | INVALID.

#[export] Instance utf8_parse_result_eq_dec : EqDecision utf8_parse_result.
Proof. solve_decision. Defined.

Definition parse_utf8_codepoint (input : list Z) (offset : nat) : utf8_parse_result :=
  let b k := nth (offset + k) input 0 in
  let size := length input in
  if (size <=? offset)%nat then INCOMPLETE
  else if Z.land (b 0%nat) 0x80 =? 0 then SUCCESS (b 0%nat) 1
  else if Z.land (b 0%nat) 0x40 =? 0 then INVALID
  else if Z.land (b 0%nat) 0x20 =? 0 then
    if (size <=? offset + 1)%nat then INCOMPLETE
    else if negb (is_cont (b 1%nat)) then INVALID
    else SUCCESS (Z.lor (Z.shiftl (Z.land (b 0%nat) 0x1f) 6) (Z.land (b 1%nat) 0x3f)) 2
  else if Z.land (b 0%nat) 0x10 =? 0 then
    if (size <=? offset + 2)%nat then INCOMPLETE
    else if negb (is_cont (b 1%nat)) || negb (is_cont (b 2%nat)) then INVALID
    else SUCCESS (Z.lor (Z.lor (Z.shiftl (Z.land (b 0%nat) 0x0f) 12)
                               (Z.shiftl (Z.land (b 1%nat) 0x3f) 6))
                        (Z.land (b 2%nat) 0x3f)) 3
  else if Z.land (b 0%nat) 0x08 =? 0 then
    if (size <=? offset + 3)%nat then INCOMPLETE
    else if negb (is_cont (b 1%nat)) || negb (is_cont (b 2%nat)) || negb (is_cont (b 3%nat))
    then INVALID
    else SUCCESS (Z.lor (Z.lor (Z.lor (Z.shiftl (Z.land (b 0%nat) 0x07) 18)
                                      (Z.shiftl (Z.land (b 1%nat) 0x3f) 12))
                               (Z.shiftl (Z.land (b 2%nat) 0x3f) 6))
                        (Z.land (b 3%nat) 0x3f)) 4
  else INVALID.

End CommonUnicode.

(** ** The server's checks, [tools/server/server-common.cpp] *)
Module ServerUtf8.

(** The [for (i = 1; i <= 4 && i <= len; ++i)] loop. *)
Fixpoint validate_loop (text : list Z) (n : nat) (i : nat) : nat :=
  let len := length text in
  match n with
  | O => len
  | S n' =>
      if (i <=? len)%nat then
        let c := nth (len - i) text 0 in
        if Z.land c 0xE0 =? 0xC0 then
          if (i <? 2)%nat then (len - i)%nat else validate_loop text n' (S i)
        else if Z.land c 0xF0 =? 0xE0 then
          if (i <? 3)%nat then (len - i)%nat else validate_loop text n' (S i)
        else if Z.land c 0xF8 =? 0xF0 then
          if (i <? 4)%nat then (len - i)%nat else validate_loop text n' (S i)
        else validate_loop text n' (S i)
      else len
  end.

Definition validate_utf8 (text : list Z) : nat :=
  if (length text =? 0)%nat then 0%nat else validate_loop text 4 1.

(** [c || d] with a [d] that is only evaluated when [c] is false. *)
Definition or_else (c d : outcome bool) : outcome bool :=
  c ≫= fun x : bool => if x then Ret true else d.

(** [(bytes[k] & 0xC0) != 0x80]: only the bytes of the text, those before [end],
    may be read. *)
Definition not_cont_at (p : list Z) (k : nat) : outcome bool :=
  b ← at_ p k; Ret (negb (Unicode.is_cont b)).

(** [bytes] is the suffix [p] still to be checked; [end - bytes] its length. *)
Fixpoint is_valid_utf8_loop (fuel : nat) (p : list Z) : outcome bool :=
  match fuel with
  | O => NoFuel
  | S f =>
      let n := length p in
      if (0 <? n)%nat then
        b ← at_ p 0;
        if b <=? 0x7F then is_valid_utf8_loop f (drop 1 p)
        else if Z.land b 0xE0 =? 0xC0 then
          or_else (Ret (n <? 2)%nat) (not_cont_at p 1) ≫= fun bad : bool =>
          if bad then Ret false else is_valid_utf8_loop f (drop 2 p)
        else if Z.land b 0xF0 =? 0xE0 then
          or_else (or_else (Ret (n <? 3)%nat) (not_cont_at p 1)) (not_cont_at p 2) ≫= fun bad : bool =>
          if bad then Ret false else is_valid_utf8_loop f (drop 3 p)
        else if Z.land b 0xF8 =? 0xF0 then
          or_else (or_else (or_else (Ret (n <? 4)%nat) (not_cont_at p 1))
                           (not_cont_at p 2)) (not_cont_at p 3) ≫= fun bad : bool =>
          if bad then Ret false else is_valid_utf8_loop f (drop 4 p)
        else Ret false
      else Ret true
  end.

Definition is_valid_utf8 (str : list Z) : outcome bool :=
  is_valid_utf8_loop (S (length str)) str.

End ServerUtf8.

(** ** The grammar sampler's decoder, [src/llama-grammar.cpp] *)
Module GrammarUtf8.

Record llama_partial_utf8 := mk_partial_utf8 {
  value : Z;       (** bit value so far (unshifted) *)
  n_remain : Z;    (** bytes remaining; -1 indicates an invalid sequence *)
}.

#[export] Instance llama_partial_utf8_eq_dec : EqDecision llama_partial_utf8.
Proof. solve_decision. Defined.

Definition partial_utf8_zero : llama_partial_utf8 := mk_partial_utf8 0 0.

(** [for ( ; pos < end && *pos; pos++)] with [n = end - pos]. *)
Fixpoint decode_rest (n : nat) (v : Z) (pos : cstr) : Z * cstr :=
  match n, pos with
  | S n', b :: pos' =>
      if b =? 0 then (v, pos)
      else decode_rest n' (u32 (u32 (Z.shiftl v 6) + Z.land b 0x3F)) pos'
  | _, _ => (v, pos)
  end.

(** [decode_utf8(const char * src)] *)
Definition decode_utf8_char (src : cstr) : Z * cstr :=
  let first_byte := chr_at src 0 in
  let len := Unicode.unicode_len_utf8 first_byte in
  let mask := u8 (Z.shiftl 1 (8 - len) - 1) in
  decode_rest (Z.to_nat (len - 1)) (Z.land first_byte mask) (drop 1 src).

Definition str_lookup : list Z := [1; 1; 1; 1; 1; 1; 1; 1; 0; 0; 0; 0; 2; 2; 3; 4].

(** "continue previous decode, if applicable": [None] is the early return on
    an invalid sequence. *)
Fixpoint continue_loop (v n : Z) (pos : cstr) : option (Z * Z * cstr) :=
  match pos with
  | b :: pos' =>
      if negb (b =? 0) && (0 <? n) then
        if Z.shiftr b 6 =? 2
        then continue_loop (u32 (u32 (Z.shiftl v 6) + Z.land b 0x3F)) (n - 1) pos'
        else None
      else Some (v, n, pos)
  | [] => Some (v, n, pos)
  end.

(** The inner loop [while ( *pos != 0 && n_remain > 0)]. *)
Fixpoint tail_loop (v n : Z) (pos : cstr) : Z * Z * cstr :=
  match pos with
  | b :: pos' =>
      if negb (b =? 0) && (0 <? n)
      then tail_loop (u32 (u32 (Z.shiftl v 6) + Z.land b 0x3F)) (n - 1) pos'
      else (v, n, pos)
  | [] => (v, n, pos)
  end.

(** The outer loop [while ( *pos != 0)] and the return. *)
Fixpoint decode_loop (fuel : nat) (code_points : list Z) (v n : Z) (pos : cstr)
    : outcome (list Z * llama_partial_utf8) :=
  match fuel with
  | O => NoFuel
  | S f =>
      if chr_at pos 0 =? 0 then Ret (code_points ++ [0], mk_partial_utf8 v n)
      else
        let first_byte := chr_at pos 0 in
        let n := nth (Z.to_nat (Z.shiftr first_byte 4)) str_lookup 0 - 1 in
        if n <? 0 then Ret ([0], mk_partial_utf8 0 n)
        else
          let mask := u8 (Z.shiftl 1 (7 - n) - 1) in
          let '(v, n, pos) := tail_loop (Z.land first_byte mask) n (drop 1 pos) in
          decode_loop f (if n =? 0 then code_points ++ [v] else code_points) v n pos
  end.

(** [decode_utf8(const std::string & src, llama_partial_utf8 partial_start)] *)
Definition decode_utf8 (src : list Z) (partial_start : llama_partial_utf8)
    : outcome (list Z * llama_partial_utf8) :=
  match continue_loop (value partial_start) (n_remain partial_start) src with
  | None => Ret ([0], mk_partial_utf8 0 (-1))
  | Some (v, n, pos) =>
      let code_points :=
        if (0 <? n_remain partial_start) && (n =? 0) then [v] else [] in
      decode_loop (S (length src)) code_points v n pos
  end.

End GrammarUtf8.
