(* ===== verification/Utf8Facts.v ===== *)
(** * Theorems about the UTF-8 readers of [Utf8.v].

    [enc c] describes the encoding of a codepoint arithmetically; every reader
    is characterised on it, so round trips and the agreement of the readers
    follow by induction over the codepoints. *)

From S2P Require Import Prelude Utf8.
From Stdlib Require Import Lia.
Import Unicode CommonUnicode ServerUtf8 GrammarUtf8.

Local Ltac Zify.zify_post_hook ::= Z.to_euclidean_division_equations.

(** ** Arithmetic description of the encoding *)

Definition valid_cpt (c : Z) : Prop := 0 <= c <= 0x10ffff.

Definition enc (c : Z) : list Z :=
  if c <=? 0x7f then [c]
  else if c <=? 0x7ff then [192 + c / 64; 128 + c mod 64]
  else if c <=? 0xffff then [224 + c / 4096; 128 + (c / 64) mod 64; 128 + c mod 64]
  else [240 + c / 262144; 128 + (c / 4096) mod 64; 128 + (c / 64) mod 64; 128 + c mod 64].

Definition encs (cps : list Z) : list Z := concat (map enc cps).

(** What the readers test of a leading byte and of a continuation byte. *)
Definition lead1_facts (x : Z) : bool :=
  (Z.land x 0x80 =? 0) && (x <=? 0x7F) && (Z.shiftr x 4 <? 8) && (0 <=? Z.shiftr x 4)
  && (Z.land x 127 =? x) && negb (Z.land x 0xE0 =? 0xC0) && negb (Z.land x 0xF0 =? 0xE0)
  && negb (Z.land x 0xF8 =? 0xF0) && negb (Z.shiftr x 6 =? 2).

Definition lead2_facts (x : Z) : bool :=
  let b := 192 + x in
  negb (Z.land b 0x80 =? 0) && negb (Z.land b 0x40 =? 0) && (Z.land b 0x20 =? 0)
  && (Z.land b 0x1f =? x) && negb (b <=? 0x7F) && (Z.land b 0xE0 =? 0xC0)
  && (nth (Z.to_nat (Z.shiftr b 4)) str_lookup 0 =? 2).

Definition lead3_facts (x : Z) : bool :=
  let b := 224 + x in
  negb (Z.land b 0x80 =? 0) && negb (Z.land b 0x40 =? 0) && negb (Z.land b 0x20 =? 0)
  && (Z.land b 0x10 =? 0) && (Z.land b 0x0f =? x) && negb (b <=? 0x7F)
  && negb (Z.land b 0xE0 =? 0xC0) && (Z.land b 0xF0 =? 0xE0)
  && (nth (Z.to_nat (Z.shiftr b 4)) str_lookup 0 =? 3).

Definition lead4_facts (x : Z) : bool :=
  let b := 240 + x in
  negb (Z.land b 0x80 =? 0) && negb (Z.land b 0x40 =? 0) && negb (Z.land b 0x20 =? 0)
  && negb (Z.land b 0x10 =? 0) && (Z.land b 0x08 =? 0) && (Z.land b 0x07 =? x)
  && negb (b <=? 0x7F) && negb (Z.land b 0xE0 =? 0xC0) && negb (Z.land b 0xF0 =? 0xE0)
  && (Z.land b 0xF8 =? 0xF0) && (nth (Z.to_nat (Z.shiftr b 4)) str_lookup 0 =? 4).

Definition cont_facts (y : Z) : bool :=
  let b := 128 + y in
  is_cont b && (Z.land b 0x3f =? y) && (Z.shiftr b 6 =? 2) && negb (b =? 0)
  && negb (Z.land b 0xE0 =? 0xC0) && negb (Z.land b 0xF0 =? 0xE0)
  && negb (Z.land b 0xF8 =? 0xF0).

(** A byte string that is a sequence of well-formed encodings, read one
    codepoint at a time by [unicode_cpt_from_utf8]. *)
Inductive reads (s : list Z) : nat -> list Z -> Prop :=
  | reads_end : reads s (length s) []
  | reads_step i c j cps :
      unicode_cpt_from_utf8 s i = Ret (c, j) -> reads s j cps -> reads s i (c :: cps).

(** Token pieces decoded one after the other, each from the partial state the
    previous one left: what [llama_grammar_accept_token] does over a run. *)
Fixpoint decode_pieces (p : llama_partial_utf8) (pieces : list (list Z))
    : outcome (list Z * llama_partial_utf8) :=
  match pieces with
  | [] => Ret ([], p)
  | b :: bs =>
      '(l, p1) ← decode_utf8 b p;
      '(ls, p2) ← decode_pieces p1 bs;
      Ret (removelast l ++ ls, p2)
  end.

(** ** Facts about bytes, by enumeration *)

Lemma seqZ_all (P : Z -> bool) n :
  forallb P (seqZ 0 n) = true -> forall b, 0 <= b < n -> P b = true.
Proof.
  intros H b Hb. rewrite forallb_forall in H. apply H.
  apply list_elem_of_In, elem_of_seqZ. lia.
Qed.

Lemma lead1_ok x : 0 <= x < 128 -> lead1_facts x = true.
Proof. apply seqZ_all. vm_compute. reflexivity. Qed.
Lemma lead2_ok x : 0 <= x < 32 -> lead2_facts x = true.
Proof. apply seqZ_all. vm_compute. reflexivity. Qed.
Lemma lead3_ok x : 0 <= x < 16 -> lead3_facts x = true.
Proof. apply seqZ_all. vm_compute. reflexivity. Qed.
Lemma lead4_ok x : 0 <= x < 8 -> lead4_facts x = true.
Proof. apply seqZ_all. vm_compute. reflexivity. Qed.
Lemma cont_ok y : 0 <= y < 64 -> cont_facts y = true.
Proof. apply seqZ_all. vm_compute. reflexivity. Qed.

(** Splits a conjunction of boolean facts into equations [_ = true/false],
    keeping comparisons boolean so that they rewrite in the readers. *)
Ltac split_facts H :=
  repeat match type of H with
  | _ && _ = true =>
      let H1 := fresh H in apply andb_true_iff in H as [H H1]; split_facts H1
  end; try (apply negb_true_iff in H).

Ltac use_facts L :=
  let H := fresh "Fact" in pose proof L as H;
  unfold lead1_facts, lead2_facts, lead3_facts, lead4_facts, cont_facts in H;
  cbv zeta in H; split_facts H.

Ltac rw_facts :=
  repeat match goal with
  | H : ?b = true |- context [?b] => rewrite H
  | H : ?b = false |- context [?b] => rewrite H
  | H : (?a =? ?b) = true |- context [?a] =>
      lazymatch a with Z.land _ _ => idtac | nth _ _ _ => idtac end;
      rewrite (proj1 (Z.eqb_eq a b) H)
  end.

(** ** Bit operations as arithmetic *)

Lemma lor_shiftl x y n : 0 <= n -> 0 <= y < 2 ^ n -> Z.lor (Z.shiftl x n) y = x * 2 ^ n + y.
Proof.
  intros Hn Hy. rewrite <- Z.shiftl_mul_pow2 by lia. symmetry. apply Z.add_nocarry_lor.
  apply Z.bits_inj'. intros k Hk. rewrite Z.land_spec, Z.shiftl_spec, Z.bits_0 by lia.
  destruct (Z.lt_ge_cases k n).
  - rewrite Z.testbit_neg_r by lia. done.
  - replace y with (y mod 2 ^ n) by (apply Z.mod_small; lia).
    rewrite Z.mod_pow2_bits_high by lia. apply andb_false_r.
Qed.

Lemma lor_tag t x n : 0 <= n -> 0 <= x < 2 ^ n -> Z.lor (t * 2 ^ n) x = t * 2 ^ n + x.
Proof.
  intros. rewrite <- (Z.shiftl_mul_pow2 t) by lia. rewrite lor_shiftl by done.
  by rewrite Z.shiftl_mul_pow2.
Qed.

Lemma land_3f x : Z.land x 0x3f = x mod 64.
Proof. change 0x3f with (Z.ones 6). by rewrite Z.land_ones. Qed.

Lemma tag_cont x : Z.lor 0x80 (Z.land x 0x3f) = 128 + x mod 64.
Proof.
  rewrite land_3f. change 0x80 with (2 * 2 ^ 6). rewrite lor_tag; [lia|lia|].
  apply Z.mod_pos_bound. lia.
Qed.

Lemma shiftr_6 x : Z.shiftr x 6 = x / 64.
Proof. by rewrite Z.shiftr_div_pow2. Qed.
Lemma shiftr_12 x : Z.shiftr x 12 = x / 4096.
Proof. by rewrite Z.shiftr_div_pow2. Qed.
Lemma shiftr_18 x : Z.shiftr x 18 = x / 262144.
Proof. by rewrite Z.shiftr_div_pow2. Qed.

(** ** The encoder *)

(** The reader branches on the same four ranges as the encoder. *)
Lemma enc_cases c : valid_cpt c ->
  (0 <= c <= 0x7f /\ enc c = [c])
  \/ (0x7f < c <= 0x7ff /\ enc c = [192 + c / 64; 128 + c mod 64])
  \/ (0x7ff < c <= 0xffff
      /\ enc c = [224 + c / 4096; 128 + (c / 64) mod 64; 128 + c mod 64])
  \/ (0xffff < c <= 0x10ffff
      /\ enc c = [240 + c / 262144; 128 + (c / 4096) mod 64; 128 + (c / 64) mod 64;
                  128 + c mod 64]).
Proof.
  intros [H0 H1]. unfold enc.
  destruct (Z.leb_spec c 0x7f); [left; split; [lia|done]|right].
  destruct (Z.leb_spec c 0x7ff); [left; split; [lia|done]|right].
  destruct (Z.leb_spec c 0xffff); [left|right]; (split; [lia|done]).
Qed.

Lemma cpt_to_utf8_enc c : valid_cpt c -> unicode_cpt_to_utf8 c = Ret (enc c).
Proof.
  intros [H0 H1]. unfold unicode_cpt_to_utf8, enc.
  rewrite !tag_cont, shiftr_6, shiftr_12, shiftr_18.
  destruct (Z.leb_spec c 0x7f).
  { unfold u8. rewrite Z.mod_small by lia. done. }
  rewrite (proj2 (Z.leb_le 0x80 c)) by lia. simpl.
  destruct (Z.leb_spec c 0x7ff).
  { change 0x1f with (Z.ones 5). rewrite Z.land_ones by lia.
    change 0xc0 with (6 * 2 ^ 5). rewrite (Z.mod_small (c / 64)), lor_tag by lia.
    repeat f_equal; lia. }
  rewrite (proj2 (Z.leb_le 0x800 c)) by lia. simpl.
  destruct (Z.leb_spec c 0xffff).
  { change 0x0f with (Z.ones 4). rewrite Z.land_ones by lia.
    change 0xe0 with (14 * 2 ^ 4). rewrite (Z.mod_small (c / 4096)), lor_tag by lia.
    repeat f_equal; lia. }
  rewrite (proj2 (Z.leb_le 0x10000 c)), (proj2 (Z.leb_le c 0x10ffff)) by lia. simpl.
  change 0x07 with (Z.ones 3). rewrite Z.land_ones by lia.
  change 0xf0 with (30 * 2 ^ 3). rewrite (Z.mod_small (c / 262144)), lor_tag by lia.
  repeat f_equal; lia.
Qed.

Lemma cpt_to_utf8_Ret c b : 0 <= c -> unicode_cpt_to_utf8 c = Ret b -> valid_cpt c /\ b = enc c.
Proof.
  intros Hc H. destruct (decide (valid_cpt c)) as [Hv|Hv].
  - rewrite cpt_to_utf8_enc in H by done. by injection H as <-.
  - exfalso. unfold valid_cpt in Hv. revert H. unfold unicode_cpt_to_utf8.
    repeat case_match; bool_hyps; try discriminate; lia.
Qed.

Lemma cpts_to_utf8_encs cps : Forall valid_cpt cps ->
  unicode_cpts_to_utf8 cps = Ret (encs cps).
Proof.
  intros H. unfold unicode_cpts_to_utf8.
  enough (G : forall acc, foldM (fun acc cpt => b ← unicode_cpt_to_utf8 cpt; Ret (acc ++ b)) acc cps
              = Ret (acc ++ encs cps)) by apply G.
  induction H as [|c cps Hc _ IH]; intros acc; simpl.
  - by rewrite app_nil_r.
  - rewrite cpt_to_utf8_enc by done. simpl. rewrite IH. unfold encs. simpl. by rewrite app_assoc.
Qed.

Lemma enc_length c : valid_cpt c -> (1 <= length (enc c) <= 4)%nat.
Proof. intros Hc. destruct (enc_cases c Hc) as [[_ E]|[[_ E]|[[_ E]|[_ E]]]]; rewrite E; simpl; lia. Qed.

(** ** The readers on an encoded codepoint *)

Lemma nth_pre {A} (pre l : list A) k d : nth (length pre + k) (pre ++ l) d = nth k l d.
Proof. rewrite app_nth2_plus. done. Qed.

Lemma join2 c : 0x7f < c <= 0x7ff -> Z.lor (Z.shiftl (c / 64) 6) (c mod 64) = c.
Proof. intros. rewrite lor_shiftl by lia. lia. Qed.

Lemma join3 c : 0x7ff < c <= 0xffff ->
  Z.lor (Z.lor (Z.shiftl (c / 4096) 12) (Z.shiftl ((c / 64) mod 64) 6)) (c mod 64) = c.
Proof.
  intros. replace 12 with (6 + 6) by done. rewrite <- Z.shiftl_shiftl, <- Z.shiftl_lor by lia.
  rewrite !lor_shiftl by lia. lia.
Qed.

Lemma join4 c : 0xffff < c <= 0x10ffff ->
  Z.lor (Z.lor (Z.lor (Z.shiftl (c / 262144) 18) (Z.shiftl ((c / 4096) mod 64) 12))
               (Z.shiftl ((c / 64) mod 64) 6)) (c mod 64) = c.
Proof.
  intros. replace 18 with (6 + 6 + 6) by done. replace 12 with (6 + 6) by done.
  rewrite <- !Z.shiftl_shiftl, <- !Z.shiftl_lor by lia.
  rewrite !lor_shiftl by lia. lia.
Qed.

(** [parse_utf8_codepoint] reads back exactly the codepoint that was encoded,
    wherever it stands in the text. *)
Lemma parse_enc pre c post : valid_cpt c ->
  parse_utf8_codepoint (pre ++ enc c ++ post) (length pre) = SUCCESS c (length (enc c)).
Proof.
  intros Hc. unfold parse_utf8_codepoint. rewrite !nth_pre, !length_app.
  pose proof (enc_length c Hc).
  rewrite (proj2 (Nat.leb_gt _ _)) by lia.
  destruct (enc_cases c Hc) as [[R E]|[[R E]|[[R E]|[R E]]]]; rewrite E; cbn [nth app length].
  - use_facts (lead1_ok c ltac:(lia)). by rw_facts.
  - use_facts (lead2_ok (c / 64) ltac:(lia)). use_facts (cont_ok (c mod 64) ltac:(lia)).
    rw_facts. rewrite (proj2 (Nat.leb_gt _ _)) by lia. simpl. by rewrite join2.
  - use_facts (lead3_ok (c / 4096) ltac:(lia)). use_facts (cont_ok (c mod 64) ltac:(lia)).
    use_facts (cont_ok ((c / 64) mod 64) ltac:(lia)).
    rw_facts. rewrite (proj2 (Nat.leb_gt _ _)) by lia. simpl. by rewrite join3.
  - rewrite (proj2 (Nat.leb_gt _ (_ + 3))) by lia.
    pose proof (lead4_ok (c / 262144) ltac:(lia)) as L. clear H E.
    use_facts (cont_ok (c mod 64) ltac:(lia)). use_facts (cont_ok ((c / 64) mod 64) ltac:(lia)).
    use_facts (cont_ok ((c / 4096) mod 64) ltac:(lia)). use_facts L.
    rw_facts. simpl. by rewrite join4.
Qed.

(** The two readers of the code base agree on every input: the PEG library's
    [parse_utf8_codepoint] succeeds exactly when [unicode_cpt_from_utf8]
    returns, with the same codepoint and the same number of bytes. *)
Lemma readers_agree s i : (i < length s)%nat ->
  match parse_utf8_codepoint s i with
  | SUCCESS c n => unicode_cpt_from_utf8 s i = Ret (c, (i + n)%nat)
  | _ => exists e, unicode_cpt_from_utf8 s i = Throw e
  end.
Proof.
  intros Hi. unfold parse_utf8_codepoint, unicode_cpt_from_utf8.
  rewrite (proj2 (Nat.leb_gt _ _)) by lia. unfold c_assert.
  rewrite (proj2 (Nat.ltb_lt _ _)) by lia. simpl.
  repeat (case_match; simpl; try (by eauto); simplify_eq); bool_hyps;
    repeat match goal with
    | H : (_ <=? _)%nat = _ |- _ => rewrite H
    | H : is_cont _ = _ |- _ => rewrite H
    end; simpl; eauto.
Qed.

Lemma from_utf8_enc pre c post : valid_cpt c ->
  unicode_cpt_from_utf8 (pre ++ enc c ++ post) (length pre)
  = Ret (c, (length pre + length (enc c))%nat).
Proof.
  intros Hc. pose proof (enc_length c Hc).
  pose proof (readers_agree (pre ++ enc c ++ post) (length pre)) as G.
  rewrite parse_enc in G by done. apply G. rewrite !length_app. lia.
Qed.

(** A successful read consumes one to four bytes of the string. *)
Lemma parse_consumes s i c n : parse_utf8_codepoint s i = SUCCESS c n ->
  (1 <= n /\ i + n <= length s)%nat.
Proof.
  unfold parse_utf8_codepoint. intros H.
  repeat case_match; try discriminate H; injection H as <- <-;
    repeat match goal with H : (_ <=? _)%nat = false |- _ => apply Nat.leb_gt in H end; lia.
Qed.

Lemma from_utf8_consumes s i c j : unicode_cpt_from_utf8 s i = Ret (c, j) ->
  (i < j <= length s)%nat.
Proof.
  intros H. assert (Hi : (i < length s)%nat).
  { revert H. unfold unicode_cpt_from_utf8, c_assert.
    destruct (Nat.ltb_spec i (length s)); [done|discriminate]. }
  pose proof (readers_agree s i Hi) as G. rewrite H in G.
  destruct (parse_utf8_codepoint s i) as [c' n| |] eqn:E; [|naive_solver..].
  apply parse_consumes in E. injection G as -> ->. lia.
Qed.

(** The loop of [unicode_cpts_from_utf8] needs one step per byte. *)
Lemma cpts_loop_returns fuel s i acc : (length s - i < fuel)%nat ->
  exists r, cpts_loop fuel s i acc = Ret (acc ++ r).
Proof.
  revert i acc. induction fuel as [|f IH]; intros i acc Hf; [lia|]. simpl.
  destruct (Nat.ltb_spec i (length s)) as [Hi|Hi].
  - pose proof (readers_agree s i Hi) as G.
    destruct (parse_utf8_codepoint s i) as [c n| |] eqn:E.
    + rewrite G. apply parse_consumes in E.
      destruct (IH (i + n)%nat (acc ++ [c])) as [r ->]; [lia|].
      exists (c :: r). by rewrite <- app_assoc.
    + destruct G as [e ->]. destruct (IH (i + 1)%nat (acc ++ [0xFFFD])) as [r ->]; [lia|].
      exists (0xFFFD :: r). by rewrite <- app_assoc.
    + destruct G as [e ->]. destruct (IH (i + 1)%nat (acc ++ [0xFFFD])) as [r ->]; [lia|].
      exists (0xFFFD :: r). by rewrite <- app_assoc.
  - exists []. by rewrite app_nil_r.
Qed.

Lemma cpts_loop_encs fuel pre cps acc : Forall valid_cpt cps ->
  (length (encs cps) < fuel)%nat ->
  cpts_loop fuel (pre ++ encs cps) (length pre) acc = Ret (acc ++ cps).
Proof.
  intros Hc. revert fuel pre acc. induction Hc as [|c cps Hc _ IH]; intros fuel pre acc Hf.
  - destruct fuel; [simpl in *; lia|]. simpl. unfold encs. simpl.
    rewrite (proj2 (Nat.ltb_ge _ _)) by (rewrite length_app; simpl; lia).
    by rewrite app_nil_r.
  - change (encs (c :: cps)) with (enc c ++ encs cps) in *.
    pose proof (enc_length c Hc). rewrite length_app in Hf.
    destruct fuel as [|f]; [lia|]. cbn [cpts_loop].
    rewrite (proj2 (Nat.ltb_lt _ _)) by (rewrite !length_app; lia).
    rewrite from_utf8_enc by done.
    replace (length pre + length (enc c))%nat with (length (pre ++ enc c))
      by (by rewrite length_app).
    rewrite app_assoc, IH by lia. by rewrite <- app_assoc.
Qed.

(** ** The validity check of the server *)

Definition byte_class_facts (b : Z) : bool :=
  Bool.eqb (b <=? 0x7F) (Z.land b 0x80 =? 0)
  && Bool.eqb (Z.land b 0xE0 =? 0xC0)
         (negb (Z.land b 0x80 =? 0) && negb (Z.land b 0x40 =? 0) && (Z.land b 0x20 =? 0))
  && Bool.eqb (Z.land b 0xF0 =? 0xE0)
         (negb (Z.land b 0x80 =? 0) && negb (Z.land b 0x40 =? 0) && negb (Z.land b 0x20 =? 0)
          && (Z.land b 0x10 =? 0))
  && Bool.eqb (Z.land b 0xF8 =? 0xF0)
         (negb (Z.land b 0x80 =? 0) && negb (Z.land b 0x40 =? 0) && negb (Z.land b 0x20 =? 0)
          && negb (Z.land b 0x10 =? 0) && (Z.land b 0x08 =? 0)).

Lemma byte_class_ok b : 0 <= b < 256 -> byte_class_facts b = true.
Proof. apply seqZ_all. vm_compute. reflexivity. Qed.

Definition all_bytes (s : list Z) : Prop := Forall (fun b => 0 <= b < 256) s.

Lemma nth_byte s k : all_bytes s -> 0 <= nth k s 0 < 256.
Proof.
  intros H. destruct (Nat.lt_ge_cases k (length s)).
  - unfold all_bytes in H. rewrite List.Forall_forall in H. apply H. by apply nth_In.
  - rewrite nth_overflow; lia.
Qed.

Lemma nth_drop {A} (s : list A) i k d : nth k (drop i s) d = nth (i + k) s d.
Proof. by rewrite nth_skipn. Qed.

(** Reading inside of the text. *)
Lemma at_drop_nth (s : list Z) i k : (i + k < length s)%nat ->
  at_ (drop i s) k = Ret (nth (i + k) s 0).
Proof.
  intros H. apply at_Ret. rewrite lookup_drop.
  destruct (lookup_lt_is_Some_2 s (i + k) H) as [x Hx]. by rewrite (nth_lookup_Some _ _ 0 _ Hx), Hx.
Qed.

Lemma not_cont_at_drop (s : list Z) i k : (i + k < length s)%nat ->
  not_cont_at (drop i s) k = Ret (negb (is_cont (nth (i + k) s 0))).
Proof. intros H. unfold not_cont_at. by rewrite at_drop_nth by done. Qed.

(** Evaluates a guarded test [end - bytes < n || ...] of the validator on both
    sides of the guard. *)
Ltac validator_step s i n :=
  replace (length s - i <? S n)%nat with (length s <=? i + n)%nat
    by (destruct (Nat.leb_spec (length s) (i + n)), (Nat.ltb_spec (length s - i) (S n)); lia);
  unfold or_else; cbn [mbind outcome_bind];
  destruct (Nat.leb_spec (length s) (i + n)); cbn [orb mbind outcome_bind]; [done|];
  rewrite !not_cont_at_drop by lia;
  repeat (destruct (is_cont _); cbn [orb negb mbind outcome_bind]; try done).

(** One step of [is_valid_utf8] is one call of the codepoint reader. *)
Lemma is_valid_step f s i : all_bytes s -> (i < length s)%nat ->
  is_valid_utf8_loop (S f) (drop i s) =
  match parse_utf8_codepoint s i with
  | SUCCESS _ n => is_valid_utf8_loop f (drop (i + n) s)
  | _ => Ret false
  end.
Proof.
  intros Hb Hi. unfold parse_utf8_codepoint. cbn [is_valid_utf8_loop].
  rewrite at_drop_nth by lia. cbn [mbind outcome_bind].
  rewrite !length_drop, !drop_drop.
  rewrite (proj2 (Nat.leb_gt _ _)), (proj2 (Nat.ltb_lt _ _)) by lia.
  pose proof (byte_class_ok (nth (i + 0) s 0) (nth_byte _ _ Hb)) as C.
  unfold byte_class_facts in C. split_facts C.
  repeat match goal with H : Bool.eqb _ _ = true |- _ => apply Bool.eqb_prop in H end.
  rewrite C, C2, C1, C0.
  destruct (Z.land (nth (i + 0) s 0) 0x80 =? 0); cbn [andb negb]; [done|].
  destruct (Z.land (nth (i + 0) s 0) 0x40 =? 0); cbn [andb negb]; [done|].
  destruct (Z.land (nth (i + 0) s 0) 0x20 =? 0); cbn [andb negb]; [validator_step s i 1%nat|].
  destruct (Z.land (nth (i + 0) s 0) 0x10 =? 0); cbn [andb negb]; [validator_step s i 2%nat|].
  destruct (Z.land (nth (i + 0) s 0) 0x08 =? 0); cbn [andb negb]; [validator_step s i 3%nat|done].
Qed.

Lemma reads_inv s i cps : (i < length s)%nat -> reads s i cps ->
  exists c j cps', unicode_cpt_from_utf8 s i = Ret (c, j) /\ reads s j cps'.
Proof. intros Hi H. destruct H; [lia|]. eauto. Qed.

Lemma is_valid_loop_spec fuel s i : all_bytes s -> (i <= length s)%nat ->
  (length s - i < fuel)%nat ->
  exists r, is_valid_utf8_loop fuel (drop i s) = Ret r
            /\ (r = true <-> exists cps, reads s i cps).
Proof.
  intros Hb. revert i. induction fuel as [|f IH]; intros i Hi Hf; [lia|].
  destruct (decide (i = length s)) as [->|Hne].
  { exists true. rewrite drop_all. split; [done|]. split; [|done].
    intros _. exists []. constructor. }
  rewrite is_valid_step by (done || lia).
  pose proof (readers_agree s i ltac:(lia)) as G.
  assert (Hfail : forall e, unicode_cpt_from_utf8 s i = Throw e ->
    exists r, (Ret false : outcome _) = Ret r /\ (r = true <-> exists cps, reads s i cps)).
  { intros e He. exists false. split; [done|]. split; [done|].
    intros [cps Hcps]. apply reads_inv in Hcps as (?&?&?&E&_); [congruence|lia]. }
  destruct (parse_utf8_codepoint s i) as [c n| |] eqn:E;
    [|destruct G as [e G]; by eapply Hfail..].
  apply parse_consumes in E.
  destruct (IH (i + n)%nat ltac:(lia) ltac:(lia)) as (r & Hr & Hiff).
  exists r. split; [done|]. rewrite Hiff. split.
  - intros [cps Hcps]. exists (c :: cps). by econstructor.
  - intros [cps Hcps]. apply reads_inv in Hcps as (c'&j&cps'&E'&H'); [|lia].
    rewrite G in E'. injection E' as <- <-. by exists cps'.
Qed.

(** ** The truncation check of the server *)

(** No lead byte is closer to the end than its character is long. *)
Definition complete (s : list Z) : Prop := forall i, (1 <= i <= length s)%nat ->
  let c := nth (length s - i) s 0 in
  (Z.land c 0xE0 = 0xC0 -> (2 <= i)%nat) /\ (Z.land c 0xF0 = 0xE0 -> (3 <= i)%nat)
  /\ (Z.land c 0xF8 = 0xF0 -> (4 <= i)%nat).

Lemma validate_loop_complete s n i : complete s -> (1 <= i)%nat -> validate_loop s n i = length s.
Proof.
  intros Hc. revert i. induction n as [|n IH]; intros i Hi; simpl; [done|].
  destruct (Nat.leb_spec i (length s)); [|done].
  destruct (Hc i ltac:(lia)) as (C2 & C3 & C4).
  destruct (Z.eqb_spec (Z.land (nth (length s - i) s 0) 0xE0) 0xC0) as [E|_].
  { rewrite (proj2 (Nat.ltb_ge _ _)) by auto. apply IH. lia. }
  destruct (Z.eqb_spec (Z.land (nth (length s - i) s 0) 0xF0) 0xE0) as [E|_].
  { rewrite (proj2 (Nat.ltb_ge _ _)) by auto. apply IH. lia. }
  destruct (Z.eqb_spec (Z.land (nth (length s - i) s 0) 0xF8) 0xF0) as [E|_].
  { rewrite (proj2 (Nat.ltb_ge _ _)) by auto. apply IH. lia. }
  apply IH. lia.
Qed.

(** The continuation bytes of [enc c], from the [m]-th last one. *)
Fixpoint conts (m : nat) (c : Z) : list Z :=
  match m with
  | O => []
  | S m' => (128 + (c / 64 ^ Z.of_nat m') mod 64) :: conts m' c
  end.

(** [enc c] is a lead byte that carries the top bits of [c], then
    continuation bytes. *)
Definition lead_byte (c : Z) : Z := nth 0 (enc c) 0.
Definition n_conts (c : Z) : nat := pred (length (enc c)).

Lemma enc_lead c : valid_cpt c -> enc c = lead_byte c :: conts (n_conts c) c.
Proof.
  intros Hc. unfold lead_byte, n_conts.
  destruct (enc_cases c Hc) as [[_ E]|[[_ E]|[[_ E]|[_ E]]]]; rewrite E; simpl;
    rewrite ?Z.div_1_r; done.
Qed.

Lemma conts_length m c : length (conts m c) = m.
Proof. induction m; simpl; auto. Qed.

Lemma conts_Forall m c (P : Z -> Prop) : (forall y, 0 <= y < 64 -> P (128 + y)) ->
  Forall P (conts m c).
Proof. intros H. induction m; simpl; constructor; auto. apply H. lia. Qed.

(** The length of the character, from its lead byte. *)
Lemma lead_byte_length c : valid_cpt c ->
  (Z.land (lead_byte c) 0xE0 = 0xC0 <-> n_conts c = 1%nat)
  /\ (Z.land (lead_byte c) 0xF0 = 0xE0 <-> n_conts c = 2%nat)
  /\ (Z.land (lead_byte c) 0xF8 = 0xF0 <-> n_conts c = 3%nat).
Proof.
  intros Hc. unfold lead_byte, n_conts.
  destruct (enc_cases c Hc) as [[R E]|[[R E]|[[R E]|[R E]]]]; rewrite E; cbn [nth length pred].
  - use_facts (lead1_ok c ltac:(lia)). bool_hyps. lia.
  - use_facts (lead2_ok (c / 64) ltac:(lia)). bool_hyps.
    assert (Z.land (192 + c / 64) 0xF0 <> 0xE0 /\ Z.land (192 + c / 64) 0xF8 <> 0xF0).
    { pose proof (seqZ_all (fun x => negb (Z.land (192 + x) 0xF0 =? 0xE0)
        && negb (Z.land (192 + x) 0xF8 =? 0xF0)) 32 ltac:(by vm_compute) (c / 64) ltac:(lia)).
      cbv beta in *. bool_hyps. done. }
    naive_solver.
  - use_facts (lead3_ok (c / 4096) ltac:(lia)). bool_hyps.
    assert (Z.land (224 + c / 4096) 0xF8 <> 0xF0).
    { pose proof (seqZ_all (fun x => negb (Z.land (224 + x) 0xF8 =? 0xF0)) 16
        ltac:(by vm_compute) (c / 4096) ltac:(lia)). cbv beta in *. bool_hyps. done. }
    naive_solver.
  - use_facts (lead4_ok (c / 262144) ltac:(lia)). bool_hyps. naive_solver.
Qed.

Lemma cont_not_lead b c m k : valid_cpt c -> nth k (conts m c) 0 = b ->
  Z.land b 0xE0 <> 0xC0 /\ Z.land b 0xF0 <> 0xE0 /\ Z.land b 0xF8 <> 0xF0.
Proof.
  intros Hc <-. destruct (Nat.lt_ge_cases k m).
  - assert (F : Forall (fun b => Z.land b 0xE0 <> 0xC0 /\ Z.land b 0xF0 <> 0xE0
                                 /\ Z.land b 0xF8 <> 0xF0) (conts m c)).
    { apply conts_Forall. intros y Hy. use_facts (cont_ok y Hy). bool_hyps. done. }
    rewrite List.Forall_forall in F. apply F, nth_In. by rewrite conts_length.
  - rewrite nth_overflow by (rewrite conts_length; lia). done.
Qed.

Lemma complete_encs cps : Forall valid_cpt cps -> complete (encs cps).
Proof.
  induction 1 as [|c cps Hc _ IH]; intros i Hi; [simpl in Hi; lia|].
  change (encs (c :: cps)) with (enc c ++ encs cps) in *. cbv zeta.
  rewrite length_app in *. pose proof (enc_length c Hc).
  destruct (Nat.le_gt_cases i (length (encs cps))) as [Hle|Hgt].
  - rewrite app_nth2 by lia.
    replace (length (enc c) + length (encs cps) - i - length (enc c))%nat
      with (length (encs cps) - i)%nat by lia.
    apply IH. lia.
  - rewrite app_nth1 by lia. rewrite enc_lead by done.
    replace (length (lead_byte c :: conts (n_conts c) c)) with (length (enc c))
      by (by rewrite <- enc_lead).
    destruct (length (enc c) + length (encs cps) - i)%nat as [|k] eqn:Ek; cbn [nth].
    + destruct (lead_byte_length c Hc) as (L2 & L3 & L4). unfold n_conts in *.
      repeat split; intros HL; [apply L2 in HL|apply L3 in HL|apply L4 in HL]; lia.
    + destruct (cont_not_lead _ c (n_conts c) k Hc eq_refl) as (?&?&?). done.
Qed.

(** A character cut after [k] of its bytes: the loop stops at its lead byte. *)
Lemma validate_loop_cut pre c k : valid_cpt c -> (0 < k < length (enc c))%nat ->
  forall i, (1 <= i <= k)%nat ->
  validate_loop (pre ++ take k (enc c)) (5 - i) i = length pre.
Proof.
  intros Hc Hk i Hi. remember (k - i)%nat as d eqn:Hd. revert i Hi Hd.
  pose proof (enc_length c Hc) as HL.
  assert (Hlen : length (pre ++ take k (enc c)) = (length pre + k)%nat).
  { rewrite length_app, length_take. lia. }
  induction d as [|d IH]; intros i Hi Hd; (replace (5 - i)%nat with (S (4 - i))%nat by lia);
    cbn [validate_loop]; rewrite Hlen; rewrite (proj2 (Nat.leb_le i _)) by lia;
    rewrite app_nth2 by lia.
  - assert (i = k) as -> by lia. replace (length pre + k - k - length pre)%nat with 0%nat by lia.
    replace (nth 0 (take k (enc c)) 0) with (lead_byte c)
      by (unfold lead_byte; destruct k; [lia|]; by destruct (enc c)).
    destruct (lead_byte_length c Hc) as (L2 & L3 & L4). unfold n_conts in *.
    destruct (Z.eqb_spec (Z.land (lead_byte c) 0xE0) 0xC0) as [E|E].
    { apply L2 in E. rewrite (proj2 (Nat.ltb_lt _ _)); lia. }
    destruct (Z.eqb_spec (Z.land (lead_byte c) 0xF0) 0xE0) as [E3|E3].
    { apply L3 in E3. rewrite (proj2 (Nat.ltb_lt _ _)); lia. }
    destruct (Z.eqb_spec (Z.land (lead_byte c) 0xF8) 0xF0) as [E4|E4].
    { apply L4 in E4. rewrite (proj2 (Nat.ltb_lt _ _)); lia. }
    exfalso. rewrite L2 in E. rewrite L3 in E3. rewrite L4 in E4. lia.
  - replace (length pre + k - i - length pre)%nat with (S d) by lia.
    assert (Ed : nth (S d) (enc c) 0 = nth d (conts (n_conts c) c) 0)
      by (by rewrite enc_lead).
    rewrite nth_firstn, (proj2 (Nat.ltb_lt (S d) k)), Ed by lia.
    destruct (cont_not_lead _ c (n_conts c) d Hc eq_refl) as (N2 & N3 & N4).
    rewrite (proj2 (Z.eqb_neq _ _) N2), (proj2 (Z.eqb_neq _ _) N3), (proj2 (Z.eqb_neq _ _) N4).
    replace (4 - i)%nat with (5 - S i)%nat by lia. apply IH; lia.
Qed.

(** ** The byte alphabet, checked byte by byte *)

Definition alphabet_test (b : Z) : bool :=
  match unicode_byte_to_utf8 b ≫= unicode_utf8_to_byte with
  | Ret b' => b' =? b
  | _ => false
  end.

Lemma alphabet_test_ok b : 0 <= b < 256 -> alphabet_test b = true.
Proof. apply seqZ_all. vm_compute. reflexivity. Qed.

(** ** The grammar sampler's resumable decoder *)

(** What is left to read, bytes and codepoints, when the decoder is in the
    partial state [p]: [m] continuation bytes of [c] are owed, and [p] holds
    the bits of [c] above them. *)
Inductive pending (p : llama_partial_utf8) : list Z -> list Z -> Prop :=
  | pending_none cps : n_remain p = 0 -> pending p (encs cps) cps
  | pending_mid c m cps :
      (1 <= m)%nat -> n_remain p = Z.of_nat m -> value p = c / 64 ^ Z.of_nat m ->
      pending p (conts m c ++ encs cps) (c :: cps).

Definition ok_cpt (c : Z) : Prop := 0 < c <= 0x10ffff.

Lemma shift_in c m : 0 < c <= 0x10ffff ->
  u32 (u32 (Z.shiftl (c / 64 ^ Z.of_nat (S m)) 6)
       + Z.land (128 + (c / 64 ^ Z.of_nat m) mod 64) 0x3F) = c / 64 ^ Z.of_nat m.
Proof.
  intros Hc. rewrite Nat2Z.inj_succ, Z.pow_succ_r by lia.
  rewrite (Z.mul_comm 64), <- Z.div_div by lia.
  assert (0 <= c / 64 ^ Z.of_nat m <= 0x10ffff) as Hx.
  { assert (0 < 64 ^ Z.of_nat m) by (apply Z.pow_pos_nonneg; lia). split.
    - apply Z.div_pos; lia.
    - transitivity c; [apply Z.div_le_upper_bound; nia|lia]. }
  revert Hx. generalize (c / 64 ^ Z.of_nat m). intros x Hx.
  rewrite Z.shiftl_mul_pow2, land_3f by lia. change (2 ^ 6) with 64.
  unfold u32. change (2 ^ 32) with 4294967296. lia.
Qed.

Lemma cont_byte_facts c m :
  let b := 128 + (c / 64 ^ Z.of_nat m) mod 64 in
  (b =? 0) = false /\ (Z.shiftr b 6 =? 2) = true.
Proof.
  cbv zeta. use_facts (cont_ok ((c / 64 ^ Z.of_nat m) mod 64) ltac:(apply Z.mod_pos_bound; lia)).
  done.
Qed.

(** Feeding the loops the first [j] of the [m] owed bytes. *)
Lemma tail_loop_conts c m j : ok_cpt c -> (j <= m)%nat -> forall rest,
  (j = m \/ rest = []) ->
  tail_loop (c / 64 ^ Z.of_nat m) (Z.of_nat m) (take j (conts m c) ++ rest)
  = (c / 64 ^ Z.of_nat (m - j), Z.of_nat (m - j), rest).
Proof.
  intros Hc. revert j. induction m as [|m IH]; intros j Hj rest Hr.
  - replace j with 0%nat by lia. simpl. destruct rest as [|b rest]; [done|]. simpl.
    by rewrite andb_false_r.
  - destruct j as [|j].
    + destruct Hr as [?| ->]; [lia|]. done.
    + cbn [conts take app tail_loop]. destruct (cont_byte_facts c m) as [-> _].
      rewrite (proj2 (Z.ltb_lt 0 _)) by lia. cbn [negb andb].
      rewrite shift_in by done. replace (Z.of_nat (S m) - 1) with (Z.of_nat m) by lia.
      replace (S m - S j)%nat with (m - j)%nat by lia. apply IH; [lia|].
      destruct Hr; [left; lia|by right].
Qed.

Lemma continue_loop_conts c m j : ok_cpt c -> (j <= m)%nat -> forall rest,
  (j = m \/ rest = []) ->
  continue_loop (c / 64 ^ Z.of_nat m) (Z.of_nat m) (take j (conts m c) ++ rest)
  = Some (c / 64 ^ Z.of_nat (m - j), Z.of_nat (m - j), rest).
Proof.
  intros Hc. revert j. induction m as [|m IH]; intros j Hj rest Hr.
  - replace j with 0%nat by lia. simpl. destruct rest as [|b rest]; [done|]. simpl.
    by rewrite andb_false_r.
  - destruct j as [|j].
    + destruct Hr as [?| ->]; [lia|]. done.
    + cbn [conts take app continue_loop]. destruct (cont_byte_facts c m) as [-> ->].
      rewrite (proj2 (Z.ltb_lt 0 _)) by lia. cbn [negb andb].
      rewrite shift_in by done. replace (Z.of_nat (S m) - 1) with (Z.of_nat m) by lia.
      replace (S m - S j)%nat with (m - j)%nat by lia. apply IH; [lia|].
      destruct Hr; [left; lia|by right].
Qed.

Lemma conts_drop c m j : (j <= m)%nat -> drop j (conts m c) = conts (m - j) c.
Proof.
  revert j. induction m as [|m IH]; intros [|j] Hj; simpl; [done..|]. apply IH. lia.
Qed.

(** A prefix of the owed bytes either stops inside them or covers them. *)
Lemma conts_prefix c m X b1 b2 : b1 ++ b2 = conts m c ++ X ->
  (exists j, (j < m)%nat /\ b1 = take j (conts m c) ++ [] /\ b2 = conts (m - j) c ++ X)
  \/ (exists b1', b1 = take m (conts m c) ++ b1' /\ b1' ++ b2 = X).
Proof.
  intros H. destruct (Nat.lt_ge_cases (length b1) m) as [Hlt|Hge].
  - left. exists (length b1). split; [done|].
    assert (E1 : take (length b1) (b1 ++ b2) = b1) by apply take_app_length.
    assert (E2 : drop (length b1) (b1 ++ b2) = b2) by apply drop_app_length.
    rewrite H in E1, E2.
    rewrite take_app_le in E1 by (rewrite conts_length; lia).
    rewrite drop_app_le in E2 by (rewrite conts_length; lia).
    rewrite app_nil_r, E1. rewrite conts_drop in E2 by lia. done.
  - right. exists (drop m b1).
    rewrite (take_ge (conts m c)) by (rewrite conts_length; lia).
    assert (E1 : take m (b1 ++ b2) = conts m c)
      by (rewrite H; apply take_app_length'; by rewrite conts_length).
    assert (E2 : drop m (b1 ++ b2) = X)
      by (rewrite H; apply drop_app_length'; by rewrite conts_length).
    rewrite take_app_le in E1 by lia. rewrite drop_app_le in E2 by lia.
    split; [|done]. by rewrite <- E1, take_drop.
Qed.

(** The lead byte opens the state the continuation bytes complete. *)
Lemma lead_byte_decode c : ok_cpt c ->
  let n := nth (Z.to_nat (Z.shiftr (lead_byte c) 4)) str_lookup 0 - 1 in
  (lead_byte c =? 0) = false /\ n = Z.of_nat (n_conts c)
  /\ Z.land (lead_byte c) (u8 (Z.shiftl 1 (7 - n) - 1)) = c / 64 ^ Z.of_nat (n_conts c).
Proof.
  intros Hc. cbv zeta. unfold lead_byte, n_conts.
  destruct (enc_cases c ltac:(unfold ok_cpt, valid_cpt in *; lia))
    as [[R E]|[[R E]|[[R E]|[R E]]]]; rewrite E; cbn [nth length pred].
  - assert (c <> 0) by (unfold ok_cpt in Hc; lia). split; [by apply Z.eqb_neq|].
    pose proof (seqZ_all (fun c => (nth (Z.to_nat (Z.shiftr c 4)) str_lookup 0 =? 1)
      && (Z.land c 127 =? c)) 128 ltac:(by vm_compute) c ltac:(lia)) as F.
    cbv beta in F. bool_hyps.
    repeat match goal with H : nth _ _ _ = _ |- _ => rewrite H end.
    split; [done|]. simpl (64 ^ _). rewrite Z.div_1_r. done.
  - split; [apply Z.eqb_neq; lia|].
    pose proof (seqZ_all (fun x => (nth (Z.to_nat (Z.shiftr (192 + x) 4)) str_lookup 0 =? 2)
      && (Z.land (192 + x) 63 =? x)) 32 ltac:(by vm_compute) (c / 64) ltac:(lia)) as F.
    cbv beta in F. bool_hyps.
    repeat match goal with H : nth _ _ _ = _ |- _ => rewrite H end. done.
  - split; [apply Z.eqb_neq; lia|].
    pose proof (seqZ_all (fun x => (nth (Z.to_nat (Z.shiftr (224 + x) 4)) str_lookup 0 =? 3)
      && (Z.land (224 + x) 31 =? x)) 16 ltac:(by vm_compute) (c / 4096) ltac:(lia)) as F.
    cbv beta in F. bool_hyps.
    repeat match goal with H : nth _ _ _ = _ |- _ => rewrite H end. done.
  - split; [apply Z.eqb_neq; lia|].
    pose proof (seqZ_all (fun x => (nth (Z.to_nat (Z.shiftr (240 + x) 4)) str_lookup 0 =? 4)
      && (Z.land (240 + x) 15 =? x)) 8 ltac:(by vm_compute) (c / 262144) ltac:(lia)) as F.
    cbv beta in F. bool_hyps.
    repeat match goal with H : nth _ _ _ = _ |- _ => rewrite H end. done.
Qed.

(** The outer loop on a prefix of an encoded text. *)
Lemma decode_loop_prefix fuel : forall acc v b1 b2 cps,
  (length b1 < fuel)%nat -> b1 ++ b2 = encs cps -> Forall ok_cpt cps ->
  exists l1 p1 l2, decode_loop fuel acc v 0 b1 = Ret (acc ++ l1 ++ [0], p1)
    /\ pending p1 b2 l2 /\ l1 ++ l2 = cps.
Proof.
  induction fuel as [|f IH]; intros acc v b1 b2 cps Hf Hb Hok; [lia|].
  destruct b1 as [|b b1].
  { exists [], (mk_partial_utf8 v 0), cps. simpl in Hb. subst b2.
    split; [done|]. split; [by constructor|done]. }
  destruct Hok as [|c cps Hc Hok]; [done|].
  assert (Hv : valid_cpt c) by (unfold ok_cpt, valid_cpt in *; lia).
  change (encs (c :: cps)) with (enc c ++ encs cps) in Hb. rewrite enc_lead in Hb by done.
  injection Hb as -> Hb.
  destruct (lead_byte_decode c Hc) as (Hz & Hn & Hval).
  cbn [decode_loop chr_at nth drop]. rewrite Hn in Hval. rewrite Hz, Hn.
  rewrite (proj2 (Z.ltb_ge _ 0)) by lia. rewrite Hval, drop_0. simpl in Hf.
  apply conts_prefix in Hb as [(j & Hj & -> & ->)|(b1' & -> & Hb)].
  - rewrite tail_loop_conts by (auto; lia). rewrite (proj2 (Z.eqb_neq _ 0)) by lia.
    destruct f as [|f]; [lia|]. cbn [decode_loop chr_at nth Z.eqb].
    eexists [], _, (c :: cps). split; [done|]. split; [|done].
    apply pending_mid; simpl; [lia|done|done].
  - rewrite tail_loop_conts by (auto; lia). rewrite Nat.sub_diag. change (Z.of_nat 0) with 0. cbn [Z.eqb].
    change (64 ^ 0) with 1. rewrite Z.div_1_r.
    rewrite length_app in Hf.
    destruct (IH (acc ++ [c]) c b1' b2 cps) as (l1 & p1 & l2 & E & Hp & Hl);
      [lia|done|done|].
    exists (c :: l1), p1, l2. rewrite E. split; [by rewrite <- !app_assoc|].
    split; [done|]. simpl. by rewrite Hl.
Qed.

(** One piece, from any partial state. *)
Lemma decode_resume p b1 b2 cps : pending p (b1 ++ b2) cps -> Forall ok_cpt cps ->
  exists l1 p1 l2, decode_utf8 b1 p = Ret (l1 ++ [0], p1)
    /\ pending p1 b2 l2 /\ l1 ++ l2 = cps.
Proof.
  intros Hp Hok. remember (b1 ++ b2) as bs eqn:Hbs. unfold decode_utf8.
  destruct Hp as [cps Hn|c m cps Hm Hn Hv]; rewrite Hn.
  - assert (continue_loop (value p) 0 b1 = Some (value p, 0, b1)) as ->.
    { destruct b1; simpl; [done|]. by rewrite andb_false_r. }
    cbn [Z.ltb Z.compare andb].
    by apply (decode_loop_prefix _ []); [lia| |].
  - apply Forall_cons in Hok as [Hc Hok].
    symmetry in Hbs. apply conts_prefix in Hbs as [(j & Hj & -> & ->)|(b1' & -> & Hb)].
    + rewrite Hv, continue_loop_conts by (auto; lia).
      rewrite (proj2 (Z.eqb_neq _ 0)), andb_false_r by lia.
      cbn [decode_loop chr_at nth Z.eqb].
      eexists [], _, (c :: cps). split; [done|]. split; [|done].
      apply pending_mid; simpl; [lia|done|done].
    + rewrite Hv, continue_loop_conts by (auto; lia).
      rewrite (proj2 (Z.ltb_lt 0 _)) by lia. rewrite Nat.sub_diag.
      change (Z.of_nat 0) with 0. cbn [Z.eqb andb].
      change (64 ^ 0) with 1. rewrite Z.div_1_r.
      destruct (decode_loop_prefix (S (length (take m (conts m c) ++ b1'))) [c] c b1' b2 cps)
        as (l1 & p1 & l2 & E & Hp & Hl); [rewrite length_app; lia|done|done|].
      exists (c :: l1), p1, l2. rewrite E. split; [done|]. split; [done|].
      simpl. by rewrite Hl.
Qed.

(** ** Properties *)

(** Every text of valid codepoints survives encoding and decoding: the
    tokenizer's [unicode_cpts_from_utf8] inverts [unicode_cpts_to_utf8]. *)
Theorem utf8_roundtrip (cps : list Z) : Forall valid_cpt cps ->
  exists bs, unicode_cpts_to_utf8 cps = Ret bs /\ unicode_cpts_from_utf8 bs = Ret cps.
Proof.
  intros H. exists (encs cps). split; [by apply cpts_to_utf8_encs|].
  apply (cpts_loop_encs _ [] _ []); [done|lia].
Qed.

(** [unicode_cpts_from_utf8] is total: it returns on every byte string, valid
    or not, and never exhausts its loop or lets an exception out. *)
Theorem cpts_from_utf8_total (s : list Z) : exists cps, unicode_cpts_from_utf8 s = Ret cps.
Proof. apply (cpts_loop_returns _ s 0 []). lia. Qed.

(** The byte alphabet of byte-level BPE is a bijection: mapping a byte to its
    printable stand-in and back gives the byte. *)
Theorem byte_alphabet_roundtrip (b : Z) : 0 <= b < 256 ->
  (unicode_byte_to_utf8 b ≫= unicode_utf8_to_byte) = Ret b.
Proof.
  intros Hb. apply alphabet_test_ok in Hb. unfold alphabet_test in Hb.
  destruct (unicode_byte_to_utf8 b ≫= unicode_utf8_to_byte); try discriminate Hb.
  apply Z.eqb_eq in Hb. by subst.
Qed.

(** C39. The server's [is_valid_utf8] terminates on every string of bytes, reads
    only bytes of the string (a read at or behind its end is [Undef], so the
    three length guards matter), and accepts exactly the strings that the
    tokenizer's reader decodes to their end without an error.  Both accept
    overlong encodings and surrogates. *)
Theorem is_valid_utf8_correct (s : list Z) : all_bytes s ->
  exists r, is_valid_utf8 s = Ret r /\ (r = true <-> exists cps, reads s 0 cps).
Proof. intros H. apply (is_valid_loop_spec _ s 0 H); lia. Qed.

(** [validate_utf8] returns the length of the text without a trailing
    character that is cut off: all of a complete text, and exactly the complete
    prefix when the last character has only [k] of its bytes. *)
Theorem validate_utf8_cuts (cps : list Z) (c : Z) (k : nat) :
  Forall valid_cpt cps -> valid_cpt c -> (k < length (enc c))%nat ->
  validate_utf8 (encs cps ++ take k (enc c)) = length (encs cps).
Proof.
  intros Hcps Hc Hk. unfold validate_utf8.
  destruct k as [|k].
  - rewrite take_0, app_nil_r. case_match eqn:E; [by apply Nat.eqb_eq in E|].
    apply validate_loop_complete; [by apply complete_encs|lia].
  - case_match eqn:E.
    + apply Nat.eqb_eq in E. rewrite length_app, length_take in E. lia.
    + change 4%nat with (5 - 1)%nat. apply validate_loop_cut; [done|lia|lia].
Qed.

(** The grammar sampler decodes a text correctly however it is cut into token
    pieces, even inside a character: the codepoints of the pieces, each decoded
    from the partial state the previous piece left, are the codepoints of the
    text, and nothing is left over. *)
Theorem grammar_decode_resumes (pieces : list (list Z)) (cps : list Z) :
  concat pieces = encs cps -> Forall ok_cpt cps ->
  exists p, decode_pieces partial_utf8_zero pieces = Ret (cps, p) /\ n_remain p = 0.
Proof.
  intros Hcat Hok.
  assert (Hp : pending partial_utf8_zero (concat pieces) cps)
    by (rewrite Hcat; by constructor).
  clear Hcat. revert Hp Hok. generalize partial_utf8_zero as p. revert cps.
  induction pieces as [|b bs IH]; intros cps p Hp Hok; simpl in *.
  - exists p. inversion Hp as [cps' Hn Hnil|c m cps' Hm Hn Hv Hnil]; subst.
    + destruct cps as [|c cps]; [done|]. exfalso. apply Forall_cons in Hok as [Hc _].
      unfold encs in Hnil. simpl in Hnil.
      rewrite enc_lead in Hnil by (unfold ok_cpt, valid_cpt in *; lia). done.
    + destruct m; [lia|done].
  - destruct (decode_resume _ _ _ _ Hp Hok) as (l1 & p1 & l2 & E & Hp1 & <-).
    rewrite E. simpl. apply Forall_app in Hok as [_ Hok].
    destruct (IH _ _ Hp1 Hok) as (p2 & E2 & Hn). exists p2. rewrite E2. simpl.
    by rewrite removelast_last.
Qed.

(** The two readers of the code base agree on every input: the PEG library's
    [parse_utf8_codepoint] succeeds exactly when the tokenizer's
    [unicode_cpt_from_utf8] returns, with the same codepoint and length. *)
Theorem reader_equivalence (s : list Z) (i : nat) : (i < length s)%nat ->
  match parse_utf8_codepoint s i with
  | SUCCESS c n => unicode_cpt_from_utf8 s i = Ret (c, (i + n)%nat)
  | _ => exists e, unicode_cpt_from_utf8 s i = Throw e
  end.
Proof. apply readers_agree. Qed.

(** ** Instances, on the text "aé€" and the character U+1F600 *)

Definition ex_cps : list Z := [97; 233; 8364].

Lemma ex_valid : Forall valid_cpt ex_cps.
Proof. repeat constructor; vm_compute; discriminate. Qed.

Lemma utf8_roundtrip_witness : exists bs,
  unicode_cpts_to_utf8 ex_cps = Ret bs /\ unicode_cpts_from_utf8 bs = Ret ex_cps.
Proof. apply (utf8_roundtrip ex_cps). exact ex_valid. Defined.

Lemma byte_alphabet_roundtrip_witness : (unicode_byte_to_utf8 32 ≫= unicode_utf8_to_byte) = Ret 32.
Proof. apply (byte_alphabet_roundtrip 32). lia. Defined.

Lemma is_valid_utf8_correct_witness : exists r,
  is_valid_utf8 [97; 195; 169] = Ret r /\ (r = true <-> exists cps, reads [97; 195; 169] 0 cps).
Proof.
  apply (is_valid_utf8_correct [97; 195; 169]). repeat constructor; vm_compute; congruence.
Defined.

Lemma validate_utf8_cuts_witness :
  validate_utf8 (encs ex_cps ++ take 2 (enc 0x1F600)) = length (encs ex_cps).
Proof.
  apply (validate_utf8_cuts ex_cps 0x1F600 2).
  - exact ex_valid.
  - vm_compute. split; discriminate.
  - vm_compute. lia.
Defined.

Lemma grammar_decode_resumes_witness : exists p,
  decode_pieces partial_utf8_zero [[97; 195]; [169; 226; 130]; [172]] = Ret (ex_cps, p)
  /\ n_remain p = 0.
Proof.
  apply (grammar_decode_resumes [[97; 195]; [169; 226; 130]; [172]] ex_cps).
  - vm_compute. reflexivity.
  - repeat constructor; vm_compute; congruence.
Defined.

Lemma reader_equivalence_witness :
  match parse_utf8_codepoint [195; 169] 0 with
  | SUCCESS c n => unicode_cpt_from_utf8 [195; 169] 0 = Ret (c, (0 + n)%nat)
  | _ => exists e, unicode_cpt_from_utf8 [195; 169] 0 = Throw e
  end.
Proof. apply (reader_equivalence [195; 169] 0). simpl. lia. Defined.
