(* ===== verification/Grammar.v ===== *)
(** * The grammar sampler, [src/llama-grammar.cpp] and [src/llama-grammar.h].

    A grammar is a vector of rules, each a vector of elements; a parse state
    is a set of pushdown stacks whose entries point into the rules.  A
    [const llama_grammar_element *] is modelled as the pair of a rule index and
    an offset ([gptr]), so pointer equality and pointer increments are those of
    the code, and reading outside of a rule is [Undef].  A stack lists its
    [back()] first.  The recursions that follow the grammar take fuel. *)

From S2P Require Import Prelude Utf8.
Import GrammarUtf8.

(** ** Data, [llama-grammar.h] *)

Inductive llama_gretype :=
  | LLAMA_GRETYPE_END
  | LLAMA_GRETYPE_ALT
  | LLAMA_GRETYPE_RULE_REF
  | LLAMA_GRETYPE_CHAR
  | LLAMA_GRETYPE_CHAR_NOT
  | LLAMA_GRETYPE_CHAR_RNG_UPPER
  | LLAMA_GRETYPE_CHAR_ALT
  | LLAMA_GRETYPE_CHAR_ANY
  | LLAMA_GRETYPE_TOKEN
  | LLAMA_GRETYPE_TOKEN_NOT.

#[export] Instance llama_gretype_eq_dec : EqDecision llama_gretype.
Proof. solve_decision. Defined.

(** The enumerators' values. *)
Definition gretype_value (t : llama_gretype) : Z :=
  match t with
  | LLAMA_GRETYPE_END => 0
  | LLAMA_GRETYPE_ALT => 1
  | LLAMA_GRETYPE_RULE_REF => 2
  | LLAMA_GRETYPE_CHAR => 3
  | LLAMA_GRETYPE_CHAR_NOT => 4
  | LLAMA_GRETYPE_CHAR_RNG_UPPER => 5
  | LLAMA_GRETYPE_CHAR_ALT => 6
  | LLAMA_GRETYPE_CHAR_ANY => 7
  | LLAMA_GRETYPE_TOKEN => 8
  | LLAMA_GRETYPE_TOKEN_NOT => 9
  end.

Record llama_grammar_element := mk_elem { el_type : llama_gretype; el_value : Z }.

#[export] Instance llama_grammar_element_eq_dec : EqDecision llama_grammar_element.
Proof. solve_decision. Defined.

Notation llama_grammar_rule := (list llama_grammar_element).
Notation llama_grammar_rules := (list (list llama_grammar_element)).

(** [const llama_grammar_element *]: element [g_off] of rule [g_rule]. *)
Record gptr := mk_gptr { g_rule : nat; g_off : nat }.

#[export] Instance gptr_eq_dec : EqDecision gptr.
Proof. solve_decision. Defined.

Notation llama_grammar_stack := (list gptr).
Notation llama_grammar_stacks := (list (list gptr)).

(** [c_off] is how far [code_points] has advanced into the decoded vector. *)
Record llama_grammar_candidate := mk_cand {
  c_index : nat;
  c_cps : list Z;
  c_off : nat;
  c_partial : llama_partial_utf8;
  c_id : Z;
}.

#[export] Instance llama_grammar_candidate_eq_dec : EqDecision llama_grammar_candidate.
Proof. solve_decision. Defined.

Definition ptr_add (p : gptr) (n : nat) : gptr := mk_gptr (g_rule p) (g_off p + n).

(** The elements from the one a pointer points at to the end of its rule. *)
Definition elems_from (rules : llama_grammar_rules) (p : gptr) : outcome llama_grammar_rule :=
  r ← at_ rules (g_rule p); Ret (drop (g_off p) r).

Definition deref (rules : llama_grammar_rules) (p : gptr) : outcome llama_grammar_element :=
  r ← at_ rules (g_rule p); at_ r (g_off p).

(** ** Terminals *)

Definition is_end_elem (e : llama_grammar_element) : bool :=
  match el_type e with
  | LLAMA_GRETYPE_END | LLAMA_GRETYPE_ALT => true
  | _ => false
  end.

Definition llama_grammar_is_end_of_sequence (rules : llama_grammar_rules) (pos : gptr)
    : outcome bool :=
  e ← deref rules pos; Ret (is_end_elem e).

Definition type_is (t : llama_gretype) (e : llama_grammar_element) : bool :=
  gretype_value (el_type e) =? gretype_value t.

Definition is_positive_char (e : llama_grammar_element) : bool :=
  type_is LLAMA_GRETYPE_CHAR e || type_is LLAMA_GRETYPE_CHAR_ANY e.

Definition is_token_elem (e : llama_grammar_element) : bool :=
  type_is LLAMA_GRETYPE_TOKEN e || type_is LLAMA_GRETYPE_TOKEN_NOT e.

(** The [do ... while (pos->type == LLAMA_GRETYPE_CHAR_ALT)] loop from the
    suffix [es] at [pos]; returns [found] and how far [pos] advanced. *)
Fixpoint match_char_loop (chr : Z) (es : llama_grammar_rule) (n : nat) (found : bool)
    : outcome (bool * nat) :=
  match es with
  | e0 :: ((e1 :: es2) as es1) =>
      if type_is LLAMA_GRETYPE_CHAR_RNG_UPPER e1 then
        let found := found || ((el_value e0 <=? chr) && (chr <=? el_value e1)) in
        match es2 with
        | e2 :: _ =>
            if type_is LLAMA_GRETYPE_CHAR_ALT e2
            then match_char_loop chr es2 (n + 2) found
            else Ret (found, (n + 2)%nat)
        | [] => Undef
        end
      else
        let found := if type_is LLAMA_GRETYPE_CHAR_ANY e0 then true
                     else found || (el_value e0 =? chr) in
        if type_is LLAMA_GRETYPE_CHAR_ALT e1
        then match_char_loop chr es1 (n + 1) found
        else Ret (found, (n + 1)%nat)
  | _ => Undef
  end.

Definition llama_grammar_match_char (rules : llama_grammar_rules) (pos : gptr) (chr : Z)
    : outcome (bool * gptr) :=
  es ← elems_from rules pos;
  e ← at_ es 0;
  c_assert (is_positive_char e || type_is LLAMA_GRETYPE_CHAR_NOT e) "match_char";;
  '(found, n) ← match_char_loop chr es 0 false;
  Ret (Bool.eqb found (is_positive_char e), ptr_add pos n).

Fixpoint match_partial_loop (positive : bool) (low high : Z) (es : llama_grammar_rule)
    : outcome bool :=
  match es with
  | e0 :: ((e1 :: es2) as es1) =>
      if type_is LLAMA_GRETYPE_CHAR_RNG_UPPER e1 then
        if (el_value e0 <=? high) && (low <=? el_value e1) then Ret positive
        else match es2 with
             | e2 :: _ =>
                 if type_is LLAMA_GRETYPE_CHAR_ALT e2
                 then match_partial_loop positive low high es2
                 else Ret (negb positive)
             | [] => Undef
             end
      else if type_is LLAMA_GRETYPE_CHAR_ANY e0 then Ret true
      else if (low <=? el_value e0) && (el_value e0 <=? high) then Ret positive
      else if type_is LLAMA_GRETYPE_CHAR_ALT e1
           then match_partial_loop positive low high es1
           else Ret (negb positive)
  | _ => Undef
  end.

Definition llama_grammar_match_partial_char (rules : llama_grammar_rules) (pos : gptr)
    (partial_utf8 : llama_partial_utf8) : outcome bool :=
  es ← elems_from rules pos;
  e ← at_ es 0;
  c_assert (is_positive_char e || type_is LLAMA_GRETYPE_CHAR_NOT e) "match_partial_char";;
  let partial_value := value partial_utf8 in
  let n := n_remain partial_utf8 in
  if (n <? 0) || ((n =? 1) && (partial_value <? 2)) then Ret false
  else
    let low := u32 (Z.shiftl partial_value (n * 6)) in
    let high := Z.lor low (Z.shiftl 1 (n * 6) - 1) in
    let low := if low =? 0 then
                 if n =? 2 then Z.shiftl 1 11 else if n =? 3 then Z.shiftl 1 16 else low
               else low in
    match_partial_loop (is_positive_char e) low high es.

Definition llama_grammar_match_token (rules : llama_grammar_rules) (pos : gptr) (token : Z)
    : outcome bool :=
  e ← deref rules pos;
  c_assert (is_token_elem e) "match_token";;
  if type_is LLAMA_GRETYPE_TOKEN e then Ret (el_value e =? u32 token)
  else if type_is LLAMA_GRETYPE_TOKEN_NOT e then Ret (negb (el_value e =? u32 token))
  else Ret false.

(** ** The pushdown machine *)

(** [if (std::find(...) == end) new_stacks.emplace_back(stack)] *)
Definition add_stack (new_stacks : llama_grammar_stacks) (stack : llama_grammar_stack)
    : llama_grammar_stacks :=
  if bool_decide (stack ∈ new_stacks) then new_stacks else new_stacks ++ [stack].

(** The [do { ... } while (true)] loops over the alternates of a rule: [step]
    runs on the first element of each alternate, then the loop scans to the
    end of the alternate and continues after an [LLAMA_GRETYPE_ALT].  [es] is
    the suffix of the rule from offset [off]. *)
Fixpoint alternates_loop (step : nat -> llama_grammar_element -> llama_grammar_stacks ->
                                 outcome llama_grammar_stacks)
    (off : nat) (es : llama_grammar_rule) (at_start : bool)
    (new_stacks : llama_grammar_stacks) : outcome llama_grammar_stacks :=
  match es with
  | [] => Undef
  | e :: es' =>
      new_stacks ← (if at_start then step off e new_stacks else Ret new_stacks);
      match el_type e with
      | LLAMA_GRETYPE_END => Ret new_stacks
      | LLAMA_GRETYPE_ALT => alternates_loop step (S off) es' true new_stacks
      | _ => alternates_loop step (S off) es' false new_stacks
      end
  end.

Fixpoint llama_grammar_advance_stack (fuel : nat) (rules : llama_grammar_rules)
    (stack : llama_grammar_stack) (new_stacks : llama_grammar_stacks)
    : outcome llama_grammar_stacks :=
  match fuel with
  | O => NoFuel
  | S fuel =>
      match stack with
      | [] => Ret (add_stack new_stacks [])
      | pos :: rest =>
          e ← deref rules pos;
          match el_type e with
          | LLAMA_GRETYPE_RULE_REF =>
              let rule_id := Z.to_nat (el_value e) in
              rule ← at_ rules rule_id;
              alternates_loop (fun off sube news =>
                  next_end ← llama_grammar_is_end_of_sequence rules (ptr_add pos 1);
                  let new_stack := if next_end : bool then rest else ptr_add pos 1 :: rest in
                  let new_stack := if is_end_elem sube then new_stack
                                   else mk_gptr rule_id off :: new_stack in
                  llama_grammar_advance_stack fuel rules new_stack news)
                0 rule true new_stacks
          | LLAMA_GRETYPE_CHAR | LLAMA_GRETYPE_CHAR_NOT | LLAMA_GRETYPE_CHAR_ANY
          | LLAMA_GRETYPE_TOKEN | LLAMA_GRETYPE_TOKEN_NOT =>
              Ret (add_stack new_stacks stack)
          | _ => Fatal "fatal error"
          end
      end
  end.

(** The stack after its top consumed up to [after]. *)
Definition pop_to (rules : llama_grammar_rules) (rest : llama_grammar_stack) (after : gptr)
    : outcome llama_grammar_stack :=
  e ← llama_grammar_is_end_of_sequence rules after;
  Ret (if e : bool then rest else after :: rest).

Definition llama_grammar_accept_chr (fuel : nat) (rules : llama_grammar_rules)
    (stack : llama_grammar_stack) (chr : Z) (new_stacks : llama_grammar_stacks)
    : outcome llama_grammar_stacks :=
  match stack with
  | [] => Ret new_stacks
  | pos :: rest =>
      e ← deref rules pos;
      if is_token_elem e then Ret new_stacks
      else
        '(matched, after) ← llama_grammar_match_char rules pos chr;
        if matched : bool then
          new_stack ← pop_to rules rest after;
          llama_grammar_advance_stack fuel rules new_stack new_stacks
        else Ret new_stacks
  end.

(** [for (const auto & stack : stacks) llama_grammar_accept_chr(...)]: the body of
    [llama_grammar_accept]. *)
Definition accept_stacks (fuel : nat) (rules : llama_grammar_rules)
    (stacks : llama_grammar_stacks) (chr : Z) : outcome llama_grammar_stacks :=
  foldM (fun news stack => llama_grammar_accept_chr fuel rules stack chr news) [] stacks.

(** ** Rejecting candidates *)

Definition cand_chr (tok : llama_grammar_candidate) : Z := nth (c_off tok) (c_cps tok) 0.

Definition cand_next (tok : llama_grammar_candidate) : llama_grammar_candidate :=
  mk_cand (c_index tok) (c_cps tok) (c_off tok + 1) (c_partial tok) (c_id tok).

Definition cand_prev (tok : llama_grammar_candidate) : llama_grammar_candidate :=
  mk_cand (c_index tok) (c_cps tok) (c_off tok - 1) (c_partial tok) (c_id tok).

(** [llama_grammar_reject_candidates], given the per-stack function. *)
Definition reject_candidates_with
    (for_stack : llama_grammar_stack -> list llama_grammar_candidate ->
                 outcome (list llama_grammar_candidate))
    (stacks : llama_grammar_stacks) (candidates : list llama_grammar_candidate)
    : outcome (list llama_grammar_candidate) :=
  match stacks with
  | [] => Fatal "!stacks.empty()"
  | front :: others =>
      match candidates with
      | [] => Ret []
      | _ =>
          rejects ← for_stack front candidates;
          foldM (fun rejects stack => for_stack stack rejects) rejects others
      end
  end.

(** One candidate against an empty stack. *)
Definition reject_at_end (tok : llama_grammar_candidate) : bool :=
  negb (cand_chr tok =? 0) || negb (n_remain (c_partial tok) =? 0).

(** One candidate against a token element. *)
Definition reject_at_token (rules : llama_grammar_rules) (pos : gptr)
    (tok : llama_grammar_candidate) : outcome bool :=
  if cand_chr tok =? 0 then Ret (negb (n_remain (c_partial tok) =? 0))
  else m ← llama_grammar_match_token rules pos (c_id tok); Ret (negb m).

(** One candidate against a character element: rejected, or moved on. *)
Definition sort_candidate (rules : llama_grammar_rules) (pos : gptr)
    (acc : list llama_grammar_candidate * list llama_grammar_candidate)
    (tok : llama_grammar_candidate)
    : outcome (list llama_grammar_candidate * list llama_grammar_candidate) :=
  let '(rejects, next) := acc in
  if cand_chr tok =? 0 then
    if n_remain (c_partial tok) =? 0 then Ret (rejects, next)
    else m ← llama_grammar_match_partial_char rules pos (c_partial tok);
         Ret (if m : bool then (rejects, next) else (rejects ++ [tok], next))
  else
    '(m, _) ← llama_grammar_match_char rules pos (cand_chr tok);
    Ret (if m : bool then (rejects, next ++ [cand_next tok]) else (rejects ++ [tok], next)).

(** [afuel] bounds the nested [llama_grammar_advance_stack]; [fuel] the recursion,
    which consumes a codepoint of every remaining candidate. *)
Fixpoint llama_grammar_reject_candidates_for_stack (afuel fuel : nat)
    (rules : llama_grammar_rules) (stack : llama_grammar_stack) (candidates : list llama_grammar_candidate)
    : outcome (list llama_grammar_candidate) :=
  match fuel with
  | O => NoFuel
  | S fuel =>
      match stack with
      | [] => Ret (List.filter reject_at_end candidates)
      | stack_pos :: rest =>
          e ← deref rules stack_pos;
          if is_token_elem e then
            foldM (fun rejects tok => r ← reject_at_token rules stack_pos tok;
                     Ret (if r : bool then rejects ++ [tok] else rejects)) [] candidates
          else
            '(rejects, next_candidates) ←
               foldM (sort_candidate rules stack_pos) ([], []) candidates;
            '(_, after) ← llama_grammar_match_char rules stack_pos 0;
            stack_after ← pop_to rules rest after;
            next_stacks ← llama_grammar_advance_stack afuel rules stack_after [];
            next_rejects ← reject_candidates_with
              (llama_grammar_reject_candidates_for_stack afuel fuel rules)
              next_stacks next_candidates;
            Ret (rejects ++ map cand_prev next_rejects)
      end
  end.

Definition llama_grammar_reject_candidates (afuel fuel : nat) (rules : llama_grammar_rules)
    (stacks : llama_grammar_stacks) (candidates : list llama_grammar_candidate)
    : outcome (list llama_grammar_candidate) :=
  reject_candidates_with (llama_grammar_reject_candidates_for_stack afuel fuel rules)
    stacks candidates.

(** ** Left recursion *)

Record lr_state := mk_lr {
  rules_visited : list bool;
  rules_in_progress : list bool;
  rules_may_be_empty : list bool;
}.

(** The first loop: does the rule have an empty alternate? *)
Fixpoint has_empty_alternate (rule : llama_grammar_rule) (at_rule_start : bool) : bool :=
  match rule with
  | [] => false
  | e :: rule' =>
      if is_end_elem e then
        if at_rule_start then true else has_empty_alternate rule' true
      else has_empty_alternate rule' false
  end.

(** The second loop: recurse into the leftmost nonterminals. *)
Fixpoint leftmost_loop (detect : nat -> lr_state -> outcome (bool * lr_state))
    (rule : llama_grammar_rule) (recurse_into_nonterminal : bool) (st : lr_state)
    : outcome (bool * lr_state) :=
  match rule with
  | [] => Ret (false, st)
  | e :: rule' =>
      if type_is LLAMA_GRETYPE_RULE_REF e && recurse_into_nonterminal then
        '(found, st) ← detect (Z.to_nat (el_value e)) st;
        if found : bool then Ret (true, st)
        else
          may ← at_ (rules_may_be_empty st) (Z.to_nat (el_value e));
          leftmost_loop detect rule' may st
      else if is_end_elem e then leftmost_loop detect rule' true st
      else leftmost_loop detect rule' false st
  end.

Fixpoint llama_grammar_detect_left_recursion (fuel : nat) (rules : llama_grammar_rules)
    (rule_index : nat) (st : lr_state) : outcome (bool * lr_state) :=
  match fuel with
  | O => NoFuel
  | S fuel =>
      busy ← at_ (rules_in_progress st) rule_index;
      if busy : bool then Ret (true, st)
      else
        in_progress ← set_ (rules_in_progress st) rule_index true;
        rule ← at_ rules rule_index;
        may_be_empty ← (if has_empty_alternate rule true
                        then set_ (rules_may_be_empty st) rule_index true
                        else Ret (rules_may_be_empty st));
        '(found, st) ← leftmost_loop (llama_grammar_detect_left_recursion fuel rules)
                          rule true (mk_lr (rules_visited st) in_progress may_be_empty);
        if found : bool then Ret (true, st)
        else
          in_progress ← set_ (rules_in_progress st) rule_index false;
          visited ← set_ (rules_visited st) rule_index true;
          Ret (false, mk_lr visited in_progress (rules_may_be_empty st))
  end.

(** [for (size_t i = 0; i < n_rules; i++)]: true when some rule is left
    recursive. *)
Fixpoint check_rules (fuel : nat) (rules : llama_grammar_rules) (todo : list nat)
    (st : lr_state) : outcome bool :=
  match todo with
  | [] => Ret false
  | i :: todo =>
      visited ← at_ (rules_visited st) i;
      if visited : bool then check_rules fuel rules todo st
      else
        '(found, st) ← llama_grammar_detect_left_recursion fuel rules i st;
        if found : bool then Ret true else check_rules fuel rules todo st
  end.

Definition is_left_recursive (rules : llama_grammar_rules) : outcome bool :=
  let n_rules := length rules in
  let none := replicate n_rules false in
  check_rules (S n_rules) rules (seq 0 n_rules) (mk_lr none none none).
