(* ===== verification/GrammarParser.v ===== *)
(** * The GBNF parser, [llama_grammar_parser] of [src/llama-grammar.cpp].

    The source text is a C string: [pos] is the suffix still to be read, so
    [*pos] is its head or 0.  The parser object (symbol table and rules) is
    threaded through a state monad with the outcomes of [Prelude]; an exception
    keeps the state it was thrown in, as [parse] catches it and goes on. *)

From S2P Require Import Prelude Utf8 Grammar.
Import GrammarUtf8.

(** ** The parser object and its monad *)

Record llama_grammar_parser := mk_parser {
  symbol_ids : gmap (list Z) Z;
  p_rules : llama_grammar_rules;
}.

Definition empty_parser : llama_grammar_parser := mk_parser ∅ [].

Definition P (A : Type) : Type := llama_grammar_parser -> outcome A * llama_grammar_parser.

#[export] Instance P_ret : MRet P := fun A a s => (Ret a, s).
#[export] Instance P_bind : MBind P := fun A B k m s =>
  match m s with
  | (Ret a, s') => k a s'
  | (Throw e, s') => (Throw e, s')
  | (Fatal e, s') => (Fatal e, s')
  | (Undef, s') => (Undef, s')
  | (NoFuel, s') => (NoFuel, s')
  end.

(** A computation that does not touch the parser object. *)
Definition lift {A} (o : outcome A) : P A := fun s => (o, s).
Definition throw {A} (msg : string) : P A := lift (Throw msg).
Definition get_parser : P llama_grammar_parser := fun s => (Ret s, s).

(** Memory.  The length of the source does not bound the rules it makes: [{m,n}]
    repeats elements and defines rules.  [can_grow st n] says whether the allocator
    serves a vector that grows by [n] rules or elements while the parser holds
    [st]; where it does not, [std::bad_alloc] (or, beyond [max_size],
    [std::length_error]) is thrown, which [parse] catches as any other exception.
    Growth that the length of the source bounds is not asked for. *)
Class Allocator := { can_grow : llama_grammar_parser -> nat -> bool }.

Definition allocate `{Allocator} (n : nat) : P unit := fun s =>
  (if can_grow s n then Ret () else Throw "std::bad_alloc", s).

(** The vocabulary, as far as the parser uses it: the tokens a text tokenizes
    to.  [None] is the null [vocab] pointer. *)
Definition tokenizer := option (list Z -> list Z).

(** ** Lexical helpers *)

Definition is_digit_char (c : Z) : bool := (ch "0" <=? c) && (c <=? ch "9").

Definition is_word_char (c : Z) : bool :=
  ((ch "a" <=? c) && (c <=? ch "z")) || ((ch "A" <=? c) && (c <=? ch "Z"))
  || (c =? ch "-") || is_digit_char c.

Definition hex_digit (c : Z) : option Z :=
  if (ch "a" <=? c) && (c <=? ch "f") then Some (c - ch "a" + 10)
  else if (ch "A" <=? c) && (c <=? ch "F") then Some (c - ch "A" + 10)
  else if (ch "0" <=? c) && (c <=? ch "9") then Some (c - ch "0")
  else None.

(** The loop of [parse_hex] with [size = end - pos] digits left; it throws when
    it stops before [end]. *)
Fixpoint parse_hex (pos : cstr) (size : nat) (v : Z) : outcome (Z * cstr) :=
  match size with
  | O => Ret (v, pos)
  | S size =>
      match pos with
      | c :: pos' =>
          if c =? 0 then Throw "expecting hex chars"
          else match hex_digit c with
               | Some d => parse_hex pos' size (u32 (u32 (Z.shiftl v 4) + d))
               | None => Throw "expecting hex chars"
               end
      | [] => Throw "expecting hex chars"
      end
  end.

(** [parse_space]; [in_comment] is the inner loop over a comment. *)
Fixpoint parse_space_loop (in_comment : bool) (pos : cstr) (newline_ok : bool) : cstr :=
  match pos with
  | c :: pos' =>
      if in_comment && negb ((c =? 0) || (c =? 13) || (c =? 10))
      then parse_space_loop true pos' newline_ok
      else if (c =? ch " ") || (c =? 9) || (c =? ch "#")
              || (newline_ok && ((c =? 13) || (c =? 10)))
      then parse_space_loop (c =? ch "#") pos' newline_ok
      else pos
  | [] => []
  end.

Definition parse_space (src : cstr) (newline_ok : bool) : cstr :=
  parse_space_loop false src newline_ok.

(** [while (p( *pos)) pos++], returning the text read and the end. *)
Fixpoint span (p : Z -> bool) (pos : cstr) : list Z * cstr :=
  match pos with
  | c :: pos' => if p c then let '(l, r) := span p pos' in (c :: l, r) else ([], pos)
  | [] => ([], [])
  end.

Definition parse_name (src : cstr) : outcome (list Z * cstr) :=
  match span is_word_char src with
  | ([], _) => Throw "expecting name"
  | r => Ret r
  end.

Definition parse_int (src : cstr) : outcome (list Z * cstr) :=
  match span is_digit_char src with
  | ([], _) => Throw "expecting integer"
  | r => Ret r
  end.

(** [std::stoul] on a string of digits (64-bit [unsigned long]). *)
Definition stoul (s : list Z) : outcome Z :=
  if dec_value s <? 2 ^ 64 then Ret (dec_value s) else Throw "stoul".

Definition parse_char (src : cstr) : outcome (Z * cstr) :=
  let c0 := chr_at src 0 in
  let c1 := chr_at src 1 in
  if c0 =? ch "\" then
    if c1 =? ch "x" then parse_hex (drop 2 src) 2 0
    else if c1 =? ch "u" then parse_hex (drop 2 src) 4 0
    else if c1 =? ch "U" then parse_hex (drop 2 src) 8 0
    else if c1 =? ch "t" then Ret (9, drop 2 src)
    else if c1 =? ch "r" then Ret (13, drop 2 src)
    else if c1 =? ch "n" then Ret (10, drop 2 src)
    else if (c1 =? ch "\") || (c1 =? 34) || (c1 =? ch "[") || (c1 =? ch "]")
    then Ret (c1, drop 2 src)
    else Throw "unknown escape"
  else if negb (c0 =? 0) then Ret (decode_utf8_char src)
  else Throw "unexpected end of input".

Definition parse_token (vocab : tokenizer) (src : cstr) : outcome (Z * cstr) :=
  if negb (chr_at src 0 =? ch "<") then Throw "expecting '<'"
  else
    let pos := drop 1 src in
    if chr_at pos 0 =? ch "[" then
      '(digits, int_end) ← parse_int (drop 1 pos);
      token_id ← stoul digits;
      if negb (chr_at int_end 0 =? ch "]") then Throw "expecting ']'"
      else if negb (chr_at int_end 1 =? ch ">") then Throw "expecting '>'"
      else Ret (u32 token_id, drop 2 int_end)
    else
      match vocab with
      | None => Throw "no vocab to parse token"
      | Some tokenize =>
          let '(name, pos) := span (fun c => negb (c =? 0) && negb (c =? ch ">")) pos in
          if negb (chr_at pos 0 =? ch ">") then Throw "expecting '>'"
          else
            match tokenize ((ch "<" :: name) ++ [ch ">"]) with
            | [t] => Ret (u32 t, drop 1 pos)
            | _ => Throw "invalid token"
            end
      end.

(** ** The symbol table and the rules *)

Definition get_symbol_id (name : list Z) : P Z := fun st =>
  let next_id := u32 (Z.of_nat (size (symbol_ids st))) in
  match symbol_ids st !! name with
  | Some id => (Ret id, st)
  | None => (Ret next_id, mk_parser (<[name := next_id]> (symbol_ids st)) (p_rules st))
  end.

Definition generate_symbol_id (base_name : list Z) : P Z := fun st =>
  let next_id := u32 (Z.of_nat (size (symbol_ids st))) in
  (Ret next_id,
   mk_parser (<[base_name ++ [ch "_"] ++ to_string next_id := next_id]> (symbol_ids st))
             (p_rules st)).

Section Parser.
Context `{Allocator}.

Definition put_rule (rule_id : Z) (rule : llama_grammar_rule) : P unit := fun st =>
  let i := Z.to_nat rule_id in
  let rules := if (length (p_rules st) <=? i)%nat
               then p_rules st ++ replicate (i + 1 - length (p_rules st)) []
               else p_rules st in
  (Ret (), mk_parser (symbol_ids st) (<[i := rule]> rules)).

(** [rules] is resized up to [rule_id], and [rule] is copied into it. *)
Definition add_rule (rule_id : Z) (rule : llama_grammar_rule) : P unit :=
  st ← get_parser;
  allocate (Z.to_nat rule_id + 1 - length (p_rules st) + length rule);;
  put_rule rule_id rule.

(** ** [handle_repetitions], the closure inside [parse_sequence] *)

Definition MAX_REPETITION_THRESHOLD : Z := 2000.

(** Iteration [i] of [for (uint64_t i = 0; i < n_opt; i++)], [n] iterations to
    go; returns [last_rec_rule_id].  [rec_rule] is cut back to the size of
    [prev_rule] at the head of every iteration. *)
Fixpoint rec_rules_loop (rule_name : list Z) (prev_rule : llama_grammar_rule) (no_max : bool)
    (n : nat) (i : Z) (last_rec_rule_id : Z) : P Z :=
  match n with
  | O => mret last_rec_rule_id
  | S n =>
      rec_rule_id ← generate_symbol_id rule_name;
      let rec_rule :=
        prev_rule
        ++ (if (0 <? i) || no_max
            then [mk_elem LLAMA_GRETYPE_RULE_REF
                    (if no_max then rec_rule_id else last_rec_rule_id)]
            else [])
        ++ [mk_elem LLAMA_GRETYPE_ALT 0; mk_elem LLAMA_GRETYPE_END 0] in
      add_rule rec_rule_id rec_rule;;
      rec_rules_loop rule_name prev_rule no_max n (i + 1) rec_rule_id
  end.

(** [rule] is [prefix ++ prev_rule] with [prefix] of length [last_sym_start]. *)
Definition handle_repetitions (rule_name : list Z) (rule : llama_grammar_rule)
    (last_sym_start : nat) (min_times max_times : Z) : P llama_grammar_rule :=
  let no_max := max_times =? UINT64_MAX in
  if (last_sym_start =? length rule)%nat then throw "expecting preceding item to */+/?/{"
  else
    let prev_rule := drop last_sym_start rule in
    allocate (Z.to_nat (min_times - 1) * length prev_rule);;
    let rule :=
      if min_times =? 0 then take last_sym_start rule
      else rule ++ concat (replicate (Z.to_nat (min_times - 1)) prev_rule) in
    let n_opt := if no_max then 1 else u64 (max_times - min_times) in
    last_rec_rule_id ← rec_rules_loop rule_name prev_rule no_max (Z.to_nat n_opt) 0 0;
    mret (if 0 <? n_opt
          then rule ++ [mk_elem LLAMA_GRETYPE_RULE_REF last_rec_rule_id]
          else rule).

(** ** Sequences and alternates *)

(** The inner loop of a literal string. *)
Fixpoint literal_loop (fuel : nat) (pos : cstr) (rule : llama_grammar_rule)
    : outcome (llama_grammar_rule * cstr) :=
  match fuel with
  | O => NoFuel
  | S fuel =>
      if chr_at pos 0 =? 34 then Ret (rule, pos)
      else if chr_at pos 0 =? 0 then Throw "unexpected end of input"
      else
        '(c, pos) ← parse_char pos;
        literal_loop fuel pos (rule ++ [mk_elem LLAMA_GRETYPE_CHAR c])
  end.

(** The inner loop of a character class. *)
Fixpoint class_loop (fuel : nat) (start_type : llama_gretype) (last_sym_start : nat)
    (pos : cstr) (rule : llama_grammar_rule) : outcome (llama_grammar_rule * cstr) :=
  match fuel with
  | O => NoFuel
  | S fuel =>
      if chr_at pos 0 =? ch "]" then Ret (rule, pos)
      else if chr_at pos 0 =? 0 then Throw "unexpected end of input"
      else
        '(c, pos) ← parse_char pos;
        let type := if (last_sym_start <? length rule)%nat
                    then LLAMA_GRETYPE_CHAR_ALT else start_type in
        let rule := rule ++ [mk_elem type c] in
        if (chr_at pos 0 =? ch "-") && negb (chr_at pos 1 =? ch "]") then
          if chr_at pos 1 =? 0 then Throw "unexpected end of input"
          else
            '(e, pos) ← parse_char (drop 1 pos);
            class_loop fuel start_type last_sym_start pos
              (rule ++ [mk_elem LLAMA_GRETYPE_CHAR_RNG_UPPER e])
        else class_loop fuel start_type last_sym_start pos rule
  end.

(** The bounds of a [{m}], [{m,}] or [{m,n}] suffix, from after the brace. *)
Definition parse_bounds (pos : cstr) (is_nested : bool) : outcome (Z * Z * cstr) :=
  let pos := parse_space pos is_nested in
  if negb (is_digit_char (chr_at pos 0)) then Throw "expecting an int"
  else
    '(digits, int_end) ← parse_int pos;
    min_times ← stoul digits;
    let pos := parse_space int_end is_nested in
    '(max_times, pos) ←
      (if chr_at pos 0 =? ch "}" then
         Ret (min_times, parse_space (drop 1 pos) is_nested)
       else if chr_at pos 0 =? ch "," then
         let pos := parse_space (drop 1 pos) is_nested in
         '(max_times, pos) ←
           (if is_digit_char (chr_at pos 0) then
              '(digits, int_end) ← parse_int pos;
              max_times ← stoul digits;
              Ret (max_times, parse_space int_end is_nested)
            else Ret (UINT64_MAX, pos));
         if negb (chr_at pos 0 =? ch "}") then Throw "expecting '}'"
         else Ret (max_times, parse_space (drop 1 pos) is_nested)
       else Throw "expecting ','");
    let has_max := negb (max_times =? UINT64_MAX) in
    if (MAX_REPETITION_THRESHOLD <? min_times)
       || (has_max && (MAX_REPETITION_THRESHOLD <? max_times))
    then Throw "number of repetitions exceeds sane defaults"
    else Ret (min_times, max_times, pos).

(** [sequence_loop] is the [while ( *pos)] loop of [parse_sequence], which
    returns the extended [rule] and [pos]; the branch of a group re-enters
    [parse_alternates], whose own [while ( *pos == '|')] loop is
    [alternates_tail]. *)
Fixpoint sequence_loop (fuel : nat) (vocab : tokenizer) (pos : cstr) (rule_name : list Z)
    (rule : llama_grammar_rule) (last_sym_start : nat) (is_nested : bool)
    : P (llama_grammar_rule * cstr) :=
  match fuel with
  | O => lift NoFuel
  | S fuel =>
      let c := chr_at pos 0 in
      let continue rule last pos :=
        sequence_loop fuel vocab pos rule_name rule last is_nested in
      if c =? 0 then mret (rule, pos)
      else if c =? 34 then
        '(rule', pos) ← lift (literal_loop (S (length pos)) (drop 1 pos) rule);
        continue rule' (length rule) (parse_space (drop 1 pos) is_nested)
      else if c =? ch "[" then
        let pos := drop 1 pos in
        let '(start_type, pos) := if chr_at pos 0 =? ch "^"
                                  then (LLAMA_GRETYPE_CHAR_NOT, drop 1 pos)
                                  else (LLAMA_GRETYPE_CHAR, pos) in
        '(rule', pos) ← lift (class_loop (S (length pos)) start_type (length rule) pos rule);
        continue rule' (length rule) (parse_space (drop 1 pos) is_nested)
      else if (c =? ch "<") || (c =? ch "!") then
        let '(type, pos) := if c =? ch "!" then (LLAMA_GRETYPE_TOKEN_NOT, drop 1 pos)
                            else (LLAMA_GRETYPE_TOKEN, pos) in
        '(token, token_end) ← lift (parse_token vocab pos);
        continue (rule ++ [mk_elem type token]) (length rule) (parse_space token_end is_nested)
      else if is_word_char c then
        '(name, name_end) ← lift (parse_name pos);
        ref_rule_id ← get_symbol_id name;
        continue (rule ++ [mk_elem LLAMA_GRETYPE_RULE_REF ref_rule_id]) (length rule)
          (parse_space name_end is_nested)
      else if c =? ch "(" then
        let pos := parse_space (drop 1 pos) true in
        sub_rule_id ← generate_symbol_id rule_name;
        pos ← parse_alternates fuel vocab pos rule_name sub_rule_id true;
        let rule' := rule ++ [mk_elem LLAMA_GRETYPE_RULE_REF sub_rule_id] in
        if negb (chr_at pos 0 =? ch ")") then throw "expecting ')'"
        else continue rule' (length rule) (parse_space (drop 1 pos) is_nested)
      else if c =? ch "." then
        continue (rule ++ [mk_elem LLAMA_GRETYPE_CHAR_ANY 0]) (length rule)
          (parse_space (drop 1 pos) is_nested)
      else if c =? ch "*" then
        rule ← handle_repetitions rule_name rule last_sym_start 0 UINT64_MAX;
        continue rule last_sym_start (parse_space (drop 1 pos) is_nested)
      else if c =? ch "+" then
        rule ← handle_repetitions rule_name rule last_sym_start 1 UINT64_MAX;
        continue rule last_sym_start (parse_space (drop 1 pos) is_nested)
      else if c =? ch "?" then
        rule ← handle_repetitions rule_name rule last_sym_start 0 1;
        continue rule last_sym_start (parse_space (drop 1 pos) is_nested)
      else if c =? ch "{" then
        '(min_times, max_times, pos) ← lift (parse_bounds (drop 1 pos) is_nested);
        rule ← handle_repetitions rule_name rule last_sym_start min_times max_times;
        continue rule last_sym_start pos
      else mret (rule, pos)
  end
with alternates_tail (fuel : nat) (vocab : tokenizer) (pos : cstr) (rule_name : list Z)
    (rule : llama_grammar_rule) (is_nested : bool) : P (llama_grammar_rule * cstr) :=
  match fuel with
  | O => lift NoFuel
  | S fuel =>
      if chr_at pos 0 =? ch "|" then
        let rule := rule ++ [mk_elem LLAMA_GRETYPE_ALT 0] in
        let pos := parse_space (drop 1 pos) true in
        '(rule, pos) ← sequence_loop fuel vocab pos rule_name rule (length rule) is_nested;
        alternates_tail fuel vocab pos rule_name rule is_nested
      else mret (rule, pos)
  end
with parse_alternates (fuel : nat) (vocab : tokenizer) (src : cstr) (rule_name : list Z)
    (rule_id : Z) (is_nested : bool) : P cstr :=
  match fuel with
  | O => lift NoFuel
  | S fuel =>
      '(rule, pos) ← sequence_loop fuel vocab src rule_name [] 0 is_nested;
      '(rule, pos) ← alternates_tail fuel vocab pos rule_name rule is_nested;
      add_rule rule_id (rule ++ [mk_elem LLAMA_GRETYPE_END 0]);;
      mret pos
  end.

(** [parse_sequence] enters the loop with [last_sym_start = rule.size()]. *)
Definition parse_sequence (fuel : nat) (vocab : tokenizer) (src : cstr) (rule_name : list Z)
    (rule : llama_grammar_rule) (is_nested : bool) : P (llama_grammar_rule * cstr) :=
  sequence_loop fuel vocab src rule_name rule (length rule) is_nested.

(** ** Rules and the whole grammar *)

(** Every iteration of the loops above consumes a byte or descends once. *)
Definition parse_fuel (src : cstr) : nat := 2 * length src + 3.

Definition parse_rule (vocab : tokenizer) (src : cstr) : P cstr :=
  '(name, name_end) ← lift (parse_name src);
  let pos := parse_space name_end false in
  rule_id ← get_symbol_id name;
  if negb ((chr_at pos 0 =? ch ":") && (chr_at pos 1 =? ch ":") && (chr_at pos 2 =? ch "="))
  then throw "expecting ::="
  else
    let pos := parse_space (drop 3 pos) true in
    pos ← parse_alternates (parse_fuel pos) vocab pos name rule_id false;
    if chr_at pos 0 =? 13 then
      mret (parse_space (if chr_at pos 1 =? 10 then drop 2 pos else drop 1 pos) true)
    else if chr_at pos 0 =? 10 then mret (parse_space (drop 1 pos) true)
    else if negb (chr_at pos 0 =? 0) then throw "expecting newline or end"
    else mret (parse_space pos true).

Fixpoint rules_loop (fuel : nat) (vocab : tokenizer) (pos : cstr) : P unit :=
  match fuel with
  | O => lift NoFuel
  | S fuel =>
      if chr_at pos 0 =? 0 then mret ()
      else pos ← parse_rule vocab pos; rules_loop fuel vocab pos
  end.

(** "Ensure that the rule at that location exists": the inner search for the
    name of a missing rule throws for the first symbol with that id, and falls
    through when there is none. *)
Definition check_elem (st : llama_grammar_parser) (e : llama_grammar_element) : outcome unit :=
  if type_is LLAMA_GRETYPE_RULE_REF e then
    let missing := match p_rules st !! Z.to_nat (el_value e) with
                   | Some (_ :: _) => false
                   | _ => true
                   end in
    if missing && existsb (fun kv => kv.2 =? el_value e) (map_to_list (symbol_ids st))
    then Throw "Undefined rule identifier" else Ret ()
  else Ret ().

Definition check_rule (st : llama_grammar_parser) (rule : llama_grammar_rule) : outcome unit :=
  match rule with
  | [] => Throw "Undefined rule"
  | _ => foldM (fun _ e => check_elem st e) () rule
  end.

Definition parse_body (vocab : tokenizer) (src : cstr) : P unit :=
  let pos := parse_space src true in
  rules_loop (S (length pos)) vocab pos;;
  st ← get_parser;
  lift (foldM (fun _ rule => check_rule st rule) () (p_rules st)).

(** [parse] catches the exceptions: it clears the rules and returns false. *)
Definition parse (vocab : tokenizer) (src : cstr) (st : llama_grammar_parser)
    : outcome bool * llama_grammar_parser :=
  match parse_body vocab src st with
  | (Ret tt, st') => (Ret true, st')
  | (Throw _, st') => (Ret false, mk_parser (symbol_ids st') [])
  | (Fatal e, st') => (Fatal e, st')
  | (Undef, st') => (Undef, st')
  | (NoFuel, st') => (NoFuel, st')
  end.

End Parser.
