(* ===== verification/GrammarSampler.v ===== *)
(** * The grammar object and its sampler interface: construction, acceptance of
    tokens and filtering of candidates in [src/llama-grammar.cpp].

    The vocabulary ([llama_vocab]) and the regular expressions of the standard
    library are used through small interfaces.  [afuel] bounds the stack
    recursion of [Grammar.v]. *)

From S2P Require Import Prelude Utf8 Grammar GrammarParser.
Import GrammarUtf8.

(** ** Interfaces *)

(** What the sampler asks of [llama_vocab]. *)
Class Vocab := {
  token_to_piece : Z -> list Z;
  is_eog : Z -> bool;
  vocab_tokenize : list Z -> list Z;
}.

(** [std::regex] over a pattern: whether the constructor takes it (it throws
    [regex_error] otherwise), and the match results as (position, length), the
    whole match first, an unmatched group having length 0. *)
Class Regex := {
  regex_compiles : list Z -> bool;
  regex_match : list Z -> list Z -> option (list (nat * nat));
  regex_search : list Z -> list Z -> option (list (nat * nat));
}.

(** ** Data *)

(** A token and its interval in the trigger buffer. *)
Record token_pos := mk_token_pos { tp_token : Z; tp_start : nat; tp_end : nat }.

Record llama_grammar := mk_grammar {
  g_has_vocab : bool;
  g_rules : llama_grammar_rules;
  g_stacks : llama_grammar_stacks;
  g_partial_utf8 : llama_partial_utf8;
  g_lazy : bool;
  g_awaiting_trigger : bool;
  g_trigger_buffer : list Z;
  g_trigger_buffer_positions : list token_pos;
  g_trigger_tokens : list Z;
  g_trigger_patterns : list (list Z);
}.

Definition set_stacks (g : llama_grammar) (st : llama_grammar_stacks) : llama_grammar :=
  mk_grammar (g_has_vocab g) (g_rules g) st (g_partial_utf8 g) (g_lazy g)
    (g_awaiting_trigger g) (g_trigger_buffer g) (g_trigger_buffer_positions g)
    (g_trigger_tokens g) (g_trigger_patterns g).

Definition set_partial (g : llama_grammar) (p : llama_partial_utf8) : llama_grammar :=
  mk_grammar (g_has_vocab g) (g_rules g) (g_stacks g) p (g_lazy g)
    (g_awaiting_trigger g) (g_trigger_buffer g) (g_trigger_buffer_positions g)
    (g_trigger_tokens g) (g_trigger_patterns g).

Definition set_trigger (g : llama_grammar) (awaiting : bool) (buffer : list Z)
    (positions : list token_pos) : llama_grammar :=
  mk_grammar (g_has_vocab g) (g_rules g) (g_stacks g) (g_partial_utf8 g) (g_lazy g)
    awaiting buffer positions (g_trigger_tokens g) (g_trigger_patterns g).

(** [llama_token_data]; only the sampler's [-INFINITY] is written to logits. *)
Record token_data (L : Type) := mk_token_data { td_id : Z; td_logit : L }.
Arguments mk_token_data {L} _ _.
Arguments td_id {L} _.
Arguments td_logit {L} _.

(** ** Construction *)

(** [for (pos = rule; pos->type != END; pos++) push_back( *pos)], then END. *)
Fixpoint copy_rule (es : llama_grammar_rule) : outcome llama_grammar_rule :=
  match es with
  | [] => Undef
  | e :: es' =>
      if type_is LLAMA_GRETYPE_END e then Ret [mk_elem LLAMA_GRETYPE_END 0]
      else r ← copy_rule es'; Ret (e :: r)
  end.

Definition copy_rules (rules : llama_grammar_rules) : outcome llama_grammar_rules :=
  foldM (fun acc r => r' ← copy_rule r; Ret (acc ++ [r'])) [] rules.

(** "loop over alternates of start rule to build initial stacks" *)
Definition initial_stacks (afuel : nat) (rules : llama_grammar_rules) (start : nat)
    : outcome llama_grammar_stacks :=
  rule ← at_ rules start;
  alternates_loop (fun off e news =>
      llama_grammar_advance_stack afuel rules
        (if is_end_elem e then [] else [mk_gptr start off]) news)
    0 rule true [].

(** [llama_grammar_init_impl] from element arrays; [None] is [nullptr]. *)
Definition llama_grammar_init_rules (afuel : nat) (has_vocab : bool)
    (rules : llama_grammar_rules) (start_rule_index : nat) : outcome (option llama_grammar) :=
  vec_rules ← copy_rules rules;
  bad ← is_left_recursive vec_rules;
  if bad : bool then Ret None
  else
    stacks ← initial_stacks afuel vec_rules start_rule_index;
    Ret (Some (mk_grammar has_vocab vec_rules stacks partial_utf8_zero false false [] [] [] [])).

(** [symbol_ids.at(name)] *)
Definition symbol_at (st : llama_grammar_parser) (name : list Z) : outcome Z :=
  match symbol_ids st !! name with Some i => Ret i | None => Throw "map::at" end.

(** [llama_grammar_init_impl] from a GBNF text. *)
Definition llama_grammar_init_impl {R : Regex} {A : Allocator} (afuel : nat) (vocab : tokenizer) (grammar_str : cstr)
    (grammar_root : list Z) (lazy : bool) (trigger_patterns : list (list Z))
    (trigger_tokens : list Z) : outcome (option llama_grammar) :=
  let '(ok, parser) := parse vocab grammar_str empty_parser in
  ok ← ok;
  if negb ok || bool_decide (p_rules parser = []) then Ret None
  else if bool_decide (symbol_ids parser !! bytes "root" = None) then Ret None
  else
    start ← symbol_at parser grammar_root;
    vec_rules ← copy_rules (p_rules parser);
    bad ← is_left_recursive vec_rules;
    if bad : bool then Ret None
    else
      stacks ← initial_stacks afuel vec_rules (Z.to_nat start);
      if negb (forallb regex_compiles trigger_patterns) then Throw "regex_error"
      else Ret (Some (mk_grammar (bool_decide (is_Some vocab)) vec_rules stacks partial_utf8_zero
                   lazy lazy [] [] trigger_tokens trigger_patterns)).

(** [llama_grammar_clone_impl]: the pointers of the copy are redirected to the
    same element of the copied rules, which the index pair already names; a
    pointer to no element of the rules is left alone. *)
Definition redirect (rules : llama_grammar_rules) (p : gptr) : gptr :=
  match rules !! g_rule p with
  | Some r => match r !! g_off p with
              | Some _ => mk_gptr (g_rule p) (g_off p)
              | None => p
              end
  | None => p
  end.

Definition llama_grammar_clone_impl (g : llama_grammar) : llama_grammar :=
  set_stacks g (map (map (redirect (g_rules g))) (g_stacks g)).

(** [llama_grammar_accept]: one character on every stack. *)
Definition llama_grammar_accept (afuel : nat) (g : llama_grammar) (chr : Z)
    : outcome llama_grammar :=
  st ← accept_stacks afuel (g_rules g) (g_stacks g) chr; Ret (set_stacks g st).

(** [llama_grammar_accept_str]; the decoded vector ends in a 0 that is skipped. *)
Definition llama_grammar_accept_str (afuel : nat) (g : llama_grammar) (piece : list Z)
    : outcome llama_grammar :=
  '(code_points, partial) ← decode_utf8 piece (g_partial_utf8 g);
  g ← foldM (llama_grammar_accept afuel) g (removelast code_points);
  let g := set_partial g partial in
  if bool_decide (g_stacks g = []) then Throw "Unexpected empty grammar stack"
  else Ret g.

(** The loop over the code points of [llama_grammar_accept_token], which stops
    once no stack is left. *)
Fixpoint accept_code_points (afuel : nat) (rules : llama_grammar_rules)
    (current_stacks : llama_grammar_stacks) (cps : list Z) : outcome llama_grammar_stacks :=
  match cps with
  | [] => Ret current_stacks
  | c :: cps =>
      next_stacks ← accept_stacks afuel rules current_stacks c;
      if bool_decide (next_stacks = []) then Ret next_stacks
      else accept_code_points afuel rules next_stacks cps
  end.

(** One stack of [llama_grammar_accept_token]. *)
Definition accept_token_stack (afuel : nat) (rules : llama_grammar_rules) (token : Z)
    (cps : list Z) (stacks_new : llama_grammar_stacks) (stack : llama_grammar_stack)
    : outcome llama_grammar_stacks :=
  match stack with
  | [] => Ret stacks_new
  | pos :: rest =>
      e ← deref rules pos;
      if is_token_elem e then
        m ← llama_grammar_match_token rules pos token;
        if m : bool then
          new_stack ← pop_to rules rest (ptr_add pos 1);
          llama_grammar_advance_stack afuel rules new_stack stacks_new
        else Ret stacks_new
      else
        current_stacks ← accept_code_points afuel rules [stack] cps;
        Ret (foldl add_stack stacks_new current_stacks)
  end.

Definition llama_grammar_accept_token (afuel : nat) (g : llama_grammar) (token : Z)
    (piece : list Z) : outcome llama_grammar :=
  '(code_points, partial) ← decode_utf8 piece (g_partial_utf8 g);
  stacks_new ← foldM (accept_token_stack afuel (g_rules g) token (removelast code_points))
                 [] (g_stacks g);
  let g := set_partial (set_stacks g stacks_new) partial in
  if bool_decide (g_stacks g = []) then Throw "Unexpected empty grammar stack"
  else Ret g.

(** ** Triggers of lazy grammars *)

Section Triggers.
Context {R : Regex}.

(** The lambda [find_start_pos]: the first non-empty capture group, or the
    start of the match. *)
Definition find_start_pos (match_ : list (nat * nat)) : nat :=
  match List.find (fun '(_, len) => (0 <? len)%nat) (tail match_) with
  | Some (start, _) => start
  | None => match match_ with (start, _) :: _ => start | [] => 0%nat end
  end.

(** [llama_grammar_trigger_pattern::find]; [None] is [npos]. *)
Definition trigger_find (pattern input : list Z) : option nat :=
  let anchored := match pattern with
                  | c :: _ => (c =? ch "^") && (List.last pattern 0 =? ch "$")
                  | [] => false
                  end in
  match (if anchored then regex_match pattern input else None) with
  | Some m => Some (find_start_pos m)
  | None => find_start_pos <$> regex_search pattern input
  end.

(** [std::string::substr(start, len)] *)
Definition substr (s : list Z) (start len : nat) : list Z := take len (drop start s).

(** "replay tokens that overlap with [start, end)" *)
Definition replay_token (afuel : nat) (start : nat) (g : llama_grammar) (tp : token_pos)
    : outcome llama_grammar :=
  if (tp_end tp <=? start)%nat then Ret g
  else
    let piece_start := if (tp_start tp <? start)%nat then start else tp_start tp in
    let tok_piece := substr (g_trigger_buffer g) piece_start (tp_end tp - piece_start) in
    llama_grammar_accept_token afuel g (tp_token tp) tok_piece.

(** [for (trigger_pattern : trigger_patterns)], with the early return. *)
Fixpoint patterns_loop (afuel : nat) (g : llama_grammar) (patterns : list (list Z))
    : outcome llama_grammar :=
  match patterns with
  | [] => Ret g
  | pattern :: patterns =>
      match trigger_find pattern (g_trigger_buffer g) with
      | Some start =>
          let g := set_trigger g false (g_trigger_buffer g) (g_trigger_buffer_positions g) in
          g ← foldM (replay_token afuel start) g (g_trigger_buffer_positions g);
          Ret (set_trigger g false [] [])
      | None => patterns_loop afuel g patterns
      end
  end.

(** ** The sampler interface *)

Context {V : Vocab}.

(** A stack that is empty: the text so far is a sentence of the grammar. *)
Definition has_empty_stack (stacks : llama_grammar_stacks) : bool :=
  existsb (fun st => bool_decide (st = [])) stacks.

Definition llama_grammar_accept_impl (afuel : nat) (g : llama_grammar) (token : Z)
    : outcome llama_grammar :=
  c_assert (g_has_vocab g) "grammar.vocab != nullptr";;
  let piece := token_to_piece token in
  if g_awaiting_trigger g then
    if bool_decide (token ∈ g_trigger_tokens g) then
      let g := set_trigger g false [] (g_trigger_buffer_positions g) in
      llama_grammar_accept_token afuel g token piece
    else
      let n := length (g_trigger_buffer g) in
      let positions := g_trigger_buffer_positions g
                       ++ [mk_token_pos token n (n + length piece)] in
      let g := set_trigger g true (g_trigger_buffer g ++ piece) positions in
      patterns_loop afuel g (g_trigger_patterns g)
  else if is_eog token then
    if has_empty_stack (g_stacks g) then Ret g else Fatal "fatal error"
  else llama_grammar_accept_token afuel g token piece.

(** [llama_grammar_apply_impl]: the logits of the candidates that the grammar
    rules out become [neg_inf]. *)
Definition to_candidate (g : llama_grammar) (i : nat) (id : Z)
    : outcome llama_grammar_candidate :=
  '(cps, partial) ← decode_utf8 (token_to_piece id) (g_partial_utf8 g);
  Ret (mk_cand i cps 0 partial id).

Definition mask_logit {L} (neg_inf : L) (cur_p : list (token_data L)) (i : nat)
    : list (token_data L) :=
  alter (fun d => mk_token_data (td_id d) neg_inf) i cur_p.

(** One candidate: masked at once, or collected for the grammar. *)
Definition classify {L} (g : llama_grammar) (allow_eog : bool) (neg_inf : L)
    (acc : list (token_data L) * list llama_grammar_candidate) (i : nat)
    : outcome (list (token_data L) * list llama_grammar_candidate) :=
  let '(cur_p, cands) := acc in
  d ← at_ cur_p i;
  let piece := token_to_piece (td_id d) in
  if is_eog (td_id d) then
    Ret (if allow_eog then cur_p else mask_logit neg_inf cur_p i, cands)
  else if bool_decide (piece = []) || (chr_at piece 0 =? 0) then
    Ret (mask_logit neg_inf cur_p i, cands)
  else c ← to_candidate g i (td_id d); Ret (cur_p, cands ++ [c]).

Definition llama_grammar_apply_impl {L} (afuel fuel : nat) (g : llama_grammar) (neg_inf : L)
    (cur_p : list (token_data L)) : outcome (list (token_data L)) :=
  c_assert (g_has_vocab g) "grammar.vocab != nullptr";;
  if g_awaiting_trigger g then Ret cur_p
  else
    let allow_eog := has_empty_stack (g_stacks g) in
    '(cur_p, candidates) ← foldM (classify g allow_eog neg_inf) (cur_p, [])
                             (seq 0 (length cur_p));
    rejects ← llama_grammar_reject_candidates afuel fuel (g_rules g) (g_stacks g) candidates;
    Ret (foldl (fun p r => mask_logit neg_inf p (c_index r)) cur_p rejects).

End Triggers.
