(* ===== verification/GrammarLang.v ===== *)
(** * What a grammar means: the abstract specification of [Grammar.v].

    The flat element vectors of the code are read back as a context-free
    grammar over character classes ([decode_seq]), whose language is defined by
    leftmost derivation ([derives]).  [wf_elems] is the element structure the
    parser produces and the stack machine relies on.  The file then relates
    the machine's local steps to the specification; [GrammarFacts.v] states the
    theorems. *)

From S2P Require Import Prelude Utf8 Grammar.
From Stdlib Require Import Lia.

(** ** Abstract syntax and semantics *)

Inductive gsym :=
  | SChar (neg : bool) (ranges : list (Z * Z))
  | SAny
  | SRef (r : nat)
  | STok (neg : bool) (id : Z).

Definition in_range (c : Z) (r : Z * Z) : bool := (r.1 <=? c) && (c <=? r.2).

Definition sym_matches (s : gsym) (c : Z) : bool :=
  match s with
  | SChar neg ranges => negb (Bool.eqb (existsb (in_range c) ranges) neg)
  | SAny => true
  | _ => false
  end.

(** A character class being read: negation, finished ranges, and a character
    that may still become the lower bound of a range. *)
Record open_class := mk_open { oc_neg : bool; oc_ranges : list (Z * Z); oc_lo : option Z }.

Definition close_class (k : open_class) : gsym :=
  SChar (oc_neg k)
    (oc_ranges k ++ match oc_lo k with Some lo => [(lo, lo)] | None => [] end).

Definition flush (cur : option open_class) (ss : list gsym) : list gsym :=
  match cur with Some k => close_class k :: ss | None => ss end.

(** The symbols of a sequence, up to the end of its alternate. *)
Fixpoint decode_seq (cur : option open_class) (es : llama_grammar_rule)
    : option (list gsym) :=
  match es with
  | [] => None
  | e :: es' =>
      let v := el_value e in
      match el_type e with
      | LLAMA_GRETYPE_END | LLAMA_GRETYPE_ALT => Some (flush cur [])
      | LLAMA_GRETYPE_RULE_REF =>
          ss ← decode_seq None es'; Some (flush cur (SRef (Z.to_nat v) :: ss))
      | LLAMA_GRETYPE_CHAR_ANY =>
          ss ← decode_seq None es'; Some (flush cur (SAny :: ss))
      | LLAMA_GRETYPE_TOKEN =>
          ss ← decode_seq None es'; Some (flush cur (STok false v :: ss))
      | LLAMA_GRETYPE_TOKEN_NOT =>
          ss ← decode_seq None es'; Some (flush cur (STok true v :: ss))
      | LLAMA_GRETYPE_CHAR =>
          ss ← decode_seq (Some (mk_open false [] (Some v))) es'; Some (flush cur ss)
      | LLAMA_GRETYPE_CHAR_NOT =>
          ss ← decode_seq (Some (mk_open true [] (Some v))) es'; Some (flush cur ss)
      | LLAMA_GRETYPE_CHAR_RNG_UPPER =>
          match cur with
          | Some (mk_open neg rs (Some lo)) =>
              decode_seq (Some (mk_open neg (rs ++ [(lo, v)]) None)) es'
          | _ => None
          end
      | LLAMA_GRETYPE_CHAR_ALT =>
          match cur with
          | Some (mk_open neg rs lo) =>
              decode_seq (Some (mk_open neg
                (rs ++ match lo with Some lo => [(lo, lo)] | None => [] end) (Some v))) es'
          | None => None
          end
      end
  end.

Definition syms_of (es : llama_grammar_rule) : list gsym := default [] (decode_seq None es).

(** The offsets at which the alternates of a rule start, with their elements. *)
Fixpoint alt_starts (off : nat) (es : llama_grammar_rule) (at_start : bool)
    : list (nat * llama_grammar_rule) :=
  match es with
  | [] => []
  | e :: es' =>
      (if at_start then [(off, es)] else [])
      ++ match el_type e with
         | LLAMA_GRETYPE_END => []
         | LLAMA_GRETYPE_ALT => alt_starts (S off) es' true
         | _ => alt_starts (S off) es' false
         end
  end.

Definition alternatives (rules : llama_grammar_rules) (r : nat) : list (list gsym) :=
  match rules !! r with
  | Some rule => map (fun a => syms_of a.2) (alt_starts 0 rule true)
  | None => []
  end.

(** Leftmost derivation of a text from a sequence of symbols. *)
Inductive derives (rules : llama_grammar_rules) : list gsym -> list Z -> Prop :=
  | derives_nil : derives rules [] []
  | derives_char s c ss w :
      sym_matches s c = true -> derives rules ss w -> derives rules (s :: ss) (c :: w)
  | derives_ref r alt ss w :
      alt ∈ alternatives rules r -> derives rules (alt ++ ss) w ->
      derives rules (SRef r :: ss) w.

(** ** Well-formed rules *)

(** Where in a rule a suffix starts: between symbols, after a character (which
    may open a range or be followed by an alternative character), or after the
    upper end of a range. *)
Inductive elem_mode := MBoundary | MChar | MRange.

(** [n] is the number of rules. *)
Fixpoint wf_elems (n : nat) (m : elem_mode) (es : llama_grammar_rule) : bool :=
  match es with
  | [] => false
  | e :: es' =>
      match el_type e with
      | LLAMA_GRETYPE_END => match es' with [] => true | _ => false end
      | LLAMA_GRETYPE_ALT | LLAMA_GRETYPE_CHAR_ANY
      | LLAMA_GRETYPE_TOKEN | LLAMA_GRETYPE_TOKEN_NOT => wf_elems n MBoundary es'
      | LLAMA_GRETYPE_RULE_REF =>
          (0 <=? el_value e) && (Z.to_nat (el_value e) <? n)%nat && wf_elems n MBoundary es'
      | LLAMA_GRETYPE_CHAR | LLAMA_GRETYPE_CHAR_NOT => wf_elems n MChar es'
      | LLAMA_GRETYPE_CHAR_RNG_UPPER =>
          match m with MChar => wf_elems n MRange es' | _ => false end
      | LLAMA_GRETYPE_CHAR_ALT =>
          match m with MBoundary => false | _ => wf_elems n MChar es' end
      end
  end.

Definition wf_rules (rules : llama_grammar_rules) : bool :=
  forallb (wf_elems (length rules) MBoundary) rules.

(** ** Pointers and stacks of a well-formed grammar *)

Section Machine.
Context (rules : llama_grammar_rules).

(** [p] points at a symbol (not at the end of an alternate). *)
Definition valid_ptr (p : gptr) : Prop :=
  exists e es, elems_from rules p = Ret (e :: es) /\ is_end_elem e = false
    /\ wf_elems (length rules) MBoundary (e :: es) = true.

Definition syms_at (p : gptr) : list gsym :=
  match elems_from rules p with Ret es => syms_of es | _ => [] end.

Definition valid_stack (s : llama_grammar_stack) : Prop := Forall valid_ptr s.

(** The sentential form a stack stands for, top first. *)
Definition stack_syms (s : llama_grammar_stack) : list gsym := concat (map syms_at s).

Definition is_terminal (e : llama_grammar_element) : bool :=
  match el_type e with
  | LLAMA_GRETYPE_CHAR | LLAMA_GRETYPE_CHAR_NOT | LLAMA_GRETYPE_CHAR_ANY
  | LLAMA_GRETYPE_TOKEN | LLAMA_GRETYPE_TOKEN_NOT => true
  | _ => false
  end.

(** A stack the machine rests on: empty, or with a terminal on top. *)
Definition ready (s : llama_grammar_stack) : Prop :=
  match s with
  | [] => True
  | p :: _ => exists e, deref rules p = Ret e /\ is_terminal e = true
  end.

(** The stack that continues after [p], over [rest]. *)
Definition after_stack (p : gptr) (rest : llama_grammar_stack) : llama_grammar_stack :=
  match deref rules p with
  | Ret e => if is_end_elem e then rest else p :: rest
  | _ => rest
  end.

(** [closes st s]: expanding the rule references on top of [st] leads to [s]. *)
Inductive closes : llama_grammar_stack -> llama_grammar_stack -> Prop :=
  | closes_nil : closes [] []
  | closes_terminal p rest e :
      deref rules p = Ret e -> is_terminal e = true -> closes (p :: rest) (p :: rest)
  | closes_ref p rest e rule off es s :
      deref rules p = Ret e -> el_type e = LLAMA_GRETYPE_RULE_REF ->
      rules !! Z.to_nat (el_value e) = Some rule ->
      (off, es) ∈ alt_starts 0 rule true ->
      closes (after_stack (mk_gptr (Z.to_nat (el_value e)) off)
                (after_stack (ptr_add p 1) rest)) s ->
      closes (p :: rest) s.

(** [steps st c s]: [st] consumes the character [c] and settles on [s]. *)
Definition steps (st : llama_grammar_stack) (c : Z) (s : llama_grammar_stack) : Prop :=
  exists p rest e after, st = p :: rest /\ deref rules p = Ret e /\ is_token_elem e = false
    /\ llama_grammar_match_char rules p c = Ret (true, after)
    /\ closes (after_stack after rest) s.

(** [runs st w s]: [st] consumes the text [w] and rests on [s]. *)
Inductive runs : llama_grammar_stack -> list Z -> llama_grammar_stack -> Prop :=
  | runs_nil st : runs st [] st
  | runs_cons st c st' w s : steps st c st' -> runs st' w s -> runs st (c :: w) s.

End Machine.

(** ** Facts about the element structure *)

Lemma deref_elems rules p e : deref rules p = Ret e <->
  exists es, elems_from rules p = Ret (e :: es).
Proof.
  unfold deref, elems_from. destruct (at_ rules (g_rule p)) as [r| | | |]; simpl;
    [|naive_solver..].
  rewrite at_Ret. split.
  - intros H. exists (drop (S (g_off p)) r). by rewrite (drop_S _ e).
  - intros [es H]. injection H as H. rewrite <- (Nat.add_0_r (g_off p)), <- lookup_drop, H. done.
Qed.

Lemma elems_from_add rules p e es : elems_from rules p = Ret (e :: es) ->
  forall k, elems_from rules (ptr_add p k) = Ret (drop k (e :: es)).
Proof.
  unfold elems_from, ptr_add. simpl. destruct (at_ rules (g_rule p)); simpl; try discriminate.
  intros H k. injection H as <-. by rewrite drop_drop.
Qed.

Lemma after_stack_elems rules p e es rest : elems_from rules p = Ret (e :: es) ->
  after_stack rules p rest = if is_end_elem e then rest else p :: rest.
Proof.
  intros H. unfold after_stack.
  by rewrite (proj2 (deref_elems rules p e)) by eauto.
Qed.

Lemma type_is_spec t e : type_is t e = true <-> el_type e = t.
Proof. unfold type_is. rewrite Z.eqb_eq. destruct (el_type e), t; simpl; split; congruence. Qed.

(** Case analysis on the type of an element, computing the tests on it. *)
Ltac type_case e :=
  let T := fresh "T" in
  destruct (el_type e) eqn:T;
  unfold is_token_elem, is_positive_char, is_end_elem, is_terminal, type_is in *;
  rewrite ?T in *; cbn -[match_char_loop] in *.

(** In front of the next symbol, decoding closes the class it is in. *)
Lemma decode_flush n m k es : wf_elems n m es = true ->
  match es with
  | e :: _ => type_is LLAMA_GRETYPE_CHAR_RNG_UPPER e = false
              /\ type_is LLAMA_GRETYPE_CHAR_ALT e = false
  | [] => True
  end ->
  decode_seq (Some k) es = cons (close_class k) <$> decode_seq None es
  /\ wf_elems n MBoundary es = true.
Proof.
  destruct es as [|e es]; [done|]. intros Hwf [H1 H2].
  simpl in *. type_case e; try discriminate; split; try done;
    destruct (decode_seq _ es); done.
Qed.

Lemma decode_rng neg rs lo e es : el_type e = LLAMA_GRETYPE_CHAR_RNG_UPPER ->
  decode_seq (Some (mk_open neg rs (Some lo))) (e :: es)
  = decode_seq (Some (mk_open neg (rs ++ [(lo, el_value e)]) None)) es.
Proof. intros H. simpl. by rewrite H. Qed.

Lemma decode_alt neg rs lo e es : el_type e = LLAMA_GRETYPE_CHAR_ALT ->
  decode_seq (Some (mk_open neg rs lo)) (e :: es)
  = decode_seq (Some (mk_open neg
      (rs ++ match lo with Some lo => [(lo, lo)] | None => [] end) (Some (el_value e)))) es.
Proof. intros H. simpl. by rewrite H. Qed.

Lemma match_char_loop_eq c e0 e1 es k found :
  match_char_loop c (e0 :: e1 :: es) k found =
  if type_is LLAMA_GRETYPE_CHAR_RNG_UPPER e1 then
    match es with
    | e2 :: _ =>
        if type_is LLAMA_GRETYPE_CHAR_ALT e2
        then match_char_loop c es (k + 2)
               (found || ((el_value e0 <=? c) && (c <=? el_value e1)))
        else Ret (found || ((el_value e0 <=? c) && (c <=? el_value e1)), (k + 2)%nat)
    | [] => Undef
    end
  else
    let found := if type_is LLAMA_GRETYPE_CHAR_ANY e0 then true
                 else found || (el_value e0 =? c) in
    if type_is LLAMA_GRETYPE_CHAR_ALT e1
    then match_char_loop c (e1 :: es) (k + 1) found
    else Ret (found, (k + 1)%nat).
Proof. reflexivity. Qed.

#[global] Arguments match_char_loop : simpl never.

(** The matcher and the decoder agree on a character class: the matcher finds
    [c] in exactly the ranges the decoder reads, and stops where the class
    ends. *)
Lemma class_spec n len : forall es e0 rs, (length es <= len)%nat ->
  wf_elems n MChar es = true -> type_is LLAMA_GRETYPE_CHAR_ANY e0 = false ->
  exists k ranges,
    (forall c found k0, match_char_loop c (e0 :: es) k0 found
       = Ret (found || existsb (in_range c) ranges, (k0 + S k)%nat))
    /\ (forall neg, decode_seq (Some (mk_open neg rs (Some (el_value e0)))) es
         = cons (SChar neg (rs ++ ranges)) <$> decode_seq None (drop k es))
    /\ wf_elems n MBoundary (drop k es) = true.
Proof.
  induction len as [|len IH]; intros es e0 rs Hlen Hwf Hany.
  { destruct es; [done|simpl in Hlen; lia]. }
  destruct es as [|e1 es1]; [done|]. simpl in Hlen.
  assert (Hone : forall c v, in_range c (v, v) = (v =? c)).
  { intros c v. unfold in_range. simpl. lia. }
  destruct (type_is LLAMA_GRETYPE_CHAR_RNG_UPPER e1) eqn:Hrng;
    [|destruct (type_is LLAMA_GRETYPE_CHAR_ALT e1) eqn:Halt].
  - pose proof Hrng as Hrng'. apply type_is_spec in Hrng'.
    cbn [wf_elems] in Hwf. rewrite Hrng' in Hwf.
    destruct es1 as [|e2 es2]; [done|].
    destruct (type_is LLAMA_GRETYPE_CHAR_ALT e2) eqn:Halt.
    + pose proof Halt as Halt'. apply type_is_spec in Halt'.
      cbn [wf_elems] in Hwf. rewrite Halt' in Hwf.
      assert (Hany2 : type_is LLAMA_GRETYPE_CHAR_ANY e2 = false)
        by (unfold type_is; by rewrite Halt').
      destruct (IH es2 e2 (rs ++ [(el_value e0, el_value e1)]))
        as (k & ranges & Hm & Hd & Hw); [simpl in Hlen; lia|done|done|].
      exists (S (S k)), ((el_value e0, el_value e1) :: ranges).
      split_and!; [intros c found k0| |done].
      * rewrite match_char_loop_eq, Hrng, Halt, Hm. cbn [existsb].
        unfold in_range at 2. simpl. rewrite orb_assoc. do 2 f_equal; lia.
      * intros neg. rewrite (decode_rng _ _ _ e1 _ Hrng'), (decode_alt _ _ _ e2 _ Halt').
        rewrite app_nil_r, Hd. by rewrite <- app_assoc.
    + exists 1%nat, [(el_value e0, el_value e1)].
      assert (Hb : forall k, decode_seq (Some k) (e2 :: es2)
                     = cons (close_class k) <$> decode_seq None (e2 :: es2)
                   /\ wf_elems n MBoundary (e2 :: es2) = true).
      { intros k. apply (decode_flush n MRange); [done|]. split; [|done].
        cbn [wf_elems] in Hwf. type_case e2; done. }
      change (drop 1 (e1 :: e2 :: es2)) with (e2 :: es2).
      split_and!; [intros c found k0|intros neg|apply (Hb (mk_open false [] None))].
      * rewrite match_char_loop_eq, Hrng, Halt. cbn [existsb].
        unfold in_range. simpl. by rewrite orb_false_r.
      * rewrite (decode_rng _ _ _ e1 _ Hrng').
        rewrite (proj1 (Hb _)). unfold close_class. simpl. by rewrite app_nil_r.
  - pose proof Halt as Halt'. apply type_is_spec in Halt'.
    cbn [wf_elems] in Hwf. rewrite Halt' in Hwf.
    assert (Hany1 : type_is LLAMA_GRETYPE_CHAR_ANY e1 = false)
      by (unfold type_is; by rewrite Halt').
    destruct (IH es1 e1 (rs ++ [(el_value e0, el_value e0)]))
      as (k & ranges & Hm & Hd & Hw); [lia|done|done|].
    exists (S k), ((el_value e0, el_value e0) :: ranges).
    split_and!; [intros c found k0| |done].
    + rewrite match_char_loop_eq, Hrng, Halt, Hany, Hm. cbn [existsb].
      rewrite Hone, orb_assoc. do 2 f_equal; lia.
    + intros neg. rewrite (decode_alt _ _ _ e1 _ Halt'), Hd. by rewrite <- app_assoc.
  - exists 0%nat, [(el_value e0, el_value e0)].
    assert (Hb : forall k, decode_seq (Some k) (e1 :: es1)
                   = cons (close_class k) <$> decode_seq None (e1 :: es1)
                 /\ wf_elems n MBoundary (e1 :: es1) = true)
      by (intros k; by apply (decode_flush n MChar)).
    split_and!; [intros c found k0| |apply (Hb (mk_open false [] None))].
    + rewrite match_char_loop_eq, Hrng, Halt, Hany. cbn [existsb].
      by rewrite Hone, orb_false_r.
    + intros neg. rewrite (proj1 (Hb _)). done.
Qed.

(** Well-formed sequences decode. *)
Lemma wf_decodes n len : forall es, (length es <= len)%nat ->
  wf_elems n MBoundary es = true -> is_Some (decode_seq None es).
Proof.
  induction len as [|len IH]; intros es Hlen Hwf; [by destruct es; [|simpl in Hlen; lia]|].
  destruct es as [|e es]; [done|]. simpl in Hlen, Hwf |- *.
  type_case e; try done;
    try (apply andb_true_iff in Hwf as [_ Hwf]);
    try (destruct (IH es ltac:(lia) Hwf) as [ss ->]; by eauto).
  - destruct (class_spec n (length es) es e [] (Nat.le_refl _) Hwf) as (k & rg & _ & Hd & Hw);
      [unfold type_is; by rewrite T|].
    rewrite Hd. destruct (IH (drop k es)) as [ss ->]; [rewrite length_drop; lia|done|]. by eauto.
  - destruct (class_spec n (length es) es e [] (Nat.le_refl _) Hwf) as (k & rg & _ & Hd & Hw);
      [unfold type_is; by rewrite T|].
    rewrite Hd. destruct (IH (drop k es)) as [ss ->]; [rewrite length_drop; lia|done|]. by eauto.
Qed.

(** The head of a sequence: its first symbol, the elements it takes, and the
    matcher on it. *)
Lemma head_symbol n e es : wf_elems n MBoundary (e :: es) = true -> is_end_elem e = false ->
  exists s k, syms_of (e :: es) = s :: syms_of (drop k (e :: es)) /\ (0 < k)%nat
    /\ wf_elems n MBoundary (drop k (e :: es)) = true
    /\ match s with
       | SRef r => el_type e = LLAMA_GRETYPE_RULE_REF /\ r = Z.to_nat (el_value e) /\ k = 1%nat
                   /\ (r < n)%nat
       | STok _ _ => is_token_elem e = true /\ is_terminal e = true /\ k = 1%nat
       | SChar _ _ | SAny =>
           is_token_elem e = false /\ is_terminal e = true
           /\ is_positive_char e || type_is LLAMA_GRETYPE_CHAR_NOT e = true
           /\ forall c, exists b, match_char_loop c (e :: es) 0 false = Ret (b, k)
                /\ Bool.eqb b (is_positive_char e) = sym_matches s c
       end.
Proof.
  intros Hwf Hend. cbn [wf_elems] in Hwf. unfold syms_of. cbn [decode_seq].
  type_case e; try discriminate.
  - apply andb_true_iff in Hwf as [Hv Hwf]. apply andb_true_iff in Hv as [Hv Hn].
    apply Nat.ltb_lt in Hn.
    destruct (wf_decodes n (length es) es (Nat.le_refl _) Hwf) as [ss Hss].
    exists (SRef (Z.to_nat (el_value e))), 1%nat. cbn [drop]. rewrite drop_0, Hss. simpl.
    split_and!; auto.
  - destruct (class_spec n (length es) es e [] (Nat.le_refl _) Hwf) as (k & rg & Hm & Hd & Hw);
      [unfold type_is; by rewrite T|].
    exists (SChar false rg), (S k). cbn [drop]. rewrite Hd.
    destruct (wf_decodes n _ _ (Nat.le_refl _) Hw) as [ss Hss]. rewrite Hss. simpl.
    split_and!; auto; [lia|]. intros c. rewrite Hm. eexists. split; [done|].
    by destruct (existsb _ _).
  - destruct (class_spec n (length es) es e [] (Nat.le_refl _) Hwf) as (k & rg & Hm & Hd & Hw);
      [unfold type_is; by rewrite T|].
    exists (SChar true rg), (S k). cbn [drop]. rewrite Hd.
    destruct (wf_decodes n _ _ (Nat.le_refl _) Hw) as [ss Hss]. rewrite Hss. simpl.
    split_and!; auto; [lia|]. intros c. rewrite Hm. eexists. split; [done|].
    by destruct (existsb _ _).
  - destruct (wf_decodes n (length es) es (Nat.le_refl _) Hwf) as [ss Hss].
    exists SAny, 1%nat. cbn [drop]. rewrite drop_0, Hss. simpl. split_and!; auto.
    intros c. exists true. split; [|done].
    destruct es as [|e1 es]; [discriminate Hwf|].
    assert (Hany : type_is LLAMA_GRETYPE_CHAR_ANY e = true) by (by apply type_is_spec).
    rewrite match_char_loop_eq, Hany. cbn [wf_elems] in Hwf.
    type_case e1; try discriminate; done.
  - destruct (wf_decodes n (length es) es (Nat.le_refl _) Hwf) as [ss Hss].
    exists (STok false (el_value e)), 1%nat. cbn [drop]. rewrite drop_0, Hss. simpl.
    split_and!; auto.
  - destruct (wf_decodes n (length es) es (Nat.le_refl _) Hwf) as [ss Hss].
    exists (STok true (el_value e)), 1%nat. cbn [drop]. rewrite drop_0, Hss. simpl.
    split_and!; auto.
Qed.
