(* ===== verification/GrammarFacts.v ===== *)
(** * The stack machine implements the grammar.

    For well-formed rules, expanding a stack computes exactly its closure
    ([advance_spec]), a character steps every stack ([accept_spec]), and the
    set of stacks accepts exactly the language of [GrammarLang.derives].  The
    candidate filter is then shown to reject exactly the pieces that leave no
    stack. *)

From S2P Require Import Prelude Utf8 Grammar GrammarLang GrammarParser GrammarSampler.
From Stdlib Require Import Lia.
Import GrammarUtf8.

Section Correct.
Context (rules : llama_grammar_rules) (Hrules : wf_rules rules = true).

Local Notation n := (length rules).

Definition bound_ptr (p : gptr) : Prop :=
  exists es, elems_from rules p = Ret es /\ wf_elems n MBoundary es = true.

(** ** Rules and alternates *)

Lemma wf_rule r rule : rules !! r = Some rule -> wf_elems n MBoundary rule = true.
Proof.
  intros H. unfold wf_rules in Hrules. rewrite forallb_forall in Hrules.
  apply Hrules. apply list_elem_of_In. by eapply list_elem_of_lookup_2.
Qed.

Lemma alt_starts_wf m es off b o es' : wf_elems n m es = true ->
  (b = true -> m = MBoundary) -> (o, es') ∈ alt_starts off es b ->
  exists k, o = (off + k)%nat /\ es' = drop k es /\ wf_elems n MBoundary es' = true.
Proof.
  revert m off b. induction es as [|e es IH]; intros m off b Hwf Hb Hin; simpl in *;
    [by apply not_elem_of_nil in Hin|].
  apply elem_of_app in Hin as [Hin|Hin].
  - destruct b; [|by apply not_elem_of_nil in Hin].
    apply list_elem_of_singleton in Hin. injection Hin as -> ->.
    exists 0%nat. rewrite (Hb eq_refl) in Hwf. split_and!; [lia|done|done].
  - assert (Hrec : forall m' b', wf_elems n m' es = true -> (b' = true -> m' = MBoundary) ->
      (o, es') ∈ alt_starts (S off) es b' ->
      exists k, o = (off + k)%nat /\ es' = drop k (e :: es) /\ wf_elems n MBoundary es' = true).
    { intros m' b' Hw Hm' Hi. destruct (IH m' (S off) b' Hw Hm' Hi) as (k & -> & -> & Hw').
      exists (S k). split_and!; [lia|done|done]. }
    type_case e; try (by apply not_elem_of_nil in Hin);
      repeat match goal with H : _ && _ = true |- _ => apply andb_true_iff in H as [? H] end;
      try (by eapply Hrec; [eassumption| |eassumption]).
    + destruct m; try done; by eapply Hrec; [eassumption| |eassumption].
    + destruct m; try done; by eapply Hrec; [eassumption| |eassumption].
Qed.

(** The alternates of a rule are reached by pointers to boundaries. *)
Lemma alt_ptr r rule o es : rules !! r = Some rule -> (o, es) ∈ alt_starts 0 rule true ->
  elems_from rules (mk_gptr r o) = Ret es /\ wf_elems n MBoundary es = true.
Proof.
  intros Hr Hin. destruct (alt_starts_wf MBoundary _ _ _ _ _ (wf_rule _ _ Hr) ltac:(done) Hin)
    as (k & -> & -> & Hw).
  split; [|done]. unfold elems_from, at_. simpl. by rewrite Hr.
Qed.

(** The [do]-[while] loops over the alternates visit [alt_starts]. *)
Lemma alternates_loop_fold step es : forall m off b news, wf_elems n m es = true ->
  alternates_loop step off es b news =
  foldM (fun news '(o, es) => e ← at_ es 0; step o e news) news (alt_starts off es b).
Proof.
  induction es as [|e es IH]; intros m off b news Hwf; [done|]. simpl in Hwf.
  assert (Hnext : forall m' b', wf_elems n m' es = true ->
     (news ← (if b then step off e news else Ret news); alternates_loop step (S off) es b' news)
     = foldM (fun news '(o, es) => e ← at_ es 0; step o e news) news
         ((if b then [(off, e :: es)] else []) ++ alt_starts (S off) es b')).
  { intros m' b' Hw. destruct b; simpl.
    - destruct (step off e news); simpl; try done. by eapply IH.
    - by eapply IH. }
  cbn [alternates_loop alt_starts].
  type_case e; repeat match goal with H : _ && _ = true |- _ => apply andb_true_iff in H as [? H] end;
    try (by eapply Hnext).
  - destruct b; simpl; [|done]. by destruct (step off e news).
  - destruct m; try done; by eapply Hnext.
  - destruct m; try done; by eapply Hnext.
Qed.

(** ** Stacks *)

Lemma bound_add p e es k : elems_from rules p = Ret (e :: es) ->
  wf_elems n MBoundary (drop k (e :: es)) = true -> bound_ptr (ptr_add p k).
Proof. intros H Hw. exists (drop k (e :: es)). split; [by apply elems_from_add|done]. Qed.

Lemma valid_bound p : valid_ptr rules p -> bound_ptr p.
Proof. intros (e & es & H & _ & Hw). by exists (e :: es). Qed.

Lemma after_stack_syms p rest : bound_ptr p ->
  stack_syms rules (after_stack rules p rest) = syms_at rules p ++ stack_syms rules rest
  /\ (valid_stack rules rest -> valid_stack rules (after_stack rules p rest)).
Proof.
  intros (es & H & Hw). destruct es as [|e es]; [done|].
  rewrite (after_stack_elems _ _ _ _ _ H). unfold syms_at. destruct (is_end_elem e) eqn:E.
  - split; [|done]. rewrite H. unfold syms_of. cbn [decode_seq].
    type_case e; try discriminate; done.
  - split; [done|]. intros Hv. constructor; [|done]. by exists e, es.
Qed.

Lemma pop_to_after p rest : bound_ptr p -> pop_to rules rest p = Ret (after_stack rules p rest).
Proof.
  intros (es & H & Hw). destruct es as [|e es]; [done|].
  rewrite (after_stack_elems _ _ _ _ _ H).
  unfold pop_to, llama_grammar_is_end_of_sequence.
  rewrite (proj2 (deref_elems rules p e)) by eauto. simpl. by destruct (is_end_elem e).
Qed.

(** What stands on top of a valid stack: a rule reference, a token, or a
    character class with its matcher. *)
Lemma top_cases p : valid_ptr rules p ->
  exists e, deref rules p = Ret e /\
  ((exists r rule, el_type e = LLAMA_GRETYPE_RULE_REF /\ r = Z.to_nat (el_value e)
      /\ rules !! r = Some rule /\ bound_ptr (ptr_add p 1)
      /\ syms_at rules p = SRef r :: syms_at rules (ptr_add p 1))
   \/ (exists neg id, is_token_elem e = true /\ is_terminal e = true
      /\ bound_ptr (ptr_add p 1)
      /\ syms_at rules p = STok neg id :: syms_at rules (ptr_add p 1))
   \/ (exists s after, is_token_elem e = false /\ is_terminal e = true /\ bound_ptr after
      /\ syms_at rules p = s :: syms_at rules after
      /\ (forall c, llama_grammar_match_char rules p c = Ret (sym_matches s c, after))
      /\ (forall r, s <> SRef r) /\ (forall neg id, s <> STok neg id))).
Proof.
  intros (e & es & H & Hend & Hw). exists e.
  split; [apply deref_elems; eauto|].
  destruct (head_symbol n e es Hw Hend) as (s & k & Hs & Hk & Hwk & Hsym).
  assert (Hat : syms_at rules p = s :: syms_at rules (ptr_add p k)).
  { unfold syms_at. rewrite H, (elems_from_add _ _ _ _ H). done. }
  assert (Hb : bound_ptr (ptr_add p k)) by (by eapply bound_add).
  assert (Hchar : is_token_elem e = false /\ is_terminal e = true
           /\ is_positive_char e || type_is LLAMA_GRETYPE_CHAR_NOT e = true
           /\ (forall c, exists b, match_char_loop c (e :: es) 0 false = Ret (b, k)
                /\ Bool.eqb b (is_positive_char e) = sym_matches s c) ->
     is_token_elem e = false /\ is_terminal e = true
     /\ forall c, llama_grammar_match_char rules p c = Ret (sym_matches s c, ptr_add p k)).
  { intros (Ht & Hterm & Hpos & Hm). split_and!; [done|done|]. intros c.
    destruct (Hm c) as (b & Eb & <-). unfold llama_grammar_match_char.
    rewrite H. simpl. rewrite Hpos. simpl. by rewrite Eb. }
  destruct s as [neg rg| |r|neg id].
  - right; right. apply Hchar in Hsym as (?&?&?). exists (SChar neg rg), (ptr_add p k).
    by split_and!.
  - right; right. apply Hchar in Hsym as (?&?&?). exists SAny, (ptr_add p k). by split_and!.
  - left. destruct Hsym as (Ht & -> & -> & Hr).
    destruct (lookup_lt_is_Some_2 rules (Z.to_nat (el_value e)) Hr) as [rule Hrule].
    exists (Z.to_nat (el_value e)), rule. by split_and!.
  - right; left. destruct Hsym as (? & ? & ->). exists neg, id. by split_and!.
Qed.

(** ** Expansion computes the closure *)

Lemma add_stack_elem news st s : s ∈ add_stack news st <-> s ∈ news \/ s = st.
Proof.
  unfold add_stack. case_bool_decide; [naive_solver|].
  rewrite elem_of_app, list_elem_of_singleton. done.
Qed.

Lemma closes_inv_ref p rest e rule s : deref rules p = Ret e ->
  el_type e = LLAMA_GRETYPE_RULE_REF -> rules !! Z.to_nat (el_value e) = Some rule ->
  closes rules (p :: rest) s <->
  exists o es, (o, es) ∈ alt_starts 0 rule true /\
    closes rules (after_stack rules (mk_gptr (Z.to_nat (el_value e)) o)
                    (after_stack rules (ptr_add p 1) rest)) s.
Proof.
  intros Hd Ht Hr. split.
  - intros Hc. inversion Hc as [|? ? e' Hd' Hterm|? ? e' rule' o es ? Hd' Ht' Hr' Hin Hc'];
      subst; rewrite Hd in Hd'; injection Hd' as <-.
    + unfold is_terminal in Hterm. by rewrite Ht in Hterm.
    + rewrite Hr in Hr'. injection Hr' as <-. by exists o, es.
  - intros (o & es & Hin & Hc). by eapply closes_ref.
Qed.

Lemma foldM_elems {A B} (f : list B -> A -> outcome (list B)) (Q : A -> B -> Prop) l :
  (forall acc x acc', x ∈ l -> f acc x = Ret acc' -> forall y, y ∈ acc' <-> y ∈ acc \/ Q x y) ->
  forall acc acc', foldM f acc l = Ret acc' ->
  forall y, y ∈ acc' <-> y ∈ acc \/ exists x, x ∈ l /\ Q x y.
Proof.
  induction l as [|x l IH]; intros Hf acc acc' H y; simpl in H.
  - injection H as <-. split; [auto|]. intros [?|(x & Hx & _)]; [done|].
    by apply not_elem_of_nil in Hx.
  - inv_bind H. rewrite (IH (fun a z a' Hz => Hf a z a' (list_elem_of_further _ _ _ Hz)) _ _ H y).
    rewrite (Hf _ _ _ (list_elem_of_here _ _) E y). setoid_rewrite elem_of_cons.
    split; [|naive_solver]. intros [[?|?]|(z & ? & ?)]; eauto 6.
Qed.

Lemma advance_spec fuel : forall st news news', valid_stack rules st ->
  llama_grammar_advance_stack fuel rules st news = Ret news' ->
  forall s, s ∈ news' <-> s ∈ news \/ closes rules st s.
Proof.
  induction fuel as [|fuel IH]; intros st news news' Hv H s; [done|]. simpl in H.
  destruct st as [|p rest].
  { injection H as <-. rewrite add_stack_elem. split; (intros [?|?]; [by left|right]).
    - subst. constructor.
    - by inversion H. }
  apply Forall_cons in Hv as [Hp Hrest].
  destruct (top_cases p Hp) as (e & Hd & Hcase). rewrite Hd in H. simpl in H.
  destruct Hcase as [(r & rule & Ht & -> & Hr & Hb & _)|Hterm].
  - rewrite Ht in H. unfold at_ in H. rewrite Hr in H. simpl in H.
    rewrite (alternates_loop_fold _ _ MBoundary) in H by (by eapply wf_rule).
    rewrite (closes_inv_ref _ _ _ _ _ Hd Ht Hr).
    destruct Hb as (es1 & Hes1 & Hw1). destruct es1 as [|e1 es1]; [done|].
    pose (Q := fun (a : nat * llama_grammar_rule) s => closes rules
       (after_stack rules (mk_gptr (Z.to_nat (el_value e)) a.1)
          (after_stack rules (ptr_add p 1) rest)) s).
    assert (Hiff : s ∈ news' <-> s ∈ news \/ exists a, a ∈ alt_starts 0 rule true /\ Q a s).
    { eapply (foldM_elems _ Q); [|exact H]. clear H.
      intros acc [o es] acc' Hin H y. destruct (alt_ptr _ _ _ _ Hr Hin) as [Hes Hwes].
      destruct es as [|e2 es]; [done|]. simpl in H.
      unfold llama_grammar_is_end_of_sequence in H.
      rewrite (proj2 (deref_elems rules (ptr_add p 1) e1)) in H by eauto. simpl in H.
      unfold Q. simpl.
      rewrite (after_stack_elems _ _ _ _ _ Hes1), (after_stack_elems _ _ _ _ _ Hes).
      apply (IH _ _ _) with (s := y) in H; [done|].
      assert (Hv1 : valid_stack rules (if is_end_elem e1 then rest else ptr_add p 1 :: rest)).
      { destruct (is_end_elem e1) eqn:E1; [done|]. constructor; [|done]. by exists e1, es1. }
      destruct (is_end_elem e2) eqn:E2; [done|]. constructor; [|done]. by exists e2, es. }
    rewrite Hiff. unfold Q. split; (intros [?|H']; [by left|right]).
    + destruct H' as ([o es] & ? & ?). eauto.
    + destruct H' as (o & es & ? & ?). by exists (o, es).
  - assert (is_terminal e = true) as Hterm'
      by (destruct Hterm as [(?&?&?&?&_)|(?&?&?&?&_)]; done).
    assert (news' = add_stack news (p :: rest)) as ->.
    { unfold is_terminal in Hterm'. destruct (el_type e); try done; by injection H. }
    rewrite add_stack_elem. split; (intros [?|Hs]; [by left|right]).
    + subst. by eapply closes_terminal.
    + inversion Hs as [|? ? e' Hd' _|? ? e' rule' o es ? Hd' Ht' Hr' Hin Hc']; subst; [done|].
      rewrite Hd in Hd'. injection Hd' as <-. unfold is_terminal in Hterm'.
      by rewrite Ht' in Hterm'.
Qed.

Lemma closes_valid st s : closes rules st s -> valid_stack rules st ->
  valid_stack rules s /\ ready rules s.
Proof.
  induction 1 as [|p rest e Hd Ht|p rest e rule o es s Hd Ht Hr Hin Hc IH]; intros Hv.
  - done.
  - split; [done|]. by exists e.
  - apply IH. apply Forall_cons in Hv as [Hp Hrest].
    destruct (alt_ptr _ _ _ _ Hr Hin) as [Hes Hwes].
    destruct (top_cases p Hp) as (e' & Hd' & Hcase). rewrite Hd in Hd'. injection Hd' as <-.
    apply after_stack_syms; [by exists es|].
    apply after_stack_syms; [|done].
    destruct Hcase as [(?&?&_&_&_&?&_)|[(?&?&?&_)|(?&?&?&?&_)]]; [done|..];
      unfold is_token_elem, type_is, is_terminal in *; rewrite Ht in *; done.
Qed.

(** ** Closures and derivations *)

Lemma closes_derives st w : valid_stack rules st ->
  derives rules (stack_syms rules st) w <->
  exists s, closes rules st s /\ derives rules (stack_syms rules s) w.
Proof.
  intros Hv. split.
  - remember (stack_syms rules st) as ss eqn:Hss. intros Hd. revert st Hv Hss.
    induction Hd as [|s c ss w Hm Hd IH|r alt ss w Halt Hd IH]; intros st Hv Hss.
    + destruct st as [|p rest]; [exists []; split; constructor|].
      apply Forall_cons in Hv as [Hp _]. destruct (top_cases p Hp) as (e & _ & Hcase).
      unfold stack_syms in Hss. simpl in Hss.
      by destruct Hcase as [(?&?&_&_&_&_&E)|[(?&?&_&_&_&E)|(?&?&_&_&_&E&_)]];
        rewrite E in Hss.
    + destruct st as [|p rest]; [done|]. exists (p :: rest).
      apply Forall_cons in Hv as [Hp _]. destruct (top_cases p Hp) as (e & Hde & Hcase).
      rewrite <- Hss. split; [|by constructor]. unfold stack_syms in Hss. simpl in Hss.
      destruct Hcase as [(?&?&_&_&_&_&E)|[(?&?&_&?&_&E)|(?&?&_&?&_&E&_)]];
        rewrite E in Hss; injection Hss as -> ->; [done|by eapply closes_terminal..].
    + destruct st as [|p rest]; [done|]. pose proof Hv as Hv'.
      apply Forall_cons in Hv as [Hp Hrest]. destruct (top_cases p Hp) as (e & Hde & Hcase).
      unfold stack_syms in Hss. simpl in Hss.
      destruct Hcase as [(r'&rule&Ht&->&Hr&Hb&E)|[(?&?&_&?&_&E)|(?&?&_&?&_&E&_&Hs&_)]];
        rewrite E in Hss; injection Hss as Hs1 Hs2; [|done|by subst; destruct (Hs r)].
      subst r. unfold alternatives in Halt. rewrite Hr in Halt.
      apply list_elem_of_fmap in Halt as ([o es] & -> & Hin).
      destruct (alt_ptr _ _ _ _ Hr Hin) as [Hes Hwes].
      destruct (after_stack_syms (ptr_add p 1) rest Hb) as [Esyms1 Ev1].
      destruct (after_stack_syms (mk_gptr (Z.to_nat (el_value e)) o)
                  (after_stack rules (ptr_add p 1) rest)) as [Esyms2 Ev2]; [by exists es|].
      destruct (IH (after_stack rules (mk_gptr (Z.to_nat (el_value e)) o)
                  (after_stack rules (ptr_add p 1) rest))) as (s & Hc & Hds).
      { auto. }
      { rewrite Esyms2, Esyms1. unfold syms_at at 1. rewrite Hes. simpl. by rewrite Hs2. }
      exists s. split; [|done]. by eapply closes_ref.
  - intros (s & Hc & Hd). revert Hv Hd.
    induction Hc as [|p rest e Hde Ht|p rest e rule o es s Hde Ht Hr Hin Hc IH]; intros Hv Hd;
      [done..|].
    apply Forall_cons in Hv as [Hp Hrest].
    destruct (alt_ptr _ _ _ _ Hr Hin) as [Hes Hwes].
    destruct (top_cases p Hp) as (e' & Hd' & Hcase). rewrite Hde in Hd'. injection Hd' as <-.
    destruct Hcase as [(r'&rule'&_&->&Hr'&Hb&E)|[(?&?&?&_)|(?&?&?&?&_)]];
      [|unfold is_token_elem, type_is, is_terminal in *; rewrite Ht in *; done..].
    destruct (after_stack_syms (ptr_add p 1) rest Hb) as [Esyms1 Ev1].
    destruct (after_stack_syms (mk_gptr (Z.to_nat (el_value e)) o)
                (after_stack rules (ptr_add p 1) rest)) as [Esyms2 Ev2]; [by exists es|].
    unfold stack_syms at 1. simpl. rewrite E. simpl.
    apply derives_ref with (alt := syms_of es).
    { unfold alternatives. rewrite Hr. apply list_elem_of_fmap. by exists (o, es). }
    assert (Hsyms : derives rules (stack_syms rules (after_stack rules
              (mk_gptr (Z.to_nat (el_value e)) o)
              (after_stack rules (ptr_add p 1) rest))) w) by auto.
    rewrite Esyms2, Esyms1 in Hsyms. unfold syms_at at 1 in Hsyms. by rewrite Hes in Hsyms.
Qed.

(** ** Characters step the stacks *)

Lemma match_char_ref p c e : deref rules p = Ret e -> el_type e = LLAMA_GRETYPE_RULE_REF ->
  llama_grammar_match_char rules p c = Fatal "match_char".
Proof.
  intros Hd Ht. apply deref_elems in Hd as [es Hes].
  unfold llama_grammar_match_char. rewrite Hes. simpl.
  unfold is_positive_char, type_is. by rewrite Ht.
Qed.

Lemma accept_chr_spec fuel st c news news' : valid_stack rules st ->
  llama_grammar_accept_chr fuel rules st c news = Ret news' ->
  forall s, s ∈ news' <-> s ∈ news \/ steps rules st c s.
Proof.
  intros Hv H s. destruct st as [|p rest]; simpl in H.
  { injection H as <-. split; [auto|]. intros [?|(p & r & e & a & ? & _)]; done. }
  apply Forall_cons in Hv as [Hp Hrest].
  destruct (top_cases p Hp) as (e & Hd & Hcase). rewrite Hd in H. simpl in H.
  assert (Hnostep : (forall after, llama_grammar_match_char rules p c <> Ret (true, after))
            \/ is_token_elem e = true -> (s ∈ news <-> s ∈ news \/ steps rules (p :: rest) c s)).
  { intros Hno. split; [auto|]. intros [?|(p' & r' & e' & a' & E & Hd' & Ht' & Hm' & _)]; [done|].
    injection E as <- <-. rewrite Hd in Hd'. injection Hd' as <-.
    destruct Hno as [Hno|Hno]; [by apply Hno in Hm'|by rewrite Ht' in Hno]. }
  destruct Hcase as [(r&rule&Ht&_)|[(neg&id&Ht&_)|(sy&after&Ht&_&Hb&_&Hm&_)]].
  - unfold is_token_elem, type_is in H. rewrite Ht in H. simpl in H.
    by rewrite (match_char_ref _ _ _ Hd Ht) in H.
  - rewrite Ht in H. injection H as <-. auto.
  - rewrite Ht, Hm in H. simpl in H. destruct (sym_matches sy c) eqn:Em.
    + rewrite pop_to_after in H by done. simpl in H.
      rewrite (advance_spec _ _ _ _ (proj2 (after_stack_syms _ _ Hb) Hrest) H).
      apply or_iff_compat_l. split.
      * intros Hc. exists p, rest, e, after. by rewrite Hm, Em.
      * intros (p' & r' & e' & a' & E & Hd' & Ht' & Hm' & Hc).
        injection E as <- <-. rewrite Hm, Em in Hm'. by injection Hm' as <-.
    + injection H as <-. apply Hnostep. left. intros a. rewrite Hm, Em. congruence.
Qed.

Definition valid_stacks (sts : llama_grammar_stacks) : Prop :=
  forall s, s ∈ sts -> valid_stack rules s /\ ready rules s.

Lemma accept_stacks_spec fuel sts c sts' : valid_stacks sts ->
  accept_stacks fuel rules sts c = Ret sts' ->
  forall s, s ∈ sts' <-> exists st, st ∈ sts /\ steps rules st c s.
Proof.
  intros Hv H s. unfold accept_stacks in H.
  assert (Hiff : s ∈ sts' <-> s ∈ [] \/ exists st, st ∈ sts /\ steps rules st c s).
  { eapply (foldM_elems _ (fun st s => steps rules st c s)); [|exact H].
    intros acc st acc' Hin Ha. eapply accept_chr_spec; [by apply Hv|exact Ha]. }
  rewrite Hiff. split; [|auto]. intros [?|?]; [by apply not_elem_of_nil in H0|done].
Qed.

Lemma steps_valid st c s : valid_stack rules st -> steps rules st c s ->
  valid_stack rules s /\ ready rules s.
Proof.
  intros Hv (p & rest & e & after & -> & Hd & Ht & Hm & Hc).
  apply Forall_cons in Hv as [Hp Hrest].
  destruct (top_cases p Hp) as (e' & Hd' & Hcase). rewrite Hd in Hd'. injection Hd' as <-.
  destruct Hcase as [(r&rule&Ht'&_)|[(neg&id&Ht'&_)|(sy&a&_&_&Hb&_&Hm'&_)]].
  - by rewrite (match_char_ref _ _ _ Hd Ht') in Hm.
  - congruence.
  - rewrite Hm' in Hm. injection Hm as _ ->.
    apply (closes_valid _ _ Hc). by apply after_stack_syms.
Qed.

(** The derivative: a character steps a stack to the stacks that accept what
    may follow it. *)
Lemma steps_derives st c w : valid_stack rules st -> ready rules st ->
  derives rules (stack_syms rules st) (c :: w) <->
  exists s, steps rules st c s /\ derives rules (stack_syms rules s) w.
Proof.
  intros Hv Hready. destruct st as [|p rest].
  { split; [intros H; inversion H|]. by intros (s & (?&?&?&?&?&_) & _). }
  apply Forall_cons in Hv as [Hp Hrest].
  destruct (top_cases p Hp) as (e & Hd & Hcase).
  destruct Hready as (e' & Hd' & Hterm). rewrite Hd in Hd'. injection Hd' as <-.
  unfold stack_syms at 1. simpl. fold (stack_syms rules rest).
  destruct Hcase as [(r&rule&Ht&_)|[(neg&id&Ht&_&_&E)|(sy&after&Ht&_&Hb&E&Hm&Hns&Hnt)]];
    [unfold is_terminal in Hterm; by rewrite Ht in Hterm|rewrite E; simpl..].
  - split; [intros H; by inversion H|].
    intros (s & (p'&r'&e'&a'&E'&Hd'&Ht'&_) & _). injection E' as <- <-. congruence.
  - destruct (after_stack_syms after rest Hb) as [Es Ev].
    split.
    + intros H. inversion H as [|? ? ? ? Hmatch Hder|? ? ? ? Halt]; subst;
        [|by destruct (Hns r)].
      rewrite <- Es in Hder. apply closes_derives in Hder as (s & Hc & Hs); [|auto].
      exists s. split; [|done]. exists p, rest, e, after. by rewrite Hm, Hmatch.
    + intros (s & (p'&r'&e'&a'&E'&Hd'&Ht'&Hm'&Hc) & Hs). injection E' as <- <-.
      rewrite Hm in Hm'. injection Hm' as Hmatch <-. constructor; [done|].
      rewrite <- Es. apply closes_derives; [auto|]. by exists s.
Qed.

(** A resting stack accepts the empty text only when it is empty. *)
Lemma ready_derives_nil st : valid_stack rules st -> ready rules st ->
  derives rules (stack_syms rules st) [] <-> st = [].
Proof.
  intros Hv Hready. split; [|intros ->; constructor].
  destruct st as [|p rest]; [done|]. intros H. exfalso.
  apply Forall_cons in Hv as [Hp _]. destruct (top_cases p Hp) as (e & Hd & Hcase).
  destruct Hready as (e' & Hd' & Hterm). rewrite Hd in Hd'. injection Hd' as <-.
  unfold stack_syms in H. simpl in H.
  destruct Hcase as [(r&rule&Ht&_)|[(neg&id&_&_&_&E)|(sy&after&_&_&_&E&_&Hns&_)]].
  - unfold is_terminal in Hterm. by rewrite Ht in Hterm.
  - rewrite E in H. by inversion H.
  - rewrite E in H. inversion H; subst. by destruct (Hns r).
Qed.

(** ** Runs over a text *)

Lemma runs_valid st w s : runs rules st w s -> valid_stack rules st -> ready rules st ->
  valid_stack rules s /\ ready rules s.
Proof.
  induction 1 as [|st c st' w s Hs _ IH]; intros Hv Hr; [done|].
  apply steps_valid in Hs as [? ?]; [|done]. auto.
Qed.

Lemma runs_derives st w : valid_stack rules st -> ready rules st ->
  runs rules st w [] <-> derives rules (stack_syms rules st) w.
Proof.
  revert st. induction w as [|c w IH]; intros st Hv Hr.
  - rewrite ready_derives_nil by done. split; [intros H; by inversion H|intros ->; constructor].
  - rewrite steps_derives by done. split.
    + intros H. inversion H as [|? ? st' ? ? Hs Hrun]; subst.
      destruct (steps_valid _ _ _ Hv Hs). exists st'. split; [done|]. by apply IH.
    + intros (st' & Hs & Hd). destruct (steps_valid _ _ _ Hv Hs).
      econstructor; [done|]. by apply IH.
Qed.

(** The set of stacks after a text is the set of runs. *)
Lemma accept_text_spec fuel w : forall sts sts', valid_stacks sts ->
  foldM (accept_stacks fuel rules) sts w = Ret sts' ->
  forall s, s ∈ sts' <-> exists st, st ∈ sts /\ runs rules st w s.
Proof.
  induction w as [|c w IH]; intros sts sts' Hv H s; simpl in H.
  - injection H as <-. split; [intros; eexists; split; [done|constructor]|].
    intros (st & Hst & Hr). by inversion Hr; subst.
  - inv_bind H. pose proof (accept_stacks_spec _ _ _ _ Hv E) as Hx.
    assert (Hvx : valid_stacks x).
    { intros t Ht. apply Hx in Ht as (st & Hst & Hs). eapply steps_valid; [|done]. by apply Hv. }
    rewrite (IH _ _ Hvx H s). split.
    + intros (t & Ht & Hr). apply Hx in Ht as (st & Hst & Hs).
      exists st. split; [done|]. by econstructor.
    + intros (st & Hst & Hr). inversion Hr as [|? ? t ? ? Hs Hrt]; subst.
      exists t. split; [|done]. apply Hx. by exists st.
Qed.

(** ** Fuel: expansion terminates on grammars without left recursion *)

(** The expansion of a stack is finite. *)
Inductive settles : llama_grammar_stack -> Prop :=
  | settles_nil : settles []
  | settles_terminal p rest e :
      deref rules p = Ret e -> is_terminal e = true -> settles (p :: rest)
  | settles_ref p rest e rule :
      deref rules p = Ret e -> el_type e = LLAMA_GRETYPE_RULE_REF ->
      rules !! Z.to_nat (el_value e) = Some rule ->
      (forall o es, (o, es) ∈ alt_starts 0 rule true ->
         settles (after_stack rules (mk_gptr (Z.to_nat (el_value e)) o)
                    (after_stack rules (ptr_add p 1) rest))) ->
      settles (p :: rest).

(** Rule [r] calls rule [r'] leftmost: after symbols that may all be empty. *)
Definition leftcall (r r' : nat) : Prop :=
  exists pre post, (pre ++ SRef r' :: post) ∈ alternatives rules r /\ derives rules pre [].

(** No rule reaches itself by leftmost calls. *)
Definition no_left_recursion : Prop := forall r, Acc (fun r' r => leftcall r r') r.

Lemma derives_app ss1 ss2 w1 w2 : derives rules ss1 w1 -> derives rules ss2 w2 ->
  derives rules (ss1 ++ ss2) (w1 ++ w2).
Proof.
  intros H1 H2. induction H1 as [|s c ss w Hm _ IH|r alt ss w Halt _ IH]; simpl; [done|..].
  - by constructor.
  - eapply derives_ref; [done|]. by rewrite app_assoc.
Qed.

(** The tail of an alternate behind an empty prefix, over a stack [K] that
    settles if the rule may be empty. *)
Lemma settles_tail r K : valid_stack rules K ->
  (derives rules [SRef r] [] -> settles K) ->
  (forall r', leftcall r r' -> forall p rest, valid_stack rules (p :: rest) ->
     (exists e, deref rules p = Ret e /\ el_type e = LLAMA_GRETYPE_RULE_REF
                /\ Z.to_nat (el_value e) = r') ->
     (derives rules [SRef r'] [] -> settles (after_stack rules (ptr_add p 1) rest)) ->
     settles (p :: rest)) ->
  forall len q es pre, (length es <= len)%nat -> elems_from rules q = Ret es ->
  wf_elems n MBoundary es = true ->
  (pre ++ syms_of es) ∈ alternatives rules r -> derives rules pre [] ->
  settles (after_stack rules q K).
Proof.
  intros HvK HK Hcall. induction len as [|len IH]; intros q es pre Hlen Hes Hw Halt Hpre.
  { by destruct es; [|simpl in Hlen; lia]. }
  destruct es as [|e es]; [done|]. rewrite (after_stack_elems _ _ _ _ _ Hes).
  destruct (is_end_elem e) eqn:Hend.
  { apply HK. apply derives_ref with (alt := pre); [|by rewrite app_nil_r].
    unfold syms_of in Halt. cbn [decode_seq] in Halt.
    type_case e; try discriminate; by rewrite app_nil_r in Halt. }
  assert (Hq : valid_ptr rules q) by (by exists e, es).
  destruct (top_cases q Hq) as (e' & Hd & Hcase).
  assert (e' = e) as -> by (apply deref_elems in Hd as [? Hd]; congruence).
  destruct Hcase as [(r' & rule & Ht & -> & Hr & Hb & Esy)|[(?&?&_&Hterm&_)|(?&?&_&Hterm&_)]];
    [|by eapply settles_terminal..].
  assert (Esyms : syms_of (e :: es)
            = SRef (Z.to_nat (el_value e)) :: syms_at rules (ptr_add q 1)).
  { rewrite <- Esy. unfold syms_at. by rewrite Hes. }
  pose proof (elems_from_add _ _ _ _ Hes 1) as Hes1. cbn [drop] in Hes1. rewrite drop_0 in Hes1.
  apply (Hcall (Z.to_nat (el_value e))).
  - exists pre, (syms_at rules (ptr_add q 1)). by rewrite <- Esyms.
  - by constructor.
  - eauto.
  - intros Hnull. apply (IH (ptr_add q 1) es (pre ++ [SRef (Z.to_nat (el_value e))])).
    + simpl in Hlen. lia.
    + done.
    + destruct Hb as (es' & Hes' & Hw'). congruence.
    + rewrite <- app_assoc. simpl. rewrite Esyms in Halt. unfold syms_at in Halt.
      by rewrite Hes1 in Halt.
    + change (@nil Z) with (@nil Z ++ @nil Z). by apply derives_app.
Qed.

Lemma settles_call r : Acc (fun r' r => leftcall r r') r ->
  forall p rest, valid_stack rules (p :: rest) ->
  (exists e, deref rules p = Ret e /\ el_type e = LLAMA_GRETYPE_RULE_REF
             /\ Z.to_nat (el_value e) = r) ->
  (derives rules [SRef r] [] -> settles (after_stack rules (ptr_add p 1) rest)) ->
  settles (p :: rest).
Proof.
  induction 1 as [r _ IH]. intros p rest Hv (e & Hd & Ht & Er) Hnull.
  apply Forall_cons in Hv as [Hp Hrest].
  destruct (top_cases p Hp) as (e' & Hd' & Hcase). rewrite Hd in Hd'. injection Hd' as <-.
  destruct Hcase as [(r' & rule & _ & -> & Hr & Hb & _)|[(?&?&?&_)|(?&?&?&?&_)]];
    [|unfold is_token_elem, type_is, is_terminal in *; rewrite Ht in *; done..].
  eapply settles_ref; [done..|]. intros o es Hin.
  destruct (alt_ptr _ _ _ _ Hr Hin) as [Hes Hwes].
  eapply (settles_tail r _) with (pre := []); [| |exact IH|done|exact Hes|done| |constructor].
  - by apply after_stack_syms.
  - done.
  - unfold alternatives. subst r. rewrite Hr. apply list_elem_of_fmap. by exists (o, es).
Qed.

Lemma settles_all : no_left_recursion -> forall st, valid_stack rules st -> settles st.
Proof.
  intros Hnl.
  assert (Hpush : forall rest, valid_stack rules rest -> settles rest ->
    forall len p es, (length es <= len)%nat -> elems_from rules p = Ret es ->
      wf_elems n MBoundary es = true -> settles (after_stack rules p rest)).
  { intros rest Hv Hs. induction len as [|len IH]; intros p es Hlen Hes Hw.
    { by destruct es; [|simpl in Hlen; lia]. }
    destruct es as [|e es]; [done|]. rewrite (after_stack_elems _ _ _ _ _ Hes).
    destruct (is_end_elem e) eqn:Hend; [done|].
    assert (Hp : valid_ptr rules p) by (by exists e, es).
    destruct (top_cases p Hp) as (e' & Hd & Hcase).
    assert (e' = e) as -> by (apply deref_elems in Hd as [? Hd]; congruence).
    destruct Hcase as [(r & rule & Ht & -> & Hr & Hb & _)|[(?&?&_&Hterm&_)|(?&?&_&Hterm&_)]];
      [|by eapply settles_terminal..].
    eapply settles_call; [apply Hnl|by constructor|by eauto|]. intros _.
    destruct Hb as (es' & Hes' & Hw').
    pose proof (elems_from_add _ _ _ _ Hes 1) as Hes1. cbn [drop] in Hes1.
    rewrite drop_0 in Hes1. rewrite Hes' in Hes1. injection Hes1 as ->.
    apply (IH _ es); [simpl in Hlen; lia|done|done]. }
  induction st as [|p rest IH]; intros Hv; [constructor|].
  apply Forall_cons in Hv as [(e & es & Hes & Hend & Hw) Hrest].
  specialize (Hpush rest Hrest (IH Hrest) _ p (e :: es) (Nat.le_refl _) Hes Hw).
  by rewrite (after_stack_elems _ _ _ _ _ Hes), Hend in Hpush.
Qed.

End Correct.

(** * Whole runs of the grammar machine.

    Builds on [GrammarFacts.v]: the initial stacks, the stacks after a text,
    monotonicity in the fuel, and the fuel that is enough for grammars without
    left recursion. *)

Import GrammarUtf8.

Section Run.
Context (rules : llama_grammar_rules) (Hrules : wf_rules rules = true).

Local Notation n := (length rules).

(** ** Initial stacks *)

Lemma initial_stacks_spec fuel start st0 : initial_stacks fuel rules start = Ret st0 ->
  exists rule, rules !! start = Some rule /\
  forall s, s ∈ st0 <-> exists o es, (o, es) ∈ alt_starts 0 rule true /\
    closes rules (after_stack rules (mk_gptr start o) []) s.
Proof.
  unfold initial_stacks. intros H. apply bind_Ret in H as (rule & Hr & H).
  apply at_Ret in Hr. exists rule. split; [done|]. intros s.
  rewrite (alternates_loop_fold rules _ _ MBoundary) in H by (by eapply wf_rule).
  pose (Q := fun (a : nat * llama_grammar_rule) s =>
    closes rules (after_stack rules (mk_gptr start a.1) []) s).
  assert (Hiff : s ∈ st0 <-> s ∈ [] \/ exists a, a ∈ alt_starts 0 rule true /\ Q a s).
  { eapply (foldM_elems _ Q); [|exact H]. clear H.
    intros acc [o es] acc' Hin H y.
    destruct (alt_ptr _ Hrules _ _ _ _ Hr Hin) as [Hes Hwes].
    destruct es as [|e es]; [done|]. simpl in H. unfold Q. simpl.
    rewrite (after_stack_elems _ _ _ _ _ Hes).
    eapply (advance_spec rules Hrules _ _ _ _); [|exact H].
    destruct (is_end_elem e) eqn:E; constructor; [|constructor]. by exists e, es. }
  rewrite Hiff. unfold Q. split.
  - intros [?|([o es] & ? & ?)]; [by apply not_elem_of_nil in H0|]. by exists o, es.
  - intros (o & es & ? & ?). right. by exists (o, es).
Qed.

Lemma initial_valid fuel start st0 : initial_stacks fuel rules start = Ret st0 ->
  valid_stacks rules st0.
Proof.
  intros H s Hs. apply initial_stacks_spec in H as (rule & Hr & Hiff).
  apply Hiff in Hs as (o & es & Hin & Hc).
  destruct (alt_ptr _ Hrules _ _ _ _ Hr Hin) as [Hes Hwes].
  apply (closes_valid _ Hrules _ _ Hc). apply after_stack_syms; [|constructor]. by exists es.
Qed.

(** Deriving from the start symbol is running from an initial stack. *)
Lemma initial_derives fuel start st0 w : initial_stacks fuel rules start = Ret st0 ->
  derives rules [SRef start] w <->
  exists s, s ∈ st0 /\ derives rules (stack_syms rules s) w.
Proof.
  intros H. apply initial_stacks_spec in H as (rule & Hr & Hiff). split.
  - intros Hd. inversion Hd as [|? ? ? ? Hm|? alt ? ? Halt Hd']; subst; [done|].
    unfold alternatives in Halt. rewrite Hr in Halt.
    apply list_elem_of_fmap in Halt as ([o es] & -> & Hin).
    destruct (alt_ptr _ Hrules _ _ _ _ Hr Hin) as [Hes Hwes].
    destruct (after_stack_syms rules (mk_gptr start o) []) as [Esy Hv]; [by exists es|].
    assert (Hds : derives rules (stack_syms rules (after_stack rules (mk_gptr start o) [])) w).
    { rewrite Esy. unfold syms_at. rewrite Hes. done. }
    apply (closes_derives _ Hrules) in Hds as (s & Hc & Hds); [|apply Hv; constructor].
    exists s. split; [|done]. apply Hiff. by exists o, es.
  - intros (s & Hs & Hd). apply Hiff in Hs as (o & es & Hin & Hc).
    destruct (alt_ptr _ Hrules _ _ _ _ Hr Hin) as [Hes Hwes].
    destruct (after_stack_syms rules (mk_gptr start o) []) as [Esy Hv]; [by exists es|].
    apply derives_ref with (alt := syms_of es).
    + unfold alternatives. rewrite Hr. apply list_elem_of_fmap. by exists (o, es).
    + assert (Hds : derives rules (stack_syms rules (after_stack rules (mk_gptr start o) [])) w).
      { apply (closes_derives _ Hrules); [apply Hv; constructor|]. by exists s. }
      rewrite Esy in Hds. unfold syms_at in Hds. by rewrite Hes in Hds.
Qed.

(** ** More fuel changes nothing *)

Lemma alternates_loop_mono (step1 step2 : nat -> llama_grammar_element ->
      llama_grammar_stacks -> outcome llama_grammar_stacks) es :
  (forall o e news r, step1 o e news = Ret r -> step2 o e news = Ret r) ->
  forall off b news r, alternates_loop step1 off es b news = Ret r ->
  alternates_loop step2 off es b news = Ret r.
Proof.
  intros Hs. induction es as [|e es IH]; intros off b news r H; [done|]. simpl in *.
  apply bind_Ret in H as (news1 & H1 & H).
  assert ((if b then step2 off e news else Ret news) = Ret news1) as ->.
  { destruct b; [by apply Hs|done]. }
  simpl. destruct (el_type e); auto.
Qed.

Lemma advance_mono f : forall f' st news r, (f <= f')%nat ->
  llama_grammar_advance_stack f rules st news = Ret r ->
  llama_grammar_advance_stack f' rules st news = Ret r.
Proof.
  induction f as [|f IH]; intros f' st news r Hle H; [done|].
  destruct f' as [|f']; [lia|]. simpl in *. destruct st as [|p rest]; [done|].
  apply bind_Ret in H as (e & -> & H). simpl.
  destruct (el_type e); try done.
  apply bind_Ret in H as (rule & -> & H). simpl.
  eapply alternates_loop_mono; [|exact H]. simpl.
  intros o e' news' r' Hr. apply bind_Ret in Hr as (b & -> & Hr). simpl.
  apply IH; [lia|done].
Qed.

Lemma initial_stacks_mono f f' start r : (f <= f')%nat ->
  initial_stacks f rules start = Ret r -> initial_stacks f' rules start = Ret r.
Proof.
  intros Hle H. unfold initial_stacks in *. apply bind_Ret in H as (rule & -> & H). simpl.
  eapply alternates_loop_mono; [|exact H]. intros o e news r' Hr. by eapply advance_mono.
Qed.

Lemma accept_chr_mono f f' st c news r : (f <= f')%nat ->
  llama_grammar_accept_chr f rules st c news = Ret r ->
  llama_grammar_accept_chr f' rules st c news = Ret r.
Proof.
  intros Hle H. destruct st as [|p rest]; [done|]. simpl in *.
  apply bind_Ret in H as (e & -> & H). simpl. destruct (is_token_elem e); [done|].
  apply bind_Ret in H as ([m after] & -> & H). simpl in *. destruct m; [|done].
  apply bind_Ret in H as (st & -> & H). simpl. by eapply advance_mono.
Qed.

Lemma accept_stacks_mono f f' sts c r : (f <= f')%nat ->
  accept_stacks f rules sts c = Ret r -> accept_stacks f' rules sts c = Ret r.
Proof. intros Hle. apply foldM_mono. intros b x r'. by apply accept_chr_mono. Qed.

Lemma accept_text_mono f f' w sts r : (f <= f')%nat ->
  foldM (accept_stacks f rules) sts w = Ret r -> foldM (accept_stacks f' rules) sts w = Ret r.
Proof. intros Hle. apply foldM_mono. intros b x r'. by apply accept_stacks_mono. Qed.

(** ** Enough fuel *)

Lemma foldM_total_fuel {A B} (f : nat -> B -> A -> outcome B) l :
  (forall k k' b x r, (k <= k')%nat -> f k b x = Ret r -> f k' b x = Ret r) ->
  (forall x, x ∈ l -> exists k, forall b, exists r, f k b x = Ret r) ->
  exists k, forall b, exists r, foldM (f k) b l = Ret r.
Proof.
  intros Hmono. induction l as [|x l IH]; intros Hx.
  { exists 0%nat. intros b. by exists b. }
  destruct (Hx x) as [k1 H1]; [left|].
  destruct IH as [k2 H2]; [intros y Hy; apply Hx; by right|].
  exists (max k1 k2). intros b. destruct (H1 b) as [r1 Hr1]. simpl.
  rewrite (Hmono k1 (max k1 k2) _ _ _ ltac:(lia) Hr1). simpl.
  destruct (H2 r1) as [r2 Hr2]. exists r2. eapply foldM_mono; [|exact Hr2].
  intros ? ? ?. apply Hmono. lia.
Qed.

Lemma settles_fuel st : settles rules st -> valid_stack rules st ->
  exists k, forall news, exists r, llama_grammar_advance_stack k rules st news = Ret r.
Proof.
  induction 1 as [|p rest e Hd Ht|p rest e rule Hd Ht Hr _ IH]; intros Hv.
  - exists 1%nat. intros news. by eexists.
  - exists 1%nat. intros news. simpl. rewrite Hd. simpl. unfold is_terminal in Ht.
    destruct (el_type e); try done; by eexists.
  - apply Forall_cons in Hv as [Hp Hrest].
    destruct (top_cases rules p Hp) as (e' & Hd' & Hcase).
    rewrite Hd in Hd'. injection Hd' as <-.
    destruct Hcase as [(r'&rule'&_&->&_&Hb&_)|[(?&?&?&?&_)|(?&?&?&?&_)]];
      [|unfold is_token_elem, type_is, is_terminal in *; rewrite Ht in *; done..].
    destruct Hb as (es1 & Hes1 & Hw1). destruct es1 as [|e1 es1]; [done|].
    pose (step := fun k (news : llama_grammar_stacks) '((o, es) : nat * llama_grammar_rule) =>
      e2 ← at_ es 0;
      llama_grammar_advance_stack k rules
        (if is_end_elem e2 then if is_end_elem e1 then rest else ptr_add p 1 :: rest
         else mk_gptr (Z.to_nat (el_value e)) o
              :: (if is_end_elem e1 then rest else ptr_add p 1 :: rest)) news).
    destruct (foldM_total_fuel step (alt_starts 0 rule true)) as [k Hk].
    + intros k k' b [o es] r Hle. unfold step. destruct (at_ es 0); simpl; try done.
      by apply advance_mono.
    + intros [o es] Hin. destruct (alt_ptr _ Hrules _ _ _ _ Hr Hin) as [Hes Hwes].
      destruct es as [|e2 es]; [done|].
      specialize (IH _ _ Hin).
      rewrite (after_stack_elems _ _ _ _ _ Hes1), (after_stack_elems _ _ _ _ _ Hes) in IH.
      apply IH.
      assert (Hv1 : valid_stack rules (if is_end_elem e1 then rest else ptr_add p 1 :: rest)).
      { destruct (is_end_elem e1) eqn:E1; [done|]. constructor; [|done]. by exists e1, es1. }
      destruct (is_end_elem e2) eqn:E2; [done|]. constructor; [|done]. by exists e2, es.
    + exists (S k). intros news. destruct (Hk news) as [r Hfold]. exists r. simpl.
      rewrite Hd. simpl. rewrite Ht. unfold at_. rewrite Hr. simpl.
      rewrite (alternates_loop_fold rules _ _ MBoundary) by (by eapply wf_rule).
      rewrite <- Hfold. apply foldM_ext. intros acc [o es] Hin. unfold step.
      destruct (at_ es 0) as [e2| | | |]; simpl; try done.
      unfold llama_grammar_is_end_of_sequence.
      by rewrite (proj2 (deref_elems rules (ptr_add p 1) e1)) by eauto.
Qed.

Context (Hnl : no_left_recursion rules).

Lemma advance_enough st : valid_stack rules st ->
  exists k, forall news, exists r, llama_grammar_advance_stack k rules st news = Ret r.
Proof. intros Hv. apply settles_fuel; [by apply settles_all|done]. Qed.

Lemma initial_enough start : (start < n)%nat ->
  exists k st0, initial_stacks k rules start = Ret st0.
Proof.
  intros Hs. destruct (lookup_lt_is_Some_2 rules start Hs) as [rule Hr].
  pose (step := fun k (news : llama_grammar_stacks) '((o, es) : nat * llama_grammar_rule) =>
      e ← at_ es 0;
      llama_grammar_advance_stack k rules
        (if is_end_elem e then [] else [mk_gptr start o]) news).
  destruct (foldM_total_fuel step (alt_starts 0 rule true)) as [k Hk].
  - intros k k' b [o es] r Hle. unfold step. destruct (at_ es 0); simpl; try done.
    by apply advance_mono.
  - intros [o es] Hin. destruct (alt_ptr _ Hrules _ _ _ _ Hr Hin) as [Hes Hwes].
    destruct es as [|e es]; [done|]. apply advance_enough.
    destruct (is_end_elem e) eqn:E; constructor; [|constructor]. by exists e, es.
  - destruct (Hk []) as [r Hfold]. exists k, r. unfold initial_stacks, at_. rewrite Hr. simpl.
    by rewrite (alternates_loop_fold rules _ _ MBoundary) by (by eapply wf_rule).
Qed.

Lemma accept_stacks_enough sts c : valid_stacks rules sts ->
  exists k sts', accept_stacks k rules sts c = Ret sts'.
Proof.
  intros Hv.
  destruct (foldM_total_fuel (fun k news st => llama_grammar_accept_chr k rules st c news) sts)
    as [k Hk].
  - intros k k' b st r Hle. by apply accept_chr_mono.
  - intros st Hin. destruct (Hv st Hin) as [Hvs Hr]. destruct st as [|p rest].
    { exists 0%nat. intros b. by exists b. }
    apply Forall_cons in Hvs as [Hp Hrest].
    destruct (top_cases rules p Hp) as (e & Hd & Hcase).
    destruct Hr as (e' & Hd' & Hterm). rewrite Hd in Hd'. injection Hd' as <-.
    simpl. rewrite Hd. simpl.
    destruct Hcase as [(r&rule&Ht&_)|[(neg&id&Ht&_)|(sy&after&Ht&_&Hb&_&Hm&_)]].
    + unfold is_terminal in Hterm. by rewrite Ht in Hterm.
    + rewrite Ht. exists 0%nat. intros b. by exists b.
    + rewrite Ht, Hm. simpl. destruct (sym_matches sy c); [|exists 0%nat; intros b; by exists b].
      rewrite pop_to_after by done. simpl. apply advance_enough. by apply after_stack_syms.
  - destruct (Hk []) as [r Hr]. by exists k, r.
Qed.

Lemma accept_text_enough w : forall sts, valid_stacks rules sts ->
  exists k sts', foldM (accept_stacks k rules) sts w = Ret sts'.
Proof.
  induction w as [|c w IH]; intros sts Hv.
  { by exists 0%nat, sts. }
  destruct (accept_stacks_enough sts c Hv) as (k1 & sts1 & H1).
  destruct (IH sts1) as (k2 & sts2 & H2).
  { intros t Ht. apply (accept_stacks_spec rules Hrules _ _ _ _ Hv H1) in Ht as (st & Hst & Hs).
    eapply steps_valid; [done| |done]. by apply Hv. }
  exists (max k1 k2), sts2. simpl.
  rewrite (accept_stacks_mono k1 (max k1 k2) _ _ _ ltac:(lia) H1). simpl.
  eapply accept_text_mono; [|done]. lia.
Qed.

End Run.
