(* ===== verification/GrammarLeftRec.v ===== *)
(** * The left-recursion check of [llama_grammar_detect_left_recursion].

    The check is a depth-first search of the graph of leftmost calls
    ([direct_leftcall]), in which a rule counts as possibly empty when one of
    its alternates is written empty.  It always answers, it answers [true] only
    on a cycle of that graph, and [false] only when the graph is well founded. *)

From S2P Require Import Prelude Utf8 Grammar GrammarLang GrammarFacts.
From Stdlib Require Import Lia.

(** [r] has an alternate with no symbols. *)
Definition directly_empty (rules : llama_grammar_rules) (r : nat) : Prop :=
  [] ∈ alternatives rules r.

(** [r] calls [r'] behind references to directly empty rules only. *)
Definition direct_leftcall (rules : llama_grammar_rules) (r r' : nat) : Prop :=
  exists pre post, (pre ++ SRef r' :: post) ∈ alternatives rules r
    /\ Forall (fun s => exists x, s = SRef x /\ directly_empty rules x) pre.

(** The rule has an alternate written empty, as the first loop tests it. *)
Definition empty_flag (rules : llama_grammar_rules) (r : nat) : bool :=
  match rules !! r with Some rule => has_empty_alternate rule true | None => false end.

(** The references the second loop recurses into. *)
Fixpoint leftmost_refs (may : nat -> bool) (rule : llama_grammar_rule) (recurse : bool)
    : list nat :=
  match rule with
  | [] => []
  | e :: rule' =>
      if type_is LLAMA_GRETYPE_RULE_REF e && recurse then
        Z.to_nat (el_value e) :: leftmost_refs may rule' (may (Z.to_nat (el_value e)))
      else if is_end_elem e then leftmost_refs may rule' true
      else leftmost_refs may rule' false
  end.

Section LeftRec.
Context (rules : llama_grammar_rules) (Hrules : wf_rules rules = true).

Local Notation n := (length rules).
Local Notation L := (direct_leftcall rules).
Local Notation flag := (empty_flag rules).

(** ** The loops against the alternates *)

Lemma wf_cons e es m : wf_elems n m (e :: es) = true -> el_type e <> LLAMA_GRETYPE_END ->
  exists m', wf_elems n m' es = true /\
    (is_end_elem e = true \/ el_type e = LLAMA_GRETYPE_RULE_REF -> m' = MBoundary).
Proof.
  intros Hw He. cbn [wf_elems] in Hw. unfold is_end_elem.
  destruct (el_type e) eqn:T; try done;
    try (destruct m; try done);
    try (apply andb_true_iff in Hw as [_ Hw]); eexists; (split; [exact Hw|]); naive_solver.
Qed.

Lemma syms_of_end e es : is_end_elem e = true -> syms_of (e :: es) = [].
Proof. intros H. unfold syms_of. cbn [decode_seq]. type_case e; try discriminate; done. Qed.

Lemma syms_of_cons e es : wf_elems n MBoundary (e :: es) = true -> is_end_elem e = false ->
  exists s ss, syms_of (e :: es) = s :: ss /\
    (forall r, s = SRef r -> el_type e = LLAMA_GRETYPE_RULE_REF
                             /\ r = Z.to_nat (el_value e) /\ ss = syms_of es)
    /\ (el_type e = LLAMA_GRETYPE_RULE_REF -> s = SRef (Z.to_nat (el_value e))).
Proof.
  intros Hw He. destruct (head_symbol n e es Hw He) as (s & k & Hs & _ & _ & Hcase).
  exists s, (syms_of (drop k (e :: es))). split; [done|]. split.
  - intros r ->. destruct Hcase as (Ht & -> & -> & _). split_and!; try done.
  - intros Ht. destruct s as [neg rg| |r|neg id].
    + destruct Hcase as (_ & Hc & _). unfold is_terminal in Hc. by rewrite Ht in Hc.
    + destruct Hcase as (_ & Hc & _). unfold is_terminal in Hc. by rewrite Ht in Hc.
    + by destruct Hcase as (_ & -> & _).
    + destruct Hcase as (_ & Hc & _). unfold is_terminal in Hc. by rewrite Ht in Hc.
Qed.

(** The alternates that start later in a sequence. *)
Definition later_alts (es : llama_grammar_rule) (off : nat) : list (list gsym) :=
  map (fun a => syms_of a.2) (alt_starts off es false).

Lemma alts_at_boundary es off :
  map (fun a => syms_of a.2) (alt_starts off es true)
  = match es with [] => [] | _ => [syms_of es] end ++ later_alts es off.
Proof. unfold later_alts. by destruct es. Qed.

Lemma has_empty_spec es : forall m off b, wf_elems n m es = true -> (b = true -> m = MBoundary) ->
  has_empty_alternate es b = true <->
  (b = true /\ syms_of es = []) \/ [] ∈ later_alts es off.
Proof.
  induction es as [|e es IH]; intros m off b Hw Hb; [done|].
  assert (Hstep : later_alts (e :: es) off = match el_type e with
     | LLAMA_GRETYPE_END => []
     | LLAMA_GRETYPE_ALT => map (fun a => syms_of a.2) (alt_starts (S off) es true)
     | _ => later_alts es (S off) end).
  { unfold later_alts. cbn [alt_starts]. simpl. by destruct (el_type e). }
  cbn [has_empty_alternate]. rewrite Hstep. clear Hstep.
  destruct (is_end_elem e) eqn:E.
  - rewrite (syms_of_end _ _ E).
    destruct (decide (el_type e = LLAMA_GRETYPE_END)) as [T|T].
    + rewrite T. cbn [wf_elems] in Hw. rewrite T in Hw. destruct es; [|done].
      rewrite elem_of_nil. destruct b; simpl; naive_solver.
    + assert (el_type e = LLAMA_GRETYPE_ALT) as TA
        by (unfold is_end_elem in E; by destruct (el_type e)).
      rewrite TA. destruct (wf_cons _ _ _ Hw T) as (m' & Hw' & Hm').
      rewrite alts_at_boundary, elem_of_app.
      destruct b; [naive_solver|].
      rewrite (IH m' (S off) true Hw') by auto.
      destruct es as [|e' es]; [done|]. rewrite list_elem_of_singleton. naive_solver.
  - assert (T : el_type e <> LLAMA_GRETYPE_END) by (unfold is_end_elem in E; by destruct (el_type e)).
    destruct (wf_cons _ _ _ Hw T) as (m' & Hw' & Hm').
    rewrite (IH m' (S off) false Hw') by done.
    assert ((b = true /\ syms_of (e :: es) = []) <-> False) as ->.
    { split; [|done]. intros [-> Hs]. rewrite (Hb eq_refl) in Hw.
      destruct (syms_of_cons _ _ Hw E) as (s & ss & Hs' & _). congruence. }
    unfold is_end_elem in E. destruct (el_type e); naive_solver.
Qed.

Lemma empty_flag_spec r : flag r = true <-> directly_empty rules r.
Proof.
  unfold empty_flag, directly_empty, alternatives.
  destruct (rules !! r) as [rule|] eqn:Hr; [|rewrite elem_of_nil; naive_solver].
  pose proof (wf_rule _ Hrules _ _ Hr) as Hw.
  rewrite (has_empty_spec _ MBoundary 0 true Hw) by done.
  rewrite alts_at_boundary, elem_of_app. destruct rule; [done|].
  rewrite list_elem_of_singleton. naive_solver.
Qed.

(** An alternate that calls [r'] leftmost. *)
Definition calls (r' : nat) (ss : list gsym) : Prop :=
  exists pre post, ss = pre ++ SRef r' :: post
    /\ Forall (fun s => exists x, s = SRef x /\ directly_empty rules x) pre.

Lemma calls_cons r' s ss : calls r' (s :: ss) <->
  s = SRef r' \/ exists x, s = SRef x /\ directly_empty rules x /\ calls r' ss.
Proof.
  split.
  - intros (pre & post & E & Hpre). destruct pre as [|s' pre]; simpl in E; injection E as -> ->.
    + by left.
    + apply Forall_cons in Hpre as [(x & -> & Hx) Hpre]. right. exists x. split_and!; [done..|].
      by exists pre, post.
  - intros [->|(x & -> & Hx & pre & post & -> & Hpre)].
    + by exists [], ss.
    + exists (SRef x :: pre), post. split; [done|]. constructor; eauto.
Qed.

Lemma leftmost_refs_spec r' es : forall m off b, wf_elems n m es = true ->
  (b = true -> m = MBoundary) ->
  r' ∈ leftmost_refs flag es b <->
  (b = true /\ calls r' (syms_of es)) \/ exists ss, ss ∈ later_alts es off /\ calls r' ss.
Proof.
  assert (Hnil : calls r' [] <-> False).
  { split; [|done]. intros (pre & post & E & _). by destruct pre. }
  induction es as [|e es IH]; intros m off b Hw Hb; [done|].
  assert (Hstep : later_alts (e :: es) off = match el_type e with
     | LLAMA_GRETYPE_END => []
     | LLAMA_GRETYPE_ALT => map (fun a => syms_of a.2) (alt_starts (S off) es true)
     | _ => later_alts es (S off) end).
  { unfold later_alts. cbn [alt_starts]. simpl. by destruct (el_type e). }
  cbn [leftmost_refs]. rewrite Hstep. clear Hstep.
  destruct (is_end_elem e) eqn:E.
  - assert (type_is LLAMA_GRETYPE_RULE_REF e = false) as ->.
    { unfold is_end_elem, type_is in *. by destruct (el_type e). }
    rewrite (syms_of_end _ _ E), Hnil. cbn [andb].
    destruct (decide (el_type e = LLAMA_GRETYPE_END)) as [T|T].
    + rewrite T. cbn [wf_elems] in Hw. rewrite T in Hw. destruct es; [|done].
      simpl. setoid_rewrite elem_of_nil. naive_solver.
    + assert (el_type e = LLAMA_GRETYPE_ALT) as TA
        by (unfold is_end_elem in E; by destruct (el_type e)).
      rewrite TA. destruct (wf_cons _ _ _ Hw T) as (m' & Hw' & Hm').
      rewrite alts_at_boundary. setoid_rewrite elem_of_app.
      rewrite (IH m' (S off) true Hw') by auto.
      destruct es as [|e' es]; [done|]. setoid_rewrite list_elem_of_singleton. naive_solver.
  - assert (T : el_type e <> LLAMA_GRETYPE_END) by (unfold is_end_elem in E; by destruct (el_type e)).
    destruct (wf_cons _ _ _ Hw T) as (m' & Hw' & Hm').
    assert (Hlater : match el_type e with
       | LLAMA_GRETYPE_END => [] | LLAMA_GRETYPE_ALT => map (fun a => syms_of a.2) (alt_starts (S off) es true)
       | _ => later_alts es (S off) end = later_alts es (S off)).
    { unfold is_end_elem in E. by destruct (el_type e). }
    rewrite Hlater. clear Hlater.
    destruct (type_is LLAMA_GRETYPE_RULE_REF e) eqn:Tr; cbn [andb].
    + apply type_is_spec in Tr. destruct b.
      * rewrite (Hb eq_refl) in Hw.
        destruct (syms_of_cons _ _ Hw E) as (s & ss & Hs & Hs1 & Hs2).
        specialize (Hs2 Tr). subst s. destruct (Hs1 _ eq_refl) as (_ & _ & ->).
        rewrite Hs, calls_cons, elem_of_cons.
        rewrite (IH m' (S off) (flag _) Hw') by auto.
        rewrite empty_flag_spec. naive_solver.
      * rewrite (IH m' (S off) false Hw') by done. naive_solver.
    + rewrite (IH m' (S off) false Hw') by done.
      assert ((b = true /\ calls r' (syms_of (e :: es))) <-> False) as ->; [|naive_solver].
      split; [|done]. intros [-> Hc]. rewrite (Hb eq_refl) in Hw.
      destruct (syms_of_cons _ _ Hw E) as (s & ss & Hs & Hs1 & _).
      rewrite Hs, calls_cons in Hc.
      destruct Hc as [->|(x & -> & _)]; edestruct Hs1 as (Ht & _); try done;
        apply type_is_spec in Ht; congruence.
Qed.

Lemma leftmost_refs_leftcall r rule r' : rules !! r = Some rule ->
  r' ∈ leftmost_refs flag rule true <-> L r r'.
Proof.
  intros Hr. pose proof (wf_rule _ Hrules _ _ Hr) as Hw.
  rewrite (leftmost_refs_spec _ _ MBoundary 0 true Hw) by done.
  assert (Hl : L r r' <-> exists ss, ss ∈ alternatives rules r /\ calls r' ss).
  { unfold direct_leftcall, calls. naive_solver. }
  rewrite Hl. unfold alternatives. rewrite Hr, alts_at_boundary. setoid_rewrite elem_of_app.
  destruct rule; [done|]. setoid_rewrite list_elem_of_singleton. naive_solver.
Qed.

Lemma leftmost_refs_bound es r' : forall m b, wf_elems n m es = true ->
  r' ∈ leftmost_refs flag es b -> (r' < n)%nat.
Proof.
  induction es as [|e es IH]; intros m b Hw Hin; [by apply not_elem_of_nil in Hin|].
  destruct (decide (el_type e = LLAMA_GRETYPE_END)) as [T|T].
  - cbn [wf_elems] in Hw. rewrite T in Hw. destruct es; [|done].
    cbn [leftmost_refs] in Hin. unfold type_is, is_end_elem in Hin. rewrite T in Hin.
    simpl in Hin. by apply not_elem_of_nil in Hin.
  - destruct (wf_cons _ _ _ Hw T) as (m' & Hw' & _). cbn [leftmost_refs] in Hin.
    destruct (type_is _ e && b) eqn:Tr.
    + apply andb_true_iff in Tr as [Tr _]. apply type_is_spec in Tr.
      apply elem_of_cons in Hin as [->|Hin]; [|by eapply IH].
      cbn [wf_elems] in Hw. rewrite Tr in Hw. bool_hyps. by apply Nat.ltb_lt.
    + destruct (is_end_elem e); by eapply IH.
Qed.

(** ** The search *)

Definition good (st : lr_state) : Prop :=
  length (rules_visited st) = n /\ length (rules_in_progress st) = n
  /\ length (rules_may_be_empty st) = n
  /\ forall x, rules_may_be_empty st !! x = Some true -> flag x = true.

Definition well (r : nat) : Prop := Acc (fun r' r => L r r') r.

(** The search only adds facts to the state, and keeps the rules in progress. *)
Record extends (st st' : lr_state) : Prop := {
  ext_good : good st';
  ext_progress : rules_in_progress st' = rules_in_progress st;
  ext_may x : rules_may_be_empty st !! x = Some true -> rules_may_be_empty st' !! x = Some true;
  ext_visited x : rules_visited st !! x = Some true -> rules_visited st' !! x = Some true;
  ext_new x : rules_visited st' !! x = Some true -> rules_visited st !! x = Some true \/ well x;
}.

Lemma extends_refl st : good st -> extends st st.
Proof. intros H. constructor; auto. Qed.

Lemma extends_trans st1 st2 st3 : extends st1 st2 -> extends st2 st3 -> extends st1 st3.
Proof.
  intros [G1 P1 M1 V1 N1] [G2 P2 M2 V2 N2]. constructor; auto; [congruence|].
  intros x Hx. apply N2 in Hx as [Hx|Hx]; auto.
Qed.

(** What one call of the search establishes: a cycle, when the rules in
    progress lead to [r]; or that no leftmost calls from [r] go on forever. *)
Definition searched (r : nat) (st : lr_state) (found : bool) (st' : lr_state) : Prop :=
  if found
  then (forall x, rules_in_progress st !! x = Some true -> tc L x r) -> exists y, tc L y y
  else extends st st' /\ rules_may_be_empty st' !! r = Some (flag r)
       /\ rules_visited st' !! r = Some true /\ well r.

Lemma leftmost_loop_spec detect r es :
  (forall r' st found st', good st -> (r' < n)%nat -> detect r' st = Ret (found, st') ->
     searched r' st found st') ->
  forall m b st found st', good st -> wf_elems n m es = true ->
  (forall r', r' ∈ leftmost_refs flag es b -> L r r') ->
  leftmost_loop detect es b st = Ret (found, st') ->
  if found
  then (forall x, rules_in_progress st !! x = Some true -> rtc L x r) -> exists y, tc L y y
  else extends st st' /\ forall r', r' ∈ leftmost_refs flag es b -> well r'.
Proof.
  intros Hd. induction es as [|e es IH]; intros m b st found st' Hg Hw HL H.
  { injection H as <- <-. split; [by apply extends_refl|]. intros r' Hr'.
    by apply not_elem_of_nil in Hr'. }
  destruct (decide (el_type e = LLAMA_GRETYPE_END)) as [T|T].
  { cbn [wf_elems] in Hw. rewrite T in Hw. destruct es; [|done].
    cbn [leftmost_loop leftmost_refs] in *. unfold type_is, is_end_elem in *. rewrite T in *.
    simpl in *. injection H as <- <-. split; [by apply extends_refl|]. intros r' Hr'.
    by apply not_elem_of_nil in Hr'. }
  pose proof (leftmost_refs_bound (e :: es)) as Hbound.
  destruct (wf_cons _ _ _ Hw T) as (m' & Hw' & _).
  cbn [leftmost_loop leftmost_refs] in *.
  destruct (type_is LLAMA_GRETYPE_RULE_REF e && b) eqn:Tr;
    [|destruct (is_end_elem e); by eapply IH].
  set (x := Z.to_nat (el_value e)) in *.
  assert (Hx : (x < n)%nat).
  { apply andb_true_iff in Tr as [Tr _]. apply type_is_spec in Tr.
    cbn [wf_elems] in Hw. rewrite Tr in Hw. bool_hyps. by apply Nat.ltb_lt. }
  apply bind_Ret in H as ([found1 st1] & H1 & H). apply Hd in H1; [|done..].
  destruct found1; unfold searched in H1.
  - injection H as <- <-. intros Hp. apply H1. intros y Hy.
    eapply tc_rtc_l; [by apply Hp|]. apply tc_once, HL. left.
  - destruct H1 as (Hext & Hmay & Hvis & Hwell).
    apply bind_Ret in H as (may & Hm & H). apply at_Ret in Hm. rewrite Hmay in Hm.
    injection Hm as <-.
    apply (IH m' (flag x) st1 found st' (ext_good _ _ Hext) Hw') in H;
      [|intros r' Hr'; apply HL; by right].
    destruct found.
    + by rewrite <- (ext_progress _ _ Hext).
    + destruct H as (Hext' & Hrefs). split; [by eapply extends_trans|].
      intros r' Hr'. apply elem_of_cons in Hr' as [->|Hr']; auto.
Qed.

Lemma good_set st r b :
  good st -> (b = true -> flag r = true) ->
  forall st', st' = mk_lr (rules_visited st) (<[r := true]> (rules_in_progress st))
                     (if b then <[r := true]> (rules_may_be_empty st)
                      else rules_may_be_empty st) ->
  good st'.
Proof.
  intros (G1 & G2 & G3 & G4) Hb st' ->. split_and!; simpl.
  - done.
  - by rewrite length_insert.
  - destruct b; [by rewrite length_insert|done].
  - intros x. destruct b; [|apply G4]. intros Hx.
    destruct (decide (x = r)) as [->|Hne]; [auto|].
    rewrite list_lookup_insert_ne in Hx by done. auto.
Qed.

Lemma detect_spec fuel : forall r st found st', good st -> (r < n)%nat ->
  llama_grammar_detect_left_recursion fuel rules r st = Ret (found, st') ->
  searched r st found st'.
Proof.
  induction fuel as [|fuel IH]; intros r st found st' Hg Hr H; [done|]. simpl in H.
  apply bind_Ret in H as (busy & Hb & H). apply at_Ret in Hb. destruct busy.
  { injection H as <- <-. intros Hp. exists r. by apply Hp. }
  apply bind_Ret in H as (in_progress & Hip & H). apply set_Ret in Hip as [_ ->].
  apply bind_Ret in H as (rule & Hrule & H). apply at_Ret in Hrule.
  apply bind_Ret in H as (may & Hmay & H).
  assert (Hflag : has_empty_alternate rule true = flag r) by (unfold empty_flag; by rewrite Hrule).
  rewrite Hflag in Hmay.
  assert (may = if flag r then <[r := true]> (rules_may_be_empty st)
                else rules_may_be_empty st) as ->.
  { destruct (flag r); [by apply set_Ret in Hmay as [_ ->]|by injection Hmay]. }
  apply bind_Ret in H as ([found1 st1] & Hl & H).
  pose proof (good_set st r (flag r) Hg ltac:(done) _ eq_refl) as Hg1.
  pose proof Hg as (G1 & G2 & G3 & G4).
  apply (leftmost_loop_spec _ r rule IH MBoundary true _ _ _ Hg1) in Hl;
    [|by eapply wf_rule|intros r'; by apply leftmost_refs_leftcall].
  destruct found1.
  { injection H as <- <-. intros Hp. apply Hl. simpl. intros x Hx.
    destruct (decide (x = r)) as [->|Hne]; [done|].
    rewrite list_lookup_insert_ne in Hx by done. by apply tc_rtc, Hp. }
  destruct Hl as (Hext & Hrefs).
  assert (Hwell : well r).
  { constructor. intros r' HL. apply Hrefs. by eapply leftmost_refs_leftcall. }
  apply bind_Ret in H as (ip & Hip & H). apply set_Ret in Hip as [_ ->].
  apply bind_Ret in H as (vis & Hvis & H). apply set_Ret in Hvis as [Hlv ->].
  injection H as <- <-. destruct Hext as [E1 E2 E3 E4 E5]. simpl in *.
  destruct E1 as (F1 & F2 & F3 & F4).
  assert (Hm : rules_may_be_empty st1 !! r = Some (flag r)).
  { destruct (flag r) eqn:Fr.
    - apply E3. rewrite list_lookup_insert_eq by lia. done.
    - destruct (lookup_lt_is_Some_2 (rules_may_be_empty st1) r ltac:(lia)) as [[] Hb'];
        [|done]. apply F4 in Hb'. congruence. }
  split_and!; simpl; try done.
  - constructor; simpl.
    + split_and!; simpl; [by rewrite length_insert|by rewrite length_insert|done|done].
    + rewrite E2, list_insert_insert_eq. by apply list_insert_id.
    + intros x Hx. apply E3. destruct (flag r); [|done].
      destruct (decide (x = r)) as [->|Hne]; [rewrite list_lookup_insert_eq by lia; done|].
      by rewrite list_lookup_insert_ne.
    + intros x Hx. destruct (decide (x = r)) as [->|Hne];
        [rewrite list_lookup_insert_eq by lia; done|].
      rewrite list_lookup_insert_ne by done. by apply E4.
    + intros x Hx. destruct (decide (x = r)) as [->|Hne]; [by right|].
      rewrite list_lookup_insert_ne in Hx by done. by apply E5.
  - rewrite list_lookup_insert_eq by lia. done.
Qed.

(** ** The search always answers *)

(** The number of rules not in progress bounds the depth of the search. *)
Definition idle (l : list bool) : nat := length (List.filter negb l).

Lemma idle_set l r : l !! r = Some false -> idle l = S (idle (<[r := true]> l)).
Proof.
  unfold idle. revert r. induction l as [|b l IH]; intros [|r] H; simpl in *; try done.
  - by injection H as ->.
  - destruct b; simpl; rewrite (IH _ H); done.
Qed.

Lemma leftmost_loop_total detect k es :
  (forall r' st, good st -> (r' < n)%nat -> idle (rules_in_progress st) = k ->
     exists found st', detect r' st = Ret (found, st') /\ searched r' st found st') ->
  forall m b st, good st -> wf_elems n m es = true -> idle (rules_in_progress st) = k ->
  exists res, leftmost_loop detect es b st = Ret res.
Proof.
  intros Hd. induction es as [|e es IH]; intros m b st Hg Hw Hk; [by eexists|].
  destruct (decide (el_type e = LLAMA_GRETYPE_END)) as [T|T].
  { cbn [wf_elems] in Hw. rewrite T in Hw. destruct es; [|done].
    cbn [leftmost_loop]. unfold type_is, is_end_elem in *. rewrite T. simpl. by eexists. }
  destruct (wf_cons _ _ _ Hw T) as (m' & Hw' & _). cbn [leftmost_loop].
  destruct (type_is LLAMA_GRETYPE_RULE_REF e && b) eqn:Tr;
    [|destruct (is_end_elem e); by eapply IH].
  destruct (Hd (Z.to_nat (el_value e)) st Hg) as (found & st' & H1 & Hs); [|done|].
  { apply andb_true_iff in Tr as [Tr _]. apply type_is_spec in Tr.
    cbn [wf_elems] in Hw. rewrite Tr in Hw. bool_hyps. by apply Nat.ltb_lt. }
  rewrite H1. simpl. destruct found; [by eexists|]. destruct Hs as (Hext & Hmay & _).
  unfold at_. rewrite Hmay. simpl. eapply IH; [apply Hext|done|].
  by rewrite (ext_progress _ _ Hext).
Qed.

Lemma detect_total fuel : forall r st, good st -> (r < n)%nat ->
  (idle (rules_in_progress st) < fuel)%nat ->
  exists found st', llama_grammar_detect_left_recursion fuel rules r st = Ret (found, st')
    /\ searched r st found st'.
Proof.
  induction fuel as [|fuel IH]; intros r st Hg Hr Hidle; [lia|].
  assert (Hret : exists res,
    llama_grammar_detect_left_recursion (S fuel) rules r st = Ret res).
  { simpl. pose proof Hg as (G1 & G2 & G3 & G4). unfold at_, set_.
    destruct (lookup_lt_is_Some_2 (rules_in_progress st) r ltac:(lia)) as [busy Hb].
    rewrite Hb. simpl. destruct busy; [by eexists|].
    rewrite decide_True by lia. simpl.
    destruct (lookup_lt_is_Some_2 rules r Hr) as [rule Hrule]. rewrite Hrule. simpl.
    assert (Hflag : has_empty_alternate rule true = flag r)
      by (unfold empty_flag; by rewrite Hrule).
    rewrite Hflag, decide_True by lia.
    set (may := if flag r then <[r:=true]> (rules_may_be_empty st) else rules_may_be_empty st).
    assert ((if flag r then Ret (<[r:=true]> (rules_may_be_empty st))
             else Ret (rules_may_be_empty st)) = Ret may) as ->
      by (unfold may; by destruct (flag r)).
    simpl. pose proof (good_set st r (flag r) Hg ltac:(done) _ eq_refl) as Hg1. fold may in Hg1.
    destruct (leftmost_loop_total (llama_grammar_detect_left_recursion fuel rules)
                (idle (<[r:=true]> (rules_in_progress st))) rule) with (m := MBoundary)
        (b := true) (st := mk_lr (rules_visited st) (<[r:=true]> (rules_in_progress st)) may)
      as [[found st1] Hl]; [|done|by eapply wf_rule|done|].
    { intros r' st2 Hg2 Hr' Hi. apply IH; [done..|]. rewrite Hi.
      rewrite (idle_set _ _ Hb) in Hidle. lia. }
    rewrite Hl. simpl. destruct found; [by eexists|].
    apply (leftmost_loop_spec _ r rule (detect_spec fuel) MBoundary true _ _ _ Hg1) in Hl;
      [|by eapply wf_rule|intros r'; by apply leftmost_refs_leftcall].
    destruct Hl as [[E1 _ _ _ _] _]. destruct E1 as (F1 & F2 & _).
    rewrite !decide_True by lia. by eexists. }
  destruct Hret as [[found st'] Hret]. exists found, st'. split; [done|].
  by eapply detect_spec.
Qed.

(** ** The loop over the rules *)

Lemma check_rules_spec todo : forall st, good st ->
  rules_in_progress st = replicate n false ->
  (forall r, r ∈ todo -> (r < n)%nat) ->
  (forall x, rules_visited st !! x = Some true -> well x) ->
  exists b, check_rules (S n) rules todo st = Ret b /\
    if b then exists y, tc L y y else forall r, r ∈ todo -> well r.
Proof.
  induction todo as [|i todo IH]; intros st Hg Hp Htodo Hv; cbn [check_rules].
  { exists false. split; [done|]. intros r Hr. by apply not_elem_of_nil in Hr. }
  assert (Hi : (i < n)%nat) by (apply Htodo; left).
  pose proof Hg as (G1 & _). unfold at_.
  destruct (lookup_lt_is_Some_2 (rules_visited st) i ltac:(lia)) as [v Hvi]. rewrite Hvi. cbn [mbind outcome_bind].
  destruct v.
  - destruct (IH st Hg Hp) as (b & Hb & Hres); [intros; apply Htodo; by right|done|].
    exists b. split; [done|]. destruct b; [done|].
    intros r Hr. apply elem_of_cons in Hr as [->|Hr]; auto.
  - destruct (detect_total (S n) i st Hg Hi) as (found & st' & Hd & Hs).
    { rewrite Hp. unfold idle. pose proof (filter_length_le negb (replicate n false)) as Hf.
      rewrite length_replicate in Hf. lia. }
    rewrite Hd. cbn [mbind outcome_bind]. destruct found.
    + exists true. split; [done|]. apply Hs. intros x Hx. rewrite Hp in Hx.
      by apply lookup_replicate in Hx as [? _].
    + destruct Hs as (Hext & _ & _ & Hwell).
      destruct (IH st') as (b & Hb & Hres).
      * apply Hext.
      * by rewrite (ext_progress _ _ Hext).
      * intros; apply Htodo; by right.
      * intros x Hx. apply (ext_new _ _ Hext) in Hx as [Hx|Hx]; auto.
      * exists b. split; [done|]. destruct b; [done|].
        intros r Hr. apply elem_of_cons in Hr as [->|Hr]; auto.
Qed.

Lemma is_left_recursive_spec : exists b, is_left_recursive rules = Ret b /\
  if b then exists y, tc L y y else forall r, Acc (fun r' r => L r r') r.
Proof.
  destruct (check_rules_spec (seq 0 n)
    (mk_lr (replicate n false) (replicate n false) (replicate n false))) as (b & Hb & Hres).
  - split_and!; simpl; try by rewrite length_replicate.
    intros x Hx. by apply lookup_replicate in Hx as [? _].
  - done.
  - intros r Hr. apply elem_of_seq in Hr. lia.
  - simpl. intros x Hx. by apply lookup_replicate in Hx as [? _].
  - exists b. split; [exact Hb|]. destruct b; [done|]. intros r.
    destruct (decide (r < n)%nat) as [Hr|Hr].
    + apply Hres, elem_of_seq. lia.
    + constructor. intros r' (pre & post & Hin & _). unfold alternatives in Hin.
      rewrite lookup_ge_None_2 in Hin by lia. by apply not_elem_of_nil in Hin.
Qed.

(** Where every rule that may be empty has an alternate written empty, the
    leftmost calls of the check are those of the language. *)
Lemma direct_leftcall_complete :
  (forall r, derives rules [SRef r] [] -> directly_empty rules r) ->
  forall r r', leftcall rules r r' -> L r r'.
Proof.
  intros Hnull r r' (pre & post & Hin & Hpre). exists pre, post. split; [done|].
  clear Hin. induction pre as [|s pre IH]; [constructor|].
  assert (Hsplit : forall s pre, derives rules (s :: pre) [] ->
            exists x, s = SRef x /\ derives rules [s] [] /\ derives rules pre []).
  { clear. assert (Hgen : forall ss1 ss2, derives rules (ss1 ++ ss2) [] ->
      derives rules ss1 [] /\ derives rules ss2 []).
    { intros ss1 ss2 H. remember (ss1 ++ ss2) as ss eqn:E. remember [] as w eqn:Ew.
      revert ss1 ss2 E Ew. induction H as [|s c ss w Hm _ _|r alt ss w Halt Hd IH];
        intros ss1 ss2 E Ew.
      - symmetry in E. apply app_nil in E as [-> ->]. split; constructor.
      - done.
      - destruct ss1 as [|s1 ss1]; simpl in E.
        + subst. split; [constructor|]. by eapply derives_ref.
        + injection E as <- ->. subst.
          destruct (IH (alt ++ ss1) ss2) as [H1 H2]; [by rewrite app_assoc|done|].
          split; [|done]. by eapply derives_ref. }
    intros s pre H. destruct (Hgen [s] pre H) as [H1 H2].
    inversion H1; subst. by exists r. }
  destruct (Hsplit _ _ Hpre) as (x & -> & Hx & Hpre'). constructor; [by eauto|auto].
Qed.

End LeftRec.
