(* ===== verification/GrammarFilter.v ===== *)
(** * The candidate filter, [llama_grammar_reject_candidates].

    [fits] says declaratively when a stack can take a candidate: complete code
    points step the stack, a token element takes a whole token, and a trailing
    incomplete code point must be able to match.  The filter rejects exactly
    the candidates that fit no stack ([reject_stacks_spec]). *)

From S2P Require Import Prelude Utf8 Grammar GrammarParser GrammarSampler GrammarLang GrammarFacts.
From Stdlib Require Import Lia.
Import GrammarUtf8.

(** The code points of a candidate still to be matched, without the final 0. *)
Definition cand_text (tok : llama_grammar_candidate) : list Z :=
  removelast (drop (c_off tok) (c_cps tok)).

(** The code points end in the only 0, which has not been passed. *)
Definition wf_cand (tok : llama_grammar_candidate) : Prop :=
  exists w, drop (c_off tok) (c_cps tok) = w ++ [0] /\ Forall (fun c => c <> 0) w.

(** No rule has a token element. *)
Definition token_free (rules : llama_grammar_rules) : Prop :=
  forall r rule e, rules !! r = Some rule -> e ∈ rule -> is_token_elem e = false.

Section Filter.
Context (rules : llama_grammar_rules) (Hrules : wf_rules rules = true).

Local Notation n := (length rules).

Inductive fits (partial : llama_partial_utf8) (id : Z) : llama_grammar_stack -> list Z -> Prop :=
  | fits_done s : n_remain partial = 0 -> fits partial id s []
  | fits_token p rest e c w :
      deref rules p = Ret e -> is_token_elem e = true ->
      llama_grammar_match_token rules p id = Ret true -> fits partial id (p :: rest) (c :: w)
  | fits_partial p rest e :
      deref rules p = Ret e -> is_token_elem e = false ->
      llama_grammar_match_partial_char rules p partial = Ret true -> fits partial id (p :: rest) []
  | fits_step s c s' w :
      steps rules s c s' -> fits partial id s' w -> fits partial id s (c :: w).

Definition cand_fits (tok : llama_grammar_candidate) (s : llama_grammar_stack) : Prop :=
  fits (c_partial tok) (c_id tok) s (cand_text tok).

(** ** Candidates *)

Lemma cand_cases tok : wf_cand tok ->
  (cand_chr tok = 0 /\ cand_text tok = [])
  \/ (cand_chr tok <> 0 /\ cand_text tok = cand_chr tok :: cand_text (cand_next tok)
      /\ wf_cand (cand_next tok)).
Proof.
  intros (w & Hd & Hw). unfold cand_chr, cand_text, wf_cand. simpl.
  assert (Hn : nth (c_off tok) (c_cps tok) 0 = nth 0 (drop (c_off tok) (c_cps tok)) 0).
  { rewrite nth_lookup, nth_lookup, lookup_drop. by rewrite Nat.add_0_r. }
  assert (Hnext : drop (c_off tok + 1) (c_cps tok) = drop 1 (drop (c_off tok) (c_cps tok)))
    by (by rewrite drop_drop).
  rewrite Hn, Hnext, Hd. destruct w as [|c w]; simpl; [by left|right].
  apply Forall_cons in Hw as [Hc Hw]. split_and!; [done| |by exists w].
  rewrite ?drop_0. by destruct (w ++ [0]) eqn:E; [apply app_nil in E as [_ ?]|].
Qed.

Lemma cand_prev_next tok : cand_prev (cand_next tok) = tok.
Proof.
  destruct tok. unfold cand_prev, cand_next. simpl. f_equal. lia.
Qed.

(** ** What the terminals do to a candidate *)

Lemma match_partial_loop_total k positive low high len : forall es e0, (length es <= len)%nat ->
  wf_elems k MChar es = true \/ (wf_elems k MBoundary es = true) ->
  exists b, match_partial_loop positive low high (e0 :: es) = Ret b.
Proof.
  induction len as [|len IH]; intros es e0 Hlen Hw.
  { destruct es; [naive_solver|simpl in Hlen; lia]. }
  destruct es as [|e1 es]; [naive_solver|]. simpl in Hlen. cbn [match_partial_loop].
  destruct (type_is LLAMA_GRETYPE_CHAR_RNG_UPPER e1) eqn:Hr.
  - destruct (_ && _); [by eexists|]. destruct es as [|e2 es].
    { apply type_is_spec in Hr. cbn [wf_elems] in Hw. rewrite Hr in Hw. naive_solver. }
    destruct (type_is LLAMA_GRETYPE_CHAR_ALT e2) eqn:Ha; [|by eexists].
    apply type_is_spec in Hr, Ha. apply (IH es e2); [simpl in Hlen; lia|].
    cbn [wf_elems] in Hw. rewrite Hr, Ha in Hw. naive_solver.
  - destruct (type_is _ e0); [by eexists|]. destruct (_ && _); [by eexists|].
    destruct (type_is LLAMA_GRETYPE_CHAR_ALT e1) eqn:Ha; [|by eexists].
    apply (IH es e1); [lia|]. apply type_is_spec in Ha. cbn [wf_elems] in Hw.
    rewrite Ha in Hw. naive_solver.
Qed.

Lemma match_partial_total p e partial : valid_ptr rules p -> deref rules p = Ret e ->
  is_token_elem e = false -> is_terminal e = true ->
  exists b, llama_grammar_match_partial_char rules p partial = Ret b.
Proof.
  intros (e' & es & Hes & Hend & Hw) Hd Ht Hterm.
  assert (e' = e) as -> by (apply deref_elems in Hd as [? Hd]; congruence).
  unfold llama_grammar_match_partial_char. rewrite Hes. simpl.
  assert (is_positive_char e || type_is LLAMA_GRETYPE_CHAR_NOT e = true) as ->.
  { unfold is_terminal, is_token_elem, is_positive_char, type_is in *.
    by destruct (el_type e). }
  simpl. destruct (_ || _); [by eexists|].
  apply (match_partial_loop_total n _ _ _ _ es e (Nat.le_refl _)).
  cbn [wf_elems] in Hw. unfold is_terminal, is_token_elem, type_is in *.
  destruct (el_type e); auto; discriminate.
Qed.

Lemma fits_nil_stack partial id w : fits partial id [] w <-> w = [] /\ n_remain partial = 0.
Proof.
  split.
  - intros H. inversion H as [| | |? ? ? ? Hs]; subst; [done|].
    by destruct Hs as (? & ? & ? & ? & ? & _).
  - intros [-> H]. by constructor.
Qed.

Lemma fits_token_stack partial id p rest e w : deref rules p = Ret e -> is_token_elem e = true ->
  fits partial id (p :: rest) w <->
  match w with
  | [] => n_remain partial = 0
  | _ => llama_grammar_match_token rules p id = Ret true
  end.
Proof.
  intros Hd Ht. split.
  - intros H. inversion H as [|? ? ? ? ? Hd' Ht' Hm|? ? ? Hd' Ht'|? ? ? ? Hs]; subst;
      [done|done|congruence|].
    destruct Hs as (p' & r' & e' & a & E & Hd' & Ht' & _). injection E as <- <-. congruence.
  - destruct w; intros H; [by constructor|by eapply fits_token].
Qed.

Lemma fits_char_nil partial id p rest e : deref rules p = Ret e -> is_token_elem e = false ->
  fits partial id (p :: rest) [] <->
  n_remain partial = 0 \/ llama_grammar_match_partial_char rules p partial = Ret true.
Proof.
  intros Hd Ht. split.
  - intros H. inversion H; subst; [by left|by right].
  - intros [H|H]; [by constructor|by eapply fits_partial].
Qed.

Lemma fits_char_cons partial id p rest e c w : deref rules p = Ret e -> is_token_elem e = false ->
  fits partial id (p :: rest) (c :: w) <->
  exists s', steps rules (p :: rest) c s' /\ fits partial id s' w.
Proof.
  intros Hd Ht. split.
  - intros H. inversion H; subst; [congruence|by eauto].
  - intros (s' & ? & ?). by eapply fits_step.
Qed.

Lemma reject_at_end_spec tok : wf_cand tok ->
  reject_at_end tok = true <-> ~ cand_fits tok [].
Proof.
  intros Hw. unfold reject_at_end, cand_fits. rewrite fits_nil_stack.
  destruct (cand_cases tok Hw) as [[Hc ->]|(Hc & -> & _)].
  - rewrite Hc. simpl. destruct (n_remain (c_partial tok) =? 0) eqn:E; bool_hyps; naive_solver lia.
  - apply Z.eqb_neq in Hc. rewrite Hc. simpl. naive_solver.
Qed.

Lemma reject_at_token_spec p rest e tok b : wf_cand tok ->
  deref rules p = Ret e -> is_token_elem e = true ->
  reject_at_token rules p tok = Ret b -> b = true <-> ~ cand_fits tok (p :: rest).
Proof.
  intros Hw Hd Ht H. unfold reject_at_token, cand_fits in *.
  rewrite (fits_token_stack _ _ _ _ _ _ Hd Ht).
  destruct (cand_cases tok Hw) as [[Hc ->]|(Hc & -> & _)].
  - rewrite Hc in H. simpl in H. injection H as <-.
    destruct (n_remain (c_partial tok) =? 0) eqn:E; bool_hyps; naive_solver lia.
  - apply Z.eqb_neq in Hc. rewrite Hc in H. apply bind_Ret in H as (m & -> & H).
    injection H as <-. destruct m; naive_solver.
Qed.

Lemma foldM_filter {A} (test : A -> outcome bool) (Q : A -> Prop) l :
  (forall x b, x ∈ l -> test x = Ret b -> (b = true <-> Q x)) ->
  forall acc acc',
  foldM (fun acc x => r ← test x; Ret (if r : bool then acc ++ [x] else acc)) acc l = Ret acc' ->
  forall y, y ∈ acc' <-> y ∈ acc \/ (y ∈ l /\ Q y).
Proof.
  intros Ht acc acc' H y.
  assert (Hiff : y ∈ acc' <-> y ∈ acc \/ exists x, x ∈ l /\ (x = y /\ Q x)).
  { eapply (foldM_elems _ (fun x y => x = y /\ Q x)); [|exact H].
    intros a x a' Hx Ha z. apply bind_Ret in Ha as (b & Hb & Ha). injection Ha as <-.
    specialize (Ht _ _ Hx Hb). destruct b.
    - rewrite elem_of_app, list_elem_of_singleton. naive_solver.
    - naive_solver. }
  rewrite Hiff. naive_solver.
Qed.

Lemma sort_candidates_spec p l : (forall tok, tok ∈ l -> wf_cand tok) ->
  forall sy after, (forall c, llama_grammar_match_char rules p c = Ret (sym_matches sy c, after)) ->
  forall rejects next rejects' next',
  foldM (sort_candidate rules p) (rejects, next) l = Ret (rejects', next') ->
  (forall tok, tok ∈ rejects' <-> tok ∈ rejects \/ (tok ∈ l /\
     if decide (cand_chr tok = 0)
     then n_remain (c_partial tok) <> 0
          /\ llama_grammar_match_partial_char rules p (c_partial tok) = Ret false
     else sym_matches sy (cand_chr tok) = false))
  /\ (forall tok, tok ∈ next' <-> tok ∈ next \/ exists t, t ∈ l /\ tok = cand_next t
        /\ cand_chr t <> 0 /\ sym_matches sy (cand_chr t) = true).
Proof.
  induction l as [|t l IH]; intros Hwf sy after Hm rejects next rejects' next' H; simpl in H.
  { injection H as <- <-. split; intros tok; (split; [auto|]).
    - intros [?|[Hn _]]; [done|by apply not_elem_of_nil in Hn].
    - intros [?|(t & Hn & _)]; [done|by apply not_elem_of_nil in Hn]. }
  apply bind_Ret in H as ([rejects1 next1] & H1 & H).
  apply IH with (1 := fun u Hu => Hwf u (list_elem_of_further _ _ _ Hu)) (2 := Hm) in H
    as [HR HN].
  assert (Hone : (forall tok, tok ∈ rejects1 <-> tok ∈ rejects \/ (tok = t /\
     if decide (cand_chr tok = 0)
     then n_remain (c_partial tok) <> 0
          /\ llama_grammar_match_partial_char rules p (c_partial tok) = Ret false
     else sym_matches sy (cand_chr tok) = false))
    /\ (forall tok, tok ∈ next1 <-> tok ∈ next \/ (tok = cand_next t
        /\ cand_chr t <> 0 /\ sym_matches sy (cand_chr t) = true))).
  { unfold sort_candidate in H1. destruct (cand_chr t =? 0) eqn:Ec; bool_hyps.
    - destruct (n_remain (c_partial t) =? 0) eqn:En; bool_hyps.
      + injection H1 as <- <-. split; intros tok; [|by intuition]. split; [auto|].
        intros [?|[-> Hd]]; [done|]. rewrite decide_True in Hd by done. destruct Hd; congruence.
      + apply bind_Ret in H1 as (m & Hpm & H1). destruct m; injection H1 as <- <-.
        * split; intros tok; [|by intuition]. split; [auto|].
          intros [?|[-> Hd]]; [done|]. rewrite decide_True in Hd by done. destruct Hd; congruence.
        * split; intros tok; [|by intuition].
          rewrite elem_of_app, list_elem_of_singleton. apply or_iff_compat_l.
          split; [|by intros [-> _]]. intros ->. by rewrite decide_True by done.
    - rewrite Hm in H1. simpl in H1.
      destruct (sym_matches sy (cand_chr t)) eqn:Es; injection H1 as <- <-.
      + split; intros tok.
        * split; [auto|]. intros [?|[-> Hd]]; [done|]. rewrite decide_False in Hd by done.
          congruence.
        * rewrite elem_of_app, list_elem_of_singleton. naive_solver.
      + split; intros tok; [|by intuition].
        rewrite elem_of_app, list_elem_of_singleton. apply or_iff_compat_l.
        split; [|by intros [-> _]]. intros ->. by rewrite decide_False by done. }
  destruct Hone as [H1R H1N]. split; intros tok.
  - rewrite HR, H1R, elem_of_cons. tauto.
  - rewrite HN, H1N. split.
    + intros [[?|(-> & ?)]|(u & ? & ?)]; [by left|right..].
      * exists t. split; [left|done].
      * exists u. split; [by right|done].
    + intros [?|(u & Hu & -> & ?)]; [by left; left|]. apply elem_of_cons in Hu as [->|Hu].
      * left. by right.
      * right. by exists u.
Qed.

(** ** The filter *)

Lemma reject_with_spec for_stack stacks l r :
  (forall s l r, s ∈ stacks -> (forall tok, tok ∈ l -> wf_cand tok) -> for_stack s l = Ret r ->
     forall tok, tok ∈ r <-> tok ∈ l /\ ~ cand_fits tok s) ->
  (forall tok, tok ∈ l -> wf_cand tok) ->
  reject_candidates_with for_stack stacks l = Ret r ->
  forall tok, tok ∈ r <-> tok ∈ l /\ forall s, s ∈ stacks -> ~ cand_fits tok s.
Proof.
  intros Hf Hwf H. unfold reject_candidates_with in H.
  destruct stacks as [|front others]; [done|].
  destruct l as [|t0 l0]; [injection H as <-; setoid_rewrite elem_of_nil; naive_solver|].
  set (l := t0 :: l0) in *. apply bind_Ret in H as (r1 & H1 & H).
  pose proof (Hf _ _ _ (list_elem_of_here _ _) Hwf H1) as Hr1.
  assert (Hwf1 : forall tok, tok ∈ r1 -> wf_cand tok)
    by (intros tok Ht; apply Hr1 in Ht as [Ht _]; auto).
  assert (Hfold : forall others r1 r, (forall s, s ∈ others -> s ∈ front :: others) ->
     (forall s l r, s ∈ others -> (forall tok, tok ∈ l -> wf_cand tok) -> for_stack s l = Ret r ->
        forall tok, tok ∈ r <-> tok ∈ l /\ ~ cand_fits tok s) ->
     (forall tok, tok ∈ r1 -> wf_cand tok) ->
     foldM (fun rejects stack => for_stack stack rejects) r1 others = Ret r ->
     forall tok, tok ∈ r <-> tok ∈ r1 /\ forall s, s ∈ others -> ~ cand_fits tok s).
  { clear. induction others as [|s others IH]; intros r1 r _ Hf Hw H tok; simpl in H.
    - injection H as <-. setoid_rewrite elem_of_nil. naive_solver.
    - apply bind_Ret in H as (r2 & H2 & H).
      pose proof (Hf s r1 r2 (list_elem_of_here _ _) Hw H2) as Hr2.
      rewrite (IH r2 r) by (try done; try (intros; by right);
        try (intros s' l' r' Hs'; apply Hf; by right);
        intros t Ht; apply Hr2 in Ht as [Ht _]; auto).
      rewrite Hr2. setoid_rewrite elem_of_cons. naive_solver. }
  intros tok. rewrite (Hfold others r1 r); [|by right| |done|exact H].
  - rewrite Hr1. setoid_rewrite elem_of_cons. naive_solver.
  - intros s l' r' Hs. apply Hf. by right.
Qed.

Lemma reject_for_stack_spec afuel fuel : forall s l r,
  valid_stack rules s -> ready rules s -> (forall tok, tok ∈ l -> wf_cand tok) ->
  llama_grammar_reject_candidates_for_stack afuel fuel rules s l = Ret r ->
  forall tok, tok ∈ r <-> tok ∈ l /\ ~ cand_fits tok s.
Proof.
  induction fuel as [|fuel IH]; intros s l r Hv Hready Hwf H tok; [done|]. simpl in H.
  destruct s as [|p rest].
  { injection H as <-. rewrite list_elem_of_In, filter_In, <- list_elem_of_In.
    split; (intros [Hin Hx]; split; [done|]); by apply reject_at_end_spec; auto. }
  apply bind_Ret in H as (e & Hd & H).
  destruct (is_token_elem e) eqn:Ht.
  { rewrite (foldM_filter _ (fun tok => ~ cand_fits tok (p :: rest)) l) by
      (try exact H; intros x b Hx Hb; by eapply reject_at_token_spec; eauto).
    rewrite elem_of_nil. naive_solver. }
  apply bind_Ret in H as ([rejects next] & Hsort & H).
  pose proof Hv as Hv'. apply Forall_cons in Hv' as [Hp Hrest].
  destruct (top_cases rules p Hp) as (e' & Hd' & Hcase). rewrite Hd in Hd'. injection Hd' as <-.
  destruct Hready as (e' & Hd' & Hterm). rewrite Hd in Hd'. injection Hd' as <-.
  destruct Hcase as [(r0&rule&Ht'&_)|[(neg&id&Ht'&_)|(sy&after&_&_&Hb&_&Hm&_)]];
    [unfold is_terminal in Hterm; by rewrite Ht' in Hterm|congruence|].
  rewrite Hm in H. simpl in H. rewrite pop_to_after in H by done. simpl in H.
  apply bind_Ret in H as (next_stacks & Hadv & H).
  apply bind_Ret in H as (next_rejects & Hrej & H). injection H as <-.
  set (st' := after_stack rules after rest) in *.
  assert (Hv' : valid_stack rules st') by (by apply after_stack_syms).
  pose proof (advance_spec rules Hrules _ _ _ _ Hv' Hadv) as Hns.
  destruct (sort_candidates_spec p l Hwf sy after Hm _ _ _ _ Hsort) as [HR HN].
  assert (Hwfn : forall tok, tok ∈ next -> wf_cand tok).
  { intros t Hin. apply HN in Hin as [Hin|(t' & Hin & -> & Hc & _)];
      [by apply not_elem_of_nil in Hin|].
    destruct (cand_cases t' (Hwf _ Hin)) as [[? _]|(_ & _ & ?)]; done. }
  assert (Hnr : forall tok, tok ∈ next_rejects <->
     tok ∈ next /\ forall s, s ∈ next_stacks -> ~ cand_fits tok s).
  { apply (reject_with_spec (llama_grammar_reject_candidates_for_stack afuel fuel rules));
      [|done|exact Hrej].
    intros s l' r' Hs Hl' Hr'. apply Hns in Hs as [Hs|Hs]; [by apply not_elem_of_nil in Hs|].
    destruct (closes_valid rules Hrules _ _ Hs Hv'). by apply IH. }
  assert (Hsteps : forall c s, steps rules (p :: rest) c s <->
            sym_matches sy c = true /\ closes rules st' s).
  { intros c s. split.
    - intros (p' & r' & e' & a & E & Hd' & _ & Hm' & Hc). injection E as <- <-.
      rewrite Hm in Hm'. by injection Hm' as -> <-.
    - intros [Hs Hc]. exists p, rest, e, after. by rewrite Hm, Hs. }
  assert (Hmap : tok ∈ map cand_prev next_rejects <->
            exists x, cand_prev x = tok /\ In x next_rejects)
    by (by rewrite list_elem_of_In, in_map_iff).
  rewrite elem_of_app, HR, Hmap. clear Hmap.
  assert (Hin : tok ∈ l \/ tok ∉ l) by (destruct (decide (tok ∈ l)); auto).
  assert (Hback : (exists x, cand_prev x = tok /\ In x next_rejects) <->
    tok ∈ l /\ cand_chr tok <> 0 /\ sym_matches sy (cand_chr tok) = true
    /\ forall s, s ∈ next_stacks -> ~ cand_fits (cand_next tok) s).
  { split.
    - intros (x & <- & Hx). apply list_elem_of_In, Hnr in Hx as [Hx Hs].
      apply HN in Hx as [Hx|(t & Htl & -> & Hc & Hsy)]; [by apply not_elem_of_nil in Hx|].
      by rewrite cand_prev_next.
    - intros (Htl & Hc & Hsy & Hs). exists (cand_next tok). split; [apply cand_prev_next|].
      apply list_elem_of_In, Hnr. split; [|done]. apply HN. right. by exists tok. }
  rewrite Hback. destruct Hin as [Hin|Hin];
    [|split; [intros [[?%not_elem_of_nil|[? _]]|[? _]]; done|naive_solver]].
  destruct (cand_cases tok (Hwf _ Hin)) as [[Hc Htext]|(Hc & Htext & _)].
  - rewrite decide_True by done. unfold cand_fits at 2. rewrite Htext.
    rewrite (fits_char_nil _ _ _ _ _ Hd Ht).
    destruct (match_partial_total p e (c_partial tok) Hp Hd Ht Hterm) as [b ->].
    split.
    + intros [[Hn|(_ & Hn & [= ->])]|(_ & ? & _)]; [by apply not_elem_of_nil in Hn| |done].
      split; [done|]. by intros [?|[=]].
    + intros [_ Hno]. left; right. split_and!; [done|by intros ?; apply Hno; left|].
      destruct b; [exfalso; apply Hno; by right|done].
  - rewrite decide_False by done. unfold cand_fits at 2. rewrite Htext.
    rewrite (fits_char_cons _ _ _ _ _ _ _ Hd Ht). setoid_rewrite Hsteps.
    split.
    + intros [[Hn|(_ & Hs)]|(_ & _ & Hs & Hno)]; [by apply not_elem_of_nil in Hn|..];
        (split; [done|]); intros (s' & [Hs' Hcl] & Hfit); [congruence|].
      apply (Hno s'); [apply Hns; by right|done].
    + intros [_ Hno]. destruct (sym_matches sy (cand_chr tok)) eqn:Es; [right|by left; right].
      split_and!; [done..|]. intros s' Hs' Hfit.
      apply Hns in Hs' as [Hs'|Hs']; [by apply not_elem_of_nil in Hs'|]. apply Hno. by exists s'.
Qed.

Lemma reject_stacks_spec afuel fuel sts l r : valid_stacks rules sts ->
  (forall tok, tok ∈ l -> wf_cand tok) ->
  llama_grammar_reject_candidates afuel fuel rules sts l = Ret r ->
  forall tok, tok ∈ r <-> tok ∈ l /\ forall s, s ∈ sts -> ~ cand_fits tok s.
Proof.
  intros Hv Hwf. apply reject_with_spec; [|done].
  intros s l' r' Hs. destruct (Hv s Hs). by apply reject_for_stack_spec.
Qed.

(** ** The filter returns *)

Lemma settles_closes st : settles rules st -> exists s, closes rules st s.
Proof.
  induction 1 as [|p rest e Hd Ht|p rest e rule Hd Ht Hr _ IH].
  - exists []. constructor.
  - exists (p :: rest). by eapply closes_terminal.
  - pose proof (wf_rule _ Hrules _ _ Hr) as Hw. destruct rule as [|e0 es0]; [done|].
    destruct (IH 0%nat (e0 :: es0)) as [s Hs]; [left|]. exists s. eapply closes_ref; [done..| |done].
    left.
Qed.

Lemma reject_for_stack_mono a a' f : forall s l r, (a <= a')%nat ->
  llama_grammar_reject_candidates_for_stack a f rules s l = Ret r ->
  llama_grammar_reject_candidates_for_stack a' f rules s l = Ret r.
Proof.
  induction f as [|f IH]; intros s l r Hle H; [done|]. simpl in *. destruct s as [|p rest]; [done|].
  apply bind_Ret in H as (e & -> & H). simpl. destruct (is_token_elem e); [done|].
  apply bind_Ret in H as ([rej next] & -> & H). simpl.
  apply bind_Ret in H as ([m after] & -> & H). simpl.
  apply bind_Ret in H as (st & -> & H). simpl.
  apply bind_Ret in H as (ns & Ha & H). rewrite (advance_mono rules a a' _ _ _ Hle Ha). simpl.
  apply bind_Ret in H as (nr & Hr & H). rewrite <- H. clear H.
  assert (reject_candidates_with (llama_grammar_reject_candidates_for_stack a' f rules) ns next
          = Ret nr) as ->; [|done].
  unfold reject_candidates_with in *. destruct ns as [|front others]; [done|].
  destruct next as [|t next]; [done|]. apply bind_Ret in Hr as (r1 & H1 & Hr).
  rewrite (IH _ _ _ Hle H1). simpl. eapply foldM_mono; [|exact Hr].
  intros b x r' Hx. by apply IH.
Qed.

Lemma reject_with_mono a a' f ns l r : (a <= a')%nat ->
  reject_candidates_with (llama_grammar_reject_candidates_for_stack a f rules) ns l = Ret r ->
  reject_candidates_with (llama_grammar_reject_candidates_for_stack a' f rules) ns l = Ret r.
Proof.
  intros Hle H. unfold reject_candidates_with in *. destruct ns as [|front others]; [done|].
  destruct l as [|t l]; [done|]. apply bind_Ret in H as (r1 & H1 & H).
  rewrite (reject_for_stack_mono a a' f _ _ _ Hle H1). cbn [mbind outcome_bind].
  eapply foldM_mono; [|exact H].
  intros b x r' Hx. exact (reject_for_stack_mono a a' f x b r' Hle Hx).
Qed.

Lemma reject_for_stack_wf a f s l r : valid_stack rules s -> ready rules s ->
  (forall tok, tok ∈ l -> wf_cand tok) ->
  llama_grammar_reject_candidates_for_stack a f rules s l = Ret r ->
  forall tok, tok ∈ r -> tok ∈ l.
Proof.
  intros Hv Hr Hwf H tok Hin. by apply (reject_for_stack_spec _ _ _ _ _ Hv Hr Hwf H) in Hin as [? _].
Qed.

Lemma reject_with_total stacks f (Q : list llama_grammar_candidate -> Prop) : stacks <> [] ->
  valid_stacks rules stacks ->
  (forall l r, (forall tok, tok ∈ r -> tok ∈ l) -> Q l -> Q r) ->
  (forall l, Q l -> forall tok, tok ∈ l -> wf_cand tok) ->
  (forall s, s ∈ stacks -> exists a, forall l, Q l ->
     exists r, llama_grammar_reject_candidates_for_stack a f rules s l = Ret r) ->
  exists a, forall l, Q l ->
    exists r, reject_candidates_with (llama_grammar_reject_candidates_for_stack a f rules) stacks l
              = Ret r.
Proof.
  intros Hne Hv Hsub Hwf Hs.
  assert (Hfold : forall others, (forall s, s ∈ others -> s ∈ stacks) -> exists a, forall l, Q l ->
     exists r, foldM (fun rejects stack =>
        llama_grammar_reject_candidates_for_stack a f rules stack rejects) l others = Ret r).
  { induction others as [|s others IH]; intros Ho.
    { exists 0%nat. intros l _. by exists l. }
    destruct IH as [a2 H2]; [intros s' Hs'; apply Ho; by right|].
    assert (Hin : s ∈ stacks) by (apply Ho; left).
    destruct (Hs s Hin) as [a1 H1]. destruct (Hv s Hin) as [Hvs Hrs].
    exists (max a1 a2). intros l HQ. destruct (H1 l HQ) as [r1 Hr1]. simpl.
    rewrite (reject_for_stack_mono a1 (max a1 a2) _ _ _ _ ltac:(lia) Hr1). simpl.
    destruct (H2 r1) as [r2 Hr2].
    { eapply Hsub; [|exact HQ].
      by apply (reject_for_stack_wf _ _ _ _ _ Hvs Hrs (Hwf _ HQ) Hr1). }
    exists r2. eapply foldM_mono; [|exact Hr2].
    intros b x r' Hx. refine (reject_for_stack_mono a2 _ f x b r' _ Hx). lia. }
  destruct (Hfold stacks) as [a Ha]; [done|]. exists a. intros l HQ.
  destruct (Ha l HQ) as [r Hr]. unfold reject_candidates_with.
  destruct stacks as [|front others]; [done|]. destruct l as [|t l]; [by eexists|].
  exists r. exact Hr.
Qed.

Definition fresh_cands (k : nat) (l : list llama_grammar_candidate) : Prop :=
  forall tok, tok ∈ l -> wf_cand tok /\ (length (cand_text tok) <= k)%nat.

Lemma sort_total p e l : valid_ptr rules p -> deref rules p = Ret e ->
  is_token_elem e = false -> is_terminal e = true ->
  forall acc, exists acc', foldM (sort_candidate rules p) acc l = Ret acc'.
Proof.
  intros Hp Hd Ht Hterm.
  destruct (top_cases rules p Hp) as (e' & Hd' & Hcase). rewrite Hd in Hd'. injection Hd' as <-.
  destruct Hcase as [(r0&rule&Ht'&_)|[(neg&id&Ht'&_)|(sy&after&_&_&_&_&Hm&_)]];
    [unfold is_terminal in Hterm; by rewrite Ht' in Hterm|congruence|].
  induction l as [|t l IH]; intros [rejects next]; simpl; [by eexists|].
  destruct (cand_chr t =? 0).
  - destruct (n_remain (c_partial t) =? 0); simpl; [apply IH|].
    destruct (match_partial_total p e (c_partial t) Hp Hd Ht Hterm) as [b ->]. simpl. apply IH.
  - rewrite Hm. simpl. apply IH.
Qed.

Lemma reject_at_token_total p e l : deref rules p = Ret e -> is_token_elem e = true ->
  forall acc, exists acc', foldM (fun rejects tok => r ← reject_at_token rules p tok;
                     Ret (if r : bool then rejects ++ [tok] else rejects)) acc l = Ret acc'.
Proof.
  intros Hd Ht.
  assert (Hone : forall t, exists b, reject_at_token rules p t = Ret b).
  { intros t. unfold reject_at_token, llama_grammar_match_token.
    destruct (cand_chr t =? 0); [by eexists|]. rewrite Hd. simpl. rewrite Ht. simpl.
    destruct (type_is _ e); simpl; [by eexists|]. destruct (type_is _ e); simpl; by eexists. }
  induction l as [|t l IH]; intros acc; simpl; [by eexists|].
  destruct (Hone t) as [b ->]. simpl. apply IH.
Qed.

Lemma reject_for_stack_total : no_left_recursion rules -> forall k s,
  valid_stack rules s -> ready rules s -> exists a, forall l, fresh_cands k l ->
  exists r, llama_grammar_reject_candidates_for_stack a (S k) rules s l = Ret r.
Proof.
  intros Hnl k. induction k as [|k IH]; intros s Hv Hready.
  all: destruct s as [|p rest]; [exists 0%nat; intros l _; simpl; by eexists|].
  all: pose proof Hv as Hv'; apply Forall_cons in Hv' as [Hp Hrest].
  all: destruct (top_cases rules p Hp) as (e & Hd & Hcase).
  all: destruct Hready as (e' & Hd' & Hterm); rewrite Hd in Hd'; injection Hd' as <-.
  all: destruct (is_token_elem e) eqn:Ht;
    [exists 0%nat; intros l _; cbn [llama_grammar_reject_candidates_for_stack];
     rewrite Hd; simpl; rewrite Ht; by eapply reject_at_token_total|].
  all: destruct Hcase as [(r0&rule&Ht'&_)|[(neg&id&Ht'&_)|(sy&after&_&_&Hb&_&Hm&_)]];
    [unfold is_terminal in Hterm; by rewrite Ht' in Hterm|congruence|].
  all: set (st' := after_stack rules after rest).
  all: assert (Hv' : valid_stack rules st') by (by apply after_stack_syms).
  all: destruct (advance_enough rules Hrules Hnl st' Hv') as [a1 Ha1];
    destruct (Ha1 []) as [ns Hns]; clear Ha1.
  all: pose proof (advance_spec rules Hrules _ _ _ _ Hv' Hns) as Hspec.
  all: assert (Hne : ns <> []) by
    (destruct (settles_closes st' (settles_all rules Hrules Hnl st' Hv')) as [s Hs];
     intros ->; assert (s ∈ @nil llama_grammar_stack) as Hc by (apply Hspec; by right);
     by apply not_elem_of_nil in Hc).
  all: assert (Hvns : valid_stacks rules ns) by
    (intros s Hs; apply Hspec in Hs as [Hs|Hs];
     [by apply not_elem_of_nil in Hs|by apply (closes_valid rules Hrules _ _ Hs)]).
  - exists a1. intros l Hl. cbn [llama_grammar_reject_candidates_for_stack].
    rewrite Hd. simpl. rewrite Ht.
    destruct (sort_total p e l Hp Hd Ht Hterm ([], [])) as [[rej next] Hsort].
    rewrite Hsort. simpl. rewrite Hm. simpl. rewrite pop_to_after by done. simpl.
    fold st'. rewrite Hns. simpl.
    assert (next = []) as ->.
    { assert (Hwf : forall tok, tok ∈ l -> wf_cand tok) by (intros t Hin; by apply Hl).
      destruct (sort_candidates_spec p l Hwf sy after Hm _ _ _ _ Hsort) as [_ HN].
      destruct next as [|t next]; [done|].
      destruct (proj1 (HN t) (list_elem_of_here _ _)) as [Hin|(t' & Hin & -> & Hc & _)];
        [by apply not_elem_of_nil in Hin|].
      destruct (Hl t' Hin) as [Hw Hlen].
      destruct (cand_cases t' Hw) as [[? _]|(_ & Htxt & _)]; [done|].
      rewrite Htxt in Hlen. simpl in Hlen. lia. }
    destruct ns; [done|]. simpl. by eexists.
  - destruct (reject_with_total ns (S k) (fresh_cands k) Hne Hvns) as [a2 Ha2].
    + intros l r Hsub HQ t Hin. apply HQ. by apply Hsub.
    + intros l HQ t Hin. by apply HQ.
    + intros s Hs. destruct (Hvns s Hs). by apply IH.
    + exists (max a1 a2). intros l Hl. cbn [llama_grammar_reject_candidates_for_stack].
      rewrite Hd. cbn [mbind outcome_bind]. rewrite Ht.
      destruct (sort_total p e l Hp Hd Ht Hterm ([], [])) as [[rej next] Hsort].
      rewrite Hsort. cbn [mbind outcome_bind]. rewrite Hm. cbn [mbind outcome_bind].
      rewrite pop_to_after by done. cbn [mbind outcome_bind]. fold st'.
      rewrite (advance_mono rules a1 (max a1 a2) _ _ _ ltac:(lia) Hns). cbn [mbind outcome_bind].
      assert (Hnext : fresh_cands k next).
      { assert (Hwf : forall tok, tok ∈ l -> wf_cand tok) by (intros t Hin; by apply Hl).
        destruct (sort_candidates_spec p l Hwf sy after Hm _ _ _ _ Hsort) as [_ HN].
        intros t Ht'. apply HN in Ht' as [Hin|(t' & Hin & -> & Hc & _)];
          [by apply not_elem_of_nil in Hin|].
        destruct (Hl t' Hin) as [Hw Hlen].
        destruct (cand_cases t' Hw) as [[? _]|(_ & Htxt & Hw')]; [done|]. split; [done|].
        rewrite Htxt in Hlen. simpl in Hlen. lia. }
      destruct (Ha2 next Hnext) as [r Hr].
      assert (Hr' : reject_candidates_with
                (llama_grammar_reject_candidates_for_stack (max a1 a2) (S k) rules) ns next = Ret r)
        by (eapply reject_with_mono; [|exact Hr]; lia).
      change (exists r0, (nr ← reject_candidates_with
          (llama_grammar_reject_candidates_for_stack (max a1 a2) (S k) rules) ns next;
        Ret (rej ++ map cand_prev nr)) = Ret r0).
      rewrite Hr'. simpl. by eexists.
Qed.

Lemma reject_total k sts : no_left_recursion rules -> valid_stacks rules sts -> sts <> [] ->
  exists a, forall l, fresh_cands k l ->
    exists r, llama_grammar_reject_candidates a (S k) rules sts l = Ret r.
Proof.
  intros Hnl Hv Hne. apply (reject_with_total sts (S k) (fresh_cands k)); [done|done|..].
  - intros l r Hsub HQ t Hin. apply HQ. by apply Hsub.
  - intros l HQ t Hin. by apply HQ.
  - intros s Hs. destruct (Hv s Hs). by apply reject_for_stack_total.
Qed.

(** ** The filter against acceptance *)

Context (Htok : token_free rules).

Lemma token_free_deref p e : deref rules p = Ret e -> is_token_elem e = false.
Proof.
  intros H. unfold deref in H. apply bind_Ret in H as (r & Hr & He).
  apply at_Ret in Hr, He. eapply Htok; [exact Hr|]. by eapply list_elem_of_lookup_2.
Qed.

(** Without token elements a complete candidate fits where its text runs. *)
Lemma fits_runs partial id s w : n_remain partial = 0 ->
  fits partial id s w <-> exists s', runs rules s w s'.
Proof.
  intros H0. split.
  - induction 1 as [s|p rest e c w Hd Ht _|p rest e Hd _ _|s c s' w Hs _ IH].
    + exists s. constructor.
    + by rewrite (token_free_deref _ _ Hd) in Ht.
    + exists (p :: rest). constructor.
    + destruct IH as [s2 ?]. exists s2. by econstructor.
  - intros [s' H]. induction H as [s|s c s1 w s' Hs _ IH]; [by constructor|].
    by eapply fits_step.
Qed.

Lemma reject_accept afuel fuel f sts l r tok sts' : valid_stacks rules sts ->
  (forall tok, tok ∈ l -> wf_cand tok) ->
  llama_grammar_reject_candidates afuel fuel rules sts l = Ret r ->
  tok ∈ l -> n_remain (c_partial tok) = 0 ->
  foldM (accept_stacks f rules) sts (cand_text tok) = Ret sts' ->
  tok ∈ r <-> sts' = [].
Proof.
  intros Hv Hwf Hrej Hin H0 Hacc.
  rewrite (reject_stacks_spec _ _ _ _ _ Hv Hwf Hrej).
  pose proof (accept_text_spec rules Hrules _ _ _ _ Hv Hacc) as Hspec.
  split.
  - intros [_ Hno]. destruct sts' as [|s sts']; [done|]. exfalso.
    destruct (proj1 (Hspec s) (list_elem_of_here _ _)) as (st & Hst & Hrun).
    apply (Hno st Hst). apply fits_runs; eauto.
  - intros ->. split; [done|]. intros s Hs Hfit. apply fits_runs in Hfit as [s' Hrun]; [|done].
    assert (s' ∈ @nil llama_grammar_stack) as Hc by (apply Hspec; eauto).
    by apply not_elem_of_nil in Hc.
Qed.

End Filter.
