(* ===== verification/GrammarParserFacts.v ===== *)
(** * The GBNF parser returns well-formed rules.

    A weakest-precondition calculus for the parser's monad, in which an
    exception is allowed but undefined behaviour and running out of fuel are
    not; the invariant of the parser object; and one specification per parsing
    function: what it appends, and that it does not move backwards. *)

From S2P Require Import Prelude Utf8 Grammar GrammarParser GrammarLang.
From Stdlib Require Import Lia.
Import GrammarUtf8.

(** ** Postconditions *)

Definition owp {A} (o : outcome A) (Q : A -> Prop) : Prop :=
  match o with Ret a => Q a | Throw _ => True | _ => False end.

Definition wp {A} (m : P A) (Q : A -> llama_grammar_parser -> Prop) (st : llama_grammar_parser)
    : Prop :=
  match m st with (Ret a, st') => Q a st' | (Throw _, _) => True | _ => False end.

Lemma owp_bind {A B} (m : outcome A) (k : A -> outcome B) Q :
  owp m (fun a => owp (k a) Q) -> owp (m ≫= k) Q.
Proof. by destruct m. Qed.

Lemma owp_mono {A} (m : outcome A) (Q Q' : A -> Prop) :
  owp m Q -> (forall a, Q a -> Q' a) -> owp m Q'.
Proof. destruct m; simpl; auto. Qed.

Lemma wp_bind {A B} (m : P A) (k : A -> P B) Q st :
  wp m (fun a st' => wp (k a) Q st') st -> wp (m ≫= k) Q st.
Proof. unfold wp, mbind, P_bind. destruct (m st) as [[] ?]; done. Qed.

Lemma wp_mono {A} (m : P A) (Q Q' : A -> llama_grammar_parser -> Prop) st :
  wp m Q st -> (forall a st', Q a st' -> Q' a st') -> wp m Q' st.
Proof. unfold wp. destruct (m st) as [[] ?]; auto. Qed.

Lemma wp_lift {A} (o : outcome A) (Q : A -> llama_grammar_parser -> Prop) st :
  owp o (fun a => Q a st) -> wp (lift o) Q st.
Proof. by destruct o. Qed.

Lemma wp_ret {A} (a : A) (Q : A -> llama_grammar_parser -> Prop) st :
  Q a st -> wp (mret a) Q st.
Proof. done. Qed.

Lemma wp_throw {A} msg (Q : A -> llama_grammar_parser -> Prop) st : wp (throw msg) Q st.
Proof. done. Qed.

#[local] Hint Resolve wp_throw : core.

(** ** Lexical functions *)

Lemma drop_1_lt (pos : cstr) : chr_at pos 0 <> 0 -> (length (drop 1 pos) < length pos)%nat.
Proof. rewrite length_drop. destruct pos; simpl; [done|lia]. Qed.

Lemma drop_2_lt (pos : cstr) : chr_at pos 0 <> 0 -> (length (drop 2 pos) < length pos)%nat.
Proof. rewrite length_drop. destruct pos; simpl; [done|lia]. Qed.

Lemma parse_space_length pos b : (length (parse_space pos b) <= length pos)%nat.
Proof.
  unfold parse_space. generalize false as c. induction pos as [|x pos IH]; intros c; simpl; [done|].
  pose proof (IH true). pose proof (IH (x =? ch "#")).
  repeat match goal with |- context [if ?b then _ else _] => destruct b end; simpl; lia.
Qed.

Lemma span_length p pos l r : span p pos = (l, r) -> pos = l ++ r /\ Forall (fun c => p c = true) l.
Proof.
  revert l r. induction pos as [|c pos IH]; intros l r H; simpl in H; [by injection H as <- <-|].
  destruct (p c) eqn:Ep; [|by injection H as <- <-].
  destruct (span p pos) as [l' r'] eqn:E. injection H as <- <-.
  destruct (IH _ _ eq_refl) as [-> Hl]. split; [done|by constructor].
Qed.

Lemma parse_hex_owp size : forall pos v,
  owp (parse_hex pos size v) (fun r => (length r.2 <= length pos)%nat).
Proof.
  induction size as [|size IH]; intros [|c pos] v; simpl; try lia; try done. destruct (c =? 0); [done|].
  destruct (hex_digit c); [|done]. eapply owp_mono; [apply IH|]. simpl. lia.
Qed.

Lemma decode_rest_length k : forall v pos, (length (decode_rest k v pos).2 <= length pos)%nat.
Proof.
  induction k as [|k IH]; intros v [|b pos]; simpl; try lia.
  destruct (b =? 0); simpl; [lia|]. pose proof (IH (u32 (u32 (Z.shiftl v 6) + Z.land b 0x3F)) pos).
  lia.
Qed.

Lemma parse_char_owp pos : owp (parse_char pos) (fun r => (length r.2 < length pos)%nat).
Proof.
  unfold parse_char. destruct (chr_at pos 0 =? ch "\") eqn:E; bool_hyps.
  - assert (Hne : chr_at pos 0 <> 0) by (rewrite E; done).
    pose proof (drop_2_lt _ Hne).
    assert (Hhex : forall k, owp (parse_hex (drop 2 pos) k 0) (fun r => (length r.2 < length pos)%nat)).
    { intros k. eapply owp_mono; [apply parse_hex_owp|]. simpl. lia. }
    repeat (destruct (_ =? _); [simpl; by auto|]).
    destruct (_ || _); simpl; auto.
  - destruct (chr_at pos 0 =? 0) eqn:E0; bool_hyps; [done|]. simpl.
    unfold decode_utf8_char. eapply Nat.le_lt_trans; [apply decode_rest_length|].
    by apply drop_1_lt.
Qed.

Lemma parse_name_owp pos : owp (parse_name pos) (fun r =>
  (length r.2 < length pos)%nat /\ Forall (fun c => is_word_char c = true) r.1).
Proof.
  unfold parse_name. destruct (span is_word_char pos) as [l r] eqn:E.
  apply span_length in E as [-> Hl]. destruct l as [|c l]; [done|]. simpl.
  rewrite length_app. split; [lia|done].
Qed.

Lemma parse_int_owp pos : owp (parse_int pos) (fun r => (length r.2 < length pos)%nat).
Proof.
  unfold parse_int. destruct (span is_digit_char pos) as [l r] eqn:E.
  apply span_length in E as [-> Hl]. destruct l as [|c l]; [done|]. simpl.
  rewrite length_app. lia.
Qed.

Lemma stoul_owp s : owp (stoul s) (fun v => v < 2 ^ 64).
Proof. unfold stoul. destruct (_ <? _) eqn:E; bool_hyps; simpl; [lia|done]. Qed.

Lemma parse_token_owp vocab pos : owp (parse_token vocab pos) (fun r => (length r.2 < length pos)%nat).
Proof.
  unfold parse_token. destruct (chr_at pos 0 =? ch "<") eqn:E; bool_hyps; [|done]. simpl.
  assert (Hne : chr_at pos 0 <> 0) by (by rewrite E). pose proof (drop_1_lt _ Hne) as H1.
  destruct (chr_at (drop 1 pos) 0 =? ch "[") eqn:E1; bool_hyps.
  - apply owp_bind. eapply owp_mono; [apply parse_int_owp|]. intros [digits int_end] Hl. simpl in Hl.
    apply owp_bind. eapply owp_mono; [apply stoul_owp|]. intros v _.
    destruct (negb _); [done|]. destruct (negb _); [done|]. simpl.
    rewrite !length_drop in *. lia.
  - destruct vocab as [tokenize|]; [|done].
    destruct (span _ (drop 1 pos)) as [name pos'] eqn:Es.
    apply span_length in Es as [Es _]. destruct (negb _); [done|].
    destruct (tokenize _) as [|t [|]]; [done| |done]. simpl.
    rewrite Es in H1. rewrite length_app in H1. rewrite length_drop. lia.
Qed.

Lemma parse_bounds_owp pos nested : owp (parse_bounds pos nested) (fun r =>
  (length r.2 < length pos)%nat).
Proof.
  unfold parse_bounds. pose proof (parse_space_length pos nested) as H0.
  destruct (negb _); [done|]. apply owp_bind. eapply owp_mono; [apply parse_int_owp|].
  intros [digits int_end] Hl. simpl in Hl. apply owp_bind.
  eapply owp_mono; [apply stoul_owp|]. intros lo _.
  set (pos1 := parse_space int_end nested).
  assert (H1 : (length pos1 <= length int_end)%nat) by apply parse_space_length.
  apply owp_bind.
  assert (Hd : forall p, (length (parse_space (drop 1 p) nested) <= length p)%nat).
  { intros p. etransitivity; [apply parse_space_length|]. rewrite length_drop. lia. }
  apply owp_mono with (Q := fun r : Z * cstr => (length r.2 <= length pos1)%nat).
  { destruct (_ =? _); [simpl; apply Hd|]. destruct (_ =? _); [|done].
    set (pos2 := parse_space (drop 1 pos1) nested).
    assert (H2 : (length pos2 <= length pos1)%nat) by apply Hd.
    apply owp_bind. apply owp_mono with (Q := fun r : Z * cstr => (length r.2 <= length pos1)%nat).
    - destruct (is_digit_char _); [|done]. apply owp_bind.
      eapply owp_mono; [apply parse_int_owp|]. intros [d2 e2] Hl2. simpl in Hl2.
      apply owp_bind. eapply owp_mono; [apply stoul_owp|]. intros hi _. simpl.
      etransitivity; [apply parse_space_length|]. lia.
    - intros [hi p3] Hp3. simpl in Hp3. destruct (negb _); [done|]. simpl.
      etransitivity; [apply Hd|]. lia. }
  intros [hi p3] Hp3. simpl in Hp3. destruct (_ || _); [done|]. simpl. lia.
Qed.

(** ** Decimal printing is injective *)

Lemma dec_digits_acc f : forall z acc, dec_digits f z acc = dec_digits f z [] ++ acc.
Proof.
  induction f as [|f IH]; intros z acc; simpl; [done|]. destruct (z / 10 =? 0); [done|].
  rewrite (IH _ (_ :: acc)), (IH _ [_]), <- app_assoc. done.
Qed.

Lemma dec_value_snoc l c : dec_value (l ++ [c]) = 10 * dec_value l + (c - 48).
Proof. unfold dec_value. by rewrite foldl_app. Qed.

Lemma dec_value_digits f : forall z, 0 <= z < 10 ^ Z.of_nat f -> dec_value (dec_digits f z []) = z.
Proof.
  induction f as [|f IH]; intros z Hz; [simpl in *; unfold dec_value; simpl; lia|].
  cbn [dec_digits].
  assert (Hdm : z = 10 * (z / 10) + z mod 10) by (apply Z.div_mod; lia).
  destruct (z / 10 =? 0) eqn:E; bool_hyps.
  - unfold dec_value. cbn [foldl]. lia.
  - rewrite dec_digits_acc, dec_value_snoc, IH; [lia|].
    rewrite Nat2Z.inj_succ, Z.pow_succ_r in Hz by lia.
    split; [apply Z.div_pos; lia|]. apply Z.div_lt_upper_bound; lia.
Qed.

Lemma to_string_inj a b : 0 <= a < 2 ^ 64 -> 0 <= b < 2 ^ 64 -> to_string a = to_string b -> a = b.
Proof.
  intros Ha Hb H. unfold to_string in H.
  rewrite <- (dec_value_digits 20 a), <- (dec_value_digits 20 b), H; [done|lia..].
Qed.

Lemma dec_digits_chars f : forall z acc, Forall (fun c => 48 <= c <= 57) acc ->
  Forall (fun c => 48 <= c <= 57) (dec_digits f z acc).
Proof.
  induction f as [|f IH]; intros z acc Ha; simpl; [done|].
  assert (0 <= z mod 10 < 10) by (apply Z.mod_pos_bound; lia).
  destruct (z / 10 =? 0); [|apply IH]; constructor; auto; lia.
Qed.

(** ** Element sequences under construction *)

Definition the_end : llama_grammar_element := mk_elem LLAMA_GRETYPE_END 0.

Section Parser.
(** A bound on rule ids; [get_symbol_id] returns 32-bit values. *)
Context (N : nat) (HN : 2 ^ 32 <= Z.of_nat N).
Context `{Mem : Allocator}.

(** [rule] is a complete sequence of symbols and alternates. *)
Definition seq_ok (rule : llama_grammar_rule) : Prop :=
  wf_elems N MBoundary (rule ++ [the_end]) = true.

Lemma wf_weaken es m : wf_elems N MBoundary es = true -> wf_elems N m es = true.
Proof. destruct es as [|e es]; [done|]. simpl. by destruct (el_type e), m. Qed.

Lemma wf_app a b : forall m, wf_elems N m (a ++ [the_end]) = true ->
  wf_elems N MBoundary b = true -> wf_elems N m (a ++ b) = true.
Proof.
  induction a as [|e a IH]; intros m Ha Hb; [by apply wf_weaken|].
  simpl in *. destruct (el_type e); auto.
  - by destruct a.
  - bool_hyps. apply andb_true_iff. split; [|auto]. apply andb_true_iff. split; [lia|done].
  - destruct m; auto; discriminate.
  - destruct m; auto; discriminate.
Qed.

Lemma seq_ok_app a b : seq_ok a -> seq_ok b -> seq_ok (a ++ b).
Proof. unfold seq_ok. intros Ha Hb. rewrite <- app_assoc. by apply wf_app. Qed.

Lemma seq_ok_nil : seq_ok [].
Proof. done. Qed.

Lemma seq_ok_plain t v :
  match t with
  | LLAMA_GRETYPE_CHAR | LLAMA_GRETYPE_CHAR_NOT | LLAMA_GRETYPE_CHAR_ANY | LLAMA_GRETYPE_ALT
  | LLAMA_GRETYPE_TOKEN | LLAMA_GRETYPE_TOKEN_NOT => true
  | _ => false
  end = true -> seq_ok [mk_elem t v].
Proof. by destruct t. Qed.

Lemma seq_ok_ref v : 0 <= v < 2 ^ 32 -> seq_ok [mk_elem LLAMA_GRETYPE_RULE_REF v].
Proof.
  intros Hv. unfold seq_ok. simpl. rewrite !andb_true_iff, Nat.ltb_lt. split_and!; [lia..|done].
Qed.

Lemma seq_ok_rep k a : seq_ok a -> seq_ok (concat (replicate k a)).
Proof. intros Ha. induction k; simpl; [apply seq_ok_nil|by apply seq_ok_app]. Qed.

(** The elements of a character class after its first one. *)
Definition is_class_elem (e : llama_grammar_element) : Prop :=
  el_type e = LLAMA_GRETYPE_CHAR_ALT \/ el_type e = LLAMA_GRETYPE_CHAR_RNG_UPPER.

Lemma wf_class_app rest b : forall m, Forall is_class_elem rest ->
  wf_elems N m (rest ++ [the_end]) = true -> m <> MBoundary ->
  (forall m', m' <> MBoundary -> wf_elems N m' b = true) -> wf_elems N m (rest ++ b) = true.
Proof.
  induction rest as [|e rest IH]; intros m Hc Hw Hm Hb; [by apply Hb|].
  apply Forall_cons in Hc as [[He|He] Hc]; simpl in *; rewrite He in *.
  - destruct m; [done|by apply IH..].
  - destruct m; try done. by apply IH.
Qed.

(** A character class under construction. *)
Definition class_ok (cls : llama_grammar_rule) : Prop :=
  seq_ok cls /\ (cls = [] \/ exists e rest, cls = e :: rest /\ Forall is_class_elem rest
    /\ (el_type e = LLAMA_GRETYPE_CHAR \/ el_type e = LLAMA_GRETYPE_CHAR_NOT)).

Lemma class_ok_add cls t b :
  class_ok cls -> Forall is_class_elem b ->
  (t = LLAMA_GRETYPE_CHAR \/ t = LLAMA_GRETYPE_CHAR_NOT) ->
  wf_elems N MChar (b ++ [the_end]) = true ->
  forall v, class_ok (cls ++ mk_elem (if (0 <? length cls)%nat then LLAMA_GRETYPE_CHAR_ALT else t) v :: b).
Proof.
  intros [Hs Hc] Hb Ht Hw v. destruct Hc as [->|(e & rest & -> & Hrest & He)].
  - split; [unfold seq_ok; simpl; by destruct Ht as [-> | ->]|]. right. by eexists _, b.
  - split.
    + unfold seq_ok in *. simpl in *.
      assert (Hcls : wf_elems N MChar (rest ++ (mk_elem LLAMA_GRETYPE_CHAR_ALT v :: b) ++ [the_end])
                     = true).
      { apply wf_class_app; [done| |done|].
        - by destruct He as [He|He]; rewrite He in Hs.
        - intros [] Hm; simpl; done. }
      rewrite <- app_assoc. by destruct He as [He|He]; rewrite He.
    + right. simpl. eexists e, _. split_and!; [done| |done].
      apply Forall_app. split; [done|]. constructor; [by left|done].
Qed.

Lemma class_loop_owp fuel : forall t last pos rule pre cls,
  (length pos < fuel)%nat -> (t = LLAMA_GRETYPE_CHAR \/ t = LLAMA_GRETYPE_CHAR_NOT) ->
  last = length pre -> rule = pre ++ cls -> class_ok cls ->
  owp (class_loop fuel t last pos rule) (fun r =>
    (exists cls', r.1 = pre ++ cls' /\ class_ok cls') /\ (length r.2 <= length pos)%nat
    /\ chr_at r.2 0 <> 0).
Proof.
  induction fuel as [|fuel IH]; intros t last pos rule pre cls Hf Ht -> -> Hcls; [lia|]. simpl.
  destruct (chr_at pos 0 =? ch "]") eqn:E; bool_hyps.
  { simpl. rewrite E. split_and!; [by eexists|lia|done]. }
  destruct (chr_at pos 0 =? 0); [done|].
  apply owp_bind. eapply owp_mono; [apply parse_char_owp|]. intros [c p1] Hp1. simpl in Hp1.
  assert (Htype : (if (length pre <? length (pre ++ cls))%nat then LLAMA_GRETYPE_CHAR_ALT else t)
                  = if (0 <? length cls)%nat then LLAMA_GRETYPE_CHAR_ALT else t).
  { rewrite length_app. destruct cls; simpl.
    - by rewrite Nat.add_0_r, Nat.ltb_irrefl.
    - rewrite (proj2 (Nat.ltb_lt _ _)) by lia. done. }
  rewrite Htype, <- app_assoc.
  destruct (_ && _).
  - destruct (_ =? 0); [done|]. apply owp_bind. eapply owp_mono; [apply parse_char_owp|].
    intros [e p2] Hp2. simpl in Hp2. rewrite length_drop in Hp2.
    rewrite <- app_assoc. eapply owp_mono; [eapply IH; [|done|done|done|]|].
    + lia.
    + rewrite <- app_assoc. simpl. apply class_ok_add; [done| |done|done].
      constructor; [by right|constructor].
    + simpl. intros r (? & ? & ?). split_and!; [done|lia|done].
  - eapply owp_mono; [eapply IH; [|done|done|done|]|].
    + lia.
    + apply class_ok_add; [done|constructor|done|done].
    + simpl. intros r (? & ? & ?). split_and!; [done|lia|done].
Qed.

Lemma literal_loop_owp fuel : forall pos rule,
  (length pos < fuel)%nat ->
  owp (literal_loop fuel pos rule) (fun r =>
    (exists b, r.1 = rule ++ b /\ seq_ok b /\ Forall (fun e => el_type e = LLAMA_GRETYPE_CHAR) b)
    /\ (length r.2 <= length pos)%nat /\ chr_at r.2 0 <> 0).
Proof.
  induction fuel as [|fuel IH]; intros pos rule Hf; [lia|]. simpl.
  destruct (chr_at pos 0 =? 34) eqn:E; bool_hyps.
  { simpl. rewrite E. split_and!; [|lia|done]. exists []. by rewrite app_nil_r. }
  destruct (chr_at pos 0 =? 0); [done|].
  apply owp_bind. eapply owp_mono; [apply parse_char_owp|]. intros [c p1] Hp1. simpl in Hp1.
  eapply owp_mono; [apply IH; lia|].
  intros r ((b & Hb & Hs & Hch) & Hl & Hz). split_and!; [|lia|done].
  exists (mk_elem LLAMA_GRETYPE_CHAR c :: b). rewrite Hb, <- app_assoc. split_and!; [done| |by constructor].
  change (mk_elem LLAMA_GRETYPE_CHAR c :: b) with ([mk_elem LLAMA_GRETYPE_CHAR c] ++ b).
  apply seq_ok_app; [by apply seq_ok_plain|done].
Qed.

(** ** The parser object *)

(** Names given in the source have no underscore; generated names end in one
    and the id they name. *)
Definition no_us (name : list Z) : Prop := Forall (fun c => c <> ch "_") name.

Definition known (st : llama_grammar_parser) (v : Z) : Prop :=
  exists name, symbol_ids st !! name = Some v.

Definition refs_known (st : llama_grammar_parser) (rule : llama_grammar_rule) : Prop :=
  Forall (fun e => el_type e = LLAMA_GRETYPE_RULE_REF -> known st (el_value e)) rule.

Record inv (st : llama_grammar_parser) : Prop := {
  inv_range name id : symbol_ids st !! name = Some id -> 0 <= id < 2 ^ 32;
  inv_names name id : symbol_ids st !! name = Some id ->
    no_us name \/ exists base, no_us base /\ name = base ++ [ch "_"] ++ to_string id;
  inv_rules : Forall (fun rule => rule = [] \/ (wf_elems N MBoundary rule = true
                                                 /\ refs_known st rule)) (p_rules st);
}.

Definition grows (st st' : llama_grammar_parser) : Prop :=
  forall name id, symbol_ids st !! name = Some id -> symbol_ids st' !! name = Some id.

Lemma grows_refl st : grows st st.
Proof. by intros name id. Qed.

Lemma grows_trans st1 st2 st3 : grows st1 st2 -> grows st2 st3 -> grows st1 st3.
Proof. intros H1 H2 name id H. auto. Qed.

Lemma known_grows st st' v : grows st st' -> known st v -> known st' v.
Proof. intros Hg [name H]. exists name. auto. Qed.

Lemma refs_known_grows st st' rule : grows st st' -> refs_known st rule -> refs_known st' rule.
Proof.
  intros Hg H. eapply Forall_impl; [exact H|]. intros e He T. eapply known_grows; [exact Hg|auto].
Qed.

(** A step of the parser: it keeps the invariant and the symbols. *)
Definition spec {A} (m : P A) (Q : A -> llama_grammar_parser -> Prop) (st : llama_grammar_parser)
    : Prop :=
  inv st -> wp m (fun a st' => inv st' /\ grows st st' /\ Q a st') st.

Lemma spec_bind {A B} (m : P A) (k : A -> P B) Q R st :
  spec m Q st -> (forall a st', grows st st' -> Q a st' -> spec (k a) R st') ->
  spec (m ≫= k) R st.
Proof.
  intros Hm Hk Hi. apply wp_bind. eapply wp_mono; [by apply Hm|].
  intros a st' (Hi' & Hg & HQ). eapply wp_mono; [by apply (Hk a st' Hg HQ)|].
  intros b st2 (Hi2 & Hg2 & HR). split_and!; [done|by eapply grows_trans|done].
Qed.

Lemma spec_mono {A} (m : P A) (Q Q' : A -> llama_grammar_parser -> Prop) st :
  spec m Q st -> (forall a st', grows st st' -> Q a st' -> Q' a st') -> spec m Q' st.
Proof.
  intros Hm HQ Hi. eapply wp_mono; [by apply Hm|]. intros a st' (? & ? & ?). auto.
Qed.

Lemma spec_lift {A} (o : outcome A) (Q : A -> llama_grammar_parser -> Prop) st :
  owp o (fun a => Q a st) -> spec (lift o) Q st.
Proof.
  intros Ho Hi. apply wp_lift. eapply owp_mono; [exact Ho|]. intros a Ha.
  split_and!; [done|apply grows_refl|done].
Qed.

Lemma spec_lift_bind {A B} (o : outcome A) (k : A -> P B) (Q : A -> Prop) R st :
  owp o Q -> (forall a st', grows st st' -> Q a -> spec (k a) R st') ->
  spec (lift o ≫= k) R st.
Proof.
  intros Ho Hk. apply (spec_bind _ _ (fun a _ => Q a)); [by apply spec_lift|auto].
Qed.

Lemma spec_ret {A} (a : A) (Q : A -> llama_grammar_parser -> Prop) st :
  Q a st -> spec (mret a) Q st.
Proof. intros HQ Hi. apply wp_ret. split_and!; [done|apply grows_refl|done]. Qed.

Lemma spec_throw {A} msg (Q : A -> llama_grammar_parser -> Prop) st : spec (throw msg) Q st.
Proof. intros _. apply wp_throw. Qed.

Lemma no_us_split base base' d d' : no_us base -> no_us base' ->
  base ++ [ch "_"] ++ d = base' ++ [ch "_"] ++ d' -> base = base' /\ d = d'.
Proof.
  intros Hb. revert base'. induction base as [|c base IH]; intros [|c' base'] Hb' H; simpl in H.
  - by injection H as ->.
  - apply Forall_cons in Hb' as [Hc _]. injection H as <- _. done.
  - apply Forall_cons in Hb as [Hc _]. injection H as -> _. done.
  - apply Forall_cons in Hb as [_ Hb]. apply Forall_cons in Hb' as [_ Hb'].
    injection H as -> H. by destruct (IH Hb _ Hb' H) as [-> ->].
Qed.

Lemma word_no_us name : Forall (fun c => is_word_char c = true) name -> no_us name.
Proof. intros H. eapply Forall_impl; [exact H|]. intros c Hc ->. by vm_compute in Hc. Qed.

(** Adding a symbol under a name that does not take another id. *)
Lemma insert_symbol_spec st name id : inv st -> 0 <= id < 2 ^ 32 ->
  (no_us name \/ exists base, no_us base /\ name = base ++ [ch "_"] ++ to_string id) ->
  (forall id', symbol_ids st !! name = Some id' -> id' = id) ->
  inv (mk_parser (<[name := id]> (symbol_ids st)) (p_rules st))
  /\ grows st (mk_parser (<[name := id]> (symbol_ids st)) (p_rules st))
  /\ known (mk_parser (<[name := id]> (symbol_ids st)) (p_rules st)) id.
Proof.
  intros [I1 I2 I3] Hid Hname Hold.
  set (st' := mk_parser (<[name := id]> (symbol_ids st)) (p_rules st)).
  assert (Hg : grows st st').
  { intros name' id' H. simpl. destruct (decide (name' = name)) as [->|Hne].
    - rewrite lookup_insert_eq. by rewrite (Hold _ H).
    - by rewrite lookup_insert_ne. }
  split_and!; [constructor|done|exists name; apply lookup_insert_eq].
  - intros name' id'. simpl. destruct (decide (name' = name)) as [->|Hne].
    + rewrite lookup_insert_eq. by intros [= <-].
    + rewrite lookup_insert_ne by done. apply I1.
  - intros name' id'. simpl. destruct (decide (name' = name)) as [->|Hne].
    + rewrite lookup_insert_eq. by intros [= <-].
    + rewrite lookup_insert_ne by done. apply I2.
  - simpl. eapply Forall_impl; [exact I3|]. intros rule [->|[Hw Hr]]; [by left|right].
    split; [done|]. by eapply refs_known_grows.
Qed.

Definition good_id (id : Z) (st : llama_grammar_parser) : Prop :=
  known st id /\ 0 <= id < 2 ^ 32.

Lemma good_id_grows st st' id : grows st st' -> good_id id st -> good_id id st'.
Proof. intros Hg [Hk Hr]. split; [by eapply known_grows|done]. Qed.

Lemma get_symbol_id_spec name st : no_us name -> spec (get_symbol_id name) good_id st.
Proof.
  intros Hn Hi. unfold get_symbol_id, wp. destruct (symbol_ids st !! name) as [id|] eqn:E.
  - split; [done|]. split; [apply grows_refl|]. split; [by exists name|]. by eapply inv_range.
  - pose proof (u32_range (Z.of_nat (size (symbol_ids st)))) as Hr.
    destruct (insert_symbol_spec st name _ Hi Hr (or_introl Hn)) as (? & ? & ?);
      [congruence|]. split; [done|]. by split.
Qed.

Lemma generate_symbol_id_spec base st : no_us base -> spec (generate_symbol_id base) good_id st.
Proof.
  intros Hn Hi. unfold generate_symbol_id, wp.
  pose proof (u32_range (Z.of_nat (size (symbol_ids st)))) as Hr.
  set (id := u32 _) in *. set (name := base ++ [ch "_"] ++ to_string id).
  destruct (insert_symbol_spec st name id Hi Hr) as (? & ? & ?).
  - right. by exists base.
  - intros id' H. pose proof (inv_range _ Hi _ _ H) as Hr'.
    destruct (inv_names _ Hi _ _ H) as [Hus|(base' & Hb' & E)].
    + exfalso. unfold no_us, name in Hus. apply Forall_app in Hus as [_ Hus].
      by apply Forall_cons in Hus as [Hus _].
    + apply no_us_split in E as [_ E]; [|done..]. symmetry. apply to_string_inj; [lia..|done].
  - split; [done|]. by split.
Qed.

Lemma allocate_spec k st : spec (allocate k) (fun _ _ => True) st.
Proof.
  intros Hi. unfold allocate, wp. destruct (can_grow _ _); [|done]. split_and!; [done| |done]. by intros ? ?.
Qed.

Lemma put_rule_spec i rule st : wf_elems N MBoundary rule = true -> refs_known st rule ->
  spec (put_rule i rule) (fun _ _ => True) st.
Proof.
  intros Hw Hr Hi. unfold put_rule, wp. split_and!; [|by intros ? ?|done].
  destruct Hi as [I1 I2 I3]. constructor; simpl; [done..|].
  apply Forall_insert; [|right; done].
  destruct (_ <=? _)%nat; [|done]. apply Forall_app. split; [done|].
  apply Forall_replicate. by left.
Qed.

Lemma refs_known_app st a b : refs_known st (a ++ b) <-> refs_known st a /\ refs_known st b.
Proof. apply Forall_app. Qed.

Lemma refs_known_plain st t v : t <> LLAMA_GRETYPE_RULE_REF -> refs_known st [mk_elem t v].
Proof. intros H. constructor; [done|constructor]. Qed.

Lemma refs_known_ref st v : known st v -> refs_known st [mk_elem LLAMA_GRETYPE_RULE_REF v].
Proof. intros H. constructor; [done|constructor]. Qed.

Lemma refs_known_rep st k a : refs_known st a -> refs_known st (concat (replicate k a)).
Proof. intros Ha. induction k; simpl; [constructor|]. by apply refs_known_app. Qed.

Lemma add_rule_spec i rule st : wf_elems N MBoundary rule = true -> refs_known st rule ->
  spec (add_rule i rule) (fun _ _ => True) st.
Proof.
  intros Hw Hr Hi. unfold add_rule. apply wp_bind. unfold get_parser, wp at 1.
  revert Hi. eapply spec_bind; [apply allocate_spec|]. intros [] st1 Hg _.
  apply put_rule_spec; [done|by eapply refs_known_grows].
Qed.

Lemma rec_rules_loop_spec name prev no_max : no_us name -> seq_ok prev -> forall k i last st,
  refs_known st prev -> 0 <= i -> (i = 0 \/ good_id last st) ->
  spec (rec_rules_loop name prev no_max k i last)
    (fun id st' => (k = 0%nat /\ id = last) \/ good_id id st') st.
Proof.
  intros Hn Hprev k. induction k as [|k IH]; intros i last st Hr Hi Hlast.
  { apply spec_ret. by left. }
  cbn [rec_rules_loop]. eapply spec_bind; [by apply generate_symbol_id_spec|].
  intros id st1 Hg1 Hid. eapply spec_bind; [apply add_rule_spec|].
  - set (ref := if (0 <? i) || no_max then _ else _).
    assert (Href : seq_ok ref).
    { unfold ref. destruct (0 <? i) eqn:E; bool_hyps; destruct no_max; simpl;
        try (apply seq_ok_ref; apply Hid); [|apply seq_ok_nil].
      apply seq_ok_ref. destruct Hlast as [->|Hlast]; [lia|apply Hlast]. }
    pose proof (seq_ok_app _ _ (seq_ok_app _ _ Hprev Href)
                  (seq_ok_plain LLAMA_GRETYPE_ALT 0 eq_refl)) as Hok.
    unfold seq_ok in Hok. by rewrite <- !app_assoc in Hok.
  - rewrite !refs_known_app. split_and!; [by eapply refs_known_grows| |].
    + destruct (0 <? i) eqn:E; bool_hyps; destruct no_max; simpl; try apply refs_known_ref;
        try apply Hid; [|constructor].
      destruct Hlast as [->|Hlast]; [lia|]. eapply known_grows; [exact Hg1|apply Hlast].
    + constructor; [done|]. by apply refs_known_plain.
  - intros [] st2 Hg2 _. eapply spec_mono; [apply IH|].
    + eapply refs_known_grows; [|exact Hr]. by eapply grows_trans.
    + lia.
    + right. by eapply good_id_grows.
    + intros id' st3 Hg3 [[-> ->]|H]; right; [|done].
      eapply good_id_grows; [|exact Hid]. by eapply grows_trans.
Qed.

(** An exception ends the loop, whatever is left to do. *)
Lemma rec_rules_loop_more name prev no_max e st' : forall k k' i last st, (k <= k')%nat ->
  rec_rules_loop name prev no_max k i last st = (Throw e, st') ->
  rec_rules_loop name prev no_max k' i last st = (Throw e, st').
Proof.
  clear HN. induction k as [|k IH]; intros [|k'] i last st Hk H; try (done || lia).
  cbn [rec_rules_loop] in *. unfold mbind, P_bind in *.
  destruct (generate_symbol_id name st) as [[id|e1|e1| |] st1]; try done.
  destruct (add_rule _ _ st1) as [[[]|e2|e2| |] st2]; try done. apply IH; [lia|done].
Qed.

(** A rule being read: [last_sym_start] splits off its last symbol. *)
Definition seq_state (rule : llama_grammar_rule) (last : nat) (st : llama_grammar_parser) : Prop :=
  exists pre sym, rule = pre ++ sym /\ last = length pre /\ seq_ok pre /\ seq_ok sym
    /\ refs_known st rule.

Lemma handle_repetitions_spec name rule last lo hi st : no_us name -> seq_state rule last st ->
  spec (handle_repetitions name rule last lo hi) (fun rule' st' => seq_state rule' last st') st.
Proof.
  intros Hn (pre & sym & -> & -> & Hpre & Hsym & Hr). unfold handle_repetitions.
  destruct (_ =? _)%nat; [apply spec_throw|].
  rewrite drop_app_length, take_app_length.
  apply refs_known_app in Hr as [Hrp Hrs].
  eapply spec_bind; [apply allocate_spec|]. intros [] st0 Hg0 _.
  eapply spec_bind; [apply rec_rules_loop_spec; [done|done|by eapply refs_known_grows|done|by left]|].
  intros id st' Hg1 Hid. assert (Hg : grows st st') by (by eapply grows_trans). apply spec_ret. simpl.
  set (body := if lo =? 0 then [] else sym ++ concat (replicate (Z.to_nat (lo - 1)) sym)).
  assert (Hbody : (if lo =? 0 then pre
            else (pre ++ sym) ++ concat (replicate (Z.to_nat (lo - 1)) sym)) = pre ++ body).
  { unfold body. destruct (lo =? 0); [by rewrite app_nil_r|by rewrite app_assoc]. }
  rewrite Hbody. clear Hbody.
  assert (Hb : seq_ok body).
  { unfold body. destruct (lo =? 0); [apply seq_ok_nil|]. apply seq_ok_app; [done|].
    by apply seq_ok_rep. }
  assert (Hrb : refs_known st' body).
  { eapply refs_known_grows; [exact Hg|]. unfold body. destruct (lo =? 0); [constructor|].
    apply refs_known_app. split; [done|]. by apply refs_known_rep. }
  assert (Hrp' : refs_known st' pre) by (by eapply refs_known_grows).
  set (k := if hi =? UINT64_MAX then 1 else u64 (hi - lo)) in *.
  destruct (0 <? k) eqn:E; bool_hyps.
  - destruct Hid as [[Hk _]|Hid]; [lia|].
    exists pre, (body ++ [mk_elem LLAMA_GRETYPE_RULE_REF id]). split_and!; [|done|done| |].
    + by rewrite app_assoc.
    + apply seq_ok_app; [done|]. apply seq_ok_ref. apply Hid.
    + rewrite !refs_known_app. split_and!; [done..|]. apply refs_known_ref. apply Hid.
  - exists pre, body. split_and!; try done. by apply refs_known_app.
Qed.

(** ** Sequences, alternates and rules *)

Lemma seq_state_whole rule last st : seq_state rule last st -> seq_ok rule /\ refs_known st rule.
Proof. intros (pre & sym & -> & _ & Hp & Hs & Hr). split; [by apply seq_ok_app|done]. Qed.

Lemma seq_state_add rule last st st' b : seq_state rule last st -> grows st st' -> seq_ok b ->
  refs_known st' b -> seq_state (rule ++ b) (length rule) st'.
Proof.
  intros Hs Hg Hb Hrb. apply seq_state_whole in Hs as [Hok Hr].
  exists rule, b. split_and!; try done. apply refs_known_app. split; [|done].
  by eapply refs_known_grows.
Qed.

Lemma seq_state_start rule st : seq_ok rule -> refs_known st rule ->
  seq_state rule (length rule) st.
Proof.
  intros Hok Hr. exists rule, []. rewrite app_nil_r. by split_and!.
Qed.

Lemma class_refs_known st cls : class_ok cls -> refs_known st cls.
Proof.
  intros [_ [->|(e & rest & -> & Hrest & He)]]; [constructor|].
  constructor; [destruct He as [He|He]; congruence|].
  eapply Forall_impl; [exact Hrest|]. intros e' [H|H] T; congruence.
Qed.

Definition seq_result (pos : cstr) (r : llama_grammar_rule * cstr) (st : llama_grammar_parser)
    : Prop := seq_ok r.1 /\ refs_known st r.1 /\ (length r.2 <= length pos)%nat.

Lemma seq_result_le pos pos' r st : (length pos' <= length pos)%nat ->
  seq_result pos' r st -> seq_result pos r st.
Proof. intros Hl (? & ? & ?). split_and!; [done..|lia]. Qed.

Lemma skip_space_lt (p : cstr) k nested (pos : cstr) : (length p < length pos)%nat ->
  (length (parse_space (drop k p) nested) < length pos)%nat.
Proof.
  intros H. eapply Nat.le_lt_trans; [apply parse_space_length|]. rewrite length_drop. lia.
Qed.

Lemma skip_space_lt0 (p : cstr) nested (pos : cstr) : (length p < length pos)%nat ->
  (length (parse_space p nested) < length pos)%nat.
Proof. intros H. eapply Nat.le_lt_trans; [apply parse_space_length|done]. Qed.

Lemma skip_char_lt (pos : cstr) nested : chr_at pos 0 <> 0 ->
  (length (parse_space (drop 1 pos) nested) < length pos)%nat.
Proof.
  intros H. eapply Nat.le_lt_trans; [apply parse_space_length|]. by apply drop_1_lt.
Qed.

Lemma sequence_specs vocab name : no_us name -> forall fuel,
  (forall pos rule last nested st, (2 * length pos + 2 <= fuel)%nat -> seq_state rule last st ->
     spec (sequence_loop fuel vocab pos name rule last nested) (seq_result pos) st)
  /\ (forall pos rule nested st, (2 * length pos + 2 <= fuel)%nat -> seq_ok rule ->
     refs_known st rule ->
     spec (alternates_tail fuel vocab pos name rule nested) (seq_result pos) st)
  /\ (forall pos id nested st, (2 * length pos + 3 <= fuel)%nat ->
     spec (parse_alternates fuel vocab pos name id nested)
       (fun pos' _ => (length pos' <= length pos)%nat) st).
Proof.
  intros Hn fuel. induction fuel as [|fuel (IHs & IHt & IHa)]; [split_and!; intros; lia|].
  split_and!.
  - intros pos rule last nested st Hf Hst.
    assert (Hcont : forall rule' last' pos' st', grows st st' -> seq_state rule' last' st' ->
       (length pos' < length pos)%nat ->
       spec (sequence_loop fuel vocab pos' name rule' last' nested) (seq_result pos) st').
    { intros rule' last' pos' st' _ Hs Hl. eapply spec_mono; [apply IHs; [lia|exact Hs]|].
      intros r st2 _. apply seq_result_le. lia. }
    cbn [sequence_loop].
    destruct (chr_at pos 0 =? 0) eqn:E0; bool_hyps.
    { apply spec_ret. apply seq_state_whole in Hst as [? ?]. by split_and!. }
    assert (H1 : (length (drop 1 pos) < length pos)%nat) by (by apply drop_1_lt).
    assert (Hskip : forall b, (length (parse_space (drop 1 pos) b) < length pos)%nat)
      by (intros; by apply skip_char_lt).
    destruct (chr_at pos 0 =? 34).
    { eapply spec_lift_bind; [apply literal_loop_owp; lia|].
      intros [rule' p1] st1 Hg ((b & Hb & Hok & Hch) & Hl & Hz). simpl in *. subst rule'.
      apply Hcont; [done| |apply skip_space_lt; lia].
      eapply seq_state_add; [done..|]. eapply Forall_impl; [exact Hch|]. simpl. congruence. }
    destruct (chr_at pos 0 =? ch "[").
    { set (hd := if chr_at (drop 1 pos) 0 =? ch "^" then _ else _).
      assert (Hhd : (hd.1 = LLAMA_GRETYPE_CHAR \/ hd.1 = LLAMA_GRETYPE_CHAR_NOT)
                    /\ (length hd.2 <= length (drop 1 pos))%nat).
      { unfold hd. destruct (_ =? _); simpl; [|by auto]. split; [by right|].
        rewrite !length_drop. lia. }
      destruct hd as [t p0]. destruct Hhd as [Ht Hl0]. simpl in Ht, Hl0.
      eapply spec_lift_bind.
      { eapply (class_loop_owp _ t _ p0 rule rule []); [lia|done|done| |].
        - by rewrite app_nil_r.
        - split; [apply seq_ok_nil|by left]. }
      intros [rule' p1] st1 Hg ((cls & Hb & Hok) & Hl & Hz). simpl in *. subst rule'.
      apply Hcont; [done| |apply skip_space_lt; lia].
      eapply seq_state_add; [done..|apply Hok|by apply class_refs_known]. }
    destruct ((chr_at pos 0 =? ch "<") || (chr_at pos 0 =? ch "!")).
    { set (hd := if chr_at pos 0 =? ch "!" then _ else _).
      assert (Hhd : (hd.1 = LLAMA_GRETYPE_TOKEN \/ hd.1 = LLAMA_GRETYPE_TOKEN_NOT)
                    /\ (length hd.2 <= length pos)%nat).
      { unfold hd. destruct (_ =? _); simpl; split; auto; lia. }
      destruct hd as [t p0]. destruct Hhd as [Ht Hl0]. simpl in Ht, Hl0.
      eapply spec_lift_bind; [apply parse_token_owp|].
      intros [tok p1] st1 Hg Hl. simpl in Hl.
      apply Hcont; [done| |apply skip_space_lt0; lia].
      eapply seq_state_add; [done..| |].
      - apply seq_ok_plain. by destruct Ht as [-> | ->].
      - apply refs_known_plain. by destruct Ht as [-> | ->]. }
    destruct (is_word_char (chr_at pos 0)).
    { eapply spec_lift_bind; [apply parse_name_owp|].
      intros [nm p1] st1 Hg [Hl Hw]. simpl in Hl, Hw.
      eapply spec_bind; [apply get_symbol_id_spec; by apply word_no_us|].
      intros id st2 Hg2 [Hk Hid].
      apply Hcont; [by eapply grows_trans| |apply skip_space_lt0; lia].
      eapply seq_state_add; [done|by eapply grows_trans|by apply seq_ok_ref|by apply refs_known_ref]. }
    destruct (chr_at pos 0 =? ch "(").
    { eapply spec_bind; [by apply generate_symbol_id_spec|]. intros id st1 Hg1 [Hk Hid].
      pose proof (Hskip true) as Hl1.
      eapply spec_bind; [apply IHa; lia|]. intros p1 st2 Hg2 Hl2. simpl in Hl2.
      destruct (negb _); [apply spec_throw|].
      apply Hcont; [by eapply grows_trans| |apply skip_space_lt; lia].
      eapply seq_state_add; [done|by eapply grows_trans|by apply seq_ok_ref|].
      apply refs_known_ref. by eapply known_grows. }
    destruct (chr_at pos 0 =? ch ".").
    { apply Hcont; [apply grows_refl| |done].
      eapply seq_state_add; [done|apply grows_refl|by apply seq_ok_plain|by apply refs_known_plain]. }
    assert (Hrep : forall lo hi pos', (length pos' < length pos)%nat -> forall st', grows st st' ->
       spec (rule' ← handle_repetitions name rule last lo hi;
             sequence_loop fuel vocab pos' name rule' last nested) (seq_result pos) st').
    { intros lo hi pos' Hl st' Hg. eapply spec_bind; [apply handle_repetitions_spec; [done|]|].
      - destruct Hst as (pre & sym & ? & ? & ? & ? & ?). exists pre, sym. split_and!; try done.
        by eapply refs_known_grows.
      - intros rule' st2 Hg2 Hs. apply Hcont; [by eapply grows_trans|done..]. }
    destruct (chr_at pos 0 =? ch "*"); [apply Hrep; [done|apply grows_refl]|].
    destruct (chr_at pos 0 =? ch "+"); [apply Hrep; [done|apply grows_refl]|].
    destruct (chr_at pos 0 =? ch "?"); [apply Hrep; [done|apply grows_refl]|].
    destruct (chr_at pos 0 =? ch "{").
    { eapply spec_lift_bind; [apply parse_bounds_owp|].
      intros [[lo hi] p1] st1 Hg1 Hl1. simpl in Hl1. apply Hrep; [lia|done]. }
    apply spec_ret. apply seq_state_whole in Hst as [? ?]. by split_and!.
  - intros pos rule nested st Hf Hok Hr. cbn [alternates_tail].
    destruct (chr_at pos 0 =? ch "|") eqn:E; bool_hyps; [|apply spec_ret; by split_and!].
    assert (Hl1 : (length (parse_space (drop 1 pos) true) < length pos)%nat)
      by (apply skip_char_lt; rewrite E; done).
    assert (Hok1 : seq_ok (rule ++ [mk_elem LLAMA_GRETYPE_ALT 0]))
      by (apply seq_ok_app; [done|by apply seq_ok_plain]).
    eapply spec_bind.
    { apply IHs; [lia|]. apply seq_state_start; [done|]. apply refs_known_app.
      split; [done|by apply refs_known_plain]. }
    intros [rule' p1] st1 Hg (Hok' & Hr' & Hl2). simpl in Hok', Hr', Hl2.
    eapply spec_mono; [apply IHt; [lia|done..]|]. intros r st2 _. apply seq_result_le. lia.
  - intros pos id nested st Hf. cbn [parse_alternates].
    eapply spec_bind; [apply IHs; [lia|]; by apply seq_state_start; [apply seq_ok_nil|constructor]|].
    intros [rule p1] st1 Hg1 (Hok1 & Hr1 & Hl1). simpl in Hok1, Hr1, Hl1.
    eapply spec_bind; [apply IHt; [lia|done..]|].
    intros [rule' p2] st2 Hg2 (Hok2 & Hr2 & Hl2). simpl in Hok2, Hr2, Hl2.
    eapply spec_bind; [apply add_rule_spec; [done|]|].
    + apply refs_known_app. split; [done|]. by apply refs_known_plain.
    + intros [] st3 _ _. apply spec_ret. lia.
Qed.

Lemma parse_rule_spec vocab pos st : spec (parse_rule vocab pos)
  (fun pos' _ => (length pos' < length pos)%nat) st.
Proof.
  unfold parse_rule. eapply spec_lift_bind; [apply parse_name_owp|].
  intros [name p1] st1 Hg1 [Hl1 Hw]. simpl in Hl1, Hw. apply word_no_us in Hw.
  eapply spec_bind; [by apply get_symbol_id_spec|]. intros id st2 Hg2 _.
  destruct (negb _); [apply spec_throw|].
  set (p2 := parse_space (drop 3 (parse_space p1 false)) true).
  assert (Hl2 : (length p2 < length pos)%nat) by (apply skip_space_lt, skip_space_lt0; lia).
  eapply spec_bind; [apply sequence_specs; [done|unfold parse_fuel; lia]|].
  intros p3 st3 Hg3 Hl3. simpl in Hl3.
  destruct (_ =? 13).
  { apply spec_ret. destruct (_ =? 10); apply skip_space_lt; lia. }
  destruct (_ =? 10); [apply spec_ret, skip_space_lt; lia|].
  destruct (negb _); [apply spec_throw|]. apply spec_ret, skip_space_lt0. lia.
Qed.

Lemma rules_loop_spec vocab fuel : forall pos st, (length pos < fuel)%nat ->
  spec (rules_loop fuel vocab pos) (fun _ _ => True) st.
Proof.
  induction fuel as [|fuel IH]; intros pos st Hf; [lia|]. cbn [rules_loop].
  destruct (_ =? 0); [by apply spec_ret|].
  eapply spec_bind; [apply parse_rule_spec|]. intros p1 st1 _ Hl. simpl in Hl. apply IH. lia.
Qed.

(** ** The final checks *)

Lemma wf_bound k es : forall m, wf_elems N m es = true ->
  Forall (fun e => el_type e = LLAMA_GRETYPE_RULE_REF -> (Z.to_nat (el_value e) < k)%nat) es ->
  wf_elems k m es = true.
Proof.
  induction es as [|e es IH]; intros m Hw Hb; [done|].
  apply Forall_cons in Hb as [He Hb]. simpl in *.
  destruct (el_type e); auto.
  - bool_hyps. rewrite !andb_true_iff. split_and!; [lia|by apply Nat.ltb_lt, He|auto].
  - destruct m; auto.
  - destruct m; auto.
Qed.

Lemma foldM_unit {A} (f : A -> outcome unit) l : 
  foldM (fun _ x => f x) () l = Ret () <-> Forall (fun x => f x = Ret ()) l.
Proof.
  induction l as [|x l IH]; simpl; [split; [constructor|done]|].
  rewrite Forall_cons, <- IH. destruct (f x) as [[]| | | |]; simpl; naive_solver.
Qed.

Lemma foldM_unit_owp {A} (f : A -> outcome unit) l : (forall x, owp (f x) (fun _ => True)) ->
  owp (foldM (fun _ x => f x) () l) (fun _ => True).
Proof.
  intros Hf. induction l as [|x l IH]; simpl; [done|]. apply owp_bind.
  eapply owp_mono; [apply Hf|]. by intros [].
Qed.

Lemma check_rule_owp st rule : owp (check_rule st rule) (fun _ => True).
Proof.
  unfold check_rule. destruct rule; [done|]. apply foldM_unit_owp. intros e.
  unfold check_elem. destruct (type_is _ e); [|done]. by destruct (_ && _).
Qed.

Lemma check_rule_wf st rule : inv st -> rule ∈ p_rules st -> check_rule st rule = Ret () ->
  wf_elems (length (p_rules st)) MBoundary rule = true.
Proof.
  intros Hi Hin Hc. destruct Hi as [_ _ I3]. rewrite Forall_forall in I3.
  destruct (I3 rule Hin) as [->|[Hw Hr]]; [done|].
  apply wf_bound; [done|]. unfold check_rule in Hc. destruct rule as [|e0 es]; [done|].
  apply foldM_unit in Hc. rewrite Forall_forall in Hc |- *.
  unfold refs_known in Hr. rewrite Forall_forall in Hr.
  intros e He Ht. specialize (Hc e He). specialize (Hr e He Ht) as [name Hname].
  unfold check_elem in Hc. rewrite (proj2 (type_is_spec _ _) Ht) in Hc.
  destruct (p_rules st !! Z.to_nat (el_value e)) as [r|] eqn:El; [by apply lookup_lt_Some in El|].
  simpl in Hc. destruct (existsb _ _) eqn:Ex; [done|].
  assert (existsb (fun kv : list Z * Z => kv.2 =? el_value e) (map_to_list (symbol_ids st)) = true);
    [|congruence].
  apply existsb_exists. exists (name, el_value e). split; [|simpl; lia].
  apply list_elem_of_In. by apply elem_of_map_to_list.
Qed.

Lemma parse_body_spec vocab src st : inv st ->
  wp (parse_body vocab src) (fun _ st' => inv st' /\ wf_rules (p_rules st') = true) st.
Proof.
  intros Hi. unfold parse_body. apply wp_bind.
  eapply wp_mono; [apply rules_loop_spec; [|exact Hi]; lia|].
  intros [] st1 (Hi1 & _ & _). apply wp_bind. unfold get_parser, wp at 1.
  apply wp_lift. destruct (foldM _ () (p_rules st1)) as [[]| | | |] eqn:E; simpl; try done.
  - split; [done|]. apply foldM_unit in E. rewrite Forall_forall in E.
    unfold wf_rules. apply forallb_forall. intros rule Hin. apply list_elem_of_In in Hin.
    apply check_rule_wf; auto.
  - pose proof (foldM_unit_owp (check_rule st1) (p_rules st1) (check_rule_owp st1)) as H.
    by rewrite E in H.
  - pose proof (foldM_unit_owp (check_rule st1) (p_rules st1) (check_rule_owp st1)) as H.
    by rewrite E in H.
  - pose proof (foldM_unit_owp (check_rule st1) (p_rules st1) (check_rule_owp st1)) as H.
    by rewrite E in H.
Qed.

End Parser.

Lemma inv_empty N : inv N empty_parser.
Proof.
  constructor; simpl; [|intros name id H|constructor].
  all: try intros name id H; by rewrite lookup_empty in H.
Qed.
