(* ===== verification/GrammarSafety.v ===== *)
(** * The sampler's contract: what the filter keeps can be accepted.

    [llama_grammar_apply_impl] masks candidates and [llama_grammar_accept_impl]
    then consumes the sampled token, throwing when no stack is left.  For
    grammars without token elements the two agree. *)

From S2P Require Import Prelude Utf8 Grammar GrammarParser GrammarSampler GrammarLang GrammarFacts.
From S2P Require Import GrammarFilter.
From Stdlib Require Import Lia.
Import GrammarUtf8.

(** The stacks of a grammar object are those of a reachable state. *)
Definition good_grammar (g : llama_grammar) : Prop :=
  wf_rules (g_rules g) = true /\ valid_stacks (g_rules g) (g_stacks g).

(** ** Accepting a token *)

Section Accept.
Context (rules : llama_grammar_rules) (Hrules : wf_rules rules = true).
Context (Htok : token_free rules).

Lemma accept_code_points_spec f cps : forall sts sts', valid_stacks rules sts ->
  accept_code_points f rules sts cps = Ret sts' ->
  forall s, s ∈ sts' <-> exists st, st ∈ sts /\ runs rules st cps s.
Proof.
  induction cps as [|c cps IH]; intros sts sts' Hv H s; simpl in H.
  - injection H as <-. split; [intros; eexists; split; [done|constructor]|].
    intros (st & Hst & Hr). by inversion Hr; subst.
  - apply bind_Ret in H as (next & Hn & H).
    pose proof (accept_stacks_spec rules Hrules _ _ _ _ Hv Hn) as Hspec.
    assert (Hvn : valid_stacks rules next).
    { intros t Ht. apply Hspec in Ht as (st & Hst & Hs). eapply steps_valid; [done| |done].
      by apply Hv. }
    case_bool_decide as Hnil.
    + injection H as <-. subst next. split; [by intros ?%not_elem_of_nil|].
      intros (st & Hst & Hr). inversion Hr as [|? ? t ? ? Hs Hrt]; subst.
      assert (t ∈ @nil llama_grammar_stack) as Hc by (apply Hspec; eauto).
      by apply not_elem_of_nil in Hc.
    + rewrite (IH _ _ Hvn H s). split.
      * intros (t & Ht & Hr). apply Hspec in Ht as (st & Hst & Hs).
        exists st. split; [done|]. by econstructor.
      * intros (st & Hst & Hr). inversion Hr as [|? ? t ? ? Hs Hrt]; subst.
        exists t. split; [|done]. apply Hspec. by exists st.
Qed.

Lemma foldl_add_stack news sts s : s ∈ foldl add_stack news sts <-> s ∈ news \/ s ∈ sts.
Proof.
  revert news. induction sts as [|st sts IH]; intros news; simpl.
  - rewrite elem_of_nil. tauto.
  - rewrite IH, add_stack_elem, elem_of_cons. tauto.
Qed.

(** One stack: the stacks its runs reach (an empty stack reaches none). *)
Lemma accept_token_stack_spec f token cps news st news' :
  valid_stack rules st -> ready rules st ->
  accept_token_stack f rules token cps news st = Ret news' ->
  forall s, s ∈ news' <-> s ∈ news \/ (st <> [] /\ runs rules st cps s).
Proof.
  intros Hv Hr H s. destruct st as [|p rest]; simpl in H.
  { injection H as <-. split; [auto|]. by intros [?|[? _]]. }
  apply bind_Ret in H as (e & Hd & H).
  rewrite (token_free_deref rules Htok _ _ Hd) in H.
  apply bind_Ret in H as (sts & Hs & H). injection H as <-.
  rewrite foldl_add_stack.
  assert (Hvs : valid_stacks rules [p :: rest])
    by (intros t Ht; apply list_elem_of_singleton in Ht as ->; by split).
  rewrite (accept_code_points_spec _ _ _ _ Hvs Hs s).
  split.
  - intros [?|(st & Hst & Hrun)]; [by left|]. apply list_elem_of_singleton in Hst as ->.
    by right.
  - intros [?|[_ Hrun]]; [by left|right]. exists (p :: rest).
    by split; [apply list_elem_of_singleton|].
Qed.

Lemma accept_token_stacks_spec f token cps sts sts' : valid_stacks rules sts ->
  foldM (accept_token_stack f rules token cps) [] sts = Ret sts' ->
  forall s, s ∈ sts' <-> exists st, st ∈ sts /\ st <> [] /\ runs rules st cps s.
Proof.
  intros Hv H s.
  assert (Hiff : s ∈ sts' <-> s ∈ [] \/ exists st, st ∈ sts /\ (st <> [] /\ runs rules st cps s)).
  { eapply (foldM_elems _ (fun st s => st <> [] /\ runs rules st cps s)); [|exact H].
    intros acc st acc' Hin Ha. destruct (Hv st Hin). by eapply accept_token_stack_spec. }
  rewrite Hiff, elem_of_nil. naive_solver.
Qed.

(** ** Enough fuel *)

Context (Hnl : no_left_recursion rules).

Lemma accept_code_points_mono f f' cps : forall sts r, (f <= f')%nat ->
  accept_code_points f rules sts cps = Ret r -> accept_code_points f' rules sts cps = Ret r.
Proof.
  induction cps as [|c cps IH]; intros sts r Hle H; [done|]. simpl in *.
  apply bind_Ret in H as (next & Hn & H).
  rewrite (accept_stacks_mono rules _ _ _ _ _ Hle Hn). simpl.
  destruct (bool_decide _); [done|]. auto.
Qed.

Lemma accept_code_points_enough cps : forall sts, valid_stacks rules sts ->
  exists f r, accept_code_points f rules sts cps = Ret r.
Proof.
  induction cps as [|c cps IH]; intros sts Hv; [by exists 0%nat, sts|].
  destruct (accept_stacks_enough rules Hrules Hnl sts c Hv) as (f1 & next & H1).
  destruct (IH next) as (f2 & r & H2).
  { intros t Ht. apply (accept_stacks_spec rules Hrules _ _ _ _ Hv H1) in Ht as (st & Hst & Hs).
    eapply steps_valid; [done| |done]. by apply Hv. }
  exists (max f1 f2). simpl.
  rewrite (accept_stacks_mono rules f1 (max f1 f2) _ _ _ ltac:(lia) H1). simpl.
  destruct (bool_decide _); [by eexists|]. exists r.
  eapply accept_code_points_mono; [|exact H2]. lia.
Qed.

Lemma accept_token_stack_mono f f' token cps news st r : (f <= f')%nat ->
  accept_token_stack f rules token cps news st = Ret r ->
  accept_token_stack f' rules token cps news st = Ret r.
Proof.
  intros Hle H. destruct st as [|p rest]; [done|]. simpl in *.
  apply bind_Ret in H as (e & Hd & H). rewrite Hd. simpl.
  rewrite (token_free_deref rules Htok _ _ Hd) in *.
  apply bind_Ret in H as (sts & Hs & H).
  by rewrite (accept_code_points_mono _ _ _ _ _ Hle Hs).
Qed.

Lemma accept_token_stacks_enough token cps sts : valid_stacks rules sts ->
  exists f r, foldM (accept_token_stack f rules token cps) [] sts = Ret r.
Proof.
  intros Hv.
  destruct (foldM_total_fuel (fun f => accept_token_stack f rules token cps) sts) as [f Hf].
  - intros k k' b st r Hle. by apply accept_token_stack_mono.
  - intros st Hin. destruct (Hv st Hin) as [Hvs Hr]. destruct st as [|p rest].
    { exists 0%nat. intros b. by exists b. }
    destruct (accept_code_points_enough cps [p :: rest]) as (f & r & Hf).
    { intros t Ht. apply list_elem_of_singleton in Ht as ->. by split. }
    exists f. intros b. simpl. destruct Hr as (e & Hd & _). rewrite Hd. simpl.
    rewrite (token_free_deref rules Htok _ _ Hd), Hf. simpl. by eexists.
  - destruct (Hf []) as [r Hr]. by exists f, r.
Qed.

End Accept.

(** ** Masking *)

Section Mask.
Context {L : Type} (neg_inf : L).

Definition masked (d : token_data L) : token_data L := mk_token_data (td_id d) neg_inf.

Lemma mask_lookup (p : list (token_data L)) i j :
  mask_logit neg_inf p i !! j = (if decide (i = j) then masked <$> p !! j else p !! j).
Proof.
  unfold mask_logit. destruct (decide (i = j)) as [->|Hne].
  - apply list_lookup_alter_eq.
  - by apply list_lookup_alter_ne.
Qed.

Lemma masks_lookup (rejects : list llama_grammar_candidate) : forall (p : list (token_data L)) j,
  foldl (fun p r => mask_logit neg_inf p (c_index r)) p rejects !! j
  = (if decide (j ∈ map c_index rejects) then masked <$> p !! j else p !! j).
Proof.
  induction rejects as [|r rejects IH]; intros p j.
  - cbn [map foldl]. destruct (decide (j ∈ [])) as [H|H]; [by apply not_elem_of_nil in H|done].
  - cbn [map foldl]. rewrite IH, mask_lookup.
    destruct (decide (j ∈ map c_index rejects)) as [H1|H1],
      (decide (j ∈ c_index r :: map c_index rejects)) as [H2|H2],
      (decide (c_index r = j)) as [H3|H3]; subst; try (by destruct (p !! _)).
    all: exfalso; rewrite elem_of_cons in H2; intuition congruence.
Qed.

Context {V : Vocab}.

(** A candidate masked before the grammar looks at it. *)
Definition ruled_out (allow_eog : bool) (id : Z) : bool :=
  if is_eog id then negb allow_eog
  else bool_decide (token_to_piece id = []) || (chr_at (token_to_piece id) 0 =? 0).

(** What [classify] does over the whole candidate array. *)
Lemma classify_all g allow_eog (p : list (token_data L)) : forall k cur_p cands,
  (k <= length p)%nat ->
  foldM (classify g allow_eog neg_inf) (p, []) (seq 0 k) = Ret (cur_p, cands) ->
  (forall j, cur_p !! j = if decide (j < k)%nat
     then (fun d => if ruled_out allow_eog (td_id d) then masked d else d) <$> p !! j
     else p !! j)
  /\ (forall c, c ∈ cands <-> exists d, (c_index c < k)%nat /\ p !! c_index c = Some d
        /\ is_eog (td_id d) = false /\ ruled_out allow_eog (td_id d) = false
        /\ to_candidate g (c_index c) (td_id d) = Ret c).
Proof.
  induction k as [|k IH]; intros cur_p cands Hk H.
  { injection H as <- <-. split.
    - intros j. by rewrite decide_False by lia.
    - intros c. rewrite elem_of_nil. split; [done|]. intros (d & ? & _). lia. }
  rewrite seq_S, foldM_app in H. apply bind_Ret in H as ([cur1 cands1] & H1 & H).
  destruct (IH _ _ ltac:(lia) H1) as [Hcur Hcands]. simpl in H.
  apply bind_Ret in H as ([cur2 cands2] & H2 & H). injection H as <- <-.
  destruct (lookup_lt_is_Some_2 p k ltac:(lia)) as [d Hd].
  unfold classify in H2. apply bind_Ret in H2 as (d' & Hd' & H2). apply at_Ret in Hd'.
  rewrite Hcur, decide_False, Hd in Hd' by lia. injection Hd' as <-.
  assert (Hlt : forall j, (j < S k)%nat <-> (j < k)%nat \/ j = k) by lia.
  assert (Hcur2 : forall out, ruled_out allow_eog (td_id d) = out ->
     cur2 = (if out then mask_logit neg_inf cur1 k else cur1) ->
     forall j, cur2 !! j = if decide (j < S k)%nat
       then (fun d => if ruled_out allow_eog (td_id d) then masked d else d) <$> p !! j
       else p !! j).
  { intros out Ho -> j. destruct out; [rewrite mask_lookup|]; rewrite Hcur.
    - repeat case_decide; subst; try lia; try done. rewrite Hd. simpl. by rewrite Ho.
    - repeat case_decide; try lia; try done. assert (j = k) as -> by lia.
      rewrite Hd. simpl. by rewrite Ho. }
  assert (Hold : forall c, (exists d0, (c_index c < S k)%nat /\ p !! c_index c = Some d0
        /\ is_eog (td_id d0) = false /\ ruled_out allow_eog (td_id d0) = false
        /\ to_candidate g (c_index c) (td_id d0) = Ret c) <->
      c ∈ cands1 \/ (c_index c = k /\ is_eog (td_id d) = false
         /\ ruled_out allow_eog (td_id d) = false /\ to_candidate g k (td_id d) = Ret c)).
  { intros c. rewrite Hcands. split.
    - intros (d0 & Hlt' & Hl & Hrest). apply Hlt in Hlt' as [Hlt'| Hkk].
      + left. eauto.
      + right. rewrite Hkk in *. rewrite Hd in Hl. injection Hl as <-. tauto.
    - intros [(d0 & ? & ?)|(Hkk & Hrest)].
      + exists d0. split; [lia|done].
      + exists d. rewrite Hkk. split; [lia|]. split; [done|]. tauto. }
  unfold ruled_out in Hcur2, Hold at 2. unfold ruled_out in Hold.
  destruct (is_eog (td_id d)) eqn:Eog.
  - injection H2 as <- <-. split.
    + apply (Hcur2 (negb allow_eog)); [done|]. by destruct allow_eog.
    + intros c. unfold ruled_out. rewrite Hold. split; [by left|]. by intros [?|(? & ? & ?)].
  - destruct (bool_decide _ || _) eqn:Ero.
    + injection H2 as <- <-. split; [by apply (Hcur2 true)|].
      intros c. unfold ruled_out. rewrite Hold. split; [by left|]. by intros [?|(? & ? & ? & ?)].
    + apply bind_Ret in H2 as (c0 & Hc0 & H2). injection H2 as <- <-. split.
      * by apply (Hcur2 false).
      * intros c. unfold ruled_out. rewrite Hold, elem_of_app, list_elem_of_singleton.
        apply or_iff_compat_l. rewrite Hc0. split.
        -- intros ->. split_and!; try done. unfold to_candidate in Hc0.
           apply bind_Ret in Hc0 as ([cps pr] & _ & Hc0). by injection Hc0 as <-.
        -- intros (_ & _ & _ & [= ->]). done.
Qed.

End Mask.

(** ** Filter and acceptance agree *)

Section Contract.
Context {V : Vocab} {R : Regex}.

(** A piece that decodes, after what is pending, to codepoints other than 0,
    and brings at least a codepoint or an incomplete one. *)
Definition sound_piece (g : llama_grammar) (id : Z) (w : list Z) (partial : llama_partial_utf8)
    : Prop :=
  decode_utf8 (token_to_piece id) (g_partial_utf8 g) = Ret (w ++ [0], partial)
  /\ Forall (fun c => c <> 0) w /\ (w <> [] \/ n_remain partial <> 0).

(** Every candidate that reaches the grammar has a sound piece. *)
Definition sound_candidates {L} (g : llama_grammar) (cur_p : list (token_data L)) : Prop :=
  forall d, d ∈ cur_p -> is_eog (td_id d) = false ->
    exists w partial, sound_piece g (td_id d) w partial.

Lemma to_candidate_sound g i id w partial : sound_piece g id w partial ->
  to_candidate g i id = Ret (mk_cand i (w ++ [0]) 0 partial id)
  /\ wf_cand (mk_cand i (w ++ [0]) 0 partial id)
  /\ cand_text (mk_cand i (w ++ [0]) 0 partial id) = w.
Proof.
  intros (Hd & Hw & _). split_and!.
  - unfold to_candidate. by rewrite Hd.
  - exists w. by rewrite drop_0.
  - unfold cand_text. simpl. by rewrite drop_0, removelast_last.
Qed.

(** The array after [llama_grammar_apply_impl], candidate by candidate. *)
Lemma apply_lookup {L} afuel fuel g (neg_inf : L) cur_p cur_p' :
  good_grammar g -> g_awaiting_trigger g = false -> sound_candidates g cur_p ->
  llama_grammar_apply_impl afuel fuel g neg_inf cur_p = Ret cur_p' ->
  forall j d, cur_p !! j = Some d ->
  exists b : bool, cur_p' !! j = Some (if b then masked neg_inf d else d) /\
    (b = true <->
     ruled_out (has_empty_stack (g_stacks g)) (td_id d) = true
     \/ (is_eog (td_id d) = false /\ forall w partial, sound_piece g (td_id d) w partial ->
           forall s, s ∈ g_stacks g -> ~ fits (g_rules g) partial (td_id d) s w)).
Proof.
  intros [Hwf Hv] Haw Hsound H j d Hj. unfold llama_grammar_apply_impl in H.
  apply bind_Ret in H as ([] & _ & H). rewrite Haw in H.
  set (eog := has_empty_stack (g_stacks g)) in *.
  apply bind_Ret in H as ([cur1 cands] & Hc & H).
  apply (classify_all neg_inf g eog cur_p) in Hc as [Hcur Hcands]; [|lia].
  apply bind_Ret in H as (rejects & Hr & H). injection H as <-.
  assert (Hlt : (j < length cur_p)%nat) by (by eapply lookup_lt_Some).
  assert (Hwfc : forall tok, tok ∈ cands -> wf_cand tok).
  { intros tok Htok. apply Hcands in Htok as (d0 & _ & Hl & He & _ & Hto).
    destruct (Hsound d0) as (w & pr & Hs); [by eapply list_elem_of_lookup_2|done|].
    destruct (to_candidate_sound g (c_index tok) _ _ _ Hs) as (Hto' & Hwc & _).
    rewrite Hto in Hto'. injection Hto' as Hto'. rewrite Hto'. done. }
  pose proof (reject_stacks_spec (g_rules g) Hwf afuel fuel _ _ _ Hv Hwfc Hr) as Hrej.
  rewrite masks_lookup, Hcur. destruct (decide (j < length cur_p)%nat) as [_|?]; [|done].
  rewrite Hj. simpl.
  set (out := ruled_out eog (td_id d)) in *.
  assert (Hin : j ∈ map c_index rejects <->
     out = false /\ is_eog (td_id d) = false /\ forall w partial, sound_piece g (td_id d) w partial ->
           forall s, s ∈ g_stacks g -> ~ fits (g_rules g) partial (td_id d) s w).
  { split.
    - intros Hin. apply list_elem_of_fmap in Hin as (tok & Hidx & Htok).
      apply Hrej in Htok as [Hcand Hno]. apply Hcands in Hcand as (d0 & _ & Hl & He & Ho & Hto).
      rewrite <- Hidx, Hj in Hl. injection Hl as <-. split_and!; [done..|].
      intros w pr Hs s Hin Hfit.
      destruct (to_candidate_sound g (c_index tok) _ _ _ Hs) as (Hto' & _ & Htext).
      rewrite Hto in Hto'. injection Hto' as Hto'. apply (Hno s Hin).
      unfold cand_fits. by rewrite Hto', Htext.
    - intros (Ho & He & Hno).
      destruct (Hsound d) as (w & pr & Hs); [by eapply list_elem_of_lookup_2|done|].
      destruct (to_candidate_sound g j _ _ _ Hs) as (Hto & _ & Htext).
      apply list_elem_of_fmap. exists (mk_cand j (w ++ [0]) 0 pr (td_id d)).
      split; [done|]. apply Hrej. split.
      { apply Hcands. exists d. simpl. by split_and!. }
      intros s Hin. unfold cand_fits. rewrite Htext. by eapply Hno. }
  destruct (decide (j ∈ map c_index rejects)) as [Hj'|Hj'].
  - exists true. split; [by destruct out|]. split; [|done].
    intros _. right. by apply Hin in Hj' as (_ & ? & ?).
  - exists out. split; [done|]. split; [by left|]. intros [?|[He Hno]]; [done|].
    destruct out; [done|]. exfalso. apply Hj', Hin. by split_and!.
Qed.

Lemma fits_runs_any rules partial id s w : token_free rules ->
  fits rules partial id s w -> exists s', runs rules s w s'.
Proof.
  intros Htok. induction 1 as [s|p rest e c w Hd Ht _|p rest e Hd _ _|s c s' w Hs _ IH].
  - exists s. constructor.
  - by rewrite (token_free_deref rules Htok _ _ Hd) in Ht.
  - exists (p :: rest). constructor.
  - destruct IH as [s2 ?]. exists s2. by econstructor.
Qed.

(** Accepting a sound piece, given what the stacks can do with it. *)
Lemma accept_impl_result f g id w partial sts' :
  g_has_vocab g = true -> g_awaiting_trigger g = false -> is_eog id = false ->
  sound_piece g id w partial ->
  foldM (accept_token_stack f (g_rules g) id w) [] (g_stacks g) = Ret sts' ->
  llama_grammar_accept_impl f g id =
  if bool_decide (sts' = []) then Throw "Unexpected empty grammar stack"
  else Ret (set_partial (set_stacks g sts') partial).
Proof.
  intros Hvoc Haw He (Hd & _) Hf. unfold llama_grammar_accept_impl.
  rewrite Hvoc, Haw, He. simpl. unfold llama_grammar_accept_token. rewrite Hd. simpl.
  rewrite removelast_last, Hf. simpl. by case_bool_decide.
Qed.

Lemma accepted_good f g id w partial sts' : good_grammar g -> token_free (g_rules g) ->
  foldM (accept_token_stack f (g_rules g) id w) [] (g_stacks g) = Ret sts' ->
  good_grammar (set_partial (set_stacks g sts') partial).
Proof.
  intros [Hwf Hv] Htok Hf. split; [done|]. simpl. intros s Hs.
  apply (accept_token_stacks_spec _ Hwf Htok _ _ _ _ _ Hv Hf) in Hs as (st & Hst & _ & Hr).
  destruct (Hv st Hst). by eapply runs_valid.
Qed.

(** C2. In a grammar without token elements and without left recursion, hidden left
    recursion included, that does not wait for a trigger, and for candidates whose
    texts decode to code points: a candidate whose logit survives the filter can be
    accepted. With enough fuel [llama_grammar_accept_impl] returns a grammar, again
    in a good state; it does not throw and fails no assertion. With token elements
    this is false: [GrammarTheorems.token_filter_disagrees]. *)
Theorem filter_keeps_acceptable {L} afuel fuel g (neg_inf : L) cur_p cur_p' j d :
  good_grammar g -> token_free (g_rules g) -> no_left_recursion (g_rules g) ->
  g_awaiting_trigger g = false -> sound_candidates g cur_p ->
  llama_grammar_apply_impl afuel fuel g neg_inf cur_p = Ret cur_p' ->
  cur_p !! j = Some d -> cur_p' !! j = Some d -> td_logit d <> neg_inf ->
  exists f g', llama_grammar_accept_impl f g (td_id d) = Ret g' /\ good_grammar g'.
Proof.
  intros Hg Htok Hnl Haw Hsound H Hj Hj' Hne. pose proof Hg as [Hwf Hv].
  assert (Hvoc : g_has_vocab g = true).
  { unfold llama_grammar_apply_impl in H. by destruct (g_has_vocab g). }
  destruct (apply_lookup _ _ _ _ _ _ Hg Haw Hsound H _ _ Hj) as (b & Hb & Hmask).
  rewrite Hj' in Hb. injection Hb as Hb.
  destruct b; [exfalso; apply Hne; by rewrite Hb|].
  destruct (is_eog (td_id d)) eqn:Eog.
  { assert (Hempty : has_empty_stack (g_stacks g) = true).
    { destruct (has_empty_stack (g_stacks g)) eqn:E; [done|]. exfalso.
      assert (false = true); [|done]. apply Hmask. left. unfold ruled_out. by rewrite Eog. }
    exists 0%nat, g. split; [|done]. unfold llama_grammar_accept_impl.
    by rewrite Hvoc, Haw, Eog, Hempty. }
  destruct (Hsound d) as (w & partial & Hs); [by eapply list_elem_of_lookup_2|done|].
  destruct (accept_token_stacks_enough _ Hwf Htok Hnl (td_id d) w _ Hv) as (f & sts' & Hf).
  exists f. rewrite (accept_impl_result _ _ _ _ _ _ Hvoc Haw Eog Hs Hf).
  case_bool_decide as Hnil; [|eexists; split; [done|by eapply accepted_good]].
  exfalso. assert (false = true); [|done]. apply Hmask. right. split; [done|].
  intros w' partial' Hs' st Hst Hfit.
  assert (w' = w /\ partial' = partial) as [-> ->].
  { destruct Hs as (Hd1 & _), Hs' as (Hd2 & _). rewrite Hd1 in Hd2.
    injection Hd2 as Hd2 ->. by apply app_inj_tail in Hd2 as [-> _]. }
  destruct (decide (st = [])) as [->|Hst'].
  { apply fits_nil_stack in Hfit as [-> H0]. by destruct Hs as (_ & _ & [?|?]). }
  destruct (fits_runs_any _ _ _ _ _ Htok Hfit) as [s' Hr].
  assert (Hin : s' ∈ sts').
  { apply (accept_token_stacks_spec _ Hwf Htok _ _ _ _ _ Hv Hf). by exists st. }
  rewrite Hnil in Hin. by apply not_elem_of_nil in Hin.
Qed.

(** Conversely the filter masks no candidate it could keep: where a complete,
    non-empty piece is masked, accepting its token cannot succeed. *)
Theorem filter_masks_unacceptable {L} afuel fuel f g (neg_inf : L) cur_p cur_p' j d w v :
  good_grammar g -> token_free (g_rules g) ->
  g_awaiting_trigger g = false -> sound_candidates g cur_p ->
  llama_grammar_apply_impl afuel fuel g neg_inf cur_p = Ret cur_p' ->
  cur_p !! j = Some d -> cur_p' !! j <> Some d -> is_eog (td_id d) = false ->
  token_to_piece (td_id d) <> [] -> chr_at (token_to_piece (td_id d)) 0 <> 0 ->
  sound_piece g (td_id d) w (mk_partial_utf8 v 0) ->
  forall g', llama_grammar_accept_impl f g (td_id d) <> Ret g'.
Proof.
  intros Hg Htok Haw Hsound H Hj Hj' Eog Hpne Hp0 Hs g' Hacc. pose proof Hg as [Hwf Hv].
  assert (Hvoc : g_has_vocab g = true).
  { unfold llama_grammar_apply_impl in H. by destruct (g_has_vocab g). }
  destruct (apply_lookup _ _ _ _ _ _ Hg Haw Hsound H _ _ Hj) as (b & Hb & Hmask).
  destruct b; [|done]. destruct Hmask as [Hmask _]. specialize (Hmask eq_refl).
  destruct Hmask as [Hro|[_ Hno]].
  { unfold ruled_out in Hro. rewrite Eog in Hro.
    apply orb_true_iff in Hro as [Hro|Hro]; [by apply bool_decide_eq_true in Hro|].
    by apply Z.eqb_eq in Hro. }
  pose proof Hs as (Hd & _ & _).
  unfold llama_grammar_accept_impl in Hacc. rewrite Hvoc, Haw, Eog in Hacc. simpl in Hacc.
  unfold llama_grammar_accept_token in Hacc. rewrite Hd in Hacc. simpl in Hacc.
  rewrite removelast_last in Hacc. apply bind_Ret in Hacc as (sts' & Hf & Hacc).
  simpl in Hacc. case_bool_decide as Hnil; [done|].
  destruct sts' as [|s' sts']; [done|].
  destruct (proj1 (accept_token_stacks_spec _ Hwf Htok _ _ _ _ _ Hv Hf s')
    (list_elem_of_here _ _)) as (st & Hst & _ & Hr).
  apply (Hno _ _ Hs st Hst). eapply fits_runs; [done|done|by eexists].
Qed.

End Contract.
