(* ===== verification/GrammarTheorems.v ===== *)
(** * Theorems about the grammar engine and its parser, with their instances.

    The statements a user of [src/llama-grammar.cpp] relies on: the stacks
    recognise the language, the construction of a checked grammar terminates,
    the filter agrees with acceptance, the parser is total and returns
    well-formed rules; and the inputs on which the code departs from what it
    means to do. *)

From S2P Require Import Prelude Utf8 Grammar GrammarParser GrammarSampler GrammarLang GrammarFacts.
From S2P Require Import GrammarLeftRec GrammarFilter GrammarParserFacts GrammarSafety.
From Stdlib Require Import Lia.
Import GrammarUtf8.

(** ** Running a grammar on a text *)

(** The stacks after a text, from the initial ones. *)
Definition run_text (fuel : nat) (rules : llama_grammar_rules) (start : nat) (w : list Z)
    : outcome llama_grammar_stacks :=
  sts ← initial_stacks fuel rules start; foldM (accept_stacks fuel rules) sts w.

Lemma run_text_valid fuel rules start w sts : wf_rules rules = true ->
  run_text fuel rules start w = Ret sts -> valid_stacks rules sts.
Proof.
  intros Hwf H. unfold run_text in H. apply bind_Ret in H as (st0 & H0 & H).
  pose proof (initial_valid rules Hwf _ _ _ H0) as Hv.
  intros s Hs. apply (accept_text_spec rules Hwf _ _ _ _ Hv H) in Hs as (st & Hst & Hr).
  destruct (Hv st Hst). by eapply runs_valid.
Qed.

Lemma has_empty_stack_spec sts : has_empty_stack sts = true <-> [] ∈ sts.
Proof.
  unfold has_empty_stack. rewrite existsb_exists. split.
  - intros (st & Hin & Hb). apply bool_decide_eq_true in Hb as ->. by apply list_elem_of_In.
  - intros H. exists []. by split; [apply list_elem_of_In|].
Qed.

(** ** A grammar to instantiate the theorems with

    [root ::= [a] ([b] | [c]) root | [x]] *)

(** A machine with room for a thousand rules and elements. *)
#[local] Instance ex_memory : Allocator := {| can_grow st k := (length (p_rules st) + k <=? 1000)%nat |}.

Definition ex_src : cstr := bytes "root ::= [a] ([b] | [c]) root | [x]".
Definition ex_rules : llama_grammar_rules := Eval vm_compute in p_rules (snd (parse None ex_src empty_parser)).

Lemma ex_wf : wf_rules ex_rules = true.
Proof. vm_compute. reflexivity. Qed.

Lemma ex_alternatives : alternatives ex_rules 0
    = [[SChar false [(97, 97)]; SRef 1; SRef 0]; [SChar false [(120, 120)]]]
  /\ alternatives ex_rules 1 = [[SChar false [(98, 98)]]; [SChar false [(99, 99)]]]
  /\ length ex_rules = 2%nat.
Proof. vm_compute. done. Qed.

Lemma ex_starts_with_char r alt : alt ∈ alternatives ex_rules r ->
  exists c rest, alt = SChar false [(c, c)] :: rest.
Proof.
  destruct ex_alternatives as (E0 & E1 & E2). destruct r as [|[|r]].
  - rewrite E0. rewrite !elem_of_cons, elem_of_nil. intros [->|[->|[]]]; eauto.
  - rewrite E1. rewrite !elem_of_cons, elem_of_nil. intros [->|[->|[]]]; eauto.
  - unfold alternatives. rewrite lookup_ge_None_2 by (rewrite E2; lia).
    by intros ?%not_elem_of_nil.
Qed.

Lemma ex_not_nullable r : ~ derives ex_rules [SRef r] [].
Proof.
  intros H. inversion H as [| |? alt ? ? Halt Hd]; subst.
  destruct (ex_starts_with_char _ _ Halt) as (c & rest & ->). inversion Hd.
Qed.

Lemma ex_no_left_recursion : no_left_recursion ex_rules.
Proof.
  intros r. constructor. intros r' (pre & post & Hin & Hpre).
  destruct (ex_starts_with_char _ _ Hin) as (c & rest & E).
  destruct pre as [|s pre]; [done|]. injection E as -> _. inversion Hpre.
Qed.

Lemma ex_token_free : token_free ex_rules.
Proof.
  assert (Hb : forallb (forallb (fun e => negb (is_token_elem e))) ex_rules = true)
    by (vm_compute; reflexivity).
  intros r rule e Hr He. rewrite forallb_forall in Hb.
  specialize (Hb rule). rewrite forallb_forall in Hb.
  apply negb_true_iff, Hb; apply list_elem_of_In; [by eapply list_elem_of_lookup_2|done].
Qed.

(** ** The language *)

(** C1. The machine recognises the grammar: for well-formed rules, after any
    text some stack is empty (what the sampler tests before allowing the end of
    generation) exactly when the text is derivable from the start rule, and the
    stacks that remain are the residues of the runs on the text. *)
Theorem grammar_recognizes fuel rules start w sts : wf_rules rules = true ->
  run_text fuel rules start w = Ret sts ->
  has_empty_stack sts = true <-> derives rules [SRef start] w.
Proof.
  intros Hwf H. rewrite has_empty_stack_spec. unfold run_text in H.
  apply bind_Ret in H as (st0 & H0 & H).
  pose proof (initial_valid rules Hwf _ _ _ H0) as Hv.
  rewrite (accept_text_spec rules Hwf _ _ _ _ Hv H), (initial_derives rules Hwf _ _ _ _ H0).
  split; intros (s & Hs & Hr); exists s; (split; [done|]); destruct (Hv s Hs);
    by apply (runs_derives rules).
Qed.

Lemma grammar_recognizes_witness : derives ex_rules [SRef 0] (bytes "abacx").
Proof.
  apply (grammar_recognizes 9 ex_rules 0 (bytes "abacx") [[]]); vm_compute; reflexivity.
Defined.

(** C5. Termination: when the left-recursion check passes and every rule that
    may be empty has an alternate written empty, building the initial stacks and
    accepting any text returns, with one fuel that is enough from then on. *)
Theorem checked_grammar_terminates rules start w : wf_rules rules = true ->
  is_left_recursive rules = Ret false ->
  (forall r, derives rules [SRef r] [] -> directly_empty rules r) ->
  (start < length rules)%nat ->
  exists fuel sts, forall fuel', (fuel <= fuel')%nat -> run_text fuel' rules start w = Ret sts.
Proof.
  intros Hwf Hlr Hnull Hstart.
  assert (Hnl : no_left_recursion rules).
  { destruct (is_left_recursive_spec rules Hwf) as (b & Hb & Hacc). rewrite Hlr in Hb.
    injection Hb as <-. intros r. specialize (Hacc r). induction Hacc as [r _ IH].
    constructor. intros r' Hr'. apply IH. by eapply direct_leftcall_complete. }
  destruct (initial_enough rules Hwf Hnl start Hstart) as (f1 & st0 & H0).
  pose proof (initial_valid rules Hwf _ _ _ H0) as Hv.
  destruct (accept_text_enough rules Hwf Hnl w st0 Hv) as (f2 & sts & H2).
  exists (max f1 f2), sts. intros f Hf. unfold run_text.
  rewrite (initial_stacks_mono rules f1 f _ _ ltac:(lia) H0). simpl.
  eapply accept_text_mono; [|exact H2]. lia.
Qed.

Lemma checked_grammar_terminates_witness :
  exists fuel sts, forall fuel', (fuel <= fuel')%nat ->
    run_text fuel' ex_rules 0 (bytes "abx") = Ret sts.
Proof.
  apply (checked_grammar_terminates ex_rules 0 (bytes "abx")).
  - exact ex_wf.
  - vm_compute. reflexivity.
  - intros r Hr. destruct (ex_not_nullable r Hr).
  - vm_compute. lia.
Defined.

(** The left-recursion check always answers, within the depth bound of one
    more than the number of rules: [true] only when some rule really reaches
    itself by leftmost calls, [false] only when no leftmost calls go on
    forever. *)
Theorem left_recursion_check rules : wf_rules rules = true ->
  exists b, is_left_recursive rules = Ret b /\
    if b then exists r, tc (direct_leftcall rules) r r
    else forall r, Acc (fun r' r => direct_leftcall rules r r') r.
Proof. intros Hwf. by apply is_left_recursive_spec. Qed.

Lemma left_recursion_check_witness : exists b, is_left_recursive ex_rules = Ret b /\
    if b then exists r, tc (direct_leftcall ex_rules) r r
    else forall r, Acc (fun r' r => direct_leftcall ex_rules r r') r.
Proof. apply (left_recursion_check ex_rules). exact ex_wf. Defined.

(** ** The filter *)

(** C3. The filter is exact for grammars without token elements: in any state such
    a grammar reaches by a text, a candidate made of complete code points is
    rejected exactly when accepting its code points would leave no stack. With
    token elements this is false: [token_filter_disagrees]. *)
Theorem filter_exact afuel fuel f rules start w sts cands rejects tok sts' :
  wf_rules rules = true -> token_free rules ->
  run_text f rules start w = Ret sts ->
  (forall tok, tok ∈ cands -> wf_cand tok) ->
  llama_grammar_reject_candidates afuel fuel rules sts cands = Ret rejects ->
  tok ∈ cands -> n_remain (c_partial tok) = 0 ->
  foldM (accept_stacks f rules) sts (cand_text tok) = Ret sts' ->
  tok ∈ rejects <-> sts' = [].
Proof.
  intros Hwf Htok Hrun Hc Hrej Hin H0 Hacc.
  eapply reject_accept; try done. by eapply run_text_valid.
Qed.

Definition ex_cand (text : string) (i : nat) : llama_grammar_candidate :=
  mk_cand i (bytes text ++ [0]) 0 partial_utf8_zero (Z.of_nat i).

Definition ex_stacks : llama_grammar_stacks :=
  [[mk_gptr 1 0; mk_gptr 0 2]; [mk_gptr 1 2; mk_gptr 0 2]].

Definition ex_cands : list llama_grammar_candidate :=
  [ex_cand "bax" 0; ex_cand "ba" 1; ex_cand "bb" 2].

Lemma ex_cands_wf tok : tok ∈ ex_cands -> wf_cand tok.
Proof.
  assert (Hone : forall text i, wf_cand (ex_cand text i) <-> Forall (fun c => c <> 0) (bytes text)).
  { intros text i. unfold wf_cand. simpl. rewrite drop_0. split; [|by exists (bytes text)].
    intros (w & E & Hw). by apply app_inj_tail in E as [-> _]. }
  unfold ex_cands. rewrite !elem_of_cons, elem_of_nil.
  intros [->|[->|[->|[]]]]; apply Hone; repeat constructor; vm_compute; discriminate.
Qed.

Lemma filter_exact_witness :
  ex_cand "bax" 0 ∈ [ex_cand "bb" 2; ex_cand "bax" 0] <-> @nil llama_grammar_stack = [].
Proof.
  apply (filter_exact 9 9 9 ex_rules 0 (bytes "a") ex_stacks ex_cands
    [ex_cand "bb" 2; ex_cand "bax" 0] (ex_cand "bax" 0) []).
  - exact ex_wf.
  - exact ex_token_free.
  - vm_compute. reflexivity.
  - exact ex_cands_wf.
  - vm_compute. reflexivity.
  - left.
  - reflexivity.
  - vm_compute. reflexivity.
Defined.

(** The filter returns: in any reachable state with a stack left, for
    candidates of at most [k] codepoints, it answers with enough fuel for the
    stack expansions and [k + 1] levels of its own recursion; in particular its
    assertion that the next stacks are not empty never fails. *)
Theorem filter_returns f rules start w sts k : wf_rules rules = true ->
  no_left_recursion rules -> run_text f rules start w = Ret sts -> sts <> [] ->
  exists afuel, forall cands,
    (forall tok, tok ∈ cands -> wf_cand tok /\ (length (cand_text tok) <= k)%nat) ->
    exists rejects, llama_grammar_reject_candidates afuel (S k) rules sts cands = Ret rejects.
Proof.
  intros Hwf Hnl Hrun Hne. apply (reject_total rules Hwf k sts Hnl); [|done].
  by eapply run_text_valid.
Qed.

Lemma filter_returns_witness : exists afuel, forall cands,
    (forall tok, tok ∈ cands -> wf_cand tok /\ (length (cand_text tok) <= 3)%nat) ->
    exists rejects, llama_grammar_reject_candidates afuel 4 ex_rules ex_stacks cands = Ret rejects.
Proof.
  apply (filter_returns 9 ex_rules 0 (bytes "a") ex_stacks 3).
  - exact ex_wf.
  - exact ex_no_left_recursion.
  - vm_compute. reflexivity.
  - discriminate.
Defined.

(** ** The parser *)


(** ** Where the code departs from its intent *)

(** A rule that is empty only through another rule. *)
Definition hidden_src : cstr :=
  bytes "root ::= a root | [x]" ++ [10] ++ bytes "a ::= b" ++ [10] ++ bytes "b ::= ".
Definition hidden_rules : llama_grammar_rules := Eval vm_compute in p_rules (snd (parse None hidden_src empty_parser)).

Lemma hidden_step fuel news st st' :
  In (st, st') [([mk_gptr 0 0], [mk_gptr 1 0; mk_gptr 0 1]);
                ([mk_gptr 1 0; mk_gptr 0 1], [mk_gptr 0 1]);
                ([mk_gptr 0 1], [mk_gptr 0 0])] ->
  llama_grammar_advance_stack fuel hidden_rules st' news = NoFuel ->
  llama_grammar_advance_stack (S fuel) hidden_rules st news = NoFuel.
Proof.
  intros H Hn. simpl in H. destruct H as [[= <- <-]|[[= <- <-]|[[= <- <-]|[]]]];
    simpl; unfold ptr_add; simpl; fold hidden_rules;
    change (Z.to_nat 1) with 1%nat; change (Z.to_nat 0) with 0%nat; by rewrite Hn.
Qed.

Lemma hidden_loops fuel : forall news,
  llama_grammar_advance_stack fuel hidden_rules [mk_gptr 0 0] news = NoFuel
  /\ llama_grammar_advance_stack fuel hidden_rules [mk_gptr 1 0; mk_gptr 0 1] news = NoFuel
  /\ llama_grammar_advance_stack fuel hidden_rules [mk_gptr 0 1] news = NoFuel.
Proof.
  induction fuel as [|fuel IH]; intros news; [done|]. destruct (IH news) as (H1 & H2 & H3).
  split_and!; [by eapply hidden_step; [left|]|by eapply hidden_step; [right; left|]
    |by eapply hidden_step; [right; right; left|]].
Qed.

Lemma hidden_initial fuel : initial_stacks fuel hidden_rules 0 = NoFuel.
Proof.
  unfold initial_stacks. simpl. fold hidden_rules. by rewrite (proj1 (hidden_loops fuel [])).
Qed.

(** The left-recursion check misses rules that are empty only through another
    rule: this grammar text parses, passes the check, and then expands forever,
    so that no fuel builds its grammar object.  The rule [root] reaches itself
    behind [a], which is empty through [b]. *)
Theorem hidden_left_recursion {R : Regex} afuel :
  wf_rules hidden_rules = true /\ is_left_recursive hidden_rules = Ret false /\
  llama_grammar_init_impl afuel None hidden_src (bytes "root") false [] [] = NoFuel.
Proof.
  split; [vm_compute; reflexivity|]. split; [vm_compute; reflexivity|].
  unfold llama_grammar_init_impl.
  destruct (parse None hidden_src empty_parser) as [ok st] eqn:E.
  assert (ok = Ret true) as ->.
  { change (fst (ok, st) = Ret true). rewrite <- E. vm_compute. reflexivity. }
  assert (Hrules : p_rules st = hidden_rules).
  { change (p_rules (snd (Ret true : outcome bool, st)) = hidden_rules). rewrite <- E.
    vm_compute. reflexivity. }
  assert (Hroot : symbol_ids st !! bytes "root" = Some 0).
  { change (symbol_ids (snd (Ret true : outcome bool, st)) !! bytes "root" = Some 0).
    rewrite <- E. vm_compute. reflexivity. }
  unfold symbol_at. rewrite Hrules, Hroot. simpl. change (Z.to_nat 0) with 0%nat.
  by rewrite hidden_initial.
Qed.

(** Bounds in the wrong order pass the test against the threshold, and then
    [max_times - min_times] wraps around to almost [2 ^ 64]: in a grammar like
    [root ::= [a]{2,1}] rules are defined until an allocation fails, here that of
    the twentieth one.  In the right order two are enough. *)
Definition small_memory : Allocator := {| can_grow st k := (length (p_rules st) + k <=? 20)%nat |}.
Definition before_bounds : llama_grammar_parser := mk_parser {[ bytes "root" := 0 ]} [].

Theorem reversed_bounds_exhaust_memory :
  parse_bounds (bytes "2,1}") false = Ret (2, 1, []) /\ u64 (1 - 2) = 2 ^ 64 - 1
  /\ (@handle_repetitions small_memory (bytes "root") [mk_elem LLAMA_GRETYPE_CHAR 97] 0 2 1 before_bounds).1 = Throw "std::bad_alloc"
  /\ (@handle_repetitions small_memory (bytes "root") [mk_elem LLAMA_GRETYPE_CHAR 97] 0 1 2 before_bounds).1
     = Ret [mk_elem LLAMA_GRETYPE_CHAR 97; mk_elem LLAMA_GRETYPE_RULE_REF 1].
Proof.
  split; [vm_compute; reflexivity|]. split; [reflexivity|]. split; [|vm_compute; reflexivity].
  unfold handle_repetitions. cbn [length Nat.eqb drop].
  destruct (@rec_rules_loop small_memory (bytes "root") [mk_elem LLAMA_GRETYPE_CHAR 97] false 20 0 0 before_bounds) as [o st'] eqn:E.
  assert (o = Throw "std::bad_alloc") as ->.
  { change (fst (o, st') = Throw "std::bad_alloc"). rewrite <- E. vm_compute. reflexivity. }
  assert (Hk : (20 <= Z.to_nat (u64 (1 - 2)))%nat) by (change (u64 (1 - 2)) with (2 ^ 64 - 1); lia).
  pose proof (@rec_rules_loop_more small_memory _ _ _ _ _ _ _ _ _ _ Hk E) as H.
  change (1 =? UINT64_MAX) with false. unfold mbind, P_bind, allocate.
  replace (can_grow before_bounds _) with true by (vm_compute; reflexivity).
  by rewrite H.
Qed.

(** [root ::= [a] <[5]>], where token 5 reads "ab". *)
Definition tok_rules : llama_grammar_rules := Eval vm_compute in
  p_rules (snd (parse None (bytes "root ::= [a] <[5]>") empty_parser)).

(** The filter keeps a candidate that acceptance then refuses: a token
    element reached inside a candidate's text matches by the candidate's id, so
    the rest of the text is never looked at, while [llama_grammar_accept_token]
    feeds the text character by character and throws. *)
Theorem token_filter_disagrees : exists sts rejects,
  let g := mk_grammar true tok_rules sts partial_utf8_zero false false [] [] [] [] in
  run_text 9 tok_rules 0 [] = Ret sts
  /\ llama_grammar_reject_candidates 9 9 tok_rules sts
       [mk_cand 0 (bytes "ab" ++ [0]) 0 partial_utf8_zero 5;
        mk_cand 1 (bytes "ab" ++ [0]) 0 partial_utf8_zero 6] = Ret rejects
  /\ map c_id rejects = [6]
  /\ llama_grammar_accept_token 9 g 5 (bytes "ab") = Throw "Unexpected empty grammar stack".
Proof.
  exists [[mk_gptr 0 0]], [mk_cand 1 (bytes "ab" ++ [0]) 0 partial_utf8_zero 6].
  vm_compute. split_and!; reflexivity.
Qed.

(** Construction looks for a rule named "root" whatever the name of the
    start rule it is given, and an unknown start rule escapes as the exception
    of [std::map::at] instead of the null result of the other failures. *)
Theorem init_root_name {R : Regex} afuel : exists st, parse None ex_src empty_parser = (Ret true, st) /\
  symbol_ids st !! bytes "start" = None /\
  llama_grammar_init_impl afuel None ex_src (bytes "start") false [] [] = Throw "map::at".
Proof.
  unfold llama_grammar_init_impl.
  destruct (parse None ex_src empty_parser) as [ok st] eqn:E.
  assert (ok = Ret true) as ->.
  { change (fst (ok, st) = Ret true). rewrite <- E. vm_compute. reflexivity. }
  assert (Hrules : p_rules st = ex_rules).
  { change (p_rules (snd (Ret true : outcome bool, st)) = ex_rules). rewrite <- E.
    vm_compute. reflexivity. }
  assert (Hroot : symbol_ids st !! bytes "root" = Some 0).
  { change (symbol_ids (snd (Ret true : outcome bool, st)) !! bytes "root" = Some 0).
    rewrite <- E. vm_compute. reflexivity. }
  assert (Hstart : symbol_ids st !! bytes "start" = None).
  { change (symbol_ids (snd (Ret true : outcome bool, st)) !! bytes "start" = None).
    rewrite <- E. vm_compute. reflexivity. }
  exists st. unfold symbol_at. rewrite Hrules, Hroot, Hstart. by split_and!.
Qed.

(** ** Two ways to accept *)

Lemma accept_fold f w : forall g g', foldM (llama_grammar_accept f) g w = Ret g' ->
  foldM (accept_stacks f (g_rules g)) (g_stacks g) w = Ret (g_stacks g')
  /\ g_rules g' = g_rules g.
Proof.
  induction w as [|c w IH]; intros g g' H; simpl in H.
  - by injection H as <-.
  - apply bind_Ret in H as (g1 & H1 & H). unfold llama_grammar_accept in H1.
    apply bind_Ret in H1 as (st & Hst & H1). injection H1 as <-.
    destruct (IH _ _ H) as [H2 H3]. simpl in *. by rewrite Hst.
Qed.

(** [llama_grammar_accept_str] and [llama_grammar_accept_token] agree on
    grammars without token elements: for a piece that brings a codepoint they
    reach the same set of stacks and the same pending bytes. *)
Theorem accept_str_token f g token piece g1 g2 w partial :
  good_grammar g -> token_free (g_rules g) ->
  decode_utf8 piece (g_partial_utf8 g) = Ret (w ++ [0], partial) -> w <> [] ->
  llama_grammar_accept_str f g piece = Ret g1 ->
  llama_grammar_accept_token f g token piece = Ret g2 ->
  g_partial_utf8 g1 = g_partial_utf8 g2 /\ forall s, s ∈ g_stacks g1 <-> s ∈ g_stacks g2.
Proof.
  intros [Hwf Hv] Htok Hd Hw H1 H2.
  unfold llama_grammar_accept_str in H1. unfold llama_grammar_accept_token in H2.
  rewrite Hd in H1, H2. simpl in H1, H2. rewrite removelast_last in H1, H2.
  apply bind_Ret in H1 as (g' & Hf & H1). simpl in H1. case_bool_decide; [done|].
  injection H1 as <-. apply accept_fold in Hf as [Hf _].
  apply bind_Ret in H2 as (sts & Hs & H2). simpl in H2. case_bool_decide; [done|].
  injection H2 as <-. split; [done|]. simpl. intros s.
  rewrite (accept_text_spec _ Hwf _ _ _ _ Hv Hf).
  rewrite (accept_token_stacks_spec _ Hwf Htok _ _ _ _ _ Hv Hs).
  split; [|naive_solver]. intros (st & Hst & Hr). exists st. split_and!; [done| |done].
  intros ->. inversion Hr as [|? ? ? ? ? Hstep]; subst; [done|].
  by destruct Hstep as (? & ? & ? & ? & ? & _).
Qed.

Definition ex_grammar (sts : llama_grammar_stacks) : llama_grammar :=
  mk_grammar true ex_rules sts partial_utf8_zero false false [] [] [] [].

Lemma ex_good : good_grammar (ex_grammar ex_stacks).
Proof.
  split; [exact ex_wf|]. apply (run_text_valid 9 ex_rules 0 (bytes "a")); [exact ex_wf|].
  vm_compute. reflexivity.
Qed.

Definition ex_done : llama_grammar := set_partial (ex_grammar [[]]) (mk_partial_utf8 120 0).

Lemma accept_str_token_witness :
  g_partial_utf8 ex_done = g_partial_utf8 ex_done
  /\ forall s : llama_grammar_stack, s ∈ g_stacks ex_done <-> s ∈ g_stacks ex_done.
Proof.
  apply (accept_str_token 9 (ex_grammar ex_stacks) 7 (bytes "bx") ex_done ex_done (bytes "bx")
    (mk_partial_utf8 120 0)).
  - exact ex_good.
  - exact ex_token_free.
  - vm_compute. reflexivity.
  - discriminate.
  - vm_compute. reflexivity.
  - vm_compute. reflexivity.
Defined.

(** ** The sampler on the example grammar *)

Definition ex_vocab : Vocab := {|
  token_to_piece := fun id => if id =? 0 then bytes "ba" else bytes "bb";
  is_eog := fun id => id =? 2;
  vocab_tokenize := fun _ => [] |}.

Definition ex_regex : Regex := {|
  regex_compiles := fun _ => true;
  regex_match := fun _ _ => None; regex_search := fun _ _ => None |}.

(** Candidates "ba", "bb" and the end of generation, with logit 1 each. *)
Definition ex_cur_p : list (token_data Z) :=
  [mk_token_data 0 1; mk_token_data 1 1; mk_token_data 2 1].

Lemma ex_sound : @sound_candidates ex_vocab Z (ex_grammar ex_stacks) ex_cur_p.
Proof.
  intros d Hd He. unfold ex_cur_p in Hd. rewrite !elem_of_cons, elem_of_nil in Hd.
  destruct Hd as [->|[->|[->|[]]]]; [| |discriminate He].
  - exists (bytes "ba"), (mk_partial_utf8 97 0). split_and!; [vm_compute; reflexivity| |by left].
    repeat constructor; discriminate.
  - exists (bytes "bb"), (mk_partial_utf8 98 0). split_and!; [vm_compute; reflexivity| |by left].
    repeat constructor; discriminate.
Qed.

Lemma filter_keeps_acceptable_witness : exists f g',
  @llama_grammar_accept_impl ex_regex ex_vocab f (ex_grammar ex_stacks) 0 = Ret g'
  /\ good_grammar g'.
Proof.
  apply (@filter_keeps_acceptable ex_vocab ex_regex Z 9 9 (ex_grammar ex_stacks) 0 ex_cur_p
    [mk_token_data 0 1; mk_token_data 1 0; mk_token_data 2 0] 0 (mk_token_data 0 1)).
  - exact ex_good.
  - exact ex_token_free.
  - exact ex_no_left_recursion.
  - reflexivity.
  - exact ex_sound.
  - vm_compute. reflexivity.
  - reflexivity.
  - reflexivity.
  - discriminate.
Defined.

Lemma filter_masks_unacceptable_witness :
  @llama_grammar_apply_impl ex_vocab Z 9 9 (ex_grammar ex_stacks) 0 ex_cur_p
    = Ret [mk_token_data 0 1; mk_token_data 1 0; mk_token_data 2 0]
  /\ forall g', @llama_grammar_accept_impl ex_regex ex_vocab 9 (ex_grammar ex_stacks) 1 <> Ret g'.
Proof.
  split; [vm_compute; reflexivity|].
  apply (@filter_masks_unacceptable ex_vocab ex_regex Z 9 9 9 (ex_grammar ex_stacks) 0 ex_cur_p
    [mk_token_data 0 1; mk_token_data 1 0; mk_token_data 2 0] 1 (mk_token_data 1 1)
    (bytes "bb") 98).
  - exact ex_good.
  - exact ex_token_free.
  - reflexivity.
  - exact ex_sound.
  - vm_compute. reflexivity.
  - reflexivity.
  - discriminate.
  - reflexivity.
  - discriminate.
  - discriminate.
  - split_and!; [vm_compute; reflexivity| |by left]. repeat constructor; discriminate.
Defined.
