(* ===== verification/GrammarTrigger.v ===== *)
(** * Lazy grammars: what is replayed when a trigger fires.

    While a lazy grammar waits, every token is appended to a text buffer with
    its interval; when a pattern matches, the tokens that overlap the rest of
    the buffer are accepted again.  The intervals tile the buffer
    ([tiles]), so what is replayed is exactly the text from the match on. *)

From S2P Require Import Prelude Utf8 Grammar GrammarParser GrammarSampler.
From Stdlib Require Import Lia.
Import GrammarUtf8.

(** The intervals of the tokens follow one another from [start] to [stop]. *)
Fixpoint tiles (start : nat) (ps : list token_pos) (stop : nat) : Prop :=
  match ps with
  | [] => start = stop
  | tp :: ps => tp_start tp = start /\ (start <= tp_end tp)%nat /\ tiles (tp_end tp) ps stop
  end.

(** The tokens to replay from [start] on, with the part of their text there. *)
Definition replay_pieces (start : nat) (buffer : list Z) (ps : list token_pos)
    : list (Z * list Z) :=
  omap (fun tp =>
    if (tp_end tp <=? start)%nat then None
    else let from := if (tp_start tp <? start)%nat then start else tp_start tp in
         Some (tp_token tp, substr buffer from (tp_end tp - from))) ps.

Definition accept_piece (afuel : nat) (g : llama_grammar) (p : Z * list Z) : outcome llama_grammar :=
  llama_grammar_accept_token afuel g p.1 p.2.

Lemma tiles_le ps : forall a b, tiles a ps b -> (a <= b)%nat.
Proof.
  induction ps as [|tp ps IH]; intros a b H; simpl in H; [lia|].
  destruct H as (_ & ? & H). apply IH in H. lia.
Qed.

Lemma tiles_snoc ps tp : forall a b, tiles a ps b -> tp_start tp = b -> (b <= tp_end tp)%nat ->
  tiles a (ps ++ [tp]) (tp_end tp).
Proof.
  induction ps as [|tp' ps IH]; intros a b H E Hle; simpl in *; [by subst|].
  destruct H as (? & ? & H). by split_and!; [..|eapply IH].
Qed.

Lemma substr_app buffer a b c : (a <= b <= c)%nat ->
  substr buffer a (c - a) = substr buffer a (b - a) ++ substr buffer b (c - b).
Proof.
  intros H. unfold substr.
  rewrite <- (take_drop (b - a) (take (c - a) (drop a buffer))), take_take, Nat.min_l by lia.
  f_equal. rewrite skipn_firstn_comm, drop_drop.
  replace (c - a - (b - a))%nat with (c - b)%nat by lia.
  by replace (a + (b - a))%nat with b by lia.
Qed.

Lemma replay_concat start buffer ps : forall a b, tiles a ps b ->
  concat (map snd (replay_pieces start buffer ps))
  = substr buffer (max start a) (b - max start a).
Proof.
  induction ps as [|tp ps IH]; intros a b H; simpl in H.
  { subst. unfold substr. replace (b - max start b)%nat with 0%nat by lia. done. }
  destruct H as (<- & Hle & H). pose proof (tiles_le _ _ _ H) as Hb.
  specialize (IH _ _ H). unfold replay_pieces in *. cbn [omap list_omap].
  destruct (tp_end tp <=? start)%nat eqn:E; [apply Nat.leb_le in E|apply Nat.leb_gt in E].
  - rewrite IH. by rewrite !Nat.max_l by lia.
  - cbn [map concat snd]. rewrite IH, (Nat.max_r start (tp_end tp)) by lia.
    destruct (tp_start tp <? start)%nat eqn:E2; [apply Nat.ltb_lt in E2|apply Nat.ltb_ge in E2].
    + rewrite Nat.max_l by lia. rewrite <- substr_app by lia. done.
    + rewrite Nat.max_r by lia. rewrite <- substr_app by lia. done.
Qed.

Lemma accept_token_buffer f g token piece g' : llama_grammar_accept_token f g token piece = Ret g' ->
  g_trigger_buffer g' = g_trigger_buffer g.
Proof.
  unfold llama_grammar_accept_token. intros H. apply bind_Ret in H as ([cps p] & _ & H).
  apply bind_Ret in H as (sts & _ & H). simpl in H. case_bool_decide; [done|].
  by injection H as <-.
Qed.

(** Replaying is accepting the pieces one after the other. *)
Lemma replay_fold f start ps : forall g,
  foldM (replay_token f start) g ps
  = foldM (accept_piece f) g (replay_pieces start (g_trigger_buffer g) ps).
Proof.
  induction ps as [|tp ps IH]; intros g; [done|].
  unfold replay_pieces in *. cbn [foldM omap list_omap].
  assert (Hr : replay_token f start g tp = if (tp_end tp <=? start)%nat then Ret g else
    let from := if (tp_start tp <? start)%nat then start else tp_start tp in
    accept_piece f g (tp_token tp, substr (g_trigger_buffer g) from (tp_end tp - from)))
    by reflexivity.
  rewrite Hr. clear Hr. destruct (tp_end tp <=? start)%nat; [apply IH|].
  cbn zeta. cbn [foldM].
  destruct (accept_piece f g _) as [g'| | | |] eqn:E; cbn [mbind outcome_bind]; try done.
  rewrite IH. apply accept_token_buffer in E. cbn [fst snd] in E. by rewrite E.
Qed.

Section Trigger.
Context {R : Regex} {V : Vocab}.

(** The waiting states: the intervals tile the buffer. *)
Definition waiting (g : llama_grammar) : Prop :=
  g_has_vocab g = true /\ g_awaiting_trigger g = true
  /\ tiles 0 (g_trigger_buffer_positions g) (length (g_trigger_buffer g)).

(** The first pattern that matches, and where. *)
Fixpoint first_match (patterns : list (list Z)) (buffer : list Z) : option nat :=
  match patterns with
  | [] => None
  | p :: patterns =>
      match trigger_find p buffer with Some s => Some s | None => first_match patterns buffer end
  end.

Lemma patterns_loop_spec f patterns g :
  patterns_loop f g patterns =
  match first_match patterns (g_trigger_buffer g) with
  | None => Ret g
  | Some start =>
      g' ← foldM (replay_token f start)
             (set_trigger g false (g_trigger_buffer g) (g_trigger_buffer_positions g))
             (g_trigger_buffer_positions g);
      Ret (set_trigger g' false [] [])
  end.
Proof.
  induction patterns as [|p patterns IH]; simpl; [done|].
  destruct (trigger_find p (g_trigger_buffer g)); [done|apply IH].
Qed.

(** C40. A token that is not a trigger token, while a lazy grammar waits: with no
    pattern matching the text so far the grammar goes on waiting, with the
    token's text and interval recorded; with one matching from [start] on, the
    grammar accepts pieces that are together exactly the text from [start] on,
    and waits no longer. *)
Theorem lazy_replays_suffix f g token :
  waiting g -> token ∉ g_trigger_tokens g ->
  let buffer := g_trigger_buffer g ++ token_to_piece token in
  match first_match (g_trigger_patterns g) buffer with
  | None => exists g', llama_grammar_accept_impl f g token = Ret g' /\ waiting g'
                       /\ g_trigger_buffer g' = buffer /\ g_stacks g' = g_stacks g
  | Some start => exists pieces, concat (map snd pieces) = drop start buffer /\
      forall g', llama_grammar_accept_impl f g token = Ret g' <->
        exists g1, foldM (accept_piece f)
           (set_trigger g false buffer (g_trigger_buffer_positions g
              ++ [mk_token_pos token (length (g_trigger_buffer g)) (length buffer)])) pieces = Ret g1
          /\ g' = set_trigger g1 false [] []
  end.
Proof.
  intros (Hvoc & Haw & Htiles) Htok buffer.
  set (ps := g_trigger_buffer_positions g
              ++ [mk_token_pos token (length (g_trigger_buffer g)) (length buffer)]).
  assert (Hacc : llama_grammar_accept_impl f g token
                 = patterns_loop f (set_trigger g true buffer ps) (g_trigger_patterns g)).
  { unfold llama_grammar_accept_impl. rewrite Hvoc, Haw. cbn -[patterns_loop].
    rewrite bool_decide_eq_false_2 by done. unfold ps, buffer. by rewrite length_app. }
  assert (Htiles' : tiles 0 ps (length buffer)).
  { eapply (tiles_snoc _ (mk_token_pos token _ (length buffer))); [done|done|].
    unfold buffer. rewrite length_app. simpl. lia. }
  rewrite Hacc, patterns_loop_spec. cbn [g_trigger_buffer set_trigger].
  destruct (first_match (g_trigger_patterns g) buffer) as [start|].
  - exists (replay_pieces start buffer ps). split.
    + rewrite (replay_concat _ _ _ _ _ Htiles'), Nat.max_0_r. unfold substr.
      apply take_ge. by rewrite length_drop.
    + intros g'. cbn [g_trigger_buffer_positions set_trigger].
      rewrite replay_fold. cbn [g_trigger_buffer set_trigger].
      rewrite bind_Ret. split; intros (g1 & H1 & H2); exists g1; (split; [exact H1|congruence]).
  - eexists. by split_and!.
Qed.

End Trigger.

(** ** An instance *)

Definition ex_vocab : Vocab := {|
  token_to_piece := fun id => if id =? 3 then bytes "ab" else bytes "x";
  is_eog := fun id => id =? 2;
  vocab_tokenize := fun _ => [] |}.

(** A regular expression that matches one character at position 1. *)
Definition ex_regex : Regex := {|
  regex_compiles := fun _ => true;
  regex_match := fun _ _ => None;
  regex_search := fun _ s => if (1 <? length s)%nat then Some [(1%nat, 1%nat)] else None |}.

Definition ex_lazy : llama_grammar :=
  mk_grammar true [] [] partial_utf8_zero true true (bytes "xx")
    [mk_token_pos 0 0 1; mk_token_pos 1 1 2] [7] [bytes "p"].

Lemma lazy_replays_suffix_witness :
  exists pieces, concat (map snd pieces) = bytes "xab" /\
      forall g', @llama_grammar_accept_impl ex_regex ex_vocab 9 ex_lazy 3 = Ret g' <->
        exists g1, foldM (accept_piece 9)
           (set_trigger ex_lazy false (bytes "xxab") [mk_token_pos 0 0 1; mk_token_pos 1 1 2;
              mk_token_pos 3 2 4]) pieces = Ret g1
          /\ g' = set_trigger g1 false [] [].
Proof.
  apply (@lazy_replays_suffix ex_regex ex_vocab 9 ex_lazy 3).
  - vm_compute. by split_and!; try lia.
  - intros H. apply list_elem_of_singleton in H. discriminate H.
Defined.
