(* ===== verification/Batch.v ===== *)
(** * Batches and their splitting, [src/llama-batch.cpp].

    [llama_batch_allocr::init] checks a batch and generates its missing fields;
    the [split_*] methods cut it into the ubatches that are computed one by one.
    A null pointer of the input is [None].  Arrays are lists, sequence sets
    (bitsets) are [gset]s of sequence ids.  Positions are signed 32-bit in the
    code and assumed not to overflow there, so they are plain integers. *)

From S2P Require Import Prelude.

Definition LLAMA_MAX_SEQ : nat := 256.

(** ** Data *)

(** [llama_memory_i], as far as [init] asks it. *)
Class Memory := {
  m_seq_pos_min : Z -> Z;
  m_seq_pos_max : Z -> Z;
}.

Section Batch.
(** The type of embedding values ([float]). *)
Context {E : Type}.

(** [llama_batch]. *)
Record llama_batch := mk_batch {
  b_n_tokens : Z;
  b_token : option (list Z);
  b_embd : option (list E);
  b_pos : option (list Z);
  b_n_seq_id : option (list Z);
  b_seq_id : option (list (list Z));
  b_logits : option (list Z);
}.

(** The batch once [init] has filled the fields in. *)
Record full_batch := mk_full {
  n_tokens : nat;
  token : option (list Z);
  embd : option (list E);
  pos : list Z;
  n_seq_id : list Z;
  seq_id : list (list Z);
  logits : list Z;
}.

Notation seq_set_t := (gset Z).

(** [llama_batch_allocr]. *)
Record llama_batch_allocr := mk_allocr {
  batch : full_batch;
  n_pos_per_embd : nat;
  n_embd : nat;
  n_seq_max : nat;
  n_outputs : nat;
  seq_id_unq : list Z;
  seq_idx : list Z;
  has_cpl : bool;
  seq_pos : list (gset Z);
  seq_cpl : list (list bool);
  seq_set : list seq_set_t;
  seq_set_map : gmap seq_set_t (list nat);
  out_ids : list nat;
  n_used : nat;
  used : list bool;
}.

(** [llama_ubatch]. *)
Record llama_ubatch := mk_ubatch {
  u_equal_seqs : bool;
  u_n_tokens : nat;
  u_n_seq_tokens : nat;
  u_n_seqs : nat;
  u_n_seqs_unq : nat;
  u_n_pos : nat;
  u_token : option (list Z);
  u_embd : option (list E);
  u_pos : list Z;
  u_n_seq_id : list Z;
  u_seq_id : list (list Z);
  u_seq_id_unq : list Z;
  u_seq_idx : list Z;
  u_output : list Z;
}.

(** The value-initialised [return {}]. *)
Definition no_ubatch : llama_ubatch :=
  mk_ubatch false 0 0 0 0 0 None None [] [] [] [] [] [].

Definition no_batch : full_batch := mk_full 0 None None [] [] [] [].

(** The constructor. *)
Definition new_allocr (n_pos_per_embd : nat) : llama_batch_allocr :=
  mk_allocr no_batch n_pos_per_embd 0 0 0 [] (replicate LLAMA_MAX_SEQ (-1)) false
    (replicate LLAMA_MAX_SEQ ∅) (replicate LLAMA_MAX_SEQ (replicate LLAMA_MAX_SEQ false))
    [] ∅ [] 0 [].

Definition clear (a : llama_batch_allocr) : llama_batch_allocr :=
  mk_allocr no_batch (n_pos_per_embd a) (n_embd a) (n_seq_max a) 0 []
    (map (fun _ => -1) (seq_idx a)) (has_cpl a) (map (fun _ => ∅) (seq_pos a))
    (map (map (fun _ => false)) (seq_cpl a)) [] ∅ (out_ids a) (n_used a) (used a).

(** ** Getters *)

Definition get_n_tokens (a : llama_batch_allocr) : nat := n_tokens (batch a).
Definition get_n_outputs (a : llama_batch_allocr) : nat := n_outputs a.
Definition get_n_used (a : llama_batch_allocr) : nat := n_used a.
Definition get_out_ids (a : llama_batch_allocr) : list nat := out_ids a.

(** [*set.begin()] and [*set.rbegin()] of a [std::set], -1 when it is empty. *)
Definition set_min (s : gset Z) : Z :=
  match elements s with [] => -1 | x :: l => foldr Z.min x l end.
Definition set_max (s : gset Z) : Z :=
  match elements s with [] => -1 | x :: l => foldr Z.max x l end.

Definition seq_pos_min (a : llama_batch_allocr) (s : nat) : outcome Z :=
  p ← at_ (seq_pos a) s; Ret (set_min p).
Definition seq_pos_max (a : llama_batch_allocr) (s : nat) : outcome Z :=
  p ← at_ (seq_pos a) s; Ret (set_max p).

Definition set_used (a : llama_batch_allocr) (out_ids : list nat) (n_used : nat)
    (used : list bool) : llama_batch_allocr :=
  mk_allocr (batch a) (n_pos_per_embd a) (n_embd a) (n_seq_max a) (n_outputs a) (seq_id_unq a)
    (seq_idx a) (has_cpl a) (seq_pos a) (seq_cpl a) (seq_set a) (seq_set_map a)
    out_ids n_used used.

Definition split_reset (a : llama_batch_allocr) : llama_batch_allocr :=
  set_used a [] 0 (replicate (get_n_tokens a) false).

(** ** [init]: validation and generated fields *)

Definition valid_tokens (b : llama_batch) (n_vocab : Z) : outcome bool :=
  match b_token b with
  | None => Ret true
  | Some toks =>
      foldM (fun ok i => if ok : bool then t ← at_ toks i; Ret ((0 <=? t) && (t <? n_vocab))
                         else Ret false)
        true (seq 0 (Z.to_nat (b_n_tokens b)))
  end.

(** The sequence ids of token [i]: [seq_id[i][0 .. n_seq_id[i])]. *)
Definition seqs_of (n_seq_id : list Z) (seq_id : list (list Z)) (i : nat) : outcome (list Z) :=
  ids ← at_ seq_id i;
  n ← at_ n_seq_id i;
  if decide (Z.to_nat n <= length ids)%nat then Ret (take (Z.to_nat n) ids) else Undef.

Definition valid_seq_ids (b : llama_batch) (n_seq_max : nat) : outcome bool :=
  match b_seq_id b with
  | None => Ret true
  | Some ids =>
      foldM (fun ok i =>
          if ok : bool then
            ns ← match b_n_seq_id b with Some l => Ret l | None => Undef end;
            l ← seqs_of ns ids i;
            Ret (forallb (fun s => (0 <=? s) && (s <? Z.of_nat n_seq_max)) l)
          else Ret false)
        true (seq 0 (Z.to_nat (b_n_tokens b)))
  end.

(** "initialize the starting position for each sequence" and the loop over the
    tokens; [p0] has an entry per sequence. *)
Definition gen_pos_start (memory : option Memory) (n_seq_max : nat) : list Z :=
  map (fun s => match memory with
                | None => 0
                | Some m => m_seq_pos_max (Z.of_nat s) + 1
                end) (seq 0 n_seq_max).

Definition gen_pos_step (n_seq_id : list Z) (seq_id : list (list Z))
    (acc : list Z * list Z) (i : nat) : outcome (list Z * list Z) :=
  let '(pos, p0) := acc in
  ids ← at_ seq_id i;
  s0 ← at_ ids 0;
  p ← at_ p0 (Z.to_nat s0);
  l ← seqs_of n_seq_id seq_id i;
  p0 ← foldM (fun p0 s => set_ p0 (Z.to_nat s) (p + 1)) p0 l;
  Ret (pos ++ [p], p0).

Definition gen_pos (memory : option Memory) (n_seq_max n_tokens : nat) (n_seq_id : list Z)
    (seq_id : list (list Z)) : outcome (list Z) :=
  '(pos, _) ← foldM (gen_pos_step n_seq_id seq_id) ([], gen_pos_start memory n_seq_max)
                (seq 0 n_tokens);
  Ret pos.

(** The output flags: generated, or overridden when all outputs are required. *)
Definition gen_logits (given : option (list Z)) (output_all : bool) (n_tokens : nat)
    : outcome (list Z) :=
  match given with
  | None => Ret (if output_all then replicate n_tokens 1
                 else replicate (n_tokens - 1) 0 ++ [1])
  | Some l =>
      if decide (n_tokens <= length l)%nat then
        Ret (if output_all && existsb (fun x => x =? 0) (take n_tokens l)
             then replicate n_tokens 1 else l)
      else Undef
  end.

(** "auto-generate missing fields" *)
Definition fill_batch (b : llama_batch) (memory : option Memory) (n_seq_max : nat)
    (output_all : bool) : outcome full_batch :=
  let n := Z.to_nat (b_n_tokens b) in
  let ns := default (replicate n 1) (b_n_seq_id b) in
  let ids := default (replicate n [0]) (b_seq_id b) in
  pos ← match b_pos b with
        | Some p => Ret p
        | None => gen_pos memory n_seq_max n ns ids
        end;
  out ← gen_logits (b_logits b) output_all n;
  Ret (mk_full n (b_token b) (b_embd b) pos ns ids out).

(** ** [init]: statistics *)

(** "count the outputs in this batch" *)
Definition count_outputs (b : full_batch) : nat :=
  length (List.filter (fun x => negb (x =? 0)) (take (n_tokens b) (logits b))).

(** "determine coupled sequences": one token. *)
Definition couple_token (b : full_batch)
    (acc : list (gset Z) * list (list bool) * bool) (i : nat)
    : outcome (list (gset Z) * list (list bool) * bool) :=
  ids ← at_ (seq_id b) i;
  s0 ← at_ ids 0;
  l ← seqs_of (n_seq_id b) (seq_id b) i;
  p ← at_ (pos b) i;
  foldM (fun '(sp, cpl, has) '(k, s1) =>
      set ← at_ sp (Z.to_nat s1);
      sp ← set_ sp (Z.to_nat s1) (set ∪ {[ p ]});
      if (0 <? k)%nat then
        row ← at_ cpl (Z.to_nat s1);
        row ← set_ row (Z.to_nat s0) true;
        cpl ← set_ cpl (Z.to_nat s1) row;
        Ret (sp, cpl, true)
      else Ret (sp, cpl, has))
    acc (zip (seq 0 (length l)) l).

(** "precompute the sequence sets for each token". *)
Definition set_of_token (b : full_batch) (i : nat) : outcome seq_set_t :=
  l ← seqs_of (n_seq_id b) (seq_id b) i; Ret (list_to_set l).

Definition add_seq_set (b : full_batch)
    (acc : list seq_set_t * gmap seq_set_t (list nat) * seq_set_t) (i : nat)
    : outcome (list seq_set_t * gmap seq_set_t (list nat) * seq_set_t) :=
  let '(sets, m, unq) := acc in
  cur ← set_of_token b i;
  Ret (sets ++ [cur], <[cur := default [] (m !! cur) ++ [i]]> m, unq ∪ cur).

(** The unique sequence ids and their indices. *)
Definition unq_step (unq : seq_set_t) (acc : list Z * list Z) (s : nat)
    : outcome (list Z * list Z) :=
  let '(ids, idx) := acc in
  if bool_decide (Z.of_nat s ∈ unq) then
    idx ← set_ idx s (Z.of_nat (length ids));
    Ret (ids ++ [Z.of_nat s], idx)
  else Ret (ids, idx).

(** ** [init]: consistency checks; [true] is a failure. *)

Definition check_mrope (b : full_batch) (seq_pos : list (gset Z)) (memory : option Memory)
    (s : nat) : outcome bool :=
  ps ← at_ seq_pos s;
  if bool_decide (ps = ∅) then Ret false
  else
    let p0 := match memory with Some m => m_seq_pos_max (Z.of_nat s) | None => -1 end in
    Ret (match token b with
         | Some _ => (0 <=? p0) && (set_min ps <=? p0)
         | None => (0 <=? p0) && (set_min ps <? p0)
         end).

Definition check_consecutive (seq_pos : list (gset Z)) (memory : option Memory)
    (s : nat) : outcome bool :=
  ps ← at_ seq_pos s;
  if bool_decide (ps = ∅) then Ret false
  else
    let p0 := match memory with Some m => m_seq_pos_max (Z.of_nat s) | None => -1 end in
    Ret (((0 <=? p0) && negb (set_min ps =? p0 + 1))
         || (Z.of_nat (size ps) <? set_max ps - set_min ps + 1)).

(** "sequence %d is coupled to %d in the input batch, but have diverged" *)
Definition check_coupled (seq_cpl : list (list bool)) (memory : option Memory)
    (s0 s1 : nat) : outcome bool :=
  match memory with
  | None => Ret false
  | Some m =>
      row ← at_ seq_cpl s0;
      c ← at_ row s1;
      Ret (c && (negb (m_seq_pos_min (Z.of_nat s0) =? m_seq_pos_min (Z.of_nat s1))
                 || negb (m_seq_pos_max (Z.of_nat s0) =? m_seq_pos_max (Z.of_nat s1))))
  end.

(** [for (x : l) if (check(x)) return false]: does some check fail? *)
Fixpoint any_fails {A} (check : A -> outcome bool) (l : list A) : outcome bool :=
  match l with
  | [] => Ret false
  | x :: l => bad ← check x; if bad : bool then Ret true else any_fails check l
  end.

(** One sequence of one token of the last loop; [cur_set] is [cur_seq_set]
    ([None]: the full bitset set by [.set()]), [cur_pos] is [cur_seq_pos], which
    the loop never updates. *)
Definition check_subset_seq (cur : seq_set_t) (p : Z) (cur_pos : list Z)
    (acc : option (list (option seq_set_t))) (s : Z)
    : outcome (option (list (option seq_set_t))) :=
  match acc with
  | None => Ret None
  | Some cur_set =>
      old ← at_ cur_set (Z.to_nat s);
      let new := match old with None => cur | Some o => o ∩ cur end in
      cur_set ← set_ cur_set (Z.to_nat s) (Some new);
      if bool_decide (new = ∅) then Ret None
      else
        q ← at_ cur_pos (Z.to_nat s);
        if p <? q then Ret None else Ret (Some cur_set)
  end.

Definition check_subset_token (b : full_batch) (sets : list seq_set_t) (cur_pos : list Z)
    (acc : option (list (option seq_set_t))) (i : nat)
    : outcome (option (list (option seq_set_t))) :=
  match acc with
  | None => Ret None
  | Some _ =>
      p ← at_ (pos b) i;
      cur ← at_ sets i;
      l ← seqs_of (n_seq_id b) (seq_id b) i;
      foldM (check_subset_seq cur p cur_pos) acc l
  end.

(** "disallow partial sequence sub-sets" and "decreasing sequence positions". *)
Definition check_subsets (b : full_batch) (sets : list seq_set_t) (n_seq_max : nat)
    : outcome bool :=
  r ← foldM (check_subset_token b sets (replicate n_seq_max (-1)))
        (Some (replicate n_seq_max None)) (seq 0 (n_tokens b));
  Ret (negb (bool_decide (is_Some r))).

(** ** [init] *)

(** The statistics of the batch, from the cleared allocator. *)
Definition init_stats (a : llama_batch_allocr) (b : full_batch) (n_embd n_seq_max : nat)
    : outcome llama_batch_allocr :=
  '(sp, cpl, has) ← foldM (couple_token b) (seq_pos a, seq_cpl a, false) (seq 0 (n_tokens b));
  '(sets, m, unq) ← foldM (add_seq_set b) (seq_set a, seq_set_map a, ∅) (seq 0 (n_tokens b));
  '(ids, idx) ← foldM (unq_step unq) (seq_id_unq a, seq_idx a) (seq 0 n_seq_max);
  Ret (mk_allocr b (n_pos_per_embd a) n_embd n_seq_max (n_outputs a + count_outputs b) ids idx has
         sp cpl sets m (out_ids a) (n_used a) (used a)).

Definition init_checks (a : llama_batch_allocr) (memory : option Memory) : outcome bool :=
  let seqs := seq 0 (n_seq_max a) in
  bad ← (if (1 <? n_pos_per_embd a)%nat
         then any_fails (check_mrope (batch a) (seq_pos a) memory) seqs
         else any_fails (check_consecutive (seq_pos a) memory) seqs);
  if bad : bool then Ret true
  else
    bad ← any_fails (fun s0 => any_fails (check_coupled (seq_cpl a) memory s0) seqs) seqs;
    if bad : bool then Ret true
    else check_subsets (batch a) (seq_set a) (n_seq_max a).

(** [None] is the result [false]; the state a failed [init] leaves is not
    described, as the next [init] starts by clearing it. *)
Definition init (a : llama_batch_allocr) (batch_inp : llama_batch) (n_vocab : Z)
    (memory : option Memory) (n_embd n_seq_max : nat) (output_all : bool)
    : outcome (option llama_batch_allocr) :=
  let a := clear a in
  c_assert (0 <? b_n_tokens batch_inp) "batch.n_tokens > 0";;
  if (LLAMA_MAX_SEQ <? n_seq_max)%nat then Ret None
  else
    ok ← valid_tokens batch_inp n_vocab;
    if negb ok then Ret None
    else
      ok ← valid_seq_ids batch_inp n_seq_max;
      if negb ok then Ret None
      else
        b ← fill_batch batch_inp memory n_seq_max output_all;
        a ← init_stats a b n_embd n_seq_max;
        bad ← init_checks a memory;
        if bad : bool then Ret None else Ret (Some (split_reset a)).

(** ** Ubatches *)

(** The part of a ubatch that is copied from the batch, token by token. *)
Record udata := mk_udata {
  d_token : list Z;
  d_embd : list E;
  d_pos : list Z;
  d_n_seq_id : list Z;
  d_seq_id : list (list Z);
  d_output : list Z;
  d_seq_set_unq : seq_set_t;
  d_out_ids : list nat;
}.

(** Element [i] of the ubatch from batch element [idx]; the positions of section
    [j] of a multi-section position are copied by [add_pos]. *)
Definition add_token (b : full_batch) (n_embd : nat) (d : udata) (idx : nat) : outcome udata :=
  tok ← match token b with
        | Some l => t ← at_ l idx; Ret (d_token d ++ [t])
        | None => Ret (d_token d)
        end;
  emb ← match embd b with
        | Some l => if decide (idx * n_embd + n_embd <= length l)%nat
                    then Ret (d_embd d ++ take n_embd (drop (idx * n_embd) l)) else Undef
        | None => Ret (d_embd d)
        end;
  n ← at_ (n_seq_id b) idx;
  out ← at_ (logits b) idx;
  ids ← seqs_of (n_seq_id b) (seq_id b) idx;
  Ret (mk_udata tok emb (d_pos d) (d_n_seq_id d ++ [n]) (d_seq_id d ++ [ids])
         (d_output d ++ [out]) (d_seq_set_unq d ∪ list_to_set ids)
         (if out =? 0 then d_out_ids d else d_out_ids d ++ [idx])).

(** [pos[j*n_tokens + i]], section after section: text has the same position in
    every section. *)
Definition add_pos (b : full_batch) (acc : list Z) (ji : nat * nat) : outcome (list Z) :=
  let '(j, idx) := ji in
  let src_off := match token b with Some _ => 0%nat | None => (j * n_tokens b)%nat end in
  p ← at_ (pos b) (src_off + idx); Ret (acc ++ [p]).

Definition ubatch_add (a : llama_batch_allocr) (idxs : list nat) (n_seqs : nat)
    (equal_seqs : bool) : outcome (llama_ubatch * llama_batch_allocr) :=
  let n := length idxs in
  let b := batch a in
  c_assert (n mod n_seqs =? 0)%nat "n_tokens%n_seqs == 0";;
  d ← foldM (add_token b (n_embd a)) (mk_udata [] [] [] [] [] [] ∅ (out_ids a)) idxs;
  pos ← foldM (add_pos b) [] (list_prod (seq 0 (n_pos_per_embd a)) idxs);
  '(ids, idx) ← foldM (unq_step (d_seq_set_unq d)) ([], replicate LLAMA_MAX_SEQ (-1))
                  (seq 0 (n_seq_max a));
  Ret (mk_ubatch equal_seqs n (n / n_seqs) n_seqs (length ids) (n_pos_per_embd a)
         ((fun _ => d_token d) <$> token b) ((fun _ => d_embd d) <$> embd b) pos (d_n_seq_id d) (d_seq_id d) ids idx
         (d_output d),
       set_used a (d_out_ids d) (n_used a) (used a)).

(** ** Splitting *)

(** "find the first unused token": its index, or the size of [used]. *)
Fixpoint first_unused (used : list bool) : nat :=
  match used with
  | true :: used => S (first_unused used)
  | _ => 0
  end.

(** What a splitting loop has done: [idxs], [used] and [n_used]. *)
Record taken := mk_taken { t_idxs : list nat; t_used : list bool; t_n_used : nat }.

(** [idxs.push_back(idx); used[idx] = true; ++n_used]. *)
Definition take_token (t : taken) (idx : nat) : outcome taken :=
  u ← set_ (t_used t) idx true;
  Ret (mk_taken (t_idxs t ++ [idx]) u (S (t_n_used t))).

(** The [while (true)] loop of [split_simple]. *)
Fixpoint simple_loop (fuel : nat) (n_ubatch cur_idx : nat) (t : taken) : outcome taken :=
  match fuel with
  | O => NoFuel
  | S fuel =>
      t ← take_token t cur_idx;
      if (length (t_used t) <=? S cur_idx)%nat then Ret t
      else if (n_ubatch <=? length (t_idxs t))%nat then Ret t
      else simple_loop fuel n_ubatch (S cur_idx) t
  end.

Definition split_simple (a : llama_batch_allocr) (n_ubatch : nat)
    : outcome (llama_ubatch * llama_batch_allocr) :=
  let cur_idx := first_unused (used a) in
  if (length (used a) <=? cur_idx)%nat then Ret (no_ubatch, a)
  else
    t ← simple_loop (length (used a)) n_ubatch cur_idx (mk_taken [] (used a) (n_used a));
    ubatch_add (set_used a (out_ids a) (t_n_used t) (t_used t)) (t_idxs t)
      (length (t_idxs t)) false.

(** [batch.seq_id[i][0]] *)
Definition first_seq_id (b : full_batch) (i : nat) : outcome Z :=
  ids ← at_ (seq_id b) i; at_ ids 0.

(** "determine the non-overlapping sequence sets participating in this ubatch" *)
Fixpoint select_sets (a : llama_batch_allocr) (n_ubatch : nat) (sequential : bool)
    (todo : list nat) (cur_seq_set : list seq_set_t) (last_seq_id : Z)
    : outcome (list seq_set_t) :=
  match todo with
  | [] => Ret cur_seq_set
  | i :: todo =>
      u ← at_ (used a) i;
      if u : bool then select_sets a n_ubatch sequential todo cur_seq_set last_seq_id
      else
        set ← at_ (seq_set a) i;
        let add := forallb (fun c => bool_decide (c ∩ set = ∅)) cur_seq_set in
        add ← (if sequential && add && negb (bool_decide (cur_seq_set = []))
               then id ← first_seq_id (batch a) i; Ret (id =? last_seq_id + 1)
               else Ret add);
        if add : bool then
          id ← first_seq_id (batch a) i;
          let cur_seq_set := cur_seq_set ++ [set] in
          if (n_ubatch <? length cur_seq_set)%nat then Ret cur_seq_set
          else select_sets a n_ubatch sequential todo cur_seq_set id
        else select_sets a n_ubatch sequential todo cur_seq_set last_seq_id
  end.

(** One sequence set of [split_equal]: where it occurs ([seq_set_map[cur_seq_set[s]]]),
    [cur_idx[s]] and [idxs_per_seq[s]]. *)
Record group := mk_group { g_occ : list nat; g_cur : nat; g_idxs : list nat }.

(** [while (used[...[cur_idx[s]]]) ++cur_idx[s];] from position [k] on. *)
Fixpoint skip_used (used : list bool) (occ : list nat) (k : nat) : outcome nat :=
  match occ with
  | [] => Undef
  | i :: occ => u ← at_ used i; if u : bool then skip_used used occ (S k) else Ret k
  end.

Definition make_group (a : llama_batch_allocr) (set : seq_set_t) : outcome group :=
  let occ := default [] (seq_set_map a !! set) in
  k ← skip_used (used a) occ 0; Ret (mk_group occ k []).

Definition expand_group (acc : list group * list bool * nat) (g : group)
    : outcome (list group * list bool * nat) :=
  let '(gs, used, n_used) := acc in
  idx ← at_ (g_occ g) (g_cur g);
  used ← set_ used idx true;
  Ret (gs ++ [mk_group (g_occ g) (S (g_cur g)) (g_idxs g ++ [idx])], used, S n_used).

(** The [while (true)] loop of [split_equal]. *)
Fixpoint equal_loop (fuel : nat) (n_ubatch : nat) (gs : list group) (used : list bool)
    (n_used : nat) : outcome (list group * list bool * nat) :=
  match fuel with
  | O => NoFuel
  | S fuel =>
      if forallb (fun g => (g_cur g <? length (g_occ g))%nat) gs then
        '(gs, used, n_used) ← foldM expand_group ([], used, n_used) gs;
        g0 ← at_ gs 0;
        if (n_ubatch <? (length (g_idxs g0) + 1) * length gs)%nat then Ret (gs, used, n_used)
        else equal_loop fuel n_ubatch gs used n_used
      else Ret (gs, used, n_used)
  end.

Definition split_equal (a : llama_batch_allocr) (n_ubatch : nat) (sequential : bool)
    : outcome (llama_ubatch * llama_batch_allocr) :=
  if sequential && has_cpl a then Ret (no_ubatch, a)
  else
    sets ← select_sets a n_ubatch sequential (seq 0 (n_tokens (batch a))) [] (-1);
    if bool_decide (sets = []) then Ret (no_ubatch, a)
    else
      gs ← foldM (fun gs set => g ← make_group a set; Ret (gs ++ [g])) [] sets;
      '(gs, used, n_used) ← equal_loop (S (length (used a))) n_ubatch gs (used a) (n_used a);
      ubatch_add (set_used a (out_ids a) n_used used) (concat (map g_idxs gs)) (length gs) true.

(** [do ++cur_idx while (...)]: the next unused token whose set is a subset. *)
Fixpoint next_subset (fuel : nat) (a : llama_batch_allocr) (used : list bool)
    (cur_seq_set : seq_set_t) (cur_idx : nat) : outcome nat :=
  match fuel with
  | O => NoFuel
  | S fuel =>
      if (cur_idx <? get_n_tokens a)%nat then
        u ← at_ used cur_idx;
        set ← at_ (seq_set a) cur_idx;
        if u || negb (bool_decide (cur_seq_set ∩ set = set))
        then next_subset fuel a used cur_seq_set (S cur_idx)
        else Ret cur_idx
      else Ret cur_idx
  end.

(** The [while (true)] loop of [split_seq]. *)
Fixpoint seq_loop (fuel : nat) (a : llama_batch_allocr) (n_ubatch cur_idx : nat)
    (cur_seq_set : seq_set_t) (t : taken) : outcome taken :=
  match fuel with
  | O => NoFuel
  | S fuel =>
      t ← take_token t cur_idx;
      if (n_ubatch <=? length (t_idxs t))%nat then Ret t
      else
        next ← next_subset (S (get_n_tokens a)) a (t_used t) cur_seq_set (S cur_idx);
        if (next =? get_n_tokens a)%nat then Ret t
        else set ← at_ (seq_set a) next; seq_loop fuel a n_ubatch next set t
  end.

Definition split_seq (a : llama_batch_allocr) (n_ubatch : nat)
    : outcome (llama_ubatch * llama_batch_allocr) :=
  let cur_idx := first_unused (used a) in
  if (length (used a) <=? cur_idx)%nat then Ret (no_ubatch, a)
  else
    set ← at_ (seq_set a) cur_idx;
    t ← seq_loop (length (used a)) a n_ubatch cur_idx set (mk_taken [] (used a) (n_used a));
    ubatch_add (set_used a (out_ids a) (t_n_used t) (t_used t)) (t_idxs t) 1 true.

(** ** Reserved ubatches and the C interface *)

(** The default values of [resize]; the [seq_id] pointers are null. *)
Definition ubatch_reserve (a : llama_batch_allocr) (n_seq_tokens n_seqs : nat)
    : outcome (llama_ubatch * llama_batch_allocr) :=
  let n := (n_seq_tokens * n_seqs)%nat in
  let a := split_reset (clear a) in
  idx ← foldM (fun idx s => set_ idx s (Z.of_nat s)) (replicate LLAMA_MAX_SEQ (-1)) (seq 0 n_seqs);
  Ret (mk_ubatch true n n_seq_tokens n_seqs n_seqs (n_pos_per_embd a) (Some (replicate n 0)) None
         (replicate n 0) (replicate n 0) (replicate n []) (map Z.of_nat (seq 0 n_seqs)) idx (replicate n 0), a).

Definition llama_batch_get_one (tokens : list Z) (n_tokens : Z) : llama_batch :=
  mk_batch n_tokens (Some tokens) None None None None None.

(** ** The memory modules' loop over the ubatches *)

(** Which split a memory module uses. *)
Inductive strategy := Simple | Equal (sequential : bool) | SeqWise.

Definition split_by (st : strategy) (n_ubatch : nat) (a : llama_batch_allocr)
    : outcome (llama_ubatch * llama_batch_allocr) :=
  match st with
  | Simple => split_simple a n_ubatch
  | Equal sequential => split_equal a n_ubatch sequential
  | SeqWise => split_seq a n_ubatch
  end.

(** [while (true) { ubatch = split(...); if (ubatch.n_tokens == 0) break;
    ubatches.push_back(ubatch); }] of the modules' [init_batch]. *)
Fixpoint split_loop (fuel : nat) (st : strategy) (n_ubatch : nat) (a : llama_batch_allocr)
    : outcome (list llama_ubatch * llama_batch_allocr) :=
  match fuel with
  | O => NoFuel
  | S fuel =>
      '(u, a) ← split_by st n_ubatch a;
      if (u_n_tokens u =? 0)%nat then Ret ([], a)
      else '(us, a) ← split_loop fuel st n_ubatch a; Ret (u :: us, a)
  end.

(** The ubatches of a batch, or [None] when "failed to find a suitable split". *)
Definition split_all (st : strategy) (n_ubatch : nat) (a : llama_batch_allocr)
    : outcome (option (list llama_ubatch) * llama_batch_allocr) :=
  '(us, a) ← split_loop (S (get_n_tokens a)) st n_ubatch (split_reset a);
  Ret (if (get_n_used a <? get_n_tokens a)%nat then None else Some us, a).

End Batch.

Arguments llama_batch : clear implicits.
Arguments full_batch : clear implicits.
Arguments llama_batch_allocr : clear implicits.
Arguments llama_ubatch : clear implicits.
