(* ===== verification/BatchFacts.v ===== *)
(** * Splitting loses no token.

    The invariant of the batch allocator ([alloc_ok]), established by [init];
    the loops of the splits take unused tokens, each once; and the ubatch they
    build carries the batch's data for the tokens taken. *)

From S2P Require Import Prelude Batch.
From Stdlib Require Import Lia.

Section Facts.
Context {E : Type}.

Implicit Types (a : llama_batch_allocr E) (b : full_batch E).

(** ** The invariant *)

Definition count_true (l : list bool) : nat := length (List.filter (fun u => u) l).

(** Everything the allocator reads of token [i] is there. *)
Record readable (b : full_batch E) (n_embd n_pos : nat) (i : nat) : Prop := {
  rd_seqs : exists ids, seqs_of (n_seq_id b) (seq_id b) i = Ret ids
    /\ Forall (fun s => 0 <= s < Z.of_nat LLAMA_MAX_SEQ) ids;
  rd_first : exists id, first_seq_id b i = Ret id;
  rd_logits : (i < length (logits b))%nat;
  rd_token l : token b = Some l -> (i < length l)%nat;
  rd_embd l : embd b = Some l -> (i * n_embd + n_embd <= length l)%nat;
  rd_pos j : (j < n_pos)%nat ->
    ((if token b then 0 else j * n_tokens b) + i < length (pos b))%nat;
}.

(** Occurrences are listed in the order of the batch. *)
Definition increasing (l : list nat) : Prop :=
  forall k k' i j, (k < k')%nat -> l !! k = Some i -> l !! k' = Some j -> (i < j)%nat.

Record alloc_ok (a : llama_batch_allocr E) : Prop := {
  ok_used : length (used a) = n_tokens (batch a);
  ok_count : n_used a = count_true (used a);
  ok_sets : length (seq_set a) = n_tokens (batch a);
  ok_map set i : i ∈ default [] (seq_set_map a !! set) <-> seq_set a !! i = Some set;
  ok_nodup set : NoDup (default [] (seq_set_map a !! set));
  ok_sorted set : increasing (default [] (seq_set_map a !! set));
  ok_read i : (i < n_tokens (batch a))%nat -> readable (batch a) (n_embd a) (n_pos_per_embd a) i;
  ok_max : (n_seq_max a <= LLAMA_MAX_SEQ)%nat;
}.

(** The tokens [idxs] were unused and are the ones newly used. *)
Record takes (u : list bool) (idxs : list nat) (u' : list bool) : Prop := {
  tk_nodup : NoDup idxs;
  tk_free i : i ∈ idxs -> u !! i = Some false;
  tk_used i : u' !! i = if bool_decide (i ∈ idxs) then Some true else u !! i;
}.

(** ** Counting *)

Lemma count_true_set u i : u !! i = Some false -> count_true (<[i := true]> u) = S (count_true u).
Proof.
  unfold count_true. revert i. induction u as [|x u IH]; intros [|i] H; simpl in *; try done.
  - by injection H as ->.
  - destruct x; simpl; rewrite (IH _ H); done.
Qed.

Lemma takes_nil u : takes u [] u.
Proof. constructor; [constructor|intros i Hi; by apply not_elem_of_nil in Hi|done]. Qed.

Lemma takes_length u idxs u' : takes u idxs u' -> length u' = length u.
Proof.
  intros [_ Hf Hu].
  assert (Hsome : forall i, is_Some (u' !! i) <-> is_Some (u !! i)).
  { intros i. rewrite Hu. case_bool_decide as Hi; [|done]. rewrite (Hf _ Hi). split; eauto. }
  apply Nat.le_antisymm.
  - destruct (decide (length u' <= length u)%nat) as [|Hn]; [done|].
    assert (is_Some (u !! length u)) as Hs by (apply Hsome, lookup_lt_is_Some; lia).
    apply lookup_lt_is_Some in Hs. lia.
  - destruct (decide (length u <= length u')%nat) as [|Hn]; [done|].
    assert (is_Some (u' !! length u')) as Hs by (apply Hsome, lookup_lt_is_Some; lia).
    apply lookup_lt_is_Some in Hs. lia.
Qed.

Lemma takes_snoc u idxs u' i : takes u idxs u' -> u' !! i = Some false ->
  takes u (idxs ++ [i]) (<[i := true]> u').
Proof.
  intros Ht Hi. pose proof (takes_length _ _ _ Ht) as Hlen. destruct Ht as [Hn Hf Hu].
  assert (Hni : i ∉ idxs).
  { intros Hin. rewrite Hu, bool_decide_true in Hi by done. done. }
  assert (Hui : u !! i = Some false) by (by rewrite Hu, bool_decide_false in Hi).
  constructor.
  - apply NoDup_app. split_and!; [done| |apply NoDup_singleton].
    intros x Hx ->%list_elem_of_singleton. done.
  - intros x [Hx|Hx]%elem_of_app; [auto|]. by apply list_elem_of_singleton in Hx as ->.
  - intros x. destruct (decide (x = i)) as [->|Hne].
    + rewrite list_lookup_insert_eq by (by eapply lookup_lt_Some).
      rewrite bool_decide_true; [done|]. apply elem_of_app. right. by apply list_elem_of_singleton.
    + rewrite list_lookup_insert_ne by done. rewrite Hu. repeat case_bool_decide; try done.
      * exfalso. apply H0. apply elem_of_app. by left.
      * exfalso. apply elem_of_app in H0 as [?|H0]; [done|].
        by apply list_elem_of_singleton in H0.
Qed.

Lemma takes_count u idxs u' : takes u idxs u' -> count_true u' = (count_true u + length idxs)%nat.
Proof.
  revert u. induction idxs as [|i idxs IH]; intros u Ht.
  - assert (u' = u) as ->; [|simpl; lia]. apply list_eq. intros i.
    by rewrite (tk_used _ _ _ Ht).
  - destruct Ht as [Hn Hf Hu]. apply NoDup_cons in Hn as [Hni Hn].
    assert (Hi : u !! i = Some false) by (apply Hf; left).
    rewrite (IH (<[i := true]> u)); [rewrite (count_true_set _ _ Hi); simpl; lia|].
    constructor; [done|..].
    + intros x Hx. rewrite list_lookup_insert_ne by (by intros ->). apply Hf. by right.
    + intros x. rewrite Hu. destruct (decide (x = i)) as [->|Hne].
      * rewrite list_lookup_insert_eq by (by eapply lookup_lt_Some).
        rewrite bool_decide_true by left. by rewrite bool_decide_false.
      * rewrite list_lookup_insert_ne by done. repeat case_bool_decide; try done.
        -- apply elem_of_cons in H as [?|?]; done.
        -- exfalso. apply H. by right.
Qed.

Lemma first_unused_spec u :
  (first_unused u = length u /\ forall i x, u !! i = Some x -> x = true)
  \/ u !! first_unused u = Some false.
Proof.
  induction u as [|[] u IH]; simpl.
  - left. split; [done|]. intros i x H. done.
  - destruct IH as [[Hlen Hall]|H]; [left|by right]. split; [by rewrite Hlen|].
    intros [|i] x Hx; simpl in Hx; [by injection Hx|eauto].
  - by right.
Qed.

Lemma all_true_count u : (forall i x, u !! i = Some x -> x = true) <-> count_true u = length u.
Proof.
  unfold count_true. induction u as [|x u IH]; simpl.
  - split; [done|]. intros _ i x H. done.
  - destruct x; simpl.
    + assert (Hs : forall n m : nat, S n = S m <-> n = m) by lia. rewrite Hs, <- IH. split.
      * intros H i x Hx. by apply (H (S i)).
      * intros H [|i] x Hx; simpl in Hx; [by injection Hx|eauto].
    + split.
      * intros H. by specialize (H 0%nat false eq_refl).
      * intros H. pose proof (filter_length_le (fun u => u) u). lia.
Qed.

(** ** Taking tokens one by one *)

(** What a loop has done since [u0] and [n0]. *)
Definition progress (u0 : list bool) (n0 : nat) (t : taken) : Prop :=
  takes u0 (t_idxs t) (t_used t) /\ t_n_used t = (n0 + length (t_idxs t))%nat.

Lemma take_token_ok u0 n0 t i : progress u0 n0 t -> t_used t !! i = Some false ->
  exists t', take_token t i = Ret t' /\ progress u0 n0 t' /\ t_idxs t' = t_idxs t ++ [i].
Proof.
  intros [Ht Hn] Hi. unfold take_token, set_.
  rewrite decide_True by (by eapply lookup_lt_Some). simpl. eexists. split; [done|].
  split; [|done]. split; simpl; [by apply takes_snoc|]. rewrite length_app. simpl. lia.
Qed.

Lemma progress_start u n : progress u n (mk_taken [] u n).
Proof. split; simpl; [apply takes_nil|lia]. Qed.

(** [split_simple] takes unused tokens in a row.  From its first token on, all
    tokens are unused, as earlier simple splits took a prefix. *)
Definition prefix_used (u : list bool) : Prop := exists k, (k <= length u)%nat /\
  forall i, u !! i = if decide (i < k)%nat then Some true
                     else if decide (i < length u)%nat then Some false else None.

Lemma simple_loop_ok u0 n0 n_ubatch fuel : forall cur t, progress u0 n0 t ->
  (forall i, (cur <= i < length u0)%nat -> t_used t !! i = Some false) ->
  (cur < length u0)%nat -> (length u0 - cur < S fuel)%nat -> (0 < fuel)%nat ->
  (length (t_idxs t) < max 1 n_ubatch)%nat ->
  exists t' k, simple_loop fuel n_ubatch cur t = Ret t' /\ progress u0 n0 t'
    /\ (1 <= k)%nat /\ t_idxs t' = t_idxs t ++ seq cur k /\ (cur + k <= length u0)%nat
    /\ (length (t_idxs t') <= max 1 n_ubatch)%nat.
Proof.
  induction fuel as [|fuel IH]; intros cur t Hp Hfree Hcur Hfuel Hpos Hlen; [lia|].
  cbn [simple_loop].
  destruct (take_token_ok u0 n0 t cur Hp) as (t1 & -> & Hp1 & Hidx); [apply Hfree; lia|].
  cbn [mbind outcome_bind]. pose proof (takes_length _ _ _ (proj1 Hp1)) as Hl1. rewrite Hl1.
  assert (Hidx' : length (t_idxs t1) = S (length (t_idxs t)))
    by (rewrite Hidx, length_app; simpl; lia).
  assert (Hdone : exists t' k, (Ret t1 : outcome _) = Ret t' /\ progress u0 n0 t'
    /\ (1 <= k)%nat /\ t_idxs t' = t_idxs t ++ seq cur k /\ (cur + k <= length u0)%nat
    /\ (length (t_idxs t') <= max 1 n_ubatch)%nat).
  { exists t1, 1%nat. split_and!; [done|apply Hp1..|done|done|lia|lia]. }
  destruct (length u0 <=? S cur)%nat eqn:E1; [done|]. apply Nat.leb_gt in E1.
  destruct (n_ubatch <=? length (t_idxs t1))%nat eqn:E2; [done|]. apply Nat.leb_gt in E2.
  destruct (IH (S cur) t1 Hp1) as (t' & k & -> & Hp' & Hk & Hseq & Hle & Hb); try lia.
  { intros i Hi. rewrite (tk_used _ _ _ (proj1 Hp1)).
    assert (Hu : u0 !! i = Some false).
    { specialize (Hfree i ltac:(lia)). rewrite (tk_used _ _ _ (proj1 Hp)) in Hfree.
      by case_bool_decide. }
    rewrite bool_decide_false; [done|]. rewrite Hidx. intros [Hin|Hin]%elem_of_app.
    - specialize (Hfree i ltac:(lia)).
      by rewrite (tk_used _ _ _ (proj1 Hp)), bool_decide_true in Hfree.
    - apply list_elem_of_singleton in Hin. lia. }
  exists t', (S k). split_and!; [done|apply Hp'..|lia| |lia|lia].
  rewrite Hseq, Hidx, <- app_assoc. done.
Qed.

(** ** [split_seq]: a chain of decreasing sequence sets *)

(** Token [j] comes later than [i] and belongs to no other sequences. *)
Definition narrows (sets : list (gset Z)) (i j : nat) : Prop :=
  (i < j)%nat /\ exists si sj, sets !! i = Some si /\ sets !! j = Some sj /\ sj ⊆ si.

Lemma next_subset_ok a u set fuel : forall cur,
  length u = n_tokens (batch a) -> length (seq_set a) = n_tokens (batch a) ->
  (cur <= n_tokens (batch a))%nat -> (n_tokens (batch a) - cur < fuel)%nat ->
  exists j, next_subset fuel a u set cur = Ret j /\ (cur <= j <= n_tokens (batch a))%nat
    /\ ((j < n_tokens (batch a))%nat -> u !! j = Some false
         /\ exists sj, seq_set a !! j = Some sj /\ sj ⊆ set).
Proof.
  induction fuel as [|fuel IH]; intros cur Hu Hs Hc Hf; [lia|]. cbn [next_subset].
  unfold get_n_tokens. destruct (cur <? n_tokens (batch a))%nat eqn:Ec;
    [apply Nat.ltb_lt in Ec|apply Nat.ltb_ge in Ec; exists cur; split_and!; [done|lia..]].
  destruct (lookup_lt_is_Some_2 u cur ltac:(lia)) as [x Hx].
  destruct (lookup_lt_is_Some_2 (seq_set a) cur ltac:(lia)) as [sj Hsj].
  unfold at_. rewrite Hx, Hsj. cbn [mbind outcome_bind].
  destruct (x || negb (bool_decide (set ∩ sj = sj))) eqn:Eb.
  - destruct (IH (S cur)) as (j & Hj & Hle & Hok); [done..|lia|lia|].
    exists j. split_and!; [done|lia|lia|done].
  - bool_hyps. subst x. exists cur. split_and!; [done|lia|lia|].
    intros _. split; [done|]. exists sj. split; [done|].
    set_solver.
Qed.

Lemma seq_loop_ok a n_ubatch u0 n0 fuel : forall cur set t, progress u0 n0 t ->
  length u0 = n_tokens (batch a) -> length (seq_set a) = n_tokens (batch a) ->
  t_used t !! cur = Some false -> seq_set a !! cur = Some set ->
  (n_tokens (batch a) - cur <= fuel)%nat ->
  (length (t_idxs t) < max 1 n_ubatch)%nat ->
  exists t' l, seq_loop fuel a n_ubatch cur set t = Ret t' /\ progress u0 n0 t'
    /\ t_idxs t' = t_idxs t ++ cur :: l /\ Sorted (narrows (seq_set a)) (cur :: l)
    /\ (length (t_idxs t') <= max 1 n_ubatch)%nat.
Proof.
  induction fuel as [|fuel IH]; intros cur set t Hp Hu Hs Hfree Hset Hfuel Hlen.
  { apply lookup_lt_Some in Hset. lia. }
  cbn [seq_loop].
  destruct (take_token_ok u0 n0 t cur Hp Hfree) as (t1 & -> & Hp1 & Hidx).
  cbn [mbind outcome_bind].
  assert (Hidx' : length (t_idxs t1) = S (length (t_idxs t)))
    by (rewrite Hidx, length_app; simpl; lia).
  assert (Hdone : exists t' l, (Ret t1 : outcome _) = Ret t' /\ progress u0 n0 t'
    /\ t_idxs t' = t_idxs t ++ cur :: l /\ Sorted (narrows (seq_set a)) (cur :: l)
    /\ (length (t_idxs t') <= max 1 n_ubatch)%nat).
  { exists t1, []. split_and!; [done|apply Hp1..|done|by repeat constructor|lia]. }
  destruct (n_ubatch <=? length (t_idxs t1))%nat eqn:E2; [done|]. apply Nat.leb_gt in E2.
  pose proof (lookup_lt_Some _ _ _ Hset) as Hc.
  pose proof (takes_length _ _ _ (proj1 Hp1)) as Hl1.
  destruct (next_subset_ok a (t_used t1) set (S (get_n_tokens a)) (S cur))
    as (j & -> & Hj & Hok); [lia|lia|lia|unfold get_n_tokens; lia|].
  cbn [mbind outcome_bind]. unfold get_n_tokens.
  destruct (j =? n_tokens (batch a))%nat eqn:Ej; [done|]. apply Nat.eqb_neq in Ej.
  destruct (Hok ltac:(lia)) as (Hfj & sj & Hsj & Hsub). unfold at_. rewrite Hsj.
  cbn [mbind outcome_bind].
  destruct (IH j sj t1) as (t' & l & -> & Hp' & Hl & Hsort & Hb); try done; [lia|lia|].
  exists t', (j :: l). split_and!; [done|apply Hp'..| | |done].
  - by rewrite Hl, Hidx, <- app_assoc.
  - constructor; [done|]. constructor. split; [lia|]. by exists set, sj.
Qed.

(** ** [split_equal]: disjoint sequence sets, the same number of tokens each *)

(** The occurrences of a set are used from the front. *)
Definition occ_prefix (u : list bool) (occ : list nat) : Prop :=
  forall k k' i j, (k < k')%nat -> occ !! k = Some i -> occ !! k' = Some j ->
    u !! j = Some true -> u !! i = Some true.

Record group_ok (u : list bool) (g : group) : Prop := {
  gr_nodup : NoDup (g_occ g);
  gr_cur : (g_cur g <= length (g_occ g))%nat;
  gr_used k i : g_occ g !! k = Some i -> u !! i = Some (bool_decide (k < g_cur g)%nat);
  gr_idxs i : i ∈ g_idxs g -> i ∈ g_occ g;
  gr_last i : last (g_idxs g) = Some i -> exists k, g_occ g !! k = Some i /\ S k = g_cur g;
}.

Definition disjoint_groups (gs : list group) : Prop :=
  forall s s' g g', gs !! s = Some g -> gs !! s' = Some g' -> s <> s' ->
    forall i, i ∈ g_occ g -> i ∉ g_occ g'.

Lemma takes_perm u l l' u' : l ≡ₚ l' -> takes u l u' -> takes u l' u'.
Proof.
  intros HP [Hn Hf Hu]. constructor.
  - by rewrite <- HP.
  - intros i Hi. apply Hf. by rewrite HP.
  - intros i. rewrite Hu. repeat case_bool_decide; try done; exfalso;
      rewrite HP in *; done.
Qed.

Definition all_idxs (gs : list group) : list nat := concat (map g_idxs gs).

Lemma all_idxs_snoc gs1 g gs2 idx g' : g_idxs g' = g_idxs g ++ [idx] ->
  all_idxs (gs1 ++ g' :: gs2) ≡ₚ all_idxs (gs1 ++ g :: gs2) ++ [idx].
Proof.
  intros H. unfold all_idxs. rewrite !map_app, !concat_app. simpl. rewrite H.
  rewrite <- !app_assoc. apply Permutation_app_head, Permutation_app_head.
  apply Permutation_app_comm.
Qed.

(** What the loop keeps: every group in order, and exactly their tokens taken. *)
Record groups_ok (u0 : list bool) (n0 : nat) (gs : list group) (u : list bool) (n : nat)
    : Prop := {
  gs_each : Forall (group_ok u) gs;
  gs_disjoint : disjoint_groups gs;
  gs_takes : takes u0 (all_idxs gs) u;
  gs_n : n = (n0 + length (all_idxs gs))%nat;
}.

Definition next_group (g : group) : group :=
  mk_group (g_occ g) (S (g_cur g)) (g_idxs g ++ match g_occ g !! g_cur g with
                                                 | Some i => [i] | None => [] end).

Lemma expand_one u0 n0 gs1 g gs2 u n idx : groups_ok u0 n0 (gs1 ++ g :: gs2) u n ->
  g_occ g !! g_cur g = Some idx ->
  groups_ok u0 n0 (gs1 ++ next_group g :: gs2) (<[idx := true]> u) (S n)
  /\ (idx < length u)%nat.
Proof.
  intros [He Hd Ht Hn] Hidx.
  assert (Hg : group_ok u g) by (rewrite Forall_forall in He; apply He; apply elem_of_app; right; left).
  assert (Hui : u !! idx = Some false).
  { rewrite (gr_used _ _ Hg _ _ Hidx). by rewrite bool_decide_false by lia. }
  assert (Hnext : g_idxs (next_group g) = g_idxs g ++ [idx]) by (simpl; by rewrite Hidx).
  split; [|by eapply lookup_lt_Some]. constructor.
  - apply Forall_app in He as [H1 H2]. apply Forall_cons in H2 as [_ H2].
    assert (Hother : forall s g', (gs1 ++ g :: gs2) !! s = Some g' -> s <> length gs1 ->
      group_ok u g' -> group_ok (<[idx:=true]> u) g').
    { intros s g' Hs Hne [Hn' Hc' Hu' Hi' Hl']. constructor; [done..| |done|done]. intros k i Hk.
      rewrite list_lookup_insert_ne; [by apply Hu'|]. intros ->.
      assert (Hgs : (gs1 ++ g :: gs2) !! length gs1 = Some g) by (by rewrite list_lookup_middle).
      apply (Hd _ _ _ _ Hgs Hs ltac:(done) i); by eapply list_elem_of_lookup_2. }
    apply Forall_app. split; [|constructor].
    + apply Forall_forall. intros g' Hin. apply list_elem_of_lookup in Hin as [s Hs].
      pose proof (lookup_lt_Some _ _ _ Hs). apply (Hother s); [by rewrite lookup_app_l|lia|].
      rewrite Forall_forall in H1. apply H1. by eapply list_elem_of_lookup_2.
    + destruct Hg as [Hn' Hc' Hu' Hi' Hl']. pose proof (lookup_lt_Some _ _ _ Hidx).
      constructor; simpl; [done|lia| | |].
      3: { intros i. rewrite Hidx, last_snoc. intros [= <-]. by exists (g_cur g). }
      2: { intros i. rewrite Hidx, elem_of_app, list_elem_of_singleton.
           intros [?| ->]; [auto|]. by eapply list_elem_of_lookup_2. }
      intros k i Hk.
      destruct (decide (i = idx)) as [->|Hne].
      * rewrite list_lookup_insert_eq by (by eapply lookup_lt_Some).
        assert (k = g_cur g) as -> by (by eapply NoDup_lookup).
        by rewrite bool_decide_true by lia.
      * rewrite list_lookup_insert_ne by done. rewrite (Hu' _ _ Hk). f_equal.
        apply bool_decide_ext. split; [lia|]. intros Hlt.
        assert (k <> g_cur g) by (intros ->; congruence). lia.
    + apply Forall_forall. intros g' Hin. apply list_elem_of_lookup in Hin as [s Hs].
      apply (Hother (length gs1 + S s)%nat); [|lia|].
      * rewrite lookup_app_r by lia. by replace (length gs1 + S s - length gs1)%nat with (S s) by lia.
      * rewrite Forall_forall in H2. apply H2. by eapply list_elem_of_lookup_2.
  - intros s s' g1 g2 Hs Hs' Hne i Hi1 Hi2.
    assert (Hocc : forall s g', (gs1 ++ next_group g :: gs2) !! s = Some g' ->
      exists g0, (gs1 ++ g :: gs2) !! s = Some g0 /\ g_occ g0 = g_occ g').
    { intros s0 g' H0. apply lookup_app_Some in H0 as [H0|[Hle H0]].
      - exists g'. by rewrite lookup_app_l by (by eapply lookup_lt_Some).
      - rewrite lookup_app_r by done. destruct (s0 - length gs1)%nat; simpl in *.
        + injection H0 as <-. by exists g.
        + by exists g'. }
    destruct (Hocc _ _ Hs) as (h1 & Hh1 & Eh1), (Hocc _ _ Hs') as (h2 & Hh2 & Eh2).
    apply (Hd _ _ _ _ Hh1 Hh2 Hne i); congruence.
  - eapply takes_perm; [symmetry; by apply all_idxs_snoc|]. by apply takes_snoc.
  - rewrite (all_idxs_snoc _ _ _ _ _ Hnext), length_app. simpl. lia.
Qed.

Lemma expand_all u0 n0 todo : forall done u n, groups_ok u0 n0 (done ++ todo) u n ->
  Forall (fun g => (g_cur g < length (g_occ g))%nat) todo ->
  exists u', foldM expand_group (done, u, n) todo = Ret (done ++ map next_group todo, u',
      (n + length todo)%nat)
    /\ groups_ok u0 n0 (done ++ map next_group todo) u' (n + length todo).
Proof.
  induction todo as [|g todo IH]; intros dn u n Hok Hcur.
  { exists u. simpl in *. rewrite app_nil_r in *. by rewrite Nat.add_0_r. }
  apply Forall_cons in Hcur as [Hg Hcur].
  destruct (lookup_lt_is_Some_2 _ _ Hg) as [idx Hidx].
  destruct (expand_one _ _ _ _ _ _ _ _ Hok Hidx) as [Hok' Hlt].
  cbn [foldM expand_group]. unfold at_ at 1. rewrite Hidx. cbn [mbind outcome_bind].
  unfold set_ at 1. rewrite decide_True by done. cbn [mbind outcome_bind].
  assert (Hnext : mk_group (g_occ g) (S (g_cur g)) (g_idxs g ++ [idx]) = next_group g)
    by (unfold next_group; by rewrite Hidx).
  rewrite Hnext.
  destruct (IH (dn ++ [next_group g]) (<[idx:=true]> u) (S n)) as (u' & Hf & Hok2); [|done|].
  { by rewrite <- app_assoc. }
  exists u'. cbn [map length]. rewrite <- Nat.add_succ_comm, Hf.
  by rewrite <- app_assoc in *.
Qed.

(** ** Choosing the sets *)

Definition candidate_set a (c : gset Z) : Prop :=
  exists i, used a !! i = Some false /\ seq_set a !! i = Some c.

Definition pairwise_disjoint (cs : list (gset Z)) : Prop :=
  forall s s' c c', cs !! s = Some c -> cs !! s' = Some c' -> s <> s' -> c ∩ c' = ∅.

Lemma pairwise_disjoint_snoc cs c : pairwise_disjoint cs ->
  (forall c', c' ∈ cs -> c' ∩ c = ∅) -> pairwise_disjoint (cs ++ [c]).
Proof.
  intros Hp Hc s s' c1 c2 H1 H2 Hne.
  apply lookup_app_Some in H1 as [H1|[L1 H1]]; apply lookup_app_Some in H2 as [H2|[L2 H2]].
  - by eapply Hp.
  - apply list_lookup_singleton_Some in H2 as [_ <-]. apply Hc. by eapply list_elem_of_lookup_2.
  - apply list_lookup_singleton_Some in H1 as [_ <-].
    rewrite intersection_comm_L. apply Hc. by eapply list_elem_of_lookup_2.
  - apply list_lookup_singleton_Some in H1 as [? _], H2 as [? _]. lia.
Qed.

Lemma select_sets_ok a n_ubatch sequential todo : alloc_ok a -> forall cs last,
  (forall i, i ∈ todo -> (i < n_tokens (batch a))%nat) ->
  Forall (candidate_set a) cs -> pairwise_disjoint cs -> (length cs <= n_ubatch)%nat ->
  exists cs', select_sets a n_ubatch sequential todo cs last = Ret cs'
    /\ Forall (candidate_set a) cs' /\ pairwise_disjoint cs' /\ (length cs' <= S n_ubatch)%nat
    /\ (cs <> [] \/ (exists i, i ∈ todo /\ used a !! i = Some false) -> cs' <> []).
Proof.
  intros Hok. induction todo as [|i todo IH]; intros cs last Hin Hc Hp Hl; cbn [select_sets].
  { exists cs. split_and!; [done..|lia|]. intros [?|(i & Hi & _)]; [done|].
    by apply not_elem_of_nil in Hi. }
  assert (Hi : (i < n_tokens (batch a))%nat) by (apply Hin; left).
  assert (Hin' : forall j, j ∈ todo -> (j < n_tokens (batch a))%nat) by (intros; apply Hin; by right).
  destruct (lookup_lt_is_Some_2 (used a) i) as [u Hu]; [rewrite (ok_used _ Hok); lia|].
  unfold at_. rewrite Hu. cbn [mbind outcome_bind].
  destruct u.
  { destruct (IH cs last) as (cs' & -> & ? & ? & ? & Hne); [done..|].
    exists cs'. split_and!; try done. intros [?|(j & [->|Hj]%elem_of_cons & Hju)]; apply Hne;
      [by left|congruence|right; eauto]. }
  destruct (lookup_lt_is_Some_2 (seq_set a) i) as [set Hset]; [rewrite (ok_sets _ Hok); lia|].
  rewrite Hset. cbn [mbind outcome_bind].
  destruct (rd_first _ _ _ _ (ok_read _ Hok i Hi)) as [id Hid].
  set (add := forallb _ cs).
  assert (Hskip : cs <> [] -> exists cs', select_sets a n_ubatch sequential todo cs last = Ret cs'
    /\ Forall (candidate_set a) cs' /\ pairwise_disjoint cs' /\ (length cs' <= S n_ubatch)%nat
    /\ (cs <> [] \/ (exists i0, i0 ∈ i :: todo /\ used a !! i0 = Some false) -> cs' <> [])).
  { intros Hnil. destruct (IH cs last) as (cs' & -> & ? & ? & ? & Hne); [done..|].
    exists cs'. split_and!; try done. intros _. apply Hne. by left. }
  assert (Hadd : add = true -> exists cs', (id ← first_seq_id (batch a) i;
      (if (n_ubatch <? length (cs ++ [set]))%nat then Ret (cs ++ [set])
       else select_sets a n_ubatch sequential todo (cs ++ [set]) id)) = Ret cs'
    /\ Forall (candidate_set a) cs' /\ pairwise_disjoint cs' /\ (length cs' <= S n_ubatch)%nat
    /\ (cs <> [] \/ (exists i0, i0 ∈ i :: todo /\ used a !! i0 = Some false) -> cs' <> [])).
  { intros Ha. rewrite Hid. cbn [mbind outcome_bind].
    assert (Hc2 : Forall (candidate_set a) (cs ++ [set])).
    { apply Forall_app. split; [done|]. constructor; [by exists i|constructor]. }
    assert (Hp2 : pairwise_disjoint (cs ++ [set])).
    { apply pairwise_disjoint_snoc; [done|]. intros c' Hc'. unfold add in Ha.
      rewrite forallb_forall in Ha. apply list_elem_of_In, Ha in Hc'.
      by apply bool_decide_eq_true in Hc'. }
    assert (Hne2 : cs ++ [set] <> []) by (by destruct cs).
    destruct (n_ubatch <? length (cs ++ [set]))%nat eqn:E2.
    - exists (cs ++ [set]). split_and!; [done..| |done]. rewrite length_app. simpl. lia.
    - apply Nat.ltb_ge in E2. destruct (IH (cs ++ [set]) id) as (cs' & -> & ? & ? & ? & Hne);
        [done..|]. exists cs'. split_and!; try done. intros _. apply Hne. by left. }
  destruct (sequential && add && negb (bool_decide (cs = []))) eqn:Eseq.
  - bool_hyps. rewrite Hid. cbn [mbind outcome_bind].
    destruct (id =? last + 1); [|by apply Hskip]. rewrite Hid in Hadd. by apply Hadd.
  - cbn [mbind outcome_bind]. destruct add eqn:Ea; [by apply Hadd|].
    apply Hskip. intros ->. unfold add in Ea. done.
Qed.

(** ** Building the groups *)

Lemma skip_used_ok u occ : forall k i, occ !! k = Some i -> u !! i = Some false ->
  occ_prefix u occ -> (forall j, j ∈ occ -> is_Some (u !! j)) ->
  forall k0, exists k', skip_used u occ k0 = Ret (k0 + k')%nat /\ (k' <= k)%nat
    /\ forall m j, occ !! m = Some j -> u !! j = Some (bool_decide (m < k')%nat).
Proof.
  induction occ as [|j0 occ IH]; intros k i Hk Hi Hp Hs k0; [done|]. cbn [skip_used].
  destruct (Hs j0 (list_elem_of_here _ _)) as [x Hx]. unfold at_. rewrite Hx.
  cbn [mbind outcome_bind].
  destruct x.
  - destruct k as [|k]; [simpl in Hk; congruence|].
    destruct (IH k i Hk Hi) with (k0 := S k0) as (k' & Hsk & Hle & Hall).
    + intros m m' a b Hm Ha Hb. apply (Hp (S m) (S m')); [lia|done..].
    + intros j Hj. apply Hs. by right.
    + exists (S k'). rewrite Hsk. split_and!; [f_equal; lia|lia|].
      intros [|m] j Hj; simpl in Hj.
      * injection Hj as <-. by rewrite bool_decide_true by lia.
      * rewrite (Hall _ _ Hj). f_equal. apply bool_decide_ext. lia.
  - exists 0%nat. split_and!; [f_equal; lia|lia|]. intros m j Hj.
    rewrite bool_decide_false by lia.
    destruct (Hs j) as [[] Hb]; [by eapply list_elem_of_lookup_2| |done].
    destruct m as [|m]; [simpl in Hj; congruence|].
    assert (u !! j0 = Some true) by (by apply (Hp 0%nat (S m) j0 j); [lia|..]). congruence.
Qed.

(** Every set of the batch is used from the front. *)
Definition fronts_used a : Prop :=
  forall set, occ_prefix (used a) (default [] (seq_set_map a !! set)).

Lemma make_group_ok a c : alloc_ok a -> fronts_used a -> candidate_set a c ->
  exists g, make_group a c = Ret g /\ g_occ g = default [] (seq_set_map a !! c)
    /\ group_ok (used a) g /\ g_idxs g = [] /\ (g_cur g < length (g_occ g))%nat.
Proof.
  intros Hok Hfr (i & Hu & Hset). unfold make_group.
  set (occ := default [] (seq_set_map a !! c)).
  assert (Hin : i ∈ occ) by (by apply (ok_map _ Hok)).
  apply list_elem_of_lookup in Hin as [k Hk].
  destruct (skip_used_ok (used a) occ k i Hk Hu (Hfr c)) with (k0 := 0%nat)
    as (k' & -> & Hle & Hall).
  { intros j Hj. apply (ok_map _ Hok) in Hj. apply lookup_lt_is_Some.
    rewrite (ok_used _ Hok), <- (ok_sets _ Hok). by eapply lookup_lt_Some. }
  pose proof (lookup_lt_Some _ _ _ Hk). eexists. split; [done|]. simpl.
  split_and!; [done| |done|lia]. constructor; simpl; [apply (ok_nodup _ Hok)|lia|done| |done].
  intros j Hj. by apply not_elem_of_nil in Hj.
Qed.

Lemma make_groups_ok a cs : alloc_ok a -> fronts_used a -> Forall (candidate_set a) cs ->
  exists gs, foldM (fun gs set => g ← make_group a set; Ret (gs ++ [g])) [] cs = Ret gs
    /\ Forall2 (fun c g => g_occ g = default [] (seq_set_map a !! c)
         /\ group_ok (used a) g /\ g_idxs g = [] /\ (g_cur g < length (g_occ g))%nat) cs gs.
Proof.
  intros Hok Hfr Hc.
  assert (Hgen : forall acc, exists gs,
    foldM (fun gs set => g ← make_group a set; Ret (gs ++ [g])) acc cs = Ret (acc ++ gs)
    /\ Forall2 (fun c g => g_occ g = default [] (seq_set_map a !! c)
         /\ group_ok (used a) g /\ g_idxs g = [] /\ (g_cur g < length (g_occ g))%nat) cs gs).
  { induction Hc as [|c cs Hcand _ IH]; intros acc.
    - exists []. rewrite app_nil_r. split; [done|constructor].
    - destruct (make_group_ok a c Hok Hfr Hcand) as (g & Hg & Hspec). cbn [foldM].
      rewrite Hg. cbn [mbind outcome_bind].
      destruct (IH (acc ++ [g])) as (gs & Hgs & Hall). exists (g :: gs).
      rewrite Hgs, <- app_assoc. split; [done|by constructor]. }
  destruct (Hgen []) as (gs & ? & ?). by exists gs.
Qed.

Lemma groups_start a cs gs : alloc_ok a -> pairwise_disjoint cs -> Forall (fun c => c <> ∅) cs ->
  Forall2 (fun c g => g_occ g = default [] (seq_set_map a !! c)
       /\ group_ok (used a) g /\ g_idxs g = [] /\ (g_cur g < length (g_occ g))%nat) cs gs ->
  groups_ok (used a) (n_used a) gs (used a) (n_used a)
  /\ Forall (fun g => g_idxs g = [] /\ (g_cur g < length (g_occ g))%nat) gs.
Proof.
  intros Hok Hp Hne H.
  assert (Hidx : all_idxs gs = []).
  { unfold all_idxs. clear -H. induction H as [|c g cs gs (_ & _ & Hg & _) _ IH]; [done|].
    simpl. by rewrite Hg. }
  split; [constructor|].
  - apply Forall_forall. intros g Hg. apply list_elem_of_lookup in Hg as [s Hs].
    destruct (Forall2_lookup_r _ _ _ _ _ H Hs) as (c & _ & _ & ? & _). done.
  - intros s s' g g' Hs Hs' Hss i Hi Hi'.
    destruct (Forall2_lookup_r _ _ _ _ _ H Hs) as (c & Hc & Eg & _).
    destruct (Forall2_lookup_r _ _ _ _ _ H Hs') as (c' & Hc' & Eg' & _).
    rewrite Eg in Hi. rewrite Eg' in Hi'.
    apply (ok_map _ Hok) in Hi, Hi'. assert (c = c') as -> by congruence.
    assert (Hcap : c' ∩ c' = ∅) by (by eapply (Hp s s')).
    rewrite Forall_forall in Hne. apply (Hne c'); [by eapply list_elem_of_lookup_2|]. set_solver.
  - rewrite Hidx. apply takes_nil.
  - rewrite Hidx. simpl. lia.
  - apply Forall_forall. intros g Hg. apply list_elem_of_lookup in Hg as [s Hs].
    by destruct (Forall2_lookup_r _ _ _ _ _ H Hs) as (c & _ & _ & _ & ?).
Qed.

(** ** The expansion loop *)

Definition same_length (m : nat) (gs : list group) : Prop :=
  Forall (fun g => length (g_idxs g) = m) gs.

Lemma equal_loop_ok u0 n0 n_ubatch fuel : forall gs u n m g0,
  groups_ok u0 n0 gs u n -> same_length m gs -> gs !! 0%nat = Some g0 ->
  (length (g_occ g0) - g_cur g0 < fuel)%nat -> (m = 0 \/ (m + 1) * length gs <= n_ubatch)%nat ->
  (m = 0%nat -> Forall (fun g => (g_cur g < length (g_occ g))%nat) gs) ->
  exists gs' u' n' m', equal_loop fuel n_ubatch gs u n = Ret (gs', u', n')
    /\ groups_ok u0 n0 gs' u' n' /\ same_length m' gs' /\ map g_occ gs' = map g_occ gs
    /\ (1 <= m')%nat /\ (m' = 1 \/ m' * length gs <= n_ubatch)%nat.
Proof.
  induction fuel as [|fuel IH]; intros gs u n m g0 Hok Hm Hg0 Hfuel Hb Hfirst; [lia|].
  cbn [equal_loop].
  destruct (forallb (fun g => (g_cur g <? length (g_occ g))%nat) gs) eqn:Ecan.
  - assert (Hcur : Forall (fun g => (g_cur g < length (g_occ g))%nat) gs).
    { apply Forall_forall. intros g Hg. rewrite forallb_forall in Ecan.
      apply Nat.ltb_lt, Ecan. by apply list_elem_of_In. }
    destruct (expand_all u0 n0 gs [] u n Hok Hcur) as (u' & Hf & Hok'). rewrite Hf.
    cbn [mbind outcome_bind app] in *.
    assert (Hm' : same_length (S m) (map next_group gs)).
    { apply Forall_forall. intros g Hg. apply list_elem_of_fmap in Hg as (h & -> & Hh).
      unfold same_length in Hm. rewrite Forall_forall in Hm, Hcur.
      destruct (lookup_lt_is_Some_2 _ _ (Hcur _ Hh)) as [i Hi]. simpl. rewrite Hi, length_app.
      rewrite (Hm _ Hh). simpl. lia. }
    assert (Hg0' : map next_group gs !! 0%nat = Some (next_group g0))
      by (by apply (list_lookup_fmap_Some_2 next_group)).
    unfold at_. rewrite Hg0'. cbn [mbind outcome_bind].
    assert (Hl0 : length (g_idxs (next_group g0)) = S m).
    { unfold same_length in Hm'. rewrite Forall_forall in Hm'. apply Hm'.
      by eapply list_elem_of_lookup_2. }
    rewrite Hl0, length_map.
    assert (Hocc : map g_occ (map next_group gs) = map g_occ gs)
      by (rewrite map_map; by apply map_ext).
    destruct (n_ubatch <? (S m + 1) * length gs)%nat eqn:E2.
    + eexists _, _, _, (S m). split; [done|]. split_and!; [done..|lia|].
      destruct Hb as [->|Hb]; [by left|right; lia].
    + apply Nat.ltb_ge in E2.
      destruct (IH (map next_group gs) u' (n + length gs)%nat (S m) (next_group g0))
        as (gs' & u2 & n' & m' & Hl & Hok2 & Hs2 & Ho2 & H1 & H2); try done.
      * simpl. unfold same_length in Hm. rewrite Forall_forall in Hcur.
        specialize (Hcur g0 ltac:(by eapply list_elem_of_lookup_2)). lia.
      * rewrite length_map. right. lia.
      * rewrite length_map in H2. eexists _, _, _, m'. split_and!; try done. congruence.
  - exists gs, u, n, m. destruct m as [|m]; [|by split_and!; [..|lia|right; lia]].
    exfalso. specialize (Hfirst eq_refl).
    apply not_true_iff_false in Ecan. apply Ecan. apply forallb_forall. intros g Hg.
    rewrite Forall_forall in Hfirst. apply Nat.ltb_lt, Hfirst. by apply list_elem_of_In.
Qed.

(** ** The contents of a ubatch *)

(** The elements of [l] at [idxs]. *)
Definition pick {A} (l : list A) (idxs : list nat) : list A := omap (fun i => l !! i) idxs.

Lemma pick_lookup {A} (l : list A) idxs t i : (forall i, i ∈ idxs -> (i < length l)%nat) ->
  idxs !! t = Some i -> pick l idxs !! t = l !! i.
Proof.
  revert t. induction idxs as [|j idxs IH]; intros t Hin Ht; [done|]. unfold pick. cbn [omap list_omap].
  destruct (lookup_lt_is_Some_2 l j ltac:(apply Hin; set_solver)) as [x Hx]. rewrite Hx.
  destruct t as [|t]; [by injection Ht as <-|]. apply IH; [intros; apply Hin; set_solver|done].
Qed.

Definition is_output (b : full_batch E) (i : nat) : bool := negb (nth i (logits b) 0 =? 0).

(** The ubatch holds the batch's data of the tokens [idxs], in this order. *)
Record describes (a : llama_batch_allocr E) (idxs : list nat) (n_seqs : nat)
    (u : llama_ubatch E) : Prop := {
  ds_n : u_n_tokens u = length idxs;
  ds_n_pos : u_n_pos u = n_pos_per_embd a;
  ds_seqs : u_n_seqs u = n_seqs;
  ds_rect : (u_n_seq_tokens u * n_seqs = length idxs)%nat;
  ds_token : u_token u = (fun l => pick l idxs) <$> token (batch a);
  ds_embd : u_embd u = (fun l => concat (map (fun i => take (n_embd a) (drop (i * n_embd a) l)) idxs))
                         <$> embd (batch a);
  ds_pos : u_pos u = concat (map (fun j => pick
     (drop (if token (batch a) then 0 else j * n_tokens (batch a)) (pos (batch a))) idxs)
     (seq 0 (n_pos_per_embd a)));
  ds_n_seq_id : u_n_seq_id u = pick (n_seq_id (batch a)) idxs;
  ds_seq_id : Forall2 (fun i ids => seqs_of (n_seq_id (batch a)) (seq_id (batch a)) i = Ret ids)
                idxs (u_seq_id u);
  ds_output : u_output u = pick (logits (batch a)) idxs;
  ds_unq : u_seq_id_unq u = map Z.of_nat
    (List.filter (fun j => existsb (fun ids => bool_decide (Z.of_nat j ∈ ids)) (u_seq_id u)) (seq 0 (n_seq_max a)));
}.

Lemma add_tokens_ok b n_embd n_pos idxs : Forall (readable b n_embd n_pos) idxs -> forall d,
  exists d' ids, foldM (add_token b n_embd) d idxs = Ret d'
    /\ d_token d' = d_token d ++ match token b with Some l => pick l idxs | None => [] end
    /\ d_embd d' = d_embd d ++ match embd b with
         | Some l => concat (map (fun i => take n_embd (drop (i * n_embd) l)) idxs) | None => [] end
    /\ d_n_seq_id d' = d_n_seq_id d ++ pick (n_seq_id b) idxs
    /\ d_seq_id d' = d_seq_id d ++ ids
    /\ Forall2 (fun i ids => seqs_of (n_seq_id b) (seq_id b) i = Ret ids) idxs ids
    /\ d_output d' = d_output d ++ pick (logits b) idxs
    /\ d_out_ids d' = d_out_ids d ++ List.filter (is_output b) idxs
    /\ (forall s, s ∈ d_seq_set_unq d' <-> s ∈ d_seq_set_unq d \/ existsb (fun l => bool_decide (s ∈ l)) ids = true).
Proof.
  induction 1 as [|i idxs Hr _ IH]; intros d.
  { exists d, []. split; [done|]. unfold pick. cbn [omap list_omap List.filter map concat].
    destruct (token b), (embd b); rewrite !app_nil_r; split_and!; auto; intros s; simpl; naive_solver. }
  cbn [foldM]. unfold add_token at 2.
  assert (exists toks, match token b with
        | Some l => t ← at_ l i; Ret (d_token d ++ [t])
        | None => Ret (d_token d)
        end = Ret (d_token d ++ toks)
     /\ forall idxs', match token b with Some l => pick l (i :: idxs') | None => [] end
        = toks ++ match token b with Some l => pick l idxs' | None => [] end) as (toks & -> & Htok).
  { destruct (token b) as [l|] eqn:El.
    - destruct (lookup_lt_is_Some_2 l i) as [t Ht]; [by apply (rd_token _ _ _ _ Hr)|].
      unfold at_. rewrite Ht. exists [t]. split; [done|]. intros idxs'. unfold pick. simpl.
      by rewrite Ht.
    - exists []. by rewrite app_nil_r. }
  assert (exists embs, match embd b with
        | Some l => if decide (i * n_embd + n_embd <= length l)%nat
                    then Ret (d_embd d ++ take n_embd (drop (i * n_embd) l)) else Undef
        | None => Ret (d_embd d)
        end = Ret (d_embd d ++ embs)
     /\ forall idxs', match embd b with Some l => concat (map (fun i => take n_embd (drop (i * n_embd) l))
                         (i :: idxs')) | None => [] end
        = embs ++ match embd b with Some l => concat (map (fun i => take n_embd (drop (i * n_embd) l))
                         idxs') | None => [] end) as (embs & -> & Hemb).
  { destruct (embd b) as [l|] eqn:El.
    - rewrite decide_True by (by apply (rd_embd _ _ _ _ Hr)). by eexists.
    - exists []. by rewrite app_nil_r. }
  destruct (rd_seqs _ _ _ _ Hr) as (ids & Hids & Hrange).
  assert (exists k, n_seq_id b !! i = Some k) as [k Hk].
  { unfold seqs_of in Hids. apply bind_Ret in Hids as (? & _ & Hids).
    apply bind_Ret in Hids as (k & Hk & _). apply at_Ret in Hk. by exists k. }
  destruct (lookup_lt_is_Some_2 _ _ (rd_logits _ _ _ _ Hr)) as [out Hout].
  unfold at_ at 1 2. rewrite Hk, Hout, Hids. cbn [mbind outcome_bind].
  edestruct IH as (d' & idss & Hf & E1 & E2 & E3 & E4 & E5 & E6 & E7 & E8). rewrite Hf.
  exists d', (ids :: idss). cbn [d_token d_embd d_n_seq_id d_seq_id d_output d_out_ids
    d_seq_set_unq] in *. rewrite Htok, Hemb, E1, E2, E3, E4, E6, E7.
  unfold pick. cbn [omap list_omap List.filter]. rewrite Hk, Hout, <- !app_assoc.
  assert (Ho : is_output b i = negb (out =? 0))
    by (unfold is_output; by rewrite (nth_lookup_Some _ _ _ _ Hout)).
  rewrite Ho.
  split_and!; try done.
  - by constructor.
  - destruct (out =? 0); simpl; [done|by rewrite <- app_assoc].
  - intros s. rewrite E8, elem_of_union, elem_of_list_to_set. cbn [existsb].
    rewrite orb_true_iff, bool_decide_eq_true. tauto.
Qed.

Lemma foldM_at {A} (f : A -> outcome Z) (g : A -> Z) l : (forall x, x ∈ l -> f x = Ret (g x)) ->
  forall acc, foldM (fun acc x => p ← f x; Ret (acc ++ [p])) acc l = Ret (acc ++ map g l).
Proof.
  induction l as [|x l IH]; intros Hf acc; cbn [foldM map]; [by rewrite app_nil_r|].
  rewrite Hf by left. cbn [mbind outcome_bind]. rewrite IH, <- app_assoc; [done|].
  intros y Hy. apply Hf. by right.
Qed.

Lemma add_pos_ok b n_embd n_pos idxs : Forall (readable b n_embd n_pos) idxs ->
  foldM (add_pos b) [] (list_prod (seq 0 n_pos) idxs)
  = Ret (concat (map (fun j => pick (drop (if token b then 0 else j * n_tokens b) (pos b)) idxs)
       (seq 0 n_pos))).
Proof.
  intros Hr.
  pose (off := fun j => (if token b then 0 else j * n_tokens b)%nat).
  pose (g := fun ji : nat * nat => nth (off ji.1 + ji.2) (pos b) 0).
  assert (Hin : forall j i, (j < n_pos)%nat -> i ∈ idxs -> (off j + i < length (pos b))%nat).
  { intros j i Hj Hi. rewrite Forall_forall in Hr. by apply (rd_pos _ _ _ _ (Hr i Hi) j). }
  assert (Hprod : forall js, (forall j, j ∈ js -> (j < n_pos)%nat) ->
    map g (list_prod js idxs)
    = concat (map (fun j => pick (drop (off j) (pos b)) idxs) js)).
  { induction js as [|j js IHjs]; intros Hjs; [done|]. cbn [list_prod map concat].
    rewrite map_app, IHjs by (intros; apply Hjs; by right). f_equal.
    rewrite map_map. assert (Hj : (j < n_pos)%nat) by (apply Hjs; left).
    specialize (Hin j). clear -Hin Hj. unfold pick, g. simpl.
    induction idxs as [|i idxs IHi]; [done|]. simpl. rewrite lookup_drop.
    destruct (lookup_lt_is_Some_2 (pos b) (off j + i)) as [p Hp]; [apply Hin; [done|left]|].
    rewrite Hp, (nth_lookup_Some _ _ _ _ Hp). f_equal. apply IHi. intros i' Hj' Hi'.
    apply Hin; [done|by right]. }
  transitivity (Ret (map g (list_prod (seq 0 n_pos) idxs)) : outcome _).
  - rewrite <- (app_nil_l (map g _)).
    rewrite <- (foldM_at (fun ji => at_ (pos b) (off ji.1 + ji.2)) g).
    + apply foldM_ext. intros acc [j i] _. unfold add_pos, off. simpl. by destruct (token b).
    + intros [j i] Hji. apply list_elem_of_In, in_prod_iff in Hji as [Hj Hi].
      apply list_elem_of_In in Hi. apply in_seq in Hj. unfold g, at_. simpl.
      destruct (lookup_lt_is_Some_2 (pos b) (off j + i)) as [p Hp]; [apply Hin; [lia|done]|].
      by rewrite Hp, (nth_lookup_Some _ _ _ _ Hp).
  - f_equal. apply Hprod. intros j Hj. apply elem_of_seq in Hj. lia.
Qed.

Lemma unq_ok a unq n : (n <= LLAMA_MAX_SEQ)%nat ->
  forall js ids idx, (forall j, j ∈ js -> (j < n)%nat) -> length idx = LLAMA_MAX_SEQ ->
  exists ids' idx', foldM (unq_step unq) (ids, idx) js = Ret (ids', idx')
    /\ ids' = ids ++ map Z.of_nat (List.filter (fun j => bool_decide (Z.of_nat j ∈ unq)) js).
Proof.
  intros Hn. induction js as [|j js IH]; intros ids idx Hjs Hidx; cbn [foldM].
  { exists ids, idx. split; [done|]. simpl. by rewrite app_nil_r. }
  cbn [List.filter].
  assert (Hstep : unq_step unq (ids, idx) j = if bool_decide (Z.of_nat j ∈ unq) then
     idx ← set_ idx j (Z.of_nat (length ids)); Ret (ids ++ [Z.of_nat j], idx) else Ret (ids, idx))
    by reflexivity.
  rewrite Hstep. clear Hstep. case_bool_decide as Hj.
  - unfold set_. rewrite decide_True by (rewrite Hidx; specialize (Hjs j ltac:(left)); lia).
    cbn [mbind outcome_bind].
    destruct (IH (ids ++ [Z.of_nat j]) (<[j := Z.of_nat (length ids)]> idx))
      as (ids' & idx' & Hf & Hids); [intros; apply Hjs; by right|by rewrite length_insert|].
    exists ids', idx'. by rewrite Hf, Hids, <- app_assoc.
  - cbn [mbind outcome_bind]. destruct (IH ids idx) as (ids' & idx' & Hf & Hids);
      [intros; apply Hjs; by right|done|]. exists ids', idx'. split; [exact Hf|done].
Qed.

Lemma ubatch_add_ok a idxs n_seqs eq : alloc_ok a ->
  (forall i, i ∈ idxs -> (i < n_tokens (batch a))%nat) ->
  (0 < n_seqs)%nat -> (length idxs mod n_seqs = 0)%nat ->
  exists u, ubatch_add a idxs n_seqs eq = Ret (u,
      set_used a (out_ids a ++ List.filter (is_output (batch a)) idxs) (n_used a) (used a))
    /\ describes a idxs n_seqs u /\ u_equal_seqs u = eq.
Proof.
  intros Hok Hin Hpos Hmod. unfold ubatch_add, c_assert. rewrite Hmod, Nat.eqb_refl.
  cbn [mbind outcome_bind].
  assert (Hr : Forall (readable (batch a) (n_embd a) (n_pos_per_embd a)) idxs).
  { apply Forall_forall. intros i Hi. apply (ok_read _ Hok). auto. }
  destruct (add_tokens_ok _ _ _ _ Hr (mk_udata [] [] [] [] [] [] ∅ (out_ids a)))
    as (d & ids & Hd & E1 & E2 & E3 & E4 & E5 & E6 & E7 & E8). rewrite Hd.
  cbn [mbind outcome_bind d_token d_embd d_n_seq_id d_seq_id d_output d_out_ids app] in *.
  rewrite (add_pos_ok _ _ _ _ Hr). cbn [mbind outcome_bind].
  destruct (unq_ok a (d_seq_set_unq d) (n_seq_max a) (ok_max _ Hok) (seq 0 (n_seq_max a)) []
     (replicate LLAMA_MAX_SEQ (-1))) as (uids & uidx & Hu & Hunq).
  { intros j Hj. apply elem_of_seq in Hj. lia. }
  { by rewrite length_replicate. }
  rewrite Hu. cbn [mbind outcome_bind]. rewrite E7. eexists. split; [done|]. split; [|done].
  constructor; cbn; try done.
  - rewrite Nat.mul_comm. symmetry. apply Nat.div_exact; lia.
  - rewrite E1. by destruct (token (batch a)).
  - rewrite E2. by destruct (embd (batch a)).
  - by rewrite E4.
  - rewrite Hunq, E4. simpl. f_equal. apply filter_ext. intros j. apply eq_true_iff_eq.
    rewrite bool_decide_eq_true, E8. set_solver.
Qed.

End Facts.
