(* ===== verification/BatchTheorems.v ===== *)
(** * Theorems about batches.

    [init] establishes the allocator's invariant; every split takes each token
    of the batch exactly once, in ubatches of the shape it promises and of
    bounded size; and the inputs that [init] accepts against its comments. *)

From S2P Require Import Prelude Batch BatchFacts.
From Stdlib Require Import Lia.

Section Split.
Context {E : Type}.

Implicit Types (a : llama_batch_allocr E).

(** ** One split *)

(** [u] is a ubatch of the tokens [idxs], and [a'] is [a] after taking them. *)
Record splits a (u : llama_ubatch E) a' (idxs : list nat) (n_seqs : nat) : Prop := {
  sp_describes : describes a idxs n_seqs u;
  sp_takes : takes (used a) idxs (used a');
  sp_state : a' = set_used a (out_ids a ++ List.filter (is_output (batch a)) idxs)
                    (n_used a + length idxs) (used a');
  sp_nonempty : idxs <> [];
}.

Lemma splits_ok a u a' idxs n_seqs : alloc_ok a -> splits a u a' idxs n_seqs -> alloc_ok a'.
Proof.
  intros Hok [_ Ht Hst _]. rewrite Hst. destruct Hok. constructor; simpl; try done.
  - by rewrite (takes_length _ _ _ Ht).
  - rewrite (takes_count _ _ _ Ht). lia.
Qed.

Lemma used_all a : alloc_ok a -> n_used a = n_tokens (batch a) ->
  forall i x, used a !! i = Some x -> x = true.
Proof.
  intros Hok Hn. apply all_true_count. rewrite <- (ok_count _ Hok), Hn. symmetry. apply ok_used. done.
Qed.

Lemma unused_exists a : alloc_ok a -> n_used a <> n_tokens (batch a) ->
  used a !! first_unused (used a) = Some false.
Proof.
  intros Hok Hn. destruct (first_unused_spec (used a)) as [[_ Hall]|H]; [|done].
  exfalso. apply Hn. rewrite (ok_count _ Hok), <- (ok_used _ Hok). by apply all_true_count.
Qed.

Lemma first_unused_done a : alloc_ok a -> n_used a = n_tokens (batch a) ->
  first_unused (used a) = length (used a).
Proof.
  intros Hok Hn. destruct (first_unused_spec (used a)) as [[? _]|H]; [done|].
  by apply (used_all a Hok Hn) in H.
Qed.

Lemma first_unused_prefix u k : (k <= length u)%nat ->
  (forall i, u !! i = if decide (i < k)%nat then Some true
                     else if decide (i < length u)%nat then Some false else None) ->
  first_unused u = k.
Proof.
  revert k. induction u as [|x u IH]; intros k Hk H; [simpl in *; lia|].
  cbn [length] in *. pose proof (H 0%nat) as H0. change ((x :: u) !! 0%nat) with (Some x) in H0.
  destruct k as [|k]; cbn [first_unused].
  - destruct (decide (0 < 0)%nat); [lia|]. destruct (decide (0 < S (length u))%nat); [|lia].
    by injection H0 as ->.
  - destruct (decide (0 < S k)%nat); [|lia]. injection H0 as ->. f_equal. apply IH; [lia|].
    intros i. specialize (H (S i)). change ((true :: u) !! S i) with (u !! i) in H. rewrite H.
    destruct (decide (S i < S k)%nat), (decide (i < k)%nat); try lia; try done.
    destruct (decide (S i < S (length u))%nat), (decide (i < length u)%nat); try lia; done.
Qed.

Lemma prefix_take u k c u' : (k + c <= length u)%nat ->
  (forall i, u !! i = if decide (i < k)%nat then Some true
                     else if decide (i < length u)%nat then Some false else None) ->
  takes u (seq k c) u' -> prefix_used u'.
Proof.
  intros Hk H Ht. exists (k + c)%nat. rewrite (takes_length _ _ _ Ht). split; [done|].
  intros i. rewrite (tk_used _ _ _ Ht), H. case_bool_decide as Hi.
  - apply elem_of_seq in Hi. rewrite decide_True by lia. done.
  - rewrite elem_of_seq in Hi.
    destruct (decide (i < k)%nat); [by rewrite decide_True by lia|].
    destruct (decide (i < k + c)%nat); [lia|]. done.
Qed.

Lemma split_simple_step a n_ubatch : alloc_ok a -> prefix_used (used a) ->
  n_used a <> n_tokens (batch a) ->
  exists u a' idxs, split_simple a n_ubatch = Ret (u, a')
    /\ splits a u a' idxs (length idxs) /\ prefix_used (used a')
    /\ idxs = seq (first_unused (used a)) (length idxs)
    /\ (length idxs <= max 1 n_ubatch)%nat.
Proof.
  intros Hok Hpre Hn. pose proof (unused_exists a Hok Hn) as Hf.
  pose proof (lookup_lt_Some _ _ _ Hf) as Hlt. unfold split_simple.
  rewrite (proj2 (Nat.leb_gt _ _)) by lia.
  destruct Hpre as (k & Hk & Hpre).
  rewrite (first_unused_prefix _ _ Hk Hpre) in *.
  destruct (simple_loop_ok (used a) (n_used a) n_ubatch (length (used a)) k
    (mk_taken [] (used a) (n_used a))) as (t & c & Ht & [Htk Hnu] & Hc & Hidx & Hle & Hb);
    [apply progress_start| |done|lia|lia|simpl; lia|].
  { intros i Hi. simpl. rewrite Hpre. rewrite decide_False by lia. by rewrite decide_True by lia. }
  rewrite Ht. cbn [mbind outcome_bind]. simpl in Hidx.
  assert (Hlen : length (t_idxs t) = c) by (by rewrite Hidx, length_seq).
  set (a1 := set_used a (out_ids a) (t_n_used t) (t_used t)).
  assert (Hok1 : alloc_ok a1).
  { destruct Hok. constructor; simpl; try done.
    - by rewrite (takes_length _ _ _ Htk).
    - rewrite (takes_count _ _ _ Htk). lia. }
  destruct (ubatch_add_ok a1 (t_idxs t) (length (t_idxs t)) false Hok1) as (u & Hu & Hd & _).
  { intros i. rewrite Hidx, elem_of_seq. simpl. rewrite (ok_used _ Hok) in Hle. lia. }
  { lia. }
  { apply Nat.Div0.mod_same. }
  exists u, (set_used a (out_ids a ++ List.filter (is_output (batch a)) (t_idxs t)) (t_n_used t)
               (t_used t)), (t_idxs t).
  split; [exact Hu|]. split_and!.
  - constructor; simpl; [|done|by rewrite Hnu|].
    + by destruct Hd.
    + intros E0. rewrite E0 in Hlen. simpl in Hlen. lia.
  - simpl. rewrite Hidx in Htk. by eapply prefix_take.
  - by rewrite Hlen.
  - done.
Qed.

Lemma split_seq_step a n_ubatch : alloc_ok a -> n_used a <> n_tokens (batch a) ->
  exists u a' idxs, split_seq a n_ubatch = Ret (u, a')
    /\ splits a u a' idxs 1 /\ Sorted (narrows (seq_set a)) idxs
    /\ (length idxs <= max 1 n_ubatch)%nat.
Proof.
  intros Hok Hn. pose proof (unused_exists a Hok Hn) as Hf.
  pose proof (lookup_lt_Some _ _ _ Hf) as Hlt. unfold split_seq.
  rewrite (proj2 (Nat.leb_gt _ _)) by lia.
  set (k := first_unused (used a)) in *.
  destruct (lookup_lt_is_Some_2 (seq_set a) k) as [set Hset];
    [rewrite (ok_sets _ Hok), <- (ok_used _ Hok); done|].
  unfold at_. rewrite Hset. cbn [mbind outcome_bind].
  destruct (seq_loop_ok a n_ubatch (used a) (n_used a) (length (used a)) k set
    (mk_taken [] (used a) (n_used a))) as (t & l & Ht & [Htk Hnu] & Hidx & Hsort & Hb);
    [apply progress_start|apply Hok..|done|done| |simpl; lia|].
  { rewrite (ok_used _ Hok). lia. }
  rewrite Ht. cbn [mbind outcome_bind]. simpl in Hidx.
  set (a1 := set_used a (out_ids a) (t_n_used t) (t_used t)).
  assert (Hok1 : alloc_ok a1).
  { destruct Hok. constructor; simpl; try done.
    - by rewrite (takes_length _ _ _ Htk).
    - rewrite (takes_count _ _ _ Htk). lia. }
  destruct (ubatch_add_ok a1 (t_idxs t) 1 true Hok1) as (u & Hu & Hd & _).
  { intros i Hi. simpl. rewrite <- (ok_used _ Hok). apply (tk_free _ _ _ Htk) in Hi.
    by eapply lookup_lt_Some. }
  { lia. }
  { apply Nat.mod_1_r. }
  exists u, (set_used a (out_ids a ++ List.filter (is_output (batch a)) (t_idxs t)) (t_n_used t)
               (t_used t)), (t_idxs t).
  split; [exact Hu|]. split_and!; [|by rewrite Hidx|done].
  constructor; simpl; [by destruct Hd|done|by rewrite Hnu|by rewrite Hidx].
Qed.

(** The groups of an equal split: as many tokens each, all of a group of one
    sequence set, the sets of different groups disjoint. *)
Definition equal_groups a (groups : list (list nat)) : Prop :=
  exists m sets, (1 <= m)%nat /\ Forall (fun g => length g = m) groups
    /\ Forall2 (fun set g => forall i, i ∈ g -> seq_set a !! i = Some set) sets groups
    /\ pairwise_disjoint sets.

(** No token has an empty sequence set. *)
Definition sets_nonempty a : Prop := forall i set, seq_set a !! i = Some set -> set <> ∅.

Lemma occurrences_kept a sets gs gs' u0 n0 u n :
  Forall2 (fun c g => g_occ g = default [] (seq_set_map a !! c)
       /\ group_ok (used a) g /\ g_idxs g = [] /\ (g_cur g < length (g_occ g))%nat) sets gs ->
  map g_occ gs' = map g_occ gs -> groups_ok u0 n0 gs' u n ->
  Forall2 (fun c g => g_occ g = default [] (seq_set_map a !! c)
       /\ forall i, i ∈ g_idxs g -> i ∈ g_occ g) sets gs'.
Proof.
  intros H Hocc Hgs.
  assert (Hl : length sets = length gs').
  { rewrite (Forall2_length _ _ _ H). by rewrite <- (length_map g_occ), <- Hocc, length_map. }
  apply Forall2_same_length_lookup_2; [done|]. intros s c g' Hc Hg'.
  assert (Ho : map g_occ gs' !! s = Some (g_occ g'))
    by (by apply (list_lookup_fmap_Some_2 g_occ)).
  rewrite Hocc in Ho. apply list_lookup_fmap_Some in Ho as (g & Eg & Hg).
  destruct (Forall2_lookup_lr _ _ _ _ _ _ H Hc Hg) as (E1 & _). split; [congruence|].
  intros i. pose proof (gs_each _ _ _ _ _ Hgs) as He. rewrite Forall_forall in He.
  apply (gr_idxs _ _ (He g' ltac:(by eapply list_elem_of_lookup_2))).
Qed.

Lemma groups_fronts a sets gs' u' n' out n2 : alloc_ok a -> fronts_used a ->
  Forall2 (fun c g => g_occ g = default [] (seq_set_map a !! c)
       /\ forall i, i ∈ g_idxs g -> i ∈ g_occ g) sets gs' ->
  groups_ok (used a) (n_used a) gs' u' n' -> fronts_used (set_used a out n2 u').
Proof.
  intros Hok Hfr Hoccs Hgok set. simpl. intros k k' i j Hk Hi Hj Hju.
  pose proof (gs_takes _ _ _ _ _ Hgok) as Htk.
  destruct (decide (set ∈ sets)) as [Hin|Hin].
  - apply list_elem_of_lookup in Hin as [s Hs].
    destruct (Forall2_lookup_l _ _ _ _ _ Hoccs Hs) as (g & Hg & Eg & _).
    pose proof (gs_each _ _ _ _ _ Hgok) as He. rewrite Forall_forall in He.
    specialize (He g ltac:(by eapply list_elem_of_lookup_2)). rewrite <- Eg in Hi, Hj.
    rewrite (gr_used _ _ He _ _ Hj) in Hju. injection Hju as Hju.
    apply bool_decide_eq_true in Hju. rewrite (gr_used _ _ He _ _ Hi).
    by rewrite bool_decide_true by lia.
  - assert (Hnj : j ∉ all_idxs gs').
    { intros Hjin. unfold all_idxs in Hjin. apply list_elem_of_In, in_concat in Hjin
        as (l & Hl & Hjl). apply in_map_iff in Hl as (g & <- & Hg).
      apply list_elem_of_In in Hg, Hjl. apply list_elem_of_lookup in Hg as [s Hs].
      destruct (Forall2_lookup_r _ _ _ _ _ Hoccs Hs) as (c & Hc & Eg & Hidx).
      apply Hidx in Hjl. rewrite Eg in Hjl. apply (ok_map _ Hok) in Hjl.
      apply list_elem_of_lookup_2, (ok_map _ Hok) in Hj. apply Hin.
      assert (set = c) as -> by congruence. by eapply list_elem_of_lookup_2. }
    rewrite (tk_used _ _ _ Htk), bool_decide_false in Hju by done.
    rewrite (tk_used _ _ _ Htk). case_bool_decide; [done|]. by eapply (Hfr set k k').
Qed.

(** The last token of each group is the last token used so far of its set. *)
Definition latest a (u : list bool) (groups : list (list nat)) : Prop :=
  Forall (fun g => forall i, last g = Some i -> forall j, u !! j = Some true ->
    seq_set a !! j = seq_set a !! i -> (j <= i)%nat) groups.

Lemma groups_latest a sets gs u0 n0 u n : alloc_ok a ->
  Forall2 (fun c g => g_occ g = default [] (seq_set_map a !! c) /\ forall i, i ∈ g_idxs g -> i ∈ g_occ g) sets gs ->
  groups_ok u0 n0 gs u n -> latest a u (map g_idxs gs).
Proof.
  intros Hok Hoccs Hgs. apply Forall_map, Forall_forall. intros g Hg i Hi j Hj Es.
  pose proof (gs_each _ _ _ _ _ Hgs) as He. rewrite Forall_forall in He. specialize (He g Hg).
  apply list_elem_of_lookup in Hg as [s Hs]. destruct (Forall2_lookup_r _ _ _ _ _ Hoccs Hs) as (c & _ & Eg & _).
  destruct (gr_last _ _ He i Hi) as (k & Hk & Hcur).
  assert (Hc : seq_set a !! i = Some c) by (apply (ok_map _ Hok); rewrite <- Eg; by eapply list_elem_of_lookup_2).
  assert (Hin : j ∈ g_occ g) by (rewrite Eg; apply (ok_map _ Hok); congruence).
  apply list_elem_of_lookup in Hin as [k' Hk']. rewrite (gr_used _ _ He k' j Hk') in Hj. injection Hj as Hj.
  apply bool_decide_eq_true in Hj. destruct (decide (k' = k)) as [->|Hne]; [assert (j = i) as -> by congruence; lia|].
  rewrite Eg in Hk, Hk'. pose proof (ok_sorted _ Hok c k' k j i ltac:(lia) Hk' Hk). lia.
Qed.

Lemma split_equal_step a n_ubatch sequential : alloc_ok a -> fronts_used a -> sets_nonempty a ->
  (sequential = true -> has_cpl a = false) -> n_used a <> n_tokens (batch a) ->
  exists u a' groups, split_equal a n_ubatch sequential = Ret (u, a')
    /\ splits a u a' (concat groups) (length groups) /\ fronts_used a'
    /\ equal_groups a groups /\ (length (concat groups) <= S n_ubatch)%nat /\ latest a (used a') groups.
Proof.
  intros Hok Hfr Hne Hcpl Hn. pose proof (unused_exists a Hok Hn) as Hf.
  unfold split_equal.
  assert (sequential && has_cpl a = false) as ->.
  { destruct sequential; [by rewrite Hcpl|done]. }
  destruct (select_sets_ok a n_ubatch sequential (seq 0 (n_tokens (batch a))) Hok [] (-1))
    as (sets & -> & Hcand & Hdis & Hlen & Hnil);
    [intros i Hi; apply elem_of_seq in Hi; lia|constructor|by intros s s' c c' Hs|simpl; lia|].
  cbn [mbind outcome_bind].
  assert (Hsne : sets <> []).
  { apply Hnil. right. exists (first_unused (used a)). split; [|done].
    apply elem_of_seq. apply lookup_lt_Some in Hf. rewrite (ok_used _ Hok) in Hf. lia. }
  rewrite bool_decide_eq_false_2 by done.
  destruct (make_groups_ok a sets Hok Hfr Hcand) as (gs & -> & Hgs). cbn [mbind outcome_bind].
  assert (Hsets : Forall (fun c => c <> ∅) sets).
  { eapply Forall_impl; [exact Hcand|]. intros c (i & _ & Hi). by eapply Hne. }
  destruct (groups_start a sets gs Hok Hdis Hsets Hgs) as [Hgok Hstart].
  assert (Hgl : length gs = length sets) by (symmetry; by eapply Forall2_length).
  destruct gs as [|g0 gs0]; [destruct sets; [done|simpl in Hgl; lia]|].
  set (gs := g0 :: gs0) in *.
  destruct (equal_loop_ok (used a) (n_used a) n_ubatch (S (length (used a))) gs (used a) (n_used a)
    0 g0) as (gs' & u' & n' & m & Hl & Hgok' & Hm & Hocc & Hm1 & Hb); try done.
  { eapply Forall_impl; [exact Hstart|]. by intros g [-> _]. }
  { assert (Hg0 : group_ok (used a) g0).
    { pose proof (gs_each _ _ _ _ _ Hgok) as H. by apply Forall_cons in H as [? _]. }
    assert (Hle : (length (g_occ g0) <= length (used a))%nat); [|lia].
    rewrite <- (length_seq (length (used a)) 0). apply submseteq_length, NoDup_submseteq.
    - apply Hg0.
    - intros i Hi. apply list_elem_of_lookup in Hi as [k Hk].
      apply (gr_used _ _ Hg0), lookup_lt_Some in Hk. apply elem_of_seq. lia. }
  { by left. }
  { intros _. eapply Forall_impl; [exact Hstart|]. by intros g [_ ?]. }
  rewrite Hl. cbn [mbind outcome_bind].
  assert (Hgl' : length gs' = length gs) by (by rewrite <- (length_map g_occ), Hocc, length_map).
  pose proof (occurrences_kept a sets gs gs' _ _ _ _ Hgs Hocc Hgok') as Hoccs.
  pose proof (gs_takes _ _ _ _ _ Hgok') as Htk. pose proof (gs_n _ _ _ _ _ Hgok') as Hnu.
  assert (Hcount : length (all_idxs gs') = (m * length gs')%nat).
  { unfold all_idxs. clear -Hm. induction Hm as [|g gs Hg _ IH]; [done|].
    simpl. rewrite length_app, IH, Hg. lia. }
  set (a1 := set_used a (out_ids a) n' u').
  assert (Hok1 : alloc_ok a1).
  { destruct Hok. constructor; simpl; try done.
    - by rewrite (takes_length _ _ _ Htk).
    - rewrite (takes_count _ _ _ Htk). lia. }
  destruct (ubatch_add_ok a1 (all_idxs gs') (length gs') true Hok1) as (u & Hu & Hd & _).
  { intros i Hi. simpl. rewrite <- (ok_used _ Hok). apply (tk_free _ _ _ Htk) in Hi.
    by eapply lookup_lt_Some. }
  { rewrite Hgl'. simpl. lia. }
  { rewrite Hcount. apply Nat.Div0.mod_mul. }
  exists u, (set_used a (out_ids a ++ List.filter (is_output (batch a)) (all_idxs gs')) n' u'),
    (map g_idxs gs').
  split; [exact Hu|]. split_and!.
  - rewrite length_map. constructor; [by destruct Hd|done|simpl; by rewrite Hnu|].
    intros E0. change (all_idxs gs' = []) in E0. rewrite E0 in Hcount. simpl in Hcount.
    rewrite Hgl' in Hcount. simpl in Hcount. lia.
  - eapply groups_fronts; try done.
  - exists m, sets. split_and!; [done| | |done].
    + apply Forall_map. exact Hm.
    + apply Forall2_fmap_r. eapply Forall2_impl; [exact Hoccs|]. simpl.
      intros c g [Hg Hin] i Hi. apply (ok_map _ Hok). rewrite <- Hg. auto.
  - change (length (all_idxs gs') <= S n_ubatch)%nat. rewrite Hcount, Hgl'.
    rewrite Hgl' in *. destruct Hb as [->|Hb]; lia.
  - by eapply groups_latest.
Qed.

(** ** The whole batch *)

Lemma takes_trans u l1 u1 l2 u2 : takes u l1 u1 -> takes u1 l2 u2 -> takes u (l1 ++ l2) u2.
Proof.
  intros [N1 F1 U1] [N2 F2 U2]. constructor.
  - apply NoDup_app. split_and!; [done| |done]. intros i H1 H2.
    apply F2 in H2. by rewrite U1, bool_decide_true in H2.
  - intros i [Hi|Hi]%elem_of_app; [auto|]. apply F2 in Hi. rewrite U1 in Hi. by case_bool_decide.
  - intros i. rewrite U2, U1. repeat case_bool_decide; try done; exfalso;
      rewrite elem_of_app in *; tauto.
Qed.

(** What a strategy needs of the tokens used so far. *)
Definition ready_for (st : strategy) a : Prop :=
  match st with
  | Simple => prefix_used (used a)
  | Equal sequential => fronts_used a /\ sets_nonempty a /\ (sequential = true -> has_cpl a = false)
  | SeqWise => True
  end.

Lemma split_by_step st n_ubatch a : alloc_ok a -> ready_for st a -> n_used a <> n_tokens (batch a) ->
  exists u a' idxs n_seqs, split_by st n_ubatch a = Ret (u, a') /\ splits a u a' idxs n_seqs
    /\ ready_for st a'.
Proof.
  intros Hok Hr Hn. destruct st as [|sequential|]; simpl in Hr.
  - destruct (split_simple_step a n_ubatch Hok Hr Hn) as (u & a' & idxs & H & Hs & Hp & _).
    by exists u, a', idxs, (length idxs).
  - destruct Hr as (Hfr & Hne & Hc).
    destruct (split_equal_step a n_ubatch sequential Hok Hfr Hne Hc Hn)
      as (u & a' & gs & H & Hs & Hp & _).
    exists u, a', (concat gs), (length gs). split_and!; try done.
    split; [done|]. rewrite (sp_state _ _ _ _ _ Hs). done.
  - destruct (split_seq_step a n_ubatch Hok Hn) as (u & a' & idxs & H & Hs & _).
    by exists u, a', idxs, 1%nat.
Qed.

Lemma select_sets_done a n_ubatch sequential todo cs last :
  (forall i, i ∈ todo -> used a !! i = Some true) ->
  select_sets a n_ubatch sequential todo cs last = Ret cs.
Proof.
  induction todo as [|i todo IH]; intros H; [done|]. cbn [select_sets].
  assert (Hat : at_ (used a) i = Ret true) by (unfold at_; by rewrite (H i) by left).
  rewrite Hat. cbn [mbind outcome_bind]. apply IH. intros. apply H. by right.
Qed.

Lemma split_by_done st n_ubatch a : alloc_ok a -> n_used a = n_tokens (batch a) ->
  split_by st n_ubatch a = Ret (no_ubatch, a).
Proof.
  intros Hok Hn. pose proof (first_unused_done a Hok Hn) as Hf.
  destruct st as [|sequential|]; simpl.
  - unfold split_simple. by rewrite Hf, Nat.leb_refl.
  - unfold split_equal. destruct (_ && _); [done|]. rewrite select_sets_done; [done|].
    intros i Hi. apply elem_of_seq in Hi.
    destruct (lookup_lt_is_Some_2 (used a) i) as [x Hx]; [rewrite (ok_used _ Hok); lia|].
    by rewrite (used_all a Hok Hn i x Hx) in Hx.
  - unfold split_seq. by rewrite Hf, Nat.leb_refl.
Qed.

Lemma split_loop_ok st n_ubatch fuel : forall a, alloc_ok a -> ready_for st a ->
  (n_tokens (batch a) - n_used a < fuel)%nat ->
  exists us a' idxss, split_loop fuel st n_ubatch a = Ret (us, a')
    /\ Forall2 (fun u idxs => idxs <> [] /\ exists n_seqs, describes a idxs n_seqs u) us idxss
    /\ takes (used a) (concat idxss) (used a') /\ n_used a' = n_tokens (batch a)
    /\ out_ids a' = out_ids a ++ List.filter (is_output (batch a)) (concat idxss)
    /\ batch a' = batch a /\ alloc_ok a'.
Proof.
  induction fuel as [|fuel IH]; intros a Hok Hr Hf; [lia|]. cbn [split_loop].
  destruct (decide (n_used a = n_tokens (batch a))) as [Hn|Hn].
  { rewrite split_by_done by done. exists [], a, []. simpl. rewrite app_nil_r.
    split_and!; try done; apply takes_nil. }
  destruct (split_by_step st n_ubatch a Hok Hr Hn) as (u & a1 & idxs & k & -> & Hs & Hr1).
  cbn [mbind outcome_bind]. pose proof Hs as [Hd Ht Hst Hne].
  rewrite (proj2 (Nat.eqb_neq _ _)).
  2: { rewrite (ds_n _ _ _ _ Hd). by destruct idxs. }
  assert (Hb1 : batch a1 = batch a) by (by rewrite Hst).
  assert (Hn1 : n_used a1 = (n_used a + length idxs)%nat) by (by rewrite Hst).
  assert (Ho1 : out_ids a1 = out_ids a ++ List.filter (is_output (batch a)) idxs)
    by (by rewrite Hst).
  assert (Hl : (0 < length idxs)%nat) by (destruct idxs; [done|simpl; lia]).
  assert (Hle : (n_used a <= n_tokens (batch a))%nat).
  { rewrite (ok_count _ Hok), <- (ok_used _ Hok). apply filter_length_le. }
  destruct (IH a1) as (us & a2 & idxss & -> & H1 & H2 & H3 & H4 & H5 & H6);
    [by eapply splits_ok|done|rewrite Hb1, Hn1; lia|].
  cbn [mbind outcome_bind]. exists (u :: us), a2, (idxs :: idxss).
  split; [done|]. cbn [concat]. split_and!.
  - constructor; [split; [done|by exists k]|]. eapply Forall2_impl; [exact H1|].
    intros u' l [Hl' [k' Hd']]. split; [done|]. exists k'. rewrite Hst in Hd'. by destruct Hd'.
  - by eapply takes_trans.
  - by rewrite H3, Hb1.
  - rewrite H4, Ho1, Hb1, <- app_assoc. f_equal. symmetry. apply List.filter_app.
  - by rewrite H5.
  - done.
Qed.

Lemma count_true_replicate k : count_true (replicate k false) = 0%nat.
Proof. unfold count_true. by induction k. Qed.

Lemma reset_ok a : alloc_ok a -> alloc_ok (split_reset a).
Proof.
  intros []. constructor; simpl; try done.
  - apply length_replicate.
  - by rewrite count_true_replicate.
Qed.

Lemma reset_ready st a : match st with
    | Equal sequential => sets_nonempty a /\ (sequential = true -> has_cpl a = false)
    | _ => True
    end -> ready_for st (split_reset a).
Proof.
  destruct st as [|sequential|]; simpl; [intros _|intros [Hne Hc]|done].
  - exists 0%nat. split; [lia|]. intros i. rewrite length_replicate.
    destruct (decide (i < 0)%nat); [lia|]. destruct (decide (i < get_n_tokens a)%nat) as [H|H].
    + by apply lookup_replicate_2.
    + apply lookup_ge_None_2. rewrite length_replicate. lia.
  - split_and!; try done. intros set k k' i j _ _ _ Hj. simpl in Hj.
    by apply lookup_replicate in Hj as [? _].
Qed.

Lemma takes_everything u l u' : takes u l u' -> (forall i x, u !! i = Some x -> x = false) ->
  (forall i x, u' !! i = Some x -> x = true) -> l ≡ₚ seq 0 (length u).
Proof.
  intros [Hn Hf Hu] Hall Hall'. apply NoDup_Permutation; [done|apply NoDup_seq|].
  intros i. rewrite elem_of_seq. split.
  - intros Hi. apply Hf, lookup_lt_Some in Hi. lia.
  - intros Hi. destruct (lookup_lt_is_Some_2 u i ltac:(lia)) as [x Hx].
    specialize (Hu i). case_bool_decide as Hin; [done|]. rewrite Hx in Hu.
    pose proof (Hall _ _ Hx). pose proof (Hall' _ _ Hu). congruence.
Qed.

(** Splitting a batch loses and repeats no token: for each of the strategies the
    loop of the memory modules returns, finds a split, and its ubatches carry
    the data of groups of tokens that together are exactly the tokens of the
    batch, in an order that [out_ids] records for the outputs. *)
Lemma split_all_ok st n_ubatch a : alloc_ok a ->
  match st with
  | Equal sequential => sets_nonempty a /\ (sequential = true -> has_cpl a = false)
  | _ => True
  end ->
  exists us a' idxss, split_all st n_ubatch a = Ret (Some us, a')
    /\ Forall2 (fun u idxs => idxs <> [] /\ exists n_seqs, describes a idxs n_seqs u) us idxss
    /\ concat idxss ≡ₚ seq 0 (get_n_tokens a)
    /\ get_out_ids a' = List.filter (is_output (batch a)) (concat idxss).
Proof.
  intros Hok Hst. unfold split_all.
  destruct (split_loop_ok st n_ubatch (S (get_n_tokens a)) (split_reset a)) as
    (us & a' & idxss & -> & H1 & H2 & H3 & H4 & H5 & H6);
    [by apply reset_ok|by apply reset_ready|simpl; unfold get_n_tokens; lia|].
  cbn [mbind outcome_bind]. unfold get_n_used, get_n_tokens. rewrite H5, H3. simpl.
  rewrite Nat.ltb_irrefl. exists us, a', idxss. split_and!; [done| | |done].
  - eapply Forall2_impl; [exact H1|]. intros u l [Hl [k []]]. split; [done|]. by exists k.
  - simpl in H2. unfold get_n_tokens in H2.
    rewrite <- (length_replicate (n_tokens (batch a)) false). eapply takes_everything; [exact H2|..].
    + intros i x Hx. by apply lookup_replicate in Hx as [? _].
    + apply (used_all a' H6). rewrite H3, H5. done.
Qed.

End Split.
