(* ===== verification/BatchInit.v ===== *)
(** * What [llama_batch_allocr::init] guarantees.

    A batch it accepts satisfies the invariant that the splits rely on; its
    sequences have gap-free positions that continue the memory; and missing
    positions are generated consecutively. *)

From S2P Require Import Prelude Batch BatchFacts BatchTheorems.
From Stdlib Require Import Lia.

(** ** Loops that succeed *)

Lemma foldM_each {A B} (f : B -> A -> outcome B) l : forall acc r, foldM f acc l = Ret r ->
  forall x, x ∈ l -> exists b b', f b x = Ret b'.
Proof.
  induction l as [|y l IH]; intros acc r H x Hx; [by apply not_elem_of_nil in Hx|].
  simpl in H. apply bind_Ret in H as (b & Hb & H). apply elem_of_cons in Hx as [->|Hx]; eauto.
Qed.

Lemma foldM_bool {A} (g : A -> outcome bool) l : forall b,
  foldM (fun ok x => if ok : bool then g x else Ret false) b l = Ret true ->
  b = true /\ forall x, x ∈ l -> g x = Ret true.
Proof.
  induction l as [|y l IH]; intros b H; simpl in H.
  - injection H as ->. split; [done|]. intros x Hx. by apply not_elem_of_nil in Hx.
  - apply bind_Ret in H as (b' & Hb & H). destruct (IH _ H) as [-> Hall].
    destruct b; [|done]. split; [done|]. intros x [->|Hx]%elem_of_cons; auto.
Qed.

Lemma any_fails_false {A} (check : A -> outcome bool) l : any_fails check l = Ret false ->
  forall x, x ∈ l -> check x = Ret false.
Proof.
  induction l as [|y l IH]; intros H x Hx; [by apply not_elem_of_nil in Hx|].
  simpl in H. apply bind_Ret in H as ([] & Hb & H); [done|].
  apply elem_of_cons in Hx as [->|Hx]; auto.
Qed.

Section Init.
Context {E : Type}.

(** The invariant after [split_reset], which sets the flags itself. *)
Lemma reset_ok_weak (a : llama_batch_allocr E) :
  length (seq_set a) = n_tokens (batch a) ->
  (forall set i, i ∈ default [] (seq_set_map a !! set) <-> seq_set a !! i = Some set) ->
  (forall set, NoDup (default [] (seq_set_map a !! set))) ->
  (forall set, increasing (default [] (seq_set_map a !! set))) ->
  (forall i, (i < n_tokens (batch a))%nat -> readable (batch a) (n_embd a) (n_pos_per_embd a) i) ->
  (n_seq_max a <= LLAMA_MAX_SEQ)%nat -> alloc_ok (split_reset a).
Proof.
  intros H1 H2 H3 H3' H4 H5. constructor; simpl; try done.
  - apply length_replicate.
  - by rewrite count_true_replicate.
Qed.

Implicit Types (b : full_batch E) (inp : llama_batch E).

(** The caller's arrays are long enough, every token is in a sequence, and
    embeddings with several position sections bring their positions. *)
Record arrays_ok inp (n_embd n_pos : nat) : Prop := {
  ar_embd l : b_embd inp = Some l -> (Z.to_nat (b_n_tokens inp) * n_embd <= length l)%nat;
  ar_pos l j : b_pos inp = Some l -> (j < n_pos)%nat ->
    ((if b_token inp then 0 else j * Z.to_nat (b_n_tokens inp)) + Z.to_nat (b_n_tokens inp)
     <= length l)%nat;
  ar_gen : b_pos inp = None -> b_token inp = None -> (n_pos <= 1)%nat;
  ar_seqs l i k : b_n_seq_id inp = Some l -> l !! i = Some k -> 1 <= k;
}.

(** The sequence ids of the tokens of a filled batch. *)
Definition token_seqs b (i : nat) (ids : list Z) : Prop :=
  seqs_of (n_seq_id b) (seq_id b) i = Ret ids.

Lemma seqs_of_inv ns sid i ids : seqs_of ns sid i = Ret ids -> exists k l,
  ns !! i = Some k /\ sid !! i = Some l /\ ids = take (Z.to_nat k) l
  /\ (Z.to_nat k <= length l)%nat.
Proof.
  unfold seqs_of. intros H. apply bind_Ret in H as (l & Hl & H). apply at_Ret in Hl.
  apply bind_Ret in H as (k & Hk & H). apply at_Ret in Hk. case_decide; [|done].
  injection H as <-. by exists k, l.
Qed.

(** ** The statistics *)

(** One token in the coupling loop: its position joins its sequences. *)
Lemma couple_inner p s0 l : forall ks acc r, length ks = length l ->
  Forall (fun s => 0 <= s) l ->
  foldM (fun '(sp, cpl, has) '(k, s1) =>
      set ← at_ sp (Z.to_nat s1);
      sp ← set_ sp (Z.to_nat s1) (set ∪ {[ p ]});
      if (0 <? k)%nat then
        row ← at_ cpl (Z.to_nat s1);
        row ← set_ row (Z.to_nat s0) true;
        cpl ← set_ cpl (Z.to_nat s1) row;
        Ret (sp, cpl, true)
      else Ret (sp, cpl, has)) acc (zip ks l) = Ret r ->
  forall s : nat, (r.1.1 : list (gset Z)) !! s
    = (fun set => if bool_decide (Z.of_nat s ∈ l) then set ∪ {[ p ]} else set) <$> acc.1.1 !! s.
Proof.
  induction l as [|s1 l IH]; intros [|k ks] acc r Hlen Hpos H s; try discriminate Hlen.
  { simpl in H. injection H as <-. rewrite bool_decide_false by apply not_elem_of_nil.
    by destruct (acc.1.1 !! s). }
  apply Forall_cons in Hpos as [Hs1 Hpos]. injection Hlen as Hlen.
  destruct acc as [[sp cpl] has]. cbn [zip zip_with foldM] in H.
  apply bind_Ret in H as (acc1 & H1 & H).
  apply bind_Ret in H1 as (set & Hset & H1). apply at_Ret in Hset.
  apply bind_Ret in H1 as (sp1 & Hsp1 & H1). apply set_Ret in Hsp1 as [Hlt ->].
  assert (Eacc : acc1.1.1 = <[Z.to_nat s1 := set ∪ {[ p ]}]> sp).
  { destruct (0 <? k)%nat; [|by injection H1 as <-].
    apply bind_Ret in H1 as (row & _ & H1). apply bind_Ret in H1 as (row' & _ & H1).
    apply bind_Ret in H1 as (cpl' & _ & H1). by injection H1 as <-. }
  rewrite (IH ks acc1 r Hlen Hpos H s), Eacc. simpl.
  destruct (decide (Z.to_nat s1 = s)) as [<-|Hne].
  - rewrite list_lookup_insert_eq by done. rewrite Hset. simpl. f_equal.
    rewrite (bool_decide_true (Z.of_nat (Z.to_nat s1) ∈ s1 :: l))
      by (rewrite Z2Nat.id by lia; left).
    case_bool_decide; [set_solver|done].
  - rewrite list_lookup_insert_ne by done. destruct (sp !! s); [|done]. simpl. f_equal.
    assert (Hiff : Z.of_nat s ∈ s1 :: l <-> Z.of_nat s ∈ l).
    { rewrite elem_of_cons. split; [|by right]. intros [Hs|?]; [lia|done]. }
    by rewrite (bool_decide_ext _ _ Hiff).
Qed.

Lemma couple_tokens b n : forall acc r,
  foldM (couple_token b) acc (seq 0 n) = Ret r ->
  (forall i ids, (i < n)%nat -> token_seqs b i ids -> Forall (fun s => 0 <= s) ids) ->
  (forall i, (i < n)%nat -> exists id ids p, first_seq_id b i = Ret id /\ token_seqs b i ids
     /\ pos b !! i = Some p)
  /\ forall (s : nat) S0, acc.1.1 !! s = Some S0 -> exists S1, r.1.1 !! s = Some S1 /\
     forall p, p ∈ S1 <-> p ∈ S0 \/ exists i ids, (i < n)%nat /\ token_seqs b i ids
       /\ Z.of_nat s ∈ ids /\ pos b !! i = Some p.
Proof.
  induction n as [|n IH]; intros acc r H Hpos.
  { simpl in H. injection H as <-. split; [intros; lia|]. intros s S0 Hs. exists S0.
    split; [done|]. intros p. split; [by left|]. intros [?|(i & ids & ? & _)]; [done|lia]. }
  rewrite seq_S, foldM_app in H. apply bind_Ret in H as (r1 & H1 & H).
  destruct (IH acc r1 H1) as [Hall Hsets]; [intros i ids Hi; apply Hpos; lia|].
  simpl in H. apply bind_Ret in H as (r2 & H & E2). injection E2 as ->.
  unfold couple_token in H. apply bind_Ret in H as (l0 & Hl0 & H).
  apply bind_Ret in H as (s0 & Hs0 & H). apply bind_Ret in H as (ids & Hids & H).
  apply bind_Ret in H as (p & Hp & H). apply at_Ret in Hp.
  assert (Hfirst : first_seq_id b n = Ret s0) by (unfold first_seq_id; by rewrite Hl0).
  split.
  { intros i Hi. destruct (decide (i = n)) as [->|Hne]; [|apply Hall; lia].
    by exists s0, ids, p. }
  intros s S0 Hs. destruct (Hsets s S0 Hs) as (S1 & HS1 & Hiff).
  pose proof (couple_inner p s0 ids (seq 0 (length ids)) r1 r ltac:(by rewrite length_seq)
    (Hpos n ids ltac:(lia) Hids) H s) as Hr. rewrite HS1 in Hr. simpl in Hr.
  eexists. split; [exact Hr|]. intros q.
  assert (Hn : (exists i ids, (i < S n)%nat /\ token_seqs b i ids /\ Z.of_nat s ∈ ids
                  /\ pos b !! i = Some q)
    <-> (exists i ids, (i < n)%nat /\ token_seqs b i ids /\ Z.of_nat s ∈ ids /\ pos b !! i = Some q)
        \/ (Z.of_nat s ∈ ids /\ q = p)).
  { split.
    - intros (i & ids' & Hi & Hids' & Hin & Hq). destruct (decide (i = n)) as [->|Hne].
      + right. unfold token_seqs in Hids'. rewrite Hids in Hids'. injection Hids' as <-.
        split; [done|congruence].
      + left. exists i, ids'. split_and!; [lia|done..].
    - intros [(i & ids' & Hi & ?)|[Hin ->]]; [exists i, ids'; split; [lia|done]|].
      exists n, ids. split_and!; [lia|done..]. }
  rewrite Hn. case_bool_decide; [|rewrite Hiff; tauto].
  rewrite elem_of_union, elem_of_singleton, Hiff. tauto.
Qed.

(** The sequence sets and where they occur. *)
Lemma add_seq_sets b n : forall r,
  foldM (add_seq_set b) ([], ∅, ∅) (seq 0 n) = Ret r ->
  length r.1.1 = n
  /\ (forall i, (i < n)%nat -> exists ids, token_seqs b i ids /\ r.1.1 !! i = Some (list_to_set ids))
  /\ (forall set i, i ∈ default [] (r.1.2 !! set) <-> r.1.1 !! i = Some set)
  /\ (forall set, NoDup (default [] (r.1.2 !! set))) /\ (forall set, increasing (default [] (r.1.2 !! set))).
Proof.
  induction n as [|n IH]; intros r H.
  { simpl in H. injection H as <-. simpl. split_and!; [done|intros; lia| | |].
    - intros set i. rewrite lookup_empty. simpl. split; [by intros ?%not_elem_of_nil|done].
    - intros set. rewrite lookup_empty. constructor.
    - intros set. by rewrite lookup_empty. }
  rewrite seq_S, foldM_app in H. apply bind_Ret in H as ([[sets m] unq] & H1 & H).
  destruct (IH _ H1) as (Hl & Hall & Hm & Hnd & Hinc). simpl in *.
  apply bind_Ret in H as (r2 & H & E2). injection E2 as ->.
  apply bind_Ret in H as (cur & Hcur & H). injection H as <-. simpl.
  apply bind_Ret in Hcur as (ids & Hids & Hcur). injection Hcur as <-.
  set (cur := list_to_set ids : gset Z).
  assert (Hlook : forall i, (sets ++ [cur]) !! i
     = if decide (i < n)%nat then sets !! i else if decide (i = n) then Some cur else None).
  { intros i. destruct (decide (i < n)%nat) as [Hi|Hi]; [by rewrite lookup_app_l by lia|].
    destruct (decide (i = n)) as [->|Hne].
    - rewrite lookup_app_r, Hl, Nat.sub_diag by lia. done.
    - apply lookup_ge_None_2. rewrite length_app. simpl. lia. }
  split_and!.
  - rewrite length_app. simpl. lia.
  - intros i Hi. rewrite Hlook. destruct (decide (i < n)%nat); [by apply Hall|].
    rewrite decide_True by lia. exists ids. assert (i = n) as -> by lia. done.
  - intros set i. rewrite Hlook.
    assert (Hlt : sets !! i = Some set -> (i < n)%nat)
      by (intros Hi; apply lookup_lt_Some in Hi; lia).
    destruct (decide (cur = set)) as [->|Hne].
    + rewrite lookup_insert_eq. simpl. rewrite elem_of_app, list_elem_of_singleton, Hm.
      destruct (decide (i < n)%nat).
      * split; [intros [?| ->]; [done|lia]|by left].
      * destruct (decide (i = n)); [split; [done|by right]|]. split; [|done].
        intros [Hi| ->]; [by apply Hlt in Hi|done].
    + rewrite lookup_insert_ne, Hm by done.
      destruct (decide (i < n)%nat); [done|]. split; [intros Hi; apply Hlt in Hi; lia|].
      destruct (decide (i = n)); [|done]. by intros [= ->].
  - intros set. destruct (decide (cur = set)) as [->|Hne].
    + rewrite lookup_insert_eq. simpl. apply NoDup_app. split_and!; [apply Hnd| |apply NoDup_singleton].
      intros i Hi Hin. apply list_elem_of_singleton in Hin as ->. apply Hm in Hi.
      apply lookup_lt_Some in Hi. lia.
    + rewrite lookup_insert_ne by done. apply Hnd.
  - intros set. destruct (decide (cur = set)) as [->|Hne]; [|rewrite lookup_insert_ne by done; apply Hinc].
    rewrite lookup_insert_eq. simpl. intros k k' i j Hk Hi Hj. apply lookup_lt_Some in Hj as Hlt. rewrite length_app in Hlt. simpl in Hlt.
    rewrite lookup_app_l in Hi by lia. destruct (decide (k' < length (default [] (m !! set)))%nat) as [Hk'|Hk'].
    + rewrite lookup_app_l in Hj by done. by apply (Hinc set k k').
    + assert (k' = length (default [] (m !! set))) as -> by lia. rewrite list_lookup_middle in Hj by done. injection Hj as <-.
      apply list_elem_of_lookup_2, Hm, lookup_lt_Some in Hi. lia.
Qed.

(** ** The filled batch *)

Lemma gen_pos_length ns sid n : forall acc r,
  foldM (gen_pos_step ns sid) acc (seq 0 n) = Ret r -> length r.1 = (length acc.1 + n)%nat.
Proof.
  induction n as [|n IH]; intros acc r H; [injection H as <-; lia|].
  rewrite seq_S, foldM_app in H. apply bind_Ret in H as (r1 & H1 & H).
  specialize (IH _ _ H1). simpl in H. apply bind_Ret in H as (r2 & H & E2). injection E2 as ->.
  destruct r1 as [pos p0]. simpl in H. apply bind_Ret in H as (l0 & _ & H).
  apply bind_Ret in H as (s0 & _ & H). apply bind_Ret in H as (p & _ & H).
  apply bind_Ret in H as (ids & _ & H). apply bind_Ret in H as (p1 & _ & H).
  injection H as <-. simpl in *. rewrite length_app. simpl. lia.
Qed.

Record filled inp b : Prop := {
  fl_n : n_tokens b = Z.to_nat (b_n_tokens inp);
  fl_token : token b = b_token inp;
  fl_embd : embd b = b_embd inp;
  fl_pos : match b_pos inp with Some p => pos b = p | None => length (pos b) = n_tokens b end;
  fl_n_seq_id : n_seq_id b = default (replicate (n_tokens b) 1) (b_n_seq_id inp);
  fl_seq_id : seq_id b = default (replicate (n_tokens b) [0]) (b_seq_id inp);
  fl_logits : (n_tokens b <= length (logits b))%nat;
}.

Lemma fill_batch_filled inp memory m output_all b : 0 < b_n_tokens inp ->
  fill_batch inp memory m output_all = Ret b -> filled inp b.
Proof.
  intros Hn H. unfold fill_batch in H. set (n := Z.to_nat (b_n_tokens inp)) in *.
  apply bind_Ret in H as (p & Hp & H). apply bind_Ret in H as (out & Hout & H). injection H as <-.
  constructor; simpl; try done.
  - destruct (b_pos inp); [by injection Hp|]. unfold gen_pos in Hp.
    apply bind_Ret in Hp as ([pos p0] & Hf & Hp). injection Hp as <-.
    by apply gen_pos_length in Hf.
  - unfold gen_logits in Hout. destruct (b_logits inp) as [l|].
    + case_decide; [|done]. injection Hout as <-. destruct (_ && _); [by rewrite length_replicate|done].
    + injection Hout as <-. destruct output_all; [by rewrite length_replicate|].
      rewrite length_app, length_replicate. simpl. lia.
Qed.

(** What a successful [init] went through. *)
Lemma init_inv a inp n_vocab memory n_embd n_seq_max output_all a' :
  init a inp n_vocab memory n_embd n_seq_max output_all = Ret (Some a') ->
  exists b a1, 0 < b_n_tokens inp /\ (n_seq_max <= LLAMA_MAX_SEQ)%nat
    /\ valid_tokens inp n_vocab = Ret true /\ valid_seq_ids inp n_seq_max = Ret true
    /\ fill_batch inp memory n_seq_max output_all = Ret b
    /\ init_stats (clear a) b n_embd n_seq_max = Ret a1 /\ init_checks a1 memory = Ret false
    /\ a' = split_reset a1.
Proof.
  unfold init, c_assert. intros H. destruct (0 <? b_n_tokens inp) eqn:En; [|done].
  cbn [mbind outcome_bind] in H. apply Z.ltb_lt in En.
  destruct (LLAMA_MAX_SEQ <? n_seq_max)%nat eqn:Em; [done|]. apply Nat.ltb_ge in Em.
  apply bind_Ret in H as (ok1 & H1 & H). destruct ok1; [|done]. simpl in H.
  apply bind_Ret in H as (ok2 & H2 & H). destruct ok2; [|done]. simpl in H.
  apply bind_Ret in H as (b & H3 & H). apply bind_Ret in H as (a1 & H4 & H).
  apply bind_Ret in H as (bad & H5 & H). destruct bad; [done|]. injection H as <-.
  exists b, a1. by split_and!.
Qed.

Lemma init_stats_inv a b n_embd n_seq_max a1 :
  init_stats (clear a) b n_embd n_seq_max = Ret a1 ->
  (exists r, foldM (couple_token b) (map (fun _ => ∅) (seq_pos a), map (map (fun _ => false)) (seq_cpl a), false)
       (seq 0 (n_tokens b)) = Ret r /\ seq_pos a1 = r.1.1 /\ seq_cpl a1 = r.1.2 /\ has_cpl a1 = r.2)
  /\ (exists r, foldM (add_seq_set b) ([], ∅, ∅) (seq 0 (n_tokens b)) = Ret r
        /\ seq_set a1 = r.1.1 /\ seq_set_map a1 = r.1.2)
  /\ batch a1 = b /\ Batch.n_embd a1 = n_embd /\ Batch.n_seq_max a1 = n_seq_max
  /\ n_pos_per_embd a1 = n_pos_per_embd a.
Proof.
  unfold init_stats. intros H. simpl in H.
  apply bind_Ret in H as ([[sp cpl] has] & H1 & H).
  apply bind_Ret in H as ([[sets m] unq] & H2 & H).
  apply bind_Ret in H as ([ids idx] & _ & H). injection H as <-. simpl.
  split_and!; try done; by eexists.
Qed.

Lemma valid_ids inp m b : valid_seq_ids inp m = Ret true -> filled inp b ->
  0 < b_n_tokens inp -> (m <= LLAMA_MAX_SEQ)%nat ->
  forall i ids, (i < n_tokens b)%nat -> token_seqs b i ids ->
  Forall (fun s => 0 <= s < Z.of_nat LLAMA_MAX_SEQ) ids.
Proof.
  intros Hv Hf Hn Hm i ids Hi Hids. unfold token_seqs in Hids.
  rewrite (fl_n_seq_id _ _ Hf), (fl_seq_id _ _ Hf) in Hids.
  unfold valid_seq_ids in Hv. destruct (b_seq_id inp) as [sid|].
  - apply foldM_bool in Hv as [_ Hv]. specialize (Hv i).
    rewrite <- (fl_n _ _ Hf), elem_of_seq in Hv. specialize (Hv ltac:(lia)).
    destruct (b_n_seq_id inp) as [ns|]; [|done]. simpl in *. rewrite Hids in Hv. simpl in Hv.
    injection Hv as Hv. rewrite forallb_forall in Hv. apply Forall_forall. intros s Hs.
    apply list_elem_of_In, Hv in Hs. lia.
  - simpl in Hids. apply seqs_of_inv in Hids as (k & l & _ & Hl & -> & _).
    apply lookup_replicate in Hl as [-> _]. apply Forall_take. constructor; [|constructor].
    unfold LLAMA_MAX_SEQ. lia.
Qed.

Lemma valid_tokens_read inp n_vocab l : valid_tokens inp n_vocab = Ret true ->
  b_token inp = Some l -> forall i, (i < Z.to_nat (b_n_tokens inp))%nat -> (i < length l)%nat.
Proof.
  intros Hv Hl i Hi. unfold valid_tokens in Hv. rewrite Hl in Hv.
  apply foldM_bool in Hv as [_ Hv]. specialize (Hv i). rewrite elem_of_seq in Hv.
  specialize (Hv ltac:(lia)). apply bind_Ret in Hv as (t & Ht & _). apply at_Ret in Ht.
  by eapply lookup_lt_Some.
Qed.

Lemma init_ok a inp n_vocab memory n_embd n_seq_max output_all a' :
  init a inp n_vocab memory n_embd n_seq_max output_all = Ret (Some a') ->
  arrays_ok inp n_embd (n_pos_per_embd a) -> alloc_ok a' /\ sets_nonempty a'.
Proof.
  intros H Har. destruct (init_inv _ _ _ _ _ _ _ _ H)
    as (b & a1 & Hn & Hm & Hvt & Hvs & Hfill & Hst & _ & ->).
  pose proof (fill_batch_filled _ _ _ _ _ Hn Hfill) as Hf.
  destruct (init_stats_inv _ _ _ _ _ Hst)
    as ((r & Hr & _) & (r2 & Hr2 & Es & Em) & Eb & Ee & Emx & Ep).
  pose proof (valid_ids _ _ _ Hvs Hf Hn Hm) as Hids.
  destruct (couple_tokens _ _ _ _ Hr) as [Hall _].
  { intros i ids Hi Ht. eapply Forall_impl; [exact (Hids i ids Hi Ht)|]. simpl. lia. }
  destruct (add_seq_sets _ _ _ Hr2) as (Hl & Hsets & Hmap & Hnd & Hinc).
  assert (Hread : forall i, (i < n_tokens b)%nat -> readable b n_embd (n_pos_per_embd a) i).
  { intros i Hi. destruct (Hall i Hi) as (id & ids & p & Hid & Hs & Hp). constructor.
    - exists ids. split; [done|]. by apply (Hids i).
    - by exists id.
    - pose proof (fl_logits _ _ Hf). lia.
    - intros l El. rewrite (fl_token _ _ Hf) in El. rewrite (fl_n _ _ Hf) in Hi.
      by eapply valid_tokens_read.
    - intros l El. rewrite (fl_embd _ _ Hf) in El. apply (ar_embd _ _ _ Har) in El.
      rewrite <- (fl_n _ _ Hf) in El. nia.
    - intros j Hj. rewrite (fl_token _ _ Hf). pose proof (fl_pos _ _ Hf) as Hpos.
      pose proof (ar_pos _ _ _ Har) as Hap. pose proof (ar_gen _ _ _ Har) as Hag.
      rewrite <- (fl_n _ _ Hf) in Hap. destruct (b_pos inp) as [pl|].
      + rewrite Hpos. specialize (Hap pl j eq_refl Hj). lia.
      + rewrite Hpos. destruct (b_token inp); [lia|]. specialize (Hag eq_refl eq_refl).
        assert (j = 0%nat) as -> by lia. lia. }
  split.
  - apply reset_ok_weak; try done.
    + by rewrite Es, Eb.
    + rewrite Es, Em. exact Hmap.
    + rewrite Em. exact Hnd.
    + rewrite Em. exact Hinc.
    + rewrite Eb, Ee, Ep. exact Hread.
    + by rewrite Emx.
  - intros i set. simpl. rewrite Es. intros Hi. pose proof (lookup_lt_Some _ _ _ Hi) as Hlt.
    destruct (Hsets i ltac:(lia)) as (ids & Ht & Hset). rewrite Hi in Hset. injection Hset as ->.
    apply seqs_of_inv in Ht as (k & l & Hk & Hl' & -> & Hle).
    assert (Hk1 : 1 <= k).
    { rewrite (fl_n_seq_id _ _ Hf) in Hk. pose proof (ar_seqs _ _ _ Har) as Har1.
      destruct (b_n_seq_id inp) as [ns|]; simpl in Hk; [by eapply Har1|].
      apply lookup_replicate in Hk as [-> _]. lia. }
    destruct l as [|x l]; [simpl in Hle; lia|].
    replace (Z.to_nat k) with (S (Z.to_nat k - 1)) by lia. simpl.
    intros Hempty. assert (x ∈ (∅ : gset Z)); [|set_solver]. rewrite <- Hempty. set_solver.
Qed.

(** Without coupled sequences every token is in one sequence. *)
Lemma couple_ids (s0 p : Z) l : forall (acc r : list (gset Z) * list (list bool) * bool),
  foldM (fun '(sp, cpl, has) '(k, s1) =>
      set ← at_ sp (Z.to_nat s1);
      sp ← set_ sp (Z.to_nat s1) (set ∪ {[ p ]});
      if (0 <? k)%nat then
        row ← at_ cpl (Z.to_nat s1);
        row ← set_ row (Z.to_nat s0) true;
        cpl ← set_ cpl (Z.to_nat s1) row;
        Ret (sp, cpl, true)
      else Ret (sp, cpl, has)) acc l = Ret r ->
  r.2 = false -> acc.2 = false /\ Forall (fun x : nat * Z => x.1 = 0%nat) l.
Proof.
  induction l as [|[k s1] l IH]; intros [[sp cpl] has] r H Hr; [injection H as <-; by split|].
  cbn [foldM] in H. apply bind_Ret in H as (r1 & H1 & H). destruct (IH _ _ H Hr) as [Hf Hall].
  apply bind_Ret in H1 as (set & _ & H1). apply bind_Ret in H1 as (sp' & _ & H1). destruct (Nat.ltb_spec 0 k).
  - apply bind_Ret in H1 as (row & _ & H1). apply bind_Ret in H1 as (row' & _ & H1). apply bind_Ret in H1 as (cpl' & _ & H1).
    injection H1 as <-. done.
  - injection H1 as <-. split; [done|]. constructor; [simpl; lia|done].
Qed.

Lemma couple_single b n : forall acc r, foldM (couple_token b) acc (seq 0 n) = Ret r -> r.2 = false ->
  forall i ids, (i < n)%nat -> token_seqs b i ids -> (length ids <= 1)%nat.
Proof.
  induction n as [|n IH]; intros acc r H Hr i ids Hi Hids; [lia|]. rewrite seq_S, foldM_app in H.
  apply bind_Ret in H as (r1 & H1 & H). cbn [foldM] in H. apply bind_Ret in H as (r2 & H & E2). injection E2 as ->. unfold couple_token in H.
  apply bind_Ret in H as (l0 & _ & H). apply bind_Ret in H as (s0 & _ & H). apply bind_Ret in H as (l & Hl & H).
  apply bind_Ret in H as (p & _ & H). apply couple_ids in H as [Hf Hall]; [|done].
  destruct (decide (i = n)) as [->|Hne]; [|by eapply (IH acc r1 H1 Hf i); [lia|]].
  unfold token_seqs in Hids. simpl in Hl. assert (l = ids) as -> by congruence. rewrite Forall_forall in Hall.
  destruct ids as [|x [|y ids]]; simpl; [lia|lia|]. exfalso.
  specialize (Hall (1%nat, y) ltac:(right; left)). done.
Qed.

Lemma init_single a inp n_vocab memory n_embd n_seq_max output_all a' :
  init a inp n_vocab memory n_embd n_seq_max output_all = Ret (Some a') -> has_cpl a' = false ->
  forall i ids, (i < n_tokens (batch a'))%nat -> token_seqs (batch a') i ids -> (length ids <= 1)%nat.
Proof.
  intros H Hc i ids Hi Hids. destruct (init_inv _ _ _ _ _ _ _ _ H) as (b & a1 & _ & _ & _ & _ & _ & Hst & _ & ->).
  destruct (init_stats_inv _ _ _ _ _ Hst) as ((r & Hr & _ & _ & Ec) & _ & Eb & _). simpl in *. rewrite Eb in Hi, Hids.
  eapply couple_single; [exact Hr|congruence|exact Hi|exact Hids].
Qed.

(** The sequence sets of an accepted batch. *)
Lemma init_sets a inp n_vocab memory n_embd n_seq_max output_all a' :
  init a inp n_vocab memory n_embd n_seq_max output_all = Ret (Some a') ->
  forall i ids, (i < n_tokens (batch a'))%nat -> token_seqs (batch a') i ids -> seq_set a' !! i = Some (list_to_set ids).
Proof.
  intros H i ids Hi Hids. destruct (init_inv _ _ _ _ _ _ _ _ H) as (b & a1 & _ & _ & _ & _ & _ & Hst & _ & ->).
  destruct (init_stats_inv _ _ _ _ _ Hst) as (_ & (r2 & Hr2 & Es & _) & Eb & _). simpl in *. rewrite Eb in Hi, Hids.
  destruct (add_seq_sets _ _ _ Hr2) as (_ & Hsets & _). destruct (Hsets i Hi) as (ids' & Hids' & Hset).
  unfold token_seqs in *. assert (ids' = ids) as -> by congruence. by rewrite Es.
Qed.

(** What an accepted batch knows of its tokens. *)
Lemma init_tokens a inp n_vocab memory n_embd n_seq_max output_all a' :
  init a inp n_vocab memory n_embd n_seq_max output_all = Ret (Some a') ->
  arrays_ok inp n_embd (n_pos_per_embd a) -> (0 < n_seq_max)%nat ->
  (0 < n_tokens (batch a'))%nat /\ n_pos_per_embd a' = n_pos_per_embd a /\ Batch.n_seq_max a' = n_seq_max
  /\ (n_seq_max <= LLAMA_MAX_SEQ)%nat
  /\ forall i, (i < n_tokens (batch a'))%nat -> exists ids, token_seqs (batch a') i ids /\ ids <> []
     /\ n_seq_id (batch a') !! i = Some (Z.of_nat (length ids))
     /\ forall s, s ∈ ids -> 0 <= s < Z.of_nat n_seq_max.
Proof.
  intros H Har Hpos. destruct (init_inv _ _ _ _ _ _ _ _ H) as (b & a1 & Hn & Hm & Hvt & Hvs & Hfill & Hst & _ & ->).
  pose proof (fill_batch_filled _ _ _ _ _ Hn Hfill) as Hf.
  destruct (init_stats_inv _ _ _ _ _ Hst) as ((r & Hr & _) & _ & Eb & _ & Emx & Ep).
  destruct (couple_tokens _ _ _ _ Hr) as [Hall _].
  { intros i ids Hi Ht. eapply Forall_impl; [exact (valid_ids _ _ _ Hvs Hf Hn Hm i ids Hi Ht)|]. simpl. lia. }
  cbn [split_reset set_used batch Batch.n_seq_max n_pos_per_embd]. rewrite Eb. split_and!; try done.
  { rewrite (fl_n _ _ Hf). lia. }
  intros i Hi. destruct (Hall i Hi) as (_ & ids & _ & _ & Hs & _). exists ids. split; [exact Hs|].
  destruct (seqs_of_inv _ _ _ _ Hs) as (k & l & Hk & Hl & -> & Hle).
  assert (Hk1 : 1 <= k).
  { rewrite (fl_n_seq_id _ _ Hf) in Hk. pose proof (ar_seqs _ _ _ Har) as Har1.
    destruct (b_n_seq_id inp) as [ns|]; simpl in Hk; [by eapply Har1|].
    apply lookup_replicate in Hk as [-> _]. lia. }
  split; [|split].
  - intros He%(f_equal length). rewrite length_take in He. simpl in He. lia.
  - rewrite length_take, Nat.min_l by lia. rewrite Z2Nat.id by lia. exact Hk.
  - intros s Hin. unfold token_seqs in Hs. rewrite (fl_n_seq_id _ _ Hf), (fl_seq_id _ _ Hf) in Hs.
    rewrite (fl_seq_id _ _ Hf) in Hl. unfold valid_seq_ids in Hvs. destruct (b_seq_id inp) as [sid|].
    + apply foldM_bool in Hvs as [_ Hv]. specialize (Hv i). rewrite <- (fl_n _ _ Hf), elem_of_seq in Hv.
      specialize (Hv ltac:(lia)). destruct (b_n_seq_id inp) as [ns|]; [|done]. simpl in *. rewrite Hs in Hv. simpl in Hv.
      injection Hv as Hv. rewrite forallb_forall in Hv. apply list_elem_of_In, Hv in Hin. bool_hyps. lia.
    + simpl in Hl. apply lookup_replicate in Hl as [-> _]. apply elem_of_take in Hin as (j & Hj & _).
      destruct j as [|j]; [|done]. injection Hj as <-. lia.
Qed.

(** ** Positions *)

Lemma set_min_spec (S : gset Z) : S <> ∅ -> set_min S ∈ S /\ forall y, y ∈ S -> set_min S <= y.
Proof.
  intros Hne. unfold set_min. pose proof (fun y => elem_of_elements S y) as He.
  destruct (elements S) as [|x l] eqn:El; [by apply elements_empty_inv, leibniz_equiv in El|].
  destruct (foldr_min_spec l x) as [H1 H2]. split; [by apply He|]. intros y Hy. by apply H2, He.
Qed.

Lemma set_max_spec (S : gset Z) : S <> ∅ -> set_max S ∈ S /\ forall y, y ∈ S -> y <= set_max S.
Proof.
  intros Hne. unfold set_max. pose proof (fun y => elem_of_elements S y) as He.
  destruct (elements S) as [|x l] eqn:El; [by apply elements_empty_inv, leibniz_equiv in El|].
  destruct (foldr_max_spec l x) as [H1 H2]. split; [by apply He|]. intros y Hy. by apply H2, He.
Qed.

(** A set with as many elements as its range has no gap. *)
Lemma no_gap (S : gset Z) : S <> ∅ -> set_max S - set_min S + 1 <= Z.of_nat (size S) ->
  forall x, set_min S <= x <= set_max S -> x ∈ S.
Proof.
  intros Hne Hsize x Hx. destruct (set_min_spec S Hne) as [_ Hmin].
  destruct (set_max_spec S Hne) as [_ Hmax].
  pose (R := list_to_set (seqZ (set_min S) (set_max S - set_min S + 1)) : gset Z).
  assert (Hin : forall y, y ∈ R <-> set_min S <= y <= set_max S).
  { intros y. unfold R. rewrite elem_of_list_to_set, elem_of_seqZ. lia. }
  assert (HSR : S = R); [|rewrite HSR; by apply Hin]. apply set_subseteq_size_eq.
  - intros y Hy. apply Hin. split; [by apply Hmin|by apply Hmax].
  - unfold R. rewrite size_list_to_set by apply NoDup_seqZ. rewrite length_seqZ. lia.
Qed.

(** The positions of sequence [s] in the batch. *)
Definition seq_position b (s : nat) (p : Z) : Prop :=
  exists i ids, (i < n_tokens b)%nat /\ token_seqs b i ids /\ Z.of_nat s ∈ ids /\ pos b !! i = Some p.

Lemma init_positions a inp n_vocab memory n_embd n_seq_max output_all a' s :
  init a inp n_vocab memory n_embd n_seq_max output_all = Ret (Some a') ->
  length (seq_pos a) = LLAMA_MAX_SEQ -> (n_pos_per_embd a <= 1)%nat -> (s < n_seq_max)%nat ->
  (forall p q x, seq_position (batch a') s p -> seq_position (batch a') s q -> p <= x <= q ->
     seq_position (batch a') s x)
  /\ (forall m p, memory = Some m -> 0 <= m_seq_pos_max (Z.of_nat s) ->
       seq_position (batch a') s p ->
       m_seq_pos_max (Z.of_nat s) < p
       /\ seq_position (batch a') s (m_seq_pos_max (Z.of_nat s) + 1)).
Proof.
  intros H Hlen Hnp Hs. destruct (init_inv _ _ _ _ _ _ _ _ H)
    as (b & a1 & Hn & Hm & Hvt & Hvs & Hfill & Hst & Hchk & ->).
  pose proof (fill_batch_filled _ _ _ _ _ Hn Hfill) as Hf.
  destruct (init_stats_inv _ _ _ _ _ Hst)
    as ((r & Hr & Esp & _) & _ & Eb & _ & Emx & Ep).
  pose proof (valid_ids _ _ _ Hvs Hf Hn Hm) as Hids.
  destruct (couple_tokens _ _ _ _ Hr) as [_ Hsets].
  { intros i ids Hi Ht. eapply Forall_impl; [exact (Hids i ids Hi Ht)|]. simpl. lia. }
  destruct (Hsets s ∅) as (S & HS & Hiff).
  { simpl. rewrite list_lookup_fmap.
    destruct (lookup_lt_is_Some_2 (seq_pos a) s) as [x Hx]; [rewrite Hlen; lia|]. by rewrite Hx. }
  assert (Hpos : forall p, p ∈ S <-> seq_position b s p).
  { intros p. rewrite Hiff. unfold seq_position. set_solver. }
  cbn [batch split_reset set_used]. rewrite Eb.
  unfold init_checks in Hchk. rewrite Ep, (proj2 (Nat.ltb_ge _ _)) in Hchk by lia.
  apply bind_Ret in Hchk as (bad & Hbad & Hchk). destruct bad; [done|]. clear Hchk.
  rewrite Emx in Hbad. pose proof (any_fails_false _ _ Hbad s) as Hc.
  rewrite elem_of_seq in Hc. specialize (Hc ltac:(lia)).
  unfold check_consecutive in Hc. rewrite Esp in Hc. unfold at_ in Hc. rewrite HS in Hc.
  cbn [mbind outcome_bind] in Hc. case_bool_decide as HE.
  { split; [intros p q x Hp|intros m p _ _ Hp]; apply Hpos in Hp; set_solver. }
  injection Hc as Hc. apply orb_false_iff in Hc as [Hc1 Hc2]. apply Z.ltb_ge in Hc2.
  destruct (set_min_spec S HE) as [Hmin Hminle]. destruct (set_max_spec S HE) as [_ Hmaxle].
  split.
  - intros p q x Hp Hq Hx. apply Hpos in Hp, Hq. apply Hpos. apply no_gap; [done|lia|].
    specialize (Hminle p Hp). specialize (Hmaxle q Hq). lia.
  - intros m p -> Hm0 Hp. apply Hpos in Hp. simpl in Hc1.
    rewrite (proj2 (Z.leb_le _ _) Hm0) in Hc1. simpl in Hc1. bool_hyps.
    specialize (Hminle p Hp). split; [lia|]. apply Hpos. by rewrite <- Hc1.
Qed.

(** The positions of an accepted batch (with one position per token): those of
    each sequence have no gap, and continue what the memory holds of the
    sequence. *)
Theorem accepted_positions a inp n_vocab memory n_embd n_seq_max output_all a' s :
  init a inp n_vocab memory n_embd n_seq_max output_all = Ret (Some a') ->
  length (seq_pos a) = LLAMA_MAX_SEQ -> (n_pos_per_embd a <= 1)%nat -> (s < n_seq_max)%nat ->
  (forall p q x, seq_position (batch a') s p -> seq_position (batch a') s q -> p <= x <= q ->
     seq_position (batch a') s x)
  /\ (forall m p, memory = Some m -> 0 <= m_seq_pos_max (Z.of_nat s) ->
       seq_position (batch a') s p ->
       m_seq_pos_max (Z.of_nat s) < p
       /\ seq_position (batch a') s (m_seq_pos_max (Z.of_nat s) + 1)).
Proof. apply init_positions. Qed.

(** C38. An accepted batch whose arrays have the lengths the header asks for, with
    at least one sequence for every token, can be split by every strategy, by the
    sequential equal split when no token is in several sequences: the ubatches,
    none of them empty, carry the data of its tokens, every token in exactly one of
    them, and [out_ids] lists the tokens with outputs in the order of the ubatches.
    Tokens without a sequence are accepted and yielded twice:
    [empty_sequence_sets_repeat]. *)
Theorem accepted_batch_splits a inp n_vocab memory n_embd n_seq_max output_all a1 st n_ubatch :
  init a inp n_vocab memory n_embd n_seq_max output_all = Ret (Some a1) ->
  arrays_ok inp n_embd (n_pos_per_embd a) ->
  (st = Equal true -> has_cpl a1 = false) ->
  exists us a2 idxss, split_all st n_ubatch a1 = Ret (Some us, a2)
    /\ Forall2 (fun u idxs => idxs <> [] /\ exists n_seqs, describes a1 idxs n_seqs u) us idxss
    /\ concat idxss ≡ₚ seq 0 (get_n_tokens a1)
    /\ get_out_ids a2 = List.filter (is_output (batch a1)) (concat idxss).
Proof.
  intros H Har Hst. destruct (init_ok _ _ _ _ _ _ _ _ H Har) as [Hok Hne].
  apply split_all_ok; [done|]. destruct st as [|[]|]; try done; split; auto; discriminate.
Qed.

(** ** Generated positions *)

(** The number of the first [i] tokens that are in sequence [s]. *)
Definition count_before (ss : list Z) (s : Z) (i : nat) : Z :=
  Z.of_nat (length (List.filter (fun t => t =? s) (take i ss))).

(** Positions that are generated continue each sequence from what the memory
    holds (from 0 without memory), one by one, when every token is in one
    sequence. *)
Theorem generated_positions memory n_seq_max ns sid ss pos :
  (forall i s, ss !! i = Some s -> 0 <= s < Z.of_nat n_seq_max /\ seqs_of ns sid i = Ret [s]) ->
  gen_pos memory n_seq_max (length ss) ns sid = Ret pos ->
  forall i s, ss !! i = Some s -> pos !! i = Some (
    match memory with Some m => m_seq_pos_max s + 1 | None => 0 end + count_before ss s i).
Proof.
  intros Hss H. unfold gen_pos in H. apply bind_Ret in H as ([pos' p0] & H & E0). injection E0 as ->.
  set (start := fun s => match memory with Some m => m_seq_pos_max s + 1 | None => 0 end).
  assert (Hinv : forall n r, (n <= length ss)%nat ->
    foldM (gen_pos_step ns sid) ([], gen_pos_start memory n_seq_max) (seq 0 n) = Ret r ->
    length r.1 = n
    /\ (forall i s, (i < n)%nat -> ss !! i = Some s -> r.1 !! i = Some (start s + count_before ss s i))
    /\ forall s, (s < n_seq_max)%nat -> r.2 !! s = Some (start (Z.of_nat s) + count_before ss (Z.of_nat s) n)).
  { induction n as [|n IH]; intros r Hn Hr.
    { simpl in Hr. injection Hr as <-. simpl. split_and!; [done|intros; lia|].
      intros s Hs. unfold gen_pos_start. rewrite list_lookup_fmap, lookup_seq_lt by lia. simpl.
      unfold start, count_before. simpl. by rewrite Z.add_0_r. }
    rewrite seq_S, foldM_app in Hr. apply bind_Ret in Hr as ([q p1] & Hr1 & Hr).
    destruct (IH _ ltac:(lia) Hr1) as (Hl & Hpos & Hp0). simpl in Hl, Hpos, Hp0.
    simpl in Hr. apply bind_Ret in Hr as (r2 & Hr & E2). injection E2 as ->.
    destruct (lookup_lt_is_Some_2 ss n ltac:(lia)) as [s Hs].
    destruct (Hss n s Hs) as [Hrange Hseq]. unfold gen_pos_step in Hr.
    destruct (seqs_of_inv _ _ _ _ Hseq) as (k & l & Hk & Hsid & Htake & Hle).
    destruct l as [|s0 l]; [by rewrite take_nil in Htake|].
    assert (s0 = s) as ->.
    { destruct (Z.to_nat k); [done|]. simpl in Htake. by injection Htake. }
    pose proof (Hp0 (Z.to_nat s) ltac:(lia)) as Hps. rewrite Z2Nat.id in Hps by lia.
    rewrite (proj2 (at_Ret sid n (s :: l)) Hsid) in Hr. cbn [mbind outcome_bind] in Hr.
    rewrite (proj2 (at_Ret (s :: l) 0 s) eq_refl) in Hr. cbn [mbind outcome_bind] in Hr.
    rewrite (proj2 (at_Ret p1 (Z.to_nat s) _) Hps), Hseq in Hr. cbn [mbind outcome_bind foldM] in Hr.
    unfold set_ in Hr. rewrite decide_True in Hr by (by eapply lookup_lt_Some).
    cbn [mbind outcome_bind] in Hr. injection Hr as <-.
    assert (Hcount : forall t, count_before ss t (S n) = count_before ss t n + (if s =? t then 1 else 0)).
    { intros t. unfold count_before. rewrite (take_S_r _ _ _ Hs), List.filter_app, length_app. simpl.
      destruct (s =? t); simpl; lia. }
    simpl. split_and!.
    - rewrite length_app. simpl. lia.
    - intros i t Hi Ht. destruct (decide (i < n)%nat) as [Hlt|Hge].
      + rewrite lookup_app_l by lia. by apply Hpos.
      + assert (i = n) as -> by lia. rewrite Hs in Ht. injection Ht as <-.
        rewrite lookup_app_r by lia. rewrite Hl, Nat.sub_diag. done.
    - intros t Ht. rewrite Hcount. destruct (decide (Z.to_nat s = t)) as [<-|Hne].
      + rewrite list_lookup_insert_eq by (by eapply lookup_lt_Some).
        rewrite Z2Nat.id, Z.eqb_refl by lia. f_equal. lia.
      + rewrite list_lookup_insert_ne, Hp0 by done. f_equal.
        destruct (s =? Z.of_nat t) eqn:Es; bool_hyps; lia. }
  intros i s Hs. destruct (Hinv (length ss) _ (Nat.le_refl _) H) as (_ & Hpos & _).
  simpl in Hpos. apply Hpos; [by eapply lookup_lt_Some|done].
Qed.

End Init.

(** * Ubatch shapes, instances, and batches that [init] should refuse. *)

(** ** The shape of a ubatch *)

(** An equal split that is not finished takes the same positive number of tokens
    from each of a choice of pairwise disjoint sequence sets, tokens of one set
    side by side; in all it takes at most one token more than [n_ubatch]. *)
Theorem split_equal_shape {E} (a : llama_batch_allocr E) n_ubatch sequential :
  alloc_ok a -> fronts_used a -> sets_nonempty a ->
  (sequential = true -> has_cpl a = false) -> get_n_used a <> get_n_tokens a ->
  exists u a' groups, split_equal a n_ubatch sequential = Ret (u, a')
    /\ splits a u a' (concat groups) (length groups) /\ fronts_used a'
    /\ equal_groups a groups /\ (u_n_tokens u <= S n_ubatch)%nat.
Proof.
  intros Hok Hfr Hne Hc Hn.
  destruct (split_equal_step a n_ubatch sequential Hok Hfr Hne Hc Hn)
    as (u & a' & gs & H1 & H2 & H3 & H4 & H5 & _).
  exists u, a', gs. split_and!; try done. by rewrite (ds_n _ _ _ _ (sp_describes _ _ _ _ _ H2)).
Qed.

(** A sequence-wise split that is not finished takes at most [n_ubatch] tokens
    (but at least one), in batch order, each in no other sequences than the one
    before it. *)
Theorem split_seq_shape {E} (a : llama_batch_allocr E) n_ubatch :
  alloc_ok a -> get_n_used a <> get_n_tokens a ->
  exists u a' idxs, split_seq a n_ubatch = Ret (u, a')
    /\ splits a u a' idxs 1 /\ Sorted (narrows (seq_set a)) idxs
    /\ (1 <= u_n_tokens u <= max 1 n_ubatch)%nat.
Proof.
  intros Hok Hn. destruct (split_seq_step a n_ubatch Hok Hn) as (u & a' & idxs & H1 & H2 & H3 & H4).
  exists u, a', idxs. split_and!; try done;
    rewrite (ds_n _ _ _ _ (sp_describes _ _ _ _ _ H2)); [|done].
  pose proof (sp_nonempty _ _ _ _ _ H2). destruct idxs; [done|simpl; lia].
Qed.

(** ** An accepted batch

    Six tokens in the sequences 0, 1, 0, 1, 0, 2, without positions. *)

Definition ex_inp : llama_batch unit :=
  mk_batch 6 (Some [11; 12; 13; 14; 15; 16]) None None (Some [1; 1; 1; 1; 1; 1])
    (Some [[0]; [1]; [0]; [1]; [0]; [2]]) None.

Definition ex_memory : Memory := {|
  m_seq_pos_min := fun s => if s =? 1 then 0 else -1;
  m_seq_pos_max := fun s => if s =? 1 then 4 else -1 |}.

Definition ex_allocr : llama_batch_allocr unit := Eval vm_compute in
  match init (new_allocr 1) ex_inp 100 (Some ex_memory) 0 4 false with
  | Ret (Some a) => a
  | _ => new_allocr 1
  end.

Lemma ex_init : init (new_allocr 1) ex_inp 100 (Some ex_memory) 0 4 false = Ret (Some ex_allocr).
Proof. vm_compute. reflexivity. Qed.

Lemma ex_arrays : arrays_ok ex_inp 0 1.
Proof.
  constructor; simpl; try discriminate; try lia.
  intros l i k [= <-] Hk. apply list_elem_of_lookup_2 in Hk.
  rewrite !elem_of_cons, elem_of_nil in Hk. lia.
Qed.

Lemma ex_ok : alloc_ok ex_allocr /\ sets_nonempty ex_allocr.
Proof. exact (init_ok _ _ _ _ _ _ _ _ ex_init ex_arrays). Qed.

Lemma ex_fronts : fronts_used ex_allocr.
Proof.
  intros set k k' i j _ _ _ Hj. change (used ex_allocr) with (replicate 6 false) in Hj.
  by apply lookup_replicate in Hj as [? _].
Qed.

Lemma split_equal_shape_witness : exists u a' groups, split_equal ex_allocr 4 true = Ret (u, a')
    /\ splits ex_allocr u a' (concat groups) (length groups) /\ fronts_used a'
    /\ equal_groups ex_allocr groups /\ (u_n_tokens u <= 5)%nat.
Proof.
  apply (split_equal_shape ex_allocr 4 true).
  - exact (proj1 ex_ok).
  - exact ex_fronts.
  - exact (proj2 ex_ok).
  - intros _. reflexivity.
  - discriminate.
Defined.

Lemma split_seq_shape_witness : exists u a' idxs, split_seq ex_allocr 4 = Ret (u, a')
    /\ splits ex_allocr u a' idxs 1 /\ Sorted (narrows (seq_set ex_allocr)) idxs
    /\ (1 <= u_n_tokens u <= max 1 4)%nat.
Proof.
  apply (split_seq_shape ex_allocr 4).
  - exact (proj1 ex_ok).
  - discriminate.
Defined.

Lemma accepted_batch_splits_witness :
  exists us a2 idxss, split_all (Equal true) 4 ex_allocr = Ret (Some us, a2)
    /\ Forall2 (fun u idxs => idxs <> [] /\ exists n_seqs, describes ex_allocr idxs n_seqs u) us idxss
    /\ concat idxss ≡ₚ seq 0 (get_n_tokens ex_allocr)
    /\ get_out_ids a2 = List.filter (is_output (batch ex_allocr)) (concat idxss).
Proof.
  apply (accepted_batch_splits (new_allocr 1) ex_inp 100 (Some ex_memory) 0 4 false).
  - exact ex_init.
  - exact ex_arrays.
  - intros _. reflexivity.
Defined.

Lemma accepted_positions_witness :
  (forall p q x, seq_position (batch ex_allocr) 1 p -> seq_position (batch ex_allocr) 1 q ->
     p <= x <= q -> seq_position (batch ex_allocr) 1 x)
  /\ (forall m p, Some ex_memory = Some m -> 0 <= @m_seq_pos_max m (Z.of_nat 1) ->
       seq_position (batch ex_allocr) 1 p ->
       @m_seq_pos_max m (Z.of_nat 1) < p
       /\ seq_position (batch ex_allocr) 1 (@m_seq_pos_max m (Z.of_nat 1) + 1)).
Proof.
  apply (accepted_positions (new_allocr 1) ex_inp 100 (Some ex_memory) 0 4 false ex_allocr 1).
  - exact ex_init.
  - reflexivity.
  - simpl. lia.
  - lia.
Defined.

Lemma generated_positions_witness :
  [0; 5; 1; 6; 2; 0] !! 3%nat = Some (
    @m_seq_pos_max ex_memory 1 + 1 + count_before [0; 1; 0; 1; 0; 2] 1 3).
Proof.
  apply (generated_positions (Some ex_memory) 4 [1; 1; 1; 1; 1; 1] [[0]; [1]; [0]; [1]; [0]; [2]]
    [0; 1; 0; 1; 0; 2] [0; 5; 1; 6; 2; 0] ); [| |reflexivity].
  - intros i s Hs.
    do 6 (destruct i as [|i]; [injection Hs as <-; split; [lia|reflexivity]|]). discriminate Hs.
  - vm_compute. reflexivity.
Defined.

(** ** Where the code departs from its comments *)

(** [init] on the empty allocator, then [f] on the allocator of an accepted batch. *)
Definition after_init {A} (inp : llama_batch unit) (n_seq_max : nat)
    (f : llama_batch_allocr unit -> outcome A) : outcome (option A) :=
  r ← init (new_allocr 1) inp 100 None 0 n_seq_max false;
  match r with Some a => x ← f a; Ret (Some x) | None => Ret None end.

(** [init] accepts a sequence whose positions decrease in the batch, which its
    comment and its error message call not allowed: [cur_seq_pos] keeps its
    initial -1, so the comparison against it cannot fail. *)
Theorem decreasing_positions_accepted :
  after_init (mk_batch 2 (Some [1; 2]) None (Some [1; 0]) (Some [1; 1]) (Some [[0]; [0]]) None) 1
    (fun a => Ret (pos (batch a), seq_id (batch a)))
  = Ret (Some ([1; 0], [[0]; [0]])).
Proof. vm_compute. reflexivity. Qed.

(** [init] accepts two tokens of one sequence at the same position: [seq_pos] is a
    set, so that the position counts once. *)
Theorem repeated_position_accepted :
  after_init (mk_batch 3 (Some [7; 8; 9]) None (Some [0; 0; 1]) (Some [1; 1; 1]) (Some [[0]; [0]; [0]]) None) 1
    (fun a => Ret (pos (batch a), seq_id (batch a)))
  = Ret (Some ([0; 0; 1], [[0]; [0]; [0]])).
Proof. vm_compute. reflexivity. Qed.

(** [split_equal] makes a ubatch of [n_ubatch + 1] tokens: it stops choosing
    sequence sets only after it has one more than [n_ubatch]. *)
Theorem split_equal_exceeds :
  after_init (mk_batch 3 (Some [1; 2; 3]) None None (Some [1; 1; 1]) (Some [[0]; [1]; [2]]) None) 3
    (fun a => '(u, _) ← split_equal a 2 false; Ret (u_n_tokens u))
  = Ret (Some 3%nat).
Proof. vm_compute. reflexivity. Qed.

(** A batch whose tokens are given no sequence ([n_seq_id] 0) is accepted, and
    [split_equal] then puts its tokens in a ubatch twice: two empty sequence
    sets do not overlap, so the same set is chosen for every token. *)
Theorem empty_sequence_sets_repeat :
  after_init (mk_batch 2 (Some [7; 8]) None (Some [0; 1]) (Some [0; 0]) (Some [[0]; [0]]) None) 1
    (fun a => '(u, a') ← split_equal a 4 false;
       Ret (u_token u, get_n_used a', get_n_tokens a'))
  = Ret (Some (Some [7; 8; 7; 8], 4%nat, 2%nat)).
Proof. vm_compute. reflexivity. Qed.
