(* ===== verification/KvCells.v ===== *)
(** * The cells of the KV cache, [src/llama-kv-cells.h].

    [llama_kv_cells] keeps, for every cell, a position, the sequences that use
    it and a pending shift, and two redundant indices: the set of used cells
    and, per sequence, how often every position occurs.  The parallel vectors
    [pos], [ext], [shift] and [seq] of the class always have the same length,
    so here they are one list of records.  The bitset of sequences is a finite
    set of ids below [LLAMA_MAX_SEQ]; the [assert]s of the class are kept as
    failing outcomes.  Positions are signed 32-bit in the code and assumed not
    to overflow there. *)

From S2P Require Import Prelude.

Definition MAX_SEQ : Z := 256.

(** ** Data *)

(** [llama_kv_cell_ext]: the 2D position of an image patch. *)
Record llama_kv_cell_ext := mk_ext { ext_x : Z; ext_y : Z }.

Definition is_2d_gt (e : llama_kv_cell_ext) (ox oy : Z) : bool :=
  (oy <? ext_y e) || ((ext_y e =? oy) && (ox <? ext_x e)).

Definition ext_zero : llama_kv_cell_ext := mk_ext 0 0.

(** The elements [pos[i]], [ext[i]], [shift[i]] and [seq[i]]. *)
Record kv_cell := mk_cell {
  cell_pos : Z;
  cell_ext : llama_kv_cell_ext;
  cell_shift : Z;
  cell_seq : gset Z;
}.

Definition empty_cell : kv_cell := mk_cell (-1) ext_zero 0 ∅.

Record llama_kv_cells := mk_cells {
  kc_has_shift : bool;
  kc_used : gset nat;
  kc_cells : list kv_cell;
  kc_seq_pos : list (gmap Z Z);
}.

Definition set_seq_pos (c : llama_kv_cells) (sp : list (gmap Z Z)) : llama_kv_cells :=
  mk_cells (kc_has_shift c) (kc_used c) (kc_cells c) sp.

Definition set_has_shift (c : llama_kv_cells) (b : bool) : llama_kv_cells :=
  mk_cells b (kc_used c) (kc_cells c) (kc_seq_pos c).

Definition set_used (c : llama_kv_cells) (u : gset nat) : llama_kv_cells :=
  mk_cells (kc_has_shift c) u (kc_cells c) (kc_seq_pos c).

(** Writing the elements of cell [i]. *)
Definition put_cell (c : llama_kv_cells) (i : nat) (x : kv_cell) : outcome llama_kv_cells :=
  l ← set_ (kc_cells c) i x; Ret (mk_cells (kc_has_shift c) (kc_used c) l (kc_seq_pos c)).

(** [cells[i]] under [assert(i < pos.size())]. *)
Definition get_cell (c : llama_kv_cells) (i : nat) : outcome kv_cell :=
  match kc_cells c !! i with Some x => Ret x | None => Fatal "i < pos.size()" end.

Definition with_pos (x : kv_cell) (p : Z) : kv_cell :=
  mk_cell p (cell_ext x) (cell_shift x) (cell_seq x).
Definition with_seq (x : kv_cell) (s : gset Z) : kv_cell :=
  mk_cell (cell_pos x) (cell_ext x) (cell_shift x) s.
Definition with_shift (x : kv_cell) (d : Z) : kv_cell :=
  mk_cell (cell_pos x) (cell_ext x) d (cell_seq x).
Definition with_ext (x : kv_cell) (e : llama_kv_cell_ext) : kv_cell :=
  mk_cell (cell_pos x) e (cell_shift x) (cell_seq x).

(** [std::bitset::test], which throws outside of the bitset. *)
Definition bs_test (s : gset Z) (i : Z) : outcome bool :=
  if (0 <=? i) && (i <? MAX_SEQ) then Ret (bool_decide (i ∈ s)) else Throw "bitset::test".

Module Cells.

(** ** The index of positions *)

Definition seq_pos_dec (c : llama_kv_cells) (s : Z) (p : Z) : outcome llama_kv_cells :=
  m ← at_ (kc_seq_pos c) (Z.to_nat s);
  match m !! p with
  | None => Fatal "it != seq_pos[s].end()"
  | Some n =>
      let m' := if n - 1 =? 0 then delete p m else <[p := n - 1]> m in
      sp ← set_ (kc_seq_pos c) (Z.to_nat s) m'; Ret (set_seq_pos c sp)
  end.

Definition seq_pos_inc (c : llama_kv_cells) (s : Z) (p : Z) : outcome llama_kv_cells :=
  m ← at_ (kc_seq_pos c) (Z.to_nat s);
  sp ← set_ (kc_seq_pos c) (Z.to_nat s) (<[p := default 0 (m !! p) + 1]> m);
  Ret (set_seq_pos c sp).

(** [for (int s = 0; s < LLAMA_MAX_SEQ; ++s) if (seq[i].test(s)) op(s, pos[i])] *)
Definition each_seq (op : llama_kv_cells -> Z -> Z -> outcome llama_kv_cells) (x : kv_cell)
    (c : llama_kv_cells) : outcome llama_kv_cells :=
  foldM (fun c s => if bool_decide (s ∈ cell_seq x) then op c s (cell_pos x) else Ret c)
    c (seqZ 0 MAX_SEQ).

Definition seq_pos_rm (c : llama_kv_cells) (i : nat) : outcome llama_kv_cells :=
  x ← at_ (kc_cells c) i; each_seq seq_pos_dec x c.

Definition seq_pos_add (c : llama_kv_cells) (i : nat) : outcome llama_kv_cells :=
  x ← at_ (kc_cells c) i; each_seq seq_pos_inc x c.

(** ** Whole-container operations *)

Definition reset (c : llama_kv_cells) : llama_kv_cells :=
  mk_cells false ∅ (map (fun _ => empty_cell) (kc_cells c)) (map (fun _ => ∅) (kc_seq_pos c)).

Definition reset_shift (c : llama_kv_cells) : llama_kv_cells :=
  mk_cells false (kc_used c) (map (fun x => with_shift x 0) (kc_cells c)) (kc_seq_pos c).

Definition size (c : llama_kv_cells) : nat := length (kc_cells c).

(** A fresh object after [resize(n)]. *)
Definition resized (n : nat) : llama_kv_cells :=
  mk_cells false ∅ (replicate n empty_cell) (replicate (Z.to_nat MAX_SEQ) ∅).

Definition is_empty (c : llama_kv_cells) (i : nat) : outcome bool :=
  x ← get_cell c i;
  c_assert ((cell_pos x =? -1) || (0 <=? cell_pos x)) "pos[i] == -1 || pos[i] >= 0";;
  Ret (cell_pos x =? -1).

Definition get_used (c : llama_kv_cells) : nat := base.size (kc_used c).

(** [*used.begin()] and [*used.rbegin() + 1], 0 when no cell is used. *)
Definition used_min (c : llama_kv_cells) : nat :=
  match elements (kc_used c) with [] => 0%nat | x :: l => foldr Nat.min x l end.
Definition used_max_p1 (c : llama_kv_cells) : nat :=
  match elements (kc_used c) with [] => 0%nat | x :: l => S (foldr Nat.max x l) end.

Definition get_has_shift (c : llama_kv_cells) : bool := kc_has_shift c.

(** ** Saving and restoring cells *)

(** [cp(idxs)]: the copy holds the elements only; its indices stay empty. *)
Definition cp_idxs (c : llama_kv_cells) (idxs : list nat) : outcome llama_kv_cells :=
  l ← foldM (fun acc idx =>
        x ← at_ (kc_cells c) idx;
        c_assert (cell_shift x =? 0) "shift[idx] == 0";;
        Ret (acc ++ [with_shift x 0])) [] idxs;
  Ret (mk_cells false ∅ l (replicate (Z.to_nat MAX_SEQ) ∅)).

(** [cp(i, n)] *)
Definition cp (c : llama_kv_cells) (i n : nat) : outcome llama_kv_cells :=
  c_assert (i + n <=? size c)%nat "i + n <= pos.size()";;
  cp_idxs c (seq i n).

(** One round of the loop of [set]: cell [idx] becomes [y]. *)
Definition set_cell (c : llama_kv_cells) (idx : nat) (y : kv_cell) : outcome llama_kv_cells :=
  x ← at_ (kc_cells c) idx;
  let c := if (cell_pos x =? -1) && negb (cell_pos y =? -1)
           then set_used c ({[ idx ]} ∪ kc_used c) else c in
  let c := if negb (cell_pos x =? -1) && (cell_pos y =? -1)
           then set_used c (kc_used c ∖ {[ idx ]}) else c in
  c ← (if negb (cell_pos x =? -1) then seq_pos_rm c idx else Ret c);
  c ← put_cell c idx (mk_cell (cell_pos y) (cell_ext y) (cell_shift x) (cell_seq y));
  c ← (if negb (cell_pos y =? -1) then seq_pos_add c idx else Ret c);
  c_assert (cell_shift x =? 0) "shift[idx] == 0";;
  Ret c.

(** [set(idxs, other)] *)
Definition set_idxs (c : llama_kv_cells) (idxs : list nat) (other : llama_kv_cells)
    : outcome llama_kv_cells :=
  c_assert (length idxs =? size other)%nat "idxs.size() == other.pos.size()";;
  foldM (fun c '(idx, y) => set_cell c idx y) c (zip idxs (kc_cells other)).

(** [set(i, other)] *)
Definition set (c : llama_kv_cells) (i : nat) (other : llama_kv_cells) : outcome llama_kv_cells :=
  c_assert (i + size other <=? size c)%nat "i + other.pos.size() <= pos.size()";;
  foldM (fun c '(idx, y) => set_cell c idx y) c (zip (seq i (size other)) (kc_cells other)).

(** ** Operations on one cell *)

Definition rm (c : llama_kv_cells) (i : nat) : outcome llama_kv_cells :=
  x ← get_cell c i;
  c_assert (negb (cell_pos x =? -1)) "pos[i] != -1";;
  c ← seq_pos_rm c i;
  c ← put_cell c i empty_cell;
  Ret (set_used c (kc_used c ∖ {[ i ]})).

(** Returns whether the cell becomes empty. *)
Definition seq_rm (c : llama_kv_cells) (i : nat) (seq_id : Z) : outcome (bool * llama_kv_cells) :=
  x ← get_cell c i;
  has ← bs_test (cell_seq x) seq_id;
  c_assert has "seq[i].test(seq_id)";;
  c_assert (negb (cell_pos x =? -1)) "pos[i] != -1";;
  let x' := with_seq x (cell_seq x ∖ {[ seq_id ]}) in
  c ← put_cell c i x';
  c ← seq_pos_dec c seq_id (cell_pos x);
  if bool_decide (cell_seq x' = ∅) then
    c ← put_cell c i empty_cell;
    Ret (true, set_used c (kc_used c ∖ {[ i ]}))
  else Ret (false, c).

Definition seq_keep (c : llama_kv_cells) (i : nat) (seq_id : Z) : outcome (bool * llama_kv_cells) :=
  x ← get_cell c i;
  has ← bs_test (cell_seq x) seq_id;
  if has : bool then
    c ← seq_pos_rm c i;
    c ← put_cell c i (with_seq x {[ seq_id ]});
    c ← seq_pos_inc c seq_id (cell_pos x);
    Ret (false, c)
  else if negb (bool_decide (cell_seq x = ∅)) then
    c ← seq_pos_rm c i;
    c ← put_cell c i empty_cell;
    Ret (true, set_used c (kc_used c ∖ {[ i ]}))
  else
    c_assert (cell_pos x =? -1) "pos[i] == -1";;
    Ret (false, c).

Definition seq_count (c : llama_kv_cells) (i : nat) : outcome nat :=
  x ← get_cell c i;
  c_assert (negb (cell_pos x =? -1)) "pos[i] != -1";;
  Ret (base.size (cell_seq x)).

Definition seq_has (c : llama_kv_cells) (i : nat) (seq_id : Z) : outcome bool :=
  x ← get_cell c i;
  c_assert (0 <=? seq_id) "seq_id >= 0";;
  bs_test (cell_seq x) seq_id.

Definition seq_add (c : llama_kv_cells) (i : nat) (seq_id : Z) : outcome llama_kv_cells :=
  x ← get_cell c i;
  c_assert (negb (cell_pos x =? -1)) "pos[i] != -1";;
  has ← bs_test (cell_seq x) seq_id;
  c_assert (negb has) "!seq[i].test(seq_id)";;
  c ← put_cell c i (with_seq x ({[ seq_id ]} ∪ cell_seq x));
  seq_pos_inc c seq_id (cell_pos x).

Definition seq_get (c : llama_kv_cells) (i : nat) : outcome Z :=
  x ← at_ (kc_cells c) i;
  c_assert (base.size (cell_seq x) =? 1)%nat "seq[i].count() == 1";;
  match List.find (fun s => bool_decide (s ∈ cell_seq x)) (seqZ 0 MAX_SEQ) with
  | Some s => Ret s
  | None => Ret (-1)
  end.

(** The first and last key of the ordered map [seq_pos[seq_id]]. *)
Definition map_min (m : gmap Z Z) : Z :=
  match elements (dom m) with [] => -1 | x :: l => foldr Z.min x l end.
Definition map_max (m : gmap Z Z) : Z :=
  match elements (dom m) with [] => -1 | x :: l => foldr Z.max x l end.

Definition seq_pos_min (c : llama_kv_cells) (seq_id : Z) : outcome Z :=
  c_assert (0 <=? seq_id) "seq_id >= 0";;
  c_assert (seq_id <? MAX_SEQ) "seq_id < LLAMA_MAX_SEQ";;
  m ← at_ (kc_seq_pos c) (Z.to_nat seq_id);
  if bool_decide (m = ∅) then Ret (-1)
  else c_assert (0 <? default 0 (m !! map_min m)) "begin()->second > 0";; Ret (map_min m).

Definition seq_pos_max (c : llama_kv_cells) (seq_id : Z) : outcome Z :=
  c_assert (0 <=? seq_id) "seq_id >= 0";;
  c_assert (seq_id <? MAX_SEQ) "seq_id < LLAMA_MAX_SEQ";;
  m ← at_ (kc_seq_pos c) (Z.to_nat seq_id);
  if bool_decide (m = ∅) then Ret (-1)
  else c_assert (0 <? default 0 (m !! map_max m)) "rbegin()->second > 0";; Ret (map_max m).

(** The elements of a cell that must not be empty. *)
Definition used_cell (c : llama_kv_cells) (i : nat) : outcome kv_cell :=
  x ← get_cell c i;
  c_assert (negb (cell_pos x =? -1)) "pos[i] != -1";;
  Ret x.

Definition pos_get (c : llama_kv_cells) (i : nat) : outcome Z :=
  x ← used_cell c i; Ret (cell_pos x).
Definition ext_get (c : llama_kv_cells) (i : nat) : outcome llama_kv_cell_ext :=
  x ← used_cell c i; Ret (cell_ext x).
Definition get_shift (c : llama_kv_cells) (i : nat) : outcome Z :=
  x ← used_cell c i; Ret (cell_shift x).

Definition pos_in (c : llama_kv_cells) (i : nat) (p0 p1 : Z) : outcome bool :=
  x ← get_cell c i; Ret ((p0 <=? cell_pos x) && (cell_pos x <? p1)).

Definition pos_set (c : llama_kv_cells) (i : nat) (p : Z) : outcome llama_kv_cells :=
  x ← get_cell c i;
  c_assert (cell_pos x =? -1) "pos[i] == -1";;
  c_assert (bool_decide (cell_seq x = ∅)) "seq[i].none()";;
  c ← put_cell c i (with_pos x p);
  Ret (set_used c ({[ i ]} ∪ kc_used c)).

Definition ext_set (c : llama_kv_cells) (i : nat) (e : llama_kv_cell_ext) : outcome llama_kv_cells :=
  x ← get_cell c i; put_cell c i (with_ext x e).

(** Returns whether the cell becomes empty, as its position turned negative. *)
Definition pos_add (c : llama_kv_cells) (i : nat) (d : Z) : outcome (bool * llama_kv_cells) :=
  x ← used_cell c i;
  c ← seq_pos_rm c i;
  let p := cell_pos x + d in
  let c := set_has_shift c true in
  if p <? 0 then
    c ← put_cell c i (mk_cell (-1) (cell_ext x) 0 ∅);
    Ret (true, set_used c (kc_used c ∖ {[ i ]}))
  else
    c ← put_cell c i (mk_cell p (cell_ext x) (cell_shift x + d) (cell_seq x));
    c ← seq_pos_add c i;
    Ret (false, c).

(** The division truncates towards zero; a zero divisor is undefined. *)
Definition pos_div (c : llama_kv_cells) (i : nat) (d : Z) : outcome llama_kv_cells :=
  x ← used_cell c i;
  c ← seq_pos_rm c i;
  if d =? 0 then Undef
  else
    let p := Z.quot (cell_pos x) d in
    c ← put_cell c i (mk_cell p (cell_ext x) (cell_shift x + (cell_pos x - p)) (cell_seq x));
    c ← seq_pos_add c i;
    Ret (set_has_shift c true).

End Cells.
