(* ===== verification/KvCellsFacts.v ===== *)
(** * The invariant of the KV cells and the effect of every operation.

    [cells_ok]: an unused cell is blank, the set of used cells is exact, and the
    per-sequence index counts how often each position occurs ([index_ok]).  Both
    indices are functions of the cells, so that two well-formed containers with
    the same cells are equal ([cells_ext]) and each operation is described by
    the cell it rewrites ([updates]). *)

From S2P Require Import Prelude KvCells.
From Stdlib Require Import Lia.

(** ** The invariant *)

Definition uses (s p : Z) (x : kv_cell) : bool :=
  bool_decide (s ∈ cell_seq x) && (cell_pos x =? p).

(** How many cells hold sequence [s] at position [p]. *)
Definition tally (cs : list kv_cell) (s p : Z) : nat := length (List.filter (uses s p) cs).

Definition entry (n : nat) : option Z := if (n =? 0)%nat then None else Some (Z.of_nat n).

Definition index_ok (cs : list kv_cell) (sp : list (gmap Z Z)) : Prop :=
  length sp = Z.to_nat MAX_SEQ /\
  forall s m, 0 <= s -> sp !! Z.to_nat s = Some m -> forall p, m !! p = entry (tally cs s p).

Definition seqs_bounded (x : kv_cell) : Prop := forall s, s ∈ cell_seq x -> 0 <= s < MAX_SEQ.

Definition cell_ok (x : kv_cell) : Prop :=
  seqs_bounded x /\
  ((cell_pos x = -1 /\ cell_seq x = ∅ /\ cell_shift x = 0) \/ 0 <= cell_pos x).

Definition used_ok (cs : list kv_cell) (u : gset nat) : Prop :=
  forall i, i ∈ u <-> exists x, cs !! i = Some x /\ cell_pos x <> -1.

Definition cells_ok (c : llama_kv_cells) : Prop :=
  Forall cell_ok (kc_cells c) /\ used_ok (kc_cells c) (kc_used c)
  /\ index_ok (kc_cells c) (kc_seq_pos c).

(** [c'] is [c] with cell [i] rewritten to [y]. *)
Definition updates (c : llama_kv_cells) (i : nat) (y : kv_cell) (shifted : bool)
    (c' : llama_kv_cells) : Prop :=
  cells_ok c' /\ kc_cells c' = <[i := y]> (kc_cells c) /\ kc_has_shift c' = shifted.

(** ** The index *)

Lemma tally_insert cs i x y s p : cs !! i = Some x ->
  (tally (<[i := y]> cs) s p + Nat.b2n (uses s p x) = tally cs s p + Nat.b2n (uses s p y))%nat.
Proof.
  unfold tally. revert i. induction cs as [|z cs IH]; intros [|i] H; simpl in *; try done.
  - injection H as ->. destruct (uses s p x), (uses s p y); simpl; lia.
  - specialize (IH _ H). destruct (uses s p z); simpl; lia.
Qed.

Lemma tally_same cs i x y s p : cs !! i = Some x -> uses s p x = uses s p y ->
  tally (<[i := y]> cs) s p = tally cs s p.
Proof. intros H E. pose proof (tally_insert cs i x y s p H). rewrite E in *. lia. Qed.

Lemma tally_pos cs s p : (0 < tally cs s p)%nat <-> exists i x, cs !! i = Some x /\ uses s p x = true.
Proof.
  unfold tally. split.
  - induction cs as [|z cs IH]; simpl; [lia|]. destruct (uses s p z) eqn:E.
    + intros _. by exists 0%nat, z.
    + intros H. destruct (IH H) as (i & x & Hi & Hx). by exists (S i), x.
  - intros (i & x & Hi & Hx). revert i Hi. induction cs as [|z cs IH]; intros [|i] Hi; try done.
    + injection Hi as ->. simpl. rewrite Hx. simpl. lia.
    + simpl. specialize (IH i Hi). destruct (uses s p z); simpl; lia.
Qed.

Lemma index_lookup cs sp s : index_ok cs sp -> 0 <= s < MAX_SEQ ->
  exists m, sp !! Z.to_nat s = Some m /\ forall p, m !! p = entry (tally cs s p).
Proof.
  intros [Hl H] Hs. destruct (lookup_lt_is_Some_2 sp (Z.to_nat s)) as [m Hm].
  { rewrite Hl. lia. }
  exists m. split; [done|]. apply H; [lia|done].
Qed.

Lemma index_insert cs cs' sp s m' : index_ok cs sp -> 0 <= s < MAX_SEQ ->
  (forall s' p, s' <> s -> tally cs' s' p = tally cs s' p) ->
  (forall p, m' !! p = entry (tally cs' s p)) ->
  index_ok cs' (<[Z.to_nat s := m']> sp).
Proof.
  intros [Hl H] Hs Hother Hm. split; [by rewrite length_insert|].
  intros s' m Hs' Hlk. destruct (decide (s' = s)) as [->|Hne].
  - rewrite list_lookup_insert_eq in Hlk by (rewrite Hl; lia). by injection Hlk as <-.
  - rewrite list_lookup_insert_ne in Hlk by lia. intros p. rewrite Hother by done. by apply H.
Qed.

Lemma index_ext cs cs' sp : (forall s p, tally cs s p = tally cs' s p) ->
  index_ok cs sp -> index_ok cs' sp.
Proof. intros E [Hl H]. split; [done|]. intros s m Hs Hm p. rewrite <- E. by apply H. Qed.

(** A cell without sequences does not count, whatever its position. *)
Lemma index_blank cs sp i x y : (i < length cs)%nat -> cell_seq x = ∅ -> cell_seq y = ∅ ->
  index_ok (<[i := x]> cs) sp -> index_ok (<[i := y]> cs) sp.
Proof.
  intros Hi Hx Hy. apply index_ext. intros s p. rewrite <- (list_insert_insert_eq cs i y x).
  symmetry. apply (tally_same _ _ x); [by apply list_lookup_insert_eq|].
  unfold uses. by rewrite Hx, Hy.
Qed.

Lemma uses_with_seq x S s p : uses s p (with_seq x S) = bool_decide (s ∈ S) && (cell_pos x =? p).
Proof. done. Qed.

Lemma seq_pos_dec_ok c cs i x s : index_ok cs (kc_seq_pos c) -> cs !! i = Some x ->
  s ∈ cell_seq x -> 0 <= s < MAX_SEQ ->
  exists sp, Cells.seq_pos_dec c s (cell_pos x) = Ret (set_seq_pos c sp)
    /\ index_ok (<[i := with_seq x (cell_seq x ∖ {[ s ]})]> cs) sp.
Proof.
  intros Hok Hi Hin Hs. destruct (index_lookup _ _ s Hok Hs) as (m & Hm & Hcount).
  unfold Cells.seq_pos_dec, at_. rewrite Hm. simpl.
  set (y := with_seq x (cell_seq x ∖ {[ s ]})).
  assert (Hux : uses s (cell_pos x) x = true).
  { unfold uses. rewrite bool_decide_eq_true_2 by done. by rewrite Z.eqb_refl. }
  assert (Huy : forall p, uses s p y = false).
  { intros p. unfold y. rewrite uses_with_seq. by rewrite bool_decide_eq_false_2 by set_solver. }
  assert (Hpos : (0 < tally cs s (cell_pos x))%nat) by (apply tally_pos; eauto).
  pose proof (tally_insert cs i x y s (cell_pos x) Hi) as Ht. rewrite Hux, Huy in Ht. simpl in Ht.
  rewrite Hcount. unfold entry at 1. destruct (Nat.eqb_spec (tally cs s (cell_pos x)) 0); [lia|].
  unfold set_. rewrite decide_True by (apply lookup_lt_Some in Hm; done). simpl.
  eexists. split; [reflexivity|]. apply (index_insert cs); [done..| |].
  { intros s' p Hne. apply (tally_same _ _ x); [done|]. unfold y. rewrite uses_with_seq.
    unfold uses. f_equal. apply bool_decide_ext. set_solver. }
  intros p. destruct (decide (p = cell_pos x)) as [->|Hne].
  - destruct (Z.eqb_spec (Z.of_nat (tally cs s (cell_pos x)) - 1) 0).
    + rewrite lookup_delete_eq. unfold entry. by replace (tally (<[i := y]> cs) s (cell_pos x)) with 0%nat by lia.
    + rewrite lookup_insert_eq. unfold entry. destruct (Nat.eqb_spec (tally (<[i := y]> cs) s (cell_pos x)) 0); [lia|].
      f_equal. lia.
  - assert (Hsame : tally (<[i := y]> cs) s p = tally cs s p).
    { apply (tally_same _ _ x); [done|]. rewrite Huy. unfold uses.
      rewrite (proj2 (Z.eqb_neq (cell_pos x) p)) by congruence. by rewrite andb_false_r. }
    rewrite Hsame, <- Hcount. destruct (_ =? 0); [by rewrite lookup_delete_ne|by rewrite lookup_insert_ne].
Qed.

Lemma seq_pos_inc_ok c cs i x s : index_ok cs (kc_seq_pos c) -> cs !! i = Some x ->
  s ∉ cell_seq x -> 0 <= s < MAX_SEQ ->
  exists sp, Cells.seq_pos_inc c s (cell_pos x) = Ret (set_seq_pos c sp)
    /\ index_ok (<[i := with_seq x ({[ s ]} ∪ cell_seq x)]> cs) sp.
Proof.
  intros Hok Hi Hin Hs. destruct (index_lookup _ _ s Hok Hs) as (m & Hm & Hcount).
  unfold Cells.seq_pos_inc, at_. rewrite Hm. simpl.
  unfold set_. rewrite decide_True by (apply lookup_lt_Some in Hm; done). simpl.
  eexists. split; [reflexivity|].
  set (y := with_seq x ({[ s ]} ∪ cell_seq x)).
  assert (Hux : forall p, uses s p x = false).
  { intros p. unfold uses. by rewrite bool_decide_eq_false_2. }
  assert (Huy : forall p, uses s p y = (cell_pos x =? p)).
  { intros p. unfold y. rewrite uses_with_seq. by rewrite bool_decide_eq_true_2 by set_solver. }
  apply (index_insert cs); [done..| |].
  { intros s' p Hne. apply (tally_same _ _ x); [done|]. unfold y. rewrite uses_with_seq.
    unfold uses. f_equal. apply bool_decide_ext. set_solver. }
  intros p. pose proof (tally_insert cs i x y s p Hi) as Ht. rewrite Hux, Huy in Ht.
  destruct (Z.eqb_spec (cell_pos x) p) as [->|Hne]; simpl in Ht.
  - rewrite lookup_insert_eq, Hcount. unfold entry.
    destruct (Nat.eqb_spec (tally (<[i := y]> cs) s p) 0), (Nat.eqb_spec (tally cs s p) 0);
      simpl; try lia; f_equal; lia.
  - rewrite lookup_insert_ne, Hcount by done. f_equal. lia.
Qed.

(** ** Removing and adding a whole cell *)

Lemma with_seq_same x : with_seq x (cell_seq x) = x.
Proof. by destruct x. Qed.

Lemma set_seq_pos_twice c sp sp' : set_seq_pos (set_seq_pos c sp) sp' = set_seq_pos c sp'.
Proof. done. Qed.

Lemma set_seq_pos_same c : set_seq_pos c (kc_seq_pos c) = c.
Proof. by destruct c. Qed.

Lemma each_dec_ok i x : forall l c cs y, NoDup l -> (forall s, s ∈ l -> 0 <= s < MAX_SEQ) ->
  index_ok cs (kc_seq_pos c) -> cs !! i = Some y -> cell_pos y = cell_pos x ->
  (forall s, s ∈ l -> (s ∈ cell_seq y <-> s ∈ cell_seq x)) ->
  exists sp, foldM (fun c s => if bool_decide (s ∈ cell_seq x)
                               then Cells.seq_pos_dec c s (cell_pos x) else Ret c) c l
             = Ret (set_seq_pos c sp)
    /\ index_ok (<[i := with_seq y (cell_seq y ∖ list_to_set l)]> cs) sp.
Proof.
  induction l as [|s l IH]; intros c cs y Hnd Hb Hok Hi Hp Hxy.
  - exists (kc_seq_pos c). split; [by rewrite set_seq_pos_same|].
    simpl. rewrite difference_empty_L, with_seq_same, list_insert_id by done. done.
  - apply NoDup_cons in Hnd as [Hs Hnd]. cbn [foldM].
    assert (Hsx := Hxy s ltac:(left)). case_bool_decide as Hx.
    + destruct (seq_pos_dec_ok c cs i y s Hok Hi ltac:(tauto) (Hb s ltac:(left))) as (sp & E & Hsp).
      rewrite <- Hp, E. cbn [mbind outcome_bind].
      set (y' := with_seq y (cell_seq y ∖ {[ s ]})) in *.
      destruct (IH (set_seq_pos c sp) (<[i := y']> cs) y') as (sp' & E' & Hsp'); try done.
      { intros s' Hs'. apply Hb. by right. }
      { apply list_lookup_insert_eq. by eapply lookup_lt_Some. }
      { intros s' Hs'. specialize (Hxy s' ltac:(by right)). simpl.
        assert (s' <> s) by congruence. set_solver. }
      exists sp'. rewrite Hp, E', set_seq_pos_twice. split; [done|].
      rewrite list_insert_insert_eq in Hsp'. unfold y' in Hsp'. simpl in *.
      replace (cell_seq y ∖ ({[s]} ∪ list_to_set l))
        with (cell_seq y ∖ {[s]} ∖ list_to_set l) by set_solver. done.
    + cbn [mbind outcome_bind].
      destruct (IH c cs y) as (sp & E & Hsp); try done.
      { intros s' Hs'. apply Hb. by right. }
      { intros s' Hs'. apply Hxy. by right. }
      exists sp. split; [done|]. simpl.
      replace (cell_seq y ∖ ({[s]} ∪ list_to_set l)) with (cell_seq y ∖ list_to_set l) by set_solver.
      done.
Qed.

Lemma each_inc_ok i x : forall l c cs y, NoDup l -> (forall s, s ∈ l -> 0 <= s < MAX_SEQ) ->
  index_ok cs (kc_seq_pos c) -> cs !! i = Some y -> cell_pos y = cell_pos x ->
  (forall s, s ∈ l -> s ∉ cell_seq y) ->
  exists sp, foldM (fun c s => if bool_decide (s ∈ cell_seq x)
                               then Cells.seq_pos_inc c s (cell_pos x) else Ret c) c l
             = Ret (set_seq_pos c sp)
    /\ index_ok (<[i := with_seq y (cell_seq y ∪ (cell_seq x ∩ list_to_set l))]> cs) sp.
Proof.
  induction l as [|s l IH]; intros c cs y Hnd Hb Hok Hi Hp Hxy.
  - exists (kc_seq_pos c). split; [by rewrite set_seq_pos_same|].
    simpl. rewrite intersection_empty_r_L, union_empty_r_L, with_seq_same, list_insert_id by done. done.
  - apply NoDup_cons in Hnd as [Hs Hnd]. cbn [foldM].
    assert (Hsx := Hxy s ltac:(left)). case_bool_decide as Hx.
    + destruct (seq_pos_inc_ok c cs i y s Hok Hi Hsx (Hb s ltac:(left))) as (sp & E & Hsp).
      rewrite <- Hp, E. cbn [mbind outcome_bind].
      set (y' := with_seq y ({[ s ]} ∪ cell_seq y)) in *.
      destruct (IH (set_seq_pos c sp) (<[i := y']> cs) y') as (sp' & E' & Hsp'); try done.
      { intros s' Hs'. apply Hb. by right. }
      { apply list_lookup_insert_eq. by eapply lookup_lt_Some. }
      { intros s' Hs'. specialize (Hxy s' ltac:(by right)). simpl.
        assert (s' <> s) by congruence. set_solver. }
      exists sp'. rewrite Hp, E', set_seq_pos_twice. split; [done|].
      rewrite list_insert_insert_eq in Hsp'. unfold y' in Hsp'. simpl in *.
      replace (cell_seq y ∪ cell_seq x ∩ ({[s]} ∪ list_to_set l))
        with ({[s]} ∪ cell_seq y ∪ cell_seq x ∩ list_to_set l) by set_solver. done.
    + cbn [mbind outcome_bind].
      destruct (IH c cs y) as (sp & E & Hsp); try done.
      { intros s' Hs'. apply Hb. by right. }
      { intros s' Hs'. apply Hxy. by right. }
      exists sp. split; [done|]. simpl.
      replace (cell_seq x ∩ ({[s]} ∪ list_to_set l)) with (cell_seq x ∩ list_to_set l) by set_solver.
      done.
Qed.

Lemma all_seqs s : s ∈ seqZ 0 MAX_SEQ <-> 0 <= s < MAX_SEQ.
Proof. rewrite elem_of_seqZ. lia. Qed.

Opaque seqZ.

(** [seq_pos_rm] takes the cell out of the index. *)
Lemma seq_pos_rm_ok c i x : index_ok (kc_cells c) (kc_seq_pos c) -> kc_cells c !! i = Some x ->
  seqs_bounded x ->
  exists sp, Cells.seq_pos_rm c i = Ret (set_seq_pos c sp)
    /\ index_ok (<[i := with_seq x ∅]> (kc_cells c)) sp.
Proof.
  intros Hok Hi Hb. unfold Cells.seq_pos_rm, at_. rewrite Hi. cbn [mbind outcome_bind].
  destruct (each_dec_ok i x (seqZ 0 MAX_SEQ) c (kc_cells c) x) as (sp & E & Hsp).
  { apply NoDup_seqZ. }
  { intros s. apply all_seqs. }
  { exact Hok. }
  { exact Hi. }
  { reflexivity. }
  { done. }
  exists sp. split; [done|].
  replace (cell_seq x ∖ list_to_set (seqZ 0 MAX_SEQ)) with (∅ : gset Z) in Hsp; [done|].
  symmetry. apply elem_of_equiv_empty_L. intros s [Hs Hn]%elem_of_difference.
  destruct Hn. rewrite elem_of_list_to_set, all_seqs. by apply Hb.
Qed.

(** [seq_pos_add] puts the cell back, whose sequences the index does not count yet. *)
Lemma seq_pos_add_ok c i x : kc_cells c !! i = Some x -> seqs_bounded x ->
  index_ok (<[i := with_seq x ∅]> (kc_cells c)) (kc_seq_pos c) ->
  exists sp, Cells.seq_pos_add c i = Ret (set_seq_pos c sp) /\ index_ok (kc_cells c) sp.
Proof.
  intros Hi Hb Hok. unfold Cells.seq_pos_add, at_. rewrite Hi. cbn [mbind outcome_bind].
  destruct (each_inc_ok i x (seqZ 0 MAX_SEQ) c (<[i := with_seq x ∅]> (kc_cells c)) (with_seq x ∅))
    as (sp & E & Hsp).
  { apply NoDup_seqZ. }
  { intros s. apply all_seqs. }
  { exact Hok. }
  { apply list_lookup_insert_eq. by eapply lookup_lt_Some. }
  { reflexivity. }
  { intros s _. simpl. apply not_elem_of_empty. }
  exists sp. split; [done|]. rewrite list_insert_insert_eq in Hsp. simpl in Hsp.
  replace (∅ ∪ cell_seq x ∩ list_to_set (seqZ 0 MAX_SEQ)) with (cell_seq x) in Hsp.
  { change (with_seq (with_seq x ∅) (cell_seq x)) with (with_seq x (cell_seq x)) in Hsp.
    by rewrite with_seq_same, list_insert_id in Hsp by done. }
  apply set_eq. intros s. rewrite elem_of_union, elem_of_intersection, elem_of_list_to_set, all_seqs.
  split; [|set_solver]. intros Hs. right. split; [done|]. by apply Hb.
Qed.

Transparent seqZ.

(** ** The effect of the operations *)

Definition with_cells (c : llama_kv_cells) (l : list kv_cell) : llama_kv_cells :=
  mk_cells (kc_has_shift c) (kc_used c) l (kc_seq_pos c).

Lemma put_cell_Ret c i x y : kc_cells c !! i = Some x ->
  put_cell c i y = Ret (with_cells c (<[i := y]> (kc_cells c))).
Proof.
  intros Hi. unfold put_cell, set_. apply lookup_lt_Some in Hi. by rewrite decide_True by done.
Qed.

Lemma get_cell_Ret c i x : kc_cells c !! i = Some x -> get_cell c i = Ret x.
Proof. intros Hi. unfold get_cell. by rewrite Hi. Qed.

Lemma cell_ok_at c i x : cells_ok c -> kc_cells c !! i = Some x -> cell_ok x.
Proof. intros (Hc & _) Hi. by eapply Forall_lookup_1. Qed.

Lemma empty_cell_ok : cell_ok empty_cell.
Proof. split; [intros s Hs; set_solver|]. by left. Qed.

Lemma blank_ext x : cell_ok x -> cell_pos x = -1 -> cell_seq x = ∅ /\ cell_shift x = 0.
Proof. intros [_ [(_ & ? & ?)|?]] E; [done|lia]. Qed.

Lemma used_pos x : cell_ok x -> cell_pos x <> -1 -> 0 <= cell_pos x.
Proof. intros [_ [(? & _)|?]] E; [done|lia]. Qed.

Lemma update_ok c i x y u sp b : cells_ok c -> kc_cells c !! i = Some x -> cell_ok y ->
  index_ok (<[i := y]> (kc_cells c)) sp ->
  (forall j, j ∈ u <-> if decide (j = i) then cell_pos y <> -1 else j ∈ kc_used c) ->
  updates c i y b (mk_cells b u (<[i := y]> (kc_cells c)) sp).
Proof.
  intros (Hc & Hu & Hsp) Hi Hy Hsp' Hu'. split; [|done]. split_and!; simpl; [|intros j|done].
  - by apply Forall_insert.
  - rewrite (Hu' j). destruct (decide (j = i)) as [->|Hne].
    + rewrite list_lookup_insert_eq by (by eapply lookup_lt_Some). naive_solver.
    + rewrite list_lookup_insert_ne by done. apply Hu.
Qed.

(** Both indices are determined by the cells. *)
Lemma cells_ext c c' : cells_ok c -> cells_ok c' -> kc_cells c = kc_cells c' ->
  kc_has_shift c = kc_has_shift c' -> c = c'.
Proof.
  destruct c as [b u cs sp], c' as [b' u' cs' sp']. unfold cells_ok, used_ok. simpl.
  intros (_ & Hu & Hl & Hsp) (_ & Hu' & Hl' & Hsp') <- <-. f_equal.
  - apply set_eq. intros i. rewrite (Hu i), (Hu' i). done.
  - apply list_eq_same_length with (n := length sp); [congruence|done|].
    intros k m m' Hk Hm Hm'. apply map_eq. intros p.
    pose proof (Hsp (Z.of_nat k) m ltac:(lia)) as E1.
    pose proof (Hsp' (Z.of_nat k) m' ltac:(lia)) as E2.
    rewrite Nat2Z.id in E1, E2. by rewrite (E1 Hm), (E2 Hm').
Qed.

Lemma updates_fun c i y b c1 c2 : updates c i y b c1 -> updates c i y b c2 -> c1 = c2.
Proof.
  intros (H1 & E1 & B1) (H2 & E2 & B2). apply cells_ext; [done|done| |]; congruence.
Qed.

Lemma neq_m1 p : p <> -1 -> (p =? -1) = false.
Proof. apply Z.eqb_neq. Qed.

Lemma rm_ok c i x : cells_ok c -> kc_cells c !! i = Some x -> cell_pos x <> -1 ->
  exists c', Cells.rm c i = Ret c' /\ updates c i empty_cell (kc_has_shift c) c'.
Proof.
  intros Hok Hi Hp. pose proof (cell_ok_at _ _ _ Hok Hi) as [Hb _]. pose proof Hok as (_ & _ & Hsp).
  unfold Cells.rm. rewrite (get_cell_Ret _ _ _ Hi). simpl. rewrite neq_m1 by done. simpl.
  destruct (seq_pos_rm_ok c i x Hsp Hi Hb) as (sp & E & Hsp'). rewrite E. simpl.
  erewrite put_cell_Ret by exact Hi. simpl. eexists. split; [reflexivity|].
  apply (update_ok c i x); [done|done|apply empty_cell_ok| |].
  - apply (index_blank _ _ i (with_seq x ∅)); [by eapply lookup_lt_Some|done..].
  - intros j. simpl. case_decide; set_solver.
Qed.

Lemma bs_test_Ret x s : seqs_bounded x -> 0 <= s < MAX_SEQ ->
  bs_test (cell_seq x) s = Ret (bool_decide (s ∈ cell_seq x)).
Proof.
  intros Hb Hs. unfold bs_test. rewrite (proj2 (Z.leb_le 0 s)), (proj2 (Z.ltb_lt s MAX_SEQ)) by lia. done.
Qed.

(** A cell that leaves sequence [s], and is blanked when it was its last one. *)
Definition leave (x : kv_cell) (s : Z) : kv_cell :=
  if bool_decide (cell_seq x ∖ {[ s ]} = ∅) then empty_cell else with_seq x (cell_seq x ∖ {[ s ]}).

Lemma seq_rm_ok c i x s : cells_ok c -> kc_cells c !! i = Some x -> cell_pos x <> -1 ->
  s ∈ cell_seq x ->
  exists c', Cells.seq_rm c i s = Ret (bool_decide (cell_seq x ∖ {[ s ]} = ∅), c')
    /\ updates c i (leave x s) (kc_has_shift c) c'.
Proof.
  intros Hok Hi Hp Hin. pose proof (cell_ok_at _ _ _ Hok Hi) as Hx. pose proof Hx as [Hb _].
  pose proof Hok as (_ & Hu & Hsp). pose proof (lookup_lt_Some _ _ _ Hi) as Hlt.
  unfold Cells.seq_rm. rewrite (get_cell_Ret _ _ _ Hi). cbn [mbind outcome_bind].
  rewrite (bs_test_Ret x s Hb (Hb s Hin)), (bool_decide_eq_true_2 (s ∈ cell_seq x)) by done. simpl.
  rewrite neq_m1 by done. simpl. erewrite put_cell_Ret by exact Hi. cbn [mbind outcome_bind].
  destruct (seq_pos_dec_ok (with_cells c (<[i := with_seq x (cell_seq x ∖ {[s]})]> (kc_cells c)))
    (kc_cells c) i x s) as (sp & E & Hsp'); [done|done|done|by apply Hb|].
  rewrite E. cbn [mbind outcome_bind]. unfold leave. case_bool_decide as Hempty.
  - rewrite (put_cell_Ret _ i (with_seq x (cell_seq x ∖ {[s]})))
      by (simpl; by apply list_lookup_insert_eq). simpl.
    eexists. split; [reflexivity|]. rewrite list_insert_insert_eq.
    apply (update_ok c i x); [done|done|apply empty_cell_ok| |].
    + by apply (index_blank _ _ i (with_seq x (cell_seq x ∖ {[s]}))).
    + intros j. simpl. case_decide; set_solver.
  - eexists. split; [reflexivity|]. apply (update_ok c i x); [done|done| |done|].
    + split; [|right; exact (used_pos x Hx Hp)]. intros s' Hs'. apply Hb. simpl in Hs'. set_solver.
    + intros j. simpl. case_decide as Hj; [|done]. subst j. rewrite (Hu i). naive_solver.
Qed.

Lemma seq_add_ok c i x s : cells_ok c -> kc_cells c !! i = Some x -> cell_pos x <> -1 ->
  s ∉ cell_seq x -> 0 <= s < MAX_SEQ ->
  exists c', Cells.seq_add c i s = Ret c'
    /\ updates c i (with_seq x ({[ s ]} ∪ cell_seq x)) (kc_has_shift c) c'.
Proof.
  intros Hok Hi Hp Hin Hs. pose proof (cell_ok_at _ _ _ Hok Hi) as Hx. pose proof Hx as [Hb _].
  pose proof Hok as (_ & Hu & Hsp).
  unfold Cells.seq_add. rewrite (get_cell_Ret _ _ _ Hi). simpl. rewrite neq_m1 by done. simpl.
  rewrite (bs_test_Ret x s Hb Hs), (bool_decide_eq_false_2 (s ∈ cell_seq x)) by done. simpl.
  erewrite put_cell_Ret by exact Hi. cbn [mbind outcome_bind].
  destruct (seq_pos_inc_ok (with_cells c (<[i := with_seq x ({[s]} ∪ cell_seq x)]> (kc_cells c)))
    (kc_cells c) i x s) as (sp & E & Hsp'); [done..|].
  rewrite E. eexists. split; [reflexivity|]. apply (update_ok c i x); [done|done| |done|].
  - split; [|right; exact (used_pos x Hx Hp)]. intros s' Hs'. simpl in Hs'.
    apply elem_of_union in Hs' as [->%elem_of_singleton|Hs']; [done|]. by apply Hb.
  - intros j. simpl. case_decide as Hj; [|done]. subst j. rewrite (Hu i). naive_solver.
Qed.

(** Taking cell [i] out of the index, writing [y] there and counting it again. *)
Lemma replace_ok c i x y : cells_ok c -> kc_cells c !! i = Some x -> seqs_bounded y ->
  exists sp sp', Cells.seq_pos_rm c i = Ret (set_seq_pos c sp)
    /\ index_ok (<[i := with_seq x ∅]> (kc_cells c)) sp
    /\ (forall b u, Cells.seq_pos_add (mk_cells b u (<[i := y]> (kc_cells c)) sp) i
                    = Ret (mk_cells b u (<[i := y]> (kc_cells c)) sp'))
    /\ index_ok (<[i := y]> (kc_cells c)) sp'.
Proof.
  intros Hok Hi Hb. pose proof (cell_ok_at _ _ _ Hok Hi) as [Hbx _]. pose proof Hok as (_ & _ & Hsp).
  pose proof (lookup_lt_Some _ _ _ Hi) as Hlt.
  destruct (seq_pos_rm_ok c i x Hsp Hi Hbx) as (sp & E & Hsp1).
  assert (Hadd : forall b u, exists sp', Cells.seq_pos_add (mk_cells b u (<[i := y]> (kc_cells c)) sp) i
    = Ret (mk_cells b u (<[i := y]> (kc_cells c)) sp') /\ index_ok (<[i := y]> (kc_cells c)) sp').
  { intros b u. destruct (seq_pos_add_ok (mk_cells b u (<[i := y]> (kc_cells c)) sp) i y)
      as (sp' & E' & H'); [by apply list_lookup_insert_eq|done| |by exists sp'].
    simpl. rewrite list_insert_insert_eq. by apply (index_blank _ _ i (with_seq x ∅)). }
  destruct (Hadd false ∅) as (sp' & _ & Hsp'). exists sp, sp'. split_and!; [done|done| |done].
  intros b u. destruct (Hadd b u) as (sp2 & E2 & H2). rewrite E2. do 2 f_equal.
  destruct Hsp' as [L1 H1], H2 as [L2 H2].
  apply list_eq_same_length with (n := length sp'); [done|congruence|].
  intros k m m' Hk Hm Hm'. apply map_eq. intros p.
  pose proof (H1 (Z.of_nat k) m' ltac:(lia)) as E3. pose proof (H2 (Z.of_nat k) m ltac:(lia)) as E4.
  rewrite Nat2Z.id in E3, E4. by rewrite (E3 Hm'), (E4 Hm).
Qed.

(** The set of used cells after rewriting cell [i]. *)
Lemma used_same c i x y : cells_ok c -> kc_cells c !! i = Some x -> cell_pos x <> -1 ->
  cell_pos y <> -1 -> forall j, j ∈ kc_used c <-> if decide (j = i) then cell_pos y <> -1 else j ∈ kc_used c.
Proof.
  intros (_ & Hu & _) Hi Hx Hy j. case_decide as Hj; [|done]. subst j. rewrite (Hu i). naive_solver.
Qed.

(** A cell that keeps only sequence [s], or nothing. *)
Definition keep_only (x : kv_cell) (s : Z) : kv_cell :=
  if bool_decide (s ∈ cell_seq x) then with_seq x {[ s ]}
  else if bool_decide (cell_seq x = ∅) then x else empty_cell.

Lemma seq_keep_ok c i x s : cells_ok c -> kc_cells c !! i = Some x -> 0 <= s < MAX_SEQ ->
  (cell_seq x = ∅ -> cell_pos x = -1) ->
  exists c', Cells.seq_keep c i s
      = Ret (bool_decide (s ∉ cell_seq x /\ cell_seq x <> ∅), c')
    /\ updates c i (keep_only x s) (kc_has_shift c) c'.
Proof.
  intros Hok Hi Hs Hpos. pose proof (cell_ok_at _ _ _ Hok Hi) as Hx. pose proof Hx as [Hb Hx'].
  pose proof (lookup_lt_Some _ _ _ Hi) as Hlt.
  unfold Cells.seq_keep, keep_only. rewrite (get_cell_Ret _ _ _ Hi). cbn [mbind outcome_bind].
  rewrite (bs_test_Ret x s Hb Hs). cbn [mbind outcome_bind].
  case_bool_decide as Hin; [|case_bool_decide as Hempty; cbn [negb]].
  - assert (Hp : cell_pos x <> -1) by (destruct Hx' as [(_ & E & _)|?]; [set_solver|lia]).
    destruct (replace_ok c i x x Hok Hi Hb) as (sp & _ & E & Hsp & _). rewrite E. cbn [mbind outcome_bind].
    erewrite put_cell_Ret by exact Hi. cbn [mbind outcome_bind].
    set (y := with_seq x {[s]}).
    destruct (seq_pos_inc_ok (with_cells (set_seq_pos c sp) (<[i := y]> (kc_cells c)))
      (<[i := with_seq x ∅]> (kc_cells c)) i (with_seq x ∅) s) as (sp' & E' & Hsp');
      [done|by apply list_lookup_insert_eq|simpl; set_solver|done|].
    change (cell_pos (with_seq x ∅)) with (cell_pos x) in E'.
    change (kc_cells (set_seq_pos c sp)) with (kc_cells c). fold y. rewrite E'.
    cbn [mbind outcome_bind]. eexists. split.
    { rewrite bool_decide_eq_false_2; [done|naive_solver]. }
    rewrite list_insert_insert_eq in Hsp'. simpl in Hsp'. rewrite union_empty_r_L in Hsp'.
    apply (update_ok c i x); [done|done| |done|exact (used_same c i x y Hok Hi Hp Hp)].
    split; [|by destruct Hx' as [(? & _)|?]; [|right]]. intros s' Hs'. simpl in Hs'. set_solver.
  - rewrite (Hpos Hempty). simpl. exists c. split.
    { rewrite bool_decide_eq_false_2; [done|naive_solver]. }
    split; [done|]. by rewrite list_insert_id.
  - destruct (replace_ok c i x x Hok Hi Hb) as (sp & _ & E & Hsp & _). rewrite E. cbn [mbind outcome_bind].
    erewrite put_cell_Ret by exact Hi. cbn [mbind outcome_bind]. eexists. split.
    { by rewrite bool_decide_eq_true_2. }
    apply (update_ok c i x); [done|done|apply empty_cell_ok| |].
    + by apply (index_blank _ _ i (with_seq x ∅)).
    + intros j. simpl. case_decide; set_solver.
Qed.

Lemma pos_set_ok c i x p : cells_ok c -> kc_cells c !! i = Some x -> cell_pos x = -1 -> 0 <= p ->
  exists c', Cells.pos_set c i p = Ret c' /\ updates c i (with_pos x p) (kc_has_shift c) c'.
Proof.
  intros Hok Hi Hx Hp. pose proof (cell_ok_at _ _ _ Hok Hi) as Hcx.
  destruct (blank_ext x Hcx Hx) as [Hseq Hsh].
  unfold Cells.pos_set. rewrite (get_cell_Ret _ _ _ Hi). simpl. rewrite Hx. simpl.
  rewrite bool_decide_eq_true_2 by done. simpl. erewrite put_cell_Ret by exact Hi. simpl.
  eexists. split; [reflexivity|]. pose proof Hok as (_ & _ & Hsp).
  apply (update_ok c i x); [done|done| | |].
  - split; [|by right]. intros s Hs. simpl in Hs. set_solver.
  - apply (index_blank _ _ i x); [by eapply lookup_lt_Some|done|done|]. by rewrite list_insert_id.
  - intros j. simpl. case_decide; [set_solver by lia|set_solver].
Qed.

Lemma ext_set_ok c i x e : cells_ok c -> kc_cells c !! i = Some x ->
  exists c', Cells.ext_set c i e = Ret c' /\ updates c i (with_ext x e) (kc_has_shift c) c'.
Proof.
  intros Hok Hi. pose proof (cell_ok_at _ _ _ Hok Hi) as Hcx. pose proof Hok as (_ & Hu & Hsp).
  unfold Cells.ext_set. rewrite (get_cell_Ret _ _ _ Hi). simpl.
  erewrite put_cell_Ret by exact Hi. eexists. split; [reflexivity|].
  apply (update_ok c i x); [done|done|exact Hcx| |].
  - eapply index_ext; [|exact Hsp]. intros s p. symmetry. by apply (tally_same _ _ x).
  - intros j. simpl. case_decide as Hj; [|done]. subst j. rewrite (Hu i). naive_solver.
Qed.

(** A cell moved by [d], which is freed when it moves below 0; its [ext] stays. *)
Definition moved (x : kv_cell) (d : Z) : kv_cell :=
  if cell_pos x + d <? 0 then mk_cell (-1) (cell_ext x) 0 ∅
  else mk_cell (cell_pos x + d) (cell_ext x) (cell_shift x + d) (cell_seq x).

Lemma used_cell_Ret c i x : kc_cells c !! i = Some x -> cell_pos x <> -1 ->
  Cells.used_cell c i = Ret x.
Proof.
  intros Hi Hp. unfold Cells.used_cell. rewrite (get_cell_Ret _ _ _ Hi). simpl.
  by rewrite neq_m1.
Qed.

Lemma pos_add_ok c i x d : cells_ok c -> kc_cells c !! i = Some x -> cell_pos x <> -1 ->
  exists c', Cells.pos_add c i d = Ret (cell_pos x + d <? 0, c') /\ updates c i (moved x d) true c'.
Proof.
  intros Hok Hi Hp. pose proof (cell_ok_at _ _ _ Hok Hi) as Hcx. pose proof Hcx as [Hb _].
  unfold Cells.pos_add, moved. rewrite (used_cell_Ret _ _ _ Hi Hp). cbn [mbind outcome_bind].
  destruct (replace_ok c i x (mk_cell (cell_pos x + d) (cell_ext x) (cell_shift x + d) (cell_seq x))
    Hok Hi Hb) as (sp & sp' & E & Hsp & Eadd & Hsp').
  rewrite E. cbn [mbind outcome_bind]. case_match eqn:Hneg.
  - erewrite put_cell_Ret by exact Hi. cbn [mbind outcome_bind]. eexists. split; [reflexivity|].
    apply (update_ok c i x); [done|done| | |].
    + split; [intros s Hs; set_solver|by left].
    + apply (index_blank _ _ i (with_seq x ∅)); [by eapply lookup_lt_Some|done..].
    + intros j. simpl. case_decide; set_solver.
  - erewrite put_cell_Ret by exact Hi. cbn [mbind outcome_bind]. simpl.
    unfold with_cells. simpl. rewrite Eadd. cbn [mbind outcome_bind].
    eexists. split; [reflexivity|]. apply Z.ltb_ge in Hneg.
    apply (update_ok c i x); [done|done| |done|].
    + split; [exact Hb|]. by right.
    + apply (used_same c i x); [done|done|done|]. simpl. lia.
Qed.

(** A cell whose position is divided by [d].  Its recorded shift grows by what
    the position lost. *)
Definition divided (x : kv_cell) (d : Z) : kv_cell :=
  mk_cell (Z.quot (cell_pos x) d) (cell_ext x)
    (cell_shift x + (cell_pos x - Z.quot (cell_pos x) d)) (cell_seq x).

Lemma pos_div_ok c i x d : cells_ok c -> kc_cells c !! i = Some x -> cell_pos x <> -1 -> 0 < d ->
  exists c', Cells.pos_div c i d = Ret c' /\ updates c i (divided x d) true c'.
Proof.
  intros Hok Hi Hp Hd. pose proof (cell_ok_at _ _ _ Hok Hi) as Hcx. pose proof Hcx as [Hb _].
  pose proof (used_pos x Hcx Hp) as Hp0.
  assert (Hq : 0 <= Z.quot (cell_pos x) d) by (apply Z.quot_pos; lia).
  unfold Cells.pos_div. rewrite (used_cell_Ret _ _ _ Hi Hp). cbn [mbind outcome_bind].
  destruct (replace_ok c i x (divided x d) Hok Hi Hb) as (sp & sp' & E & Hsp & Eadd & Hsp').
  rewrite E. cbn [mbind outcome_bind]. destruct (Z.eqb_spec d 0); [lia|].
  erewrite put_cell_Ret by exact Hi. cbn [mbind outcome_bind]. simpl.
  unfold with_cells. simpl. unfold divided in Eadd. rewrite Eadd. cbn [mbind outcome_bind].
  eexists. split; [reflexivity|]. apply (update_ok c i x); [done|done| |done|].
  - split; [exact Hb|]. by right.
  - apply (used_same c i x); [done|done|done|]. simpl. lia.
Qed.

(** ** Saving and restoring *)

Lemma cp_idxs_ok c idxs : cells_ok c ->
  (forall i, i ∈ idxs -> exists x, kc_cells c !! i = Some x /\ cell_shift x = 0) ->
  exists saved, Cells.cp_idxs c idxs = Ret saved /\ length (kc_cells saved) = length idxs
    /\ forall k i, idxs !! k = Some i -> kc_cells saved !! k = kc_cells c !! i.
Proof.
  intros Hok Hin. unfold Cells.cp_idxs.
  assert (H : forall pre, exists l, foldM (fun acc idx =>
      x ← at_ (kc_cells c) idx; c_assert (cell_shift x =? 0) "shift[idx] == 0";;
      Ret (acc ++ [with_shift x 0])) pre idxs = Ret (pre ++ l)
    /\ length l = length idxs /\ forall k i, idxs !! k = Some i -> l !! k = kc_cells c !! i).
  { clear Hok. induction idxs as [|i idxs IH]; intros pre.
    - exists []. by rewrite app_nil_r.
    - destruct (Hin i ltac:(left)) as (x & Hi & Hsh). cbn [foldM]. rewrite (proj2 (at_Ret _ _ _) Hi).
      cbn [mbind outcome_bind]. rewrite Hsh. simpl (c_assert _ _). cbn [mbind outcome_bind].
      destruct (IH ltac:(intros j Hj; apply Hin; by right) (pre ++ [with_shift x 0]))
        as (l & E & Hl & Hk).
      exists (with_shift x 0 :: l). rewrite E, <- app_assoc. split_and!; [done|simpl; by rewrite Hl|].
      intros [|k] j Hj; simpl in *; [|by apply Hk]. injection Hj as <-. rewrite Hi.
      unfold with_shift. destruct x; simpl in *. by rewrite Hsh. }
  destruct (H []) as (l & E & Hl & Hk). rewrite E. simpl. eexists. split; [reflexivity|]. done.
Qed.

Lemma set_cell_ok c i x y : cells_ok c -> kc_cells c !! i = Some x -> cell_shift x = 0 ->
  cell_ok y -> cell_shift y = 0 ->
  exists c', Cells.set_cell c i y = Ret c' /\ updates c i y (kc_has_shift c) c'.
Proof.
  intros Hok Hi Hsx Hy Hsy. pose proof (cell_ok_at _ _ _ Hok Hi) as Hcx.
  pose proof Hy as [Hby _]. pose proof Hok as (_ & Hu & Hsp0).
  pose proof (lookup_lt_Some _ _ _ Hi) as Hlt.
  assert (Ey : mk_cell (cell_pos y) (cell_ext y) (cell_shift x) (cell_seq y) = y).
  { destruct y; simpl in *. congruence. }
  destruct (replace_ok c i x y Hok Hi Hby) as (sp & sp' & E & Hsp & Eadd & Hsp').
  unfold Cells.set_cell, at_. rewrite Hi. cbn [mbind outcome_bind]. rewrite Ey, Hsx. simpl (0 =? 0).
  destruct (Z.eqb_spec (cell_pos x) (-1)) as [Ex|Nx], (Z.eqb_spec (cell_pos y) (-1)) as [Ep|Np];
    cbn [andb negb mbind outcome_bind].
  - erewrite put_cell_Ret by exact Hi. simpl. eexists. split; [reflexivity|].
    apply (update_ok c i x); [done..| |].
    + destruct (blank_ext x Hcx Ex), (blank_ext y Hy Ep).
      apply (index_blank _ _ i x); [done..|]. by rewrite list_insert_id.
    + intros j. case_decide as Hj; [|done]. subst j. rewrite (Hu i). naive_solver.
  - erewrite put_cell_Ret by exact Hi. cbn [mbind outcome_bind].
    destruct (blank_ext x Hcx Ex) as [Hsx0 _].
    destruct (seq_pos_add_ok (with_cells (set_used c ({[i]} ∪ kc_used c)) (<[i := y]> (kc_cells c))) i y)
      as (sp2 & E2 & Hsp2); [by apply list_lookup_insert_eq|done| |].
    { simpl. rewrite list_insert_insert_eq. apply (index_blank _ _ i x); [done..|].
      by rewrite list_insert_id. }
    change (kc_cells (set_used c ({[i]} ∪ kc_used c))) with (kc_cells c). rewrite E2. simpl.
    eexists. split; [reflexivity|]. apply (update_ok c i x); [done..|].
    intros j. case_decide; [set_solver by lia|set_solver].
  - destruct (seq_pos_rm_ok (set_used c (kc_used c ∖ {[i]})) i x Hsp0 Hi (proj1 Hcx))
      as (sp2 & E2 & Hsp2). rewrite E2. cbn [mbind outcome_bind].
    erewrite put_cell_Ret by exact Hi. simpl. eexists. split; [reflexivity|].
    destruct (blank_ext y Hy Ep).
    apply (update_ok c i x); [done..| |].
    + by apply (index_blank _ _ i (with_seq x ∅)).
    + intros j. case_decide; set_solver.
  - rewrite E. cbn [mbind outcome_bind]. erewrite put_cell_Ret by exact Hi. cbn [mbind outcome_bind].
    unfold with_cells. simpl. rewrite Eadd. simpl. eexists. split; [reflexivity|].
    apply (update_ok c i x); [done..|]. by apply (used_same c i x).
Qed.

(** ** Queries *)

Section Queries.
Context (c : llama_kv_cells) (Hok : cells_ok c).

Lemma is_empty_ok i x : kc_cells c !! i = Some x -> Cells.is_empty c i = Ret (cell_pos x =? -1).
Proof.
  intros Hi. unfold Cells.is_empty. rewrite (get_cell_Ret _ _ _ Hi). cbn [mbind outcome_bind].
  destruct (cell_ok_at _ _ _ Hok Hi) as [_ [(-> & _)|Hp]]; [done|].
  rewrite (proj2 (Z.leb_le 0 _) Hp), orb_true_r. done.
Qed.

Lemma seq_has_ok i x s : kc_cells c !! i = Some x -> 0 <= s < MAX_SEQ ->
  Cells.seq_has c i s = Ret (bool_decide (s ∈ cell_seq x)).
Proof.
  intros Hi Hs. unfold Cells.seq_has. rewrite (get_cell_Ret _ _ _ Hi). cbn [mbind outcome_bind].
  rewrite (proj2 (Z.leb_le 0 s)) by lia. cbn [c_assert mbind outcome_bind].
  apply bs_test_Ret; [|done]. by destruct (cell_ok_at _ _ _ Hok Hi).
Qed.

Lemma pos_in_ok i x p0 p1 : kc_cells c !! i = Some x ->
  Cells.pos_in c i p0 p1 = Ret ((p0 <=? cell_pos x) && (cell_pos x <? p1)).
Proof. intros Hi. unfold Cells.pos_in. by rewrite (get_cell_Ret _ _ _ Hi). Qed.

Lemma seq_count_ok i x : kc_cells c !! i = Some x -> cell_pos x <> -1 ->
  Cells.seq_count c i = Ret (size (cell_seq x)).
Proof.
  intros Hi Hp. unfold Cells.seq_count. rewrite (get_cell_Ret _ _ _ Hi). simpl. by rewrite neq_m1.
Qed.

Lemma seq_get_ok i x : kc_cells c !! i = Some x -> size (cell_seq x) = 1%nat ->
  exists s, Cells.seq_get c i = Ret s /\ cell_seq x = {[ s ]} /\ 0 <= s < MAX_SEQ.
Proof.
  intros Hi Hs. destruct (cell_ok_at _ _ _ Hok Hi) as [Hb _].
  unfold Cells.seq_get. rewrite (proj2 (at_Ret _ _ _) Hi). cbn [mbind outcome_bind].
  rewrite Hs. cbn [Nat.eqb c_assert mbind outcome_bind].
  apply size_1_elem_of in Hs as [s Hs]. apply leibniz_equiv in Hs.
  assert (Hin : s ∈ cell_seq x) by (rewrite Hs; set_solver).
  destruct (List.find _ _) as [s'|] eqn:E.
  - apply find_some in E as [_ E]. apply bool_decide_eq_true in E.
    assert (s' = s) as -> by (rewrite Hs in E; set_solver). eauto.
  - assert (Hf := find_none _ _ E s). cbv beta in Hf.
    rewrite bool_decide_eq_true_2 in Hf by done.
    discriminate Hf. apply list_elem_of_In, all_seqs. by apply Hb.
Qed.

(** Sequence [s] has a cell at position [p]. *)
Definition holds (s p : Z) : Prop := exists i x, kc_cells c !! i = Some x /\ s ∈ cell_seq x /\ cell_pos x = p.

Lemma holds_tally s p : holds s p <-> (0 < tally (kc_cells c) s p)%nat.
Proof.
  rewrite tally_pos. unfold holds, uses. split; intros (i & x & Hi & H); exists i, x.
  - destruct H as [Hs Hp]. split; [done|]. by rewrite bool_decide_eq_true_2, Hp, Z.eqb_refl.
  - apply andb_true_iff in H as [Hs Hp]. apply bool_decide_eq_true in Hs. apply Z.eqb_eq in Hp. done.
Qed.

(** The result is an extreme of the positions of [s], for an order [le]. *)
Definition extreme (le : Z -> Z -> Prop) (s m : Z) : Prop :=
  (m = -1 /\ forall p, ~ holds s p) \/ (holds s m /\ forall p, holds s p -> le p m).

Lemma index_at s : 0 <= s < MAX_SEQ -> exists m, kc_seq_pos c !! Z.to_nat s = Some m
  /\ forall p, p ∈ dom m <-> holds s p.
Proof.
  intros Hs. destruct Hok as (_ & _ & Hsp). destruct (index_lookup _ _ s Hsp Hs) as (m & Hm & Hp).
  exists m. split; [done|]. intros p. rewrite elem_of_dom, Hp, holds_tally. unfold entry.
  destruct (Nat.eqb_spec (tally (kc_cells c) s p) 0) as [->|?]; split; intros H; try lia.
  - by destruct H.
  - eauto.
Qed.

Lemma index_count s m p : 0 <= s < MAX_SEQ -> kc_seq_pos c !! Z.to_nat s = Some m -> holds s p ->
  0 < default 0 (m !! p).
Proof.
  intros Hs Hm Hh. destruct Hok as (_ & _ & _ & Hsp). rewrite (Hsp s m (proj1 Hs) Hm).
  apply holds_tally in Hh. unfold entry. destruct (Nat.eqb_spec (tally (kc_cells c) s p) 0); simpl; lia.
Qed.

Lemma seq_pos_max_ok s : 0 <= s < MAX_SEQ ->
  exists m, Cells.seq_pos_max c s = Ret m /\ extreme Z.le s m.
Proof.
  intros Hs. destruct (index_at s Hs) as (m & Hm & Hdom). unfold Cells.seq_pos_max.
  rewrite (proj2 (Z.leb_le 0 s)), (proj2 (Z.ltb_lt s MAX_SEQ)) by lia.
  cbn [c_assert mbind outcome_bind]. rewrite (proj2 (at_Ret _ _ _) Hm). cbn [mbind outcome_bind].
  case_bool_decide as He.
  { exists (-1). split; [done|]. left. split; [done|]. intros p Hp. apply Hdom in Hp.
    rewrite He in Hp. set_solver. }
  assert (Hmax : holds s (Cells.map_max m) /\ forall p, holds s p -> p <= Cells.map_max m).
  { unfold Cells.map_max. destruct (elements (dom m)) as [|z l] eqn:El.
    { apply elements_empty_inv in El. apply leibniz_equiv, dom_empty_iff_L in El. done. }
    destruct (foldr_max_spec l z) as [Hin Hle]. rewrite <- El in Hin, Hle.
    apply elem_of_elements, Hdom in Hin. split; [done|]. intros p Hp. apply Hle.
    apply elem_of_elements. by apply Hdom. }
  exists (Cells.map_max m). rewrite (proj2 (Z.ltb_lt _ _)) by (apply (index_count s); [done|done|apply Hmax]).
  split; [done|]. by right.
Qed.

Lemma seq_pos_min_ok s : 0 <= s < MAX_SEQ ->
  exists m, Cells.seq_pos_min c s = Ret m /\ extreme Z.ge s m.
Proof.
  intros Hs. destruct (index_at s Hs) as (m & Hm & Hdom). unfold Cells.seq_pos_min.
  rewrite (proj2 (Z.leb_le 0 s)), (proj2 (Z.ltb_lt s MAX_SEQ)) by lia.
  cbn [c_assert mbind outcome_bind]. rewrite (proj2 (at_Ret _ _ _) Hm). cbn [mbind outcome_bind].
  case_bool_decide as He.
  { exists (-1). split; [done|]. left. split; [done|]. intros p Hp. apply Hdom in Hp.
    rewrite He in Hp. set_solver. }
  assert (Hmin : holds s (Cells.map_min m) /\ forall p, holds s p -> p >= Cells.map_min m).
  { unfold Cells.map_min. destruct (elements (dom m)) as [|z l] eqn:El.
    { apply elements_empty_inv in El. apply leibniz_equiv, dom_empty_iff_L in El. done. }
    destruct (foldr_min_spec l z) as [Hin Hle]. rewrite <- El in Hin, Hle.
    apply elem_of_elements, Hdom in Hin. split; [done|]. intros p Hp. apply Z.le_ge, Hle.
    apply elem_of_elements. by apply Hdom. }
  exists (Cells.map_min m). rewrite (proj2 (Z.ltb_lt _ _)) by (apply (index_count s); [done|done|apply Hmin]).
  split; [done|]. by right.
Qed.

End Queries.

(** ** Fresh and blanked containers *)

Lemma tally_blank cs s p : Forall (fun x => cell_seq x = ∅) cs -> tally cs s p = 0%nat.
Proof.
  unfold tally. induction 1 as [|x cs Hx _ IH]; [done|]. simpl. unfold uses at 1.
  rewrite Hx, bool_decide_eq_false_2 by set_solver. done.
Qed.

Lemma blank_ok b cs sp : Forall (eq empty_cell) cs -> length sp = Z.to_nat MAX_SEQ ->
  Forall (eq ∅) sp -> cells_ok (mk_cells b ∅ cs sp).
Proof.
  intros Hcs Hl Hsp. rewrite Forall_forall in Hcs. split_and!; simpl.
  - apply Forall_forall. intros x Hx. rewrite <- (Hcs x Hx). apply empty_cell_ok.
  - intros i. split; [set_solver|]. intros (x & Hx & Hp). apply list_elem_of_lookup_2 in Hx.
    rewrite <- (Hcs x Hx) in Hp. done.
  - split; [done|]. intros s m _ Hm p. rewrite tally_blank.
    + rewrite Forall_forall in Hsp. rewrite <- (Hsp m) by (by eapply list_elem_of_lookup_2). done.
    + apply Forall_forall. intros x Hx. by rewrite <- (Hcs x Hx).
Qed.

Lemma Forall_const {A B} (l : list A) (b : B) : Forall (eq b) (map (fun _ => b) l).
Proof. induction l; by constructor. Qed.

Lemma cells_reset_ok c : length (kc_seq_pos c) = Z.to_nat MAX_SEQ -> cells_ok (Cells.reset c).
Proof. intros Hl. apply blank_ok; [apply Forall_const|by rewrite length_map|apply Forall_const]. Qed.

Lemma resized_ok n : cells_ok (Cells.resized n).
Proof.
  apply blank_ok; [|apply length_replicate|]; apply Forall_forall; intros x Hx;
    symmetry; by eapply elem_of_replicate_inv.
Qed.

Lemma reset_shift_ok c : cells_ok c -> cells_ok (Cells.reset_shift c).
Proof.
  intros (Hc & Hu & Hl & Hsp). split_and!; simpl.
  - rewrite Forall_forall in Hc. apply Forall_forall. intros y (x & -> & Hx)%list_elem_of_fmap.
    destruct (Hc x Hx) as [Hb [(? & ? & _)|?]]; split; simpl; auto.
  - intros i. rewrite (Hu i). rewrite list_lookup_fmap. split.
    + intros (x & -> & Hp). by exists (with_shift x 0).
    + intros (y & Hy & Hp). destruct (kc_cells c !! i) as [x|]; [|done]. injection Hy as <-. eauto.
  - split; [done|]. intros s m Hs Hm p. rewrite (Hsp s m Hs Hm). f_equal. unfold tally.
    clear. induction (kc_cells c) as [|x l IH]; [done|]. cbn [map List.filter].
    change (uses s p (with_shift x 0)) with (uses s p x). destruct (uses s p x); simpl; by rewrite IH.
Qed.
