(* ===== verification/KvCache.v ===== *)
(** * The unified KV cache, [src/llama-kv-cache.cpp].

    The bookkeeping of [llama_kv_cache]: which cell holds which token of which
    sequence.  Tensors, graphs and backend buffers are not represented; a cache
    is its streams of cells ([KvCells.v]), the search heads, the map from
    sequences to streams and the queued stream copies.  Cell indices and heads
    are [nat]s: a head never exceeds the size of its stream, so that the
    unsigned subtraction of [find_slot] does not wrap. *)

From S2P Require Import Prelude KvCells Batch.

(** ** Data *)

Inductive llama_swa_type :=
  | LLAMA_SWA_TYPE_NONE | LLAMA_SWA_TYPE_STANDARD | LLAMA_SWA_TYPE_CHUNKED
  | LLAMA_SWA_TYPE_SYMMETRIC.

(** [slot_info]: for every stream of a ubatch, the cells of its tokens. *)
Record slot_info := mk_slot {
  si_s0 : nat;
  si_s1 : nat;
  si_strm : list nat;
  si_idxs : list (list nat);
}.

Record llama_kv_cache := mk_kv {
  kv_n_seq_max : nat;
  kv_n_stream : nat;
  kv_n_pad : Z;
  kv_n_swa : Z;
  kv_swa_type : llama_swa_type;
  kv_n_pos_per_embd : nat;
  kv_heads : list nat;
  kv_cells : list llama_kv_cells;
  kv_seq_to_stream : list nat;
  kv_sc_info : list (nat * nat);
}.

Definition INT32_MAX : Z := 2 ^ 31 - 1.

Definition set_streams (k : llama_kv_cache) (heads : list nat) (cells : list llama_kv_cells)
    : llama_kv_cache :=
  mk_kv (kv_n_seq_max k) (kv_n_stream k) (kv_n_pad k) (kv_n_swa k) (kv_swa_type k)
    (kv_n_pos_per_embd k) heads cells (kv_seq_to_stream k) (kv_sc_info k).

Definition set_cells (k : llama_kv_cache) (s : nat) (c : llama_kv_cells) : outcome llama_kv_cache :=
  l ← set_ (kv_cells k) s c; Ret (set_streams k (kv_heads k) l).

Definition set_head (k : llama_kv_cache) (s : nat) (h : nat) : outcome llama_kv_cache :=
  l ← set_ (kv_heads k) s h; Ret (set_streams k l (kv_cells k)).

Definition set_info (k : llama_kv_cache) (l : list (nat * nat)) : llama_kv_cache :=
  mk_kv (kv_n_seq_max k) (kv_n_stream k) (kv_n_pad k) (kv_n_swa k) (kv_swa_type k)
    (kv_n_pos_per_embd k) (kv_heads k) (kv_cells k) (kv_seq_to_stream k) l.

Definition push_copy (k : llama_kv_cache) (s0 s1 : nat) : llama_kv_cache :=
  mk_kv (kv_n_seq_max k) (kv_n_stream k) (kv_n_pad k) (kv_n_swa k) (kv_swa_type k)
    (kv_n_pos_per_embd k) (kv_heads k) (kv_cells k) (kv_seq_to_stream k)
    (kv_sc_info k ++ [(s0, s1)]).

Module Kv.

(** The bookkeeping part of the constructor.  One stream when [unified], else
    one per sequence. *)
Definition make (unified : bool) (kv_size n_seq_max : nat) (n_pad n_swa : Z)
    (swa_type : llama_swa_type) (n_pos_per_embd : nat) : outcome llama_kv_cache :=
  if n_pad =? 0 then Undef
  else
    c_assert (Z.of_nat kv_size mod n_pad =? 0) "kv_size % n_pad == 0";;
    let n_stream := if unified then 1%nat else n_seq_max in
    Ret (mk_kv n_seq_max n_stream n_pad n_swa swa_type n_pos_per_embd
           (replicate n_stream 0%nat) (replicate n_stream (Cells.resized kv_size))
           (if (1 <? n_stream)%nat then seq 0 n_stream else replicate (Z.to_nat MAX_SEQ) 0%nat)
           []).

(** [clear(data)]; the data buffers are not represented. *)
Definition clear (k : llama_kv_cache) : llama_kv_cache :=
  set_streams k (map (fun _ => 0%nat) (kv_heads k)) (map Cells.reset (kv_cells k)).

(** ** Sequence operations *)

(** [seq_id >= 0 && (size_t) seq_id < seq_to_stream.size()] *)
Definition seq_known (k : llama_kv_cache) (seq_id : Z) : bool :=
  (0 <=? seq_id) && (seq_id <? Z.of_nat (length (kv_seq_to_stream k))).

Definition lower (p0 : Z) : Z := if p0 <? 0 then 0 else p0.
Definition upper (p1 : Z) : Z := if p1 <? 0 then INT32_MAX else p1.

(** [if (new_head == cells.size()) new_head = i;] when a cell was freed. *)
Definition note_freed (n : nat) (freed : bool) (i new_head : nat) : nat :=
  if freed && (new_head =? n)%nat then i else new_head.

(** "If we freed up a slot, set head to it so searching can start there." *)
Definition lower_head (n new_head head : nat) : nat :=
  if negb (new_head =? n)%nat && (new_head <? head)%nat then new_head else head.

(** [for (i < cells.size()) if (cells.pos_in(i, p0, p1)) body], where [body]
    returns whether it freed the cell. *)
Definition for_cells (p0 p1 : Z) (body : llama_kv_cells -> nat -> outcome (bool * llama_kv_cells))
    (c : llama_kv_cells) : outcome (llama_kv_cells * nat) :=
  foldM (fun '(c, new_head) i =>
      inside ← Cells.pos_in c i p0 p1;
      if negb inside then Ret (c, new_head)
      else '(freed, c) ← body c i; Ret (c, note_freed (Cells.size c) freed i new_head))
    (c, Cells.size c) (seq 0 (Cells.size c)).

Definition rm_seq_body (seq_id : Z) (c : llama_kv_cells) (i : nat) : outcome (bool * llama_kv_cells) :=
  has ← Cells.seq_has c i seq_id;
  if has : bool then Cells.seq_rm c i seq_id else Ret (false, c).

Definition rm_any_body (c : llama_kv_cells) (i : nat) : outcome (bool * llama_kv_cells) :=
  c ← Cells.rm c i; Ret (true, c).

(** One stream of [seq_rm]. *)
Definition rm_stream (body : llama_kv_cells -> nat -> outcome (bool * llama_kv_cells)) (p0 p1 : Z)
    (k : llama_kv_cache) (s : nat) : outcome llama_kv_cache :=
  c ← at_ (kv_cells k) s;
  head ← at_ (kv_heads k) s;
  '(c, new_head) ← for_cells p0 p1 body c;
  k ← set_cells k s c;
  set_head k s (lower_head (Cells.size c) new_head head).

Definition seq_rm (k : llama_kv_cache) (seq_id p0 p1 : Z) : outcome llama_kv_cache :=
  c_assert ((seq_id =? -1) || seq_known k seq_id) "seq_id == -1 || seq_id in range";;
  let p0 := lower p0 in
  let p1 := upper p1 in
  if 0 <=? seq_id then
    s ← at_ (kv_seq_to_stream k) (Z.to_nat seq_id);
    rm_stream (rm_seq_body seq_id) p0 p1 k s
  else foldM (rm_stream rm_any_body p0 p1) k (seq 0 (kv_n_stream k)).

(** A copy inside one stream only marks the cells. *)
Definition cp_body (src dst : Z) (c : llama_kv_cells) (i : nat) : outcome (bool * llama_kv_cells) :=
  has ← Cells.seq_has c i src;
  if has : bool then c ← Cells.seq_add c i dst; Ret (false, c) else Ret (false, c).

(** One cell of a copy to another stream. *)
Definition cp_cell (src_cells : llama_kv_cells) (src dst : Z) (c : llama_kv_cells) (i : nat)
    : outcome llama_kv_cells :=
  has ← Cells.seq_has src_cells i src;
  if negb has then Ret c
  else
    pos ← Cells.pos_get src_cells i;
    shift ← Cells.get_shift src_cells i;
    ext ← Cells.ext_get src_cells i;
    let pos := if shift =? 0 then pos else pos - shift in
    c_assert ((shift =? 0) || (0 <=? pos)) "pos >= 0";;
    c ← Cells.pos_set c i pos;
    c ← Cells.seq_add c i dst;
    c ← (if shift =? 0 then Ret c else '(_, c) ← Cells.pos_add c i shift; Ret c);
    Cells.ext_set c i ext.

Definition get_size (k : llama_kv_cache) : outcome nat :=
  s ← at_ (kv_seq_to_stream k) 0; c ← at_ (kv_cells k) s; Ret (Cells.size c).

Definition seq_cp (k : llama_kv_cache) (src dst p0 p1 : Z) : outcome llama_kv_cache :=
  c_assert (seq_known k src) "seq_id_src in range";;
  c_assert (seq_known k dst) "seq_id_dst in range";;
  s0 ← at_ (kv_seq_to_stream k) (Z.to_nat src);
  s1 ← at_ (kv_seq_to_stream k) (Z.to_nat dst);
  if (s0 =? s1)%nat then
    if src =? dst then Ret k
    else
      c ← at_ (kv_cells k) s0;
      '(c, _) ← for_cells (lower p0) (upper p1) (cp_body src dst) c;
      set_cells k s0 c
  else
    n ← get_size k;
    let is_full := negb ((0 <? p0) && (p0 + 1 <? Z.of_nat n))
                   && negb ((0 <? p1) && (p1 + 1 <? Z.of_nat n)) in
    c_assert is_full "seq_cp() is only supported for full KV buffers";;
    let k := push_copy k s0 s1 in
    c0 ← at_ (kv_cells k) s0;
    c1 ← at_ (kv_cells k) s1;
    c1 ← foldM (cp_cell c0 src dst) (Cells.reset c1) (seq 0 (Cells.size c0));
    k ← set_cells k s1 c1;
    h0 ← at_ (kv_heads k) s0;
    set_head k s1 h0.

Definition seq_keep (k : llama_kv_cache) (seq_id : Z) : outcome llama_kv_cache :=
  c_assert (seq_known k seq_id) "seq_id in range";;
  s ← at_ (kv_seq_to_stream k) (Z.to_nat seq_id);
  c ← at_ (kv_cells k) s;
  head ← at_ (kv_heads k) s;
  '(c, new_head) ← foldM (fun '(c, new_head) i =>
      '(freed, c) ← Cells.seq_keep c i seq_id;
      Ret (c, note_freed (Cells.size c) freed i new_head))
    (c, Cells.size c) (seq 0 (Cells.size c));
  k ← set_cells k s c;
  set_head k s (lower_head (Cells.size c) new_head head).

Definition add_body (seq_id shift : Z) (c : llama_kv_cells) (i : nat) : outcome (bool * llama_kv_cells) :=
  has ← Cells.seq_has c i seq_id;
  if has : bool then Cells.pos_add c i shift else Ret (false, c).

Definition seq_add (k : llama_kv_cache) (seq_id p0 p1 shift : Z) : outcome llama_kv_cache :=
  c_assert (seq_known k seq_id) "seq_id in range";;
  c_assert (kv_n_pos_per_embd k =? 1)%nat "seq_add() is only supported for n_pos_per_embd() == 1";;
  s ← at_ (kv_seq_to_stream k) (Z.to_nat seq_id);
  c ← at_ (kv_cells k) s;
  if (shift =? 0) || (lower p0 =? upper p1) then Ret k
  else
    '(c, new_head) ← for_cells (lower p0) (upper p1) (add_body seq_id shift) c;
    k ← set_cells k s c;
    set_head k s (if negb (new_head =? Cells.size c)%nat then new_head else 0%nat).

Definition div_body (seq_id d : Z) (c : llama_kv_cells) (i : nat) : outcome (bool * llama_kv_cells) :=
  has ← Cells.seq_has c i seq_id;
  if has : bool then c ← Cells.pos_div c i d; Ret (false, c) else Ret (false, c).

Definition seq_div (k : llama_kv_cache) (seq_id p0 p1 d : Z) : outcome llama_kv_cache :=
  c_assert (seq_known k seq_id) "seq_id in range";;
  c_assert (kv_n_pos_per_embd k =? 1)%nat "seq_div() is only supported for n_pos_per_embd() == 1";;
  s ← at_ (kv_seq_to_stream k) (Z.to_nat seq_id);
  c ← at_ (kv_cells k) s;
  if (d =? 1) || (lower p0 =? upper p1) then Ret k
  else
    '(c, _) ← for_cells (lower p0) (upper p1) (div_body seq_id d) c;
    set_cells k s c.

Definition seq_pos_min (k : llama_kv_cache) (seq_id : Z) : outcome Z :=
  c_assert (seq_known k seq_id) "seq_id in range";;
  s ← at_ (kv_seq_to_stream k) (Z.to_nat seq_id);
  c ← at_ (kv_cells k) s; Cells.seq_pos_min c seq_id.

Definition seq_pos_max (k : llama_kv_cache) (seq_id : Z) : outcome Z :=
  c_assert (seq_known k seq_id) "seq_id in range";;
  s ← at_ (kv_seq_to_stream k) (Z.to_nat seq_id);
  c ← at_ (kv_cells k) s; Cells.seq_pos_max c seq_id.

Definition get_n_stream (k : llama_kv_cache) : nat := kv_n_stream k.

Definition get_has_shift (k : llama_kv_cache) : outcome bool :=
  foldM (fun r s => c ← at_ (kv_cells k) s; Ret (r || Cells.get_has_shift c))
    false (seq 0 (kv_n_stream k)).

(** ** Pending updates *)

(** The data of [init_update]: whether to shift, and the queued stream copies,
    which leave the cache. *)
Definition init_update (k : llama_kv_cache) : outcome (bool * list (nat * nat) * llama_kv_cache) :=
  do_shift ← get_has_shift k; Ret (do_shift, kv_sc_info k, set_info k []).

(** The checks of a queued copy; the tensors it copies are not represented. *)
Definition check_copy (n_stream : nat) (_ : unit) (c : nat * nat) : outcome unit :=
  let '(ssrc, sdst) := c in
  c_assert (ssrc <? n_stream)%nat "ssrc < n_stream";;
  c_assert (sdst <? n_stream)%nat "sdst < n_stream";;
  c_assert (negb (ssrc =? sdst)%nat) "ssrc != sdst".

(** [update]: the model's ability to shift, whether it has a rope, and whether
    the shift graph was allocated and computed are arguments. *)
Definition update (can_shift has_rope computed : bool) (k : llama_kv_cache) (do_shift : bool)
    (sc_info : list (nat * nat)) : outcome (bool * llama_kv_cache) :=
  (match sc_info with
   | [] => Ret ()
   | _ => c_assert (1 <? kv_n_stream k)%nat "n_stream > 1";; foldM (check_copy (kv_n_stream k)) () sc_info
   end);;
  if do_shift then
    c_assert can_shift "The current KV cache / model configuration does not support K-shift";;
    if has_rope && negb computed then Ret (false, k)
    else Ret (has_rope, set_streams k (kv_heads k) (map Cells.reset_shift (kv_cells k)))
  else Ret (false, k).

(** ** Finding a slot *)

(** [llama_hparams::is_masked_swa].  [n_swa] is a [uint32_t]: it is compared as an
    [int32_t], and a chunk is computed on 32 unsigned bits, where positions that are
    not negative do not wrap. *)
Definition is_masked_swa (n_swa : Z) (t : llama_swa_type) (p0 p1 : Z) : outcome bool :=
  c_assert ((0 <=? p0) && (0 <=? p1)) "p0 >= 0 && p1 >= 0";;
  match t with
  | LLAMA_SWA_TYPE_NONE => Ret false
  | LLAMA_SWA_TYPE_STANDARD => Ret (i32 n_swa <=? p1 - p0)
  | LLAMA_SWA_TYPE_CHUNKED =>
      if n_swa =? 0 then Undef else Ret (p0 <? p1 / n_swa * n_swa)
  | LLAMA_SWA_TYPE_SYMMETRIC =>
      let half_n_swa := Z.quot (i32 n_swa) 2 in
      let pos_diff := p1 - p0 in
      Ret ((pos_diff <? - half_n_swa) || (half_n_swa <? pos_diff))
  end.

(** "can we use this cell?": it is empty, or its only sequence cannot see it any more. *)
Definition can_use (n_swa : Z) (t : llama_swa_type) (c : llama_kv_cells) (idx : nat) : outcome bool :=
  empty ← Cells.is_empty c idx;
  if empty : bool then Ret true
  else
    n ← Cells.seq_count c idx;
    if (n =? 1)%nat then
      pos_cell ← Cells.pos_get c idx;
      seq_id_cell ← Cells.seq_get c idx;
      m ← Cells.seq_pos_max c seq_id_cell;
      is_masked_swa n_swa t pos_cell (m + 1)
    else Ret false.

(** The [for (i < n_test)] loop: (head_cur, n_tested, idxs).  [usable] is the test. *)
Fixpoint test_cells (usable : nat -> outcome bool) (cont : bool) (n_test head_cur n_tested : nat)
    (idxs : list nat) : outcome (nat * nat * list nat) :=
  match n_test with
  | O => Ret (head_cur, n_tested, idxs)
  | S n_test =>
      b ← usable head_cur;
      if b : bool then test_cells usable cont n_test (S head_cur) (S n_tested) (idxs ++ [head_cur])
      else if cont then Ret (S head_cur, S n_tested, idxs)
      else test_cells usable cont n_test (S head_cur) (S n_tested) idxs
  end.

(** The [while (true)] loop; [None] is [return { }]. *)
Fixpoint search (fuel : nat) (usable : nat -> outcome bool) (size : nat) (cont : bool)
    (n_tokens head_cur n_tested : nat) (idxs : list nat) : outcome (option (list nat)) :=
  match fuel with
  | O => NoFuel
  | S fuel =>
      let n_test := if cont then n_tokens else 1%nat in
      if (size <? head_cur + n_test)%nat then
        search fuel usable size cont n_tokens 0 (n_tested + (size - head_cur)) idxs
      else
        '(head_cur, n_tested, idxs) ← test_cells usable cont n_test head_cur n_tested idxs;
        if (length idxs =? n_tokens)%nat then Ret (Some idxs)
        else
          let idxs := if cont then [] else idxs in
          if (size <=? n_tested)%nat then Ret None
          else search fuel usable size cont n_tokens head_cur n_tested idxs
  end.

(** Rounds of the loop: every one but the two that wrap around tests a cell. *)
Definition search_fuel (size : nat) : nat := 2 * size + 3.

Section Ubatch.
Context {E : Type}.
Notation llama_ubatch := (@llama_ubatch E).

(** The slot of sequence number [s] of the ubatch. *)
Definition find_stream_slot (k : llama_kv_cache) (ubatch : llama_ubatch) (cont : bool)
    (n_tokens : nat) (res : slot_info) (s : nat) : outcome (option slot_info) :=
  seq_id ← at_ (u_seq_id_unq ubatch) s;
  (if (1 <? kv_n_stream k)%nat then
     n ← at_ (u_n_seq_id ubatch) (s * n_tokens);
     c_assert (n =? 1) "ubatch.n_seq_id[s*n_tokens] == 1";;
     ids ← at_ (u_seq_id ubatch) (s * n_tokens);
     id ← at_ ids 0;
     c_assert (id =? seq_id) "ubatch.seq_id[s*n_tokens][0] == seq_id"
   else Ret ());;
  st ← at_z (kv_seq_to_stream k) seq_id;
  c ← at_ (kv_cells k) st;
  head ← at_ (kv_heads k) st;
  let head_cur := if (Cells.get_used c + 2 * n_tokens <? head)%nat then 0%nat else head in
  if (Cells.size c <? n_tokens)%nat then Ret None
  else
    found ← search (search_fuel (Cells.size c)) (can_use (kv_n_swa k) (kv_swa_type k) c)
              (Cells.size c) cont n_tokens head_cur 0 [];
    match found with
    | None => Ret None
    | Some idxs =>
        if (length idxs <? n_tokens)%nat then Ret None
        else Ret (Some (mk_slot (Nat.min (si_s0 res) st) (Nat.max (si_s1 res) st)
                          (si_strm res ++ [st]) (si_idxs res ++ [idxs])))
    end.

(** [find_slot]; [None] is the empty [slot_info]. *)
Definition find_slot (k : llama_kv_cache) (ubatch : llama_ubatch) (cont : bool)
    : outcome (option slot_info) :=
  '(n_seqs, n_tokens) ←
    (if (1 <? kv_n_stream k)%nat then
       if (u_n_seqs_unq ubatch =? 0)%nat then Undef
       else
         c_assert (u_n_tokens ubatch mod u_n_seqs_unq ubatch =? 0)%nat
           "n_tokens % ubatch.n_seqs_unq == 0";;
         Ret (u_n_seqs_unq ubatch, (u_n_tokens ubatch / u_n_seqs_unq ubatch)%nat)
     else Ret (1%nat, u_n_tokens ubatch));
  r ← foldM (fun res s => match res with
               | None => Ret None
               | Some res => find_stream_slot k ubatch cont n_tokens res s
               end)
        (Some (mk_slot (Z.to_nat MAX_SEQ) 0 [] [])) (seq 0 n_seqs);
  match r with
  | None => Ret None
  | Some res => c_assert (si_s0 res <=? si_s1 res)%nat "res.s1 >= res.s0";; Ret (Some res)
  end.

(** ** Placing a ubatch *)

(** [slot_info::size()] *)
Definition slot_size (sinfo : slot_info) : outcome nat :=
  c_assert (length (si_idxs sinfo) =? length (si_strm sinfo))%nat "idxs.size() == strm.size()";;
  match si_idxs sinfo with
  | [] => Fatal "!idxs.empty()"
  | l :: _ => Ret (length l)
  end.

(** A cell that is overwritten: cleared, and the last position its sequence loses. *)
Definition evict (c : llama_kv_cells) (rm : list Z) (idx : nat) : outcome (llama_kv_cells * list Z) :=
  empty ← Cells.is_empty c idx;
  if empty : bool then Ret (c, rm)
  else
    n ← Cells.seq_count c idx;
    c_assert (n =? 1)%nat "cells.seq_count(idx) == 1";;
    seq_id ← Cells.seq_get c idx;
    pos ← Cells.pos_get c idx;
    old ← at_ rm (Z.to_nat seq_id);
    rm ← set_ rm (Z.to_nat seq_id) (Z.max old pos);
    c ← Cells.rm c idx;
    Ret (c, rm).

(** Token [i] of the ubatch goes to cell [idx]. *)
Definition fill_cell (ubatch : llama_ubatch) (i : nat) (c : llama_kv_cells) (idx : nat)
    : outcome llama_kv_cells :=
  p ← at_ (u_pos ubatch) i;
  c ← Cells.pos_set c idx p;
  c ← (if (3 <=? u_n_pos ubatch)%nat then
         x ← at_ (u_pos ubatch) (i + u_n_tokens ubatch * 2);
         y ← at_ (u_pos ubatch) (i + u_n_tokens ubatch);
         Cells.ext_set c idx (mk_ext x y)
       else Ret c);
  n ← at_ (u_n_seq_id ubatch) i;
  ids ← at_ (u_seq_id ubatch) i;
  foldM (fun c s => id ← at_ ids s; Cells.seq_add c idx id) c (seq 0 (Z.to_nat n)).

Definition place_token (sinfo : slot_info) (ubatch : llama_ubatch) (size : nat)
    (acc : llama_kv_cache * list Z) (sii : nat * nat) : outcome (llama_kv_cache * list Z) :=
  let '(k, rm) := acc in
  let '(s, ii) := sii in
  st ← at_ (si_strm sinfo) s;
  c ← at_ (kv_cells k) st;
  idxs ← at_ (si_idxs sinfo) s;
  idx ← at_ idxs ii;
  '(c, rm) ← evict c rm idx;
  c ← fill_cell ubatch (s * size + ii) c idx;
  k ← set_cells k st c;
  Ret (k, rm).

(** Positions of [s] up to the last overwritten one are removed. *)
Definition purge (rm : list Z) (k : llama_kv_cache) (s : nat) : outcome llama_kv_cache :=
  m ← at_ rm s;
  if m =? -1 then Ret k
  else
    c_assert (s <? length (kv_seq_to_stream k))%nat "s < seq_to_stream.size()";;
    st ← at_ (kv_seq_to_stream k) s;
    c ← at_ (kv_cells k) st;
    lo ← Cells.seq_pos_min c (Z.of_nat s);
    if lo <=? m then seq_rm k (Z.of_nat s) lo (m + 1) else Ret k.

Definition move_head (sinfo : slot_info) (k : llama_kv_cache) (s : nat) : outcome llama_kv_cache :=
  st ← at_ (si_strm sinfo) s;
  idxs ← at_ (si_idxs sinfo) s;
  match list.last idxs with
  | None => Undef
  | Some idx => set_head k st (idx + 1)
  end.

Definition apply_ubatch (k : llama_kv_cache) (sinfo : slot_info) (ubatch : llama_ubatch)
    : outcome llama_kv_cache :=
  size ← slot_size sinfo;
  let n_stream := length (si_strm sinfo) in
  c_assert (u_n_tokens ubatch =? n_stream * size)%nat "ubatch.n_tokens == n_stream*size";;
  '(k, rm) ← foldM (place_token sinfo ubatch size) (k, replicate (Z.to_nat MAX_SEQ) (-1))
     (list_prod (seq 0 n_stream) (seq 0 size));
  k ← foldM (purge rm) k (seq 0 (Z.to_nat MAX_SEQ));
  foldM (move_head sinfo) k (seq 0 n_stream).

(** ** Preparing the ubatches of a batch *)

(** [state_t]: what [prepare] restores. *)
Record saved_state := mk_saved {
  sv_sinfo : slot_info;
  sv_heads : list nat;
  sv_cells : list llama_kv_cells;
}.

(** The loop over the ubatches, stopping at the first one without a slot. *)
Fixpoint prepare_loop (k : llama_kv_cache) (ubatches : list llama_ubatch) (res : list slot_info)
    (states : list saved_state)
    : outcome (bool * llama_kv_cache * list slot_info * list saved_state) :=
  match ubatches with
  | [] => Ret (true, k, res, states)
  | ubatch :: ubatches =>
      found ← find_slot k ubatch false;
      match found with
      | None => Ret (false, k, res, states)
      | Some sinfo =>
          saved ← foldM (fun acc s =>
              st ← at_ (si_strm sinfo) s;
              c ← at_ (kv_cells k) st;
              idxs ← at_ (si_idxs sinfo) s;
              cp ← Cells.cp_idxs c idxs; Ret (acc ++ [cp]))
            [] (seq 0 (length (si_strm sinfo)));
          let states := states ++ [mk_saved sinfo (kv_heads k) saved] in
          k ← apply_ubatch k sinfo ubatch;
          prepare_loop k ubatches (res ++ [sinfo]) states
      end
  end.

(** The head is restored from position [s] of the saved heads, as written. *)
Definition restore_stream (st : saved_state) (k : llama_kv_cache) (s : nat) : outcome llama_kv_cache :=
  strm ← at_ (si_strm (sv_sinfo st)) s;
  c ← at_ (kv_cells k) strm;
  idxs ← at_ (si_idxs (sv_sinfo st)) s;
  saved ← at_ (sv_cells st) s;
  c ← Cells.set_idxs c idxs saved;
  k ← set_cells k strm c;
  head ← at_ (sv_heads st) s;
  set_head k strm head.

Definition restore_state (k : llama_kv_cache) (st : saved_state) : outcome llama_kv_cache :=
  foldM (restore_stream st) k (seq 0 (length (si_strm (sv_sinfo st)))).

(** [prepare]: the slots, [None] when it fails, and the cache after the restoring. *)
Definition prepare (k : llama_kv_cache) (ubatches : list llama_ubatch)
    : outcome (option (list slot_info) * llama_kv_cache) :=
  '(success, k, res, states) ← prepare_loop k ubatches [] [];
  c_assert (negb (bool_decide (length states = 0%nat)) || negb success) "!states.empty() || !success";;
  k ← foldM restore_state k (rev states);
  Ret (if success : bool then Some res else None, k).

(** [init_batch]: cutting the batch, then finding slots for the ubatches.  [None]
    is the context with the status [FAILED_PREPARE]. *)
Definition init_batch (k : llama_kv_cache) (balloc : @llama_batch_allocr E) (n_ubatch : nat)
    : outcome (option (list slot_info * list llama_ubatch) * llama_kv_cache
               * @llama_batch_allocr E) :=
  '(ubatches, balloc) ← split_all (if (kv_n_stream k =? 1)%nat then Simple else Equal true) n_ubatch balloc;
  match ubatches with
  | None => Ret (None, k, balloc)
  | Some ubatches =>
      '(sinfos, k) ← prepare k ubatches;
      match sinfos with
      | None | Some [] => Ret (None, k, balloc)
      | Some sinfos => Ret (Some (sinfos, ubatches), k, balloc)
      end
  end.

End Ubatch.

End Kv.
