(* ===== verification/KvCacheFacts.v ===== *)
(** * The invariant of the KV cache and its sequence operations.

    Every loop over the cells of a stream acts cell by cell ([cells_loop]); an
    operation on sequences is therefore a function applied to every cell of one
    stream ([on_stream]), and its effect is read off the relation [at_pos]: which
    cell holds which sequence at which position. *)

From S2P Require Import Prelude KvCells KvCellsFacts Batch KvCache.
From Stdlib Require Import Lia.

(** ** Loops over cells *)

Definition in_range (p0 p1 : Z) (x : kv_cell) : bool := (p0 <=? cell_pos x) && (cell_pos x <? p1).

Lemma updates_id c i x : cells_ok c -> kc_cells c !! i = Some x ->
  updates c i x (kc_has_shift c || false) c.
Proof. intros Hok Hi. split; [done|]. rewrite list_insert_id, orb_false_r by done. done. Qed.

Lemma cells_loop (step : llama_kv_cells * nat -> nat -> outcome (llama_kv_cells * nat))
    (F : kv_cell -> kv_cell) (h : kv_cell -> bool) (P : kv_cell -> Prop) c :
  cells_ok c -> Forall P (kc_cells c) ->
  (forall c' nh i x, cells_ok c' -> Cells.size c' = Cells.size c -> (nh <= Cells.size c)%nat ->
     kc_cells c' !! i = Some x -> P x ->
     exists c2 nh2, step (c', nh) i = Ret (c2, nh2) /\ (nh2 <= Cells.size c)%nat
       /\ updates c' i (F x) (kc_has_shift c' || h x) c2) ->
  exists c' nh, foldM step (c, Cells.size c) (seq 0 (Cells.size c)) = Ret (c', nh)
    /\ cells_ok c' /\ kc_cells c' = map F (kc_cells c) /\ (nh <= Cells.size c)%nat
    /\ kc_has_shift c' = kc_has_shift c || existsb h (kc_cells c).
Proof.
  intros Hok HP Hstep. set (l := kc_cells c) in *.
  assert (Hn : forall n, (n <= length l)%nat -> exists c' nh,
    foldM step (c, Cells.size c) (seq 0 n) = Ret (c', nh) /\ cells_ok c'
    /\ kc_cells c' = map F (take n l) ++ drop n l /\ (nh <= Cells.size c)%nat
    /\ kc_has_shift c' = kc_has_shift c || existsb h (take n l)).
  { induction n as [|n IH]; intros Hn.
    - exists c, (Cells.size c). rewrite orb_false_r. by split_and!.
    - destruct (IH ltac:(lia)) as (c' & nh & E & Hok' & Hcs & Hnh & Hsh).
      destruct (lookup_lt_is_Some_2 l n) as [x Hx]; [lia|].
      assert (Hlen : length (map F (take n l)) = n) by (rewrite length_map, length_take; lia).
      assert (Hx' : kc_cells c' !! n = Some x).
      { rewrite Hcs, lookup_app_r, Hlen, Nat.sub_diag by lia. by rewrite lookup_drop, Nat.add_0_r. }
      destruct (Hstep c' nh n x) as (c2 & nh2 & E2 & Hnh2 & Hok2 & Hcs2 & Hsh2); try done.
      { unfold Cells.size. rewrite Hcs, length_app, length_map, length_take, length_drop. fold l. lia. }
      { by eapply Forall_lookup_1. }
      exists c2, nh2. rewrite seq_S, foldM_app, E. cbn [mbind outcome_bind foldM Nat.add].
      rewrite E2. cbn [mbind outcome_bind]. split_and!; [done|done| |done|].
      + rewrite Hcs2, Hcs, insert_app_r_alt, Hlen, Nat.sub_diag by lia.
        rewrite (drop_S l x n Hx). rewrite (take_S_r l n x Hx), map_app, <- app_assoc. done.
      + rewrite Hsh2, Hsh, (take_S_r l n x Hx), existsb_app. simpl. by rewrite orb_false_r, orb_assoc. }
  destruct (Hn (length l) (le_n _)) as (c' & nh & E & H). exists c', nh.
  unfold Cells.size in *. fold l in E |- *. split; [exact E|].
  rewrite drop_all, app_nil_r, take_ge in H by lia. tauto.
Qed.

Lemma note_freed_le n freed i nh : (i < n)%nat -> (nh <= n)%nat -> (Kv.note_freed n freed i nh <= n)%nat.
Proof. intros. unfold Kv.note_freed. case_match; lia. Qed.

Lemma lower_head_le n nh h : (nh <= n)%nat -> (h <= n)%nat -> (Kv.lower_head n nh h <= n)%nat.
Proof. intros. unfold Kv.lower_head. case_match; lia. Qed.

(** A loop over the cells with a position in [p0, p1). *)
Lemma for_cells_ok body p0 p1 c (f : kv_cell -> kv_cell) (h : kv_cell -> bool) (P : kv_cell -> Prop) :
  cells_ok c -> Forall P (kc_cells c) ->
  (forall c' i x, cells_ok c' -> kc_cells c' !! i = Some x -> P x -> in_range p0 p1 x = true ->
     exists b c2, body c' i = Ret (b, c2) /\ updates c' i (f x) (kc_has_shift c' || h x) c2) ->
  exists c' nh, Kv.for_cells p0 p1 body c = Ret (c', nh) /\ cells_ok c'
    /\ kc_cells c' = map (fun x => if in_range p0 p1 x then f x else x) (kc_cells c)
    /\ (nh <= Cells.size c)%nat
    /\ kc_has_shift c' = kc_has_shift c || existsb (fun x => in_range p0 p1 x && h x) (kc_cells c).
Proof.
  intros Hok HP Hbody. apply (cells_loop _ _ _ P); [done|done|].
  intros c' nh i x Hok' Hsz Hnh Hi Hx. rewrite (pos_in_ok c' i x p0 p1 Hi).
  change ((p0 <=? cell_pos x) && (cell_pos x <? p1)) with (in_range p0 p1 x).
  cbn [mbind outcome_bind]. destruct (in_range p0 p1 x) eqn:Hr; cbn [negb andb].
  - destruct (Hbody c' i x Hok' Hi Hx Hr) as (b & c2 & E & Hu). rewrite E. cbn [mbind outcome_bind].
    eexists _, _. split; [reflexivity|]. split; [|done].
    assert (Hsz2 : Cells.size c2 = Cells.size c).
    { unfold Cells.size in *. destruct Hu as (_ & -> & _). by rewrite length_insert. }
    rewrite Hsz2. apply note_freed_le; [|done].
    rewrite <- Hsz. by eapply lookup_lt_Some.
  - eexists _, _. split; [reflexivity|]. split; [done|]. by apply updates_id.
Qed.

(** ** The invariant *)

(** The stream of sequence [s]. *)
Definition home (k : llama_kv_cache) (s : Z) : option nat := kv_seq_to_stream k !! Z.to_nat s.

(** A cell of stream [st] holds only sequences of that stream, and at least one
    unless it is empty. *)
Definition cell_home (k : llama_kv_cache) (st : nat) (x : kv_cell) : Prop :=
  (cell_pos x <> -1 -> cell_seq x <> ∅) /\ forall s, s ∈ cell_seq x -> home k s = Some st.

Definition stream_ok (k : llama_kv_cache) (n st : nat) (c : llama_kv_cells) : Prop :=
  cells_ok c /\ Cells.size c = n /\ Forall (cell_home k st) (kc_cells c).

Record kv_ok (n : nat) (k : llama_kv_cache) : Prop := {
  ok_streams : (0 < kv_n_stream k)%nat;
  ok_heads : length (kv_heads k) = kv_n_stream k;
  ok_cells : length (kv_cells k) = kv_n_stream k;
  ok_head : forall st h, kv_heads k !! st = Some h -> (h <= n)%nat;
  ok_stream : forall st c, kv_cells k !! st = Some c -> stream_ok k n st c;
  ok_map : forall s st, kv_seq_to_stream k !! s = Some st -> (st < kv_n_stream k)%nat;
  ok_seqs : (length (kv_seq_to_stream k) <= Z.to_nat MAX_SEQ)%nat;
}.

(** The parameters of the cache, which no operation changes. *)
Definition same_shape (k k' : llama_kv_cache) : Prop :=
  kv_n_seq_max k' = kv_n_seq_max k /\ kv_n_stream k' = kv_n_stream k /\ kv_n_pad k' = kv_n_pad k
  /\ kv_n_swa k' = kv_n_swa k /\ kv_swa_type k' = kv_swa_type k
  /\ kv_n_pos_per_embd k' = kv_n_pos_per_embd k /\ kv_seq_to_stream k' = kv_seq_to_stream k.

(** Cell [i] of its stream holds sequence [s] at position [p]. *)
Definition at_pos (k : llama_kv_cache) (s : Z) (i : nat) (p : Z) : Prop :=
  exists st c x, kv_cells k !! st = Some c /\ kc_cells c !! i = Some x
    /\ s ∈ cell_seq x /\ cell_pos x = p.

Lemma seq_known_range n k s : kv_ok n k -> Kv.seq_known k s = true -> 0 <= s < MAX_SEQ.
Proof.
  intros Hok H. unfold Kv.seq_known in H. bool_hyps. pose proof (ok_seqs n k Hok). lia.
Qed.

(** The stream of a known sequence, with its cells and head. *)
Lemma seq_stream n k s : kv_ok n k -> Kv.seq_known k s = true ->
  exists st c h, at_ (kv_seq_to_stream k) (Z.to_nat s) = Ret st /\ home k s = Some st
    /\ kv_cells k !! st = Some c /\ kv_heads k !! st = Some h.
Proof.
  intros Hok H. unfold Kv.seq_known in H. bool_hyps.
  destruct (lookup_lt_is_Some_2 (kv_seq_to_stream k) (Z.to_nat s)) as [st Hst]; [lia|].
  pose proof (ok_map n k Hok _ _ Hst) as Hlt.
  destruct (lookup_lt_is_Some_2 (kv_cells k) st) as [c Hc]; [by rewrite (ok_cells n k Hok)|].
  destruct (lookup_lt_is_Some_2 (kv_heads k) st) as [h Hh]; [by rewrite (ok_heads n k Hok)|].
  exists st, c, h. split_and!; [by apply at_Ret|done|done|done].
Qed.

(** Replacing the cells and the head of one stream. *)
Definition replaced (k : llama_kv_cache) (st : nat) (c : llama_kv_cells) (h : nat) : llama_kv_cache :=
  set_streams k (<[st := h]> (kv_heads k)) (<[st := c]> (kv_cells k)).

Lemma replaced_ok n k st c h : kv_ok n k -> stream_ok k n st c -> (h <= n)%nat ->
  kv_ok n (replaced k st c h).
Proof.
  intros Hok Hc Hh. destruct Hok. constructor; simpl; try done.
  - by rewrite length_insert.
  - by rewrite length_insert.
  - intros st' h'. rewrite list_lookup_insert_Some. intros [(-> & -> & _)|[_ H]]; [done|by eapply ok_head0].
  - intros st' c'. rewrite list_lookup_insert_Some. intros [(-> & -> & _)|[_ H]]; [done|by eapply ok_stream0].
Qed.

Lemma same_shape_refl k : same_shape k k.
Proof. by split_and!. Qed.

Lemma same_shape_trans k1 k2 k3 : same_shape k1 k2 -> same_shape k2 k3 -> same_shape k1 k3.
Proof. unfold same_shape. naive_solver congruence. Qed.

Lemma set_both n k st c c' h h' : kv_ok n k -> kv_cells k !! st = Some c -> kv_heads k !! st = Some h ->
  (k' ← set_cells k st c'; set_head k' st h') = Ret (replaced k st c' h').
Proof.
  intros Hok Hc Hh. unfold set_cells, set_, set_head.
  rewrite decide_True by (by eapply lookup_lt_Some). simpl.
  unfold set_. simpl. by rewrite decide_True by (by eapply lookup_lt_Some).
Qed.

Lemma set_cells_replaced k st c c' h : kv_cells k !! st = Some c -> kv_heads k !! st = Some h ->
  set_cells k st c' = Ret (replaced k st c' h).
Proof.
  intros Hc Hh. unfold set_cells, set_, replaced. rewrite decide_True by (by eapply lookup_lt_Some).
  cbn [mbind outcome_bind]. by rewrite (list_insert_id (kv_heads k)).
Qed.

Lemma lookup_replaced k st c h st' : (st < length (kv_cells k))%nat ->
  kv_cells (replaced k st c h) !! st' = if decide (st' = st) then Some c else kv_cells k !! st'.
Proof.
  intros Hlt. simpl. case_decide as Hs; [subst st'; by apply list_lookup_insert_eq|].
  by apply list_lookup_insert_ne.
Qed.

(** Where [at_pos] comes from, after one stream was rewritten cell by cell. *)
Lemma at_pos_replaced k st c c' h (F : kv_cell -> kv_cell) s i p :
  kv_cells k !! st = Some c -> kc_cells c' = map F (kc_cells c) ->
  at_pos (replaced k st c' h) s i p <->
    (exists x, kc_cells c !! i = Some x /\ s ∈ cell_seq (F x) /\ cell_pos (F x) = p)
    \/ (exists st' d x, st' <> st /\ kv_cells k !! st' = Some d /\ kc_cells d !! i = Some x
          /\ s ∈ cell_seq x /\ cell_pos x = p).
Proof.
  intros Hc Hcs. pose proof (lookup_lt_Some _ _ _ Hc) as Hlt. unfold at_pos. split.
  - intros (st' & d & x & Hd & Hx & H). rewrite lookup_replaced in Hd by done. case_decide as Hs.
    + subst st'. injection Hd as <-. left. rewrite Hcs, list_lookup_fmap in Hx.
      destruct (kc_cells c !! i) as [y|]; [|done]. injection Hx as <-. eauto.
    + right. by exists st', d, x.
  - intros [(x & Hx & H)|(st' & d & x & Hs & Hd & Hx & H)].
    + exists st, c', (F x). rewrite lookup_replaced by done. rewrite decide_True by done.
      by rewrite Hcs, list_lookup_fmap, Hx.
    + exists st', d, x. rewrite lookup_replaced by done. by rewrite decide_False.
Qed.

(** ** Removing sequences *)

Definition sound_cell (k : llama_kv_cache) (st : nat) (x : kv_cell) : Prop :=
  cell_ok x /\ cell_home k st x.

Lemma stream_sound n k st c : kv_ok n k -> kv_cells k !! st = Some c ->
  cells_ok c /\ Cells.size c = n /\ Forall (sound_cell k st) (kc_cells c).
Proof.
  intros Hok Hc. destruct (ok_stream n k Hok _ _ Hc) as (H1 & H2 & H3). split_and!; [done..|].
  apply Forall_and. split; [apply H1|done].
Qed.

Lemma existsb_never {A} (f : A -> bool) l : (forall x, f x = false) -> existsb f l = false.
Proof. intros H. induction l as [|x l IH]; [done|]. simpl. by rewrite H. Qed.

(** The cells of a stream after [F]. *)
Lemma mapped_stream n k st c c' F : kv_ok n k -> kv_cells k !! st = Some c -> cells_ok c' ->
  kc_cells c' = map F (kc_cells c) ->
  (forall x, sound_cell k st x -> x ∈ kc_cells c -> cell_home k st (F x)) -> stream_ok k n st c'.
Proof.
  intros Hok Hc Hok' Hcs HF. destruct (stream_sound n k st c Hok Hc) as (_ & Hsz & Hs).
  split; [done|]. unfold Cells.size in *. rewrite Hcs, length_map. split; [done|].
  apply Forall_forall. intros y (x & -> & Hx)%list_elem_of_fmap. apply HF; [|done].
  rewrite Forall_forall in Hs. by apply Hs.
Qed.

Lemma rm_stream_ok n k st c body p0 p1 (f : kv_cell -> kv_cell) : kv_ok n k ->
  kv_cells k !! st = Some c ->
  (forall c' i x, cells_ok c' -> kc_cells c' !! i = Some x -> sound_cell k st x ->
     in_range p0 p1 x = true ->
     exists b c2, body c' i = Ret (b, c2) /\ updates c' i (f x) (kc_has_shift c') c2) ->
  (forall x, sound_cell k st x -> in_range p0 p1 x = true -> cell_home k st (f x)) ->
  exists c' h', Kv.rm_stream body p0 p1 k st = Ret (replaced k st c' h')
    /\ kv_ok n (replaced k st c' h')
    /\ kc_cells c' = map (fun x => if in_range p0 p1 x then f x else x) (kc_cells c)
    /\ kc_has_shift c' = kc_has_shift c.
Proof.
  intros Hok Hc Hbody Hf. destruct (stream_sound n k st c Hok Hc) as (Hcok & Hsz & Hs).
  destruct (lookup_lt_is_Some_2 (kv_heads k) st) as [h Hh].
  { rewrite (ok_heads n k Hok), <- (ok_cells n k Hok). by eapply lookup_lt_Some. }
  unfold Kv.rm_stream. rewrite (proj2 (at_Ret _ _ _) Hc), (proj2 (at_Ret _ _ _) Hh).
  cbn [mbind outcome_bind].
  destruct (for_cells_ok body p0 p1 c f (fun _ => false) (sound_cell k st) Hcok Hs)
    as (c' & nh & E & Hok' & Hcs & Hnh & Hsh).
  { intros c1 i x H1 Hi Hx Hr. rewrite orb_false_r. by apply Hbody. }
  rewrite E. cbn [mbind outcome_bind]. rewrite (set_both n k st c _ h) by done.
  eexists _, _. split; [reflexivity|]. split_and!; [|done|].
  - apply replaced_ok; [done| |].
    + eapply mapped_stream; [done|done|done|exact Hcs|]. intros x Hx _. cbv beta.
      destruct (in_range p0 p1 x) eqn:Hr; [by apply Hf|apply Hx].
    + assert (Hsz' : Cells.size c' = n). { unfold Cells.size in *. by rewrite Hcs, length_map. }
      rewrite Hsz'. apply lower_head_le; [lia|]. by eapply ok_head.
  - by rewrite Hsh, existsb_never, orb_false_r by (intros x; apply andb_false_r).
Qed.

Definition rm_seq_cell (s : Z) (x : kv_cell) : kv_cell :=
  if bool_decide (s ∈ cell_seq x) then leave x s else x.

Lemma in_range_used p0 p1 x : in_range (Kv.lower p0) p1 x = true -> 0 <= cell_pos x.
Proof. unfold in_range, Kv.lower. intros H. bool_hyps. destruct (p0 <? 0) eqn:E; bool_hyps; lia. Qed.

Lemma rm_seq_body_ok s p0 p1 c i x : cells_ok c -> kc_cells c !! i = Some x -> 0 <= s < MAX_SEQ ->
  in_range (Kv.lower p0) p1 x = true ->
  exists b c', Kv.rm_seq_body s c i = Ret (b, c') /\ updates c i (rm_seq_cell s x) (kc_has_shift c) c'.
Proof.
  intros Hok Hi Hs Hr. pose proof (in_range_used _ _ _ Hr) as Hp. unfold Kv.rm_seq_body, rm_seq_cell.
  rewrite (seq_has_ok c Hok i x s Hi Hs). cbn [mbind outcome_bind]. case_bool_decide as Hin.
  - destruct (seq_rm_ok c i x s Hok Hi ltac:(lia) Hin) as (c' & E & Hu). rewrite E. eauto.
  - eexists _, _. split; [reflexivity|]. split; [done|]. by rewrite list_insert_id.
Qed.

Lemma leave_home k st x s : cell_home k st x -> cell_home k st (leave x s).
Proof.
  intros [H1 H2]. unfold leave. case_bool_decide as He; (split; [done|]); simpl; set_solver.
Qed.

Lemma rm_seq_home k st x s : cell_home k st x -> cell_home k st (rm_seq_cell s x).
Proof. intros H. unfold rm_seq_cell. case_bool_decide; [by apply leave_home|done]. Qed.

(** What a cell holds after [s] left it. *)
Lemma rm_seq_cell_spec s x s' p :
  (s' ∈ cell_seq (rm_seq_cell s x) /\ cell_pos (rm_seq_cell s x) = p)
  <-> (s' ∈ cell_seq x /\ cell_pos x = p /\ s' <> s).
Proof.
  unfold rm_seq_cell, leave.
  case_bool_decide as Hin; [case_bool_decide as He|]; simpl; [|set_solver|set_solver].
  split; [set_solver|]. intros (H1 & _ & H2).
  assert (s' ∈ cell_seq x ∖ {[s]}) as H by set_solver. rewrite He in H. set_solver.
Qed.

(** [at_pos] in the stream of [s]. *)
Lemma at_pos_home n k s i p st : kv_ok n k -> at_pos k s i p -> home k s = Some st ->
  exists c x, kv_cells k !! st = Some c /\ kc_cells c !! i = Some x /\ s ∈ cell_seq x /\ cell_pos x = p.
Proof.
  intros Hok (st' & c & x & Hc & Hx & Hin & Hp) Hh.
  destruct (stream_sound n k st' c Hok Hc) as (_ & _ & Hs).
  eapply Forall_lookup_1 in Hs; [|exact Hx]. destruct Hs as [_ [_ Hhome]].
  rewrite (Hhome s Hin) in Hh. injection Hh as ->. by exists c, x.
Qed.

(** The effect of a function on the cells of one stream, on [at_pos]. *)
Lemma on_stream n k st c c' h F (keep : Z -> Z -> Prop) : kv_ok n k -> kv_cells k !! st = Some c ->
  kc_cells c' = map F (kc_cells c) ->
  (forall x s p, x ∈ kc_cells c -> sound_cell k st x ->
     s ∈ cell_seq (F x) /\ cell_pos (F x) = p <-> s ∈ cell_seq x /\ cell_pos x = p /\ keep s p) ->
  (forall s p, home k s <> Some st -> keep s p) ->
  forall s i p, at_pos (replaced k st c' h) s i p <-> at_pos k s i p /\ keep s p.
Proof.
  intros Hok Hc Hcs HF Hother s i p. destruct (stream_sound n k st c Hok Hc) as (_ & _ & Hs).
  rewrite (at_pos_replaced k st c c' h F) by done. unfold at_pos. split.
  - intros [(x & Hx & H)|(st' & d & x & Hne & Hd & Hx & Hin & Hp)].
    + apply HF in H as (H1 & H2 & H3); [|by eapply list_elem_of_lookup_2|by eapply Forall_lookup_1].
      split; [|done]. by exists st, c, x.
    + split; [by exists st', d, x|]. apply Hother.
      destruct (stream_sound n k st' d Hok Hd) as (_ & _ & Hd').
      eapply Forall_lookup_1 in Hd'; [|exact Hx]. destruct Hd' as [_ [_ Hh]]. rewrite (Hh s Hin). congruence.
  - intros [(st' & d & x & Hd & Hx & Hin & Hp) Hk]. destruct (decide (st' = st)) as [->|Hne].
    + left. assert (d = c) as -> by congruence. exists x. split; [done|].
      apply HF; [by eapply list_elem_of_lookup_2|by eapply Forall_lookup_1|done].
    + right. by exists st', d, x.
Qed.

Definition in_pos (p0 p1 p : Z) : Prop := Kv.lower p0 <= p < Kv.upper p1.

Lemma in_range_pos p0 p1 x : in_range (Kv.lower p0) (Kv.upper p1) x = true <-> in_pos p0 p1 (cell_pos x).
Proof. unfold in_range, in_pos. rewrite andb_true_iff, Z.leb_le, Z.ltb_lt. done. Qed.

Lemma replaced_shape k st c h : same_shape k (replaced k st c h).
Proof. by split_and!. Qed.

Lemma seq_rm_one n k s p0 p1 : kv_ok n k -> Kv.seq_known k s = true ->
  exists k', Kv.seq_rm k s p0 p1 = Ret k' /\ kv_ok n k' /\ same_shape k k'
    /\ forall s' i p, at_pos k' s' i p <-> at_pos k s' i p /\ ~ (s' = s /\ in_pos p0 p1 p).
Proof.
  intros Hok Hs. pose proof (seq_known_range n k s Hok Hs) as Hr.
  destruct (seq_stream n k s Hok Hs) as (st & c & h & Est & Hhome & Hc & Hh).
  unfold Kv.seq_rm. rewrite Hs, orb_true_r. cbn [c_assert mbind outcome_bind].
  rewrite (proj2 (Z.leb_le 0 s)), Est by lia. cbn [mbind outcome_bind].
  destruct (rm_stream_ok n k st c (Kv.rm_seq_body s) (Kv.lower p0) (Kv.upper p1) (rm_seq_cell s) Hok Hc)
    as (c' & h' & E & Hok' & Hcs & _).
  { intros c' i x H1 Hi _ Hin. by eapply rm_seq_body_ok. }
  { intros x [_ Hx] _. by apply rm_seq_home. }
  rewrite E. eexists. split; [reflexivity|]. split; [done|]. split; [apply replaced_shape|].
  apply (on_stream n k st c _ _ _ (fun s' p => ~ (s' = s /\ in_pos p0 p1 p)) Hok Hc Hcs).
  - intros x s' p _ [_ [Hne _]]. cbv beta.
    destruct (in_range (Kv.lower p0) (Kv.upper p1) x) eqn:Hin.
    + rewrite rm_seq_cell_spec.
      apply in_range_pos in Hin. naive_solver.
    + assert (~ in_pos p0 p1 (cell_pos x)) by (rewrite <- in_range_pos; by destruct (in_range _ _ x)).
      naive_solver.
  - intros s' p Hn [-> _]. by rewrite Hhome in Hn.
Qed.

Lemma rm_any_body_ok p0 p1 c i x : cells_ok c -> kc_cells c !! i = Some x ->
  in_range (Kv.lower p0) p1 x = true ->
  exists b c', Kv.rm_any_body c i = Ret (b, c') /\ updates c i empty_cell (kc_has_shift c) c'.
Proof.
  intros Hok Hi Hr. pose proof (in_range_used _ _ _ Hr) as Hp. unfold Kv.rm_any_body.
  destruct (rm_ok c i x Hok Hi ltac:(lia)) as (c' & E & Hu). rewrite E. simpl. eauto.
Qed.

Lemma empty_home k st : cell_home k st empty_cell.
Proof. split; [done|]. simpl. set_solver. Qed.

Lemma at_pos_stream n k s i p : kv_ok n k -> at_pos k s i p ->
  exists st, home k s = Some st /\ (st < kv_n_stream k)%nat.
Proof.
  intros Hok (st & c & x & Hc & Hx & Hin & _).
  destruct (stream_sound n k st c Hok Hc) as (_ & _ & Hs).
  eapply Forall_lookup_1 in Hs; [|exact Hx]. destruct Hs as [_ [_ Hh]].
  exists st. split; [by apply Hh|]. rewrite <- (ok_cells n k Hok). by eapply lookup_lt_Some.
Qed.

Lemma seq_rm_any n k p0 p1 : kv_ok n k ->
  exists k', Kv.seq_rm k (-1) p0 p1 = Ret k' /\ kv_ok n k' /\ same_shape k k'
    /\ forall s i p, at_pos k' s i p <-> at_pos k s i p /\ ~ in_pos p0 p1 p.
Proof.
  intros Hok. unfold Kv.seq_rm. cbn -[Kv.lower Kv.upper seq].
  assert (H : forall m, (m <= kv_n_stream k)%nat -> exists k',
    foldM (Kv.rm_stream Kv.rm_any_body (Kv.lower p0) (Kv.upper p1)) k (seq 0 m) = Ret k'
    /\ kv_ok n k' /\ same_shape k k'
    /\ forall s i p, at_pos k' s i p
         <-> at_pos k s i p /\ ~ (in_pos p0 p1 p /\ exists st, home k s = Some st /\ (st < m)%nat)).
  { induction m as [|m IH]; intros Hm.
    { exists k. split_and!; [done|done|apply same_shape_refl|]. intros s i p. split; [|naive_solver].
      intros H. split; [done|]. intros (_ & st & _ & ?). lia. }
    destruct (IH ltac:(lia)) as (k1 & E & Hok1 & Hsame & Hat).
    assert (Hmap : forall s, home k1 s = home k s).
    { intros s. unfold home. by destruct Hsame as (_ & _ & _ & _ & _ & _ & ->). }
    destruct (lookup_lt_is_Some_2 (kv_cells k1) m) as [c Hc].
    { rewrite (ok_cells n k1 Hok1). destruct Hsame as (_ & -> & _). lia. }
    destruct (rm_stream_ok n k1 m c Kv.rm_any_body (Kv.lower p0) (Kv.upper p1) (fun _ => empty_cell)
      Hok1 Hc) as (c' & h' & E' & Hok' & Hcs & _).
    { intros c' i x H1 Hi _ Hin. by eapply rm_any_body_ok. }
    { intros x _ _. apply empty_home. }
    rewrite seq_S, foldM_app, E. cbn [mbind outcome_bind foldM Nat.add]. rewrite E'.
    cbn [mbind outcome_bind]. eexists. split; [reflexivity|]. split; [done|].
    split; [by eapply same_shape_trans; [|apply replaced_shape]|].
    intros s i p.
    rewrite (on_stream n k1 m c c' h' _ (fun s p => ~ (in_pos p0 p1 p /\ home k1 s = Some m)) Hok1 Hc Hcs).
    - rewrite Hat, Hmap. split.
      + intros [[H1 H2] H3]. split; [done|]. intros [Hp (st & Hst & Hlt)].
        destruct (decide (st = m)) as [->|]; [by apply H3|]. apply H2. split; [done|].
        exists st. split; [done|lia].
      + intros [H1 H2]. split_and!; [done| |]; intros [Hp H3]; apply H2; (split; [done|]).
        * destruct H3 as (st & ? & ?). exists st. split; [done|lia].
        * exists m. split; [done|lia].
    - intros x s' q _ [_ [_ Hh]]. cbv beta.
      destruct (in_range (Kv.lower p0) (Kv.upper p1) x) eqn:Hin.
      + apply in_range_pos in Hin. simpl. split; [set_solver|]. intros (Hs' & <- & Hn).
        destruct Hn. split; [done|]. by apply Hh.
      + assert (~ in_pos p0 p1 (cell_pos x)) by (rewrite <- in_range_pos; by destruct (in_range _ _ x)).
        naive_solver.
    - intros s' q Hn [_ ?]. done. }
  destruct (H _ (le_n _)) as (k' & E & Hok' & Hsame & Hat). exists k'. split_and!; [done..|].
  intros s i p. rewrite Hat. split; intros [H1 H2]; (split; [done|]).
  - intros Hp. apply H2. split; [done|]. by eapply at_pos_stream.
  - intros [Hp _]. by apply H2.
Qed.

(** ** Keeping one sequence *)

Lemma keep_only_home k st x s : cell_home k st x -> cell_home k st (keep_only x s).
Proof.
  intros [H1 H2]. unfold keep_only. case_bool_decide; [|case_bool_decide]; [|done|apply empty_home].
  split; simpl; [set_solver|]. intros s' ->%elem_of_singleton. by apply H2.
Qed.

Lemma keep_only_spec x s s' p :
  (s' ∈ cell_seq (keep_only x s) /\ cell_pos (keep_only x s) = p)
  <-> (s' ∈ cell_seq x /\ cell_pos x = p /\ s' = s).
Proof.
  unfold keep_only. case_bool_decide; [|case_bool_decide]; simpl; set_solver.
Qed.

Lemma seq_keep_spec n k s : kv_ok n k -> Kv.seq_known k s = true ->
  exists k', Kv.seq_keep k s = Ret k' /\ kv_ok n k' /\ same_shape k k'
    /\ forall s' i p, at_pos k' s' i p <-> at_pos k s' i p /\ (s' = s \/ home k s' <> home k s).
Proof.
  intros Hok Hs. pose proof (seq_known_range n k s Hok Hs) as Hr.
  destruct (seq_stream n k s Hok Hs) as (st & c & h & Est & Hhome & Hc & Hh).
  destruct (stream_sound n k st c Hok Hc) as (Hcok & Hsz & Hsound).
  unfold Kv.seq_keep. rewrite Hs. cbn [c_assert mbind outcome_bind]. rewrite Est.
  cbn [mbind outcome_bind]. rewrite (proj2 (at_Ret _ _ _) Hc), (proj2 (at_Ret _ _ _) Hh).
  cbn [mbind outcome_bind].
  destruct (cells_loop (fun '(c, new_head) i =>
      '(freed, c) ← Cells.seq_keep c i s;
      Ret (c, Kv.note_freed (Cells.size c) freed i new_head))
    (fun x => keep_only x s) (fun _ => false) (sound_cell k st) c Hcok Hsound)
    as (c' & nh & E & Hok' & Hcs & Hnh & _).
  { intros c1 nh i x H1 Hsz1 Hnh Hi [Hxok [Hx _]].
    destruct (seq_keep_ok c1 i x s H1 Hi Hr) as (c2 & E & Hu).
    { intros He. destruct (decide (cell_pos x = -1)); [done|]. by destruct Hx. }
    rewrite E. cbn [mbind outcome_bind]. eexists _, _. split; [reflexivity|].
    rewrite orb_false_r. split; [|done]. destruct Hu as (_ & Hcs & _).
    assert (Cells.size c2 = Cells.size c) as ->.
    { rewrite <- Hsz1. unfold Cells.size. by rewrite Hcs, length_insert. }
    apply note_freed_le; [|done]. rewrite <- Hsz1. by eapply lookup_lt_Some. }
  rewrite E. cbn [mbind outcome_bind]. rewrite (set_both n k st c _ h) by done.
  eexists. split; [reflexivity|].
  assert (Hsz' : Cells.size c' = n) by (unfold Cells.size in *; by rewrite Hcs, length_map).
  split_and!; [|apply replaced_shape|].
  - apply replaced_ok; [done| |].
    + eapply mapped_stream; [done|done|done|exact Hcs|]. intros x [_ Hx] _. by apply keep_only_home.
    + rewrite Hsz'. apply lower_head_le; [lia|]. by eapply ok_head.
  - intros s' i p. rewrite Hhome.
    apply (on_stream n k st c c' _ _ (fun s' p => s' = s \/ home k s' <> Some st) Hok Hc Hcs).
    + intros x s1 q _ [_ [_ Hx]]. rewrite keep_only_spec. naive_solver.
    + intros s1 q Hn. by right.
Qed.

(** ** Marking copies inside one stream *)

Definition cp_cell_to (src dst : Z) (x : kv_cell) : kv_cell :=
  if bool_decide (src ∈ cell_seq x) then with_seq x ({[ dst ]} ∪ cell_seq x) else x.

(** No cell of the range holds both sequences already. *)
Definition cp_free (k : llama_kv_cache) (src dst p0 p1 : Z) : Prop :=
  forall i p, in_pos p0 p1 p -> at_pos k src i p -> ~ at_pos k dst i p.

Lemma seq_cp_same n k src dst p0 p1 : kv_ok n k -> Kv.seq_known k src = true ->
  Kv.seq_known k dst = true -> home k src = home k dst -> src <> dst -> cp_free k src dst p0 p1 ->
  exists k', Kv.seq_cp k src dst p0 p1 = Ret k' /\ kv_ok n k' /\ same_shape k k'
    /\ forall s i p, at_pos k' s i p
         <-> at_pos k s i p \/ (s = dst /\ at_pos k src i p /\ in_pos p0 p1 p).
Proof.
  intros Hok Hs Hd Hhomes Hne Hfree.
  pose proof (seq_known_range n k src Hok Hs) as Hrs. pose proof (seq_known_range n k dst Hok Hd) as Hrd.
  destruct (seq_stream n k src Hok Hs) as (st & c & h & Est & Hhome & Hc & Hh).
  destruct (seq_stream n k dst Hok Hd) as (st' & c2 & h2 & Est' & Hhome' & _ & _).
  assert (st' = st) as -> by congruence.
  destruct (stream_sound n k st c Hok Hc) as (Hcok & Hsz & Hsound).
  unfold Kv.seq_cp. rewrite Hs, Hd. cbn [c_assert mbind outcome_bind]. rewrite Est, Est'.
  cbn [mbind outcome_bind]. rewrite Nat.eqb_refl, (proj2 (Z.eqb_neq src dst)) by done.
  rewrite (proj2 (at_Ret _ _ _) Hc). cbn [mbind outcome_bind].
  destruct (for_cells_ok (Kv.cp_body src dst) (Kv.lower p0) (Kv.upper p1) c (cp_cell_to src dst)
    (fun _ => false) (fun x => sound_cell k st x /\ (in_range (Kv.lower p0) (Kv.upper p1) x = true ->
       src ∈ cell_seq x -> dst ∉ cell_seq x)) Hcok) as (c' & nh & E & Hok' & Hcs & Hnh & _).
  { apply Forall_forall. intros x Hx. rewrite Forall_forall in Hsound. split; [by apply Hsound|].
    intros Hin Hsx Hdx. apply list_elem_of_lookup in Hx as [i Hx]. apply in_range_pos in Hin.
    apply (Hfree i (cell_pos x) Hin); by exists st, c, x. }
  { intros c1 i x H1 Hi [[Hx _] Hnew] Hin. specialize (Hnew Hin). rewrite orb_false_r.
    pose proof (in_range_used _ _ _ Hin) as Hp. unfold Kv.cp_body, cp_cell_to.
    rewrite (seq_has_ok c1 H1 i x src Hi Hrs). cbn [mbind outcome_bind]. case_bool_decide as Hsx.
    - destruct (seq_add_ok c1 i x dst H1 Hi ltac:(lia) (Hnew Hsx) Hrd) as (c3 & E & Hu).
      rewrite E. simpl. eauto.
    - eexists _, _. split; [reflexivity|]. split; [done|]. by rewrite list_insert_id. }
  rewrite E. cbn [mbind outcome_bind].
  rewrite (set_cells_replaced k st c c' h) by done. eexists. split; [reflexivity|]. split_and!; [|apply replaced_shape|].
  - apply replaced_ok; [done| |by eapply ok_head].
    eapply mapped_stream; [done|done|done|exact Hcs|]. intros x [_ [Hx1 Hx2]] _. cbv beta.
    destruct (in_range _ _ x); [|done]. unfold cp_cell_to. case_bool_decide; [|done].
    split; simpl; [intros _; set_solver|]. intros s [->%elem_of_singleton|Hs']%elem_of_union; [done|].
    by apply Hx2.
  - intros s i p. rewrite (at_pos_replaced k st c c' h _) by done. unfold at_pos. split.
    + intros [(x & Hx & Hin & Hp)|(st' & d & x & Hn & Hdd & Hx & Hin & Hp)];
        [|by left; exists st', d, x].
      destruct (in_range (Kv.lower p0) (Kv.upper p1) x) eqn:Hr; [|by left; exists st, c, x].
      unfold cp_cell_to in *. case_bool_decide as Hsx; [|by left; exists st, c, x].
      simpl in *. apply elem_of_union in Hin as [->%elem_of_singleton|Hin]; [|by left; exists st, c, x].
      right. split; [done|]. split; [by exists st, c, x|]. apply in_range_pos in Hr. congruence.
    + intros [(st' & d & x & Hdd & Hx & Hin & Hp)|(-> & (st' & d & x & Hdd & Hx & Hin & Hp) & Hpos)].
      * destruct (decide (st' = st)) as [->|]; [|by right; exists st', d, x].
        assert (d = c) as -> by congruence. left. exists x. split; [done|].
        destruct (in_range _ _ x); [|done]. unfold cp_cell_to. case_bool_decide; simpl; set_solver.
      * destruct (stream_sound n k st' d Hok Hdd) as (_ & _ & Hs').
        eapply Forall_lookup_1 in Hs'; [|exact Hx]. destruct Hs' as [_ [_ Hh']].
        assert (st' = st) as -> by (specialize (Hh' src Hin); congruence).
        assert (d = c) as -> by congruence. left. exists x. split; [done|].
        subst p. rewrite (proj2 (in_range_pos p0 p1 x) Hpos).
        unfold cp_cell_to. rewrite bool_decide_eq_true_2 by done. simpl. set_solver.
Qed.

(** ** Moving positions *)

(** Cell [i] of sequence [s'] also holds [s], at a position of the range. *)
Definition moves (k : llama_kv_cache) (s p0 p1 s' : Z) (i : nat) (q : Z) : Prop :=
  home k s' = home k s /\ at_pos k s i q /\ in_pos p0 p1 q.

(** The cells of sequence [s] in the range: their positions go through [T], for
    every sequence of the cell; where it becomes [None] the cell is freed. *)
Definition repositioned (k k' : llama_kv_cache) (s p0 p1 : Z) (T : Z -> option Z) : Prop :=
  forall s' i p, at_pos k' s' i p <->
    (at_pos k s' i p /\ ~ moves k s p0 p1 s' i p)
    \/ (exists q, at_pos k s' i q /\ moves k s p0 p1 s' i q /\ T q = Some p).

Definition reposition (s : Z) (g : kv_cell -> kv_cell) (x : kv_cell) : kv_cell :=
  if bool_decide (s ∈ cell_seq x) then g x else x.

Lemma at_pos_in n k st c t i q : kv_ok n k -> kv_cells k !! st = Some c -> home k t = Some st ->
  at_pos k t i q -> exists x, kc_cells c !! i = Some x /\ t ∈ cell_seq x /\ cell_pos x = q.
Proof.
  intros Hok Hc Hh Ht. destruct (at_pos_home n k t i q st Hok Ht Hh) as (d & x & Hd & ?).
  assert (d = c) as -> by congruence. by exists x.
Qed.

Lemma repositioned_ok n k st c c' h s p0 p1 g T : kv_ok n k -> kv_cells k !! st = Some c ->
  home k s = Some st ->
  kc_cells c' = map (fun x => if in_range (Kv.lower p0) (Kv.upper p1) x then reposition s g x else x)
                  (kc_cells c) ->
  (forall x s' p, sound_cell k st x -> s ∈ cell_seq x -> 0 <= cell_pos x ->
     s' ∈ cell_seq (g x) /\ cell_pos (g x) = p <-> s' ∈ cell_seq x /\ T (cell_pos x) = Some p) ->
  repositioned k (replaced k st c' h) s p0 p1 T.
Proof.
  intros Hok Hc Hhome Hcs Hg s' i p. destruct (stream_sound n k st c Hok Hc) as (_ & _ & Hsound).
  rewrite (at_pos_replaced k st c c' h _) by done.
  assert (Hcell : forall x t q, kc_cells c !! i = Some x -> t ∈ cell_seq x -> cell_pos x = q ->
    at_pos k t i q /\ home k t = Some st).
  { intros x t q Hx Ht Hq. split; [by exists st, c, x|].
    pose proof (Forall_lookup_1 _ _ _ _ Hsound Hx) as [_ [_ Hh]]. by apply Hh. }
  split.
  - intros [(x & Hx & Hin & Hp)|(st' & d & x & Hn & Hd & Hx & Hin & Hp)].
    + pose proof (Forall_lookup_1 _ _ _ _ Hsound Hx) as Hsx.
      destruct (in_range (Kv.lower p0) (Kv.upper p1) x) eqn:Hr; unfold reposition in *;
        [case_bool_decide as Hsin|].
      * apply (in_range_pos p0 p1) in Hr as Hr'. apply in_range_used in Hr.
        destruct (proj1 (Hg x s' p Hsx Hsin Hr) (conj Hin Hp)) as [H1 H2].
        destruct (Hcell x s' _ Hx H1 eq_refl), (Hcell x s _ Hx Hsin eq_refl).
        right. exists (cell_pos x). split_and!; [done| |done]. split_and!; [congruence|done|done].
      * destruct (Hcell x s' p Hx Hin Hp). left. split; [done|]. intros (_ & Hs & _).
        destruct (at_pos_in n k st c s i p Hok Hc Hhome Hs) as (y & Hy & Hsy & _). congruence.
      * destruct (Hcell x s' p Hx Hin Hp). left. split; [done|]. intros (_ & _ & Hpp).
        subst p. apply in_range_pos in Hpp. congruence.
    + left. split; [by exists st', d, x|]. intros (Hh & _).
      destruct (stream_sound n k st' d Hok Hd) as (_ & _ & Hs').
      pose proof (Forall_lookup_1 _ _ _ _ Hs' Hx) as [_ [_ Hh']]. specialize (Hh' s' Hin). congruence.
  - intros [[Hat Hno]|(q & Hat & (Hh & Hs & Hpos) & HT)].
    + destruct Hat as (st' & d & x & Hd & Hx & Hin & Hp).
      destruct (decide (st' = st)) as [->|]; [|by right; exists st', d, x].
      assert (d = c) as -> by congruence. left. exists x. split; [done|].
      destruct (in_range _ _ x) eqn:Hr; [|done]. unfold reposition. case_bool_decide as Hsin; [|done].
      destruct Hno. destruct (Hcell x s' p Hx Hin Hp), (Hcell x s p Hx Hsin Hp).
      split_and!; [congruence|done|]. apply in_range_pos in Hr. congruence.
    + destruct (at_pos_in n k st c s i q Hok Hc Hhome Hs) as (x & Hx & Hsx & Hqx).
      destruct (at_pos_in n k st c s' i q Hok Hc ltac:(congruence) Hat) as (y & Hy & Hsy & _).
      assert (y = x) as -> by congruence. left. exists x. split; [done|].
      rewrite <- Hqx in Hpos, HT. rewrite (proj2 (in_range_pos p0 p1 x) Hpos).
      unfold reposition. rewrite bool_decide_eq_true_2 by done.
      apply Hg; [by eapply Forall_lookup_1|done| |done].
      unfold in_pos, Kv.lower in Hpos. destruct (p0 <? 0) eqn:E; bool_hyps; lia.
Qed.

Lemma at_pos_nonneg n k s i p : kv_ok n k -> at_pos k s i p -> 0 <= p.
Proof.
  intros Hok (st & c & x & Hc & Hx & Hin & <-).
  destruct (stream_sound n k st c Hok Hc) as (_ & _ & Hs).
  pose proof (Forall_lookup_1 _ _ _ _ Hs Hx) as [[_ [(_ & He & _)|?]] _]; [set_solver|done].
Qed.

Lemma moves_dec n k s p0 p1 s' i p : kv_ok n k -> at_pos k s' i p ->
  moves k s p0 p1 s' i p \/ ~ moves k s p0 p1 s' i p.
Proof.
  intros Hok Hat. pose proof Hat as (st & c & x & Hc & Hx & Hin & Hp).
  destruct (stream_sound n k st c Hok Hc) as (_ & _ & Hs).
  pose proof (Forall_lookup_1 _ _ _ _ Hs Hx) as [_ [_ Hh]].
  destruct (decide (s ∈ cell_seq x)) as [Hsx|Hsx].
  - assert (Hd : in_pos p0 p1 p \/ ~ in_pos p0 p1 p) by (unfold in_pos; lia).
    destruct Hd as [Hd|Hd]; [left|right; by intros (_ & _ & ?)].
    unfold moves. split_and!; [by rewrite (Hh s Hsx), (Hh s' Hin)|by exists st, c, x|done].
  - right. intros (Heq & Hs' & _). rewrite (Hh s' Hin) in Heq.
    destruct (at_pos_in n k st c s i p Hok Hc (eq_sym Heq) Hs') as (y & Hy & Hsy & _). congruence.
Qed.

Lemma repositioned_id n k s p0 p1 T : kv_ok n k ->
  (forall q, 0 <= q -> in_pos p0 p1 q -> T q = Some q) -> repositioned k k s p0 p1 T.
Proof.
  intros Hok HT s' i p. split.
  - intros H. destruct (moves_dec n k s p0 p1 s' i p Hok H) as [Hm|Hm]; [right|by left].
    exists p. split_and!; [done|done|]. apply HT; [by eapply at_pos_nonneg|apply Hm].
  - intros [[H _]|(q & H & (_ & _ & Hp) & Hq)]; [done|].
    rewrite HT in Hq; [congruence|by eapply at_pos_nonneg|done].
Qed.

Definition shifted_pos (shift q : Z) : option Z := if q + shift <? 0 then None else Some (q + shift).

Lemma moved_home k st x d : 0 <= cell_pos x -> cell_home k st x -> cell_home k st (moved x d).
Proof.
  intros Hp [H1 H2]. unfold moved. case_match; split; simpl; [done|set_solver| |done].
  intros _. apply H1. lia.
Qed.

Lemma moved_spec x d s' p : 0 <= cell_pos x ->
  s' ∈ cell_seq (moved x d) /\ cell_pos (moved x d) = p
  <-> s' ∈ cell_seq x /\ shifted_pos d (cell_pos x) = Some p.
Proof.
  intros Hp. unfold moved, shifted_pos. destruct (cell_pos x + d <? 0); simpl; [set_solver|naive_solver].
Qed.

(** One stream rewritten by a loop whose body repositions the cells of [s]. *)
Lemma reposition_loop n k st c s p0 p1 body g T : kv_ok n k -> kv_cells k !! st = Some c ->
  home k s = Some st -> 0 <= s < MAX_SEQ ->
  (forall c' i x, cells_ok c' -> kc_cells c' !! i = Some x -> sound_cell k st x -> 0 <= cell_pos x ->
     exists b c2, (has ← Ret (bool_decide (s ∈ cell_seq x)); body has c' i) = Ret (b, c2)
       /\ updates c' i (reposition s g x) (kc_has_shift c' || bool_decide (s ∈ cell_seq x)) c2) ->
  (forall x, sound_cell k st x -> 0 <= cell_pos x -> cell_home k st (g x)) ->
  (forall x s' p, 0 <= cell_pos x ->
     s' ∈ cell_seq (g x) /\ cell_pos (g x) = p <-> s' ∈ cell_seq x /\ T (cell_pos x) = Some p) ->
  exists c' nh, Kv.for_cells (Kv.lower p0) (Kv.upper p1)
      (fun c i => has ← Cells.seq_has c i s; body has c i) c = Ret (c', nh)
    /\ (nh <= Cells.size c')%nat
    /\ forall h, (h <= n)%nat -> kv_ok n (replaced k st c' h) /\ repositioned k (replaced k st c' h) s p0 p1 T.
Proof.
  intros Hok Hc Hhome Hs Hbody Hg HT. destruct (stream_sound n k st c Hok Hc) as (Hcok & Hsz & Hsound).
  destruct (for_cells_ok (fun c i => has ← Cells.seq_has c i s; body has c i) (Kv.lower p0)
    (Kv.upper p1) c (reposition s g) (fun x => bool_decide (s ∈ cell_seq x)) (sound_cell k st) Hcok Hsound)
    as (c' & nh & E & Hok' & Hcs & Hnh & _).
  { intros c1 i x H1 Hi Hx Hin. apply in_range_used in Hin.
    rewrite (seq_has_ok c1 H1 i x s Hi Hs). by apply Hbody. }
  assert (Hsz' : Cells.size c' = Cells.size c) by (unfold Cells.size; by rewrite Hcs, length_map).
  exists c', nh. split; [done|]. split; [lia|]. intros h Hh. split.
  - apply replaced_ok; [done| |done]. eapply mapped_stream; [done|done|done|exact Hcs|].
    intros x Hx _. cbv beta. destruct (in_range _ _ x) eqn:Hin; [|apply Hx].
    unfold reposition. case_bool_decide; [|apply Hx]. apply Hg; [done|].
    by apply in_range_used in Hin.
  - eapply repositioned_ok; [done|done|done|exact Hcs|]. intros x s' p _ _ Hp. by apply HT.
Qed.

Lemma seq_add_spec n k s p0 p1 shift : kv_ok n k -> Kv.seq_known k s = true ->
  kv_n_pos_per_embd k = 1%nat ->
  exists k', Kv.seq_add k s p0 p1 shift = Ret k' /\ kv_ok n k' /\ same_shape k k'
    /\ repositioned k k' s p0 p1 (shifted_pos shift).
Proof.
  intros Hok Hs Hpos. pose proof (seq_known_range n k s Hok Hs) as Hr.
  destruct (seq_stream n k s Hok Hs) as (st & c & h & Est & Hhome & Hc & Hh).
  unfold Kv.seq_add. rewrite Hs, Hpos. cbn [Nat.eqb c_assert mbind outcome_bind]. rewrite Est.
  cbn [mbind outcome_bind]. rewrite (proj2 (at_Ret _ _ _) Hc). cbn [mbind outcome_bind].
  case_match eqn:Eid.
  { exists k. split_and!; [done|done|apply same_shape_refl|]. eapply repositioned_id; [done|].
    intros q Hq Hin. unfold shifted_pos. apply orb_true_iff in Eid as [Eid|Eid]; bool_hyps.
    - subst shift. rewrite Z.add_0_r. by rewrite (proj2 (Z.ltb_ge q 0)).
    - unfold in_pos in Hin. lia. }
  destruct (reposition_loop n k st c s p0 p1
    (fun has c i => if has : bool then Cells.pos_add c i shift else Ret (false, c))
    (fun x => moved x shift) (shifted_pos shift) Hok Hc Hhome Hr) as (c' & nh & E & Hnh & Hafter).
  { intros c1 i x H1 Hi Hx Hp. cbn [mbind outcome_bind]. unfold reposition. case_bool_decide as Hin.
    - destruct (pos_add_ok c1 i x shift H1 Hi ltac:(lia)) as (c2 & E & Hu). rewrite E, orb_true_r. eauto.
    - eexists _, _. split; [reflexivity|]. by apply updates_id. }
  { intros x [_ Hx] Hp. by apply moved_home. }
  { intros x s' p Hp. by apply moved_spec. }
  unfold Kv.add_body. rewrite E. cbn [mbind outcome_bind]. rewrite (set_both n k st c _ h) by done.
  eexists. split; [reflexivity|].
  assert (Hsz : (Cells.size c' <= n)%nat).
  { destruct (Hafter 0%nat ltac:(lia)) as [Hok' _].
    destruct (ok_stream n _ Hok' st c') as (_ & H & _); [|lia].
    rewrite lookup_replaced by (by eapply lookup_lt_Some). by rewrite decide_True. }
  destruct (Hafter (if negb (nh =? Cells.size c')%nat then nh else 0%nat)) as [H1 H2];
    [case_match; lia|]. split_and!; [done|apply replaced_shape|done].
Qed.

Lemma seq_div_spec n k s p0 p1 d : kv_ok n k -> Kv.seq_known k s = true ->
  kv_n_pos_per_embd k = 1%nat -> 0 < d ->
  exists k', Kv.seq_div k s p0 p1 d = Ret k' /\ kv_ok n k' /\ same_shape k k'
    /\ repositioned k k' s p0 p1 (fun q => Some (q / d)).
Proof.
  intros Hok Hs Hpos Hd. pose proof (seq_known_range n k s Hok Hs) as Hr.
  destruct (seq_stream n k s Hok Hs) as (st & c & h & Est & Hhome & Hc & Hh).
  unfold Kv.seq_div. rewrite Hs, Hpos. cbn [Nat.eqb c_assert mbind outcome_bind]. rewrite Est.
  cbn [mbind outcome_bind]. rewrite (proj2 (at_Ret _ _ _) Hc). cbn [mbind outcome_bind].
  case_match eqn:Eid.
  { exists k. split_and!; [done|done|apply same_shape_refl|]. eapply repositioned_id; [done|].
    intros q Hq Hin. apply orb_true_iff in Eid as [Eid|Eid]; bool_hyps.
    - subst d. by rewrite Z.div_1_r.
    - unfold in_pos in Hin. lia. }
  destruct (reposition_loop n k st c s p0 p1
    (fun has c i => if has : bool then c ← Cells.pos_div c i d; Ret (false, c) else Ret (false, c))
    (fun x => divided x d) (fun q => Some (q / d)) Hok Hc Hhome Hr) as (c' & nh & E & Hnh & Hafter).
  { intros c1 i x H1 Hi Hx Hp. cbn [mbind outcome_bind]. unfold reposition. case_bool_decide as Hin.
    - destruct (pos_div_ok c1 i x d H1 Hi ltac:(lia) Hd) as (c2 & E & Hu). rewrite E, orb_true_r. simpl. eauto.
    - eexists _, _. split; [reflexivity|]. by apply updates_id. }
  { intros x [_ [H1 H2]] Hp. split; simpl; [|done]. intros _. apply H1. lia. }
  { intros x s' p Hp. simpl. rewrite Z.quot_div_nonneg by lia. naive_solver. }
  unfold Kv.div_body. rewrite E. cbn [mbind outcome_bind].
  rewrite (set_cells_replaced k st c c' h) by done. eexists. split; [reflexivity|].
  destruct (Hafter h) as [H1 H2]; [by eapply ok_head|]. split_and!; [done|apply replaced_shape|done].
Qed.
