(* ===== verification/KvCopy.v ===== *)
(** * Creating and clearing a cache, and copies between streams. *)

From S2P Require Import Prelude KvCells KvCellsFacts Batch KvCache KvCacheFacts.
From Stdlib Require Import Lia.

(** ** Creating and clearing *)

Lemma blank_stream_ok k n st c : cells_ok c -> kc_cells c = replicate n empty_cell -> stream_ok k n st c.
Proof.
  intros Hok Hcs. split; [done|]. unfold Cells.size. rewrite Hcs, length_replicate. split; [done|].
  apply Forall_forall. intros x Hx. apply elem_of_replicate_inv in Hx as ->. apply empty_home.
Qed.

Lemma make_ok unified kv_size n_seq_max n_pad n_swa t n_pos k :
  (0 < n_seq_max <= Z.to_nat MAX_SEQ)%nat ->
  Kv.make unified kv_size n_seq_max n_pad n_swa t n_pos = Ret k ->
  kv_ok kv_size k /\ (forall s i p, ~ at_pos k s i p)
  /\ forall s, 0 <= s < Z.of_nat n_seq_max -> Kv.seq_known k s = true.
Proof.
  intros Hn H. unfold Kv.make in H. destruct (n_pad =? 0); [done|].
  destruct (Z.of_nat kv_size mod n_pad =? 0); [|done].
  cbn [c_assert mbind outcome_bind] in H. remember (Z.to_nat MAX_SEQ) as m256 eqn:H256.
  injection H as <-. set (m := if unified then 1%nat else n_seq_max).
  assert (Hm : (0 < m)%nat) by (unfold m; destruct unified; lia).
  split; [|split].
  - constructor; simpl.
    + done.
    + by rewrite length_replicate.
    + by rewrite length_replicate.
    + intros st h [-> _]%lookup_replicate. lia.
    + intros st c [-> _]%lookup_replicate. apply blank_stream_ok; [apply resized_ok|done].
    + intros s st. case_match.
      * intros [-> Hs]%lookup_seq. lia.
      * intros [-> _]%lookup_replicate. lia.
    + case_match; [rewrite length_seq|rewrite length_replicate; lia].
      unfold m in *. destruct unified; lia.
  - intros s i p (st & c & x & Hc & Hx & Hin & _). simpl in Hc.
    apply lookup_replicate in Hc as [-> _]. simpl in Hx. apply lookup_replicate in Hx as [-> _].
    simpl in Hin. set_solver.
  - intros s Hs. unfold Kv.seq_known. simpl kv_seq_to_stream.
    rewrite (proj2 (Z.leb_le 0 s)) by lia. apply Z.ltb_lt.
    case_match; [rewrite length_seq|rewrite length_replicate]; [|lia].
    unfold m in *. destruct unified; [done|lia].
Qed.

Lemma clear_ok n k : kv_ok n k ->
  kv_ok n (Kv.clear k) /\ same_shape k (Kv.clear k) /\ forall s i p, ~ at_pos (Kv.clear k) s i p.
Proof.
  intros Hok. split_and!; [|by split_and!|].
  - pose proof Hok as []. constructor; simpl; try done.
    + by rewrite length_map.
    + by rewrite length_map.
    + intros st h. rewrite list_lookup_fmap. destruct (kv_heads k !! st); [|done]. intros [= <-]. lia.
    + intros st c. rewrite list_lookup_fmap. destruct (kv_cells k !! st) as [d|] eqn:Hd; [|done].
      intros [= <-]. destruct (ok_stream _ _ Hd) as ((_ & _ & Hl & _) & Hsz & _).
      apply blank_stream_ok; [by apply cells_reset_ok|]. unfold Cells.size in Hsz. rewrite <- Hsz. simpl.
      clear. induction (kc_cells d) as [|x l IH]; [done|]. simpl. by rewrite IH.
  - intros s i p (st & c & x & Hc & Hx & Hin & _). simpl in Hc. rewrite list_lookup_fmap in Hc.
    destruct (kv_cells k !! st) as [d|]; [|done]. injection Hc as <-. simpl in Hx.
    rewrite list_lookup_fmap in Hx. destruct (kc_cells d !! i); [|done]. injection Hx as <-. set_solver.
Qed.

(** ** A copy to another stream *)

(** The copy of a cell, which holds only the destination sequence. *)
Definition copied (dst : Z) (x : kv_cell) : kv_cell :=
  mk_cell (cell_pos x) (cell_ext x) (cell_shift x) {[ dst ]}.

Definition copy_cell (src dst : Z) (x : kv_cell) : kv_cell :=
  if bool_decide (src ∈ cell_seq x) then copied dst x else empty_cell.

(** The position before the pending shift, which the copy goes through, is valid. *)
Definition shift_known (x : kv_cell) : Prop := cell_shift x = 0 \/ 0 <= cell_pos x - cell_shift x.

Lemma updates_trans c i y y' b b' c1 c2 : updates c i y b c1 -> updates c1 i y' b' c2 -> updates c i y' b' c2.
Proof.
  intros (_ & E1 & _) (Hok & E2 & Hb). split_and!; [done| |done]. by rewrite E2, E1, list_insert_insert_eq.
Qed.

Lemma updates_lookup c i x y b c' : kc_cells c !! i = Some x -> updates c i y b c' ->
  kc_cells c' !! i = Some y.
Proof.
  intros Hi (_ & -> & _). apply list_lookup_insert_eq. by eapply lookup_lt_Some.
Qed.

Lemma cp_cell_ok c0 c i x src dst : cells_ok c0 -> cells_ok c -> kc_cells c0 !! i = Some x ->
  kc_cells c !! i = Some empty_cell -> 0 <= src < MAX_SEQ -> 0 <= dst < MAX_SEQ ->
  (src ∈ cell_seq x -> 0 <= cell_pos x /\ shift_known x) ->
  exists c' b, Kv.cp_cell c0 src dst c i = Ret c' /\ updates c i (copy_cell src dst x) b c'.
Proof.
  intros Hok0 Hok Hx Hi Hsrc Hdst Hshift. unfold Kv.cp_cell, copy_cell.
  rewrite (seq_has_ok c0 Hok0 i x src Hx Hsrc). cbn [mbind outcome_bind].
  case_bool_decide as Hin; cbn [negb].
  2:{ exists c, (kc_has_shift c). split; [done|]. split_and!; [done| |done]. by rewrite list_insert_id. }
  destruct (Hshift Hin) as [Hp Hk].
  unfold Cells.pos_get, Cells.get_shift, Cells.ext_get.
  rewrite (used_cell_Ret c0 i x Hx) by lia. cbn [mbind outcome_bind].
  set (q := if cell_shift x =? 0 then cell_pos x else cell_pos x - cell_shift x).
  assert (Hq : 0 <= q). { unfold q. destruct (Z.eqb_spec (cell_shift x) 0); [lia|]. destruct Hk; lia. }
  rewrite (proj2 (Z.leb_le 0 q) Hq), orb_true_r. cbn [c_assert mbind outcome_bind].
  destruct (pos_set_ok c i empty_cell q Hok Hi eq_refl Hq) as (c1 & E1 & U1). rewrite E1.
  cbn [mbind outcome_bind]. pose proof (updates_lookup _ _ _ _ _ _ Hi U1) as Hi1.
  destruct (seq_add_ok c1 i _ dst (proj1 U1) Hi1) as (c2 & E2 & U2); [simpl; lia|simpl; set_solver|done|].
  rewrite E2. cbn [mbind outcome_bind]. pose proof (updates_lookup _ _ _ _ _ _ Hi1 U2) as Hi2.
  pose proof (updates_trans _ _ _ _ _ _ _ _ U1 U2) as U12.
  assert (H3 : exists c3 b, (if cell_shift x =? 0 then Ret c2
      else '(_, c3) ← Cells.pos_add c2 i (cell_shift x); Ret c3) = Ret c3
    /\ updates c i (mk_cell (cell_pos x) ext_zero (cell_shift x) {[ dst ]}) b c3).
  { unfold q in *. destruct (Z.eqb_spec (cell_shift x) 0) as [E0|N0].
    - exists c2, (kc_has_shift c1). split; [done|]. rewrite E0. simpl in U12.
      by rewrite union_empty_r_L in U12.
    - destruct (pos_add_ok c2 i _ (cell_shift x) (proj1 U2) Hi2) as (c3 & E3 & U3); [simpl; lia|].
      rewrite E3. cbn [mbind outcome_bind]. exists c3, true. split; [done|].
      pose proof (updates_trans _ _ _ _ _ _ _ _ U12 U3) as U. unfold moved in U. simpl in U.
      rewrite union_empty_r_L in U. rewrite (proj2 (Z.ltb_ge _ 0)) in U by lia.
      by replace (cell_pos x - cell_shift x + cell_shift x) with (cell_pos x) in U by lia. }
  destruct H3 as (c3 & b3 & E3 & U3). rewrite E3. cbn [mbind outcome_bind].
  pose proof (updates_lookup _ _ _ _ _ _ Hi U3) as Hi3.
  destruct (ext_set_ok c3 i _ (cell_ext x) (proj1 U3) Hi3) as (c4 & E4 & U4).
  exists c4, (kc_has_shift c3). split; [done|]. exact (updates_trans _ _ _ _ _ _ _ _ U3 U4).
Qed.

Lemma cp_loop_ok c0 c src dst n : cells_ok c0 -> cells_ok c -> Cells.size c0 = n ->
  kc_cells c = replicate n empty_cell -> 0 <= src < MAX_SEQ -> 0 <= dst < MAX_SEQ ->
  (forall x, x ∈ kc_cells c0 -> src ∈ cell_seq x -> 0 <= cell_pos x /\ shift_known x) ->
  exists c', foldM (Kv.cp_cell c0 src dst) c (seq 0 n) = Ret c' /\ cells_ok c'
    /\ kc_cells c' = map (copy_cell src dst) (kc_cells c0).
Proof.
  intros Hok0 Hok Hsz Hblank Hsrc Hdst Hshift. set (l := kc_cells c0) in *.
  assert (Hl : length l = n) by done.
  assert (H : forall m, (m <= n)%nat -> exists c', foldM (Kv.cp_cell c0 src dst) c (seq 0 m) = Ret c'
    /\ cells_ok c' /\ kc_cells c' = map (copy_cell src dst) (take m l) ++ replicate (n - m) empty_cell).
  { induction m as [|m IH]; intros Hm.
    { exists c. split_and!; [done|done|]. simpl. by rewrite Nat.sub_0_r. }
    destruct (IH ltac:(lia)) as (c' & E & Hok' & Hcs).
    destruct (lookup_lt_is_Some_2 l m) as [x Hx]; [lia|].
    assert (Hlen : length (map (copy_cell src dst) (take m l)) = m) by (rewrite length_map, length_take; lia).
    replace (n - m)%nat with (S (n - S m)) in Hcs by lia. simpl in Hcs.
    destruct (cp_cell_ok c0 c' m x src dst) as (c2 & b & E2 & U2); try done.
    { rewrite Hcs, lookup_app_r, Hlen, Nat.sub_diag by lia. done. }
    { intros Hin. apply Hshift; [by eapply list_elem_of_lookup_2|done]. }
    exists c2. rewrite seq_S, foldM_app, E. cbn [mbind outcome_bind foldM Nat.add]. rewrite E2.
    cbn [mbind outcome_bind]. destruct U2 as (Hok2 & Hcs2 & _). split_and!; [done|done|].
    rewrite Hcs2, Hcs, insert_app_r_alt, Hlen, Nat.sub_diag by lia.
    rewrite (take_S_r l m x Hx), map_app, <- app_assoc. done. }
  destruct (H n (le_n _)) as (c' & E & Hok' & Hcs). exists c'. split_and!; [done|done|].
  by rewrite Hcs, Nat.sub_diag, take_ge, app_nil_r by lia.
Qed.

(** The range of a copy between streams covers the cache. *)
Definition full_range (n : nat) (p0 p1 : Z) : Prop :=
  ~ (0 < p0 /\ p0 + 1 < Z.of_nat n) /\ ~ (0 < p1 /\ p1 + 1 < Z.of_nat n).

(** Every pending shift of [src] is consistent. *)
Definition shifts_known (k : llama_kv_cache) (src : Z) : Prop :=
  forall st c x, kv_cells k !! st = Some c -> x ∈ kc_cells c -> src ∈ cell_seq x -> shift_known x.

Lemma seq_cp_cross n k src dst p0 p1 : kv_ok n k -> Kv.seq_known k src = true ->
  Kv.seq_known k dst = true -> home k src <> home k dst -> full_range n p0 p1 -> shifts_known k src ->
  exists k', Kv.seq_cp k src dst p0 p1 = Ret k' /\ kv_ok n k' /\ same_shape k k'
    /\ forall s i p, at_pos k' s i p
         <-> (at_pos k s i p /\ home k s <> home k dst) \/ (s = dst /\ at_pos k src i p).
Proof.
  intros Hok Hs Hd Hhomes [Hf0 Hf1] Hshift.
  pose proof (seq_known_range n k src Hok Hs) as Hrs. pose proof (seq_known_range n k dst Hok Hd) as Hrd.
  destruct (seq_stream n k src Hok Hs) as (s0 & c0 & h0 & E0 & Hh0 & Hc0 & Hd0).
  destruct (seq_stream n k dst Hok Hd) as (s1 & c1 & h1 & E1 & Hh1 & Hc1 & Hd1).
  assert (Hne : s0 <> s1) by congruence.
  destruct (stream_sound n k s0 c0 Hok Hc0) as (Hok0 & Hsz0 & Hsound0).
  destruct (stream_sound n k s1 c1 Hok Hc1) as (Hok1 & Hsz1 & _).
  assert (Hsize : Kv.get_size k = Ret n).
  { unfold Kv.get_size. destruct (lookup_lt_is_Some_2 (kv_seq_to_stream k) 0) as [st Hst].
    { unfold Kv.seq_known in Hs. bool_hyps. lia. }
    rewrite (proj2 (at_Ret _ _ _) Hst). cbn [mbind outcome_bind].
    destruct (lookup_lt_is_Some_2 (kv_cells k) st) as [c Hc].
    { rewrite (ok_cells n k Hok). by eapply ok_map. }
    rewrite (proj2 (at_Ret _ _ _) Hc). cbn [mbind outcome_bind].
    by destruct (stream_sound n k st c Hok Hc) as (_ & -> & _). }
  unfold Kv.seq_cp. rewrite Hs, Hd. cbn [c_assert mbind outcome_bind]. rewrite E0, E1.
  cbn [mbind outcome_bind]. rewrite (proj2 (Nat.eqb_neq s0 s1) Hne), Hsize. cbn [mbind outcome_bind].
  assert (Efull : negb ((0 <? p0) && (p0 + 1 <? Z.of_nat n)) && negb ((0 <? p1) && (p1 + 1 <? Z.of_nat n)) = true).
  { apply andb_true_iff; split; apply negb_true_iff, andb_false_iff;
      [destruct (Z.ltb_spec 0 p0), (Z.ltb_spec (p0 + 1) (Z.of_nat n))
      |destruct (Z.ltb_spec 0 p1), (Z.ltb_spec (p1 + 1) (Z.of_nat n))]; auto; lia. }
  rewrite Efull. cbn [c_assert mbind outcome_bind]. unfold push_copy. simpl (kv_cells _). simpl (kv_heads _).
  rewrite (proj2 (at_Ret _ _ _) Hc0), (proj2 (at_Ret _ _ _) Hc1). cbn [mbind outcome_bind].
  destruct (cp_loop_ok c0 (Cells.reset c1) src dst n) as (c' & E & Hok' & Hcs); try done.
  { apply cells_reset_ok. by destruct Hok1 as (_ & _ & ? & _). }
  { simpl. rewrite <- Hsz1. unfold Cells.size. clear. induction (kc_cells c1) as [|x l IH]; [done|].
    simpl. by rewrite IH. }
  { intros x Hx Hin. rewrite Forall_forall in Hsound0. destruct (Hsound0 x Hx) as [[_ Hp] _]. split.
    - destruct Hp as [(_ & He & _)|?]; [set_solver|done].
    - by apply (Hshift s0 c0). }
  rewrite Hsz0, E. cbn [mbind outcome_bind].
  set (k1 := mk_kv _ _ _ _ _ _ _ _ _ (kv_sc_info k ++ [(s0, s1)])).
  assert (Hk1 : kv_ok n k1) by (destruct Hok; by constructor).
  unfold set_cells at 1, set_ at 1. simpl (kv_cells k1).
  rewrite decide_True by (by eapply lookup_lt_Some). cbn [mbind outcome_bind].
  simpl (kv_heads (set_streams _ _ _)). rewrite (proj2 (at_Ret _ _ _) Hd0). cbn [mbind outcome_bind].
  unfold set_head, set_. simpl (kv_heads (set_streams _ _ _)).
  rewrite decide_True by (by eapply lookup_lt_Some). cbn [mbind outcome_bind].
  change (set_streams (set_streams k1 (kv_heads k) (<[s1:=c']> (kv_cells k))) (<[s1:=h0]> (kv_heads k))
    (kv_cells (set_streams k1 (kv_heads k) (<[s1:=c']> (kv_cells k))))) with (replaced k1 s1 c' h0).
  exists (replaced k1 s1 c' h0). split; [reflexivity|].
  assert (Hsz' : Cells.size c' = n) by (unfold Cells.size in *; by rewrite Hcs, length_map).
  split_and!; [|by split_and!|].
  - apply replaced_ok; [done| |by eapply (ok_head n k Hok s0)]. split_and!; [done|done|].
    rewrite Hcs. apply Forall_forall. intros y (x & -> & Hx)%list_elem_of_fmap.
    unfold copy_cell. case_bool_decide; [|apply empty_home]. split; simpl; [set_solver|].
    by intros s ->%elem_of_singleton.
  - intros s i p. unfold at_pos. split.
    + intros (st & d & x & Hdd & Hx & Hin & Hp).
      rewrite lookup_replaced in Hdd by (by eapply lookup_lt_Some). case_decide as Hst.
      * injection Hdd as <-. rewrite Hcs, list_lookup_fmap in Hx.
        destruct (kc_cells c0 !! i) as [y|] eqn:Hy; [|done]. injection Hx as <-.
        unfold copy_cell in *. case_bool_decide; [|simpl in Hin; set_solver].
        right. simpl in *. split; [set_solver|]. by exists s0, c0, y.
      * left. split; [by exists st, d, x|].
        destruct (stream_sound n k st d Hok Hdd) as (_ & _ & Hs').
        pose proof (Forall_lookup_1 _ _ _ _ Hs' Hx) as [_ [_ Hh]]. rewrite (Hh s Hin). congruence.
    + intros [[(st & d & x & Hdd & Hx & Hin & Hp) Hn]|(-> & (st & d & x & Hdd & Hx & Hin & Hp))].
      * exists st, d, x. rewrite lookup_replaced by (by eapply lookup_lt_Some).
        destruct (stream_sound n k st d Hok Hdd) as (_ & _ & Hs').
        pose proof (Forall_lookup_1 _ _ _ _ Hs' Hx) as [_ [_ Hh]].
        rewrite decide_False; [done|]. intros ->. apply Hn. by rewrite (Hh s Hin).
      * destruct (stream_sound n k st d Hok Hdd) as (_ & _ & Hs').
        pose proof (Forall_lookup_1 _ _ _ _ Hs' Hx) as [_ [_ Hh]].
        assert (st = s0) as -> by (specialize (Hh src Hin); congruence).
        assert (d = c0) as -> by congruence.
        exists s1, c', (copy_cell src dst x). rewrite lookup_replaced by (by eapply lookup_lt_Some).
        rewrite decide_True by done. unfold copy_cell.
        split_and!; [done|by rewrite Hcs, list_lookup_fmap, Hx| |]; rewrite bool_decide_eq_true_2 by done;
          [simpl; set_solver|done].
Qed.
