(* ===== verification/KvSlot.v ===== *)
(** * Finding cells for a ubatch.

    The search of [find_slot] walks once around the cells of a stream, starting
    at the head.  For single cells it therefore finds the first usable ones in
    the rotated order of the cells; for contiguous slots it finds a window of
    usable cells whenever there is one.  Both answer within [search_fuel]. *)

From S2P Require Import Prelude KvCells KvCellsFacts Batch KvCache KvCacheFacts.
From Stdlib Require Import Lia.

(** ** The search itself *)

Section Search.
Context (f : nat -> bool) (usable : nat -> outcome bool) (size n : nat).
Hypothesis Husable : forall i, (i < size)%nat -> usable i = Ret (f i).
Hypothesis Hn : (0 < n <= size)%nat.

(** The first [n] of the cells found, if there are that many. *)
Definition first_n (l : list nat) : option (list nat) :=
  if (n <=? length l)%nat then Some (take n l) else None.

Definition free (from len : nat) : list nat := List.filter f (seq from len).

Lemma free_S from len : free from (S len) = if f from then from :: free (S from) len else free (S from) len.
Proof. done. Qed.

Lemma first_n_exact l l' : length l = n -> first_n (l ++ l') = Some l.
Proof.
  intros Hl. unfold first_n. rewrite length_app, (proj2 (Nat.leb_le _ _)) by lia.
  by rewrite take_app_le, take_ge by lia.
Qed.

Lemma first_n_all l : length l = n -> first_n l = Some l.
Proof. intros Hl. rewrite <- (app_nil_r l) at 1. by apply first_n_exact. Qed.

Lemma first_n_few l : (length l < n)%nat -> first_n l = None.
Proof. intros Hl. unfold first_n. by rewrite (proj2 (Nat.leb_gt _ _)). Qed.

Lemma length_snoc {A} (l : list A) x : length (l ++ [x]) = S (length l).
Proof. rewrite length_app. simpl. lia. Qed.

(** One round of the search for single cells. *)
Lemma search_round fuel h t idxs : (h < size)%nat -> (length idxs < n)%nat ->
  Kv.search (S fuel) usable size false n h t idxs =
    let idxs' := if f h then idxs ++ [h] else idxs in
    if (length idxs' =? n)%nat then Ret (Some idxs')
    else if (size <=? S t)%nat then Ret None
    else Kv.search fuel usable size false n (S h) (S t) idxs'.
Proof.
  intros Hh Hl. cbn [Kv.search]. rewrite (proj2 (Nat.ltb_ge _ _)) by lia.
  cbn [Kv.test_cells]. rewrite Husable by done. cbn [mbind outcome_bind].
  destruct (f h); reflexivity.
Qed.

(** The second part of the walk, over the cells before the head. *)
Lemma search_low k : forall fuel h t idxs, (k < fuel)%nat -> (h + S k <= size)%nat ->
  (t + S k = size)%nat -> (length idxs < n)%nat ->
  Kv.search fuel usable size false n h t idxs = Ret (first_n (idxs ++ free h (S k))).
Proof.
  induction k as [|k IH]; intros [|fuel] h t idxs Hf Hh Ht Hl; try lia;
    rewrite search_round, free_S by lia; cbv zeta; destruct (f h) eqn:E.
  1-2: unfold free; cbn [seq List.filter].
  all: rewrite ?length_snoc.
  - destruct (Nat.eqb_spec (S (length idxs)) n).
    + by rewrite first_n_all by (rewrite length_snoc; lia).
    + rewrite (proj2 (Nat.leb_le _ _)) by lia. by rewrite first_n_few by (rewrite length_snoc; lia).
  - rewrite (proj2 (Nat.eqb_neq _ _)), (proj2 (Nat.leb_le _ _)) by lia.
    by rewrite app_nil_r, first_n_few by lia.
  - rewrite (cons_middle h idxs (free (S h) (S k))), app_assoc. destruct (Nat.eqb_spec (S (length idxs)) n).
    + by rewrite first_n_exact by (rewrite length_snoc; lia).
    + rewrite (proj2 (Nat.leb_gt _ _)) by lia. apply IH; try lia. rewrite length_snoc. lia.
  - rewrite (proj2 (Nat.eqb_neq _ _)), (proj2 (Nat.leb_gt _ _)) by lia. by apply IH; try lia.
Qed.

(** The cells in the order of the walk. *)
Definition walk (h : nat) : list nat := seq h (size - h) ++ seq 0 h.

Lemma free_walk h : List.filter f (walk h) = free h (size - h) ++ free 0 h.
Proof. apply List.filter_app. Qed.

Lemma search_high k : forall fuel h0 h t idxs, (k + h0 + 1 < fuel)%nat -> (h + k = size)%nat ->
  (h0 <= h)%nat -> (h = h0 + t)%nat -> (t < size)%nat -> (length idxs < n)%nat ->
  Kv.search fuel usable size false n h t idxs = Ret (first_n (idxs ++ free h k ++ free 0 h0)).
Proof.
  induction k as [|k IH]; intros [|fuel] h0 h t idxs Hf Hh Hle Ht Hlt Hl; try lia.
  - unfold free at 1. simpl. rewrite (proj2 (Nat.ltb_lt _ _)) by lia.
    destruct h0 as [|h0]; [lia|]. apply search_low; lia.
  - rewrite search_round, free_S by lia. cbv zeta. destruct (f h) eqn:E.
    + rewrite <- app_comm_cons, (cons_middle h idxs (free (S h) k ++ free 0 h0)), app_assoc, length_snoc.
      destruct (Nat.eqb_spec (S (length idxs)) n).
      { by rewrite first_n_exact by (rewrite length_snoc; lia). }
      destruct (Nat.leb_spec size (S t)).
      * assert (h0 = 0%nat) as -> by lia. assert (k = 0%nat) as -> by lia. unfold free. simpl.
        by rewrite app_nil_r, first_n_few by (rewrite length_snoc; lia).
      * apply IH; try lia. rewrite length_snoc. lia.
    + rewrite (proj2 (Nat.eqb_neq _ _)) by lia. destruct (Nat.leb_spec size (S t)).
      * assert (h0 = 0%nat) as -> by lia. assert (k = 0%nat) as -> by lia. unfold free. simpl.
        by rewrite app_nil_r, first_n_few by lia.
      * apply IH; lia.
Qed.

(** Single cells: the first usable ones in the order of the walk. *)
Lemma search_cells h : (h <= size)%nat ->
  Kv.search (Kv.search_fuel size) usable size false n h 0 [] = Ret (first_n (List.filter f (walk h))).
Proof.
  intros Hh. rewrite free_walk. apply (search_high (size - h) _ h h 0 []); unfold Kv.search_fuel; simpl; lia.
Qed.

(** ** Contiguous slots *)

Definition window (p : nat) : Prop := (p + n <= size)%nat /\ forall i, (p <= i < p + n)%nat -> f i = true.

Lemma test_window m : forall h t idxs, (h + m <= size)%nat ->
  ((forall i, (h <= i < h + m)%nat -> f i = true) /\
     Kv.test_cells usable true m h t idxs = Ret ((h + m)%nat, (t + m)%nat, idxs ++ seq h m))
  \/ (exists j l, (j < m)%nat /\ f (h + j)%nat = false /\ (length l < length idxs + m)%nat /\
     Kv.test_cells usable true m h t idxs = Ret ((h + S j)%nat, (t + S j)%nat, l)).
Proof.
  induction m as [|m IH]; intros h t idxs Hm.
  - left. split; [lia|]. simpl. by rewrite !Nat.add_0_r, app_nil_r.
  - cbn [Kv.test_cells]. rewrite Husable by lia. cbn [mbind outcome_bind]. destruct (f h) eqn:E.
    + destruct (IH (S h) (S t) (idxs ++ [h])) as [[Hall ->]|(j & l & Hj & Hbad & Hl & ->)]; [lia| |].
      * left. split.
        { intros i Hi. destruct (decide (i = h)) as [->|]; [done|]. apply Hall. lia. }
        rewrite <- app_assoc. by replace (S h + m)%nat with (h + S m)%nat by lia;
          replace (S t + m)%nat with (t + S m)%nat by lia.
      * right. exists (S j), l. rewrite length_app in Hl. simpl in Hl.
        replace (h + S j)%nat with (S h + j)%nat by lia. split_and!; [lia|done|lia|].
        f_equal. f_equal. f_equal; lia.
    + right. exists 0%nat, idxs. rewrite Nat.add_0_r. split_and!; [lia|done|lia|].
      f_equal. f_equal. f_equal; lia.
Qed.

Definition contiguous_answer (r : option (list nat)) : Prop :=
  match r with
  | Some idxs => exists p, window p /\ idxs = seq p n
  | None => forall p, ~ window p
  end.

(** A round that does not wrap around. *)
Lemma window_round fuel h t : (h + n <= size)%nat ->
  (exists r, Kv.search (S fuel) usable size true n h t [] = Ret (Some r) /\ contiguous_answer (Some r))
  \/ exists j, (j < n)%nat /\ (forall p, (h <= p <= h + j)%nat -> ~ window p)
       /\ Kv.search (S fuel) usable size true n h t [] =
          if (size <=? t + S j)%nat then Ret None
          else Kv.search fuel usable size true n (h + S j) (t + S j) [].
Proof.
  intros Hh. cbn [Kv.search]. rewrite (proj2 (Nat.ltb_ge _ _)) by lia.
  destruct (test_window n h t [] Hh) as [[Hall ->]|(j & l & Hj & Hbad & Hl & ->)];
    cbn [mbind outcome_bind].
  - left. simpl app. rewrite length_seq, Nat.eqb_refl. eexists. split; [done|]. by exists h.
  - right. exists j. simpl in Hl. rewrite (proj2 (Nat.eqb_neq _ _)) by lia. split_and!; [done| |done].
    intros p Hp [Hps Hw]. rewrite (Hw (h + j)%nat) in Hbad; [done|lia].
Qed.

Lemma window_start : (forall p, ~ window p) -> forall fuel t, (size <= t)%nat -> (0 < fuel)%nat ->
  Kv.search fuel usable size true n 0 t [] = Ret None.
Proof.
  intros Hno [|fuel] t Ht Hf; [lia|].
  destruct (window_round fuel 0 t) as [(r & _ & p & Hp & _)|(j & Hj & _ & ->)]; [simpl; lia|by destruct (Hno p)|].
  by rewrite (proj2 (Nat.leb_le _ _)) by lia.
Qed.

Lemma window_low k : forall fuel h0 h t, (h + k = h0)%nat -> (h0 <= size)%nat -> (k + 1 < fuel)%nat ->
  (t + h0 = size + h)%nat -> (0 < k)%nat -> (forall p, (p < h)%nat \/ (h0 <= p)%nat -> ~ window p) ->
  exists r, Kv.search fuel usable size true n h t [] = Ret r /\ contiguous_answer r.
Proof.
  induction k as [k IH] using lt_wf_ind. intros [|fuel] h0 h t Hk Hs Hf Ht Hpos Hno; [lia|].
  destruct (decide (h + n <= size)%nat) as [Hh|Hh].
  - destruct (window_round fuel h t Hh) as [(r & -> & Hr)|(j & Hj & Hbad & ->)]; [by exists (Some r)|].
    assert (Hno' : forall p, (p < h + S j)%nat \/ (h0 <= p)%nat -> ~ window p).
    { intros p [Hp|Hp]; [|apply Hno; lia]. destruct (decide (p < h)%nat); [apply Hno; lia|apply Hbad; lia]. }
    destruct (Nat.leb_spec size (t + S j)).
    + exists None. split; [done|]. intros p. apply Hno'. lia.
    + apply (IH (k - S j)%nat ltac:(lia) _ h0); try lia. intros p Hp. apply Hno'. lia.
  - cbn [Kv.search]. rewrite (proj2 (Nat.ltb_lt _ _)) by lia.
    assert (Hall : forall p, ~ window p).
    { intros p Hp. destruct (decide (p < h)%nat); [by apply (Hno p); [lia|]|]. destruct Hp. lia. }
    exists None. split; [|done]. apply window_start; [done|lia|lia].
Qed.

Lemma window_high k : forall fuel h0 h t, (h + k = size)%nat -> (h0 <= h)%nat ->
  (k + h0 + 2 < fuel)%nat -> (h = h0 + t)%nat -> (t < size)%nat ->
  (forall p, (h0 <= p < h)%nat -> ~ window p) ->
  exists r, Kv.search fuel usable size true n h t [] = Ret r /\ contiguous_answer r.
Proof.
  induction k as [k IH] using lt_wf_ind. intros [|fuel] h0 h t Hk Hle Hf Ht Hlt Hno; [lia|].
  destruct (decide (h + n <= size)%nat) as [Hh|Hh].
  - destruct (window_round fuel h t Hh) as [(r & -> & Hr)|(j & Hj & Hbad & ->)]; [by exists (Some r)|].
    assert (Hno' : forall p, (h0 <= p < h + S j)%nat -> ~ window p).
    { intros p Hp. destruct (decide (p < h)%nat); [apply Hno; lia|apply Hbad; lia]. }
    destruct (Nat.leb_spec size (t + S j)).
    + exists None. split; [done|]. intros p Hp. destruct (decide (p < h + S j)%nat); [apply (Hno' p); [lia|done]|].
      destruct Hp. lia.
    + apply (IH (k - S j)%nat ltac:(lia) _ h0); try lia. exact Hno'.
  - cbn [Kv.search]. rewrite (proj2 (Nat.ltb_lt _ _)) by lia.
    assert (Hno' : forall p, (h0 <= p)%nat -> ~ window p).
    { intros p Hp Hw. destruct (decide (p < h)%nat); [apply (Hno p); [lia|done]|]. destruct Hw. lia. }
    destruct h0 as [|h0].
    + exists None. split; [|intros p; apply Hno'; lia]. apply window_start; [intros p; apply Hno'; lia|lia|lia].
    + apply (window_low (S h0) _ (S h0)); try lia. intros p Hp. apply Hno'. lia.
Qed.

(** A contiguous slot is found exactly when there is a window of usable cells. *)
Lemma search_window h : (h <= size)%nat ->
  exists r, Kv.search (Kv.search_fuel size) usable size true n h 0 [] = Ret r /\ contiguous_answer r.
Proof.
  intros Hh. apply (window_high (size - h) _ h); unfold Kv.search_fuel; lia.
Qed.

End Search.

(** ** The cells a ubatch may take *)

(** The positions outside of each other's attention window; the size of a window is
    read as an [int32_t]. *)
Definition out_of_window (n_swa : Z) (t : llama_swa_type) (p0 p1 : Z) : Prop :=
  match t with
  | LLAMA_SWA_TYPE_NONE => False
  | LLAMA_SWA_TYPE_STANDARD => i32 n_swa <= p1 - p0
  | LLAMA_SWA_TYPE_CHUNKED => p0 / n_swa < p1 / n_swa
  | LLAMA_SWA_TYPE_SYMMETRIC => Z.quot (i32 n_swa) 2 < Z.abs (p1 - p0)
  end.

Definition swa_ok (n_swa : Z) (t : llama_swa_type) : Prop :=
  0 <= n_swa /\ (t = LLAMA_SWA_TYPE_CHUNKED -> 0 < n_swa).

Lemma is_masked_swa_ok n_swa t p0 p1 : swa_ok n_swa t -> 0 <= p0 -> 0 <= p1 ->
  exists b, Kv.is_masked_swa n_swa t p0 p1 = Ret b /\ (b = true <-> out_of_window n_swa t p0 p1).
Proof.
  intros [Hn Hc] H0 H1. unfold Kv.is_masked_swa, out_of_window.
  rewrite (proj2 (Z.leb_le 0 p0) H0), (proj2 (Z.leb_le 0 p1) H1). cbn [andb c_assert mbind outcome_bind].
  destruct t.
  - by exists false.
  - eexists. split; [done|]. by rewrite Z.leb_le.
  - specialize (Hc eq_refl). rewrite (proj2 (Z.eqb_neq n_swa 0)) by lia. eexists. split; [done|].
    rewrite Z.ltb_lt. split; intros H.
    + apply Z.div_lt_upper_bound; lia.
    + pose proof (Z.mul_succ_div_gt p0 n_swa). nia.
  - eexists. split; [done|]. rewrite orb_true_iff, !Z.ltb_lt. lia.
Qed.

(** "can we use this cell?" *)
Definition reusable (k : llama_kv_cache) (c : llama_kv_cells) (x : kv_cell) : Prop :=
  cell_pos x = -1 \/
  exists s m, cell_seq x = {[ s ]} /\ extreme c Z.le s m
    /\ out_of_window (kv_n_swa k) (kv_swa_type k) (cell_pos x) (m + 1).

Definition usable (k : llama_kv_cache) (c : llama_kv_cells) (i : nat) : bool :=
  match Kv.can_use (kv_n_swa k) (kv_swa_type k) c i with Ret b => b | _ => false end.

Lemma extreme_fun c s m m' : extreme c Z.le s m -> extreme c Z.le s m' -> m = m'.
Proof.
  intros [[-> H]|[H Hm]] [[-> H']|[H' Hm']]; [done|by destruct (H m')|by destruct (H' m)|].
  apply Z.le_antisymm; auto.
Qed.

Lemma can_use_ok k c i x : cells_ok c -> swa_ok (kv_n_swa k) (kv_swa_type k) -> kc_cells c !! i = Some x ->
  Kv.can_use (kv_n_swa k) (kv_swa_type k) c i = Ret (usable k c i)
  /\ (usable k c i = true <-> reusable k c x).
Proof.
  intros Hok Hswa Hi.
  assert (H : exists b, Kv.can_use (kv_n_swa k) (kv_swa_type k) c i = Ret b /\ (b = true <-> reusable k c x));
    [|destruct H as (b & E & Hb); unfold usable; by rewrite E].
  unfold Kv.can_use. rewrite (is_empty_ok c Hok i x Hi). cbn [mbind outcome_bind].
  destruct (Z.eqb_spec (cell_pos x) (-1)) as [Hp|Hp]; [exists true; split; [done|]; by split; [left|]|].
  rewrite (seq_count_ok c i x Hi Hp). cbn [mbind outcome_bind].
  pose proof (cell_ok_at _ _ _ Hok Hi) as Hcx. pose proof (used_pos x Hcx Hp) as Hp0.
  destruct (Nat.eqb_spec (size (cell_seq x)) 1) as [H1|H1].
  - unfold Cells.pos_get. rewrite (used_cell_Ret _ _ _ Hi Hp). cbn [mbind outcome_bind].
    destruct (seq_get_ok c Hok i x Hi H1) as (s & -> & Hs & Hr). cbn [mbind outcome_bind].
    destruct (seq_pos_max_ok c Hok s Hr) as (m & -> & Hm). cbn [mbind outcome_bind].
    assert (Hh : holds c s (cell_pos x)) by (exists i, x; rewrite Hs; set_solver).
    assert (Hm0 : cell_pos x <= m) by (destruct Hm as [[_ Hno]|[_ Hle]]; [by destruct (Hno (cell_pos x))|auto]).
    destruct (is_masked_swa_ok (kv_n_swa k) (kv_swa_type k) (cell_pos x) (m + 1)) as (b & -> & Hb); [done|lia|lia|].
    exists b. split; [done|]. rewrite Hb. split.
    + intros Ho. right. by exists s, m.
    + intros [|(s' & m' & Hs' & Hm' & Ho)]; [done|]. rewrite Hs in Hs'. apply singleton_inj in Hs' as <-.
      by rewrite (extreme_fun c s m m').
  - exists false. split; [done|]. split; [done|]. intros [|(s & m & Hs & _)]; [done|].
    rewrite Hs, size_singleton in H1. done.
Qed.

(** ** Slots of a stream *)

Definition usable_cells (k : llama_kv_cache) (c : llama_kv_cells) : list nat :=
  List.filter (usable k c) (seq 0 (Cells.size c)).

(** Stream [st] has room for [n] tokens. *)
Definition has_room (k : llama_kv_cache) (cont : bool) (st n : nat) : Prop :=
  exists c, kv_cells k !! st = Some c /\
    if cont then exists p, (p + n <= Cells.size c)%nat /\ forall i, (p <= i < p + n)%nat -> usable k c i = true
    else (n <= length (usable_cells k c))%nat.

(** The cells [l] of stream [st] can take [n] tokens. *)
Definition slot_ok (k : llama_kv_cache) (cont : bool) (n st : nat) (l : list nat) : Prop :=
  length l = n /\ NoDup l /\
  (exists c, kv_cells k !! st = Some c /\
    Forall (fun i => exists x, kc_cells c !! i = Some x /\ reusable k c x) l) /\
  (cont = true -> exists p, l = seq p n).

Lemma walk_perm size h : (h <= size)%nat -> walk size h ≡ₚ seq 0 size.
Proof.
  intros Hh. unfold walk. replace size with (h + (size - h))%nat at 2 by lia.
  rewrite seq_app. apply Permutation_app_comm.
Qed.

Lemma filter_perm_length {A} (f : A -> bool) l l' : l ≡ₚ l' -> length (List.filter f l) = length (List.filter f l').
Proof.
  induction 1 as [|x l l' _ IH|x y l|l1 l2 l3 _ IH1 _ IH2]; simpl; [done| | |congruence].
  - destruct (f x); simpl; congruence.
  - destruct (f x), (f y); done.
Qed.

Lemma NoDup_filter {A} (f : A -> bool) l : NoDup l -> NoDup (List.filter f l).
Proof. rewrite !NoDup_ListNoDup. apply List.NoDup_filter. Qed.

(** The search in one stream. *)
Lemma stream_search n k st c cont m h : kv_ok n k -> swa_ok (kv_n_swa k) (kv_swa_type k) ->
  kv_cells k !! st = Some c -> (0 < m <= Cells.size c)%nat -> (h <= Cells.size c)%nat ->
  exists r, Kv.search (Kv.search_fuel (Cells.size c)) (Kv.can_use (kv_n_swa k) (kv_swa_type k) c)
              (Cells.size c) cont m h 0 [] = Ret r
    /\ match r with Some l => slot_ok k cont m st l | None => ~ has_room k cont st m end.
Proof.
  intros Hok Hswa Hc Hm Hh. destruct (stream_sound n k st c Hok Hc) as (Hcok & _ & _).
  assert (Hu : forall i, (i < Cells.size c)%nat -> exists x, kc_cells c !! i = Some x
    /\ Kv.can_use (kv_n_swa k) (kv_swa_type k) c i = Ret (usable k c i)
    /\ (usable k c i = true <-> reusable k c x)).
  { intros i Hi. destruct (lookup_lt_is_Some_2 (kc_cells c) i Hi) as [x Hx]. exists x.
    split; [done|]. by apply can_use_ok. }
  assert (Hu' : forall i, (i < Cells.size c)%nat ->
    Kv.can_use (kv_n_swa k) (kv_swa_type k) c i = Ret (usable k c i)) by (intros i Hi; by destruct (Hu i Hi) as (? & _ & ? & _)).
  assert (Hgood : forall l, (forall i, i ∈ l -> (i < Cells.size c)%nat /\ usable k c i = true) ->
    exists c, kv_cells k !! st = Some c /\ Forall (fun i => exists x, kc_cells c !! i = Some x /\ reusable k c x) l).
  { intros l Hl. exists c. split; [done|]. apply Forall_forall. intros i Hi.
    destruct (Hl i Hi) as [Hlt Ht]. destruct (Hu i Hlt) as (x & Hx & _ & H). exists x. tauto. }
  destruct cont.
  - destruct (search_window (usable k c) _ (Cells.size c) m Hu' Hm h Hh) as (r & -> & Hr). exists r.
    split; [done|]. destruct r as [l|].
    + destruct Hr as (p & [Hp Hw] & ->). split_and!; [apply length_seq|apply NoDup_seq| |by exists p].
      apply Hgood. intros i Hi%elem_of_seq. split; [lia|by apply Hw].
    + intros (c' & Hc' & p & Hp & Hw). assert (c' = c) as -> by congruence. by apply (Hr p).
  - rewrite (search_cells (usable k c) _ (Cells.size c) m Hu' Hm h Hh). eexists. split; [done|].
    unfold first_n. destruct (Nat.leb_spec m (length (List.filter (usable k c) (walk (Cells.size c) h)))) as [Hl|Hl].
    + split_and!; [rewrite length_take; lia| | |done].
      * eapply sublist_NoDup; [|apply sublist_take]. apply NoDup_filter. rewrite (walk_perm _ h) by done. apply NoDup_seq.
      * apply Hgood. intros i Hi%elem_of_take. destruct Hi as (j & Hj & _).
        apply list_elem_of_lookup_2, list_elem_of_In, List.filter_In in Hj as [Hj Ht]. split; [|done].
        apply list_elem_of_In in Hj. rewrite (walk_perm _ h) in Hj by done. apply elem_of_seq in Hj. lia.
    + intros (c' & Hc' & Hr). assert (c' = c) as -> by congruence. unfold usable_cells in Hr.
      rewrite (filter_perm_length _ _ _ (walk_perm _ h Hh)) in Hl. lia.
Qed.

(** ** Slots for a ubatch *)

Section FindSlot.
Context {E : Type}.
Notation llama_ubatch := (@llama_ubatch E).

(** A ubatch for this cache: [m] tokens for each of the streams [strms]. *)
Record ubatch_fits (k : llama_kv_cache) (u : llama_ubatch) (m : nat) (strms : list nat) : Prop := {
  fit_tokens : u_n_tokens u = (length strms * m)%nat;
  fit_some : (0 < m)%nat;
  fit_streams : (0 < length strms)%nat;
  fit_unified : kv_n_stream k = 1%nat -> length strms = 1%nat;
  fit_unq : (1 < kv_n_stream k)%nat -> u_n_seqs_unq u = length strms;
  fit_seq : forall s st, strms !! s = Some st -> exists id,
    u_seq_id_unq u !! s = Some id /\ Kv.seq_known k id = true /\ home k id = Some st /\
    ((1 < kv_n_stream k)%nat -> u_n_seq_id u !! (s * m)%nat = Some 1
       /\ exists ids, u_seq_id u !! (s * m)%nat = Some ids /\ ids !! 0%nat = Some id);
}.

Definition slots_found (k : llama_kv_cache) (cont : bool) (m : nat) (strms : list nat) (si : slot_info) : Prop :=
  si_strm si = strms /\ Forall2 (slot_ok k cont m) strms (si_idxs si)
  /\ forall st, st ∈ strms -> (si_s0 si <= st <= si_s1 si)%nat.

Lemma stream_slot n k u cont m strms s st res : kv_ok n k -> swa_ok (kv_n_swa k) (kv_swa_type k) ->
  ubatch_fits k u m strms -> strms !! s = Some st -> slots_found k cont m (take s strms) res ->
  exists r, Kv.find_stream_slot k u cont m res s = Ret r /\
    match r with
    | Some res' => slots_found k cont m (take (S s) strms) res'
    | None => ~ has_room k cont st m
    end.
Proof.
  intros Hok Hswa Hfit Hst (Hstrm & Hslots & Hrange).
  destruct (fit_seq _ _ _ _ Hfit s st Hst) as (id & Hid & Hknown & Hhome & Hmulti).
  destruct (seq_stream n k id Hok Hknown) as (st' & c & h & Est & Hhome' & Hc & Hh).
  assert (st' = st) as -> by congruence.
  destruct (stream_sound n k st c Hok Hc) as (_ & Hsz & _). pose proof (ok_head n k Hok _ _ Hh) as Hhn.
  unfold Kv.find_stream_slot. rewrite (proj2 (at_Ret _ _ _) Hid). cbn [mbind outcome_bind].
  assert (Hpre : (if (1 <? kv_n_stream k)%nat then
     n0 ← at_ (u_n_seq_id u) (s * m);
     c_assert (n0 =? 1) "ubatch.n_seq_id[s*n_tokens] == 1";;
     ids ← at_ (u_seq_id u) (s * m); id' ← at_ ids 0;
     c_assert (id' =? id) "ubatch.seq_id[s*n_tokens][0] == seq_id" else Ret ()) = Ret ()).
  { destruct (Nat.ltb_spec 1 (kv_n_stream k)) as [H1|H1]; [|done].
    destruct (Hmulti H1) as (Hn1 & ids & Hids & Hi0).
    rewrite (proj2 (at_Ret _ _ _) Hn1). cbn [mbind outcome_bind c_assert].
    rewrite (proj2 (at_Ret _ _ _) Hids). cbn [mbind outcome_bind Z.eqb c_assert Pos.eqb].
    rewrite (proj2 (at_Ret _ _ _) Hi0). cbn [mbind outcome_bind]. by rewrite Z.eqb_refl. }
  assert (Hid0 : 0 <= id) by by apply (seq_known_range n k id).
  apply at_Ret in Est. rewrite Hpre, (at_z_Ret _ _ _ Hid0 Est). clear Hpre. cbn [mbind outcome_bind].
  rewrite (proj2 (at_Ret _ _ _) Hc), (proj2 (at_Ret _ _ _) Hh). cbn [mbind outcome_bind].
  pose proof (fit_some _ _ _ _ Hfit) as Hm.
  destruct (Nat.ltb_spec (Cells.size c) m) as [Hlt|Hge].
  { exists None. split; [done|]. intros (c' & Hc' & Hr). assert (c' = c) as -> by congruence.
    destruct cont; [destruct Hr as (p & Hp & _); lia|].
    pose proof (List.filter_length_le (usable k c) (seq 0 (Cells.size c))) as Hle.
    rewrite length_seq in Hle. unfold usable_cells in Hr. lia. }
  set (head := if (Cells.get_used c + 2 * m <? h)%nat then 0%nat else h).
  assert (Hhead : (head <= Cells.size c)%nat) by (unfold head; case_match; lia).
  destruct (stream_search n k st c cont m head) as (r & -> & Hr); [done..|lia|done|].
  cbn [mbind outcome_bind]. destruct r as [l|]; [|by exists None].
  pose proof Hr as (Hl & _). rewrite (proj2 (Nat.ltb_ge _ _)) by lia.
  eexists. split; [done|]. rewrite (take_S_r _ _ _ Hst). split_and!; simpl.
  - by rewrite Hstrm.
  - apply Forall2_app; [done|]. by constructor.
  - intros st' Hin. apply elem_of_app in Hin as [Hin|Hin%list_elem_of_singleton].
    + specialize (Hrange st' Hin). lia.
    + lia.
Qed.

Lemma find_slot_ok n k u cont m strms : kv_ok n k -> swa_ok (kv_n_swa k) (kv_swa_type k) ->
  ubatch_fits k u m strms ->
  exists r, Kv.find_slot k u cont = Ret r /\
    match r with
    | Some si => slots_found k cont m strms si
    | None => exists st, st ∈ strms /\ ~ has_room k cont st m
    end.
Proof.
  intros Hok Hswa Hfit. pose proof (ok_streams n k Hok) as Hpos.
  pose proof (fit_some _ _ _ _ Hfit) as Hm. pose proof (fit_streams _ _ _ _ Hfit) as Hs.
  pose proof (fit_tokens _ _ _ _ Hfit) as Ht. unfold Kv.find_slot.
  assert (Hpre : (if (1 <? kv_n_stream k)%nat then
       if (u_n_seqs_unq u =? 0)%nat then Undef
       else c_assert (u_n_tokens u mod u_n_seqs_unq u =? 0)%nat "n_tokens % ubatch.n_seqs_unq == 0";;
            Ret (u_n_seqs_unq u, (u_n_tokens u / u_n_seqs_unq u)%nat)
     else Ret (1%nat, u_n_tokens u)) = Ret (length strms, m)).
  { destruct (Nat.ltb_spec 1 (kv_n_stream k)) as [H1|H1].
    - rewrite (fit_unq _ _ _ _ Hfit H1), (proj2 (Nat.eqb_neq _ _)), Ht by lia.
      rewrite Nat.mul_comm, Nat.Div0.mod_mul. simpl. by rewrite Nat.div_mul by lia.
    - rewrite Ht, (fit_unified _ _ _ _ Hfit) by lia. f_equal. f_equal. lia. }
  rewrite Hpre. cbn [mbind outcome_bind].
  set (step := fun (res : option slot_info) s => match res with None => Ret None
    | Some res => Kv.find_stream_slot k u cont m res s end).
  assert (H : forall j, (j <= length strms)%nat -> exists r,
    foldM step (Some (mk_slot (Z.to_nat MAX_SEQ) 0 [] [])) (seq 0 j) = Ret r /\
    match r with
    | Some si => slots_found k cont m (take j strms) si
    | None => exists st, st ∈ strms /\ ~ has_room k cont st m
    end).
  { induction j as [|j IH]; intros Hj.
    - eexists. split; [done|]. split_and!; [done|constructor|]. intros st Hst. by apply elem_of_nil in Hst.
    - destruct (IH ltac:(lia)) as (r & E1 & Hr). rewrite seq_S, foldM_app, E1.
      cbn [mbind outcome_bind foldM Nat.add]. unfold step at 1. destruct r as [si|]; [|by exists None].
      destruct (lookup_lt_is_Some_2 strms j) as [st Hst]; [lia|].
      destruct (stream_slot n k u cont m strms j st si) as (r & -> & Hr'); [done..|].
      cbn [mbind outcome_bind]. exists r. split; [done|]. destruct r; [done|].
      exists st. split; [by eapply list_elem_of_lookup_2|done]. }
  destruct (H (length strms) (le_n _)) as (r & E1 & Hr). rewrite E1. cbn [mbind outcome_bind].
  rewrite firstn_all in Hr. destruct r as [si|]; [|by exists None]. exists (Some si). split; [|done].
  destruct Hr as (_ & _ & Hr). destruct strms as [|st strms]; [simpl in *; lia|].
  specialize (Hr st ltac:(left)). by rewrite (proj2 (Nat.leb_le _ _)) by lia.
Qed.

End FindSlot.
