(* ===== verification/KvPlace.v ===== *)
(** * Placing a ubatch into the cells found for it.

    [apply_ubatch] writes the tokens one by one; a cell that still holds a token
    is cleared first and the last position its sequence loses that way is
    remembered, to purge everything up to it afterwards. *)

From S2P Require Import Prelude KvCells KvCellsFacts Batch KvCache KvCacheFacts KvCopy KvSlot.
From Stdlib Require Import Lia.

(** ** Cells of a cache *)

(** Cell [i] of stream [st]. *)
Definition cell_at (k : llama_kv_cache) (st i : nat) : option kv_cell :=
  c ← kv_cells k !! st; kc_cells c !! i.

Lemma cell_at_Some k st i x :
  cell_at k st i = Some x <-> exists c, kv_cells k !! st = Some c /\ kc_cells c !! i = Some x.
Proof. unfold cell_at. destruct (kv_cells k !! st); naive_solver. Qed.

Lemma at_pos_cell k s i p :
  at_pos k s i p <-> exists st x, cell_at k st i = Some x /\ s ∈ cell_seq x /\ cell_pos x = p.
Proof.
  unfold at_pos. setoid_rewrite cell_at_Some. naive_solver.
Qed.

Lemma cell_at_sound n k st i x : kv_ok n k -> cell_at k st i = Some x -> sound_cell k st x.
Proof.
  intros Hok (c & Hc & Hx)%cell_at_Some. destruct (stream_sound n k st c Hok Hc) as (_ & _ & Hs).
  by eapply Forall_lookup_1.
Qed.

Lemma at_pos_cell_home n k s i p st : kv_ok n k -> home k s = Some st ->
  at_pos k s i p <-> exists x, cell_at k st i = Some x /\ s ∈ cell_seq x /\ cell_pos x = p.
Proof.
  intros Hok Hh. rewrite at_pos_cell. split; [|naive_solver]. intros (st' & x & Hx & Hin & Hp).
  pose proof (cell_at_sound n k st' i x Hok Hx) as [_ [_ Hhome]]. specialize (Hhome s Hin).
  assert (st' = st) as -> by congruence. by exists x.
Qed.

(** Rewriting cell [i] of stream [st] to [y]. *)
Lemma rewrite_cell n k st c h i x y b c' : kv_ok n k -> kv_cells k !! st = Some c ->
  kv_heads k !! st = Some h -> kc_cells c !! i = Some x -> cell_home k st y -> updates c i y b c' ->
  set_cells k st c' = Ret (replaced k st c' h) /\ kv_ok n (replaced k st c' h)
  /\ (forall st' i', cell_at (replaced k st c' h) st' i'
        = if decide (st' = st /\ i' = i) then Some y else cell_at k st' i').
Proof.
  intros Hok Hc Hh Hi Hy (Hok' & Hcs & _). destruct (stream_sound n k st c Hok Hc) as (_ & Hsz & Hs).
  split; [by eapply set_cells_replaced|]. split.
  - apply replaced_ok; [done| |by eapply ok_head]. split; [done|]. unfold Cells.size in *.
    rewrite Hcs, length_insert. split; [done|]. apply Forall_insert; [|done].
    eapply Forall_impl; [exact Hs|]. by intros z [_ ?].
  - intros st' i'. unfold cell_at. rewrite lookup_replaced by (by eapply lookup_lt_Some).
    destruct (decide (st' = st)) as [->|Hne].
    + cbn [mbind option_bind]. rewrite Hc, Hcs. cbn [mbind option_bind].
      destruct (decide (i' = i)) as [->|Hne'].
      * rewrite decide_True by done. apply list_lookup_insert_eq. by eapply lookup_lt_Some.
      * rewrite decide_False by tauto. by apply list_lookup_insert_ne.
    + by rewrite decide_False by tauto.
Qed.

(** ** One token *)

(** The cell of a token with position [p], extension [e] and sequences [ids]. *)
Definition token_cell (p : Z) (e : llama_kv_cell_ext) (ids : list Z) : kv_cell :=
  mk_cell p e 0 (list_to_set ids).

Lemma add_seqs_ok c i x ids : cells_ok c -> kc_cells c !! i = Some x -> cell_pos x <> -1 ->
  NoDup ids -> (forall id, id ∈ ids -> 0 <= id < MAX_SEQ /\ id ∉ cell_seq x) ->
  exists c', foldM (fun c s => id ← at_ ids s; Cells.seq_add c i id) c (seq 0 (length ids)) = Ret c'
    /\ updates c i (with_seq x (list_to_set ids ∪ cell_seq x)) (kc_has_shift c) c'.
Proof.
  intros Hok Hi Hp Hnd Hids.
  assert (H : forall m, (m <= length ids)%nat -> exists c',
    foldM (fun c s => id ← at_ ids s; Cells.seq_add c i id) c (seq 0 m) = Ret c'
    /\ updates c i (with_seq x (list_to_set (take m ids) ∪ cell_seq x)) (kc_has_shift c) c').
  { induction m as [|m IH]; intros Hm.
    - exists c. split; [done|]. split; [done|]. simpl. rewrite union_empty_l_L, with_seq_same.
      by rewrite list_insert_id.
    - destruct (IH ltac:(lia)) as (c1 & E1 & U1).
      destruct (lookup_lt_is_Some_2 ids m) as [id Hid]; [lia|].
      destruct (Hids id ltac:(by eapply list_elem_of_lookup_2)) as [Hr Hn].
      pose proof (updates_lookup _ _ _ _ _ _ Hi U1) as Hi1.
      destruct (seq_add_ok c1 i _ id (proj1 U1) Hi1) as (c2 & E2 & U2); [done| |done|].
      { simpl. rewrite elem_of_union, elem_of_list_to_set. intros [Hin|?]; [|done].
        apply elem_of_take in Hin as (j & Hj & Hlt).
        pose proof (NoDup_lookup ids j m id Hnd Hj Hid). lia. }
      exists c2. rewrite seq_S, foldM_app, E1. cbn [mbind outcome_bind foldM Nat.add].
      rewrite (proj2 (at_Ret _ _ _) Hid). cbn [mbind outcome_bind]. rewrite E2. cbn [mbind outcome_bind].
      split; [done|]. pose proof (updates_trans _ _ _ _ _ _ _ _ U1 U2) as U.
      rewrite (take_S_r _ _ _ Hid), list_to_set_app_L. simpl in U |- *.
      replace (list_to_set (take m ids) ∪ ({[id]} ∪ ∅) ∪ cell_seq x)
        with ({[id]} ∪ (list_to_set (take m ids) ∪ cell_seq x)) by set_solver.
      destruct U as (? & ? & Hsh). split_and!; [done|done|]. rewrite Hsh. by destruct U1 as (_ & _ & ->). }
  destruct (H (length ids) (le_n _)) as (c' & E & U). exists c'. split; [done|]. by rewrite firstn_all in U.
Qed.

Section Tokens.
Context {E : Type}.
Notation llama_ubatch := (@llama_ubatch E).

(** Token [t] of the ubatch can be placed in stream [st]. *)
Record token_ok (k : llama_kv_cache) (u : llama_ubatch) (st t : nat) : Prop := {
  tok_pos : exists p, u_pos u !! t = Some p /\ 0 <= p;
  tok_seqs : exists ids, u_seq_id u !! t = Some ids /\ u_n_seq_id u !! t = Some (Z.of_nat (length ids))
    /\ ids <> [] /\ NoDup ids /\ forall id, id ∈ ids -> Kv.seq_known k id = true /\ home k id = Some st;
  tok_2d : (3 <= u_n_pos u)%nat -> is_Some (u_pos u !! (t + u_n_tokens u * 2)%nat)
    /\ is_Some (u_pos u !! (t + u_n_tokens u)%nat);
}.

Definition pos_of (u : llama_ubatch) (t : nat) : Z := u_pos u !!! t.
Definition ids_of (u : llama_ubatch) (t : nat) : list Z := u_seq_id u !!! t.

Definition ext_of (u : llama_ubatch) (t : nat) (old : llama_kv_cell_ext) : llama_kv_cell_ext :=
  if (3 <=? u_n_pos u)%nat then mk_ext (pos_of u (t + u_n_tokens u * 2)) (pos_of u (t + u_n_tokens u))
  else old.

Definition cleared (x : kv_cell) : kv_cell := if cell_pos x =? -1 then x else empty_cell.

(** What token [t] leaves in a cell that held [x]. *)
Definition new_cell (u : llama_ubatch) (t : nat) (x : kv_cell) : kv_cell :=
  token_cell (pos_of u t) (ext_of u t (cell_ext (cleared x))) (ids_of u t).

Lemma fill_cell_ok n k u st t c i x : kv_ok n k -> token_ok k u st t -> cells_ok c ->
  kc_cells c !! i = Some x -> cell_pos x = -1 ->
  exists c', Kv.fill_cell u t c i = Ret c'
    /\ updates c i (token_cell (pos_of u t) (ext_of u t (cell_ext x)) (ids_of u t)) (kc_has_shift c) c'.
Proof.
  intros Hk [(p & Hp & Hp0) (ids & Hids & Hcnt & _ & Hnd & Hknown) H2d] Hok Hi Hx.
  destruct (blank_ext x (cell_ok_at _ _ _ Hok Hi) Hx) as [Hseq Hsh].
  unfold Kv.fill_cell. rewrite (proj2 (at_Ret _ _ _) Hp). cbn [mbind outcome_bind].
  destruct (pos_set_ok c i x p Hok Hi Hx Hp0) as (c1 & -> & U1). cbn [mbind outcome_bind].
  pose proof (updates_lookup _ _ _ _ _ _ Hi U1) as Hi1.
  assert (H2 : exists c2, (if (3 <=? u_n_pos u)%nat then
         x ← at_ (u_pos u) (t + u_n_tokens u * 2); y ← at_ (u_pos u) (t + u_n_tokens u);
         Cells.ext_set c1 i (mk_ext x y) else Ret c1) = Ret c2
    /\ updates c i (mk_cell p (ext_of u t (cell_ext x)) 0 ∅) (kc_has_shift c) c2).
  { unfold ext_of. destruct (Nat.leb_spec 3 (u_n_pos u)) as [H3|H3].
    - destruct (H2d H3) as [[ex Hex] [ey Hey]]. rewrite (proj2 (at_Ret _ _ _) Hex). cbn [mbind outcome_bind].
      rewrite (proj2 (at_Ret _ _ _) Hey). cbn [mbind outcome_bind].
      destruct (ext_set_ok c1 i _ (mk_ext ex ey) (proj1 U1) Hi1) as (c2 & E2 & U2). exists c2. split; [done|].
      pose proof (updates_trans _ _ _ _ _ _ _ _ U1 U2) as U. destruct U1 as (_ & _ & Eh). rewrite Eh in U.
      unfold with_ext, with_pos in U. simpl in U. rewrite Hseq, Hsh in U.
      unfold pos_of. by rewrite (list_lookup_total_correct _ _ _ Hex), (list_lookup_total_correct _ _ _ Hey).
    - exists c1. split; [done|]. unfold with_pos in U1. by rewrite Hseq, Hsh in U1. }
  destruct H2 as (c2 & -> & U2). cbn [mbind outcome_bind].
  rewrite (proj2 (at_Ret _ _ _) Hcnt), (proj2 (at_Ret _ _ _) Hids). cbn [mbind outcome_bind].
  rewrite Nat2Z.id. pose proof (updates_lookup _ _ _ _ _ _ Hi U2) as Hi2.
  destruct (add_seqs_ok c2 i _ ids (proj1 U2) Hi2) as (c3 & E3 & U3); [simpl; lia|done| |].
  { intros id Hin. destruct (Hknown id Hin) as [Hs _]. split; [by eapply seq_known_range|set_solver]. }
  exists c3. split; [exact E3|]. pose proof (updates_trans _ _ _ _ _ _ _ _ U2 U3) as U.
  destruct U2 as (_ & _ & Eh). rewrite Eh in U. unfold with_seq in U. simpl in U.
  rewrite union_empty_r_L in U. unfold pos_of, ids_of.
  by rewrite (list_lookup_total_correct _ _ _ Hp), (list_lookup_total_correct _ _ _ Hids).
Qed.

(** The cell that is overwritten: empty, or of a single sequence. *)
Definition single (x : kv_cell) : Prop := cell_pos x = -1 \/ exists s, cell_seq x = {[ s ]}.

Lemma reusable_single k c x : reusable k c x -> single x.
Proof. intros [?|(s & m & ? & _)]; [by left|right; by exists s]. Qed.

Definition bump (x : kv_cell) (s v : Z) : Z := if bool_decide (s ∈ cell_seq x) then Z.max v (cell_pos x) else v.

Lemma evict_ok c rm i x : cells_ok c -> kc_cells c !! i = Some x -> single x ->
  length rm = Z.to_nat MAX_SEQ ->
  exists c' rm', Kv.evict c rm i = Ret (c', rm') /\ updates c i (cleared x) (kc_has_shift c) c'
    /\ length rm' = length rm
    /\ forall s v, 0 <= s -> rm !! Z.to_nat s = Some v -> rm' !! Z.to_nat s = Some (bump x s v).
Proof.
  intros Hok Hi Hx Hrm. pose proof (cell_ok_at _ _ _ Hok Hi) as Hcx. unfold Kv.evict, cleared.
  rewrite (is_empty_ok c Hok i x Hi). cbn [mbind outcome_bind]. destruct (Z.eqb_spec (cell_pos x) (-1)) as [Hp|Hp].
  - exists c, rm. split; [done|]. split; [split_and!; [done|by rewrite list_insert_id|done]|].
    split; [done|]. intros s v _ Hv. unfold bump.
    rewrite (proj1 (blank_ext x Hcx Hp)), bool_decide_eq_false_2 by set_solver. done.
  - destruct Hx as [|[s Hs]]; [done|]. rewrite (seq_count_ok c i x Hi Hp), Hs, size_singleton.
    cbn [mbind outcome_bind Nat.eqb c_assert].
    destruct (seq_get_ok c Hok i x Hi) as (s' & -> & Hs' & Hr); [by rewrite Hs, size_singleton|].
    rewrite Hs in Hs'. apply singleton_inj in Hs' as <-. cbn [mbind outcome_bind]. unfold Cells.pos_get.
    rewrite (used_cell_Ret _ _ _ Hi Hp). cbn [mbind outcome_bind].
    destruct (lookup_lt_is_Some_2 rm (Z.to_nat s)) as [old Hold]; [rewrite Hrm; lia|].
    rewrite (proj2 (at_Ret _ _ _) Hold). cbn [mbind outcome_bind]. unfold set_.
    rewrite decide_True by (by eapply lookup_lt_Some). cbn [mbind outcome_bind].
    destruct (rm_ok c i x Hok Hi Hp) as (c' & -> & U). cbn [mbind outcome_bind].
    eexists _, _. split_and!; [reflexivity|exact U|by rewrite length_insert|].
    intros s' v Hs' Hv. unfold bump. rewrite Hs. destruct (decide (s' = s)) as [->|Hne].
    + rewrite bool_decide_eq_true_2 by set_solver. rewrite list_lookup_insert_eq by (by eapply lookup_lt_Some).
      congruence.
    + rewrite bool_decide_eq_false_2 by set_solver. by rewrite list_lookup_insert_ne by lia.
Qed.

End Tokens.

(** * The effect of [apply_ubatch] on the cache. *)

(** ** The pairs of the two nested loops *)

Definition pairs (a b : nat) : list (nat * nat) := list_prod (seq 0 a) (seq 0 b).

Lemma elem_of_pairs a b j i : (j, i) ∈ pairs a b <-> (j < a)%nat /\ (i < b)%nat.
Proof. unfold pairs. rewrite list_elem_of_In, in_prod_iff, !List.in_seq. lia. Qed.

Lemma NoDup_list_prod {A B} (l : list A) (l' : list B) : NoDup l -> NoDup l' -> NoDup (list_prod l l').
Proof.
  intros Hl Hl'. induction Hl as [|x l Hx _ IH]; [constructor|]. simpl. apply NoDup_app. split_and!; [| |done].
  - apply NoDup_fmap_2; [|done]. by intros y z [=].
  - intros q (y & -> & _)%list_elem_of_fmap Hq. apply list_elem_of_In, in_prod_iff in Hq as [Hq _].
    by apply list_elem_of_In in Hq.
Qed.

Lemma NoDup_pairs a b : NoDup (pairs a b).
Proof. apply NoDup_list_prod; apply NoDup_seq. Qed.

(** The stream and cell of token [ii] of sequence [j]. *)
Definition target (si : slot_info) (q : nat * nat) : option (nat * nat) :=
  st ← si_strm si !! q.1; l ← si_idxs si !! q.1; i ← l !! q.2; Some (st, i).

Section Place.
Context {E : Type}.
Notation llama_ubatch := (@llama_ubatch E).

(** The ubatch [u] can be placed into the cells of [si]: [m] tokens for each stream. *)
Record placeable (k : llama_kv_cache) (u : llama_ubatch) (m : nat) (si : slot_info) : Prop := {
  pl_streams : (0 < length (si_strm si))%nat;
  pl_some : (0 < m)%nat;
  pl_nodup : NoDup (si_strm si);
  pl_tokens : u_n_tokens u = (length (si_strm si) * m)%nat;
  pl_slots : Forall2 (fun st l => length l = m /\ NoDup l /\
    forall i, i ∈ l -> exists x, cell_at k st i = Some x /\ single x) (si_strm si) (si_idxs si);
  pl_token : forall j st ii, si_strm si !! j = Some st -> (ii < m)%nat -> token_ok k u st (j * m + ii);
}.

Section Fixed.
Context (n : nat) (k : llama_kv_cache) (u : llama_ubatch) (m : nat) (si : slot_info).
Hypotheses (Hok : kv_ok n k) (Hpl : placeable k u m si).

Lemma target_Some j ii : (j < length (si_strm si))%nat -> (ii < m)%nat ->
  exists st l i x, si_strm si !! j = Some st /\ si_idxs si !! j = Some l /\ l !! ii = Some i
    /\ target si (j, ii) = Some (st, i) /\ cell_at k st i = Some x /\ single x.
Proof.
  intros Hj Hi. destruct (lookup_lt_is_Some_2 (si_strm si) j Hj) as [st Hst].
  destruct (Forall2_lookup_l _ _ _ _ _ (pl_slots _ _ _ _ Hpl) Hst) as (l & Hl & Hlen & _ & Hcells).
  destruct (lookup_lt_is_Some_2 l ii) as [i Hi']; [lia|].
  destruct (Hcells i) as (x & Hx & Hs); [by eapply list_elem_of_lookup_2|].
  exists st, l, i, x. split_and!; [done|done|done| |done|done].
  unfold target. cbn [fst snd]. rewrite Hst. cbn [mbind option_bind]. rewrite Hl. cbn [mbind option_bind].
  by rewrite Hi'.
Qed.

Lemma target_inj q q' t : target si q = Some t -> target si q' = Some t -> q = q'.
Proof.
  destruct q as [j ii], q' as [j' ii']. unfold target. cbn [fst snd].
  destruct (si_strm si !! j) as [st|] eqn:Hst; [|done]. destruct (si_idxs si !! j) as [l|] eqn:Hl; [|done].
  cbn [mbind option_bind]. destruct (l !! ii) as [i|] eqn:Hi; [|done]. intros [= <-].
  destruct (si_strm si !! j') as [st'|] eqn:Hst'; [|done]. destruct (si_idxs si !! j') as [l'|] eqn:Hl'; [|done].
  cbn [mbind option_bind]. destruct (l' !! ii') as [i'|] eqn:Hi'; [|done]. intros [= -> ->].
  assert (j' = j) as -> by exact (NoDup_lookup _ _ _ _ (pl_nodup _ _ _ _ Hpl) Hst' Hst).
  assert (l' = l) as -> by congruence.
  destruct (Forall2_lookup_l _ _ _ _ _ (pl_slots _ _ _ _ Hpl) Hst) as (l' & Hl2 & _ & Hnd & _).
  assert (l' = l) as -> by congruence. by rewrite (NoDup_lookup _ _ _ _ Hnd Hi Hi').
Qed.

(** Sequence [s] had position [e] in a cell that the tokens [done] overwrite. *)
Definition overwritten (done : list (nat * nat)) (s e : Z) : Prop :=
  exists q st i x, q ∈ done /\ target si q = Some (st, i) /\ cell_at k st i = Some x
    /\ s ∈ cell_seq x /\ cell_pos x = e.

(** [v] is the last position that [s] lost, or -1. *)
Definition last_lost (done : list (nat * nat)) (s v : Z) : Prop :=
  (v = -1 \/ overwritten done s v) /\ forall e, overwritten done s e -> e <= v.

Definition token_index (q : nat * nat) : nat := (q.1 * m + q.2)%nat.

Record placing (done : list (nat * nat)) (acc : llama_kv_cache * list Z) : Prop := {
  pg_ok : kv_ok n (acc.1);
  pg_shape : same_shape k (acc.1);
  pg_heads : kv_heads (acc.1) = kv_heads k;
  pg_info : kv_sc_info (acc.1) = kv_sc_info k;
  pg_shift : forall st c c', kv_cells k !! st = Some c -> kv_cells (acc.1) !! st = Some c' ->
    kc_has_shift c' = kc_has_shift c;
  pg_new : forall q st i x, q ∈ done -> target si q = Some (st, i) -> cell_at k st i = Some x ->
    cell_at (acc.1) st i = Some (new_cell u (token_index q) x);
  pg_old : forall st i, (forall q, q ∈ done -> target si q <> Some (st, i)) ->
    cell_at (acc.1) st i = cell_at k st i;
  pg_length : length (acc.2) = Z.to_nat MAX_SEQ;
  pg_lost : forall s v, 0 <= s -> acc.2 !! Z.to_nat s = Some v -> last_lost done s v;
}.

Lemma new_cell_home st t x : token_ok k u st t -> cell_home k st (new_cell u t x).
Proof.
  intros [_ (ids & Hids & _ & Hne & _ & Hk) _]. unfold new_cell, token_cell, ids_of.
  rewrite (list_lookup_total_correct _ _ _ Hids). split; simpl.
  - intros _ He. destruct ids as [|id ids]; [done|]. simpl in He. set_solver.
  - intros s Hs. apply elem_of_list_to_set in Hs. by apply Hk.
Qed.

Lemma token_ok_shape k' st t : same_shape k k' -> token_ok k u st t -> token_ok k' u st t.
Proof.
  intros (_ & _ & _ & _ & _ & _ & Hmap) [Hp (ids & H1 & H2 & H3 & H4 & H5) H2d].
  constructor; [done| |done]. exists ids. split_and!; [done..|]. intros id Hid.
  unfold Kv.seq_known, home in *. rewrite Hmap. by apply H5.
Qed.

Lemma placing_start : placing [] (k, replicate (Z.to_nat MAX_SEQ) (-1)).
Proof.
  constructor; cbn [fst snd].
  - done.
  - apply same_shape_refl.
  - done.
  - done.
  - intros st c c' Hc Hc'. by assert (c' = c) as -> by congruence.
  - intros q st i x Hq. by apply elem_of_nil in Hq.
  - done.
  - apply length_replicate.
  - intros s v _ [-> _]%lookup_replicate. split; [by left|]. intros e (q & _ & _ & _ & Hq & _).
    by apply elem_of_nil in Hq.
Qed.

Lemma last_lost_step done q st i x s v : target si q = Some (st, i) -> cell_at k st i = Some x ->
  cell_ok x -> last_lost done s v -> last_lost (done ++ [q]) s (bump x s v).
Proof.
  intros Hq Hx Hcx [Hv Hmax].
  assert (Hsplit : forall e, overwritten (done ++ [q]) s e
    <-> overwritten done s e \/ (s ∈ cell_seq x /\ cell_pos x = e)).
  { intros e. unfold overwritten. setoid_rewrite elem_of_app. setoid_rewrite list_elem_of_singleton. split.
    - intros (q' & st' & i' & x' & [Hin| ->] & Ht & Hx' & H); [left; by exists q', st', i', x'|].
      assert ((st', i') = (st, i)) as [= -> ->] by congruence. right. by assert (x' = x) as -> by congruence.
    - intros [(q' & st' & i' & x' & Hin & H)|H]; [exists q', st', i', x'; tauto|exists q, st, i, x; tauto]. }
  unfold last_lost, bump. setoid_rewrite Hsplit. case_bool_decide as Hs.
  - split.
    + destruct (Z.max_spec v (cell_pos x)) as [[_ ->]|[_ ->]]; [by right; right|].
      destruct Hv; [by left|by right; left].
    + intros e [He|[_ <-]]; [specialize (Hmax e He)|]; lia.
  - split; [destruct Hv; [by left|by right; left]|]. intros e [He|[? _]]; [auto|done].
Qed.

Lemma place_step done q rest acc : pairs (length (si_strm si)) m = done ++ q :: rest -> placing done acc ->
  exists acc', Kv.place_token si u m acc q = Ret acc' /\ placing (done ++ [q]) acc'.
Proof.
  intros Hall Hpg. destruct acc as [k1 rm], q as [j ii]. destruct Hpg as [H1 Hsh Hheads Hinfo Hshift Hnew Hold Hlen Hlost].
  cbn [fst snd] in *.
  assert (Hin : (j, ii) ∈ pairs (length (si_strm si)) m) by (rewrite Hall; set_solver).
  apply elem_of_pairs in Hin as [Hj Hii].
  destruct (target_Some j ii Hj Hii) as (st & l & i & x & Hst & Hl & Hi & Ht & Hx & Hsingle).
  assert (Hfresh : forall q, q ∈ done -> target si q <> Some (st, i)).
  { intros q Hq Hq'. pose proof (target_inj _ _ _ Hq' Ht) as ->.
    pose proof (NoDup_pairs (length (si_strm si)) m) as Hnd. rewrite Hall in Hnd.
    apply NoDup_app in Hnd as (_ & Hd & _). by apply (Hd (j, ii) Hq); left. }
  assert (Hx1 : cell_at k1 st i = Some x) by by rewrite (Hold st i Hfresh).
  pose proof (cell_at_sound n k1 st i x H1 Hx1) as [Hcx _].
  apply cell_at_Some in Hx1 as (c & Hc & Hcx1). destruct (stream_sound n k1 st c H1 Hc) as (Hcok & _ & _).
  destruct (lookup_lt_is_Some_2 (kv_heads k1) st) as [h Hh].
  { rewrite (ok_heads n k1 H1), <- (ok_cells n k1 H1). by eapply lookup_lt_Some. }
  pose proof (pl_token _ _ _ _ Hpl j st ii Hst Hii) as Htok.
  unfold Kv.place_token. rewrite (proj2 (at_Ret _ _ _) Hst). cbn [mbind outcome_bind].
  rewrite (proj2 (at_Ret _ _ _) Hc). cbn [mbind outcome_bind].
  rewrite (proj2 (at_Ret _ _ _) Hl). cbn [mbind outcome_bind].
  rewrite (proj2 (at_Ret _ _ _) Hi). cbn [mbind outcome_bind].
  destruct (evict_ok c rm i x Hcok Hcx1 Hsingle Hlen) as (c1 & rm1 & -> & U1 & Hlen1 & Hrm1).
  cbn [mbind outcome_bind]. pose proof (updates_lookup _ _ _ _ _ _ Hcx1 U1) as Hi1.
  destruct (fill_cell_ok n k u st (j * m + ii) c1 i (cleared x) Hok Htok (proj1 U1) Hi1) as (c2 & -> & U2).
  { unfold cleared. by destruct (Z.eqb_spec (cell_pos x) (-1)). }
  cbn [mbind outcome_bind]. pose proof (updates_trans _ _ _ _ _ _ _ _ U1 U2) as U.
  destruct (rewrite_cell n k1 st c h i x (new_cell u (j * m + ii) x)
    (kc_has_shift c1) c2 H1 Hc Hh Hcx1) as (-> & Hok2 & Hcells).
  { destruct Hsh as (_ & _ & _ & _ & _ & _ & Hmap). pose proof (new_cell_home st (j * m + ii) x
      (pl_token _ _ _ _ Hpl j st ii Hst Hii)) as [Ha Hb]. split; [done|]. intros s Hs. unfold home. rewrite Hmap. by apply Hb. }
  { exact U. }
  cbn [mbind outcome_bind]. eexists. split; [reflexivity|]. constructor; cbn [fst snd].
  - done.
  - eapply same_shape_trans; [exact Hsh|apply replaced_shape].
  - simpl. rewrite <- Hheads. by apply list_insert_id.
  - done.
  - intros st' d d' Hd Hd'. rewrite lookup_replaced in Hd' by (by eapply lookup_lt_Some).
    case_decide; [|by apply (Hshift st')]. subst st'. injection Hd' as <-.
    destruct U as (_ & _ & ->). destruct U1 as (_ & _ & ->). by apply (Hshift st).
  - intros q st' i' x' Hq Hq' Hx'. rewrite Hcells. apply elem_of_app in Hq as [Hq|Hq%list_elem_of_singleton].
    + rewrite decide_False; [by apply Hnew|]. intros [-> ->]. by apply (Hfresh q Hq).
    + subst q. assert ((st', i') = (st, i)) as [= -> ->] by congruence. rewrite decide_True by done.
      by assert (x' = x) as -> by congruence.
  - intros st' i' Hno. rewrite Hcells. rewrite decide_False.
    + apply Hold. intros q Hq. apply Hno. set_solver.
    + intros [-> ->]. by apply (Hno (j, ii)); [set_solver|].
  - congruence.
  - intros s v Hs Hv. assert (Hlt : (Z.to_nat s < length rm)%nat) by (rewrite <- Hlen1; by eapply lookup_lt_Some).
    destruct (lookup_lt_is_Some_2 rm _ Hlt) as [v0 Hv0]. specialize (Hrm1 s v0 Hs Hv0).
    assert (v = bump x s v0) as -> by congruence. eapply last_lost_step; [done..|]. by apply Hlost.
Qed.

Lemma place_all : exists acc,
  foldM (Kv.place_token si u m) (k, replicate (Z.to_nat MAX_SEQ) (-1)) (pairs (length (si_strm si)) m) = Ret acc
  /\ placing (pairs (length (si_strm si)) m) acc.
Proof.
  apply foldM_prefix; [apply placing_start|]. intros done q rest b Hall Hb. by eapply place_step.
Qed.

(** ** Purging *)

Lemma overwritten_seq done s e : overwritten done s e ->
  0 <= s < MAX_SEQ /\ 0 <= e /\ exists st, home k s = Some st.
Proof.
  intros (q & st & i & x & _ & _ & Hx & Hs & Hp). pose proof (cell_at_sound n k st i x Hok Hx) as [[Hb Hcx] [_ Hh]].
  split; [by apply Hb|]. split; [|exists st; by apply Hh]. destruct Hcx as [(_ & He & _)|]; [set_solver|lia].
Qed.

(** Sequence [s] lost the position [q] or a later one. *)
Definition loses (done : list (nat * nat)) (s q : Z) : Prop := exists e, overwritten done s e /\ q <= e.

Lemma purge_step done rm k1 t : kv_ok n k1 -> same_shape k k1 -> (t < Z.to_nat MAX_SEQ)%nat ->
  length rm = Z.to_nat MAX_SEQ ->
  (forall s v, 0 <= s -> rm !! Z.to_nat s = Some v -> last_lost done s v) ->
  exists k2, Kv.purge rm k1 t = Ret k2 /\ kv_ok n k2 /\ same_shape k k2 /\
    forall s i q, at_pos k2 s i q <-> at_pos k1 s i q /\ ~ (s = Z.of_nat t /\ loses done s q).
Proof.
  intros H1 Hsh Ht Hlen Hlost. destruct (lookup_lt_is_Some_2 rm t) as [v Hv]; [lia|].
  destruct (Hlost (Z.of_nat t) v ltac:(lia)) as [Hlv Hmax]; [by rewrite Nat2Z.id|].
  assert (Hloses : forall q, 0 <= q -> loses done (Z.of_nat t) q <-> q <= v).
  { intros q Hq. split; [intros (e & He & ?); specialize (Hmax e He); lia|]. intros Hle.
    destruct Hlv as [->|Hlv]; [lia|]. by exists v. }
  unfold Kv.purge. rewrite (proj2 (at_Ret _ _ _) Hv). cbn [mbind outcome_bind].
  destruct (Z.eqb_spec v (-1)) as [->|Hv1].
  { exists k1. split_and!; [done|done|done|]. intros s i q. split; [|naive_solver]. intros Hp. split; [done|].
    intros [-> Hl]. pose proof (at_pos_nonneg n k1 _ i q H1 Hp). apply Hloses in Hl; lia. }
  destruct Hlv as [|Hlv]; [done|]. destruct (overwritten_seq _ _ _ Hlv) as (Hr & Hv0 & st & Hhome).
  assert (Hmap : kv_seq_to_stream k1 = kv_seq_to_stream k) by apply Hsh.
  assert (Hknown : Kv.seq_known k1 (Z.of_nat t) = true).
  { unfold home in Hhome. rewrite Nat2Z.id, <- Hmap in Hhome. apply lookup_lt_Some in Hhome.
    unfold Kv.seq_known. rewrite (proj2 (Z.leb_le 0 _)), (proj2 (Z.ltb_lt _ _)) by lia. done. }
  destruct (seq_stream n k1 _ H1 Hknown) as (st' & c & h & Est & Hhome' & Hc & Hh). rewrite Nat2Z.id in Est.
  rewrite (proj2 (Nat.ltb_lt t (length (kv_seq_to_stream k1)))).
  2:{ apply at_Ret in Est. by eapply lookup_lt_Some. }
  cbn [c_assert mbind outcome_bind]. rewrite Est. cbn [mbind outcome_bind].
  rewrite (proj2 (at_Ret _ _ _) Hc). cbn [mbind outcome_bind].
  destruct (stream_sound n k1 st' c H1 Hc) as (Hcok & _ & _).
  destruct (seq_pos_min_ok c Hcok (Z.of_nat t) Hr) as (lo & -> & Hlo). cbn [mbind outcome_bind].
  assert (Hge : forall i q, at_pos k1 (Z.of_nat t) i q -> 0 <= q /\ lo <= q).
  { intros i q Hp. split; [by eapply at_pos_nonneg|].
    destruct (at_pos_home n k1 _ i q st' H1 Hp Hhome') as (c' & x & Hc' & Hx & Hin & Hpx).
    assert (c' = c) as -> by congruence. assert (Hh' : holds c (Z.of_nat t) q) by by exists i, x.
    destruct Hlo as [[_ Hno]|[_ Hle]]; [by destruct (Hno q)|]. specialize (Hle q Hh'). lia. }
  destruct (Z.leb_spec lo v) as [Hle|Hgt].
  - destruct (seq_rm_one n k1 (Z.of_nat t) lo (v + 1) H1 Hknown) as (k2 & -> & H2 & Hsh2 & Hpos).
    exists k2. split_and!; [done|done|by eapply same_shape_trans|]. intros s i q. rewrite Hpos.
    split; intros [Hp Hn]; (split; [done|]); intros [-> H]; apply Hn; (split; [done|]).
    + destruct (Hge i q Hp). apply Hloses in H; [|done]. unfold in_pos, Kv.lower, Kv.upper.
      rewrite (proj2 (Z.ltb_ge (v + 1) 0)) by lia. case_match; bool_hyps; lia.
    + destruct (Hge i q Hp). apply Hloses; [done|]. unfold in_pos, Kv.upper in H.
      rewrite (proj2 (Z.ltb_ge (v + 1) 0)) in H by lia. lia.
  - exists k1. split_and!; [done|done|done|]. intros s i q. split; [|naive_solver]. intros Hp. split; [done|].
    intros [-> Hl]. destruct (Hge i q Hp). apply Hloses in Hl; lia.
Qed.

Lemma purge_all done rm k1 : kv_ok n k1 -> same_shape k k1 -> length rm = Z.to_nat MAX_SEQ ->
  (forall s v, 0 <= s -> rm !! Z.to_nat s = Some v -> last_lost done s v) ->
  exists k2, foldM (Kv.purge rm) k1 (seq 0 (Z.to_nat MAX_SEQ)) = Ret k2 /\ kv_ok n k2 /\ same_shape k k2 /\
    forall s i q, at_pos k2 s i q <-> at_pos k1 s i q /\ ~ loses done s q.
Proof.
  intros H1 Hsh Hlen Hlost.
  assert (H : forall t, (t <= Z.to_nat MAX_SEQ)%nat -> exists k2, foldM (Kv.purge rm) k1 (seq 0 t) = Ret k2
    /\ kv_ok n k2 /\ same_shape k k2 /\
    forall s i q, at_pos k2 s i q <-> at_pos k1 s i q /\ ~ (s < Z.of_nat t /\ loses done s q)).
  { induction t as [|t IH]; intros Ht.
    - exists k1. split_and!; [done|done|done|]. intros s i q. split; [|naive_solver]. intros Hp. split; [done|].
      intros [Hs (e & He & _)]. apply overwritten_seq in He. lia.
    - destruct (IH ltac:(lia)) as (k2 & E2 & H2 & Hsh2 & Hp2). rewrite seq_S, foldM_app, E2.
      cbn [mbind outcome_bind foldM Nat.add].
      destruct (purge_step done rm k2 t) as (k3 & -> & H3 & Hsh3 & Hp3); [done|done|lia|done|done|].
      cbn [mbind outcome_bind]. exists k3. split_and!; [done|done|done|]. intros s i q. rewrite Hp3, Hp2.
      assert (s < Z.of_nat (S t) <-> s < Z.of_nat t \/ s = Z.of_nat t) as -> by lia. tauto. }
  destruct (H _ (le_n _)) as (k2 & E2 & H2 & Hsh2 & Hp2). exists k2. split_and!; [done|done|done|].
  intros s i q. rewrite Hp2. split; intros [Hp Hn]; (split; [done|]); [|tauto]. intros Hl. apply Hn.
  split; [|done]. destruct Hl as (e & He & _). apply overwritten_seq in He. lia.
Qed.

(** ** Moving the heads *)

Lemma move_heads k1 : kv_ok n k1 -> same_shape k k1 ->
  exists heads, foldM (Kv.move_head si) k1 (seq 0 (length (si_strm si)))
      = Ret (set_streams k1 heads (kv_cells k1))
    /\ kv_ok n (set_streams k1 heads (kv_cells k1))
    /\ forall st, st ∉ si_strm si -> heads !! st = kv_heads k1 !! st.
Proof.
  intros H1 Hsh.
  destruct (foldM_prefix (Kv.move_head si) (fun _ k2 => exists heads, k2 = set_streams k1 heads (kv_cells k1)
      /\ kv_ok n k2 /\ forall st, st ∉ si_strm si -> heads !! st = kv_heads k1 !! st)
    k1 (seq 0 (length (si_strm si)))) as (k2 & E1 & heads & -> & H2); [| |by exists heads].
  { exists (kv_heads k1). split_and!; [by destruct k1|done|done]. }
  intros done j rest k2 Hall (heads & -> & H2 & Hout).
  assert (Hj : j ∈ seq 0 (length (si_strm si))) by (rewrite Hall; set_solver). apply elem_of_seq in Hj.
  destruct (target_Some j (m - 1)) as (st & l & i & x & Hst & Hl & Hi & _ & Hx & _);
    [lia|pose proof (pl_some _ _ _ _ Hpl); lia|].
  destruct (Forall2_lookup_l _ _ _ _ _ (pl_slots _ _ _ _ Hpl) Hst) as (l' & Hl' & Hlen & _).
  assert (l' = l) as -> by congruence.
  unfold Kv.move_head. rewrite (proj2 (at_Ret _ _ _) Hst), (proj2 (at_Ret _ _ _) Hl). cbn [mbind outcome_bind].
  assert (list.last l = Some i) as ->. { rewrite last_lookup, Hlen. by replace (pred m) with (m - 1)%nat by lia. }
  apply cell_at_Some in Hx as (c & Hc & Hx). destruct (stream_sound n k st c Hok Hc) as (_ & Hsz & _).
  assert (Hlt : (st < length heads)%nat).
  { pose proof (ok_heads n _ H2) as Hl2. simpl in Hl2. destruct Hsh as (_ & Hns & _).
    rewrite Hl2, Hns, <- (ok_cells n k Hok). by eapply lookup_lt_Some. }
  unfold set_head, set_. simpl (kv_heads _). rewrite decide_True by done. cbn [mbind outcome_bind].
  eexists. split; [reflexivity|]. eexists. split; [reflexivity|]. split.
  - pose proof H2 as []. constructor; simpl in *; try done; [by rewrite length_insert|].
    intros st' h'. rewrite list_lookup_insert_Some. intros [(-> & <- & _)|[_ H]]; [|by eapply ok_head].
    apply lookup_lt_Some in Hx. unfold Cells.size in Hsz. lia.
  - intros st' Hst'. rewrite list_lookup_insert_ne; [by apply Hout|]. intros ->.
    apply Hst'. by eapply list_elem_of_lookup_2.
Qed.

(** ** The whole operation *)

(** The token with sequence [s] and position [q] goes to cell [i]. *)
Definition placed (s : Z) (i : nat) (q : Z) : Prop :=
  exists w st, w ∈ pairs (length (si_strm si)) m /\ target si w = Some (st, i)
    /\ s ∈ ids_of u (token_index w) /\ pos_of u (token_index w) = q.

(** Cell [i] of the stream of [s] is in the slot. *)
Definition in_slot (s : Z) (i : nat) : Prop :=
  exists w st, w ∈ pairs (length (si_strm si)) m /\ target si w = Some (st, i) /\ home k s = Some st.

Lemma placing_at_pos acc s i q : placing (pairs (length (si_strm si)) m) acc ->
  at_pos acc.1 s i q <-> placed s i q \/ (at_pos k s i q /\ ~ in_slot s i).
Proof.
  intros [H1 Hsh _ _ _ Hnew Hold _ _].
  assert (Hhome : forall s, home acc.1 s = home k s).
  { intros s'. unfold home. by replace (kv_seq_to_stream acc.1) with (kv_seq_to_stream k) by (symmetry; apply Hsh). }
  split.
  - intros Hp. destruct (at_pos_stream n acc.1 s i q H1 Hp) as (st & Hst & _).
    pose proof (proj1 (at_pos_cell_home n acc.1 s i q st H1 Hst) Hp) as (x & Hx & Hin & Hq). rewrite Hhome in Hst.
    destruct (decide (Exists (fun w => target si w = Some (st, i)) (pairs (length (si_strm si)) m))) as [Hw|Hw].
    + apply Exists_exists in Hw as ([j ii] & Hw & Ht). pose proof Hw as Hw'. apply elem_of_pairs in Hw' as [Hj Hii].
      destruct (target_Some j ii Hj Hii) as (st' & l & i' & y & _ & _ & _ & Ht' & Hy & _).
      assert ((st', i') = (st, i)) as [= -> ->] by congruence.
      rewrite (Hnew _ _ _ y Hw Ht Hy) in Hx. injection Hx as <-. simpl in Hin. apply elem_of_list_to_set in Hin.
      left. by exists (j, ii), st.
    + assert (Hno : forall w, w ∈ pairs (length (si_strm si)) m -> target si w <> Some (st, i)).
      { intros w Hw1 Hw2. apply Hw, Exists_exists. by exists w. }
      rewrite (Hold _ _ Hno) in Hx. right. split; [apply (at_pos_cell_home n k s i q st Hok Hst); by exists x|].
      intros (w & st' & Hw1 & Hw2 & Hst'). assert (st' = st) as -> by congruence. by apply (Hno w).
  - intros [(w & st & Hw & Ht & Hin & Hq)|[Hp Hno]].
    + destruct w as [j ii]. pose proof Hw as Hw'. apply elem_of_pairs in Hw' as [Hj Hii].
      destruct (target_Some j ii Hj Hii) as (st' & l & i' & y & _ & _ & _ & Ht' & Hy & _).
      assert ((st', i') = (st, i)) as [= -> ->] by congruence.
      apply at_pos_cell. exists st, (new_cell u (token_index (j, ii)) y). split; [by apply (Hnew (j, ii))|].
      split; [simpl; by apply elem_of_list_to_set|done].
    + destruct (at_pos_stream n k s i q Hok Hp) as (st & Hst & _).
      pose proof (proj1 (at_pos_cell_home n k s i q st Hok Hst) Hp) as (x & Hx & H). apply at_pos_cell. exists st, x.
      rewrite Hold; [done|]. intros w Hw Ht. apply Hno. by exists w, st.
Qed.

Lemma slot_size_ok : Kv.slot_size si = Ret m.
Proof.
  pose proof (pl_slots _ _ _ _ Hpl) as Hslots. pose proof (pl_streams _ _ _ _ Hpl) as Hlen.
  unfold Kv.slot_size. rewrite (Forall2_length _ _ _ Hslots), Nat.eqb_refl. cbn [c_assert mbind outcome_bind].
  destruct (si_strm si) as [|st strms]; [simpl in Hlen; lia|].
  apply Forall2_cons_inv_l in Hslots as (l & ls & (Hl & _) & _ & ->). by rewrite Hl.
Qed.

Lemma apply_ubatch_ok : exists k', Kv.apply_ubatch k si u = Ret k' /\ kv_ok n k' /\ same_shape k k' /\
  forall s i q, at_pos k' s i q <->
    (placed s i q \/ (at_pos k s i q /\ ~ in_slot s i)) /\ ~ loses (pairs (length (si_strm si)) m) s q.
Proof.
  unfold Kv.apply_ubatch. rewrite slot_size_ok. cbn [mbind outcome_bind].
  rewrite (pl_tokens _ _ _ _ Hpl), Nat.eqb_refl. cbn [c_assert mbind outcome_bind].
  destruct place_all as ([k1 rm] & E1 & Hpg). unfold pairs in E1. rewrite E1. cbn [mbind outcome_bind].
  pose proof (fun s i q => placing_at_pos _ s i q Hpg) as Hpos. destruct Hpg as [H1 Hsh1 _ _ _ _ _ Hlen Hlost].
  cbn [fst snd] in *. destruct (purge_all _ rm k1 H1 Hsh1 Hlen Hlost) as (k2 & -> & H2 & Hsh2 & Hp2).
  cbn [mbind outcome_bind]. destruct (move_heads k2 H2 Hsh2) as (heads & -> & H3 & _).
  eexists. split; [reflexivity|]. split_and!; [done|eapply same_shape_trans; [exact Hsh2|by split_and!]|].
  intros s i q. by rewrite <- Hpos, <- Hp2.
Qed.

End Fixed.
End Place.
