(* ===== verification/KvPrepare.v ===== *)
(** * Preparing the ubatches of a batch.

    [prepare] places the ubatches one after the other only to find their slots,
    and then puts the cells back.  Without a sliding window a slot consists of
    empty cells, nothing is purged, and the cache is restored exactly. *)

From S2P Require Import Prelude KvCells KvCellsFacts Batch KvCache KvCacheFacts.
From S2P Require Import KvCopy KvSlot KvPlace.
From Stdlib Require Import Lia.

(** ** Restoring cells *)

(** Writing saved cells back restores a container that differs from [c] only there. *)
Lemma set_idxs_restores c c' l saved : cells_ok c -> cells_ok c' -> kc_has_shift c' = kc_has_shift c ->
  Cells.size c' = Cells.size c -> length (kc_cells saved) = length l -> NoDup l ->
  (forall t i, l !! t = Some i -> kc_cells saved !! t = kc_cells c !! i) ->
  (forall i, i ∈ l -> exists x y, kc_cells c !! i = Some x /\ cell_shift x = 0
     /\ kc_cells c' !! i = Some y /\ cell_shift y = 0) ->
  (forall i, i ∉ l -> kc_cells c' !! i = kc_cells c !! i) ->
  Cells.set_idxs c' l saved = Ret c.
Proof.
  intros Hok Hok' Hsh Hsz Hlen Hnd Hsaved Hslot Hout. unfold Cells.set_idxs.
  unfold Cells.size at 1. rewrite Hlen, Nat.eqb_refl. cbn [c_assert mbind outcome_bind].
  set (todo := zip l (kc_cells saved)).
  assert (Hfst : todo.*1 = l) by (apply fst_zip; lia).
  destruct (foldM_prefix (fun c '(idx, y) => Cells.set_cell c idx y)
    (fun pre b => cells_ok b /\ kc_has_shift b = kc_has_shift c /\ Cells.size b = Cells.size c
       /\ (forall i, i ∉ l \/ i ∈ pre.*1 -> kc_cells b !! i = kc_cells c !! i)
       /\ (forall i, i ∈ l -> i ∉ pre.*1 -> kc_cells b !! i = kc_cells c' !! i)) c' todo)
    as (r & -> & Hr & Hrsh & Hrsz & Hrc & _).
  - split_and!; [done|done|done| |done]. intros i [Hi|Hi]; [by apply Hout|]. by apply elem_of_nil in Hi.
  - intros pre [idx y] rest b Htodo (Hb & Hbsh & Hbsz & Hbc & Hbc').
    assert (Hin : todo !! length pre = Some (idx, y)).
    { rewrite Htodo, lookup_app_r, Nat.sub_diag by lia. done. }
    apply lookup_zip_Some in Hin as [Hidx Hy]. rewrite (Hsaved _ _ Hidx) in Hy.
    assert (Hil : idx ∈ l) by (by eapply list_elem_of_lookup_2).
    destruct (Hslot idx Hil) as (x & z & Hx & Hxs & Hz & Hzs). assert (x = y) as -> by congruence.
    assert (Hfresh : idx ∉ pre.*1).
    { rewrite <- Hfst, Htodo, fmap_app in Hnd. apply NoDup_app in Hnd as (_ & Hd & _).
      intros Hp. apply (Hd idx Hp). by left. }
    rewrite <- (Hbc' idx Hil Hfresh) in Hz.
    destruct (set_cell_ok b idx z y Hb Hz Hzs) as (b' & -> & Hb' & Hcs & Hsh'); [exact (cell_ok_at c idx y Hok Hx)|done|].
    exists b'. split; [done|]. rewrite fmap_app. simpl. split_and!; [done|congruence| | |].
    + unfold Cells.size in *. by rewrite Hcs, length_insert.
    + intros i Hi. rewrite Hcs. destruct (decide (i = idx)) as [->|Hne].
      * rewrite list_lookup_insert_eq by (by eapply lookup_lt_Some). done.
      * rewrite list_lookup_insert_ne by done. apply Hbc. set_solver.
    + intros i Hi Hn. rewrite Hcs, list_lookup_insert_ne by set_solver. apply Hbc'; set_solver.
  - f_equal. apply cells_ext; [done|done| |done]. apply list_eq. intros i. apply Hrc. rewrite Hfst.
    destruct (decide (i ∈ l)); tauto.
Qed.

Lemma kv_eta k k1 : same_shape k k1 -> kv_sc_info k1 = kv_sc_info k ->
  k1 = set_streams k (kv_heads k1) (kv_cells k1).
Proof.
  destruct k, k1. unfold same_shape, set_streams. simpl. intros (-> & -> & -> & -> & -> & -> & ->) ->. done.
Qed.

Section Prepare.
Context {E : Type}.
Notation llama_ubatch := (@llama_ubatch E).

(** The slot consists of empty cells. *)
Definition vacant (k : llama_kv_cache) (si : slot_info) : Prop :=
  forall q st i, target si q = Some (st, i) -> exists x, cell_at k st i = Some x /\ cell_pos x = -1.

(** Placing a ubatch into empty cells purges nothing. *)
Lemma apply_vacant n k (u : llama_ubatch) m si : kv_ok n k -> placeable k u m si -> vacant k si ->
  exists heads cells, Kv.apply_ubatch k si u = Ret (set_streams k heads cells)
    /\ kv_ok n (set_streams k heads cells)
    /\ placing n k u m si (pairs (length (si_strm si)) m)
         (set_streams k (kv_heads k) cells, replicate (Z.to_nat MAX_SEQ) (-1))
    /\ forall st, st ∉ si_strm si -> heads !! st = kv_heads k !! st.
Proof.
  intros Hok Hpl Hvac. unfold Kv.apply_ubatch. rewrite (slot_size_ok k u m si Hpl). cbn [mbind outcome_bind].
  rewrite (pl_tokens _ _ _ _ Hpl), Nat.eqb_refl. cbn [c_assert mbind outcome_bind].
  destruct (place_all n k u m si Hok Hpl) as ([k1 rm] & E1 & Hpg). unfold pairs in E1. rewrite E1.
  cbn [mbind outcome_bind]. pose proof Hpg as [H1 Hsh1 Hheads Hinfo _ _ _ Hlen Hlost]. cbn [fst snd] in *.
  assert (Hrm : rm = replicate (Z.to_nat MAX_SEQ) (-1)).
  { apply list_eq. intros t. destruct (decide (t < Z.to_nat MAX_SEQ)%nat) as [Ht|Ht].
    - rewrite lookup_replicate_2 by done. destruct (lookup_lt_is_Some_2 rm t) as [v Hv]; [by rewrite Hlen|].
      rewrite Hv. destruct (Hlost (Z.of_nat t) v ltac:(lia)) as [[->|Hl] _]; [by rewrite Nat2Z.id|done|].
      destruct Hl as (q & st & i & x & _ & Hq & Hx & Hs & _). destruct (Hvac q st i Hq) as (y & Hy & Hp).
      assert (x = y) as -> by congruence. destruct (cell_at_sound n k st i y Hok Hx) as [Hcx _].
      destruct (blank_ext y Hcx Hp) as [He _]. set_solver.
    - rewrite (lookup_ge_None_2 rm) by (rewrite Hlen; lia).
      by rewrite lookup_ge_None_2 by (rewrite length_replicate; lia). }
  assert (Hpurge : foldM (Kv.purge rm) k1 (seq 0 (Z.to_nat MAX_SEQ)) = Ret k1).
  { destruct (foldM_prefix (Kv.purge rm) (fun _ b => b = k1) k1 (seq 0 (Z.to_nat MAX_SEQ))) as (r & -> & ->);
      [done| |done]. intros pre t rest b Hall ->. exists k1. split; [|done].
    assert (Ht : t ∈ seq 0 (Z.to_nat MAX_SEQ)) by (rewrite Hall; set_solver). apply elem_of_seq in Ht.
    assert (Hv : rm !! t = Some (-1)) by (rewrite Hrm; apply lookup_replicate_2; lia).
    unfold Kv.purge. by rewrite (proj2 (at_Ret _ _ _) Hv). }
  rewrite Hpurge. cbn [mbind outcome_bind].
  destruct (move_heads n k u m si Hok Hpl k1 H1 Hsh1) as (heads & -> & H2 & Hout).
  pose proof (kv_eta k k1 Hsh1 Hinfo) as Ek. rewrite Hheads in Ek.
  exists heads, (kv_cells k1). rewrite <- Ek, <- Hrm. split_and!; [|  |done|].
  - rewrite Ek at 1. done.
  - rewrite Ek in H2. done.
  - intros st Hst. by rewrite <- Hheads, Hout.
Qed.

(** The cells of a vacant slot hold nothing. *)
Lemma vacant_unused n k si w st i t p : kv_ok n k -> vacant k si -> target si w = Some (st, i) ->
  home k t = Some st -> ~ at_pos k t i p.
Proof.
  intros Hok Hvac Htg Hh Hp. destruct (Hvac w st i Htg) as (x & Hx & Hxp).
  pose proof (proj1 (at_pos_cell_home n k t i p st Hok Hh) Hp) as (y & Hy & Hyt & _).
  assert (y = x) as -> by congruence. pose proof (cell_at_sound n k st i x Hok Hx) as [Hcx _].
  rewrite (proj1 (blank_ext x Hcx Hxp)) in Hyt. set_solver.
Qed.

(** Placing a ubatch into a vacant slot only adds its tokens. *)
Lemma vacant_view n k (u : llama_ubatch) m si k2 : kv_ok n k -> placeable k u m si -> vacant k si ->
  Kv.apply_ubatch k si u = Ret k2 -> kv_ok n k2 /\ same_shape k k2 /\
  forall t i p, at_pos k2 t i p <-> placed u m si t i p \/ at_pos k t i p.
Proof.
  intros Hok Hpl Hvac Eap. destruct (apply_ubatch_ok n k u m si Hok Hpl) as (k2' & E1 & Hk2 & Hsh2 & Hat).
  assert (k2' = k2) as -> by congruence. split; [done|]. split; [done|]. intros t i p. rewrite Hat.
  assert (Hnl : ~ loses k si (pairs (length (si_strm si)) m) t p).
  { intros (e & (w & st0 & j & x & _ & Htg & Hx & Hin & _) & _). destruct (Hvac w st0 j Htg) as (y & Hy & Hyp).
    assert (y = x) as -> by congruence. pose proof (cell_at_sound n k st0 j x Hok Hx) as [Hcx _].
    rewrite (proj1 (blank_ext x Hcx Hyp)) in Hin. set_solver. }
  split; [tauto|]. intros [H|H]; (split; [|done]); [by left|right]. split; [done|].
  intros (w & st0 & _ & Htg & Hh). exact (vacant_unused n k si w st0 i t p Hok Hvac Htg Hh H).
Qed.

(** Position [j] of the slot is stream [j]: then the heads are restored, too. *)
Definition in_order (si : slot_info) : Prop := forall j st, si_strm si !! j = Some st -> st = j.

(** The copies of the cells of the slot. *)
Definition saved_for (k : llama_kv_cache) (si : slot_info) (sv : list llama_kv_cells) : Prop :=
  forall j st l c, si_strm si !! j = Some st -> si_idxs si !! j = Some l -> kv_cells k !! st = Some c ->
    exists s, sv !! j = Some s /\ length (kc_cells s) = length l
      /\ forall t i, l !! t = Some i -> kc_cells s !! t = kc_cells c !! i.

Section Slot.
Context (n : nat) (k : llama_kv_cache) (u : llama_ubatch) (m : nat) (si : slot_info).
Hypotheses (Hok : kv_ok n k) (Hpl : placeable k u m si) (Hvac : vacant k si).

(** The cells of position [j] of the slot are empty. *)
Lemma slot_stream j st l : si_strm si !! j = Some st -> si_idxs si !! j = Some l ->
  length l = m /\ NoDup l /\ exists c, kv_cells k !! st = Some c /\ cells_ok c /\
    forall i, i ∈ l -> exists x, kc_cells c !! i = Some x /\ cell_pos x = -1 /\ cell_shift x = 0.
Proof.
  intros Hst Hl. destruct (Forall2_lookup_l _ _ _ _ _ (pl_slots _ _ _ _ Hpl) Hst) as (l' & Hl' & Hlen & Hnd & _).
  assert (l' = l) as -> by congruence. split_and!; [done|done|].
  assert (Htgt : forall t i, l !! t = Some i -> target si (j, t) = Some (st, i)).
  { intros t i Ht. unfold target. cbn [fst snd]. rewrite Hst, Hl. cbn [mbind option_bind]. by rewrite Ht. }
  destruct (lookup_lt_is_Some_2 l 0) as [i0 Hi0]; [pose proof (pl_some _ _ _ _ Hpl); lia|].
  destruct (Hvac _ _ _ (Htgt _ _ Hi0)) as (x0 & Hx0 & _). apply cell_at_Some in Hx0 as (c & Hc & _).
  destruct (stream_sound n k st c Hok Hc) as (Hcok & _ & _). exists c. split_and!; [done|done|].
  intros i (t & Ht)%list_elem_of_lookup_1. destruct (Hvac _ _ _ (Htgt _ _ Ht)) as (x & Hx & Hp).
  apply cell_at_Some in Hx as (c' & Hc' & Hx). assert (c' = c) as -> by congruence. exists x. split_and!; [done|done|].
  by destruct (blank_ext x (cell_ok_at c i x Hcok Hx) Hp).
Qed.

Lemma slot_lookup j : (j < length (si_strm si))%nat ->
  exists st l, si_strm si !! j = Some st /\ si_idxs si !! j = Some l.
Proof.
  intros Hj. destruct (target_Some k u m si Hpl j 0 Hj (pl_some _ _ _ _ Hpl)) as (st & l & _ & _ & H1 & H2 & _).
  by exists st, l.
Qed.

Lemma save_ok : exists sv,
  foldM (fun acc s => st ← at_ (si_strm si) s; c ← at_ (kv_cells k) st; idxs ← at_ (si_idxs si) s;
           cp ← Cells.cp_idxs c idxs; Ret (acc ++ [cp])) [] (seq 0 (length (si_strm si))) = Ret sv
  /\ saved_for k si sv.
Proof.
  destruct (foldM_prefix (fun acc s => st ← at_ (si_strm si) s; c ← at_ (kv_cells k) st; idxs ← at_ (si_idxs si) s;
      cp ← Cells.cp_idxs c idxs; Ret (acc ++ [cp]))
    (fun pre acc => length acc = length pre /\ forall j st l c, (j < length pre)%nat ->
       si_strm si !! j = Some st -> si_idxs si !! j = Some l -> kv_cells k !! st = Some c ->
       exists s, acc !! j = Some s /\ length (kc_cells s) = length l
         /\ forall t i, l !! t = Some i -> kc_cells s !! t = kc_cells c !! i)
    [] (seq 0 (length (si_strm si)))) as (sv & E1 & _ & Hsv).
  - split; [done|]. simpl. lia.
  - intros pre j rest acc Hall [Hlen Hacc].
    assert (Hj : seq 0 (length (si_strm si)) !! length pre = Some j).
    { rewrite Hall, lookup_app_r, Nat.sub_diag by lia. done. }
    apply lookup_seq in Hj as [-> Hj]. simpl in *. destruct (slot_lookup _ Hj) as (st & l & Hst & Hl).
    destruct (slot_stream _ st l Hst Hl) as (_ & _ & c & Hc & Hcok & Hempty).
    rewrite (proj2 (at_Ret _ _ _) Hst). cbn [mbind outcome_bind].
    rewrite (proj2 (at_Ret _ _ _) Hc), (proj2 (at_Ret _ _ _) Hl). cbn [mbind outcome_bind].
    destruct (cp_idxs_ok c l Hcok) as (s & -> & Hs). { intros i Hi. destruct (Hempty i Hi) as (x & ? & _ & ?). by exists x. }
    cbn [mbind outcome_bind]. eexists. split; [reflexivity|]. rewrite !length_app. simpl. split; [lia|].
    intros j st' l' c' Hlt Hst' Hl' Hc'. destruct (decide (j = length pre)) as [->|Hne].
    + assert (st' = st) as -> by congruence. assert (l' = l) as -> by congruence. assert (c' = c) as -> by congruence.
      exists s. split; [|done]. by rewrite lookup_app_r, Hlen, Nat.sub_diag by lia.
    + destruct (Hacc j st' l' c') as (s' & Hs' & H); [lia|done..|]. exists s'. split; [|done]. by apply lookup_app_l_Some.
  - exists sv. split; [done|]. intros j st l c Hst. apply Hsv; [|done]. rewrite length_seq.
    by eapply lookup_lt_Some.
Qed.

Context (heads : list nat) (cells : list llama_kv_cells).
Hypothesis Hpg : placing n k u m si (pairs (length (si_strm si)) m)
  (set_streams k (kv_heads k) cells, replicate (Z.to_nat MAX_SEQ) (-1)).
Hypothesis Hheads : forall st, st ∉ si_strm si -> heads !! st = kv_heads k !! st.
Hypothesis Hk' : kv_ok n (set_streams k heads cells).

Lemma stream_container st c : kv_cells k !! st = Some c -> exists c', cells !! st = Some c' /\ cells_ok c'
  /\ Cells.size c' = Cells.size c /\ kc_has_shift c' = kc_has_shift c
  /\ forall i, cell_at (set_streams k (kv_heads k) cells) st i = kc_cells c' !! i.
Proof.
  intros Hc. destruct (lookup_lt_is_Some_2 cells st) as [c' Hc'].
  { pose proof (ok_cells n _ Hk') as Hl. simpl in Hl. rewrite Hl, <- (ok_cells n k Hok). by eapply lookup_lt_Some. }
  destruct (stream_sound n k st c Hok Hc) as (_ & Hsz & _).
  destruct (stream_sound n _ st c' Hk' Hc') as (Hcok' & Hsz' & _). exists c'. split_and!; [done|done|congruence| |].
  - by apply (pg_shift _ _ _ _ _ _ _ Hpg st).
  - intros i. unfold cell_at. simpl. by rewrite Hc'.
Qed.

Lemma other_stream st : st ∉ si_strm si -> cells !! st = kv_cells k !! st.
Proof.
  intros Hst. destruct (kv_cells k !! st) as [c|] eqn:Hc.
  - destruct (stream_container st c Hc) as (c' & -> & Hcok' & _ & Hsh & Hcells). f_equal.
    destruct (stream_sound n k st c Hok Hc) as (Hcok & _ & _). apply cells_ext; [done|done| |done].
    apply list_eq. intros i. rewrite <- Hcells. pose proof (pg_old _ _ _ _ _ _ _ Hpg st i) as Hold. cbn [fst] in Hold.
    rewrite Hold; [unfold cell_at; by rewrite Hc|]. intros [j ii] _ Ht. apply Hst. unfold target in Ht. cbn [fst snd] in Ht.
    destruct (si_strm si !! j) as [st'|] eqn:Hst'; [|done]. destruct (si_idxs si !! j) as [l|]; [|done].
    cbn [mbind option_bind] in Ht. destruct (l !! ii); [|done]. injection Ht as -> ->. by eapply list_elem_of_lookup_2.
  - apply lookup_ge_None_2. apply lookup_ge_None_1 in Hc. pose proof (ok_cells n _ Hk') as Hl. simpl in Hl.
    rewrite Hl, <- (ok_cells n k Hok). done.
Qed.

(** Writing the cells of position [j] back. *)
Lemma restore_slot j st l s c c' : si_strm si !! j = Some st -> si_idxs si !! j = Some l ->
  kv_cells k !! st = Some c -> cells !! st = Some c' -> length (kc_cells s) = length l ->
  (forall t i, l !! t = Some i -> kc_cells s !! t = kc_cells c !! i) -> Cells.set_idxs c' l s = Ret c.
Proof.
  intros Hst Hl Hc Hc' Hlen Hs. destruct (slot_stream j st l Hst Hl) as (Hlm & Hnd & d & Hd & Hcok & Hempty).
  assert (d = c) as -> by congruence. destruct (stream_container st c Hc) as (d & Hd' & Hcok' & Hsz & Hsh & Hcells).
  assert (d = c') as -> by congruence.
  assert (Hj : (j < length (si_strm si))%nat) by (by eapply lookup_lt_Some).
  apply set_idxs_restores; try done.
  - intros i Hi. destruct (Hempty i Hi) as (x & Hx & _ & Hxs). apply list_elem_of_lookup_1 in Hi as (t & Ht).
    exists x, (new_cell u (token_index m (j, t)) x). split_and!; [done|done| |done]. rewrite <- Hcells.
    apply (pg_new _ _ _ _ _ _ _ Hpg (j, t)).
    + apply elem_of_pairs. split; [done|]. rewrite <- Hlm. by eapply lookup_lt_Some.
    + unfold target. cbn [fst snd]. rewrite Hst, Hl. cbn [mbind option_bind]. by rewrite Ht.
    + apply cell_at_Some. by exists c.
  - intros i Hi. rewrite <- Hcells. pose proof (pg_old _ _ _ _ _ _ _ Hpg st i) as Hold. cbn [fst] in Hold.
    rewrite Hold; [unfold cell_at; by rewrite Hc|]. intros [j' ii] _ Ht. unfold target in Ht. cbn [fst snd] in Ht.
    destruct (si_strm si !! j') as [st'|] eqn:Hst'; [|done]. destruct (si_idxs si !! j') as [l'|] eqn:Hl'; [|done].
    cbn [mbind option_bind] in Ht. destruct (l' !! ii) eqn:Hii; [|done]. injection Ht as -> ->.
    pose proof (NoDup_lookup _ _ _ _ (pl_nodup _ _ _ _ Hpl) Hst Hst') as <-. assert (l' = l) as -> by congruence.
    apply Hi. by eapply list_elem_of_lookup_2.
Qed.

Lemma restore_ok sv : in_order si -> saved_for k si sv ->
  Kv.restore_state (set_streams k heads cells) (Kv.mk_saved si (kv_heads k) sv) = Ret k.
Proof.
  intros Hord Hsv. unfold Kv.restore_state. cbn [Kv.sv_sinfo].
  pose proof (ok_heads n _ Hk') as Hlh. pose proof (ok_cells n _ Hk') as Hlc. simpl in Hlh, Hlc.
  destruct (foldM_prefix (Kv.restore_stream (Kv.mk_saved si (kv_heads k) sv))
    (fun pre b => exists hs cs, b = set_streams k hs cs /\ length hs = kv_n_stream k /\ length cs = kv_n_stream k
       /\ forall st, hs !! st = (if decide (st < length pre)%nat then kv_heads k !! st else heads !! st)
                /\ cs !! st = (if decide (st < length pre)%nat then kv_cells k !! st else cells !! st))
    (set_streams k heads cells) (seq 0 (length (si_strm si)))) as (b & -> & hs & cs & -> & H1 & H2 & Hb).
  - exists heads, cells. split_and!; [done|done|done|]. intros st. by rewrite !decide_False by (simpl; lia).
  - intros pre j rest b Hall (hs & cs & -> & H1 & H2 & Hb).
    assert (Hj : seq 0 (length (si_strm si)) !! length pre = Some j).
    { rewrite Hall, lookup_app_r, Nat.sub_diag by lia. done. }
    apply lookup_seq in Hj as [-> Hj]. simpl in Hj |- *. set (j := length pre) in *.
    destruct (slot_lookup _ Hj) as (st & l & Hst & Hl). pose proof (Hord j st Hst) as ->.
    destruct (slot_stream j j l Hst Hl) as (_ & _ & c & Hc & _ & _).
    destruct (stream_container j c Hc) as (c' & Hc' & _). destruct (Hsv j j l c Hst Hl Hc) as (s & Hs & Hlen & Hcopy).
    destruct (lookup_lt_is_Some_2 (kv_heads k) j) as [h Hh].
    { rewrite (ok_heads n k Hok), <- (ok_cells n k Hok). by eapply lookup_lt_Some. }
    assert (Hjn : (j < kv_n_stream k)%nat) by (rewrite <- (ok_cells n k Hok); by eapply lookup_lt_Some).
    unfold Kv.restore_stream. cbn [Kv.sv_sinfo Kv.sv_cells Kv.sv_heads].
    rewrite (proj2 (at_Ret _ _ _) Hst). cbn [mbind outcome_bind]. simpl (kv_cells _).
    destruct (Hb j) as [_ Hbj]. rewrite decide_False in Hbj by lia. rewrite Hc' in Hbj.
    rewrite (proj2 (at_Ret _ _ _) Hbj), (proj2 (at_Ret _ _ _) Hl), (proj2 (at_Ret _ _ _) Hs). cbn [mbind outcome_bind].
    rewrite (restore_slot j j l s c c') by done. cbn [mbind outcome_bind]. unfold set_cells, set_.
    simpl (kv_cells _). rewrite decide_True by lia. cbn [mbind outcome_bind].
    rewrite (proj2 (at_Ret _ _ _) Hh). cbn [mbind outcome_bind]. unfold set_head, set_. simpl (kv_heads _).
    rewrite decide_True by lia. cbn [mbind outcome_bind]. eexists. split; [reflexivity|].
    exists (<[j:=h]> hs), (<[j:=c]> cs). rewrite !length_insert, length_app. simpl length.
    split_and!; [done|done|done|]. intros st. destruct (decide (st = j)) as [->|Hne].
    + rewrite !list_lookup_insert_eq by lia. rewrite !decide_True by lia. done.
    + rewrite !list_lookup_insert_ne by done. destruct (Hb st) as [-> ->].
      destruct (decide (st < j)%nat); [rewrite !decide_True by lia|rewrite !decide_False by lia]; done.
  - rewrite length_seq in Hb.
    assert (Hin : forall st, ~ (st < length (si_strm si))%nat -> st ∉ si_strm si).
    { intros st Hlt (j & Hj)%list_elem_of_lookup_1. pose proof (Hord j st Hj) as ->. apply lookup_lt_Some in Hj. lia. }
    assert (hs = kv_heads k) as ->.
    { apply list_eq. intros st. destruct (Hb st) as [-> _]. case_decide; [done|]. by apply Hheads, Hin. }
    assert (cs = kv_cells k) as ->.
    { apply list_eq. intros st. destruct (Hb st) as [_ ->]. case_decide; [done|]. by apply other_stream, Hin. }
    f_equal. by destruct k.
Qed.

End Slot.

(** ** The loop over the ubatches *)

(** [u] is a ubatch for this cache: [m] tokens for each of the first streams. *)
Definition ready (k : llama_kv_cache) (u : llama_ubatch) : Prop := exists m strms,
  ubatch_fits k u m strms /\ (forall j st, strms !! j = Some st -> st = j)
  /\ forall j st ii, strms !! j = Some st -> (ii < m)%nat -> token_ok k u st (j * m + ii).

Lemma ready_shape k k' u : same_shape k k' -> ready k u -> ready k' u.
Proof.
  intros Hsh (m & strms & [H1 H2 H3 H4 H5 H6] & Hord & Htok). exists m, strms. split_and!; [|done|].
  - destruct Hsh as (_ & Hns & _ & _ & _ & _ & Hmap). constructor; rewrite ?Hns; try done.
    intros s st Hst. destruct (H6 s st Hst) as (id & ?). exists id. unfold Kv.seq_known, home in *. by rewrite Hmap.
  - intros j st ii Hst Hii. eapply token_ok_shape; [done|]. by apply Htok.
Qed.

Lemma slots_placeable n k (u : llama_ubatch) cont m strms si : kv_ok n k -> ubatch_fits k u m strms -> NoDup strms ->
  (forall j st ii, strms !! j = Some st -> (ii < m)%nat -> token_ok k u st (j * m + ii)) ->
  slots_found k cont m strms si -> placeable k u m si.
Proof.
  intros Hok [H1 H2 H3 H4 H5 H6] Hnd Htok (Hstrm & Hslots & _). rewrite <- Hstrm in *. constructor; try done.
  eapply Forall2_impl; [exact Hslots|]. intros st l (Hlen & Hnd' & (c & Hc & Hl) & _). split_and!; [done|done|].
  intros i Hi. rewrite Forall_forall in Hl. destruct (Hl i Hi) as (x & Hx & Hr). exists x.
  split; [apply cell_at_Some; by exists c|by eapply reusable_single].
Qed.

Lemma found_placeable n k (u : llama_ubatch) cont m strms si : kv_ok n k -> ubatch_fits k u m strms ->
  (forall j st, strms !! j = Some st -> st = j) ->
  (forall j st ii, strms !! j = Some st -> (ii < m)%nat -> token_ok k u st (j * m + ii)) ->
  slots_found k cont m strms si -> placeable k u m si /\ in_order si.
Proof.
  intros Hok Hfit Hord Htok Hfound. split; [|by destruct Hfound as (<- & _)].
  eapply slots_placeable; [done|done| |done|done].
  apply NoDup_alt. intros i j st Hi Hj. apply Hord in Hi, Hj. congruence.
Qed.

Lemma found_vacant k cont m strms si : kv_swa_type k = LLAMA_SWA_TYPE_NONE -> slots_found k cont m strms si ->
  vacant k si.
Proof.
  intros Hswa (Hstrm & Hslots & _) [j ii] st i Ht. unfold target in Ht. cbn [fst snd] in Ht. rewrite Hstrm in Ht.
  destruct (strms !! j) as [st'|] eqn:Hst; [|done]. cbn [mbind option_bind] in Ht.
  destruct (Forall2_lookup_l _ _ _ _ _ Hslots Hst) as (l & Hl & _ & _ & (c & Hc & Hcells) & _). rewrite Hl in Ht.
  cbn [mbind option_bind] in Ht. destruct (l !! ii) as [i'|] eqn:Hi; [|done]. injection Ht as -> ->.
  eapply Forall_lookup_1 in Hcells as (x & Hx & Hr); [|done]. exists x. split; [apply cell_at_Some; by exists c|].
  destruct Hr as [?|(s & q & _ & _ & Ho)]; [done|]. rewrite Hswa in Ho. done.
Qed.

(** The slots [sis] are found and filled one after the other. *)
Inductive plan (n : nat) : llama_kv_cache -> list slot_info -> list llama_ubatch -> llama_kv_cache -> Prop :=
  | plan_nil k : plan n k [] [] k
  | plan_cons k si u m k1 sis us k2 :
      kv_ok n k -> Kv.find_slot k u false = Ret (Some si) -> placeable k u m si ->
      Kv.apply_ubatch k si u = Ret k1 -> plan n k1 sis us k2 -> plan n k (si :: sis) (u :: us) k2.

(** What [prepare] found: slots for all ubatches, or for those before the first
    one that does not fit. *)
Definition prepared (n : nat) (k : llama_kv_cache) (us : list llama_ubatch) (b : bool) (sis : list slot_info) : Prop :=
  if b then exists k', plan n k sis us k' /\ kv_ok n k'
  else exists us1 u us2 k1, us = us1 ++ u :: us2 /\ plan n k sis us1 k1 /\ Kv.find_slot k1 u false = Ret None.

Lemma plan_length n k sis us k' : plan n k sis us k' -> length sis = length us.
Proof. induction 1; simpl; congruence. Qed.

Lemma prepare_loop_ok n us : forall k res states, kv_ok n k -> kv_swa_type k = LLAMA_SWA_TYPE_NONE ->
  0 <= kv_n_swa k -> Forall (ready k) us ->
  exists b k' sis sts, Kv.prepare_loop k us res states = Ret (b, k', res ++ sis, states ++ sts)
    /\ foldM Kv.restore_state k' (rev sts) = Ret k /\ length sts = length sis /\ prepared n k us b sis.
Proof.
  induction us as [|u us IH]; intros k res states Hok Hswa Hn Hus.
  - exists true, k, [], []. rewrite !app_nil_r. split_and!; [done|done|done|]. exists k. split; [constructor|done].
  - apply Forall_cons in Hus as [(m & strms & Hfit & Hord & Htok) Hus].
    assert (Hswa' : swa_ok (kv_n_swa k) (kv_swa_type k)) by (rewrite Hswa; by split).
    destruct (find_slot_ok n k u false m strms Hok Hswa' Hfit) as (r & Er & Hr). cbn [Kv.prepare_loop].
    rewrite Er. cbn [mbind outcome_bind]. destruct r as [si|].
    2:{ exists false, k, [], []. rewrite !app_nil_r. split_and!; [done|done|done|]. exists [], u, us, k. split_and!; [done|constructor|done]. }
    destruct (found_placeable n k u false m strms si Hok Hfit Hord Htok Hr) as [Hpl Hsi].
    pose proof (found_vacant k false m strms si Hswa Hr) as Hvac.
    destruct (save_ok n k u m si Hok Hpl Hvac) as (sv & -> & Hsv). cbn [mbind outcome_bind].
    destruct (apply_vacant n k u m si Hok Hpl Hvac) as (heads & cells & E1 & Hok1 & Hpg & Hheads).
    rewrite E1. cbn [mbind outcome_bind]. set (k1 := set_streams k heads cells) in *.
    destruct (IH k1 (res ++ [si]) (states ++ [Kv.mk_saved si (kv_heads k) sv])) as (b & k' & sis & sts & E2 & Hre & Hlen & Hprep);
      [done|done|done| |].
    { eapply Forall_impl; [exact Hus|]. intros u'. apply ready_shape. by split_and!. }
    exists b, k', (si :: sis), (Kv.mk_saved si (kv_heads k) sv :: sts). rewrite <- !app_assoc in E2.
    split_and!; [exact E2| |simpl; by rewrite Hlen|].
    + simpl rev. rewrite foldM_app, Hre. cbn [mbind outcome_bind foldM].
      unfold k1. by rewrite (restore_ok n k u m si Hok Hpl Hvac heads cells Hpg Hheads Hok1 sv Hsi Hsv).
    + destruct b; simpl in Hprep |- *.
      * destruct Hprep as (k2 & Hk2 & Hok2). exists k2. split; [|done]. by eapply plan_cons.
      * destruct Hprep as (us1 & u' & us2 & k2 & -> & Hk2 & Hnone). exists (u :: us1), u', us2, k2.
        split_and!; [done|by eapply plan_cons|done].
Qed.

Lemma prepare_ok n k us : kv_ok n k -> kv_swa_type k = LLAMA_SWA_TYPE_NONE -> 0 <= kv_n_swa k ->
  us <> [] -> Forall (ready k) us ->
  exists b sis, Kv.prepare k us = Ret (if b : bool then Some sis else None, k) /\ prepared n k us b sis.
Proof.
  intros Hok Hswa Hn Hne Hus. destruct (prepare_loop_ok n us k [] [] Hok Hswa Hn Hus) as (b & k' & sis & sts & E1 & Hre & Hlen & Hprep).
  exists b, sis. split; [|done]. unfold Kv.prepare. rewrite E1. cbn [mbind outcome_bind app].
  assert (negb (bool_decide (length sts = 0%nat)) || negb b = true) as ->.
  { destruct b; [|by rewrite orb_true_r]. destruct Hprep as (k2 & Hk2 & _). rewrite bool_decide_eq_false_2; [done|].
    rewrite Hlen, (plan_length _ _ _ _ _ Hk2). by destruct us. }
  cbn [c_assert mbind outcome_bind]. by rewrite Hre.
Qed.

End Prepare.
