(* ===== verification/KvInputs.v ===== *)
(** * The inputs the KV cache computes for a graph, [src/llama-kv-cache.cpp].

    The number of cells the attention covers, the rows of the K and V tensors
    that the new tokens are written to, the pending shifts and the attention
    mask.  A tensor's data is the list of its elements; that it lies in a host
    buffer is assumed.  A mask entry is [-INFINITY] or a float that an integer
    converts to (exactly below 2^24). *)

From S2P Require Import Prelude KvCells Batch KvCache KvCellsFacts KvCacheFacts KvSlot.
(** [GGML_PAD(x, n)] on [uint32_t] *)
Definition GGML_PAD (x n : Z) : Z := Z.land (u32 (x + n - 1)) (u32 (Z.lnot (u32 (n - 1)))).

Module Inputs.

Definition get_n_kv (k : llama_kv_cache) (sinfo : slot_info) : outcome Z :=
  let n_pad_cur := Z.max (kv_n_pad k) 256 in
  foldM (fun result s =>
      c ← at_ (kv_cells k) s;
      Ret (Z.max (Z.min (Z.of_nat (Cells.size c))
                   (Z.max n_pad_cur (GGML_PAD (Z.of_nat (Cells.used_max_p1 c)) n_pad_cur))) result))
    0 (si_strm sinfo).

Section Ubatch.
Context {E : Type}.
Notation llama_ubatch := (@llama_ubatch E).

(** The rows of K (and of V when it is not transposed): [strm * get_size()] is
    computed on 32 bits. *)
Definition set_input_k_idxs (k : llama_kv_cache) (data : list Z) (ubatch : llama_ubatch)
    (sinfo : slot_info) : outcome (list Z) :=
  size ← Kv.slot_size sinfo;
  c_assert (u_n_tokens ubatch =? size * length (si_strm sinfo))%nat "n_tokens == size*n_stream";;
  foldM (fun data s =>
      strm ← at_ (si_strm sinfo) s;
      kv_size ← Kv.get_size k;
      let offs := u32 (Z.of_nat strm * Z.of_nat kv_size) in
      foldM (fun data i =>
          idxs ← at_ (si_idxs sinfo) s;
          idx ← at_ idxs i;
          set_ data (s * size + i) (offs + Z.of_nat idx))
        data (seq 0 size))
    data (seq 0 (length (si_strm sinfo))).

(** The elements of a transposed V. *)
Definition set_input_v_idxs (k : llama_kv_cache) (v_trans : bool) (n_embd_v_gqa : nat)
    (data : list Z) (ubatch : llama_ubatch) (sinfo : slot_info) : outcome (list Z) :=
  if negb v_trans then set_input_k_idxs k data ubatch sinfo
  else
    size ← Kv.slot_size sinfo;
    c_assert (u_n_tokens ubatch =? size * length (si_strm sinfo))%nat "n_tokens == size*n_stream";;
    kv_size ← Kv.get_size k;
    foldM (fun data s =>
        strm ← at_ (si_strm sinfo) s;
        let offs := Z.of_nat strm * Z.of_nat kv_size * Z.of_nat n_embd_v_gqa in
        foldM (fun data i =>
            foldM (fun data j =>
                idxs ← at_ (si_idxs sinfo) s;
                idx ← at_ idxs i;
                set_ data (s * size * n_embd_v_gqa + i * n_embd_v_gqa + j)
                  (offs + Z.of_nat j * Z.of_nat kv_size + Z.of_nat idx))
              data (seq 0 n_embd_v_gqa))
          data (seq 0 size))
      data (seq 0 (length (si_strm sinfo))).

End Ubatch.

Definition set_input_k_shift (k : llama_kv_cache) (data : list Z) : outcome (list Z) :=
  foldM (fun data s =>
      c ← at_ (kv_cells k) s;
      foldM (fun data i =>
          empty ← Cells.is_empty c i;
          v ← (if empty : bool then Ret 0 else Cells.get_shift c i);
          set_ data (s * Cells.size c + i) v)
        data (seq 0 (Cells.size c)))
    data (seq 0 (kv_n_stream k)).

(** ** The attention mask *)

Inductive mask_value := NegInf | Val (z : Z).

Section Mask.
Context {E : Type}.
Notation llama_ubatch := (@llama_ubatch E).

(** [args_set_input_kq_mask] with the flag [hparams.use_alibi]. *)
Record kq_args := mk_args {
  ka_use_alibi : bool;
  ka_ubatch : llama_ubatch;
  ka_v_cells : list llama_kv_cells;
  ka_seq_to_stream : list nat;
  ka_n_swa : Z;
  ka_swa_type : llama_swa_type;
  ka_n_kv : nat;
  ka_n_stream : nat;
  ka_n_tps : nat;
}.

(** The min position in the batch for each sequence. *)
Definition batch_pos_min (u : llama_ubatch) : outcome (list Z) :=
  foldM (fun mins i =>
      ids ← at_ (u_seq_id u) i;
      seq_id ← at_ ids 0;
      old ← at_z mins seq_id;
      p ← at_ (u_pos u) i;
      set_ mins (Z.to_nat seq_id) (Z.min old p))
    (replicate (Z.to_nat MAX_SEQ) INT32_MAX) (seq 0 (u_n_tokens u)).

(** The entry of cell [j] for a token, with the cell's position when its sequence
    is in the cell. *)
Definition mask_cell (causal swa is_2d alibi : bool) (a : kq_args) (cells : llama_kv_cells)
    (seq_id p1 p1_x p1_y : Z) (j : nat) : outcome (mask_value * option Z) :=
  empty ← Cells.is_empty cells j;
  if empty : bool then Ret (NegInf, None)
  else
    has ← Cells.seq_has cells j seq_id;
    if negb has then Ret (NegInf, None)
    else
      p0 ← Cells.pos_get cells j;
      if causal && (p1 <? p0) then Ret (NegInf, Some p0)
      else
        later ← (if causal && is_2d && (p0 =? p1) then
                   p0_ext ← Cells.ext_get cells j; Ret (is_2d_gt p0_ext p1_x p1_y)
                 else Ret false);
        if later : bool then Ret (NegInf, Some p0)
        else
          masked ← (if swa then Kv.is_masked_swa (ka_n_swa a) (ka_swa_type a) p0 p1 else Ret false);
          if masked : bool then Ret (NegInf, Some p0)
          else Ret (Val (if alibi then - Z.abs (p0 - p1) else 0), Some p0).

(** [std::copy] of a row. *)
Definition copy_row (n_kv src dst : nat) (data : list mask_value) : outcome (list mask_value) :=
  foldM (fun data t => x ← at_ data (src + t); set_ data (dst + t) x) data (seq 0 n_kv).

(** A row computed from scratch; returns the cells that other tokens of the
    sequence have to look at again. *)
Definition full_row (causal swa is_2d alibi : bool) (a : kq_args) (cells : llama_kv_cells)
    (seq_id p1 p1_x p1_y min_pos : Z) (idst : nat) (data : list mask_value)
    : outcome (list mask_value * list nat) :=
  foldM (fun '(data, idxs) j =>
      '(v, p0) ← mask_cell causal swa is_2d alibi a cells seq_id p1 p1_x p1_y j;
      let idxs := match p0 with
                  | Some p0 => if negb alibi && (min_pos <=? p0 + i32 (u32 (ka_n_swa a + 32)))
                               then idxs ++ [j] else idxs
                  | None => idxs
                  end in
      data ← set_ data (idst + j) v;
      Ret (data, idxs))
    (data, []) (seq 0 (ka_n_kv a)).

(** A row copied from an earlier token, with the cells [idxs] computed again. *)
Definition reused_row (causal swa is_2d alibi : bool) (a : kq_args) (cells : llama_kv_cells)
    (seq_id p1 p1_x p1_y : Z) (idst : nat) (idxs : list nat) (data : list mask_value)
    : outcome (list mask_value) :=
  foldM (fun data j =>
      '(v, _) ← mask_cell causal swa is_2d alibi a cells seq_id p1 p1_x p1_y j;
      set_ data (idst + j) v)
    data (take (ka_n_kv a) idxs).

(** What a stream remembers: [seq_srct] and [seq_idxs]. *)
Definition row_memo : Type := gmap Z nat * gmap Z (list nat).

(** One token. *)
Definition token_row (causal swa is_2d alibi : bool) (a : kq_args) (mins : list Z) (s : nat)
    (acc : list mask_value * row_memo) (ii : nat) : outcome (list mask_value * row_memo) :=
  let '(data, (seq_srct, seq_idxs)) := acc in
  let u := ka_ubatch a in
  let i := (s * ka_n_tps a + ii)%nat in
  ids ← at_ (u_seq_id u) i;
  seq_id ← at_ ids 0;
  st ← at_z (ka_seq_to_stream a) seq_id;
  cells ← match ka_v_cells a !! st with Some c => Ret c | None => Throw "vector::at" end;
  p1 ← at_ (u_pos u) i;
  p1_x ← (if is_2d then at_ (u_pos u) (i + u_n_tokens u * 2) else Ret 0);
  p1_y ← (if is_2d then at_ (u_pos u) (i + u_n_tokens u) else Ret 0);
  let idst := (ka_n_kv a * i)%nat in
  min_pos ← at_z mins seq_id;
  match (if alibi then None else seq_srct !! seq_id) with
  | Some srct =>
      data ← copy_row (ka_n_kv a) (ka_n_kv a * srct) idst data;
      data ← reused_row causal swa is_2d alibi a cells seq_id p1 p1_x p1_y idst
               (default [] (seq_idxs !! seq_id)) data;
      Ret (data, (seq_srct, seq_idxs))
  | None =>
      '(data, idxs) ← full_row causal swa is_2d alibi a cells seq_id p1 p1_x p1_y min_pos idst data;
      Ret (data, (if alibi then seq_srct else <[seq_id := i]> seq_srct, <[seq_id := idxs]> seq_idxs))
  end.

Definition set_input_kq_mask_impl (causal swa is_2d alibi : bool) (a : kq_args)
    (data : list mask_value) : outcome (list mask_value) :=
  mins ← batch_pos_min (ka_ubatch a);
  foldM (fun data s =>
      '(data, _) ← foldM (token_row causal swa is_2d alibi a mins s) (data, (∅, ∅)) (seq 0 (ka_n_tps a));
      Ret data)
    data (seq 0 (ka_n_stream a)).

(** [set_input_kq_mask] for a tensor of [n_kv] columns and [n_stream] streams. *)
Definition set_input_kq_mask (k : llama_kv_cache) (use_alibi : bool) (n_kv n_stream : nat)
    (data : list mask_value) (ubatch : llama_ubatch) (causal_attn : bool) : outcome (list mask_value) :=
  if (n_stream =? 0)%nat then Undef
  else
    c_assert (u_n_tokens ubatch mod n_stream =? 0)%nat "n_tokens%n_stream == 0";;
    let a := mk_args use_alibi ubatch (kv_cells k) (kv_seq_to_stream k) (kv_n_swa k) (kv_swa_type k)
               n_kv n_stream (u_n_tokens ubatch / n_stream) in
    let swa := match kv_swa_type k with LLAMA_SWA_TYPE_NONE => false | _ => true end in
    set_input_kq_mask_impl causal_attn swa (3 <=? u_n_pos ubatch)%nat use_alibi a data.

End Mask.
End Inputs.

(** * The attention mask: the row-reusing loop against the plain definition.

    For tokens of one sequence the mask is copied from the sequence's first
    token and only the cells near the batch's positions are computed again.
    The result is the mask computed entry by entry from its definition
    [mask_ref]: which cell a token may attend to. *)

From Stdlib Require Import Lia.
Import Inputs.

#[export] Instance out_of_window_dec n_swa t p0 p1 : Decision (out_of_window n_swa t p0 p1).
Proof. destruct t; simpl; apply _. Defined.

Section Mask.
Context {E : Type}.
Notation llama_ubatch := (@llama_ubatch E).

(** ** The definition of the mask *)

(** A token of sequence [id] at position [p1] (and 2D position [x1], [y1]) sees the cell. *)
Definition sees (causal is_2d : bool) (n_swa : Z) (t : llama_swa_type) (x : kv_cell)
    (id p1 x1 y1 : Z) : bool :=
  negb (cell_pos x =? -1) && bool_decide (id ∈ cell_seq x)
  && (negb causal || ((cell_pos x <=? p1)
        && negb (is_2d && (cell_pos x =? p1) && is_2d_gt (cell_ext x) x1 y1)))
  && bool_decide (~ out_of_window n_swa t (cell_pos x) p1).

Definition mask_ref (causal is_2d alibi : bool) (n_swa : Z) (t : llama_swa_type) (x : kv_cell)
    (id p1 x1 y1 : Z) : mask_value :=
  if sees causal is_2d n_swa t x id p1 x1 y1 then Val (if alibi then - Z.abs (cell_pos x - p1) else 0)
  else NegInf.

(** A cell whose mask can differ between the tokens of the batch. *)
Definition recorded (n_swa : Z) (x : kv_cell) (id min_pos : Z) : bool :=
  negb (cell_pos x =? -1) && bool_decide (id ∈ cell_seq x) && (min_pos <=? cell_pos x + (n_swa + 32)).

(** The mask of the other cells is the same for all tokens of the sequence. *)
Lemma reuse_sound causal is_2d n_swa t x id min_pos p1 x1 y1 p2 x2 y2 : swa_ok n_swa t ->
  recorded n_swa x id min_pos = false -> min_pos <= p1 -> min_pos <= p2 ->
  sees causal is_2d n_swa t x id p1 x1 y1 = sees causal is_2d n_swa t x id p2 x2 y2.
Proof.
  intros [Hn Hc] Hrec H1 H2. unfold sees, recorded in *.
  destruct (negb (cell_pos x =? -1)); [|done]. destruct (bool_decide (id ∈ cell_seq x)); [|done].
  cbn [andb] in *. apply Z.leb_gt in Hrec. f_equal.
  - rewrite !(proj2 (Z.leb_le (cell_pos x) _)) by lia. rewrite !(proj2 (Z.eqb_neq (cell_pos x) _)) by lia.
    by rewrite andb_false_r.
  - apply bool_decide_ext. pose proof (i32_at_most n_swa Hn) as Hi.
    assert (Z.quot (i32 n_swa) 2 <= n_swa) by (apply Z.le_trans with (Z.quot n_swa 2); [by apply Z.quot_le_mono|apply Z.quot_le_upper_bound; lia]).
    unfold out_of_window. destruct t; [done|lia| |lia]. specialize (Hc eq_refl).
    assert (Hlow : forall p, min_pos <= p -> cell_pos x / n_swa < p / n_swa).
    { intros p Hp. apply Z.lt_le_trans with (cell_pos x / n_swa + 1); [lia|].
      rewrite <- (Z.div_add (cell_pos x) 1 n_swa) by lia. apply Z.div_le_mono; lia. }
    split; intros Hx; exfalso; apply Hx; by apply Hlow.
Qed.

(** ** One entry *)

Definition swa_flag (t : llama_swa_type) : bool := match t with LLAMA_SWA_TYPE_NONE => false | _ => true end.

Lemma mask_cell_ok causal is_2d alibi (a : @kq_args E) c id p1 x1 y1 j x : cells_ok c ->
  swa_ok (ka_n_swa a) (ka_swa_type a) -> kc_cells c !! j = Some x -> 0 <= id < MAX_SEQ -> 0 <= p1 ->
  mask_cell causal (swa_flag (ka_swa_type a)) is_2d alibi a c id p1 x1 y1 j
    = Ret (mask_ref causal is_2d alibi (ka_n_swa a) (ka_swa_type a) x id p1 x1 y1,
           if negb (cell_pos x =? -1) && bool_decide (id ∈ cell_seq x) then Some (cell_pos x) else None).
Proof.
  intros Hok Hswa Hj Hid Hp1. unfold mask_cell, mask_ref, sees.
  rewrite (is_empty_ok c Hok j x Hj). cbn [mbind outcome_bind].
  destruct (Z.eqb_spec (cell_pos x) (-1)) as [Hp|Hp]; [done|]. cbn [negb andb].
  rewrite (seq_has_ok c Hok j x id Hj Hid). cbn [mbind outcome_bind].
  destruct (bool_decide (id ∈ cell_seq x)); cbn [negb andb]; [|done].
  unfold Cells.pos_get, Cells.ext_get. rewrite (used_cell_Ret _ _ _ Hj Hp). cbn [mbind outcome_bind].
  pose proof (used_pos x (cell_ok_at _ _ _ Hok Hj) Hp) as Hp0. rewrite Z.ltb_antisym.
  assert (Hrest : (masked ← (if swa_flag (ka_swa_type a)
      then Kv.is_masked_swa (ka_n_swa a) (ka_swa_type a) (cell_pos x) p1 else Ret false);
    (if masked : bool then Ret (NegInf, Some (cell_pos x))
     else Ret (Val (if alibi then - Z.abs (cell_pos x - p1) else 0), Some (cell_pos x))))
    = Ret (if bool_decide (~ out_of_window (ka_n_swa a) (ka_swa_type a) (cell_pos x) p1)
           then Val (if alibi then - Z.abs (cell_pos x - p1) else 0) else NegInf, Some (cell_pos x))).
  { destruct (is_masked_swa_ok (ka_n_swa a) (ka_swa_type a) (cell_pos x) p1 Hswa Hp0 Hp1) as (b & Eb & Hb).
    assert (Hm : (if swa_flag (ka_swa_type a)
      then Kv.is_masked_swa (ka_n_swa a) (ka_swa_type a) (cell_pos x) p1 else Ret false) = Ret b).
    { rewrite Eb. destruct (ka_swa_type a); simpl in *; try done. destruct b; [|done]. destruct Hb as [[] _]; done. }
    rewrite Hm. cbn [mbind outcome_bind]. destruct b.
    - rewrite bool_decide_eq_false_2; [done|]. intros Hno. apply Hno. by apply Hb.
    - rewrite bool_decide_eq_true_2; [done|]. intros Ho. by apply Hb in Ho. }
  destruct causal; cbn [negb andb orb]; [|by rewrite Hrest].
  destruct (Z.leb_spec (cell_pos x) p1); cbn [negb andb]; [|done].
  destruct is_2d; cbn [andb]; [|by rewrite Hrest].
  destruct (Z.eqb_spec (cell_pos x) p1); cbn [andb]; [|by rewrite Hrest].
  cbn [mbind outcome_bind]. destruct (is_2d_gt (cell_ext x) x1 y1); cbn [negb]; [done|]. by rewrite Hrest.
Qed.

(** ** Rows *)

(** [data] holds the row [f] of [n] entries from [base] on. *)
Definition row_is (data : list mask_value) (base n : nat) (f : nat -> mask_value) : Prop :=
  forall j, (j < n)%nat -> data !! (base + j)%nat = Some (f j).

(** [data'] differs from [data] only in the [n] entries from [base] on. *)
Definition frame (data data' : list mask_value) (base n : nat) : Prop :=
  length data' = length data /\
  forall t, (t < base)%nat \/ (base + n <= t)%nat -> data' !! t = data !! t.

Lemma frame_refl data base n : frame data data base n.
Proof. by split. Qed.

Lemma frame_trans d1 d2 d3 base n : frame d1 d2 base n -> frame d2 d3 base n -> frame d1 d3 base n.
Proof. intros [L1 H1] [L2 H2]. split; [congruence|]. intros t Ht. by rewrite H2, H1. Qed.

Lemma frame_insert data d base n j v : frame data d base n -> (j < n)%nat ->
  frame data (<[(base + j)%nat := v]> d) base n.
Proof.
  intros [Hl H] Hj. split; [by rewrite length_insert|]. intros t Ht. rewrite list_lookup_insert_ne by lia. auto.
Qed.

(** A loop that writes the entries [g j] of a row, for the [j] of a list. *)
Lemma write_row (step : list mask_value -> nat -> outcome (list mask_value))
    (g : nat -> mask_value) data base n l :
  (base + n <= length data)%nat -> (forall j, j ∈ l -> (j < n)%nat) ->
  (forall d j, j ∈ l -> step d j = set_ d (base + j) (g j)) ->
  exists d, foldM step data l = Ret d /\ frame data d base n
    /\ (forall j, j ∈ l -> d !! (base + j)%nat = Some (g j))
    /\ (forall j, (j < n)%nat -> j ∉ l -> d !! (base + j)%nat = data !! (base + j)%nat).
Proof.
  intros Hlen Hl Hstep.
  destruct (foldM_prefix step (fun pre d => frame data d base n
    /\ (forall j, j ∈ pre -> d !! (base + j)%nat = Some (g j))
    /\ (forall j, (j < n)%nat -> j ∉ pre -> d !! (base + j)%nat = data !! (base + j)%nat)) data l)
    as (d & -> & H); [| |by exists d].
  - split_and!; [apply frame_refl|intros j Hj; by apply elem_of_nil in Hj|done].
  - intros pre j rest d Hall (Hf & Hin & Hout).
    assert (Hj : j ∈ l) by (rewrite Hall; set_solver). pose proof (Hl j Hj) as Hjn.
    rewrite (Hstep d j Hj). unfold set_. pose proof Hf as [Hfl _]. rewrite decide_True by lia.
    eexists. split; [reflexivity|]. split_and!; [by apply frame_insert| |].
    + intros j' Hj'. destruct (decide (j' = j)) as [->|Hne]; [by apply list_lookup_insert_eq; lia|].
      rewrite list_lookup_insert_ne by lia. apply Hin. set_solver.
    + intros j' Hj' Hn. apply not_elem_of_app in Hn as [Hn Hne]. rewrite list_elem_of_singleton in Hne.
      rewrite list_lookup_insert_ne by lia. by apply Hout.
Qed.

(** A loop that also carries a state of its own. *)
Lemma foldM_pair {A B S} (step : B * S -> A -> outcome (B * S)) (f : B -> A -> outcome B) (next : S -> A -> S) l :
  (forall d s j, j ∈ l -> step (d, s) j = (d ← f d j; Ret (d, next s j))) -> forall d0 s0,
  foldM step (d0, s0) l = (d ← foldM f d0 l; Ret (d, foldl next s0 l)).
Proof.
  induction l as [|x l IH]; intros H d0 s0; [done|]. simpl. rewrite (H d0 s0 x ltac:(left)).
  destruct (f d0 x); [|done..]. simpl. apply IH. intros d s j Hj. apply H. by right.
Qed.

Lemma foldl_filter (p : nat -> bool) l : forall acc,
  foldl (fun acc j => if p j then acc ++ [j] else acc) acc l = acc ++ List.filter p l.
Proof.
  induction l as [|x l IH]; intros acc; simpl; [by rewrite app_nil_r|].
  rewrite IH. destruct (p x); [by rewrite <- app_assoc|done].
Qed.

Lemma copy_row_ok data n src dst f : (src + n <= dst)%nat -> (dst + n <= length data)%nat ->
  row_is data src n f ->
  exists d, copy_row n src dst data = Ret d /\ frame data d dst n /\ row_is d dst n f.
Proof.
  intros Hsrc Hdst Hrow. unfold copy_row.
  destruct (foldM_prefix (fun data t => x ← at_ data (src + t); set_ data (dst + t) x)
    (fun pre d => frame data d dst n /\ forall j, j ∈ pre -> d !! (dst + j)%nat = Some (f j)) data (seq 0 n))
    as (d & -> & Hf & Hd).
  - split; [apply frame_refl|]. intros j Hj. by apply elem_of_nil in Hj.
  - intros pre j rest d Hall [Hf Hd]. assert (Hj : j ∈ seq 0 n) by (rewrite Hall; set_solver).
    apply elem_of_seq in Hj. pose proof Hf as [Hfl Hfo].
    assert (Hx : d !! (src + j)%nat = Some (f j)) by (rewrite Hfo by lia; apply Hrow; lia).
    rewrite (proj2 (at_Ret _ _ _) Hx). cbn [mbind outcome_bind]. unfold set_. rewrite decide_True by lia.
    eexists. split; [reflexivity|]. split; [apply frame_insert; [done|lia]|]. intros j' Hj'.
    destruct (decide (j' = j)) as [->|Hne]; [by apply list_lookup_insert_eq; lia|].
    rewrite list_lookup_insert_ne by lia. apply Hd. set_solver.
  - exists d. split_and!; [done|done|]. intros j Hj. apply Hd. apply elem_of_seq. lia.
Qed.

(** ** The tokens of a ubatch *)

Definition tok_id (u : llama_ubatch) (i : nat) : Z :=
  match u_seq_id u !! i with Some ids => default 0 (ids !! 0%nat) | None => 0 end.
Definition tok_pos (u : llama_ubatch) (i : nat) : Z := default 0 (u_pos u !! i).
Definition tok_x (is_2d : bool) (u : llama_ubatch) (i : nat) : Z :=
  if is_2d then tok_pos u (i + u_n_tokens u * 2) else 0.
Definition tok_y (is_2d : bool) (u : llama_ubatch) (i : nat) : Z :=
  if is_2d then tok_pos u (i + u_n_tokens u) else 0.

(** The cell in column [j] of the row of token [i]. *)
Definition mask_column (a : @kq_args E) (i j : nat) : kv_cell :=
  default empty_cell (st ← ka_seq_to_stream a !! Z.to_nat (tok_id (ka_ubatch a) i);
    c ← ka_v_cells a !! st; kc_cells c !! j).

(** The mask, entry by entry. *)
Definition mask_entry (causal is_2d : bool) (a : @kq_args E) (i j : nat) : mask_value :=
  let u := ka_ubatch a in
  mask_ref causal is_2d (ka_use_alibi a) (ka_n_swa a) (ka_swa_type a) (mask_column a i j)
    (tok_id u i) (tok_pos u i) (tok_x is_2d u i) (tok_y is_2d u i).

(** The arguments describe a valid ubatch over valid cells. *)
Record args_ok (is_2d : bool) (a : @kq_args E) : Prop := {
  arg_swa : swa_ok (ka_n_swa a) (ka_swa_type a);
  arg_n_swa : ka_n_swa a < 2 ^ 31 - 32;
  arg_tokens : u_n_tokens (ka_ubatch a) = (ka_n_stream a * ka_n_tps a)%nat;
  arg_token : forall i, (i < u_n_tokens (ka_ubatch a))%nat -> exists ids id p st c,
    u_seq_id (ka_ubatch a) !! i = Some ids /\ ids !! 0%nat = Some id /\ 0 <= id < MAX_SEQ
    /\ u_pos (ka_ubatch a) !! i = Some p /\ 0 <= p
    /\ ka_seq_to_stream a !! Z.to_nat id = Some st /\ ka_v_cells a !! st = Some c
    /\ cells_ok c /\ (ka_n_kv a <= Cells.size c)%nat
    /\ (is_2d = true -> is_Some (u_pos (ka_ubatch a) !! (i + u_n_tokens (ka_ubatch a) * 2)%nat)
         /\ is_Some (u_pos (ka_ubatch a) !! (i + u_n_tokens (ka_ubatch a))%nat));
}.

Section Args.
Context (causal is_2d : bool) (a : @kq_args E).
Hypothesis Ha : args_ok is_2d a.
Notation u := (ka_ubatch a).
Notation n_kv := (ka_n_kv a).

Lemma token_data i : (i < u_n_tokens u)%nat -> exists ids st c,
  u_seq_id u !! i = Some ids /\ ids !! 0%nat = Some (tok_id u i) /\ 0 <= tok_id u i < MAX_SEQ
  /\ u_pos u !! i = Some (tok_pos u i) /\ 0 <= tok_pos u i
  /\ ka_seq_to_stream a !! Z.to_nat (tok_id u i) = Some st /\ ka_v_cells a !! st = Some c
  /\ cells_ok c /\ (n_kv <= Cells.size c)%nat
  /\ (forall j, (j < n_kv)%nat -> kc_cells c !! j = Some (mask_column a i j)).
Proof.
  intros Hi. destruct (arg_token _ _ Ha i Hi) as (ids & id & p & st & c & H1 & H2 & H3 & H4 & H5 & H6 & H7 & H8 & H9 & _).
  assert (Eid : tok_id u i = id) by (unfold tok_id; by rewrite H1, H2).
  assert (Ep : tok_pos u i = p) by (unfold tok_pos; by rewrite H4).
  exists ids, st, c. rewrite Eid, Ep. split_and!; try done; try lia.
  intros j Hj. unfold mask_column. rewrite Eid, H6. cbn [mbind option_bind]. rewrite H7. cbn [mbind option_bind].
  destruct (lookup_lt_is_Some_2 (kc_cells c) j) as [x Hx]; [unfold Cells.size in H9; lia|]. by rewrite Hx.
Qed.

Lemma token_2d i : (i < u_n_tokens u)%nat ->
  (if is_2d then at_ (u_pos u) (i + u_n_tokens u * 2) else Ret 0) = Ret (tok_x is_2d u i)
  /\ (if is_2d then at_ (u_pos u) (i + u_n_tokens u) else Ret 0) = Ret (tok_y is_2d u i).
Proof.
  intros Hi. destruct (arg_token _ _ Ha i Hi) as (_ & _ & _ & _ & _ & _ & _ & _ & _ & _ & _ & _ & _ & _ & H).
  unfold tok_x, tok_y, tok_pos. destruct is_2d; [|done]. destruct (H eq_refl) as [[x Hx] [y Hy]].
  by rewrite (proj2 (at_Ret _ _ _) Hx), (proj2 (at_Ret _ _ _) Hy), Hx, Hy.
Qed.

(** The positions that [batch_pos_min] finds bound those of the tokens. *)
Lemma batch_pos_min_ok : exists mins, batch_pos_min u = Ret mins /\
  forall i, (i < u_n_tokens u)%nat -> exists v, mins !! Z.to_nat (tok_id u i) = Some v /\ v <= tok_pos u i.
Proof.
  unfold batch_pos_min. remember (Z.to_nat MAX_SEQ) as m256 eqn:H256.
  destruct (foldM_prefix (fun mins i => ids ← at_ (u_seq_id u) i; seq_id ← at_ ids 0; old ← at_z mins seq_id;
      p ← at_ (u_pos u) i; set_ mins (Z.to_nat seq_id) (Z.min old p))
    (fun pre mins => length mins = m256 /\ forall i, i ∈ pre ->
       exists v, mins !! Z.to_nat (tok_id u i) = Some v /\ v <= tok_pos u i)
    (replicate m256 INT32_MAX) (seq 0 (u_n_tokens u))) as (mins & -> & Hlen & Hm).
  - split; [apply length_replicate|]. intros i Hi. by apply elem_of_nil in Hi.
  - intros pre i rest mins Hall [Hlen Hm]. assert (Hi : i ∈ seq 0 (u_n_tokens u)) by (rewrite Hall; set_solver).
    apply elem_of_seq in Hi. destruct (token_data i) as (ids & st & c & H1 & H2 & H3 & H4 & _); [lia|].
    rewrite (proj2 (at_Ret _ _ _) H1). cbn [mbind outcome_bind]. rewrite (proj2 (at_Ret _ _ _) H2). cbn [mbind outcome_bind].
    destruct (lookup_lt_is_Some_2 mins (Z.to_nat (tok_id u i))) as [old Hold]; [lia|].
    rewrite (at_z_Ret _ _ _ (proj1 H3) Hold). cbn [mbind outcome_bind].
    rewrite (proj2 (at_Ret _ _ _) H4). cbn [mbind outcome_bind]. unfold set_. rewrite decide_True by lia.
    eexists. split; [reflexivity|]. rewrite length_insert. split; [done|]. intros i' Hi'.
    destruct (decide (Z.to_nat (tok_id u i') = Z.to_nat (tok_id u i))) as [Heq|Hne].
    + rewrite Heq, list_lookup_insert_eq by lia. eexists. split; [done|].
      apply elem_of_app in Hi' as [Hi'|Hi'%list_elem_of_singleton]; [|subst; lia].
      destruct (Hm i' Hi') as (v & Hv & Hle). rewrite Heq in Hv. assert (v = old) as -> by congruence. lia.
    + rewrite list_lookup_insert_ne by done. apply Hm. apply elem_of_app in Hi' as [|Hi'%list_elem_of_singleton]; [done|].
      by subst.
  - exists mins. split; [done|]. intros i Hi. apply Hm. apply elem_of_seq. lia.
Qed.

(** ** The loops *)

Notation swa := (swa_flag (ka_swa_type a)).
Notation alibi := (ka_use_alibi a).

(** The cells of token [i]'s row that are recorded. *)
Definition near (min_pos : Z) (i j : nat) : bool :=
  negb alibi && recorded (ka_n_swa a) (mask_column a i j) (tok_id u i) min_pos.

Lemma reach_eq : i32 (u32 (ka_n_swa a + 32)) = ka_n_swa a + 32.
Proof.
  destruct (arg_swa _ _ Ha) as [H0 _]. pose proof (arg_n_swa _ _ Ha) as H1.
  change (2 ^ 31) with 2147483648 in H1.
  rewrite u32_small; [rewrite i32_small; [done|]|]; [change (2 ^ 31) with 2147483648|change (2 ^ 32) with 4294967296]; lia.
Qed.

Section Token.
Context (i : nat) (Hi : (i < u_n_tokens u)%nat) (st : nat) (c : llama_kv_cells).
Hypotheses (Hst : ka_seq_to_stream a !! Z.to_nat (tok_id u i) = Some st) (Hc : ka_v_cells a !! st = Some c).

Lemma entry_ok j : (j < n_kv)%nat ->
  mask_cell causal swa is_2d alibi a c (tok_id u i) (tok_pos u i) (tok_x is_2d u i) (tok_y is_2d u i) j
    = Ret (mask_entry causal is_2d a i j,
           if negb (cell_pos (mask_column a i j) =? -1) && bool_decide (tok_id u i ∈ cell_seq (mask_column a i j))
           then Some (cell_pos (mask_column a i j)) else None).
Proof.
  intros Hj. destruct (token_data i Hi) as (ids & st' & c' & _ & _ & Hid & _ & Hp & Hst' & Hc' & Hok & _ & Hcol).
  assert (st' = st) as -> by congruence. assert (c' = c) as -> by congruence.
  apply mask_cell_ok; [done|apply (arg_swa _ _ Ha)|by apply Hcol|done|done].
Qed.

Lemma full_row_ok min_pos idst data : (idst + n_kv <= length data)%nat ->
  exists d, full_row causal swa is_2d alibi a c (tok_id u i) (tok_pos u i) (tok_x is_2d u i) (tok_y is_2d u i)
      min_pos idst data = Ret (d, List.filter (near min_pos i) (seq 0 n_kv))
    /\ frame data d idst n_kv /\ row_is d idst n_kv (mask_entry causal is_2d a i).
Proof.
  intros Hlen. unfold full_row.
  destruct (write_row (fun d j => set_ d (idst + j) (mask_entry causal is_2d a i j))
    (mask_entry causal is_2d a i) data idst n_kv (seq 0 n_kv)) as (d & E1 & Hf & Hd & _).
  { done. } { intros j Hj%elem_of_seq. lia. } { done. }
  rewrite (foldM_pair _ (fun d j => set_ d (idst + j) (mask_entry causal is_2d a i j))
    (fun idxs j => if near min_pos i j then idxs ++ [j] else idxs)).
  - rewrite E1, foldl_filter. cbn [mbind outcome_bind app]. exists d. split_and!; [done|done|].
    intros j Hj. apply Hd, elem_of_seq. lia.
  - intros d' idxs j Hj%elem_of_seq. rewrite entry_ok by lia. cbn [mbind outcome_bind]. unfold near, recorded.
    rewrite reach_eq. destruct (set_ d' (idst + j) _) as [d''| | | |]; [|done..]. cbn [mbind outcome_bind].
    destruct (negb (cell_pos _ =? -1) && bool_decide _); cbn [andb]; [done|by rewrite andb_false_r].
Qed.

(** Copying the row of an earlier token [i0] of the sequence and refreshing the recorded cells. *)
Lemma reused_row_ok min_pos idst data i0 : (idst + n_kv <= length data)%nat -> alibi = false ->
  tok_id u i0 = tok_id u i -> min_pos <= tok_pos u i -> min_pos <= tok_pos u i0 ->
  row_is data idst n_kv (mask_entry causal is_2d a i0) ->
  exists d, reused_row causal swa is_2d alibi a c (tok_id u i) (tok_pos u i) (tok_x is_2d u i) (tok_y is_2d u i)
      idst (List.filter (near min_pos i0) (seq 0 n_kv)) data = Ret d
    /\ frame data d idst n_kv /\ row_is d idst n_kv (mask_entry causal is_2d a i).
Proof.
  intros Hlen Hal Hid Hp Hp0 Hrow. unfold reused_row.
  set (l := List.filter (near min_pos i0) (seq 0 n_kv)).
  assert (Hll : (length l <= n_kv)%nat).
  { pose proof (List.filter_length_le (near min_pos i0) (seq 0 n_kv)) as H. by rewrite length_seq in H. }
  rewrite take_ge by done.
  assert (Hl : forall j, j ∈ l <-> (j < n_kv)%nat /\ near min_pos i0 j = true).
  { intros j. unfold l. rewrite list_elem_of_In, List.filter_In, List.in_seq.
    split; intros [H1 H2]; (split; [lia|done]). }
  destruct (write_row (fun d j => '(v, _) ← mask_cell causal swa is_2d alibi a c (tok_id u i) (tok_pos u i)
      (tok_x is_2d u i) (tok_y is_2d u i) j; set_ d (idst + j) v)
    (mask_entry causal is_2d a i) data idst n_kv l) as (d & E1 & Hf & Hin & Hout); [done| | |].
  { intros j Hj%Hl. lia. }
  { intros d j Hj%Hl. by rewrite entry_ok by lia. }
  exists d. split_and!; [exact E1|done|]. intros j Hj. destruct (decide (j ∈ l)) as [Hjl|Hjl]; [by apply Hin|].
  rewrite Hout, Hrow by done. f_equal.
  assert (Hn : near min_pos i0 j = false). { apply not_true_iff_false. intros H. apply Hjl. by apply Hl. }
  unfold near in Hn. rewrite Hal in Hn. cbn [negb andb] in Hn.
  assert (Hcol : mask_column a i0 j = mask_column a i j) by (unfold mask_column; by rewrite Hid).
  rewrite Hcol, Hid in Hn. unfold mask_entry. cbv zeta. rewrite Hcol, Hid, Hal. unfold mask_ref.
  rewrite (reuse_sound causal is_2d (ka_n_swa a) (ka_swa_type a) (mask_column a i j) (tok_id u i) min_pos
    (tok_pos u i0) (tok_x is_2d u i0) (tok_y is_2d u i0) (tok_pos u i) (tok_x is_2d u i) (tok_y is_2d u i)
    (arg_swa _ _ Ha) Hn Hp0 Hp). done.
Qed.

End Token.

(** The rows of the first [cnt] tokens are final. *)
Definition rows_done (data : list mask_value) (cnt : nat) : Prop :=
  length data = (n_kv * u_n_tokens u)%nat /\
  forall i, (i < cnt)%nat -> row_is data (n_kv * i) n_kv (mask_entry causal is_2d a i).

(** The remembered rows belong to earlier tokens of their sequences. *)
Definition memo_ok (mins : list Z) (cnt : nat) (memo : row_memo) : Prop :=
  alibi = false -> forall id i0, memo.1 !! id = Some i0 -> (i0 < cnt)%nat /\ tok_id u i0 = id /\
    exists v, mins !! Z.to_nat id = Some v /\ v <= tok_pos u i0
      /\ memo.2 !! id = Some (List.filter (near v i0) (seq 0 n_kv)).

Definition mins_ok (mins : list Z) : Prop := forall i, (i < u_n_tokens u)%nat ->
  exists v, mins !! Z.to_nat (tok_id u i) = Some v /\ v <= tok_pos u i.

Lemma rows_next data d i : rows_done data i -> frame data d (n_kv * i) n_kv ->
  row_is d (n_kv * i) n_kv (mask_entry causal is_2d a i) -> rows_done d (S i).
Proof.
  intros [Hlen Hrows] [Hfl Hfo] Hrow. split; [congruence|]. intros i' Hi'.
  destruct (decide (i' = i)) as [->|Hne]; [done|]. intros j Hj. rewrite Hfo by nia. apply Hrows; lia.
Qed.

Lemma token_row_ok mins s ii data memo : mins_ok mins -> (s < ka_n_stream a)%nat -> (ii < ka_n_tps a)%nat ->
  let i := (s * ka_n_tps a + ii)%nat in
  rows_done data i -> memo_ok mins i memo ->
  exists d memo', token_row causal swa is_2d alibi a mins s (data, memo) ii = Ret (d, memo')
    /\ rows_done d (S i) /\ memo_ok mins (S i) memo'.
Proof.
  intros Hmins Hs Hii i Hrows Hmemo. pose proof (arg_tokens _ _ Ha) as Hn.
  assert (Hi : (i < u_n_tokens u)%nat) by (unfold i; nia). destruct Hrows as [Hlen Hrows].
  assert (Hroom : (n_kv * i + n_kv <= length data)%nat) by (rewrite Hlen; nia).
  destruct (token_data i Hi) as (ids & st & c & H1 & H2 & Hid & H4 & Hp & Hst & Hc & _).
  destruct (token_2d i Hi) as [Hx Hy]. destruct (Hmins i Hi) as (v & Hv & Hvp).
  destruct memo as [srct idxs]. unfold token_row. cbv zeta. fold i.
  rewrite (proj2 (at_Ret _ _ _) H1). cbn [mbind outcome_bind]. rewrite (proj2 (at_Ret _ _ _) H2). cbn [mbind outcome_bind].
  rewrite (at_z_Ret _ _ _ (proj1 Hid) Hst). cbn [mbind outcome_bind]. rewrite Hc. cbn [mbind outcome_bind].
  rewrite (proj2 (at_Ret _ _ _) H4). cbn [mbind outcome_bind]. rewrite Hx, Hy. cbn [mbind outcome_bind].
  rewrite (at_z_Ret _ _ _ (proj1 Hid) Hv). cbn [mbind outcome_bind].
  assert (Hfull : exists d memo', ('(d, l) ← full_row causal swa is_2d alibi a c (tok_id u i) (tok_pos u i)
       (tok_x is_2d u i) (tok_y is_2d u i) v (n_kv * i) data;
       Ret (d, (if alibi then srct else <[tok_id u i := i]> srct, <[tok_id u i := l]> idxs))) = Ret (d, memo')
     /\ rows_done d (S i) /\ memo_ok mins (S i) memo').
  { destruct (full_row_ok i Hi st c Hst Hc v (n_kv * i) data Hroom) as (d & -> & Hf & Hrow).
    cbn [mbind outcome_bind]. eexists _, _. split; [reflexivity|]. split; [by eapply rows_next|].
    intros Hal id i0. rewrite Hal. cbn [fst snd]. intros [[<- <-]|[Hne H0]]%lookup_insert_Some.
    - split_and!; [lia|done|]. exists v. split_and!; [done|done|]. by rewrite lookup_insert_eq.
    - destruct (Hmemo Hal id i0 H0) as (Hlt & Ht & w & Hw & Hwp & Hl). split_and!; [lia|done|]. exists w.
      split_and!; [done|done|]. by rewrite lookup_insert_ne. }
  destruct alibi eqn:Hal; [exact Hfull|]. destruct (srct !! tok_id u i) as [i0|] eqn:H0; [|exact Hfull]. clear Hfull.
  destruct (Hmemo Hal _ _ H0) as (Hlt & Ht & w & Hw & Hwp & Hl). cbn [fst snd] in *.
  assert (w = v) as -> by congruence. rewrite Hl. cbn [from_option id].
  destruct (copy_row_ok data n_kv (n_kv * i0) (n_kv * i) (mask_entry causal is_2d a i0)) as (d1 & -> & Hf1 & Hrow1);
    [nia|done|by apply Hrows|].
  cbn [mbind outcome_bind]. rewrite <- Hal.
  destruct (reused_row_ok i Hi st c Hst Hc v (n_kv * i) d1 i0) as (d2 & -> & Hf2 & Hrow2); try done.
  { by destruct Hf1 as [-> _]. }
  cbn [mbind outcome_bind]. eexists _, _. split; [reflexivity|]. split.
  - eapply rows_next; [by split| |exact Hrow2]. by eapply frame_trans.
  - intros _ id i1 H5. destruct (Hmemo Hal id i1 H5) as (Hlt' & ?). split; [lia|done].
Qed.

Lemma mask_impl_ok data : length data = (n_kv * u_n_tokens u)%nat ->
  exists d, set_input_kq_mask_impl causal swa is_2d alibi a data = Ret d /\ rows_done d (u_n_tokens u).
Proof.
  intros Hlen. unfold set_input_kq_mask_impl. destruct batch_pos_min_ok as (mins & -> & Hmins).
  cbn [mbind outcome_bind].
  destruct (foldM_prefix (fun data s => '(data, _) ← foldM (token_row causal swa is_2d alibi a mins s) (data, (∅, ∅))
      (seq 0 (ka_n_tps a)); Ret data)
    (fun pre d => rows_done d (length pre * ka_n_tps a)) data (seq 0 (ka_n_stream a))) as (d & -> & Hd).
  - split; [done|]. simpl. lia.
  - intros pre s rest b Hall Hb.
    assert (Hs : seq 0 (ka_n_stream a) !! length pre = Some s) by (rewrite Hall, lookup_app_r, Nat.sub_diag by lia; done).
    apply lookup_seq in Hs as [-> Hs]. cbn [Nat.add].
    destruct (foldM_prefix (token_row causal swa is_2d alibi a mins (length pre))
      (fun pre' acc => rows_done acc.1 (length pre * ka_n_tps a + length pre')
         /\ memo_ok mins (length pre * ka_n_tps a + length pre') acc.2) (b, (∅, ∅)) (seq 0 (ka_n_tps a)))
      as ([d memo] & -> & Hd & _).
    + cbn [fst snd length]. rewrite Nat.add_0_r. split; [done|]. intros _ id i0 H0. cbn [fst] in H0; by rewrite lookup_empty in H0.
    + intros pre' ii rest' [b' memo] Hall' [Hb' Hmemo].
      assert (Hii : seq 0 (ka_n_tps a) !! length pre' = Some ii) by (rewrite Hall', lookup_app_r, Nat.sub_diag by lia; done).
      apply lookup_seq in Hii as [-> Hii]. cbn [fst snd Nat.add] in *.
      destruct (token_row_ok mins (length pre) (length pre') b' memo Hmins Hs Hii Hb' Hmemo) as (d & memo' & -> & Hd & Hm).
      eexists. split; [reflexivity|]. rewrite length_app. simpl.
      replace (length pre * ka_n_tps a + (length pre' + 1))%nat with (S (length pre * ka_n_tps a + length pre')) by lia.
      done.
    + cbn [fst] in Hd. rewrite length_seq in Hd. cbn [mbind outcome_bind]. eexists. split; [reflexivity|].
      rewrite length_app. simpl.
      by replace ((length pre + 1) * ka_n_tps a)%nat with (length pre * ka_n_tps a + ka_n_tps a)%nat by lia.
  - exists d. split; [done|]. by rewrite length_seq, <- (arg_tokens _ _ Ha) in Hd.
Qed.

End Args.
End Mask.
