(* ===== verification/KvContext.v ===== *)
(** * Memory contexts: [src/llama-memory.cpp], the context of the KV cache at the
    end of [src/llama-kv-cache.cpp], and the cache pair of
    [src/llama-kv-cache-iswa.cpp].

    A context walks through the ubatches of a batch: [apply] places the current
    one into the slot found for it, [next] moves on. *)

From S2P Require Import Prelude KvCells Batch KvCache KvInputs KvCellsFacts KvCacheFacts KvCopy KvSlot KvPlace.
(** ** The status of a context *)

Inductive llama_memory_status :=
  | LLAMA_MEMORY_STATUS_SUCCESS | LLAMA_MEMORY_STATUS_NO_UPDATE
  | LLAMA_MEMORY_STATUS_FAILED_PREPARE | LLAMA_MEMORY_STATUS_FAILED_COMPUTE.

Definition llama_memory_status_is_fail (s : llama_memory_status) : bool :=
  match s with
  | LLAMA_MEMORY_STATUS_SUCCESS | LLAMA_MEMORY_STATUS_NO_UPDATE => false
  | LLAMA_MEMORY_STATUS_FAILED_PREPARE | LLAMA_MEMORY_STATUS_FAILED_COMPUTE => true
  end.

Definition llama_memory_status_combine (s0 s1 : llama_memory_status) : llama_memory_status :=
  let has_update s := match s with LLAMA_MEMORY_STATUS_SUCCESS => true | _ => false end in
  if llama_memory_status_is_fail s0 then s0
  else if llama_memory_status_is_fail s1 then s1
  else if has_update s0 || has_update s1 then LLAMA_MEMORY_STATUS_SUCCESS
  else LLAMA_MEMORY_STATUS_NO_UPDATE.

Module Context.
Section Context.
Context {E : Type}.
Notation llama_ubatch := (@llama_ubatch E).

(** ** [llama_kv_cache_context]; the cache it points to is passed to the operations. *)
Record kv_context := mk_context {
  cx_status : llama_memory_status;
  cx_do_shift : bool;
  cx_sc_info : list (nat * nat);
  cx_i_cur : nat;
  cx_sinfos : list slot_info;
  cx_ubatches : list llama_ubatch;
  cx_n_kv : Z;
}.

Definition fail_context (s : llama_memory_status) : kv_context := mk_context s false [] 0 [] [] 0.

(** The context of a full cache, with a dummy slot for every stream. *)
Definition full_context (k : llama_kv_cache) : outcome kv_context :=
  n ← Kv.get_size k;
  let n_stream := Kv.get_n_stream k in
  Ret (mk_context LLAMA_MEMORY_STATUS_SUCCESS false [] 0
         [mk_slot 0 (n_stream - 1) (seq 0 n_stream) (replicate n_stream [0%nat])] [] (Z.of_nat n)).

Definition update_context (do_shift : bool) (sc_info : list (nat * nat)) : kv_context :=
  mk_context (if negb do_shift && match sc_info with [] => true | _ => false end
              then LLAMA_MEMORY_STATUS_NO_UPDATE else LLAMA_MEMORY_STATUS_SUCCESS)
    do_shift sc_info 0 [] [] 0.

Definition batch_context (sinfos : list slot_info) (ubatches : list llama_ubatch) : kv_context :=
  mk_context LLAMA_MEMORY_STATUS_SUCCESS false [] 0 sinfos ubatches 0.

Definition set_i_cur (cx : kv_context) (i : nat) : kv_context :=
  mk_context (cx_status cx) (cx_do_shift cx) (cx_sc_info cx) i (cx_sinfos cx) (cx_ubatches cx) (cx_n_kv cx).
Definition set_n_kv (cx : kv_context) (n : Z) : kv_context :=
  mk_context (cx_status cx) (cx_do_shift cx) (cx_sc_info cx) (cx_i_cur cx) (cx_sinfos cx) (cx_ubatches cx) n.

Definition is_success (s : llama_memory_status) : bool :=
  match s with LLAMA_MEMORY_STATUS_SUCCESS => true | _ => false end.

Definition next (cx : kv_context) : outcome (bool * kv_context) :=
  c_assert (is_success (cx_status cx)) "status == LLAMA_MEMORY_STATUS_SUCCESS";;
  let cx := set_i_cur cx (S (cx_i_cur cx)) in
  Ret (negb (length (cx_ubatches cx) <=? cx_i_cur cx)%nat, cx).

(** The flags describe what the update of the cache can do. *)
Definition apply (can_shift has_rope computed : bool) (k : llama_kv_cache) (cx : kv_context)
    : outcome (bool * llama_kv_cache * kv_context) :=
  c_assert (negb (llama_memory_status_is_fail (cx_status cx))) "!llama_memory_status_is_fail(status)";;
  match cx_ubatches cx with
  | [] =>
      '(_, k) ← Kv.update can_shift has_rope computed k (cx_do_shift cx) (cx_sc_info cx);
      Ret (true, k, cx)
  | _ =>
      sinfo ← at_ (cx_sinfos cx) (cx_i_cur cx);
      u ← at_ (cx_ubatches cx) (cx_i_cur cx);
      k ← Kv.apply_ubatch k sinfo u;
      n_kv ← Inputs.get_n_kv k sinfo;
      Ret (true, k, set_n_kv cx n_kv)
  end.

Definition get_ubatch (cx : kv_context) : outcome llama_ubatch :=
  c_assert (is_success (cx_status cx)) "status == LLAMA_MEMORY_STATUS_SUCCESS";;
  at_ (cx_ubatches cx) (cx_i_cur cx).

(** [init_batch] of the KV cache as a context. *)
Definition init_batch (k : llama_kv_cache) (balloc : @llama_batch_allocr E) (n_ubatch : nat)
    : outcome (kv_context * llama_kv_cache * @llama_batch_allocr E) :=
  '(r, k, balloc) ← Kv.init_batch k balloc n_ubatch;
  Ret (match r with
       | Some (sinfos, ubatches) => batch_context sinfos ubatches
       | None => fail_context LLAMA_MEMORY_STATUS_FAILED_PREPARE
       end, k, balloc).

(** [init_update] of the KV cache as a context. *)
Definition init_update (k : llama_kv_cache) : outcome (kv_context * llama_kv_cache) :=
  '(do_shift, sc_info, k) ← Kv.init_update k; Ret (update_context do_shift sc_info, k).

(** How a context is used: [do { apply(); ... } while (next());] *)
Fixpoint run_context (fuel : nat) (k : llama_kv_cache) (cx : kv_context)
    : outcome (llama_kv_cache * kv_context) :=
  match fuel with
  | O => NoFuel
  | S fuel =>
      '(_, k, cx) ← apply false false false k cx;
      '(more, cx) ← next cx;
      if more : bool then run_context fuel k cx else Ret (k, cx)
  end.

(** ** [llama_kv_cache_iswa]: a cache for all positions and one for the window. *)

Record kv_iswa := mk_iswa { kv_base : llama_kv_cache; kv_swa : llama_kv_cache; iswa_unified : bool }.

(** The size of the window's cache. *)
Definition size_swa (n_swa kv_size n_seq_max n_ubatch : Z) (unified swa_full : bool) : Z :=
  if swa_full then kv_size
  else GGML_PAD (Z.min kv_size (u32 (u32 (n_swa * (if unified then n_seq_max else 1)) + n_ubatch))) 256.

Definition make_iswa (n_swa : Z) (swa_type : llama_swa_type) (n_pos_per_embd : nat)
    (swa_full unified : bool) (kv_size n_seq_max n_ubatch : nat) (n_pad : Z) : outcome kv_iswa :=
  let sz := size_swa n_swa (Z.of_nat kv_size) (Z.of_nat n_seq_max) (Z.of_nat n_ubatch) unified swa_full in
  b ← Kv.make unified kv_size n_seq_max n_pad 0 LLAMA_SWA_TYPE_NONE n_pos_per_embd;
  s ← Kv.make unified (Z.to_nat sz) n_seq_max n_pad n_swa swa_type n_pos_per_embd;
  Ret (mk_iswa b s unified).

(** An operation on both caches. *)
Definition both (op : llama_kv_cache -> outcome llama_kv_cache) (k : kv_iswa) : outcome kv_iswa :=
  b ← op (kv_base k); s ← op (kv_swa k); Ret (mk_iswa b s (iswa_unified k)).

Definition iswa_clear (k : kv_iswa) : kv_iswa :=
  mk_iswa (Kv.clear (kv_base k)) (Kv.clear (kv_swa k)) (iswa_unified k).
Definition iswa_seq_rm (k : kv_iswa) (s p0 p1 : Z) : outcome kv_iswa := both (fun k => Kv.seq_rm k s p0 p1) k.
Definition iswa_seq_cp (k : kv_iswa) (s d p0 p1 : Z) : outcome kv_iswa := both (fun k => Kv.seq_cp k s d p0 p1) k.
Definition iswa_seq_keep (k : kv_iswa) (s : Z) : outcome kv_iswa := both (fun k => Kv.seq_keep k s) k.
Definition iswa_seq_add (k : kv_iswa) (s p0 p1 shift : Z) : outcome kv_iswa :=
  both (fun k => Kv.seq_add k s p0 p1 shift) k.
Definition iswa_seq_div (k : kv_iswa) (s p0 p1 d : Z) : outcome kv_iswa :=
  both (fun k => Kv.seq_div k s p0 p1 d) k.

(** "the base cache is a superset of the SWA cache, so we can just check the SWA cache" *)
Definition iswa_seq_pos_min (k : kv_iswa) (s : Z) : outcome Z := Kv.seq_pos_min (kv_swa k) s.
Definition iswa_seq_pos_max (k : kv_iswa) (s : Z) : outcome Z := Kv.seq_pos_max (kv_swa k) s.

Record iswa_context := mk_iswa_context {
  ic_status : llama_memory_status;
  ic_i_next : nat;
  ic_ubatches : list llama_ubatch;
  ic_base : kv_context;
  ic_swa : kv_context;
}.

Definition iswa_fail (s : llama_memory_status) : iswa_context :=
  mk_iswa_context s 0 [] (fail_context s) (fail_context s).

(** The context of a full pair. *)
Definition iswa_full (k : kv_iswa) : outcome iswa_context :=
  b ← full_context (kv_base k); s ← full_context (kv_swa k);
  Ret (mk_iswa_context (llama_memory_status_combine (cx_status b) (cx_status s)) 0 [] b s).

(** The context of an update of both caches. *)
Definition iswa_update (k : kv_iswa) : outcome (iswa_context * kv_iswa) :=
  '(cb, b) ← init_update (kv_base k); '(cs, s) ← init_update (kv_swa k);
  Ret (mk_iswa_context (llama_memory_status_combine (cx_status cb) (cx_status cs)) 0 [] cb cs,
       mk_iswa b s (iswa_unified k)).

Definition iswa_get_can_shift (can_base can_swa : bool) (k : kv_iswa) : outcome bool :=
  if can_base && can_swa then
    nb ← Kv.get_size (kv_base k); ns ← Kv.get_size (kv_swa k); Ret (nb =? ns)%nat
  else Ret false.

Definition iswa_batch (sinfos_base sinfos_swa : list slot_info) (ubatches : list llama_ubatch) : iswa_context :=
  let b := batch_context sinfos_base ubatches in
  let s := batch_context sinfos_swa ubatches in
  mk_iswa_context (llama_memory_status_combine (cx_status b) (cx_status s)) 0 ubatches b s.

(** One try of [init_batch]: a split, then slots in both caches; [None] is [break]. *)
Definition try_split (st : strategy) (n_ubatch : nat) (k : kv_iswa) (balloc : @llama_batch_allocr E)
    : outcome (option iswa_context * kv_iswa * @llama_batch_allocr E) :=
  '(ubatches, balloc) ← split_all st n_ubatch balloc;
  match ubatches with
  | None => Ret (None, k, balloc)
  | Some ubatches =>
      '(sinfos_base, b) ← Kv.prepare (kv_base k) ubatches;
      let k := mk_iswa b (kv_swa k) (iswa_unified k) in
      match sinfos_base with
      | None | Some [] => Ret (None, k, balloc)
      | Some sinfos_base =>
          '(sinfos_swa, s) ← Kv.prepare (kv_swa k) ubatches;
          let k := mk_iswa b s (iswa_unified k) in
          match sinfos_swa with
          | None | Some [] => Ret (None, k, balloc)
          | Some sinfos_swa =>
              c_assert (length sinfos_base =? length sinfos_swa)%nat "sinfos_base.size() == sinfos_swa.size()";;
              Ret (Some (iswa_batch sinfos_base sinfos_swa ubatches), k, balloc)
          end
      end
  end.

(** "first try simple split", "if it fails, try equal split" *)
Definition iswa_init_batch (k : kv_iswa) (balloc : @llama_batch_allocr E) (n_ubatch : nat)
    : outcome (iswa_context * kv_iswa * @llama_batch_allocr E) :=
  '(r, k, balloc) ← (if negb (iswa_unified k) then Ret (None, k, balloc)
                     else try_split Simple n_ubatch k balloc);
  match r with
  | Some cx => Ret (cx, k, balloc)
  | None =>
      '(r, k, balloc) ← try_split (Equal (negb (iswa_unified k))) n_ubatch k balloc;
      Ret (default (iswa_fail LLAMA_MEMORY_STATUS_FAILED_PREPARE) r, k, balloc)
  end.

Definition iswa_next (cx : iswa_context) : outcome (bool * iswa_context) :=
  c_assert (is_success (ic_status cx)) "status == LLAMA_MEMORY_STATUS_SUCCESS";;
  '(_, b) ← next (ic_base cx);
  '(_, s) ← next (ic_swa cx);
  let i := S (ic_i_next cx) in
  Ret (negb (length (ic_ubatches cx) <=? i)%nat, mk_iswa_context (ic_status cx) i (ic_ubatches cx) b s).

Definition iswa_apply (can_shift has_rope computed : bool) (k : kv_iswa) (cx : iswa_context)
    : outcome (bool * kv_iswa * iswa_context) :=
  c_assert (negb (llama_memory_status_is_fail (ic_status cx))) "!llama_memory_status_is_fail(status)";;
  '(r0, b, cb) ← apply can_shift has_rope computed (kv_base k) (ic_base cx);
  '(r1, s, cs) ← apply can_shift has_rope computed (kv_swa k) (ic_swa cx);
  Ret (r0 && r1, mk_iswa b s (iswa_unified k), mk_iswa_context (ic_status cx) (ic_i_next cx) (ic_ubatches cx) cb cs).

End Context.
End Context.

(** * The KV cache as an abstract data type.

    A cache stands for a relation: which cell holds which sequence at which
    position.  The operations of the cache refine the operations on that
    relation, and every state they reach from a fresh cache satisfies the
    invariant, so that every valid operation is answered. *)

From Stdlib Require Import Lia.

(** ** Operations *)

Section Steps.
Context {E : Type}.
Notation llama_ubatch := (@llama_ubatch E).

Inductive kv_op :=
  | OpClear
  | OpRm (s p0 p1 : Z)
  | OpCp (src dst p0 p1 : Z)
  | OpKeep (s : Z)
  | OpAdd (s p0 p1 shift : Z)
  | OpDiv (s p0 p1 d : Z)
  | OpPlace (si : slot_info) (u : llama_ubatch)
  | OpUpdate (do_shift : bool).

(** An update is that of a model that can shift, with its graph computed. *)
Definition run_op (k : llama_kv_cache) (op : kv_op) : outcome llama_kv_cache :=
  match op with
  | OpClear => Ret (Kv.clear k)
  | OpRm s p0 p1 => Kv.seq_rm k s p0 p1
  | OpCp src dst p0 p1 => Kv.seq_cp k src dst p0 p1
  | OpKeep s => Kv.seq_keep k s
  | OpAdd s p0 p1 shift => Kv.seq_add k s p0 p1 shift
  | OpDiv s p0 p1 d => Kv.seq_div k s p0 p1 d
  | OpPlace si u => Kv.apply_ubatch k si u
  | OpUpdate do_shift => '(_, k) ← Kv.update true true true k do_shift []; Ret k
  end.

(** What the caller has to guarantee. *)
Definition op_pre (n : nat) (k : llama_kv_cache) (op : kv_op) : Prop :=
  match op with
  | OpClear | OpUpdate _ => True
  | OpRm s _ _ => s = -1 \/ Kv.seq_known k s = true
  | OpCp src dst p0 p1 =>
      Kv.seq_known k src = true /\ Kv.seq_known k dst = true /\
      ((home k src = home k dst /\ (src <> dst -> cp_free k src dst p0 p1))
       \/ (home k src <> home k dst /\ full_range n p0 p1 /\ shifts_known k src))
  | OpKeep s => Kv.seq_known k s = true
  | OpAdd s _ _ _ => Kv.seq_known k s = true /\ kv_n_pos_per_embd k = 1%nat
  | OpDiv s _ _ d => Kv.seq_known k s = true /\ kv_n_pos_per_embd k = 1%nat /\ 0 < d
  | OpPlace si u => exists m, placeable k u m si
  end.

(** ** The abstract data type *)

(** [V s i p]: cell [i] of the stream of [s] holds [s] at position [p]. *)
Definition view : Type := Z -> nat -> Z -> Prop.

(** The sequences of a stream move together: those in a cell of [s] whose
    position is in the range. *)
Definition moves_in (stream : Z -> option nat) (V : view) (s p0 p1 s' : Z) (i : nat) (q : Z) : Prop :=
  stream s' = stream s /\ V s i q /\ in_pos p0 p1 q.

Definition moved_to (stream : Z -> option nat) (V : view) (s p0 p1 : Z) (T : Z -> option Z) : view :=
  fun s' i p => (V s' i p /\ ~ moves_in stream V s p0 p1 s' i p)
    \/ (exists q, V s' i q /\ moves_in stream V s p0 p1 s' i q /\ T q = Some p).

(** A token of [u] of sequence [s] and position [p] is placed into cell [i]. *)
Definition token_at (u : llama_ubatch) (si : slot_info) (s : Z) (i : nat) (p : Z) : Prop :=
  exists j ii st l, si_strm si !! j = Some st /\ si_idxs si !! j = Some l /\ l !! ii = Some i
    /\ s ∈ ids_of u (j * length l + ii) /\ pos_of u (j * length l + ii) = p.

(** Cell [i] of stream [st] is in the slot. *)
Definition slot_cell (si : slot_info) (st i : nat) : Prop :=
  exists j l, si_strm si !! j = Some st /\ si_idxs si !! j = Some l /\ i ∈ l.

(** Sequence [s] loses [p] or a later position to the slot. *)
Definition overtaken (stream : Z -> option nat) (V : view) (si : slot_info) (s p : Z) : Prop :=
  exists st i e, stream s = Some st /\ slot_cell si st i /\ V s i e /\ p <= e.

Definition spec_op (stream : Z -> option nat) (V : view) (op : kv_op) : view :=
  match op with
  | OpClear => fun _ _ _ => False
  | OpRm s p0 p1 => fun s' i p => V s' i p /\ ~ ((s = -1 \/ s' = s) /\ in_pos p0 p1 p)
  | OpCp src dst p0 p1 => fun s i p =>
      if decide (stream src = stream dst) then V s i p \/ (s = dst /\ V src i p /\ in_pos p0 p1 p)
      else (V s i p /\ stream s <> stream dst) \/ (s = dst /\ V src i p)
  | OpKeep s => fun s' i p => V s' i p /\ (s' = s \/ stream s' <> stream s)
  | OpAdd s p0 p1 shift => moved_to stream V s p0 p1 (shifted_pos shift)
  | OpDiv s p0 p1 d => moved_to stream V s p0 p1 (fun q => Some (q / d))
  | OpPlace si u => fun s i p =>
      (token_at u si s i p \/ (V s i p /\ forall st, stream s = Some st -> ~ slot_cell si st i))
      /\ ~ overtaken stream V si s p
  | OpUpdate _ => V
  end.

(** ** Refinement *)

Lemma update_shift_ok n k b : kv_ok n k ->
  exists k', run_op k (OpUpdate b) = Ret k' /\ kv_ok n k' /\ same_shape k k'
    /\ forall s i p, at_pos k' s i p <-> at_pos k s i p.
Proof.
  intros Hok. destruct b; simpl; [|by exists k]. eexists. split; [reflexivity|]. split_and!; [|by split_and!|].
  - pose proof Hok as []. constructor; simpl; try done; [by rewrite length_map|].
    intros st c. rewrite list_lookup_fmap. destruct (kv_cells k !! st) as [d|] eqn:Hd; [|done]. intros [= <-].
    destruct (ok_stream _ _ Hd) as (Hd1 & Hd2 & Hd3). split; [by apply reset_shift_ok|].
    unfold Cells.size in *. simpl. rewrite length_map. split; [done|].
    apply Forall_forall. intros y (x & -> & Hx)%list_elem_of_fmap. rewrite Forall_forall in Hd3.
    exact (Hd3 x Hx).
  - intros s i p. unfold at_pos. simpl. split.
    + intros (st & c & x & Hc & Hx & H). rewrite list_lookup_fmap in Hc.
      destruct (kv_cells k !! st) as [d|] eqn:Hd; [|done]. injection Hc as <-. simpl in Hx.
      rewrite list_lookup_fmap in Hx. destruct (kc_cells d !! i) as [y|] eqn:Hy; [|done]. injection Hx as <-.
      by exists st, d, y.
    + intros (st & d & y & Hd & Hy & H). exists st, (Cells.reset_shift d), (with_shift y 0).
      rewrite list_lookup_fmap, Hd. simpl. by rewrite list_lookup_fmap, Hy.
Qed.

Lemma slot_cell_target si m st i (k : llama_kv_cache) (u : llama_ubatch) : placeable k u m si ->
  slot_cell si st i <-> exists w, w ∈ pairs (length (si_strm si)) m /\ target si w = Some (st, i).
Proof.
  intros Hpl. unfold slot_cell, target. split.
  - intros (j & l & Hst & Hl & (ii & Hi)%list_elem_of_lookup_1). exists (j, ii). cbn [fst snd].
    destruct (Forall2_lookup_l _ _ _ _ _ (pl_slots _ _ _ _ Hpl) Hst) as (l' & Hl' & Hlen & _).
    assert (l' = l) as -> by congruence. split.
    + apply elem_of_pairs. split; [by eapply lookup_lt_Some|]. rewrite <- Hlen. by eapply lookup_lt_Some.
    + rewrite Hst, Hl. cbn [mbind option_bind]. by rewrite Hi.
  - intros ([j ii] & _ & H). cbn [fst snd] in H. destruct (si_strm si !! j) as [st'|] eqn:Hst; [|done].
    destruct (si_idxs si !! j) as [l|] eqn:Hl; [|done]. cbn [mbind option_bind] in H.
    destruct (l !! ii) eqn:Hi; [|done]. injection H as -> ->. exists j, l. split_and!; [done|done|].
    by eapply list_elem_of_lookup_2.
Qed.

Lemma place_refines n k si u m : kv_ok n k -> placeable k u m si ->
  exists k', run_op k (OpPlace si u) = Ret k' /\ kv_ok n k' /\ same_shape k k'
    /\ forall s i p, at_pos k' s i p <-> spec_op (home k) (at_pos k) (OpPlace si u) s i p.
Proof.
  intros Hok Hpl. destruct (apply_ubatch_ok n k u m si Hok Hpl) as (k' & E1 & H1 & H2 & H3).
  exists k'. split_and!; [done|done|done|]. intros s i p. rewrite H3. simpl.
  pose proof (fun st i => slot_cell_target si m st i k u Hpl) as Hcell.
  assert (Hlost : loses k si (pairs (length (si_strm si)) m) s p <-> overtaken (home k) (at_pos k) si s p).
  { unfold loses, overwritten, overtaken. split.
    - intros (e & (w & st & j & x & Hw & Ht & Hx & Hs & He) & Hle).
      pose proof (cell_at_sound n k st j x Hok Hx) as [_ [_ Hh]]. exists st, j, e. split_and!; [by apply Hh| | |done].
      + apply Hcell. by exists w.
      + apply at_pos_cell. by exists st, x.
    - intros (st & j & e & Hst & (w & Hw & Ht)%Hcell & Hp & Hle). exists e. split; [|done].
      pose proof (proj1 (at_pos_cell_home n k s j e st Hok Hst) Hp) as (x & Hx & Hs & He).
      by exists w, st, j, x. }
  assert (Hin : in_slot k m si s i <-> exists st, home k s = Some st /\ slot_cell si st i).
  { unfold in_slot. split.
    - intros (w & st & Hw & Ht & Hst). exists st. split; [done|]. apply Hcell. by exists w.
    - intros (st & Hst & (w & Hw & Ht)%Hcell). by exists w, st. }
  assert (Hplaced : placed u m si s i p <-> token_at u si s i p).
  { unfold placed, token_at, token_index. split.
    - intros ([j ii] & st & (Hj & Hii)%elem_of_pairs & Ht & Hs & Hp). cbn [fst snd] in *.
      destruct (target_Some k u m si Hpl j ii Hj Hii) as (st' & l & i' & x & Hst & Hl & Hi & Ht' & _).
      assert ((st', i') = (st, i)) as [= -> ->] by congruence.
      destruct (Forall2_lookup_l _ _ _ _ _ (pl_slots _ _ _ _ Hpl) Hst) as (l' & Hl' & Hlen & _).
      assert (l' = l) as -> by congruence. exists j, ii, st, l. by rewrite Hlen.
    - intros (j & ii & st & l & Hst & Hl & Hi & Hs & Hp).
      destruct (Forall2_lookup_l _ _ _ _ _ (pl_slots _ _ _ _ Hpl) Hst) as (l' & Hl' & Hlen & _).
      assert (l' = l) as -> by congruence. rewrite Hlen in *. exists (j, ii), st. cbn [fst snd].
      split_and!; [|by unfold target; cbn [fst snd]; rewrite Hst, Hl; cbn [mbind option_bind]; rewrite Hi|done|done].
      apply elem_of_pairs. split; [by eapply lookup_lt_Some|]. rewrite <- Hlen. by eapply lookup_lt_Some. }
  rewrite Hlost, Hplaced, Hin. naive_solver.
Qed.

(** Every valid operation is answered, keeps the invariant and does what the
    abstract operation does. *)
Lemma op_refines n k op : kv_ok n k -> op_pre n k op ->
  exists k', run_op k op = Ret k' /\ kv_ok n k' /\ same_shape k k'
    /\ forall s i p, at_pos k' s i p <-> spec_op (home k) (at_pos k) op s i p.
Proof.
  intros Hok Hpre. destruct op as [|s p0 p1|src dst p0 p1|s|s p0 p1 shift|s p0 p1 d|si u|b]; simpl in Hpre.
  - destruct (clear_ok n k Hok) as (H1 & H2 & H3). eexists. split; [reflexivity|]. split_and!; [done|done|].
    intros s i p. split; [by apply H3|done].
  - destruct (decide (s = -1)) as [->|Hs].
    + destruct (seq_rm_any n k p0 p1 Hok) as (k' & E1 & H1 & H2 & H3). exists k'. split_and!; [done|done|done|].
      intros s i p. rewrite H3. simpl. tauto.
    + destruct Hpre as [|Hk]; [done|]. destruct (seq_rm_one n k s p0 p1 Hok Hk) as (k' & E1 & H1 & H2 & H3).
      exists k'. split_and!; [done|done|done|]. intros s' i p. rewrite H3. simpl. tauto.
  - destruct Hpre as (Hs & Hd & [[Hh Hfree]|(Hh & Hfull & Hshift)]).
    + destruct (decide (src = dst)) as [->|Hne].
      * exists k. split; [|split_and!; [done|apply same_shape_refl|]].
        { destruct (seq_stream n k dst Hok Hd) as (st & c & h & Est & _ & Hc & _).
          simpl. unfold Kv.seq_cp. rewrite Hd. cbn [c_assert mbind outcome_bind]. rewrite Est. cbn [mbind outcome_bind].
          by rewrite Nat.eqb_refl, Z.eqb_refl. }
        intros s i p. simpl. rewrite decide_True by done. naive_solver.
      * destruct (seq_cp_same n k src dst p0 p1 Hok Hs Hd Hh Hne (Hfree Hne)) as (k' & E1 & H1 & H2 & H3).
        exists k'. split_and!; [done|done|done|]. intros s i p. rewrite H3. simpl. by rewrite decide_True.
    + destruct (seq_cp_cross n k src dst p0 p1 Hok Hs Hd Hh Hfull Hshift) as (k' & E1 & H1 & H2 & H3).
      exists k'. split_and!; [done|done|done|]. intros s i p. rewrite H3. simpl. by rewrite decide_False.
  - destruct (seq_keep_spec n k s Hok Hpre) as (k' & ?). by exists k'.
  - destruct Hpre as [Hk H1]. destruct (seq_add_spec n k s p0 p1 shift Hok Hk H1) as (k' & ?). by exists k'.
  - destruct Hpre as (Hk & H1 & Hd). destruct (seq_div_spec n k s p0 p1 d Hok Hk H1 Hd) as (k' & ?). by exists k'.
  - destruct Hpre as [m Hpl]. by eapply place_refines.
  - apply update_shift_ok. done.
Qed.

(** ** Reachable caches *)

(** A cache reached from a fresh one of [n] cells per stream by valid operations,
    with the abstract relation it stands for. *)
Inductive reachable (n : nat) : llama_kv_cache -> view -> Prop :=
  | reach_make unified n_seq_max n_pad n_swa t n_pos k :
      (0 < n_seq_max <= Z.to_nat MAX_SEQ)%nat ->
      Kv.make unified n n_seq_max n_pad n_swa t n_pos = Ret k -> reachable n k (fun _ _ _ => False)
  | reach_step k V op k' :
      reachable n k V -> op_pre n k op -> run_op k op = Ret k' ->
      reachable n k' (spec_op (home k) V op).

Lemma spec_op_ext stream (V W : view) op : (forall s i p, V s i p <-> W s i p) ->
  forall s i p, spec_op stream V op s i p <-> spec_op stream W op s i p.
Proof.
  intros H s i p. destruct op; simpl; try case_decide; unfold moved_to, moves_in, overtaken;
    repeat setoid_rewrite H; done.
Qed.

Lemma reachable_ok n k V : reachable n k V -> kv_ok n k /\ forall s i p, at_pos k s i p <-> V s i p.
Proof.
  induction 1 as [unified n_seq_max n_pad n_swa t n_pos k Hn Hmake|k V op k' _ [Hok HV] Hpre Hrun].
  - destruct (make_ok _ _ _ _ _ _ _ _ Hn Hmake) as (H1 & H2 & _). split; [done|]. intros s i p.
    split; [by apply H2|done].
  - destruct (op_refines n k op Hok Hpre) as (k'' & E1 & H1 & _ & H3). assert (k'' = k') as -> by congruence.
    split; [done|]. intros s i p. rewrite H3. by apply spec_op_ext.
Qed.

End Steps.

Arguments kv_op : clear implicits.
