(* ===== verification/KvRows.v ===== *)
(** * Bounds of the graph inputs: the padded number of cells and the rows that
    new tokens are written to. *)

From S2P Require Import Prelude KvCells KvCellsFacts Batch KvCache KvCacheFacts.
From S2P Require Import KvCopy KvSlot KvPlace KvInputs.
From Stdlib Require Import Lia.
Import Inputs.

(** ** Padding *)

(** On 32 bits, [GGML_PAD] rounds up to a multiple of a power of two. *)
Lemma GGML_PAD_pow2 x e : 0 <= e <= 31 -> 0 <= x -> x + 2 ^ e <= 2 ^ 32 ->
  GGML_PAD x (2 ^ e) = (x + 2 ^ e - 1) / 2 ^ e * 2 ^ e.
Proof.
  intros He Hx Hmax. pose proof (Z.pow_pos_nonneg 2 e ltac:(lia) ltac:(lia)) as Hpos. unfold GGML_PAD.
  rewrite (u32_small (x + 2 ^ e - 1)), (u32_small (2 ^ e - 1)) by lia.
  assert (Hones : 2 ^ e - 1 = Z.ones e) by (rewrite Z.ones_equiv; lia).
  unfold u32. rewrite <- (Z.land_ones (Z.lnot _)), Z.land_assoc, <- Z.ldiff_land by lia.
  rewrite Hones, Z.ldiff_ones_r, Z.shiftl_mul_pow2, Z.shiftr_div_pow2 by lia.
  rewrite Z.land_ones by lia. apply Z.mod_small.
  pose proof (Z.div_pos (x + 2 ^ e - 1) (2 ^ e) ltac:(lia) Hpos).
  pose proof (Z.mul_div_le (x + 2 ^ e - 1) (2 ^ e) Hpos). nia.
Qed.

Lemma pad_above x e : 0 <= e -> x <= (x + 2 ^ e - 1) / 2 ^ e * 2 ^ e.
Proof.
  intros He. pose proof (Z.pow_pos_nonneg 2 e ltac:(lia) He) as Hpos.
  pose proof (Z.mul_succ_div_gt (x + 2 ^ e - 1) (2 ^ e) Hpos). nia.
Qed.

(** ** The cells the attention covers *)

Lemma foldr_nat_max x l y : y ∈ x :: l -> (y <= foldr Nat.max x l)%nat.
Proof.
  induction l as [|z l IH]; simpl; rewrite !elem_of_cons.
  - intros [->|Hy%elem_of_nil]; [lia|done].
  - intros Hy. assert (y = z \/ y ∈ x :: l) as [->|H] by (rewrite elem_of_cons; tauto); [lia|]. specialize (IH H). lia.
Qed.

Lemma used_max_above c i x : cells_ok c -> kc_cells c !! i = Some x -> cell_pos x <> -1 ->
  (i < Cells.used_max_p1 c)%nat.
Proof.
  intros (_ & Hu & _) Hi Hp. assert (Hin : i ∈ elements (kc_used c)).
  { apply elem_of_elements, Hu. by exists x. }
  unfold Cells.used_max_p1. destruct (elements (kc_used c)) as [|y l]; [by apply elem_of_nil in Hin|].
  pose proof (foldr_nat_max y l i Hin). lia.
Qed.

Lemma used_max_le c n : cells_ok c -> Cells.size c = n -> (Cells.used_max_p1 c <= n)%nat.
Proof.
  intros (_ & Hu & _) Hsz. unfold Cells.used_max_p1. destruct (elements (kc_used c)) as [|y l] eqn:El; [lia|].
  assert (H : forall l', (forall z, z ∈ l' -> (z < n)%nat) -> (y < n)%nat -> (foldr Nat.max y l' < n)%nat).
  { induction l' as [|z l' IH]; intros H Hy; simpl; [done|]. apply Nat.max_lub_lt; [apply H; left|].
    apply IH; [|done]. intros w Hw. apply H. by right. }
  assert (Hel : forall z, z ∈ y :: l -> (z < n)%nat).
  { intros z Hz. rewrite <- El, elem_of_elements in Hz. apply Hu in Hz as (x & Hx & _).
    rewrite <- Hsz. by eapply lookup_lt_Some. }
  apply H; [|apply Hel; left]. intros z Hz. apply Hel. by right.
Qed.

Lemma get_n_kv_ok n k si e : kv_ok n k -> Z.max (kv_n_pad k) 256 = 2 ^ e -> 0 <= e <= 31 ->
  Z.of_nat n + 2 ^ e <= 2 ^ 32 -> (forall st, st ∈ si_strm si -> (st < kv_n_stream k)%nat) ->
  exists r, get_n_kv k si = Ret r /\ 0 <= r <= Z.of_nat n
    /\ (r = 0 \/ r = Z.of_nat n \/ (2 ^ e | r))
    /\ forall st i x, st ∈ si_strm si -> cell_at k st i = Some x -> cell_pos x <> -1 -> Z.of_nat i < r.
Proof.
  intros Hok Hpad He Hn Hst. unfold get_n_kv. rewrite Hpad.
  pose proof (Z.pow_pos_nonneg 2 e ltac:(lia) ltac:(lia)) as Hpos.
  destruct (foldM_prefix (fun result s => c ← at_ (kv_cells k) s;
      Ret (Z.max (Z.min (Z.of_nat (Cells.size c)) (Z.max (2 ^ e) (GGML_PAD (Z.of_nat (Cells.used_max_p1 c)) (2 ^ e)))) result))
    (fun pre r => 0 <= r <= Z.of_nat n /\ (r = 0 \/ r = Z.of_nat n \/ (2 ^ e | r))
       /\ forall st i x, st ∈ pre -> cell_at k st i = Some x -> cell_pos x <> -1 -> Z.of_nat i < r) 0 (si_strm si))
    as (r & -> & H); [| |by exists r].
  - split; [lia|]. split; [by left|]. intros st i x Hin. by apply elem_of_nil in Hin.
  - intros pre st rest r Hall (Hr & Hdiv & Hcov).
    assert (Hin : st ∈ si_strm si) by (rewrite Hall; set_solver).
    destruct (lookup_lt_is_Some_2 (kv_cells k) st) as [c Hc]; [rewrite (ok_cells n k Hok); by apply Hst|].
    destruct (stream_sound n k st c Hok Hc) as (Hcok & Hsz & _).
    rewrite (proj2 (at_Ret _ _ _) Hc). cbn [mbind outcome_bind]. eexists. split; [reflexivity|].
    pose proof (used_max_le c n Hcok Hsz) as Hmax. rewrite Hsz. rewrite GGML_PAD_pow2 by lia.
    set (pad := (Z.of_nat (Cells.used_max_p1 c) + 2 ^ e - 1) / 2 ^ e * 2 ^ e).
    pose proof (pad_above (Z.of_nat (Cells.used_max_p1 c)) e ltac:(lia)) as Habove. fold pad in Habove.
    split; [lia|]. split.
    + destruct (Z.max_spec (Z.min (Z.of_nat n) (Z.max (2 ^ e) pad)) r) as [[_ ->]|[_ ->]]; [done|].
      destruct (Z.min_spec (Z.of_nat n) (Z.max (2 ^ e) pad)) as [[_ ->]|[_ ->]]; [by right; left|].
      right; right. destruct (Z.max_spec (2 ^ e) pad) as [[_ ->]|[_ ->]]; [|done]. by exists ((Z.of_nat (Cells.used_max_p1 c) + 2 ^ e - 1) / 2 ^ e).
    + intros st' i x Hst' Hx Hp. apply elem_of_app in Hst' as [Hst'|Hst'%list_elem_of_singleton].
      * specialize (Hcov st' i x Hst' Hx Hp). lia.
      * subst st'. apply cell_at_Some in Hx as (c' & Hc' & Hx). assert (c' = c) as -> by congruence.
        pose proof (used_max_above c i x Hcok Hx Hp). lia.
Qed.

(** ** Rows *)

(** Nested loops as one loop over pairs. *)
Lemma foldM_nest {A B} (g : nat -> B -> A -> outcome B) l1 l2 d0 :
  foldM (fun d s => foldM (g s) d l2) d0 l1 = foldM (fun d '(s, i) => g s d i) d0 (list_prod l1 l2).
Proof.
  revert d0. induction l1 as [|s l1 IH]; intros d0; [done|]. cbn [foldM list_prod]. rewrite foldM_app.
  assert (H : forall l d, foldM (fun d '(s, i) => g s d i) d (map (fun y => (s, y)) l) = foldM (g s) d l).
  { induction l as [|x l IHl]; intros d; [done|]. simpl. destruct (g s d x); [apply IHl|done..]. }
  rewrite H. destruct (foldM (g s) d0 l2); [apply IH|done..].
Qed.

(** A loop that writes distinct elements. *)
Lemma write_all {W A} (f : W -> nat) (v : W -> A) l (d : list A) : NoDup (map f l) ->
  (forall w, w ∈ l -> (f w < length d)%nat) ->
  exists d', foldM (fun d w => set_ d (f w) (v w)) d l = Ret d' /\ length d' = length d
    /\ forall w, w ∈ l -> d' !! f w = Some (v w).
Proof.
  intros Hnd Hlt.
  destruct (foldM_prefix (fun d w => set_ d (f w) (v w))
    (fun pre d' => length d' = length d /\ forall w, w ∈ pre -> d' !! f w = Some (v w)) d l) as (d' & E1 & H1 & H2).
  - split; [done|]. intros w Hw. by apply elem_of_nil in Hw.
  - intros pre w rest d' Hall [Hlen Hd]. assert (Hw : w ∈ l) by (rewrite Hall; set_solver). specialize (Hlt w Hw).
    unfold set_. rewrite decide_True by lia. eexists. split; [reflexivity|]. rewrite length_insert. split; [done|].
    intros w' Hw'. apply elem_of_app in Hw' as [Hw'|Hw'%list_elem_of_singleton].
    + rewrite list_lookup_insert_ne; [by apply Hd|]. rewrite Hall, map_app in Hnd. simpl in Hnd.
      apply NoDup_app in Hnd as (_ & Hd' & _). intros Heq. apply (Hd' (f w')); [by apply list_elem_of_fmap_2|].
      rewrite <- Heq. by left.
    + subst w'. apply list_lookup_insert_eq. lia.
  - by exists d'.
Qed.

Section Rows.
Context {E : Type}.
Context (n : nat) (k : llama_kv_cache) (u : @llama_ubatch E) (m : nat) (si : slot_info).
Hypotheses (Hok : kv_ok n k) (Hpl : placeable k u m si).
(** The tensors of all streams have fewer than 2^32 rows, and sequence 0 has a stream. *)
Hypotheses (Hrows : Z.of_nat (kv_n_stream k) * Z.of_nat n < 2 ^ 32) (H0 : Kv.seq_known k 0 = true).

Lemma get_size_ok : Kv.get_size k = Ret n.
Proof.
  destruct (seq_stream n k 0 Hok H0) as (st & c & h & Est & _ & Hc & _). unfold Kv.get_size.
  change (Z.to_nat 0) with 0%nat in Est. rewrite Est. cbn [mbind outcome_bind].
  rewrite (proj2 (at_Ret _ _ _) Hc). cbn [mbind outcome_bind]. by destruct (stream_sound n k st c Hok Hc) as (_ & -> & _).
Qed.

(** The row of token [ii] of sequence [j] in the tensor of all streams. *)
Definition row_of (w : nat * nat) : Z :=
  match target si w with Some (st, i) => Z.of_nat st * Z.of_nat n + Z.of_nat i | None => 0 end.

Lemma row_bounds w st i : w ∈ pairs (length (si_strm si)) m -> target si w = Some (st, i) ->
  (i < n)%nat /\ (st < kv_n_stream k)%nat.
Proof.
  destruct w as [j ii]. intros [Hj Hii]%elem_of_pairs Ht.
  destruct (target_Some k u m si Hpl j ii Hj Hii) as (st' & l & i' & x & _ & _ & _ & Ht' & Hx & _).
  assert ((st', i') = (st, i)) as [= -> ->] by congruence. apply cell_at_Some in Hx as (c & Hc & Hx).
  destruct (stream_sound n k st c Hok Hc) as (_ & Hsz & _). split.
  - rewrite <- Hsz. by eapply lookup_lt_Some.
  - rewrite <- (ok_cells n k Hok). by eapply lookup_lt_Some.
Qed.

Lemma pair_target w : w ∈ pairs (length (si_strm si)) m -> exists st i, target si w = Some (st, i).
Proof.
  destruct w as [j ii]. intros [Hj Hii]%elem_of_pairs.
  destruct (target_Some k u m si Hpl j ii Hj Hii) as (st & l & i & _ & _ & _ & _ & Ht & _). by exists st, i.
Qed.

Lemma row_of_range w : w ∈ pairs (length (si_strm si)) m ->
  0 <= row_of w < Z.of_nat (kv_n_stream k) * Z.of_nat n.
Proof.
  intros Hw. destruct (pair_target w Hw) as (st & i & Ht). destruct (row_bounds w st i Hw Ht) as [Hi Hst].
  unfold row_of. rewrite Ht. nia.
Qed.

Lemma row_of_inj w w' : w ∈ pairs (length (si_strm si)) m -> w' ∈ pairs (length (si_strm si)) m ->
  row_of w = row_of w' -> w = w'.
Proof.
  intros Hw Hw' Heq. destruct (pair_target w Hw) as (st & i & Ht). destruct (pair_target w' Hw') as (st' & i' & Ht').
  destruct (row_bounds w st i Hw Ht) as [Hi _]. destruct (row_bounds w' st' i' Hw' Ht') as [Hi' _].
  unfold row_of in Heq. rewrite Ht, Ht' in Heq. apply (target_inj k u m si Hpl w w' (st, i) Ht).
  rewrite Ht'. destruct (Nat.div_mod_unique n st' st i' i Hi' Hi ltac:(lia)) as [-> ->]. done.
Qed.

Lemma token_index_inj w w' : w ∈ pairs (length (si_strm si)) m -> w' ∈ pairs (length (si_strm si)) m ->
  token_index m w = token_index m w' -> w = w'.
Proof.
  destruct w as [j ii], w' as [j' ii']. unfold token_index. cbn [fst snd].
  intros [_ Hii]%elem_of_pairs [_ Hii']%elem_of_pairs Heq.
  by destruct (Nat.div_mod_unique m j j' ii ii' Hii Hii' ltac:(lia)) as [-> ->].
Qed.

Lemma token_index_lt w : w ∈ pairs (length (si_strm si)) m -> (token_index m w < u_n_tokens u)%nat.
Proof.
  destruct w as [j ii]. intros [Hj Hii]%elem_of_pairs. unfold token_index. cbn [fst snd].
  rewrite (pl_tokens _ _ _ _ Hpl). nia.
Qed.

Lemma NoDup_map_inj {A B} (f : A -> B) l : NoDup l -> (forall x y, x ∈ l -> y ∈ l -> f x = f y -> x = y) ->
  NoDup (map f l).
Proof.
  induction 1 as [|x l Hx _ IH]; intros H; simpl; constructor.
  - intros (y & Hy & Hin)%list_elem_of_fmap. assert (x = y) as <- by (apply H; [left|by right|done]). done.
  - apply IH. intros y z Hy Hz. apply H; by right.
Qed.

(** Nested loops over the tokens that write distinct elements. *)
Lemma write_tokens {A} (step : list A -> nat -> outcome (list A)) (f : nat * nat -> nat) (v : nat * nat -> A)
    (inner : nat -> list A -> nat -> outcome (list A)) data :
  (forall d s, s ∈ seq 0 (length (si_strm si)) -> step d s = foldM (inner s) d (seq 0 m)) ->
  (forall d s i, (s, i) ∈ pairs (length (si_strm si)) m -> inner s d i = set_ d (f (s, i)) (v (s, i))) ->
  (forall w w', w ∈ pairs (length (si_strm si)) m -> w' ∈ pairs (length (si_strm si)) m -> f w = f w' -> w = w') ->
  (forall w, w ∈ pairs (length (si_strm si)) m -> (f w < length data)%nat) ->
  exists d, foldM step data (seq 0 (length (si_strm si))) = Ret d /\ length d = length data
    /\ forall w, w ∈ pairs (length (si_strm si)) m -> d !! f w = Some (v w).
Proof.
  intros Hstep Hinner Hinj Hlt.
  rewrite (foldM_ext step (fun d s => foldM (inner s) d (seq 0 m))) by (intros d s Hs; by apply Hstep).
  rewrite foldM_nest. change (list_prod (seq 0 (length (si_strm si))) (seq 0 m)) with (pairs (length (si_strm si)) m).
  rewrite (foldM_ext _ (fun d w => set_ d (f w) (v w))) by (intros d [s i] Hw; by apply Hinner).
  apply write_all; [|done]. apply NoDup_map_inj; [apply NoDup_pairs|done].
Qed.

Lemma k_idxs_ok data : length data = u_n_tokens u ->
  exists d, set_input_k_idxs k data u si = Ret d /\ length d = u_n_tokens u
    /\ forall w, w ∈ pairs (length (si_strm si)) m -> d !! token_index m w = Some (row_of w).
Proof.
  intros Hlen. unfold set_input_k_idxs. rewrite (slot_size_ok k u m si Hpl). cbn [mbind outcome_bind].
  rewrite (pl_tokens _ _ _ _ Hpl), Nat.mul_comm, Nat.eqb_refl. cbn [c_assert mbind outcome_bind].
  rewrite Nat.mul_comm, <- (pl_tokens _ _ _ _ Hpl), <- Hlen.
  apply (write_tokens _ _ _ (fun s d i => strm ← at_ (si_strm si) s; idxs ← at_ (si_idxs si) s; idx ← at_ idxs i;
    set_ d (s * m + i) (u32 (Z.of_nat strm * Z.of_nat n) + Z.of_nat idx))).
  - intros d s Hs%elem_of_seq. destruct (lookup_lt_is_Some_2 (si_strm si) s) as [st Hst]; [lia|].
    rewrite (proj2 (at_Ret _ _ _) Hst), get_size_ok. cbn [mbind outcome_bind]. done.
  - intros d s i Hw. pose proof Hw as [Hs Hi]%elem_of_pairs.
    destruct (target_Some k u m si Hpl s i Hs Hi) as (st & l & idx & x & Hst & Hl & Hidx & Ht & _).
    rewrite (proj2 (at_Ret _ _ _) Hst), (proj2 (at_Ret _ _ _) Hl). cbn [mbind outcome_bind].
    rewrite (proj2 (at_Ret _ _ _) Hidx). cbn [mbind outcome_bind]. unfold row_of, token_index. rewrite Ht. cbn [fst snd].
    destruct (row_bounds _ _ _ Hw Ht) as [_ Hst']. rewrite u32_small by nia. done.
  - apply token_index_inj.
  - intros w Hw. rewrite Hlen. by apply token_index_lt.
Qed.

(** ** The elements of a transposed V *)

Definition element_of (n_embd : nat) (q : (nat * nat) * nat) : Z :=
  match target si q.1 with
  | Some (st, i) => Z.of_nat st * Z.of_nat n * Z.of_nat n_embd + Z.of_nat q.2 * Z.of_nat n + Z.of_nat i
  | None => 0
  end.

Definition element_index (n_embd : nat) (q : (nat * nat) * nat) : nat := (token_index m q.1 * n_embd + q.2)%nat.

Definition elements (n_embd : nat) : list ((nat * nat) * nat) :=
  list_prod (pairs (length (si_strm si)) m) (seq 0 n_embd).

Lemma elem_of_elements n_embd w j :
  (w, j) ∈ elements n_embd <-> w ∈ pairs (length (si_strm si)) m /\ (j < n_embd)%nat.
Proof. unfold elements. rewrite list_elem_of_In, in_prod_iff, <- list_elem_of_In, List.in_seq. split; intros [? ?]; (split; [done|lia]). Qed.

Lemma element_index_inj n_embd q q' : q ∈ elements n_embd -> q' ∈ elements n_embd ->
  element_index n_embd q = element_index n_embd q' -> q = q'.
Proof.
  destruct q as [w j], q' as [w' j']. intros [Hw Hj]%elem_of_elements [Hw' Hj']%elem_of_elements Heq.
  unfold element_index in Heq. cbn [fst snd] in Heq.
  destruct (Nat.div_mod_unique n_embd (token_index m w) (token_index m w') j j' Hj Hj' ltac:(lia)) as [Ht ->].
  by rewrite (token_index_inj w w' Hw Hw' Ht).
Qed.

Lemma element_of_inj n_embd q q' : q ∈ elements n_embd -> q' ∈ elements n_embd ->
  element_of n_embd q = element_of n_embd q' -> q = q'.
Proof.
  destruct q as [w j], q' as [w' j']. intros [Hw Hj]%elem_of_elements [Hw' Hj']%elem_of_elements Heq.
  destruct (pair_target w Hw) as (st & i & Ht). destruct (pair_target w' Hw') as (st' & i' & Ht').
  destruct (row_bounds w st i Hw Ht) as [Hi _]. destruct (row_bounds w' st' i' Hw' Ht') as [Hi' _].
  unfold element_of in Heq. cbn [fst snd] in Heq. rewrite Ht, Ht' in Heq.
  destruct (Nat.div_mod_unique n (st * n_embd + j) (st' * n_embd + j') i i' Hi Hi') as [Hq ->]; [nia|].
  destruct (Nat.div_mod_unique n_embd st st' j j' Hj Hj' ltac:(lia)) as [-> ->].
  f_equal. by apply (target_inj k u m si Hpl w w' (st', i')).
Qed.

Lemma element_of_range n_embd q : q ∈ elements n_embd ->
  0 <= element_of n_embd q < Z.of_nat (kv_n_stream k) * Z.of_nat n * Z.of_nat n_embd.
Proof.
  destruct q as [w j]. intros [Hw Hj]%elem_of_elements. destruct (pair_target w Hw) as (st & i & Ht).
  destruct (row_bounds w st i Hw Ht) as [Hi Hst]. unfold element_of. cbn [fst snd]. rewrite Ht.
  assert (Z.of_nat j * Z.of_nat n + Z.of_nat i < Z.of_nat n_embd * Z.of_nat n) by nia.
  assert (Z.of_nat st * (Z.of_nat n * Z.of_nat n_embd) + Z.of_nat n * Z.of_nat n_embd
    <= Z.of_nat (kv_n_stream k) * (Z.of_nat n * Z.of_nat n_embd)) by nia. lia.
Qed.

Lemma v_idxs_ok n_embd data : length data = (u_n_tokens u * n_embd)%nat ->
  exists d, set_input_v_idxs k true n_embd data u si = Ret d /\ length d = length data
    /\ forall q, q ∈ elements n_embd -> d !! element_index n_embd q = Some (element_of n_embd q).
Proof.
  intros Hlen. unfold set_input_v_idxs. rewrite (slot_size_ok k u m si Hpl). cbn [negb mbind outcome_bind].
  rewrite (pl_tokens _ _ _ _ Hpl), Nat.mul_comm, Nat.eqb_refl. cbn [c_assert mbind outcome_bind].
  rewrite get_size_ok. cbn [mbind outcome_bind].
  set (write := fun (d : list Z) (q : (nat * nat) * nat) => set_ d (element_index n_embd q) (element_of n_embd q)).
  match goal with |- exists d, foldM ?step _ _ = _ /\ _ =>
    assert (Hloop : foldM step data (seq 0 (length (si_strm si))) = foldM write data (elements n_embd)) end.
  { unfold elements, pairs.
    assert (Hnest : forall l1 l2 (l3 : list nat) d, foldM write d (list_prod (list_prod l1 l2) l3)
      = foldM (fun d s => foldM (fun d i => foldM (fun d j => write d ((s, i), j)) d l3) d l2) d l1).
    { assert (Hmap : forall (w : nat * nat) l d, foldM write d (map (fun y => (w, y)) l) = foldM (fun d j => write d (w, j)) d l).
      { intros w. induction l as [|x l IH]; intros d; [done|]. simpl. destruct (write d (w, x)); [apply IH|done..]. }
      assert (Hrow : forall s l2 l3 d, foldM write d (list_prod (map (fun y => (s, y)) l2) l3)
        = foldM (fun d i => foldM (fun d j => write d ((s, i), j)) d l3) d l2).
      { intros s l2. induction l2 as [|i l2 IH]; intros l3 d; [done|]. cbn [list_prod map foldM]. rewrite foldM_app, Hmap.
        destruct (foldM _ d l3); [apply IH|done..]. }
      intros l1. induction l1 as [|s l1 IH]; intros l2 l3 d; [done|]. cbn [list_prod foldM].
      assert (Happ : forall (a b : list (nat * nat)) (c : list nat), list_prod (a ++ b) c = list_prod a c ++ list_prod b c).
      { induction a as [|x a IHa]; intros b c; [done|]. simpl. by rewrite IHa, app_assoc. }
      rewrite Happ, foldM_app, Hrow. destruct (foldM _ d l2); [apply IH|done..]. }
    rewrite Hnest. apply foldM_ext. intros d s Hs%elem_of_seq.
    destruct (lookup_lt_is_Some_2 (si_strm si) s) as [st Hst]; [lia|].
    rewrite (proj2 (at_Ret _ _ _) Hst). cbn [mbind outcome_bind]. apply foldM_ext. intros d' i Hi%elem_of_seq.
    apply foldM_ext. intros d'' j Hj. destruct (target_Some k u m si Hpl s i) as (st' & l & idx & x & Hst' & Hl & Hidx & Ht & _); [lia|lia|].
    assert (st' = st) as -> by congruence. rewrite (proj2 (at_Ret _ _ _) Hl). cbn [mbind outcome_bind].
    rewrite (proj2 (at_Ret _ _ _) Hidx). cbn [mbind outcome_bind]. unfold write, element_index, element_of, token_index.
    cbn [fst snd]. rewrite Ht. f_equal. lia. }
  rewrite Hloop. apply write_all.
  - apply NoDup_map_inj; [|intros q q'; apply element_index_inj]. apply NoDup_list_prod; [apply NoDup_pairs|apply NoDup_seq].
  - intros [w j] [Hw Hj]%elem_of_elements. rewrite Hlen. unfold element_index. cbn [fst snd].
    pose proof (token_index_lt w Hw). nia.
Qed.

End Rows.
