(* ===== verification/KvTheorems.v ===== *)
(** * Theorems on the KV cache. *)

From S2P Require Import Prelude KvCells KvCellsFacts Batch KvCache KvCacheFacts KvCopy KvSlot KvPlace KvPrepare KvInputs.
From S2P Require Import KvContext KvRows.
From Stdlib Require Import Lia.

(** ** Walking through a context *)

Section Run.
Context {E : Type}.
Notation llama_ubatch := (@llama_ubatch E).

Lemma get_n_kv_total n k si : kv_ok n k -> (forall st, st ∈ si_strm si -> (st < kv_n_stream k)%nat) ->
  exists r, Inputs.get_n_kv k si = Ret r.
Proof.
  intros Hok Hst. unfold Inputs.get_n_kv.
  edestruct (foldM_prefix (fun result s => c ← at_ (kv_cells k) s;
    Ret (Z.max (Z.min (Z.of_nat (Cells.size c)) (Z.max (Z.max (kv_n_pad k) 256)
      (GGML_PAD (Z.of_nat (Cells.used_max_p1 c)) (Z.max (kv_n_pad k) 256)))) result))
    (fun _ _ => True) 0 (si_strm si)) as (r & H & _); [done| |by exists r].
  intros pre st rest b Hall _. assert (Hin : st ∈ si_strm si) by (rewrite Hall; set_solver).
  destruct (lookup_lt_is_Some_2 (kv_cells k) st) as [c Hc]; [rewrite (ok_cells n k Hok); by apply Hst|].
  rewrite (proj2 (at_Ret _ _ _) Hc). by eexists.
Qed.

Lemma plan_step n (k : llama_kv_cache) (u : llama_ubatch) m si k1 : kv_ok n k -> placeable k u m si ->
  Kv.apply_ubatch k si u = Ret k1 -> exists r, Inputs.get_n_kv k1 si = Ret r.
Proof.
  intros Hok Hpl Happ. destruct (apply_ubatch_ok n k u m si Hok Hpl) as (k' & E1 & H1 & Hsh & _).
  assert (k' = k1) as -> by congruence. apply (get_n_kv_total n); [done|]. intros st (j & Hj)%list_elem_of_lookup_1.
  destruct (target_Some k u m si Hpl j 0) as (st' & l & i & x & Hst & _ & _ & _ & Hx & _);
    [by eapply lookup_lt_Some|apply (pl_some _ _ _ _ Hpl)|].
  assert (st' = st) as -> by congruence. apply cell_at_Some in Hx as (c & Hc & _).
  destruct Hsh as (_ & -> & _). rewrite <- (ok_cells n k Hok). by eapply lookup_lt_Some.
Qed.

(** From ubatch number [length us0] on, the rest of the plan is carried out. *)
Lemma run_context_ok n sis us k k' : plan n k sis us k' -> us <> [] ->
  forall fuel sis0 us0 (cx : @Context.kv_context E),
  (length us <= fuel)%nat -> length sis0 = length us0 ->
  Context.cx_status cx = LLAMA_MEMORY_STATUS_SUCCESS -> Context.cx_i_cur cx = length us0 ->
  Context.cx_sinfos cx = sis0 ++ sis -> Context.cx_ubatches cx = us0 ++ us ->
  exists cx', Context.run_context fuel k cx = Ret (k', cx')
    /\ Context.cx_i_cur cx' = length (us0 ++ us).
Proof.
  induction 1 as [|k si u m k1 sis us k2 Hok _ Hpl Happ Hplan IH]; intros Hne fuel sis0 us0 cx Hf Hlen Hs Hi Hsi Hus;
    [done|]. destruct fuel as [|fuel]; [simpl in Hf; lia|].
  destruct (plan_step n k u m si k1 Hok Hpl Happ) as [r Hr]. cbn [Context.run_context]. unfold Context.apply.
  rewrite Hs. cbn [llama_memory_status_is_fail negb c_assert mbind outcome_bind]. rewrite Hus.
  destruct (us0 ++ u :: us) as [|u' us'] eqn:Eus; [by destruct us0|]. rewrite <- Eus, Hsi, Hi.
  assert (E1 : at_ (sis0 ++ si :: sis) (length us0) = Ret si).
  { apply at_Ret. by rewrite lookup_app_r, Hlen, Nat.sub_diag by lia. }
  assert (E2 : at_ (us0 ++ u :: us) (length us0) = Ret u).
  { apply at_Ret. by rewrite lookup_app_r, Nat.sub_diag by lia. }
  rewrite E1, E2. cbn [mbind outcome_bind]. rewrite Happ. cbn [mbind outcome_bind]. rewrite Hr. cbn [mbind outcome_bind].
  unfold Context.next, Context.set_n_kv, Context.set_i_cur. cbn [Context.cx_status Context.cx_ubatches Context.cx_i_cur].
  rewrite Hs, Hi. cbn [Context.is_success c_assert mbind outcome_bind]. rewrite Hus, <- Eus, length_app. simpl length.
  destruct us as [|u2 us].
  - inversion Hplan; subst. rewrite (proj2 (Nat.leb_le _ _)) by (simpl; lia). eexists. split; [reflexivity|]. simpl. lia.
  - rewrite (proj2 (Nat.leb_gt _ _)) by (simpl; lia).
    edestruct (IH ltac:(done) fuel (sis0 ++ [si]) (us0 ++ [u])) as (cx' & E3 & Hi'); cycle -1.
    + eexists. split; [exact E3|]. rewrite Hi', <- app_assoc, length_app. done.
    + simpl in Hf |- *. lia.
    + rewrite !length_app. simpl. lia.
    + done.
    + rewrite length_app. simpl. lia.
    + rewrite <- app_assoc. done.
    + rewrite <- app_assoc. cbn [Context.cx_ubatches app]. congruence.
Qed.

End Run.

Section Theorems.
Context {E : Type}.
Notation llama_ubatch := (@llama_ubatch E).

(** C11. Every valid operation on a cache (clearing, removing, copying, keeping,
    shifting and dividing the positions of sequences, placing a ubatch, updating)
    returns, keeps the invariant, and changes the relation "cell [i] holds
    sequence [s] at position [p]" as the abstract operation [spec_op] says. *)
Theorem kv_operations_refine n k (op : kv_op E) : kv_ok n k -> op_pre n k op ->
  exists k', run_op k op = Ret k' /\ kv_ok n k' /\ same_shape k k'
    /\ forall s i p, at_pos k' s i p <-> spec_op (home k) (at_pos k) op s i p.
Proof. apply op_refines. Qed.

(** The indices of a sequence agree with the cells. *)
Lemma queries_ok n k s : kv_ok n k -> Kv.seq_known k s = true ->
  exists lo hi, Kv.seq_pos_min k s = Ret lo /\ Kv.seq_pos_max k s = Ret hi
    /\ ((lo = -1 /\ hi = -1 /\ forall i p, ~ at_pos k s i p)
        \/ ((exists i, at_pos k s i lo) /\ (exists i, at_pos k s i hi) /\ forall i p, at_pos k s i p -> lo <= p <= hi)).
Proof.
  intros Hok Hs.
  pose proof (seq_known_range n k s Hok Hs) as Hrange.
  destruct (seq_stream n k s Hok Hs) as (st & c & h & Est & Hhome & Hc & _).
  destruct (stream_sound n k st c Hok Hc) as (Hcok & _ & _).
  destruct (seq_pos_min_ok c Hcok s Hrange) as (lo & Elo & Hlo).
  destruct (seq_pos_max_ok c Hcok s Hrange) as (hi & Ehi & Hhi).
  assert (Hh : forall p, holds c s p <-> exists i, at_pos k s i p).
  { intros p. unfold holds. split.
    - intros (i & x & Hx & Hin & Hp). exists i. by exists st, c, x.
    - intros (i & Hp). destruct (at_pos_home n k s i p st Hok Hp Hhome) as (c' & x & Hc' & Hx & H).
      assert (c' = c) as -> by congruence. by exists i, x. }
  exists lo, hi. unfold Kv.seq_pos_min, Kv.seq_pos_max. rewrite Hs. cbn [c_assert mbind outcome_bind].
  rewrite Est. cbn [mbind outcome_bind]. rewrite (proj2 (at_Ret _ _ _) Hc). cbn [mbind outcome_bind].
  split_and!; [done|done|]. destruct Hlo as [[-> Hno]|[Hlo Hle]], Hhi as [[-> Hno']|[Hhi Hge]].
  - left. split_and!; [done|done|]. intros i p Hp. apply (Hno p), Hh. by exists i.
  - by destruct (Hno hi).
  - by destruct (Hno' lo).
  - right. split_and!; [by apply Hh|by apply Hh|]. intros i p Hp.
    assert (H : holds c s p) by (apply Hh; by exists i). specialize (Hle p H). specialize (Hge p H). lia.
Qed.

(** C12. Whatever valid operations lead from a fresh cache to [k], the cached indices
    agree with the abstract relation: [seq_pos_min] and [seq_pos_max] of a known
    sequence are its least and greatest position, -1 when it has none. *)
Theorem reachable_queries n k V s : reachable (E := E) n k V -> Kv.seq_known k s = true ->
  exists lo hi, Kv.seq_pos_min k s = Ret lo /\ Kv.seq_pos_max k s = Ret hi
    /\ ((lo = -1 /\ hi = -1 /\ forall i p, ~ V s i p)
        \/ ((exists i, V s i lo) /\ (exists i, V s i hi) /\ forall i p, V s i p -> lo <= p <= hi)).
Proof.
  intros Hr Hs. destruct (reachable_ok n k V Hr) as [Hok HV].
  destruct (queries_ok n k s Hok Hs) as (lo & hi & H1 & H2 & H). exists lo, hi. setoid_rewrite <- HV. done.
Qed.

(** C13. [find_slot] answers for every ubatch that fits the cache, contiguous or not:
    the slot it returns has for every stream as many distinct usable cells as
    there are tokens, in a row when asked for; it returns none only when some
    stream has no such cells. *)
Theorem find_slot_exact n k (u : llama_ubatch) cont m strms : kv_ok n k ->
  swa_ok (kv_n_swa k) (kv_swa_type k) -> ubatch_fits k u m strms ->
  exists r, Kv.find_slot k u cont = Ret r /\
    match r with
    | Some si => slots_found k cont m strms si
    | None => exists st, st ∈ strms /\ ~ has_room k cont st m
    end.
Proof. apply find_slot_ok. Qed.

(** Without a sliding window, [prepare] leaves the cache exactly as it was; the
    slots it returns can be filled one after the other, and it fails only at a
    ubatch for which no slot is left. *)
Theorem prepare_restores n k (us : list llama_ubatch) : kv_ok n k ->
  kv_swa_type k = LLAMA_SWA_TYPE_NONE -> 0 <= kv_n_swa k -> us <> [] -> Forall (ready k) us ->
  exists b sis, Kv.prepare k us = Ret (if b : bool then Some sis else None, k) /\ prepared n k us b sis.
Proof. apply prepare_ok. Qed.

(** When [prepare] finds slots for all ubatches, the context made from them is
    walked through to its end: every [apply] and [next] succeeds and every ubatch
    is placed. *)
Theorem context_completes n k (us : list llama_ubatch) sis : kv_ok n k ->
  kv_swa_type k = LLAMA_SWA_TYPE_NONE -> 0 <= kv_n_swa k -> us <> [] -> Forall (ready k) us ->
  Kv.prepare k us = Ret (Some sis, k) ->
  exists k' cx, Context.run_context (length us) k (Context.batch_context sis us) = Ret (k', cx)
    /\ Context.cx_i_cur cx = length us /\ plan n k sis us k' /\ kv_ok n k'.
Proof.
  intros Hok Hswa Hn Hne Hus Hprep. destruct (prepare_ok n k us Hok Hswa Hn Hne Hus) as (b & sis' & E1 & H).
  rewrite E1 in Hprep. destruct b; [|done]. injection Hprep as ->. destruct H as (k' & Hplan & Hok').
  destruct (run_context_ok n sis us k k' Hplan Hne (length us) [] [] (Context.batch_context sis us))
    as (cx & E2 & Hi); try done. by exists k', cx.
Qed.

(** ** Graph inputs *)

(** The ubatch has a first sequence of the cache and valid positions for every token. *)
Definition mask_batch (k : llama_kv_cache) (u : llama_ubatch) : Prop :=
  forall i, (i < u_n_tokens u)%nat -> exists ids id p,
    u_seq_id u !! i = Some ids /\ ids !! 0%nat = Some id /\ Kv.seq_known k id = true
    /\ u_pos u !! i = Some p /\ 0 <= p
    /\ ((3 <= u_n_pos u)%nat -> is_Some (u_pos u !! (i + u_n_tokens u * 2)%nat)
         /\ is_Some (u_pos u !! (i + u_n_tokens u)%nat)).

Definition mask_args (k : llama_kv_cache) (use_alibi : bool) (n_kv n_stream : nat) (u : llama_ubatch) : @Inputs.kq_args E :=
  Inputs.mk_args use_alibi u (kv_cells k) (kv_seq_to_stream k) (kv_n_swa k) (kv_swa_type k) n_kv n_stream
    (u_n_tokens u / n_stream).

(** C14. The attention mask that [set_input_kq_mask] computes by copying and patching
    rows is the one given entry by entry: [-INFINITY] where the token does not see
    the cell (other sequence, later position, outside of the window), else 0, or
    minus the distance with ALiBi. *)
Theorem kq_mask_exact n k (u : llama_ubatch) use_alibi n_kv n_stream data causal : kv_ok n k ->
  swa_ok (kv_n_swa k) (kv_swa_type k) -> kv_n_swa k < 2 ^ 31 - 32 -> mask_batch k u -> (n_kv <= n)%nat ->
  (0 < n_stream)%nat -> (u_n_tokens u mod n_stream = 0)%nat -> length data = (n_kv * u_n_tokens u)%nat ->
  exists d, Inputs.set_input_kq_mask k use_alibi n_kv n_stream data u causal = Ret d /\ length d = length data
    /\ forall i j, (i < u_n_tokens u)%nat -> (j < n_kv)%nat ->
       d !! (n_kv * i + j)%nat
         = Some (mask_entry causal (3 <=? u_n_pos u)%nat (mask_args k use_alibi n_kv n_stream u) i j).
Proof.
  intros Hok Hswa Hn Hu Hkv Hs Hmod Hlen. unfold Inputs.set_input_kq_mask.
  rewrite (proj2 (Nat.eqb_neq n_stream 0)) by lia. rewrite Hmod. cbn [Nat.eqb c_assert mbind outcome_bind].
  change (Inputs.mk_args _ _ _ _ _ _ _ _ _) with (mask_args k use_alibi n_kv n_stream u).
  assert (Ha : args_ok (3 <=? u_n_pos u)%nat (mask_args k use_alibi n_kv n_stream u)).
  { constructor; cbn [Inputs.ka_n_swa Inputs.ka_swa_type Inputs.ka_ubatch Inputs.ka_n_stream Inputs.ka_n_tps mask_args];
      [done|done| |].
    - rewrite (Nat.div_mod_eq (u_n_tokens u) n_stream) at 1. lia.
    - intros i Hi. destruct (Hu i Hi) as (ids & id & p & H1 & H2 & H3 & H4 & H5 & H6).
      destruct (seq_stream n k id Hok H3) as (st & c & h & Est & _ & Hc & _). apply at_Ret in Est.
      destruct (stream_sound n k st c Hok Hc) as (Hcok & Hsz & _). exists ids, id, p, st, c.
      pose proof (seq_known_range n k id Hok H3). split_and!; try done; try lia.
      + cbn [Inputs.ka_n_kv mask_args]. lia.
      + intros H7. apply Nat.leb_le in H7. by apply H6. }
  destruct (mask_impl_ok causal _ _ Ha data) as (d & E1 & Hlen' & Hrows); [done|].
  exists d. split; [exact E1|]. split; [by rewrite Hlen', Hlen|]. intros i j Hi Hj. by apply Hrows.
Qed.

(** [get_n_kv] pads to a power of two without overflow: the result is at most the
    size of the cache, a multiple of the padding otherwise, and every used cell of
    the slot's streams lies below it. *)
Theorem n_kv_covers n k si e : kv_ok n k -> Z.max (kv_n_pad k) 256 = 2 ^ e -> 0 <= e <= 31 ->
  Z.of_nat n + 2 ^ e <= 2 ^ 32 -> (forall st, st ∈ si_strm si -> (st < kv_n_stream k)%nat) ->
  exists r, Inputs.get_n_kv k si = Ret r /\ 0 <= r <= Z.of_nat n
    /\ (r = 0 \/ r = Z.of_nat n \/ (2 ^ e | r))
    /\ forall st i x, st ∈ si_strm si -> cell_at k st i = Some x -> cell_pos x <> -1 -> Z.of_nat i < r.
Proof. apply get_n_kv_ok. Qed.

(** C15. The rows of K and the elements of a transposed V that the tokens of a ubatch
    are written to are those of the cells of its slot: inside of the tensors of
    all streams and different for different tokens. *)
Theorem rows_distinct n k (u : llama_ubatch) m si n_embd kd vd : kv_ok n k -> placeable k u m si ->
  Z.of_nat (kv_n_stream k) * Z.of_nat n < 2 ^ 32 -> Kv.seq_known k 0 = true ->
  length kd = u_n_tokens u -> length vd = (u_n_tokens u * n_embd)%nat ->
  exists kd' vd', Inputs.set_input_k_idxs k kd u si = Ret kd'
    /\ Inputs.set_input_v_idxs k true n_embd vd u si = Ret vd'
    /\ (forall w, w ∈ pairs (length (si_strm si)) m -> kd' !! token_index m w = Some (row_of n si w)
          /\ 0 <= row_of n si w < Z.of_nat (kv_n_stream k) * Z.of_nat n)
    /\ (forall w w', w ∈ pairs (length (si_strm si)) m -> w' ∈ pairs (length (si_strm si)) m ->
          row_of n si w = row_of n si w' -> w = w')
    /\ (forall q, q ∈ KvRows.elements m si n_embd ->
          vd' !! element_index m n_embd q = Some (element_of n si n_embd q)
          /\ 0 <= element_of n si n_embd q < Z.of_nat (kv_n_stream k) * Z.of_nat n * Z.of_nat n_embd)
    /\ (forall q q', q ∈ KvRows.elements m si n_embd -> q' ∈ KvRows.elements m si n_embd ->
          element_of n si n_embd q = element_of n si n_embd q' -> q = q').
Proof.
  intros Hok Hpl Hrows H0 Hk Hv.
  destruct (k_idxs_ok n k u m si Hok Hpl Hrows H0 kd Hk) as (kd' & E1 & _ & Hkd).
  destruct (v_idxs_ok n k u m si Hok Hpl H0 n_embd vd Hv) as (vd' & E2 & _ & Hvd).
  exists kd', vd'. split_and!; [done|done| | | |].
  - intros w Hw. split; [by apply Hkd|by eapply row_of_range].
  - intros w w'. by eapply row_of_inj.
  - intros q Hq. split; [by apply Hvd|by eapply element_of_range].
  - intros q q'. by eapply element_of_inj.
Qed.

End Theorems.

(** * Concrete caches: the theorems of [KvTheorems.v] at work, and behaviours of
    the cache that its documentation does not suggest. *)

Definition no_cache : llama_kv_cache := mk_kv 0 0 0 0 LLAMA_SWA_TYPE_NONE 0 [] [] [] [].

Definition get {A} (d : A) (m : outcome A) : A := match m with Ret x => x | _ => d end.

(** A unified cache of eight cells, and three tokens: two of sequence 0, one of both. *)
Definition ex_k0 : llama_kv_cache :=
  Eval vm_compute in get no_cache (Kv.make true 8 3 4 0 LLAMA_SWA_TYPE_NONE 1).

Definition ex_u : @llama_ubatch unit :=
  mk_ubatch false 3 1 3 2 1 (Some [5; 6; 7]) None [0; 1; 2] [1; 1; 2] [[0]; [0]; [0; 1]] [0; 1] [] [0; 0; 1].

Definition ex_si : slot_info := mk_slot 0 0 [0%nat] [[0; 1; 2]%nat].

Definition ex_k1 : llama_kv_cache := Eval vm_compute in get no_cache (Kv.apply_ubatch ex_k0 ex_si ex_u).

Lemma ex_k0_ok : kv_ok 8 ex_k0.
Proof.
  apply (make_ok true 8 3 4 0 LLAMA_SWA_TYPE_NONE 1 ex_k0); [|vm_compute; reflexivity].
  change (Z.to_nat MAX_SEQ) with 256%nat. lia.
Qed.

Lemma ex_fits : ubatch_fits ex_k0 ex_u 3 [0%nat].
Proof.
  constructor; try (simpl; lia).
  intros [|s] st H; [|done]. injection H as <-. exists 0. split_and!; [done|done|done|]. simpl. lia.
Qed.

Lemma ex_tokens j st ii : [0%nat] !! j = Some st -> (ii < 3)%nat -> token_ok ex_k0 ex_u st (j * 3 + ii).
Proof.
  destruct j as [|j]; [|done]. intros [= <-] Hii.
  assert (Hids : forall ids : list Z, (forall s, s ∈ ids -> 0 <= s <= 1) ->
    forall id, id ∈ ids -> Kv.seq_known ex_k0 id = true /\ home ex_k0 id = Some 0%nat).
  { intros ids Hids id Hin. specialize (Hids id Hin). assert (id = 0 \/ id = 1) as [->| ->] by lia; done. }
  destruct ii as [|[|[|ii]]]; [| | |lia]; simpl; constructor; simpl; try lia.
  1,3,5: eexists; split; [reflexivity|lia].
  1,2: exists [0]; split_and!; [done|done|done|apply NoDup_singleton|apply Hids; set_solver by lia].
  exists [0; 1]. split_and!; [done|done|done| |apply Hids; set_solver by lia].
  apply NoDup_cons. split; [set_solver by lia|apply NoDup_singleton].
Qed.

Lemma ex_ready : ready ex_k0 ex_u.
Proof.
  exists 3%nat, [0%nat]. split_and!; [apply ex_fits| |apply ex_tokens]. intros [|j] st H; [by injection H as <-|done].
Qed.

Lemma ex_find : Kv.find_slot ex_k0 ex_u false = Ret (Some ex_si).
Proof. vm_compute. reflexivity. Qed.

Lemma ex_swa : swa_ok 0 LLAMA_SWA_TYPE_NONE.
Proof. by split. Qed.

Lemma ex_placeable : placeable ex_k0 ex_u 3 ex_si.
Proof.
  destruct (find_slot_ok 8 ex_k0 ex_u false 3 [0%nat] ex_k0_ok ex_swa ex_fits) as (r & Er & Hr).
  rewrite ex_find in Er. injection Er as <-.
  apply (found_placeable 8 ex_k0 ex_u false 3 [0%nat] ex_si ex_k0_ok ex_fits); [|apply ex_tokens|exact Hr].
  intros [|j] st H; [by injection H as <-|done].
Qed.

Lemma ex_apply : Kv.apply_ubatch ex_k0 ex_si ex_u = Ret ex_k1.
Proof. vm_compute. reflexivity. Qed.

Lemma ex_k1_ok : kv_ok 8 ex_k1.
Proof.
  destruct (apply_ubatch_ok 8 ex_k0 ex_u 3 ex_si ex_k0_ok ex_placeable) as (k' & E1 & H & _).
  rewrite ex_apply in E1. by injection E1 as <-.
Qed.

Lemma ex_reachable : reachable (E := unit) 8 ex_k1
  (spec_op (home ex_k0) (fun _ _ _ => False) (OpPlace ex_si ex_u)).
Proof.
  eapply reach_step; [eapply (reach_make 8 true 3 4 0 LLAMA_SWA_TYPE_NONE 1 ex_k0)| |].
  - change (Z.to_nat MAX_SEQ) with 256%nat. lia.
  - vm_compute. reflexivity.
  - exists 3%nat. apply ex_placeable.
  - exact ex_apply.
Qed.

Lemma ex_mask_batch : mask_batch ex_k1 ex_u.
Proof.
  intros i Hi. simpl in Hi. destruct i as [|[|[|i]]]; [| | |lia]; eexists _, _, _;
    (split_and!; [reflexivity|reflexivity|reflexivity|reflexivity|lia|simpl; lia]).
Qed.

(** ** Witnesses *)

Lemma kv_operations_refine_witness : kv_ok 8 ex_k1 /\ exists k',
  run_op (E := unit) ex_k1 (OpAdd 0 1 (-1) (-2)) = Ret k' /\ kv_ok 8 k' /\ same_shape ex_k1 k'
    /\ forall s i p, at_pos k' s i p
         <-> spec_op (E := unit) (home ex_k1) (at_pos ex_k1) (OpAdd 0 1 (-1) (-2)) s i p.
Proof. split; [apply ex_k1_ok|]. apply (kv_operations_refine 8 ex_k1 (OpAdd 0 1 (-1) (-2)) ex_k1_ok). by split. Defined.

Lemma reachable_queries_witness : exists lo hi, Kv.seq_pos_min ex_k1 1 = Ret lo /\ Kv.seq_pos_max ex_k1 1 = Ret hi
  /\ ((lo = -1 /\ hi = -1 /\ forall i p,
         ~ spec_op (E := unit) (home ex_k0) (fun _ _ _ => False) (OpPlace ex_si ex_u) 1 i p)
      \/ ((exists i, spec_op (home ex_k0) (fun _ _ _ => False) (OpPlace ex_si ex_u) 1 i lo)
          /\ (exists i, spec_op (home ex_k0) (fun _ _ _ => False) (OpPlace ex_si ex_u) 1 i hi)
          /\ forall i p, spec_op (home ex_k0) (fun _ _ _ => False) (OpPlace ex_si ex_u) 1 i p -> lo <= p <= hi)).
Proof. apply (reachable_queries (E := unit) 8 ex_k1 _ 1 ex_reachable). reflexivity. Defined.

Lemma find_slot_exact_witness : exists r, Kv.find_slot ex_k0 ex_u true = Ret r /\
  match r with
  | Some si => slots_found ex_k0 true 3 [0%nat] si
  | None => exists st, st ∈ [0%nat] /\ ~ has_room ex_k0 true st 3
  end.
Proof. apply (find_slot_exact 8 ex_k0 ex_u true 3 [0%nat] ex_k0_ok ex_swa ex_fits). Defined.

Lemma prepare_restores_witness : exists b sis,
  Kv.prepare ex_k0 [ex_u; ex_u] = Ret (if b : bool then Some sis else None, ex_k0)
  /\ prepared 8 ex_k0 [ex_u; ex_u] b sis.
Proof.
  apply (prepare_restores 8 ex_k0 [ex_u; ex_u] ex_k0_ok); [reflexivity|reflexivity|discriminate|].
  repeat constructor; apply ex_ready.
Defined.

Lemma context_completes_witness : exists k' cx,
  Context.run_context 1 ex_k0 (Context.batch_context [ex_si] [ex_u]) = Ret (k', cx)
  /\ Context.cx_i_cur cx = 1%nat /\ plan 8 ex_k0 [ex_si] [ex_u] k' /\ kv_ok 8 k'.
Proof.
  apply (context_completes 8 ex_k0 [ex_u] [ex_si] ex_k0_ok); [reflexivity|reflexivity|discriminate| |].
  - repeat constructor; apply ex_ready.
  - vm_compute. reflexivity.
Defined.

Lemma kq_mask_exact_witness : exists d,
  Inputs.set_input_kq_mask ex_k1 false 8 1 (replicate 24 Inputs.NegInf) ex_u true = Ret d /\ length d = 24%nat
  /\ forall i j, (i < 3)%nat -> (j < 8)%nat ->
     d !! (8 * i + j)%nat = Some (mask_entry true false (mask_args ex_k1 false 8 1 ex_u) i j).
Proof.
  apply (kq_mask_exact 8 ex_k1 ex_u false 8 1 (replicate 24 Inputs.NegInf) true ex_k1_ok ex_swa);
    [reflexivity|apply ex_mask_batch|lia|lia|reflexivity|reflexivity].
Defined.

Lemma n_kv_covers_witness : exists r, Inputs.get_n_kv ex_k1 ex_si = Ret r /\ 0 <= r <= 8
  /\ (r = 0 \/ r = 8 \/ (2 ^ 8 | r))
  /\ forall st i x, st ∈ [0%nat] -> cell_at ex_k1 st i = Some x -> cell_pos x <> -1 -> Z.of_nat i < r.
Proof.
  apply (n_kv_covers 8 ex_k1 ex_si 8 ex_k1_ok); [reflexivity|lia|vm_compute; discriminate|].
  intros st ->%list_elem_of_singleton. vm_compute. lia.
Defined.

Lemma rows_distinct_witness : exists kd' vd',
  Inputs.set_input_k_idxs ex_k0 [0; 0; 0] ex_u ex_si = Ret kd'
  /\ Inputs.set_input_v_idxs ex_k0 true 2 [0; 0; 0; 0; 0; 0] ex_u ex_si = Ret vd'
  /\ (forall w, w ∈ pairs 1 3 -> kd' !! token_index 3 w = Some (row_of 8 ex_si w) /\ 0 <= row_of 8 ex_si w < 1 * 8)
  /\ (forall w w', w ∈ pairs 1 3 -> w' ∈ pairs 1 3 -> row_of 8 ex_si w = row_of 8 ex_si w' -> w = w')
  /\ (forall q, q ∈ KvRows.elements 3 ex_si 2 ->
        vd' !! element_index 3 2 q = Some (element_of 8 ex_si 2 q) /\ 0 <= element_of 8 ex_si 2 q < 1 * 8 * 2)
  /\ (forall q q', q ∈ KvRows.elements 3 ex_si 2 -> q' ∈ KvRows.elements 3 ex_si 2 ->
        element_of 8 ex_si 2 q = element_of 8 ex_si 2 q' -> q = q').
Proof.
  apply (rows_distinct 8 ex_k0 ex_u 3 ex_si 2 [0; 0; 0] [0; 0; 0; 0; 0; 0] ex_k0_ok ex_placeable);
    [reflexivity|reflexivity|reflexivity|reflexivity].
Defined.

(** ** Behaviours that the comments and the documentation do not suggest *)

(** Copying a sequence onto one that already shares a cell with it aborts. *)
Example seq_cp_shared_cell_aborts : Kv.seq_cp ex_k1 0 1 (-1) (-1) = Fatal "!seq[i].test(seq_id)".
Proof. vm_compute. reflexivity. Qed.

(** [seq_div] records the distance of a moved cell with the sign opposite to that
    of [seq_add]: both move the token of cell 2 from position 2 to position 1. *)
Example seq_div_shift_sign :
  (k ← Kv.seq_add ex_k1 0 2 3 (-1); Inputs.set_input_k_shift k (replicate 8 0)) = Ret [0; 0; -1; 0; 0; 0; 0; 0]
  /\ (k ← Kv.seq_div ex_k1 0 2 3 2; Inputs.set_input_k_shift k (replicate 8 0)) = Ret [0; 0; 1; 0; 0; 0; 0; 0]
  /\ (k ← Kv.seq_add ex_k1 0 2 3 (-1); Kv.seq_pos_max k 0) = Ret 1
  /\ (k ← Kv.seq_div ex_k1 0 2 3 2; Kv.seq_pos_max k 0) = Ret 1.
Proof. split_and!; vm_compute; reflexivity. Qed.

(** Three streams; the tokens of sequence 2 fill the first cells of stream 2. *)
Definition ex_single (s p : Z) : @llama_ubatch unit :=
  mk_ubatch true 1 1 1 1 1 (Some [5]) None [p] [1] [[s]] [s] [] [1].

Definition ex_streams : llama_kv_cache :=
  Eval vm_compute in get no_cache
    (k ← Kv.make false 8 3 4 0 LLAMA_SWA_TYPE_NONE 1;
     k ← Kv.apply_ubatch k (mk_slot 2 2 [2%nat] [[0%nat]]) (ex_single 2 0);
     Kv.apply_ubatch k (mk_slot 2 2 [2%nat] [[1%nat]]) (ex_single 2 1)).

(** [prepare] does not restore the head of stream 2: the heads of all streams are
    saved, and the stream at place [s] of the slot gets the head saved for stream [s]. *)
Example prepare_forgets_head : kv_heads ex_streams = [0; 0; 2]%nat
  /\ (match Kv.prepare ex_streams [ex_single 2 2] with Ret (_, k) => Some (kv_heads k) | _ => None end)
     = Some [0; 0; 0]%nat.
Proof. split; vm_compute; reflexivity. Qed.

(** A window of two positions in four cells: positions 0 to 3 of sequence 0, cell 1
    shared with sequence 1; position 4 has gone to cell 0. *)
Definition ex_window : llama_kv_cache :=
  Eval vm_compute in get no_cache
    (k ← Kv.make true 4 3 4 2 LLAMA_SWA_TYPE_STANDARD 1;
     k ← Kv.apply_ubatch k (mk_slot 0 0 [0%nat] [[0; 1; 2; 3]%nat])
           (mk_ubatch false 4 1 4 2 1 (Some [5; 6; 7; 8]) None [0; 1; 2; 3] [1; 2; 1; 1]
              [[0]; [0; 1]; [0]; [0]] [0; 1] [] [0; 0; 1; 1]);
     Kv.apply_ubatch k (mk_slot 0 0 [0%nat] [[0%nat]]) (ex_single 0 4)).

(** Under a sliding window [prepare] loses tokens: what the trial placement removes
    from cells outside of the slots is not restored. *)
Example prepare_loses_tokens : Kv.seq_pos_min ex_window 0 = Ret 1
  /\ (match Kv.prepare ex_window [ex_single 0 5] with Ret (_, k) => Some (Kv.seq_pos_min k 0) | _ => None end)
     = Some (Ret 2).
Proof. split; vm_compute; reflexivity. Qed.
