(* ===== verification/KvState.v ===== *)
(** * Saving and restoring the KV cache, [src/llama-kv-cache.cpp], through the
    buffers of [src/llama-context.cpp].

    A saved state is a list of bytes: integers in the little-endian object
    representation, then the rows of the K and V tensors.  A tensor of a stream
    is the list of its bytes.  The size of the written buffer is not bounded
    here: the caller allocates what a dry run has counted. *)

From S2P Require Import Prelude KvCells Batch KvCache.

(** ** Buffers *)

Module Io.

(** The low [n] bytes of an integer, in memory order. *)
Definition le_bytes (n : nat) (z : Z) : list Z :=
  map (fun i => Z.land (Z.shiftr z (8 * Z.of_nat i)) 255) (seq 0 n).

Fixpoint le_value (l : list Z) : Z :=
  match l with [] => 0 | b :: l => b + 256 * le_value l end.

Definition write (out src : list Z) : list Z := out ++ src.

(** [ggml_backend_tensor_get] into the buffer *)
Definition write_tensor (out tensor : list Z) (offset size : nat) : outcome (list Z) :=
  if (size =? 0)%nat then Ret out
  else
    c_assert (offset + size <=? length tensor)%nat "tensor read out of bounds";;
    Ret (out ++ take size (drop offset tensor)).

Definition read (inp : list Z) (size : nat) : outcome (list Z * list Z) :=
  if (length inp <? size)%nat then Throw "unexpectedly reached end of buffer"
  else Ret (take size inp, drop size inp).

Definition read_u32 (inp : list Z) : outcome (Z * list Z) :=
  '(b, inp) ← read inp 4; Ret (le_value b, inp).
Definition read_i32 (inp : list Z) : outcome (Z * list Z) :=
  '(b, inp) ← read inp 4; Ret (i32 (le_value b), inp).
Definition read_u64 (inp : list Z) : outcome (Z * list Z) :=
  '(b, inp) ← read inp 8; Ret (le_value b, inp).

(** [ggml_backend_tensor_set] *)
Definition tensor_set (tensor src : list Z) (offset : nat) : outcome (list Z) :=
  if (length src =? 0)%nat then Ret tensor
  else
    c_assert (offset + length src <=? length tensor)%nat "tensor write out of bounds";;
    Ret (take offset tensor ++ src ++ drop (offset + length src) tensor).

End Io.

(** ** Slots *)

(** [slot_info::head] *)
Definition slot_head (si : slot_info) : outcome nat :=
  match si_idxs si with
  | [[]] => Fatal "!idxs[0].empty()"
  | [h :: _] => Ret h
  | _ => Fatal "idxs.size() == 1"
  end.

(** [slot_info::is_contiguous] *)
Definition is_contiguous (si : slot_info) : bool :=
  match si_idxs si with
  | [] | [] :: _ => true
  | [h :: l] => bool_decide (h :: l = seq h (S (length l)))
  | _ => false
  end.

(** ** The cache with its tensors *)

(** A layer: its types, the sizes [ggml_row_size] and [ggml_type_size] give for
    them, and the data of its streams; [ly_v] may be absent. *)
Record kv_layer := mk_layer {
  ly_k_type : Z;
  ly_k_row : nat;
  ly_k : list (list Z);
  ly_v_type : Z;
  ly_v_row : nat;
  ly_v_el : nat;
  ly_n_embd_v : nat;
  ly_v : list (option (list Z));
}.

Record kv_store := mk_store { st_cache : llama_kv_cache; st_v_trans : bool; st_layers : list kv_layer }.

Definition set_k_stream (l : kv_layer) (s : nat) (t : list Z) : kv_layer :=
  mk_layer (ly_k_type l) (ly_k_row l) (<[s := t]> (ly_k l)) (ly_v_type l) (ly_v_row l) (ly_v_el l)
    (ly_n_embd_v l) (ly_v l).
Definition set_v_stream (l : kv_layer) (s : nat) (t : list Z) : kv_layer :=
  mk_layer (ly_k_type l) (ly_k_row l) (ly_k l) (ly_v_type l) (ly_v_row l) (ly_v_el l)
    (ly_n_embd_v l) (<[s := Some t]> (ly_v l)).

Definition set_cache (st : kv_store) (k : llama_kv_cache) : kv_store :=
  mk_store k (st_v_trans st) (st_layers st).
Definition set_layers (st : kv_store) (ls : list kv_layer) : kv_store :=
  mk_store (st_cache st) (st_v_trans st) ls.

(** [clear(true)]: the buffers are filled with zeros. *)
Definition zero_layer (l : kv_layer) : kv_layer :=
  mk_layer (ly_k_type l) (ly_k_row l) (map (map (fun _ => 0)) (ly_k l)) (ly_v_type l) (ly_v_row l)
    (ly_v_el l) (ly_n_embd_v l) (map (option_map (map (fun _ => 0))) (ly_v l)).

Definition clear_data (st : kv_store) : kv_store :=
  mk_store (Kv.clear (st_cache st)) (st_v_trans st) (map zero_layer (st_layers st)).

Module State.

(** ** Writing *)

Definition in_state (c : llama_kv_cells) (seq_id : Z) (i : nat) : outcome bool :=
  empty ← Cells.is_empty c i;
  if empty : bool then Ret false
  else if seq_id =? -1 then Ret true else Cells.seq_has c i seq_id.

(** The count of cells, the begin of the current range ([size] when there is
    none) and the finished ranges, after cell [i]. *)
Definition extend_ranges (size : nat) (b : bool) (acc : nat * nat * list (nat * nat)) (i : nat) : nat * nat * list (nat * nat) :=
  let '(count, begin, data) := acc in
  if b then (S count, (if (begin =? size)%nat then i else begin), data)
  else if (begin =? size)%nat then (count, begin, data)
  else (count, size, data ++ [(begin, i)]).

Definition finish_ranges (size : nat) (acc : nat * nat * list (nat * nat)) : outcome (nat * list (nat * nat)) :=
  let '(count, begin, data) := acc in
  let data := if (begin =? size)%nat then data else data ++ [(begin, size)] in
  c_assert (count =? foldr (fun r n => (r.2 - r.1 + n)%nat) 0%nat data)%nat "cell_count == cell_count_check";;
  Ret (count, data).

Definition range_step (c : llama_kv_cells) (seq_id : Z) (acc : nat * nat * list (nat * nat)) (i : nat)
    : outcome (nat * nat * list (nat * nat)) :=
  b ← in_state c seq_id i; Ret (extend_ranges (Cells.size c) b acc i).

Definition cell_ranges (c : llama_kv_cells) (seq_id : Z) : outcome (nat * list (nat * nat)) :=
  let size := Cells.size c in
  acc ← foldM (range_step c seq_id) (0%nat, size, []) (seq 0 size);
  finish_ranges size acc.

(** [for (i = range.first; i < range.second; ++i)] over all ranges *)
Definition range_cells (ranges : list (nat * nat)) : list nat :=
  flat_map (fun r => seq r.1 (r.2 - r.1)) ranges.

Definition cell_seq_ids (n_seq_max : nat) (c : llama_kv_cells) (seq_id : Z) (i : nat) : outcome (list Z) :=
  foldM (fun ids cur =>
      if (cur =? seq_id) || (seq_id =? -1) then
        has ← Cells.seq_has c i cur; Ret (if has : bool then ids ++ [cur] else ids)
      else Ret ids)
    [] (map Z.of_nat (seq 0 n_seq_max)).

Definition write_cell (n_seq_max : nat) (c : llama_kv_cells) (seq_id : Z) (out : list Z) (i : nat)
    : outcome (list Z) :=
  seq_ids ← cell_seq_ids n_seq_max c seq_id i;
  pos ← Cells.pos_get c i;
  let out := Io.write out (Io.le_bytes 4 pos) in
  let out := Io.write out (Io.le_bytes 4 (Z.of_nat (length seq_ids))) in
  Ret (foldl (fun out s => Io.write out (Io.le_bytes 4 s)) out seq_ids).

Definition state_write_meta (n_seq_max : nat) (c : llama_kv_cells) (ranges : list (nat * nat))
    (seq_id : Z) (out : list Z) : outcome (list Z) :=
  foldM (write_cell n_seq_max c seq_id) out (range_cells ranges).

Definition write_k (strm : nat) (ranges : list (nat * nat)) (out : list Z) (l : kv_layer) : outcome (list Z) :=
  k ← at_ (ly_k l) strm;
  let out := Io.write out (Io.le_bytes 4 (ly_k_type l)) in
  let out := Io.write out (Io.le_bytes 8 (Z.of_nat (ly_k_row l))) in
  foldM (fun out r => Io.write_tensor out k (r.1 * ly_k_row l) ((r.2 - r.1) * ly_k_row l)) out ranges.

Definition write_v_rows (strm : nat) (ranges : list (nat * nat)) (out : list Z) (l : kv_layer)
    : outcome (list Z) :=
  v ← at_ (ly_v l) strm;
  match v with
  | None => Ret out
  | Some v =>
      let out := Io.write out (Io.le_bytes 4 (ly_v_type l)) in
      let out := Io.write out (Io.le_bytes 8 (Z.of_nat (ly_v_row l))) in
      foldM (fun out r => Io.write_tensor out v (r.1 * ly_v_row l) ((r.2 - r.1) * ly_v_row l)) out ranges
  end.

(** [(range.first + j * kv_size) * v_size_el], computed on [uint32_t] *)
Definition v_src_offset (first j kv_size el : Z) : Z := u32 (u32 (first + u32 (j * kv_size)) * el).

Definition write_v_trans (strm kv_size : nat) (ranges : list (nat * nat)) (out : list Z) (l : kv_layer)
    : outcome (list Z) :=
  v ← at_ (ly_v l) strm;
  match v with
  | None => Ret out
  | Some v =>
      let out := Io.write out (Io.le_bytes 4 (ly_v_type l)) in
      let out := Io.write out (Io.le_bytes 4 (Z.of_nat (ly_v_el l))) in
      let out := Io.write out (Io.le_bytes 4 (Z.of_nat (ly_n_embd_v l))) in
      foldM (fun out j =>
          foldM (fun out r =>
              Io.write_tensor out v
                (Z.to_nat (v_src_offset (Z.of_nat r.1) (Z.of_nat j) (Z.of_nat kv_size) (Z.of_nat (ly_v_el l))))
                ((r.2 - r.1) * ly_v_el l))
            out ranges)
        out (seq 0 (ly_n_embd_v l))
  end.

Definition state_write_data (st : kv_store) (strm kv_size : nat) (ranges : list (nat * nat)) (out : list Z)
    : outcome (list Z) :=
  let out := Io.write out (Io.le_bytes 4 (if st_v_trans st then 1 else 0)) in
  let out := Io.write out (Io.le_bytes 4 (Z.of_nat (length (st_layers st)))) in
  out ← foldM (write_k strm ranges) out (st_layers st);
  if negb (st_v_trans st) then foldM (write_v_rows strm ranges) out (st_layers st)
  else foldM (write_v_trans strm kv_size ranges) out (st_layers st).

Definition write_stream (st : kv_store) (seq_id : Z) (out : list Z) (s : nat) : outcome (list Z) :=
  c ← at_ (kv_cells (st_cache st)) s;
  '(cell_count, ranges) ← cell_ranges c seq_id;
  let out := Io.write out (Io.le_bytes 4 (Z.of_nat cell_count)) in
  if (cell_count =? 0)%nat then Ret out
  else
    out ← state_write_meta (kv_n_seq_max (st_cache st)) c ranges seq_id out;
    state_write_data st s (Cells.size c) ranges out.

Definition state_write (st : kv_store) (seq_id : Z) : outcome (list Z) :=
  let k := st_cache st in
  foldM (write_stream st seq_id) (Io.write [] (Io.le_bytes 4 (Z.of_nat (kv_n_stream k))))
    (seq 0 (kv_n_stream k)).

(** ** Reading

    [io.read] throws at the end of the buffer, and nothing is undone then: a
    function that changes an object carries it along in the exception
    ([keeping], [within]), as it is at that moment. *)

(** Token [i] of the ubatch for a restored sequence. *)
Definition set_token (u : @llama_ubatch unit) (i : nat) (pos n_seq_id dest : Z) : outcome (@llama_ubatch unit) :=
  p ← set_ (u_pos u) i pos;
  n ← set_ (u_n_seq_id u) i n_seq_id;
  ids ← set_ (u_seq_id u) i [dest];
  Ret (mk_ubatch (u_equal_seqs u) (u_n_tokens u) (u_n_seq_tokens u) (u_n_seqs u) (u_n_seqs_unq u)
         (u_n_pos u) (u_token u) (u_embd u) p n ids (u_seq_id_unq u) (u_seq_idx u) (u_output u)).

(** [ubatch.seq_id_unq[0] = dest_seq_id] *)
Definition set_unq (u : @llama_ubatch unit) (dest : Z) : outcome (@llama_ubatch unit) :=
  unq ← set_ (u_seq_id_unq u) 0 dest;
  Ret (mk_ubatch (u_equal_seqs u) (u_n_tokens u) (u_n_seq_tokens u) (u_n_seqs u) (u_n_seqs_unq u)
         (u_n_pos u) (u_token u) (u_embd u) (u_pos u) (u_n_seq_id u) (u_seq_id u) unq (u_seq_idx u) (u_output u)).

(** The cells of a saved sequence; [None] is "invalid seq_id-agnostic kv cell". *)
Fixpoint read_seq_cells (dest : Z) (cells : list nat) (u : @llama_ubatch unit) (inp : list Z)
    : outcome (option (@llama_ubatch unit) * list Z) :=
  match cells with
  | [] => Ret (Some u, inp)
  | i :: cells =>
      '(pos, inp) ← Io.read_i32 inp;
      '(n_seq_id, inp) ← Io.read_u32 inp;
      if negb (n_seq_id =? 1) then Ret (None, inp)
      else
        '(_, inp) ← Io.read_i32 inp;
        u ← set_token u i pos n_seq_id dest;
        read_seq_cells dest cells u inp
  end.

(** The sequences of a cell; the flag says that all of them are in range. *)
Fixpoint read_seq_ids (n_seq_max : nat) (i : nat) (n_seq_id : nat) (c : llama_kv_cells) (inp : list Z)
    : changing llama_kv_cells (bool * llama_kv_cells * list Z) :=
  match n_seq_id with
  | O => Ret (true, c, inp)
  | S n_seq_id =>
      '(seq_id, inp) ← keeping c (Io.read_i32 inp);
      if (seq_id <? 0) || (Z.of_nat n_seq_max <=? u32 seq_id) then Ret (false, c, inp)
      else c ← keeping c (Cells.seq_add c i seq_id); read_seq_ids n_seq_max i n_seq_id c inp
  end.

Fixpoint read_cells (n_seq_max : nat) (cells : list nat) (c : llama_kv_cells) (inp : list Z)
    : changing llama_kv_cells (bool * llama_kv_cells * list Z) :=
  match cells with
  | [] => Ret (true, c, inp)
  | i :: cells =>
      '(pos, inp) ← keeping c (Io.read_i32 inp);
      '(n_seq_id, inp) ← keeping c (Io.read_u32 inp);
      c ← keeping c (Cells.pos_set c i pos);
      '(ok, c, inp) ← read_seq_ids n_seq_max i (Z.to_nat n_seq_id) c inp;
      if ok : bool then read_cells n_seq_max cells c inp else Ret (false, c, inp)
  end.

(** "single sequence": the slot is [None] when the result is [false]. *)
Definition read_meta_seq (st : kv_store) (strm cell_count : nat) (dest : Z) (inp : list Z)
    : changing kv_store (option slot_info * kv_store * list Z) :=
  k ← keeping st (Kv.seq_rm (st_cache st) dest (-1) (-1));
  let st := set_cache st k in
  '(u, _) ← keeping st (ubatch_reserve (new_allocr (kv_n_pos_per_embd k)) cell_count 1);
  u ← keeping st (set_unq u dest);
  '(u, inp) ← keeping st (read_seq_cells dest (seq 0 cell_count) u inp);
  match u with
  | None => Ret (None, st, inp)
  | Some u =>
      sinfo ← keeping st (Kv.find_slot k u false);
      match sinfo with
      | None => Ret (None, st, inp)
      | Some sinfo =>
          k ← keeping st (Kv.apply_ubatch k sinfo u);
          let st := set_cache st k in
          keeping st (
            c_assert (length (si_strm sinfo) =? 1)%nat "sinfo.n_stream() == 1";;
            idxs ← at_ (si_idxs sinfo) 0;
            c_assert (length idxs =? cell_count)%nat "sinfo.idxs[0].size() == cell_count";;
            c ← at_ (kv_cells k) strm;
            foldM (fun _ i =>
                idx ← at_ idxs i;
                p ← Cells.pos_get c idx;
                pu ← at_ (u_pos u) i;
                c_assert (p =? pu) "cells.pos_get(idx) == ubatch.pos[i]";;
                has ← Cells.seq_has c idx dest;
                c_assert has "cells.seq_has(idx, dest_seq_id)")
              () (seq 0 cell_count));;
          Ret (Some sinfo, st, inp)
      end
  end.

(** The cells of a stream, which are changed in place. *)
Definition put_cells (st : kv_store) (strm : nat) (c : llama_kv_cells) : kv_store :=
  set_cache st (set_streams (st_cache st) (kv_heads (st_cache st)) (<[strm := c]> (kv_cells (st_cache st)))).

(** "whole KV cache restore" *)
Definition read_meta_all (st : kv_store) (strm cell_count : nat) (inp : list Z)
    : changing kv_store (option slot_info * kv_store * list Z) :=
  c ← keeping st (at_ (kv_cells (st_cache st)) strm);
  if (Cells.size c <? cell_count)%nat then Ret (None, st, inp)
  else
    let st := clear_data st in
    c ← keeping st (at_ (kv_cells (st_cache st)) strm);
    '(ok, c, inp) ← within (put_cells st strm) (read_cells (kv_n_seq_max (st_cache st)) (seq 0 cell_count) c inp);
    let st := put_cells st strm c in
    if negb ok then Ret (None, st, inp)
    else
      k ← keeping st (set_head (st_cache st) strm 0);
      Ret (Some (mk_slot strm strm [strm] [seq 0 cell_count]), set_cache st k, inp).

Definition state_read_meta (st : kv_store) (strm cell_count : nat) (dest : Z) (inp : list Z)
    : changing kv_store (option slot_info * kv_store * list Z) :=
  if negb (dest =? -1) then read_meta_seq st strm cell_count dest inp
  else read_meta_all st strm cell_count inp.

(** [idx + j * cells.size()], computed on [uint32_t]; [base] is the product, 0 for rows. *)
Definition row_index (idx base : nat) : nat := Z.to_nat (u32 (Z.of_nat idx + u32 (Z.of_nat base))).

(** [cell_count] rows of [size] bytes each, for the cells of the slot. *)
Definition read_rows (sinfo : slot_info) (cell_count base size : nat) (t inp : list Z)
    : changing (list Z) (list Z * list Z) :=
  keeping t (
    if is_contiguous sinfo then
      '(src, inp) ← Io.read inp (cell_count * size);
      h ← slot_head sinfo;
      t ← Io.tensor_set t src (row_index h base * size);
      Ret (t, inp)
    else
      '(src, inp) ← Io.read inp (cell_count * size);
      t ← foldM (fun t i =>
            idxs ← at_ (si_idxs sinfo) 0;
            idx ← at_ idxs i;
            Io.tensor_set t (take size (drop (i * size) src)) (row_index idx base * size))
          t (seq 0 cell_count);
      Ret (t, inp)).

(** The tensors of a layer; [None] is one of the mismatches. *)
Definition read_k (strm cell_count : nat) (sinfo : slot_info) (l : kv_layer) (inp : list Z)
    : changing kv_layer (option kv_layer * list Z) :=
  k ← keeping l (at_ (ly_k l) strm);
  '(k_type_i_ref, inp) ← keeping l (Io.read_i32 inp);
  if negb (ly_k_type l =? k_type_i_ref) then Ret (None, inp)
  else
    '(k_size_row_ref, inp) ← keeping l (Io.read_u64 inp);
    if negb (Z.of_nat (ly_k_row l) =? k_size_row_ref) then Ret (None, inp)
    else if (cell_count =? 0)%nat then Ret (Some l, inp)
    else
      '(t, inp) ← within (set_k_stream l strm) (read_rows sinfo cell_count 0 (ly_k_row l) k inp);
      Ret (Some (set_k_stream l strm t), inp).

Definition read_v_rows (strm cell_count : nat) (sinfo : slot_info) (l : kv_layer) (inp : list Z)
    : changing kv_layer (option kv_layer * list Z) :=
  v ← keeping l (at_ (ly_v l) strm);
  match v with
  | None => Ret (Some l, inp)
  | Some v =>
      '(v_type_i_ref, inp) ← keeping l (Io.read_i32 inp);
      if negb (ly_v_type l =? v_type_i_ref) then Ret (None, inp)
      else
        '(v_size_row_ref, inp) ← keeping l (Io.read_u64 inp);
        if negb (Z.of_nat (ly_v_row l) =? v_size_row_ref) then Ret (None, inp)
        else if (cell_count =? 0)%nat then Ret (Some l, inp)
        else
          '(t, inp) ← within (set_v_stream l strm) (read_rows sinfo cell_count 0 (ly_v_row l) v inp);
          Ret (Some (set_v_stream l strm t), inp)
  end.

(** A transposed V is written row by row: the rows before an exception stay. *)
Definition read_v_trans (strm cell_count kv_size : nat) (sinfo : slot_info) (l : kv_layer) (inp : list Z)
    : changing kv_layer (option kv_layer * list Z) :=
  v ← keeping l (at_ (ly_v l) strm);
  match v with
  | None => Ret (Some l, inp)
  | Some v =>
      '(v_type_i_ref, inp) ← keeping l (Io.read_i32 inp);
      if negb (ly_v_type l =? v_type_i_ref) then Ret (None, inp)
      else
        '(v_size_el_ref, inp) ← keeping l (Io.read_u32 inp);
        if negb (Z.of_nat (ly_v_el l) =? v_size_el_ref) then Ret (None, inp)
        else
          '(n_embd_v_gqa_ref, inp) ← keeping l (Io.read_u32 inp);
          if negb (Z.of_nat (ly_n_embd_v l) =? n_embd_v_gqa_ref) then Ret (None, inp)
          else if (cell_count =? 0)%nat then Ret (Some l, inp)
          else
            '(t, inp) ← within (set_v_stream l strm)
              (foldM (fun '(t, inp) j => read_rows sinfo cell_count (j * kv_size) (ly_v_el l) t inp)
                (v, inp) (seq 0 (ly_n_embd_v l)));
            Ret (Some (set_v_stream l strm t), inp)
  end.

(** A pass over the layers, which ends at the first mismatch. *)
Fixpoint read_layers {L} (f : L -> list Z -> changing L (option L * list Z)) (ls : list L)
    (inp : list Z) : changing (list L) (bool * list L * list Z) :=
  match ls with
  | [] => Ret (true, [], inp)
  | l :: ls =>
      '(r, inp) ← within (fun l => l :: ls) (f l inp);
      match r with
      | None => Ret (false, l :: ls, inp)
      | Some l => '(ok, ls, inp) ← within (cons l) (read_layers f ls inp); Ret (ok, l :: ls, inp)
      end
  end.

Definition state_read_data (st : kv_store) (strm cell_count : nat) (sinfo : slot_info) (inp : list Z)
    : changing kv_store (bool * kv_store * list Z) :=
  c ← keeping st (at_ (kv_cells (st_cache st)) strm);
  '(v_trans, inp) ← keeping st (Io.read_u32 inp);
  '(n_layer, inp) ← keeping st (Io.read_u32 inp);
  if negb (n_layer =? Z.of_nat (length (st_layers st))) then Ret (false, st, inp)
  else if (Cells.size c <? cell_count)%nat then Ret (false, st, inp)
  else if negb (Bool.eqb (st_v_trans st) (negb (v_trans =? 0))) then Ret (false, st, inp)
  else
    '(ok, ls, inp) ← within (set_layers st) (read_layers (read_k strm cell_count sinfo) (st_layers st) inp);
    let st := set_layers st ls in
    if negb ok then Ret (false, st, inp)
    else
      '(ok, ls, inp) ← within (set_layers st)
        (if negb (st_v_trans st) then
           read_layers (read_v_rows strm cell_count sinfo) (st_layers st) inp
         else
           read_layers (read_v_trans strm cell_count (Cells.size c) sinfo) (st_layers st) inp);
      Ret (ok, set_layers st ls, inp).

(** One stream.  [false] is the exception "failed to restore kv cache", with the
    state that is left after the clean-up. *)
Definition read_stream (st : kv_store) (seq_id : Z) (s : nat) (inp : list Z)
    : changing kv_store (bool * kv_store * list Z) :=
  '(cell_count, inp) ← keeping st (Io.read_u32 inp);
  if cell_count =? 0 then Ret (true, st, inp)
  else
    let cell_count := Z.to_nat cell_count in
    strm ← keeping st (if seq_id =? -1 then Ret s else at_z (kv_seq_to_stream (st_cache st)) seq_id);
    '(sinfo, st, inp) ← state_read_meta st strm cell_count seq_id inp;
    '(res, st, inp) ← match sinfo with
                      | None => Ret (false, st, inp)
                      | Some sinfo => state_read_data st strm cell_count sinfo inp
                      end;
    if res : bool then Ret (true, st, inp)
    else if seq_id =? -1 then Ret (false, clear_data st, inp)
    else k ← keeping st (Kv.seq_rm (st_cache st) seq_id (-1) (-1)); Ret (false, set_cache st k, inp).

Fixpoint read_streams (st : kv_store) (seq_id : Z) (streams : list nat) (inp : list Z)
    : changing kv_store (bool * kv_store * list Z) :=
  match streams with
  | [] => Ret (true, st, inp)
  | s :: streams =>
      '(ok, st, inp) ← read_stream st seq_id s inp;
      if ok : bool then read_streams st seq_id streams inp else Ret (false, st, inp)
  end.

Definition state_read (st : kv_store) (seq_id : Z) (inp : list Z) : changing kv_store (bool * kv_store * list Z) :=
  let k := st_cache st in
  keeping st (c_assert ((seq_id =? -1) || Kv.seq_known k seq_id)
    "seq_id == -1 || (seq_id >= 0 && (size_t) seq_id < seq_to_stream.size())");;
  '(n_stream_cur, inp) ← keeping st (Io.read_u32 inp);
  if negb (n_stream_cur =? Z.of_nat (kv_n_stream k)) then Throw ("n_stream mismatch", st)
  else read_streams st seq_id (seq 0 (kv_n_stream k)) inp.

(** ** The cache pair of [src/llama-kv-cache-iswa.cpp]

    With [LLAMA_STATE_SEQ_FLAGS_PARTIAL_ONLY] only the cache of the window is
    saved; the state of the base comes first otherwise. *)

Definition iswa_state_write (partial_only : bool) (base swa : kv_store) (seq_id : Z) : outcome (list Z) :=
  b ← (if partial_only then Ret [] else state_write base seq_id);
  s ← state_write swa seq_id;
  Ret (b ++ s).

Definition iswa_state_read (partial_only : bool) (base swa : kv_store) (seq_id : Z) (inp : list Z)
    : changing (kv_store * kv_store) (bool * kv_store * kv_store * list Z) :=
  '(ok, base, inp) ← within (fun base => (base, swa))
    (if partial_only then Ret (true, base, inp) else state_read base seq_id inp);
  if negb ok then Ret (false, base, swa, inp)
  else '(ok, swa, inp) ← within (pair base) (state_read swa seq_id inp); Ret (ok, base, swa, inp).

End State.
