(* ===== verification/KvStateFacts.v ===== *)
(** * Bytes, rows and ranges of a saved cache. *)

From S2P Require Import Prelude KvCells KvCellsFacts Batch KvCache KvCacheFacts KvState.
From Stdlib Require Import Lia.

(** ** Integers *)

Lemma length_le_bytes n z : length (Io.le_bytes n z) = n.
Proof. unfold Io.le_bytes. by rewrite length_map, length_seq. Qed.

Lemma le_value_bytes n z : Io.le_value (Io.le_bytes n z) = z mod 2 ^ (8 * Z.of_nat n).
Proof.
  assert (H : forall k, Io.le_value (map (fun i => Z.land (Z.shiftr z (8 * Z.of_nat i)) 255) (seq k n))
    = Z.shiftr z (8 * Z.of_nat k) mod 2 ^ (8 * Z.of_nat n)).
  { induction n as [|n IH]; intros k; simpl map; simpl Io.le_value; [by rewrite Z.mod_1_r|]. rewrite IH.
    replace (8 * Z.of_nat (S k)) with (8 * Z.of_nat k + 8) by lia.
    rewrite <- Z.shiftr_shiftr by lia. set (y := Z.shiftr z (8 * Z.of_nat k)).
    change 255 with (Z.ones 8). rewrite Z.land_ones, (Z.shiftr_div_pow2 y) by lia.
    replace (8 * Z.of_nat (S n)) with (8 + 8 * Z.of_nat n) by lia. rewrite Z.pow_add_r by lia.
    change 256 with (2 ^ 8). by rewrite (Z.rem_mul_r y (2 ^ 8)) by lia. }
  unfold Io.le_bytes. by rewrite (H 0%nat), Z.shiftr_0_r.
Qed.

Lemma read_app bs rest : Io.read (bs ++ rest) (length bs) = Ret (bs, rest).
Proof.
  unfold Io.read. rewrite length_app, (proj2 (Nat.ltb_ge _ _)) by lia. by rewrite take_app_length, drop_app_length.
Qed.

Lemma read_bytes n z rest : Io.read (Io.le_bytes n z ++ rest) n = Ret (Io.le_bytes n z, rest).
Proof. rewrite <- (length_le_bytes n z) at 2. apply read_app. Qed.

Lemma read_u32_ok z rest : 0 <= z < 2 ^ 32 -> Io.read_u32 (Io.le_bytes 4 z ++ rest) = Ret (z, rest).
Proof.
  intros Hz. unfold Io.read_u32. rewrite read_bytes. cbn [mbind outcome_bind keeping within map_throw]. rewrite le_value_bytes.
  by rewrite Z.mod_small by (simpl; lia).
Qed.

Lemma read_u64_ok z rest : 0 <= z < 2 ^ 64 -> Io.read_u64 (Io.le_bytes 8 z ++ rest) = Ret (z, rest).
Proof.
  intros Hz. unfold Io.read_u64. rewrite read_bytes. cbn [mbind outcome_bind keeping within map_throw]. rewrite le_value_bytes.
  by rewrite Z.mod_small by (simpl; lia).
Qed.

Lemma read_i32_ok z rest : - 2 ^ 31 <= z < 2 ^ 31 -> Io.read_i32 (Io.le_bytes 4 z ++ rest) = Ret (z, rest).
Proof.
  intros Hz. unfold Io.read_i32. rewrite read_bytes. cbn [mbind outcome_bind keeping within map_throw]. rewrite le_value_bytes.
  unfold i32. change (2 ^ (8 * Z.of_nat 4)) with (2 ^ 32).
  rewrite Zplus_mod_idemp_l, Z.mod_small by lia. by replace (z + 2 ^ 31 - 2 ^ 31) with z by lia.
Qed.

(** ** Rows of a tensor *)

Definition slice (w o : nat) (t : list Z) : list Z := take w (drop (o * w) t).

Lemma lookup_slice w o t i : (i < w)%nat -> slice w o t !! i = t !! (o * w + i)%nat.
Proof. intros Hi. unfold slice. by rewrite lookup_take_lt, lookup_drop. Qed.

Lemma length_slice w o t : ((o + 1) * w <= length t)%nat -> length (slice w o t) = w.
Proof. intros H. unfold slice. rewrite length_take, length_drop. nia. Qed.

(** Two slices with the same bytes. *)
Lemma slice_eq w o t o' t' : (forall i, (i < w)%nat -> t !! (o * w + i)%nat = t' !! (o' * w + i)%nat) ->
  slice w o t = slice w o' t'.
Proof.
  intros H. apply list_eq. intros i. destruct (decide (i < w)%nat) as [Hi|Hi].
  - by rewrite !lookup_slice, H.
  - unfold slice. by rewrite !lookup_take_ge by lia.
Qed.

Lemma take_slices w t m : forall a, ((a + m) * w <= length t)%nat ->
  take (m * w) (drop (a * w) t) = flat_map (fun o => slice w o t) (seq a m).
Proof.
  induction m as [|m IH]; intros a H; [by rewrite take_0|]. simpl seq. simpl flat_map. rewrite <- IH by lia.
  replace (S m * w)%nat with (w + m * w)%nat by lia. rewrite <- take_take_drop, drop_drop.
  by replace (a * w + w)%nat with (S a * w)%nat by lia.
Qed.

Lemma length_slices w t l : (forall o, o ∈ l -> ((o + 1) * w <= length t)%nat) ->
  length (flat_map (fun o => slice w o t) l) = (length l * w)%nat.
Proof.
  induction l as [|o l IH]; intros H; simpl; [done|].
  rewrite length_app, length_slice, IH; [done| |]; [intros; apply H|apply H]; set_solver.
Qed.

(** Row [j] of the rows [l] written one after the other. *)
Lemma slice_slices w t l j o : (forall o, o ∈ l -> ((o + 1) * w <= length t)%nat) -> l !! j = Some o ->
  slice w j (flat_map (fun o => slice w o t) l) = slice w o t.
Proof.
  revert j. induction l as [|o' l IH]; intros j H Hj; [done|]. simpl flat_map.
  assert (Hw : length (slice w o' t) = w) by (apply length_slice, H; set_solver).
  destruct j as [|j].
  - injection Hj as ->. apply slice_eq. intros i Hi. rewrite lookup_app_l by lia. by rewrite lookup_slice.
  - rewrite <- (IH j) by (done || (intros; apply H; set_solver)). apply slice_eq. intros i Hi.
    rewrite lookup_app_r by lia. rewrite Hw. f_equal. lia.
Qed.

Lemma write_tensor_ok w t a b n out : length t = (n * w)%nat -> (a <= b)%nat -> (b <= n)%nat ->
  Io.write_tensor out t (a * w) ((b - a) * w) = Ret (out ++ flat_map (fun o => slice w o t) (seq a (b - a))).
Proof.
  intros Hlen Hab Hb. rewrite <- take_slices by (rewrite Hlen; nia). unfold Io.write_tensor.
  destruct (Nat.eqb_spec ((b - a) * w) 0) as [->|Hne]; [by rewrite app_nil_r|].
  rewrite (proj2 (Nat.leb_le _ _)) by nia. done.
Qed.

Lemma tensor_set_ok t src off : (off + length src <= length t)%nat ->
  exists t', Io.tensor_set t src off = Ret t' /\ length t' = length t
    /\ forall p, t' !! p = if decide (off <= p < off + length src)%nat then src !! (p - off)%nat else t !! p.
Proof.
  intros H. unfold Io.tensor_set. destruct (Nat.eqb_spec (length src) 0) as [H0|H0].
  - exists t. split_and!; [done|done|]. intros p. by rewrite decide_False by lia.
  - rewrite (proj2 (Nat.leb_le _ _)) by lia. eexists. split; [reflexivity|]. split.
    + rewrite !length_app, length_take, length_drop. lia.
    + intros p. destruct (decide (p < off)%nat) as [Hp|Hp].
      * rewrite lookup_app_l by (rewrite length_take; lia). rewrite lookup_take_lt by lia.
        by rewrite decide_False by lia.
      * rewrite lookup_app_r by (rewrite length_take; lia). rewrite length_take, Nat.min_l by lia.
        destruct (decide (p < off + length src)%nat) as [Hq|Hq].
        -- rewrite decide_True by lia. by rewrite lookup_app_l by lia.
        -- rewrite decide_False by lia. rewrite lookup_app_r by lia. rewrite lookup_drop. f_equal. lia.
Qed.

(** The rows of [src] are written to the rows [base + idxs] of [t]. *)
Definition scattered (w base : nat) (idxs : list nat) (src t t' : list Z) : Prop :=
  length t' = length t
  /\ (forall j i, idxs !! j = Some i -> slice w (i + base) t' = slice w j src)
  /\ (forall o, (forall i, i ∈ idxs -> o <> (i + base)%nat) -> slice w o t' = slice w o t).

Lemma row_in w o q p : (p < w)%nat -> (o * w <= q * w + p < o * w + w)%nat -> q = o.
Proof. intros Hp H. nia. Qed.

Lemma write_rows_ok w base h m src t : length src = (m * w)%nat -> ((h + base + m) * w <= length t)%nat ->
  exists t', Io.tensor_set t src ((h + base) * w) = Ret t' /\ scattered w base (seq h m) src t t'.
Proof.
  intros Hsrc Ht. destruct (tensor_set_ok t src ((h + base) * w)) as (t' & E & Hlen & Hp); [nia|].
  exists t'. split; [done|]. split_and!; [done| |].
  - intros j i [-> Hj]%lookup_seq. apply slice_eq. intros p Hw. rewrite Hp, decide_True by nia. f_equal. nia.
  - intros o Ho. apply slice_eq. intros p Hw. rewrite Hp. case_decide as Hd; [|done]. exfalso.
    apply (Ho (o - base)%nat); [apply elem_of_seq|]; nia.
Qed.

Lemma scatter_ok w base src idxs t m : (forall i, i ∈ idxs -> ((i + base + 1) * w <= length t)%nat) ->
  NoDup idxs -> length idxs = m -> length src = (m * w)%nat ->
  exists t', foldM (fun t j => i ← at_ idxs j;
      Io.tensor_set t (take w (drop (j * w) src)) ((i + base) * w)) t (seq 0 m) = Ret t'
    /\ scattered w base idxs src t t'.
Proof.
  intros Hi Hnd Hm Hsrc.
  assert (H : forall n, (n <= m)%nat -> exists t', foldM (fun t j => i ← at_ idxs j;
      Io.tensor_set t (take w (drop (j * w) src)) ((i + base) * w)) t (seq 0 n) = Ret t'
    /\ scattered w base (take n idxs) src t t').
  { induction n as [|n IH]; intros Hn.
    - exists t. split; [done|]. by split_and!.
    - destruct (IH ltac:(lia)) as (t1 & E1 & H1 & H2 & H3). rewrite seq_S, foldM_app, E1.
      cbn [mbind outcome_bind keeping within map_throw foldM Nat.add].
      destruct (lookup_lt_is_Some_2 idxs n ltac:(lia)) as [i Hin]. rewrite (proj2 (at_Ret _ _ _) Hin).
      cbn [mbind outcome_bind keeping within map_throw]. change (take w (drop (n * w) src)) with (slice w n src).
      assert (Hb : length (slice w n src) = w) by (apply length_slice; nia).
      destruct (tensor_set_ok t1 (slice w n src) ((i + base) * w)) as (t2 & -> & Hlen & Hp).
      { rewrite Hb, H1. specialize (Hi i ltac:(by eapply list_elem_of_lookup_2)). lia. }
      cbn [mbind outcome_bind keeping within map_throw]. exists t2. split; [done|]. rewrite Hb in Hp.
      assert (Hrow : slice w (i + base) t2 = slice w n src).
      { apply list_eq. intros p. destruct (decide (p < w)%nat) as [Hpw|Hpw].
        - rewrite lookup_slice by done. rewrite Hp, decide_True by lia. f_equal. lia.
        - unfold slice. by rewrite !lookup_take_ge by lia. }
      assert (Hother : forall o, o <> (i + base)%nat -> slice w o t2 = slice w o t1).
      { intros o Ho. apply slice_eq. intros p Hw. rewrite Hp. case_decide as Hd; [|done]. exfalso.
        apply Ho. by eapply row_in. }
      split_and!; [by rewrite Hlen| |].
      + intros j k Hj. assert (Hjn : (j < S n)%nat) by (apply lookup_lt_Some in Hj; rewrite length_take in Hj; lia).
        rewrite lookup_take_lt in Hj by done. destruct (decide (j = n)) as [->|Hne].
        * assert (k = i) as -> by congruence. done.
        * rewrite Hother; [apply H2; rewrite lookup_take_lt by lia; done|]. intros He.
          assert (k = i) as -> by lia. apply Hne. by eapply NoDup_lookup.
      + intros o Ho. rewrite (take_S_r _ _ _ Hin) in Ho. rewrite Hother by (apply Ho; set_solver).
        apply H3. intros k Hk. apply Ho. set_solver. }
  destruct (H m (le_n _)) as (t' & E & Hs). exists t'. split; [done|]. by rewrite <- Hm, firstn_all in Hs.
Qed.

Lemma row_index_small i base : Z.of_nat i + Z.of_nat base < 2 ^ 32 -> State.row_index i base = (i + base)%nat.
Proof. intros H. unfold State.row_index. rewrite !u32_small by (rewrite ?u32_small; lia). lia. Qed.

Lemma read_rows_ok si m base w t src rest idxs : si_idxs si = [idxs] -> length idxs = m -> (0 < m)%nat ->
  NoDup idxs -> length src = (m * w)%nat ->
  (forall i, i ∈ idxs -> ((i + base + 1) * w <= length t)%nat /\ Z.of_nat i + Z.of_nat base < 2 ^ 32) ->
  exists t', State.read_rows si m base w t (src ++ rest) = Ret (t', rest) /\ scattered w base idxs src t t'.
Proof.
  intros Hsi Hlen Hm Hnd Hsrc Hin. unfold State.read_rows. rewrite <- Hsrc, read_app. cbn [mbind outcome_bind keeping within map_throw].
  destruct idxs as [|h l]; [simpl in Hlen; lia|].
  unfold is_contiguous, slot_head. rewrite Hsi. case_bool_decide as Hc.
  - cbn [mbind outcome_bind keeping within map_throw]. assert (Hlast : (h + length l)%nat ∈ h :: l) by (rewrite Hc; apply elem_of_seq; lia).
    rewrite row_index_small by (apply Hin; set_solver). simpl in Hlen.
    destruct (write_rows_ok w base h m src t Hsrc) as (t' & -> & Hs).
    { destruct (Hin _ Hlast) as [H _]. replace (h + base + m)%nat with (h + length l + base + 1)%nat by lia. done. }
    cbn [mbind outcome_bind keeping within map_throw]. exists t'. split; [done|]. by rewrite Hc, Hlen.
  - destruct (scatter_ok w base src (h :: l) t m) as (t' & E & Hs); [by intros i Hi; apply Hin|done..|].
    exists t'. split; [|done].
    rewrite (foldM_ext _ (fun t j => i ← at_ (h :: l) j;
      Io.tensor_set t (take w (drop (j * w) src)) ((i + base) * w)) _ (seq 0 m)), E; [done|].
    intros t1 j _. cbn [at_ lookup list_lookup mbind outcome_bind keeping within map_throw].
    destruct (at_ (h :: l) j) as [i| | | |] eqn:Hj; [|done..]. cbn [mbind outcome_bind keeping within map_throw].
    apply at_Ret, list_elem_of_lookup_2 in Hj. by rewrite row_index_small by (by apply Hin).
Qed.

(** ** Ranges *)

Lemma range_cells_snoc data r :
  State.range_cells (data ++ [r]) = State.range_cells data ++ seq r.1 (r.2 - r.1).
Proof. unfold State.range_cells. rewrite flat_map_app. simpl. by rewrite app_nil_r. Qed.

Lemma filter_snoc {A} (f : A -> bool) l x :
  List.filter f (l ++ [x]) = List.filter f l ++ (if f x then [x] else []).
Proof. rewrite List.filter_app. simpl. by destruct (f x). Qed.

Lemma range_count data : foldr (fun r n => (r.2 - r.1 + n)%nat) 0%nat data = length (State.range_cells data).
Proof. induction data as [|r data IH]; simpl; [done|]. by rewrite length_app, length_seq, IH. Qed.

(** The cells that [f] selects, for a loop that knows them. *)
Section Collect.
Context (size : nat) (f : nat -> bool) (step : nat * nat * list (nat * nat) -> nat -> outcome (nat * nat * list (nat * nat))).
Hypothesis (Hstep : forall acc i, (i < size)%nat -> step acc i = Ret (State.extend_ranges size (f i) acc i)).

(** The finished ranges and the open one, after cell [n]. *)
Definition ranges_to (n : nat) (acc : nat * nat * list (nat * nat)) : Prop :=
  let '(count, begin, data) := acc in
  count = length (List.filter f (seq 0 n))
  /\ State.range_cells data ++ (if (begin =? size)%nat then [] else seq begin (n - begin)) = List.filter f (seq 0 n)
  /\ (begin = size \/ (begin < n)%nat)
  /\ Forall (fun r => (r.1 <= r.2)%nat /\ (r.2 <= size)%nat) data.

Lemma ranges_step n acc : (n < size)%nat -> ranges_to n acc -> ranges_to (S n) (State.extend_ranges size (f n) acc n).
Proof using.
  clear Hstep. intros Hn. destruct acc as [[count begin] data]. intros (-> & Hcells & Hb & Hall). unfold State.extend_ranges.
  unfold ranges_to. rewrite seq_S, filter_snoc. cbn [Nat.add]. destruct (f n).
  - rewrite length_app. cbn [length]. split; [lia|]. rewrite <- Hcells.
    destruct (Nat.eqb_spec begin size) as [->|Hne].
    + rewrite (proj2 (Nat.eqb_neq n _)) by lia. replace (S n - n)%nat with 1%nat by lia.
      rewrite app_nil_r. split_and!; [done|right; lia|done].
    + rewrite (proj2 (Nat.eqb_neq begin _)) by done. destruct Hb as [|Hb]; [done|].
      replace (S n - begin)%nat with (S (n - begin)) by lia. rewrite seq_S, app_assoc.
      replace (begin + (n - begin))%nat with n by lia. split_and!; [done|right; lia|done].
  - destruct (Nat.eqb_spec begin size) as [->|Hne];
      rewrite ?Nat.eqb_refl, ?app_nil_r, ?range_cells_snoc in *; cbn [fst snd].
    + rewrite ?Nat.eqb_refl, ?app_nil_r. split_and!; [done|done|by left|done].
    + rewrite ?Nat.eqb_refl, ?app_nil_r. split_and!; [done|done|by left|]. destruct Hb as [|Hb]; [done|].
      apply Forall_app. split; [done|]. repeat constructor; simpl; lia.
Qed.

Lemma collect_ok : exists ranges, (acc ← foldM step (0%nat, size, []) (seq 0 size); State.finish_ranges size acc)
    = Ret (length (List.filter f (seq 0 size)), ranges)
  /\ State.range_cells ranges = List.filter f (seq 0 size)
  /\ Forall (fun r => (r.1 <= r.2)%nat /\ (r.2 <= size)%nat) ranges.
Proof using Hstep.
  destruct (foldM_interval step ranges_to (0%nat, size, []) size) as ([[count begin] data] & -> & Ecount & Hcells & Hb & Hall).
  - simpl. rewrite Nat.eqb_refl. split_and!; [done|done|by left|constructor].
  - intros i acc Hi Ha. rewrite Hstep by lia. eexists. split; [done|]. apply ranges_step; [lia|done].
  - cbn [mbind outcome_bind keeping within map_throw]. unfold State.finish_ranges. rewrite range_count.
    set (R := if (begin =? size)%nat then data else data ++ [(begin, size)]).
    assert (HR : State.range_cells R = List.filter f (seq 0 size) /\ Forall (fun r => (r.1 <= r.2)%nat /\ (r.2 <= size)%nat) R).
    { unfold R. rewrite <- Hcells. destruct (Nat.eqb_spec begin size) as [->|Hne].
      - by rewrite app_nil_r.
      - rewrite range_cells_snoc. split; [done|]. apply Forall_app. split; [done|].
        destruct Hb; [done|]. repeat constructor; simpl; lia. }
    destruct HR as [HR1 HR2]. rewrite HR1, Ecount, Nat.eqb_refl. cbn [c_assert mbind outcome_bind]. by exists R.
Qed.

End Collect.

Section Ranges.
Context (c : llama_kv_cells) (s : Z).
Hypotheses (Hok : cells_ok c) (Hs : s = -1 \/ 0 <= s < MAX_SEQ).

Definition selected (i : nat) : bool :=
  match kc_cells c !! i with
  | Some x => negb (cell_pos x =? -1) && ((s =? -1) || bool_decide (s ∈ cell_seq x))
  | None => false
  end.

Lemma in_state_ok i : (i < Cells.size c)%nat -> State.in_state c s i = Ret (selected i).
Proof.
  intros Hi. destruct (lookup_lt_is_Some_2 (kc_cells c) i Hi) as [x Hx]. unfold State.in_state, selected.
  rewrite (is_empty_ok c Hok i x Hx), Hx. cbn [mbind outcome_bind keeping within map_throw].
  destruct (cell_pos x =? -1) eqn:Hp; [done|]. cbn [negb andb].
  destruct (Z.eqb_spec s (-1)) as [|Hne]; [done|]. rewrite (seq_has_ok c Hok i x s Hx) by lia. done.
Qed.

Definition saved_cells : list nat := List.filter selected (seq 0 (Cells.size c)).

Lemma cell_ranges_ok : exists ranges, State.cell_ranges c s = Ret (length saved_cells, ranges)
  /\ State.range_cells ranges = saved_cells
  /\ Forall (fun r => (r.1 <= r.2)%nat /\ (r.2 <= Cells.size c)%nat) ranges.
Proof.
  apply (collect_ok (Cells.size c) selected (State.range_step c s)). intros acc i Hi.
  unfold State.range_step. by rewrite in_state_ok.
Qed.

Lemma elem_of_saved i : i ∈ saved_cells <-> exists x, kc_cells c !! i = Some x /\ cell_pos x <> -1
  /\ (s = -1 \/ s ∈ cell_seq x).
Proof using.
  clear. unfold saved_cells. rewrite list_elem_of_In, List.filter_In, List.in_seq. unfold selected. split.
  - intros [_ H]. destruct (kc_cells c !! i) as [x|]; [|done]. exists x. split; [done|]. bool_hyps.
    apply orb_true_iff in H0 as [H0%Z.eqb_eq|H0%bool_decide_eq_true]; split; try tauto; by apply Z.eqb_neq.
  - intros (x & Hx & Hp & Hin). rewrite Hx. split; [apply lookup_lt_Some in Hx; unfold Cells.size; lia|].
    rewrite (neq_m1 _ Hp). simpl. apply orb_true_iff. rewrite Z.eqb_eq, bool_decide_eq_true. tauto.
Qed.

Lemma saved_lt i : i ∈ saved_cells -> (i < Cells.size c)%nat.
Proof. intros (x & Hx & _)%elem_of_saved. by eapply lookup_lt_Some. Qed.

Lemma NoDup_saved : NoDup saved_cells.
Proof. unfold saved_cells. apply NoDup_ListNoDup, List.NoDup_filter, List.seq_NoDup. Qed.

End Ranges.
