(* ===== verification/KvTensors.v ===== *)
(** * Saving and restoring the tensors of the layers. *)

From S2P Require Import Prelude KvCells KvCellsFacts Batch KvCache KvCacheFacts KvState KvStateFacts KvCopy KvSlot KvPlace.
From S2P Require Import KvPrepare.
From Stdlib Require Import Lia.

(** ** Layers *)

(** The key of cell [i]; the values of cell [i]: a row, or one element for every
    row of a transposed tensor of [n] columns. *)
Definition k_row (l : kv_layer) (s i : nat) : option (list Z) :=
  t ← ly_k l !! s; Some (slice (ly_k_row l) i t).

Definition v_row (v_trans : bool) (n : nat) (l : kv_layer) (s i : nat) : option (list (list Z)) :=
  v ← ly_v l !! s; t ← v;
  Some (if v_trans then map (fun j => slice (ly_v_el l) (i + j * n) t) (seq 0 (ly_n_embd_v l))
        else [slice (ly_v_row l) i t]).

(** A layer of a cache of [n] cells, with sizes that the saved state can hold. *)
Record layer_ok (v_trans : bool) (n : nat) (l : kv_layer) : Prop := {
  lo_k : forall s t, ly_k l !! s = Some t -> length t = (n * ly_k_row l)%nat;
  lo_v : forall s t, ly_v l !! s = Some (Some t) ->
    length t = (n * (if v_trans then ly_n_embd_v l * ly_v_el l else ly_v_row l))%nat;
  lo_k_type : - 2 ^ 31 <= ly_k_type l < 2 ^ 31;
  lo_v_type : - 2 ^ 31 <= ly_v_type l < 2 ^ 31;
  lo_k_row : Z.of_nat (ly_k_row l) < 2 ^ 64;
  lo_v_row : Z.of_nat (ly_v_row l) < 2 ^ 64;
  lo_v_el : Z.of_nat (ly_v_el l) < 2 ^ 32;
  lo_n_embd : Z.of_nat (ly_n_embd_v l) < 2 ^ 32;
  lo_tensor : v_trans = true -> (0 < ly_v_el l)%nat /\ Z.of_nat (n * ly_n_embd_v l * ly_v_el l) < 2 ^ 32;
  lo_cells : Z.of_nat n < 2 ^ 32;
}.

(** The types and sizes agree, and so does the presence of V. *)
Definition same_config (s : nat) (l : kv_layer) (strm : nat) (l' : kv_layer) : Prop :=
  ly_k_type l' = ly_k_type l /\ ly_k_row l' = ly_k_row l /\ ly_v_type l' = ly_v_type l
  /\ ly_v_row l' = ly_v_row l /\ ly_v_el l' = ly_v_el l /\ ly_n_embd_v l' = ly_n_embd_v l
  /\ is_Some (ly_k l !! s) /\ is_Some (ly_k l' !! strm)
  /\ exists v v', ly_v l !! s = Some v /\ ly_v l' !! strm = Some v' /\ (v = None <-> v' = None).

Lemma flat_map_flat_map {A B C} (f : B -> list C) (g : A -> list B) (l : list A) :
  flat_map f (flat_map g l) = flat_map (fun x => flat_map f (g x)) l.
Proof. induction l as [|x l IH]; simpl; [done|]. by rewrite flat_map_app, IH. Qed.

Lemma flat_map_shift {B} (f : nat -> list B) k a m : flat_map f (seq (a + k) m) = flat_map (fun i => f (i + k)%nat) (seq a m).
Proof. revert a. induction m as [|m IH]; intros a; simpl; [done|]. f_equal. apply (IH (S a)). Qed.

Section Data.
Context (v_trans : bool) (s n : nat) (used : list nat).

(** ** The text of the rows *)


Definition rows_bytes (w base : nat) (t : list Z) : list Z := flat_map (fun i => slice w (i + base) t) used.

Definition k_bytes (l : kv_layer) : list Z :=
  Io.le_bytes 4 (ly_k_type l) ++ Io.le_bytes 8 (Z.of_nat (ly_k_row l))
  ++ rows_bytes (ly_k_row l) 0 (default [] (ly_k l !! s)).

Definition v_bytes (l : kv_layer) : list Z :=
  match ly_v l !! s with
  | Some (Some t) =>
      if v_trans then
        Io.le_bytes 4 (ly_v_type l) ++ Io.le_bytes 4 (Z.of_nat (ly_v_el l))
        ++ Io.le_bytes 4 (Z.of_nat (ly_n_embd_v l))
        ++ flat_map (fun j => rows_bytes (ly_v_el l) (j * n) t) (seq 0 (ly_n_embd_v l))
      else
        Io.le_bytes 4 (ly_v_type l) ++ Io.le_bytes 8 (Z.of_nat (ly_v_row l)) ++ rows_bytes (ly_v_row l) 0 t
  | _ => []
  end.

Definition data_bytes (ls : list kv_layer) : list Z :=
  Io.le_bytes 4 (if v_trans then 1 else 0) ++ Io.le_bytes 4 (Z.of_nat (length ls))
  ++ flat_map k_bytes ls ++ flat_map v_bytes ls.

(** ** Writing *)

Section Write.
Context (ranges : list (nat * nat)).
Hypotheses (Hranges : Forall (fun r => (r.1 <= r.2)%nat /\ (r.2 <= n)%nat) ranges)
  (Hused : State.range_cells ranges = used).

(** The ranges of one row of a tensor of [total] columns in all. *)
Lemma write_ranges_ok w base total t out (off : nat -> nat) : length t = (total * w)%nat -> (n + base <= total)%nat ->
  (forall a, (a <= n)%nat -> off a = ((a + base) * w)%nat) ->
  foldM (fun out r => Io.write_tensor out t (off r.1) ((r.2 - r.1) * w)) out ranges
    = Ret (out ++ rows_bytes w base t).
Proof.
  intros Ht Htot Hoff. unfold rows_bytes. rewrite <- Hused. unfold State.range_cells. rewrite flat_map_flat_map.
  apply (foldM_append _ (fun r => flat_map (fun i => slice w (i + base) t) (seq r.1 (r.2 - r.1)))).
  intros [a b] out' Hr. rewrite Forall_forall in Hranges. destruct (Hranges _ Hr) as [Hab Hb]. cbn [fst snd] in *.
  rewrite Hoff by lia. pose proof (write_tensor_ok w t (a + base) (b + base) total out' Ht) as H.
  replace (b + base - (a + base))%nat with (b - a)%nat in H by lia. rewrite H by lia. by rewrite flat_map_shift.
Qed.

Lemma write_k_ok l out : layer_ok v_trans n l -> is_Some (ly_k l !! s) ->
  State.write_k s ranges out l = Ret (out ++ k_bytes l).
Proof.
  intros Hl [t Ht]. unfold State.write_k, k_bytes, Io.write. rewrite Ht, (proj2 (at_Ret _ _ _) Ht).
  cbn [mbind outcome_bind keeping within map_throw default].
  rewrite (write_ranges_ok (ly_k_row l) 0 n t _ (fun a => (a * ly_k_row l)%nat)).
  - by rewrite <- !app_assoc.
  - by eapply lo_k.
  - lia.
  - intros a _. lia.
Qed.

Lemma write_v_rows_ok l out : layer_ok v_trans n l -> is_Some (ly_v l !! s) -> v_trans = false ->
  State.write_v_rows s ranges out l = Ret (out ++ v_bytes l).
Proof.
  intros Hl [v Hv] Ht. unfold State.write_v_rows, v_bytes, Io.write. rewrite Hv, (proj2 (at_Ret _ _ _) Hv).
  cbn [mbind outcome_bind keeping within map_throw]. destruct v as [t|]; [|by rewrite app_nil_r].
  pose proof (lo_v _ _ _ Hl s t Hv) as Hlt. rewrite Ht in Hlt |- *.
  rewrite (write_ranges_ok (ly_v_row l) 0 n t _ (fun a => (a * ly_v_row l)%nat)).
  - by rewrite <- !app_assoc.
  - done.
  - lia.
  - intros a _. lia.
Qed.

Lemma v_src_offset_ok a j el n_embd : (a <= n)%nat -> (j < n_embd)%nat -> (0 < el)%nat ->
  Z.of_nat (n * n_embd * el) < 2 ^ 32 ->
  Z.to_nat (State.v_src_offset (Z.of_nat a) (Z.of_nat j) (Z.of_nat n) (Z.of_nat el)) = ((a + j * n) * el)%nat.
Proof.
  intros Ha Hj Hel Hb. assert (H1 : (a + j * n <= n * n_embd)%nat) by nia.
  assert (H2 : (n * n_embd <= n * n_embd * el)%nat) by nia.
  assert (H3 : ((a + j * n) * el <= n * n_embd * el)%nat) by (by apply Nat.mul_le_mono_r).
  unfold State.v_src_offset. rewrite <- Nat2Z.inj_mul. rewrite (u32_small (Z.of_nat (j * n))) by lia.
  rewrite <- Nat2Z.inj_add, (u32_small (Z.of_nat (a + _))) by lia. rewrite <- Nat2Z.inj_mul, u32_small by lia. lia.
Qed.

Lemma write_v_trans_ok l out : layer_ok v_trans n l -> is_Some (ly_v l !! s) -> v_trans = true ->
  State.write_v_trans s n ranges out l = Ret (out ++ v_bytes l).
Proof.
  intros Hl [v Hv] Ht. unfold State.write_v_trans, v_bytes, Io.write. rewrite Hv, (proj2 (at_Ret _ _ _) Hv).
  cbn [mbind outcome_bind keeping within map_throw]. destruct v as [t|]; [|by rewrite app_nil_r].
  pose proof (lo_v _ _ _ Hl s t Hv) as Hlt. destruct (lo_tensor _ _ _ Hl Ht) as [Hel Hsz].
  rewrite Ht in Hlt |- *.
  rewrite (foldM_append _ (fun j => rows_bytes (ly_v_el l) (j * n) t)).
  - by rewrite <- !app_assoc.
  - intros j out' Hj%elem_of_seq.
    rewrite (foldM_ext _ (fun out r => Io.write_tensor out t ((fun a => ((a + j * n) * ly_v_el l)%nat) r.1)
      ((r.2 - r.1) * ly_v_el l))).
    + apply (write_ranges_ok (ly_v_el l) (j * n) (n * ly_n_embd_v l) t out' (fun a => ((a + j * n) * ly_v_el l)%nat)).
      * rewrite Hlt. lia.
      * nia.
      * done.
    + intros out'' [a b] Hr. rewrite Forall_forall in Hranges. destruct (Hranges _ Hr) as [Hab Hb]. cbn [fst snd] in *.
      rewrite (v_src_offset_ok a j (ly_v_el l) (ly_n_embd_v l)); [done|lia|lia|done|done].
Qed.

Lemma state_write_data_ok st out : st_v_trans st = v_trans ->
  Forall (fun l => layer_ok v_trans n l /\ is_Some (ly_k l !! s) /\ is_Some (ly_v l !! s)) (st_layers st) ->
  State.state_write_data st s n ranges out = Ret (out ++ data_bytes (st_layers st)).
Proof.
  intros Ht Hls. rewrite Forall_forall in Hls. unfold State.state_write_data, data_bytes, Io.write. rewrite Ht.
  rewrite (foldM_append _ k_bytes) by (intros l o Hl; destruct (Hls l Hl) as (? & ? & ?); by apply write_k_ok).
  cbn [mbind outcome_bind keeping within map_throw]. rewrite <- !app_assoc. destruct v_trans eqn:Hv; cbn [negb].
  - rewrite (foldM_append _ v_bytes); [by rewrite <- !app_assoc|].
    intros l o Hl. destruct (Hls l Hl) as (? & ? & ?). apply write_v_trans_ok; [by rewrite Hv|done..].
  - rewrite (foldM_append _ v_bytes); [by rewrite <- !app_assoc|].
    intros l o Hl. destruct (Hls l Hl) as (? & ? & ?). apply write_v_rows_ok; [by rewrite Hv|done..].
Qed.

End Write.

(** ** Reading *)

Section Read.
Context (strm n' : nat) (idxs : list nat) (si : slot_info).
Hypotheses (Hbound : forall i, i ∈ used -> (i < n)%nat)
  (Hsi : si_idxs si = [idxs]) (Hlen : length idxs = length used) (Hsome : (0 < length used)%nat)
  (Hnd : NoDup idxs) (Hin : forall o, o ∈ idxs -> (o < n')%nat).

Lemma length_rows w base total t : length t = (total * w)%nat -> (n + base <= total)%nat ->
  length (rows_bytes w base t) = (length used * w)%nat.
Proof.
  intros Ht Htot. unfold rows_bytes.
  assert (Hm : flat_map (fun i => slice w (i + base) t) used
    = flat_map (fun o => slice w o t) (map (fun i => (i + base)%nat) used)).
  { rewrite !flat_map_concat_map, map_map. done. }
  rewrite Hm, length_slices; [by rewrite length_map|].
  intros o (i & -> & Hi)%list_elem_of_fmap. specialize (Hbound i Hi). nia.
Qed.

Lemma slice_rows w base total t j i : length t = (total * w)%nat -> (n + base <= total)%nat ->
  used !! j = Some i -> slice w j (rows_bytes w base t) = slice w (i + base) t.
Proof.
  intros Ht Htot Hj. unfold rows_bytes.
  assert (Hm : flat_map (fun i => slice w (i + base) t) used
    = flat_map (fun o => slice w o t) (map (fun i => (i + base)%nat) used)).
  { rewrite !flat_map_concat_map, map_map. done. }
  rewrite Hm. apply slice_slices; [|by rewrite list_lookup_fmap, Hj].
  intros o (i' & -> & Hi)%list_elem_of_fmap. specialize (Hbound i' Hi). nia.
Qed.

Lemma read_block_ok w base total t base' total' t' rest : length t = (total * w)%nat -> (n + base <= total)%nat ->
  length t' = (total' * w)%nat -> (n' + base' <= total')%nat -> Z.of_nat n' + Z.of_nat base' < 2 ^ 32 ->
  exists t'', State.read_rows si (length used) base' w t' (rows_bytes w base t ++ rest) = Ret (t'', rest)
    /\ length t'' = length t'
    /\ (forall j i o, used !! j = Some i -> idxs !! j = Some o -> slice w (o + base') t'' = slice w (i + base) t)
    /\ (forall o, (forall q, q ∈ idxs -> o <> (q + base')%nat) -> slice w o t'' = slice w o t').
Proof.
  intros Ht Htot Ht' Htot' H32.
  destruct (read_rows_ok si (length used) base' w t' (rows_bytes w base t) rest idxs Hsi Hlen Hsome Hnd)
    as (t'' & E & Hl & Hrow & Hother); [by eapply length_rows| |].
  { intros o Ho. specialize (Hin o Ho). split; [nia|lia]. }
  exists t''. split_and!; [done|done| |done]. intros j i o Hi Ho.
  rewrite (Hrow j o Ho). by eapply slice_rows.
Qed.

Lemma read_trans_ok w m total t t' rest : length t = (n * (total * w))%nat -> length t' = (n' * (total * w))%nat ->
  (m <= total)%nat -> Z.of_nat (n' * total) < 2 ^ 32 ->
  exists t'', foldM (fun '(t, inp) j => State.read_rows si (length used) (j * n') w t inp)
      (t', flat_map (fun j => rows_bytes w (j * n) t) (seq 0 m) ++ rest) (seq 0 m) = Ret (t'', rest)
    /\ length t'' = length t'
    /\ (forall j q i o, (j < m)%nat -> used !! q = Some i -> idxs !! q = Some o ->
          slice w (o + j * n') t'' = slice w (i + j * n) t)
    /\ (forall j o, (o < n')%nat -> (m <= j)%nat \/ o ∉ idxs -> slice w (o + j * n') t'' = slice w (o + j * n') t').
Proof.
  intros Ht Ht' Hm H32. revert rest. induction m as [|m IH]; intros rest.
  - exists t'. split_and!; [done|done|lia|done].
  - rewrite seq_S, flat_map_app, foldM_app. cbn [Nat.add flat_map]. rewrite app_nil_r, <- app_assoc.
    destruct (IH ltac:(lia) (rows_bytes w (m * n) t ++ rest)) as (t1 & -> & H1 & H2 & H3).
    cbn [mbind outcome_bind keeping within map_throw foldM].
    destruct (read_block_ok w (m * n) (n * total) t (m * n') (n' * total) t1 rest) as (t2 & -> & G1 & G2 & G3);
      [rewrite Ht; lia|nia|rewrite H1, Ht'; lia|nia|nia|].
    cbn [mbind outcome_bind keeping within map_throw]. exists t2. split_and!; [done|by rewrite G1| |].
    + intros j q i o Hj Hi Ho. destruct (decide (j = m)) as [->|Hne]; [by eapply G2|].
      assert (Hon : (o < n')%nat) by (by apply Hin; eapply list_elem_of_lookup_2).
      rewrite G3; [apply (H2 j q); [lia|done|done]|]. intros o' Ho' Heq. specialize (Hin o' Ho'). nia.
    + intros j o Ho Hj. rewrite G3; [apply H3; [done|]; destruct Hj; [left; lia|by right]|].
      intros o' Ho' Heq. pose proof (Hin o' Ho'). destruct Hj as [Hj|Hno]; [nia|].
      assert (j = m) as -> by nia. assert (o = o') as -> by lia. done.
Qed.

(** What a layer of the destination becomes: the rows of the saved cells in the
    slot's cells, everything else as before. *)
Definition k_restored (l l' l'' : kv_layer) : Prop :=
  exists t'', l'' = set_k_stream l' strm t''
    /\ (forall t', ly_k l' !! strm = Some t' -> length t'' = length t')
    /\ (forall j i o, used !! j = Some i -> idxs !! j = Some o -> k_row l'' strm o = k_row l s i)
    /\ (forall o, o ∉ idxs -> k_row l'' strm o = k_row l' strm o).

Definition v_restored (l l' l'' : kv_layer) : Prop :=
  (l'' = l' \/ exists t' t'', ly_v l' !! strm = Some (Some t') /\ l'' = set_v_stream l' strm t''
    /\ length t'' = length t')
  /\ (forall j i o, used !! j = Some i -> idxs !! j = Some o -> v_row v_trans n' l'' strm o = v_row v_trans n l s i)
  /\ (forall o, (o < n')%nat -> o ∉ idxs -> v_row v_trans n' l'' strm o = v_row v_trans n' l' strm o).

Lemma k_row_set l t o : is_Some (ly_k l !! strm) ->
  k_row (set_k_stream l strm t) strm o = Some (slice (ly_k_row l) o t).
Proof.
  intros [t0 H]. unfold k_row, set_k_stream. simpl. rewrite list_lookup_insert_eq; [done|].
  by eapply lookup_lt_Some.
Qed.

Lemma read_k_ok l l' rest : layer_ok v_trans n l -> layer_ok v_trans n' l' -> same_config s l strm l' ->
  exists l'', State.read_k strm (length used) si l' (k_bytes l ++ rest) = Ret (Some l'', rest) /\ k_restored l l' l''.
Proof.
  intros Hl Hl' (Hkt & Hkr & _ & _ & _ & _ & [t Ht] & [t' Ht'] & _). unfold State.read_k, k_bytes.
  rewrite Ht, (proj2 (at_Ret _ _ _) Ht'). cbn [mbind outcome_bind keeping within map_throw default id]. rewrite <- !app_assoc.
  rewrite read_i32_ok by apply Hl. cbn [mbind outcome_bind keeping within map_throw]. rewrite Hkt, Z.eqb_refl. cbn [negb].
  rewrite read_u64_ok by (pose proof (lo_k_row _ _ _ Hl); lia). cbn [mbind outcome_bind keeping within map_throw].
  rewrite Hkr, Z.eqb_refl. cbn [negb]. rewrite (proj2 (Nat.eqb_neq (length used) 0)) by lia.
  pose proof (lo_k _ _ _ Hl _ _ Ht) as Hlt. pose proof (lo_k _ _ _ Hl' _ _ Ht') as Hlt'. rewrite Hkr in Hlt'.
  destruct (read_block_ok (ly_k_row l) 0 n t 0 n' t' rest Hlt ltac:(lia) Hlt' ltac:(lia))
    as (t'' & -> & H1 & H2 & H3); [pose proof (lo_cells _ _ _ Hl'); lia|].
  cbn [mbind outcome_bind keeping within map_throw]. eexists. split; [reflexivity|]. exists t''. split_and!; [done| | |].
  - intros t1 Ht1. by assert (t1 = t') as -> by congruence.
  - intros j i o Hi Ho. rewrite k_row_set by done. unfold k_row. rewrite Ht. cbn [mbind option_bind].
    specialize (H2 j i o Hi Ho). rewrite !Nat.add_0_r in H2. by rewrite Hkr, H2.
  - intros o Ho. rewrite k_row_set by done. unfold k_row. rewrite Ht'. cbn [mbind option_bind].
    rewrite Hkr, H3; [done|]. intros q Hq ->. by rewrite Nat.add_0_r in Ho.
Qed.

Lemma v_row_set l t o : is_Some (ly_v l !! strm) -> v_row v_trans n' (set_v_stream l strm t) strm o
  = Some (if v_trans then map (fun j => slice (ly_v_el l) (o + j * n') t) (seq 0 (ly_n_embd_v l))
          else [slice (ly_v_row l) o t]).
Proof.
  intros [t0 H]. unfold v_row, set_v_stream. simpl. rewrite list_lookup_insert_eq; [done|].
  by eapply lookup_lt_Some.
Qed.

Lemma v_row_None trans m l s' o : ly_v l !! s' = Some None -> v_row trans m l s' o = None.
Proof. intros H. unfold v_row. by rewrite H. Qed.

Lemma read_v_rows_ok l l' rest : layer_ok v_trans n l -> layer_ok v_trans n' l' -> same_config s l strm l' ->
  v_trans = false ->
  exists l'', State.read_v_rows strm (length used) si l' (v_bytes l ++ rest) = Ret (Some l'', rest)
    /\ v_restored l l' l''.
Proof.
  intros Hl Hl' (_ & _ & Hvt & Hvr & _ & _ & _ & _ & v & v' & Hv & Hv' & Hnone) Hf.
  unfold State.read_v_rows, v_bytes. rewrite Hv, (proj2 (at_Ret _ _ _) Hv'). cbn [mbind outcome_bind keeping within map_throw].
  destruct v as [t|], v' as [t'|]; [|by destruct Hnone as [_ H]; specialize (H eq_refl)
                                    |by destruct Hnone as [H _]; specialize (H eq_refl)|].
  2:{ exists l'. split; [done|]. split; [by left|]. split; intros; by rewrite !v_row_None. }
  pose proof (lo_v _ _ _ Hl _ _ Hv) as Hlt. pose proof (lo_v _ _ _ Hl' _ _ Hv') as Hlt'.
  rewrite Hf in Hlt, Hlt' |- *. rewrite <- !app_assoc. rewrite read_i32_ok by apply Hl. cbn [mbind outcome_bind keeping within map_throw].
  rewrite Hvt, Z.eqb_refl. cbn [negb].
  rewrite read_u64_ok by (pose proof (lo_v_row _ _ _ Hl); lia). cbn [mbind outcome_bind keeping within map_throw].
  rewrite Hvr, Z.eqb_refl in *. cbn [negb]. rewrite (proj2 (Nat.eqb_neq (length used) 0)) by lia.
  destruct (read_block_ok (ly_v_row l) 0 n t 0 n' t' rest Hlt ltac:(lia) Hlt' ltac:(lia))
    as (t'' & -> & H1 & H2 & H3); [pose proof (lo_cells _ _ _ Hl'); lia|].
  cbn [mbind outcome_bind keeping within map_throw]. eexists. split; [reflexivity|].
  assert (Hset : forall o, v_row v_trans n' (set_v_stream l' strm t'') strm o = Some [slice (ly_v_row l) o t'']).
  { intros o. rewrite v_row_set by done. by rewrite Hf, Hvr. }
  split; [|split].
  - right. by exists t', t''.
  - intros j i o Hi Ho. rewrite Hset. unfold v_row. rewrite Hv, Hf. cbn [mbind option_bind].
    specialize (H2 j i o Hi Ho). rewrite !Nat.add_0_r in H2. by rewrite H2.
  - intros o _ Ho. rewrite Hset. unfold v_row. rewrite Hv', Hf, Hvr. cbn [mbind option_bind].
    rewrite H3; [done|]. intros q Hq ->. by rewrite Nat.add_0_r in Ho.
Qed.

Lemma read_v_trans_ok l l' rest : layer_ok v_trans n l -> layer_ok v_trans n' l' -> same_config s l strm l' ->
  v_trans = true ->
  exists l'', State.read_v_trans strm (length used) n' si l' (v_bytes l ++ rest) = Ret (Some l'', rest)
    /\ v_restored l l' l''.
Proof.
  intros Hl Hl' (_ & _ & Hvt & _ & Hel & Hem & _ & _ & v & v' & Hv & Hv' & Hnone) Hf.
  unfold State.read_v_trans, v_bytes. rewrite Hv, (proj2 (at_Ret _ _ _) Hv'). cbn [mbind outcome_bind keeping within map_throw].
  destruct v as [t|], v' as [t'|]; [|by destruct Hnone as [_ H]; specialize (H eq_refl)
                                    |by destruct Hnone as [H _]; specialize (H eq_refl)|].
  2:{ exists l'. split; [done|]. split; [by left|]. split; intros; by rewrite !v_row_None. }
  pose proof (lo_v _ _ _ Hl _ _ Hv) as Hlt. pose proof (lo_v _ _ _ Hl' _ _ Hv') as Hlt'.
  destruct (lo_tensor _ _ _ Hl' Hf) as [Hel0 Hsz]. rewrite Hel, Hem in *.
  rewrite Hf in Hlt, Hlt' |- *. rewrite <- !app_assoc. rewrite read_i32_ok by apply Hl. cbn [mbind outcome_bind keeping within map_throw].
  rewrite Hvt, Z.eqb_refl. cbn [negb].
  rewrite read_u32_ok by (pose proof (lo_v_el _ _ _ Hl); lia). cbn [mbind outcome_bind keeping within map_throw].
  rewrite Z.eqb_refl. cbn [negb].
  rewrite read_u32_ok by (pose proof (lo_n_embd _ _ _ Hl); lia). cbn [mbind outcome_bind keeping within map_throw].
  rewrite Z.eqb_refl. cbn [negb]. rewrite (proj2 (Nat.eqb_neq (length used) 0)) by lia.
  destruct (read_trans_ok (ly_v_el l) (ly_n_embd_v l) (ly_n_embd_v l) t t' rest Hlt Hlt' (le_n _))
    as (t'' & -> & H1 & H2 & H3).
  { assert (n' * ly_n_embd_v l <= n' * ly_n_embd_v l * ly_v_el l)%nat by nia. lia. }
  cbn [mbind outcome_bind keeping within map_throw]. eexists. split; [reflexivity|].
  assert (Hset : forall o, v_row v_trans n' (set_v_stream l' strm t'') strm o
    = Some (map (fun j => slice (ly_v_el l) (o + j * n') t'') (seq 0 (ly_n_embd_v l)))).
  { intros o. rewrite v_row_set by done. by rewrite Hf, Hel, Hem. }
  split; [|split].
  - right. by exists t', t''.
  - intros q i o Hi Ho. rewrite Hset. unfold v_row. rewrite Hv, Hf. cbn [mbind option_bind]. f_equal.
    apply map_ext_in. intros j Hj%List.in_seq. apply (H2 j q); [lia|done|done].
  - intros o Hon Ho. rewrite Hset. unfold v_row. rewrite Hv', Hf, Hel, Hem. cbn [mbind option_bind]. f_equal.
    apply map_ext_in. intros j Hj%List.in_seq. apply H3; [done|by right].
Qed.

(** ** All layers *)

(** A layer of the destination after the restore. *)
Definition restored_layer (l l' l'' : kv_layer) : Prop :=
  layer_ok v_trans n' l'' /\ same_config s l strm l''
  /\ (forall j i o, used !! j = Some i -> idxs !! j = Some o ->
        k_row l'' strm o = k_row l s i /\ v_row v_trans n' l'' strm o = v_row v_trans n l s i)
  /\ (forall o, (o < n')%nat -> o ∉ idxs ->
        k_row l'' strm o = k_row l' strm o /\ v_row v_trans n' l'' strm o = v_row v_trans n' l' strm o)
  /\ (forall s', s' <> strm -> ly_k l'' !! s' = ly_k l' !! s' /\ ly_v l'' !! s' = ly_v l' !! s').

Lemma v_row_set_k trans m l t s' o : v_row trans m (set_k_stream l strm t) s' o = v_row trans m l s' o.
Proof. done. Qed.

Lemma k_row_set_v l t s' o : k_row (set_v_stream l strm t) s' o = k_row l s' o.
Proof. done. Qed.

Lemma set_k_ok l l' t : layer_ok v_trans n' l' -> same_config s l strm l' ->
  (forall t', ly_k l' !! strm = Some t' -> length t = length t') ->
  layer_ok v_trans n' (set_k_stream l' strm t) /\ same_config s l strm (set_k_stream l' strm t).
Proof.
  intros [] (H1 & H2 & H3 & H4 & H5 & H6 & H7 & [t' Ht'] & Hv) Hlt. specialize (Hlt t' Ht'). split.
  - constructor; simpl; try done. intros s' t0. rewrite list_lookup_insert_Some.
    intros [(-> & <- & _)|[_ H]]; [rewrite Hlt|]; eauto.
  - unfold same_config. simpl. split_and!; try done. rewrite list_lookup_insert_eq; [done|by eapply lookup_lt_Some].
Qed.

Lemma set_v_ok l l' t : layer_ok v_trans n' l' -> same_config s l strm l' ->
  (exists t', ly_v l' !! strm = Some (Some t') /\ length t = length t') ->
  layer_ok v_trans n' (set_v_stream l' strm t) /\ same_config s l strm (set_v_stream l' strm t).
Proof.
  intros [] (H1 & H2 & H3 & H4 & H5 & H6 & H7 & H8 & v & v' & Hv & Hv' & Hnone) (t' & Ht' & Hlt). split.
  - constructor; simpl; try done. intros s' t0. rewrite list_lookup_insert_Some.
    intros [(-> & [= <-] & _)|[_ H]]; [rewrite Hlt|]; eauto.
  - unfold same_config. simpl. split_and!; try done. exists v, (Some t).
    rewrite list_lookup_insert_eq by (by eapply lookup_lt_Some). split_and!; [done|done|].
    rewrite Hnone. assert (v' = Some t') as -> by congruence. done.
Qed.

Lemma restored_both l l' l1 l2 : layer_ok v_trans n' l' -> same_config s l strm l' ->
  k_restored l l' l1 -> v_restored l l1 l2 -> restored_layer l l' l2.
Proof.
  intros Hl' Hc (t1 & -> & Hlt1 & Hk1 & Hk2) (Hv0 & Hv1 & Hv2). destruct (set_k_ok l l' t1 Hl' Hc Hlt1) as [Ho1 Hc1].
  assert (H2 : layer_ok v_trans n' l2 /\ same_config s l strm l2
    /\ (forall s' o, k_row l2 s' o = k_row (set_k_stream l' strm t1) s' o)
    /\ (forall s', s' <> strm -> ly_k l2 !! s' = ly_k l' !! s' /\ ly_v l2 !! s' = ly_v l' !! s')).
  { assert (Hother : forall s', s' <> strm -> ly_k (set_k_stream l' strm t1) !! s' = ly_k l' !! s').
    { intros s' Hs'. simpl. by rewrite list_lookup_insert_ne. }
    destruct Hv0 as [->|(t0 & t2 & Ht0 & -> & Hlen2)]; [split_and!; [done|done|done|]; intros s' Hs'; split; auto|].
    destruct (set_v_ok l (set_k_stream l' strm t1) t2) as [Ho2 Hc2]; [done|done|by exists t0|].
    split_and!; [done|done|done|]. intros s' Hs'. split; [auto|]. simpl. by rewrite list_lookup_insert_ne. }
  destruct H2 as (H2a & H2b & H2c & H2d). split_and!; [done|done| | |done].
  - intros j i o Hi Ho. rewrite H2c. split; [by eapply Hk1|by eapply Hv1].
  - intros o Hon Ho. rewrite H2c. split; [by apply Hk2|by apply Hv2].
Qed.

Lemma read_layers_ok {L} (f : L -> list Z -> changing L (option L * list Z)) (g : L -> list Z)
  (R : L -> L -> Prop) (Q : L -> L -> L -> Prop) ls ls' rest :
  (forall l l' rest, R l l' -> exists l'', f l' (g l ++ rest) = Ret (Some l'', rest) /\ Q l l' l'') ->
  Forall2 R ls ls' ->
  exists ls'', State.read_layers f ls' (flat_map g ls ++ rest) = Ret (true, ls'', rest) /\ Forall3 Q ls ls' ls''.
Proof.
  intros Hf Hls. induction Hls as [|l l' ls ls' Hl _ IH]; simpl; [by exists []; split; [|constructor]|].
  destruct (Hf l l' (flat_map g ls ++ rest) Hl) as (l'' & E & Hq). rewrite <- app_assoc, E. cbn [mbind outcome_bind keeping within map_throw].
  destruct IH as (ls'' & -> & Hall). cbn [mbind outcome_bind keeping within map_throw]. exists (l'' :: ls''). split; [done|by constructor].
Qed.

Definition compatible (l l' : kv_layer) : Prop :=
  layer_ok v_trans n l /\ layer_ok v_trans n' l' /\ same_config s l strm l'.

Lemma state_read_data_ok st ls c rest : st_v_trans st = v_trans -> kv_cells (st_cache st) !! strm = Some c ->
  Cells.size c = n' -> (length used <= n')%nat -> Z.of_nat (length ls) < 2 ^ 32 ->
  Forall2 compatible ls (st_layers st) ->
  exists ls'', State.state_read_data st strm (length used) si (data_bytes ls ++ rest)
      = Ret (true, set_layers st ls'', rest)
    /\ Forall3 restored_layer ls (st_layers st) ls''.
Proof.
  intros Ht Hc Hsz Hcount Hnum Hls. unfold State.state_read_data, data_bytes.
  rewrite (proj2 (at_Ret _ _ _) Hc). cbn [mbind outcome_bind keeping within map_throw]. rewrite <- !app_assoc.
  rewrite read_u32_ok by (destruct v_trans; lia). cbn [mbind outcome_bind keeping within map_throw].
  rewrite read_u32_ok by lia. cbn [mbind outcome_bind keeping within map_throw].
  rewrite (Forall2_length _ _ _ Hls), Z.eqb_refl. cbn [negb]. rewrite Hsz, (proj2 (Nat.ltb_ge _ _)) by lia.
  replace (Bool.eqb (st_v_trans st) _) with true by (rewrite Ht; by destruct v_trans). cbn [negb].
  destruct (read_layers_ok (State.read_k strm (length used) si) k_bytes compatible k_restored ls (st_layers st)
    (flat_map v_bytes ls ++ rest)) as (ls1 & -> & H1); [|done|].
  { intros l l' rest' (? & ? & ?). by apply read_k_ok. }
  cbn [mbind outcome_bind keeping within map_throw negb]. simpl (st_v_trans _). simpl (st_layers _).
  assert (H1' : Forall2 compatible ls ls1).
  { clear -H1 Hls. induction H1 as [|l l' l1 ls ls' ls1 Hq _ IH]; [constructor|].
    apply Forall2_cons in Hls as [(Ha & Hb & Hc) Hls]. constructor; [|by apply IH].
    destruct Hq as (t & -> & Hlt & _). destruct (set_k_ok l l' t Hb Hc Hlt). by split_and!. }
  assert (H2 : exists ls2, (if negb v_trans
      then State.read_layers (State.read_v_rows strm (length used) si) ls1 (flat_map v_bytes ls ++ rest)
      else State.read_layers (State.read_v_trans strm (length used) n' si) ls1 (flat_map v_bytes ls ++ rest))
    = Ret (true, ls2, rest) /\ Forall3 v_restored ls ls1 ls2).
  { destruct v_trans eqn:Hv; cbn [negb]; apply (read_layers_ok _ v_bytes compatible); try done;
      intros l l' rest' (? & ? & ?); [apply read_v_trans_ok|apply read_v_rows_ok]; try done; by rewrite Hv. }
  destruct H2 as (ls2 & E2 & H2). rewrite Ht, E2. cbn [mbind outcome_bind keeping within map_throw]. exists ls2. split; [done|].
  clear -H1 H2 Hls. revert ls2 H2. induction H1 as [|l l' l1 ls ls' ls1 Hq _ IH]; intros ls2 H2; inversion H2; subst;
    [constructor|]. apply Forall2_cons in Hls as [(Ha & Hb & Hc) Hls]. constructor; [by eapply restored_both|by apply IH].
Qed.

End Read.
End Data.

(** * Saving and restoring the cells. *)

(** ** Writing the cells of a stream *)

Section Write.
Context (c : llama_kv_cells) (s : Z) (n_seq_max : nat).
Hypotheses (Hok : cells_ok c) (Hs : s = -1 \/ 0 <= s < MAX_SEQ) (Hmax : Z.of_nat n_seq_max <= MAX_SEQ).

Definition saved_ids (x : kv_cell) : list Z :=
  List.filter (fun cur => ((cur =? s) || (s =? -1)) && bool_decide (cur ∈ cell_seq x)) (map Z.of_nat (seq 0 n_seq_max)).

Definition cell_bytes (x : kv_cell) : list Z :=
  Io.le_bytes 4 (cell_pos x) ++ Io.le_bytes 4 (Z.of_nat (length (saved_ids x)))
  ++ flat_map (Io.le_bytes 4) (saved_ids x).

Definition cell_of (i : nat) : kv_cell := default empty_cell (kc_cells c !! i).

Definition meta_bytes : list Z := flat_map (fun i => cell_bytes (cell_of i)) (saved_cells c s).

Lemma cell_seq_ids_ok i x : kc_cells c !! i = Some x ->
  State.cell_seq_ids n_seq_max c s i = Ret (saved_ids x).
Proof.
  intros Hx. unfold State.cell_seq_ids, saved_ids.
  assert (H : forall l ids, (forall cur, cur ∈ l -> 0 <= cur < MAX_SEQ) ->
    foldM (fun ids cur => if (cur =? s) || (s =? -1) then
        has ← Cells.seq_has c i cur; Ret (if has : bool then ids ++ [cur] else ids) else Ret ids) ids l
    = Ret (ids ++ List.filter (fun cur => ((cur =? s) || (s =? -1)) && bool_decide (cur ∈ cell_seq x)) l)).
  { induction l as [|cur l IH]; intros ids Hl; cbn [foldM List.filter]; [by rewrite app_nil_r|].
    destruct ((cur =? s) || (s =? -1)).
    - rewrite (seq_has_ok c Hok i x cur Hx) by (apply Hl; set_solver). cbn [mbind outcome_bind keeping within map_throw andb].
      rewrite IH by (intros; apply Hl; set_solver). case_bool_decide; [by rewrite <- app_assoc|done].
    - cbn [mbind outcome_bind keeping within map_throw andb]. apply IH. intros; apply Hl; set_solver. }
  rewrite H; [done|]. intros cur (j & -> & Hj%elem_of_seq)%list_elem_of_fmap. lia.
Qed.

Lemma state_write_meta_ok ranges out : State.range_cells ranges = saved_cells c s ->
  State.state_write_meta n_seq_max c ranges s out = Ret (out ++ meta_bytes).
Proof.
  intros Hr. unfold State.state_write_meta, meta_bytes. rewrite Hr. apply foldM_append.
  intros i out' (x & Hx & Hp & _)%(elem_of_saved c s). unfold State.write_cell, cell_of, cell_bytes. rewrite Hx.
  rewrite (cell_seq_ids_ok i x Hx). cbn [mbind outcome_bind keeping within map_throw]. unfold Cells.pos_get.
  rewrite (used_cell_Ret c i x Hx Hp). cbn [mbind outcome_bind keeping within map_throw]. unfold Io.write. f_equal. cbn [default id].
  assert (H : forall l o, foldl (fun out s => out ++ Io.le_bytes 4 s) o l = o ++ flat_map (Io.le_bytes 4) l).
  { induction l as [|y l IH]; intros o; cbn [foldl flat_map]; [by rewrite app_nil_r|]. by rewrite IH, app_assoc. }
  by rewrite H, <- !app_assoc.
Qed.

Lemma elem_of_saved_ids x cur : cur ∈ saved_ids x <->
  0 <= cur < Z.of_nat n_seq_max /\ (cur = s \/ s = -1) /\ cur ∈ cell_seq x.
Proof.
  clear Hok Hs Hmax.
  unfold saved_ids. rewrite list_elem_of_In, List.filter_In, <- list_elem_of_In, list_elem_of_fmap.
  rewrite andb_true_iff, orb_true_iff, !Z.eqb_eq, bool_decide_eq_true. split.
  - intros [(j & -> & Hj%elem_of_seq) H]. split; [lia|tauto].
  - intros (H1 & H2 & H3). split; [|tauto]. exists (Z.to_nat cur). split; [lia|]. apply elem_of_seq. lia.
Qed.

Lemma NoDup_saved_ids x : NoDup (saved_ids x).
Proof.
  clear Hok Hs Hmax.
  unfold saved_ids. apply NoDup_ListNoDup, List.NoDup_filter, NoDup_ListNoDup.
  apply NoDup_fmap_2; [intros a b; lia|apply NoDup_seq].
Qed.

(** The text of a stream. *)
Definition stream_bytes (v_trans : bool) (strm n : nat) (ls : list kv_layer) : list Z :=
  Io.le_bytes 4 (Z.of_nat (length (saved_cells c s)))
  ++ if (length (saved_cells c s) =? 0)%nat then []
     else meta_bytes ++ data_bytes v_trans strm n (saved_cells c s) ls.

Lemma write_stream_ok st strm n out : kv_cells (st_cache st) !! strm = Some c -> Cells.size c = n ->
  kv_n_seq_max (st_cache st) = n_seq_max ->
  Forall (fun l => layer_ok (st_v_trans st) n l /\ is_Some (ly_k l !! strm) /\ is_Some (ly_v l !! strm)) (st_layers st) ->
  State.write_stream st s out strm = Ret (out ++ stream_bytes (st_v_trans st) strm n (st_layers st)).
Proof.
  intros Hc Hsz Hm Hls. unfold State.write_stream, stream_bytes. rewrite (proj2 (at_Ret _ _ _) Hc), Hm.
  cbn [mbind outcome_bind keeping within map_throw]. destruct (cell_ranges_ok c s Hok Hs) as (ranges & -> & Hr & Hall).
  cbn [mbind outcome_bind keeping within map_throw]. unfold Io.write. case_match; [by rewrite app_nil_r|].
  rewrite (state_write_meta_ok ranges _ Hr). cbn [mbind outcome_bind keeping within map_throw]. rewrite Hsz in *.
  rewrite (state_write_data_ok (st_v_trans st) strm n (saved_cells c s) ranges Hall Hr) by done.
  by rewrite <- !app_assoc.
Qed.

End Write.

(** ** Reading a whole stream *)

Lemma read_seq_ids_ok n_seq_max ids : forall c i x rest, cells_ok c -> kc_cells c !! i = Some x ->
  cell_pos x <> -1 -> NoDup ids -> Z.of_nat n_seq_max <= MAX_SEQ ->
  (forall id, id ∈ ids -> 0 <= id < Z.of_nat n_seq_max /\ id ∉ cell_seq x) ->
  exists c', State.read_seq_ids n_seq_max i (length ids) c (flat_map (Io.le_bytes 4) ids ++ rest) = Ret (true, c', rest)
    /\ updates c i (with_seq x (list_to_set ids ∪ cell_seq x)) (kc_has_shift c) c'.
Proof.
  induction ids as [|id ids IH]; intros c i x rest Hok Hi Hp Hnd Hmax Hids.
  - exists c. split; [done|]. split_and!; [done| |done]. simpl. rewrite union_empty_l_L, with_seq_same.
    by rewrite list_insert_id.
  - apply NoDup_cons in Hnd as [Hnin Hnd]. destruct (Hids id ltac:(set_solver)) as [Hr Hx].
    cbn [length State.read_seq_ids flat_map]. rewrite <- app_assoc. unfold MAX_SEQ in *.
    rewrite read_i32_ok by lia. cbn [mbind outcome_bind keeping within map_throw]. rewrite u32_small by lia.
    rewrite (proj2 (Z.ltb_ge id 0)), (proj2 (Z.leb_gt (Z.of_nat n_seq_max) id)) by lia. cbn [orb].
    destruct (seq_add_ok c i x id Hok Hi Hp) as (c1 & -> & U1); [done|unfold MAX_SEQ; lia|]. cbn [mbind outcome_bind keeping within map_throw].
    pose proof (updates_lookup _ _ _ _ _ _ Hi U1) as Hi1.
    destruct (IH c1 i _ rest (proj1 U1) Hi1) as (c2 & -> & U2); [done|done|done| |].
    { intros id' Hid'. destruct (Hids id' ltac:(set_solver)). split; [done|]. simpl. set_solver. }
    exists c2. split; [done|]. pose proof (updates_trans _ _ _ _ _ _ _ _ U1 U2) as U.
    destruct U1 as (_ & _ & E1). rewrite E1 in U. simpl in U |- *.
    by replace ({[id]} ∪ list_to_set ids ∪ cell_seq x) with (list_to_set ids ∪ ({[id]} ∪ cell_seq x)) by set_solver.
Qed.

(** A saved cell without its extension and its pending shift. *)
Definition restored_cell (s : Z) (n_seq_max : nat) (x : kv_cell) : kv_cell :=
  token_cell (cell_pos x) ext_zero (saved_ids s n_seq_max x).

Lemma read_cells_ok n_seq_max xs : Z.of_nat n_seq_max <= MAX_SEQ -> forall base c rest, cells_ok c ->
  (forall j, (j < length xs)%nat -> kc_cells c !! (base + j)%nat = Some empty_cell) ->
  Forall (fun x => 0 <= cell_pos x < 2 ^ 31) xs ->
  exists c', State.read_cells n_seq_max (seq base (length xs)) c (flat_map (cell_bytes (-1) n_seq_max) xs ++ rest)
      = Ret (true, c', rest)
    /\ cells_ok c' /\ length (kc_cells c') = length (kc_cells c)
    /\ (forall j x, xs !! j = Some x -> kc_cells c' !! (base + j)%nat = Some (restored_cell (-1) n_seq_max x))
    /\ (forall i, ~ (base <= i < base + length xs)%nat -> kc_cells c' !! i = kc_cells c !! i).
Proof.
  intros Hmax. induction xs as [|x xs IH]; intros base c rest Hok Hempty Hall.
  - exists c. by split_and!.
  - apply Forall_cons in Hall as [Hx Hall]. cbn [length seq State.read_cells flat_map]. unfold cell_bytes at 1.
    rewrite <- !app_assoc. rewrite read_i32_ok by lia. cbn [mbind outcome_bind keeping within map_throw].
    assert (Hlen : (length (saved_ids (-1) n_seq_max x) <= n_seq_max)%nat).
    { unfold saved_ids. etransitivity; [apply List.filter_length_le|]. by rewrite length_map, length_seq. }
    unfold MAX_SEQ in *. rewrite read_u32_ok by lia. cbn [mbind outcome_bind keeping within map_throw].
    pose proof (Hempty 0%nat ltac:(simpl; lia)) as H0. rewrite Nat.add_0_r in H0.
    destruct (pos_set_ok c base empty_cell (cell_pos x) Hok H0) as (c1 & -> & U1); [done|lia|].
    cbn [mbind outcome_bind keeping within map_throw]. rewrite Nat2Z.id. pose proof (updates_lookup _ _ _ _ _ _ H0 U1) as H1.
    destruct (read_seq_ids_ok n_seq_max (saved_ids (-1) n_seq_max x) c1 base _
      (flat_map (cell_bytes (-1) n_seq_max) xs ++ rest) (proj1 U1) H1) as (c2 & -> & U2);
      [simpl; lia|apply NoDup_saved_ids|done| |].
    { intros id (Hid & _)%elem_of_saved_ids. simpl. split; [lia|set_solver]. }
    cbn [mbind outcome_bind keeping within map_throw]. pose proof (updates_trans _ _ _ _ _ _ _ _ U1 U2) as (Hok2 & Hcs & _).
    destruct (IH (S base) c2 rest Hok2) as (c3 & -> & Hok3 & Hl3 & Hnew & Hold).
    { intros j Hj. rewrite Hcs, list_lookup_insert_ne by lia.
      rewrite <- (Hempty (S j)) by (simpl; lia). f_equal. lia. }
    { done. }
    exists c3. split_and!; [done|done|by rewrite Hl3, Hcs, length_insert| |].
    + intros [|j] y Hj; [injection Hj as <-|].
      * rewrite Nat.add_0_r, Hold by lia. rewrite Hcs, list_lookup_insert_eq by (by eapply lookup_lt_Some).
        unfold restored_cell, token_cell, with_seq, with_pos. simpl. by rewrite union_empty_r_L.
      * replace (base + S j)%nat with (S base + j)%nat by lia. by apply Hnew.
    + intros i Hi. cbn [length] in Hi. rewrite Hold by lia. rewrite Hcs. apply list_lookup_insert_ne. lia.
Qed.
