(* ===== verification/KvStateTheorems.v ===== *)
(** * The round trips of saved states. *)

From S2P Require Import Prelude KvCells KvCellsFacts Batch KvCache KvCacheFacts.
From S2P Require Import KvCopy KvSlot KvPlace KvPrepare KvState KvStateFacts KvTensors.
From Stdlib Require Import Lia.

(** A cache of [n] cells with its tensors, within the sizes of the format. *)
Record store_ok (n : nat) (st : kv_store) : Prop := {
  so_cache : kv_ok n (st_cache st);
  so_layers : Forall (layer_ok (st_v_trans st) n) (st_layers st);
  so_seqs : Z.of_nat (kv_n_seq_max (st_cache st)) <= MAX_SEQ;
  so_cells : Z.of_nat n < 2 ^ 32;
  so_num : Z.of_nat (length (st_layers st)) < 2 ^ 32;
  so_streams : Z.of_nat (kv_n_stream (st_cache st)) < 2 ^ 32;
  so_pos : forall s i p, at_pos (st_cache st) s i p -> p < INT32_MAX;
}.

(** A state of stream [s] of [st] fits stream [strm] of [st']. *)
Definition stores_match (s : nat) (st : kv_store) (strm : nat) (st' : kv_store) : Prop :=
  st_v_trans st' = st_v_trans st
  /\ kv_n_stream (st_cache st') = kv_n_stream (st_cache st)
  /\ Forall2 (fun l l' => same_config s l strm l') (st_layers st) (st_layers st').

Lemma stores_compatible n n' s strm st st' : store_ok n st -> store_ok n' st' -> stores_match s st strm st' ->
  Forall2 (compatible (st_v_trans st) s n strm n') (st_layers st) (st_layers st').
Proof.
  intros [_ H1 _ _ _ _ _] [_ H2 _ _ _ _ _] (Ht & _ & Hls). rewrite Ht in H2. clear Ht. revert H1 H2.
  induction Hls as [|l l' ls ls' Hl _ IH]; intros H1 H2; [constructor|].
  apply Forall_cons in H1 as [? ?], H2 as [? ?]. constructor; [done|by apply IH].
Qed.

Lemma stores_written n n' s strm st st' : store_ok n st -> store_ok n' st' -> stores_match s st strm st' ->
  Forall (fun l => layer_ok (st_v_trans st) n l /\ is_Some (ly_k l !! s) /\ is_Some (ly_v l !! s)) (st_layers st).
Proof.
  intros H1 H2 H3. pose proof (stores_compatible n n' s strm st st' H1 H2 H3) as H. clear -H.
  induction H as [|l l' ls ls' (Ha & _ & Hc) _ IH]; constructor; [|done].
  destruct Hc as (_ & _ & _ & _ & _ & _ & Hk & _ & v & v' & Hv & _). split_and!; [done|done|by exists v].
Qed.

Lemma zero_layer_ok v_trans n l : layer_ok v_trans n l -> layer_ok v_trans n (zero_layer l).
Proof.
  intros []. constructor; simpl; try done.
  - intros s t. rewrite list_lookup_fmap. destruct (ly_k l !! s) eqn:Hs; [|done]. intros [= <-].
    rewrite length_map. eauto.
  - intros s t. rewrite list_lookup_fmap. destruct (ly_v l !! s) as [[v|]|] eqn:Hs; [|done..]. intros [= <-].
    rewrite length_map. eauto.
Qed.

Lemma zero_layer_config s l strm l' : same_config s l strm l' -> same_config s l strm (zero_layer l').
Proof.
  intros (H1 & H2 & H3 & H4 & H5 & H6 & H7 & [t Ht] & v & v' & Hv & Hv' & Hn). unfold same_config. simpl.
  split_and!; try done.
  - rewrite list_lookup_fmap, Ht. done.
  - exists v, (option_map (map (fun _ => 0)) v'). split_and!; [done|by rewrite list_lookup_fmap, Hv'|].
    rewrite Hn. by destruct v'.
Qed.

(** ** A whole cache of one stream *)

Section Whole.
Context (n n' : nat) (st st' : kv_store) (c c' : llama_kv_cells).
Hypotheses (Hst : store_ok n st) (Hst' : store_ok n' st') (Hmatch : stores_match 0 st 0 st')
  (Hone : kv_n_stream (st_cache st) = 1%nat) (Hc : kv_cells (st_cache st) !! 0%nat = Some c)
  (Hmax : kv_n_seq_max (st_cache st') = kv_n_seq_max (st_cache st))
  (Hids : forall s i p, at_pos (st_cache st) s i p ->
     s < Z.of_nat (kv_n_seq_max (st_cache st)) /\ Kv.seq_known (st_cache st') s = true).

Let used := saved_cells c (-1).
Hypotheses (Hroom : (length used <= n')%nat) (Hsome : (0 < length used)%nat).

Lemma whole_cells_ok : cells_ok c /\ Cells.size c = n.
Proof. destruct (stream_sound n _ 0 c (so_cache _ _ Hst) Hc) as (? & ? & _). done. Qed.

Lemma used_cell j i : used !! j = Some i -> exists x, kc_cells c !! i = Some x /\ cell_pos x <> -1
  /\ cell_at (st_cache st) 0 i = Some x.
Proof.
  intros Hj%list_elem_of_lookup_2. apply elem_of_saved in Hj as (x & Hx & Hp & _). exists x. split_and!; [done|done|].
  apply cell_at_Some. by exists c.
Qed.

Lemma used_ids i x : cell_at (st_cache st) 0 i = Some x -> cell_pos x <> -1 ->
  list_to_set (saved_ids (-1) (kv_n_seq_max (st_cache st)) x) = cell_seq x.
Proof.
  intros Hx Hp. apply set_eq. intros s. rewrite elem_of_list_to_set, elem_of_saved_ids. split; [tauto|].
  intros Hs. assert (Hat : at_pos (st_cache st) s i (cell_pos x)) by (apply at_pos_cell; by exists 0%nat, x).
  destruct (Hids _ _ _ Hat). pose proof (cell_at_sound n _ 0 i x (so_cache _ _ Hst) Hx) as [[Hb _] _].
  specialize (Hb s Hs). split; [lia|]. tauto.
Qed.

(** The restored cells. *)
Definition whole_cell (i : nat) : kv_cell :=
  restored_cell (-1) (kv_n_seq_max (st_cache st)) (cell_of c i).

Lemma set_cells_put k i c2 c0 : kv_cells k !! i = Some c0 ->
  set_cells k i c2 = Ret (set_streams k (kv_heads k) (<[i := c2]> (kv_cells k))).
Proof. intros H. unfold set_cells, set_. by rewrite decide_True by (by eapply lookup_lt_Some). Qed.

Lemma read_meta_whole rest : exists k'',
  State.state_read_meta st' 0 (length used) (-1)
    (meta_bytes c (-1) (kv_n_seq_max (st_cache st)) ++ rest)
  = Ret (Some (mk_slot 0 0 [0%nat] [seq 0 (length used)]), set_cache (clear_data st') k'', rest)
  /\ kv_ok n' k'' /\ same_shape (st_cache st') k''
  /\ (forall j i, used !! j = Some i -> cell_at k'' 0 j = Some (whole_cell i))
  /\ (forall j, (length used <= j)%nat -> (j < n')%nat -> cell_at k'' 0 j = Some empty_cell).
Proof.
  pose proof (so_cache _ _ Hst') as Hok'. destruct Hmatch as (_ & Hns & _).
  assert (H0 : (0 < length (kv_cells (st_cache st')))%nat) by (rewrite (ok_cells n' _ Hok'), Hns, Hone; lia).
  destruct (lookup_lt_is_Some_2 _ _ H0) as [d Hd]. destruct (stream_sound n' _ 0 d Hok' Hd) as (Hdok & Hdsz & _).
  destruct (clear_ok n' _ Hok') as (Hcl & Hclsh & _).
  unfold State.state_read_meta. cbn [Z.eqb negb]. unfold State.read_meta_all.
  rewrite (proj2 (at_Ret _ _ _) Hd). cbn [mbind outcome_bind keeping within map_throw]. rewrite Hdsz, (proj2 (Nat.ltb_ge _ _)) by lia.
  cbn [clear_data st_cache]. assert (Hd0 : kv_cells (Kv.clear (st_cache st')) !! 0%nat = Some (Cells.reset d)).
  { simpl. by rewrite list_lookup_fmap, Hd. }
  rewrite (proj2 (at_Ret _ _ _) Hd0). cbn [mbind outcome_bind keeping within map_throw].
  change (kv_n_seq_max (Kv.clear (st_cache st'))) with (kv_n_seq_max (st_cache st')). rewrite Hmax.
  set (xs := map (cell_of c) used).
  assert (Htext : meta_bytes c (-1) (kv_n_seq_max (st_cache st))
    = flat_map (cell_bytes (-1) (kv_n_seq_max (st_cache st))) xs).
  { unfold meta_bytes, xs. fold used. by rewrite !flat_map_concat_map, map_map. }
  assert (Hxs : length xs = length used) by apply length_map. rewrite Htext, <- Hxs.
  destruct (read_cells_ok (kv_n_seq_max (st_cache st)) xs (so_seqs _ _ Hst) 0 (Cells.reset d) rest)
    as (c2 & -> & Hc2 & Hl2 & Hnew & Hold).
  { by destruct (stream_sound n' _ 0 _ Hcl Hd0). }
  { intros j Hj. simpl. rewrite list_lookup_fmap. rewrite Hxs in Hj.
    destruct (lookup_lt_is_Some_2 (kc_cells d) j) as [y Hy]; [unfold Cells.size in Hdsz; lia|]. by rewrite Hy. }
  { apply Forall_forall. intros x (i & -> & Hi)%list_elem_of_fmap. apply list_elem_of_lookup_1 in Hi as [j Hj].
    destruct (used_cell j i Hj) as (x & Hx & Hp & Hat). unfold cell_of. rewrite Hx. cbn [default id].
    pose proof (cell_at_sound n _ 0 i x (so_cache _ _ Hst) Hat) as [[_ [[? _]|Hp0]] [Hne _]]; [done|]. split; [done|].
    specialize (Hne Hp). apply set_choose_L in Hne as [s Hs].
    assert (Hlt : cell_pos x < INT32_MAX) by (eapply (so_pos _ _ Hst s i), at_pos_cell; by exists 0%nat, x).
    unfold INT32_MAX in Hlt. lia. }
  cbn [mbind outcome_bind keeping within map_throw]. assert (Hh : (0 < length (kv_heads (Kv.clear (st_cache st'))))%nat).
  { rewrite (ok_heads n' _ Hcl). pose proof (ok_streams n' _ Hcl). lia. }
  destruct (lookup_lt_is_Some_2 _ _ Hh) as [h Hh0].
  pose proof (set_both n' (Kv.clear (st_cache st')) 0 (Cells.reset d) c2 h 0 Hcl Hd0 Hh0) as Hboth.
  rewrite (set_cells_put _ 0 c2 _ Hd0) in Hboth.
  cbn [mbind outcome_bind keeping within map_throw negb] in Hboth |- *.
  match type of Hboth with ?lhs = _ => change (set_head _ 0 0) with lhs end. rewrite Hboth. cbn [mbind outcome_bind keeping within map_throw].
  eexists. split; [reflexivity|].
  assert (Hcell : forall j, cell_at (replaced (Kv.clear (st_cache st')) 0 c2 0) 0 j = kc_cells c2 !! j).
  { intros j. unfold cell_at. rewrite lookup_replaced by (by eapply lookup_lt_Some). by rewrite decide_True. }
  assert (Hsz2 : Cells.size c2 = n') by (unfold Cells.size in *; rewrite Hl2; simpl; by rewrite length_map).
  assert (Hnew' : forall j i, used !! j = Some i -> kc_cells c2 !! j = Some (whole_cell i)).
  { intros j i Hj. change j with (0 + j)%nat. apply Hnew. unfold xs. by rewrite list_lookup_fmap, Hj. }
  assert (Hold' : forall j, (length used <= j)%nat -> (j < n')%nat -> kc_cells c2 !! j = Some empty_cell).
  { intros j H1 H2. rewrite Hold by (rewrite Hxs; lia). simpl. rewrite list_lookup_fmap.
    destruct (lookup_lt_is_Some_2 (kc_cells d) j) as [y Hy]; [unfold Cells.size in Hdsz; lia|]. by rewrite Hy. }
  split_and!.
  - apply replaced_ok; [done| |lia]. split_and!; [done|done|]. apply Forall_lookup. intros j y Hy.
    destruct (decide (j < length used)%nat) as [Hj|Hj].
    + destruct (lookup_lt_is_Some_2 used j Hj) as [i Hi]. rewrite (Hnew' j i Hi) in Hy. injection Hy as <-.
      destruct (used_cell j i Hi) as (x & Hx & Hp & Hat).
      pose proof (cell_at_sound n _ 0 i x (so_cache _ _ Hst) Hat) as [_ [Hne _]].
      unfold whole_cell, cell_of. rewrite Hx. cbn [default id]. unfold restored_cell, token_cell. split; simpl.
      * intros _. rewrite (used_ids i x Hat Hp). by apply Hne.
      * intros s. rewrite (used_ids i x Hat Hp). intros Hs.
        destruct (Hids s i (cell_pos x)) as [_ Hk]; [apply at_pos_cell; by exists 0%nat, x|].
        destruct (seq_stream n' _ s Hok' Hk) as (st0 & c0 & h0 & _ & Hh1 & Hc1 & _).
        unfold home in *. simpl. rewrite Hh1. f_equal.
        apply lookup_lt_Some in Hc1. rewrite (ok_cells n' _ Hok'), Hns, Hone in Hc1. lia.
    + pose proof (lookup_lt_Some _ _ _ Hy). unfold Cells.size in Hsz2. rewrite Hold' in Hy by lia. injection Hy as <-.
      apply empty_home.
  - eapply same_shape_trans; [exact Hclsh|apply replaced_shape].
  - intros j i Hj. rewrite Hcell. by apply Hnew'.
  - intros j H1 H2. rewrite Hcell. apply Hold'; lia.
Qed.

Lemma whole_view k'' : kv_ok n' k'' -> same_shape (st_cache st') k'' ->
  (forall j i, used !! j = Some i -> cell_at k'' 0 j = Some (whole_cell i)) ->
  (forall j, (length used <= j)%nat -> (j < n')%nat -> cell_at k'' 0 j = Some empty_cell) ->
  forall s j p, at_pos k'' s j p <-> exists i, used !! j = Some i /\ at_pos (st_cache st) s i p.
Proof.
  intros Hok Hsh Hnew Hold s j p. destruct Hmatch as (_ & Hns & _). rewrite at_pos_cell. split.
  - intros (st0 & y & Hy & Hs & Hp). pose proof (proj1 (cell_at_Some _ _ _ _) Hy) as (d & Hd & Hdy).
    assert (st0 = 0%nat) as ->.
    { apply lookup_lt_Some in Hd. destruct Hsh as (_ & E & _). rewrite (ok_cells n' _ Hok), E, Hns, Hone in Hd. lia. }
    destruct (stream_sound n' _ 0 d Hok Hd) as (_ & Hsz & _).
    destruct (decide (j < length used)%nat) as [Hj|Hj].
    + destruct (lookup_lt_is_Some_2 used j Hj) as [i Hi]. exists i. split; [done|].
      rewrite (Hnew j i Hi) in Hy. injection Hy as <-. destruct (used_cell j i Hi) as (x & Hx & Hpx & Hat).
      unfold whole_cell, cell_of in Hs, Hp. rewrite Hx in Hs, Hp. cbn [default id] in Hs, Hp.
      unfold restored_cell, token_cell in Hs, Hp. simpl in Hs, Hp. rewrite (used_ids i x Hat Hpx) in Hs.
      apply at_pos_cell. by exists 0%nat, x.
    + rewrite Hold in Hy; [injection Hy as <-; simpl in Hs; set_solver|lia|].
      apply lookup_lt_Some in Hdy. unfold Cells.size in Hsz. lia.
  - intros (i & Hi & Hat). destruct (used_cell j i Hi) as (x & Hx & Hpx & Hcx).
    apply at_pos_cell in Hat as (st0 & x0 & Hx0 & Hs & Hp).
    pose proof (proj1 (cell_at_Some _ _ _ _) Hx0) as (d & Hd & _).
    assert (st0 = 0%nat) as ->.
    { apply lookup_lt_Some in Hd. rewrite (ok_cells n _ (so_cache _ _ Hst)), Hone in Hd. lia. }
    assert (x0 = x) as -> by congruence. exists 0%nat, (whole_cell i). split; [by apply Hnew|].
    unfold whole_cell, cell_of. rewrite Hx. cbn [default id]. simpl. by rewrite (used_ids i x Hcx Hpx).
Qed.

Lemma state_write_whole : State.state_write st (-1)
  = Ret (Io.le_bytes 4 1 ++ stream_bytes c (-1) (kv_n_seq_max (st_cache st)) (st_v_trans st) 0 n (st_layers st)).
Proof.
  destruct whole_cells_ok as [Hcok Hsz]. unfold State.state_write. rewrite Hone. cbn [seq foldM Z.of_nat].
  rewrite (write_stream_ok c (-1) (kv_n_seq_max (st_cache st)) Hcok) with (n := n);
    [done|by left|apply (so_seqs _ _ Hst)|done|done|done|by eapply stores_written].
Qed.

Lemma zero_compatible : Forall2 (compatible (st_v_trans st) 0 n 0 n') (st_layers st) (map zero_layer (st_layers st')).
Proof.
  pose proof (stores_compatible n n' 0 0 st st' Hst Hst' Hmatch) as H. clear -H.
  induction H as [|l l' ls ls' (Ha & Hb & Hc) _ IH]; constructor; [|done].
  split_and!; [done|by apply zero_layer_ok|by apply zero_layer_config].
Qed.

Lemma state_read_whole rest : exists st'',
  State.state_read st' (-1) (Io.le_bytes 4 1
      ++ stream_bytes c (-1) (kv_n_seq_max (st_cache st)) (st_v_trans st) 0 n (st_layers st) ++ rest)
    = Ret (true, st'', rest)
  /\ kv_ok n' (st_cache st'') /\ same_shape (st_cache st') (st_cache st'')
  /\ (forall s j p, at_pos (st_cache st'') s j p <-> exists i, used !! j = Some i /\ at_pos (st_cache st) s i p)
  /\ Forall3 (restored_layer (st_v_trans st) 0 n used 0 n' (seq 0 (length used)))
       (st_layers st) (map zero_layer (st_layers st')) (st_layers st'').
Proof.
  destruct Hmatch as (Ht & Hns & _). destruct whole_cells_ok as [_ Hsz].
  unfold State.state_read. change ((-1 =? -1) || _) with true. cbn [c_assert mbind outcome_bind keeping within map_throw].
  rewrite read_u32_ok by lia. cbn [mbind outcome_bind keeping within map_throw]. rewrite Hns, Hone. change (negb (1 =? Z.of_nat 1)) with false.
  cbn [seq State.read_streams].
  unfold State.read_stream, stream_bytes. fold used. rewrite (proj2 (Nat.eqb_neq (length used) 0)) by lia.
  pose proof (so_cells _ _ Hst') as Hn32.
  rewrite <- !app_assoc. rewrite read_u32_ok by lia. cbn [mbind outcome_bind keeping within map_throw].
  rewrite (proj2 (Z.eqb_neq (Z.of_nat (length used)) 0)) by lia. change (-1 =? -1) with true.
  cbn [mbind outcome_bind keeping within map_throw]. rewrite Nat2Z.id.
  destruct (read_meta_whole (data_bytes (st_v_trans st) 0 n used (st_layers st) ++ rest))
    as (k'' & -> & Hk & Hsh & Hnew & Hold). cbn [mbind outcome_bind keeping within map_throw].
  assert (H0 : (0 < length (kv_cells k''))%nat) by (rewrite (ok_cells n' _ Hk); apply (ok_streams n' _ Hk)).
  destruct (lookup_lt_is_Some_2 _ _ H0) as [d Hd]. destruct (stream_sound n' _ 0 d Hk Hd) as (_ & Hdsz & _).
  destruct (state_read_data_ok (st_v_trans st) 0 n used 0 n' (seq 0 (length used))
    (mk_slot 0 0 [0%nat] [seq 0 (length used)])) with (st := set_cache (clear_data st') k'') (ls := st_layers st)
    (c := d) (rest := rest) as (ls'' & E & Hall).
  - intros i Hi%saved_lt. by rewrite <- Hsz.
  - done.
  - by rewrite length_seq.
  - lia.
  - apply NoDup_seq.
  - intros o Ho%elem_of_seq. lia.
  - exact Ht.
  - exact Hd.
  - exact Hdsz.
  - lia.
  - apply (so_num _ _ Hst).
  - apply zero_compatible.
  - rewrite E. cbn [mbind outcome_bind keeping within map_throw]. eexists. split; [reflexivity|]. cbn [st_cache set_layers set_cache].
    split_and!; [done|done| |done]. by apply whole_view.
Qed.

(** Nothing is read from the state of an empty cache. *)
Lemma state_read_none rest : length used = 0%nat ->
  State.state_read st' (-1) (Io.le_bytes 4 1
      ++ stream_bytes c (-1) (kv_n_seq_max (st_cache st)) (st_v_trans st) 0 n (st_layers st) ++ rest)
    = Ret (true, st', rest).
Proof.
  clear Hsome. intros H0. destruct Hmatch as (_ & Hns & _).
  unfold State.state_read. change ((-1 =? -1) || _) with true. cbn [c_assert mbind outcome_bind keeping within map_throw].
  rewrite read_u32_ok by lia. cbn [mbind outcome_bind keeping within map_throw]. rewrite Hns, Hone. change (negb (1 =? Z.of_nat 1)) with false.
  cbn [seq State.read_streams]. unfold State.read_stream, stream_bytes. fold used. rewrite H0. cbn [Nat.eqb].
  rewrite <- !app_assoc. rewrite read_u32_ok by lia. done.
Qed.

End Whole.

