(* ===== verification/KvStateSeq.v ===== *)
(** * Saving one sequence and restoring it under another id. *)

From S2P Require Import Prelude KvCells KvCellsFacts Batch KvCache KvCacheFacts KvCopy KvSlot KvPlace KvPrepare KvState.
From S2P Require Import KvStateFacts KvTensors KvStateTheorems KvTheorems.
From Stdlib Require Import Lia.

(** ** The tokens of the saved cells *)

Notation ubatch := (@llama_ubatch unit).

(** The ubatch with other positions and sequences. *)
Definition with_tokens (u : ubatch) (p n : list Z) (ids : list (list Z)) : ubatch :=
  mk_ubatch (u_equal_seqs u) (u_n_tokens u) (u_n_seq_tokens u) (u_n_seqs u) (u_n_seqs_unq u)
    (u_n_pos u) (u_token u) (u_embd u) p n ids (u_seq_id_unq u) (u_seq_idx u) (u_output u).

Lemma with_tokens_id u : with_tokens u (u_pos u) (u_n_seq_id u) (u_seq_id u) = u.
Proof. by destruct u. Qed.

Lemma read_seq_cells_ok s d n_seq_max xs : 0 <= s < Z.of_nat n_seq_max -> Z.of_nat n_seq_max <= MAX_SEQ ->
  Forall (fun x => 0 <= cell_pos x < 2 ^ 31 /\ s ∈ cell_seq x) xs -> forall (u : ubatch) base rest,
  length (u_pos u) = (base + length xs)%nat -> length (u_n_seq_id u) = (base + length xs)%nat ->
  length (u_seq_id u) = (base + length xs)%nat ->
  State.read_seq_cells d (seq base (length xs)) u (flat_map (cell_bytes s n_seq_max) xs ++ rest)
  = Ret (Some (with_tokens u (take base (u_pos u) ++ map cell_pos xs)
      (take base (u_n_seq_id u) ++ replicate (length xs) 1)
      (take base (u_seq_id u) ++ replicate (length xs) [d])), rest).
Proof.
  intros Hs Hmax. induction xs as [|x xs IH]; intros Hall u base rest Hp Hn Hi.
  - simpl in *. rewrite !app_nil_r, !firstn_all2 by lia. by rewrite with_tokens_id.
  - apply Forall_cons in Hall as [[Hx Hin] Hall]. cbn [length seq State.read_seq_cells flat_map] in *.
    unfold cell_bytes at 1. rewrite <- !app_assoc. unfold MAX_SEQ in *.
    assert (Hids : saved_ids s n_seq_max x = [s]).
    { pose proof (NoDup_saved_ids s n_seq_max x) as Hnd.
      assert (Hel : forall y, y ∈ saved_ids s n_seq_max x <-> y = s).
      { intros y. rewrite elem_of_saved_ids. split; [intros (? & [?| ->] & ?); [done|lia]|intros ->; tauto]. }
      destruct (saved_ids s n_seq_max x) as [|y [|z l]].
      - exfalso. apply (elem_of_nil s). by apply Hel.
      - f_equal. apply Hel. set_solver.
      - exfalso. apply NoDup_cons in Hnd as [Hny _]. assert (y = s) by (apply Hel; set_solver).
        assert (z = s) by (apply Hel; set_solver). subst. set_solver. }
    rewrite Hids. cbn [length flat_map]. rewrite app_nil_r.
    rewrite read_i32_ok by lia. cbn [mbind outcome_bind keeping within map_throw]. rewrite read_u32_ok by lia. cbn [mbind outcome_bind keeping within map_throw Z.of_nat].
    change (negb (Z.pos (Pos.of_succ_nat 0) =? 1)) with false. rewrite read_i32_ok by lia. cbn [mbind outcome_bind keeping within map_throw].
    unfold State.set_token, set_. rewrite !decide_True by lia. cbn [mbind outcome_bind keeping within map_throw].
    change (mk_ubatch _ _ _ _ _ _ _ _ ?p ?q ?r _ _ _) with (with_tokens u p q r).
    rewrite IH by (simpl; rewrite ?length_insert; lia || done). unfold with_tokens. simpl.
    assert (Htake : forall {A} (l : list A) y l', (base < length l)%nat ->
      take (S base) (<[base := y]> l) ++ l' = take base l ++ y :: l').
    { intros A l y l' Hl. rewrite (take_S_r _ _ y) by by apply list_lookup_insert_eq.
      rewrite take_insert_ge by lia. by rewrite <- app_assoc. }
    rewrite !Htake by lia. done.
Qed.

(** The reserved ubatch of [m] tokens of sequence [d]. *)
Lemma reserved_ok npe m d : exists u a u0, ubatch_reserve (new_allocr npe) m 1 = Ret (u, a)
  /\ State.set_unq u d = Ret u0 /\ u_n_tokens u0 = m /\ u_n_pos u0 = npe /\ u_n_seqs_unq u0 = 1%nat
  /\ u_seq_id_unq u0 = [d] /\ length (u_pos u0) = m /\ length (u_n_seq_id u0) = m /\ length (u_seq_id u0) = m.
Proof.
  unfold ubatch_reserve. rewrite Nat.mul_1_r. cbn [foldM seq]. unfold set_ at 1. rewrite length_replicate.
  rewrite decide_True by (unfold LLAMA_MAX_SEQ; lia). cbn [mbind outcome_bind keeping within map_throw].
  eexists _, _, _. split; [reflexivity|]. split; [reflexivity|]. simpl. by rewrite !length_replicate.
Qed.

Section Sequence.
Context (n n' : nat) (st st' : kv_store) (s d : Z) (src strm : nat) (c : llama_kv_cells).
Hypotheses (Hst : store_ok n st) (Hst' : store_ok n' st') (Hmatch : stores_match src st strm st')
  (Hs : Kv.seq_known (st_cache st) s = true) (Hd : Kv.seq_known (st_cache st') d = true)
  (Hsrc : home (st_cache st) s = Some src) (Hstrm : home (st_cache st') d = Some strm)
  (Hsaved : s < Z.of_nat (kv_n_seq_max (st_cache st)))
  (Hswa : swa_ok (kv_n_swa (st_cache st')) (kv_swa_type (st_cache st')))
  (Hfull : kv_swa_type (st_cache st') = LLAMA_SWA_TYPE_NONE)
  (Hnpe : (kv_n_pos_per_embd (st_cache st') < 3)%nat)
  (Hc : kv_cells (st_cache st) !! src = Some c).

Let used := saved_cells c s.
Let m := length used.
Hypotheses (Hm : (0 < m)%nat).

Lemma s_range : 0 <= s < MAX_SEQ.
Proof. apply (seq_known_range n (st_cache st)); [apply Hst|done]. Qed.

Lemma src_cells : cells_ok c /\ Cells.size c = n.
Proof. destruct (stream_sound n _ src c (so_cache _ _ Hst) Hc) as (? & ? & _). done. Qed.

(** The saved cells, in the order of the cells. *)
Definition xs : list kv_cell := map (cell_of c) used.

Lemma xs_ok : Forall (fun x => 0 <= cell_pos x < 2 ^ 31 /\ s ∈ cell_seq x) xs.
Proof.
  apply Forall_forall. intros x (i & -> & Hi)%list_elem_of_fmap. apply elem_of_saved in Hi as (x & Hx & Hp & Hin).
  unfold cell_of. rewrite Hx. cbn [default id]. pose proof s_range. destruct Hin as [->|Hin]; [lia|].
  assert (Hat : cell_at (st_cache st) src i = Some x) by (apply cell_at_Some; by exists c).
  pose proof (cell_at_sound n _ src i x (so_cache _ _ Hst) Hat) as [[_ [[? _]|Hp0]] _]; [done|]. split; [|done].
  assert (Hlt : cell_pos x < INT32_MAX) by (eapply (so_pos _ _ Hst s i), at_pos_cell; by exists src, x).
  unfold INT32_MAX in Hlt. lia.
Qed.

Lemma xs_at j x : xs !! j = Some x <-> exists i, used !! j = Some i /\ kc_cells c !! i = Some x.
Proof.
  unfold xs. rewrite list_lookup_fmap. split.
  - destruct (used !! j) as [i|] eqn:Hj; [|done]. intros [= <-]. exists i. split; [done|].
    apply list_elem_of_lookup_2, elem_of_saved in Hj as (x & Hx & _). unfold cell_of. by rewrite Hx.
  - intros (i & -> & Hx). simpl. unfold cell_of. by rewrite Hx.
Qed.

(** The ubatch that is placed. *)
Definition restored_ubatch (u0 : ubatch) : ubatch :=
  with_tokens u0 (map cell_pos xs) (replicate m 1) (replicate m [d]).

Lemma restored_fits k u0 : kv_ok n' k -> same_shape (st_cache st') k -> u_n_tokens u0 = m -> u_n_seqs_unq u0 = 1%nat ->
  u_seq_id_unq u0 = [d] -> (u_n_pos u0 < 3)%nat ->
  ubatch_fits k (restored_ubatch u0) m [strm]
  /\ forall j st0 ii, [strm] !! j = Some st0 -> (ii < m)%nat -> token_ok k (restored_ubatch u0) st0 (j * m + ii).
Proof.
  intros Hok Hsh Hn Hu Hq Hpos. assert (Hmap : kv_seq_to_stream k = kv_seq_to_stream (st_cache st')) by apply Hsh.
  assert (Hk : Kv.seq_known k d = true) by (unfold Kv.seq_known in *; by rewrite Hmap).
  assert (Hh : home k d = Some strm) by (unfold home in *; by rewrite Hmap). split.
  - constructor; simpl; try lia. intros [|j] st0 Hj; [|done]. injection Hj as <-. exists d.
    rewrite Hq. split_and!; [done|done|done|]. intros _. split; [by apply lookup_replicate_2|].
    exists [d]. split; [by apply lookup_replicate_2|done].
  - intros [|j] st0 ii Hj Hii; [|done]. injection Hj as <-. simpl. constructor; simpl; [| |lia].
    + assert (Hlen : (ii < length xs)%nat) by (unfold xs; by rewrite length_map).
      destruct (lookup_lt_is_Some_2 xs ii Hlen) as [x Hx]. exists (cell_pos x). rewrite list_lookup_fmap, Hx.
      split; [done|]. pose proof xs_ok as Hall. rewrite Forall_forall in Hall.
      specialize (Hall x ltac:(by eapply list_elem_of_lookup_2)). lia.
    + exists [d]. split_and!; [by apply lookup_replicate_2|by apply lookup_replicate_2|done|apply NoDup_singleton|].
      intros id ->%list_elem_of_singleton. done.
Qed.

(** The cells of the sequence after the restore. *)
Definition restored_at (idxs : list nat) (i : nat) (p : Z) : Prop :=
  exists j x, idxs !! j = Some i /\ xs !! j = Some x /\ cell_pos x = p.

Lemma restored_placed si idxs u0 t i p : si_strm si = [strm] -> si_idxs si = [idxs] -> length idxs = m ->
  placed (restored_ubatch u0) m si t i p <-> t = d /\ restored_at idxs i p.
Proof.
  intros H1 H2 Hlen. assert (Hx : length xs = m) by (unfold xs; by rewrite length_map). unfold placed, restored_at.
  assert (Ht : forall w st0 i, w ∈ pairs (length (si_strm si)) m -> target si w = Some (st0, i) ->
    st0 = strm /\ w.1 = 0%nat /\ idxs !! w.2 = Some i).
  { intros [j ii] st0 i' [Hj _]%elem_of_pairs Htg. rewrite H1 in Hj. simpl in Hj. assert (j = 0%nat) as -> by lia.
    unfold target in Htg. rewrite H1, H2 in Htg. cbn in Htg. destruct (idxs !! ii) eqn:E; [|done].
    by injection Htg as -> ->. }
  split.
  - intros ([j ii] & st0 & Hw & Htg & Hids & Hp). destruct (Ht _ _ _ Hw Htg) as (-> & Hj & Hi). simpl in Hj, Hi. subst j.
    unfold token_index in *. cbn [fst snd Nat.mul Nat.add] in *. apply elem_of_pairs in Hw as [_ Hii].
    unfold ids_of, pos_of, restored_ubatch, with_tokens in *. simpl in Hids, Hp.
    rewrite lookup_total_replicate_2 in Hids by done. split; [set_solver|].
    destruct (lookup_lt_is_Some_2 xs ii) as [x Hxi]; [lia|]. exists ii, x. split_and!; [done|done|].
    rewrite <- Hp. symmetry. apply list_lookup_total_correct. by rewrite list_lookup_fmap, Hxi.
  - intros (-> & j & x & Hi & Hxj & Hp). exists (0%nat, j), strm.
    assert (Hj : (j < m)%nat) by (rewrite <- Hlen; by eapply lookup_lt_Some).
    split; [apply elem_of_pairs; rewrite H1; simpl; lia|]. split; [unfold target; rewrite H1, H2; cbn; by rewrite Hi|].
    unfold token_index, ids_of, pos_of, restored_ubatch, with_tokens. cbn [fst snd Nat.mul Nat.add]. simpl.
    rewrite lookup_total_replicate_2 by done. split; [set_solver|]. rewrite <- Hp.
    apply list_lookup_total_correct. by rewrite list_lookup_fmap, Hxj.
Qed.

Definition seq_text : list Z := meta_bytes c s (kv_n_seq_max (st_cache st)).

Lemma seq_text_xs : seq_text = flat_map (cell_bytes s (kv_n_seq_max (st_cache st))) xs.
Proof. unfold seq_text, meta_bytes, xs. fold used. by rewrite !flat_map_concat_map, map_map. Qed.

(** The cells without the old tokens of [d]. *)
Lemma without_d : exists k1, Kv.seq_rm (st_cache st') d (-1) (-1) = Ret k1 /\ kv_ok n' k1
  /\ same_shape (st_cache st') k1
  /\ forall t i p, at_pos k1 t i p <-> t <> d /\ at_pos (st_cache st') t i p.
Proof.
  clear - Hst' Hd. destruct (seq_rm_one n' _ d (-1) (-1) (so_cache _ _ Hst') Hd) as (k1 & E & H1 & H2 & H3).
  exists k1. split_and!; [done|done|done|]. intros t i p. rewrite H3. split; [|naive_solver].
  intros [Hp Hn]. split; [|done]. intros ->. apply Hn. split; [done|].
  pose proof (at_pos_nonneg n' _ d i p (so_cache _ _ Hst') Hp). pose proof (so_pos _ _ Hst' d i p Hp).
  unfold in_pos, Kv.lower, Kv.upper. simpl. lia.
Qed.

(** A slot that was found and filled. *)
Definition filled (k1 k2 : llama_kv_cache) (idxs : list nat) : Prop :=
  NoDup idxs /\ length idxs = m /\ kv_ok n' k2 /\ same_shape (st_cache st') k2
  /\ (forall i, i ∈ idxs -> (i < n')%nat /\ forall t p, home k1 t = Some strm -> ~ at_pos k1 t i p)
  /\ forall t i p, at_pos k2 t i p <-> (t = d /\ restored_at idxs i p) \/ at_pos k1 t i p.

Lemma fill_restored k1 u0 si : kv_ok n' k1 -> same_shape (st_cache st') k1 -> u_n_tokens u0 = m ->
  u_n_seqs_unq u0 = 1%nat -> u_seq_id_unq u0 = [d] -> (u_n_pos u0 < 3)%nat ->
  slots_found k1 false m [strm] si ->
  exists k2 idxs, Kv.apply_ubatch k1 si (restored_ubatch u0) = Ret k2
    /\ si_strm si = [strm] /\ si_idxs si = [idxs] /\ filled k1 k2 idxs.
Proof.
  intros Hok Hsh Hn Hu Hq Hpos Hfound.
  destruct (restored_fits k1 u0 Hok Hsh Hn Hu Hq Hpos) as [Hfit Htok].
  assert (Hpl : placeable k1 (restored_ubatch u0) m si).
  { eapply slots_placeable; [done|done|apply NoDup_singleton|done|exact Hfound]. }
  assert (Hfull1 : kv_swa_type k1 = LLAMA_SWA_TYPE_NONE) by (rewrite <- Hfull; apply Hsh).
  pose proof (found_vacant k1 false m [strm] si Hfull1 Hfound) as Hvac.
  pose proof Hfound as (Hstrms & Hslots & _). apply Forall2_cons_inv_l in Hslots as (idxs & l & Hslot & Hnil & Hidxs).
  apply Forall2_nil_inv_l in Hnil as ->. destruct Hslot as (Hlen & Hnd & (c1 & Hc1 & Hcells) & _).
  destruct (apply_ubatch_ok n' k1 (restored_ubatch u0) m si Hok Hpl) as (k2 & E & _).
  destruct (vacant_view n' k1 (restored_ubatch u0) m si k2 Hok Hpl Hvac E) as (Hk2 & Hsh2 & Hat).
  exists k2, idxs. split_and!; [done|done|done|]. split_and!; [done|done|done|by eapply same_shape_trans| |].
  - intros i Hi. split.
    + rewrite Forall_forall in Hcells. destruct (Hcells i Hi) as (x & Hx & _).
      destruct (stream_sound n' k1 strm c1 Hok Hc1) as (_ & Hsz & _). apply lookup_lt_Some in Hx.
      unfold Cells.size in Hsz. lia.
    + intros t p Ht. apply list_elem_of_lookup_1 in Hi as [j Hj].
      apply (vacant_unused n' k1 si (0%nat, j) strm i); [done|done| |done].
      unfold target. rewrite Hstrms, Hidxs. cbn. by rewrite Hj.
  - intros t i p. by rewrite Hat, (restored_placed si idxs u0 t i p Hstrms Hidxs Hlen).
Qed.

(** The assertions on the restored cells hold. *)
Lemma restored_checks k1 k2 idxs c2 (u0 : ubatch) : filled k1 k2 idxs -> kv_cells k2 !! strm = Some c2 ->
  foldM (fun _ i =>
      idx ← at_ idxs i;
      p ← Cells.pos_get c2 idx;
      pu ← at_ (u_pos (restored_ubatch u0)) i;
      c_assert (p =? pu) "cells.pos_get(idx) == ubatch.pos[i]";;
      has ← Cells.seq_has c2 idx d;
      c_assert has "cells.seq_has(idx, dest_seq_id)") () (seq 0 m) = Ret ().
Proof.
  intros (Hnd & Hlen & Hok & Hsh & _ & Hat) Hc2. destruct (stream_sound n' k2 strm c2 Hok Hc2) as (Hcok & _ & _).
  assert (Hh : home k2 d = Some strm).
  { unfold home in *. by replace (kv_seq_to_stream k2) with (kv_seq_to_stream (st_cache st')) by (symmetry; apply Hsh). }
  assert (Hr : 0 <= d < MAX_SEQ) by (apply (seq_known_range n' (st_cache st')); [apply Hst'|done]).
  assert (H : forall l, (forall i, i ∈ l -> (i < m)%nat) -> foldM (fun _ i =>
      idx ← at_ idxs i;
      p ← Cells.pos_get c2 idx;
      pu ← at_ (u_pos (restored_ubatch u0)) i;
      c_assert (p =? pu) "cells.pos_get(idx) == ubatch.pos[i]";;
      has ← Cells.seq_has c2 idx d;
      c_assert has "cells.seq_has(idx, dest_seq_id)") () l = Ret ()).
  { induction l as [|j l IH]; intros Hl; [done|]. cbn [foldM]. assert (Hj : (j < m)%nat) by (apply Hl; set_solver).
    assert (Hxl : length xs = m) by (unfold xs; by rewrite length_map).
    destruct (lookup_lt_is_Some_2 idxs j) as [i Hi]; [lia|]. destruct (lookup_lt_is_Some_2 xs j) as [x Hx]; [lia|].
    assert (Hp : at_pos k2 d i (cell_pos x)) by (apply Hat; left; split; [done|]; by exists j, x).
    pose proof (proj1 (at_pos_cell_home n' k2 d i _ strm Hok Hh) Hp) as (y & Hy & Hyd & Hyp).
    apply cell_at_Some in Hy as (c2' & Hc2' & Hy). assert (c2' = c2) as -> by congruence.
    pose proof xs_ok as Hall. rewrite Forall_forall in Hall.
    destruct (Hall x ltac:(by eapply list_elem_of_lookup_2)) as [Hx0 _].
    rewrite (proj2 (at_Ret _ _ _) Hi). cbn [mbind outcome_bind keeping within map_throw]. unfold Cells.pos_get.
    rewrite (used_cell_Ret c2 i y Hy) by lia. cbn [mbind outcome_bind keeping within map_throw].
    assert (Hu : u_pos (restored_ubatch u0) !! j = Some (cell_pos x)).
    { unfold restored_ubatch, with_tokens. simpl. by rewrite list_lookup_fmap, Hx. }
    rewrite (proj2 (at_Ret _ _ _) Hu). cbn [mbind outcome_bind keeping within map_throw]. rewrite Hyp, Z.eqb_refl. cbn [c_assert mbind outcome_bind keeping within map_throw].
    rewrite (seq_has_ok c2 Hcok i y d Hy Hr). cbn [mbind outcome_bind keeping within map_throw]. rewrite bool_decide_eq_true_2 by done.
    cbn [c_assert mbind outcome_bind keeping within map_throw]. apply IH. intros k Hk. apply Hl. set_solver. }
  apply H. intros i Hi%elem_of_seq. lia.
Qed.

Lemma read_meta_sequence k1 rest : Kv.seq_rm (st_cache st') d (-1) (-1) = Ret k1 -> kv_ok n' k1 ->
  same_shape (st_cache st') k1 ->
  (exists si idxs k2, State.state_read_meta st' strm m d (seq_text ++ rest) = Ret (Some si, set_cache st' k2, rest)
     /\ si_idxs si = [idxs] /\ filled k1 k2 idxs)
  \/ (State.state_read_meta st' strm m d (seq_text ++ rest) = Ret (None, set_cache st' k1, rest)
     /\ ~ has_room k1 false strm m).
Proof.
  intros Erm Hok Hsh. assert (Hd0 : 0 <= d).
  { pose proof (seq_known_range n' (st_cache st') d (so_cache _ _ Hst') Hd). lia. }
  unfold State.state_read_meta. rewrite (proj2 (Z.eqb_neq d (-1))) by lia. cbn [negb].
  unfold State.read_meta_seq. rewrite Erm. cbn [mbind outcome_bind keeping within map_throw].
  destruct (reserved_ok (kv_n_pos_per_embd k1) m d) as (u & a & u0 & -> & H1 & H2 & H3 & H4 & H5 & H6 & H7 & H8).
  cbn [mbind outcome_bind keeping within map_throw]. rewrite H1. cbn [mbind outcome_bind keeping within map_throw].
  assert (Hxl : length xs = m) by (unfold xs; by rewrite length_map).
  assert (Hnpe1 : (u_n_pos u0 < 3)%nat).
  { rewrite H3. destruct Hsh as (_ & _ & _ & _ & _ & -> & _). done. }
  assert (Eread : State.read_seq_cells d (seq 0 m) u0 (seq_text ++ rest) = Ret (Some (restored_ubatch u0), rest)).
  { pose proof s_range as Hr. pose proof (so_seqs _ _ Hst) as Hmax. rewrite seq_text_xs, <- Hxl.
    rewrite (read_seq_cells_ok s d (kv_n_seq_max (st_cache st)) xs) by (done || apply xs_ok || (simpl; lia)).
    unfold restored_ubatch. by rewrite Hxl. }
  rewrite Eread. cbn [mbind outcome_bind keeping within map_throw].
  destruct (restored_fits k1 u0 Hok Hsh H2 H4 H5 Hnpe1) as [Hfit _].
  assert (Hswa1 : swa_ok (kv_n_swa k1) (kv_swa_type k1)).
  { destruct Hsh as (_ & _ & _ & -> & -> & _). done. }
  destruct (find_slot_ok n' k1 (restored_ubatch u0) false m [strm] Hok Hswa1 Hfit) as (r & -> & Hres).
  cbn [mbind outcome_bind keeping within map_throw]. destruct r as [si|].
  - left. destruct (fill_restored k1 u0 si Hok Hsh H2 H4 H5 Hnpe1 Hres) as (k2 & idxs & -> & Hstrms & Hidxs & Hfilled).
    cbn [mbind outcome_bind keeping within map_throw]. rewrite Hstrms, Hidxs. cbn [length Nat.eqb c_assert mbind outcome_bind at_ lookup list_lookup].
    rewrite (proj1 (proj2 Hfilled)), Nat.eqb_refl. cbn [c_assert mbind outcome_bind keeping within map_throw].
    pose proof Hfilled as (_ & _ & Hok2 & Hsh2 & _).
    assert (Hlt : (strm < length (kv_cells k2))%nat).
    { rewrite (ok_cells n' k2 Hok2). destruct Hsh2 as (_ & -> & _). eapply (ok_map n' _ (so_cache _ _ Hst')). exact Hstrm. }
    destruct (lookup_lt_is_Some_2 _ _ Hlt) as [c2 Hc2]. rewrite (proj2 (at_Ret _ _ _) Hc2). cbn [mbind outcome_bind keeping within map_throw].
    rewrite (restored_checks k1 k2 idxs c2 u0 Hfilled Hc2). cbn [mbind outcome_bind keeping within map_throw].
    by exists si, idxs, k2.
  - right. destruct Hres as (st0 & ->%list_elem_of_singleton & Hno). by split.
Qed.

(** ** The other streams *)

Lemma other_stream_empty t c1 : kv_cells (st_cache st) !! t = Some c1 -> t <> src -> saved_cells c1 s = [].
Proof.
  clear Hm. intros Hc1 Ht. destruct (saved_cells c1 s) as [|i l] eqn:E; [done|]. exfalso.
  assert (Hi : i ∈ saved_cells c1 s) by (rewrite E; left). apply elem_of_saved in Hi as (x & Hx & _ & Hin).
  pose proof s_range. destruct Hin as [->|Hin]; [lia|].
  pose proof (cell_at_sound n _ t i x (so_cache _ _ Hst) (proj2 (cell_at_Some _ _ _ _) (ex_intro _ c1 (conj Hc1 Hx))))
    as [_ [_ Hh]]. specialize (Hh s Hin). congruence.
Qed.

Definition stream_text (t : nat) : list Z :=
  if decide (t = src) then
    stream_bytes c s (kv_n_seq_max (st_cache st)) (st_v_trans st) src n (st_layers st)
  else Io.le_bytes 4 0.

Lemma state_write_seq : State.state_write st s = Ret (Io.le_bytes 4 (Z.of_nat (kv_n_stream (st_cache st)))
  ++ flat_map stream_text (seq 0 (kv_n_stream (st_cache st)))).
Proof.
  clear Hm. unfold State.state_write. apply foldM_append. intros t out Ht%elem_of_seq. unfold stream_text.
  pose proof s_range as Hr. case_decide as Hts.
  - subst t. destruct src_cells as [Hcok Hsz].
    apply write_stream_ok; [exact Hcok|by right|apply (so_seqs _ _ Hst)|exact Hc|exact Hsz|done|].
    eapply stores_written; eassumption.
  - destruct (lookup_lt_is_Some_2 (kv_cells (st_cache st)) t) as [c1 Hc1].
    { rewrite (ok_cells n _ (so_cache _ _ Hst)). lia. }
    destruct (stream_sound n _ t c1 (so_cache _ _ Hst) Hc1) as (Hcok & _ & _).
    unfold State.write_stream. rewrite (proj2 (at_Ret _ _ _) Hc1). cbn [mbind outcome_bind keeping within map_throw].
    destruct (cell_ranges_ok c1 s Hcok (or_intror Hr)) as (ranges & -> & _). cbn [mbind outcome_bind keeping within map_throw].
    by rewrite (other_stream_empty t c1 Hc1 Hts).
Qed.

(** A stream without saved cells is passed over. *)
Lemma read_zeros sx q l l2 rest : (forall t, t ∈ l -> stream_text t = Io.le_bytes 4 0) ->
  State.read_streams sx q (l ++ l2) (flat_map stream_text l ++ rest) = State.read_streams sx q l2 rest.
Proof.
  clear Hm. induction l as [|t l IH]; intros Hl; [done|]. cbn [app State.read_streams flat_map].
  rewrite Hl by set_solver. rewrite <- app_assoc. unfold State.read_stream.
  rewrite read_u32_ok by lia. cbn [mbind outcome_bind keeping within map_throw Z.eqb]. apply IH. intros t' Ht'. apply Hl. set_solver.
Qed.

(** What reading the stream of [s] makes of the store. *)
Definition stream_restored (ok : bool) (st'' : kv_store) : Prop :=
  exists k1, Kv.seq_rm (st_cache st') d (-1) (-1) = Ret k1 /\
  if ok then exists idxs, filled k1 (st_cache st'') idxs
    /\ Forall3 (restored_layer (st_v_trans st) src n used strm n' idxs) (st_layers st) (st_layers st') (st_layers st'')
  else ~ has_room k1 false strm m /\ kv_ok n' (st_cache st'') /\ same_shape (st_cache st') (st_cache st'')
    /\ st_layers st'' = st_layers st'
    /\ forall t i p, at_pos (st_cache st'') t i p <-> t <> d /\ at_pos (st_cache st') t i p.

Lemma read_stream_seq rest : exists ok st'' rest',
  State.read_stream st' d src (stream_text src ++ rest) = Ret (ok, st'', rest')
  /\ (ok = true -> rest' = rest) /\ stream_restored ok st''.
Proof.
  unfold stream_text. rewrite decide_True by done. unfold State.read_stream, stream_bytes. fold used m.
  rewrite (proj2 (Nat.eqb_neq m 0)) by lia. rewrite <- !app_assoc. destruct src_cells as [_ Hsz].
  assert (Hmn : (m <= n)%nat).
  { unfold m, used, saved_cells. etransitivity; [apply List.filter_length_le|]. by rewrite length_seq, Hsz. }
  pose proof (so_cells _ _ Hst) as Hn32. rewrite read_u32_ok by lia. cbn [mbind outcome_bind keeping within map_throw].
  rewrite (proj2 (Z.eqb_neq (Z.of_nat m) 0)) by lia. rewrite Nat2Z.id.
  pose proof (seq_known_range n' (st_cache st') d (so_cache _ _ Hst') Hd) as Hd0.
  rewrite (proj2 (Z.eqb_neq d (-1))) by lia. unfold home in Hstrm.
  rewrite (at_z_Ret _ d strm (proj1 Hd0) Hstrm). cbn [mbind outcome_bind keeping within map_throw]. fold seq_text.
  destruct without_d as (k1 & Erm & Hok1 & Hsh1 & Hat1).
  destruct (read_meta_sequence k1 (data_bytes (st_v_trans st) src n used (st_layers st) ++ rest) Erm Hok1 Hsh1)
    as [(si & idxs & k2 & -> & Hidxs & Hfilled)|[-> Hno]]; cbn [mbind outcome_bind keeping within map_throw].
  - pose proof Hfilled as (Hnd & Hlen & Hok2 & Hsh2 & Hin & _).
    assert (Hlt : (strm < length (kv_cells k2))%nat).
    { rewrite (ok_cells n' k2 Hok2). destruct Hsh2 as (_ & -> & _). eapply (ok_map n' _ (so_cache _ _ Hst')). exact Hstrm. }
    destruct (lookup_lt_is_Some_2 _ _ Hlt) as [c2 Hc2]. destruct (stream_sound n' k2 strm c2 Hok2 Hc2) as (_ & Hsz2 & _).
    assert (Hm' : (length used <= n')%nat).
    { change (m <= n')%nat. rewrite <- Hlen, <- (length_seq n' 0). apply submseteq_length, NoDup_submseteq; [done|].
      intros i Hi. apply elem_of_seq. destruct (Hin i Hi). lia. }
    destruct (state_read_data_ok (st_v_trans st) src n used strm n' idxs si)
      with (st := set_cache st' k2) (ls := st_layers st) (c := c2) (rest := rest) as (ls'' & E & Hall).
    + intros i Hi%saved_lt. by rewrite <- Hsz.
    + done.
    + done.
    + done.
    + done.
    + intros i Hi. by apply Hin.
    + apply Hmatch.
    + done.
    + done.
    + done.
    + apply (so_num _ _ Hst).
    + exact (stores_compatible n n' src strm st st' Hst Hst' Hmatch).
    + change (length used) with m in E. rewrite E. cbn [mbind outcome_bind keeping within map_throw]. eexists true, _, rest. split; [reflexivity|]. split; [done|].
      exists k1. split; [done|]. exists idxs. by split.
  - eexists false.
    destruct (seq_rm_one n' k1 d (-1) (-1) Hok1) as (k3 & E3 & Hok3 & Hsh3 & Hat3).
    { unfold Kv.seq_known in *. destruct Hsh1 as (_ & _ & _ & _ & _ & _ & ->). done. }
    cbn [st_cache set_cache]. rewrite E3. cbn [mbind outcome_bind keeping within map_throw]. eexists _, _. split; [reflexivity|]. split; [done|].
    exists k1. split; [done|]. cbn [st_cache set_cache st_layers]. split_and!; [done|done|by eapply same_shape_trans|done|].
    intros t i p. rewrite Hat3, Hat1. naive_solver.
Qed.

Lemma state_read_seq rest : exists ok st'' rest',
  State.state_read st' d (Io.le_bytes 4 (Z.of_nat (kv_n_stream (st_cache st)))
      ++ flat_map stream_text (seq 0 (kv_n_stream (st_cache st))) ++ rest) = Ret (ok, st'', rest')
  /\ (ok = true -> rest' = rest) /\ stream_restored ok st''.
Proof.
  destruct Hmatch as (_ & Hns & _). unfold State.state_read. rewrite Hd, orb_true_r. cbn [c_assert mbind outcome_bind keeping within map_throw].
  rewrite read_u32_ok by (pose proof (so_streams _ _ Hst); lia). cbn [mbind outcome_bind keeping within map_throw].
  rewrite Hns, Z.eqb_refl. cbn [negb].
  assert (Hlt : (src < kv_n_stream (st_cache st))%nat) by (eapply (ok_map n _ (so_cache _ _ Hst)); exact Hsrc).
  assert (Hseq : seq 0 (kv_n_stream (st_cache st))
    = seq 0 src ++ src :: seq (S src) (kv_n_stream (st_cache st) - S src)).
  { replace (kv_n_stream (st_cache st)) with (src + S (kv_n_stream (st_cache st) - S src))%nat at 1 by lia.
    by rewrite seq_app. }
  rewrite Hseq, flat_map_app, <- app_assoc. rewrite read_zeros by (intros t Ht%elem_of_seq; apply decide_False; lia).
  cbn [flat_map State.read_streams]. rewrite <- app_assoc.
  destruct (read_stream_seq (flat_map stream_text (seq (S src) (kv_n_stream (st_cache st) - S src)) ++ rest))
    as (ok & st'' & rest' & -> & Hrest & Hres). cbn [mbind outcome_bind keeping within map_throw]. destruct ok.
  - rewrite Hrest by done. pose proof (read_zeros st'' d (seq (S src) (kv_n_stream (st_cache st) - S src)) [] rest) as Hz.
    rewrite app_nil_r in Hz. rewrite Hz by (intros t Ht%elem_of_seq; apply decide_False; lia). by exists true, st'', rest.
  - by exists false, st'', rest'.
Qed.

(** Nothing is read from the state of a sequence without tokens. *)
Lemma state_read_seq_none rest : m = 0%nat ->
  State.state_read st' d (Io.le_bytes 4 (Z.of_nat (kv_n_stream (st_cache st)))
      ++ flat_map stream_text (seq 0 (kv_n_stream (st_cache st))) ++ rest) = Ret (true, st', rest).
Proof.
  clear Hm. intros H0. destruct Hmatch as (_ & Hns & _). unfold State.state_read. rewrite Hd, orb_true_r.
  cbn [c_assert mbind outcome_bind keeping within map_throw].
  rewrite read_u32_ok by (pose proof (so_streams _ _ Hst); lia). cbn [mbind outcome_bind keeping within map_throw].
  rewrite Hns, Z.eqb_refl. cbn [negb].
  pose proof (read_zeros st' d (seq 0 (kv_n_stream (st_cache st))) [] rest) as Hz. rewrite app_nil_r in Hz. apply Hz.
  intros t _. unfold stream_text, stream_bytes. case_decide; [|done]. fold used m. by rewrite H0.
Qed.

End Sequence.


(** * Saved states at work, and what the format and the code leave out. *)

(** ** Checks on concrete caches *)

Lemma all_positions k (P : Z -> Z -> bool) :
  forallb (fun c => forallb (fun x => forallb (fun s => P s (cell_pos x)) (elements (cell_seq x))) (kc_cells c)) (kv_cells k)
    = true ->
  forall s i p, at_pos k s i p -> P s p = true.
Proof.
  intros H s i p (st & c & x & Hc & Hx & Hs & <-). rewrite forallb_forall in H.
  specialize (H c (proj1 (list_elem_of_In _ _) (list_elem_of_lookup_2 _ _ _ Hc))). rewrite forallb_forall in H.
  specialize (H x (proj1 (list_elem_of_In _ _) (list_elem_of_lookup_2 _ _ _ Hx))). rewrite forallb_forall in H.
  by apply H, list_elem_of_In, elem_of_elements.
Qed.

(** One layer for a cache of eight cells and one stream: keys of two bytes, and
    two values of one byte in a transposed tensor. *)
Definition ex_layer (k v : list Z) : kv_layer := mk_layer 1 2 [k] 1 2 1 2 [Some v].

Lemma ex_layer_ok k v : length k = 16%nat -> length v = 16%nat -> layer_ok true 8 (ex_layer k v).
Proof.
  intros Hk Hv. constructor; simpl; try lia.
  - intros [|s] t H; [by injection H as <-|done].
  - intros [|s] t H; [by injection H as <-|done].
Qed.

Definition ex_saved : kv_store := mk_store ex_k1 true [ex_layer (map Z.of_nat (seq 1 16)) (map Z.of_nat (seq 101 16))].
Definition ex_blank : kv_store := mk_store ex_k0 true [ex_layer (replicate 16 0) (replicate 16 0)].

Lemma ex_saved_ok : store_ok 8 ex_saved.
Proof.
  constructor; simpl; try (unfold MAX_SEQ; lia); [apply ex_k1_ok|by repeat constructor; apply ex_layer_ok|].
  intros s i p H. apply Z.ltb_lt. revert s i p H. apply (all_positions ex_k1 (fun _ p => p <? INT32_MAX)).
  vm_compute. reflexivity.
Qed.

Lemma ex_blank_ok : store_ok 8 ex_blank.
Proof.
  constructor; simpl; try (unfold MAX_SEQ; lia); [apply ex_k0_ok|by repeat constructor; apply ex_layer_ok|].
  intros s i p H. apply Z.ltb_lt. revert s i p H. apply (all_positions ex_k0 (fun _ p => p <? INT32_MAX)).
  vm_compute. reflexivity.
Qed.

Lemma ex_match st' : st_v_trans st' = true -> kv_n_stream (st_cache st') = 1%nat ->
  (exists k v, st_layers st' = [ex_layer k v]) -> stores_match 0 ex_saved 0 st'.
Proof.
  intros H1 H2 (k & v & H3). split_and!; [done|done|]. rewrite H3. constructor; [|constructor].
  split_and!; try done. by eexists _, _.
Qed.

Definition ex_cells : llama_kv_cells := Eval vm_compute in default (Cells.resized 0) (kv_cells ex_k1 !! 0%nat).



(** ** What is not restored *)

(** Two streams, one token of each sequence: restoring the whole cache clears all
    streams once for each stream, so that only the last one survives. *)
Definition ex_two : kv_store :=
  Eval vm_compute in mk_store (get no_cache
    (k ← Kv.make false 4 2 4 0 LLAMA_SWA_TYPE_NONE 1;
     k ← Kv.apply_ubatch k (mk_slot 0 0 [0%nat] [[0%nat]]) (ex_single 0 5);
     Kv.apply_ubatch k (mk_slot 1 1 [1%nat] [[0%nat]]) (ex_single 1 6))) false [].

Example whole_restore_forgets_streams :
  (Kv.seq_pos_max (st_cache ex_two) 0 = Ret 5 /\ Kv.seq_pos_max (st_cache ex_two) 1 = Ret 6)
  /\ (out ← State.state_write ex_two (-1); '(ok, st, rest) ← map_throw fst (State.state_read ex_two (-1) out);
      p0 ← Kv.seq_pos_max (st_cache st) 0; p1 ← Kv.seq_pos_max (st_cache st) 1; Ret (ok, p0, p1, rest))
     = Ret (true, -1, 6, []).
Proof. split_and!; vm_compute; reflexivity. Qed.

(** With two-dimensional positions the restored ubatch has one position for each
    token, but placing it reads three. *)
Definition ex_mrope : kv_store :=
  Eval vm_compute in mk_store (get no_cache
    (k ← Kv.make true 4 2 4 0 LLAMA_SWA_TYPE_NONE 4;
     Kv.apply_ubatch k (mk_slot 0 0 [0%nat] [[0%nat]])
       (mk_ubatch true 1 1 1 1 4 (Some [5]) None [7; 1; 2; 0] [1] [[0]] [0] [] [1]))) false [].

Example restore_reads_out_of_bounds :
  (out ← State.state_write ex_mrope 0; map_throw fst (State.state_read ex_mrope 1 out)) = Undef.
Proof. vm_compute. reflexivity. Qed.

(** The offset of a row of a transposed V of two million cells wraps around: the
    first element of row 1024 of 16-bit values is read at offset 0. *)
Example v_offset_wraps : State.v_src_offset 0 1024 (2 ^ 21) 2 = 0 /\ (0 + 1024 * 2 ^ 21) * 2 = 2 ^ 32.
Proof. split; vm_compute; reflexivity. Qed.

(** The state of a sequence without tokens restores nothing: the old tokens of
    the destination stay. *)
Example empty_state_keeps_tokens :
  (out ← State.state_write ex_saved 2; '(ok, st, rest) ← map_throw fst (State.state_read ex_saved 0 out);
   p ← Kv.seq_pos_max (st_cache st) 0; Ret (ok, p, rest)) = Ret (true, 2, []).
Proof. vm_compute. reflexivity. Qed.

(** Reading a state that lacks its last byte throws, and is not taken back: an
    empty cache then holds all the saved tokens, but not the last row of V. *)
Example short_state_stays :
  match State.state_write ex_saved (-1) with
  | Ret out =>
      match State.state_read ex_blank (-1) (take (length out - 1) out) with
      | Throw (e, st) => Some (e, Kv.seq_pos_max (st_cache st) 0, map ly_k (st_layers st), map ly_v (st_layers st))
      | _ => None
      end
  | _ => None
  end = Some ("unexpectedly reached end of buffer"%string, Ret 2,
    [[[1; 2; 3; 4; 5; 6; 0; 0; 0; 0; 0; 0; 0; 0; 0; 0]]],
    [[Some [101; 102; 103; 0; 0; 0; 0; 0; 0; 0; 0; 0; 0; 0; 0; 0]]]).
Proof. vm_compute. reflexivity. Qed.
