(* ===== verification/KvBatch.v ===== *)
(** * From an accepted batch to the cells of the cache.

    The batch allocator, the KV cache and its context together: the ubatches of
    an accepted batch can be placed, a batch is refused only for want of cells,
    and afterwards the cache holds the old tokens and those of the batch. *)

From S2P Require Import Prelude Batch BatchFacts BatchTheorems BatchInit KvCells KvCellsFacts KvCache KvCacheFacts KvCopy KvSlot.
From S2P Require Import KvPlace KvPrepare KvInputs KvContext KvTheorems.
From Stdlib Require Import Lia.

(** ** Lists *)

(** Taking [idxs] out of the elements that satisfy [f]. *)
Lemma filter_without (f g : nat -> bool) (idxs l : list nat) : NoDup l -> NoDup idxs ->
  (forall i, i ∈ idxs -> i ∈ l /\ f i = true) ->
  (forall i, i ∈ l -> g i = f i && negb (bool_decide (i ∈ idxs))) ->
  (length (List.filter g l) + length idxs = length (List.filter f l))%nat.
Proof.
  intros Hl Hi Hin Hg. rewrite <- length_app. apply Permutation_length. apply NoDup_Permutation.
  - apply NoDup_app. split_and!; [by apply KvSlot.NoDup_filter| |done]. intros i (H1 & H2)%list_elem_of_In%List.filter_In H.
    apply list_elem_of_In in H1. rewrite Hg, bool_decide_eq_true_2, andb_false_r in H2 by done. done.
  - by apply KvSlot.NoDup_filter.
  - intros i. rewrite elem_of_app, !list_elem_of_In, !List.filter_In, <- !list_elem_of_In. split.
    + intros [[H1 H2]|H]; [|destruct (Hin i H); done]. rewrite Hg in H2 by done. by apply andb_true_iff in H2 as [? _].
    + intros [H1 H2]. destruct (decide (i ∈ idxs)) as [H|H]; [by right|left]. split; [done|].
      by rewrite Hg, H2, bool_decide_eq_false_2.
Qed.

Section Compose.
Context {E : Type}.
Notation llama_ubatch := (@llama_ubatch E).
Implicit Types (a : @llama_batch_allocr E).

(** ** Ubatches of an accepted batch *)

(** A batch of one position per token whose tokens can be placed. *)
Record batch_ok a : Prop := {
  bt_alloc : alloc_ok a;
  bt_npos : n_pos_per_embd a = 1%nat;
  bt_token i : (i < n_tokens (batch a))%nat -> exists ids, token_seqs (batch a) i ids /\ ids <> []
    /\ n_seq_id (batch a) !! i = Some (Z.of_nat (length ids))
    /\ forall s, s ∈ ids -> 0 <= s < Z.of_nat (Batch.n_seq_max a);
  bt_nodup i ids : token_seqs (batch a) i ids -> NoDup ids;
  bt_pos i p : pos (batch a) !! i = Some p -> 0 <= p;
}.

(** A cache with one stream for all sequences. *)
Definition unified (k : llama_kv_cache) : Prop :=
  kv_n_stream k = 1%nat /\ length (kv_seq_to_stream k) = LLAMA_MAX_SEQ.

Lemma unified_home n k s : kv_ok n k -> unified k -> 0 <= s < Z.of_nat LLAMA_MAX_SEQ ->
  Kv.seq_known k s = true /\ home k s = Some 0%nat.
Proof.
  intros Hok [H1 H2] Hs. split.
  - unfold Kv.seq_known. rewrite H2. rewrite (proj2 (Z.leb_le 0 s)), (proj2 (Z.ltb_lt s _)) by lia. done.
  - unfold home. destruct (lookup_lt_is_Some_2 (kv_seq_to_stream k) (Z.to_nat s)) as [st Hst]; [lia|].
    pose proof (ok_map n k Hok _ _ Hst). rewrite Hst. f_equal. lia.
Qed.

Section Ubatch.
Context (a : @llama_batch_allocr E) (idxs : list nat) (n_seqs : nat) (u : llama_ubatch).
Hypotheses (Ha : batch_ok a) (Hu : describes a idxs n_seqs u) (Hin : forall i, i ∈ idxs -> (i < n_tokens (batch a))%nat).

(** The token [t] of the ubatch is the token [i] of the batch. *)
Lemma described_token t i : idxs !! t = Some i -> exists ids p, token_seqs (batch a) i ids /\ pos (batch a) !! i = Some p
  /\ u_seq_id u !! t = Some ids /\ u_n_seq_id u !! t = Some (Z.of_nat (length ids)) /\ u_pos u !! t = Some p.
Proof.
  intros Ht. pose proof (Hin i ltac:(by eapply list_elem_of_lookup_2)) as Hi.
  destruct (bt_token a Ha i Hi) as (ids & Hids & _ & Hn & _).
  destruct (Forall2_lookup_l _ _ _ _ _ (ds_seq_id _ _ _ _ Hu) Ht) as (ids' & Hids' & Hs).
  unfold token_seqs in Hids. assert (ids' = ids) as -> by congruence.
  assert (Hpos : forall j, (j < n_tokens (batch a))%nat -> (j < length (pos (batch a)))%nat).
  { intros j Hj. pose proof (rd_pos _ _ _ _ (ok_read _ (bt_alloc a Ha) j Hj) 0) as H. rewrite (bt_npos a Ha) in H.
    specialize (H ltac:(lia)). destruct (token (batch a)); lia. }
  destruct (lookup_lt_is_Some_2 (pos (batch a)) i (Hpos i Hi)) as [p Hp]. exists ids, p. split_and!; try done.
  - rewrite (ds_n_seq_id _ _ _ _ Hu). rewrite (pick_lookup _ _ _ i); [done| |done].
    intros j Hj. destruct (bt_token a Ha j (Hin j Hj)) as (? & _ & _ & Hnj & _). by eapply lookup_lt_Some.
  - rewrite (ds_pos _ _ _ _ Hu), (bt_npos a Ha). cbn [seq map concat Nat.mul]. rewrite app_nil_r.
    replace (drop (if token (batch a) then 0 else 0)%nat (pos (batch a))) with (pos (batch a)) by by destruct (token (batch a)).
    rewrite (pick_lookup _ _ _ i); [done| |done]. intros j Hj. by apply Hpos, Hin.
Qed.

(** The ubatch can be placed in a unified cache. *)
Lemma described_ready n k : kv_ok n k -> unified k -> idxs <> [] ->
  ubatch_fits k u (length idxs) [0%nat] /\ (forall t, (t < length idxs)%nat -> token_ok k u 0 t).
Proof.
  intros Hok Huni Hne. pose proof (ok_max _ (bt_alloc a Ha)) as Hmax.
  assert (Hid : forall i ids s, i ∈ idxs -> token_seqs (batch a) i ids -> s ∈ ids ->
    0 <= s < Z.of_nat (Batch.n_seq_max a) /\ Kv.seq_known k s = true /\ home k s = Some 0%nat).
  { intros i ids s Hi Hids Hs. destruct (bt_token a Ha i (Hin i Hi)) as (ids' & Hids' & _ & _ & Hr).
    unfold token_seqs in *. assert (ids' = ids) as -> by congruence. specialize (Hr s Hs).
    split; [done|]. apply (unified_home n); [done|done|lia]. }
  split.
  - assert (Hl : (0 < length idxs)%nat) by (destruct idxs; [done|simpl; lia]).
    destruct (lookup_lt_is_Some_2 idxs 0 Hl) as [i Hi]. pose proof (list_elem_of_lookup_2 _ _ _ Hi) as Hii. constructor.
    + rewrite (ds_n _ _ _ _ Hu). simpl. lia.
    + done.
    + simpl. lia.
    + done.
    + destruct Huni. lia.
    + intros s st Hst. apply list_lookup_singleton_Some in Hst as [-> <-].
      destruct (described_token 0 i Hi) as (ids & p & Hids & _ & Hs0 & _).
      destruct (bt_token a Ha i (Hin i Hii)) as (ids' & Hids' & Hne' & _).
      unfold token_seqs in *. assert (ids' = ids) as -> by congruence. destruct ids as [|s ids]; [done|].
      destruct (Hid i (s :: ids) s) as ((Hs & Hs') & _); [done|done|left|].
      assert (Hsu : s ∈ u_seq_id_unq u).
      { rewrite (ds_unq _ _ _ _ Hu). apply list_elem_of_In, in_map_iff. exists (Z.to_nat s). split; [lia|].
        apply List.filter_In. split; [apply List.in_seq; lia|]. apply existsb_exists. exists (s :: ids).
        split; [by eapply list_elem_of_In, list_elem_of_lookup_2|]. rewrite bool_decide_eq_true_2; [done|].
        rewrite Z2Nat.id by lia. left. }
      destruct (u_seq_id_unq u) as [|id unq] eqn:Eq; [by apply elem_of_nil in Hsu|]. exists id.
      assert (Hq : id ∈ u_seq_id_unq u) by (rewrite Eq; left). rewrite (ds_unq _ _ _ _ Hu) in Hq.
      apply list_elem_of_In, in_map_iff in Hq as (j & <- & (Hj%List.in_seq & _)%List.filter_In).
      destruct (unified_home n k (Z.of_nat j) Hok Huni ltac:(lia)) as [H1 H2]. split_and!; [done|done|done|].
      destruct Huni. lia.
  - intros t Ht. destruct (lookup_lt_is_Some_2 idxs t Ht) as [i Hi].
    assert (Hii : i ∈ idxs) by (by eapply list_elem_of_lookup_2).
    destruct (described_token t i Hi) as (ids & p & Hids & Hp & Hs & Hn & Hpu).
    destruct (bt_token a Ha i (Hin i Hii)) as (ids' & Hids' & Hne' & _).
    unfold token_seqs in *. assert (ids' = ids) as -> by congruence. constructor.
    + exists p. split; [done|]. by eapply (bt_pos a Ha).
    + exists ids. split_and!; try done. by eapply (bt_nodup a Ha). intros s Hin'. by apply (Hid i ids s).
    + rewrite (ds_n_pos _ _ _ _ Hu), (bt_npos a Ha). lia.
Qed.

End Ubatch.

(** ** What placing a ubatch changes *)

(** Some cell of the cache holds sequence [s] at position [p]. *)
Definition in_cache (k : llama_kv_cache) (s p : Z) : Prop := exists i, at_pos k s i p.

(** Some token of the ubatch is in sequence [s] at position [p]. *)
Definition in_ubatch (u : llama_ubatch) (s p : Z) : Prop :=
  exists t, (t < u_n_tokens u)%nat /\ s ∈ ids_of u t /\ pos_of u t = p.

Lemma in_cache_pos n k s p : kv_ok n k -> in_cache k s p -> 0 <= p.
Proof.
  intros Hok (i & st & c & x & Hc & Hx & Hin & <-). destruct (stream_sound n k st c Hok Hc) as (Hcok & _ & _).
  apply used_pos; [exact (cell_ok_at c i x Hcok Hx)|]. intros Hxp.
  destruct (blank_ext x (cell_ok_at c i x Hcok Hx) Hxp) as [He _]. rewrite He in Hin. set_solver.
Qed.

(** The empty cells of stream [st], of [n] cells. *)
Definition free_cells (n : nat) (k : llama_kv_cache) (st : nat) : list nat :=
  List.filter (fun i => match cell_at k st i with Some x => cell_pos x =? -1 | None => false end) (seq 0 n).

Lemma placed_tokens n k (u : llama_ubatch) m si s p : kv_ok n k -> placeable k u m si ->
  (exists i, placed u m si s i p) <-> in_ubatch u s p.
Proof.
  intros Hok Hpl. pose proof (pl_some _ _ _ _ Hpl) as Hm. pose proof (pl_tokens _ _ _ _ Hpl) as Hn. split.
  - intros (i & [j ii] & st & (Hj & Hi)%elem_of_pairs & _ & Hs & Hp). exists (token_index m (j, ii)).
    split; [|done]. unfold token_index. cbn [fst snd]. nia.
  - intros (t & Ht & Hs & Hp). assert (Hj : (t / m < length (si_strm si))%nat).
    { apply Nat.Div0.div_lt_upper_bound. lia. }
    assert (Hi : (t mod m < m)%nat) by (apply Nat.mod_upper_bound; lia).
    destruct (target_Some k u m si Hpl _ _ Hj Hi) as (st & l & i & x & _ & _ & _ & Htg & _).
    assert (Et : token_index m ((t / m)%nat, (t mod m)%nat) = t).
    { unfold token_index. cbn [fst snd]. rewrite (Nat.div_mod_eq t m) at 3. lia. }
    exists i, ((t / m)%nat, (t mod m)%nat), st. split; [by apply elem_of_pairs|]. split; [done|]. by rewrite Et.
Qed.

(** Without a sliding window the usable cells are the empty ones. *)
Lemma usable_free n k c : kv_ok n k -> kv_swa_type k = LLAMA_SWA_TYPE_NONE -> 0 <= kv_n_swa k ->
  kv_cells k !! 0%nat = Some c -> usable_cells k c = free_cells n k 0.
Proof.
  intros Hok Hswa Hn Hc. destruct (stream_sound n k 0 c Hok Hc) as (Hcok & Hsz & _).
  unfold usable_cells, free_cells. rewrite Hsz. apply List.filter_ext_in. intros i Hi%List.in_seq.
  destruct (lookup_lt_is_Some_2 (kc_cells c) i) as [x Hx]; [unfold Cells.size in Hsz; lia|].
  assert (Hcell : cell_at k 0 i = Some x) by (apply cell_at_Some; by exists c). rewrite Hcell.
  destruct (can_use_ok k c i x Hcok) as [_ Hu]; [rewrite Hswa; by split|done|].
  apply eq_true_iff_eq. rewrite Hu, Z.eqb_eq. split; [|by left].
  intros [H|(s & q & _ & _ & Ho)]; [done|]. by rewrite Hswa in Ho.
Qed.

(** A placed ubatch takes as many empty cells as it has tokens. *)
Lemma fill_free n k (u : llama_ubatch) m si k1 : kv_ok n k -> placeable k u m si -> vacant k si ->
  si_strm si = [0%nat] -> Kv.apply_ubatch k si u = Ret k1 ->
  (length (free_cells n k1 0) + u_n_tokens u = length (free_cells n k 0))%nat.
Proof.
  intros Hok Hpl Hvac Hst Eap. destruct (apply_vacant n k u m si Hok Hpl Hvac) as (heads & cells & E1 & _ & Hpg & _).
  assert (k1 = set_streams k heads cells) as -> by congruence.
  assert (Hst0 : si_strm si !! 0%nat = Some 0%nat) by by rewrite Hst.
  destruct (slot_lookup k u m si Hpl 0) as (st & l & H0 & Hl); [rewrite Hst; simpl; lia|].
  destruct (slot_stream n k u m si Hok Hpl Hvac 0 0 l Hst0 Hl) as (Hlen & Hnd & c & Hc & Hcok & Hempty).
  destruct (stream_sound n k 0 c Hok Hc) as (_ & Hsz & _).
  rewrite (pl_tokens _ _ _ _ Hpl), Hst. simpl length. rewrite Nat.mul_1_l, <- Hlen.
  assert (Htg : forall q i, target si q = Some (0%nat, i) -> i ∈ l).
  { intros [j ii] i Ht. unfold target in Ht. cbn [fst snd] in Ht. rewrite Hst in Ht. destruct j as [|j]; [|done].
    cbn [lookup list_lookup mbind option_bind] in Ht. rewrite Hl in Ht. cbn [mbind option_bind] in Ht.
    destruct (l !! ii) as [i'|] eqn:Hi; [|done]. injection Ht as ->. by eapply list_elem_of_lookup_2. }
  apply filter_without; [apply NoDup_seq|done| |].
  - intros i Hi. destruct (Hempty i Hi) as (x & Hx & Hp & _).
    assert (Hcell : cell_at k 0 i = Some x) by (apply cell_at_Some; by exists c). rewrite Hcell, Hp.
    split; [|done]. apply elem_of_seq. apply lookup_lt_Some in Hx. unfold Cells.size in Hsz. lia.
  - intros i _. change (cell_at (set_streams k heads cells) 0 i) with (cell_at (set_streams k (kv_heads k) cells) 0 i).
    destruct Hpg as [_ _ _ _ _ Hnew Hold _ _]. cbn [fst] in *. case_bool_decide as Hi.
    + rewrite andb_false_r. apply list_elem_of_lookup_1 in Hi as (ii & Hi). pose proof (lookup_lt_Some _ _ _ Hi).
      destruct (target_Some k u m si Hpl 0 ii) as (st' & l' & i' & x & H1 & H2 & H3 & Ht & Hx & _); [rewrite Hst; simpl; lia|lia|].
      assert (st' = 0%nat /\ i' = i) as [-> ->] by (split; congruence).
      rewrite (Hnew (0%nat, ii) 0%nat i x); [|apply elem_of_pairs; rewrite Hst; simpl; lia|done|done].
      destruct (pl_token _ _ _ _ Hpl 0 0 ii Hst0 ltac:(lia)) as [(p & Hp & Hp0) _ _].
      unfold new_cell, token_cell. cbn [cell_pos]. unfold token_index, pos_of. cbn [fst snd].
      rewrite (list_lookup_total_correct _ _ _ Hp). apply Z.eqb_neq. lia.
    + rewrite andb_true_r, Hold; [done|]. intros q _ Ht. by apply Hi, (Htg q).
Qed.

(** ** All ubatches of a batch *)

(** The ubatch can be placed in the one stream of the cache. *)
Definition fits_stream (k : llama_kv_cache) (u : llama_ubatch) : Prop := exists m,
  ubatch_fits k u m [0%nat] /\ forall t, (t < m)%nat -> token_ok k u 0 t.

Lemma fits_ready k u : fits_stream k u -> ready k u.
Proof.
  intros (m & Hfit & Htok). exists m, [0%nat]. split_and!; [done| |].
  - by intros j st [-> <-]%list_lookup_singleton_Some.
  - intros j st ii [-> <-]%list_lookup_singleton_Some Hii. by apply Htok.
Qed.

Lemma fits_shape k k' u : same_shape k k' -> fits_stream k u -> fits_stream k' u.
Proof.
  intros Hsh (m & [H1 H2 H3 H4 H5 H6] & Htok). exists m. split.
  - destruct Hsh as (_ & Hns & _ & _ & _ & _ & Hmap). constructor; rewrite ?Hns; try done.
    intros s st Hst. destruct (H6 s st Hst) as (id & ?). exists id. unfold Kv.seq_known, home in *. by rewrite Hmap.
  - intros t Ht. eapply token_ok_shape; [done|]. by apply Htok.
Qed.

Definition full_attention (k : llama_kv_cache) : Prop := kv_swa_type k = LLAMA_SWA_TYPE_NONE /\ 0 <= kv_n_swa k.

(** A slot for a ubatch is found exactly when there are enough empty cells. *)
Lemma find_free n k u : kv_ok n k -> full_attention k -> fits_stream k u ->
  exists r, Kv.find_slot k u false = Ret r /\ match r with
  | Some si => vacant k si /\ placeable k u (u_n_tokens u) si /\ si_strm si = [0%nat]
  | None => (length (free_cells n k 0) < u_n_tokens u)%nat
  end.
Proof.
  intros Hok [Hswa Hn] (m & Hfit & Htok). pose proof (fit_tokens _ _ _ _ Hfit) as Hm. simpl in Hm.
  rewrite Nat.add_0_r in Hm. subst m.
  destruct (find_slot_ok n k u false _ _ Hok ltac:(rewrite Hswa; by split) Hfit) as (r & Er & Hr).
  exists r. split; [done|]. destruct r as [si|].
  - split; [by eapply found_vacant|]. split; [|by destruct Hr].
    eapply (slots_placeable n); [done|done|apply NoDup_singleton| |done].
    intros j st ii [-> <-]%list_lookup_singleton_Some Hii. by apply Htok.
  - destruct Hr as (st & ->%list_elem_of_singleton & Hno).
    destruct (lookup_lt_is_Some_2 (kv_cells k) 0) as [c Hc]; [rewrite (ok_cells n k Hok); apply (ok_streams n k Hok)|].
    rewrite <- (usable_free n k c Hok Hswa Hn Hc). apply Nat.nle_gt. intros Hle. apply Hno. by exists c.
Qed.

(** The ubatches placed by a plan are added, and nothing is lost. *)
Lemma plan_adds n k sis us k' : plan n k sis us k' -> kv_ok n k' -> full_attention k -> Forall (fits_stream k) us ->
  same_shape k k' /\ (length (free_cells n k' 0) + sum_list_with u_n_tokens us = length (free_cells n k 0))%nat
  /\ forall s p, in_cache k' s p <-> in_cache k s p \/ exists u, u ∈ us /\ in_ubatch u s p.
Proof.
  induction 1 as [k|k si u m k1 sis us k2 Hok Hslot _ Happ Hplan IH]; intros Hk' Hfull Hus.
  { split; [apply same_shape_refl|]. split; [simpl; lia|]. set_solver. }
  apply Forall_cons in Hus as [Hu Hus]. destruct (find_free n k u Hok Hfull Hu) as (r & Er & Hr).
  assert (r = Some si) as -> by congruence. destruct Hr as (Hvac & Hpl & Hst).
  destruct (vacant_view n k u _ si k1 Hok Hpl Hvac Happ) as (Hok1 & Hsh & Hat).
  destruct IH as (Hsh2 & Hfree & Hin); [done| |eapply Forall_impl; [exact Hus|]; intros u'; by apply fits_shape|].
  { destruct Hfull. destruct Hsh as (_ & _ & _ & E1 & E2 & _). unfold full_attention. by rewrite E1, E2. }
  split; [by eapply same_shape_trans|]. split.
  - pose proof (fill_free n k u _ si k1 Hok Hpl Hvac Hst Happ). simpl. lia.
  - intros s p. rewrite Hin. pose proof (placed_tokens n k u _ si s p Hok Hpl) as Hpt.
    assert (Hc : in_cache k1 s p <-> in_ubatch u s p \/ in_cache k s p).
    { rewrite <- Hpt. unfold in_cache. setoid_rewrite Hat. naive_solver. }
    rewrite Hc. setoid_rewrite elem_of_cons. naive_solver.
Qed.

(** The ubatches can be placed exactly when there are enough empty cells. *)
Lemma prepared_free n k us b sis : kv_ok n k -> full_attention k -> Forall (fits_stream k) us ->
  prepared n k us b sis -> (b = true <-> (sum_list_with u_n_tokens us <= length (free_cells n k 0))%nat).
Proof.
  intros Hok Hfull Hus. destruct b; simpl.
  - intros (k' & Hplan & Hk'). destruct (plan_adds n k sis us k' Hplan Hk' Hfull Hus) as (_ & Hsum & _).
    split; [intros _; lia|done].
  - intros (us1 & u & us2 & k1 & -> & Hplan & Hnone). apply Forall_app in Hus as [Hus1 Hu].
    apply Forall_cons in Hu as [Hu _]. assert (Hok1 : kv_ok n k1).
    { clear - Hplan Hok. induction Hplan as [|k si u m k1 sis us k2 Hk _ Hpl Happ _ IH]; [done|]. apply IH.
      destruct (apply_ubatch_ok n k u m si Hk Hpl) as (k1' & E1 & H1 & _). by assert (k1' = k1) as <- by congruence. }
    destruct (plan_adds n k sis us1 k1 Hplan Hok1 Hfull Hus1) as (Hsh & Hsum & _).
    assert (Hfull1 : full_attention k1).
    { destruct Hfull. destruct Hsh as (_ & _ & _ & E1 & E2 & _). unfold full_attention. by rewrite E1, E2. }
    destruct (find_free n k1 u Hok1 Hfull1 (fits_shape _ _ _ Hsh Hu)) as (r & Er & Hr).
    assert (r = None) as -> by congruence. split; [done|]. intros Hle.
    rewrite sum_list_with_app in Hle. simpl in Hle. lia.
Qed.

(** ** From the batch to the cache *)

Lemma described_in_ubatch a idxs n_seqs (u : llama_ubatch) s p : batch_ok a -> describes a idxs n_seqs u ->
  (forall i, i ∈ idxs -> (i < n_tokens (batch a))%nat) ->
  in_ubatch u s p <-> exists i ids, i ∈ idxs /\ token_seqs (batch a) i ids /\ s ∈ ids /\ pos (batch a) !! i = Some p.
Proof.
  intros Ha Hu Hin. unfold in_ubatch, ids_of, pos_of. rewrite (ds_n _ _ _ _ Hu). split.
  - intros (t & Ht & Hs & Hp). destruct (lookup_lt_is_Some_2 idxs t Ht) as [i Hi].
    destruct (described_token a idxs n_seqs u Ha Hu Hin t i Hi) as (ids & q & H1 & H2 & H3 & _ & H4).
    rewrite (list_lookup_total_correct _ _ _ H3) in Hs. rewrite (list_lookup_total_correct _ _ _ H4) in Hp. subst q.
    exists i, ids. split_and!; try done. by eapply list_elem_of_lookup_2.
  - intros (i & ids & (t & Ht)%list_elem_of_lookup_1 & Hids & Hs & Hp).
    destruct (described_token a idxs n_seqs u Ha Hu Hin t i Ht) as (ids' & q & H1 & H2 & H3 & _ & H4).
    unfold token_seqs in *. assert (ids' = ids) as -> by congruence. assert (q = p) as -> by congruence.
    exists t. rewrite (list_lookup_total_correct _ _ _ H3), (list_lookup_total_correct _ _ _ H4).
    split_and!; try done. by eapply lookup_lt_Some.
Qed.

(** The ubatches that a batch was split into. *)
Definition split_of a (us : list llama_ubatch) (idxss : list (list nat)) : Prop :=
  Forall2 (fun u idxs => idxs <> [] /\ exists n_seqs, describes a idxs n_seqs u) us idxss
  /\ concat idxss ≡ₚ seq 0 (n_tokens (batch a)).

Lemma split_tokens a us idxss : split_of a us idxss -> sum_list_with u_n_tokens us = n_tokens (batch a).
Proof.
  intros [Hall Hperm]. rewrite <- (length_seq (n_tokens (batch a)) 0), <- Hperm.
  clear Hperm. induction Hall as [|u idxs us idxss (_ & n & Hd) _ IH]; [done|]. simpl.
  by rewrite length_app, IH, (ds_n _ _ _ _ Hd).
Qed.

Lemma split_index a us idxss idxs i : split_of a us idxss -> idxs ∈ idxss -> i ∈ idxs -> (i < n_tokens (batch a))%nat.
Proof.
  intros [_ Hperm] H1 H2. assert (Hi : i ∈ concat idxss).
  { apply list_elem_of_In, in_concat. exists idxs. by rewrite <- !list_elem_of_In. }
  rewrite Hperm in Hi. apply elem_of_seq in Hi. lia.
Qed.

Lemma split_fits n k a us idxss : kv_ok n k -> unified k -> batch_ok a -> split_of a us idxss ->
  Forall (fits_stream k) us.
Proof.
  intros Hok Huni Ha Hsp. apply Forall_forall. intros u (j & Hj)%list_elem_of_lookup_1.
  destruct (Forall2_lookup_l _ _ _ _ _ (proj1 Hsp) Hj) as (idxs & Hidxs & Hne & n_seqs & Hd).
  exists (length idxs). eapply described_ready; [done|exact Hd| |done|done|done].
  intros i. eapply split_index; [done|by eapply list_elem_of_lookup_2].
Qed.

(** The tokens of the ubatches are those of the batch. *)
Lemma split_positions a us idxss (s : nat) p : batch_ok a -> split_of a us idxss ->
  (exists u, u ∈ us /\ in_ubatch u (Z.of_nat s) p) <-> seq_position (batch a) s p.
Proof.
  intros Ha Hsp. pose proof (fun idxs i => split_index a us idxss idxs i Hsp) as Hidx. split.
  - intros (u & (j & Hj)%list_elem_of_lookup_1 & Hu).
    destruct (Forall2_lookup_l _ _ _ _ _ (proj1 Hsp) Hj) as (idxs & Hidxs & _ & n_seqs & Hd).
    apply list_elem_of_lookup_2 in Hidxs.
    destruct (proj1 (described_in_ubatch a idxs n_seqs u _ p Ha Hd ltac:(eauto)) Hu) as (i & ids & Hi & H).
    exists i, ids. split; [by eapply Hidx|done].
  - intros (i & ids & Hi & Hids & Hs & Hp). assert (Hic : i ∈ concat idxss).
    { rewrite (proj2 Hsp). apply elem_of_seq. lia. }
    apply list_elem_of_In, in_concat in Hic as (idxs & H1 & H2). rewrite <- !list_elem_of_In in *.
    pose proof H1 as (j & Hj)%list_elem_of_lookup_1.
    destruct (Forall2_lookup_r _ _ _ _ _ (proj1 Hsp) Hj) as (u & Hu & _ & n_seqs & Hd). exists u.
    split; [by eapply list_elem_of_lookup_2|]. eapply described_in_ubatch; [done|exact Hd|by eauto|]. by exists i, ids.
Qed.

Lemma init_batch_ok a inp n_vocab memory n_embd n_seq_max output_all a1 :
  init a inp n_vocab memory n_embd n_seq_max output_all = Ret (Some a1) ->
  arrays_ok inp n_embd (n_pos_per_embd a) -> (0 < n_seq_max)%nat -> n_pos_per_embd a = 1%nat ->
  (forall i ids, token_seqs (batch a1) i ids -> NoDup ids) -> (forall i p, pos (batch a1) !! i = Some p -> 0 <= p) ->
  batch_ok a1 /\ sets_nonempty a1 /\ (0 < n_tokens (batch a1))%nat.
Proof.
  intros H Har Hs Hp Hnd Hpos. destruct (init_ok _ _ _ _ _ _ _ _ H Har) as [Hok Hne].
  destruct (init_tokens _ _ _ _ _ _ _ _ H Har Hs) as (Hn & Hpe & Hsm & _ & Htok).
  split; [|done]. constructor; try done; [congruence|]. intros i Hi. rewrite Hsm. by apply Htok.
Qed.

(** The memory that the batch allocator asks, when it is this cache. *)
Definition kv_memory (k : llama_kv_cache) : Memory := {|
  m_seq_pos_min s := match Kv.seq_pos_min k s with Ret p => p | _ => -1 end;
  m_seq_pos_max s := match Kv.seq_pos_max k s with Ret p => p | _ => -1 end;
|}.

(** The positions of sequence [s] in the cache have no gap. *)
Definition gapless (k : llama_kv_cache) (s : Z) : Prop :=
  forall p q x, in_cache k s p -> in_cache k s q -> p <= x <= q -> in_cache k s x.

Section Decode.
Context (n : nat) (k : llama_kv_cache) (a a1 : @llama_batch_allocr E) (inp : llama_batch E) (n_vocab : Z).
Context (memory : option Memory) (n_embd n_seq_max : nat) (output_all : bool).
Hypotheses (Hinit : init a inp n_vocab memory n_embd n_seq_max output_all = Ret (Some a1)).
Hypotheses (Harrays : arrays_ok inp n_embd (n_pos_per_embd a)) (Hseqs : (0 < n_seq_max)%nat)
  (Hnpos : n_pos_per_embd a = 1%nat).
Hypotheses (Hnodup : forall i ids, token_seqs (batch a1) i ids -> NoDup ids)
  (Hposs : forall i p, pos (batch a1) !! i = Some p -> 0 <= p).
Hypotheses (Hok : kv_ok n k) (Huni : unified k) (Hfull : full_attention k).

(** The ubatches of the batch, and what [prepare] finds for them. *)
Lemma batch_planned n_ubatch : exists us a2 idxss (b : bool) sis,
  Context.init_batch k a1 n_ubatch = Ret (if b then Context.batch_context sis us
    else Context.fail_context LLAMA_MEMORY_STATUS_FAILED_PREPARE, k, a2)
  /\ split_of a1 us idxss /\ get_out_ids a2 = List.filter (is_output (batch a1)) (concat idxss)
  /\ us <> [] /\ Forall (fits_stream k) us /\ prepared n k us b sis
  /\ (b = true <-> (n_tokens (batch a1) <= length (free_cells n k 0))%nat).
Proof.
  destruct (init_batch_ok _ _ _ _ _ _ _ _ Hinit Harrays Hseqs Hnpos Hnodup Hposs) as (Hb & Hne & Hn).
  destruct (split_all_ok Simple n_ubatch a1 (bt_alloc _ Hb) I) as (us & a2 & idxss & Esp & Hd & Hperm & Hout).
  assert (Hsp : split_of a1 us idxss) by done. pose proof (split_tokens _ _ _ Hsp) as Hsum.
  pose proof (split_fits n k a1 us idxss Hok Huni Hb Hsp) as Hus.
  assert (Hus0 : us <> []) by (intros ->; simpl in Hsum; lia).
  destruct (prepare_ok n k us Hok (proj1 Hfull) (proj2 Hfull) Hus0) as (b & sis & Eprep & Hprep).
  { eapply Forall_impl; [exact Hus|]. apply fits_ready. }
  pose proof (prepared_free n k us b sis Hok Hfull Hus Hprep) as Hfree. rewrite Hsum in Hfree.
  exists us, a2, idxss, b, sis. split; [|by split_and!].
  unfold Context.init_batch, Kv.init_batch. rewrite (proj1 Huni). cbn [Nat.eqb]. rewrite Esp. cbn [mbind outcome_bind].
  rewrite Eprep. cbn [mbind outcome_bind]. destruct b; [|done]. destruct Hprep as (k' & Hplan & _).
  pose proof (plan_length _ _ _ _ _ Hplan) as Hlen. by destruct sis; [destruct us|].
Qed.

Lemma batch_stored n_ubatch : exists cx a2, Context.init_batch k a1 n_ubatch = Ret (cx, k, a2) /\
  if (n_tokens (batch a1) <=? length (free_cells n k 0))%nat then
    Context.cx_status cx = LLAMA_MEMORY_STATUS_SUCCESS /\
    exists k' cx', Context.run_context (length (Context.cx_ubatches cx)) k cx = Ret (k', cx') /\ kv_ok n k'
      /\ (length (free_cells n k' 0) + n_tokens (batch a1) = length (free_cells n k 0))%nat
      /\ forall (s : nat) p, in_cache k' (Z.of_nat s) p <-> in_cache k (Z.of_nat s) p \/ seq_position (batch a1) s p
  else Context.cx_status cx = LLAMA_MEMORY_STATUS_FAILED_PREPARE.
Proof.
  destruct (init_batch_ok _ _ _ _ _ _ _ _ Hinit Harrays Hseqs Hnpos Hnodup Hposs) as (Hb & _ & _).
  destruct (batch_planned n_ubatch) as (us & a2 & idxss & b & sis & Eb & Hsp & _ & Hus0 & Hus & Hprep & Hfree).
  rewrite Eb. eexists _, a2. split; [done|]. destruct b.
  - rewrite (proj2 (Nat.leb_le _ _) (proj1 Hfree eq_refl)). destruct Hprep as (k' & Hplan & Hk'). split; [done|].
    destruct (run_context_ok n _ us k k' Hplan Hus0 (length us) [] [] (Context.batch_context sis us))
      as (cx' & E2 & _); try done. exists k', cx'. split; [exact E2|]. split; [done|].
    destruct (plan_adds n k _ us k' Hplan Hk' Hfull Hus) as (_ & Hsz & Hadd).
    split; [by rewrite <- (split_tokens _ _ _ Hsp)|]. intros s p. by rewrite Hadd, (split_positions a1 us idxss).
  - rewrite (proj2 (Nat.leb_gt _ _)); [done|]. apply Nat.nle_gt. intros Hle. by apply Hfree in Hle.
Qed.

(** The positions of the batch lie behind those in the cache, without a gap between. *)
Lemma batch_behind (s : nat) p q : memory = Some (kv_memory k) -> length (seq_pos a) = LLAMA_MAX_SEQ ->
  (s < n_seq_max)%nat -> in_cache k (Z.of_nat s) p -> seq_position (batch a1) s q ->
  exists hi, p <= hi < q /\ in_cache k (Z.of_nat s) hi /\ seq_position (batch a1) s (hi + 1)
    /\ forall q', seq_position (batch a1) s q' -> hi < q'.
Proof.
  clear Hnodup Hposs Hfull. intros Hmem Hlen Hs Hp Hsq. destruct (init_positions _ _ _ _ _ _ _ _ s Hinit Hlen ltac:(lia) Hs) as [Hb Hcont].
  assert (Hmax : (n_seq_max <= LLAMA_MAX_SEQ)%nat) by apply (init_tokens _ _ _ _ _ _ _ _ Hinit Harrays Hseqs).
  destruct (unified_home n k (Z.of_nat s) Hok Huni ltac:(lia)) as [Hknown _].
  destruct (queries_ok n k _ Hok Hknown) as (lo & hi & _ & Ehi & Hq).
  pose proof (in_cache_pos n k _ p Hok Hp) as Hpos.
  destruct Hq as [(_ & _ & Hno)|(_ & Hhi & Hle)]; [destruct Hp as [i Hp]; by destruct (Hno i p)|].
  assert (Hphi : p <= hi) by (destruct Hp as [i Hp]; by apply (Hle i p)).
  assert (Hq : forall q', seq_position (batch a1) s q' -> hi < q' /\ seq_position (batch a1) s (hi + 1)).
  { intros q' Hq'. specialize (Hcont (kv_memory k) q' Hmem). cbn [kv_memory m_seq_pos_max] in Hcont. rewrite Ehi in Hcont.
    apply Hcont; [lia|done]. }
  exists hi. destruct (Hq q Hsq) as [H1 H2].
  split_and!; [lia|lia|done|done|]. intros q' Hq'. by apply Hq.
Qed.

(** What sequence [s] of the batch adds to what the cache holds of it. *)
Lemma batch_extends (s : nat) : memory = Some (kv_memory k) -> length (seq_pos a) = LLAMA_MAX_SEQ ->
  (s < n_seq_max)%nat -> gapless k (Z.of_nat s) ->
  (forall p q, in_cache k (Z.of_nat s) p -> seq_position (batch a1) s q -> p < q)
  /\ forall p q x, in_cache k (Z.of_nat s) p \/ seq_position (batch a1) s p ->
       in_cache k (Z.of_nat s) q \/ seq_position (batch a1) s q -> p <= x <= q ->
       in_cache k (Z.of_nat s) x \/ seq_position (batch a1) s x.
Proof.
  clear Hnodup Hposs Hfull. intros Hmem Hlen Hs Hgap. pose proof (fun p q => batch_behind s p q Hmem Hlen Hs) as Hlt.
  destruct (init_positions _ _ _ _ _ _ _ _ s Hinit Hlen ltac:(lia) Hs) as [Hb _].
  split; [intros p q Hp Hsq; destruct (Hlt p q Hp Hsq) as (hi & ? & _); lia|].
  intros p q x [Hp|Hp] [Hq'|Hq'] Hx.
  - left. by apply (Hgap p q x).
  - destruct (Hlt p q Hp Hq') as (hi & Hpq & Hhi & Hnext & _). destruct (decide (x <= hi)) as [Hxh|Hxh].
    + left. apply (Hgap p hi x); [done|done|lia].
    + right. apply (Hb (hi + 1) q x); [done|done|lia].
  - destruct (Hlt q p Hq' Hp) as (hi & ? & _). lia.
  - right. by apply (Hb p q x).
Qed.

End Decode.


(** C19. A cache of one stream with full attention, and a batch that was accepted
    against the positions this cache holds (positions of one dimension and not
    negative, no sequence named twice for a token): storing the batch keeps the
    positions of every sequence that had none missing without gaps, and those that
    are added to a sequence lie behind all that were there. Two tokens of the batch
    may stand at the same position of a sequence:
    [BatchInit.repeated_position_accepted]. *)
Theorem decoding_keeps_gapless n k a inp n_vocab n_embd n_seq_max output_all a1 n_ubatch cx a2 k' cx' (s : nat) :
  init a inp n_vocab (Some (kv_memory k)) n_embd n_seq_max output_all = Ret (Some a1) ->
  length (seq_pos a) = LLAMA_MAX_SEQ ->
  arrays_ok inp n_embd (n_pos_per_embd a) -> (0 < n_seq_max)%nat -> n_pos_per_embd a = 1%nat ->
  (forall i ids, token_seqs (batch a1) i ids -> NoDup ids) -> (forall i p, pos (batch a1) !! i = Some p -> 0 <= p) ->
  kv_ok n k -> unified k -> full_attention k ->
  Context.init_batch k a1 n_ubatch = Ret (cx, k, a2) -> Context.cx_status cx = LLAMA_MEMORY_STATUS_SUCCESS ->
  Context.run_context (length (Context.cx_ubatches cx)) k cx = Ret (k', cx') ->
  (s < n_seq_max)%nat -> gapless k (Z.of_nat s) ->
  gapless k' (Z.of_nat s)
  /\ forall p q, in_cache k (Z.of_nat s) p -> seq_position (batch a1) s q -> p < q.
Proof.
  intros Hinit Hlen Har Hns Hnp Hnd Hpos Hok Huni Hfull Ecx Hst Erun Hs Hgap.
  destruct (batch_extends n k a a1 inp _ _ _ _ _ Hinit Har Hns Hnp Hok Huni s eq_refl Hlen Hs Hgap) as [Hlt Hno].
  split; [|done]. destruct (batch_stored n k a a1 inp _ _ _ _ _ Hinit Har Hns Hnp Hnd Hpos Hok Huni Hfull n_ubatch)
    as (cx1 & a3 & E1 & H). rewrite Ecx in E1. injection E1 as <- <-. case_match; [|congruence].
  destruct H as (_ & k1 & cx1 & E2 & _ & _ & Hin). rewrite Erun in E2. injection E2 as <- <-.
  intros p q x. rewrite !Hin. apply Hno.
Qed.

End Compose.

(** * A batch is decoded into a cache that holds some tokens already. *)

(** Three tokens of the sequences 0, 1 and 0; their positions are generated. *)
Definition more_inp : llama_batch unit :=
  mk_batch 3 (Some [8; 9; 10]) None None (Some [1; 1; 1]) (Some [[0]; [1]; [0]]) None.

(** The allocator after it accepted the batch for the cache [ex_k1]. *)
Definition more_allocr : llama_batch_allocr unit := Eval vm_compute in
  match init (new_allocr 1) more_inp 100 (Some (kv_memory ex_k1)) 0 3 false with
  | Ret (Some a) => a
  | _ => new_allocr 1
  end.

Definition more_context : @Context.kv_context unit * llama_batch_allocr unit := Eval vm_compute in
  match Context.init_batch ex_k1 more_allocr 2 with
  | Ret (cx, _, a) => (cx, a)
  | _ => (Context.fail_context LLAMA_MEMORY_STATUS_NO_UPDATE, more_allocr)
  end.

Definition more_run : llama_kv_cache * @Context.kv_context unit := Eval vm_compute in
  get (no_cache, more_context.1) (Context.run_context 2 ex_k1 more_context.1).

Lemma more_init : init (new_allocr 1) more_inp 100 (Some (kv_memory ex_k1)) 0 3 false = Ret (Some more_allocr).
Proof. vm_compute. reflexivity. Qed.

Lemma more_arrays : arrays_ok more_inp 0 1.
Proof.
  constructor; simpl; try discriminate; try lia.
  intros l i k [= <-] Hk. apply list_elem_of_lookup_2 in Hk. rewrite !elem_of_cons, elem_of_nil in Hk. lia.
Qed.

Lemma more_nodup i ids : token_seqs (batch more_allocr) i ids -> NoDup ids.
Proof.
  destruct i as [|[|[|i]]]; intros H; try (injection H as <-; apply NoDup_singleton). by destruct i.
Qed.

Lemma more_pos i p : pos (batch more_allocr) !! i = Some p -> 0 <= p.
Proof. destruct i as [|[|[|i]]]; intros H; try (injection H as <-; lia). by destruct i. Qed.

Lemma ex_unified : unified ex_k1.
Proof. by split. Qed.

Lemma ex_full : full_attention ex_k1.
Proof. by split. Qed.


Lemma ex_positions p : in_cache ex_k1 0 p <-> p = 0 \/ p = 1 \/ p = 2.
Proof.
  split.
  - intros (i & st & c & x & Hc & Hx & Hs & <-). destruct st as [|st]; [|by destruct st]. injection Hc as <-.
    apply (bool_decide_eq_true_2 (0 ∈ cell_seq x)) in Hs.
    do 8 (destruct i as [|i]; [injection Hx as <-; first [by left|by right; left|by right; right|by vm_compute in Hs]|]).
    by destruct i.
  - intros [->|[->| ->]]; [exists 0%nat|exists 1%nat|exists 2%nat]; eexists 0%nat, _, _;
      (split_and!; [reflexivity|reflexivity|by apply (bool_decide_eq_true_1 (0 ∈ _)); vm_compute|reflexivity]).
Qed.

(** Sequence 0 holds the positions 0, 1 and 2, and the batch adds 3 and 4. *)
Lemma decoding_keeps_gapless_witness : gapless more_run.1 0
  /\ forall p q, in_cache ex_k1 0 p -> seq_position (batch more_allocr) 0 q -> p < q.
Proof.
  apply (decoding_keeps_gapless 8 ex_k1 (new_allocr 1) more_inp 100 0 3 false more_allocr 2
    more_context.1 more_context.2 more_run.1 more_run.2 0).
  - exact more_init.
  - reflexivity.
  - exact more_arrays.
  - lia.
  - reflexivity.
  - exact more_nodup.
  - exact more_pos.
  - exact ex_k1_ok.
  - exact ex_unified.
  - exact ex_full.
  - vm_compute. reflexivity.
  - reflexivity.
  - vm_compute. reflexivity.
  - lia.
  - intros p q x Hp Hq Hx. rewrite ex_positions in *. lia.
Defined.
