(* ===== verification/Decode.v ===== *)
(** * Decoding a batch, [src/llama-context.cpp].

    [llama_context::decode] drives the memory and the computation: it asks the
    batch allocator and the memory for ubatches, computes them one by one, takes
    their outputs from the result tensors, and maps the outputs to the tokens of
    the batch.  The memory is the interface [memory_i] ([src/llama-memory.h]);
    building and computing graphs is a parameter.  Buffers of floats are lists
    of [option]: [None] is a value that was not written since the buffer was
    reserved.  Asynchronous copies are done at once; timing, logging and the
    reservation of graphs are left out. *)

From S2P Require Import Prelude Batch KvCells KvCache KvInputs KvContext.
From Stdlib Require Import Lia.

(** ** [llama_memory_i] and [llama_memory_context_i] *)

Class memory_i {E} (M C : Type) := {
  mi_init_batch : M -> llama_batch_allocr E -> nat -> bool -> outcome (C * M * llama_batch_allocr E);
  mi_init_full : M -> outcome C;
  mi_init_update : M -> bool -> outcome (C * M);
  mi_seq_rm : M -> Z -> Z -> Z -> outcome (bool * M);
  mi_seq_pos_min : M -> Z -> outcome Z;
  mi_seq_pos_max : M -> Z -> outcome Z;
  mi_next : C -> outcome (bool * C);
  mi_apply : M -> C -> outcome (bool * M * C);
  mi_get_ubatch : C -> outcome (llama_ubatch E);
  mi_get_status : C -> llama_memory_status;
}.

Definition pos_or_none (r : outcome Z) : Z := match r with Ret p => p | _ => -1 end.

(** What the batch allocator asks the memory. *)
Definition mi_positions {E M C} {_ : @memory_i E M C} (m : M) : Memory := {|
  m_seq_pos_min s := pos_or_none (mi_seq_pos_min m s);
  m_seq_pos_max s := pos_or_none (mi_seq_pos_max m s);
|}.

(** The KV cache; the flags describe what its update can do. *)
Definition kv_memory_i {E} (can_shift has_rope computed : bool)
    : @memory_i E llama_kv_cache (@Context.kv_context E) := {|
  mi_init_batch k a n_ubatch _ := Context.init_batch k a n_ubatch;
  mi_init_full k := Context.full_context k;
  mi_init_update k _ := Context.init_update k;
  mi_seq_rm k s p0 p1 := k ← Kv.seq_rm k s p0 p1; Ret (true, k);
  mi_seq_pos_min := Kv.seq_pos_min;
  mi_seq_pos_max := Kv.seq_pos_max;
  mi_next := Context.next;
  mi_apply := Context.apply can_shift has_rope computed;
  mi_get_ubatch := Context.get_ubatch;
  mi_get_status := Context.cx_status;
|}.
#[export] Existing Instance kv_memory_i.

(** The pair of caches for models with a sliding window. *)
Definition iswa_memory_i {E} (can_shift has_rope computed : bool)
    : @memory_i E Context.kv_iswa (@Context.iswa_context E) := {|
  mi_init_batch k a n_ubatch _ := Context.iswa_init_batch k a n_ubatch;
  mi_init_full k := Context.iswa_full k;
  mi_init_update k _ := Context.iswa_update k;
  mi_seq_rm k s p0 p1 := k ← Context.iswa_seq_rm k s p0 p1; Ret (true, k);
  mi_seq_pos_min := Context.iswa_seq_pos_min;
  mi_seq_pos_max := Context.iswa_seq_pos_max;
  mi_next := Context.iswa_next;
  mi_apply := Context.iswa_apply can_shift has_rope computed;
  mi_get_ubatch cx :=
    c_assert (Context.is_success (Context.ic_status cx)) "status == LLAMA_MEMORY_STATUS_SUCCESS";;
    at_ (Context.ic_ubatches cx) (Context.ic_i_next cx);
  mi_get_status := Context.ic_status;
|}.
#[export] Existing Instance iswa_memory_i.

(** ** Data *)

Inductive ggml_status := GGML_STATUS_ALLOC_FAILED | GGML_STATUS_FAILED | GGML_STATUS_SUCCESS | GGML_STATUS_ABORTED.

Inductive llama_pooling_type :=
  | LLAMA_POOLING_TYPE_UNSPECIFIED | LLAMA_POOLING_TYPE_NONE | LLAMA_POOLING_TYPE_MEAN
  | LLAMA_POOLING_TYPE_CLS | LLAMA_POOLING_TYPE_LAST | LLAMA_POOLING_TYPE_RANK.

Definition LLAMA_TOKEN_NULL : Z := -1.

(** The parameters of the context that decoding uses. *)
Record llama_cparams := mk_cparams {
  cp_embeddings : bool;
  cp_kv_unified : bool;
  cp_causal_attn : bool;
  cp_n_seq_max : nat;
  cp_n_batch : nat;
  cp_n_ubatch : nat;
  cp_pooling_type : llama_pooling_type;
}.

(** The dimensions of the model. *)
Record llama_model := mk_model {
  md_n_vocab : nat;
  md_n_embd : nat;
  md_n_embd_inp : nat;
  md_n_embd_out : nat;
  md_n_cls_out : nat;
  md_is_t5 : bool;
}.

Section Decode.
(** Embedding inputs and computed floats. *)
Context {E F : Type}.
Notation llama_batch := (llama_batch E).
Notation llama_ubatch := (llama_ubatch E).
Notation llama_batch_allocr := (llama_batch_allocr E).
Notation buffer := (list (option F)).
Context {M C : Type} `{!@memory_i E M C}.

(** The result tensors of a graph; the maps from sequences are ordered lists. *)
Record graph_result := mk_result {
  t_logits : option (list F);
  t_embd : option (list F);
  t_embd_pooled : option (list F);
  t_sampled : list (Z * list Z);
  t_sampled_logits : list (Z * list F);
  t_sampled_probs : list (Z * list F);
  t_candidates : list (Z * list Z);
}.

(** [sampling_info]; of the samplers only the sequences matter. *)
Record sampling_info := mk_sampling {
  samplers : gset Z;
  s_logits : option buffer;
  s_sampled : option (list (option Z));
  s_probs : option buffer;
  s_candidates : option (list (option Z));
  logits_count : list nat;
  probs_count : list nat;
  candidates_count : list nat;
}.

(** The output buffers of the context. *)
Record outputs := mk_outputs {
  o_logits : option buffer;
  o_embd : option buffer;
  o_embd_seq : gmap Z buffer;
  o_sampling : sampling_info;
}.

Record llama_context := mk_lctx {
  lc_memory : option M;
  lc_balloc : llama_batch_allocr;
  lc_n_outputs : nat;
  lc_output_ids : list Z;
  lc_output_swaps : list (nat * nat);
  lc_buf_output : option Z;
  lc_out : outputs;
}.

Definition with_memory (c : llama_context) (m : M) : llama_context :=
  mk_lctx (Some m) (lc_balloc c) (lc_n_outputs c) (lc_output_ids c) (lc_output_swaps c) (lc_buf_output c) (lc_out c).
Definition with_balloc (c : llama_context) (a : llama_batch_allocr) : llama_context :=
  mk_lctx (lc_memory c) a (lc_n_outputs c) (lc_output_ids c) (lc_output_swaps c) (lc_buf_output c) (lc_out c).
Definition with_n_outputs (c : llama_context) (n : nat) : llama_context :=
  mk_lctx (lc_memory c) (lc_balloc c) n (lc_output_ids c) (lc_output_swaps c) (lc_buf_output c) (lc_out c).
Definition with_ids (c : llama_context) (ids : list Z) (swaps : list (nat * nat)) : llama_context :=
  mk_lctx (lc_memory c) (lc_balloc c) (lc_n_outputs c) ids swaps (lc_buf_output c) (lc_out c).
Definition with_out (c : llama_context) (o : outputs) : llama_context :=
  mk_lctx (lc_memory c) (lc_balloc c) (lc_n_outputs c) (lc_output_ids c) (lc_output_swaps c) (lc_buf_output c) o.

Definition with_embd_seq (o : outputs) (e : gmap Z buffer) : outputs :=
  mk_outputs (o_logits o) (o_embd o) e (o_sampling o).

(** The model, the parameters, whether a buffer of some size can be allocated,
    and the computation: a failure or the result tensors, for a graph with some
    number of outputs. *)
Context (model : llama_model) (cparams : llama_cparams) (alloc_buffer : Z -> bool).
Context (compute : M -> C -> llama_ubatch -> nat -> ggml_status + graph_result).
Context (compute_encoder : llama_ubatch -> nat -> ggml_status + graph_result).

(** ** Reading tensors *)

(** [ggml_backend_tensor_get_async]: [n] values from [off] on, to [dst + at]. *)
Definition tensor_get {A} (t : list A) (dst : list (option A)) (at_dst off n : nat) : outcome (list (option A)) :=
  c_assert (off + n <=? length t)%nat "tensor read out of bounds";;
  if (at_dst + n <=? length dst)%nat
  then Ret (take at_dst dst ++ map Some (take n (drop off t)) ++ drop (at_dst + n) dst)
  else Undef.

(** ** Output buffers *)

Definition output_reserve (c : llama_context) (n_out : nat) : nat * llama_context :=
  let n_outputs_max := Nat.max n_out (cp_n_seq_max cparams) in
  let has_embd := cp_embeddings cparams || md_is_t5 model in
  let n_logits := (md_n_vocab model * n_outputs_max)%nat in
  let n_embds := if has_embd then (md_n_embd_out model * n_outputs_max)%nat else 0%nat in
  let sp := o_sampling (lc_out c) in
  let has_sampling := negb (bool_decide (samplers sp = ∅)) in
  let floats := if has_sampling then (2 * md_n_vocab model * n_outputs_max)%nat else 0%nat in
  let tokens := if has_sampling then ((1 + md_n_vocab model) * n_outputs_max)%nat else 0%nat in
  let ids := match lc_output_ids c with [] => replicate (cp_n_batch cparams) 0 | l => l end in
  let prev_size := default 0 (lc_buf_output c) in
  let new_size := Z.of_nat (n_logits + n_embds + floats) * 4 + Z.of_nat tokens * 4 in
  let grow := bool_decide (lc_buf_output c = None) || (prev_size <? new_size) in
  if grow && negb (alloc_buffer new_size) then
    let out := match lc_buf_output c with
               | Some _ => mk_outputs None None (o_embd_seq (lc_out c)) sp
               | None => lc_out c
               end in
    (0%nat, mk_lctx (lc_memory c) (lc_balloc c) (lc_n_outputs c) ids (lc_output_swaps c) None out)
  else
    let sp :=
      if has_sampling then
        mk_sampling (samplers sp) (Some (replicate n_logits None)) (Some (replicate n_outputs_max (Some LLAMA_TOKEN_NULL)))
          (Some (replicate n_logits None)) (Some (replicate n_logits None))
          (replicate n_outputs_max 0%nat) (replicate n_outputs_max 0%nat) (replicate n_outputs_max 0%nat)
      else mk_sampling (samplers sp) None None None None [] [] [] in
    (n_outputs_max,
     mk_lctx (lc_memory c) (lc_balloc c) 0 (map (fun _ => -1) ids) (lc_output_swaps c)
       (if grow then Some new_size else lc_buf_output c)
       (mk_outputs (Some (replicate n_logits None)) (if has_embd then Some (replicate n_embds None) else None)
          (o_embd_seq (lc_out c)) sp)).

(** [std::swap(v[i], v[j])]. *)
Definition swap {A} (l : list A) (i j : nat) : outcome (list A) :=
  x ← at_ l i; y ← at_ l j; l ← set_ l i y; set_ l j x.

(** Swapping the rows [i0] and [i1] of [n] values. *)
Definition swap_rows {A} (n i0 i1 : nat) (l : list A) : outcome (list A) :=
  foldM (fun l k => swap l (i0 * n + k) (i1 * n + k)) l (seq 0 n).

(** A buffer that exists and is not empty. *)
Definition on_buffer {A} (f : list A -> outcome (list A)) (b : option (list A)) : outcome (option (list A)) :=
  match b with
  | Some ((_ :: _) as l) => l ← f l; Ret (Some l)
  | _ => Ret b
  end.

(** The same where a buffer without data is undefined behaviour. *)
Definition on_data {A} (f : list A -> outcome (list A)) (b : option (list A)) : outcome (option (list A)) :=
  match b with Some l => l ← f l; Ret (Some l) | None => Undef end.

Definition has_size {A} (b : option (list A)) : bool := match b with Some (_ :: _) => true | _ => false end.

Definition reorder_sampling (sp : sampling_info) (i0 i1 : nat) : outcome sampling_info :=
  if bool_decide (samplers sp = ∅) then Ret sp
  else
    let n := md_n_vocab model in
    c_assert (has_size (s_logits sp)) "sampling.logits.size > 0";;
    c_assert (has_size (s_probs sp)) "sampling.probs.size > 0";;
    c_assert (has_size (s_candidates sp)) "sampling.candidates.size > 0";;
    c_assert (has_size (s_sampled sp)) "sampling.sampled.size > 0";;
    c_assert (0 <? length (logits_count sp))%nat "sampling.logits_count.size() > 0";;
    c_assert (0 <? length (probs_count sp))%nat "sampling.probs_count.size() > 0";;
    c_assert (0 <? length (candidates_count sp))%nat "sampling.candidates_count.size() > 0";;
    l ← on_data (swap_rows n i0 i1) (s_logits sp);
    p ← on_data (swap_rows n i0 i1) (s_probs sp);
    ca ← on_data (swap_rows n i0 i1) (s_candidates sp);
    s ← on_data (fun v => swap v i0 i1) (s_sampled sp);
    lc ← swap (logits_count sp) i0 i1;
    pc ← swap (probs_count sp) i0 i1;
    cc ← swap (candidates_count sp) i0 i1;
    Ret (mk_sampling (samplers sp) l s p ca lc pc cc).

Definition reorder_one (o : outputs) (sw : nat * nat) : outcome outputs :=
  let '(i0, i1) := sw in
  l ← on_buffer (swap_rows (md_n_vocab model) i0 i1) (o_logits o);
  e ← on_buffer (swap_rows (md_n_embd model) i0 i1) (o_embd o);
  sp ← reorder_sampling (o_sampling o) i0 i1;
  Ret (mk_outputs l e (o_embd_seq o) sp).

(** The swaps are applied lazily, when an output is asked for. *)
Definition output_reorder (c : llama_context) : outcome llama_context :=
  o ← foldM reorder_one (lc_out c) (lc_output_swaps c);
  Ret (with_ids (with_out c o) (lc_output_ids c) []).

(** ** Asking for outputs *)

(** [n_outputs + i] is computed on 32-bit unsigned integers. *)
Definition output_resolve_row (c : llama_context) (i : Z) : outcome Z :=
  j ← (if i <? 0 then
         let j := u32 (Z.of_nat (lc_n_outputs c) + i) in
         if j <? 0 then Throw "negative index out of range" else Ret j
       else if Z.of_nat (length (lc_output_ids c)) <=? i then Throw "out of range"
       else at_z (lc_output_ids c) i);
  if j <? 0 then Throw "batch.logits[i] != true"
  else if Z.of_nat (lc_n_outputs c) <=? j then Throw "corrupt output buffer"
  else Ret j.

(** [try { ... } catch (const std::exception & err) { ... }]. *)
Definition catch {A} (m : outcome A) (h : outcome A) : outcome A :=
  match m with Throw _ => h | m => m end.

(** In a debug build an invalid index is a [GGML_ABORT]; a pointer is an offset
    into the buffer. *)
Definition invalid_index (ndebug : bool) : outcome (option nat) :=
  if ndebug then Ret None else Fatal "fatal error".

Definition get_logits (c : llama_context) : outcome (option nat * llama_context) :=
  c ← output_reorder c; Ret (match o_logits (lc_out c) with Some _ => Some 0%nat | None => None end, c).

Definition get_logits_ith (ndebug : bool) (c : llama_context) (i : Z) : outcome (option nat * llama_context) :=
  c ← output_reorder c;
  r ← catch (match o_logits (lc_out c) with
             | None => Throw "no logits"
             | Some _ => j ← output_resolve_row c i; Ret (Some (Z.to_nat j * md_n_vocab model)%nat)
             end) (invalid_index ndebug);
  Ret (r, c).

Definition get_embeddings (c : llama_context) : outcome (option nat * llama_context) :=
  c ← output_reorder c; Ret (match o_embd (lc_out c) with Some _ => Some 0%nat | None => None end, c).

Definition get_embeddings_ith (ndebug : bool) (c : llama_context) (i : Z) : outcome (option nat * llama_context) :=
  c ← output_reorder c;
  r ← catch (match o_embd (lc_out c) with
             | None => Throw "no embeddings"
             | Some _ => j ← output_resolve_row c i; Ret (Some (Z.to_nat j * md_n_embd_out model)%nat)
             end) (invalid_index ndebug);
  Ret (r, c).

Definition get_embeddings_seq (c : llama_context) (s : Z) : option buffer := o_embd_seq (lc_out c) !! s.

(** ** Outputs of the samplers *)

Definition get_sampled_token_ith (c : llama_context) (i : Z) : outcome (option Z * llama_context) :=
  c ← output_reorder c;
  match s_sampled (o_sampling (lc_out c)) with
  | Some ((_ :: _) as l) =>
      r ← catch (row ← output_resolve_row c i;
                 c_assert (row <? Z.of_nat (length l)) "row < (int64_t) sampling.sampled.size";; at_z l row)
            (Ret (Some LLAMA_TOKEN_NULL));
      Ret (r, c)
  | _ => Ret (Some LLAMA_TOKEN_NULL, c)
  end.

(** [row >= counts.size() || counts[row] == 0]. *)
Definition row_missing (counts : list nat) (row : Z) : bool :=
  match counts !! Z.to_nat row with Some (S _) => false | _ => true end.

Definition sampled_rows_ith {A} (data : sampling_info -> option (list A)) (counts : sampling_info -> list nat)
    (c : llama_context) (i : Z) : outcome (option nat * llama_context) :=
  c ← output_reorder c;
  if negb (has_size (data (o_sampling (lc_out c)))) then Ret (None, c)
  else
    r ← catch (row ← output_resolve_row c i;
               Ret (if row_missing (counts (o_sampling (lc_out c))) row then None
                    else Some (Z.to_nat row * md_n_vocab model)%nat)) (Ret None);
    Ret (r, c).

Definition get_sampled_probs_ith := sampled_rows_ith s_probs probs_count.
Definition get_sampled_logits_ith := sampled_rows_ith s_logits logits_count.

(** [None] is the full vocabulary. *)
Definition get_sampled_candidates_ith (c : llama_context) (i : Z) : outcome (option nat * llama_context) :=
  c ← output_reorder c;
  let sp := o_sampling (lc_out c) in
  r ← catch (row ← output_resolve_row c i;
             Ret (if has_size (s_candidates sp) && negb (row_missing (candidates_count sp) row)
                  then Some (Z.to_nat row * md_n_vocab model)%nat else None)) (Ret None);
  Ret (r, c).

Definition sampled_count_ith {A} (data : sampling_info -> option (list A)) (counts : sampling_info -> list nat)
    (no_data : nat) (c : llama_context) (i : Z) : outcome (nat * llama_context) :=
  c ← output_reorder c;
  if negb (has_size (data (o_sampling (lc_out c)))) then Ret (no_data, c)
  else
    r ← catch (row ← output_resolve_row c i;
               Ret (default 0%nat (counts (o_sampling (lc_out c)) !! Z.to_nat row))) (Ret 0%nat);
    Ret (r, c).

Definition get_sampled_candidates_count := sampled_count_ith s_candidates candidates_count 0.
Definition get_sampled_logits_count := sampled_count_ith s_logits logits_count (md_n_vocab model).
Definition get_sampled_probs_count := sampled_count_ith s_probs probs_count 0.

(** ** Taking the outputs of a ubatch *)

(** "Check if the output token has at least one sequence without a backend sampler." *)
Definition needs_raw_logits (u : llama_ubatch) (samplers : gset Z) : outcome bool :=
  foldM (fun r i =>
    if r : bool then Ret true
    else
      o ← at_ (u_output u) i;
      if o =? 0 then Ret false
      else
        n ← at_ (u_n_seq_id u) i;
        foldM (fun r j =>
          if r : bool then Ret true
          else ids ← at_ (u_seq_id u) i; s ← at_ ids j; Ret (bool_decide (s ∉ samplers)))
          false (seq 0 (Z.to_nat n)))
    false (seq 0 (u_n_tokens u)).

(** The row of the output of each sequence; [row_offset] outputs came before. *)
Definition build_seq_to_output_row (u : llama_ubatch) (row_offset : nat) : outcome (gmap Z nat) :=
  '(m, _) ← foldM (fun '(m, local) i =>
      o ← at_ (u_output u) i;
      if o =? 0 then Ret (m, local)
      else
        ids ← at_ (u_seq_id u) i; s ← at_ ids 0;
        Ret (<[s := (row_offset + local)%nat]> m, S local))
    (∅, 0%nat) (seq 0 (u_n_tokens u));
  Ret m.

Definition copy_tensor_async_ints (tensors : list (Z * list Z)) (sampled : option (list (option Z)))
    (rows : gmap Z nat) : outcome (option (list (option Z))) :=
  match sampled with
  | Some ((_ :: _) as l) =>
      l ← foldM (fun l '(s, t) =>
            match rows !! s with
            | None => Ret l
            | Some row => c_assert (row <? length l)%nat "row < sampled.size";; tensor_get t l row 0 1
            end) l tensors;
      Ret (Some l)
  | _ => Ret sampled
  end.

(** [copy_tensor_async_floats] and [copy_tensor_async_candidates]. *)
Definition copy_tensor_async_rows {A} (tensors : list (Z * list A)) (dst : option (list (option A)))
    (stride : nat) (counts : list nat) (rows : gmap Z nat) : outcome (option (list (option A)) * list nat) :=
  match dst with
  | Some ((_ :: _) as l) =>
      '(l, counts) ← foldM (fun '(l, counts) '(s, t) =>
            match rows !! s with
            | None => Ret (l, counts)
            | Some row =>
                c_assert (row <? length counts)%nat "row < counts.size()";;
                l ← tensor_get t l (row * stride) 0 (length t);
                counts ← set_ counts row (length t);
                Ret (l, counts)
            end) (l, counts) tensors;
      Ret (Some l, counts)
  | _ => Ret (dst, counts)
  end.

Definition copy_sampling (u : llama_ubatch) (n_prev : nat) (r : graph_result) (sp : sampling_info)
    : outcome sampling_info :=
  if negb (bool_decide (samplers sp = ∅))
     && negb (match t_sampled r, t_sampled_probs r, t_sampled_logits r with [], [], [] => true | _, _, _ => false end)
  then
    rows ← build_seq_to_output_row u n_prev;
    s ← copy_tensor_async_ints (t_sampled r) (s_sampled sp) rows;
    '(l, lc) ← copy_tensor_async_rows (t_sampled_logits r) (s_logits sp) (md_n_vocab model) (logits_count sp) rows;
    '(p, pc) ← copy_tensor_async_rows (t_sampled_probs r) (s_probs sp) (md_n_vocab model) (probs_count sp) rows;
    '(ca, cc) ← copy_tensor_async_rows (t_candidates r) (s_candidates sp) (md_n_vocab model) (candidates_count sp) rows;
    Ret (mk_sampling (samplers sp) l s p ca lc pc cc)
  else Ret sp.

(** The pooled outputs: [n] values for each sequence of the ubatch. *)
Definition extract_embd_seq (u : llama_ubatch) (t : list F) (n : nat) (e : gmap Z buffer) : outcome (gmap Z buffer) :=
  foldM (fun e s =>
    id ← at_ (u_seq_id_unq u) s;
    idx ← at_z (u_seq_idx u) id;
    v ← tensor_get t (replicate n None) 0 (n * Z.to_nat idx) n;
    Ret (<[id := v]> e))
    e (seq 0 (u_n_seqs_unq u)).

(** The embeddings of [n_new] outputs go to the rows from [n_prev] on. *)
Definition extract_embd (u : llama_ubatch) (t : list F) (n_prev n_new n_all : nat) (o : outputs) : outcome outputs :=
  match cp_pooling_type cparams with
  | LLAMA_POOLING_TYPE_NONE =>
      match o_embd o with
      | None => Ret o
      | Some b =>
          c_assert (n_prev + n_new <=? n_all)%nat "n_outputs_prev + n_outputs <= n_outputs_all";;
          c_assert ((n_prev + n_new) * md_n_embd_out model <=? length b)%nat "(n_outputs_prev + n_outputs)*n_embd_out <= embd.size";;
          b ← tensor_get t b (n_prev * md_n_embd_out model) 0 (n_new * md_n_embd_out model);
          Ret (mk_outputs (o_logits o) (Some b) (o_embd_seq o) (o_sampling o))
      end
  | LLAMA_POOLING_TYPE_MEAN | LLAMA_POOLING_TYPE_CLS | LLAMA_POOLING_TYPE_LAST =>
      e ← extract_embd_seq u t (md_n_embd_inp model) (o_embd_seq o); Ret (with_embd_seq o e)
  | LLAMA_POOLING_TYPE_RANK =>
      e ← extract_embd_seq u t (md_n_cls_out model) (o_embd_seq o); Ret (with_embd_seq o e)
  | LLAMA_POOLING_TYPE_UNSPECIFIED => Fatal "unknown pooling type"
  end.

Definition extract_logits (u : llama_ubatch) (t : list F) (n_prev n_new n_all : nat) (o : outputs) : outcome outputs :=
  match o_logits o with
  | None => Ret o
  | Some b =>
      raw ← needs_raw_logits u (samplers (o_sampling o));
      if raw : bool then
        c_assert (n_prev + n_new <=? n_all)%nat "n_outputs_prev + n_outputs <= n_outputs_all";;
        c_assert ((n_prev + n_new) * md_n_vocab model <=? length b)%nat "(n_outputs_prev + n_outputs)*n_vocab <= logits.size";;
        b ← tensor_get t b (n_prev * md_n_vocab model) 0 (n_new * md_n_vocab model);
        Ret (mk_outputs (Some b) (o_embd o) (o_embd_seq o) (o_sampling o))
      else Ret o
  end.

Definition extract (u : llama_ubatch) (r : graph_result) (n_prev n_new n_all : nat) (o : outputs) : outcome outputs :=
  let te := if cp_embeddings cparams
            then match t_embd r, t_embd_pooled r with Some _, Some p => Some p | te, _ => te end else None in
  o ← (match t_logits r with
       | Some t => if (0 <? n_new)%nat then extract_logits u t n_prev n_new n_all o else Ret o
       | None => Ret o
       end);
  o ← (match te, o_embd o with
       | Some t, Some _ => if (0 <? n_new)%nat then extract_embd u t n_prev n_new n_all o else Ret o
       | _, _ => Ret o
       end);
  sp ← copy_sampling u n_prev r (o_sampling o);
  Ret (mk_outputs (o_logits o) (o_embd o) (o_embd_seq o) sp).

(** ** The memory *)

Definition memory_update (m : M) (optimize : bool) : outcome (bool * M) :=
  '(cx, m) ← mi_init_update m optimize;
  match mi_get_status cx with
  | LLAMA_MEMORY_STATUS_SUCCESS =>
      '(_, m, _) ← mi_apply m cx;
      _ ← mi_init_full m;
      Ret (true, m)
  | _ => Ret (false, m)
  end.

(** The loop that finds a context for the batch, retrying once after an
    optimization; a failure is a return code. *)
Fixpoint find_context (fuel : nat) (m : M) (a : llama_batch_allocr) (output_all did_optimize : bool)
    : outcome ((Z + C) * M * llama_batch_allocr) :=
  match fuel with
  | O => NoFuel
  | S fuel =>
      '(cx, m, a) ← mi_init_batch m a (cp_n_ubatch cparams) output_all;
      match mi_get_status cx with
      | LLAMA_MEMORY_STATUS_SUCCESS => Ret (inr cx, m, a)
      | LLAMA_MEMORY_STATUS_NO_UPDATE => Ret (inl (-2), m, a)
      | LLAMA_MEMORY_STATUS_FAILED_PREPARE =>
          if did_optimize then Ret (inl 1, m, a)
          else
            '(updated, m) ← memory_update m true;
            if updated : bool then find_context fuel m a output_all true else Ret (inl 1, m, a)
      | LLAMA_MEMORY_STATUS_FAILED_COMPUTE => Ret (inl (-2), m, a)
      end
  end.

Definition process_ubatch (m : M) (cx : C) (u : llama_ubatch) (n_out : nat)
    : outcome ((ggml_status + graph_result) * M * C) :=
  '(ok, m, cx) ← mi_apply m cx;
  Ret (if negb ok then inl GGML_STATUS_FAILED else compute m cx u n_out, m, cx).

Definition INT32_MAX_POS : Z := 2 ^ 31 - 1.

(** "remove all positions of that ubatch from the memory module" *)
Definition remove_ubatch (m : M) (u : llama_ubatch) : outcome M :=
  pos_min ← foldM (fun pm i =>
      ids ← at_ (u_seq_id u) i; s ← at_ ids 0; p ← at_ (u_pos u) i;
      q ← at_z pm s; set_ pm (Z.to_nat s) (Z.min q p))
    (replicate LLAMA_MAX_SEQ INT32_MAX_POS) (seq 0 (u_n_tokens u));
  foldM (fun m s =>
    p ← at_ pos_min s;
    if p =? INT32_MAX_POS then Ret m
    else '(_, m) ← mi_seq_rm m (Z.of_nat s) p (-1); Ret m)
    m (seq 0 LLAMA_MAX_SEQ).

Definition failure_code (st : ggml_status) : outcome Z :=
  match st with
  | GGML_STATUS_ABORTED => Ret 2
  | GGML_STATUS_ALLOC_FAILED => Ret (-2)
  | GGML_STATUS_FAILED => Ret (-3)
  | GGML_STATUS_SUCCESS => Fatal "should not happen"
  end.

Definition count_outputs_of (u : llama_ubatch) (all : bool) : outcome nat :=
  if all then Ret (u_n_tokens u)
  else foldM (fun n i => o ← at_ (u_output u) i; Ret (if o =? 0 then n else S n)) 0%nat (seq 0 (u_n_tokens u)).

(** [do { ... } while (mctx->next())]; [Some code] is a failed computation. *)
Fixpoint decode_loop (fuel : nat) (n_all : nat) (all : bool) (m : M) (cx : C) (n_prev : nat) (o : outputs)
    : outcome (option Z * M * outputs * nat) :=
  match fuel with
  | O => NoFuel
  | S fuel =>
      u ← mi_get_ubatch cx;
      n_new ← count_outputs_of u all;
      '(r, m, cx) ← process_ubatch m cx u n_new;
      match r with
      | inl st =>
          m ← remove_ubatch m u;
          code ← failure_code st;
          Ret (Some code, m, o, n_new)
      | inr r =>
          o ← extract u r n_prev n_new n_all o;
          '(more, cx) ← mi_next cx;
          if more : bool then decode_loop fuel n_all all m cx (n_prev + n_new) o
          else Ret (None, m, o, n_new)
      end
  end.

(** ** The order of the outputs *)

(** The position of the least id from [i] on. *)
Definition find_min (ids : list nat) (i : nat) : outcome nat :=
  foldM (fun j_min j => x ← at_ ids j; y ← at_ ids j_min; Ret (if (x <? y)%nat then j else j_min))
    i (seq (S i) (length ids - S i)).

(** "selection sort, to minimize swaps": the sorted ids and the swaps. *)
Definition sort_outputs (ids : list nat) : outcome (list nat * list (nat * nat)) :=
  foldM (fun '(ids, swaps) i =>
    j_min ← find_min ids i;
    if (j_min =? i)%nat then Ret (ids, swaps)
    else ids ← swap ids i j_min; Ret (ids, swaps ++ [(i, j_min)]))
    (ids, []) (seq 0 (length ids - 1)).

(** [output_ids[out_ids[i]] = i] for all [i]. *)
Definition number_outputs (output_ids : list Z) (out_ids : list nat) : outcome (list Z) :=
  foldM (fun ids i => id ← at_ out_ids i; set_ ids id (Z.of_nat i)) output_ids (seq 0 (length out_ids)).

(** The mapping from the tokens of the batch to the outputs. *)
Definition map_outputs (c : llama_context) (n : nat) : outcome llama_context :=
  if (n =? 0)%nat then Ret c
  else
    let a := lc_balloc c in
    let out_ids := get_out_ids a in
    c_assert (length out_ids =? n)%nat "out_ids.size() == (size_t) n_outputs";;
    ids ← number_outputs (lc_output_ids c) out_ids;
    if bool_decide (out_ids = seq 0 n) || (n <=? 1)%nat then Ret (with_ids c ids (lc_output_swaps c))
    else
      '(sorted, swaps) ← sort_outputs out_ids;
      ids ← number_outputs (map (fun _ => -1) ids) sorted;
      Ret (with_ids (with_balloc c (Batch.set_used a sorted (Batch.n_used a) (Batch.used a))) ids (lc_output_swaps c ++ swaps)).

(** ** [encode] and [decode] *)

(** "backend sampling requires at most one output token per sequence" *)
Definition repeated_output (b : llama_batch) (n_seq_max : nat) (logits : list Z) : outcome bool :=
  r ← foldM (fun count i =>
      match count with
      | None => Ret None
      | Some count =>
          l ← at_ logits i;
          if l =? 0 then Ret (Some count)
          else
            ns ← (match b_n_seq_id b with Some v => at_ v i | None => Ret 1 end);
            foldM (fun count s =>
              match count with
              | None => Ret None
              | Some count =>
                  id ← (match b_seq_id b with Some v => ids ← at_ v i; at_ ids s | None => Ret 0 end);
                  n ← at_z count id;
                  count ← set_ count (Z.to_nat id) (S n);
                  Ret (if (1 <? S n)%nat then None else Some count)
              end) (Some count) (seq 0 (Z.to_nat ns))
      end) (Some (replicate n_seq_max 0%nat)) (seq 0 (Z.to_nat (b_n_tokens b)));
  Ret (bool_decide (r = None)).

Definition one_input (b : llama_batch) : bool :=
  match b_token b, b_embd b with None, Some _ | Some _, None => true | _, _ => false end.

Definition batch_seq_max : nat := if cp_kv_unified cparams then LLAMA_MAX_SEQ else cp_n_seq_max cparams.

(** Without the cross-attention data of T5 models. *)
Definition encode (c : llama_context) (b : llama_batch) : outcome (Z * llama_context) :=
  c_assert (one_input b) "(!batch_inp.token && batch_inp.embd) || (batch_inp.token && !batch_inp.embd)";;
  if b_n_tokens b =? 0 then Ret (-1, c)
  else
    r ← init (lc_balloc c) b (Z.of_nat (md_n_vocab model)) None (md_n_embd_inp model) batch_seq_max true;
    match r with
    | None => Ret (-1, c)
    | Some a =>
        let n := get_n_tokens a in
        '(u, a) ← split_simple a n;
        c_assert (n <=? cp_n_ubatch cparams)%nat "encoder requires n_ubatch >= n_tokens";;
        let c := with_out (with_balloc c a) (with_embd_seq (lc_out c) ∅) in
        let '(reserved, c) := output_reserve c n in
        if (reserved <? n)%nat then Ret (-2, c)
        else
          ids ← foldM (fun ids i => set_ ids i (Z.of_nat i)) (lc_output_ids c) (seq 0 n);
          let c := with_n_outputs (with_ids c ids (lc_output_swaps c)) n in
          match compute_encoder u n with
          | inl st => code ← failure_code st; Ret (code, c)
          | inr r =>
              let te := match t_embd_pooled r with Some p => Some p | None => t_embd r end in
              o ← (match t_logits r, o_logits (lc_out c) with
                   | Some t, Some b =>
                       b ← tensor_get t b 0 0 (n * md_n_vocab model);
                       Ret (mk_outputs (Some b) (o_embd (lc_out c)) (o_embd_seq (lc_out c)) (o_sampling (lc_out c)))
                   | _, _ => Ret (lc_out c)
                   end);
              o ← (match te, o_embd o with
                   | Some t, Some _ => extract_embd u t 0 n n o
                   | _, _ => Ret o
                   end);
              Ret (0, with_out c o)
          end
    end.

Definition decode (c : llama_context) (b : llama_batch) : outcome (Z * llama_context) :=
  c_assert (one_input b) "(!batch_inp.token && batch_inp.embd) || (batch_inp.token && !batch_inp.embd)";;
  match lc_memory c with
  | None => encode c b
  | Some m =>
      if b_n_tokens b =? 0 then Ret (-1, c)
      else
        let output_all := cp_embeddings cparams in
        bad ← (match b_logits b with
               | Some l => if bool_decide (samplers (o_sampling (lc_out c)) = ∅) then Ret false
                           else repeated_output b batch_seq_max l
               | None => Ret false
               end);
        if bad : bool then Ret (-1, c)
        else
          r ← init (lc_balloc c) b (Z.of_nat (md_n_vocab model)) (Some (mi_positions m)) (md_n_embd_inp model)
                batch_seq_max output_all;
          match r with
          | None => Ret (-1, c)
          | Some a =>
              let n_tokens_all := get_n_tokens a in
              let n_outputs_all := get_n_outputs a in
              let c := with_balloc c a in
              if output_all && negb (n_outputs_all =? n_tokens_all)%nat then Ret (-1, c)
              else
                c_assert (n_tokens_all <=? cp_n_batch cparams)%nat "n_tokens_all <= cparams.n_batch";;
                c_assert (cp_causal_attn cparams || (n_tokens_all <=? cp_n_ubatch cparams)%nat)
                  "non-causal attention requires n_ubatch >= n_tokens";;
                let c := with_ids (with_out c (with_embd_seq (lc_out c) ∅)) (lc_output_ids c) [] in
                '(_, m) ← memory_update m false;
                '(r, m, a) ← find_context 2 m a output_all false;
                let c := with_balloc (with_memory c m) a in
                match r with
                | inl code => Ret (code, c)
                | inr cx =>
                    let '(reserved, c) := output_reserve c n_outputs_all in
                    if (reserved <? n_outputs_all)%nat then Ret (-2, c)
                    else
                      '(r, m, o, n) ← decode_loop (S n_tokens_all) n_outputs_all (n_outputs_all =? n_tokens_all)%nat
                                        m cx 0 (lc_out c);
                      let c := with_out (with_memory (with_n_outputs c n) m) o in
                      match r with
                      | Some code => Ret (code, c)
                      | None =>
                          c ← map_outputs (with_n_outputs c n_outputs_all) n_outputs_all;
                          Ret (0, c)
                      end
                end
          end
  end.

End Decode.
