(* ===== verification/DecodeFacts.v ===== *)
(** * The order of the outputs.

    Selection sort, the swaps it records, what they do to the rows of a buffer
    when they are applied later, and the numbering of the tokens. *)

From S2P Require Import Prelude Batch KvCells KvCache KvInputs KvContext Decode.
From Stdlib Require Import Lia Sorted.

#[export] Instance List_filter_Permutation {A} (f : A -> bool) : Proper ((≡ₚ) ==> (≡ₚ)) (List.filter f).
Proof.
  induction 1 as [|x l l' _ IH|x y l|l1 l2 l3 _ IH1 _ IH2]; simpl; [done| | |by etrans].
  - destruct (f x); by rewrite IH.
  - destruct (f x), (f y); try done. constructor.
Qed.

(** ** Swapping elements *)

(** The list with two elements exchanged. *)
Definition swapped {A} (l : list A) (i j : nat) : list A :=
  match l !! i, l !! j with Some x, Some y => <[j := x]> (<[i := y]> l) | _, _ => l end.

(** The swaps of [sw], one after the other. *)
Definition swapped_all {A} (l : list A) (sw : list (nat * nat)) : list A :=
  foldl (fun l '(i, j) => swapped l i j) l sw.

Lemma swap_ok {A} (l : list A) i j : (i < length l)%nat -> (j < length l)%nat -> swap l i j = Ret (swapped l i j).
Proof.
  intros Hi Hj. destruct (lookup_lt_is_Some_2 l i Hi) as [x Hx]. destruct (lookup_lt_is_Some_2 l j Hj) as [y Hy].
  unfold swap, swapped. rewrite Hx, Hy, (proj2 (at_Ret _ _ _) Hx), (proj2 (at_Ret _ _ _) Hy). cbn [mbind outcome_bind].
  unfold set_. rewrite decide_True by done. cbn [mbind outcome_bind]. by rewrite decide_True by (by rewrite length_insert).
Qed.

Lemma length_swapped {A} (l : list A) i j : length (swapped l i j) = length l.
Proof. unfold swapped. repeat case_match; by rewrite ?length_insert. Qed.

Lemma lookup_swapped {A} (l : list A) i j k : (i < length l)%nat -> (j < length l)%nat ->
  swapped l i j !! k = if decide (k = i) then l !! j else if decide (k = j) then l !! i else l !! k.
Proof.
  intros Hi Hj. destruct (lookup_lt_is_Some_2 l i Hi) as [x Hx]. destruct (lookup_lt_is_Some_2 l j Hj) as [y Hy].
  unfold swapped. rewrite Hx, Hy. destruct (decide (k = j)) as [->|Hkj].
  - rewrite list_lookup_insert_eq by (by rewrite length_insert). destruct (decide (j = i)) as [->|]; congruence.
  - rewrite list_lookup_insert_ne by done. destruct (decide (k = i)) as [->|].
    + by rewrite list_lookup_insert_eq.
    + by rewrite list_lookup_insert_ne.
Qed.

Lemma swapped_perm {A} (l : list A) i j : swapped l i j ≡ₚ l.
Proof.
  unfold swapped. destruct (l !! i) as [x|] eqn:Hx; [|done]. destruct (l !! j) as [y|] eqn:Hy; [|done].
  destruct (decide (i = j)) as [->|Hne]; [rewrite list_insert_insert_eq, list_insert_id by congruence; done|].
  pose proof (lookup_lt_Some _ _ _ Hx) as Hi. pose proof (lookup_lt_Some _ _ _ Hy) as Hj.
  assert (H : forall (l : list A) i j x y, l !! i = Some x -> l !! j = Some y -> (i < j)%nat ->
    <[j := x]> (<[i := y]> l) ≡ₚ l).
  { clear. intros l i j x y Hx Hy Hij. rewrite <- (take_drop_middle l i x Hx) at 2.
    assert (Hy' : drop (S i) l !! (j - S i)%nat = Some y) by (rewrite lookup_drop; by replace (S i + (j - S i))%nat with j by lia).
    rewrite <- (take_drop_middle (drop (S i) l) (j - S i) y Hy'). pose proof (lookup_lt_Some _ _ _ Hy).
    assert (E1 : <[i := y]> l = take i l ++ y :: drop (S i) l) by (apply insert_take_drop; lia).
    rewrite E1. rewrite insert_app_r_alt by (rewrite length_take; lia). rewrite length_take, Nat.min_l by lia.
    replace (j - i)%nat with (S (j - S i))%nat by lia.
    assert (E2 : <[S (j - S i) := x]> (y :: drop (S i) l) = y :: <[(j - S i)%nat := x]> (drop (S i) l)) by done.
    rewrite E2, insert_take_drop by (rewrite length_drop; lia). by rewrite <- !Permutation_middle, Permutation_swap. }
  destruct (decide (i < j)%nat); [by apply H|]. rewrite list_insert_insert_ne by done. apply H; [done|done|lia].
Qed.

Lemma length_swapped_all {A} (l : list A) sw : length (swapped_all l sw) = length l.
Proof.
  revert l. induction sw as [|[i j] sw IH]; intros l; [done|]. unfold swapped_all in *. simpl. by rewrite IH, length_swapped.
Qed.

Lemma swapped_all_snoc {A} (l : list A) sw i j : swapped_all l (sw ++ [(i, j)]) = swapped (swapped_all l sw) i j.
Proof. unfold swapped_all. by rewrite foldl_app. Qed.

Lemma swapped_all_perm {A} (l : list A) sw : swapped_all l sw ≡ₚ l.
Proof.
  revert l. induction sw as [|[i j] sw IH]; intros l; [done|]. unfold swapped_all in *. simpl. by rewrite IH, swapped_perm.
Qed.

(** The swaps are inside of a list of [n] elements. *)
Definition swaps_in (n : nat) (sw : list (nat * nat)) : Prop :=
  Forall (fun '(i, j) => (i < n)%nat /\ (j < n)%nat /\ i <> j) sw.

(** Swapping commutes with a map. *)
Lemma swapped_fmap {A B} (f : A -> B) l i j : swapped (f <$> l) i j = f <$> swapped l i j.
Proof.
  unfold swapped. rewrite !list_lookup_fmap. destruct (l !! i), (l !! j); cbn [fmap option_fmap option_map]; [|done..].
  by rewrite !list_fmap_insert.
Qed.

Lemma swapped_all_fmap {A B} (f : A -> B) sw : forall l, swapped_all (f <$> l) sw = f <$> swapped_all l sw.
Proof.
  induction sw as [|[i j] sw IH]; intros l; [done|]. unfold swapped_all in *. simpl. by rewrite swapped_fmap, IH.
Qed.

(** ** Selection sort *)

(** [j] is the position of the least element from [i] on. *)
Lemma find_min_ok ids i : (i < length ids)%nat -> exists j x, find_min ids i = Ret j /\ (i <= j)%nat
  /\ ids !! j = Some x /\ forall k y, (i <= k)%nat -> ids !! k = Some y -> (x <= y)%nat.
Proof.
  intros Hi. unfold find_min.
  destruct (foldM_prefix (fun j_min j => x ← at_ ids j; y ← at_ ids j_min; Ret (if (x <? y)%nat then j else j_min))
    (fun pre j => (i <= j)%nat /\ exists x, ids !! j = Some x
       /\ forall k y, (i <= k < S i + length pre)%nat -> ids !! k = Some y -> (x <= y)%nat)
    i (seq (S i) (length ids - S i))) as (j & -> & Hj & x & Hx & Hmin).
  - split; [done|]. destruct (lookup_lt_is_Some_2 ids i Hi) as [x Hx]. exists x. split; [done|].
    intros k y Hk Hy. simpl in Hk. assert (k = i) as -> by lia. assert (y = x) as -> by congruence. done.
  - intros pre j rest j_min Hall (Hj & x & Hx & Hmin).
    assert (Hin : seq (S i) (length ids - S i) !! length pre = Some j).
    { rewrite Hall, lookup_app_r, Nat.sub_diag by lia. done. }
    apply lookup_seq in Hin as [-> Hlt]. destruct (lookup_lt_is_Some_2 ids (S i + length pre)) as [y Hy]; [lia|].
    rewrite (proj2 (at_Ret _ _ _) Hy), (proj2 (at_Ret _ _ _) Hx). cbn [mbind outcome_bind].
    eexists. split; [reflexivity|]. rewrite length_app. simpl length.
    assert (Hcase : forall k z, (i <= k < S i + (length pre + 1))%nat -> ids !! k = Some z ->
      (x <= z)%nat \/ (z = y)).
    { intros k z Hk Hz. destruct (decide (k = S i + length pre)%nat) as [->|]; [right; congruence|].
      left. apply (Hmin k z); [lia|done]. }
    destruct (Nat.ltb_spec y x) as [Hlt'|Hge].
    + split; [lia|]. exists y. split; [done|]. intros k z Hk Hz. destruct (Hcase k z Hk Hz); lia.
    + split; [done|]. exists x. split; [done|]. intros k z Hk Hz. destruct (Hcase k z Hk Hz); lia.
  - exists j, x. split_and!; [done|done|done|]. intros k y Hk Hy. apply (Hmin k y); [|done].
    rewrite length_seq. apply lookup_lt_Some in Hy. lia.
Qed.

(** The first [n] elements are in order, and none of the others is less. *)
Definition sorted_to (n : nat) (ids : list nat) : Prop :=
  forall i j x y, (i < n)%nat -> (i < j)%nat -> ids !! i = Some x -> ids !! j = Some y -> (x <= y)%nat.

Lemma sort_outputs_ok ids : exists sorted swaps, sort_outputs ids = Ret (sorted, swaps)
  /\ sorted = swapped_all ids swaps /\ swaps_in (length ids) swaps
  /\ forall i j x y, (i < j)%nat -> sorted !! i = Some x -> sorted !! j = Some y -> (x <= y)%nat.
Proof.
  unfold sort_outputs.
  destruct (foldM_prefix (fun '(l, swaps) i =>
      j_min ← find_min l i;
      if (j_min =? i)%nat then Ret (l, swaps) else l ← swap l i j_min; Ret (l, swaps ++ [(i, j_min)]))
    (fun pre '(l, swaps) => l = swapped_all ids swaps /\ swaps_in (length ids) swaps /\ sorted_to (length pre) l)
    (ids, []) (seq 0 (length ids - 1))) as ([sorted swaps] & -> & Hs & Hin & Hsorted).
  - split_and!; [done|constructor|]. intros i j x y Hi. simpl in Hi. lia.
  - intros pre i rest [l swaps] Hall (Hl & Hin & Hso).
    assert (Hi : seq 0 (length ids - 1) !! length pre = Some i).
    { rewrite Hall, lookup_app_r, Nat.sub_diag by lia. done. }
    apply lookup_seq in Hi as [-> Hi]. simpl (0 + _)%nat. set (i := length pre) in *.
    assert (Hlen : length l = length ids) by (by rewrite Hl, length_swapped_all).
    destruct (find_min_ok l i) as (j & x & -> & Hij & Hx & Hmin); [lia|]. cbn [mbind outcome_bind].
    pose proof (lookup_lt_Some _ _ _ Hx) as Hj. rewrite length_app. simpl length. fold i.
    assert (Hnew : sorted_to (i + 1) (swapped l i j)).
    { intros a b y z Ha Hab Hy Hz. rewrite !lookup_swapped in * by lia.
      destruct (decide (a = i)) as [->|Hai].
      - assert (y = x) as -> by congruence. destruct (decide (b = i)); [lia|].
        destruct (decide (b = j)) as [->|]; [apply (Hmin i z); [lia|done]|apply (Hmin b z); [lia|done]].
      - destruct (decide (a = j)); [lia|]. destruct (decide (b = i)) as [->|]; [apply (Hso a j y z); [lia|lia|done|done]|].
        destruct (decide (b = j)) as [->|]; [apply (Hso a i y z); [lia|lia|done|done]|apply (Hso a b y z); [lia|done|done|done]]. }
    destruct (Nat.eqb_spec j i) as [->|Hne].
    + eexists. split; [done|]. split_and!; [done|done|]. intros a b y z Ha Hab Hy Hz. apply (Hnew a b y z Ha Hab).
      * rewrite lookup_swapped by lia. repeat case_decide; congruence.
      * rewrite lookup_swapped by lia. repeat case_decide; congruence.
    + rewrite swap_ok by lia. cbn [mbind outcome_bind]. eexists. split; [done|]. split_and!; [|apply Forall_app; split; [done|]|done].
      * by rewrite swapped_all_snoc, <- Hl.
      * apply Forall_singleton. lia.
  - exists sorted, swaps. split_and!; [done|done|done|]. intros i j x y Hij Hx Hy. rewrite length_seq in Hsorted.
    apply (Hsorted i j x y); [|done|done|done]. apply lookup_lt_Some in Hy. rewrite Hs, length_swapped_all in Hy. lia.
Qed.

(** ** Buffers of rows *)

(** All rows have [n] values. *)
Definition uniform {A} (n : nat) (rows : list (list A)) : Prop := Forall (fun r => length r = n) rows.

Lemma length_concat_uniform {A} n (rows : list (list A)) : uniform n rows -> length (concat rows) = (length rows * n)%nat.
Proof. induction 1 as [|r rows Hr _ IH]; [done|]. simpl. rewrite length_app, IH. lia. Qed.

Lemma lookup_uniform {A} n (rows : list (list A)) i k : uniform n rows -> (k < n)%nat ->
  concat rows !! (i * n + k)%nat = r ← rows !! i; r !! k.
Proof.
  intros Hu Hk. revert i. induction Hu as [|r rows Hr Hu IH]; intros i; [done|]. simpl. destruct i as [|i].
  - simpl. by rewrite lookup_app_l by lia.
  - rewrite lookup_app_r by lia. rewrite Hr. replace (S i * n + k - n)%nat with (i * n + k)%nat by lia. apply IH.
Qed.

(** Two buffers of equally many rows are equal when their rows have the same values. *)
Lemma uniform_eq {A} n (rows : list (list A)) l : uniform n rows -> length l = length (concat rows) ->
  (forall i k, (k < n)%nat -> l !! (i * n + k)%nat = r ← rows !! i; r !! k) -> l = concat rows.
Proof.
  intros Hu Hlen Hl. destruct (decide (n = 0%nat)) as [->|Hn].
  { rewrite (length_concat_uniform 0 rows Hu) in Hlen. pose proof (length_concat_uniform 0 rows Hu) as Hc.
    destruct l; [|simpl in Hlen; lia]. destruct (concat rows); [done|simpl in Hc; lia]. }
  apply list_eq. intros q. rewrite (Nat.div_mod_eq q n), (Nat.mul_comm n).
  rewrite Hl by (by apply Nat.mod_upper_bound). rewrite lookup_uniform; [done|done|by apply Nat.mod_upper_bound].
Qed.

Lemma uniform_swapped {A} n (rows : list (list A)) i j : uniform n rows -> uniform n (swapped rows i j).
Proof. unfold uniform. by rewrite (swapped_perm rows i j). Qed.

Lemma swap_rows_ok {A} n (rows : list (list A)) i0 i1 : uniform n rows -> (i0 < length rows)%nat ->
  (i1 < length rows)%nat -> i0 <> i1 -> swap_rows n i0 i1 (concat rows) = Ret (concat (swapped rows i0 i1)).
Proof.
  intros Hu H0 H1 Hne. unfold swap_rows. pose proof (length_concat_uniform n rows Hu) as Hlen.
  destruct (foldM_prefix (fun l k => swap l (i0 * n + k) (i1 * n + k))
    (fun pre l => length l = length (concat rows) /\ forall r k, (k < n)%nat ->
       l !! (r * n + k)%nat = (row ← (if decide (k < length pre)%nat then swapped rows i0 i1 else rows) !! r; row !! k))
    (concat rows) (seq 0 n)) as (l & -> & Hl & Hlook).
  - split; [done|]. intros r k Hk. by apply lookup_uniform.
  - intros pre k rest l Hall (Hl & Hlook).
    assert (Hk : seq 0 n !! length pre = Some k) by (rewrite Hall, lookup_app_r, Nat.sub_diag by lia; done).
    apply lookup_seq in Hk as [-> Hk]. simpl (0 + _)%nat. set (k := length pre) in *.
    assert (Ha : forall r, (r < length rows)%nat -> (r * n + k < length l)%nat) by (intros r Hr; nia).
    rewrite swap_ok by (by apply Ha). eexists. split; [done|]. rewrite length_swapped, length_app. simpl length. fold k.
    split; [done|]. intros r c Hc. rewrite lookup_swapped by (by apply Ha).
    assert (Heq : forall r', (r * n + c)%nat = (r' * n + k)%nat -> r = r' /\ c = k).
    { intros r' E. apply (Nat.div_mod_unique n); [done|done|lia]. }
    assert (Hrow : forall r', (row ← (if decide (k < k)%nat then swapped rows i0 i1 else rows) !! r'; row !! k)
      = (row ← rows !! r'; row !! k)) by (intros r'; rewrite decide_False by lia; done).
    destruct (decide (r * n + c = i0 * n + k)%nat) as [E|E0].
    { destruct (Heq i0 E) as [-> ->]. rewrite Hlook, Hrow by done. rewrite decide_True by lia.
      by rewrite lookup_swapped, decide_True by done. }
    destruct (decide (r * n + c = i1 * n + k)%nat) as [E|E1].
    { destruct (Heq i1 E) as [-> ->]. rewrite Hlook, Hrow by done. rewrite (decide_True _ _ (P := (k < k + 1)%nat)) by lia.
      rewrite lookup_swapped by done. rewrite decide_False by done. by rewrite decide_True. }
    rewrite Hlook by done. destruct (decide (c < k)%nat) as [Hck|Hck]; [by rewrite (decide_True (P := (c < k + 1)%nat)) by lia|].
    destruct (decide (c = k)) as [->|Hck']; [|by rewrite (decide_False (P := (c < k + 1)%nat)) by lia].
    rewrite (decide_True (P := (k < k + 1)%nat)) by lia.
    rewrite lookup_swapped by done. rewrite (decide_False (P := r = i0)) by (intros ->; by apply E0).
    by rewrite (decide_False (P := r = i1)) by (intros ->; by apply E1).
  - rewrite length_seq in Hlook. f_equal. apply (uniform_eq n); [by apply uniform_swapped| |].
    + by rewrite Hl, Hlen, (length_concat_uniform n) by (by apply uniform_swapped); rewrite length_swapped.
    + intros r k Hk. rewrite Hlook by done. by rewrite decide_True.
Qed.

(** The rows a buffer of [total] rows of [n] values has after the rows [done] were written. *)
Definition rows_of {F} (n total : nat) (done : list (list F)) : list (list (option F)) :=
  map (map Some) done ++ replicate (total - length done) (replicate n None).

Lemma uniform_rows_of {F} n total (done : list (list F)) : uniform n done -> uniform n (rows_of n total done).
Proof.
  intros Hu. apply Forall_app. split.
  - apply Forall_map. eapply Forall_impl; [exact Hu|]. intros r Hr. simpl. by rewrite length_map.
  - apply Forall_replicate. apply length_replicate.
Qed.

Lemma length_rows_of {F} n total (done : list (list F)) : (length done <= total)%nat ->
  length (rows_of n total done) = total.
Proof. intros H. unfold rows_of. rewrite length_app, length_map, length_replicate. lia. Qed.

Lemma concat_replicate {A} n k (x : A) : concat (replicate k (replicate n x)) = replicate (n * k) x.
Proof.
  induction k as [|k IH]; [by rewrite Nat.mul_0_r|]. simpl. rewrite IH, <- replicate_add. f_equal. lia.
Qed.

Lemma rows_of_nil {F} n total : concat (@rows_of F n total []) = replicate (n * total) None.
Proof. unfold rows_of. simpl. by rewrite concat_replicate, Nat.sub_0_r. Qed.

(** Copying the tensor with the rows [new] behind the rows [done]. *)
Lemma tensor_get_rows {F} n total (done new : list (list F)) : uniform n done -> uniform n new ->
  (length done + length new <= total)%nat ->
  tensor_get (concat new) (concat (rows_of n total done)) (length done * n) 0 (length new * n)
  = Ret (concat (rows_of n total (done ++ new))).
Proof.
  intros Hd Hn Hle. pose proof (length_concat_uniform n new Hn) as Hln. unfold tensor_get.
  rewrite (length_concat_uniform n _ (uniform_rows_of n total done Hd)), length_rows_of, Hln by lia.
  rewrite (proj2 (Nat.leb_le (0 + _) _)) by done. cbn [c_assert mbind outcome_bind].
  rewrite (proj2 (Nat.leb_le _ _)) by (rewrite <- Nat.mul_add_distr_r; by apply Nat.mul_le_mono_r).
  f_equal. rewrite drop_0, (take_ge (concat new)) by lia.
  assert (Hdone : length (concat (map (map Some) done)) = (length done * n)%nat).
  { rewrite (length_concat_uniform n), length_map; [done|]. apply Forall_map. eapply Forall_impl; [exact Hd|].
    intros r Hr. simpl. by rewrite length_map. }
  unfold rows_of. rewrite map_app, !concat_app, !concat_replicate, length_app, <- app_assoc.
  rewrite take_app_length' by done. f_equal. rewrite concat_map. f_equal.
  rewrite skipn_app, Hdone, (skipn_all2 (concat (map (map Some) done))) by lia. simpl app.
  rewrite drop_replicate. f_equal. nia.
Qed.

(** ** Numbering the outputs *)

Lemma number_outputs_ok ids out_ids : NoDup out_ids -> (forall t, t ∈ out_ids -> (t < length ids)%nat) ->
  exists ids', number_outputs ids out_ids = Ret ids' /\ length ids' = length ids
  /\ (forall j t, out_ids !! j = Some t -> ids' !! t = Some (Z.of_nat j))
  /\ forall t, t ∉ out_ids -> ids' !! t = ids !! t.
Proof.
  intros Hnd Hin. unfold number_outputs.
  destruct (foldM_prefix (fun ids i => id ← at_ out_ids i; set_ ids id (Z.of_nat i))
    (fun pre l => length l = length ids
       /\ (forall j t, (j < length pre)%nat -> out_ids !! j = Some t -> l !! t = Some (Z.of_nat j))
       /\ forall t, t ∉ out_ids -> l !! t = ids !! t) ids (seq 0 (length out_ids))) as (ids' & E1 & Hl & H1 & H2).
  - split_and!; [done| |done]. intros j t Hj. simpl in Hj. lia.
  - intros pre i rest l Hall (Hl & H1 & H2).
    assert (Hi : seq 0 (length out_ids) !! length pre = Some i) by (rewrite Hall, lookup_app_r, Nat.sub_diag by lia; done).
    apply lookup_seq in Hi as [-> Hi]. simpl (0 + _)%nat. destruct (lookup_lt_is_Some_2 out_ids (length pre) Hi) as [t Ht].
    assert (Htl : (t < length l)%nat) by (rewrite Hl; apply Hin; by eapply list_elem_of_lookup_2).
    rewrite (proj2 (at_Ret _ _ _) Ht). cbn [mbind outcome_bind]. unfold set_. rewrite decide_True by done.
    eexists. split; [done|]. rewrite length_insert, length_app. simpl length. split_and!; [done| |].
    + intros j t' Hj Ht'. destruct (decide (t' = t)) as [->|Hne].
      * rewrite list_lookup_insert_eq by done. by rewrite (NoDup_lookup _ _ _ _ Hnd Ht' Ht).
      * rewrite list_lookup_insert_ne by done. apply H1; [|done]. destruct (decide (j = length pre)) as [->|]; [congruence|lia].
    + intros t' Ht'. rewrite list_lookup_insert_ne; [by apply H2|]. intros ->. apply Ht'. by eapply list_elem_of_lookup_2.
  - exists ids'. split_and!; [done|done| |done]. intros j t Hj. apply H1; [|done].
    rewrite length_seq. by eapply lookup_lt_Some.
Qed.

(** A sorted list without repetitions is determined by its elements. *)
Lemma sorted_unique (l l' : list nat) : NoDup l -> l ≡ₚ l' ->
  (forall i j x y, (i < j)%nat -> l !! i = Some x -> l !! j = Some y -> (x <= y)%nat) ->
  (forall i j x y, (i < j)%nat -> l' !! i = Some x -> l' !! j = Some y -> (x <= y)%nat) -> l = l'.
Proof.
  assert (Hs : forall l : list nat, (forall i j x y, (i < j)%nat -> l !! i = Some x -> l !! j = Some y -> (x <= y)%nat) ->
    StronglySorted le l).
  { clear. induction l as [|a l IH]; intros H; constructor.
    - apply IH. intros i j x y Hij Hx Hy. apply (H (S i) (S j) x y); [lia|done|done].
    - apply Forall_forall. intros y (j & Hy)%list_elem_of_lookup_1. apply (H 0%nat (S j) a y); [lia|done|done]. }
  intros _ Hp H H'. apply (StronglySorted_unique le); auto.
Qed.

Lemma sorted_lookup l i j x y : StronglySorted le l -> (i < j)%nat -> l !! i = Some x -> l !! j = Some y -> (x <= y)%nat.
Proof.
  intros Hs. revert i j. induction Hs as [|a l _ IH Ha]; intros i j Hij Hx Hy; [done|]. destruct j as [|j]; [lia|].
  destruct i as [|i]; [|by apply (IH i j); [lia|done|done]]. injection Hx as ->.
  rewrite Forall_forall in Ha. apply Ha. by eapply list_elem_of_lookup_2.
Qed.

Lemma filter_seq_sorted (f : nat -> bool) n i j x y : (i < j)%nat ->
  List.filter f (seq 0 n) !! i = Some x -> List.filter f (seq 0 n) !! j = Some y -> (x <= y)%nat.
Proof.
  enough (H : forall s, StronglySorted le (List.filter f (seq s n)) /\ Forall (le s) (List.filter f (seq s n))).
  { intros Hij Hx Hy. destruct (H 0%nat) as [Hs _]. by apply (sorted_lookup _ i j x y Hs). }
  induction n as [|n IH]; intros s; [split; constructor|]. simpl. destruct (IH (S s)) as [H1 H2].
  assert (H3 : Forall (le s) (List.filter f (seq (S s) n))) by (eapply Forall_impl; [exact H2|]; simpl; lia).
  destruct (f s); [|done]. split; constructor; [done|done|lia|done].
Qed.
