(* ===== verification/DecodeRun.v ===== *)
(** * The loop over the ubatches.

    Against the interface of the memory: a context that passes through its
    ubatches, a computation that returns a row of logits for every output, and
    the rows the loop collects. *)

From S2P Require Import Prelude Batch BatchFacts BatchTheorems BatchInit.
From S2P Require Import KvCells KvCache KvInputs KvContext Decode DecodeFacts.
From Stdlib Require Import Lia.

Section Run.
Context {E F M C : Type} {Hmi : @memory_i E M C}.
Notation llama_ubatch := (llama_ubatch E).
Notation outputs := (@outputs F).
Implicit Types (u : llama_ubatch) (o : outputs).

(** ** Contexts *)

(** The context goes through the ubatches of [steps], each with the memory after
    it was applied, and stops with the memory [m']. *)
Inductive passes : M -> C -> list (M * llama_ubatch) -> M -> Prop :=
  | passes_last m cx u m1 cx1 cx2 :
      mi_get_ubatch cx = Ret u -> mi_apply m cx = Ret (true, m1, cx1) -> mi_next cx1 = Ret (false, cx2) ->
      passes m cx [(m1, u)] m1
  | passes_next m cx u m1 cx1 cx2 steps m' :
      mi_get_ubatch cx = Ret u -> mi_apply m cx = Ret (true, m1, cx1) -> mi_next cx1 = Ret (true, cx2) ->
      passes m1 cx2 steps m' -> passes m cx ((m1, u) :: steps) m'.

(** ** Outputs of a ubatch *)

(** The tokens of the ubatch with an output. *)
Definition out_pos u : list nat :=
  List.filter (fun ii => negb (nth ii (u_output u) 0 =? 0)) (seq 0 (u_n_tokens u)).

(** The fields that taking the outputs reads. *)
Record outputs_ok u : Prop := {
  oo_output : length (u_output u) = u_n_tokens u;
  oo_seqs ii : (ii < u_n_tokens u)%nat -> exists n ids s, u_n_seq_id u !! ii = Some n /\ 0 < n
    /\ u_seq_id u !! ii = Some ids /\ ids !! 0%nat = Some s;
}.

Lemma output_at u ii : outputs_ok u -> (ii < u_n_tokens u)%nat ->
  exists x, u_output u !! ii = Some x /\ nth ii (u_output u) 0 = x.
Proof.
  intros Hu Hi. destruct (lookup_lt_is_Some_2 (u_output u) ii) as [x Hx]; [rewrite (oo_output u Hu); done|].
  exists x. split; [done|]. by apply nth_lookup_Some.
Qed.

Lemma count_outputs_ok u all : outputs_ok u -> (all = true -> length (out_pos u) = u_n_tokens u) ->
  count_outputs_of u all = Ret (length (out_pos u)).
Proof.
  intros Hu Hall. unfold count_outputs_of. destruct all; [by rewrite Hall|]. unfold out_pos.
  destruct (foldM_prefix (fun n i => o ← at_ (u_output u) i; Ret (if o =? 0 then n else S n))
    (fun pre n => n = length (List.filter (fun ii => negb (nth ii (u_output u) 0 =? 0)) pre))
    0%nat (seq 0 (u_n_tokens u))) as (n & -> & ->); [done| |done].
  intros pre i rest n Hseq ->. assert (Hi : i ∈ seq 0 (u_n_tokens u)) by (rewrite Hseq; set_solver).
  apply elem_of_seq in Hi. destruct (output_at u i Hu) as (x & Hx & Hn); [lia|].
  rewrite (proj2 (at_Ret _ _ _) Hx). cbn [mbind outcome_bind]. eexists. split; [done|].
  rewrite List.filter_app, length_app. simpl. rewrite Hn. destruct (x =? 0); simpl; lia.
Qed.

(** Without samplers the logits of a ubatch with an output are taken. *)
Lemma needs_raw_ok u : outputs_ok u -> out_pos u <> [] -> needs_raw_logits u ∅ = Ret true.
Proof.
  intros Hu Hne. unfold needs_raw_logits.
  match goal with |- foldM ?f _ _ = _ => set (step := f) end.
  destruct (foldM_prefix step
    (fun pre r => r = bool_decide (List.filter (fun ii => negb (nth ii (u_output u) 0 =? 0)) pre <> []))
    false (seq 0 (u_n_tokens u))) as (r & -> & ->).
  - by rewrite bool_decide_eq_false_2 by (intros []; done).
  - intros pre i rest r Hseq ->. assert (Hi : i ∈ seq 0 (u_n_tokens u)) by (rewrite Hseq; set_solver).
    apply elem_of_seq in Hi. destruct (output_at u i Hu) as (x & Hx & Hn); [lia|].
    rewrite List.filter_app. simpl. rewrite Hn. unfold step. case_bool_decide as Hp.
    { eexists. split; [done|]. rewrite bool_decide_eq_true_2; [done|]. by intros [? _]%app_eq_nil. }
    rewrite (proj2 (at_Ret _ _ _) Hx). cbn [mbind outcome_bind]. rewrite Hp.
    destruct (Z.eqb_spec x 0) as [->|Hx0]; [by exists false|]. destruct (oo_seqs u Hu i) as (n & ids & s & H1 & H2 & H3 & H4); [lia|].
    rewrite (proj2 (at_Ret _ _ _) H1). cbn [mbind outcome_bind]. exists true. split; [|done].
    destruct (Z.to_nat n) as [|k] eqn:Ek; [lia|]. cbn [seq foldM]. rewrite (proj2 (at_Ret _ _ _) H3). cbn [mbind outcome_bind].
    rewrite (proj2 (at_Ret _ _ _) H4). cbn [mbind outcome_bind]. rewrite bool_decide_eq_true_2 by set_solver.
    clear. generalize (seq 1 k). intros l. induction l as [|j l IH]; [done|]. exact IH.
  - f_equal. by apply bool_decide_eq_true_2.
Qed.

(** ** The rows of a run *)

Context (model : llama_model) (cparams : llama_cparams).
Context (compute : M -> C -> llama_ubatch -> nat -> ggml_status + @graph_result F).
Context (row : M -> llama_ubatch -> nat -> list F).

(** The computation of [u] returns the row [row m u ii] for every output token [ii], in order. *)
Record computes (m : M) (u : llama_ubatch) : Prop := {
  cm_row ii : length (row m u ii) = md_n_vocab model;
  cm_run cx : exists r, compute m cx u (length (out_pos u)) = inr r
    /\ t_logits r = Some (concat (map (row m u) (out_pos u)));
}.

Definition step_rows (steps : list (M * llama_ubatch)) : list (list F) :=
  concat (map (fun '(m, u) => map (row m u) (out_pos u)) steps).

Lemma uniform_rows m u : computes m u -> uniform (md_n_vocab model) (map (row m u) (out_pos u)).
Proof. intros Hc. apply Forall_map, Forall_forall. intros ii _. apply (cm_row m u Hc). Qed.

Lemma uniform_step_rows steps : Forall (fun s => computes s.1 s.2) steps -> uniform (md_n_vocab model) (step_rows steps).
Proof.
  induction 1 as [|[m u] steps Hc _ IH]; [constructor|]. unfold step_rows. simpl. apply Forall_app.
  split; [by apply uniform_rows|done].
Qed.

(** Buffers for logits only, and no samplers. *)
Definition plain_outputs o : Prop := o_embd o = None /\ samplers (o_sampling o) = ∅.

Definition set_logits o (b : list (option F)) : outputs := mk_outputs (Some b) (o_embd o) (o_embd_seq o) (o_sampling o).

Lemma extract_ok u m r done total n_all o : outputs_ok u -> computes m u -> plain_outputs o ->
  t_logits r = Some (concat (map (row m u) (out_pos u))) -> uniform (md_n_vocab model) done ->
  o_logits o = Some (concat (rows_of (md_n_vocab model) total done)) ->
  (length done + length (out_pos u) <= n_all)%nat -> (n_all <= total)%nat ->
  extract model cparams u r (length done) (length (out_pos u)) n_all o
  = Ret (set_logits o (concat (rows_of (md_n_vocab model) total (done ++ map (row m u) (out_pos u))))).
Proof.
  intros Hu Hc [He Hs] Hr Hd Hl Hn Ht. unfold extract. rewrite Hr.
  assert (Hx : (if (0 <? length (out_pos u))%nat
      then extract_logits model u (concat (map (row m u) (out_pos u))) (length done) (length (out_pos u)) n_all o else Ret o)
    = Ret (set_logits o (concat (rows_of (md_n_vocab model) total (done ++ map (row m u) (out_pos u)))))).
  { destruct (Nat.ltb_spec 0 (length (out_pos u))) as [Hlt|Hge].
    - unfold extract_logits. rewrite Hl, Hs, needs_raw_ok; [|done|intros E0; rewrite E0 in Hlt; simpl in Hlt; lia]. cbn [mbind outcome_bind].
      rewrite (proj2 (Nat.leb_le (length done + length (out_pos u)) n_all)) by lia. cbn [c_assert mbind outcome_bind].
      rewrite (length_concat_uniform (md_n_vocab model)) by (by apply uniform_rows_of). rewrite length_rows_of by lia.
      rewrite (proj2 (Nat.leb_le _ _)) by (apply Nat.mul_le_mono_r; lia). cbn [c_assert mbind outcome_bind].
      pose proof (tensor_get_rows (md_n_vocab model) total done (map (row m u) (out_pos u)) Hd (uniform_rows m u Hc)) as Hget.
      rewrite length_map in Hget. rewrite Hget by lia. done.
    - destruct (out_pos u) eqn:E0; [|simpl in Hge; lia]. simpl. rewrite app_nil_r. unfold set_logits. rewrite <- Hl. by destruct o. }
  rewrite Hx. cbn [mbind outcome_bind]. unfold set_logits. cbn [o_embd o_sampling o_logits o_embd_seq]. rewrite He.
  match goal with |- (o0 ← (match ?te with Some _ => Ret ?oo | None => Ret ?oo end); _) = _ =>
    replace (match te with Some _ => Ret oo | None => Ret oo end) with (Ret oo : outcome _) by by destruct te end.
  cbn [mbind outcome_bind]. unfold copy_sampling. cbn [o_embd o_sampling o_logits o_embd_seq]. rewrite Hs.
  rewrite bool_decide_eq_true_2 by done. done.
Qed.

(** The steps of a run whose outputs can be taken. *)
Definition steps_ok (all : bool) (steps : list (M * llama_ubatch)) : Prop :=
  Forall (fun s => outputs_ok s.2 /\ (all = true -> length (out_pos s.2) = u_n_tokens s.2)) steps.

(** One step of the loop. *)
Lemma loop_step m cx u m1 cx1 cx2 more all n_all total fuel rows o :
  mi_get_ubatch cx = Ret u -> mi_apply m cx = Ret (true, m1, cx1) -> mi_next cx1 = Ret (more, cx2) ->
  outputs_ok u -> (all = true -> length (out_pos u) = u_n_tokens u) -> computes m1 u ->
  (n_all <= total)%nat -> plain_outputs o -> uniform (md_n_vocab model) rows ->
  o_logits o = Some (concat (rows_of (md_n_vocab model) total rows)) -> (length rows + length (out_pos u) <= n_all)%nat ->
  let o' := set_logits o (concat (rows_of (md_n_vocab model) total (rows ++ map (row m1 u) (out_pos u)))) in
  decode_loop model cparams compute (S fuel) n_all all m cx (length rows) o
  = if more : bool then decode_loop model cparams compute fuel n_all all m1 cx2 (length (rows ++ map (row m1 u) (out_pos u))) o'
    else Ret (None, m1, o', length (out_pos u)).
Proof.
  intros Hu Ha Hn Hok Hout Hc Hall Hpl Hd Hl Hlen. cbn [decode_loop]. rewrite Hu. cbn [mbind outcome_bind].
  rewrite count_outputs_ok by done. cbn [mbind outcome_bind]. unfold process_ubatch. rewrite Ha.
  cbn [mbind outcome_bind negb]. destruct (cm_run m1 u Hc cx1) as (r & -> & Hr).
  rewrite (extract_ok u m1 r rows total n_all o) by (done || lia). cbn [mbind outcome_bind]. rewrite Hn.
  cbn [mbind outcome_bind]. by rewrite length_app, length_map.
Qed.

Lemma step_rows_cons m u steps : step_rows ((m, u) :: steps) = map (row m u) (out_pos u) ++ step_rows steps.
Proof. done. Qed.

Lemma decode_loop_ok m cx steps m' all n_all total : passes m cx steps m' -> steps_ok all steps ->
  Forall (fun s => computes s.1 s.2) steps -> (n_all <= total)%nat -> forall fuel rows o, (length steps <= fuel)%nat ->
  plain_outputs o -> uniform (md_n_vocab model) rows ->
  o_logits o = Some (concat (rows_of (md_n_vocab model) total rows)) ->
  (length rows + length (step_rows steps) <= n_all)%nat ->
  exists n, decode_loop model cparams compute fuel n_all all m cx (length rows) o
    = Ret (None, m', set_logits o (concat (rows_of (md_n_vocab model) total (rows ++ step_rows steps))), n).
Proof.
  intros Hp. induction Hp as [m cx u m1 cx1 cx2 Hu Ha Hn|m cx u m1 cx1 cx2 steps m' Hu Ha Hn _ IH];
    intros Hsteps Hcs Hall fuel rows o Hf Hpl Hd Hl Hlen; (destruct fuel as [|fuel]; [simpl in Hf; lia|]);
    apply Forall_cons in Hsteps as [[Hok Hout] Hsteps]; apply Forall_cons in Hcs as [Hc Hcs]; cbn [fst snd] in *;
    rewrite step_rows_cons, length_app, length_map in Hlen;
    rewrite (loop_step m cx u m1 cx1 cx2 _ all n_all total) by (done || lia); cbn [mbind outcome_bind].
  - exists (length (out_pos u)). rewrite step_rows_cons. by rewrite app_nil_r.
  - edestruct (IH Hsteps Hcs Hall fuel (rows ++ map (row m1 u) (out_pos u))) as (n & E1); cycle -1.
    + exists n. rewrite E1, step_rows_cons, <- app_assoc. done.
    + simpl in Hf. lia.
    + by destruct Hpl.
    + apply Forall_app. split; [done|by apply uniform_rows].
    + done.
    + rewrite length_app, length_map. lia.
Qed.

(** The loop stops at a ubatch whose computation fails, and takes it back. *)
Lemma decode_loop_fails m cx before m1 u after m' all n_all total st code m2 :
  passes m cx (before ++ (m1, u) :: after) m' -> steps_ok all (before ++ [(m1, u)]) ->
  Forall (fun s => computes s.1 s.2) before -> (forall cx, compute m1 cx u (length (out_pos u)) = inl st) ->
  failure_code st = Ret code -> remove_ubatch m1 u = Ret m2 ->
  (n_all <= total)%nat -> forall fuel rows o, (length before < fuel)%nat ->
  plain_outputs o -> uniform (md_n_vocab model) rows ->
  o_logits o = Some (concat (rows_of (md_n_vocab model) total rows)) ->
  (length rows + length (step_rows before) <= n_all)%nat ->
  exists o' n, decode_loop model cparams compute fuel n_all all m cx (length rows) o = Ret (Some code, m2, o', n).
Proof.
  intros Hp Hsteps Hcs Hfail Hcode Hrm Hall. revert m cx Hp Hsteps Hcs.
  induction before as [|[m3 u3] before IH]; intros m cx Hp Hsteps Hcs fuel rows o Hf Hpl Hd Hl Hlen;
    (destruct fuel as [|fuel]; [simpl in Hf; lia|]); cbn [app] in *.
  - apply Forall_cons in Hsteps as [[Hok Hout] _]. cbn [fst snd] in *.
    assert (H : exists cx1, mi_get_ubatch cx = Ret u /\ mi_apply m cx = Ret (true, m1, cx1)) by (inversion Hp; subst; eauto).
    destruct H as (cx1 & Hu & Ha). cbn [decode_loop]. rewrite Hu. cbn [mbind outcome_bind].
    rewrite count_outputs_ok by done. cbn [mbind outcome_bind]. unfold process_ubatch. rewrite Ha.
    cbn [mbind outcome_bind negb]. rewrite Hfail, Hrm. cbn [mbind outcome_bind]. rewrite Hcode. by eexists _, _.
  - apply Forall_cons in Hsteps as [[Hok Hout] Hsteps]. apply Forall_cons in Hcs as [Hc Hcs]. cbn [fst snd] in *.
    assert (H : exists cx1 cx2, mi_get_ubatch cx = Ret u3 /\ mi_apply m cx = Ret (true, m3, cx1)
      /\ mi_next cx1 = Ret (true, cx2) /\ passes m3 cx2 (before ++ (m1, u) :: after) m').
    { inversion Hp; subst; [by destruct before|]. eauto 10. }
    destruct H as (cx1 & cx2 & Hu & Ha & Hn & Hp'). rewrite step_rows_cons, length_app, length_map in Hlen.
    rewrite (loop_step m cx u3 m3 cx1 cx2 true all n_all total) by (done || lia).
    apply (IH m3 cx2 Hp' Hsteps Hcs fuel (rows ++ map (row m3 u3) (out_pos u3))).
    + simpl in Hf. lia.
    + by destruct Hpl.
    + apply Forall_app. split; [done|by apply uniform_rows].
    + done.
    + rewrite length_app, length_map. lia.
Qed.

End Run.
