(* ===== verification/DecodeTheorems.v ===== *)
(** * From the rows a run computed to the outputs asked for. *)

From S2P Require Import Prelude Batch BatchFacts BatchTheorems BatchInit KvCells KvCache KvInputs KvContext Decode DecodeFacts.
From S2P Require Import DecodeRun.
From Stdlib Require Import Lia.

(** ** Swapping two lists alike *)

Lemma Forall2_swapped {A B} (P : A -> B -> Prop) l l' i j : Forall2 P l l' -> Forall2 P (swapped l i j) (swapped l' i j).
Proof.
  intros H. unfold swapped. destruct (l !! i) as [x|] eqn:Hi.
  - destruct (Forall2_lookup_l _ _ _ _ _ H Hi) as (x' & -> & Hx). destruct (l !! j) as [y|] eqn:Hj.
    + destruct (Forall2_lookup_l _ _ _ _ _ H Hj) as (y' & -> & Hy). by apply Forall2_insert; [apply Forall2_insert|].
    + destruct (l' !! j) as [y'|] eqn:Hj'; [|done]. destruct (Forall2_lookup_r _ _ _ _ _ H Hj') as (? & ? & _). congruence.
  - destruct (l' !! i) as [x'|] eqn:Hi'; [|done]. destruct (Forall2_lookup_r _ _ _ _ _ H Hi') as (? & ? & _). congruence.
Qed.

Lemma Forall2_swapped_all {A B} (P : A -> B -> Prop) sw : forall l l', Forall2 P l l' ->
  Forall2 P (swapped_all l sw) (swapped_all l' sw).
Proof.
  induction sw as [|[i j] sw IH]; intros l l' H; [done|]. unfold swapped_all in *. simpl. by apply IH, Forall2_swapped.
Qed.

Lemma swapped_app {A} (l l' : list A) i j : (i < length l)%nat -> (j < length l)%nat ->
  swapped (l ++ l') i j = swapped l i j ++ l'.
Proof.
  intros Hi Hj. unfold swapped. rewrite !lookup_app_l by done.
  destruct (lookup_lt_is_Some_2 l i Hi) as [x ->]. destruct (lookup_lt_is_Some_2 l j Hj) as [y ->].
  rewrite insert_app_l by done. by rewrite insert_app_l by (by rewrite length_insert).
Qed.

Lemma swapped_all_app {A} (l' : list A) sw : forall l, swaps_in (length l) sw ->
  swapped_all (l ++ l') sw = swapped_all l sw ++ l'.
Proof.
  induction sw as [|[i j] sw IH]; intros l H; [done|]. apply Forall_cons in H as [(Hi & Hj & _) H].
  unfold swapped_all in *. simpl. rewrite swapped_app by done. apply IH. by rewrite length_swapped.
Qed.

Lemma uniform_swapped_all {A} n (rows : list (list A)) sw : uniform n rows -> uniform n (swapped_all rows sw).
Proof. unfold uniform. by rewrite (swapped_all_perm rows sw). Qed.

(** Swapping the rows that were written. *)
Lemma swapped_rows_of {F} n total (done : list (list F)) sw j r : swaps_in (length done) sw ->
  swapped_all done sw !! j = Some r -> swapped_all (rows_of n total done) sw !! j = Some (map Some r).
Proof.
  intros Hsw Hr. unfold rows_of. rewrite swapped_all_app by (by rewrite length_map).
  change (map (map Some) done) with (map Some <$> done). rewrite swapped_all_fmap. apply lookup_app_l_Some.
  by rewrite list_lookup_fmap, Hr.
Qed.

(** One row of a buffer. *)
Lemma row_at {A} n (rows : list (list A)) j r : uniform n rows -> rows !! j = Some r ->
  take n (drop (j * n) (concat rows)) = r.
Proof.
  intros Hu. revert j. induction Hu as [|x rows Hx Hu IH]; intros j Hj; [done|]. destruct j as [|j].
  - injection Hj as ->. simpl. rewrite drop_0. by apply take_app_length'.
  - simpl. rewrite skipn_app, (skipn_all2 x) by lia. simpl app. rewrite Hx.
    replace (n + j * n - n)%nat with (j * n)%nat by lia. by apply IH.
Qed.

Section Outputs.
Context {E F M C : Type} {Hmi : @memory_i E M C}.
Notation llama_ubatch := (llama_ubatch E).
Notation llama_context := (@llama_context E F M).
Implicit Types (a : llama_batch_allocr E) (u : llama_ubatch) (c : llama_context) (o : @outputs F).

(** ** Which row belongs to which token *)

Lemma filter_indices {A} (d : A) (f : A -> bool) (g : nat -> bool) l :
  (forall ii x, l !! ii = Some x -> g ii = f x) ->
  map (fun ii => nth ii l d) (List.filter g (seq 0 (length l))) = List.filter f l.
Proof.
  revert g. induction l as [|x l IH]; intros g Hg; [done|]. cbn [length seq List.filter].
  rewrite (Hg 0%nat x) by done.
  assert (Hrest : map (fun ii => nth ii (x :: l) d) (List.filter g (seq 1 (length l))) = List.filter f l).
  { rewrite <- (IH (fun ii => g (S ii))) by (intros ii y Hy; by apply (Hg (S ii))).
    rewrite <- seq_shift. clear. induction (seq 0 (length l)) as [|i s IHs]; [done|]. cbn [map List.filter].
    destruct (g (S i)); cbn [map]; by rewrite IHs. }
  destruct (f x); cbn [map]; by rewrite Hrest.
Qed.

Lemma out_pos_described a idxs n_seqs u : describes a idxs n_seqs u ->
  (forall i, i ∈ idxs -> (i < length (logits (batch a)))%nat) ->
  map (fun ii => nth ii idxs 0%nat) (out_pos u) = List.filter (is_output (batch a)) idxs.
Proof.
  intros Hd Hin. unfold out_pos. rewrite (ds_n _ _ _ _ Hd). apply filter_indices. intros ii i Hi.
  unfold is_output. do 2 f_equal. rewrite (ds_output _ _ _ _ Hd). apply nth_lookup_Some.
  rewrite (pick_lookup _ _ ii i) by done. destruct (lookup_lt_is_Some_2 (logits (batch a)) i) as [x Hx].
  { apply Hin. by eapply list_elem_of_lookup_2. }
  rewrite Hx. f_equal. symmetry. by apply nth_lookup_Some.
Qed.

Context (row : M -> llama_ubatch -> nat -> list F).

(** [r] is the row computed for token [t] of the batch. *)
Definition computed_row a (steps : list (M * llama_ubatch)) (t : nat) (r : list F) : Prop :=
  exists m u idxs n_seqs ii, (m, u) ∈ steps /\ describes a idxs n_seqs u /\ idxs !! ii = Some t /\ r = row m u ii.

Lemma rows_described a steps0 steps idxss : (forall s, s ∈ steps -> s ∈ steps0) ->
  Forall2 (fun s idxs => exists n_seqs, describes a idxs n_seqs s.2) steps idxss ->
  (forall i, i ∈ concat idxss -> (i < length (logits (batch a)))%nat) ->
  Forall2 (computed_row a steps0) (List.filter (is_output (batch a)) (concat idxss)) (step_rows row steps).
Proof.
  intros Hsub Hall. induction Hall as [|[m u] idxs steps idxss [n_seqs Hd] _ IH]; intros Hin; [constructor|].
  cbn [snd] in Hd. unfold step_rows in *. simpl. rewrite List.filter_app. apply Forall2_app.
  - rewrite <- (out_pos_described a idxs n_seqs u Hd); [|intros i Hi; apply Hin; set_solver].
    apply Forall2_fmap_l. apply Forall2_fmap_r. apply Forall_Forall2_diag. apply Forall_forall. intros ii Hii.
    exists m, u, idxs, n_seqs, ii. split_and!; [apply Hsub; left|done| |done].
    unfold out_pos in Hii. apply list_elem_of_In, List.filter_In in Hii as [Hii%List.in_seq _].
    rewrite (ds_n _ _ _ _ Hd) in Hii. destruct (lookup_lt_is_Some_2 idxs ii) as [t Ht]; [lia|].
    rewrite Ht. f_equal. symmetry. by apply nth_lookup_Some.
  - apply IH; [intros s Hs; apply Hsub; by right|]. intros i Hi. apply Hin. simpl. set_solver.
Qed.

(** ** Reordering the rows *)

Context (model : llama_model).

Lemma reorder_ok c rows : plain_outputs (lc_out c) -> uniform (md_n_vocab model) rows ->
  o_logits (lc_out c) = Some (concat rows) -> swaps_in (length rows) (lc_output_swaps c) ->
  output_reorder model c = Ret (with_ids (with_out c (set_logits (lc_out c) (concat (swapped_all rows (lc_output_swaps c)))))
                                  (lc_output_ids c) []).
Proof.
  intros [He Hs] Hu Hl Hin. unfold output_reorder.
  assert (Hsw : forall sw o rows, o_embd o = None -> samplers (o_sampling o) = ∅ -> uniform (md_n_vocab model) rows ->
    o_logits o = Some (concat rows) -> swaps_in (length rows) sw ->
    foldM (reorder_one model) o sw = Ret (set_logits o (concat (swapped_all rows sw)))).
  { clear. induction sw as [|[i j] sw IH]; intros o rows He Hs Hu Hl Hin; cbn [foldM].
    - unfold set_logits, swapped_all. simpl. rewrite <- Hl. by destruct o.
    - apply Forall_cons in Hin as [(Hi & Hj & Hne) Hin]. unfold reorder_one. rewrite Hl, He.
      assert (Hb : on_buffer (swap_rows (md_n_vocab model) i j) (Some (concat rows)) = Ret (Some (concat (swapped rows i j)))).
      { unfold on_buffer. pose proof (swap_rows_ok (md_n_vocab model) rows i j Hu Hi Hj Hne) as Hrows.
        destruct (concat rows) as [|v vs] eqn:Ec; [|by rewrite Hrows]. do 2 f_equal. symmetry. apply nil_length_inv.
        rewrite (length_concat_uniform (md_n_vocab model)) by (by apply uniform_swapped). rewrite length_swapped.
        rewrite <- (length_concat_uniform (md_n_vocab model) rows Hu). by rewrite Ec. }
      rewrite Hb. cbn [mbind outcome_bind on_buffer]. unfold reorder_sampling. rewrite Hs, bool_decide_eq_true_2 by done.
      cbn [mbind outcome_bind]. rewrite (IH _ (swapped rows i j)); try done.
      + unfold set_logits. simpl. by rewrite He.
      + by apply uniform_swapped.
      + by rewrite length_swapped. }
  by rewrite (Hsw _ _ rows).
Qed.

(** ** Asking for a row *)

(** The state in which outputs are asked for: the tokens [outs] have the outputs,
    in this order once the swaps are applied. *)
Record mapped (c : llama_context) (n_all : nat) (outs : list nat) (rows : list (list (option F))) : Prop := {
  mp_plain : plain_outputs (lc_out c);
  mp_rows : uniform (md_n_vocab model) rows;
  mp_logits : o_logits (lc_out c) = Some (concat rows);
  mp_swaps : swaps_in (length rows) (lc_output_swaps c);
  mp_n : lc_n_outputs c = length outs;
  mp_small : Z.of_nat (length outs) < 2 ^ 31;
  mp_ids j t : outs !! j = Some t -> lc_output_ids c !! t = Some (Z.of_nat j);
  mp_none t : (t < n_all)%nat -> t ∉ outs -> lc_output_ids c !! t = Some (-1);
}.

Lemma resolve_ok c n_all outs rows j t i : mapped c n_all outs rows -> outs !! j = Some t ->
  i = Z.of_nat t \/ i = Z.of_nat j - Z.of_nat (length outs) -> output_resolve_row c i = Ret (Z.of_nat j).
Proof.
  intros [_ _ _ _ Hn Hsmall Hids _] Hj Hi. pose proof (lookup_lt_Some _ _ _ Hj) as Hlt. unfold output_resolve_row. rewrite Hn.
  assert (Hrow : (if Z.of_nat j <? 0 then Throw "batch.logits[i] != true"
      else if Z.of_nat (length outs) <=? Z.of_nat j then Throw "corrupt output buffer" else Ret (Z.of_nat j))
    = Ret (Z.of_nat j)).
  { rewrite (proj2 (Z.ltb_ge _ _)) by lia. by rewrite (proj2 (Z.leb_gt _ _)) by lia. }
  destruct Hi as [->| ->].
  - rewrite (proj2 (Z.ltb_ge _ _)) by lia. pose proof (Hids j t Hj) as Hid. pose proof (lookup_lt_Some _ _ _ Hid).
    rewrite (proj2 (Z.leb_gt _ _)) by lia. rewrite (at_z_Ret _ _ (Z.of_nat j)); [|lia|by rewrite Nat2Z.id].
    cbn [mbind outcome_bind]. exact Hrow.
  - rewrite (proj2 (Z.ltb_lt _ _)) by lia. replace (Z.of_nat (length outs) + (Z.of_nat j - Z.of_nat (length outs))) with (Z.of_nat j) by lia.
    rewrite u32_small by lia. rewrite (proj2 (Z.ltb_ge _ _)) by lia. cbn [mbind outcome_bind]. exact Hrow.
Qed.

Lemma get_logits_ok ndebug c n_all outs rows j t i : mapped c n_all outs rows -> outs !! j = Some t ->
  i = Z.of_nat t \/ i = Z.of_nat j - Z.of_nat (length outs) ->
  exists c', get_logits_ith model ndebug c i = Ret (Some (j * md_n_vocab model)%nat, c')
    /\ o_logits (lc_out c') = Some (concat (swapped_all rows (lc_output_swaps c))).
Proof.
  intros Hm Hj Hi. pose proof Hm as [Hp Hu Hl Hsw _ _ _ _]. unfold get_logits_ith. rewrite (reorder_ok c rows) by done.
  cbn [mbind outcome_bind with_ids with_out lc_out o_logits set_logits].
  assert (Hr : output_resolve_row (with_ids (with_out c (set_logits (lc_out c) (concat (swapped_all rows (lc_output_swaps c)))))
     (lc_output_ids c) []) i = output_resolve_row c i) by done.
  rewrite Hr, (resolve_ok c n_all outs rows j t i Hm Hj Hi). cbn [mbind outcome_bind catch]. rewrite Nat2Z.id. by eexists.
Qed.

(** A token without an output. *)
Lemma get_logits_none c n_all outs rows t : mapped c n_all outs rows -> (t < n_all)%nat -> t ∉ outs ->
  exists c', get_logits_ith model true c (Z.of_nat t) = Ret (None, c').
Proof.
  intros Hm Ht Hno. pose proof Hm as [Hp Hu Hl Hsw _ _ _ Hnone]. unfold get_logits_ith. rewrite (reorder_ok c rows) by done.
  cbn [mbind outcome_bind with_ids with_out lc_out o_logits set_logits]. unfold output_resolve_row. cbn [with_ids with_out lc_output_ids lc_n_outputs lc_out].
 
  pose proof (Hnone t Ht Hno) as Hid. pose proof (lookup_lt_Some _ _ _ Hid). rewrite (proj2 (Z.ltb_ge (Z.of_nat t) 0)) by lia.
  rewrite (proj2 (Z.leb_gt (Z.of_nat (length (lc_output_ids c))) (Z.of_nat t))) by lia. rewrite (at_z_Ret _ _ (-1)); [|lia|by rewrite Nat2Z.id].
  cbn [mbind outcome_bind]. change (-1 <? 0) with true. cbn [mbind outcome_bind catch invalid_index]. by eexists.
Qed.

End Outputs.

(** * What decoding a batch returns. *)

Section Theorems.
Context {E F M C : Type} {Hmi : @memory_i E M C}.
Notation llama_ubatch := (llama_ubatch E).
Notation llama_context := (@llama_context E F M).
Implicit Types (a : llama_batch_allocr E) (u : llama_ubatch) (c : llama_context) (o : @outputs F).

(** ** The tokens of an accepted batch *)

(** The tokens with outputs, in the order of the batch. *)
Definition output_tokens a : list nat := List.filter (is_output (batch a)) (seq 0 (get_n_tokens a)).

Lemma init_outputs a inp n_vocab memory n_embd n_seq_max output_all a1 :
  init a inp n_vocab memory n_embd n_seq_max output_all = Ret (Some a1) ->
  get_n_outputs a1 = length (output_tokens a1) /\ (get_n_tokens a1 <= length (logits (batch a1)))%nat.
Proof.
  intros H. destruct (init_inv _ _ _ _ _ _ _ _ H) as (b & a2 & Hn & _ & _ & _ & Hfill & Hst & _ & ->).
  pose proof (fill_batch_filled _ _ _ _ _ Hn Hfill) as Hf. pose proof (fl_logits _ _ Hf) as Hl.
  unfold init_stats in Hst. apply bind_Ret in Hst as ([[sp cpl] has] & _ & Hst).
  apply bind_Ret in Hst as ([[sets m] unq] & _ & Hst). apply bind_Ret in Hst as ([ids idx] & _ & Hst). injection Hst as <-.
  split; [|done]. unfold get_n_outputs, output_tokens, get_n_tokens. simpl. unfold count_outputs.
  rewrite <- (filter_indices 0 (fun x => negb (x =? 0)) (is_output b)).
  - rewrite length_map, length_take, Nat.min_l by done. done.
  - intros ii x Hx. apply lookup_take_Some in Hx as [Hx _]. unfold is_output. by rewrite (nth_lookup_Some _ _ _ _ Hx).
Qed.

Lemma NoDup_output_tokens a : NoDup (output_tokens a).
Proof. apply NoDup_ListNoDup, List.NoDup_filter, NoDup_ListNoDup, NoDup_seq. Qed.

Lemma elem_of_output_tokens a t : t ∈ output_tokens a <-> (t < get_n_tokens a)%nat /\ is_output (batch a) t = true.
Proof. unfold output_tokens. rewrite list_elem_of_In, List.filter_In, List.in_seq. intuition lia. Qed.

(** Every token is in some sequence. *)
Definition in_sequences a : Prop := forall i, (i < get_n_tokens a)%nat ->
  exists ids, token_seqs (batch a) i ids /\ ids <> [] /\ n_seq_id (batch a) !! i = Some (Z.of_nat (length ids)).

Lemma described_outputs_ok a idxs n_seqs u : in_sequences a -> (get_n_tokens a <= length (logits (batch a)))%nat ->
  describes a idxs n_seqs u -> (forall i, i ∈ idxs -> (i < get_n_tokens a)%nat) -> outputs_ok u.
Proof.
  intros Hseq Hl Hd Hin. constructor.
  - rewrite (ds_output _ _ _ _ Hd), (ds_n _ _ _ _ Hd). unfold pick. clear Hd. induction idxs as [|i idxs IH]; [done|].
    cbn [omap list_omap]. destruct (lookup_lt_is_Some_2 (logits (batch a)) i) as [x ->].
    { specialize (Hin i ltac:(left)). lia. }
    simpl. f_equal. apply IH. intros j Hj. apply Hin. by right.
  - intros ii Hii. rewrite (ds_n _ _ _ _ Hd) in Hii. destruct (lookup_lt_is_Some_2 idxs ii Hii) as [i Hi].
    destruct (Hseq i) as (ids & Hids & Hne & Hn); [apply Hin; by eapply list_elem_of_lookup_2|].
    destruct (Forall2_lookup_l _ _ _ _ _ (ds_seq_id _ _ _ _ Hd) Hi) as (ids' & Hids' & Hs).
    unfold token_seqs in Hids. assert (ids' = ids) as -> by congruence. destruct ids as [|s ids]; [done|].
    exists (Z.of_nat (length (s :: ids))), (s :: ids), s. split_and!; [|simpl; lia|done|done].
    rewrite (ds_n_seq_id _ _ _ _ Hd), (pick_lookup _ _ ii i); [done| |done].
    intros j Hj. destruct (Hseq j (Hin j Hj)) as (? & _ & _ & Hnj). by eapply lookup_lt_Some.
Qed.

(** ** Mapping the outputs *)

Lemma map_outputs_ok (model : llama_model) c a rows nb : lc_balloc c = a ->
  forall a0, get_out_ids a ≡ₚ output_tokens a0 -> (get_n_tokens a0 <= nb)%nat -> Z.of_nat nb < 2 ^ 31 ->
  lc_output_ids c = replicate nb (-1) -> lc_output_swaps c = [] -> lc_n_outputs c = length (output_tokens a0) ->
  plain_outputs (lc_out c) -> uniform (md_n_vocab model) rows -> o_logits (lc_out c) = Some (concat rows) ->
  (length (output_tokens a0) <= length rows)%nat ->
  exists c', map_outputs c (length (output_tokens a0)) = Ret c' /\ mapped model c' (get_n_tokens a0) (output_tokens a0) rows
    /\ lc_memory c' = lc_memory c /\ lc_out c' = lc_out c
    /\ swapped_all (get_out_ids a) (lc_output_swaps c') = output_tokens a0
    /\ swaps_in (length (output_tokens a0)) (lc_output_swaps c').
Proof.
  intros <- a0 Hperm Hnb Hsmall Hids Hsw Hn Hpl Hu Hl Hlen. set (outs := output_tokens a0) in *.
  set (out_ids := get_out_ids (lc_balloc c)) in *.
  assert (Hndo : NoDup outs) by apply NoDup_output_tokens. assert (Hnd : NoDup out_ids) by by rewrite Hperm.
  assert (Hlt : forall t, t ∈ out_ids -> (t < length (lc_output_ids c))%nat).
  { intros t Ht. rewrite Hperm in Ht. apply elem_of_output_tokens in Ht as [Ht _]. rewrite Hids, length_replicate. lia. }
  pose proof (Permutation_length Hperm) as Hpl'.
  assert (Hleo : (length outs <= nb)%nat).
  { unfold outs, output_tokens. pose proof (List.filter_length_le (is_output (batch a0)) (seq 0 (get_n_tokens a0))) as Hf.
    rewrite length_seq in Hf. lia. }
  assert (Hneg : forall t, (t < get_n_tokens a0)%nat -> lc_output_ids c !! t = Some (-1)).
  { intros t Ht. rewrite Hids. apply lookup_replicate_2. lia. }
  assert (Hmk : forall c' ids sw, lc_out c' = lc_out c -> lc_output_ids c' = ids -> lc_output_swaps c' = sw ->
    lc_n_outputs c' = lc_n_outputs c -> swaps_in (length outs) sw ->
    (forall j t, outs !! j = Some t -> ids !! t = Some (Z.of_nat j)) ->
    (forall t, (t < get_n_tokens a0)%nat -> t ∉ outs -> ids !! t = Some (-1)) ->
    mapped model c' (get_n_tokens a0) outs rows).
  { intros c' ids sw E1 E2 E3 E4 Hs H1 H2. constructor; rewrite ?E1, ?E2, ?E3, ?E4; try done; [|lia].
    eapply Forall_impl; [exact Hs|]. intros [i j]. lia. }
  unfold map_outputs. destruct (Nat.eqb_spec (length outs) 0) as [E0|E0].
  { assert (Eo : outs = []) by (by apply nil_length_inv). exists c. split; [done|]. split; [|split_and!; try done].
    - apply (Hmk c (lc_output_ids c) []); try done; [constructor|by rewrite Eo|]. intros t Ht _. by apply Hneg.
    - rewrite Hsw, Eo. unfold swapped_all. simpl. apply nil_length_inv. lia.
    - rewrite Hsw. constructor. }
  fold out_ids. rewrite Hpl', Nat.eqb_refl. cbn [c_assert mbind outcome_bind].
  destruct (number_outputs_ok (lc_output_ids c) out_ids Hnd Hlt) as (ids & -> & Hlids & Hnum & Hrest). cbn [mbind outcome_bind].
  destruct (bool_decide (out_ids = seq 0 (length outs)) || (length outs <=? 1)%nat) eqn:Eb.
  - assert (Eo : out_ids = outs).
    { apply sorted_unique; [done|done| |intros i j x y; apply filter_seq_sorted].
      intros i j x y Hij Hx Hy. apply orb_true_iff in Eb as [Eb|Eb].
      - apply bool_decide_eq_true in Eb. rewrite Eb in Hx, Hy. apply lookup_seq in Hx as [-> _], Hy as [-> _]. lia.
      - apply Nat.leb_le in Eb. apply lookup_lt_Some in Hy. lia. }
    eexists. split; [done|]. cbn [with_ids lc_output_swaps lc_memory lc_out]. rewrite Hsw.
    split; [|split_and!; [done|done|done|constructor]]. apply (Hmk _ ids []); try done; [constructor| |].
    + intros j t Hj. apply Hnum. by rewrite Eo.
    + intros t Ht Ho. rewrite Hrest by (by rewrite Eo). by apply Hneg.
  - destruct (sort_outputs_ok out_ids) as (sorted & sw & -> & Hs & Hin & Hle). cbn [mbind outcome_bind].
    assert (Eo : sorted = outs).
    { assert (Hps : sorted ≡ₚ outs) by (rewrite Hs, swapped_all_perm; done).
      apply sorted_unique; [by rewrite Hps|done|done|intros i j x y; apply filter_seq_sorted]. }
    destruct (number_outputs_ok (map (fun _ => -1) ids) sorted) as (ids' & -> & Hlids' & Hnum' & Hrest').
    { by rewrite Eo. } { intros t Ht. rewrite length_map, Hlids. apply Hlt. by rewrite Hperm, <- Eo. }
    cbn [mbind outcome_bind]. eexists. split; [done|].
    cbn [with_ids with_balloc lc_output_swaps lc_memory lc_out]. rewrite Hsw, Hpl' in *. cbn [app].
    split; [|split_and!; [done|done|by rewrite <- Eo, Hs|done]]. apply (Hmk _ ids' sw); try done.
    + intros j t Hj. apply Hnum'. by rewrite Eo.
    + intros t Ht Ho. rewrite Hrest' by (by rewrite Eo). change (map (fun _ => -1) ids) with ((fun _ => -1) <$> ids).
      rewrite list_lookup_fmap. destruct (lookup_lt_is_Some_2 ids t) as [x ->]; [|done].
      rewrite Hlids, Hids, length_replicate. lia.
Qed.

(** ** Decoding *)

Context (model : llama_model) (cparams : llama_cparams) (alloc_buffer : Z -> bool).
Context (compute : M -> C -> llama_ubatch -> nat -> ggml_status + @graph_result F).
Context (compute_encoder : llama_ubatch -> nat -> ggml_status + @graph_result F).
Context (row : M -> llama_ubatch -> nat -> list F).

Notation decode := (decode model cparams alloc_buffer compute compute_encoder).

(** A context without embeddings outputs and without samplers, whose buffers can
    be allocated. *)
Record plain_context c : Prop := {
  pc_samplers : samplers (o_sampling (lc_out c)) = ∅;
  pc_embeddings : cp_embeddings cparams = false;
  pc_t5 : md_is_t5 model = false;
  pc_causal : cp_causal_attn cparams = true;
  pc_alloc sz : alloc_buffer sz = true;
  pc_ids : lc_output_ids c = [] \/ length (lc_output_ids c) = cp_n_batch cparams;
  pc_batch : Z.of_nat (cp_n_batch cparams) < 2 ^ 31;
  pc_seqs : (0 < batch_seq_max cparams)%nat;
}.

Lemma output_reserve_ok c n : plain_context c -> exists c', output_reserve model cparams alloc_buffer c n
    = (Nat.max n (cp_n_seq_max cparams), c')
  /\ lc_memory c' = lc_memory c /\ lc_balloc c' = lc_balloc c /\ lc_output_swaps c' = lc_output_swaps c
  /\ lc_output_ids c' = replicate (cp_n_batch cparams) (-1) /\ plain_outputs (lc_out c')
  /\ o_logits (lc_out c') = Some (concat (rows_of (md_n_vocab model) (Nat.max n (cp_n_seq_max cparams)) [])).
Proof.
  intros Hp. unfold output_reserve. rewrite (pc_samplers c Hp), (pc_embeddings c Hp), (pc_t5 c Hp), (pc_alloc c Hp).
  rewrite (bool_decide_eq_true_2 ((∅ : gset Z) = ∅)), andb_false_r by done. cbn [orb negb]. eexists. split; [done|].
  cbn [lc_memory lc_balloc lc_output_swaps lc_output_ids lc_out o_logits].
  do 3 (split; [done|]). split; [|split; [split; cbn; done|by rewrite rows_of_nil]].
  assert (Hm : forall l : list Z, map (fun _ => -1) l = replicate (length l) (-1)).
  { induction l as [|x l IH]; [done|]. simpl. by rewrite IH. }
  rewrite Hm. f_equal. destruct (pc_ids c Hp) as [->|<-]; [apply length_replicate|].
  destruct (lc_output_ids c) eqn:E0; [|done]. rewrite length_replicate. pose proof (pc_ids c Hp) as [H|H]; [|by rewrite E0 in H].
  done.
Qed.

(** The memory serves the batch with the ubatches of [steps]: what [init_batch]
    and the context it returns promise. *)
Definition served (m : M) a (steps : list (M * llama_ubatch)) (m' : M) : Prop := exists cx m2 a2 idxss,
  mi_init_batch m a (cp_n_ubatch cparams) (cp_embeddings cparams) = Ret (cx, m2, a2)
  /\ mi_get_status cx = LLAMA_MEMORY_STATUS_SUCCESS /\ passes m2 cx steps m'
  /\ Forall2 (fun (s : M * llama_ubatch) idxs => idxs <> [] /\ exists n_seqs, describes a idxs n_seqs s.2) steps idxss
  /\ concat idxss ≡ₚ seq 0 (get_n_tokens a)
  /\ get_out_ids a2 = List.filter (is_output (batch a)) (concat idxss).

Lemma length_steps (steps : list (M * llama_ubatch)) idxss (P : M * llama_ubatch -> list nat -> Prop) :
  Forall2 (fun s idxs => idxs <> [] /\ P s idxs) steps idxss -> (length steps <= length (concat idxss))%nat.
Proof.
  induction 1 as [|s idxs steps idxss [Hne _] _ IH]; [done|]. simpl. rewrite length_app. destruct idxs; [done|simpl; lia].
Qed.

Lemma steps_outputs a steps idxss : in_sequences a -> (get_n_tokens a <= length (logits (batch a)))%nat ->
  Forall2 (fun (s : M * llama_ubatch) idxs => idxs <> [] /\ exists n_seqs, describes a idxs n_seqs s.2) steps idxss ->
  (forall i, i ∈ concat idxss -> (i < get_n_tokens a)%nat) ->
  steps_ok (length (output_tokens a) =? get_n_tokens a)%nat steps.
Proof.
  intros Hseq Hl Hall. induction Hall as [|[m u] idxs steps idxss [_ [n_seqs Hd]] _ IH]; intros Hin; [constructor|].
  cbn [snd] in Hd. assert (Hidx : forall i, i ∈ idxs -> (i < get_n_tokens a)%nat) by (intros i Hi; apply Hin; simpl; set_solver).
  constructor; [|apply IH; intros i Hi; apply Hin; simpl; set_solver].
  split; [by eapply described_outputs_ok|]. cbn [snd]. intros Hall%Nat.eqb_eq.
  pose proof (out_pos_described a idxs n_seqs u Hd) as Ho. apply (f_equal length) in Ho.
  2: { intros i Hi. specialize (Hidx i Hi). lia. }
  rewrite length_map in Ho. rewrite Ho, (ds_n _ _ _ _ Hd). f_equal. apply forallb_filter_id, forallb_forall.
  intros i Hi. apply list_elem_of_In, Hidx in Hi.
  assert (Hf : forallb (is_output (batch a)) (seq 0 (get_n_tokens a)) = true).
  { apply filter_length_forallb. unfold output_tokens in Hall. by rewrite Hall, length_seq. }
  rewrite forallb_forall in Hf. apply Hf, List.in_seq. lia.
Qed.

(** What is assumed of a request: an accepted batch, of a context with memory. *)
Record request c b (m0 m1 : M) a : Prop := {
  rq_plain : plain_context c;
  rq_memory : lc_memory c = Some m0;
  rq_input : one_input b = true;
  rq_init : init (lc_balloc c) b (Z.of_nat (md_n_vocab model)) (Some (mi_positions m0)) (md_n_embd_inp model)
    (batch_seq_max cparams) (cp_embeddings cparams) = Ret (Some a);
  rq_arrays : arrays_ok b (md_n_embd_inp model) (n_pos_per_embd (lc_balloc c));
  rq_batch : (get_n_tokens a <= cp_n_batch cparams)%nat;
  rq_update : exists updated, memory_update m0 false = Ret (updated, m1);
}.

Lemma request_tokens c b m0 m1 a : request c b m0 m1 a -> in_sequences a /\ (0 < get_n_tokens a)%nat
  /\ get_n_outputs a = length (output_tokens a) /\ (get_n_tokens a <= length (logits (batch a)))%nat.
Proof.
  intros [Hp _ _ Hinit Har _ _]. destruct (init_outputs _ _ _ _ _ _ _ _ Hinit) as [Hn Hlog].
  destruct (init_tokens _ _ _ _ _ _ _ _ Hinit Har (pc_seqs c Hp)) as (Hpos & _ & _ & _ & Htok). split_and!; try done.
  intros i Hi. destruct (Htok i Hi) as (ids & ? & ? & ? & _). by exists ids.
Qed.

(** The context before the memory is asked. *)
Definition started c a : llama_context :=
  with_ids (with_out (with_balloc c a) (with_embd_seq (lc_out c) ∅)) (lc_output_ids c) [].

(** Up to the search for a context [decode] has no other way. *)
Lemma decode_search c b m0 m1 a : request c b m0 m1 a -> decode c b =
  ('(r, m, a2) ← find_context cparams 2 m1 a false false;
   let c := with_balloc (with_memory (started c a) m) a2 in
   match r with
   | inl code => Ret (code, c)
   | inr cx =>
       let '(reserved, c) := output_reserve model cparams alloc_buffer c (get_n_outputs a) in
       if (reserved <? get_n_outputs a)%nat then Ret (-2, c)
       else
         '(r, m, o, n) ← decode_loop model cparams compute (S (get_n_tokens a)) (get_n_outputs a)
            (get_n_outputs a =? get_n_tokens a)%nat m cx 0 (lc_out c);
         let c := with_out (with_memory (with_n_outputs c n) m) o in
         match r with
         | Some code => Ret (code, c)
         | None => c ← map_outputs (with_n_outputs c (get_n_outputs a)) (get_n_outputs a); Ret (0, c)
         end
   end).
Proof.
  intros [Hp Hm Hone Hinit _ Hnb [upd Hup]].
  assert (Hb0 : b_n_tokens b =? 0 = false).
  { destruct (init_inv _ _ _ _ _ _ _ _ Hinit) as (? & ? & Hb & _). apply Z.eqb_neq. lia. }
  unfold Decode.decode. rewrite Hone, Hm, Hb0, (pc_samplers c Hp). cbn [c_assert mbind outcome_bind].
  assert (Hbad : (match b_logits b with
       | Some l => if bool_decide ((∅ : gset Z) = ∅) then Ret false else repeated_output b (batch_seq_max cparams) l
       | None => Ret false end) = Ret false) by (by destruct (b_logits b); rewrite ?bool_decide_eq_true_2).
  rewrite Hbad. cbn [mbind outcome_bind]. rewrite Hinit. cbn [mbind outcome_bind]. rewrite (pc_embeddings c Hp). cbn [andb].
  rewrite (proj2 (Nat.leb_le _ _) Hnb). cbn [c_assert mbind outcome_bind]. rewrite (pc_causal c Hp).
  cbn [orb c_assert mbind outcome_bind]. rewrite Hup. done.
Qed.

(** When the memory serves the batch, [decode] gets to the loop over the ubatches. *)
Lemma decode_start c b m0 m1 a cx m2 a2 : request c b m0 m1 a ->
  mi_init_batch m1 a (cp_n_ubatch cparams) (cp_embeddings cparams) = Ret (cx, m2, a2) ->
  mi_get_status cx = LLAMA_MEMORY_STATUS_SUCCESS ->
  exists c2 total, (get_n_outputs a <= total)%nat /\ decode c b =
    ('(r, m, o, n) ← decode_loop model cparams compute (S (get_n_tokens a)) (get_n_outputs a)
       (get_n_outputs a =? get_n_tokens a)%nat m2 cx 0 (lc_out c2);
     let c := with_out (with_memory (with_n_outputs c2 n) m) o in
     match r with
     | Some code => Ret (code, c)
     | None => c ← map_outputs (with_n_outputs c (get_n_outputs a)) (get_n_outputs a); Ret (0, c)
     end)
  /\ lc_balloc c2 = a2 /\ lc_output_swaps c2 = [] /\ lc_output_ids c2 = replicate (cp_n_batch cparams) (-1)
  /\ plain_outputs (lc_out c2) /\ o_logits (lc_out c2) = Some (concat (rows_of (md_n_vocab model) total [])).
Proof.
  intros Hrq Eb Est. rewrite (decode_search c b m0 m1 a Hrq). pose proof (rq_plain _ _ _ _ _ Hrq) as Hp.
  rewrite (pc_embeddings c Hp) in Eb. cbn [find_context]. rewrite Eb. cbn [mbind outcome_bind]. rewrite Est. cbn [mbind outcome_bind].
  set (c1 := with_balloc (with_memory (started c a) m2) a2). assert (Hp1 : plain_context c1) by (by destruct Hp).
  destruct (output_reserve_ok c1 (get_n_outputs a) Hp1) as (c2 & -> & _ & Hba & Hsw & Hids & Hpl & Hl).
  rewrite (proj2 (Nat.ltb_ge _ _)) by lia. exists c2, (Nat.max (get_n_outputs a) (cp_n_seq_max cparams)).
  split_and!; try done; lia.
Qed.

Lemma decode_ok c b m0 m1 a steps m' : request c b m0 m1 a -> served m1 a steps m' ->
  Forall (fun s => computes model compute row s.1 s.2) steps ->
  exists c' rows, decode c b = Ret (0, c') /\ lc_memory c' = Some m'
    /\ mapped model c' (get_n_tokens a) (output_tokens a) rows
    /\ forall j t, output_tokens a !! j = Some t ->
         exists r, swapped_all rows (lc_output_swaps c') !! j = Some (map Some r) /\ computed_row row a steps t r.
Proof.
  intros Hrq (cx & m2 & a2 & idxss & Eb & Est & Hpass & Hsteps & Hperm & Hout) Hcm.
  destruct (request_tokens c b m0 m1 a Hrq) as (Hseq & _ & Hn & Hlog). pose proof (rq_plain _ _ _ _ _ Hrq) as Hp.
  assert (Hin : forall i, i ∈ concat idxss -> (i < get_n_tokens a)%nat).
  { intros i Hi. rewrite Hperm in Hi. apply elem_of_seq in Hi. lia. }
  assert (Hrows : Forall2 (computed_row row a steps) (get_out_ids a2) (step_rows row steps)).
  { rewrite Hout. apply rows_described; [done| |intros i Hi; specialize (Hin i Hi); lia].
    eapply Forall2_impl; [exact Hsteps|]. by intros s l [_ ?]. }
  assert (Hpo : get_out_ids a2 ≡ₚ output_tokens a) by (rewrite Hout; unfold output_tokens; by rewrite <- Hperm).
  pose proof (Forall2_length _ _ _ Hrows) as Hlr. rewrite (Permutation_length Hpo), <- Hn in Hlr.
  pose proof (length_steps steps idxss _ Hsteps) as Hls. rewrite (Permutation_length Hperm), length_seq in Hls.
  destruct (decode_start c b m0 m1 a cx m2 a2 Hrq Eb Est) as (c2 & total & Htot & -> & Hba & Hsw & Hids & Hpl & Hl).
  destruct (decode_loop_ok model cparams compute row m2 cx steps m' (get_n_outputs a =? get_n_tokens a)%nat
    (get_n_outputs a) total Hpass) with (fuel := S (get_n_tokens a)) (rows := @nil (list F)) (o := lc_out c2) as (nl & Eloop);
    [rewrite Hn; by eapply steps_outputs|done|done|lia|done|constructor|done|simpl; lia|].
  simpl length in Eloop. rewrite Eloop. cbn [mbind outcome_bind app]. rewrite Hn.
  set (rows := rows_of (md_n_vocab model) total (step_rows row steps)).
  assert (Hur : uniform (md_n_vocab model) (step_rows row steps)) by by eapply uniform_step_rows.
  assert (Hlrows : length rows = total) by (apply length_rows_of; lia).
  match goal with |- context [map_outputs ?x _] => set (c3 := x) end.
  destruct (map_outputs_ok model c3 a2 rows (cp_n_batch cparams) Hba a Hpo (rq_batch _ _ _ _ _ Hrq) (pc_batch c Hp)) as
    (c4 & E4 & Hmap & Hmem & _ & Hswap & Hsin).
  - exact Hids.
  - exact Hsw.
  - reflexivity.
  - exact Hpl.
  - by apply uniform_rows_of.
  - reflexivity.
  - rewrite Hlrows, <- Hn. lia.
  - rewrite E4. cbn [mbind outcome_bind]. exists c4, rows. split_and!; [done|by rewrite Hmem|done|].
    intros j t Hj. rewrite <- Hswap in Hj.
    destruct (Forall2_lookup_l _ _ _ _ _ (Forall2_swapped_all _ (lc_output_swaps c4) _ _ Hrows) Hj) as (r & Hr & Hc).
    exists r. split; [|done]. by apply swapped_rows_of; [rewrite <- Hlr, Hn|].
Qed.

(** A computation that fails ends [decode], after its ubatch was taken back. *)
Lemma decode_fails c b m0 m1 a before mu u after m' st code m2 : request c b m0 m1 a ->
  served m1 a (before ++ (mu, u) :: after) m' -> Forall (fun s => computes model compute row s.1 s.2) before ->
  (forall cx, compute mu cx u (length (out_pos u)) = inl st) -> failure_code st = Ret code ->
  remove_ubatch mu u = Ret m2 -> exists c', decode c b = Ret (code, c') /\ lc_memory c' = Some m2.
Proof.
  intros Hrq (cx & m3 & a2 & idxss & Eb & Est & Hpass & Hsteps & Hperm & Hout) Hcm Hfail Hcode Hrm.
  destruct (request_tokens c b m0 m1 a Hrq) as (Hseq & _ & Hn & Hlog).
  assert (Hin : forall i, i ∈ concat idxss -> (i < get_n_tokens a)%nat).
  { intros i Hi. rewrite Hperm in Hi. apply elem_of_seq in Hi. lia. }
  pose proof (steps_outputs a _ idxss Hseq Hlog Hsteps Hin) as Hok.
  assert (Hrows : Forall2 (computed_row row a (before ++ (mu, u) :: after)) (get_out_ids a2) (step_rows row (before ++ (mu, u) :: after))).
  { rewrite Hout. apply rows_described; [done| |intros i Hi; specialize (Hin i Hi); lia].
    eapply Forall2_impl; [exact Hsteps|]. by intros s l [_ ?]. }
  assert (Hpo : get_out_ids a2 ≡ₚ output_tokens a) by (rewrite Hout; unfold output_tokens; by rewrite <- Hperm).
  pose proof (Forall2_length _ _ _ Hrows) as Hlr. rewrite (Permutation_length Hpo), <- Hn in Hlr.
  unfold step_rows in Hlr. rewrite map_app, concat_app, length_app in Hlr.
  pose proof (length_steps _ idxss _ Hsteps) as Hls. rewrite (Permutation_length Hperm), length_seq, length_app in Hls. simpl in Hls.
  destruct (decode_start c b m0 m1 a cx m3 a2 Hrq Eb Est) as (c2 & total & Htot & -> & _ & _ & _ & Hpl & Hl).
  destruct (decode_loop_fails model cparams compute row m3 cx before mu u after m' (get_n_outputs a =? get_n_tokens a)%nat
    (get_n_outputs a) total st code m2 Hpass) with (fuel := S (get_n_tokens a)) (rows := @nil (list F)) (o := lc_out c2)
    as (o' & nl & Eloop); try done.
  - rewrite Hn. apply Forall_app in Hok as [H1 H2]. apply Forall_cons in H2 as [H2 _]. apply Forall_app. by split; [|constructor].
  - lia.
  - constructor.
  - unfold step_rows. simpl length. lia.
  - simpl length in Eloop. rewrite Eloop. cbn [mbind outcome_bind]. by eexists.
Qed.

(** Asking for the output of a token, or for the outputs from the end. *)
Lemma outputs_of_mapped c n_all outs rows a steps ndebug j t i r : mapped model c n_all outs rows ->
  outs !! j = Some t -> i = Z.of_nat t \/ i = Z.of_nat j - Z.of_nat (length outs) ->
  swapped_all rows (lc_output_swaps c) !! j = Some (map Some r) -> computed_row row a steps t r ->
  exists c' buf, get_logits_ith model ndebug c i = Ret (Some (j * md_n_vocab model)%nat, c') /\ o_logits (lc_out c') = Some buf
    /\ exists r, take (md_n_vocab model) (drop (j * md_n_vocab model) buf) = map Some r /\ computed_row row a steps t r.
Proof.
  intros Hm Hj Hi Hr Hc. destruct (get_logits_ok model ndebug c n_all outs rows j t i Hm Hj Hi) as (c' & E1 & E2).
  eexists c', _. split; [exact E1|]. split; [exact E2|]. exists r. split; [|done].
  apply row_at; [|done]. apply uniform_swapped_all, Hm.
Qed.

(** C20. A causal decoder-only context that computes logits only, without
    embeddings and without backend samplers: decoding an accepted batch that the
    memory serves, when the computations succeed, returns 0 and leaves the memory
    after the last ubatch. The output asked for by the index of a token in the
    batch, or by a negative index from the last output back, is the row of logits
    that was computed for that token, in whatever order the ubatches held the
    tokens; a token without an output has none. *)
Theorem decode_outputs c b m0 m1 a steps m' : request c b m0 m1 a -> served m1 a steps m' ->
  Forall (fun s => computes model compute row s.1 s.2) steps ->
  exists c', decode c b = Ret (0, c') /\ lc_memory c' = Some m'
    /\ (forall ndebug j t i, output_tokens a !! j = Some t ->
         i = Z.of_nat t \/ i = Z.of_nat j - Z.of_nat (get_n_outputs a) ->
         exists c'' buf, get_logits_ith model ndebug c' i = Ret (Some (j * md_n_vocab model)%nat, c'')
           /\ o_logits (lc_out c'') = Some buf
           /\ exists r, take (md_n_vocab model) (drop (j * md_n_vocab model) buf) = map Some r /\ computed_row row a steps t r)
    /\ forall t, (t < get_n_tokens a)%nat -> is_output (batch a) t = false ->
         exists c'', get_logits_ith model true c' (Z.of_nat t) = Ret (None, c'').
Proof.
  intros Hrq Hsv Hcm. destruct (request_tokens c b m0 m1 a Hrq) as (_ & _ & Hn & _).
  destruct (decode_ok c b m0 m1 a steps m' Hrq Hsv Hcm) as (c' & rows & E1 & Hm' & Hmap & Hrows).
  exists c'. split; [done|]. split; [done|]. rewrite Hn. split.
  - intros ndebug j t i Hj Hi. destruct (Hrows j t Hj) as (r & Hr & Hc). by eapply outputs_of_mapped.
  - intros t Ht Hno. eapply get_logits_none; [exact Hmap|done|]. intros [_ Ho]%elem_of_output_tokens. congruence.
Qed.

End Theorems.
