(* ===== verification/DecodeKv.v ===== *)
(** * Decoding with the KV cache.

    The KV cache keeps the promises of the interface: its contexts pass through
    the ubatches of an accepted batch.  A failed computation is taken back. *)

From S2P Require Import Prelude Batch BatchFacts BatchTheorems BatchInit KvCells KvCellsFacts KvCache KvCacheFacts KvCopy KvSlot.
From S2P Require Import KvPlace KvPrepare KvInputs KvContext KvTheorems KvBatch Decode DecodeFacts DecodeRun DecodeTheorems.
From Stdlib Require Import Lia.

Section DecodeKv.
Context {E F : Type} (can_shift has_rope computed : bool).
Notation llama_ubatch := (llama_ubatch E).
Notation kv_context := (@Context.kv_context E).
#[local] Instance kvm : @memory_i E llama_kv_cache kv_context := kv_memory_i can_shift has_rope computed.
Implicit Types (a : llama_batch_allocr E) (u : llama_ubatch) (k : llama_kv_cache).

(** ** The contexts of the cache *)

(** Every step of the run is a plan for the ubatches so far. *)
Definition planned n k (steps : list (llama_kv_cache * llama_ubatch)) : Prop :=
  forall before m1 u after, steps = before ++ (m1, u) :: after ->
    exists sis, plan n k sis (map snd before ++ [u]) m1 /\ kv_ok n m1.

Lemma planned_cons n k si u m k1 steps : kv_ok n k -> Kv.find_slot k u false = Ret (Some si) ->
  placeable k u m si -> Kv.apply_ubatch k si u = Ret k1 -> planned n k1 steps -> planned n k ((k1, u) :: steps).
Proof.
  intros Hok Hslot Hpl Happ Hpd [|[m0 u0] before] m1 u1 after Heq; cbn [app] in Heq.
  - injection Heq as <- <- _. exists [si]. destruct (apply_ubatch_ok n k u m si Hok Hpl) as (k1' & E1 & H1 & _).
    assert (k1' = k1) as -> by congruence. split; [|done]. eapply plan_cons; try done. constructor.
  - injection Heq as <- <- ->. destruct (Hpd before m1 u1 after eq_refl) as (sis & Hplan & H1). exists (si :: sis). split; [|done].
    simpl. by eapply plan_cons.
Qed.

Lemma plan_passes n k sis us k' : plan n k sis us k' -> us <> [] ->
  forall sis0 us0 (cx : kv_context), length sis0 = length us0 ->
  Context.cx_status cx = LLAMA_MEMORY_STATUS_SUCCESS -> Context.cx_i_cur cx = length us0 ->
  Context.cx_sinfos cx = sis0 ++ sis -> Context.cx_ubatches cx = us0 ++ us ->
  exists steps, passes k cx steps k' /\ map snd steps = us /\ planned n k steps.
Proof.
  induction 1 as [|k si u m k1 sis us k2 Hok Hslot Hpl Happ Hplan IH]; intros Hne sis0 us0 cx Hlen Hs Hi Hsi Hus; [done|].
  destruct (plan_step n k u m si k1 Hok Hpl Happ) as [r Hr].
  assert (E1 : at_ (sis0 ++ si :: sis) (length us0) = Ret si).
  { apply at_Ret. by rewrite lookup_app_r, Hlen, Nat.sub_diag by lia. }
  assert (E2 : at_ (us0 ++ u :: us) (length us0) = Ret u).
  { apply at_Ret. by rewrite lookup_app_r, Nat.sub_diag by lia. }
  assert (Hget : mi_get_ubatch cx = Ret u).
  { simpl. unfold Context.get_ubatch. rewrite Hs, Hus, Hi. simpl. exact E2. }
  assert (Happly : mi_apply k cx = Ret (true, k1, Context.set_n_kv cx r)).
  { simpl. unfold Context.apply. rewrite Hs. cbn [llama_memory_status_is_fail negb c_assert mbind outcome_bind]. rewrite Hus.
    destruct (us0 ++ u :: us) as [|u' us'] eqn:Eus; [by destruct us0|]. rewrite <- Eus in *. rewrite Hsi, Hi, E1, E2.
    cbn [mbind outcome_bind]. rewrite Happ. cbn [mbind outcome_bind]. by rewrite Hr. }
  assert (Hnext : mi_next (Context.set_n_kv cx r)
    = Ret (negb (length (us0 ++ u :: us) <=? S (length us0))%nat, Context.set_i_cur (Context.set_n_kv cx r) (S (length us0)))).
  { simpl. unfold Context.next, Context.set_n_kv, Context.set_i_cur. cbn [Context.cx_status Context.cx_ubatches Context.cx_i_cur].
    by rewrite Hs, Hi, Hus. }
  rewrite length_app in Hnext. simpl length in Hnext. destruct us as [|u2 us].
  - inversion Hplan; subst. rewrite (proj2 (Nat.leb_le _ _)) in Hnext by (simpl; lia). exists [(k2, u)].
    split_and!; [by eapply passes_last|done|]. eapply planned_cons; try done. intros [|? ?] ? ? ? [=].
  - rewrite (proj2 (Nat.leb_gt _ _)) in Hnext by (simpl; lia).
    edestruct (IH ltac:(done) (sis0 ++ [si]) (us0 ++ [u])) as (steps & Hp & Hm & Hpd); cycle -1.
    + exists ((k1, u) :: steps). split_and!; [by eapply passes_next|simpl; by rewrite Hm|by eapply planned_cons].
    + rewrite !length_app. simpl. lia.
    + done.
    + rewrite length_app. simpl. lia.
    + rewrite <- app_assoc. done.
    + rewrite <- app_assoc. exact Hus.
Qed.

(** ** Serving a batch *)

(** Nothing is left to be done before the next batch. *)
Definition nothing_pending k : Prop := Kv.init_update k = Ret (false, [], k).

Lemma update_nothing k optimize : nothing_pending k -> memory_update k optimize = Ret (false, k).
Proof. intros H. unfold memory_update. simpl. unfold Context.init_update. by rewrite H. Qed.

Context (model : llama_model) (cparams : llama_cparams) (alloc_buffer : Z -> bool).
Context (compute : llama_kv_cache -> kv_context -> llama_ubatch -> nat -> ggml_status + @graph_result F).
Context (compute_encoder : llama_ubatch -> nat -> ggml_status + @graph_result F).
Context (row : llama_kv_cache -> llama_ubatch -> nat -> list F).
Notation llama_context := (@llama_context E F llama_kv_cache).
Notation decode := (decode model cparams alloc_buffer compute compute_encoder).

(** A batch for a cache with one stream and full attention. *)
Record kv_request (n : nat) (c : llama_context) (b : llama_batch E) k a : Prop := {
  kr_request : request model cparams alloc_buffer c b k k a;
  kr_nothing : nothing_pending k;
  kr_ok : kv_ok n k;
  kr_unified : unified k;
  kr_full : full_attention k;
  kr_npos : n_pos_per_embd (lc_balloc c) = 1%nat;
  kr_nodup i ids : token_seqs (batch a) i ids -> NoDup ids;
  kr_pos i p : pos (batch a) !! i = Some p -> 0 <= p;
}.

(** The steps of the run of a batch that finds room. *)
Record kv_run (n : nat) k a (steps : list (llama_kv_cache * llama_ubatch)) (k' : llama_kv_cache) : Prop := {
  kr_served : served cparams k a steps k';
  kr_planned : planned n k steps;
  kr_split : exists idxss, split_of a (map snd steps) idxss;
  kr_fits : Forall (fits_stream k) (map snd steps);
  kr_plan : exists sis, plan n k sis (map snd steps) k';
  kr_ok' : kv_ok n k';
}.

Lemma kv_serves n c b k a : kv_request n c b k a ->
  if (n_tokens (batch a) <=? length (free_cells n k 0))%nat then exists steps k', kv_run n k a steps k'
  else exists a2, Context.init_batch k a (cp_n_ubatch cparams)
    = Ret (Context.fail_context LLAMA_MEMORY_STATUS_FAILED_PREPARE, k, a2).
Proof.
  intros [[Hp _ _ Hinit Har _ _] _ Hok Huni Hfull Hnp Hnd Hpos].
  destruct (batch_planned n k (lc_balloc c) a b _ _ _ _ _ Hinit Har (pc_seqs _ _ _ c Hp) Hnp Hnd Hpos Hok Huni Hfull (cp_n_ubatch cparams))
    as (us & a2 & idxss & ok & sis & Eb & Hsp & Hout & Hne & Hus & Hprep & Hfree).
  destruct ok.
  - rewrite (proj2 (Nat.leb_le _ _) (proj1 Hfree eq_refl)). destruct Hprep as (k' & Hplan & Hk').
    destruct (plan_passes n k sis us k' Hplan Hne [] [] (Context.batch_context sis us)) as (steps & Hpass & <- & Hpd); try done.
    exists steps, k'. constructor; try done; [|by exists idxss|by exists sis].
    exists (Context.batch_context sis (map snd steps)), k, a2, idxss. split_and!; try done; [|by destruct Hsp].
    destruct Hsp as [Hd _]. by rewrite Forall2_fmap_l in Hd.
  - rewrite (proj2 (Nat.leb_gt _ _)); [by exists a2|]. apply Nat.nle_gt. intros Hle. by apply Hfree in Hle.
Qed.


End DecodeKv.

(** * A failed computation is taken back.

    When a ubatch cannot be computed, [decode] removes its positions from the
    memory and returns an error.  What this leaves in the KV cache. *)

Section Fail.
Context {E F : Type} (can_shift has_rope computed : bool).
Notation llama_ubatch := (llama_ubatch E).
Notation kv_context := (@Context.kv_context E).
#[local] Instance kvf : @memory_i E llama_kv_cache kv_context := kv_memory_i can_shift has_rope computed.
Implicit Types (a : llama_batch_allocr E) (u : llama_ubatch) (k : llama_kv_cache).

(** ** The positions that are removed *)

(** Token [t] of the ubatch has [s] as its first sequence. *)
Definition first_seq u (s : Z) (t : nat) : Prop := exists ids, u_seq_id u !! t = Some (s :: ids).

(** Position [p] of sequence [s] is removed with the ubatch. *)
Definition removed u (s p : Z) : Prop :=
  p < INT32_MAX_POS /\ exists t q, (t < u_n_tokens u)%nat /\ first_seq u s t /\ u_pos u !! t = Some q /\ q <= p.

(** The tokens have a first sequence and a position. *)
Definition tokens_first u : Prop := forall t, (t < u_n_tokens u)%nat -> exists s p,
  first_seq u s t /\ 0 <= s < Z.of_nat LLAMA_MAX_SEQ /\ u_pos u !! t = Some p /\ 0 <= p < INT32_MAX_POS.

(** The least position of the tokens in [ts] with first sequence [s]. *)
Definition least_pos u (ts : list nat) (s : nat) (m : Z) : Prop :=
  (forall t q, t ∈ ts -> first_seq u (Z.of_nat s) t -> u_pos u !! t = Some q -> m <= q)
  /\ (m = INT32_MAX_POS \/ 0 <= m < INT32_MAX_POS
      /\ exists t, t ∈ ts /\ first_seq u (Z.of_nat s) t /\ u_pos u !! t = Some m).

Lemma first_seq_eq u s s' t ids : first_seq u s t -> u_seq_id u !! t = Some (s' :: ids) -> s = s'.
Proof. intros [ids' H] H'. congruence. Qed.

Lemma least_pos_snoc u ts (s : nat) (m : Z) t (s' p : Z) : least_pos u ts s m -> first_seq u s' t ->
  u_pos u !! t = Some p -> 0 <= p < INT32_MAX_POS ->
  least_pos u (ts ++ [t]) s (if s' =? Z.of_nat s then Z.min m p else m).
Proof.
  intros [Hle Hm] [ids Hf] Hp Hr. split.
  - intros t' q Ht' Hf' Hq. rewrite elem_of_app, list_elem_of_singleton in Ht'. destruct Ht' as [Ht'| ->].
    + pose proof (Hle t' q Ht' Hf' Hq). destruct (s' =? Z.of_nat s); lia.
    + assert (Z.of_nat s = s') as <- by (by eapply first_seq_eq). rewrite Z.eqb_refl.
      assert (q = p) as -> by congruence. lia.
  - destruct (Z.eqb_spec s' (Z.of_nat s)) as [->|Hne].
    + right. destruct (Z.min_spec m p) as [[Hlt ->]|[Hge ->]].
      * destruct Hm as [-> |(Hm & t' & Ht' & H)]; [lia|]. split; [done|]. exists t'. split; [set_solver|done].
      * split; [done|]. exists t. split; [set_solver|]. split; [by exists ids|done].
    + destruct Hm as [Hm|(Hm & t' & Ht' & H)]; [by left|right]. split; [done|]. exists t'. split; [set_solver|done].
Qed.

(** The table of least positions that [remove_ubatch] computes. *)
Lemma pos_min_ok u : tokens_first u -> exists pm,
  foldM (fun pm i =>
      ids ← at_ (u_seq_id u) i; s ← at_ ids 0; p ← at_ (u_pos u) i;
      q ← at_z pm s; set_ pm (Z.to_nat s) (Z.min q p))
    (replicate LLAMA_MAX_SEQ INT32_MAX_POS) (seq 0 (u_n_tokens u)) = Ret pm
  /\ length pm = LLAMA_MAX_SEQ /\ forall s m, pm !! s = Some m -> least_pos u (seq 0 (u_n_tokens u)) s m.
Proof.
  intros Htok. match goal with |- context [foldM ?f _ _] => set (step := f) end.
  destruct (foldM_prefix step (fun pre pm => length pm = LLAMA_MAX_SEQ
      /\ forall s m, pm !! s = Some m -> least_pos u pre s m)
    (replicate LLAMA_MAX_SEQ INT32_MAX_POS) (seq 0 (u_n_tokens u))) as (pm & E1 & Hl & Hpm).
  - split; [apply length_replicate|]. intros s m [-> _]%lookup_replicate. split; [|by left].
    intros t q Ht. by apply elem_of_nil in Ht.
  - intros pre t rest pm Hseq [Hl Hpm]. assert (Ht : t ∈ seq 0 (u_n_tokens u)) by (rewrite Hseq; set_solver).
    apply elem_of_seq in Ht. destruct (Htok t) as (s & p & Hf & Hs & Hp & Hpr); [lia|]. destruct Hf as [ids Hids].
    destruct (lookup_lt_is_Some_2 pm (Z.to_nat s)) as [q Hq]; [lia|]. unfold step.
    rewrite (proj2 (at_Ret _ _ _) Hids). cbn [mbind outcome_bind].
    rewrite (proj2 (at_Ret (s :: ids) 0 s) eq_refl). cbn [mbind outcome_bind].
    rewrite (proj2 (at_Ret _ _ _) Hp). cbn [mbind outcome_bind]. rewrite (at_z_Ret _ _ q) by (done || lia). cbn [mbind outcome_bind].
    eexists. split; [apply set_Ret; split; [lia|done]|]. split; [by rewrite length_insert|].
    intros s' m Hm. destruct (decide (s' = Z.to_nat s)) as [->|Hne].
    + rewrite list_lookup_insert_eq in Hm by lia. injection Hm as <-.
      pose proof (least_pos_snoc u pre _ q t s p (Hpm _ _ Hq) (ex_intro _ ids Hids) Hp Hpr) as Hsn.
      by rewrite Z2Nat.id, Z.eqb_refl in Hsn by lia.
    + rewrite list_lookup_insert_ne in Hm by done.
      pose proof (least_pos_snoc u pre _ m t s p (Hpm _ _ Hm) (ex_intro _ ids Hids) Hp Hpr) as Hsn.
      rewrite (proj2 (Z.eqb_neq _ _)) in Hsn by lia. done.
  - by exists pm.
Qed.

Lemma remove_ubatch_ok n k u : kv_ok n k -> unified k -> tokens_first u ->
  exists k', remove_ubatch k u = Ret k' /\ kv_ok n k' /\ same_shape k k'
    /\ forall s p, in_cache k' s p <-> in_cache k s p /\ ~ removed u s p.
Proof.
  intros Hok Huni Htok. unfold remove_ubatch. destruct (pos_min_ok u Htok) as (pm & -> & Hl & Hpm).
  cbn [mbind outcome_bind]. match goal with |- context [foldM ?f _ _] => set (step := f) end.
  destruct (foldM_prefix step (fun pre k' => kv_ok n k' /\ same_shape k k' /\ unified k'
      /\ forall s i p, at_pos k' s i p <-> at_pos k s i p /\ ~ (removed u s p /\ Z.to_nat s ∈ pre /\ 0 <= s))
    k (seq 0 LLAMA_MAX_SEQ)) as (k' & E1 & Hok' & Hsh & _ & Hat).
  - do 3 (split; [first [done|apply same_shape_refl]|]). intros s i p. split; [|by intros [? _]].
    intros H. split; [done|]. intros (_ & Hs & _). by apply elem_of_nil in Hs.
  - intros pre s rest k1 Hseq (Hok1 & Hsh1 & Huni1 & Hat1).
    assert (Hs : s ∈ seq 0 LLAMA_MAX_SEQ) by (rewrite Hseq, elem_of_app; right; left). apply elem_of_seq in Hs.
    destruct (lookup_lt_is_Some_2 pm s) as [m Hm]; [lia|]. destruct (Hpm s m Hm) as [Hle Hcase]. unfold step.
    rewrite (proj2 (at_Ret _ _ _) Hm). cbn [mbind outcome_bind].
    assert (Hrem : forall p, removed u (Z.of_nat s) p <-> m <> INT32_MAX_POS /\ m <= p < INT32_MAX_POS).
    { intros p. split.
      - intros (Hp & t & q & Ht & Hf & Hq & Hqp). pose proof (Hle t q ltac:(apply elem_of_seq; lia) Hf Hq). lia.
      - intros [Hne Hr]. destruct Hcase as [|(_ & t & Ht & Hf & Hq)]; [done|]. split; [lia|].
        apply elem_of_seq in Ht. exists t, m. split_and!; [lia|done|done|lia]. }
    destruct (Z.eqb_spec m INT32_MAX_POS) as [->|Hne].
    + exists k1. split; [done|]. do 3 (split; [done|]). intros s' i p. rewrite Hat1, elem_of_app, list_elem_of_singleton.
      split; intros [H1 H2]; (split; [done|]); intros (H3 & H4 & H5); apply H2; (split; [done|]); [|by split; [left|]].
      split; [|done]. destruct H4 as [H4|H4]; [done|]. subst s. rewrite Z2Nat.id in Hrem by done. apply Hrem in H3. lia.
    + destruct (unified_home n k1 (Z.of_nat s) Hok1 Huni1 ltac:(lia)) as [Hk _].
      destruct (seq_rm_one n k1 (Z.of_nat s) m (-1) Hok1 Hk) as (k2 & Ek2 & Hok2 & Hsh2 & Hat2).
      simpl (mi_seq_rm _ _ _ _). rewrite Ek2. cbn [mbind outcome_bind]. exists k2. split; [done|]. split; [done|].
      split; [by eapply same_shape_trans|]. split.
      { destruct Huni1, Hsh2 as (_ & E2 & _ & _ & _ & _ & E3). split; congruence. }
      intros s' i p. rewrite Hat2, Hat1, elem_of_app, list_elem_of_singleton.
      assert (Hin : in_pos m (-1) p <-> m <= p < INT32_MAX_POS).
      { unfold in_pos, Kv.lower, Kv.upper. rewrite (proj2 (Z.ltb_ge m 0)) by (destruct Hcase as [|[? _]]; lia). done. }
      rewrite Hin. destruct (decide (s' = Z.of_nat s)) as [->|Hs'].
      * rewrite Hrem, Nat2Z.id. pose proof (Nat2Z.is_nonneg s) as H0. clear - Hne H0. tauto.
      * assert (Hs0 : Z.to_nat s' = s -> 0 <= s' -> False) by (clear - Hs'; lia). clear - Hs' Hs0. tauto.
  - rewrite E1. exists k'. do 3 (split; [done|]). intros s p. unfold in_cache. setoid_rewrite Hat.
    assert (Hall : removed u s p -> Z.to_nat s ∈ seq 0 LLAMA_MAX_SEQ /\ 0 <= s).
    { intros (_ & t & q & Ht & [ids Hids] & _). destruct (Htok t Ht) as (s' & p' & [ids' Hids'] & Hr & _).
      assert (s' = s) as -> by congruence. split; [apply elem_of_seq|]; lia. }
    split.
    + intros (i & H1 & H2). split; [by exists i|]. intros Hr. apply H2. by destruct (Hall Hr).
    + intros [[i H1] H2]. exists i. split; [done|]. by intros [Hr _].
Qed.

(** ** Decoding *)

Context (model : llama_model) (cparams : llama_cparams) (alloc_buffer : Z -> bool).
Context (compute : llama_kv_cache -> kv_context -> llama_ubatch -> nat -> ggml_status + @graph_result F).
Context (compute_encoder : llama_ubatch -> nat -> ggml_status + @graph_result F).
Context (row : llama_kv_cache -> llama_ubatch -> nat -> list F).
Notation llama_context := (@llama_context E F llama_kv_cache).
Notation decode := (decode model cparams alloc_buffer compute compute_encoder).
Notation kv_request := (kv_request can_shift has_rope computed model cparams alloc_buffer).
Notation kv_run := (kv_run can_shift has_rope computed cparams).

(** The code [decode] returns for a computation that failed. *)
Definition return_code (st : ggml_status) : Z :=
  match st with GGML_STATUS_ABORTED => 2 | GGML_STATUS_ALLOC_FAILED => -2 | _ => -3 end.

(** The tokens of a ubatch of an accepted batch. *)
Lemma split_token a us idxss u t : batch_ok a -> split_of a us idxss -> u ∈ us -> (t < u_n_tokens u)%nat ->
  exists s p, first_seq u s t /\ 0 <= s < Z.of_nat (Batch.n_seq_max a) /\ u_pos u !! t = Some p
    /\ (exists i, pos (batch a) !! i = Some p) /\ seq_position (batch a) (Z.to_nat s) p.
Proof.
  intros Hb Hsp (j & Hj)%list_elem_of_lookup_1 Ht.
  destruct (Forall2_lookup_l _ _ _ _ _ (proj1 Hsp) Hj) as (idxs & Hidxs & _ & n_seqs & Hd).
  apply list_elem_of_lookup_2 in Hidxs. rewrite (ds_n _ _ _ _ Hd) in Ht.
  destruct (lookup_lt_is_Some_2 idxs t Ht) as [i Hi]. pose proof (list_elem_of_lookup_2 _ _ _ Hi) as Hii.
  assert (Hlt : forall i, i ∈ idxs -> (i < n_tokens (batch a))%nat) by (intros i'; by eapply split_index).
  destruct (described_token a idxs n_seqs u Hb Hd Hlt t i Hi) as (ids & p & H1 & H2 & H3 & _ & H5).
  destruct (bt_token a Hb i (Hlt i Hii)) as (ids' & H1' & Hne & _ & Hr). unfold token_seqs in *.
  assert (ids' = ids) as -> by congruence. destruct ids as [|s ids]; [done|]. pose proof (Hr s ltac:(left)) as Hs.
  exists s, p. split; [by exists ids|]. split; [done|]. split; [done|]. split; [by exists i|].
  exists i, (s :: ids). split_and!; [by apply Hlt|done|rewrite Z2Nat.id by lia; left|done].
Qed.

(** The removed tokens lie behind what the cache held. *)
Lemma removed_behind n (c : llama_context) b k a steps k' u s p : kv_request n c b k a -> kv_run n k a steps k' -> u ∈ map snd steps ->
  length (seq_pos (lc_balloc c)) = LLAMA_MAX_SEQ -> in_cache k s p -> ~ removed u s p.
Proof.
  intros [Hr _ Hok Huni _ Hnp Hnd Hpos] [_ _ [idxss Hsp] _ _ _] Hu Hlen Hin (_ & t & q & Ht & Hf & Hq & Hqp).
  pose proof Hr as [Hp _ _ Hinit Har _ _]. pose proof (pc_seqs _ _ _ c Hp) as Hs0.
  destruct (init_batch_ok _ _ _ _ _ _ _ _ Hinit Har Hs0 Hnp Hnd Hpos) as (Hb & _ & _).
  destruct (init_tokens _ _ _ _ _ _ _ _ Hinit Har Hs0) as (_ & _ & Hsm & _ & _).
  destruct (split_token a _ idxss u t Hb Hsp Hu Ht) as (s' & p' & [ids Hf'] & Hs & Hp' & _ & Hsq).
  assert (s = s') as <- by (by eapply first_seq_eq). assert (p' = q) as -> by congruence.
  destruct (batch_behind n k (lc_balloc c) a b _ _ _ _ _ Hinit Har Hs0 Hnp Hok Huni (Z.to_nat s) p q eq_refl Hlen)
    as (hi & Hpq & _); [lia|by rewrite Z2Nat.id by lia|done|lia].
Qed.

(** In a ubatch without coupled sequences every token is removed. *)
Lemma removed_all u s p : tokens_first u -> (forall t, (t < u_n_tokens u)%nat -> length (ids_of u t) = 1%nat) ->
  in_ubatch u s p -> removed u s p.
Proof.
  intros Htok Hone (t & Ht & Hs & Hp). destruct (Htok t Ht) as (s' & p' & [ids Hf] & _ & Hp' & Hr).
  specialize (Hone t Ht). unfold ids_of, pos_of in *. rewrite (list_lookup_total_correct _ _ _ Hf) in Hs, Hone.
  rewrite (list_lookup_total_correct _ _ _ Hp') in Hp. subst p'. destruct ids; [|done].
  apply list_elem_of_singleton in Hs as ->. split; [lia|]. exists t, p. split_and!; [done|by exists []|done|lia].
Qed.

(** C22. A KV cache of one stream with full attention, and an accepted batch, in a
    context without embeddings and backend samplers. When the computation of a
    ubatch fails, [decode] returns the code of the failure. The cache keeps
    everything it held before the batch, and holds beyond that only tokens of the
    ubatches computed before; tokens of the failed ubatch can only be left under
    another sequence than their first one, so none is left when every token is in
    one sequence. A hybrid memory keeps them:
    [HybridTheorems.hybrid_abort_keeps_tokens]. *)
Theorem failed_computation n (c : llama_context) b k a before m1 u after k' st :
  kv_request n c b k a -> kv_run n k a (before ++ (m1, u) :: after) k' ->
  length (seq_pos (lc_balloc c)) = LLAMA_MAX_SEQ ->
  (forall i p, pos (batch a) !! i = Some p -> p < INT32_MAX_POS) ->
  Forall (fun x => computes model compute row x.1 x.2) before -> st <> GGML_STATUS_SUCCESS ->
  (forall cx, compute m1 cx u (length (out_pos u)) = inl st) ->
  exists c' m2, decode c b = Ret (return_code st, c') /\ lc_memory c' = Some m2 /\ kv_ok n m2
    /\ (forall s p, in_cache k s p -> in_cache m2 s p)
    /\ (forall s p, in_cache m2 s p -> in_cache k s p \/ (exists u', u' ∈ map snd before /\ in_ubatch u' s p)
          \/ in_ubatch u s p /\ ~ removed u s p)
    /\ ((forall t, (t < u_n_tokens u)%nat -> length (ids_of u t) = 1%nat) -> forall s p,
          in_cache m2 s p -> in_cache k s p \/ exists u', u' ∈ map snd before /\ in_ubatch u' s p).
Proof.
  intros Hrq Hrun Hlen Hmax Hcm Hst Hfail.
  assert (Hu : u ∈ map snd (before ++ (m1, u) :: after)) by (rewrite map_app; apply elem_of_app; right; left).
  pose proof (fun s p => removed_behind n c b k a _ k' u s p Hrq Hrun Hu Hlen) as Hbehind.
  pose proof Hrq as [Hr _ Hok Huni Hfull Hnp Hnd Hpos]. destruct Hrun as [Hserved Hpd [idxss Hsp] Hfits _ _].
  pose proof Hr as [Hp _ _ Hinit Har _ _]. pose proof (pc_seqs _ _ _ c Hp) as Hs0.
  destruct (init_batch_ok _ _ _ _ _ _ _ _ Hinit Har Hs0 Hnp Hnd Hpos) as (Hb & _ & _).
  pose proof (ok_max _ (bt_alloc a Hb)) as Hsm.
  assert (Htok : tokens_first u).
  { intros t Ht. destruct (split_token a _ idxss u t Hb Hsp Hu Ht) as (s & p & Hf & Hs & Hq & [i Hi] & _).
    exists s, p. split; [done|]. split; [lia|]. split; [done|]. split; [by eapply Hpos|by eapply Hmax]. }
  destruct (Hpd before m1 u after eq_refl) as (sis & Hplan & Hok1).
  assert (Hfits1 : Forall (fits_stream k) (map snd before ++ [u])).
  { rewrite map_app in Hfits. apply Forall_app in Hfits as [H1 H2]. apply Forall_cons in H2 as [H2 _].
    apply Forall_app. by split; [|constructor]. }
  destruct (plan_adds n k sis _ m1 Hplan Hok1 Hfull Hfits1) as (Hsh & _ & Hadd).
  assert (Huni1 : unified m1).
  { destruct Huni, Hsh as (_ & E2 & _ & _ & _ & _ & E3). split; congruence. }
  destruct (remove_ubatch_ok n m1 u Hok1 Huni1 Htok) as (m2 & Erm & Hok2 & _ & Hin2).
  destruct (decode_fails model cparams alloc_buffer compute compute_encoder row c b k k a before m1 u after k' st
    (return_code st) m2 Hr Hserved Hcm Hfail) as (c' & Edec & Hmem); [by destruct st|done|].
  assert (Hleft : forall s p, in_cache m2 s p -> in_cache k s p \/ (exists u', u' ∈ map snd before /\ in_ubatch u' s p)
    \/ in_ubatch u s p /\ ~ removed u s p).
  { intros s p [[H|(u' & Hu' & H)]%Hadd Hno]%Hin2; [by left|right].
    rewrite elem_of_app, list_elem_of_singleton in Hu'. destruct Hu' as [Hu'| ->]; [left; by exists u'|by right]. }
  exists c', m2. split; [done|]. split; [done|]. split; [done|]. split; [|split; [exact Hleft|]].
  - intros s p H. apply Hin2. split; [apply Hadd; by left|exact (Hbehind s p H)].
  - intros Hone s p H. destruct (Hleft s p H) as [?|[?|[Hin Hno]]]; [by left|by right|].
    exfalso. exact (Hno (removed_all u s p Htok Hone Hin)).
Qed.

End Fail.

(** * Decoding at work: the theorems of the decoding files on concrete batches,
    and behaviours of the context that its documentation does not suggest. *)

#[local] Instance ex_memory_i : @memory_i unit llama_kv_cache (@Context.kv_context unit) := kv_memory_i true true true.

Notation ex_ctx := (@llama_context unit Z llama_kv_cache).
Notation ex_result := (@graph_result Z).
Notation ex_ubatch := (@llama_ubatch unit).

(** A model with a vocabulary of three tokens. *)
Definition ex_model : llama_model := mk_model 3 2 0 2 1 false.

Definition ex_cparams (unified : bool) (n_seq_max n_ubatch : nat) : llama_cparams :=
  mk_cparams false unified true n_seq_max 4 n_ubatch LLAMA_POOLING_TYPE_NONE.

Definition no_sampling : @sampling_info Z := mk_sampling ∅ None None None None [] [] [].

Definition ex_context (k : llama_kv_cache) : ex_ctx :=
  mk_lctx (Some k) (new_allocr 1) 0 [] [] None (mk_outputs None None ∅ no_sampling).

(** The logits of a token are its id and its position. *)
Definition ex_row (k : llama_kv_cache) (u : ex_ubatch) (ii : nat) : list Z :=
  [match u_token u with Some l => nth ii l 0 | None => 0 end; nth ii (u_pos u) 0; 7].

Definition logits_of (rows : list (list Z)) : ex_result := mk_result (Some (concat rows)) None None [] [] [] [].

Definition ex_compute (k : llama_kv_cache) (cx : @Context.kv_context unit) (u : ex_ubatch) (n : nat) : ggml_status + ex_result :=
  inr (logits_of (map (ex_row k u) (out_pos u))).

Definition no_encoder (u : ex_ubatch) (n : nat) : ggml_status + ex_result := inl GGML_STATUS_FAILED.

Lemma ex_computes k u : computes ex_model ex_compute ex_row k u.
Proof. constructor; [done|]. intros cx. eexists. by split. Qed.

Lemma ex_plain unified n_seq_max n_ubatch k : (0 < n_seq_max)%nat ->
  plain_context (E := unit) (F := Z) ex_model (ex_cparams unified n_seq_max n_ubatch) (fun _ => true) (ex_context k).
Proof.
  intros Hs. constructor; try done; [by left|]. unfold batch_seq_max. simpl. destruct unified; [|done].
  unfold LLAMA_MAX_SEQ. lia.
Qed.

(** ** Two streams *)

(** Tokens of two sequences that take turns; the batch is split by sequence. *)
Definition turns_inp : llama_batch unit :=
  mk_batch 4 (Some [2; 0; 1; 2]) None None (Some [1; 1; 1; 1]) (Some [[0]; [1]; [0]; [1]]) (Some [1; 1; 1; 0]).

Definition turns_k0 : llama_kv_cache := Eval vm_compute in get no_cache (Kv.make false 4 2 4 0 LLAMA_SWA_TYPE_NONE 1).

Definition turns_allocr : llama_batch_allocr unit :=
  match init (new_allocr 1) turns_inp 3 (Some (kv_memory turns_k0)) 0 2 false with
  | Ret (Some a) => a
  | _ => new_allocr 1
  end.

Definition turns_batch : outcome (@Context.kv_context unit * llama_kv_cache * llama_batch_allocr unit) :=
  Context.init_batch turns_k0 turns_allocr 4.

Definition turns_context : @Context.kv_context unit := Eval vm_compute in
  match turns_batch with Ret (cx, _, _) => cx | _ => Context.fail_context LLAMA_MEMORY_STATUS_NO_UPDATE end.

Definition turns_split : llama_batch_allocr unit :=
  match turns_batch with Ret (_, _, a) => a | _ => turns_allocr end.

Definition turns_k1 : llama_kv_cache := Eval vm_compute in
  (get (no_cache, turns_context) (Context.run_context 1 turns_k0 turns_context)).1.

Definition turns_u : ex_ubatch := Eval vm_compute in
  default ex_u (head (Context.cx_ubatches turns_context)).

Lemma turns_arrays : arrays_ok turns_inp 0 1.
Proof.
  constructor; simpl; try discriminate; try lia.
  intros l i k [= <-] Hk. apply list_elem_of_lookup_2 in Hk. rewrite !elem_of_cons, elem_of_nil in Hk. lia.
Qed.

Lemma turns_request : request ex_model (ex_cparams false 2 4) (fun _ => true) (ex_context turns_k0) turns_inp
  turns_k0 turns_k0 turns_allocr.
Proof.
  constructor; [by apply ex_plain; lia|done|done|vm_cast_no_check (eq_refl (Ret (Some turns_allocr) : outcome _))|exact turns_arrays|vm_compute; lia|].
  exists false. by vm_compute.
Qed.

Lemma turns_describes : describes turns_allocr [0; 2; 1; 3]%nat 2 turns_u.
Proof. constructor; try (by vm_compute). repeat constructor. Qed.

Lemma turns_served : served (ex_cparams false 2 4) turns_k0 turns_allocr [(turns_k1, turns_u)] turns_k1.
Proof.
  exists turns_context, turns_k0, turns_split, [[0; 2; 1; 3]%nat].
  split; [vm_cast_no_check (eq_refl turns_batch)|]. split; [done|]. split.
  - eapply passes_last; [by vm_compute|vm_compute; reflexivity|vm_compute; reflexivity].
  - split; [|split; [|by vm_compute]].
    + constructor; [|constructor]. split; [done|]. exists 2%nat. exact turns_describes.
    + simpl. change (seq 0 (get_n_tokens turns_allocr)) with [0; 1; 2; 3]%nat. apply perm_skip, perm_swap.
Qed.

(** The outputs are those of the tokens 0, 1 and 2, though the rows were computed
    in the order 0, 2, 1; token 3 has none. *)
Lemma decode_outputs_witness : output_tokens turns_allocr = [0; 1; 2]%nat
  /\ exists c', decode ex_model (ex_cparams false 2 4) (fun _ => true) ex_compute no_encoder (ex_context turns_k0) turns_inp = Ret (0, c')
    /\ lc_memory c' = Some turns_k1
    /\ (forall ndebug j t i, output_tokens turns_allocr !! j = Some t ->
         i = Z.of_nat t \/ i = Z.of_nat j - Z.of_nat (get_n_outputs turns_allocr) ->
         exists c'' buf, get_logits_ith ex_model ndebug c' i = Ret (Some (j * 3)%nat, c'')
           /\ o_logits (lc_out c'') = Some buf
           /\ exists r, take 3 (drop (j * 3) buf) = map Some r
                /\ computed_row ex_row turns_allocr [(turns_k1, turns_u)] t r)
    /\ forall t, (t < get_n_tokens turns_allocr)%nat -> is_output (batch turns_allocr) t = false ->
         exists c'', get_logits_ith ex_model true c' (Z.of_nat t) = Ret (None, c'').
Proof.
  split; [by vm_compute|].
  apply (decode_outputs ex_model (ex_cparams false 2 4) (fun _ => true) ex_compute no_encoder ex_row
    (ex_context turns_k0) turns_inp turns_k0 turns_k0 turns_allocr [(turns_k1, turns_u)] turns_k1).
  - exact turns_request.
  - exact turns_served.
  - constructor; [apply ex_computes|constructor].
Defined.

(** ** One stream *)

(** Three tokens of the sequences 0, 1 and 0 for the cache [ex_k1]. *)
Definition next_inp : llama_batch unit :=
  mk_batch 3 (Some [2; 0; 1]) None None (Some [1; 1; 1]) (Some [[0]; [1]; [0]]) None.

Definition next_allocr : llama_batch_allocr unit :=
  match init (new_allocr 1) next_inp 3 (Some (kv_memory ex_k1)) 0 2 false with
  | Ret (Some a) => a
  | _ => new_allocr 1
  end.

Lemma next_arrays : arrays_ok next_inp 0 1.
Proof.
  constructor; simpl; try discriminate; try lia.
  intros l i k [= <-] Hk. apply list_elem_of_lookup_2 in Hk. rewrite !elem_of_cons, elem_of_nil in Hk. lia.
Qed.

Lemma next_pos i p : pos (batch next_allocr) !! i = Some p -> 0 <= p <= 4.
Proof. destruct i as [|[|[|i]]]; intros H; try (vm_compute in H; injection H as <-; lia). by destruct i. Qed.

Lemma next_request : kv_request true true true ex_model (ex_cparams false 2 2) (fun _ => true) 8 (ex_context ex_k1)
  next_inp ex_k1 next_allocr.
Proof.
  constructor; [constructor| | | | | | |].
  - apply ex_plain. lia.
  - done.
  - done.
  - vm_cast_no_check (eq_refl (Ret (Some next_allocr) : outcome _)).
  - exact next_arrays.
  - vm_compute. lia.
  - exists false. by vm_compute.
  - by vm_compute.
  - exact ex_k1_ok.
  - by split.
  - by split.
  - done.
  - intros i ids H. destruct i as [|[|[|i]]]; try (vm_compute in H; injection H as <-; apply NoDup_singleton). by destruct i.
  - intros i p H. apply next_pos in H. lia.
Qed.


(** A computation that the user aborts. *)
Definition aborted (k : llama_kv_cache) (cx : @Context.kv_context unit) (u : ex_ubatch) (n : nat) : ggml_status + ex_result :=
  inl GGML_STATUS_ABORTED.

(** The run of the batch, when nothing fails. *)
Lemma next_run : exists m1 u after k', kv_run true true true (ex_cparams false 2 2) 8 ex_k1 next_allocr ((m1, u) :: after) k'.
Proof.
  pose proof (kv_serves true true true ex_model (ex_cparams false 2 2) (fun _ => true) 8 (ex_context ex_k1) next_inp
    ex_k1 next_allocr next_request) as H.
  change (n_tokens (batch next_allocr) <=? length (free_cells 8 ex_k1 0))%nat with true in H. cbn iota in H.
  destruct H as (steps & k' & H). pose proof (kr_served _ _ _ _ _ _ _ _ _ H) as (cx & m2 & a2 & idxss & _ & _ & Hp & _).
  inversion Hp; subst; by eexists _, _, _, _.
Qed.

Lemma failed_computation_witness : exists (m1 : llama_kv_cache) (u : ex_ubatch) after k',
  kv_run true true true (ex_cparams false 2 2) 8 ex_k1 next_allocr ([] ++ (m1, u) :: after) k'
  /\ exists c' m2, decode ex_model (ex_cparams false 2 2) (fun _ => true) aborted no_encoder (ex_context ex_k1) next_inp = Ret (2, c')
    /\ lc_memory c' = Some m2 /\ kv_ok 8 m2
    /\ (forall s p, in_cache ex_k1 s p -> in_cache m2 s p)
    /\ (forall s p, in_cache m2 s p -> in_cache ex_k1 s p \/ (exists u' : ex_ubatch, u' ∈ @nil ex_ubatch /\ in_ubatch u' s p)
          \/ in_ubatch u s p /\ ~ removed u s p)
    /\ ((forall t, (t < u_n_tokens u)%nat -> length (ids_of u t) = 1%nat) -> forall s p,
          in_cache m2 s p -> in_cache ex_k1 s p \/ exists u' : ex_ubatch, u' ∈ @nil ex_ubatch /\ in_ubatch u' s p).
Proof.
  destruct next_run as (m1 & u & after & k' & Hrun). exists m1, u, after, k'. split; [exact Hrun|].
  apply (failed_computation true true true ex_model (ex_cparams false 2 2) (fun _ => true) aborted no_encoder ex_row
    8 (ex_context ex_k1) next_inp ex_k1 next_allocr [] m1 u after k' GGML_STATUS_ABORTED).
  - exact next_request.
  - exact Hrun.
  - reflexivity.
  - intros i p H. apply next_pos in H. unfold INT32_MAX_POS. lia.
  - constructor.
  - discriminate.
  - reflexivity.
Defined.

(** ** Findings *)

Definition code_of {A} (r : outcome (Z * A)) : option Z := match r with Ret (c, _) => Some c | _ => None end.

Definition context_of {A} (d : A) (r : outcome (Z * A)) : A := match r with Ret (_, c) => c | _ => d end.

(** A token of both sequences, for an empty cache. *)
Definition shared_inp : llama_batch unit :=
  mk_batch 1 (Some [2]) None None (Some [2]) (Some [[0; 1]]) None.

Definition after_abort : ex_ctx :=
  context_of (ex_context ex_k0)
    (decode ex_model (ex_cparams false 2 2) (fun _ => true) aborted no_encoder (ex_context ex_k0) shared_inp).

(** When the computation of a token of two sequences is aborted, only the first
    sequence loses it, and decoding the same batch again is refused. *)
Lemma retry_after_abort :
  code_of (decode ex_model (ex_cparams false 2 2) (fun _ => true) aborted no_encoder (ex_context ex_k0) shared_inp) = Some 2
  /\ (from_option (fun k => (pos_or_none (Kv.seq_pos_max k 0), pos_or_none (Kv.seq_pos_max k 1))) (0, 0) (lc_memory after_abort)) = (-1, 0)
  /\ code_of (decode ex_model (ex_cparams false 2 2) (fun _ => true) ex_compute no_encoder (ex_context ex_k0) shared_inp) = Some 0
  /\ code_of (decode ex_model (ex_cparams false 2 2) (fun _ => true) ex_compute no_encoder after_abort shared_inp) = Some (-1).
Proof. vm_compute. done. Qed.

(** Rows of embeddings have [n_embd_out] values but are swapped as if they had [n_embd]. *)
Lemma reorder_embeddings_stride :
  output_reorder ex_model (with_ids (with_out (ex_context ex_k0)
    (mk_outputs None (Some [Some 4; Some 5]) ∅ no_sampling)) [1; 0] [(0, 1)%nat]) = Undef.
Proof. by vm_compute. Qed.

(** A negative index before the first output wraps around and is reported as a
    corrupt buffer. *)
Lemma negative_index_wraps :
  output_resolve_row (with_n_outputs (with_ids (ex_context ex_k0) [0; 1; 2] []) 3) (-5) = Throw "corrupt output buffer".
Proof. by vm_compute. Qed.

(** The samplers' check counts outputs per sequence before the ids are validated. *)
Lemma sampler_check_unvalidated :
  decode ex_model (ex_cparams false 2 2) (fun _ => true) ex_compute no_encoder
    (with_out (ex_context ex_k0) (mk_outputs None None ∅ (mk_sampling {[ 0 ]} None None None None [] [] [])))
    (mk_batch 1 (Some [2]) None None (Some [1]) (Some [[7]]) (Some [1])) = Undef.
Proof. by vm_compute. Qed.

Definition ex_encoder (u : ex_ubatch) (n : nat) : ggml_status + ex_result :=
  inr (logits_of (map (ex_row ex_k0 u) (seq 0 n))).

(** The second logit of row [i]: the position of the token. *)
Definition position_of (c : ex_ctx) (i : Z) : option Z :=
  match get_logits_ith ex_model true c i with
  | Ret (Some off, c) => b ← o_logits (lc_out c); mjoin (b !! (off + 1)%nat)
  | _ => None
  end.

Definition encoded (c : ex_ctx) : ex_ctx :=
  context_of c (encode ex_model (ex_cparams false 2 4) (fun _ => true) ex_encoder c
    (mk_batch 3 (Some [0; 1; 2]) None None None None None)).

(** [encode] keeps the swaps of the last [decode], and they are applied to its own
    outputs: the outputs 1 and 2 are exchanged. *)
Lemma encode_keeps_swaps :
  map (position_of (encoded (ex_context turns_k0))) [0; 1; 2] = [Some 0; Some 1; Some 2]
  /\ map (position_of (encoded (context_of (ex_context turns_k0)
       (decode ex_model (ex_cparams false 2 4) (fun _ => true) ex_compute no_encoder (ex_context turns_k0) turns_inp))))
       [0; 1; 2] = [Some 0; Some 2; Some 1].
Proof. vm_compute. done. Qed.
