(* ===== verification/Recurrent.v ===== *)
(** * Recurrent memory, [src/llama-memory-recurrent.cpp] and [.h].

    Every cell holds the state of a whole sequence, or of several sequences that
    share it; cell number [s] also holds the [tail] of sequence [s], the index of
    its cell.  [find_slot] brings the cells of the sequences of a ubatch next to
    each other by exchanging the descriptions of cells, and records in [src0]
    from where the graph must copy their states ([build_rs] of
    [src/llama-graph.cpp]).  The check of the tails that debug builds log, and
    log messages, are left out. *)

From S2P Require Import Prelude KvCells Batch KvCache KvContext Decode.

(** ** Data *)

(** [mem_cell]; -1 stands for none. *)
Record mem_cell := mk_mem {
  mc_pos : Z;
  mc_src : Z;
  mc_src0 : Z;
  mc_tail : Z;
  mc_seq : gset Z;
}.

Record llama_memory_recurrent := mk_rec {
  rc_head : Z;
  rc_size : nat;
  rc_used : Z;
  rc_n : Z;
  rc_rs_z : Z;
  rc_cells : list mem_cell;
}.

Definition has_seq_id (c : mem_cell) (id : Z) : bool := bool_decide (id ∈ mc_seq c).
Definition is_empty (c : mem_cell) : bool := bool_decide (mc_seq c = ∅).

Definition no_cell : mem_cell := mk_mem (-1) (-1) (-1) (-1) ∅.

Definition with_pos (p : Z) (c : mem_cell) : mem_cell := mk_mem p (mc_src c) (mc_src0 c) (mc_tail c) (mc_seq c).
Definition with_src (s : Z) (c : mem_cell) : mem_cell := mk_mem (mc_pos c) s (mc_src0 c) (mc_tail c) (mc_seq c).
Definition with_src0 (s : Z) (c : mem_cell) : mem_cell := mk_mem (mc_pos c) (mc_src c) s (mc_tail c) (mc_seq c).
Definition with_tail (t : Z) (c : mem_cell) : mem_cell := mk_mem (mc_pos c) (mc_src c) (mc_src0 c) t (mc_seq c).
Definition with_seq (q : gset Z) (c : mem_cell) : mem_cell := mk_mem (mc_pos c) (mc_src c) (mc_src0 c) (mc_tail c) q.

(** [pos = -1; src = -1]. *)
Definition emptied (c : mem_cell) : mem_cell := mk_mem (-1) (-1) (mc_src0 c) (mc_tail c) (mc_seq c).

Module Rec.

(** A memory of [n] cells. *)
Definition make (n : nat) : llama_memory_recurrent := mk_rec 0 n 0 0 (-1) (replicate n no_cell).

Definition with_cells (m : llama_memory_recurrent) (l : list mem_cell) : llama_memory_recurrent :=
  mk_rec (rc_head m) (rc_size m) (rc_used m) (rc_n m) (rc_rs_z m) l.
Definition with_head (m : llama_memory_recurrent) (h : Z) : llama_memory_recurrent :=
  mk_rec h (rc_size m) (rc_used m) (rc_n m) (rc_rs_z m) (rc_cells m).
Definition with_used (m : llama_memory_recurrent) (u : Z) : llama_memory_recurrent :=
  mk_rec (rc_head m) (rc_size m) u (rc_n m) (rc_rs_z m) (rc_cells m).
Definition with_range (m : llama_memory_recurrent) (n rs_z : Z) : llama_memory_recurrent :=
  mk_rec (rc_head m) (rc_size m) (rc_used m) n rs_z (rc_cells m).

Definition cell (m : llama_memory_recurrent) (i : Z) : outcome mem_cell := at_z (rc_cells m) i.

(** A change of cell [i]. *)
Definition change (m : llama_memory_recurrent) (i : Z) (f : mem_cell -> mem_cell) : outcome llama_memory_recurrent :=
  c ← cell m i; l ← set_ (rc_cells m) (Z.to_nat i) (f c); Ret (with_cells m l).

Definition size_z (m : llama_memory_recurrent) : Z := Z.of_nat (rc_size m).

(** [used--], on unsigned integers. *)
Definition release (m : llama_memory_recurrent) : llama_memory_recurrent := with_used m (u32 (rc_used m - 1)).

(** [if (new_head != size && new_head < head) head = new_head;] *)
Definition lower_head (m : llama_memory_recurrent) (new_head : nat) : llama_memory_recurrent :=
  if negb (new_head =? rc_size m)%nat && (Z.of_nat new_head <? rc_head m) then with_head m (Z.of_nat new_head) else m.

Definition note_freed (m : llama_memory_recurrent) (i new_head : nat) : nat :=
  if (new_head =? rc_size m)%nat then i else new_head.

(** ** Operations on sequences *)

Definition clear (m : llama_memory_recurrent) : outcome llama_memory_recurrent :=
  m ← foldM (fun m i => change m (Z.of_nat i) (fun c => mk_mem (-1) (-1) (mc_src0 c) (-1) ∅)) m (seq 0 (rc_size m));
  Ret (with_used (with_head m 0) 0).

(** One cell of [seq_rm]. *)
Definition rm_cell (seq_id p0 p1 : Z) (acc : llama_memory_recurrent * nat) (i : nat)
    : outcome (llama_memory_recurrent * nat) :=
  let '(m, new_head) := acc in
  c ← cell m (Z.of_nat i);
  if (p0 <=? mc_pos c) && (mc_pos c <? p1) && ((seq_id <? 0) || has_seq_id c seq_id) then
    let q := if seq_id <? 0 then ∅ else mc_seq c ∖ {[ seq_id ]} in
    m ← change m (Z.of_nat i) (with_seq q);
    if bool_decide (q = ∅) then
      let m := if 0 <=? mc_pos c then release m else m in
      m ← change m (Z.of_nat i) emptied;
      Ret (m, note_freed m i new_head)
    else Ret (m, new_head)
  else Ret (m, new_head).

(** The tail of the sequence, or the whole range, decides whether anything can be removed. *)
Definition rm_tail (m : llama_memory_recurrent) (seq_id p0 p1 : Z) : outcome (option llama_memory_recurrent) :=
  if 0 <=? seq_id then
    t ← cell m seq_id;
    if 0 <=? mc_tail t then
      c ← cell m (mc_tail t);
      if (0 <? p0) && (p0 <=? mc_pos c) && (mc_pos c <? p1) then Ret None
      else if (p0 <=? mc_pos c) && (mc_pos c <? p1) then m ← change m seq_id (with_tail (-1)); Ret (Some m)
      else Ret (Some m)
    else Ret (Some m)
  else if negb (p0 =? p1) && (negb (p0 =? 0) || negb (p1 =? INT32_MAX)) then Ret None
  else Ret (Some m).

Definition seq_rm (m : llama_memory_recurrent) (seq_id p0 p1 : Z) : outcome (bool * llama_memory_recurrent) :=
  let p0 := Kv.lower p0 in
  let p1 := Kv.upper p1 in
  if size_z m <=? seq_id then Ret (false, m)
  else
    r ← rm_tail m seq_id p0 p1;
    match r with
    | None => Ret (false, m)
    | Some m =>
        '(m, new_head) ← foldM (rm_cell seq_id p0 p1) (m, rc_size m) (seq 0 (rc_size m));
        Ret (true, lower_head m new_head)
    end.

(** The sequence leaves its cell; the cell is given up when it was the last one. *)
Definition leave (m : llama_memory_recurrent) (seq_id : Z) : outcome llama_memory_recurrent :=
  t ← cell m seq_id;
  if 0 <=? mc_tail t then
    m ← change m (mc_tail t) (fun c => with_seq (mc_seq c ∖ {[ seq_id ]}) c);
    m ← change m seq_id (with_tail (-1));
    c ← cell m (mc_tail t);
    if is_empty c then m ← change m (mc_tail t) emptied; Ret (release m) else Ret m
  else Ret m.

(** The range is not looked at: a state belongs to a whole sequence. *)
Definition seq_cp (m : llama_memory_recurrent) (src dst p0 p1 : Z) : outcome llama_memory_recurrent :=
  if src =? dst then Ret m
  else if (u32 dst <? size_z m) && (u32 src <? size_z m) then
    m ← leave m dst;
    t ← cell m src;
    if 0 <=? mc_tail t then
      m ← change m (mc_tail t) (fun c => with_seq (mc_seq c ∪ {[ dst ]}) c);
      change m dst (with_tail (mc_tail t))
    else Ret m
  else Ret m.

Definition keep_cell (seq_id : Z) (acc : llama_memory_recurrent * nat) (i : nat) : outcome (llama_memory_recurrent * nat) :=
  let '(m, new_head) := acc in
  m ← (if Z.of_nat i =? seq_id then Ret m else change m (Z.of_nat i) (with_tail (-1)));
  c ← cell m (Z.of_nat i);
  if has_seq_id c seq_id then m ← change m (Z.of_nat i) (with_seq {[ seq_id ]}); Ret (m, new_head)
  else
    let m := if 0 <=? mc_pos c then release m else m in
    m ← change m (Z.of_nat i) (fun c => with_seq ∅ (emptied c));
    Ret (m, note_freed m i new_head).

Definition seq_keep (m : llama_memory_recurrent) (seq_id : Z) : outcome llama_memory_recurrent :=
  '(m, new_head) ← foldM (keep_cell seq_id) (m, rc_size m) (seq 0 (rc_size m));
  Ret (lower_head m new_head).

(** A change of the position of the sequence, when it lies in the range. *)
Definition move (m : llama_memory_recurrent) (seq_id p0 p1 : Z) (f : Z -> outcome Z) : outcome llama_memory_recurrent :=
  let p0 := Kv.lower p0 in
  let p1 := Kv.upper p1 in
  if p0 =? p1 then Ret m
  else if (0 <=? seq_id) && (seq_id <? size_z m) then
    t ← cell m seq_id;
    if 0 <=? mc_tail t then
      c ← cell m (mc_tail t);
      if has_seq_id c seq_id && (p0 <=? mc_pos c) && (mc_pos c <? p1) then
        p ← f (mc_pos c); change m (mc_tail t) (with_pos p)
      else Ret m
    else Ret m
  else Ret m.

Definition seq_add (m : llama_memory_recurrent) (seq_id p0 p1 shift : Z) : outcome llama_memory_recurrent :=
  if shift =? 0 then Ret m else move m seq_id p0 p1 (fun p => Ret (p + shift)).

Definition seq_div (m : llama_memory_recurrent) (seq_id p0 p1 d : Z) : outcome llama_memory_recurrent :=
  if d =? 1 then Ret m
  else move m seq_id p0 p1 (fun p => if d =? 0 then Undef else Ret (Z.quot p d)).

Definition seq_pos_min (m : llama_memory_recurrent) (seq_id : Z) : outcome Z :=
  r ← foldM (fun r i => c ← cell m (Z.of_nat i); Ret (if has_seq_id c seq_id then Z.min r (mc_pos c) else r))
        INT32_MAX (seq 0 (rc_size m));
  Ret (if r =? INT32_MAX then -1 else r).

Definition seq_pos_max (m : llama_memory_recurrent) (seq_id : Z) : outcome Z :=
  foldM (fun r i => c ← cell m (Z.of_nat i); Ret (if has_seq_id c seq_id then Z.max r (mc_pos c) else r))
    (-1) (seq 0 (rc_size m)).

Section Slot.
Context {E : Type}.
Notation llama_ubatch := (llama_ubatch E).

(** ** Finding a slot *)

Definition first_id (u : llama_ubatch) (s : nat) : outcome Z :=
  ids ← at_ (u_seq_id u) (s * u_n_seq_tokens u); at_ ids 0.

(** "everything should fit if all seq_ids are smaller than the max": whether all
    ids are valid; the sequences that become shared leave their cells. *)
Definition check_id (ids : list Z) (acc : bool * llama_memory_recurrent) (j : nat) : outcome (bool * llama_memory_recurrent) :=
  let '(ok, m) := acc in
  if negb ok then Ret (ok, m)
  else
    seq_id ← at_ ids j;
    if (seq_id <? 0) || (size_z m <=? u32 seq_id) then Ret (false, m)
    else if (0 <? j)%nat then m ← leave m seq_id; Ret (true, m)
    else Ret (true, m).

Definition check_set (u : llama_ubatch) (acc : bool * llama_memory_recurrent) (s : nat) : outcome (bool * llama_memory_recurrent) :=
  if negb acc.1 then Ret acc
  else
    n ← at_ (u_n_seq_id u) (s * u_n_seq_tokens u);
    ids ← at_ (u_seq_id u) (s * u_n_seq_tokens u);
    foldM (check_id ids) acc (seq 0 (Z.to_nat (u32 n))).

Definition check_ids (m : llama_memory_recurrent) (u : llama_ubatch) : outcome (bool * llama_memory_recurrent) :=
  foldM (check_set u) (true, m) (seq 0 (u_n_seqs u)).

(** "find next empty cell": the first one from [next] on, around the end. *)
Fixpoint scan (fuel : nat) (m : llama_memory_recurrent) (next : Z) : outcome Z :=
  match fuel with
  | O => Ret next
  | S fuel =>
      let next := if size_z m <=? next then next - size_z m else next in
      c ← cell m next;
      if is_empty c then Ret next else scan fuel m (next + 1)
  end.

(** The same search from behind [next]. *)
Fixpoint scan_next (fuel : nat) (m : llama_memory_recurrent) (next : Z) : outcome Z :=
  match fuel with
  | O => Ret next
  | S fuel =>
      let next := if size_z m <=? next + 1 then next + 1 - size_z m else next + 1 in
      c ← cell m next;
      if is_empty c then Ret next else scan_next fuel m next
  end.

Record claims := mk_claims { cl_next : Z; cl_min : Z; cl_max : Z }.

(** "copy old tail into the empty cell" [e]. *)
Definition relocate (m : llama_memory_recurrent) (seq_id tail e : Z) : outcome llama_memory_recurrent :=
  m ← (if 0 <=? tail then
         orig ← cell m tail;
         m ← change m e (fun c => with_src (mc_src orig) (with_pos (mc_pos orig) c));
         m ← change m tail (fun c => with_seq (mc_seq c ∖ {[ seq_id ]}) c);
         m ← change m e (fun c => with_seq (mc_seq c ∪ {[ seq_id ]}) c);
         orig ← cell m tail;
         c_assert (negb (is_empty orig)) "!orig_cell.is_empty()";;
         Ret m
       else Ret m);
  change m seq_id (with_tail e).

(** "find usable cell range": set [s] keeps its cell when it is the only one
    there, and otherwise takes the next empty cell, with its old state. *)
Definition claim (u : llama_ubatch) (acc : llama_memory_recurrent * claims) (s : nat)
    : outcome (llama_memory_recurrent * claims) :=
  let '(m, cl) := acc in
  seq_id ← first_id u s;
  t ← cell m seq_id;
  has_cell ← (if 0 <=? mc_tail t then
                c ← cell m (mc_tail t);
                c_assert (has_seq_id c seq_id) "cell.has_seq_id(seq_id)";;
                Ret (size (mc_seq c) =? 1)%nat
              else Ret false);
  '(m, next) ← (if has_cell : bool then Ret (m, cl_next cl)
    else
      let e := cl_next cl in
      c ← cell m e;
      c_assert (is_empty c) "empty_cell.is_empty()";;
      m ← relocate m seq_id (mc_tail t) e;
      next ← (if (S s <? u_n_seqs u)%nat then scan_next (rc_size m) m e else Ret e);
      Ret (m, next));
  t ← cell m seq_id;
  Ret (m, mk_claims next (if mc_tail t <? cl_min cl then mc_tail t else cl_min cl)
                         (if cl_max cl <? mc_tail t then mc_tail t else cl_max cl)).

(** Exchanging two cells with their tails. *)
Definition swap_tail (src dst t : Z) : Z := if t =? src then dst else if t =? dst then src else t.

Definition exchange (m : llama_memory_recurrent) (dst src : Z) : outcome llama_memory_recurrent :=
  d ← cell m dst;
  s ← cell m src;
  m ← change m dst (fun c => with_seq (mc_seq s) (with_src (mc_src s) (with_pos (mc_pos s) c)));
  m ← change m src (fun c => with_seq (mc_seq d) (with_src (mc_src d) (with_pos (mc_pos d) c)));
  foldM (fun m j => change m (Z.of_nat j) (fun c => with_tail (swap_tail src dst (mc_tail c)) c)) m (seq 0 (rc_size m)).

(** "gather and re-order": the cell of set [s] becomes number [min + s]. *)
Definition gather (u : llama_ubatch) (min : Z) (m : llama_memory_recurrent) (s : nat) : outcome llama_memory_recurrent :=
  seq_id ← first_id u s;
  t ← cell m seq_id;
  let dst := Z.of_nat s + min in
  if dst =? mc_tail t then Ret m else exchange m dst (mc_tail t).

(** "update the pos of the used seqs". *)
Definition place (u : llama_ubatch) (min : Z) (m : llama_memory_recurrent) (s : nat) : outcome llama_memory_recurrent :=
  last_pos ← at_ (u_pos u) (s * u_n_seq_tokens u + u_n_seq_tokens u - 1);
  n ← at_ (u_n_seq_id u) (s * u_n_seq_tokens u);
  ids ← at_ (u_seq_id u) (s * u_n_seq_tokens u);
  let cell_id := Z.of_nat s + min in
  m ← change m cell_id (fun c => with_seq ∅ (with_pos last_pos c));
  foldM (fun m j =>
      seq_id ← at_ ids j;
      m ← change m cell_id (fun c => with_seq (mc_seq c ∪ {[ seq_id ]}) c);
      change m seq_id (with_tail cell_id))
    m (seq 0 (Z.to_nat n)).

(** How many cells have their state in cell [i]. *)
Definition refcounts (m : llama_memory_recurrent) : outcome (list nat) :=
  foldM (fun r i =>
      c ← cell m (Z.of_nat i);
      if 0 <=? mc_src c then n ← at_z r (mc_src c); set_ r (Z.to_nat (mc_src c)) (S n) else Ret r)
    (replicate (rc_size m) 0%nat) (seq 0 (rc_size m)).

(** [for (int i = min; i <= max; ++i)] *)
Definition range (min max : Z) : list Z := map (fun k => min + Z.of_nat k) (seq 0 (Z.to_nat (max - min + 1))).

(** The first cell of the range whose state is not needed. *)
Definition find_zero (r : list nat) (min max : Z) : outcome Z :=
  foldM (fun z i => if 0 <=? z then Ret z else n ← at_z r i; Ret (if (n =? 0)%nat then i else z)) (-1) (range min max).

(** "Stage the source ids for all used cells". *)
Definition stage (rs_z : Z) (m : llama_memory_recurrent) (i : Z) : outcome llama_memory_recurrent :=
  c ← cell m i;
  m ← (if mc_src c <? 0 then c_assert (0 <=? rs_z) "rs_z >= 0";; change m i (with_src0 rs_z)
       else change m i (with_src0 (mc_src c)));
  change m i (with_src i).

Definition count_used (m : llama_memory_recurrent) : Z :=
  Z.of_nat (length (List.filter (fun c => negb (is_empty c)) (rc_cells m))).

Definition find_slot (m : llama_memory_recurrent) (u : llama_ubatch) : outcome (bool * llama_memory_recurrent) :=
  let n_seqs := Z.of_nat (u_n_seqs u) in
  let m := if u32 (rc_used m + u32 (2 * n_seqs)) <? rc_head m then with_head m 0 else m in
  c_assert (u_equal_seqs u) "ubatch.equal_seqs()";;
  '(ok, m) ← check_ids m u;
  if negb ok then Ret (false, m)
  else
    next ← scan (rc_size m) m (rc_head m);
    '(m, cl) ← foldM (claim u) (m, mk_claims next (size_z m - 1) 0) (seq 0 (u_n_seqs u));
    let '(min, max) := (cl_min cl, cl_max cl) in
    m ← foldM (gather u min) m (seq 0 (u_n_seqs u));
    m ← foldM (place u min) m (seq 0 (u_n_seqs u));
    r ← refcounts m;
    rs_z ← find_zero r min max;
    m ← foldM (stage rs_z) m (range min max);
    let n := u32 (max - min + 1) in
    let m := with_used (with_range (with_head m (u32 min)) n rs_z) (count_used m) in
    Ret (n_seqs <=? n, m).

(** "restore the original state": cells, [used] and [head]. *)
Definition prepare (m : llama_memory_recurrent) (us : list llama_ubatch) : outcome (bool * llama_memory_recurrent) :=
  '(ok, m') ← foldM (fun '(ok, m) u => if negb ok then Ret (ok, m) else find_slot m u) (true, m) us;
  Ret (ok, with_used (with_head (with_cells m' (rc_cells m)) (rc_head m)) (rc_used m)).

(** ** [llama_memory_recurrent_context] *)

Record rec_context := mk_rec_context {
  rx_status : llama_memory_status;
  rx_i_next : nat;
  rx_ubatches : list llama_ubatch;
  rx_full : bool;
}.

Definition rec_fail (st : llama_memory_status) : rec_context := mk_rec_context st 0 [] false.
Definition rec_full : rec_context := mk_rec_context LLAMA_MEMORY_STATUS_SUCCESS 0 [] true.
Definition rec_batch (us : list llama_ubatch) : rec_context := mk_rec_context LLAMA_MEMORY_STATUS_SUCCESS 0 us false.

Definition init_batch (m : llama_memory_recurrent) (a : llama_batch_allocr E) (n_ubatch : nat) (embd_all : bool)
    : outcome (rec_context * llama_memory_recurrent * llama_batch_allocr E) :=
  '(r, a) ← split_all (if embd_all then SeqWise else Equal true) n_ubatch a;
  match r with
  | None => Ret (rec_fail LLAMA_MEMORY_STATUS_FAILED_PREPARE, m, a)
  | Some us =>
      '(ok, m) ← prepare m us;
      Ret (if ok : bool then rec_batch us else rec_fail LLAMA_MEMORY_STATUS_FAILED_PREPARE, m, a)
  end.

Definition next (cx : rec_context) : outcome (bool * rec_context) :=
  c_assert (Context.is_success (rx_status cx)) "status == LLAMA_MEMORY_STATUS_SUCCESS";;
  let cx := mk_rec_context (rx_status cx) (S (rx_i_next cx)) (rx_ubatches cx) (rx_full cx) in
  Ret (negb (length (rx_ubatches cx) <=? rx_i_next cx)%nat, cx).

(** The result of [find_slot] is ignored. *)
Definition apply (m : llama_memory_recurrent) (cx : rec_context) : outcome (bool * llama_memory_recurrent * rec_context) :=
  c_assert (negb (llama_memory_status_is_fail (rx_status cx))) "!llama_memory_status_is_fail(status)";;
  match rx_ubatches cx with
  | [] =>
      c_assert (match rx_status cx with LLAMA_MEMORY_STATUS_NO_UPDATE => true | _ => false end)
        "status == LLAMA_MEMORY_STATUS_NO_UPDATE";;
      Ret (true, m, cx)
  | _ => u ← at_ (rx_ubatches cx) (rx_i_next cx); '(_, m) ← find_slot m u; Ret (true, m, cx)
  end.

Definition get_ubatch (cx : rec_context) : outcome llama_ubatch :=
  c_assert (Context.is_success (rx_status cx)) "status == LLAMA_MEMORY_STATUS_SUCCESS";;
  at_ (rx_ubatches cx) (rx_i_next cx).

Definition get_n_rs (m : llama_memory_recurrent) (cx : rec_context) : Z := if rx_full cx then size_z m else rc_n m.
Definition get_head (m : llama_memory_recurrent) (cx : rec_context) : Z := if rx_full cx then 0 else rc_head m.
Definition get_rs_z (m : llama_memory_recurrent) (cx : rec_context) : Z := if rx_full cx then 0 else rc_rs_z m.

Definition s_copy (m : llama_memory_recurrent) (i : nat) : outcome Z :=
  c ← cell m (Z.of_nat i + rc_head m); Ret (mc_src0 c).

End Slot.

(** ** The states, [src/llama-graph.cpp] *)

(** [llm_graph_input_rs::set_input] *)
Definition set_input {E} (m : llama_memory_recurrent) (cx : @rec_context E) : outcome (list Z) :=
  foldM (fun l i => x ← s_copy m i; Ret (l ++ [x])) [] (seq 0 (Z.to_nat (get_n_rs m cx))).

(** The states of the given cells. *)
Definition get_rows {S} (states : list S) (idx : list Z) : outcome (list S) :=
  foldM (fun l i => x ← at_z states i; Ret (l ++ [x])) [] idx.

(** A copy of states into the cells from number [first] on. *)
Definition write_rows {S} (states : list S) (first : nat) (rows : list S) : outcome (list S) :=
  foldM (fun l j => x ← at_ rows j; set_ l (first + j) x) states (seq 0 (length rows)).

(** [llm_graph_context::build_rs]: the states the sequences of the ubatch start
    from, and all states after the other ones were moved. *)
Definition build_rs {S} (zero : S) (states : list S) (copy : list Z) (n_seqs : nat) (head rs_zero : Z)
    : outcome (list S * list S) :=
  states ← (if 0 <=? rs_zero then set_ states (Z.to_nat rs_zero) zero else Ret states);
  main ← get_rows states (take n_seqs copy);
  extra ← get_rows states (drop n_seqs copy);
  states ← write_rows states (Z.to_nat head + n_seqs) extra;
  Ret (main, states).

(** [build_rwkv_token_shift_store]: the new states of the sequences of the ubatch. *)
Definition store {S} (states : list S) (head : Z) (rows : list S) : outcome (list S) :=
  write_rows states (Z.to_nat head) rows.

End Rec.

(** The recurrent memory as the memory of a context. *)
Definition rec_memory_i {E} : @memory_i E llama_memory_recurrent (@Rec.rec_context E) := {|
  mi_init_batch := Rec.init_batch;
  mi_init_full _ := Ret Rec.rec_full;
  mi_init_update m _ := Ret (Rec.rec_fail LLAMA_MEMORY_STATUS_NO_UPDATE, m);
  mi_seq_rm := Rec.seq_rm;
  mi_seq_pos_min := Rec.seq_pos_min;
  mi_seq_pos_max := Rec.seq_pos_max;
  mi_next := Rec.next;
  mi_apply := Rec.apply;
  mi_get_ubatch := Rec.get_ubatch;
  mi_get_status := Rec.rx_status;
|}.
#[export] Existing Instance rec_memory_i.
