(* ===== verification/RecurrentFacts.v ===== *)
(** * The invariant of the recurrent memory, and its operations on sequences. *)

From S2P Require Import Prelude KvCells Batch KvCache KvContext Decode Recurrent.
From Stdlib Require Import Lia.

#[export] Instance mem_cell_inhabited : Inhabited mem_cell := populate no_cell.

Implicit Types (m : llama_memory_recurrent) (c : mem_cell) (s i j : nat) (p : Z).

Notation cells_of m := (rc_cells m).

(** ** Cells *)

Lemma cell_Ret m z : 0 <= z < Z.of_nat (length (cells_of m)) -> Rec.cell m z = Ret (cells_of m !!! Z.to_nat z).
Proof. intros H. unfold Rec.cell. apply at_z_Ret; [lia|]. apply list_lookup_lookup_total_lt. lia. Qed.

Lemma cell_nat m i : (i < length (cells_of m))%nat -> Rec.cell m (Z.of_nat i) = Ret (cells_of m !!! i).
Proof. intros H. rewrite cell_Ret by lia. by rewrite Nat2Z.id. Qed.

(** Cell [i] changed by [f]. *)
Definition changed m i (f : mem_cell -> mem_cell) : llama_memory_recurrent :=
  Rec.with_cells m (<[i := f (cells_of m !!! i)]> (cells_of m)).

Lemma change_Ret m z f : 0 <= z < Z.of_nat (length (cells_of m)) -> Rec.change m z f = Ret (changed m (Z.to_nat z) f).
Proof.
  intros H. unfold Rec.change. rewrite cell_Ret by done. cbn [mbind outcome_bind].
  assert (Hs : set_ (cells_of m) (Z.to_nat z) (f (cells_of m !!! Z.to_nat z)) = Ret (<[Z.to_nat z := f (cells_of m !!! Z.to_nat z)]> (cells_of m))).
  { apply set_Ret. split; [lia|done]. }
  by rewrite Hs.
Qed.

Lemma change_nat m i f : (i < length (cells_of m))%nat -> Rec.change m (Z.of_nat i) f = Ret (changed m i f).
Proof. intros H. rewrite change_Ret by lia. by rewrite Nat2Z.id. Qed.

Lemma length_changed m i f : length (cells_of (changed m i f)) = length (cells_of m).
Proof. apply length_insert. Qed.

Lemma changed_eq m i f : (i < length (cells_of m))%nat -> cells_of (changed m i f) !!! i = f (cells_of m !!! i).
Proof. intros H. unfold changed. simpl. by rewrite list_lookup_total_insert_eq. Qed.

Lemma changed_ne m i j f : i <> j -> cells_of (changed m i f) !!! j = cells_of m !!! j.
Proof. intros H. unfold changed. simpl. by rewrite list_lookup_total_insert_ne. Qed.

Lemma changed_cell m i j f : (i < length (cells_of m))%nat ->
  cells_of (changed m i f) !!! j = if decide (i = j) then f (cells_of m !!! i) else cells_of m !!! j.
Proof. intros H. case_decide as Hij; [subst; by apply changed_eq|by apply changed_ne]. Qed.

(** The number of cells in use. *)
Lemma count_insert {A} (P : A -> bool) (l : list A) i x y : l !! i = Some x ->
  Z.of_nat (length (List.filter P (<[i := y]> l)))
  = Z.of_nat (length (List.filter P l)) + (if P y then 1 else 0) - (if P x then 1 else 0).
Proof.
  revert i. induction l as [|z l IH]; intros [|i] H; [done|done| |].
  - injection H as ->. cbn [insert list_insert List.filter]. destruct (P y), (P x); cbn [length]; lia.
  - change (<[S i := y]> (z :: l)) with (z :: <[i := y]> l). cbn [List.filter]. specialize (IH i H).
    destruct (P z); cbn [length]; lia.
Qed.

Definition weight c : Z := if is_empty c then 0 else 1.

Lemma weight_full q c : q ∈ mc_seq c -> weight c = 1.
Proof. intros Hq. unfold weight, is_empty. rewrite bool_decide_eq_false_2; [done|]. intros E. rewrite E in Hq. by apply elem_of_empty in Hq. Qed.

Lemma count_changed m i f : (i < length (cells_of m))%nat ->
  Rec.count_used (changed m i f) = Rec.count_used m + weight (f (cells_of m !!! i)) - weight (cells_of m !!! i).
Proof.
  intros Hi. unfold Rec.count_used, changed, weight. simpl.
  rewrite (count_insert _ _ _ _ _ (list_lookup_lookup_total_lt _ _ Hi)).
  by destruct (is_empty (f (cells_of m !!! i))), (is_empty (cells_of m !!! i)).
Qed.

Lemma count_bounds m : 0 <= Rec.count_used m <= Z.of_nat (length (cells_of m)).
Proof. unfold Rec.count_used. pose proof (List.filter_length_le (fun c => negb (is_empty c)) (cells_of m)). lia. Qed.

Lemma count_pos m i : (i < length (cells_of m))%nat -> is_empty (cells_of m !!! i) = false -> 0 < Rec.count_used m.
Proof.
  intros Hi He. unfold Rec.count_used. assert (Hin : cells_of m !!! i ∈ List.filter (fun c => negb (is_empty c)) (cells_of m)).
  { apply list_elem_of_In, List.filter_In. split; [|by rewrite He].
    eapply list_elem_of_In, list_elem_of_lookup_2. by apply list_lookup_lookup_total_lt. }
  destruct (List.filter _ _); [by apply elem_of_nil in Hin|simpl; lia].
Qed.

Lemma is_empty_spec c : is_empty c = true <-> mc_seq c = ∅.
Proof. unfold is_empty. by rewrite bool_decide_eq_true. Qed.

Lemma has_seq_id_spec c q : has_seq_id c q = true <-> q ∈ mc_seq c.
Proof. unfold has_seq_id. by rewrite bool_decide_eq_true. Qed.

(** ** The invariant *)

(** Cell [i] is one of sequence [q], at position [p]. *)
Definition seq_at m (q : Z) i p : Prop := (i < rc_size m)%nat /\ q ∈ mc_seq (cells_of m !!! i) /\ mc_pos (cells_of m !!! i) = p.

Record rec_ok m : Prop := {
  ro_len : length (cells_of m) = rc_size m;
  ro_small : Z.of_nat (rc_size m) < 2 ^ 31;
  ro_head : 0 <= rc_head m <= Z.of_nat (rc_size m);
  ro_tail i q : (i < rc_size m)%nat -> q ∈ mc_seq (cells_of m !!! i) ->
    0 <= q < Z.of_nat (rc_size m) /\ mc_tail (cells_of m !!! Z.to_nat q) = Z.of_nat i;
  ro_back j : (j < rc_size m)%nat -> mc_tail (cells_of m !!! j) = -1
    \/ exists i, (i < rc_size m)%nat /\ mc_tail (cells_of m !!! j) = Z.of_nat i /\ Z.of_nat j ∈ mc_seq (cells_of m !!! i);
  ro_empty i : (i < rc_size m)%nat -> mc_seq (cells_of m !!! i) = ∅ -> mc_pos (cells_of m !!! i) = -1;
  ro_full i : (i < rc_size m)%nat -> mc_seq (cells_of m !!! i) <> ∅ ->
    0 <= mc_pos (cells_of m !!! i) /\ mc_src (cells_of m !!! i) = Z.of_nat i;
  ro_src i : (i < rc_size m)%nat -> mc_src (cells_of m !!! i) = -1 \/ mc_src (cells_of m !!! i) = Z.of_nat i;
  ro_used : rc_used m = Rec.count_used m;
}.

(** An empty cell that is not cleared before it is used. *)
Definition idle m i : Prop :=
  (i < rc_size m)%nat /\ mc_seq (cells_of m !!! i) = ∅ /\ mc_src (cells_of m !!! i) = Z.of_nat i.

Lemma seq_at_tail m q i p : rec_ok m -> seq_at m q i p ->
  0 <= q < Z.of_nat (rc_size m) /\ mc_tail (cells_of m !!! Z.to_nat q) = Z.of_nat i.
Proof. intros Hok (Hi & Hq & _). by apply ro_tail. Qed.

Lemma seq_at_unique m q i p i' p' : rec_ok m -> seq_at m q i p -> seq_at m q i' p' -> i = i' /\ p = p'.
Proof.
  intros Hok H1 H2. destruct (seq_at_tail m q i p Hok H1) as [_ E1]. destruct (seq_at_tail m q i' p' Hok H2) as [_ E2].
  assert (i = i') as <- by lia. split; [done|]. destruct H1 as (_ & _ & <-), H2 as (_ & _ & <-). done.
Qed.

(** A sequence has a cell exactly when it has a tail. *)
Lemma tail_seq_at m s : rec_ok m -> (s < rc_size m)%nat -> 0 <= mc_tail (cells_of m !!! s) ->
  seq_at m (Z.of_nat s) (Z.to_nat (mc_tail (cells_of m !!! s))) (mc_pos (cells_of m !!! Z.to_nat (mc_tail (cells_of m !!! s)))).
Proof.
  intros Hok Hs Ht. destruct (ro_back m Hok s Hs) as [E|(i & Hi & E & Hin)]; [lia|]. rewrite E, Nat2Z.id. by split.
Qed.

Lemma no_tail_no_seq m s i p : rec_ok m -> mc_tail (cells_of m !!! s) = -1 -> ~ seq_at m (Z.of_nat s) i p.
Proof. intros Hok Ht H. destruct (seq_at_tail _ _ _ _ Hok H) as [_ E]. rewrite Nat2Z.id in E. lia. Qed.

(** ** Fewer sequences *)

(** [m'] holds only the sequences of [m] that satisfy [K]. *)
Record restricts (K : Z -> bool) m m' : Prop := {
  rt_len : length (cells_of m') = rc_size m';
  rt_size : rc_size m' = rc_size m;
  rt_head : 0 <= rc_head m' <= Z.of_nat (rc_size m);
  rt_used : rc_used m' = Rec.count_used m';
  rt_seq j q : (j < rc_size m)%nat -> q ∈ mc_seq (cells_of m' !!! j) <-> q ∈ mc_seq (cells_of m !!! j) /\ K q = true;
  rt_tail j : (j < rc_size m)%nat ->
    mc_tail (cells_of m' !!! j) = if K (Z.of_nat j) then mc_tail (cells_of m !!! j) else -1;
  rt_empty j : (j < rc_size m)%nat -> mc_seq (cells_of m' !!! j) = ∅ -> mc_pos (cells_of m' !!! j) = -1
    /\ (mc_src (cells_of m' !!! j) = -1
        \/ mc_src (cells_of m' !!! j) = mc_src (cells_of m !!! j) /\ mc_seq (cells_of m !!! j) = ∅);
  rt_full j : (j < rc_size m)%nat -> mc_seq (cells_of m' !!! j) <> ∅ ->
    mc_pos (cells_of m' !!! j) = mc_pos (cells_of m !!! j) /\ mc_src (cells_of m' !!! j) = mc_src (cells_of m !!! j);
}.

Lemma restricts_ok K m m' : rec_ok m -> restricts K m m' -> rec_ok m'
  /\ (forall q i p, seq_at m' q i p <-> seq_at m q i p /\ K q = true) /\ (forall i, idle m' i -> idle m i).
Proof.
  intros Hok [Hl Hsz Hh Hu Hseq Htl Hem Hfu].
  assert (Hsub : forall j, (j < rc_size m)%nat -> mc_seq (cells_of m' !!! j) <> ∅ -> mc_seq (cells_of m !!! j) <> ∅).
  { intros j Hj Hne E. apply Hne, set_eq. intros q. rewrite Hseq, E by done. set_solver. }
  split; [|split].
  - constructor; rewrite ?Hsz; try done; [congruence|apply Hok| | | | |].
    + intros i q Hi [Hq HK]%Hseq; [|done]. destruct (ro_tail m Hok i q Hi Hq) as [Hr Et]. split; [done|].
      rewrite Htl by lia. by rewrite Z2Nat.id, HK by lia.
    + intros j Hj. rewrite Htl by done. destruct (K (Z.of_nat j)) eqn:HK; [|by left].
      destruct (ro_back m Hok j Hj) as [E|(i & Hi & E & Hin)]; [by left|right]. exists i. split_and!; [done|done|].
      by apply Hseq.
    + intros i Hi He. by apply Hem.
    + intros i Hi Hne. destruct (Hfu i Hi Hne) as [-> ->]. by apply (ro_full m Hok), Hsub.
    + intros i Hi. destruct (decide (mc_seq (cells_of m' !!! i) = ∅)) as [He|Hne].
      * destruct (Hem i Hi He) as [_ [E|[-> _]]]; [by left|]. by apply (ro_src m Hok).
      * destruct (Hfu i Hi Hne) as [_ ->]. by apply (ro_src m Hok).
  - intros q i p. unfold seq_at. rewrite Hsz. split.
    + intros (Hi & Hq & Hp). pose proof Hq as [Hq' HK]%Hseq; [|done]. split; [|done]. split_and!; [done|done|].
      rewrite <- Hp. symmetry. apply Hfu; [done|]. set_solver.
    + intros [(Hi & Hq & Hp) HK]. assert (Hq' : q ∈ mc_seq (cells_of m' !!! i)) by by apply Hseq.
      split_and!; [done|done|]. rewrite <- Hp. apply Hfu; [done|]. set_solver.
  - intros i (Hi & He & Hsrc). rewrite Hsz in Hi. destruct (Hem i Hi He) as [_ [E|[E He']]]; [lia|].
    split_and!; [done|done|]. lia.
Qed.

(** The effect of an operation that takes the sequences outside of [K] away. *)
Definition keeps (K : Z -> bool) m m' : Prop := rec_ok m' /\ rc_size m' = rc_size m
  /\ (forall q i p, seq_at m' q i p <-> seq_at m q i p /\ K q = true) /\ (forall i, idle m' i -> idle m i).

Lemma restricts_keeps K m m' : rec_ok m -> restricts K m m' -> keeps K m m'.
Proof. intros Hok H. destruct (restricts_ok K m m' Hok H) as (H1 & H2 & H3). by destruct H. Qed.

Lemma release_ok m : rec_ok m -> forall i, (i < rc_size m)%nat -> mc_seq (cells_of m !!! i) <> ∅ ->
  rc_used (Rec.release m) = Rec.count_used m - 1.
Proof.
  intros Hok i Hi Hne. unfold Rec.release, Rec.with_used. simpl. rewrite (ro_used m Hok).
  pose proof (count_bounds m). pose proof (ro_small m Hok). pose proof (ro_len m Hok).
  assert (0 < Rec.count_used m).
  { apply (count_pos m i); [congruence|]. apply not_true_iff_false. by rewrite is_empty_spec. }
  apply u32_small. lia.
Qed.

(** A cell that loses sequence [q], and is given up when it was the last one. *)
Definition without (q : Z) c : mem_cell :=
  if bool_decide (mc_seq c ∖ {[ q ]} = ∅) then emptied (with_seq (mc_seq c ∖ {[ q ]}) c) else with_seq (mc_seq c ∖ {[ q ]}) c.

Lemma without_spec q c : mc_seq (without q c) = mc_seq c ∖ {[ q ]} /\ mc_tail (without q c) = mc_tail c
  /\ (mc_seq c ∖ {[ q ]} = ∅ -> mc_pos (without q c) = -1 /\ mc_src (without q c) = -1)
  /\ (mc_seq c ∖ {[ q ]} <> ∅ -> mc_pos (without q c) = mc_pos c /\ mc_src (without q c) = mc_src c).
Proof. unfold without. case_bool_decide; by split_and!. Qed.

(** Sequence [s] without its cell [i]. *)
Lemma take_out m s i m' : rec_ok m -> (s < rc_size m)%nat -> mc_tail (cells_of m !!! s) = Z.of_nat i ->
  rc_size m' = rc_size m -> length (cells_of m') = rc_size m -> 0 <= rc_head m' <= Z.of_nat (rc_size m) ->
  rc_used m' = Rec.count_used m' ->
  (forall j, cells_of m' !!! j = (if decide (j = s) then with_tail (-1) else fun c => c)
     ((if decide (j = i) then without (Z.of_nat s) else fun c => c) (cells_of m !!! j))) ->
  restricts (fun q => negb (q =? Z.of_nat s)) m m'.
Proof.
  intros Hok Hs Ht Hsz Hlen Hh Hu Hcell. pose proof (without_spec (Z.of_nat s)) as Hw.
  assert (Hown : forall j, (j < rc_size m)%nat -> Z.of_nat s ∈ mc_seq (cells_of m !!! j) -> j = i).
  { intros j Hj Hin. destruct (ro_tail m Hok j _ Hj Hin) as [_ E]. rewrite Nat2Z.id in E. lia. }
  assert (Hseq : forall j, mc_seq (cells_of m' !!! j) = if decide (j = i) then mc_seq (cells_of m !!! j) ∖ {[ Z.of_nat s ]} else mc_seq (cells_of m !!! j)).
  { intros j. rewrite Hcell. repeat case_decide; simpl; try done; apply Hw. }
  constructor; [congruence|done|done|done| | | |].
  - intros j q Hj. rewrite Hseq, negb_true_iff, Z.eqb_neq. case_decide as Hji; [set_solver|].
    split; [|by intros [? _]]. intros Hq. split; [done|]. intros ->. by apply Hji, Hown.
  - intros j Hj. rewrite Hcell. destruct (decide (j = s)) as [->|Hjs]; [by rewrite Z.eqb_refl|].
    rewrite (proj2 (Z.eqb_neq _ _)) by lia. case_decide; [apply Hw|done].
  - intros j Hj He. rewrite Hseq in He. rewrite Hcell. destruct (decide (j = i)) as [->|Hji].
    + destruct (Hw (cells_of m !!! i)) as (_ & _ & H & _). destruct (H He). case_decide; simpl; by auto.
    + case_decide; simpl; (split; [by apply (ro_empty m Hok)|by right]).
  - intros j Hj Hne. rewrite Hseq in Hne. rewrite Hcell. destruct (decide (j = i)) as [->|Hji].
    + destruct (Hw (cells_of m !!! i)) as (_ & _ & _ & H). destruct (H Hne). case_decide; simpl; by auto.
    + by case_decide.
Qed.

(** Nothing changes when the sequence has no cell. *)
Lemma keeps_absent m s : rec_ok m -> mc_tail (cells_of m !!! s) = -1 -> keeps (fun q => negb (q =? Z.of_nat s)) m m.
Proof.
  intros Hok Ht. split; [done|]. split; [done|]. split; [|done]. intros q i p. split; [|by intros [? _]].
  intros H. split; [done|]. apply negb_true_iff, Z.eqb_neq. intros ->. by eapply no_tail_no_seq.
Qed.

(** Sequence [s] out of cell [i], and without a tail. *)
Definition departed m s i : llama_memory_recurrent :=
  changed (changed m i (fun c => with_seq (mc_seq c ∖ {[ Z.of_nat s ]}) c)) s (with_tail (-1)).

Lemma departed_spec m s i : (s < length (cells_of m))%nat -> (i < length (cells_of m))%nat ->
  length (cells_of (departed m s i)) = length (cells_of m)
  /\ (forall j, cells_of (departed m s i) !!! j = (if decide (j = s) then with_tail (-1) else fun c => c)
    ((if decide (j = i) then with_seq (mc_seq (cells_of m !!! i) ∖ {[ Z.of_nat s ]}) else fun c => c) (cells_of m !!! j)))
  /\ mc_seq (cells_of (departed m s i) !!! i) = mc_seq (cells_of m !!! i) ∖ {[ Z.of_nat s ]}
  /\ Rec.count_used (departed m s i)
     = Rec.count_used m + weight (cells_of (departed m s i) !!! i) - weight (cells_of m !!! i).
Proof.
  intros Hs Hi. unfold departed. set (m1 := changed m i _).
  assert (Hl1 : length (cells_of m1) = length (cells_of m)) by apply length_changed.
  assert (H2 : forall j, cells_of (changed m1 s (with_tail (-1))) !!! j = (if decide (j = s) then with_tail (-1) else fun c => c)
    ((if decide (j = i) then with_seq (mc_seq (cells_of m !!! i) ∖ {[ Z.of_nat s ]}) else fun c => c) (cells_of m !!! j))).
  { intros j. rewrite changed_cell by lia. unfold m1.
    destruct (decide (s = j)) as [<-|]; [rewrite decide_True by done|rewrite decide_False by done]; (rewrite changed_cell by lia);
      (destruct (decide (i = _)) as [<-|]; [rewrite decide_True by done|rewrite decide_False by done]); done. }
  assert (Hseq : mc_seq (cells_of (changed m1 s (with_tail (-1))) !!! i) = mc_seq (cells_of m !!! i) ∖ {[ Z.of_nat s ]}).
  { rewrite H2. rewrite (decide_True (P := i = i)) by done. by case_decide. }
  split; [by rewrite !length_changed|]. split; [exact H2|]. split; [exact Hseq|].
  rewrite count_changed by lia. assert (Hw : forall c, weight (with_tail (-1) c) = weight c) by done. rewrite Hw.
  unfold m1 at 1. rewrite count_changed by lia.
  assert (E2 : weight (cells_of (changed m1 s (with_tail (-1))) !!! i)
    = weight (with_seq (mc_seq (cells_of m !!! i) ∖ {[Z.of_nat s]}) (cells_of m !!! i))).
  { unfold weight, is_empty. by rewrite Hseq. }
  lia.
Qed.

Lemma leave_ok m s : rec_ok m -> (s < rc_size m)%nat ->
  exists m', Rec.leave m (Z.of_nat s) = Ret m' /\ keeps (fun q => negb (q =? Z.of_nat s)) m m'
    /\ rc_head m' = rc_head m /\ mc_tail (cells_of m' !!! s) = -1.
Proof.
  intros Hok Hs. pose proof (ro_len m Hok) as Hl. unfold Rec.leave. rewrite cell_nat by lia. cbn [mbind outcome_bind].
  destruct (ro_back m Hok s Hs) as [Et|(i & Hi & Et & Hin)].
  { rewrite Et. exists m. split; [done|]. split; [by apply keeps_absent|done]. }
  rewrite Et, (proj2 (Z.leb_le 0 _)) by lia. rewrite change_nat by lia. cbn [mbind outcome_bind].
  rewrite change_nat by (rewrite length_changed; lia). cbn [mbind outcome_bind]. fold (departed m s i).
  destruct (departed_spec m s i) as (Hl2 & H2 & Hseq & Hcount); [lia|lia|]. set (m2 := departed m s i) in *.
  rewrite cell_nat by lia. cbn [mbind outcome_bind].
  pose proof (weight_full _ _ Hin) as E1.
  pose proof (count_bounds m). pose proof (ro_small m Hok).
  destruct (is_empty (cells_of m2 !!! i)) eqn:He.
  - rewrite change_nat by lia. cbn [mbind outcome_bind]. set (m3 := changed m2 i emptied). exists (Rec.release m3). split; [reflexivity|].
    assert (Hl3 : length (cells_of m3) = rc_size m) by (unfold m3; rewrite length_changed; lia).
    assert (H3 : forall j, cells_of m3 !!! j = if decide (j = i) then emptied (cells_of m2 !!! i) else cells_of m2 !!! j).
    { intros j. unfold m3. rewrite changed_cell by lia. destruct (decide (i = j)) as [<-|]; [by rewrite decide_True|by rewrite decide_False]. }
    split; [|split; [done|]].
    + apply restricts_keeps; [done|]. apply (take_out m s i); try done; [apply Hok| |].
      * change (Rec.count_used (Rec.release m3)) with (Rec.count_used m3).
        assert (Hc3 : Rec.count_used m3 = Rec.count_used m2).
        { unfold m3. rewrite count_changed by lia. assert (Hw : weight (emptied (cells_of m2 !!! i)) = weight (cells_of m2 !!! i)) by done. lia. }
        rewrite Hc3, Hcount. unfold weight. rewrite He. simpl. rewrite (ro_used m Hok).
        assert (0 < Rec.count_used m) by (apply (count_pos m i); [lia|apply not_true_iff_false; rewrite is_empty_spec; set_solver]).
        fold (weight (cells_of m !!! i)). rewrite E1, u32_small; lia.
      * intros j. change (cells_of (Rec.release m3)) with (cells_of m3). rewrite H3. apply is_empty_spec in He. rewrite Hseq in He.
        destruct (decide (j = i)) as [->|Hji]; [|by rewrite H2, (decide_False (P := j = i))].
        rewrite H2. rewrite (decide_True (P := i = i)) by done. unfold without. rewrite bool_decide_eq_true_2 by done. by case_decide.
    + change (cells_of (Rec.release m3)) with (cells_of m3). rewrite H3, !H2. repeat case_decide; subst; done.
  - exists m2. split; [reflexivity|]. split; [|split; [done|by rewrite H2, decide_True]].
    apply restricts_keeps; [done|]. apply (take_out m s i); try done; [lia|apply Hok| |].
    + change (rc_used m2) with (rc_used m). rewrite (ro_used m Hok), Hcount. unfold weight at 1. rewrite He. lia.
    + intros j. rewrite H2. destruct (decide (j = i)) as [->|Hji]; [|done]. unfold without.
      apply not_true_iff_false in He. rewrite is_empty_spec, Hseq in He. by rewrite bool_decide_eq_false_2.
Qed.
