(* ===== verification/RecurrentSteps.v ===== *)
(** * The operations of the recurrent memory refine operations on sequences. *)

From S2P Require Import Prelude KvCells Batch KvCache KvCacheFacts KvContext Decode Recurrent RecurrentFacts.
From Stdlib Require Import Lia.

Implicit Types (m : llama_memory_recurrent) (c : mem_cell) (s i j : nat) (p : Z).

(** A loop whose body does something only once. *)
Lemma foldM_once {B} (f : B -> nat -> outcome B) acc acc' i n : (i < n)%nat ->
  (forall j, (j < i)%nat -> f acc j = Ret acc) -> f acc i = Ret acc' ->
  (forall j, (i < j < n)%nat -> f acc' j = Ret acc') -> foldM f acc (seq 0 n) = Ret acc'.
Proof.
  intros Hi H1 H2 H3.
  destruct (foldM_interval f (fun k b => b = if (i <? k)%nat then acc' else acc) acc n) as (r & -> & ->); [done| |].
  - intros j b Hj ->. destruct (Nat.ltb_spec i j) as [Hij|Hij].
    + rewrite H3 by lia. exists acc'. split; [done|]. by rewrite (proj2 (Nat.ltb_lt _ _)) by lia.
    + destruct (decide (j = i)) as [->|Hne].
      * exists acc'. split; [done|]. by rewrite (proj2 (Nat.ltb_lt _ _)) by lia.
      * exists acc. rewrite H1 by lia. split; [done|]. by rewrite (proj2 (Nat.ltb_ge _ _)) by lia.
  - by rewrite (proj2 (Nat.ltb_lt _ _)) by lia.
Qed.

Lemma foldM_never {B} (f : B -> nat -> outcome B) acc n : (forall j, (j < n)%nat -> f acc j = Ret acc) ->
  foldM f acc (seq 0 n) = Ret acc.
Proof.
  intros H. destruct (foldM_interval f (fun _ b => b = acc) acc n) as (r & -> & ->); [done| |done].
  intros i b Hi ->. exists acc. by rewrite H.
Qed.

Lemma lower_head_same m nh : cells_of (Rec.lower_head m nh) = cells_of m /\ rc_size (Rec.lower_head m nh) = rc_size m
  /\ rc_used (Rec.lower_head m nh) = rc_used m.
Proof. unfold Rec.lower_head. by case_match. Qed.

Lemma lower_head_range m nh n : 0 <= rc_head m <= n -> 0 <= rc_head (Rec.lower_head m nh) <= n.
Proof.
  intros H. unfold Rec.lower_head. destruct (negb _ && _) eqn:E; [|done]. simpl. apply andb_true_iff in E as [_ E%Z.ltb_lt].
  lia.
Qed.

(** ** [seq_rm] *)

(** A cell that does not hold the sequence in the range. *)
Lemma rm_cell_other m s p0 p1 nh j : (j < length (cells_of m))%nat ->
  ~ (p0 <= mc_pos (cells_of m !!! j) < p1 /\ Z.of_nat s ∈ mc_seq (cells_of m !!! j)) ->
  Rec.rm_cell (Z.of_nat s) p0 p1 (m, nh) j = Ret (m, nh).
Proof.
  intros Hj Hno. unfold Rec.rm_cell. rewrite cell_nat by done. cbn [mbind outcome_bind].
  rewrite (proj2 (Z.ltb_ge (Z.of_nat s) 0)) by lia. cbn [orb].
  destruct (_ && _ && _) eqn:E; [|done]. apply andb_true_iff in E as [E H3%has_seq_id_spec].
  apply andb_true_iff in E as [H1%Z.leb_le H2%Z.ltb_lt]. exfalso. apply Hno. split; [lia|done].
Qed.

(** The cell that holds it. *)
Lemma rm_cell_own m s p0 p1 nh i : (i < length (cells_of m))%nat -> Z.of_nat s ∈ mc_seq (cells_of m !!! i) ->
  p0 <= mc_pos (cells_of m !!! i) < p1 -> 0 <= mc_pos (cells_of m !!! i) ->
  exists m' nh', Rec.rm_cell (Z.of_nat s) p0 p1 (m, nh) i = Ret (m', nh')
    /\ cells_of m' = <[i := without (Z.of_nat s) (cells_of m !!! i)]> (cells_of m)
    /\ rc_size m' = rc_size m /\ rc_head m' = rc_head m
    /\ rc_used m' = if bool_decide (mc_seq (cells_of m !!! i) ∖ {[ Z.of_nat s ]} = ∅) then u32 (rc_used m - 1) else rc_used m.
Proof.
  intros Hi Hin Hr Hp. unfold Rec.rm_cell. rewrite cell_nat by done. cbn [mbind outcome_bind].
  rewrite (proj2 (Z.ltb_ge (Z.of_nat s) 0)), (proj2 (Z.leb_le p0 _)), (proj2 (Z.ltb_lt _ p1)), (proj2 (has_seq_id_spec _ _) Hin) by lia.
  cbn [orb andb]. rewrite change_nat by done. cbn [mbind outcome_bind]. unfold without.
  case_bool_decide as He; [|by eexists _, _].
  rewrite (proj2 (Z.leb_le 0 _)) by lia. rewrite change_nat by (cbn [Rec.release Rec.with_used rc_cells]; by rewrite length_changed).
  cbn [mbind outcome_bind]. eexists _, _. split; [reflexivity|]. split; [|done].
  unfold changed, Rec.release. simpl. rewrite list_lookup_total_insert_eq by done. by rewrite list_insert_insert_eq.
Qed.

Lemma without_with_tail q z c : without q (with_tail z c) = with_tail z (without q c).
Proof. unfold without. change (mc_seq (with_tail z c)) with (mc_seq c). by case_bool_decide. Qed.

(** The loop, when the sequence has its position in the range. *)
Lemma rm_loop_ok m s t p0 p1 : rec_ok m -> (s < rc_size m)%nat -> (t < rc_size m)%nat ->
  mc_tail (cells_of m !!! s) = Z.of_nat t -> Z.of_nat s ∈ mc_seq (cells_of m !!! t) ->
  in_pos p0 p1 (mc_pos (cells_of m !!! t)) -> exists m' nh',
    foldM (Rec.rm_cell (Z.of_nat s) (Kv.lower p0) (Kv.upper p1)) (changed m s (with_tail (-1)), rc_size m) (seq 0 (rc_size m))
      = Ret (m', nh')
    /\ keeps (fun q => negb (q =? Z.of_nat s)) m (Rec.lower_head m' nh').
Proof.
  intros Hok Hs Ht Et Hin Hr. pose proof (ro_len m Hok) as Hl.
  assert (Hown : forall j, (j < rc_size m)%nat -> Z.of_nat s ∈ mc_seq (cells_of m !!! j) -> j = t).
  { intros j Hj Hj'. destruct (ro_tail m Hok j _ Hj Hj') as [_ E]. rewrite Nat2Z.id in E. lia. }
  set (m1 := changed m s (with_tail (-1))).
  assert (Hl1 : length (cells_of m1) = rc_size m) by (unfold m1; by rewrite length_changed).
  assert (Hc1 : forall j, mc_seq (cells_of m1 !!! j) = mc_seq (cells_of m !!! j) /\ mc_pos (cells_of m1 !!! j) = mc_pos (cells_of m !!! j)).
  { intros j. unfold m1. rewrite changed_cell by lia. by case_decide; subst. }
  destruct (ro_full m Hok t Ht) as [Hp0 _]; [set_solver|].
  destruct (rm_cell_own m1 s (Kv.lower p0) (Kv.upper p1) (rc_size m) t) as (m' & nh' & E1 & Hc' & Hs' & Hh' & Hu');
    [lia|by rewrite (proj1 (Hc1 t))|by rewrite (proj2 (Hc1 t))|by rewrite (proj2 (Hc1 t))|].
  assert (Hcell : forall j, cells_of m' !!! j = (if decide (j = s) then with_tail (-1) else fun c => c)
    ((if decide (j = t) then without (Z.of_nat s) else fun c => c) (cells_of m !!! j))).
  { intros j. rewrite Hc'. destruct (decide (j = t)) as [->|Hjt].
    - rewrite list_lookup_total_insert_eq by lia. unfold m1. rewrite changed_cell by lia.
      destruct (decide (s = t)) as [->|Hst]; [rewrite decide_True by done|by rewrite (decide_False (P := t = s)) by congruence].
      apply without_with_tail.
    - rewrite list_lookup_total_insert_ne by done. unfold m1. rewrite changed_cell by lia.
      destruct (decide (s = j)) as [->|Hsj]; [by rewrite decide_True|by rewrite (decide_False (P := j = s)) by congruence]. }
  assert (Hl' : length (cells_of m') = rc_size m) by (rewrite Hc'; by rewrite length_insert).
  exists m', nh'. split; [apply (foldM_once _ _ (m', nh') t); [done| |exact E1|]|].
  + intros j Hj. apply rm_cell_other; [lia|]. rewrite (proj1 (Hc1 j)), (proj2 (Hc1 j)). intros [_ Hin'].
    assert (j = t) by (apply Hown; [lia|done]). lia.
  + intros j Hj. apply rm_cell_other; [lia|]. rewrite Hcell. rewrite (decide_False (P := j = t)) by lia.
    intros [_ Hin']. assert (Hin2 : Z.of_nat s ∈ mc_seq (cells_of m !!! j)) by (by case_decide).
    assert (j = t) by (apply Hown; [lia|done]). lia.
  + destruct (lower_head_same m' nh') as (Ec & Es & Eu). apply restricts_keeps; [done|].
    { apply (take_out m s t); rewrite ?Ec, ?Es, ?Eu; try done.
      - apply lower_head_range. rewrite Hh'. apply Hok.
      - change (Rec.count_used (Rec.lower_head m' nh')) with (Z.of_nat (length (List.filter (fun c => negb (is_empty c)) (cells_of (Rec.lower_head m' nh'))))).
        rewrite Ec, Hc', (count_insert _ _ _ _ _ (list_lookup_lookup_total_lt (cells_of m1) t ltac:(lia))).
        fold (Rec.count_used m1). assert (Hm1 : Rec.count_used m1 = rc_used m).
        { unfold m1. rewrite count_changed by lia. rewrite (ro_used m Hok).
          assert (Hw : weight (with_tail (-1) (cells_of m !!! s)) = weight (cells_of m !!! s)) by done. lia. }
        rewrite Hm1, Hu'. change (rc_used m1) with (rc_used m).
        assert (E2 : is_empty (cells_of m1 !!! t) = false).
        { apply not_true_iff_false. rewrite is_empty_spec, (proj1 (Hc1 t)). set_solver. }
        rewrite E2. unfold is_empty. rewrite (proj1 (without_spec _ _)), (proj1 (Hc1 t)).
        assert (E3 : rc_used (Rec.release m) = Rec.count_used m - 1) by (apply (release_ok m Hok t Ht); set_solver).
        unfold Rec.release, Rec.with_used in E3. simpl in E3. rewrite <- (ro_used m Hok) in E3.
        destruct (decide (mc_seq (cells_of m !!! t) ∖ {[ Z.of_nat s ]} = ∅)) as [He|He];
          [rewrite !(bool_decide_eq_true_2 _ He)|rewrite !(bool_decide_eq_false_2 _ He)]; cbn [negb]; lia. }
Qed.

(** Part of a state cannot be removed. *)
Definition partial_rm m s p0 p1 : Prop := exists i p, seq_at m (Z.of_nat s) i p /\ 0 < Kv.lower p0 /\ in_pos p0 p1 p.

Lemma rec_seq_rm_ok m s p0 p1 : rec_ok m -> (s < rc_size m)%nat -> exists b m', Rec.seq_rm m (Z.of_nat s) p0 p1 = Ret (b, m')
  /\ (b = true <-> ~ partial_rm m s p0 p1) /\ (b = false -> m' = m) /\ rec_ok m' /\ rc_size m' = rc_size m
  /\ (forall i, idle m' i -> idle m i)
  /\ (b = true -> forall q i p, seq_at m' q i p <-> seq_at m q i p /\ ~ (q = Z.of_nat s /\ in_pos p0 p1 p)).
Proof.
  intros Hok Hs. pose proof (ro_len m Hok) as Hl. unfold Rec.seq_rm, Rec.size_z.
  rewrite (proj2 (Z.leb_gt (Z.of_nat (rc_size m)) _)) by lia. unfold Rec.rm_tail.
  rewrite (proj2 (Z.leb_le 0 (Z.of_nat s))), cell_nat by lia. cbn [mbind outcome_bind].
  assert (Hsame : forall nh, ~ (exists i p, seq_at m (Z.of_nat s) i p /\ in_pos p0 p1 p) ->
    foldM (Rec.rm_cell (Z.of_nat s) (Kv.lower p0) (Kv.upper p1)) (m, nh) (seq 0 (rc_size m)) = Ret (m, nh)).
  { intros nh Hno. apply foldM_never. intros j Hj. apply rm_cell_other; [lia|]. intros [Hr Hin]. apply Hno.
    exists j, (mc_pos (cells_of m !!! j)). by split. }
  assert (Hnone : ~ (exists i p, seq_at m (Z.of_nat s) i p /\ in_pos p0 p1 p) ->
    exists b m', (Ret (true, Rec.lower_head m (rc_size m)) : outcome _) = Ret (b, m')
      /\ (b = true <-> ~ partial_rm m s p0 p1) /\ (b = false -> m' = m) /\ rec_ok m' /\ rc_size m' = rc_size m
      /\ (forall i, idle m' i -> idle m i)
      /\ (b = true -> forall q i p, seq_at m' q i p <-> seq_at m q i p /\ ~ (q = Z.of_nat s /\ in_pos p0 p1 p))).
  { intros Hno. exists true, m. unfold Rec.lower_head. rewrite Nat.eqb_refl. split; [done|]. split; [|split_and!; try done].
    - split; [|done]. intros _ (i & p & H1 & _ & H2). apply Hno. by exists i, p.
    - intros _ q i p. split; [|by intros [? _]]. intros H. split; [done|]. intros [-> Hr]. apply Hno. by exists i, p. }
  destruct (ro_back m Hok s Hs) as [Et|(t & Ht & Et & Hin)].
  { rewrite Et. cbn [Z.leb Z.compare mbind outcome_bind]. rewrite Hsame; [cbn [mbind outcome_bind]; apply Hnone|]; intros (i & p & H & _); by eapply no_tail_no_seq. }
  set (p := mc_pos (cells_of m !!! t)). assert (Hat : seq_at m (Z.of_nat s) t p) by by split.
  assert (Huniq : forall i p', seq_at m (Z.of_nat s) i p' -> i = t /\ p' = p) by (intros i p' H; by eapply seq_at_unique).
  rewrite Et, (proj2 (Z.leb_le 0 _)), cell_nat by lia. cbn [mbind outcome_bind]. fold p.
  destruct (decide (in_pos p0 p1 p)) as [Hr|Hr].
  - pose proof Hr as [Hr1 Hr2]. rewrite (proj2 (Z.leb_le (Kv.lower p0) p)), (proj2 (Z.ltb_lt p _)) by done. cbn [andb].
    rewrite andb_true_r. destruct (Z.ltb_spec 0 (Kv.lower p0)) as [Hlo|Hlo]; cbn [andb].
    { exists false, m. split; [done|]. split; [|by split_and!]. split; [done|]. intros H. exfalso. apply H. by exists t, p. }
    rewrite change_nat by lia. cbn [mbind outcome_bind].
    destruct (rm_loop_ok m s t p0 p1) as (m' & nh' & E1 & Hok' & Hsz' & Hat' & Hid); try done.
    change (rc_size (changed m s (with_tail (-1)))) with (rc_size m). rewrite E1. cbn [mbind outcome_bind].
    exists true, (Rec.lower_head m' nh'). split; [done|].
    split; [|split; [done|split_and!; try done]].
    + split; [|done]. intros _ (i & p' & _ & Hlo' & _). lia.
    + intros _ q i p'. rewrite Hat', negb_true_iff, Z.eqb_neq. split; (intros [H1 H2]; split; [done|]); [by intros [-> _]|].
      intros ->. apply H2. by destruct (Huniq i p' H1) as [_ ->].
  - assert (E0 : (Kv.lower p0 <=? p) && (p <? Kv.upper p1) = false).
    { apply not_true_iff_false. rewrite andb_true_iff, Z.leb_le, Z.ltb_lt. done. }
    rewrite <- andb_assoc, E0, andb_false_r. cbn [mbind outcome_bind]. rewrite Hsame; [cbn [mbind outcome_bind]; apply Hnone|]; intros (i & p' & H & Hr'); destruct (Huniq i p' H) as [_ ->]; done.
Qed.

(** ** [seq_cp] *)

(** Sequence [d] joins the cell [t] of sequence [s]. *)
Lemma joined_ok m s d t : rec_ok m -> (s < rc_size m)%nat -> (d < rc_size m)%nat ->
  mc_tail (cells_of m !!! s) = Z.of_nat t -> (t < rc_size m)%nat -> Z.of_nat s ∈ mc_seq (cells_of m !!! t) ->
  mc_tail (cells_of m !!! d) = -1 ->
  exists m', m' = changed (changed m t (fun c => with_seq (mc_seq c ∪ {[ Z.of_nat d ]}) c)) d (with_tail (Z.of_nat t))
  /\ rec_ok m' /\ (forall i, idle m' i -> idle m i)
  /\ forall q i p, seq_at m' q i p <-> seq_at m q i p \/ q = Z.of_nat d /\ seq_at m (Z.of_nat s) i p.
Proof.
  intros Hok Hs Hd Et Ht Hin Ed. pose proof (ro_len m Hok) as Hl. eexists. split; [reflexivity|].
  set (m1 := changed m t _). assert (Hl1 : length (cells_of m1) = rc_size m) by (unfold m1; by rewrite length_changed).
  set (m' := changed m1 d _).
  assert (Hcell : forall j, cells_of m' !!! j = (if decide (j = d) then with_tail (Z.of_nat t) else fun c => c)
    ((if decide (j = t) then with_seq (mc_seq (cells_of m !!! t) ∪ {[ Z.of_nat d ]}) else fun c => c) (cells_of m !!! j))).
  { intros j. unfold m'. rewrite changed_cell by lia. unfold m1.
    destruct (decide (d = j)) as [<-|]; [rewrite decide_True by done|rewrite decide_False by done]; (rewrite changed_cell by lia);
      (destruct (decide (t = _)) as [<-|]; [rewrite decide_True by done|rewrite decide_False by done]); done. }
  assert (Hseq : forall j q, q ∈ mc_seq (cells_of m' !!! j) <-> q ∈ mc_seq (cells_of m !!! j) \/ q = Z.of_nat d /\ j = t).
  { intros j q. rewrite Hcell. repeat case_decide; subst; simpl; set_solver. }
  assert (Htail : forall j, mc_tail (cells_of m' !!! j) = if decide (j = d) then Z.of_nat t else mc_tail (cells_of m !!! j)).
  { intros j. rewrite Hcell. by repeat case_decide. }
  assert (Hpos : forall j, mc_pos (cells_of m' !!! j) = mc_pos (cells_of m !!! j) /\ mc_src (cells_of m' !!! j) = mc_src (cells_of m !!! j)).
  { intros j. rewrite Hcell. by repeat case_decide. }
  assert (Hne : forall j, mc_seq (cells_of m' !!! j) <> ∅ -> mc_seq (cells_of m !!! j) <> ∅).
  { intros j Hne E. apply Hne, set_eq. intros q. rewrite Hseq, E. split; [|set_solver]. intros [H|[_ ->]]; [done|]. set_solver. }
  assert (Hem : forall j, mc_seq (cells_of m' !!! j) = ∅ -> mc_seq (cells_of m !!! j) = ∅).
  { intros j E. apply set_eq. intros q. split; [|set_solver]. intros H. rewrite <- E. apply Hseq. by left. }
  split; [|split].
  - constructor; try apply Hok.
    + unfold m'. by rewrite length_changed.
    + intros i q Hi [Hq|[-> ->]]%Hseq; change (rc_size m') with (rc_size m).
      * destruct (ro_tail m Hok i q Hi Hq) as [Hr E]. split; [done|]. rewrite Htail. case_decide as Hqd; [|done]. subst d. lia.
      * split; [lia|]. by rewrite Nat2Z.id, Htail, decide_True.
    + intros j Hj. rewrite Htail. case_decide as Hjd.
      * right. exists t. split_and!; [done|done|]. apply Hseq. subst. by right.
      * destruct (ro_back m Hok j Hj) as [E|(i & Hi & E & Hij)]; [by left|right]. exists i. split_and!; [done|done|].
        apply Hseq. by left.
    + intros i Hi E. rewrite (proj1 (Hpos i)). by apply (ro_empty m Hok), Hem.
    + intros i Hi E. rewrite (proj1 (Hpos i)), (proj2 (Hpos i)). by apply (ro_full m Hok), Hne.
    + intros i Hi. rewrite (proj2 (Hpos i)). by apply (ro_src m Hok).
    + change (rc_used m') with (rc_used m). rewrite (ro_used m Hok). unfold m'. rewrite count_changed by lia.
      assert (Hw : forall c, weight (with_tail (Z.of_nat t) c) = weight c) by done. rewrite Hw.
      unfold m1 at 1. rewrite count_changed by lia. rewrite (weight_full (Z.of_nat s)), (weight_full (Z.of_nat s)); [lia|done|].
      simpl. apply elem_of_union. by left.
  - intros i (Hi & He & Es). split_and!; [done|by apply Hem|]. by rewrite <- (proj2 (Hpos i)).
  - intros q i p. unfold seq_at. change (rc_size m') with (rc_size m). rewrite Hseq, (proj1 (Hpos i)). split.
    + intros (Hi & [Hq|[-> ->]] & <-); [by left|right]. by split_and!.
    + intros [(Hi & Hq & Hp)|[-> (Hi & Hq & Hp)]]; [by split_and!; [|left|]|]. split_and!; [done| |done]. right. split; [done|].
      destruct (ro_tail m Hok i _ Hi Hq) as [_ E]. rewrite Nat2Z.id in E. lia.
Qed.

Lemma seq_cp_ok m s d p0 p1 : rec_ok m -> (s < rc_size m)%nat -> (d < rc_size m)%nat -> s <> d ->
  exists m', Rec.seq_cp m (Z.of_nat s) (Z.of_nat d) p0 p1 = Ret m' /\ rec_ok m' /\ rc_size m' = rc_size m
  /\ (forall i, idle m' i -> idle m i)
  /\ forall q i p, seq_at m' q i p <-> q <> Z.of_nat d /\ seq_at m q i p \/ q = Z.of_nat d /\ seq_at m (Z.of_nat s) i p.
Proof.
  intros Hok Hs Hd Hne. pose proof (ro_small m Hok) as Hsmall. unfold Rec.seq_cp. rewrite (proj2 (Z.eqb_neq _ _)) by lia. unfold Rec.size_z.
  rewrite !u32_small by lia. rewrite !(proj2 (Z.ltb_lt _ _)) by lia. cbn [andb].
  destruct (leave_ok m d Hok Hd) as (m1 & -> & (Hok1 & Hsz1 & Hat1 & Hid1) & _ & Hd1). cbn [mbind outcome_bind].
  pose proof (ro_len m1 Hok1) as Hl1. rewrite cell_nat by lia. cbn [mbind outcome_bind].
  assert (Hat : forall q i p, seq_at m1 q i p <-> seq_at m q i p /\ q <> Z.of_nat d).
  { intros q i p. by rewrite Hat1, negb_true_iff, Z.eqb_neq. }
  destruct (ro_back m1 Hok1 s ltac:(lia)) as [Et|(t & Ht & Et & Hin)]; rewrite Et.
  - cbn [Z.leb Z.compare]. exists m1. do 4 (split; [done|]). intros q i p. rewrite Hat. split; [naive_solver|].
    intros [[? ?]|[-> H]]; [done|]. exfalso. apply (no_tail_no_seq m1 s i p Hok1 Et). apply Hat. split; [done|lia].
  - rewrite (proj2 (Z.leb_le 0 _)) by lia. rewrite change_nat by lia. cbn [mbind outcome_bind].
    rewrite change_nat by (rewrite length_changed; lia).
    destruct (joined_ok m1 s d t) as (m' & Em' & Hok' & Hid' & Hat'); try (done || lia). rewrite <- Em'. exists m'.
    split; [done|]. split; [done|]. split; [by rewrite Em'|]. split; [intros i Hi; by apply Hid1, Hid'|].
    intros q i p. rewrite Hat', !Hat. assert (Z.of_nat s <> Z.of_nat d) by lia. naive_solver.
Qed.

(** ** [clear] and [seq_keep] *)

Lemma count_none m : (forall j, (j < length (cells_of m))%nat -> mc_seq (cells_of m !!! j) = ∅) -> Rec.count_used m = 0.
Proof.
  intros H. pose proof (count_bounds m) as Hb. destruct (decide (Rec.count_used m = 0)) as [|Hne]; [done|]. exfalso.
  unfold Rec.count_used in Hne, Hb. destruct (List.filter (fun c => negb (is_empty c)) (cells_of m)) as [|c l] eqn:E; [done|].
  assert (Hc : c ∈ c :: l) by left. rewrite <- E in Hc. apply list_elem_of_In, List.filter_In in Hc as [Hc He].
  apply list_elem_of_In, list_elem_of_lookup_1 in Hc as [j Hj]. pose proof (lookup_lt_Some _ _ _ Hj) as Hlt.
  specialize (H j Hlt). rewrite (list_lookup_total_correct _ _ _ Hj) in H. apply is_empty_spec in H. by rewrite H in He.
Qed.

(** The cells after [clear]. *)
Lemma clear_cells m : length (cells_of m) = rc_size m -> exists m', Rec.clear m = Ret m' /\ length (cells_of m') = rc_size m /\ rc_size m' = rc_size m
  /\ rc_head m' = 0 /\ rc_used m' = 0
  /\ forall j, (j < rc_size m)%nat -> mc_pos (cells_of m' !!! j) = -1 /\ mc_src (cells_of m' !!! j) = -1
       /\ mc_tail (cells_of m' !!! j) = -1 /\ mc_seq (cells_of m' !!! j) = ∅.
Proof.
  intros Hl. unfold Rec.clear. match goal with |- context [foldM ?f _ _] => set (step := f) end.
  destruct (foldM_interval step (fun k m' => length (cells_of m') = rc_size m /\ rc_size m' = rc_size m
    /\ forall j, (j < k)%nat -> mc_pos (cells_of m' !!! j) = -1 /\ mc_src (cells_of m' !!! j) = -1
         /\ mc_tail (cells_of m' !!! j) = -1 /\ mc_seq (cells_of m' !!! j) = ∅) m (rc_size m)) as (m' & -> & Hl' & Hs' & H').
  - split_and!; [done|done|lia].
  - intros i b Hi (Hlb & Hsb & Hb). unfold step. rewrite change_nat by lia. eexists. split; [reflexivity|].
    split; [by rewrite length_changed|]. split; [done|]. intros j Hj. rewrite changed_cell by lia.
    case_decide as E; [done|]. apply Hb. lia.
  - cbn [mbind outcome_bind]. eexists. split; [reflexivity|]. by split_and!.
Qed.

Lemma rec_clear_ok m : rec_ok m -> exists m', Rec.clear m = Ret m' /\ keeps (fun _ => false) m m'.
Proof.
  intros Hok. destruct (clear_cells m (ro_len m Hok)) as (m' & -> & Hl' & Hs' & Hh' & Hu' & H'). exists m'. split; [done|].
  apply restricts_keeps; [done|]. constructor; try done; try lia.
  - rewrite Hu'. symmetry. apply count_none. intros j Hj. apply H'. lia.
  - intros j q Hj. destruct (H' j Hj) as (_ & _ & _ & ->). set_solver.
  - intros j Hj. by destruct (H' j Hj) as (_ & _ & -> & _).
  - intros j Hj _. destruct (H' j Hj) as (-> & -> & _). by split; [|left].
  - intros j Hj Hne. by destruct (H' j Hj) as (_ & _ & _ & ?).
Qed.

(** What [seq_keep] makes of a cell. *)
Definition kept (z : Z) j c : mem_cell :=
  let c := if Z.of_nat j =? z then c else with_tail (-1) c in
  if has_seq_id c z then with_seq {[ z ]} c else with_seq ∅ (emptied c).

Lemma keep_cell_ok z m nh j : (j < length (cells_of m))%nat -> 0 <= rc_head m <= Z.of_nat (rc_size m) ->
  rc_used m = Rec.count_used m -> Z.of_nat (length (cells_of m)) < 2 ^ 31 ->
  (mc_seq (cells_of m !!! j) = ∅ <-> mc_pos (cells_of m !!! j) < 0) ->
  exists m' nh', Rec.keep_cell z (m, nh) j = Ret (m', nh') /\ cells_of m' = <[j := kept z j (cells_of m !!! j)]> (cells_of m)
    /\ rc_size m' = rc_size m /\ rc_head m' = rc_head m /\ rc_used m' = Rec.count_used m'.
Proof.
  intros Hj Hh Hu Hsm Hem. set (c := cells_of m !!! j). set (c1 := if Z.of_nat j =? z then c else with_tail (-1) c).
  unfold Rec.keep_cell. assert (E1 : exists m1, (if Z.of_nat j =? z then Ret m else Rec.change m (Z.of_nat j) (with_tail (-1))) = Ret m1
    /\ cells_of m1 = <[j := c1]> (cells_of m) /\ rc_size m1 = rc_size m /\ rc_head m1 = rc_head m /\ rc_used m1 = rc_used m).
  { unfold c1. destruct (Z.of_nat j =? z); [|rewrite change_nat by done; by eexists].
    exists m. split; [done|]. split; [|done]. symmetry. apply list_insert_id. by apply list_lookup_lookup_total_lt. }
  destruct E1 as (m1 & -> & Ec & Es & Eh & Eu). cbn [mbind outcome_bind].
  assert (Hl1 : length (cells_of m1) = length (cells_of m)) by (rewrite Ec; apply length_insert).
  assert (Hc1 : cells_of m1 !!! j = c1) by (rewrite Ec; by apply list_lookup_total_insert_eq).
  assert (Hw1 : weight c1 = weight c) by (unfold c1; by case_match).
  assert (Hcount : forall c', Z.of_nat (length (List.filter (fun c => negb (is_empty c)) (<[j := c']> (cells_of m))))
    = Rec.count_used m + weight c' - weight c).
  { intros c'. rewrite (count_insert _ _ _ _ _ (list_lookup_lookup_total_lt _ _ Hj)). fold c. unfold Rec.count_used, weight.
    by destruct (is_empty c'), (is_empty c). }
  assert (Hseq1 : mc_seq c1 = mc_seq c /\ mc_pos c1 = mc_pos c) by (unfold c1; by case_match). destruct Hseq1 as [Hs1 Hp1].
  rewrite cell_nat, Hc1 by lia. cbn [mbind outcome_bind]. unfold kept. fold c c1.
  destruct (has_seq_id c1 z) eqn:Eh1.
  - rewrite change_nat by lia. cbn [mbind outcome_bind]. eexists _, nh. split; [reflexivity|].
    unfold changed. simpl. rewrite Hc1, Ec, list_insert_insert_eq. do 3 (split; [done|]).
    unfold Rec.count_used at 1. simpl. rewrite Hcount, Eu, Hu. apply has_seq_id_spec in Eh1.
    rewrite (weight_full z c) by by rewrite <- Hs1. rewrite (weight_full z); [lia|]. simpl. by apply elem_of_singleton.
  - set (m2 := if 0 <=? mc_pos c1 then Rec.release m1 else m1).
    assert (Hm2 : cells_of m2 = cells_of m1 /\ rc_size m2 = rc_size m1 /\ rc_head m2 = rc_head m1
      /\ rc_used m2 = Rec.count_used m - weight c).
    { unfold m2. pose proof (count_bounds m). destruct (Z.leb_spec 0 (mc_pos c1)) as [Hp|Hp]; simpl.
      - split_and!; [done|done|done|]. rewrite Eu, Hu. assert (Ew : weight c = 1).
        { unfold weight, is_empty. rewrite bool_decide_eq_false_2; [done|]. intros E%Hem. fold c in E. lia. }
        rewrite Ew. assert (0 < Rec.count_used m).
        { apply (count_pos m j); [done|]. unfold weight in Ew. fold c. by destruct (is_empty c). }
        apply u32_small. lia.
      - split_and!; [done|done|done|]. rewrite Eu, Hu. assert (Ew : weight c = 0).
        { unfold weight, is_empty. rewrite bool_decide_eq_true_2; [done|]. apply Hem. fold c. lia. }
        lia. }
    destruct Hm2 as (E2 & E3 & E4 & E5). assert (Hl2 : length (cells_of m2) = length (cells_of m)) by congruence.
    rewrite change_nat by lia. cbn [mbind outcome_bind]. eexists _, _. split; [reflexivity|].
    unfold changed. simpl. rewrite E2, Hc1, Ec, list_insert_insert_eq. split; [done|]. split; [congruence|]. split; [congruence|].
    unfold Rec.count_used at 1. simpl. rewrite Hcount, E5.
    assert (E6 : weight (with_seq ∅ (emptied c1)) = 0) by (unfold weight, is_empty; by rewrite bool_decide_eq_true_2). lia.
Qed.

Lemma rec_seq_keep_ok m z : rec_ok m -> exists m', Rec.seq_keep m z = Ret m' /\ keeps (fun q => q =? z) m m'.
Proof.
  intros Hok. unfold Rec.seq_keep. pose proof (ro_len m Hok) as Hl.
  destruct (foldM_interval (Rec.keep_cell z) (fun k acc => length (cells_of acc.1) = rc_size m /\ rc_size acc.1 = rc_size m
    /\ rc_head acc.1 = rc_head m /\ rc_used acc.1 = Rec.count_used acc.1
    /\ forall j, (j < rc_size m)%nat -> cells_of acc.1 !!! j = if (j <? k)%nat then kept z j (cells_of m !!! j) else cells_of m !!! j)
    (m, rc_size m) (rc_size m)) as ([m' nh'] & -> & Hl' & Hs' & Hh' & Hu' & H').
  - split_and!; try done. apply Hok.
  - intros i [b nh] Hi (Hlb & Hsb & Hhb & Hub & Hb). cbn [fst] in *.
    assert (Hbi : cells_of b !!! i = cells_of m !!! i) by (rewrite Hb by done; by rewrite (proj2 (Nat.ltb_ge _ _))).
    destruct (keep_cell_ok z b nh i) as (b' & nh' & E & Ec & Es & Eh & Eu).
    + lia.
    + rewrite Hhb, Hsb. apply Hok.
    + done.
    + rewrite Hlb. apply Hok.
    + rewrite Hbi. split; [intros E; rewrite (ro_empty m Hok i Hi E); lia|]. intros Hp.
      destruct (decide (mc_seq (cells_of m !!! i) = ∅)) as [|Hne]; [done|]. destruct (ro_full m Hok i Hi Hne). lia.
    + exists (b', nh'). split; [done|]. cbn [fst]. rewrite Ec, length_insert. split_and!; [done|congruence|congruence|done|].
      intros j Hj. destruct (decide (i = j)) as [<-|Hij].
      * rewrite list_lookup_total_insert_eq, Hbi by lia. by rewrite (proj2 (Nat.ltb_lt _ _)) by lia.
      * rewrite list_lookup_total_insert_ne by done. rewrite Hb by done.
        destruct (Nat.ltb_spec j i), (Nat.ltb_spec j (S i)); try done; lia.
  - cbn [fst] in *. cbn [mbind outcome_bind]. eexists. split; [reflexivity|].
    destruct (lower_head_same m' nh') as (Ec & Es & Eu). apply restricts_keeps; [done|].
    assert (Hk : forall j, (j < rc_size m)%nat -> cells_of m' !!! j = kept z j (cells_of m !!! j)).
    { intros j Hj. rewrite H' by done. by rewrite (proj2 (Nat.ltb_lt _ _)). }
    assert (Hseq : forall j, (j < rc_size m)%nat -> mc_seq (cells_of m' !!! j) = if has_seq_id (cells_of m !!! j) z then {[ z ]} else ∅).
    { intros j Hj. rewrite Hk by done. unfold kept.
      replace (has_seq_id (if Z.of_nat j =? z then cells_of m !!! j else with_tail (-1) (cells_of m !!! j)) z)
        with (has_seq_id (cells_of m !!! j) z) by (by destruct (Z.of_nat j =? z)). by case_match. }
    constructor; rewrite ?Ec, ?Es, ?Eu; try done; [congruence| | | | | |].
    + apply lower_head_range. rewrite Hh'. apply Hok.
    + unfold Rec.count_used. by rewrite Ec.
    + intros j q Hj. rewrite Hseq by done. rewrite Z.eqb_eq. destruct (has_seq_id _ z) eqn:E.
      * apply has_seq_id_spec in E. rewrite elem_of_singleton. split; [intros ->; by split|by intros [_ ->]].
      * apply not_true_iff_false in E. rewrite has_seq_id_spec in E. split; [by intros H%elem_of_empty|]. by intros [H ->].
    + intros j Hj. rewrite Hk by done. unfold kept. destruct (Z.of_nat j =? z); by case_match.
    + intros j Hj E. rewrite Hseq in E by done. rewrite Hk by done. unfold kept.
      replace (has_seq_id (if Z.of_nat j =? z then cells_of m !!! j else with_tail (-1) (cells_of m !!! j)) z)
        with (has_seq_id (cells_of m !!! j) z) by (by destruct (Z.of_nat j =? z)).
      destruct (has_seq_id (cells_of m !!! j) z); [|by split; [|left]]. exfalso. set_solver.
    + intros j Hj E. rewrite Hseq in E by done. rewrite Hk by done. unfold kept.
      replace (has_seq_id (if Z.of_nat j =? z then cells_of m !!! j else with_tail (-1) (cells_of m !!! j)) z)
        with (has_seq_id (cells_of m !!! j) z) by (by destruct (Z.of_nat j =? z)).
      destruct (has_seq_id (cells_of m !!! j) z); [|done]. by destruct (Z.of_nat j =? z).
Qed.

(** ** [seq_add] and [seq_div] *)

Lemma with_pos_ok m t p : rec_ok m -> (t < rc_size m)%nat -> mc_seq (cells_of m !!! t) <> ∅ -> 0 <= p ->
  rec_ok (changed m t (with_pos p)) /\ (forall i, idle (changed m t (with_pos p)) i -> idle m i)
  /\ forall q i p', seq_at (changed m t (with_pos p)) q i p'
       <-> (i <> t /\ seq_at m q i p') \/ (i = t /\ p' = p /\ exists p0, seq_at m q t p0).
Proof.
  intros Hok Ht Hne Hp. pose proof (ro_len m Hok) as Hl. set (m' := changed m t (with_pos p)).
  assert (Hc : forall j, mc_seq (cells_of m' !!! j) = mc_seq (cells_of m !!! j) /\ mc_tail (cells_of m' !!! j) = mc_tail (cells_of m !!! j)
    /\ mc_src (cells_of m' !!! j) = mc_src (cells_of m !!! j)
    /\ mc_pos (cells_of m' !!! j) = if decide (j = t) then p else mc_pos (cells_of m !!! j)).
  { intros j. unfold m'. rewrite changed_cell by lia. destruct (decide (t = j)) as [->|]; [by rewrite decide_True|].
    by rewrite decide_False by congruence. }
  split; [|split].
  - constructor; try apply Hok.
    + unfold m'. by rewrite length_changed.
    + intros i q Hi. destruct (Hc i) as (-> & _). destruct (Hc (Z.to_nat q)) as (_ & -> & _). by apply (ro_tail m Hok).
    + intros j Hj. destruct (Hc j) as (_ & -> & _). destruct (ro_back m Hok j Hj) as [E|(i & Hi & E & Hin)]; [by left|right].
      exists i. split_and!; [done|done|]. by destruct (Hc i) as (-> & _).
    + intros i Hi. destruct (Hc i) as (-> & _ & _ & ->). intros E. case_decide; [by subst|]. by apply (ro_empty m Hok).
    + intros i Hi. destruct (Hc i) as (-> & _ & -> & ->). intros E. destruct (ro_full m Hok i Hi E). by case_decide.
    + intros i Hi. destruct (Hc i) as (_ & _ & -> & _). by apply (ro_src m Hok).
    + change (rc_used m') with (rc_used m). rewrite (ro_used m Hok). unfold m'. rewrite count_changed by lia.
      assert (Hw : forall c, weight (with_pos p c) = weight c) by done. rewrite Hw. lia.
  - intros i (Hi & He & Es). destruct (Hc i) as (E1 & _ & E2 & _). split_and!; [done|congruence|congruence].
  - intros q i p'. unfold seq_at. change (rc_size m') with (rc_size m). destruct (Hc i) as (-> & _ & _ & ->). case_decide as E.
    + subst i. split; [intros (Ha & Hb & <-); right; split; [done|]; split; [done|]; by exists (mc_pos (cells_of m !!! t))|]. intros [[? _]|(_ & -> & p0 & _ & Hx & _)]; [done|by split_and!].
    + split; [intros H; by left|]. by intros [[_ H]|[? _]].
Qed.

(** The cell [i] is that of sequence [s], at a position in the range. *)
Definition shifted m s p0 p1 i : Prop := exists p, seq_at m (Z.of_nat s) i p /\ in_pos p0 p1 p.

Lemma move_ok m s p0 p1 (f : Z -> outcome Z) (g : Z -> Z) : rec_ok m -> (s < rc_size m)%nat ->
  (forall i p, seq_at m (Z.of_nat s) i p -> in_pos p0 p1 p -> f p = Ret (g p) /\ 0 <= g p) ->
  exists m', Rec.move m (Z.of_nat s) p0 p1 f = Ret m' /\ rec_ok m' /\ rc_size m' = rc_size m /\ (forall i, idle m' i -> idle m i)
  /\ forall q i p, seq_at m' q i p <-> exists p', seq_at m q i p' /\ ((shifted m s p0 p1 i /\ p = g p') \/ (~ shifted m s p0 p1 i /\ p = p')).
Proof.
  intros Hok Hs Hf. pose proof (ro_len m Hok) as Hl. unfold Rec.move, Rec.size_z.
  assert (Hsame : (forall i, ~ shifted m s p0 p1 i) -> exists m', (Ret m : outcome _) = Ret m' /\ rec_ok m' /\ rc_size m' = rc_size m
    /\ (forall i, idle m' i -> idle m i) /\ forall q i p, seq_at m' q i p
       <-> exists p', seq_at m q i p' /\ ((shifted m s p0 p1 i /\ p = g p') \/ (~ shifted m s p0 p1 i /\ p = p'))).
  { intros Hno. exists m. do 4 (split; [done|]). intros q i p. split.
    - intros H. exists p. split; [done|]. right. by split.
    - intros (p' & H & [[Hsh _]|[_ ->]]); [by destruct (Hno i)|done]. }
  destruct (Z.eqb_spec (Kv.lower p0) (Kv.upper p1)) as [Epp|Epp].
  { apply Hsame. intros i (p & _ & [? ?]). lia. }
  rewrite (proj2 (Z.leb_le 0 _)), (proj2 (Z.ltb_lt _ _)) by lia. cbn [andb]. rewrite cell_nat by lia. cbn [mbind outcome_bind].
  destruct (ro_back m Hok s Hs) as [Et|(t & Ht & Et & Hin)]; rewrite Et.
  { cbn [Z.leb Z.compare]. apply Hsame. intros i (p & H & _). by eapply no_tail_no_seq. }
  rewrite (proj2 (Z.leb_le 0 _)), cell_nat by lia. cbn [mbind outcome_bind]. rewrite (proj2 (has_seq_id_spec _ _) Hin). cbn [andb].
  set (p := mc_pos (cells_of m !!! t)). assert (Hat : seq_at m (Z.of_nat s) t p) by by split.
  assert (Hun : forall i p', seq_at m (Z.of_nat s) i p' -> i = t /\ p' = p) by (intros i p' H; by eapply seq_at_unique).
  destruct (decide (in_pos p0 p1 p)) as [Hr|Hr].
  - pose proof Hr as [H1 H2]. rewrite (proj2 (Z.leb_le _ p)), (proj2 (Z.ltb_lt p _)) by done. cbn [andb].
    destruct (Hf t p Hat Hr) as [-> Hg]. cbn [mbind outcome_bind]. rewrite change_nat by lia.
    destruct (with_pos_ok m t (g p) Hok Ht ltac:(set_solver) Hg) as (Hok' & Hid & Hat').
    eexists. split; [reflexivity|]. split; [done|]. split; [done|]. split; [done|].
    assert (Hsh : forall i, shifted m s p0 p1 i <-> i = t).
    { intros i. split; [intros (p' & H & _); by apply (Hun i p')|]. intros ->. by exists p. }
    intros q i p'. rewrite Hat'. setoid_rewrite Hsh. split.
    + intros [[Hi H]|(-> & -> & p3 & H)]; [exists p'; split; [done|by right]|]. exists p3. split; [done|]. left.
      split; [done|]. f_equal. destruct H as (_ & _ & Ep). unfold p. congruence.
    + intros (p3 & H & [[-> ->]|[Hi ->]]); [right|by left]. split; [done|]. split; [|by exists p3]. f_equal. destruct H as (_ & _ & Ep). unfold p. congruence.
  - assert (E0 : (Kv.lower p0 <=? p) && (p <? Kv.upper p1) = false).
    { apply not_true_iff_false. rewrite andb_true_iff, Z.leb_le, Z.ltb_lt. done. }
    rewrite E0. apply Hsame. intros i (p' & H & Hr'). destruct (Hun i p' H) as [_ Ep]. apply Hr. by rewrite <- Ep.
Qed.

(** ** The position of a sequence *)

Lemma seq_pos_ok m z : rec_ok m -> exists lo hi, Rec.seq_pos_min m z = Ret lo /\ Rec.seq_pos_max m z = Ret hi
  /\ ((lo = -1 /\ hi = -1 /\ forall i p, ~ seq_at m z i p)
      \/ exists i p, seq_at m z i p /\ hi = p /\ (p < INT32_MAX -> lo = p)).
Proof.
  intros Hok. pose proof (ro_len m Hok) as Hl. unfold Rec.seq_pos_min, Rec.seq_pos_max.
  set (fmin := fun r i => c ← Rec.cell m (Z.of_nat i); Ret (if has_seq_id c z then Z.min r (mc_pos c) else r)).
  set (fmax := fun r i => c ← Rec.cell m (Z.of_nat i); Ret (if has_seq_id c z then Z.max r (mc_pos c) else r)).
  assert (Hno : forall j, (j < rc_size m)%nat -> z ∉ mc_seq (cells_of m !!! j) -> forall r, fmin r j = Ret r /\ fmax r j = Ret r).
  { intros j Hj Hz r. unfold fmin, fmax. rewrite cell_nat by lia. cbn [mbind outcome_bind].
    assert (E : has_seq_id (cells_of m !!! j) z = false) by (apply not_true_iff_false; by rewrite has_seq_id_spec). by rewrite E. }
  assert (Hex : (exists t, (t < rc_size m)%nat /\ z ∈ mc_seq (cells_of m !!! t))
    \/ forall t, (t < rc_size m)%nat -> z ∉ mc_seq (cells_of m !!! t)).
  { destruct (decide (Exists (fun t => z ∈ mc_seq (cells_of m !!! t)) (seq 0 (rc_size m)))) as [H|H].
    - left. apply Exists_exists in H as (t & Ht & H). apply elem_of_seq in Ht. exists t. split; [lia|done].
    - right. intros t Ht Hz. apply H, Exists_exists. exists t. split; [apply elem_of_seq; lia|done]. }
  destruct Hex as [(t & Ht & Hz)|Hnone].
  - assert (Hother : forall j, (j < rc_size m)%nat -> j <> t -> z ∉ mc_seq (cells_of m !!! j)).
    { intros j Hj Hne Hz'. destruct (ro_tail m Hok t z Ht Hz), (ro_tail m Hok j z Hj Hz'). lia. }
    destruct (ro_full m Hok t Ht) as [Hp _]; [set_solver|]. set (p := mc_pos (cells_of m !!! t)) in *.
    rewrite (foldM_once fmin INT32_MAX (Z.min INT32_MAX p) t), (foldM_once fmax (-1) (Z.max (-1) p) t);
      try done; try (intros j Hj; apply Hno; [lia|apply Hother; lia]);
      try (unfold fmin, fmax; rewrite cell_nat by lia; cbn [mbind outcome_bind]; by rewrite (proj2 (has_seq_id_spec _ _) Hz)).
    cbn [mbind outcome_bind]. eexists _, _. split; [reflexivity|]. split; [reflexivity|]. right. exists t, p.
    split; [by split|]. split; [lia|]. intros Hlt. rewrite Z.min_r by lia. by rewrite (proj2 (Z.eqb_neq _ _)) by lia.
  - rewrite !foldM_never by (intros j Hj; apply Hno; [done|by apply Hnone]). cbn [mbind outcome_bind].
    rewrite Z.eqb_refl. exists (-1), (-1). do 2 (split; [done|]). left. do 2 (split; [done|]). intros i p (Hi & Hz & _). by apply (Hnone i Hi).
Qed.
