(* ===== verification/RecurrentSlot.v ===== *)
(** * Finding a slot in the recurrent memory: the search for empty cells, and
    the cells the sequences of a ubatch claim. *)

From S2P Require Import Prelude KvCells Batch KvCache KvCacheFacts KvContext Decode Recurrent RecurrentFacts RecurrentSteps.
From Stdlib Require Import Lia.

Implicit Types (m : llama_memory_recurrent) (c : mem_cell) (s i j : nat) (p : Z).

(** ** Lists of numbers *)

Lemma range_length (l : list Z) n : NoDup l -> (forall q, q ∈ l -> 0 <= q < Z.of_nat n) -> (length l <= n)%nat.
Proof.
  intros Hnd Hr. rewrite <- (length_seq n 0), <- (length_map Z.of_nat). apply List.NoDup_incl_length.
  - by apply NoDup_ListNoDup.
  - intros q Hq%list_elem_of_In. specialize (Hr q Hq). apply in_map_iff. exists (Z.to_nat q).
    split; [lia|]. apply List.in_seq. lia.
Qed.

(** When [q] has no tail, or shares it, some cell is nobody's tail. *)
Lemma spare_cell (f : nat -> Z) n (q : nat) : (q < n)%nat -> (f q = -1 \/ exists q', (q' < n)%nat /\ q' <> q /\ f q' = f q) ->
  exists i, (i < n)%nat /\ forall j, (j < n)%nat -> f j <> Z.of_nat i.
Proof.
  intros Hq Hdup. set (L := map f (List.filter (fun j => negb (j =? q)%nat) (seq 0 n))).
  assert (Hlen : (length L < n)%nat).
  { unfold L. rewrite length_map. rewrite <- (length_seq n 0) at 2. apply Nat.le_neq. split; [apply List.filter_length_le|].
    intros E. apply filter_length_forallb in E. rewrite forallb_forall in E. specialize (E q ltac:(apply List.in_seq; lia)).
    by rewrite Nat.eqb_refl in E. }
  assert (Hin : forall j, (j < n)%nat -> f j ∈ L \/ f j = -1).
  { assert (Hin0 : forall j, (j < n)%nat -> j <> q -> f j ∈ L).
    { intros j Hj Hne. apply list_elem_of_In, in_map_iff. exists j. split; [done|]. apply List.filter_In.
      split; [apply List.in_seq; lia|]. by apply negb_true_iff, Nat.eqb_neq. }
    intros j Hj. destruct (decide (j = q)) as [->|Hne]; [|left; by apply Hin0].
    destruct Hdup as [->|(q' & Hq' & Hne & <-)]; [by right|left; by apply Hin0]. }
  destruct (decide (Exists (fun i => Z.of_nat i ∉ L) (seq 0 n))) as [H|H].
  - apply Exists_exists in H as (i & Hi%elem_of_seq & Hnot). exists i. split; [lia|]. intros j Hj E.
    destruct (Hin j Hj) as [H|H]; [|lia]. apply Hnot. by rewrite <- E.
  - exfalso. assert (Hle : (n <= length L)%nat); [|lia]. rewrite <- (length_seq n 0) at 1. rewrite <- (length_map Z.of_nat).
    apply List.NoDup_incl_length.
    + apply NoDup_ListNoDup, NoDup_fmap_2; [intros x y; lia|apply NoDup_seq].
    + intros z (i & <- & Hi)%in_map_iff. apply list_elem_of_In. apply dec_stable. intros Hnot. apply H, Exists_exists.
      exists i. split; [by apply list_elem_of_In|done].
Qed.

(** ** The search for an empty cell *)

Definition empty_at m (z : Z) : Prop := mc_seq (cells_of m !!! Z.to_nat z) = ∅.

(** Going round from [next]. *)
Definition around m (next d : Z) : Z := (next + d) mod Z.of_nat (rc_size m).

Lemma around_range m next d : (0 < rc_size m)%nat -> 0 <= around m next d < Z.of_nat (rc_size m).
Proof. intros H. apply Z.mod_pos_bound. lia. Qed.

Lemma wrap_mod n z : 0 <= z <= n -> 0 < n -> (if n <=? z then z - n else z) = z mod n.
Proof.
  intros Hz Hn. destruct (Z.leb_spec n z); [|by rewrite Z.mod_small by lia].
  assert (z = n) as -> by lia. rewrite Z.mod_same by lia. lia.
Qed.

Lemma scan_ok m : length (cells_of m) = rc_size m -> (0 < rc_size m)%nat -> forall fuel next, 0 <= next <= Z.of_nat (rc_size m) ->
  exists r, Rec.scan fuel m next = Ret r /\ 0 <= r <= Z.of_nat (rc_size m)
    /\ ((r < Z.of_nat (rc_size m) /\ empty_at m r) \/ forall d, 0 <= d < Z.of_nat fuel -> ~ empty_at m (around m next d)).
Proof.
  intros Hl Hn. induction fuel as [|fuel IH]; intros next Hr; cbn [Rec.scan].
  { exists next. split; [done|]. split; [done|]. right. lia. }
  unfold Rec.size_z. rewrite wrap_mod by lia.
  pose proof (Z.mod_pos_bound next (Z.of_nat (rc_size m)) ltac:(lia)) as Hb.
  rewrite cell_Ret by lia. cbn [mbind outcome_bind]. destruct (is_empty _) eqn:He.
  - exists (next mod Z.of_nat (rc_size m)). split; [done|]. split; [lia|]. left. split; [lia|]. by apply is_empty_spec.
  - destruct (IH (next mod Z.of_nat (rc_size m) + 1)) as (r & -> & Hr' & H); [lia|]. exists r. split; [done|]. split; [done|].
    destruct H as [H|H]; [by left|right]. intros d Hd. destruct (decide (d = 0)) as [->|Hd0].
    + unfold around, empty_at. rewrite Z.add_0_r. intros E. apply is_empty_spec in E. congruence.
    + specialize (H (d - 1) ltac:(lia)). unfold around in *.
      replace ((next mod Z.of_nat (rc_size m) + 1 + (d - 1)) mod Z.of_nat (rc_size m)) with ((next + d) mod Z.of_nat (rc_size m)) in H; [done|].
      replace (next mod Z.of_nat (rc_size m) + 1 + (d - 1)) with (next mod Z.of_nat (rc_size m) + d) by lia.
      by rewrite Zplus_mod_idemp_l.
Qed.

(** Every cell is met on the way round. *)
Lemma around_all m next i : (i < rc_size m)%nat ->
  exists d, 0 <= d < Z.of_nat (rc_size m) /\ around m next d = Z.of_nat i.
Proof.
  intros Hi. exists ((Z.of_nat i - next) mod Z.of_nat (rc_size m)). split; [apply Z.mod_pos_bound; lia|].
  unfold around. rewrite Zplus_mod_idemp_r. replace (next + (Z.of_nat i - next)) with (Z.of_nat i) by lia.
  by rewrite Z.mod_small by lia.
Qed.

Lemma scan_finds m next i : length (cells_of m) = rc_size m -> 0 <= next <= Z.of_nat (rc_size m) ->
  (i < rc_size m)%nat -> mc_seq (cells_of m !!! i) = ∅ ->
  exists r, Rec.scan (rc_size m) m next = Ret r /\ 0 <= r < Z.of_nat (rc_size m) /\ empty_at m r.
Proof.
  intros Hl Hr Hi He. destruct (scan_ok m Hl ltac:(lia) (rc_size m) next Hr) as (r & E & Hr' & [[H1 H2]|H]).
  - exists r. split; [done|]. split; [lia|done].
  - destruct (around_all m next i Hi) as (d & Hd & Ed). exfalso. apply (H d Hd). unfold empty_at. by rewrite Ed, Nat2Z.id.
Qed.

Lemma scan_next_ok m : length (cells_of m) = rc_size m -> forall fuel next, 0 <= next < Z.of_nat (rc_size m) ->
  exists r, Rec.scan_next fuel m next = Ret r /\ 0 <= r < Z.of_nat (rc_size m)
    /\ ((exists d, 1 <= d <= Z.of_nat fuel /\ r = around m next d /\ empty_at m r
          /\ forall d', 1 <= d' < d -> ~ empty_at m (around m next d'))
        \/ forall d, 1 <= d <= Z.of_nat fuel -> ~ empty_at m (around m next d)).
Proof.
  intros Hl. induction fuel as [|fuel IH]; intros next Hr; cbn [Rec.scan_next].
  { exists next. split; [done|]. split; [done|]. right. lia. }
  unfold Rec.size_z. rewrite wrap_mod by lia. change ((next + 1) mod Z.of_nat (rc_size m)) with (around m next 1).
  pose proof (around_range m next 1 ltac:(lia)) as Hb. rewrite cell_Ret by lia. cbn [mbind outcome_bind].
  destruct (is_empty _) eqn:He.
  - exists (around m next 1). split; [done|]. split; [lia|]. left. exists 1. split; [lia|]. split; [done|].
    split; [by apply is_empty_spec|lia].
  - destruct (IH (around m next 1) Hb) as (r & -> & Hr' & H). exists r. split; [done|]. split; [done|].
    assert (Hd1 : forall d, around m (around m next 1) d = around m next (d + 1)).
    { intros d. unfold around. rewrite Zplus_mod_idemp_l. f_equal. lia. }
    assert (H1 : ~ empty_at m (around m next 1)) by (intros E; apply is_empty_spec in E; congruence).
    destruct H as [(d & Hd & Er & Hem & Hno)|H].
    + left. exists (d + 1). split; [lia|]. rewrite Hd1 in Er. split; [done|]. split; [done|]. intros d' Hd'.
      destruct (decide (d' = 1)) as [->|Hne]; [done|]. specialize (Hno (d' - 1) ltac:(lia)). rewrite Hd1 in Hno.
      by replace (d' - 1 + 1) with d' in Hno by lia.
    + right. intros d Hd. destruct (decide (d = 1)) as [->|Hne]; [done|]. specialize (H (d - 1) ltac:(lia)). rewrite Hd1 in H.
      by replace (d - 1 + 1) with d in H by lia.
Qed.

(** ** Between the check and the end of the search *)

Definition tail_of m j : Z := mc_tail (cells_of m !!! j).

(** Cell [i] is nobody's tail. *)
Definition spare m i : Prop := (i < rc_size m)%nat /\ forall j, (j < rc_size m)%nat -> tail_of m j <> Z.of_nat i.

(** What holds while the cells of the sequences [F] are arranged, seen from the
    memory [m0] before: every sequence has the cell with its state as its tail;
    a sequence of [F] without a state may have an empty cell. *)
Record mid m0 (F : list nat) m : Prop := {
  md_size : rc_size m = rc_size m0;
  md_len : length (cells_of m) = rc_size m;
  md_tail i q : (i < rc_size m)%nat -> q ∈ mc_seq (cells_of m !!! i) ->
    0 <= q < Z.of_nat (rc_size m) /\ tail_of m (Z.to_nat q) = Z.of_nat i /\ 0 <= tail_of m0 (Z.to_nat q);
  md_back j : (j < rc_size m)%nat -> tail_of m j = -1 \/ exists i, (i < rc_size m)%nat /\ tail_of m j = Z.of_nat i
    /\ (Z.of_nat j ∈ mc_seq (cells_of m !!! i)
        \/ mc_seq (cells_of m !!! i) = ∅ /\ j ∈ F /\ tail_of m0 j = -1
           /\ forall j', (j' < rc_size m)%nat -> tail_of m j' = Z.of_nat i -> j' = j);
  md_some j i0 : (j < rc_size m)%nat -> tail_of m0 j = Z.of_nat i0 -> exists i, tail_of m j = Z.of_nat i
    /\ mc_src (cells_of m !!! i) = Z.of_nat i0 /\ mc_pos (cells_of m !!! i) = mc_pos (cells_of m0 !!! i0);
  md_none j : (j < rc_size m)%nat -> j ∉ F -> tail_of m0 j = -1 -> tail_of m j = -1;
  md_new i : (i < rc_size m)%nat -> (forall j, (j < rc_size m)%nat -> tail_of m j = Z.of_nat i -> tail_of m0 j = -1) ->
    mc_src (cells_of m !!! i) = -1 \/ exists k, mc_src (cells_of m !!! i) = Z.of_nat k /\ idle m0 k;
  md_empty i : spare m i -> mc_pos (cells_of m !!! i) = -1;
}.

Lemma spare_seq m0 F m i : mid m0 F m -> spare m i -> mc_seq (cells_of m !!! i) = ∅.
Proof.
  intros Hm [Hi Hno]. apply set_eq. intros q. split; [|by intros ?%elem_of_empty].
  intros Hq. destruct (md_tail _ _ _ Hm i q Hi Hq) as (Hr & E & _). exfalso. by apply (Hno (Z.to_nat q)); [lia|].
Qed.

Lemma tail_case m0 F m j : mid m0 F m -> (j < rc_size m)%nat -> tail_of m j = -1
  \/ exists i, (i < rc_size m)%nat /\ tail_of m j = Z.of_nat i.
Proof. intros Hm Hj. destruct (md_back _ _ _ Hm j Hj) as [E|(i & Hi & E & _)]; [by left|right; by exists i]. Qed.

(** An intact memory is in such a state. *)
Lemma mid_start m F : rec_ok m -> mid m F m.
Proof.
  intros Hok. constructor; try done; try apply Hok.
  - intros i q Hi Hq. destruct (ro_tail m Hok i q Hi Hq) as [Hr E]. split; [done|]. split; [done|]. unfold tail_of. lia.
  - intros j Hj. destruct (ro_back m Hok j Hj) as [E|(i & Hi & E & Hin)]; [by left|right]. exists i. split_and!; [done|done|by left].
  - intros j i0 Hj E. exists i0. destruct (ro_back m Hok j Hj) as [E'|(i & Hi & E' & Hin)]; unfold tail_of in *; [lia|].
    assert (i = i0) as -> by lia. split; [done|]. split; [|done]. destruct (ro_full m Hok i0 Hi); [|done]. intros E0. rewrite E0 in Hin. by apply elem_of_empty in Hin.
  - intros i Hi Hno. destruct (ro_src m Hok i Hi) as [E|E]; [by left|right]. exists i. split; [done|]. split_and!; [done| |done].
    apply set_eq. intros q. split; [|by intros ?%elem_of_empty]. intros Hq. destruct (ro_tail m Hok i q Hi Hq) as [Hr Et].
    specialize (Hno (Z.to_nat q) ltac:(lia) Et). unfold tail_of in Hno. rewrite Hno in Et. lia.
  - intros i [Hi Hno]. apply (ro_empty m Hok i Hi). apply set_eq. intros q. split; [|by intros ?%elem_of_empty].
    intros Hq. destruct (ro_tail m Hok i q Hi Hq) as [Hr E]. exfalso. by apply (Hno (Z.to_nat q)); [lia|].
Qed.

(** Sequence [j] has a cell of its own. *)
Definition owner m j i : Prop := (i < rc_size m)%nat /\ tail_of m j = Z.of_nat i
  /\ (mc_seq (cells_of m !!! i) = {[ Z.of_nat j ]} \/ mc_seq (cells_of m !!! i) = ∅).

Lemma owner_unique m0 F m j j' i : mid m0 F m -> (j < rc_size m)%nat -> (j' < rc_size m)%nat ->
  owner m j i -> tail_of m j' = Z.of_nat i -> j' = j.
Proof.
  intros Hm Hj Hj' (Hi & Et & Hseq) Et'.
  destruct (md_back _ _ _ Hm j' Hj') as [E|(i' & Hi' & E & H')]; [lia|]. assert (i' = i) as -> by lia.
  destruct (md_back _ _ _ Hm j Hj) as [E1|(i1 & Hi1 & E1 & H1)]; [lia|]. assert (i1 = i) as -> by lia.
  destruct H1 as [H1|(_ & _ & _ & Hun)]; [|by apply Hun]. destruct Hseq as [Hseq|Hseq].
  - destruct H' as [H'|(E2 & _)]; [rewrite Hseq in H'; apply elem_of_singleton in H'; lia|].
    rewrite Hseq in E2. exfalso. assert (Hx : Z.of_nat j ∈ ({[ Z.of_nat j ]} : gset Z)) by by apply elem_of_singleton.
    rewrite E2 in Hx. by apply elem_of_empty in Hx.
  - rewrite Hseq in H1. by apply elem_of_empty in H1.
Qed.

(** ** A claim *)

(** Sequence [j] moves to the spare cell [e], with the state of its old tail. *)
Record moved_to m m' j e : Prop := {
  mv_size : rc_size m' = rc_size m;
  mv_len : length (cells_of m') = length (cells_of m);
  mv_tail k : tail_of m' k = if decide (k = j) then Z.of_nat e else tail_of m k;
  mv_seq i q : q ∈ mc_seq (cells_of m' !!! i) <->
    if decide (i = e) then 0 <= tail_of m j /\ q = Z.of_nat j
    else if decide (Z.of_nat i = tail_of m j) then q ∈ mc_seq (cells_of m !!! i) /\ q <> Z.of_nat j
    else q ∈ mc_seq (cells_of m !!! i);
  mv_other i : i <> e -> mc_pos (cells_of m' !!! i) = mc_pos (cells_of m !!! i) /\ mc_src (cells_of m' !!! i) = mc_src (cells_of m !!! i);
  mv_here : if decide (0 <= tail_of m j) then
      mc_pos (cells_of m' !!! e) = mc_pos (cells_of m !!! Z.to_nat (tail_of m j))
      /\ mc_src (cells_of m' !!! e) = mc_src (cells_of m !!! Z.to_nat (tail_of m j))
    else mc_pos (cells_of m' !!! e) = mc_pos (cells_of m !!! e) /\ mc_src (cells_of m' !!! e) = mc_src (cells_of m !!! e);
}.

(** Sequence [j] of [F] has no cell of its own. *)
Lemma moved_mid m0 F m m' j e : mid m0 F m -> (j < rc_size m)%nat -> j ∈ F -> spare m e -> moved_to m m' j e ->
  tail_of m j = tail_of m0 j ->
  (forall i, tail_of m j = Z.of_nat i -> exists j', (j' < rc_size m)%nat /\ j' <> j /\ Z.of_nat j' ∈ mc_seq (cells_of m !!! i)) ->
  mid m0 F m'.
Proof.
  intros Hm Hj HF He [Hs Hl Ht Hq Ho Hh] Et0 Hshare. pose proof (spare_seq m0 F m e Hm He) as Hes. destruct He as [He Hno].
  assert (HTe : forall k, (k < rc_size m)%nat -> tail_of m' k = Z.of_nat e -> k = j).
  { intros k Hk E. rewrite Ht in E. destruct (decide (k = j)); [done|]. by destruct (Hno k Hk). }
  assert (HT : forall k i, tail_of m' k = Z.of_nat i -> i <> e -> k <> j /\ tail_of m k = Z.of_nat i).
  { intros k i E Hie. rewrite Ht in E. destruct (decide (k = j)); [exfalso; lia|done]. }
  assert (Hsub : forall i q, i <> e -> q ∈ mc_seq (cells_of m' !!! i) -> q ∈ mc_seq (cells_of m !!! i)).
  { intros i q Hie H. apply Hq in H. rewrite decide_False in H by done. by destruct (decide (Z.of_nat i = tail_of m j)); [destruct H|]. }
  constructor; rewrite ?Hs.
  - apply Hm.
  - rewrite Hl. apply Hm.
  - intros i q Hi H. destruct (decide (i = e)) as [->|Hie].
    + apply Hq in H. rewrite decide_True in H by done. destruct H as [H ->]. split; [lia|]. rewrite Ht, Nat2Z.id, decide_True by done.
      split; [done|]. by rewrite <- Et0.
    + pose proof H as Hq'. apply Hsub in H; [|done]. destruct (md_tail _ _ _ Hm i q Hi H) as (Hr & E & E0). split; [done|].
      split; [|done]. rewrite Ht. destruct (decide (Z.to_nat q = j)) as [Ejq|Ejq]; [exfalso|done]. apply Hq in Hq'. rewrite decide_False in Hq' by done.
      subst j. rewrite decide_True in Hq' by done. destruct Hq' as [_ Hne]. lia.
  - intros k Hk. rewrite Ht. destruct (decide (k = j)) as [->|Hkj].
    + right. exists e. split; [done|]. split; [done|]. destruct (decide (0 <= tail_of m j)) as [Htj|Htj].
      * left. apply Hq. by rewrite decide_True.
      * right. split_and!; [|done| |].
        -- apply set_eq. intros q. rewrite Hq, decide_True by done. split; [by intros [? _]|by intros ?%elem_of_empty].
        -- rewrite <- Et0. destruct (tail_case _ _ _ j Hm Hj) as [?|(i & _ & E)]; [done|lia].
        -- intros j' Hj' E. by apply HTe.
    + destruct (md_back _ _ _ Hm k Hk) as [E|(i & Hi & E & Hin)]; [by left|right]. exists i. split; [done|]. split; [done|].
      assert (Hie : i <> e) by (intros ->; by apply (Hno k Hk)). destruct Hin as [Hin|(E1 & E2 & E3 & Hun)].
      * left. apply Hq. rewrite decide_False by done. destruct (decide (Z.of_nat i = tail_of m j)); [|done]. split; [done|lia].
      * right. split_and!; [|done|done|].
        -- apply set_eq. intros q. split; [|by intros ?%elem_of_empty]. intros H. apply Hsub in H; [|done]. by rewrite E1 in H.
        -- intros j' Hj' E'. destruct (HT j' i E' Hie) as [_ ?]. by apply Hun.
  - intros k i0 Hk E0. destruct (md_some _ _ _ Hm k i0 Hk E0) as (i & E & Esrc & Epos). rewrite Ht.
    destruct (decide (k = j)) as [->|Hkj].
    + exists e. split; [done|]. rewrite decide_True in Hh by lia. rewrite E, Nat2Z.id in Hh. destruct Hh as [-> ->]. done.
    + exists i. split; [done|]. assert (Hie : i <> e) by (intros ->; by apply (Hno k Hk)). by destruct (Ho i Hie) as [-> ->].
  - intros k Hk HkF E0. rewrite Ht. destruct (decide (k = j)); [by subst|]. by apply (md_none _ _ _ Hm).
  - intros i Hi Hnew. destruct (decide (i = e)) as [->|Hie].
    + assert (E0 : tail_of m0 j = -1) by (apply (Hnew j Hj); by rewrite Ht, decide_True).
      rewrite decide_False in Hh by lia. destruct Hh as [_ ->]. apply (md_new _ _ _ Hm e He). intros k Hk E. by destruct (Hno k Hk).
    + destruct (Ho i Hie) as [_ ->]. destruct (decide (tail_of m j = Z.of_nat i)) as [Eji|Hji].
      * destruct (Hshare i Eji) as (j' & Hj' & Hne & Hin). destruct (md_tail _ _ _ Hm i _ Hi Hin) as (_ & E & E0). rewrite Nat2Z.id in E, E0.
        assert (E1 : tail_of m0 j' = -1) by (apply (Hnew j' Hj'); by rewrite Ht, decide_False). lia.
      * apply (md_new _ _ _ Hm i Hi). intros k Hk E. apply (Hnew k Hk). rewrite Ht. by rewrite decide_False by (intros ->; done).
  - intros i [Hi Hsp]. rewrite Hs in Hi. assert (Hie : i <> e).
    { intros ->. rewrite Hs in Hsp. apply (Hsp j Hj). by rewrite Ht, decide_True. }
    destruct (Ho i Hie) as [-> _]. apply (md_empty _ _ _ Hm). split; [done|]. rewrite Hs in Hsp. intros k Hk E.
    destruct (decide (k = j)) as [->|Hkj]; [|by apply (Hsp k Hk); rewrite Ht, decide_False].
    destruct (Hshare i E) as (j' & Hj' & Hne & Hin). destruct (md_tail _ _ _ Hm i _ Hi Hin) as (_ & E' & _). rewrite Nat2Z.id in E'.
    apply (Hsp j' Hj'). by rewrite Ht, decide_False.
Qed.

(** The change of a cell of the memory, for all its fields. *)
Lemma relocate_ok m j e : length (cells_of m) = rc_size m -> (j < rc_size m)%nat -> (e < rc_size m)%nat ->
  mc_seq (cells_of m !!! e) = ∅ ->
  (tail_of m j = -1 \/ exists t, (t < rc_size m)%nat /\ tail_of m j = Z.of_nat t /\ Z.of_nat j ∈ mc_seq (cells_of m !!! t)
     /\ size (mc_seq (cells_of m !!! t)) <> 1%nat) ->
  exists m', Rec.relocate m (Z.of_nat j) (tail_of m j) (Z.of_nat e) = Ret m' /\ moved_to m m' j e
    /\ rc_head m' = rc_head m.
Proof.
  intros Hl Hj He Hes [Et|(t & Ht & Et & Hin & Hsz)]; unfold Rec.relocate; rewrite Et.
  - cbn [Z.leb Z.compare mbind outcome_bind]. rewrite change_nat by lia. eexists. split; [reflexivity|]. split; [|done].
    assert (Hc : forall i, cells_of (changed m j (with_tail (Z.of_nat e))) !!! i
      = if decide (i = j) then with_tail (Z.of_nat e) (cells_of m !!! i) else cells_of m !!! i).
    { intros i. rewrite changed_cell by lia. destruct (decide (j = i)) as [<-|]; [by rewrite decide_True|by rewrite decide_False]. }
    constructor; [done|apply length_changed| | | |].
    + intros k. unfold tail_of. rewrite Hc. by destruct (decide (k = j)).
    + intros i q. rewrite Hc. rewrite (decide_False (P := Z.of_nat i = tail_of m j)) by lia.
      assert (Hs : mc_seq (if decide (i = j) then with_tail (Z.of_nat e) (cells_of m !!! i) else cells_of m !!! i) = mc_seq (cells_of m !!! i))
        by by destruct (decide (i = j)).
      rewrite Hs. destruct (decide (i = e)) as [->|]; [|done]. rewrite Hes, Et. split; [by intros ?%elem_of_empty|lia].
    + intros i _. rewrite Hc. by destruct (decide (i = j)).
    + rewrite decide_False by lia. rewrite Hc. by destruct (decide (e = j)).
  - assert (Hte : t <> e) by (intros ->; rewrite Hes in Hin; by apply elem_of_empty in Hin).
    rewrite (proj2 (Z.leb_le 0 _)), cell_nat by lia. cbn [mbind outcome_bind].
    rewrite change_nat by lia. cbn [mbind outcome_bind]. set (m1 := changed m e _).
    assert (L1 : length (cells_of m1) = rc_size m) by (unfold m1; by rewrite length_changed).
    rewrite change_nat by lia. cbn [mbind outcome_bind]. set (m2 := changed m1 t _).
    assert (L2 : length (cells_of m2) = rc_size m) by (unfold m2; by rewrite length_changed).
    rewrite change_nat by lia. cbn [mbind outcome_bind]. set (m3 := changed m2 e _).
    assert (L3 : length (cells_of m3) = rc_size m) by (unfold m3; by rewrite length_changed).
    rewrite cell_nat by lia. cbn [mbind outcome_bind].
    set (c0 := cells_of m !!! t) in *. set (c1 := with_src (mc_src c0) (with_pos (mc_pos c0) (cells_of m !!! e))).
    assert (H3 : forall i, cells_of m3 !!! i = if decide (i = e) then with_seq (mc_seq (cells_of m !!! e) ∪ {[ Z.of_nat j ]}) c1
      else if decide (i = t) then with_seq (mc_seq c0 ∖ {[ Z.of_nat j ]}) c0 else cells_of m !!! i).
    { intros i. unfold m3. rewrite changed_cell by lia. destruct (decide (e = i)) as [<-|Hi].
      - rewrite decide_True by done. unfold m2. rewrite changed_ne by done. unfold m1. by rewrite changed_eq by lia.
      - rewrite decide_False by done. unfold m2. rewrite changed_cell by lia. destruct (decide (t = i)) as [<-|Hi'].
        + rewrite decide_True by done. unfold m1. by rewrite changed_ne by done.
        + rewrite decide_False by done. unfold m1. by rewrite changed_ne by done. }
    assert (Hne : is_empty (cells_of m3 !!! t) = false).
    { apply not_true_iff_false. rewrite is_empty_spec, H3, decide_False, decide_True by done. simpl. intros E. apply Hsz.
      assert (E1 : mc_seq c0 = {[ Z.of_nat j ]}).
      { apply set_eq. intros q. rewrite elem_of_singleton. split; [|by intros ->]. intros Hq. destruct (decide (q = Z.of_nat j)); [done|].
        assert (Hq' : q ∈ mc_seq c0 ∖ {[Z.of_nat j]}) by set_solver. rewrite E in Hq'. by apply elem_of_empty in Hq'. }
      rewrite E1. apply size_singleton. }
    rewrite Hne. cbn [negb c_assert mbind outcome_bind]. rewrite change_nat by lia. eexists. split; [reflexivity|]. split; [|done].
    set (m4 := changed m3 j _).
    assert (H4 : forall i, mc_seq (cells_of m4 !!! i) = mc_seq (cells_of m3 !!! i) /\ mc_pos (cells_of m4 !!! i) = mc_pos (cells_of m3 !!! i)
      /\ mc_src (cells_of m4 !!! i) = mc_src (cells_of m3 !!! i)
      /\ mc_tail (cells_of m4 !!! i) = if decide (i = j) then Z.of_nat e else mc_tail (cells_of m3 !!! i)).
    { intros i. unfold m4. rewrite changed_cell by lia. destruct (decide (j = i)) as [<-|]; [by rewrite decide_True|by rewrite decide_False]. }
    constructor; [done|unfold m4; rewrite length_changed; congruence| | | |].
    + intros k. unfold tail_of. destruct (H4 k) as (_ & _ & _ & ->). destruct (decide (k = j)); [done|]. rewrite H3.
      destruct (decide (k = e)) as [->|]; [done|]. by destruct (decide (k = t)) as [->|].
    + intros i q. destruct (H4 i) as (-> & _). rewrite H3. destruct (decide (i = e)) as [->|Hie].
      * simpl. rewrite Hes. split; [intros [Hx%elem_of_empty|Hx%elem_of_singleton]%elem_of_union; [done|split; [lia|done]]|].
        intros [_ ->]. apply elem_of_union. right. by apply elem_of_singleton.
      * destruct (decide (i = t)) as [->|Hit].
        -- rewrite decide_True by lia. simpl. fold c0. rewrite elem_of_difference, elem_of_singleton. done.
        -- by rewrite decide_False by lia.
    + intros i Hie. destruct (H4 i) as (_ & -> & -> & _). rewrite H3, decide_False by done. by destruct (decide (i = t)) as [->|].
    + rewrite decide_True by lia. destruct (H4 e) as (_ & -> & -> & _). rewrite H3, decide_True by done. rewrite Et, Nat2Z.id. done.
Qed.

(** A cell that the claim leaves does not become empty. *)
Lemma moved_empty m m' q e i z : moved_to m m' q e -> i <> e ->
  (forall i, tail_of m q = Z.of_nat i -> exists j', (j' < rc_size m)%nat /\ j' <> q /\ Z.of_nat j' ∈ mc_seq (cells_of m !!! i)) ->
  mc_seq (cells_of m' !!! i) = ∅ -> z ∉ mc_seq (cells_of m !!! i).
Proof.
  intros Hmv Hie Hshare E Hz. destruct (decide (Z.of_nat i = tail_of m q)) as [Eq|Eq].
  - destruct (Hshare i (eq_sym Eq)) as (j' & Hj' & Hne & Hin). apply (not_elem_of_empty (C := gset Z) (Z.of_nat j')). rewrite <- E.
    apply (mv_seq _ _ _ _ Hmv). rewrite decide_False, decide_True by done. split; [done|lia].
  - apply (not_elem_of_empty (C := gset Z) z). rewrite <- E. apply (mv_seq _ _ _ _ Hmv). by rewrite decide_False, decide_False by done.
Qed.

(** ** The order of the search *)

(** The distance from [e0] on the way round. *)
Definition dist m (e0 : Z) i : Z := (Z.of_nat i - e0) mod Z.of_nat (rc_size m).

Lemma dist_range m e0 i : (0 < rc_size m)%nat -> 0 <= dist m e0 i < Z.of_nat (rc_size m).
Proof. intros H. apply Z.mod_pos_bound. lia. Qed.

Lemma around_dist m e0 e i : (i < rc_size m)%nat ->
  around m (Z.of_nat e) (dist m e0 i - dist m e0 e) = Z.of_nat i.
Proof.
  intros Hi. unfold around, dist. set (n := Z.of_nat (rc_size m)).
  replace (Z.of_nat e + ((Z.of_nat i - e0) mod n - (Z.of_nat e - e0) mod n))
    with ((Z.of_nat e + (Z.of_nat i - e0) mod n) - (Z.of_nat e - e0) mod n) by lia.
  rewrite Zminus_mod_idemp_r. replace (Z.of_nat e + (Z.of_nat i - e0) mod n - (Z.of_nat e - e0))
    with (e0 + (Z.of_nat i - e0) mod n) by lia.
  rewrite Zplus_mod_idemp_r. replace (e0 + (Z.of_nat i - e0)) with (Z.of_nat i) by lia. apply Z.mod_small. lia.
Qed.

Lemma dist_around m e0 e d : (0 < rc_size m)%nat -> 0 <= dist m e0 e + d < Z.of_nat (rc_size m) ->
  dist m e0 (Z.to_nat (around m (Z.of_nat e) d)) = dist m e0 e + d.
Proof.
  intros Hn Hd. pose proof (around_range m (Z.of_nat e) d Hn) as Hr. unfold dist at 1. rewrite Z2Nat.id by lia.
  unfold around. rewrite Zminus_mod_idemp_l. replace (Z.of_nat e + d - e0) with ((Z.of_nat e - e0) + d) by lia.
  rewrite <- Zplus_mod_idemp_l. fold (dist m e0 e). by apply Z.mod_small.
Qed.

Lemma dist_inj m e0 i j : (i < rc_size m)%nat -> (j < rc_size m)%nat -> dist m e0 i = dist m e0 j -> i = j.
Proof.
  intros Hi Hj E. pose proof (around_dist m e0 j i Hi) as H. rewrite E, Z.sub_diag in H. unfold around in H.
  rewrite Z.add_0_r, Z.mod_small in H by lia. lia.
Qed.

(** [nx] is the next spare cell from [e0] on, when there is one. *)
Definition next_ok m (nx : Z) : Prop := exists e0, forall i, spare m i -> exists e, nx = Z.of_nat e /\ spare m e
  /\ forall k, (k < rc_size m)%nat -> (spare m k -> dist m e0 e <= dist m e0 k)
       /\ (mc_seq (cells_of m !!! k) = ∅ -> spare m k \/ dist m e0 k < dist m e0 e).

(** At the start only spare cells are empty. *)
Lemma next_start m nx : rec_ok m -> (forall i, (i < rc_size m)%nat -> mc_seq (cells_of m !!! i) = ∅ ->
    0 <= nx < Z.of_nat (rc_size m) /\ empty_at m nx) -> next_ok m nx.
Proof.
  intros Hok Hnx. pose proof (mid_start m [] Hok) as Hm.
  assert (Hsp : forall k, (k < rc_size m)%nat -> mc_seq (cells_of m !!! k) = ∅ -> spare m k).
  { intros k Hk E. split; [done|]. intros j Hj Et. destruct (ro_back m Hok j Hj) as [E1|(i & Hi & E1 & Hin)]; unfold tail_of in Et; [lia|].
    assert (i = k) as -> by lia. rewrite E in Hin. by apply elem_of_empty in Hin. }
  exists nx. intros i Hi. destruct (Hnx i) as [Hr He]; [by destruct Hi|by apply (spare_seq m [] m i Hm)|].
  exists (Z.to_nat nx). split; [lia|]. split; [apply Hsp; [lia|done]|]. intros k Hk. split; [|intros E; left; by apply Hsp].
  intros _. assert (E0 : dist m nx (Z.to_nat nx) = 0).
  { unfold dist. rewrite Z2Nat.id, Z.sub_diag by lia. apply Z.mod_0_l. lia. }
  rewrite E0. apply dist_range. lia.
Qed.

(** After a claim the search goes on behind the claimed cell. *)
Lemma next_step m m' j e : (e < rc_size m)%nat -> length (cells_of m) = rc_size m -> moved_to m m' j e -> spare m e ->
  next_ok m (Z.of_nat e) ->
  (forall i, i <> e -> mc_seq (cells_of m' !!! i) = ∅ -> mc_seq (cells_of m !!! i) = ∅) ->
  (forall i, spare m' i <-> spare m i /\ i <> e) -> (forall i, spare m' i -> mc_seq (cells_of m' !!! i) = ∅) ->
  exists nx, Rec.scan_next (rc_size m') m' (Z.of_nat e) = Ret nx /\ next_ok m' nx.
Proof.
  intros He Hl [Hs Hl' _ _ _ _] Hse [e0 Hnx] Hsub Hsp Hspe. destruct (Hnx e Hse) as (e' & Ee & _ & Hord).
  assert (e' = e) as -> by lia.
  destruct (scan_next_ok m' ltac:(congruence) (rc_size m') (Z.of_nat e)) as (r & -> & Hr & H); [lia|].
  exists r. split; [done|]. exists e0. intros i Hi. pose proof (proj1 (Hsp i) Hi) as [Hi' Hie].
  assert (Hdist : forall k, dist m' e0 k = dist m e0 k) by (intros k; unfold dist; by rewrite Hs).
  assert (Haround : forall d, around m' (Z.of_nat e) d = around m (Z.of_nat e) d) by (intros d; unfold around; by rewrite Hs).
  assert (Hd : forall k, spare m' k -> 1 <= dist m e0 k - dist m e0 e < Z.of_nat (rc_size m)).
  { intros k Hk. pose proof (proj1 (Hsp k) Hk) as [[Hk1 Hk2] Hk3].
    assert (dist m e0 e <= dist m e0 k) by (by apply (Hord k Hk1)).
    assert (dist m e0 e <> dist m e0 k) by (intros E; apply Hk3; symmetry; by apply (dist_inj m e0)).
    pose proof (dist_range m e0 k ltac:(lia)). pose proof (dist_range m e0 e ltac:(lia)). lia. }
  assert (Hat : forall k, spare m' k -> empty_at m' (around m' (Z.of_nat e) (dist m e0 k - dist m e0 e))).
  { intros k Hk. pose proof (proj1 (Hsp k) Hk) as [[Hk1 _] _]. rewrite Haround, around_dist by done. unfold empty_at. rewrite Nat2Z.id. by apply Hspe. }
  destruct H as [(d & Hdr & Er & Hem & Hno)|H].
  2: { exfalso. apply (H (dist m e0 i - dist m e0 e)); [rewrite Hs; pose proof (Hd i Hi); lia|by apply Hat]. }
  assert (Hmin : forall k, spare m' k -> d <= dist m e0 k - dist m e0 e).
  { intros k Hk. destruct (decide (d <= dist m e0 k - dist m e0 e)) as [|Hgt]; [done|]. exfalso.
    pose proof (Hd k Hk). apply (Hno (dist m e0 k - dist m e0 e)); [lia|by apply Hat]. }
  pose proof (Hmin i Hi) as Hdi. pose proof (dist_range m e0 i ltac:(lia)) as Hri. pose proof (dist_range m e0 e ltac:(lia)) as Hre.
  assert (Hdr' : dist m e0 (Z.to_nat r) = dist m e0 e + d) by (rewrite Er, Haround; apply dist_around; lia).
  assert (Hrne : Z.to_nat r <> e) by (intros E; rewrite E in Hdr'; lia).
  assert (Hrs : spare m (Z.to_nat r)).
  { destruct (Hord (Z.to_nat r)) as [_ Hc]; [lia|]. destruct Hc as [Hc|Hc]; [by apply Hsub|done|lia]. }
  exists (Z.to_nat r). split; [lia|]. split; [by apply Hsp|]. intros k Hk. rewrite Hs in Hk. rewrite !Hdist. split.
  - intros Hk'. pose proof (Hmin k Hk'). lia.
  - intros Ek. destruct (decide (k = e)) as [->|Hke]; [right; lia|]. destruct (Hord k Hk) as [_ Hc].
    destruct Hc as [Hc|Hc]; [by apply Hsub|left; by apply Hsp|right; lia].
Qed.

(** ** All claims *)

Section Claims.
Context {E : Type} (u : llama_ubatch E) (m0 : llama_memory_recurrent) (F : list nat).
Hypotheses (Hok0 : rec_ok m0) (HFn : u_n_seqs u = length F) (HF : NoDup F)
  (HFr : forall q, q ∈ F -> (q < rc_size m0)%nat)
  (Hfirst : forall k q, F !! k = Some q -> Rec.first_id u k = Ret (Z.of_nat q)).

(** The sequences before number [k] have their cells, in the range of [cl]. *)
Record claimed k m (cl : Rec.claims) : Prop := {
  cd_mid : mid m0 F m;
  cd_rest x q : (k <= x)%nat -> F !! x = Some q -> tail_of m q = tail_of m0 q;
  cd_own x q : (x < k)%nat -> F !! x = Some q -> exists i, owner m q i /\ Rec.cl_min cl <= Z.of_nat i <= Rec.cl_max cl;
  cd_out i : (i < rc_size m)%nat -> (forall x q, (x < k)%nat -> F !! x = Some q -> tail_of m q <> Z.of_nat i) ->
    mc_src (cells_of m !!! i) = mc_src (cells_of m0 !!! i) /\ (mc_seq (cells_of m !!! i) = ∅ -> mc_seq (cells_of m0 !!! i) = ∅);
  cd_min : 0 <= Rec.cl_min cl < Z.of_nat (rc_size m);
  cd_max : 0 <= Rec.cl_max cl < Z.of_nat (rc_size m);
  cd_head : rc_head m = rc_head m0;
  cd_next : (k < length F)%nat -> next_ok m (Rec.cl_next cl);
}.

(** The range grows to hold the tail of the sequence. *)
Lemma widen mn mx t : let mn' := if t <? mn then t else mn in let mx' := if mx <? t then t else mx in
  mn' <= t <= mx' /\ (mn' <= mn /\ (mn' = t \/ mn' = mn)) /\ mx <= mx' /\ (mx' = t \/ mx' = mx).
Proof. destruct (Z.ltb_spec t mn), (Z.ltb_spec mx t); lia. Qed.

(** The sequence keeps the cell it has alone. *)
Lemma claim_keep k m cl q t : claimed k m cl -> F !! k = Some q -> (t < rc_size m)%nat -> tail_of m q = Z.of_nat t ->
  mc_seq (cells_of m !!! t) = {[ Z.of_nat q ]} ->
  let mn := if Z.of_nat t <? Rec.cl_min cl then Z.of_nat t else Rec.cl_min cl in
  let mx := if Rec.cl_max cl <? Z.of_nat t then Z.of_nat t else Rec.cl_max cl in
  claimed (S k) m (Rec.mk_claims (Rec.cl_next cl) mn mx).
Proof.
  intros Hc Hq Ht Et Hs mn mx. pose proof (widen (Rec.cl_min cl) (Rec.cl_max cl) (Z.of_nat t)) as (H1 & H2 & H3).
  fold mn mx in H1, H2, H3. destruct Hc as [Hm Hrest Hown Hout Hmn Hmx Hh Hnx]. constructor; simpl; try done.
  - intros x q' Hx. apply Hrest. lia.
  - intros x q' Hx Hq'. destruct (decide (x = k)) as [->|Hne].
    + assert (q' = q) as -> by congruence. exists t. split; [by split_and!; [| |left]|lia].
    + destruct (Hown x q') as (i & Hi & Hr); [lia|done|]. exists i. split; [done|lia].
  - intros i Hi Hno. apply Hout; [done|]. intros x q' Hx. apply Hno. lia.
  - lia.
  - lia.
  - intros Hk. apply Hnx. lia.
Qed.

(** The sequence moves to a spare cell. *)
Lemma claim_move k m m' cl q e nx : claimed k m cl -> F !! k = Some q -> (q < rc_size m)%nat -> spare m e ->
  moved_to m m' q e -> mid m0 F m' -> rc_head m' = rc_head m ->
  (forall i, tail_of m q = Z.of_nat i -> exists j', (j' < rc_size m)%nat /\ j' <> q /\ Z.of_nat j' ∈ mc_seq (cells_of m !!! i)) ->
  ((S k < length F)%nat -> next_ok m' nx) ->
  let mn := if Z.of_nat e <? Rec.cl_min cl then Z.of_nat e else Rec.cl_min cl in
  let mx := if Rec.cl_max cl <? Z.of_nat e then Z.of_nat e else Rec.cl_max cl in
  claimed (S k) m' (Rec.mk_claims nx mn mx).
Proof.
  intros Hc Hq Hqn He Hmv Hm' Hh' Hshare Hnx' mn mx. pose proof (widen (Rec.cl_min cl) (Rec.cl_max cl) (Z.of_nat e)) as (H1 & H2 & H3).
  fold mn mx in H1, H2, H3. destruct Hc as [Hm Hrest Hown Hout Hmn Hmx Hh _]. pose proof Hmv as [Hs Hl Ht Hsq Ho _].
  destruct He as [He Hno]. assert (Hother : forall x q', x <> k -> F !! x = Some q' -> q' <> q).
  { intros x q' Hx Hq' ->. apply Hx. eapply NoDup_lookup; done. }
  constructor; simpl; rewrite ?Hs; try done.
  - intros x q' Hx Hq'. rewrite Ht, decide_False; [apply (Hrest x); [lia|done]|]. apply (Hother x); [lia|done].
  - intros x q' Hx Hq'. destruct (decide (x = k)) as [->|Hne].
    + assert (q' = q) as -> by congruence. exists e. split; [|lia]. split; [by rewrite Hs|]. split; [by rewrite Ht, decide_True|].
      destruct (decide (0 <= tail_of m q)) as [Hp|Hp]; [left|right]; apply set_eq; intros z; rewrite Hsq, decide_True by done.
      * rewrite elem_of_singleton. by split; [intros [_ ->]|].
      * split; [by intros [? _]|by intros ?%elem_of_empty].
    + destruct (Hown x q') as (i & (Hi & Ei & Hseq) & Hr); [lia|done|]. exists i. split; [|lia].
      assert (Hqq : q' <> q) by by apply (Hother x). assert (Hq'n : (q' < rc_size m)%nat).
      { rewrite (md_size _ _ _ Hm). apply HFr. by eapply list_elem_of_lookup_2. }
      split; [by rewrite Hs|]. split; [by rewrite Ht, decide_False|].
      assert (Hie : i <> e) by (intros ->; by apply (Hno q')).
      assert (Hiq : Z.of_nat i <> tail_of m q).
      { intros Eq. apply Hqq. symmetry. eapply owner_unique; [exact Hm|exact Hq'n|exact Hqn| |by symmetry]. by split. }
      assert (Hsame : mc_seq (cells_of m' !!! i) = mc_seq (cells_of m !!! i)).
      { apply set_eq. intros z. by rewrite Hsq, decide_False, decide_False by done. }
      by rewrite Hsame.
  - intros i Hi Hni. assert (Hie : i <> e).
    { intros ->. apply (Hni k q); [lia|done|]. by rewrite Ht, decide_True. }
    destruct (Ho i Hie) as [_ ->]. destruct (Hout i Hi) as [-> Hemp].
    { intros x q' Hx Hq'. pose proof (Hni x q' ltac:(lia) Hq') as H. rewrite Ht, decide_False in H; [done|]. apply (Hother x); [lia|done]. }
    split; [done|]. intros Ee. apply Hemp, set_eq. intros z. split; [|by intros ?%elem_of_empty]. intros Hz.
    apply (moved_empty m m' q e i z Hmv Hie Hshare Ee) in Hz. done.
  - lia.
  - lia.
  - congruence.
Qed.

(** A sequence without a cell of its own finds a spare one. *)
Lemma spare_exists k m cl q : claimed k m cl -> (q < rc_size m)%nat ->
  (forall i, tail_of m q = Z.of_nat i -> exists j', (j' < rc_size m)%nat /\ j' <> q /\ Z.of_nat j' ∈ mc_seq (cells_of m !!! i)) ->
  exists i, spare m i.
Proof.
  intros Hc Hq Hshare. pose proof (cd_mid _ _ _ Hc) as Hm. destruct (spare_cell (tail_of m) (rc_size m) q Hq) as (i & Hi & Hno).
  - destruct (tail_case _ _ _ q Hm Hq) as [E1|(i & Hi & E1)]; [by left|right].
    destruct (Hshare i E1) as (j' & Hj' & Hne & Hin). destruct (md_tail _ _ _ Hm i _ Hi Hin) as (_ & E2 & _). rewrite Nat2Z.id in E2.
    exists j'. split_and!; [done|done|congruence].
  - exists i. by split.
Qed.

Lemma claim_ok k m cl q : claimed k m cl -> F !! k = Some q ->
  exists m' cl', Rec.claim u (m, cl) k = Ret (m', cl') /\ claimed (S k) m' cl'.
Proof.
  intros Hc Hq. pose proof (cd_mid _ _ _ Hc) as Hm. pose proof (md_len _ _ _ Hm) as Hl.
  assert (Hqn : (q < rc_size m)%nat) by (rewrite (md_size _ _ _ Hm); apply HFr; by eapply list_elem_of_lookup_2).
  unfold Rec.claim. rewrite (Hfirst k q Hq). cbn [mbind outcome_bind]. rewrite cell_nat by lia. cbn [mbind outcome_bind].
  fold (tail_of m q). pose proof (cd_rest _ _ _ Hc k q ltac:(lia) Hq) as Hrest.
  (* the old cell *)
  assert (Hold : tail_of m q = -1 \/ exists t, (t < rc_size m)%nat /\ tail_of m q = Z.of_nat t /\ Z.of_nat q ∈ mc_seq (cells_of m !!! t)).
  { destruct (md_back _ _ _ Hm q Hqn) as [E1|(t & Ht & E1 & [Hin|(_ & _ & E2 & _)])]; [by left|right; by exists t|lia]. }
  (* moving to a spare cell *)
  assert (Hmove : (forall i, tail_of m q = Z.of_nat i -> exists j', (j' < rc_size m)%nat /\ j' <> q /\ Z.of_nat j' ∈ mc_seq (cells_of m !!! i)) ->
    (tail_of m q = -1 \/ exists t, (t < rc_size m)%nat /\ tail_of m q = Z.of_nat t /\ Z.of_nat q ∈ mc_seq (cells_of m !!! t)
       /\ size (mc_seq (cells_of m !!! t)) <> 1%nat) ->
    exists m' cl', ('(m, next) ← (c ← Rec.cell m (Rec.cl_next cl);
        c_assert (is_empty c) "empty_cell.is_empty()";;
        m ← Rec.relocate m (Z.of_nat q) (tail_of m q) (Rec.cl_next cl);
        next ← (if (S k <? u_n_seqs u)%nat then Rec.scan_next (rc_size m) m (Rec.cl_next cl) else Ret (Rec.cl_next cl));
        Ret (m, next));
      t ← Rec.cell m (Z.of_nat q);
      Ret (m, Rec.mk_claims next (if mc_tail t <? Rec.cl_min cl then mc_tail t else Rec.cl_min cl)
                         (if Rec.cl_max cl <? mc_tail t then mc_tail t else Rec.cl_max cl))) = Ret (m', cl')
      /\ claimed (S k) m' cl').
  { intros Hshare Ht. destruct (spare_exists k m cl q Hc Hqn Hshare) as [i Hi].
    pose proof (lookup_lt_Some _ _ _ Hq) as Hk.
    destruct (cd_next _ _ _ Hc Hk) as [e0 Hnx]. destruct (Hnx i Hi) as (e & Ecl & He & Hord). pose proof (spare_seq m0 F m e Hm He) as Hes. rewrite Ecl.
    rewrite cell_nat by (destruct He; lia). cbn [mbind outcome_bind]. rewrite (proj2 (is_empty_spec _) Hes). cbn [c_assert mbind outcome_bind].
    destruct (relocate_ok m q e Hl Hqn ltac:(by destruct He) Hes Ht) as (m' & -> & Hmv & Hh'). cbn [mbind outcome_bind].
    pose proof (moved_mid m0 F m m' q e Hm Hqn ltac:(by eapply list_elem_of_lookup_2) He Hmv Hrest Hshare) as Hm'.
    pose proof Hmv as [Hs' Hl' Ht' _ _ _]. rewrite HFn.
    assert (Hnx' : exists nx, (if (S k <? length F)%nat then Rec.scan_next (rc_size m') m' (Z.of_nat e) else Ret (Z.of_nat e)) = Ret nx
      /\ ((S k < length F)%nat -> next_ok m' nx)).
    { destruct (Nat.ltb_spec (S k) (length F)) as [Hlt|Hge]; [|exists (Z.of_nat e); split; [done|lia]].
      destruct (next_step m m' q e) as (nx & E1 & E2); try done; [by destruct He|rewrite <- Ecl; by exists e0| | | |by exists nx].
      - intros i' Hie E'. apply set_eq. intros z. split; [|by intros ?%elem_of_empty]. intros Hz.
        by apply (moved_empty m m' q e i' z Hmv Hie Hshare E') in Hz.
      - intros i'. split.
        + intros [Hi' Hno]. rewrite Hs' in *. assert (Hie : i' <> e) by (intros ->; apply (Hno q Hqn); by rewrite Ht', decide_True).
          split; [|done]. split; [done|]. intros j Hj Ej. destruct (decide (j = q)) as [->|Hjq].
          * destruct (Hshare i' Ej) as (j' & Hj' & Hne & Hin). destruct (md_tail _ _ _ Hm i' _ Hi' Hin) as (_ & E2 & _).
            rewrite Nat2Z.id in E2. apply (Hno j' Hj'). by rewrite Ht', decide_False.
          * apply (Hno j Hj). by rewrite Ht', decide_False.
        + intros [[Hi' Hno] Hie]. split; [by rewrite Hs'|]. rewrite Hs'. intros j Hj. rewrite Ht'.
          destruct (decide (j = q)); [lia|by apply Hno].
      - intros i' Hi'. by apply (spare_seq m0 F m'). }
    destruct Hnx' as (nx & -> & Hnx'). cbn [mbind outcome_bind]. rewrite cell_nat by (rewrite Hl'; lia). cbn [mbind outcome_bind].
    fold (tail_of m' q). rewrite Ht', decide_True by done. eexists _, _. split; [reflexivity|].
    by apply (claim_move k m m' cl q e nx). }
  destruct Hold as [Et|(t & Ht & Et & Hin)].
  { rewrite Et in *. cbn [Z.leb Z.compare mbind outcome_bind]. apply Hmove; [lia|by left]. }
  rewrite Et. rewrite (proj2 (Z.leb_le 0 _)), cell_nat by lia. cbn [mbind outcome_bind].
  rewrite (proj2 (has_seq_id_spec _ _) Hin). cbn [c_assert mbind outcome_bind].
  destruct (Nat.eqb_spec (size (mc_seq (cells_of m !!! t))) 1) as [Es|Es]; cbn iota.
  - cbn [mbind outcome_bind]. rewrite cell_nat by lia. cbn [mbind outcome_bind]. fold (tail_of m q). rewrite Et.
    eexists _, _. split; [reflexivity|]. apply (claim_keep k m cl q t); try done.
    apply size_1_elem_of in Es as [z Ez]. fold_leibniz. rewrite Ez in *. apply elem_of_singleton in Hin. by subst z.
  - rewrite Et in Hmove. apply Hmove; [|right; by exists t]. intros i Ei. assert (i = t) as -> by lia.
    destruct (set_choose_or_empty (mc_seq (cells_of m !!! t) ∖ {[ Z.of_nat q ]})) as [(z & Hz)|Hno].
    + apply elem_of_difference in Hz as [Hz Hne]. rewrite elem_of_singleton in Hne.
      destruct (md_tail _ _ _ Hm t z Ht Hz) as (Hr & _). exists (Z.to_nat z). rewrite Z2Nat.id by lia. split_and!; [lia|lia|done].
    + exfalso. apply Es. assert (Ez : mc_seq (cells_of m !!! t) = {[ Z.of_nat q ]}).
      { apply set_eq. intros z. rewrite elem_of_singleton. split; [|by intros ->]. intros Hz. destruct (decide (z = Z.of_nat q)); [done|].
        exfalso. apply (not_elem_of_empty (C := gset Z) z), Hno, elem_of_difference. by rewrite elem_of_singleton. }
      rewrite Ez. apply size_singleton.
Qed.

(** The claims of all sequences. *)
Lemma claims_ok nx : (0 < length F)%nat -> next_ok m0 nx -> exists m cl,
  foldM (Rec.claim u) (m0, Rec.mk_claims nx (Z.of_nat (rc_size m0) - 1) 0) (seq 0 (u_n_seqs u)) = Ret (m, cl)
  /\ claimed (length F) m cl.
Proof.
  intros Hpos Hnx. assert (Hsz : (0 < rc_size m0)%nat).
  { destruct (lookup_lt_is_Some_2 F 0 Hpos) as [q Hq]. pose proof (HFr q ltac:(by eapply list_elem_of_lookup_2)). lia. }
  rewrite HFn. destruct (foldM_interval (Rec.claim u) (fun k acc => claimed k acc.1 acc.2)
    (m0, Rec.mk_claims nx (Z.of_nat (rc_size m0) - 1) 0) (length F)) as ([m cl] & -> & Hc); [| |by exists m, cl].
  - constructor; simpl; try done; try lia. by apply mid_start.
  - intros k [m cl] Hk Hc. destruct (lookup_lt_is_Some_2 F k Hk) as [q Hq].
    destruct (claim_ok k m cl q Hc Hq) as (m' & cl' & E1 & Hc'). by exists (m', cl').
Qed.

End Claims.
