(* ===== verification/RecurrentStage.v ===== *)
(** * Finding a slot in the recurrent memory: the claimed cells are brought next
    to each other, and the sources of the states are recorded. *)

From S2P Require Import Prelude KvCells Batch KvCache KvCacheFacts KvContext Decode Recurrent RecurrentFacts RecurrentSteps.
From S2P Require Import RecurrentSlot.
From Stdlib Require Import Lia.

Implicit Types (m : llama_memory_recurrent) (c : mem_cell) (s i j : nat) (p : Z).

(** A change of every cell. *)
Lemma change_all m (f : mem_cell -> mem_cell) : length (cells_of m) = rc_size m ->
  exists m', foldM (fun m j => Rec.change m (Z.of_nat j) f) m (seq 0 (rc_size m)) = Ret m'
    /\ rc_size m' = rc_size m /\ rc_head m' = rc_head m /\ length (cells_of m') = rc_size m
    /\ forall j, (j < rc_size m)%nat -> cells_of m' !!! j = f (cells_of m !!! j).
Proof.
  intros Hl. destruct (foldM_interval (fun m j => Rec.change m (Z.of_nat j) f)
    (fun k m' => rc_size m' = rc_size m /\ rc_head m' = rc_head m /\ length (cells_of m') = rc_size m
      /\ forall j, (j < rc_size m)%nat -> cells_of m' !!! j = if decide (j < k)%nat then f (cells_of m !!! j) else cells_of m !!! j)
    m (rc_size m)) as (m' & E & H1 & H2 & H3 & H4).
  - by split_and!.
  - intros k m' Hk (H1 & H2 & H3 & H4). rewrite change_nat by lia. eexists. split; [reflexivity|]. rewrite length_changed.
    split_and!; try done. intros j Hj. rewrite changed_cell by lia. destruct (decide (k = j)) as [->|Hkj].
    + by rewrite H4, decide_False, decide_True by lia.
    + rewrite H4 by done. destruct (decide (j < k)%nat); [by rewrite decide_True by lia|by rewrite decide_False by lia].
  - exists m'. split; [done|]. split_and!; try done. intros j Hj. by rewrite H4, decide_True.
Qed.

(** ** Exchanging two cells *)

(** The transposition of [d] and [s]. *)
Definition swapn (d s i : nat) : nat := if decide (i = s) then d else if decide (i = d) then s else i.

Lemma swapn_swapn d s i : swapn d s (swapn d s i) = i.
Proof. unfold swapn. repeat case_decide; congruence. Qed.

Lemma swapn_range d s i n : (d < n)%nat -> (s < n)%nat -> (swapn d s i < n)%nat <-> (i < n)%nat.
Proof. unfold swapn. repeat case_decide; lia. Qed.

Lemma swap_tail_nat d s i : Rec.swap_tail (Z.of_nat s) (Z.of_nat d) (Z.of_nat i) = Z.of_nat (swapn d s i).
Proof.
  unfold Rec.swap_tail, swapn. destruct (Z.eqb_spec (Z.of_nat i) (Z.of_nat s)); [by rewrite decide_True by lia|].
  rewrite decide_False by lia. destruct (Z.eqb_spec (Z.of_nat i) (Z.of_nat d)); [by rewrite decide_True by lia|].
  by rewrite decide_False by lia.
Qed.

Lemma swap_tail_none d s : Rec.swap_tail (Z.of_nat s) (Z.of_nat d) (-1) = -1.
Proof. unfold Rec.swap_tail. destruct (Z.eqb_spec (-1) (Z.of_nat s)), (Z.eqb_spec (-1) (Z.of_nat d)); lia. Qed.

Record exchanged m m' d s : Prop := {
  ex_size : rc_size m' = rc_size m;
  ex_len : length (cells_of m') = rc_size m;
  ex_head : rc_head m' = rc_head m;
  ex_seq i : (i < rc_size m)%nat -> mc_seq (cells_of m' !!! i) = mc_seq (cells_of m !!! swapn d s i);
  ex_pos i : (i < rc_size m)%nat -> mc_pos (cells_of m' !!! i) = mc_pos (cells_of m !!! swapn d s i);
  ex_src i : (i < rc_size m)%nat -> mc_src (cells_of m' !!! i) = mc_src (cells_of m !!! swapn d s i);
  ex_tail j : (j < rc_size m)%nat -> tail_of m' j = Rec.swap_tail (Z.of_nat s) (Z.of_nat d) (tail_of m j);
}.

Lemma exchange_ok m d s : length (cells_of m) = rc_size m -> (d < rc_size m)%nat -> (s < rc_size m)%nat -> d <> s ->
  exists m', Rec.exchange m (Z.of_nat d) (Z.of_nat s) = Ret m' /\ exchanged m m' d s.
Proof.
  intros Hl Hd Hs Hne. unfold Rec.exchange. rewrite !cell_nat by lia. cbn [mbind outcome_bind].
  rewrite change_nat by lia. cbn [mbind outcome_bind]. set (m1 := changed m d _).
  assert (L1 : length (cells_of m1) = rc_size m) by (unfold m1; by rewrite length_changed).
  rewrite change_nat by lia. cbn [mbind outcome_bind]. set (m2 := changed m1 s _).
  assert (L2 : length (cells_of m2) = rc_size m) by (unfold m2; by rewrite length_changed).
  change (rc_size m) with (rc_size m2).
  destruct (change_all m2 (fun c => with_tail (Rec.swap_tail (Z.of_nat s) (Z.of_nat d) (mc_tail c)) c) L2)
    as (m' & -> & H1 & H2 & H3 & H4). exists m'. split; [done|].
  assert (H5 : forall i, mc_seq (cells_of m2 !!! i) = mc_seq (cells_of m !!! swapn d s i)
    /\ mc_pos (cells_of m2 !!! i) = mc_pos (cells_of m !!! swapn d s i)
    /\ mc_src (cells_of m2 !!! i) = mc_src (cells_of m !!! swapn d s i) /\ mc_tail (cells_of m2 !!! i) = mc_tail (cells_of m !!! i)).
  { intros i. unfold m2, swapn. rewrite changed_cell by lia. destruct (decide (s = i)) as [<-|Hsi].
    - rewrite decide_True by done. unfold m1. by rewrite changed_ne.
    - rewrite decide_False by done. unfold m1. rewrite changed_cell by lia. destruct (decide (d = i)) as [<-|Hdi].
      + by rewrite decide_True by done.
      + by rewrite decide_False by done. }
  constructor; try done; intros i Hi; unfold tail_of; rewrite H4 by done; simpl; apply H5 || idtac. f_equal. apply H5.
Qed.

(** The state of the rearrangement is the same for exchanged cells. *)
Lemma exchanged_mid m0 F m m' d s : mid m0 F m -> (d < rc_size m)%nat -> (s < rc_size m)%nat -> exchanged m m' d s -> mid m0 F m'.
Proof.
  intros Hm Hd Hs [Esz Hl _ Hseq Hpos Hsrc Htl].
  assert (Hw : forall i, (i < rc_size m)%nat -> (swapn d s i < rc_size m)%nat) by (intros i Hi; by apply swapn_range).
  assert (HT : forall j i, (j < rc_size m)%nat -> tail_of m j = Z.of_nat i -> tail_of m' j = Z.of_nat (swapn d s i)).
  { intros j i Hj E. by rewrite Htl, E, swap_tail_nat. }
  assert (HN : forall j, (j < rc_size m)%nat -> tail_of m j = -1 -> tail_of m' j = -1).
  { intros j Hj E. by rewrite Htl, E, swap_tail_none. }
  assert (HT' : forall j i, (j < rc_size m)%nat -> tail_of m' j = Z.of_nat i -> tail_of m j = Z.of_nat (swapn d s i)).
  { intros j i Hj E. destruct (tail_case _ _ _ j Hm Hj) as [E1|(k & Hk & E1)].
    - apply HN in E1; [|done]. lia.
    - pose proof (HT j k Hj E1) as E2. assert (swapn d s k = i) as <- by lia. by rewrite swapn_swapn. }
  constructor; rewrite ?Esz; try done; try apply Hm.
  - intros i q Hi Hq. rewrite Hseq in Hq by done. destruct (md_tail _ _ _ Hm _ q (Hw i Hi) Hq) as (Hr & E & E0).
    split; [done|]. split; [|done]. apply HT in E; [|lia]. by rewrite swapn_swapn in E.
  - intros j Hj. destruct (md_back _ _ _ Hm j Hj) as [E|(i & Hi & E & H)]; [left; by apply HN|right].
    exists (swapn d s i). split; [by apply Hw|]. split; [by apply HT|]. rewrite Hseq, swapn_swapn by by apply Hw.
    destruct H as [H|(H1 & H2 & H3 & H4)]; [by left|right]. split_and!; try done. intros j' Hj' E'. apply H4; [done|].
    apply HT' in E'; [|done]. by rewrite swapn_swapn in E'.
  - intros j i0 Hj E0. destruct (md_some _ _ _ Hm j i0 Hj E0) as (i & E & E1 & E2). exists (swapn d s i). split; [by apply HT|].
    assert (Hi : (i < rc_size m)%nat). { destruct (tail_case _ _ _ j Hm Hj) as [E3|(k & Hk & E3)]; lia. }
    rewrite Hsrc, Hpos, swapn_swapn by by apply Hw. done.
  - intros j Hj HF E0. apply HN; [done|]. by apply (md_none _ _ _ Hm).
  - intros i Hi Hn. rewrite Hsrc by done. apply (md_new _ _ _ Hm); [by apply Hw|]. intros j Hj E. apply Hn; [done|].
    apply HT in E; [|done]. by rewrite swapn_swapn in E.
  - intros i [Hi Hn]. rewrite Esz in Hi, Hn. rewrite Hpos by done. apply (md_empty _ _ _ Hm). split; [by apply Hw|].
    intros j Hj E. apply (Hn j Hj). apply HT in E; [|done]. by rewrite swapn_swapn in E.
Qed.

Lemma exchanged_owner m m' d s j i : (d < rc_size m)%nat -> (s < rc_size m)%nat -> (j < rc_size m)%nat -> exchanged m m' d s ->
  owner m j i -> owner m' j (swapn d s i).
Proof.
  intros Hd Hs Hj [Esz _ _ Hseq _ _ Htl] (Hi & E & H). assert (Hw : (swapn d s i < rc_size m)%nat) by by apply swapn_range.
  split; [by rewrite Esz|]. rewrite Htl, E, swap_tail_nat, Hseq, swapn_swapn by done. done.
Qed.

(** ** Gathering *)

Section Gathering.
Context {E : Type} (u : llama_ubatch E) (m0 : llama_memory_recurrent) (F : list nat) (mn mx : nat).
Hypotheses (HFn : u_n_seqs u = length F) (HF : NoDup F) (HFr : forall q, q ∈ F -> (q < rc_size m0)%nat)
  (Hfirst : forall k q, F !! k = Some q -> Rec.first_id u k = Ret (Z.of_nat q))
  (Hmx : (mx < rc_size m0)%nat).

(** The first [k] sequences have their cells in order. *)
Record gathered k m : Prop := {
  ga_mid : mid m0 F m;
  ga_done x q : (x < k)%nat -> F !! x = Some q -> tail_of m q = Z.of_nat (mn + x);
  ga_own x q : F !! x = Some q -> exists i, owner m q i /\ (mn <= i <= mx)%nat;
  ga_out i : (i < rc_size m)%nat -> ~ (mn <= i <= mx)%nat -> mc_src (cells_of m !!! i) = mc_src (cells_of m0 !!! i)
    /\ (mc_seq (cells_of m !!! i) = ∅ -> mc_seq (cells_of m0 !!! i) = ∅);
  ga_head : rc_head m = rc_head m0;
}.

Lemma gathered_seq k m x q : gathered k m -> F !! x = Some q -> (q < rc_size m)%nat.
Proof. intros Hg Hq. rewrite (md_size _ _ _ (ga_mid _ _ Hg)). apply HFr. by eapply list_elem_of_lookup_2. Qed.

(** There is room in the range for all of them. *)
Lemma gathered_room k m : gathered k m -> (length F <= S mx - mn)%nat.
Proof using HF HFr.
  clear E u HFn Hfirst Hmx. intros Hg. pose proof (ga_mid _ _ Hg) as Hm. assert (Hl : length (map (fun q => tail_of m q - Z.of_nat mn) F) = length F) by apply length_map.
  rewrite <- Hl. apply range_length.
  - apply NoDup_fmap_2_strong; [|done]. intros q q' Hq Hq' Eq.
    apply list_elem_of_lookup in Hq as [x Hx]. apply list_elem_of_lookup in Hq' as [x' Hx'].
    destruct (ga_own _ _ Hg x' q' Hx') as (i & Ho & Hi). pose proof (gathered_seq _ _ _ _ Hg Hx). pose proof (gathered_seq _ _ _ _ Hg Hx').
    apply (owner_unique m0 F m q' q i Hm); try done. destruct Ho as (_ & Et & _). lia.
  - intros z Hz. apply list_elem_of_fmap in Hz as (q & -> & Hq). apply list_elem_of_lookup in Hq as [x Hx].
    destruct (ga_own _ _ Hg x q Hx) as (i & (_ & Et & _) & Hi). lia.
Qed.

Lemma gather_step k m q : gathered k m -> F !! k = Some q ->
  exists m', Rec.gather u (Z.of_nat mn) m k = Ret m' /\ gathered (S k) m'.
Proof.
  intros Hg Hq. pose proof (ga_mid _ _ Hg) as Hm. pose proof (md_len _ _ _ Hm) as Hl. pose proof (gathered_seq _ _ _ _ Hg Hq) as Hqn.
  pose proof (md_size _ _ _ Hm) as Hsz. pose proof (gathered_room k m Hg) as Hroom. pose proof (lookup_lt_Some _ _ _ Hq) as Hk.
  destruct (ga_own _ _ Hg k q Hq) as (i & Ho & Hi). pose proof Ho as (Hin & Et & _).
  assert (HS : forall P : nat -> nat -> Prop, (forall x q', (x < k)%nat -> F !! x = Some q' -> P x q') -> P k q ->
    forall x q', (x < S k)%nat -> F !! x = Some q' -> P x q').
  { intros P H1 H2 x q' Hx Hx'. destruct (decide (x = k)) as [->|Hne]; [|apply H1; [lia|done]]. assert (q' = q) as -> by congruence. done. }
  unfold Rec.gather. rewrite (Hfirst k q Hq). cbn [mbind outcome_bind]. rewrite cell_nat by lia. cbn [mbind outcome_bind].
  fold (tail_of m q). rewrite Et. destruct (Z.eqb_spec (Z.of_nat k + Z.of_nat mn) (Z.of_nat i)) as [Ei|Ei].
  - exists m. split; [done|]. constructor; try apply Hg. apply (HS (fun x q => tail_of m q = Z.of_nat (mn + x))); [apply Hg|lia].
  - replace (Z.of_nat k + Z.of_nat mn) with (Z.of_nat (mn + k)) in * by lia.
    destruct (exchange_ok m (mn + k) i Hl) as (m' & -> & Hx); [lia|done|lia|]. exists m'. split; [done|].
    pose proof (ex_size _ _ _ _ Hx) as Hsz'. constructor.
    + apply (exchanged_mid m0 F m m' (mn + k) i); [done|lia|done|done].
    + apply (HS (fun x q => tail_of m' q = Z.of_nat (mn + x))).
      * intros x q' Hxk Hq'. pose proof (gathered_seq _ _ _ _ Hg Hq') as Hq'n. rewrite (ex_tail _ _ _ _ Hx) by done.
        pose proof (ga_done _ _ Hg x q' Hxk Hq') as E'. rewrite E', swap_tail_nat. unfold swapn. rewrite decide_False, decide_False; [done|lia|].
        intros Exi. assert (q' = q) as ->; [|pose proof (NoDup_lookup F x k q HF Hq' Hq); lia].
        apply (owner_unique m0 F m q q' i Hm); try done. by rewrite E', Exi.
      * rewrite (ex_tail _ _ _ _ Hx), Et, swap_tail_nat by done. unfold swapn. by rewrite decide_True.
    + intros x q' Hq'. destruct (ga_own _ _ Hg x q' Hq') as (i' & Ho' & Hi'). exists (swapn (mn + k) i i'). split.
      * apply (exchanged_owner m); [lia|done| |done|done]. by apply (gathered_seq k m x).
      * unfold swapn. repeat case_decide; lia.
    + intros i' Hi' Hno. rewrite Hsz' in Hi'. rewrite (ex_src _ _ _ _ Hx), (ex_seq _ _ _ _ Hx) by done. unfold swapn. rewrite decide_False, decide_False by lia.
      by apply (ga_out _ _ Hg).
    + rewrite (ex_head _ _ _ _ Hx). apply Hg.
Qed.

Lemma gather_ok m : gathered 0 m -> exists m', foldM (Rec.gather u (Z.of_nat mn)) m (seq 0 (u_n_seqs u)) = Ret m'
  /\ gathered (length F) m'.
Proof.
  intros Hg. rewrite HFn. apply (foldM_interval (Rec.gather u (Z.of_nat mn)) gathered); [done|].
  intros k m' Hk Hg'. destruct (lookup_lt_is_Some_2 F k Hk) as [q Hq]. by apply (gather_step k m' q).
Qed.

End Gathering.

(** * Finding a slot in the recurrent memory: the sequences are placed in their
    cells, and the sources of the states are recorded. *)


(** ** Placing *)

(** Memories that differ in the sequences and positions of cells, and in tails. *)
Record alike m m' : Prop := {
  al_size : rc_size m' = rc_size m;
  al_len : length (cells_of m') = length (cells_of m);
  al_head : rc_head m' = rc_head m;
  al_src i : mc_src (cells_of m' !!! i) = mc_src (cells_of m !!! i);
  al_src0 i : mc_src0 (cells_of m' !!! i) = mc_src0 (cells_of m !!! i);
}.

Lemma alike_refl m : alike m m.
Proof. by constructor. Qed.

Lemma alike_trans m1 m2 m3 : alike m1 m2 -> alike m2 m3 -> alike m1 m3.
Proof. intros [] []. constructor; congruence. Qed.

Lemma alike_changed m i f : (i < length (cells_of m))%nat -> (forall c, mc_src (f c) = mc_src c /\ mc_src0 (f c) = mc_src0 c) ->
  alike m (changed m i f).
Proof.
  intros Hi Hf. constructor; try done; [by rewrite length_changed| |]; intros j; rewrite changed_cell by done;
    (destruct (decide (i = j)) as [->|]; [apply Hf|done]).
Qed.

(** The ids of a set enter cell [k]. *)
Lemma place_ids_ok m k ids : length (cells_of m) = rc_size m -> (k < rc_size m)%nat ->
  (forall q, q ∈ ids -> 0 <= q < Z.of_nat (rc_size m)) ->
  exists m', foldM (fun m j => seq_id ← at_ ids j;
      m ← Rec.change m (Z.of_nat k) (fun c => with_seq (mc_seq c ∪ {[ seq_id ]}) c);
      Rec.change m seq_id (with_tail (Z.of_nat k))) m (seq 0 (length ids)) = Ret m'
    /\ alike m m'
    /\ (forall i, mc_pos (cells_of m' !!! i) = mc_pos (cells_of m !!! i))
    /\ (forall i, mc_seq (cells_of m' !!! i) = if decide (i = k) then mc_seq (cells_of m !!! k) ∪ list_to_set ids else mc_seq (cells_of m !!! i))
    /\ (forall j, tail_of m' j = if decide (Z.of_nat j ∈ ids) then Z.of_nat k else tail_of m j).
Proof.
  intros Hl Hk Hr. match goal with |- context [foldM ?f _ _] => destruct (foldM_interval f (fun l m' => alike m m'
    /\ (forall i, mc_pos (cells_of m' !!! i) = mc_pos (cells_of m !!! i))
    /\ (forall i, mc_seq (cells_of m' !!! i) = if decide (i = k) then mc_seq (cells_of m !!! k) ∪ list_to_set (take l ids) else mc_seq (cells_of m !!! i))
    /\ (forall j, tail_of m' j = if decide (Z.of_nat j ∈ take l ids) then Z.of_nat k else tail_of m j))
    m (length ids)) as (m' & E & H) end.
  - split; [apply alike_refl|]. split; [done|]. split.
    + intros i. destruct (decide (i = k)) as [->|]; [|done]. rewrite take_0. set_solver.
    + intros j. rewrite take_0, decide_False; [done|apply not_elem_of_nil].
  - intros l m' Hlt (Ha & Hp & Hs & Ht). destruct (lookup_lt_is_Some_2 ids l Hlt) as [q Hq].
    pose proof (Hr q ltac:(by eapply list_elem_of_lookup_2)) as Hqr.
    assert (Hl' : length (cells_of m') = rc_size m) by (rewrite (al_len _ _ Ha); done).
    rewrite (proj2 (at_Ret ids l q) Hq). cbn [mbind outcome_bind]. rewrite change_nat by lia. cbn [mbind outcome_bind].
    rewrite change_Ret by (rewrite length_changed; lia). eexists. split; [reflexivity|]. split.
    { eapply alike_trans; [exact Ha|]. eapply alike_trans; [|by apply alike_changed; [rewrite length_changed; lia|]].
      by apply alike_changed; [lia|]. }
    assert (Htk : take (S l) ids = take l ids ++ [q]) by by apply take_S_r.
    rewrite Htk. set (m1 := changed m' k _).
    assert (H1 : forall i, cells_of (changed m1 (Z.to_nat q) (with_tail (Z.of_nat k))) !!! i
      = if decide (i = Z.to_nat q) then with_tail (Z.of_nat k) (cells_of m1 !!! i) else cells_of m1 !!! i).
    { intros i. rewrite changed_cell by (unfold m1; rewrite length_changed; lia).
      destruct (decide (Z.to_nat q = i)) as [<-|]; [by rewrite decide_True|by rewrite decide_False]. }
    assert (H2 : forall i, cells_of m1 !!! i = if decide (i = k) then with_seq (mc_seq (cells_of m' !!! i) ∪ {[ q ]}) (cells_of m' !!! i)
      else cells_of m' !!! i).
    { intros i. unfold m1. rewrite changed_cell by lia. destruct (decide (k = i)) as [<-|]; [by rewrite decide_True|by rewrite decide_False]. }
    split; [|split].
    + intros i. rewrite H1, H2, <- Hp. destruct (decide (i = Z.to_nat q)), (decide (i = k)); done.
    + intros i. assert (E : mc_seq (cells_of (changed m1 (Z.to_nat q) (with_tail (Z.of_nat k))) !!! i) = mc_seq (cells_of m1 !!! i)).
      { rewrite H1. by destruct (decide (i = Z.to_nat q)). }
      rewrite E, H2. clear E. destruct (decide (i = k)) as [->|]; simpl; rewrite Hs; [|by rewrite decide_False].
      rewrite decide_True by done. rewrite list_to_set_app_L. simpl. set_solver.
    + intros j. unfold tail_of. rewrite H1, H2. assert (E : mc_tail (cells_of m' !!! j) = tail_of m' j) by done.
      destruct (decide (j = Z.to_nat q)) as [->|Hjq].
      * rewrite (decide_True (P := Z.of_nat (Z.to_nat q) ∈ _)); [done|]. apply elem_of_app. right. rewrite Z2Nat.id by lia. by apply list_elem_of_singleton.
      * assert (Ht' : tail_of m' j = (if decide (Z.of_nat j ∈ take l ids ++ [q]) then Z.of_nat k else tail_of m j)).
        { rewrite Ht. destruct (decide (Z.of_nat j ∈ take l ids)) as [Hin|Hin].
          - rewrite decide_True; [done|]. apply elem_of_app. by left.
          - rewrite decide_False; [done|]. rewrite elem_of_app, list_elem_of_singleton. intros [?|?]; [done|lia]. }
        by destruct (decide (j = k)).
  - rewrite take_ge in H by done. by exists m'.
Qed.

(** ** The sequences of a ubatch *)

(** The sequence sets, and the last position of each. *)
Definition sets_of {E} (u : llama_ubatch E) : list (list Z) :=
  map (fun s => default [] (u_seq_id u !! (s * u_n_seq_tokens u)%nat)) (seq 0 (u_n_seqs u)).
Definition last_of {E} (u : llama_ubatch E) (s : nat) : Z :=
  default 0 (u_pos u !! (s * u_n_seq_tokens u + u_n_seq_tokens u - 1)%nat).

(** The ubatch has disjoint sets of sequences below [n], each with the same number of tokens. *)
Record fits {E} (n : nat) (u : llama_ubatch E) : Prop := {
  ft_eq : u_equal_seqs u = true;
  ft_seqs : (0 < u_n_seqs u)%nat;
  ft_ids s : (s < u_n_seqs u)%nat -> exists q ids, u_seq_id u !! (s * u_n_seq_tokens u)%nat = Some (q :: ids)
    /\ u_n_seq_id u !! (s * u_n_seq_tokens u)%nat = Some (Z.of_nat (S (length ids)));
  ft_pos s : (s < u_n_seqs u)%nat ->
    exists p, u_pos u !! (s * u_n_seq_tokens u + u_n_seq_tokens u - 1)%nat = Some p /\ 0 <= p;
  ft_disjoint : NoDup (concat (sets_of u));
  ft_range q : q ∈ concat (sets_of u) -> 0 <= q < Z.of_nat n;
}.

Lemma concat_lookup {A} (ls : list (list A)) x l q : ls !! x = Some l -> q ∈ l -> q ∈ concat ls.
Proof.
  intros Hx Hq. apply list_elem_of_In, in_concat. exists l. split; apply list_elem_of_In; [by eapply list_elem_of_lookup_2|done].
Qed.

Lemma concat_disjoint {A} (ls : list (list A)) x y l l' q : NoDup (concat ls) -> ls !! x = Some l -> ls !! y = Some l' ->
  q ∈ l -> q ∈ l' -> x = y.
Proof.
  revert x y. induction ls as [|h ls IH]; intros x y Hnd Hx Hy Hq Hq'; [done|]. simpl in Hnd. apply NoDup_app in Hnd as (Hh & Hd & Ht).
  destruct x as [|x], y as [|y]; simpl in *; simplify_eq; [done| | |f_equal; by apply IH].
  - exfalso. apply (Hd q Hq). by eapply concat_lookup.
  - exfalso. apply (Hd q Hq'). by eapply concat_lookup.
Qed.

Lemma concat_NoDup {A} (ls : list (list A)) x l : NoDup (concat ls) -> ls !! x = Some l -> NoDup l.
Proof.
  revert x. induction ls as [|h ls IH]; intros x Hnd Hx; [done|]. simpl in Hnd. apply NoDup_app in Hnd as (Hh & _ & Ht).
  destruct x as [|x]; simpl in Hx; [by simplify_eq|by apply (IH x)].
Qed.

Section Fits.
Context {E : Type} (n : nat) (u : llama_ubatch E) (Hu : fits n u).

Lemma sets_length : length (sets_of u) = u_n_seqs u.
Proof using. unfold sets_of. by rewrite length_map, length_seq. Qed.

Lemma sets_lookup s ids : sets_of u !! s = Some ids -> (s < u_n_seqs u)%nat
  /\ at_ (u_seq_id u) (s * u_n_seq_tokens u) = Ret ids
  /\ at_ (u_n_seq_id u) (s * u_n_seq_tokens u) = Ret (Z.of_nat (length ids)) /\ exists q, ids !! 0%nat = Some q.
Proof.
  intros H. pose proof (lookup_lt_Some _ _ _ H) as Hs. rewrite sets_length in Hs. split; [done|].
  destruct (ft_ids _ _ Hu s Hs) as (q & l & H1 & H2). unfold sets_of in H.
  rewrite list_lookup_fmap, lookup_seq_lt in H by done. simpl in H. rewrite H1 in H. simplify_eq. simpl.
  split; [by apply at_Ret|]. split; [by apply at_Ret|]. by exists q.
Qed.

Lemma set_exists s : (s < u_n_seqs u)%nat -> exists ids, sets_of u !! s = Some ids.
Proof. intros Hs. apply lookup_lt_is_Some_2. by rewrite sets_length. Qed.

Lemma set_range s ids q : sets_of u !! s = Some ids -> q ∈ ids -> 0 <= q < Z.of_nat n.
Proof. intros H Hq. apply (ft_range _ _ Hu). by eapply concat_lookup. Qed.

Lemma set_unique s s' ids ids' q : sets_of u !! s = Some ids -> sets_of u !! s' = Some ids' -> q ∈ ids -> q ∈ ids' -> s = s'.
Proof. apply concat_disjoint, (ft_disjoint _ _ Hu). Qed.

Lemma last_of_ok s : (s < u_n_seqs u)%nat ->
  at_ (u_pos u) (s * u_n_seq_tokens u + u_n_seq_tokens u - 1) = Ret (last_of u s) /\ 0 <= last_of u s.
Proof.
  intros Hs. destruct (ft_pos _ _ Hu s Hs) as (p & H & Hp). unfold last_of. rewrite H. split; [by apply at_Ret|done].
Qed.

(** The sequences of which the memory keeps the state: the first of each set. *)
Definition firsts : list nat := map (fun ids => Z.to_nat (default 0 (ids !! 0%nat))) (sets_of u).

Lemma firsts_length : u_n_seqs u = length firsts.
Proof using. unfold firsts. by rewrite length_map, sets_length. Qed.

Lemma firsts_lookup s q : firsts !! s = Some q ->
  exists ids, sets_of u !! s = Some ids /\ ids !! 0%nat = Some (Z.of_nat q) /\ (q < n)%nat.
Proof.
  unfold firsts. rewrite list_lookup_fmap. destruct (sets_of u !! s) as [ids|] eqn:H; [|done]. simpl. intros [= <-].
  destruct (sets_lookup s ids H) as (_ & _ & _ & z & Hz). rewrite Hz. simpl. exists ids. split; [done|].
  pose proof (set_range s ids z H ltac:(by eapply list_elem_of_lookup_2)). rewrite Z2Nat.id by lia. split; [done|lia].
Qed.

Lemma first_of_set s ids : sets_of u !! s = Some ids -> exists q, firsts !! s = Some q /\ ids !! 0%nat = Some (Z.of_nat q).
Proof.
  intros H. assert (Hs : is_Some (firsts !! s)).
  { apply lookup_lt_is_Some_2. rewrite <- firsts_length, <- sets_length. by apply lookup_lt_Some in H. }
  destruct Hs as [q Hq]. exists q. split; [done|]. destruct (firsts_lookup s q Hq) as (ids' & H' & H0 & _). by simplify_eq.
Qed.

Lemma first_id_ok s q : firsts !! s = Some q -> Rec.first_id u s = Ret (Z.of_nat q).
Proof.
  intros H. destruct (firsts_lookup s q H) as (ids & Hs & H0 & _). destruct (sets_lookup s ids Hs) as (_ & E1 & _).
  unfold Rec.first_id. rewrite E1. cbn [mbind outcome_bind]. by apply at_Ret.
Qed.

Lemma firsts_NoDup : NoDup firsts.
Proof.
  apply NoDup_alt. intros s s' q H H'. destruct (firsts_lookup s q H) as (ids & Hs & H0 & _).
  destruct (firsts_lookup s' q H') as (ids' & Hs' & H0' & _).
  apply (set_unique s s' ids ids' (Z.of_nat q)); try done; by eapply list_elem_of_lookup_2.
Qed.

Lemma firsts_range q : q ∈ firsts -> (q < n)%nat.
Proof. intros [s H]%list_elem_of_lookup. by destruct (firsts_lookup s q H) as (ids & _ & _ & ?). Qed.

(** ** Placing the sequences *)

(** The sets before number [k] are in their cells. *)
Record placed (mn k : nat) m m' : Prop := {
  pl_alike : alike m m';
  pl_here s ids : (s < k)%nat -> sets_of u !! s = Some ids ->
    mc_seq (cells_of m' !!! (mn + s)%nat) = list_to_set ids /\ mc_pos (cells_of m' !!! (mn + s)%nat) = last_of u s;
  pl_other i : ~ (mn <= i < mn + k)%nat ->
    mc_seq (cells_of m' !!! i) = mc_seq (cells_of m !!! i) /\ mc_pos (cells_of m' !!! i) = mc_pos (cells_of m !!! i);
  pl_tail s ids j : (s < k)%nat -> sets_of u !! s = Some ids -> Z.of_nat j ∈ ids -> tail_of m' j = Z.of_nat (mn + s);
  pl_keep j : (forall s ids, (s < k)%nat -> sets_of u !! s = Some ids -> Z.of_nat j ∉ ids) -> tail_of m' j = tail_of m j;
}.

Lemma rec_place_step mn k m m' : length (cells_of m) = rc_size m -> rc_size m = n -> (mn + u_n_seqs u <= n)%nat ->
  (k < u_n_seqs u)%nat -> placed mn k m m' -> exists m'', Rec.place u (Z.of_nat mn) m' k = Ret m'' /\ placed mn (S k) m m''.
Proof.
  intros Hl Hn Hmn Hk [Ha Hhere Hother Htail Hkeep]. destruct (set_exists k Hk) as [ids Hids].
  destruct (sets_lookup k ids Hids) as (_ & E1 & E2 & _). destruct (last_of_ok k Hk) as [E3 _].
  assert (Hl' : length (cells_of m') = rc_size m') by (rewrite (al_len _ _ Ha), (al_size _ _ Ha); done).
  assert (Hs' : rc_size m' = n) by (rewrite (al_size _ _ Ha); done).
  unfold Rec.place. rewrite E3, E2, E1. cbn [mbind outcome_bind]. rewrite Nat2Z.id.
  replace (Z.of_nat k + Z.of_nat mn) with (Z.of_nat (mn + k)) by lia. rewrite change_nat by lia. cbn [mbind outcome_bind].
  set (m1 := changed m' (mn + k) _). assert (L1 : length (cells_of m1) = rc_size m1) by (unfold m1; by rewrite length_changed).
  destruct (place_ids_ok m1 (mn + k) ids L1) as (m'' & -> & Ha1 & Hp1 & Hq1 & Ht1).
  { change (rc_size m1) with (rc_size m'). lia. }
  { intros q Hq. change (rc_size m1) with (rc_size m'). rewrite Hs'. by eapply set_range. }
  exists m''. split; [done|].
  assert (H1 : forall i, cells_of m1 !!! i = if decide (i = (mn + k)%nat) then with_seq ∅ (with_pos (last_of u k) (cells_of m' !!! i)) else cells_of m' !!! i).
  { intros i. unfold m1. rewrite changed_cell by lia. destruct (decide ((mn + k)%nat = i)) as [<-|]; [by rewrite decide_True|by rewrite decide_False]. }
  assert (HT : forall j, tail_of m1 j = tail_of m' j) by (intros j; unfold tail_of; rewrite H1; by destruct (decide (j = (mn + k)%nat))).
  constructor.
  - eapply alike_trans; [exact Ha|]. eapply alike_trans; [|exact Ha1]. apply alike_changed; [lia|done].
  - intros s ids' Hs Hids'. destruct (decide (s = k)) as [->|Hne].
    + assert (ids' = ids) as -> by congruence. rewrite Hq1, Hp1, decide_True, H1, decide_True by done. simpl. split; [set_solver|done].
    + rewrite Hq1, Hp1, decide_False, H1, decide_False by lia. apply Hhere; [lia|done].
  - intros i Hi. rewrite Hq1, Hp1, decide_False, H1, decide_False by lia. apply Hother. lia.
  - intros s ids' j Hs Hids' Hj. rewrite Ht1. destruct (decide (s = k)) as [->|Hne].
    + assert (ids' = ids) as -> by congruence. by rewrite decide_True.
    + rewrite decide_False; [|intros Hj'; apply Hne; by eapply set_unique]. rewrite HT. apply (Htail s ids'); [lia|done|done].
  - intros j Hj. rewrite Ht1, decide_False by (apply (Hj k ids); [lia|done]). rewrite HT. apply Hkeep. intros s ids' Hs. apply Hj. lia.
Qed.

Lemma place_ok mn m : length (cells_of m) = rc_size m -> rc_size m = n -> (mn + u_n_seqs u <= n)%nat ->
  exists m', foldM (Rec.place u (Z.of_nat mn)) m (seq 0 (u_n_seqs u)) = Ret m' /\ placed mn (u_n_seqs u) m m'.
Proof.
  intros Hl Hn Hmn. apply (foldM_interval _ (fun k m' => placed mn k m m')).
  - constructor; try done; lia || apply alike_refl.
  - intros k m' Hk. by apply rec_place_step.
Qed.

End Fits.

(** ** The sources of the states *)

(** How many of the first [k] cells have their state in cell [i]. *)
Definition ref_count m (k i : nat) : nat :=
  length (List.filter (fun j => mc_src (cells_of m !!! j) =? Z.of_nat i) (seq 0 k)).

Lemma ref_count_S m k i : ref_count m (S k) i = (ref_count m k i + if (mc_src (cells_of m !!! k) =? Z.of_nat i)%Z then 1 else 0)%nat.
Proof.
  unfold ref_count. rewrite seq_S, List.filter_app, length_app. simpl. by destruct (mc_src (cells_of m !!! k) =? Z.of_nat i).
Qed.

Lemma ref_count_zero m k i : ref_count m k i = 0%nat <-> forall j, (j < k)%nat -> mc_src (cells_of m !!! j) <> Z.of_nat i.
Proof.
  induction k as [|k IH]; [split; [lia|done]|]. rewrite ref_count_S. destruct (Z.eqb_spec (mc_src (cells_of m !!! k)) (Z.of_nat i)) as [E|E].
  - split; [lia|]. intros H. by destruct (H k); [lia|].
  - rewrite Nat.add_0_r, IH. split; intros H j Hj; [|apply H; lia]. destruct (decide (j = k)) as [->|]; [done|apply H; lia].
Qed.

Lemma ref_count_pos m k i : ref_count m k i <> 0%nat -> exists j, (j < k)%nat /\ mc_src (cells_of m !!! j) = Z.of_nat i.
Proof.
  intros H. destruct (decide (Exists (fun j => mc_src (cells_of m !!! j) = Z.of_nat i) (seq 0 k))) as [Hx|Hx].
  - apply Exists_exists in Hx as (j & Hj%elem_of_seq & E). exists j. split; [lia|done].
  - exfalso. apply H, ref_count_zero. intros j Hj E. apply Hx, Exists_exists. exists j. split; [apply elem_of_seq; lia|done].
Qed.

Lemma refcounts_ok m : length (cells_of m) = rc_size m ->
  (forall j, (j < rc_size m)%nat -> -1 <= mc_src (cells_of m !!! j) < Z.of_nat (rc_size m)) ->
  exists r, Rec.refcounts m = Ret r /\ length r = rc_size m
    /\ forall i, (i < rc_size m)%nat -> r !! i = Some (ref_count m (rc_size m) i).
Proof.
  intros Hl Hr. apply (foldM_interval _ (fun k r => length r = rc_size m
    /\ forall i, (i < rc_size m)%nat -> r !! i = Some (ref_count m k i))).
  - split; [apply length_replicate|]. intros i Hi. by apply lookup_replicate_2.
  - intros k r Hk [Hlr H]. rewrite cell_nat by lia. cbn [mbind outcome_bind]. specialize (Hr k Hk).
    destruct (Z.leb_spec 0 (mc_src (cells_of m !!! k))) as [Hp|Hp].
    + set (z := mc_src (cells_of m !!! k)) in *. rewrite (at_z_Ret r z (ref_count m k (Z.to_nat z))); [|done|apply H; lia].
      cbn [mbind outcome_bind]. eexists. split; [apply set_Ret; split; [lia|reflexivity]|]. split; [by rewrite length_insert|].
      intros i Hi. rewrite list_lookup_insert. rewrite ref_count_S. fold z. destruct (Z.eqb_spec z (Z.of_nat i)) as [E|E].
      * rewrite decide_True by lia. rewrite E, Nat2Z.id. f_equal. lia.
      * rewrite decide_False by lia. rewrite H by done. f_equal. lia.
    + exists r. split; [done|]. split; [done|]. intros i Hi. rewrite ref_count_S, H by done.
      destruct (Z.eqb_spec (mc_src (cells_of m !!! k)) (Z.of_nat i)); [lia|]. f_equal. lia.
Qed.

Lemma foldM_map {A B C} (f : C -> B -> outcome C) (g : A -> B) acc l : foldM f acc (map g l) = foldM (fun acc x => f acc (g x)) acc l.
Proof. revert acc. induction l as [|x l IH]; intros acc; [done|]. simpl. destruct (f acc (g x)); simpl; [apply IH|done..]. Qed.

Lemma range_nat (mn mx : nat) : Rec.range (Z.of_nat mn) (Z.of_nat mx) = map (fun k => Z.of_nat (mn + k)) (seq 0 (S mx - mn)).
Proof.
  unfold Rec.range. replace (Z.to_nat (Z.of_nat mx - Z.of_nat mn + 1)) with (S mx - mn)%nat by lia.
  apply map_ext. intros k. lia.
Qed.

Lemma find_zero_ok (f : nat -> nat) r mn mx n : (mx < n)%nat -> length r = n -> (forall i, (i < n)%nat -> r !! i = Some (f i)) ->
  exists z, Rec.find_zero r (Z.of_nat mn) (Z.of_nat mx) = Ret z
    /\ ((exists i, (mn <= i <= mx)%nat /\ z = Z.of_nat i /\ f i = 0%nat) \/ z = -1 /\ forall i, (mn <= i <= mx)%nat -> f i <> 0%nat).
Proof.
  intros Hmx Hl Hr. unfold Rec.find_zero. rewrite range_nat, foldM_map.
  match goal with |- context [foldM ?g _ _] => destruct (foldM_interval g (fun k z =>
    (exists i, (mn <= i <= mx)%nat /\ z = Z.of_nat i /\ f i = 0%nat) \/ z = -1 /\ forall i, (mn <= i < mn + k)%nat -> f i <> 0%nat)
    (-1) (S mx - mn)) as (z & E & H) end.
  - right. split; [done|lia].
  - intros k z Hk H. destruct (Z.leb_spec 0 z) as [Hz|Hz].
    + exists z. split; [done|]. destruct H as [H|[-> _]]; [by left|lia].
    + destruct H as [(i & _ & -> & _)|[-> H]]; [lia|].
      rewrite (at_z_Ret r _ (f (mn + k)%nat)); [|lia|rewrite Nat2Z.id; apply Hr; lia]. cbn [mbind outcome_bind].
      destruct (Nat.eqb_spec (f (mn + k)%nat) 0) as [E|E]; eexists; (split; [reflexivity|]).
      * left. exists (mn + k)%nat. split; [lia|done].
      * right. split; [done|]. intros i Hi. destruct (decide (i = (mn + k)%nat)) as [->|]; [done|]. apply H. lia.
  - exists z. split; [done|]. destruct H as [H|[-> H]]; [by left|right]. split; [done|]. intros i Hi. apply H. lia.
Qed.

(** When every cell of the range has a user, every cell of the range uses one. *)
Lemma all_used (src : nat -> Z) mn mx n : (mx < n)%nat ->
  (forall i, (i < n)%nat -> ~ (mn <= i <= mx)%nat -> src i = -1 \/ src i = Z.of_nat i) ->
  (forall i, (mn <= i <= mx)%nat -> exists j, (j < n)%nat /\ src j = Z.of_nat i) ->
  forall i, (mn <= i <= mx)%nat -> src i <> -1.
Proof.
  intros Hmx Hout Hall i Hi E. set (R := map (Nat.add mn) (seq 0 (S mx - mn))).
  assert (HR : forall k, k ∈ R <-> (mn <= k <= mx)%nat).
  { intros k. unfold R. rewrite list_elem_of_fmap. setoid_rewrite elem_of_seq. split; [intros (x & -> & Hx); lia|].
    intros Hk. exists (k - mn)%nat. lia. }
  assert (HRl : length R = (S mx - mn)%nat) by (unfold R; by rewrite length_map, length_seq).
  assert (Hle : (length ((-1)%Z :: map Z.of_nat R) <= length (map src R))%nat).
  { apply List.NoDup_incl_length.
    - apply NoDup_ListNoDup, NoDup_cons. split; [rewrite list_elem_of_fmap; intros (k & Ek & _); lia|].
      apply NoDup_fmap_2; [intros x y; lia|]. unfold R. apply NoDup_fmap_2; [intros x y; lia|apply NoDup_seq].
    - intros z Hz. apply list_elem_of_In. apply list_elem_of_fmap. destruct Hz as [<-|Hz].
      + exists i. split; [done|by apply HR].
      + apply list_elem_of_In, list_elem_of_fmap in Hz as (k & -> & Hk%HR). destruct (Hall k Hk) as (j & Hj & Ej).
        exists j. split; [done|]. apply HR. destruct (decide (mn <= j <= mx)%nat) as [|Hno]; [done|]. destruct (Hout j Hj Hno); lia. }
  simpl in Hle. rewrite !length_map in Hle. lia.
Qed.

(** ** Recording the sources *)

Record staged (rs_z : Z) mn mx m m' : Prop := {
  sg_size : rc_size m' = rc_size m;
  sg_len : length (cells_of m') = length (cells_of m);
  sg_head : rc_head m' = rc_head m;
  sg_cell i : cells_of m' !!! i = let c := cells_of m !!! i in
    if decide (mn <= i <= mx)%nat then mk_mem (mc_pos c) (Z.of_nat i) (if mc_src c <? 0 then rs_z else mc_src c) (mc_tail c) (mc_seq c) else c;
}.

Lemma stage_ok rs_z mn mx m : (mx < length (cells_of m))%nat ->
  (forall i, (mn <= i <= mx)%nat -> mc_src (cells_of m !!! i) < 0 -> 0 <= rs_z) ->
  exists m', foldM (Rec.stage rs_z) m (Rec.range (Z.of_nat mn) (Z.of_nat mx)) = Ret m' /\ staged rs_z mn mx m m'.
Proof.
  intros Hmx Hz. rewrite range_nat, foldM_map. destruct (decide (mn <= mx)%nat) as [Hle|Hle].
  2: { replace (S mx - mn)%nat with 0%nat by lia. exists m. split; [done|]. constructor; try done. intros i. by rewrite decide_False by lia. }
  match goal with |- context [foldM ?g _ _] => destruct (foldM_interval g (fun k m' => rc_size m' = rc_size m
    /\ length (cells_of m') = length (cells_of m) /\ rc_head m' = rc_head m /\ forall i, cells_of m' !!! i = let c := cells_of m !!! i in
    if decide (mn <= i < mn + k)%nat then mk_mem (mc_pos c) (Z.of_nat i) (if mc_src c <? 0 then rs_z else mc_src c) (mc_tail c) (mc_seq c) else c)
    m (S mx - mn)) as (m' & E & H1 & H2 & H3 & H4) end.
  - split_and!; try done. intros i. by rewrite decide_False by lia.
  - intros k m' Hk (H1 & H2 & H3 & H4). unfold Rec.stage. rewrite cell_nat by lia. cbn [mbind outcome_bind].
    set (i := (mn + k)%nat) in *. assert (Ei : cells_of m' !!! i = cells_of m !!! i) by (rewrite H4, decide_False by lia; done). rewrite Ei.
    set (v := if mc_src (cells_of m !!! i) <? 0 then rs_z else mc_src (cells_of m !!! i)).
    assert (Hv : (if mc_src (cells_of m !!! i) <? 0 then c_assert (0 <=? rs_z) "rs_z >= 0";; Rec.change m' (Z.of_nat i) (with_src0 rs_z)
      else Rec.change m' (Z.of_nat i) (with_src0 (mc_src (cells_of m !!! i)))) = Ret (changed m' i (with_src0 v))).
    { unfold v. destruct (Z.ltb_spec (mc_src (cells_of m !!! i)) 0) as [Hn|Hn]; [|apply change_nat; lia].
      rewrite (proj2 (Z.leb_le 0 rs_z)) by (apply (Hz i); [lia|done]). apply change_nat. lia. }
    rewrite Hv. cbn [mbind outcome_bind]. rewrite change_nat by (rewrite length_changed; lia). eexists. split; [reflexivity|].
    split; [done|]. split; [by rewrite !length_changed|]. split; [done|]. intros j.
    rewrite changed_cell by (rewrite length_changed; lia). rewrite !changed_cell by lia. destruct (decide (i = j)) as [<-|Hij].
    + rewrite decide_True, decide_True by lia. rewrite Ei. done.
    + rewrite H4. simpl. destruct (decide (mn <= j < i)%nat); [by rewrite decide_True by lia|by rewrite decide_False by lia].
  - exists m'. split; [done|]. constructor; try done. intros i. rewrite H4. simpl.
    destruct (decide (mn <= i <= mx)%nat); [by rewrite decide_True by lia|by rewrite decide_False by lia].
Qed.
