(* ===== verification/RecurrentFind.v ===== *)
(** * What [find_slot] of the recurrent memory does. *)

From S2P Require Import Prelude KvCells Batch KvCache KvCacheFacts KvContext Decode Recurrent RecurrentFacts RecurrentSteps RecurrentSlot RecurrentStage.
From Stdlib Require Import Lia.

Implicit Types (m : llama_memory_recurrent) (c : mem_cell) (s i j : nat) (p : Z).

(** ** The check of the ids *)

Lemma keeps_ext K K' m m' : (forall q, K q = K' q) -> keeps K m m' -> keeps K' m m'.
Proof. intros HK (H1 & H2 & H3 & H4). split_and!; try done. intros q i p. by rewrite <- HK. Qed.

Lemma keeps_all m : rec_ok m -> keeps (fun _ => true) m m.
Proof. intros H. split_and!; try done. intros q i p. split; [done|by intros [? _]]. Qed.

Lemma keeps_trans K K' m1 m2 m3 : keeps K m1 m2 -> keeps K' m2 m3 -> keeps (fun q => K q && K' q) m1 m3.
Proof.
  intros (_ & H2 & H3 & H4) (H5 & H6 & H7 & H8). split_and!; [done|congruence| |auto].
  intros q i p. rewrite H7, H3, andb_true_iff. tauto.
Qed.

(** All but the sequences of the list. *)
Definition except (l : list Z) (q : Z) : bool := negb (bool_decide (q ∈ l)).

Lemma except_true l q : except l q = true <-> q ∉ l.
Proof. unfold except. rewrite negb_true_iff. by rewrite bool_decide_eq_false. Qed.

Lemma except_app l l' q : except l q && except l' q = except (l ++ l') q.
Proof.
  apply eq_true_iff_eq. rewrite andb_true_iff, !except_true, elem_of_app. tauto.
Qed.

Lemma except_one s q : negb (q =? Z.of_nat s) = except [Z.of_nat s] q.
Proof. apply eq_true_iff_eq. rewrite except_true, list_elem_of_singleton, negb_true_iff, Z.eqb_neq. done. Qed.

Section Check.
Context {E : Type} (n : nat) (u : llama_ubatch E) (Hu : fits n u) (Hsmall : Z.of_nat n < 2 ^ 31).

(** The sequences that are not first in their set. *)
Definition joiners (l : list (list Z)) : list Z := concat (map (@tail Z) l).

Lemma check_set_ok m k ids : rec_ok m -> rc_size m = n -> sets_of u !! k = Some ids ->
  exists m', Rec.check_set u (true, m) k = Ret (true, m') /\ keeps (except (tail ids)) m m' /\ rc_head m' = rc_head m.
Proof.
  intros Hok Hn Hk. destruct (sets_lookup n u Hu k ids Hk) as (_ & E1 & E2 & q0 & Hq0).
  assert (Hlen : (length ids <= n)%nat).
  { apply range_length; [by eapply concat_NoDup; [apply Hu|]|]. intros q. by eapply set_range. }
  unfold Rec.check_set. cbn [negb fst]. rewrite E2, E1. cbn [mbind outcome_bind]. rewrite u32_small, Nat2Z.id by lia.
  destruct (foldM_interval (Rec.check_id ids) (fun l r => r.1 = true /\ keeps (except (tail (take l ids))) m r.2 /\ rc_head r.2 = rc_head m)
    (true, m) (length ids)) as ([b m'] & E3 & H1 & H2 & H3).
  - split; [done|]. split; [|done]. eapply keeps_ext; [|by apply keeps_all]. intros q. symmetry. apply except_true. rewrite take_0. apply not_elem_of_nil.
  - intros l [b m'] Hl (Hb & Hk' & Hh). cbn [fst snd] in *. subst b. destruct (lookup_lt_is_Some_2 ids l Hl) as [q Hq].
    pose proof (set_range n u Hu k ids q Hk ltac:(by eapply list_elem_of_lookup_2)) as Hqr.
    pose proof Hk' as (Hok' & Hsz & _). unfold Rec.check_id. cbn [negb]. rewrite (proj2 (at_Ret ids l q) Hq). cbn [mbind outcome_bind].
    unfold Rec.size_z. rewrite Hsz, Hn, u32_small by lia.
    assert (Hc : (q <? 0) || (Z.of_nat n <=? q) = false) by (apply orb_false_iff; split; [apply Z.ltb_ge|apply Z.leb_gt]; lia).
    rewrite Hc. rewrite (take_S_r _ _ _ Hq). destruct (Nat.ltb_spec 0 l) as [Hl0|Hl0].
    + destruct (leave_ok m' (Z.to_nat q) Hok') as (m'' & E4 & Hk'' & Hh'' & _); [lia|]. rewrite Z2Nat.id in E4 by lia. rewrite E4.
      cbn [mbind outcome_bind]. eexists. split; [reflexivity|]. cbn [fst snd]. split; [done|]. split; [|congruence].
      eapply keeps_ext; [|by eapply keeps_trans]. intros z. cbn beta. rewrite except_one, Z2Nat.id, except_app by lia.
      destruct ids as [|h ids]; [done|]. destruct l as [|l]; [lia|]. done.
    + eexists. split; [reflexivity|]. cbn [fst snd]. split; [done|]. split; [|done]. assert (l = 0)%nat as -> by lia. by rewrite take_0 in *.
  - rewrite take_ge in H2 by done. cbn [fst snd] in *. subst b. by exists m'.
Qed.

Lemma joiners_snoc l ids : joiners (l ++ [ids]) = joiners l ++ tail ids.
Proof using. unfold joiners. rewrite map_app, concat_app. simpl. by rewrite app_nil_r. Qed.

Lemma check_ids_ok m : rec_ok m -> rc_size m = n ->
  exists m', Rec.check_ids m u = Ret (true, m') /\ keeps (except (joiners (sets_of u))) m m' /\ rc_head m' = rc_head m.
Proof.
  intros Hok Hn. unfold Rec.check_ids.
  destruct (foldM_interval (Rec.check_set u) (fun k r => r.1 = true /\ keeps (except (joiners (take k (sets_of u)))) m r.2 /\ rc_head r.2 = rc_head m)
    (true, m) (u_n_seqs u)) as ([b m'] & E1 & H1 & H2 & H3).
  - split; [done|]. split; [|done]. eapply keeps_ext; [|by apply keeps_all]. intros q. symmetry. apply except_true. rewrite take_0. apply not_elem_of_nil.
  - intros k [b m'] Hk (Hb & Hk' & Hh). cbn [fst snd] in *. subst b. destruct (set_exists u k Hk) as [ids Hids].
    pose proof Hk' as (Hok' & Hsz & _). destruct (check_set_ok m' k ids Hok') as (m'' & E2 & Hk'' & Hh''); [congruence|done|].
    exists (true, m''). split; [done|]. cbn [fst snd]. split; [done|]. split; [|congruence].
    rewrite (take_S_r _ _ _ Hids), joiners_snoc. eapply keeps_ext; [|by eapply keeps_trans]. intros q. apply except_app.
  - rewrite take_ge in H2 by (by rewrite sets_length). cbn [fst snd] in *. subst b. by exists m'.
Qed.

Lemma joiner_in_sets q : q ∈ joiners (sets_of u) -> q ∈ concat (sets_of u).
Proof using.
  unfold joiners. intros (l & Hl & Hq)%list_elem_of_In%in_concat. apply in_map_iff in Hl as (ids & <- & Hids).
  apply list_elem_of_In, in_concat. exists ids. split; [done|]. destruct ids; [done|by right].
Qed.

Lemma first_not_joiner s q : firsts u !! s = Some q -> Z.of_nat q ∉ joiners (sets_of u).
Proof using Hu.
  intros Hq Hin. destruct (firsts_lookup n u Hu s q Hq) as (ids & Hids & H0 & _).
  apply list_elem_of_In, in_concat in Hin as (l & Hl & Hql). apply in_map_iff in Hl as (ids' & <- & Hids').
  apply list_elem_of_In, list_elem_of_lookup in Hids' as [s' Hs']. apply list_elem_of_In in Hql.
  assert (s = s') as <-.
  { apply (set_unique n u Hu s s' ids ids' (Z.of_nat q)); try done; [by eapply list_elem_of_lookup_2|]. destruct ids'; [done|by right]. }
  assert (ids' = ids) as -> by congruence. pose proof (concat_NoDup _ _ _ (ft_disjoint _ _ Hu) Hids) as Hnd.
  destruct ids as [|h ids]; [done|]. simpl in *. simplify_eq. by apply NoDup_cons in Hnd as [Hnd _].
Qed.

End Check.

(** ** After the search *)

(** Where the state of cell [i] is taken from. *)
Definition source m i : Z :=
  if decide (rc_head m <= Z.of_nat i < rc_head m + rc_n m) then mc_src0 (cells_of m !!! i) else Z.of_nat i.

Definition head_nat m : nat := Z.to_nat (rc_head m).

(** The memory [m'] after a slot for [u] was found in [m]. *)
Record slotted {E} (u : llama_ubatch E) m m' : Prop := {
  sl_ok : rec_ok m';
  sl_size : rc_size m' = rc_size m;
  sl_range : 0 <= rc_head m' /\ Z.of_nat (u_n_seqs u) <= rc_n m' /\ rc_head m' + rc_n m' <= Z.of_nat (rc_size m');
  sl_alone : u_n_seqs u = 1%nat -> rc_n m' = 1;
  (* the sets lie side by side, at their last positions *)
  sl_here s ids q : sets_of u !! s = Some ids -> q ∈ ids -> seq_at m' q (head_nat m' + s) (last_of u s);
  sl_main s ids q : sets_of u !! s = Some ids -> q ∈ mc_seq (cells_of m' !!! (head_nat m' + s)%nat) -> q ∈ ids;
  (* the other sequences are where they were, and their states come from there *)
  sl_other q p : q ∉ concat (sets_of u) -> (exists i', seq_at m' q i' p) <-> (exists i, seq_at m q i p);
  sl_source q i i' p p' : q ∉ concat (sets_of u) -> seq_at m q i p -> seq_at m' q i' p' ->
    source m' i' = Z.of_nat i /\ ~ (head_nat m' <= i' < head_nat m' + u_n_seqs u)%nat;
  (* a set starts from the state of its first sequence, or from nothing *)
  sl_first s q i p : firsts u !! s = Some q -> seq_at m (Z.of_nat q) i p -> source m' (head_nat m' + s) = Z.of_nat i;
  sl_fresh s q : firsts u !! s = Some q -> (forall i p, ~ seq_at m (Z.of_nat q) i p) ->
    (0 <= rc_rs_z m' /\ source m' (head_nat m' + s) = rc_rs_z m')
    \/ exists k, source m' (head_nat m' + s) = Z.of_nat k /\ idle m k;
  (* the cell to clear is not one of these states *)
  sl_rs : rc_rs_z m' = -1 \/ rc_head m' <= rc_rs_z m' < rc_head m' + rc_n m';
  sl_sources i : (head_nat m' <= i < head_nat m' + Z.to_nat (rc_n m'))%nat -> 0 <= source m' i < Z.of_nat (rc_size m);
  sl_zero q i p : seq_at m q i p -> q ∉ joiners (sets_of u) -> Z.of_nat i <> rc_rs_z m';
  sl_idle i : idle m' i -> ~ (head_nat m' <= i < head_nat m' + u_n_seqs u)%nat
    /\ ((0 <= rc_rs_z m' /\ source m' i = rc_rs_z m') \/ exists k, source m' i = Z.of_nat k /\ idle m k);
}.

(** A cell that only new sequences have gets its state from nowhere, or from an idle cell. *)
Lemma mid_src_range m1 F m3 i : rec_ok m1 -> mid m1 F m3 -> (i < rc_size m1)%nat ->
  -1 <= mc_src (cells_of m3 !!! i) < Z.of_nat (rc_size m1).
Proof.
  intros Hok Hm Hi. pose proof (md_size _ _ _ Hm) as H1.
  destruct (decide (Forall (fun j => tail_of m3 j = Z.of_nat i -> tail_of m1 j = -1) (seq 0 (rc_size m1)))) as [H|H].
  - destruct (md_new _ _ _ Hm i) as [E1|(k & E1 & Hk)]; [by rewrite H1| |lia|destruct Hk as [Hk _]; lia].
    intros j Hj. rewrite Forall_forall in H. apply H. apply elem_of_seq. lia.
  - apply not_Forall_Exists in H; [|apply _]. apply Exists_exists in H as (j & Hj%elem_of_seq & H).
    destruct (tail_case _ _ _ j Hm) as [E1|(i' & _ & E1)]; [lia|exfalso; apply H; lia|].
    destruct (ro_back m1 Hok j) as [E2|(i0 & Hi0 & E2 & _)]; [lia|by exfalso; apply H|].
    destruct (md_some _ _ _ Hm j i0) as (i2 & E3 & E4 & _); [lia|done|].
    destruct (decide (i2 = i)) as [->|Hne]; [lia|]. exfalso. apply H. intros E5. lia.
Qed.

Section Finish.
Context {E : Type} (n : nat) (u : llama_ubatch E) (Hu : fits n u)
  (m1 m3 m4 m5 : llama_memory_recurrent) (mn mx : nat) (rs_z : Z).
Hypotheses (Hok : rec_ok m1) (Hn : rc_size m1 = n)
  (Hjoin : forall j, (j < n)%nat -> Z.of_nat j ∈ joiners (sets_of u) -> tail_of m1 j = -1)
  (Hg : gathered m1 (firsts u) mn mx (length (firsts u)) m3) (Hmx : (mx < n)%nat)
  (Hp : placed u mn (u_n_seqs u) m3 m4) (Hs : staged rs_z mn mx m4 m5) (Halone : u_n_seqs u = 1%nat -> mn = mx)
  (Hfree : rs_z = -1 \/ (Z.of_nat mn <= rs_z <= Z.of_nat mx) /\ forall j, (j < n)%nat -> mc_src (cells_of m3 !!! j) <> rs_z)
  (Hneed : forall i, (mn <= i <= mx)%nat -> mc_src (cells_of m3 !!! i) < 0 -> 0 <= rs_z).

Let Hmid : mid m1 (firsts u) m3 := ga_mid _ _ _ _ _ _ Hg.

Lemma fin_sizes : rc_size m3 = n /\ length (cells_of m3) = n /\ rc_size m5 = n /\ length (cells_of m5) = n /\ (u_n_seqs u <= S mx - mn)%nat.
Proof using All.
  pose proof (md_size _ _ _ Hmid) as H1. pose proof (md_len _ _ _ Hmid) as H2. pose proof (pl_alike _ _ _ _ _ Hp) as [H3 H4 _ _ _].
  pose proof (sg_size _ _ _ _ _ Hs). pose proof (sg_len _ _ _ _ _ Hs). split_and!; try congruence.
  rewrite firsts_length. eapply (gathered_room m1 (firsts u) mn mx); [by eapply firsts_NoDup| |exact Hg].
  rewrite Hn. by apply firsts_range.
Qed.

(** The cell of the first sequence of a set is nobody else's. *)
Lemma main_own s q : firsts u !! s = Some q -> (q < n)%nat /\ tail_of m3 q = Z.of_nat (mn + s)
  /\ forall j, (j < n)%nat -> tail_of m3 j = Z.of_nat (mn + s) -> j = q.
Proof using All.
  intros Hq. destruct (firsts_lookup n u Hu s q Hq) as (_ & _ & _ & Hqn). destruct fin_sizes as (H1 & _).
  assert (E1 : tail_of m3 q = Z.of_nat (mn + s)) by (apply (ga_done _ _ _ _ _ _ Hg); [by apply lookup_lt_Some in Hq|done]).
  split; [done|]. split; [done|]. intros j Hj Ej. destruct (ga_own _ _ _ _ _ _ Hg s q Hq) as (i & Ho & _).
  assert (i = (mn + s)%nat) as -> by (destruct Ho as (_ & Et & _); lia).
  by apply (owner_unique m1 (firsts u) m3 q j (mn + s) Hmid); [rewrite H1..| |].
Qed.

(** A sequence with a cell behind the main ones is not of the ubatch. *)
Lemma behind_main i q : (i < n)%nat -> ~ (mn <= i < mn + u_n_seqs u)%nat -> q ∈ mc_seq (cells_of m3 !!! i) -> q ∉ concat (sets_of u).
Proof using All.
  intros Hi Hmain Hq Hin. destruct fin_sizes as (H1 & _). destruct (md_tail _ _ _ Hmid i q) as (Hr & Et & E0); [by rewrite H1|done|].
  apply list_elem_of_In, in_concat in Hin as (ids & Hids & Hqi). apply list_elem_of_In in Hqi. apply list_elem_of_In, list_elem_of_lookup in Hids as [s Hids].
  destruct (first_of_set n u Hu s ids Hids) as (q0 & Hq0 & H0). destruct (decide (q = Z.of_nat q0)) as [->|Hne].
  - destruct (main_own s q0 Hq0) as (_ & E1 & _). rewrite Nat2Z.id, E1 in Et. apply lookup_lt_Some in Hq0. rewrite <- firsts_length in Hq0. lia.
  - assert (Hj : q ∈ joiners (sets_of u)).
    { apply list_elem_of_In, in_concat. exists (tail ids). split; [apply in_map; by apply list_elem_of_In; eapply list_elem_of_lookup_2|].
      destruct ids as [|h ids]; [done|]. simpl in *. simplify_eq. apply list_elem_of_In. by apply elem_of_cons in Hqi as [|]. }
    rewrite H1 in Hr. rewrite <- (Z2Nat.id q) in Hj by lia. apply Hjoin in Hj; lia.
Qed.

Lemma cell_live i q : (i < n)%nat -> q ∈ mc_seq (cells_of m3 !!! i) ->
  exists i0, seq_at m1 q i0 (mc_pos (cells_of m3 !!! i)) /\ mc_src (cells_of m3 !!! i) = Z.of_nat i0.
Proof using All.
  intros Hi Hq. destruct fin_sizes as (H1 & _). destruct (md_tail _ _ _ Hmid i q) as (Hr & Et & E0); [by rewrite H1|done|].
  rewrite H1 in Hr. pose proof (tail_seq_at m1 (Z.to_nat q) Hok ltac:(lia) E0) as H. rewrite Z2Nat.id in H by lia.
  destruct (md_some _ _ _ Hmid (Z.to_nat q) (Z.to_nat (tail_of m1 (Z.to_nat q)))) as (i' & E1 & E2 & E3); [lia|lia|].
  assert (i' = i) as -> by lia. exists (Z.to_nat (tail_of m1 (Z.to_nat q))). split; [|done]. by rewrite E3.
Qed.

Lemma live_cell q i p : seq_at m1 q i p -> exists i', (i' < n)%nat /\ tail_of m3 (Z.to_nat q) = Z.of_nat i'
  /\ q ∈ mc_seq (cells_of m3 !!! i') /\ mc_pos (cells_of m3 !!! i') = p /\ mc_src (cells_of m3 !!! i') = Z.of_nat i.
Proof using All.
  intros H. destruct (seq_at_tail m1 q i p Hok H) as [Hr Et]. destruct fin_sizes as (H1 & _).
  destruct (md_some _ _ _ Hmid (Z.to_nat q) i) as (i' & E1 & E2 & E3); [lia|done|].
  destruct (md_back _ _ _ Hmid (Z.to_nat q)) as [E4|(k & Hk & E4 & H4)]; [lia|lia|]. assert (k = i') as -> by lia.
  exists i'. split_and!; [lia|done| |destruct H as (_ & _ & <-); done|done].
  destruct H4 as [H4|(_ & _ & E5 & _)]; [by rewrite Z2Nat.id in H4 by lia|]. unfold tail_of in E5. lia.
Qed.

(** ** The cells afterwards *)

Lemma fin_main s ids : sets_of u !! s = Some ids ->
  mc_seq (cells_of m5 !!! (mn + s)%nat) = list_to_set ids /\ mc_pos (cells_of m5 !!! (mn + s)%nat) = last_of u s.
Proof using All.
  intros Hids. destruct (sets_lookup n u Hu s ids Hids) as (Hsn & _). rewrite (sg_cell _ _ _ _ _ Hs). simpl.
  pose proof (pl_here _ _ _ _ _ Hp s ids Hsn Hids) as H. by destruct (decide (mn <= mn + s <= mx)%nat).
Qed.

Lemma fin_rest i : ~ (mn <= i < mn + u_n_seqs u)%nat ->
  mc_seq (cells_of m5 !!! i) = mc_seq (cells_of m3 !!! i) /\ mc_pos (cells_of m5 !!! i) = mc_pos (cells_of m3 !!! i).
Proof using All.
  intros Hi. rewrite (sg_cell _ _ _ _ _ Hs). simpl. destruct (pl_other _ _ _ _ _ Hp i Hi) as [<- <-].
  by destruct (decide (mn <= i <= mx)%nat).
Qed.

Lemma fin_src i : mc_src (cells_of m5 !!! i) = if decide (mn <= i <= mx)%nat then Z.of_nat i else mc_src (cells_of m3 !!! i).
Proof using All.
  rewrite (sg_cell _ _ _ _ _ Hs). simpl. destruct (decide (mn <= i <= mx)%nat); [done|]. apply (pl_alike _ _ _ _ _ Hp).
Qed.

Lemma fin_src0 i : (mn <= i <= mx)%nat ->
  mc_src0 (cells_of m5 !!! i) = if mc_src (cells_of m3 !!! i) <? 0 then rs_z else mc_src (cells_of m3 !!! i).
Proof using All.
  intros Hi. rewrite (sg_cell _ _ _ _ _ Hs). simpl. rewrite decide_True by done. simpl.
  by rewrite (al_src _ _ (pl_alike _ _ _ _ _ Hp)).
Qed.

Lemma fin_tail s ids j : sets_of u !! s = Some ids -> Z.of_nat j ∈ ids -> tail_of m5 j = Z.of_nat (mn + s).
Proof using All.
  intros Hids Hj. destruct (sets_lookup n u Hu s ids Hids) as (Hsn & _). rewrite <- (pl_tail _ _ _ _ _ Hp s ids j Hsn Hids Hj).
  unfold tail_of. rewrite (sg_cell _ _ _ _ _ Hs). simpl. by destruct (decide (mn <= j <= mx)%nat).
Qed.

Lemma fin_keep j : Z.of_nat j ∉ concat (sets_of u) -> tail_of m5 j = tail_of m3 j.
Proof using All.
  intros Hj. rewrite <- (pl_keep _ _ _ _ _ Hp j).
  - unfold tail_of. rewrite (sg_cell _ _ _ _ _ Hs). simpl. by destruct (decide (mn <= j <= mx)%nat).
  - intros s ids _ Hids Hin. apply Hj. by eapply concat_lookup.
Qed.

(** The cell number of a set, or none. *)
Lemma main_case i : (exists s ids, i = (mn + s)%nat /\ sets_of u !! s = Some ids) \/ ~ (mn <= i < mn + u_n_seqs u)%nat.
Proof using All.
  destruct (decide (mn <= i < mn + u_n_seqs u)%nat) as [H|H]; [left|by right].
  destruct (set_exists u (i - mn)%nat) as [ids Hids]; [lia|]. exists (i - mn)%nat, ids. split; [lia|done].
Qed.

Lemma in_sets_case q : q ∈ concat (sets_of u) -> exists s ids, sets_of u !! s = Some ids /\ q ∈ ids.
Proof using.
  intros (ids & H1 & H2)%list_elem_of_In%in_concat. apply list_elem_of_In, list_elem_of_lookup in H1 as [s H1]. apply list_elem_of_In in H2. eauto.
Qed.

(** The memory that [find_slot] leaves. *)
Let m' : llama_memory_recurrent :=
  Rec.with_used (Rec.with_range (Rec.with_head m5 (Z.of_nat mn)) (Z.of_nat mx - Z.of_nat mn + 1) rs_z) (Rec.count_used m5).

Lemma fin_empty i : (i < n)%nat -> mc_seq (cells_of m5 !!! i) = ∅ ->
  ~ (mn <= i < mn + u_n_seqs u)%nat /\ spare m3 i.
Proof using All.
  intros Hi He. destruct fin_sizes as (H1 & _). destruct (main_case i) as [(s & ids & -> & Hids)|Hno].
  - destruct (fin_main s ids Hids) as [Hq _]. destruct (sets_lookup n u Hu s ids Hids) as (_ & _ & _ & q & Hq0).
    exfalso. apply (not_elem_of_empty (C := gset Z) q). rewrite <- He, Hq. apply elem_of_list_to_set. by eapply list_elem_of_lookup_2.
  - split; [done|]. split; [by rewrite H1|]. destruct (fin_rest i Hno) as [Hq _]. rewrite Hq in He.
    intros j Hj Ej. destruct (md_back _ _ _ Hmid j Hj) as [E1|(i' & _ & E1 & H)]; [lia|]. assert (i' = i) as -> by lia.
    destruct H as [H|(_ & HF & _)]; [rewrite He in H; by apply elem_of_empty in H|].
    apply list_elem_of_lookup in HF as [s Hs']. destruct (main_own s j Hs') as (_ & E2 & _).
    apply lookup_lt_Some in Hs'. rewrite <- firsts_length in Hs'. lia.
Qed.

Lemma fin_full i q : (i < n)%nat -> q ∈ mc_seq (cells_of m5 !!! i) -> 0 <= q < Z.of_nat n /\ tail_of m5 (Z.to_nat q) = Z.of_nat i
  /\ 0 <= mc_pos (cells_of m5 !!! i) /\ mc_src (cells_of m5 !!! i) = Z.of_nat i.
Proof using All.
  intros Hi Hq. destruct fin_sizes as (H1 & _ & _ & _ & Hroom). destruct (main_case i) as [(s & ids & -> & Hids)|Hno].
  - destruct (fin_main s ids Hids) as [Hseq Hpos]. destruct (sets_lookup n u Hu s ids Hids) as (Hsn & _).
    rewrite Hseq in Hq. apply elem_of_list_to_set in Hq. pose proof (set_range n u Hu s ids q Hids Hq) as Hr. split; [done|].
    split; [apply (fin_tail s ids); [done|by rewrite Z2Nat.id by lia]|]. rewrite Hpos. split; [by apply (last_of_ok n u Hu s)|].
    by rewrite fin_src, decide_True by lia.
  - destruct (fin_rest i Hno) as [Hseq Hpos]. rewrite Hseq in Hq. pose proof (behind_main i q Hi Hno Hq) as Hnot.
    destruct (md_tail _ _ _ Hmid i q) as (Hr & Et & _); [by rewrite H1|done|]. rewrite H1 in Hr. split; [done|].
    destruct (cell_live i q Hi Hq) as (i0 & Hat & Hsrc). destruct (seq_at_tail m1 q i0 _ Hok Hat) as [_ _].
    destruct Hat as (Hi0 & Hq0 & Hp0). destruct (ro_full m1 Hok i0 Hi0) as [Hge Hown]; [intros E0; rewrite E0 in Hq0; by apply elem_of_empty in Hq0|].
    split; [rewrite fin_keep; [done|by rewrite Z2Nat.id by lia]|]. split; [rewrite Hpos; lia|].
    rewrite fin_src. destruct (decide (mn <= i <= mx)%nat) as [|Hout]; [done|].
    destruct (ga_out _ _ _ _ _ _ Hg i) as [E1 _]; [by rewrite H1|done|].
    destruct (ro_src m1 Hok i) as [E2|E2]; [by rewrite Hn| |]; lia.
Qed.

Lemma fin_ok : rec_ok m'.
Proof using All.
  destruct fin_sizes as (H1 & _ & H5 & L5 & Hroom). change (rc_size m') with (rc_size m5).
  constructor; change (rc_cells m') with (rc_cells m5); change (rc_size m') with (rc_size m5); rewrite ?H5; try done.
  - pose proof (ro_small m1 Hok). lia.
  - change (rc_head m') with (Z.of_nat mn). pose proof (ft_seqs _ _ Hu). lia.
  - intros i q Hi Hq. by destruct (fin_full i q Hi Hq) as (Hr & Et & _).
  - intros j Hj. destruct (decide (Z.of_nat j ∈ concat (sets_of u))) as [Hin|Hin].
    + destruct (in_sets_case _ Hin) as (s & ids & Hids & Hq). right. destruct (sets_lookup n u Hu s ids Hids) as (Hsn & _).
      exists (mn + s)%nat. split; [lia|]. split; [by apply (fin_tail s ids)|]. destruct (fin_main s ids Hids) as [-> _].
      by apply elem_of_list_to_set.
    + fold (tail_of m5 j). rewrite (fin_keep j Hin). destruct (md_back _ _ _ Hmid j) as [E1|(i & Hi & E1 & H)]; [by rewrite H1|by left|].
      right. exists i. rewrite H1 in Hi. split; [done|]. split; [done|].
      assert (HF : j ∉ firsts u).
      { intros [s Hs']%list_elem_of_lookup. apply Hin. destruct (firsts_lookup n u Hu s j Hs') as (ids & Hids & H0 & _).
        eapply concat_lookup; [done|]. by eapply list_elem_of_lookup_2. }
      destruct H as [H|(_ & HF' & _)]; [|done]. destruct (main_case i) as [(s & ids & -> & Hids)|Hno].
      * exfalso. destruct (first_of_set n u Hu s ids Hids) as (q & Hq & _). destruct (main_own s q Hq) as (_ & _ & Hun).
        apply HF. rewrite (Hun j Hj E1). by eapply list_elem_of_lookup_2.
      * by destruct (fin_rest i Hno) as [-> _].
  - intros i Hi He. destruct (fin_empty i Hi He) as [Hno Hsp]. destruct (fin_rest i Hno) as [_ ->]. by apply (md_empty _ _ _ Hmid).
  - intros i Hi Hne. destruct (set_choose_L _ Hne) as [q Hq]. by destruct (fin_full i q Hi Hq) as (_ & _ & ?).
  - intros i Hi. rewrite fin_src. destruct (decide (mn <= i <= mx)%nat) as [|Hno]; [by right|].
    destruct (ga_out _ _ _ _ _ _ Hg i) as [-> _]; [by rewrite H1|done|]. apply (ro_src m1 Hok). by rewrite Hn.
Qed.

Lemma fin_source i : source m' i = if decide (mn <= i <= mx)%nat
  then (if mc_src (cells_of m3 !!! i) <? 0 then rs_z else mc_src (cells_of m3 !!! i)) else Z.of_nat i.
Proof using All.
  unfold source. change (rc_head m') with (Z.of_nat mn). change (rc_n m') with (Z.of_nat mx - Z.of_nat mn + 1).
  destruct (decide (mn <= i <= mx)%nat) as [Hi|Hi]; [|by rewrite decide_False by lia]. rewrite decide_True by lia.
  by apply fin_src0.
Qed.

(** A cell with a source of its own. *)
Lemma fin_source_at i i0 : (i < n)%nat -> mc_src (cells_of m3 !!! i) = Z.of_nat i0 -> source m' i = Z.of_nat i0.
Proof using All.
  intros Hi E1. destruct fin_sizes as (H1 & _). rewrite fin_source. destruct (decide (mn <= i <= mx)%nat) as [|Hno].
  - rewrite E1. destruct (Z.ltb_spec (Z.of_nat i0) 0); [lia|done].
  - destruct (ga_out _ _ _ _ _ _ Hg i) as [E2 _]; [by rewrite H1|done|]. destruct (ro_src m1 Hok i); [by rewrite Hn| |]; lia.
Qed.

(** A cell in the range that no sequence with a state has. *)
Lemma fin_source_new i : (mn <= i <= mx)%nat -> (forall j, (j < n)%nat -> tail_of m3 j = Z.of_nat i -> tail_of m1 j = -1) ->
  (0 <= rs_z /\ source m' i = rs_z) \/ exists k, source m' i = Z.of_nat k /\ idle m1 k.
Proof using All.
  intros Hi Hnew. destruct fin_sizes as (H1 & _). rewrite fin_source, decide_True by done.
  destruct (md_new _ _ _ Hmid i) as [E1|(k & E1 & Hk)]; [by rewrite H1; lia|by rewrite H1| |]; rewrite E1.
  - left. split; [|done]. apply (Hneed i Hi). lia.
  - right. exists k. destruct (Z.ltb_spec (Z.of_nat k) 0); [lia|done].
Qed.

Lemma fin_other q p : q ∉ concat (sets_of u) -> (exists i', seq_at m' q i' p) <-> exists i, seq_at m1 q i p.
Proof using All.
  intros Hq. destruct fin_sizes as (H1 & _ & H5 & _). split.
  - intros (i' & Hi' & Hin & Hpos). change (rc_size m') with (rc_size m5) in Hi'. rewrite H5 in Hi'. change (rc_cells m') with (rc_cells m5) in *.
    destruct (main_case i') as [(s & ids & -> & Hids)|Hno].
    + exfalso. apply Hq. destruct (fin_main s ids Hids) as [E1 _]. rewrite E1 in Hin. eapply concat_lookup; [done|by apply elem_of_list_to_set in Hin].
    + destruct (fin_rest i' Hno) as [E1 E2]. rewrite E1 in Hin. destruct (cell_live i' q Hi' Hin) as (i & H & _). exists i. by rewrite <- Hpos, E2.
  - intros (i & H). destruct (live_cell q i p H) as (i' & Hi' & Et & Hin & Hpos & _). exists i'. split; [change (rc_size m') with (rc_size m5); lia|].
    change (rc_cells m') with (rc_cells m5). destruct (main_case i') as [(s & ids & -> & Hids)|Hno].
    + exfalso. destruct (first_of_set n u Hu s ids Hids) as (q0 & Hq0 & H0). destruct (main_own s q0 Hq0) as (_ & _ & Hun).
      destruct (seq_at_tail m1 q i p Hok H) as [Hr _]. specialize (Hun (Z.to_nat q) ltac:(lia) Et). apply Hq.
      eapply concat_lookup; [exact Hids|]. replace q with (Z.of_nat q0) by lia. by eapply list_elem_of_lookup_2.
    + destruct (fin_rest i' Hno) as [-> ->]. done.
Qed.

Lemma fin_slotted : slotted u m1 m'.
Proof using All.
  destruct fin_sizes as (H1 & _ & H5 & _ & Hroom). pose proof (ft_seqs _ _ Hu) as Hpos.
  assert (Hh : head_nat m' = mn) by (unfold head_nat; apply Nat2Z.id).
  assert (Hsm : Z.of_nat (rc_size m') = Z.of_nat n) by (change (rc_size m') with (rc_size m5); by rewrite H5).
  constructor; rewrite ?Hh; change (rc_head m') with (Z.of_nat mn); change (rc_n m') with (Z.of_nat mx - Z.of_nat mn + 1);
    change (rc_rs_z m') with rs_z; change (rc_cells m') with (rc_cells m5).
  - apply fin_ok.
  - change (rc_size m') with (rc_size m5). congruence.
  - lia.
  - intros H0. specialize (Halone H0). lia.
  - intros s ids q Hids Hq. destruct (sets_lookup n u Hu s ids Hids) as (Hsn & _). destruct (fin_main s ids Hids) as [E1 E2].
    split; [lia|]. change (rc_cells m') with (rc_cells m5). split; [rewrite E1; by apply elem_of_list_to_set|done].
  - intros s ids q Hids Hq. destruct (fin_main s ids Hids) as [E1 E2]. rewrite E1 in Hq. by apply elem_of_list_to_set in Hq.
  - apply fin_other.
  - intros q i i' p p' Hq H (Hi' & Hin & _). change (rc_cells m') with (rc_cells m5) in Hin.
    assert (Hi'n : (i' < n)%nat) by (change (rc_size m') with (rc_size m5) in Hi'; lia).
    destruct (main_case i') as [(s & ids & -> & Hids)|Hno].
    + exfalso. apply Hq. destruct (fin_main s ids Hids) as [E1 _]. rewrite E1 in Hin. eapply concat_lookup; [done|by apply elem_of_list_to_set in Hin].
    + split; [|done]. destruct (fin_rest i' Hno) as [E1 _]. rewrite E1 in Hin. destruct (cell_live i' q Hi'n Hin) as (i1 & H2 & E2).
      destruct (seq_at_unique m1 q i p i1 _ Hok H H2) as [-> _]. by apply fin_source_at.
  - intros s q i p Hq H. destruct (live_cell _ i p H) as (i' & Hi' & Et & _ & _ & E2). destruct (main_own s q Hq) as (_ & E3 & _).
    rewrite Nat2Z.id, E3 in Et. assert (i' = (mn + s)%nat) as -> by lia. by apply fin_source_at.
  - intros s q Hq Hno. destruct (main_own s q Hq) as (Hqn & E3 & Hun). pose proof (lookup_lt_Some _ _ _ Hq) as Hsl. rewrite <- firsts_length in Hsl.
    apply fin_source_new; [lia|]. intros j Hj Ej. rewrite (Hun j Hj Ej).
    destruct (ro_back m1 Hok q) as [E4|(i & Hi & E4 & Hin)]; [lia|done|]. exfalso. by apply (Hno i (mc_pos (cells_of m1 !!! i))).
  - destruct Hfree as [Hf|[Hf _]]; [by left|right; lia].
  - intros i Hi. rewrite fin_source, decide_True, Hn by lia. pose proof (mid_src_range m1 (firsts u) m3 i Hok Hmid ltac:(lia)) as Hsr.
    rewrite Hn in Hsr. destruct (Z.ltb_spec (mc_src (cells_of m3 !!! i)) 0) as [Hneg|]; [|lia].
    specialize (Hneed i ltac:(lia) Hneg). destruct Hfree as [Hf|[Hf _]]; lia.
  - intros q i p H _. destruct (live_cell q i p H) as (i' & Hi' & _ & _ & _ & E2). destruct Hfree as [->|[_ Hf]]; [lia|].
    rewrite <- E2. by apply Hf.
  - intros i (Hi & He & Hsrc). change (rc_size m') with (rc_size m5) in Hi. rewrite H5 in Hi. change (rc_cells m') with (rc_cells m5) in *.
    destruct (fin_empty i Hi He) as [Hno [_ Hsp]]. split; [done|]. destruct (decide (mn <= i <= mx)%nat) as [Hin|Hout].
    + apply fin_source_new; [done|]. intros j Hj Ej. exfalso. apply (Hsp j); [lia|done].
    + right. exists i. rewrite fin_source, decide_False by done. split; [done|]. rewrite fin_src, decide_False in Hsrc by done.
      destruct (ga_out _ _ _ _ _ _ Hg i) as [E1 E2]; [by rewrite H1|done|]. destruct (fin_rest i Hno) as [E3 _].
      split; [by rewrite Hn|]. split; [apply E2; congruence|congruence].
Qed.

End Finish.

(** ** The whole search *)

Section FindSlot.
Context {E : Type}.
Implicit Types u : llama_ubatch E.

(** The sequences that joined others were taken out before. *)
Lemma slotted_keeps u n m m1 m' : fits n u -> rec_ok m -> keeps (except (joiners (sets_of u))) m m1 -> slotted u m1 m' -> slotted u m m'.
Proof.
  intros Hu Hok (Hok1 & Hsz & Hat & Hid) [H1 H2 H3 H3' H4 H5 H6 H7 H8 H9 H10 H10' H11 H12].
  assert (Hk : forall q i p, q ∉ joiners (sets_of u) -> seq_at m q i p -> seq_at m1 q i p).
  { intros q i p Hq H. apply Hat. split; [done|]. by apply except_true. }
  assert (Hout : forall q, q ∉ concat (sets_of u) -> q ∉ joiners (sets_of u)) by (intros q Hq Hin; by apply Hq, joiner_in_sets).
  constructor; try done; [congruence| | | | | | |].
  - intros q p Hq. rewrite (H6 q p Hq). split; intros [i H]; exists i; [by apply Hat|by apply Hk; [apply Hout|]].
  - intros q i i' p p' Hq H. apply (H7 q i i' p p' Hq). by apply Hk; [apply Hout|].
  - intros s q i p Hq H. apply (H8 s q i p Hq), Hk; [|done]. by eapply (first_not_joiner n u Hu).
  - intros s q Hq Hno. destruct (H9 s q Hq) as [H|(k & H & Hk')]; [|by left|].
    + intros i p H. apply (Hno i p). by apply Hat in H as [H _].
    + right. exists k. split; [done|by apply Hid].
  - by rewrite <- Hsz.
  - intros q i p H Hq. apply (H11 q i p); [by apply Hk|done].
  - intros i H. destruct (H12 i H) as [Hno [Hz|(k & H' & Hk')]]; split; try done; [by left|right]. exists k. split; [done|by apply Hid].
Qed.

Lemma claimed_gathered F m1 m2 cl : (forall q, q ∈ F -> (q < rc_size m1)%nat) -> claimed m1 F (length F) m2 cl ->
  gathered m1 F (Z.to_nat (Rec.cl_min cl)) (Z.to_nat (Rec.cl_max cl)) 0 m2.
Proof.
  intros HFr [Hm _ Hown Hout Hmn Hmx Hh _].
  assert (Hown' : forall x q, F !! x = Some q -> exists i, owner m2 q i /\ (Z.to_nat (Rec.cl_min cl) <= i <= Z.to_nat (Rec.cl_max cl))%nat).
  { intros x q Hx. destruct (Hown x q) as (i & Hi & Hr); [by apply lookup_lt_Some in Hx|done|]. exists i. split; [done|lia]. }
  constructor; try done; [lia|]. intros i Hi Hno. apply Hout; [done|]. intros x q _ Hx Et.
  destruct (Hown' x q Hx) as (i' & (_ & Et' & _) & Hr). lia.
Qed.

(** A single sequence takes a range of one cell. *)
Lemma claim_alone u m1 nx m2 cl (mn mx : nat) : (mx < rc_size m1)%nat ->
  foldM (Rec.claim u) (m1, Rec.mk_claims nx (Rec.size_z m1 - 1) 0) (seq 0 1) = Ret (m2, cl) ->
  Rec.cl_min cl = Z.of_nat mn -> Rec.cl_max cl = Z.of_nat mx -> mn = mx.
Proof.
  intros Hmx H. cbn [seq foldM] in H. apply bind_Ret in H as ([m' cl'] & H & Ecl). injection Ecl as -> ->.
  cbn [Rec.claim] in H. apply bind_Ret in H as (q & _ & H). apply bind_Ret in H as (t & _ & H). apply bind_Ret in H as (b & _ & H).
  apply bind_Ret in H as ([m3 nx'] & _ & H). apply bind_Ret in H as (t' & _ & H). injection H as _ <-. simpl. unfold Rec.size_z.
  intros E1 E2. destruct (Z.ltb_spec (mc_tail t') (Z.of_nat (rc_size m1) - 1)), (Z.ltb_spec 0 (mc_tail t')); lia.
Qed.

(** The search for the first empty cell. *)
Lemma scan_start m : rec_ok m -> (0 < rc_size m)%nat -> exists nx, Rec.scan (rc_size m) m (rc_head m) = Ret nx /\ next_ok m nx.
Proof.
  intros Hok Hpos. pose proof (ro_len m Hok) as Hl. pose proof (ro_head m Hok) as Hh.
  destruct (scan_ok m Hl Hpos (rc_size m) (rc_head m) Hh) as (r & E1 & Hr & H). exists r. split; [done|].
  apply next_start; [done|]. intros i Hi He. destruct (scan_finds m (rc_head m) i Hl Hh Hi He) as (r' & E2 & Hr' & He').
  assert (r' = r) as -> by congruence. done.
Qed.

(** A source for every cell of the range. *)
Lemma zero_found u n m1 m3 m4 mn mx : rec_ok m1 -> rc_size m1 = n -> (mx < n)%nat ->
  (forall i, (i < n)%nat -> -1 <= mc_src (cells_of m3 !!! i) < Z.of_nat n) ->
  gathered m1 (firsts u) mn mx (length (firsts u)) m3 -> alike m3 m4 -> exists r rs_z,
  Rec.refcounts m4 = Ret r /\ Rec.find_zero r (Z.of_nat mn) (Z.of_nat mx) = Ret rs_z
  /\ (rs_z = -1 \/ (Z.of_nat mn <= rs_z <= Z.of_nat mx) /\ forall j, (j < n)%nat -> mc_src (cells_of m3 !!! j) <> rs_z)
  /\ (forall i, (mn <= i <= mx)%nat -> mc_src (cells_of m3 !!! i) < 0 -> 0 <= rs_z).
Proof.
  intros Hok Hn Hmx Hsr Hg [H1 H2 _ H3 _]. pose proof (ga_mid _ _ _ _ _ _ Hg) as Hm. pose proof (md_size _ _ _ Hm) as Hs3.
  pose proof (md_len _ _ _ Hm) as Hl3. assert (Hs4 : rc_size m4 = n) by congruence.
  destruct (refcounts_ok m4) as (r & E1 & Hlr & Hr); [congruence| |].
  { intros j Hj. rewrite H3, Hs4 in *. apply Hsr. lia. }
  destruct (find_zero_ok (ref_count m4 n) r mn mx n Hmx) as (z & E2 & Hz); [congruence|by rewrite Hs4 in Hr|].
  exists r, z. split; [done|]. split; [done|]. destruct Hz as [(i & Hi & -> & Hi0)|[-> Hall]].
  - split; [|lia]. right. split; [lia|]. intros j Hj. rewrite <- H3. by apply (proj1 (ref_count_zero m4 n i) Hi0).
  - split; [by left|]. intros i Hi Hneg. exfalso. apply (all_used (fun j => mc_src (cells_of m3 !!! j)) mn mx n Hmx) with i; [|..|done|].
    + intros j Hj Hno. destruct (ga_out _ _ _ _ _ _ Hg j) as [-> _]; [by rewrite Hs3, Hn|done|]. apply (ro_src m1 Hok). by rewrite Hn.
    + intros k Hk. destruct (ref_count_pos m4 n k (Hall k Hk)) as (j & Hj & Ej). exists j. by rewrite <- H3.
    + specialize (Hsr i ltac:(lia)). lia.
Qed.

(** A slot for the checked ubatch. *)
Lemma slot_found u n m1 : fits n u -> rec_ok m1 -> rc_size m1 = n -> exists m3 mn mx m4 rs_z m5 r nx cl m2,
  Rec.scan (rc_size m1) m1 (rc_head m1) = Ret nx
  /\ foldM (Rec.claim u) (m1, Rec.mk_claims nx (Rec.size_z m1 - 1) 0) (seq 0 (u_n_seqs u)) = Ret (m2, cl)
  /\ Rec.cl_min cl = Z.of_nat mn /\ Rec.cl_max cl = Z.of_nat mx
  /\ foldM (Rec.gather u (Z.of_nat mn)) m2 (seq 0 (u_n_seqs u)) = Ret m3
  /\ foldM (Rec.place u (Z.of_nat mn)) m3 (seq 0 (u_n_seqs u)) = Ret m4
  /\ Rec.refcounts m4 = Ret r /\ Rec.find_zero r (Z.of_nat mn) (Z.of_nat mx) = Ret rs_z
  /\ foldM (Rec.stage rs_z) m4 (Rec.range (Z.of_nat mn) (Z.of_nat mx)) = Ret m5
  /\ gathered m1 (firsts u) mn mx (length (firsts u)) m3 /\ (mx < n)%nat
  /\ placed u mn (u_n_seqs u) m3 m4 /\ staged rs_z mn mx m4 m5 /\ (u_n_seqs u = 1%nat -> mn = mx)
  /\ (rs_z = -1 \/ (Z.of_nat mn <= rs_z <= Z.of_nat mx) /\ forall j, (j < n)%nat -> mc_src (cells_of m3 !!! j) <> rs_z)
  /\ (forall i, (mn <= i <= mx)%nat -> mc_src (cells_of m3 !!! i) < 0 -> 0 <= rs_z).
Proof.
  intros Hu Hok Hn. pose proof (firsts_length u) as HFn. pose proof (firsts_NoDup n u Hu) as HFnd.
  assert (HFr : forall q, q ∈ firsts u -> (q < rc_size m1)%nat) by (rewrite Hn; apply firsts_range; done).
  pose proof (first_id_ok n u Hu) as Hfirst. pose proof (ft_seqs _ _ Hu) as Hpos. assert (HF0 : (0 < length (firsts u))%nat) by lia.
  assert (Hsz : (0 < rc_size m1)%nat).
  { destruct (lookup_lt_is_Some_2 (firsts u) 0 HF0) as [q Hq]. pose proof (HFr q ltac:(by eapply list_elem_of_lookup_2)). lia. }
  destruct (scan_start m1 Hok Hsz) as (nx & E1 & Hnx).
  destruct (claims_ok u m1 (firsts u) Hok HFn HFnd HFr Hfirst nx HF0 Hnx) as (m2 & cl & E2 & Hcl).
  pose proof (claimed_gathered _ _ _ _ HFr Hcl) as Hg0. pose proof (cd_min _ _ _ _ _ Hcl) as Hmn. pose proof (cd_max _ _ _ _ _ Hcl) as Hmx.
  rewrite (md_size _ _ _ (cd_mid _ _ _ _ _ Hcl)) in Hmn, Hmx.
  set (mn := Z.to_nat (Rec.cl_min cl)) in *. set (mx := Z.to_nat (Rec.cl_max cl)) in *.
  destruct (gather_ok u m1 (firsts u) mn mx HFn HFnd HFr Hfirst ltac:(lia) m2 Hg0) as (m3 & E3 & Hg).
  pose proof (gathered_room m1 (firsts u) mn mx HFnd HFr _ _ Hg) as Hroom.
  pose proof (ga_mid _ _ _ _ _ _ Hg) as Hm3. pose proof (md_size _ _ _ Hm3) as Hs3. pose proof (md_len _ _ _ Hm3) as Hl3.
  destruct (place_ok n u Hu mn m3 Hl3 ltac:(congruence) ltac:(lia)) as (m4 & E4 & Hp). pose proof (pl_alike _ _ _ _ _ Hp) as Hal.
  destruct (zero_found u n m1 m3 m4 mn mx Hok Hn ltac:(lia)) as (r & rs_z & E5 & E6 & Hfree & Hneed); [|done|done|].
  { intros i Hi. rewrite <- Hn. apply (mid_src_range m1 (firsts u) m3 i Hok Hm3). by rewrite Hn. }
  destruct (stage_ok rs_z mn mx m4) as (m5 & E7 & Hs).
  { rewrite (al_len _ _ Hal). lia. }
  { intros i Hi Hneg. apply (Hneed i Hi). by rewrite <- (al_src _ _ Hal). }
  exists m3, mn, mx, m4, rs_z, m5, r, nx, cl, m2. split_and!; try done; try (unfold mn, mx; lia); try (by unfold Rec.size_z).
  intros H1. rewrite H1 in E2. eapply (claim_alone u m1 nx m2 cl); [|exact E2|unfold mn; lia|unfold mx; lia]. lia.
Qed.

Lemma rec_find_slot_ok u m : rec_ok m -> fits (rc_size m) u ->
  exists m', Rec.find_slot m u = Ret (true, m') /\ slotted u m m'.
Proof.
  intros Hok Hu. unfold Rec.find_slot.
  set (mh := if u32 (rc_used m + u32 (2 * Z.of_nat (u_n_seqs u))) <? rc_head m then Rec.with_head m 0 else m).
  assert (Hmh : rec_ok mh /\ cells_of mh = cells_of m /\ rc_size mh = rc_size m).
  { unfold mh. destruct (_ <? _); [|done]. split; [|done]. destruct Hok. constructor; try done. simpl. lia. }
  destruct Hmh as (Hokh & Hch & Hsh). rewrite (ft_eq _ _ Hu). cbn [c_assert mbind outcome_bind].
  pose proof (ro_small m Hok) as Hsmall.
  destruct (check_ids_ok (rc_size m) u Hu Hsmall mh Hokh Hsh) as (m1 & -> & Hk & Hh1). cbn [mbind outcome_bind negb].
  pose proof Hk as (Hok1 & Hsz1 & Hat1 & Hid1). assert (Hn1 : rc_size m1 = rc_size m) by congruence.
  destruct (slot_found u (rc_size m) m1 Hu Hok1 Hn1) as (m3 & mn & mx & m4 & rs_z & m5 & r & nx & cl & m2 & E1 & E2 & E3 & E3' & E4 & E5 & E6 & E7 & E8 & Hg & Hmx & Hp & Hs & Halone & Hfree & Hneed).
  rewrite E1. cbn [mbind outcome_bind]. rewrite E2. cbn [mbind outcome_bind]. rewrite E3, E3', E4. cbn [mbind outcome_bind].
  rewrite E5. cbn [mbind outcome_bind]. rewrite E6. cbn [mbind outcome_bind]. rewrite E7. cbn [mbind outcome_bind]. rewrite E8. cbn [mbind outcome_bind].
  pose proof (gathered_room m1 (firsts u) mn mx (firsts_NoDup _ u Hu) ltac:(rewrite Hn1; by apply firsts_range) _ _ Hg) as Hroom.
  rewrite <- firsts_length in Hroom. pose proof (ft_seqs _ _ Hu) as Hpos. rewrite !u32_small by lia. rewrite (proj2 (Z.leb_le _ _)) by lia.
  eexists. split; [reflexivity|]. apply (slotted_keeps u (rc_size m) m m1); [done|done| |].
  - destruct Hk as (_ & _ & Hat & Hid). split_and!; [done|done| |].
    + intros q i p. rewrite Hat. unfold seq_at. by rewrite Hch, Hsh.
    + intros i H. apply Hid in H. unfold idle in *. by rewrite Hch, Hsh in H.
  - apply (fin_slotted (rc_size m) u Hu m1 m3 m4 m5 mn mx rs_z Hok1 Hn1); try done.
    intros j Hj Hin. destruct (ro_back m1 Hok1 j) as [|(i & Hi & Et & Hin')]; [by rewrite Hn1|done|]. exfalso.
    assert (H : seq_at m1 (Z.of_nat j) i (mc_pos (cells_of m1 !!! i))) by by split.
    apply Hat1 in H as [_ H]. by apply except_true in H.
Qed.

End FindSlot.
