(* ===== verification/RecurrentView.v ===== *)
(** * What the recurrent memory stands for: for every sequence its position and
    its state; and what the graph does with the states. *)

From S2P Require Import Prelude KvCells Batch KvCache KvCacheFacts KvContext Decode Recurrent RecurrentFacts RecurrentSteps.
From S2P Require Import RecurrentSlot RecurrentStage RecurrentFind.
From Stdlib Require Import Lia.

Implicit Types (m : llama_memory_recurrent) (c : mem_cell) (s i j : nat) (p : Z).

(** ** Rows *)

Section Rows.
Context {S : Type}.
Implicit Types (st rows : list S) (x : S).

Lemma get_rows_ok st idx : (forall z, z ∈ idx -> 0 <= z < Z.of_nat (length st)) ->
  exists rows, Rec.get_rows st idx = Ret rows /\ length rows = length idx
    /\ forall k z, idx !! k = Some z -> rows !! k = st !! Z.to_nat z.
Proof.
  intros Hr. apply (foldM_prefix _ (fun pre rows => length rows = length pre
    /\ forall k z, pre !! k = Some z -> rows !! k = st !! Z.to_nat z)).
  - by split.
  - intros pre z rest rows Hs [Hl Hk]. assert (Hz : 0 <= z < Z.of_nat (length st)) by (apply Hr; rewrite Hs; set_solver).
    destruct (lookup_lt_is_Some_2 st (Z.to_nat z)) as [x Hx]; [lia|]. exists (rows ++ [x]).
    rewrite (at_z_Ret st z x) by (lia || done). split; [done|]. rewrite !length_app. split; [simpl; lia|].
    intros k z' Hk'. destruct (decide (k < length pre)%nat) as [Hlt|Hge].
    + rewrite lookup_app_l in Hk' by lia. rewrite lookup_app_l by lia. by apply Hk.
    + assert (k = length pre) as ->. { apply lookup_lt_Some in Hk'. rewrite length_app in Hk'. simpl in Hk'. lia. }
      rewrite list_lookup_middle in Hk' by done. simplify_eq. by rewrite <- Hl, list_lookup_middle.
Qed.

Lemma rec_write_rows_ok st a rows : (a + length rows <= length st)%nat ->
  exists st', Rec.write_rows st a rows = Ret st' /\ length st' = length st
    /\ forall i, st' !! i = if decide (a <= i < a + length rows)%nat then rows !! (i - a)%nat else st !! i.
Proof.
  intros Hlen. unfold Rec.write_rows. match goal with |- context [foldM ?f _ _] => destruct (foldM_interval f
    (fun k st' => length st' = length st /\ forall i, st' !! i = if decide (a <= i < a + k)%nat then rows !! (i - a)%nat else st !! i)
    st (length rows)) as (st' & E & H) end.
  - split; [done|]. intros i. by rewrite decide_False by lia.
  - intros k st' Hk [Hl H]. destruct (lookup_lt_is_Some_2 rows k Hk) as [x Hx]. rewrite (proj2 (at_Ret rows k x) Hx). cbn [mbind outcome_bind].
    eexists. split; [apply set_Ret; split; [lia|reflexivity]|]. rewrite length_insert. split; [done|]. intros i.
    destruct (decide (i = a + k)%nat) as [->|Hne].
    + rewrite list_lookup_insert_eq, decide_True by lia. replace (a + k - a)%nat with k by lia. done.
    + rewrite list_lookup_insert_ne, H by done. destruct (decide (a <= i < a + k)%nat); [by rewrite decide_True by lia|by rewrite decide_False by lia].
  - by exists st'.
Qed.

End Rows.

(** ** The view *)

Definition view {S} m (st : list S) (q : Z) : option (Z * S) :=
  if decide (0 <= q) then
    c ← rc_cells m !! Z.to_nat q;
    if decide (0 <= mc_tail c) then
      t ← rc_cells m !! Z.to_nat (mc_tail c);
      x ← st !! Z.to_nat (mc_tail c);
      Some (mc_pos t, x)
    else None
  else None.

(** Two sequences share their cell. *)
Definition together m (q q' : Z) : bool :=
  bool_decide (0 <= q) && bool_decide (0 <= q') &&
  match rc_cells m !! Z.to_nat q, rc_cells m !! Z.to_nat q' with
  | Some c, Some c' => (0 <=? mc_tail c) && (mc_tail c =? mc_tail c')
  | _, _ => false
  end.

Section View.
Context {S : Type} (zero : S).
Implicit Types (st : list S) (x : S).

(** A memory with its states; an idle cell is not used before it is cleared, as it is clear. *)
Record rec_inv m st : Prop := {
  ri_ok : rec_ok m;
  ri_len : length st = rc_size m;
  ri_idle i : idle m i -> st !! i = Some zero;
}.

Lemma view_spec m st q p x : rec_ok m -> length st = rc_size m ->
  view m st q = Some (p, x) <-> exists i, seq_at m q i p /\ st !! i = Some x.
Proof.
  intros Hok Hl. pose proof (ro_len m Hok) as Hlc. unfold view. split.
  - destruct (decide (0 <= q)) as [Hq|]; [|done]. destruct (cells_of m !! Z.to_nat q) as [c|] eqn:Hc; [|done]. cbn [mbind option_bind].
    destruct (decide (0 <= mc_tail c)) as [Ht|]; [|done].
    destruct (cells_of m !! Z.to_nat (mc_tail c)) as [t|] eqn:Hct; [|done]. cbn [mbind option_bind].
    destruct (st !! Z.to_nat (mc_tail c)) as [y|] eqn:Hst; [|done]. cbn [mbind option_bind]. intros [= <- <-].
    pose proof (lookup_lt_Some _ _ _ Hc) as Hlt. apply list_lookup_total_correct in Hc, Hct. subst c t. exists (Z.to_nat (mc_tail (cells_of m !!! Z.to_nat q))). split; [|done].
    pose proof (tail_seq_at m (Z.to_nat q) Hok ltac:(lia) Ht) as H. by rewrite Z2Nat.id in H by lia.
  - intros (i & Hat & Hx). destruct (seq_at_tail m q i p Hok Hat) as [Hr Et]. destruct Hat as (Hi & _ & Hp).
    rewrite decide_True by lia. rewrite (list_lookup_lookup_total_lt _ (Z.to_nat q) ltac:(rewrite Hlc; lia)). cbn [mbind option_bind]. rewrite Et, decide_True, Nat2Z.id by lia.
    rewrite (list_lookup_lookup_total_lt (cells_of m) i ltac:(lia)), Hx. cbn [mbind option_bind]. by rewrite Hp.
Qed.

Lemma view_at m st q i p : rec_ok m -> length st = rc_size m -> seq_at m q i p -> exists x, st !! i = Some x /\ view m st q = Some (p, x).
Proof.
  intros Hok Hl Hat. destruct (lookup_lt_is_Some_2 st i) as [x Hx]; [destruct Hat; lia|]. exists x. split; [done|].
  apply view_spec; [done..|]. by exists i.
Qed.

Lemma view_none m st q : rec_ok m -> length st = rc_size m -> (forall i p, ~ seq_at m q i p) -> view m st q = None.
Proof.
  intros Hok Hl Hno. destruct (view m st q) as [[p x]|] eqn:E; [|done]. apply view_spec in E as (i & H & _); [|done..]. by destruct (Hno i p).
Qed.

(** A sequence has a cell or not. *)
Lemma seq_at_dec m q : rec_ok m -> (exists i p, seq_at m q i p) \/ forall i p, ~ seq_at m q i p.
Proof.
  intros Hok. destruct (decide (0 <= q < Z.of_nat (rc_size m))) as [Hq|Hq].
  - destruct (ro_back m Hok (Z.to_nat q)) as [E|(i & Hi & E & Hin)]; [lia| |].
    + right. intros i p H. apply (no_tail_no_seq m (Z.to_nat q) i p Hok E). by rewrite Z2Nat.id by lia.
    + left. exists i, (mc_pos (cells_of m !!! i)). rewrite Z2Nat.id in Hin by lia. by split.
  - right. intros i p H. destruct (seq_at_tail m q i p Hok H). lia.
Qed.

Lemma together_spec m q q' : rec_ok m -> together m q q' = true <-> exists i p, seq_at m q i p /\ seq_at m q' i p.
Proof.
  intros Hok. pose proof (ro_len m Hok) as Hl. unfold together. rewrite !andb_true_iff, !bool_decide_eq_true. split.
  - intros ((Hq & Hq') & H). destruct (cells_of m !! Z.to_nat q) as [c|] eqn:Hc; [|done].
    destruct (cells_of m !! Z.to_nat q') as [c'|] eqn:Hc'; [|done]. apply andb_true_iff in H as [H1%Z.leb_le H2%Z.eqb_eq].
    pose proof (lookup_lt_Some _ _ _ Hc). pose proof (lookup_lt_Some _ _ _ Hc').
    apply list_lookup_total_correct in Hc, Hc'. subst c c'.
    pose proof (tail_seq_at m (Z.to_nat q) Hok ltac:(lia) H1) as A1. rewrite H2 in H1. pose proof (tail_seq_at m (Z.to_nat q') Hok ltac:(lia) H1) as A2.
    rewrite <- H2 in A2. rewrite Z2Nat.id in A1, A2 by lia. eauto.
  - intros (i & p & H1 & H2). destruct (seq_at_tail _ _ _ _ Hok H1) as [Hr1 E1]. destruct (seq_at_tail _ _ _ _ Hok H2) as [Hr2 E2].
    split; [lia|]. rewrite !(list_lookup_lookup_total_lt (cells_of m)) by (rewrite Hl; lia). rewrite E1, E2, Z.eqb_refl, andb_true_r. apply Z.leb_le. lia.
Qed.

(** The view of a memory with the same states of which [f] decides the sequences. *)
Lemma view_ext m m' st st' q q0 : rec_ok m -> rec_ok m' -> length st = rc_size m -> length st' = rc_size m' ->
  (forall p x, (exists i, seq_at m' q i p /\ st' !! i = Some x) <-> exists i, seq_at m q0 i p /\ st !! i = Some x) ->
  view m' st' q = view m st q0.
Proof.
  intros Hok Hok' Hl Hl' H. destruct (view m st q0) as [[p x]|] eqn:E.
  - apply view_spec; [done..|]. apply H. by apply view_spec in E.
  - destruct (view m' st' q) as [[p x]|] eqn:E'; [|done]. exfalso. apply view_spec in E'; [|done..]. apply H in E'. apply view_spec in E'; [|done..]. congruence.
Qed.

End View.

(** * The states of the recurrent memory through the graph of a ubatch. *)


Section Graph.
Context {E S : Type} (zero : S).
Implicit Types (u : llama_ubatch E) (st rows : list S) (x : S) (cx : @Rec.rec_context E).

(** A ubatch of the context: its slot, the states it starts from, and the states
    [f] the graph computes from them. *)
Definition graph_step m st cx u (f : list S -> list S) : outcome (llama_memory_recurrent * list S) :=
  '(_, m, cx) ← Rec.apply m cx;
  copy ← Rec.set_input m cx;
  '(main, st) ← Rec.build_rs zero st copy (u_n_seqs u) (Rec.get_head m cx) (Rec.get_rs_z m cx);
  st ← Rec.store st (Rec.get_head m cx) (f main);
  Ret (m, st).

(** ** Its specification *)

(** The states the sets start from. *)
Definition starts u (v : Z -> option (Z * S)) : list S :=
  map (fun q => match v (Z.of_nat q) with Some (_, x) => x | None => zero end) (firsts u).

(** The sequences of set [s] end at its last position, with state number [s]. *)
Definition after u (v : Z -> option (Z * S)) rows (q : Z) : option (Z * S) :=
  match list_find (fun ids => q ∈ ids) (sets_of u) with
  | Some (s, _) => x ← rows !! s; Some (last_of u s, x)
  | None => v q
  end.

Lemma find_set n u q : fits n u -> match list_find (fun ids => q ∈ ids) (sets_of u) with
  | Some (s, ids) => sets_of u !! s = Some ids /\ q ∈ ids
  | None => q ∉ concat (sets_of u)
  end.
Proof.
  intros Hu. destruct (list_find _ _) as [[s ids]|] eqn:Hf.
  - by apply list_find_Some in Hf as (H1 & H2 & _).
  - apply list_find_None in Hf. intros (s & ids & H1 & H2)%in_sets_case. rewrite Forall_forall in Hf.
    apply (Hf ids); [by eapply list_elem_of_lookup_2|done].
Qed.

(** ** The copies *)

Lemma set_input_ok m cx : length (cells_of m) = rc_size m -> Rec.rx_full cx = false -> 0 <= rc_head m -> 0 <= rc_n m ->
  rc_head m + rc_n m <= Z.of_nat (rc_size m) ->
  exists copy, Rec.set_input m cx = Ret copy /\ length copy = Z.to_nat (rc_n m)
    /\ forall i, (i < Z.to_nat (rc_n m))%nat -> copy !! i = Some (source m (head_nat m + i)).
Proof.
  intros Hl Hf Hh Hn Hr. unfold Rec.set_input, Rec.get_n_rs. rewrite Hf.
  apply (foldM_interval _ (fun k copy => length copy = k /\ forall i, (i < k)%nat -> copy !! i = Some (source m (head_nat m + i)))).
  - split; [done|lia].
  - intros k copy Hk [Hlc H]. unfold Rec.s_copy. rewrite cell_Ret by lia. cbn [mbind outcome_bind]. eexists. split; [reflexivity|].
    rewrite length_app. split; [simpl; lia|]. intros i Hi. destruct (decide (i = k)) as [->|Hne].
    + rewrite list_lookup_middle by done. unfold source, head_nat. rewrite decide_True by lia. do 3 f_equal. lia.
    + rewrite lookup_app_l by lia. apply H. lia.
Qed.

Section Step.
Context m m' st u (Hm : rec_inv zero m st) (Hu : fits (rc_size m) u) (Hs : slotted u m m').

Let h := head_nat m'.
Let n := Z.to_nat (rc_n m').

Lemma step_sizes : rec_ok m' /\ rc_size m' = rc_size m /\ length st = rc_size m /\ 0 <= rc_head m' /\ (u_n_seqs u <= n)%nat
  /\ (h + n <= rc_size m)%nat /\ Z.of_nat h = rc_head m' /\ Z.of_nat n = rc_n m'.
Proof using All.
  pose proof (sl_range _ _ _ Hs) as (H1 & H2 & H3). pose proof (sl_size _ _ _ Hs) as H4.
  split; [apply Hs|]. split; [done|]. split; [apply Hm|]. unfold h, n, head_nat. lia.
Qed.

(** The cleared states. *)
Definition cleared : list S := if 0 <=? rc_rs_z m' then <[Z.to_nat (rc_rs_z m') := zero]> st else st.

Lemma cleared_length : length cleared = rc_size m.
Proof using All. unfold cleared. rewrite <- (ri_len _ _ _ Hm). destruct (0 <=? _); [apply length_insert|done]. Qed.

Lemma cleared_live q i p : q ∉ joiners (sets_of u) -> seq_at m q i p -> cleared !! i = st !! i.
Proof using All.
  intros Hq H. pose proof (sl_zero _ _ _ Hs q i p H Hq) as Hne. unfold cleared. destruct (Z.leb_spec 0 (rc_rs_z m')); [|done].
  rewrite list_lookup_insert_ne; [done|lia].
Qed.

Lemma cleared_zero i : (0 <= rc_rs_z m' /\ source m' i = rc_rs_z m') \/ (exists k, source m' i = Z.of_nat k /\ idle m k) ->
  cleared !! Z.to_nat (source m' i) = Some zero.
Proof using All.
  destruct step_sizes as (_ & _ & Hl & _ & _ & Hhn & Eh & En). unfold cleared. intros [[Hz ->]|(k & -> & Hk)].
  - rewrite (proj2 (Z.leb_le 0 _)) by done. apply list_lookup_insert_eq. destruct (sl_rs _ _ _ Hs); lia.
  - rewrite Nat2Z.id. pose proof (ri_idle _ _ _ Hm k Hk) as Hx. destruct (Z.leb_spec 0 (rc_rs_z m')); [|done].
    destruct (decide (Z.to_nat (rc_rs_z m') = k)) as [->|Hne]; [|by rewrite list_lookup_insert_ne].
    apply list_lookup_insert_eq. by apply lookup_lt_Some in Hx.
Qed.

(** A set starts from the state of its first sequence, or from nothing. *)
Lemma cleared_start s q : firsts u !! s = Some q ->
  cleared !! Z.to_nat (source m' (h + s)) = Some (match view m st (Z.of_nat q) with Some (_, x) => x | None => zero end).
Proof using All.
  unfold h. intros Hq. pose proof (ri_ok _ _ _ Hm) as Hok. pose proof (ri_len _ _ _ Hm) as Hl.
  destruct (seq_at_dec m (Z.of_nat q) Hok) as [(i & p & H)|Hno].
  - rewrite (sl_first _ _ _ Hs s q i p Hq H), Nat2Z.id, (cleared_live (Z.of_nat q) i p); [|by eapply first_not_joiner|done].
    destruct (view_at m st (Z.of_nat q) i p Hok Hl H) as (x & -> & ->). done.
  - rewrite (view_none m st (Z.of_nat q) Hok Hl Hno). apply cleared_zero. by apply (sl_fresh _ _ _ Hs s q).
Qed.

(** What is in the cells after the copies. *)
Record copied st1 : Prop := {
  cp_len : length st1 = rc_size m;
  cp_cell i : ~ (h <= i < h + u_n_seqs u)%nat -> (i < rc_size m)%nat -> st1 !! i = cleared !! Z.to_nat (source m' i);
}.

Lemma build_rs_ok copy : length copy = n -> (forall i, (i < n)%nat -> copy !! i = Some (source m' (h + i))) ->
  exists st1, Rec.build_rs zero st copy (u_n_seqs u) (rc_head m') (rc_rs_z m') = Ret (starts u (view m st), st1) /\ copied st1.
Proof using All.
  intros Hlc Hcopy. destruct step_sizes as (_ & Hsz & Hl & Hh & Hr & Hhn & Eh & En). unfold Rec.build_rs.
  assert (Hc : (if 0 <=? rc_rs_z m' then set_ st (Z.to_nat (rc_rs_z m')) zero else Ret st) = Ret cleared).
  { unfold cleared. destruct (Z.leb_spec 0 (rc_rs_z m')); [|done]. apply set_Ret. split; [|done]. destruct (sl_rs _ _ _ Hs); lia. }
  rewrite Hc. cbn [mbind outcome_bind]. pose proof cleared_length as Hcl.
  assert (Hsrc : forall i z, copy !! i = Some z -> 0 <= z < Z.of_nat (length cleared)).
  { intros i z Hi. pose proof (lookup_lt_Some _ _ _ Hi) as Hlt. rewrite Hlc in Hlt. rewrite Hcopy in Hi by done. injection Hi as <-.
    rewrite Hcl. apply (sl_sources _ _ _ Hs). unfold h, n in *. lia. }
  destruct (get_rows_ok cleared (take (u_n_seqs u) copy)) as (main & -> & Hlm & Hmain).
  { intros z (i & Hi)%list_elem_of_lookup. apply lookup_take_Some in Hi as [Hi _]. by eapply Hsrc. }
  cbn [mbind outcome_bind]. destruct (get_rows_ok cleared (drop (u_n_seqs u) copy)) as (extra & -> & Hle & Hextra).
  { intros z (i & Hi)%list_elem_of_lookup. rewrite lookup_drop in Hi. by eapply Hsrc. }
  cbn [mbind outcome_bind]. rewrite length_drop, Hlc in Hle.
  destruct (rec_write_rows_ok cleared (Z.to_nat (rc_head m') + u_n_seqs u) extra) as (st1 & -> & Hl1 & H1); [lia|]. cbn [mbind outcome_bind].
  exists st1. split; [f_equal; f_equal|].
  - apply list_eq. intros s. destruct (firsts u !! s) as [q|] eqn:Hq.
    + pose proof (lookup_lt_Some _ _ _ Hq) as Hlt. rewrite <- firsts_length in Hlt.
      rewrite (Hmain s (source m' (h + s))) by (rewrite lookup_take_lt by done; apply Hcopy; lia).
      unfold starts. rewrite list_lookup_fmap, Hq. by apply cleared_start.
    + unfold starts. rewrite list_lookup_fmap, Hq. apply lookup_ge_None. apply lookup_ge_None in Hq. rewrite <- firsts_length in Hq.
      rewrite Hlm, length_take, Hlc. lia.
  - constructor; [congruence|]. intros i Hi Hin. rewrite H1. fold (head_nat m'). fold h.
    destruct (decide (h + u_n_seqs u <= i < h + u_n_seqs u + length extra)%nat) as [Hx|Hx].
    + rewrite (Hextra _ (source m' i)); [done|]. rewrite lookup_drop, Hcopy by lia. do 2 f_equal. lia.
    + unfold source. rewrite decide_False by lia. by rewrite Nat2Z.id.
Qed.

(** The new states of the sets are written over their cells. *)
Lemma store_ok st1 rows : copied st1 -> length rows = u_n_seqs u ->
  exists st2, Rec.store st1 (rc_head m') rows = Ret st2 /\ rec_inv zero m' st2
    /\ forall q, view m' st2 q = after u (view m st) rows q.
Proof using All.
  intros [Hl1 H1] Hlr. destruct step_sizes as (Hok' & Hsz & Hl & Hh & Hr & Hhn & Eh & En). pose proof (ri_ok _ _ _ Hm) as Hok.
  destruct (rec_write_rows_ok st1 (Z.to_nat (rc_head m')) rows) as (st2 & E2 & Hl2 & H2); [lia|]. exists st2. split; [done|].
  fold (head_nat m') in H2. fold h in H2. rewrite Hlr in H2.
  assert (Hst2 : forall i, ~ (h <= i < h + u_n_seqs u)%nat -> (i < rc_size m)%nat -> st2 !! i = cleared !! Z.to_nat (source m' i)).
  { intros i Hi Hin. rewrite H2, decide_False by done. by apply H1. }
  split.
  - constructor; [done|congruence|]. intros i Hi. pose proof (sl_idle _ _ _ Hs i Hi) as [Hno Hsrc].
    destruct Hi as [Hi _]. rewrite Hst2; [by apply cleared_zero|done|lia].
  - intros q. unfold after. pose proof (find_set (rc_size m) u q Hu) as Hf. destruct (list_find _ _) as [[s ids]|].
    + destruct Hf as [Hids Hq]. destruct (sets_lookup _ u Hu s ids Hids) as (Hsn & _).
      destruct (lookup_lt_is_Some_2 rows s) as [x Hx]; [lia|]. rewrite Hx. cbn [mbind option_bind].
      apply view_spec; [done|congruence|]. exists (h + s)%nat. split; [by apply (sl_here _ _ _ Hs s ids)|].
      rewrite H2, decide_True by lia. replace (h + s - h)%nat with s by lia. done.
    + apply view_ext; [done|done|done|congruence|]. intros p x. pose proof (sl_other _ _ _ Hs q p Hf) as Ho.
      assert (Hj : q ∉ joiners (sets_of u)) by (intros Hin; by apply Hf, joiner_in_sets). split.
      * intros (i' & H' & Hx). destruct (proj1 Ho ltac:(by exists i')) as [i H]. exists i. split; [done|].
        destruct (sl_source _ _ _ Hs q i i' p p Hf H H') as [Es Hno]. rewrite <- (cleared_live q i p Hj H).
        rewrite Hst2, Es, Nat2Z.id in Hx; [done|done|]. destruct H'. lia.
      * intros (i & H & Hx). destruct (proj2 Ho ltac:(by exists i)) as [i' H']. exists i'. split; [done|].
        destruct (sl_source _ _ _ Hs q i i' p p Hf H H') as [Es Hno]. rewrite Hst2, Es, Nat2Z.id; [|done|destruct H'; lia].
        by rewrite (cleared_live q i p Hj H).
Qed.

End Step.

(** The step as a whole. *)
Lemma graph_step_ok m st cx u f : rec_inv zero m st -> fits (rc_size m) u ->
  Rec.rx_status cx = LLAMA_MEMORY_STATUS_SUCCESS -> Rec.rx_full cx = false -> Rec.rx_ubatches cx !! Rec.rx_i_next cx = Some u ->
  (forall l, length (f l) = length l) ->
  exists m' st', graph_step m st cx u f = Ret (m', st') /\ rec_inv zero m' st' /\ rc_size m' = rc_size m
    /\ forall q, view m' st' q = after u (view m st) (f (starts u (view m st))) q.
Proof.
  intros Hm Hu Hst Hf Hi Hlf. unfold graph_step, Rec.apply. rewrite Hst. cbn [llama_memory_status_is_fail negb c_assert mbind outcome_bind].
  destruct (Rec.rx_ubatches cx) as [|u0 us] eqn:Eus; [done|]. rewrite (proj2 (at_Ret _ _ u) Hi). cbn [mbind outcome_bind].
  destruct (rec_find_slot_ok u m (ri_ok _ _ _ Hm) Hu) as (m' & -> & Hs). cbn [mbind outcome_bind].
  destruct (step_sizes m m' st u Hm Hu Hs) as (Hok' & Hsz & Hl & Hh & Hr & Hhn & Eh & En).
  destruct (set_input_ok m' cx) as (copy & -> & Hlc & Hcopy); [apply Hok'|done|done|lia|lia|]. cbn [mbind outcome_bind].
  unfold Rec.get_head, Rec.get_rs_z. rewrite Hf.
  destruct (build_rs_ok m m' st u Hm Hu Hs copy Hlc Hcopy) as (st1 & -> & Hc). cbn [mbind outcome_bind].
  destruct (store_ok m m' st u Hm Hu Hs st1 (f (starts u (view m st))) Hc) as (st2 & -> & Hm' & Hv).
  { rewrite Hlf. unfold starts. by rewrite length_map, <- firsts_length. }
  exists m', st2. by split.
Qed.

End Graph.
