(* ===== verification/RecurrentTheorems.v ===== *)
(** * From an accepted batch to the recurrent memory.

    The sequential equal split gives ubatches for which a slot is found, and
    leaves every sequence of the batch at the position of its last token. *)

From S2P Require Import Prelude Batch BatchFacts BatchTheorems BatchInit KvCells KvCellsFacts KvCache KvCacheFacts KvContext KvBatch.
From S2P Require Import Decode DecodeFacts Recurrent RecurrentFacts RecurrentSteps RecurrentSlot RecurrentStage RecurrentFind.
From S2P Require Import RecurrentView DecodeRun DecodeTheorems.
From Stdlib Require Import Lia.

Section RecurrentBatch.
Context {E : Type}.
Notation llama_ubatch := (@llama_ubatch E).
Implicit Types (a : @llama_batch_allocr E) (u : llama_ubatch).

(** An accepted batch without coupled sequences, of sequences below [n]. *)
Record plain_batch (n : nat) a : Prop := {
  pb_ok : batch_ok a;
  pb_single i ids : (i < n_tokens (batch a))%nat -> token_seqs (batch a) i ids -> exists s, ids = [s];
  pb_sets i ids : (i < n_tokens (batch a))%nat -> token_seqs (batch a) i ids -> seq_set a !! i = Some (list_to_set ids);
  pb_cpl : has_cpl a = false;
  pb_nonempty : sets_nonempty a;
  pb_max : (Batch.n_seq_max a <= n)%nat;
}.

(** The sequence of token [i]. *)
Lemma token_single n a i : plain_batch n a -> (i < n_tokens (batch a))%nat ->
  exists s, token_seqs (batch a) i [s] /\ seq_set a !! i = Some {[ s ]} /\ 0 <= s < Z.of_nat n.
Proof.
  intros Hb Hi. destruct (bt_token a (pb_ok n a Hb) i Hi) as (ids & Hids & _ & _ & Hr).
  destruct (pb_single n a Hb i ids Hi Hids) as [s ->]. exists s. split; [done|].
  split; [rewrite (pb_sets n a Hb i [s] Hi Hids); f_equal; set_solver|].
  specialize (Hr s ltac:(left)). pose proof (pb_max n a Hb). lia.
Qed.

Lemma init_plain n a inp n_vocab memory n_embd n_seq_max output_all a1 :
  init a inp n_vocab memory n_embd n_seq_max output_all = Ret (Some a1) ->
  arrays_ok inp n_embd (n_pos_per_embd a) -> (0 < n_seq_max)%nat -> n_pos_per_embd a = 1%nat ->
  (forall i ids, token_seqs (batch a1) i ids -> NoDup ids) -> (forall i p, pos (batch a1) !! i = Some p -> 0 <= p) -> has_cpl a1 = false -> (n_seq_max <= n)%nat ->
  plain_batch n a1 /\ (0 < n_tokens (batch a1))%nat.
Proof.
  intros H Har Hs Hp Hnd Hpos Hc Hn.
  destruct (init_tokens _ _ _ _ _ _ _ _ H Har Hs) as (Hn0 & Hpe & Hsm & _ & Htok).
  assert (Hsingle : forall i ids, (i < n_tokens (batch a1))%nat -> token_seqs (batch a1) i ids -> exists s, ids = [s]).
  { intros i ids Hi Hids. pose proof (init_single _ _ _ _ _ _ _ _ H Hc i ids Hi Hids) as Hle.
    destruct (Htok i Hi) as (ids' & Hids' & Hne & _). unfold token_seqs in *. assert (ids' = ids) as -> by congruence.
    destruct ids as [|s [|s' ids]]; [done|by exists s|simpl in Hle; lia]. }
  destruct (init_ok _ _ _ _ _ _ _ _ H Har) as [Hok Hne]. split; [|done]. constructor; try done.
  - constructor; try done; [congruence|intros i Hi; rewrite Hsm; by apply Htok].
  - by eapply init_sets.
  - lia.
Qed.

(** ** The ubatches fit *)

Lemma NoDup_concat_disjoint {A} (ls : list (list A)) : (forall s l, ls !! s = Some l -> NoDup l) ->
  (forall s s' l l' x, ls !! s = Some l -> ls !! s' = Some l' -> x ∈ l -> x ∈ l' -> s = s') -> NoDup (concat ls).
Proof.
  induction ls as [|l ls IH]; intros Hn Hd; [constructor|]. simpl. apply NoDup_app. split; [by apply (Hn 0%nat)|]. split.
  - intros x Hx (l' & Hl' & Hx')%list_elem_of_In%in_concat. apply list_elem_of_In, list_elem_of_lookup in Hl' as [s Hs].
    apply list_elem_of_In in Hx'. by specialize (Hd 0%nat (S s) l l' x eq_refl Hs Hx Hx').
  - apply IH; [intros s l' Hs; by apply (Hn (S s))|]. intros s s' l1 l2 x H1 H2 Hx1 Hx2.
    specialize (Hd (S s) (S s') l1 l2 x H1 H2 Hx1 Hx2). lia.
Qed.

Section Groups.
Context (n : nat) a u (groups : list (list nat)) (m : nat) (sets : list (gset Z)).
Hypotheses (Hb : plain_batch n a) (Hd : describes a (concat groups) (length groups) u) (Hm : (1 <= m)%nat)
  (Hu : uniform m groups) (Hsets : Forall2 (fun set g => forall i, i ∈ g -> seq_set a !! i = Some set) sets groups)
  (Hdis : pairwise_disjoint sets) (Hin : forall i, i ∈ concat groups -> (i < n_tokens (batch a))%nat)
  (Hpos : (0 < length groups)%nat) (Heq : u_equal_seqs u = true).

Lemma groups_tokens : u_n_seqs u = length groups /\ u_n_seq_tokens u = m.
Proof using All.
  pose proof (ds_seqs _ _ _ _ Hd) as H1. pose proof (ds_rect _ _ _ _ Hd) as H2. rewrite (length_concat_uniform m) in H2 by done. split; [done|]. nia.
Qed.

(** Token [k] of group [s]. *)
Lemma group_token s g k i : groups !! s = Some g -> g !! k = Some i -> exists q p, seq_set a !! i = Some {[ q ]}
  /\ 0 <= q < Z.of_nat n /\ pos (batch a) !! i = Some p /\ 0 <= p /\ sets !! s = Some {[ q ]}
  /\ u_seq_id u !! (s * m + k)%nat = Some [q] /\ u_n_seq_id u !! (s * m + k)%nat = Some 1 /\ u_pos u !! (s * m + k)%nat = Some p.
Proof using All.
  intros Hs Hk. assert (Hkm : (k < m)%nat).
  { apply lookup_lt_Some in Hk. unfold uniform in Hu. rewrite Forall_forall in Hu. rewrite (Hu g) in Hk; [done|by eapply list_elem_of_lookup_2]. }
  assert (Ht : concat groups !! (s * m + k)%nat = Some i) by (rewrite lookup_uniform, Hs by done; exact Hk).
  pose proof (Hin i ltac:(by eapply list_elem_of_lookup_2)) as Hi.
  destruct (described_token a (concat groups) (length groups) u (pb_ok n a Hb) Hd Hin _ i Ht) as (ids & p & Hids & Hp & E1 & E2 & E3).
  destruct (token_single n a i Hb Hi) as (q & Hq & Hset & Hr). unfold token_seqs in *. assert (ids = [q]) as -> by congruence.
  destruct (Forall2_lookup_r _ _ _ _ _ Hsets Hs) as (c & Hc & Hg). specialize (Hg i ltac:(by eapply list_elem_of_lookup_2)).
  exists q, p. split_and!; try done; try lia; [by apply (bt_pos a (pb_ok n a Hb) i)|congruence].
Qed.

Lemma group_at s : (s < length groups)%nat -> exists g q i p, groups !! s = Some g /\ last g = Some i /\ seq_set a !! i = Some {[ q ]}
  /\ 0 <= q < Z.of_nat n /\ sets !! s = Some {[ q ]} /\ pos (batch a) !! i = Some p /\ 0 <= p
  /\ u_seq_id u !! (s * m)%nat = Some [q] /\ u_n_seq_id u !! (s * m)%nat = Some 1 /\ u_pos u !! (s * m + m - 1)%nat = Some p.
Proof using All.
  intros Hs. destruct (lookup_lt_is_Some_2 groups s Hs) as [g Hg].
  assert (Hl : length g = m). { unfold uniform in Hu. rewrite Forall_forall in Hu. apply Hu. by eapply list_elem_of_lookup_2. }
  destruct (lookup_lt_is_Some_2 g 0) as [i0 Hi0]; [lia|]. destruct (lookup_lt_is_Some_2 g (m - 1)) as [i Hi]; [lia|].
  destruct (group_token s g 0 i0 Hg Hi0) as (q0 & p0 & _ & Hr0 & _ & _ & Hc0 & E1 & E2 & _).
  destruct (group_token s g (m - 1) i Hg Hi) as (q & p & Hq & Hr & Hp & Hp0 & Hc & _ & _ & E3).
  assert (q0 = q) as ->. { assert (({[ q0 ]} : gset Z) = {[ q ]}) as E0 by congruence. assert (q0 ∈ ({[ q ]} : gset Z)) by (rewrite <- E0; set_solver). set_solver. }
  rewrite Nat.add_0_r in E1, E2. replace (s * m + (m - 1))%nat with (s * m + m - 1)%nat in E3 by lia.
  exists g, q, i, p. split_and!; try done; try lia. rewrite last_lookup, Hl. by replace (Init.Nat.pred m) with (m - 1)%nat by lia.
Qed.

(** The set and the last position of group [s]. *)
Lemma group_set s g i q : groups !! s = Some g -> last g = Some i -> seq_set a !! i = Some {[ q ]} ->
  sets_of u !! s = Some [q] /\ pos (batch a) !! i = Some (last_of u s).
Proof using All.
  intros Hs Hi Hq. destruct groups_tokens as [En Et]. pose proof (lookup_lt_Some _ _ _ Hs) as Hlt.
  destruct (group_at s Hlt) as (g' & q' & i' & p & Hs' & Hi' & Hq' & _ & _ & Hp & _ & E1 & _ & E3).
  assert (g' = g) as -> by congruence. assert (i' = i) as -> by congruence.
  assert (q' = q) as ->. { assert (({[ q' ]} : gset Z) = {[ q ]}) as E0 by congruence. assert (q' ∈ ({[ q ]} : gset Z)) by (rewrite <- E0; set_solver). set_solver. }
  unfold sets_of, last_of. rewrite En, Et, E3. split; [|done]. rewrite list_lookup_fmap, lookup_seq_lt by done. simpl. by rewrite E1.
Qed.

Lemma sets_groups s ids : sets_of u !! s = Some ids -> exists g q i, groups !! s = Some g /\ last g = Some i
  /\ seq_set a !! i = Some {[ q ]} /\ ids = [q] /\ 0 <= q < Z.of_nat n /\ sets !! s = Some {[ q ]}.
Proof using All.
  intros H. destruct groups_tokens as [En _]. assert (Hs : (s < length groups)%nat).
  { apply lookup_lt_Some in H. by rewrite sets_length, En in H. }
  destruct (group_at s Hs) as (g & q & i & p & Hg & Hi & Hq & Hr & Hc & _). exists g, q, i.
  destruct (group_set s g i q Hg Hi Hq) as [E1 _]. split_and!; try done; [congruence|lia|lia].
Qed.

Lemma group_fits : fits n u.
Proof using All.
  destruct groups_tokens as [En Et]. constructor; [done|lia| | | |].
  - intros s Hs. rewrite En in Hs. rewrite Et. destruct (group_at s Hs) as (g & q & i & p & _ & _ & _ & _ & _ & _ & _ & E1 & E2 & _).
    by exists q, [].
  - intros s Hs. rewrite En in Hs. rewrite Et. destruct (group_at s Hs) as (g & q & i & p & _ & _ & _ & _ & _ & _ & Hp & _ & _ & E3).
    by exists p.
  - apply NoDup_concat_disjoint.
    + intros s ids H. destruct (sets_groups s ids H) as (_ & q & _ & _ & _ & _ & -> & _). apply NoDup_singleton.
    + intros s s' ids ids' x H H' Hx Hx'. destruct (sets_groups s ids H) as (_ & q & _ & _ & _ & _ & -> & _ & Hc).
      destruct (sets_groups s' ids' H') as (_ & q' & _ & _ & _ & _ & -> & _ & Hc'). apply list_elem_of_singleton in Hx, Hx'. subst q q'.
      destruct (decide (s = s')) as [|Hne]; [done|]. specialize (Hdis s s' _ _ Hc Hc' Hne). set_solver.
  - intros q (s & ids & H & Hq)%in_sets_case. destruct (sets_groups s ids H) as (_ & q' & _ & _ & _ & _ & -> & Hr & _).
    apply list_elem_of_singleton in Hq. by subst q'.
Qed.

End Groups.

(** ** How far the sequences have come *)

(** The last used token of sequence [q] is number [i]. *)
Definition front a (q : Z) (i : nat) : Prop := used a !! i = Some true /\ seq_set a !! i = Some {[ q ]}
  /\ forall j, used a !! j = Some true -> seq_set a !! j = Some {[ q ]} -> (j <= i)%nat.

(** The last position of a sequence in the ubatches. *)
Definition advance (q : Z) (acc : option Z) u : option Z :=
  match list_find (fun ids => q ∈ ids) (sets_of u) with Some (s, _) => Some (last_of u s) | None => acc end.
Definition final us (q : Z) : option Z := fold_left (advance q) us None.

Definition reached a us : Prop := forall q, match final us q with
  | Some p => exists i, front a q i /\ pos (batch a) !! i = Some p
  | None => forall i, used a !! i = Some true -> seq_set a !! i <> Some {[ q ]}
  end.

Lemma split_equal_eq a n_ubatch sequential u a' : split_equal a n_ubatch sequential = Ret (u, a') -> u_n_tokens u <> 0%nat ->
  u_equal_seqs u = true.
Proof.
  unfold split_equal. destruct (_ && _); [by intros [= <- _]|]. intros H Hn. apply bind_Ret in H as (sets & _ & H).
  case_bool_decide; [by injection H as <- _|]. apply bind_Ret in H as (gs & _ & H). apply bind_Ret in H as ([[gs' u'] n'] & _ & H).
  unfold ubatch_add in H. apply bind_Ret in H as (_ & _ & H). apply bind_Ret in H as (d & _ & H). apply bind_Ret in H as (p & _ & H).
  apply bind_Ret in H as ([ids idx] & _ & H). by injection H as <- _.
Qed.

Lemma plain_splits n a u a' idxs n_seqs : plain_batch n a -> splits a u a' idxs n_seqs -> plain_batch n a'.
Proof.
  intros [[Hok Hpe Htok Hnd Hpos] Hs1 Hs2 Hc Hne Hmax] Hsp. pose proof (splits_ok _ _ _ _ _ Hok Hsp) as Hok'. rewrite (sp_state _ _ _ _ _ Hsp) in *.
  by constructor.
Qed.

Lemma reached_step n a u a' groups us : plain_batch n a -> splits a u a' (concat groups) (length groups) -> equal_groups a groups ->
  latest a (used a') groups -> u_equal_seqs u = true -> reached a us -> fits n u /\ reached a' (us ++ [u]).
Proof.
  intros Hb [Hd Ht Hst Hne] (m & sets & Hm & Hu & Hsets & Hdis) Hlat Heq Hr.
  assert (Hin : forall i, i ∈ concat groups -> (i < n_tokens (batch a))%nat).
  { intros i Hi. apply (tk_free _ _ _ Ht), lookup_lt_Some in Hi. by rewrite (ok_used _ (bt_alloc a (pb_ok n a Hb))) in Hi. }
  assert (Hpos : (0 < length groups)%nat) by (destruct groups; [done|simpl; lia]).
  assert (Hfits : fits n u) by (by eapply (group_fits n a u groups m sets)). split; [done|].
  intros q. unfold final. rewrite fold_left_app. cbn [fold_left]. fold (final us q). unfold advance.
  assert (Hsame : seq_set a' = seq_set a /\ batch a' = batch a) by (by rewrite Hst). destruct Hsame as [Es Eb].
  destruct (list_find _ _) as [[s ids]|] eqn:Hf.
  - apply list_find_Some in Hf as (Hs & Hq & _).
    destruct (sets_groups n a u groups m sets Hb Hd Hm Hu Hsets Hdis Hin Hpos Heq s ids Hs) as (g & q' & i & Hg & Hi & Hset & -> & _).
    apply list_elem_of_singleton in Hq. subst q'.
    destruct (group_set n a u groups m sets Hb Hd Hm Hu Hsets Hdis Hin Hpos Heq s g i q Hg Hi Hset) as [_ Hp].
    exists i. rewrite Eb. split; [|done]. unfold front. rewrite Es. split_and!; [|done|].
    + rewrite (tk_used _ _ _ Ht), bool_decide_eq_true_2; [done|]. apply list_elem_of_In, in_concat. exists g.
      split; apply list_elem_of_In; [by eapply list_elem_of_lookup_2|]. rewrite last_lookup in Hi. by eapply list_elem_of_lookup_2.
    + intros j Hj Hjq. unfold latest in Hlat. rewrite Forall_forall in Hlat.
      apply (Hlat g ltac:(by eapply list_elem_of_lookup_2) i Hi j Hj). congruence.
  - apply list_find_None in Hf. rewrite Forall_forall in Hf.
    assert (Hnot : forall i, i ∈ concat groups -> seq_set a !! i <> Some {[ q ]}).
    { intros i Hi Hiq. apply list_elem_of_In, in_concat in Hi as (g & Hg & Hi). apply list_elem_of_In in Hg, Hi.
      apply list_elem_of_lookup in Hg as [s Hs]. apply list_elem_of_lookup in Hi as [k Hk].
      destruct (group_at n a u groups m sets Hb Hd Hm Hu Hsets Hdis Hin Hpos Heq s ltac:(by eapply lookup_lt_Some))
        as (g' & q' & i' & p & Hs' & Hi' & Hq' & _ & Hc & _).
      destruct (group_set n a u groups m sets Hb Hd Hm Hu Hsets Hdis Hin Hpos Heq s g' i' q' Hs' Hi' Hq') as [Hset _].
      apply (Hf [q']); [by eapply list_elem_of_lookup_2|]. assert (g' = g) as -> by congruence.
      assert (({[ q' ]} : gset Z) = {[ q ]}) as E0.
      { pose proof (Forall2_lookup_lr _ _ _ _ _ _ Hsets Hc Hs i ltac:(by eapply list_elem_of_lookup_2)) as H. congruence. }
      assert (q' ∈ ({[ q ]} : gset Z)) by (rewrite <- E0; set_solver). set_solver. }
    assert (Hback : forall j, used a' !! j = Some true -> seq_set a !! j = Some {[ q ]} -> used a !! j = Some true).
    { intros j Hj Hjq. rewrite (tk_used _ _ _ Ht) in Hj. case_bool_decide as Hc; [by destruct (Hnot j Hc)|done]. }
    specialize (Hr q). destruct (final us q) as [p|].
    + destruct Hr as (i & (H1 & H2 & H3) & Hp). exists i. rewrite Eb. split; [|done]. unfold front. rewrite Es. split_and!; [|done|].
      * rewrite (tk_used _ _ _ Ht). by case_bool_decide.
      * intros j Hj Hjq. apply H3; [by apply Hback|done].
    + intros i Hi. rewrite Es. intros Hiq. by apply (Hr i (Hback i Hi Hiq)).
Qed.

Lemma split_loop_walk n n_ubatch fuel : forall a us0, plain_batch n a -> fronts_used a ->
  (n_tokens (batch a) - n_used a < fuel)%nat -> reached a us0 ->
  exists us a', split_loop fuel (Equal true) n_ubatch a = Ret (us, a') /\ Forall (fits n) us /\ reached a' (us0 ++ us)
    /\ n_used a' = n_tokens (batch a') /\ plain_batch n a' /\ batch a' = batch a /\ seq_set a' = seq_set a.
Proof.
  induction fuel as [|fuel IH]; intros a us0 Hb Hfr Hf Hr; [lia|]. cbn [split_loop]. pose proof (bt_alloc a (pb_ok n a Hb)) as Hok.
  destruct (decide (n_used a = n_tokens (batch a))) as [Hn|Hn].
  { rewrite split_by_done by done. cbn. exists [], a. rewrite app_nil_r. by split_and!. }
  destruct (split_equal_step a n_ubatch true Hok Hfr (pb_nonempty n a Hb) (fun _ => pb_cpl n a Hb) Hn)
    as (u & a1 & groups & Esp & Hs & Hfr1 & Heg & _ & Hlat).
  cbn [split_by]. rewrite Esp. cbn [mbind outcome_bind]. pose proof Hs as [Hd Ht Hst Hne].
  assert (Hl : (0 < length (concat groups))%nat) by (destruct (concat groups); [done|simpl; lia]).
  assert (Hn0 : u_n_tokens u <> 0%nat) by (rewrite (ds_n _ _ _ _ Hd); lia). rewrite (proj2 (Nat.eqb_neq _ _) Hn0).
  destruct (reached_step n a u a1 groups us0 Hb Hs Heg Hlat) as [Hfu Hr1]; [by eapply split_equal_eq|done|].
  assert (Hle : (n_used a <= n_tokens (batch a))%nat).
  { rewrite (ok_count _ Hok), <- (ok_used _ Hok). apply filter_length_le. }
  destruct (IH a1 (us0 ++ [u])) as (us & a2 & E2 & Hfs & Hr2 & H1 & H2 & H3 & H4);
    [by eapply plain_splits|done|rewrite Hst; simpl; lia|done|].
  rewrite E2. cbn [mbind outcome_bind]. exists (u :: us), a2. rewrite <- app_assoc in Hr2.
  split_and!; try done; [by constructor|rewrite H3, Hst; done|rewrite H4, Hst; done].
Qed.

(** The ubatches of a batch. *)
Lemma plain_split n n_ubatch a : plain_batch n a -> exists us a', split_all (Equal true) n_ubatch a = Ret (Some us, a')
  /\ Forall (fits n) us
  /\ forall q, match final us q with
     | Some p => exists i, seq_set a !! i = Some {[ q ]} /\ pos (batch a) !! i = Some p
         /\ forall j, seq_set a !! j = Some {[ q ]} -> (j <= i)%nat
     | None => forall i, seq_set a !! i <> Some {[ q ]}
     end.
Proof.
  intros Hb. pose proof Hb as [[Hok Hpe Htok Hnd Hpos] Hs1 Hs2 Hc Hne Hmax]. unfold split_all.
  assert (Hb' : plain_batch n (split_reset a)) by (constructor; try done; constructor; try done; by apply reset_ok).
  destruct (reset_ready (Equal true) a (conj Hne (fun _ => Hc))) as (Hfr & _ & _).
  destruct (split_loop_walk n n_ubatch (S (get_n_tokens a)) (split_reset a) [] Hb' Hfr) as (us & a' & Esp & Hfs & Hr & Hn & Hb2 & Eb & Es).
  { simpl. unfold get_n_tokens. lia. }
  { intros q. simpl. intros i Hi. apply lookup_replicate in Hi as [? _]. done. }
  rewrite Esp. cbn [mbind outcome_bind]. exists us, a'. rewrite app_nil_l in Hr.
  assert (Hlt : (get_n_used a' <? get_n_tokens a')%nat = false) by (apply Nat.ltb_ge; unfold get_n_used, get_n_tokens; lia). rewrite Hlt.
  split; [done|]. split; [done|].
  assert (Hall : forall i, seq_set a !! i = Some (default ∅ (seq_set a !! i)) -> used a' !! i = Some true).
  { intros i Hi. apply lookup_lt_Some in Hi. pose proof (bt_alloc a' (pb_ok n a' Hb2)) as Hok2.
    destruct (lookup_lt_is_Some_2 (used a') i) as [x Hx].
    { rewrite (ok_used _ Hok2), Eb. simpl. by rewrite <- (ok_sets _ Hok). }
    by rewrite (used_all a' Hok2 Hn i x Hx) in Hx. }
  intros q. specialize (Hr q). simpl in Es. destruct (final us q) as [p|].
  - destruct Hr as (i & (H1 & H2 & H3) & Hp). rewrite Es in H2, H3. rewrite Eb in Hp. exists i. split_and!; [done|done|].
    intros j Hj. apply H3; [|done]. apply Hall. by rewrite Hj.
  - intros i Hi. apply (Hr i); [apply Hall; by rewrite Hi|by rewrite Es].
Qed.

End RecurrentBatch.

(** * What the recurrent memory does for its callers. *)

Implicit Types (m : llama_memory_recurrent) (c : mem_cell) (s i j : nat) (p : Z).

(** ** Operations on sequences *)

Inductive rec_op :=
  | OpClear
  | OpRm (s p0 p1 : Z)
  | OpCp (s d p0 p1 : Z)
  | OpKeep (s : Z)
  | OpAdd (s p0 p1 shift : Z)
  | OpDiv (s p0 p1 d : Z).

(** The operation, and whether it was refused. *)
Definition run_op m (op : rec_op) : outcome (bool * llama_memory_recurrent) :=
  match op with
  | OpClear => m ← Rec.clear m; Ret (true, m)
  | OpRm s p0 p1 => Rec.seq_rm m s p0 p1
  | OpCp s d p0 p1 => m ← Rec.seq_cp m s d p0 p1; Ret (true, m)
  | OpKeep s => m ← Rec.seq_keep m s; Ret (true, m)
  | OpAdd s p0 p1 shift => m ← Rec.seq_add m s p0 p1 shift; Ret (true, m)
  | OpDiv s p0 p1 d => m ← Rec.seq_div m s p0 p1 d; Ret (true, m)
  end.

Section Ops.
Context {S : Type} (zero : S).
Implicit Types (st : list S) (v : Z -> option (Z * S)).

Definition in_posb (p0 p1 p : Z) : bool := (Kv.lower p0 <=? p) && (p <? Kv.upper p1).

Lemma in_posb_spec p0 p1 p : in_posb p0 p1 p = true <-> in_pos p0 p1 p.
Proof. unfold in_posb, in_pos. rewrite andb_true_iff, Z.leb_le, Z.ltb_lt. done. Qed.

(** An id the memory has a tail for. *)
Definition id_of (n : nat) (q : Z) : bool := (0 <=? q) && (q <? Z.of_nat n).

(** The position of the sequence lies in the range. *)
Definition affected v (q p0 p1 : Z) : bool :=
  match v q with Some (p, _) => in_posb p0 p1 p | None => false end.

(** The map the operation leaves in a memory of [n] cells; [share q s]: the
    sequences [q] and [s] share a cell. *)
Definition spec_op v n (share : Z -> Z -> bool) (op : rec_op) (q : Z) : option (Z * S) :=
  match op with
  | OpClear => None
  | OpRm s p0 p1 => if affected v s p0 p1 && (Kv.lower p0 <=? 0) && (q =? s) then None else v q
  | OpCp s d _ _ => if id_of n s && id_of n d && (q =? d) then v s else v q
  | OpKeep s => if q =? s then v q else None
  | OpAdd s p0 p1 shift =>
      if affected v s p0 p1 && share s q then (fun '(p, x) => (p + shift, x)) <$> v q else v q
  | OpDiv s p0 p1 d =>
      if affected v s p0 p1 && share s q then (fun '(p, x) => (Z.quot p d, x)) <$> v q else v q
  end.

Definition is_id (q : Z) : Prop := - 2 ^ 31 <= q < 2 ^ 31.

(** Any ids; but not the removal of all sequences at once, and positions stay
    positive. *)
Definition op_fits v (op : rec_op) : Prop :=
  match op with
  | OpClear | OpKeep _ => True
  | OpRm s p0 p1 => 0 <= s \/ ~ (Kv.lower p0 = 0 /\ Kv.upper p1 = INT32_MAX)
  | OpCp s d _ _ => is_id s /\ is_id d
  | OpAdd s p0 p1 shift => forall p x, v s = Some (p, x) -> in_pos p0 p1 p -> 0 <= p + shift
  | OpDiv s _ _ d => 0 < d
  end.

Lemma rec_inv_keeps (K : Z -> bool) m m' st : rec_inv zero m st -> keeps K m m' -> rec_inv zero m' st
  /\ forall q, view m' st q = if K q then view m st q else None.
Proof.
  intros [Hok Hl Hi] (Hok' & Hsz & Hat & Hid). split; [constructor; [done|congruence|auto]|].
  intros q. destruct (K q) eqn:HK.
  - apply view_ext; [done|done|done|congruence|]. intros p x. split; intros (i & H & Hx); exists i; (split; [|done]);
      [by apply Hat in H as [H _]|by apply Hat].
  - apply view_none; [done|congruence|]. intros i p H. apply Hat in H as [_ H]. congruence.
Qed.

(** A change of the memory that keeps the states where they are. *)
Lemma rec_inv_same m m' st : rec_inv zero m st -> rec_ok m' -> rc_size m' = rc_size m -> (forall i, idle m' i -> idle m i) -> rec_inv zero m' st.
Proof. intros [Hok Hl Hi] H1 H2 H3. constructor; [done|congruence|auto]. Qed.

Lemma affected_spec m st s p0 p1 : rec_inv zero m st -> affected (view m st) (Z.of_nat s) p0 p1 = true <-> exists i, shifted m s p0 p1 i.
Proof.
  intros [Hok Hl _]. unfold affected, shifted. destruct (view m st (Z.of_nat s)) as [[p x]|] eqn:E.
  - apply view_spec in E as (i & H & _); [|done..]. rewrite in_posb_spec. split; [intros Hp; by exists i, p|].
    intros (i' & p' & H' & Hp). by destruct (seq_at_unique _ _ _ _ _ _ Hok H H') as [_ ->].
  - split; [done|]. intros (i & p & H & _). destruct (view_at m st _ i p Hok Hl H) as (x & _ & H'). congruence.
Qed.

(** Moving the cell of [s] moves all sequences of the cell. *)
Lemma move_view m m' st s p0 p1 (g : Z -> Z) q : rec_inv zero m st -> rec_ok m' -> rc_size m' = rc_size m ->
  (forall q i p, seq_at m' q i p <-> exists p', seq_at m q i p' /\ ((shifted m s p0 p1 i /\ p = g p') \/ (~ shifted m s p0 p1 i /\ p = p'))) ->
  view m' st q = if affected (view m st) (Z.of_nat s) p0 p1 && together m (Z.of_nat s) q then (fun '(p, x) => (g p, x)) <$> view m st q else view m st q.
Proof.
  intros Hm Hok' Hsz Hat. pose proof Hm as [Hok Hl _].
  destruct (affected (view m st) (Z.of_nat s) p0 p1 && together m (Z.of_nat s) q) eqn:E.
  - apply andb_true_iff in E as [(i & Hsh)%affected_spec Ht]; [|done]. apply together_spec in Ht as (i' & p & H1 & H2); [|done].
    pose proof Hsh as (p' & H3 & _). destruct (seq_at_unique _ _ _ _ _ _ Hok H1 H3) as [-> ->].
    destruct (view_at m st q i p' Hok Hl H2) as (x & Hx & ->). simpl. apply view_spec; [done|congruence|].
    exists i. split; [|done]. apply Hat. exists p'. split; [done|by left].
  - apply view_ext; [done|done|done|congruence|]. intros p x. split; intros (i & H & Hx); exists i; (split; [|done]).
    + apply Hat in H as (p' & H & [[Hsh _]|[_ ->]]); [|done]. exfalso. pose proof Hsh as (p2 & H2 & _).
      apply andb_false_iff in E as [E|E]; apply not_true_iff_false in E; apply E.
      * apply affected_spec; [done|by exists i].
      * apply together_spec; [done|]. exists i, p2. split; [done|]. destruct H as (? & ? & ?), H2 as (? & ? & <-). by split.
    + apply Hat. exists p. split; [done|]. right. split; [|done]. intros Hsh. pose proof Hsh as (p2 & H2 & _).
      apply andb_false_iff in E as [E|E]; apply not_true_iff_false in E; apply E.
      * apply affected_spec; [done|by exists i].
      * apply together_spec; [done|]. exists i, p2. split; [done|]. destruct H as (? & ? & ?), H2 as (? & ? & <-). by split.
Qed.

(** The refused operations: removing the last position without the first one, an id
    that is too great, and a part of all sequences. *)
Definition refused v n (op : rec_op) : bool :=
  match op with
  | OpRm s p0 p1 =>
      (Z.of_nat n <=? s) || (affected v s p0 p1 && (0 <? Kv.lower p0)) || ((s <? 0) && negb (Kv.lower p0 =? Kv.upper p1))
  | _ => false
  end.

Lemma rm_view m st s p0 p1 : rec_inv zero m st -> (s < rc_size m)%nat -> exists b m', Rec.seq_rm m (Z.of_nat s) p0 p1 = Ret (b, m')
  /\ rec_inv zero m' st /\ rc_size m' = rc_size m /\ b = negb (refused (view m st) (rc_size m) (OpRm (Z.of_nat s) p0 p1))
  /\ forall q, view m' st q = spec_op (view m st) (rc_size m) (together m) (OpRm (Z.of_nat s) p0 p1) q.
Proof.
  intros Hm Hs. pose proof Hm as [Hok Hl _]. destruct (rec_seq_rm_ok m s p0 p1 Hok Hs) as (b & m' & -> & Hb & Hsame & Hok' & Hsz & Hid & Hat).
  assert (Hpart : partial_rm m s p0 p1 <-> refused (view m st) (rc_size m) (OpRm (Z.of_nat s) p0 p1) = true).
  { cbn [refused]. rewrite (proj2 (Z.leb_gt _ _)), (proj2 (Z.ltb_ge (Z.of_nat s) 0)) by lia. cbn [orb andb]. rewrite orb_false_r, andb_true_iff, (affected_spec m st s p0 p1 Hm), Z.ltb_lt. unfold partial_rm, shifted. split.
    - intros (i & p & H & H0 & Hp). split; [by exists i, p|done].
    - intros [(i & p & H & Hp) H0]. by exists i, p. }
  exists b, m'. split; [done|]. split; [by eapply rec_inv_same|]. split; [done|].
  assert (Eb : b = negb (refused (view m st) (rc_size m) (OpRm (Z.of_nat s) p0 p1))).
  { apply eq_true_iff_eq. rewrite Hb, Hpart, negb_true_iff. by destruct (refused _ _). }
  split; [done|]. intros q. cbn [spec_op refused] in *.
  rewrite (proj2 (Z.leb_gt _ _)), (proj2 (Z.ltb_ge (Z.of_nat s) 0)) in Eb by lia. cbn [orb andb] in Eb. rewrite orb_false_r in Eb. destruct b.
  - symmetry in Eb. apply negb_true_iff in Eb. specialize (Hat eq_refl).
    destruct (affected (view m st) (Z.of_nat s) p0 p1) eqn:Ea; cbn [andb] in *.
    + apply Z.ltb_ge in Eb. rewrite (proj2 (Z.leb_le _ _) Eb). cbn [andb]. destruct (Z.eqb_spec q (Z.of_nat s)) as [->|Hq].
      * apply view_none; [done|congruence|]. intros i p H. apply Hat in H as [H Hno]. apply Hno. split; [done|].
        apply (affected_spec m st s p0 p1 Hm) in Ea as (i' & p' & H' & Hp). by destruct (seq_at_unique _ _ _ _ _ _ Hok H H') as [_ ->].
      * apply view_ext; [done|done|done|congruence|]. intros p x. split; intros (i & H & Hx); exists i; (split; [|done]);
          [by apply Hat in H as [H _]|apply Hat; split; [done|by intros [? _]]].
    + apply view_ext; [done|done|done|congruence|]. intros p x. split; intros (i & H & Hx); exists i; (split; [|done]);
        [by apply Hat in H as [H _]|apply Hat; split; [done|]]. intros [-> Hp].
      apply not_true_iff_false in Ea. apply Ea, (affected_spec m st s p0 p1 Hm). by exists i, p.
  - rewrite (Hsame eq_refl). symmetry in Eb. apply negb_false_iff, andb_true_iff in Eb as [Ea E0]. rewrite Ea.
    apply Z.ltb_lt in E0. rewrite (proj2 (Z.leb_gt _ _) E0). done.
Qed.

Lemma cp_view m st s d p0 p1 : rec_inv zero m st -> (s < rc_size m)%nat -> (d < rc_size m)%nat ->
  exists m', Rec.seq_cp m (Z.of_nat s) (Z.of_nat d) p0 p1 = Ret m' /\ rec_inv zero m' st /\ rc_size m' = rc_size m
  /\ forall q, view m' st q = spec_op (view m st) (rc_size m) (together m) (OpCp (Z.of_nat s) (Z.of_nat d) p0 p1) q.
Proof.
  intros Hm Hs Hd. pose proof Hm as [Hok Hl _].
  assert (Hids : forall j, (j < rc_size m)%nat -> id_of (rc_size m) (Z.of_nat j) = true).
  { intros j Hj. unfold id_of. rewrite (proj2 (Z.leb_le 0 _)), (proj2 (Z.ltb_lt _ _)) by lia. done. }
  cbn [spec_op]. rewrite !Hids by done. cbn [andb]. destruct (decide (s = d)) as [->|Hne].
  { unfold Rec.seq_cp. rewrite Z.eqb_refl. exists m. do 3 (split; [done|]). intros q.
    by destruct (Z.eqb_spec q (Z.of_nat d)) as [->|]. }
  destruct (seq_cp_ok m s d p0 p1 Hok Hs Hd Hne) as (m' & -> & Hok' & Hsz & Hid & Hat). exists m'.
  split; [done|]. split; [by eapply rec_inv_same|]. split; [done|]. intros q.
  destruct (Z.eqb_spec q (Z.of_nat d)) as [->|Hq]; (apply view_ext; [done|done|done|congruence|]); intros p x;
    split; intros (i & H & Hx); exists i; (split; [|done]).
  - apply Hat in H as [[H _]|[_ H]]; done.
  - apply Hat. by right.
  - apply Hat in H as [[_ H]|[H _]]; done.
  - apply Hat. by left.
Qed.

Lemma move_op_view m st s p0 p1 (same : bool) f (g : Z -> Z) : rec_inv zero m st -> (s < rc_size m)%nat ->
  (same = true -> forall p, g p = p) -> (forall p x, view m st (Z.of_nat s) = Some (p, x) -> in_pos p0 p1 p -> f p = Ret (g p) /\ 0 <= g p) ->
  exists m', (if same then Ret m else Rec.move m (Z.of_nat s) p0 p1 f) = Ret m' /\ rec_inv zero m' st /\ rc_size m' = rc_size m
  /\ forall q, view m' st q = if affected (view m st) (Z.of_nat s) p0 p1 && together m (Z.of_nat s) q
       then (fun '(p, x) => (g p, x)) <$> view m st q else view m st q.
Proof.
  intros Hm Hs Hsame Hf. pose proof Hm as [Hok Hl _]. destruct same.
  - exists m. do 3 (split; [done|]). intros q. destruct (_ && _); [|done]. destruct (view m st q) as [[p x]|]; [|done]. simpl. by rewrite Hsame.
  - destruct (move_ok m s p0 p1 f g Hok Hs) as (m' & -> & Hok' & Hsz & Hid & Hat).
    { intros i p H Hp. destruct (view_at m st _ i p Hok Hl H) as (x & _ & E). by apply (Hf p x). }
    exists m'. split; [done|]. split; [by eapply rec_inv_same|]. split; [done|]. intros q. by apply move_view.
Qed.

(** Ids without a tail. *)
Lemma id_of_nat n (q : Z) : id_of n q = true -> exists i, (i < n)%nat /\ q = Z.of_nat i.
Proof. unfold id_of. rewrite andb_true_iff, Z.leb_le, Z.ltb_lt. intros H. exists (Z.to_nat q). lia. Qed.

Lemma view_no_id m st (q : Z) : rec_inv zero m st -> id_of (rc_size m) q = false -> view m st q = None.
Proof.
  intros [Hok Hl _] Hq. apply view_none; [done|done|]. intros i p H.
  destruct (seq_at_tail _ _ _ _ Hok H) as [Hr _]. unfold id_of in Hq. rewrite andb_false_iff, Z.leb_gt, Z.ltb_ge in Hq. lia.
Qed.

Lemma not_affected m st (q : Z) p0 p1 : rec_inv zero m st -> id_of (rc_size m) q = false -> affected (view m st) q p0 p1 = false.
Proof. intros Hm Hq. unfold affected. by rewrite view_no_id. Qed.

(** What does nothing. *)
Lemma rm_no_id m st (q : Z) p0 p1 : rec_inv zero m st -> id_of (rc_size m) q = false -> op_fits (view m st) (OpRm q p0 p1) ->
  Rec.seq_rm m q p0 p1 = Ret (negb (refused (view m st) (rc_size m) (OpRm q p0 p1)), m).
Proof.
  intros Hm Hq Hfit. pose proof Hm as [Hok Hl _]. cbn [refused op_fits] in *. rewrite not_affected by done. cbn [andb]. rewrite orb_false_r.
  unfold id_of in Hq. rewrite andb_false_iff, Z.leb_gt, Z.ltb_ge in Hq. unfold Rec.seq_rm, Rec.size_z.
  destruct (Z.leb_spec (Z.of_nat (rc_size m)) q); [done|]. cbn [orb]. rewrite (proj2 (Z.ltb_lt q 0)) by lia.
  unfold Rec.rm_tail. rewrite (proj2 (Z.leb_gt 0 q)) by lia. cbn [andb]. rewrite negb_involutive.
  destruct (Z.eqb_spec (Kv.lower p0) (Kv.upper p1)) as [E|E]; cbn [negb andb].
  - cbn [mbind outcome_bind]. rewrite foldM_never; [cbn [mbind outcome_bind]; unfold Rec.lower_head; by rewrite Nat.eqb_refl|].
    intros j Hj. unfold Rec.rm_cell. rewrite cell_nat by (rewrite (ro_len m Hok); lia). cbn [mbind outcome_bind].
    destruct (Z.leb_spec (Kv.lower p0) (mc_pos (cells_of m !!! j))); [|done]. rewrite (proj2 (Z.ltb_ge _ _)) by lia. done.
  - destruct (Z.eqb_spec (Kv.lower p0) 0), (Z.eqb_spec (Kv.upper p1) INT32_MAX); cbn [negb orb]; try done.
    exfalso. destruct Hfit as [?|Hfit]; [lia|by apply Hfit].
Qed.

Lemma cp_no_id m (s d : Z) p0 p1 : rec_ok m -> is_id s -> is_id d -> id_of (rc_size m) s && id_of (rc_size m) d = false ->
  Rec.seq_cp m s d p0 p1 = Ret m.
Proof.
  intros Hok Hs Hd H. pose proof (ro_small m Hok). unfold Rec.seq_cp. destruct (s =? d); [done|].
  assert (Hid : forall q, is_id q -> (u32 q <? Rec.size_z m) = id_of (rc_size m) q).
  { intros q Hq. unfold is_id, id_of, Rec.size_z, u32 in *. apply eq_true_iff_eq. rewrite andb_true_iff, Z.leb_le, !Z.ltb_lt.
    destruct (Z.leb_spec 0 q); [rewrite Z.mod_small by lia; lia|].
    rewrite <- (Z.mod_add q 1), Z.mod_small by lia. lia. }
  rewrite !Hid by done. by rewrite andb_comm, H.
Qed.

Lemma move_no_id m (q : Z) p0 p1 f : id_of (rc_size m) q = false -> Rec.move m q p0 p1 f = Ret m.
Proof. intros H. unfold Rec.move, Rec.size_z. unfold id_of in H. rewrite H. by destruct (_ =? _). Qed.

Lemma rm_refused m st (q : Z) p0 p1 : rec_inv zero m st -> op_fits (view m st) (OpRm q p0 p1) ->
  refused (view m st) (rc_size m) (OpRm q p0 p1) = true -> Rec.seq_rm m q p0 p1 = Ret (false, m).
Proof.
  intros Hm Hfit Href. pose proof Hm as [Hok _ _]. destruct (id_of (rc_size m) q) eqn:Eq.
  - destruct (id_of_nat _ _ Eq) as (i & Hi & ->). destruct (rec_seq_rm_ok m i p0 p1 Hok Hi) as (b & m' & E & _ & Hsame & _).
    destruct (rm_view m st i p0 p1 Hm Hi) as (b2 & m2 & E2 & _ & _ & Hb & _). rewrite E in E2. injection E2 as <- <-.
    rewrite Href in Hb. subst b. by rewrite E, Hsame.
  - rewrite (rm_no_id m st) by done. by rewrite Href.
Qed.

Lemma run_op_ok m st op : rec_inv zero m st -> op_fits (view m st) op ->
  exists m', run_op m op = Ret (negb (refused (view m st) (rc_size m) op), m') /\ rec_inv zero m' st /\ rc_size m' = rc_size m
    /\ forall q, view m' st q = spec_op (view m st) (rc_size m) (together m) op q.
Proof.
  intros Hm Hop. pose proof Hm as [Hok Hl _].
  destruct op as [|s p0 p1|s d p0 p1|s|s p0 p1 shift|s p0 p1 d]; cbn [run_op] in *.
  - destruct (rec_clear_ok m Hok) as (m' & -> & Hk). destruct (rec_inv_keeps _ _ _ _ Hm Hk) as [H1 H2].
    exists m'. split; [done|]. split; [done|]. split; [by destruct Hk as (_ & ? & _)|done].
  - destruct (id_of (rc_size m) s) eqn:Es.
    + destruct (id_of_nat _ _ Es) as (i & Hi & ->). destruct (rm_view m st i p0 p1 Hm Hi) as (b & m' & -> & H1 & H2 & -> & H4). by exists m'.
    + rewrite (rm_no_id m st) by done. exists m. do 3 (split; [done|]). intros q. cbn [spec_op]. by rewrite not_affected.
  - destruct Hop as [Hs Hd]. destruct (id_of (rc_size m) s && id_of (rc_size m) d) eqn:E.
    + apply andb_true_iff in E as [(i & Hi & ->)%id_of_nat (j & Hj & ->)%id_of_nat].
      destruct (cp_view m st i j p0 p1 Hm Hi Hj) as (m' & -> & H). by exists m'.
    + rewrite cp_no_id by done. exists m. do 3 (split; [done|]). intros q. cbn [spec_op]. by rewrite E.
  - destruct (rec_seq_keep_ok m s Hok) as (m' & -> & Hk). destruct (rec_inv_keeps _ _ _ _ Hm Hk) as [H1 H2].
    exists m'. split; [done|]. split; [done|]. split; [by destruct Hk as (_ & ? & _)|done].
  - destruct (id_of (rc_size m) s) eqn:Es.
    + destruct (id_of_nat _ _ Es) as (i & Hi & ->).
      destruct (move_op_view m st i p0 p1 (shift =? 0) (fun p => Ret (p + shift)) (fun p => p + shift) Hm Hi)
        as (m' & E & H1 & H2 & H3); [intros E0 p; apply Z.eqb_eq in E0; lia|intros p x Hv Hin; split; [done|by apply (Hop p x)]|].
      unfold Rec.seq_add. rewrite E. by exists m'.
    + exists m. unfold Rec.seq_add. rewrite move_no_id by done. rewrite Tauto.if_same. do 3 (split; [done|]).
      intros q. cbn [spec_op]. by rewrite not_affected.
  - destruct (id_of (rc_size m) s) eqn:Es.
    + destruct (id_of_nat _ _ Es) as (i & Hi & ->). cbn [op_fits] in Hop.
      destruct (move_op_view m st i p0 p1 (d =? 1) (fun p => if d =? 0 then Undef else Ret (Z.quot p d)) (fun p => Z.quot p d) Hm Hi)
        as (m' & E & H1 & H2 & H3).
      * intros E0 p. apply Z.eqb_eq in E0. subst d. apply Z.quot_1_r.
      * intros p x Hv Hin. rewrite (proj2 (Z.eqb_neq d 0)) by lia. split; [done|]. apply view_spec in Hv as (j & (Hj & Hq & Hp) & _); [|done..].
        apply Z.quot_pos; [|lia]. destruct (ro_full m Hok j Hj) as [Hge _]; [set_solver|]. lia.
      * unfold Rec.seq_div. rewrite E. by exists m'.
    + exists m. unfold Rec.seq_div. rewrite move_no_id by done. rewrite Tauto.if_same. do 3 (split; [done|]).
      intros q. cbn [spec_op]. by rewrite not_affected.
Qed.

End Ops.

(** ** The ubatches of a context *)

Section Run.
Context {E S : Type} (zero : S).
Implicit Types (u : llama_ubatch E) (us : list (llama_ubatch E)) (st : list S) (v : Z -> option (Z * S)) (cx : @Rec.rec_context E).

(** The loop over the ubatches; [f u] is what the graph of [u] makes of the states. *)
Fixpoint graph_run (fuel : nat) m st cx (f : llama_ubatch E -> list S -> list S) : outcome (llama_memory_recurrent * list S) :=
  match fuel with
  | O => NoFuel
  | Datatypes.S fuel =>
      u ← Rec.get_ubatch cx;
      '(m, st) ← graph_step zero m st cx u (f u);
      '(more, cx) ← Rec.next cx;
      if more : bool then graph_run fuel m st cx f else Ret (m, st)
  end.

(** One ubatch on the map from sequences to positions and states. *)
Definition spec_step (f : llama_ubatch E -> list S -> list S) v u : Z -> option (Z * S) := after u v (f u (starts zero u v)).

Lemma spec_step_ext f v v' u : (forall q, v q = v' q) -> forall q, spec_step f v u q = spec_step f v' u q.
Proof.
  intros H q. unfold spec_step. assert (Es : starts zero u v = starts zero u v') by (apply map_ext; intros z; by rewrite H).
  rewrite Es. unfold after. by destruct (list_find _ _) as [[s ids]|].
Qed.

Lemma spec_steps_ext f us : forall v v', (forall q, v q = v' q) -> forall q, fold_left (spec_step f) us v q = fold_left (spec_step f) us v' q.
Proof. induction us as [|u us IH]; intros v v' H q; [apply H|]. simpl. apply IH. intros q'. by apply spec_step_ext. Qed.

Lemma graph_run_ok f us : (forall u l, length (f u l) = length l) -> forall m st us0, us <> [] -> rec_inv zero m st ->
  Forall (fits (rc_size m)) us -> exists m' st',
  graph_run (length us) m st (Rec.mk_rec_context LLAMA_MEMORY_STATUS_SUCCESS (length us0) (us0 ++ us) false) f = Ret (m', st')
  /\ rec_inv zero m' st' /\ rc_size m' = rc_size m /\ forall q, view m' st' q = fold_left (spec_step f) us (view m st) q.
Proof.
  intros Hf. induction us as [|u us IH]; intros m st us0 Hne Hm Hus; [done|]. apply Forall_cons in Hus as [Hu Hus].
  set (cx := Rec.mk_rec_context LLAMA_MEMORY_STATUS_SUCCESS (length us0) (us0 ++ u :: us) false).
  assert (Hi : Rec.rx_ubatches cx !! Rec.rx_i_next cx = Some u) by (unfold cx; simpl; by apply list_lookup_middle).
  destruct (graph_step_ok zero m st cx u (f u) Hm Hu) as (m1 & st1 & E1 & Hm1 & Hsz1 & Hv1); try done.
  cbn [graph_run length]. unfold Rec.get_ubatch. cbn [Rec.rx_status Context.is_success c_assert mbind outcome_bind cx].
  rewrite (proj2 (at_Ret _ _ u) Hi). cbn [mbind outcome_bind]. fold cx. rewrite E1. cbn [mbind outcome_bind].
  unfold Rec.next. cbn [Rec.rx_status Context.is_success c_assert mbind outcome_bind Rec.rx_ubatches Rec.rx_i_next Rec.rx_full cx].
  rewrite length_app. cbn [length]. destruct us as [|u' us].
  - rewrite (proj2 (Nat.leb_le _ _)) by (simpl; lia). cbn [negb]. exists m1, st1. by split_and!.
  - rewrite (proj2 (Nat.leb_gt _ _)) by (simpl; lia). cbn [negb].
    destruct (IH m1 st1 (us0 ++ [u])) as (m' & st' & E2 & Hm' & Hsz' & Hv'); [done|done|by rewrite Hsz1|].
    rewrite <- app_assoc, length_app in E2. cbn [length app] in E2. rewrite Nat.add_1_r in E2. exists m', st'.
    split; [exact E2|]. split; [done|]. split; [congruence|]. intros q. rewrite Hv'. change (fold_left (spec_step f) (u :: u' :: us) (view m st) q) with (fold_left (spec_step f) (u' :: us) (spec_step f (view m st) u) q).
    apply spec_steps_ext. exact Hv1.
Qed.

End Run.

(** ** The theorems *)

(** C23. The memory is a map from sequences to a position and a state, however the
    cells are shared and moved: after the ubatches of a context were computed,
    every set of sequences of a ubatch is at its last position with the state
    that the graph made from the state of its first sequence, or from the
    cleared state when it had none; every other sequence has the position and
    the state it had before.  The cells are intact and no search fails. *)
Theorem recurrent_states {E S} (zero : S) m (st : list S) (us : list (llama_ubatch E)) f :
  rec_inv zero m st -> Forall (fits (rc_size m)) us -> us <> [] -> (forall u l, length (f u l) = length l) ->
  exists m' st', graph_run zero (length us) m st (Rec.rec_batch us) f = Ret (m', st') /\ rec_inv zero m' st' /\ rc_size m' = rc_size m
    /\ forall q, view m' st' q = fold_left (spec_step zero f) us (view m st) q.
Proof. intros Hm Hus Hne Hf. by apply (graph_run_ok zero f us Hf m st []). Qed.

(** C24. The operations on sequences, with any ids, refine operations on that map:
    a removal takes the sequence out when its position lies in the range, and
    removes nothing, with success, when it does not; a copy gives the destination
    the position and state of the source, whatever the range; a shift and a
    division change the position of the sequence and of the sequences that share
    its cell; ids without a cell hold no sequence. Refused, with the memory
    unchanged, are the removal of a range that holds the position but does not
    start at 0, of an id that is too great, and of a part of all sequences ([seq_id
    < 0]). Not covered are the removal of all sequences at once, which breaks the
    invariant ([RecurrentExamples.rm_any_leaves_tails]), shifts to positions below
    0 and divisors that are not positive. *)
Theorem recurrent_operations {S} (zero : S) m (st : list S) op :
  rec_inv zero m st -> op_fits (view m st) op ->
  exists m', run_op m op = Ret (negb (refused (view m st) (rc_size m) op), m') /\ rec_inv zero m' st /\ rc_size m' = rc_size m
    /\ (refused (view m st) (rc_size m) op = true -> m' = m)
    /\ forall q, view m' st q = spec_op (view m st) (rc_size m) (together m) op q.
Proof.
  intros Hm Hop. destruct (run_op_ok zero m st op Hm Hop) as (m' & E & H1 & H2 & H3). exists m'.
  do 3 (split; [done|]). split; [|done]. intros Href. destruct op; try done.
  cbn [run_op] in E. rewrite (rm_refused zero m st) in E by done. congruence.
Qed.
