(* ===== verification/RecurrentDecode.v ===== *)
(** * Decoding with a recurrent memory. *)

From S2P Require Import Prelude Batch BatchFacts BatchTheorems BatchInit.
From S2P Require Import KvCells KvCellsFacts KvCache KvCacheFacts KvContext KvBatch Decode DecodeFacts DecodeRun DecodeTheorems.
From S2P Require Import Recurrent RecurrentFacts RecurrentSteps RecurrentSlot RecurrentStage RecurrentFind RecurrentView RecurrentTheorems.
From Stdlib Require Import Lia.

Implicit Types (m : llama_memory_recurrent) (s i j : nat) (p : Z).

Section RecDecode.
Context {E F : Type}.
Notation llama_ubatch := (@llama_ubatch E).
Notation rec_context := (@Rec.rec_context E).
Implicit Types (a : @llama_batch_allocr E) (u : llama_ubatch) (us : list llama_ubatch) (cx : rec_context).

(** ** Preparing *)

Lemma rec_ok_same m m' : rec_ok m -> rc_cells m' = rc_cells m -> rc_size m' = rc_size m -> rc_head m' = rc_head m ->
  rc_used m' = rc_used m -> rec_ok m'.
Proof.
  intros [] Ec Es Eh Eu. constructor; rewrite ?Ec, ?Es, ?Eh, ?Eu; try done. unfold Rec.count_used in *. by rewrite Ec.
Qed.

Lemma find_slots_ok us : forall m, rec_ok m -> Forall (fits (rc_size m)) us -> exists m',
  foldM (fun '(ok, m) u => if negb ok then Ret (ok, m) else Rec.find_slot m u) (true, m) us = Ret (true, m')
  /\ rc_size m' = rc_size m.
Proof.
  induction us as [|u us IH]; intros m Hok Hus; [by exists m|]. apply Forall_cons in Hus as [Hu Hus]. cbn [foldM negb].
  destruct (rec_find_slot_ok u m Hok Hu) as (m1 & -> & Hs). cbn [mbind outcome_bind]. pose proof (sl_size _ _ _ Hs) as Hsz.
  destruct (IH m1 (sl_ok _ _ _ Hs)) as (m' & -> & Hsz'); [by rewrite Hsz|]. exists m'. split; [done|congruence].
Qed.

(** Preparing leaves the memory, but for the range of the last ubatch. *)
Definition only_range m m' : Prop := rc_cells m' = rc_cells m /\ rc_size m' = rc_size m /\ rc_head m' = rc_head m /\ rc_used m' = rc_used m.

Lemma rec_prepare_ok m us : rec_ok m -> Forall (fits (rc_size m)) us ->
  exists m', Rec.prepare m us = Ret (true, m') /\ only_range m m' /\ rec_ok m'.
Proof.
  intros Hok Hus. unfold Rec.prepare. destruct (find_slots_ok us m Hok Hus) as (m' & -> & Hsz). cbn [mbind outcome_bind].
  eexists. split; [reflexivity|]. assert (Ho : only_range m (Rec.with_used (Rec.with_head (Rec.with_cells m' (rc_cells m)) (rc_head m)) (rc_used m))) by (by split_and!).
  split; [done|]. destruct Ho as (H1 & H2 & H3 & H4). by apply (rec_ok_same m).
Qed.

(** ** Walking through the context *)

(** The position of a sequence. *)
Definition pos_at m (q : Z) (p : Z) : Prop := exists i, seq_at m q i p.

Lemma slotted_pos u m m' q p : fits (rc_size m) u -> slotted u m m' ->
  pos_at m' q p <-> match list_find (fun ids => q ∈ ids) (sets_of u) with Some (s, _) => p = last_of u s | None => pos_at m q p end.
Proof.
  intros Hu Hs. pose proof (find_set (rc_size m) u q Hu) as Hf. destruct (list_find _ _) as [[s ids]|].
  - destruct Hf as [Hids Hq]. pose proof (sl_here _ _ _ Hs s ids q Hids Hq) as H. split; [|intros ->; by eexists].
    intros [i H']. by destruct (seq_at_unique _ _ _ _ _ _ (sl_ok _ _ _ Hs) H' H).
  - by apply (sl_other _ _ _ Hs).
Qed.

Lemma fold_advance q us acc : fold_left (advance q) us (Some acc)
  = match fold_left (advance q) us None with Some p => Some p | None => Some acc end.
Proof.
  induction us as [|u us IH] using rev_ind; [done|]. rewrite !fold_left_app. simpl. unfold advance at 1 3.
  by destruct (list_find _ _) as [[s ids]|].
Qed.

Lemma rec_passes us : forall m us0, us <> [] -> rec_ok m -> Forall (fits (rc_size m)) us ->
  exists steps m', passes m (Rec.mk_rec_context LLAMA_MEMORY_STATUS_SUCCESS (length us0) (us0 ++ us) false) steps m'
    /\ map snd steps = us /\ rec_ok m' /\ rc_size m' = rc_size m
    /\ forall q p, pos_at m' q p <-> match fold_left (advance q) us None with Some p' => p = p' | None => pos_at m q p end.
Proof.
  induction us as [|u us IH]; intros m us0 Hne Hok Hus; [done|]. apply Forall_cons in Hus as [Hu Hus].
  destruct (rec_find_slot_ok u m Hok Hu) as (m1 & E1 & Hs). pose proof (sl_size _ _ _ Hs) as Hsz.
  set (cx := Rec.mk_rec_context LLAMA_MEMORY_STATUS_SUCCESS (length us0) (us0 ++ u :: us) false).
  assert (Hi : (us0 ++ u :: us) !! length us0 = Some u) by by apply list_lookup_middle.
  assert (Hget : mi_get_ubatch cx = Ret u) by (simpl; unfold Rec.get_ubatch; simpl; by apply at_Ret).
  assert (Happ : mi_apply m cx = Ret (true, m1, cx)).
  { simpl. unfold Rec.apply. simpl. assert (Hsome : exists u0 l, us0 ++ u :: us = u0 :: l) by (destruct us0; by eexists _, _).
    destruct Hsome as (u0 & l & E0). rewrite E0 in Hi |- *. rewrite (proj2 (at_Ret _ _ u) Hi). cbn [mbind outcome_bind]. by rewrite E1. }
  assert (Hpos : forall q p, match fold_left (advance q) us None with Some p' => p = p' | None => pos_at m1 q p end
    <-> match fold_left (advance q) (u :: us) None with Some p' => p = p' | None => pos_at m q p end).
  { intros q p. cbn [fold_left]. pose proof (slotted_pos u m m1 q p Hu Hs) as Hsp. unfold advance at 3.
    destruct (list_find _ (sets_of u)) as [[s ids]|]; [rewrite fold_advance|]; by destruct (fold_left (advance q) us None). }
  destruct us as [|u' us].
  - exists [(m1, u)], m1. split; [|split; [done|split; [apply Hs|split; [done|]]]].
    + eapply passes_last; [exact Hget|exact Happ|]. simpl. unfold Rec.next. simpl. f_equal. f_equal.
      rewrite length_app. simpl. apply negb_false_iff, Nat.leb_le. lia.
    + intros q p. by rewrite <- Hpos.
  - destruct (IH m1 (us0 ++ [u])) as (steps & m' & Hp & Hst & Hok' & Hsz' & Hposs); [done|apply Hs|by rewrite Hsz|].
    exists ((m1, u) :: steps), m'. split; [|split; [by rewrite <- Hst|split; [done|split; [congruence|]]]].
    + eapply passes_next; [exact Hget|exact Happ| |exact Hp]. simpl. unfold Rec.next. simpl. f_equal. f_equal.
      * rewrite length_app. simpl. apply negb_true_iff, Nat.leb_gt. lia.
      * rewrite <- app_assoc, length_app. simpl. by rewrite Nat.add_1_r.
    + intros q p. by rewrite Hposs, Hpos.
Qed.

End RecDecode.

(** ** The whole call *)

(** The position of the last token of sequence [q] in the batch. *)
Definition last_position {E} (a : @llama_batch_allocr E) (q : Z) : option Z :=
  last (omap (fun i => if bool_decide (q ∈ default ∅ (seq_set a !! i)) then pos (batch a) !! i else None)
    (seq 0 (n_tokens (batch a)))).

Lemma last_omap {A B} (f : A -> option B) (l1 l2 : list A) x y : f x = Some y -> (forall z, z ∈ l2 -> f z = None) ->
  last (omap f (l1 ++ x :: l2)) = Some y.
Proof.
  intros Hx Hn. rewrite omap_app. cbn [omap list_omap]. rewrite Hx.
  assert (E0 : omap f l2 = []).
  { induction l2 as [|z l2 IH]; [done|]. cbn [omap list_omap]. rewrite (Hn z) by left. apply IH. intros w Hw. apply Hn. by right. }
  rewrite E0. apply last_snoc.
Qed.

Section Last.
Context {E : Type} (n : nat) (a : @llama_batch_allocr E) (Hb : plain_batch n a).

Lemma single_member i q : (i < n_tokens (batch a))%nat -> q ∈ default ∅ (seq_set a !! i) <-> seq_set a !! i = Some {[ q ]}.
Proof.
  intros Hi. destruct (token_single n a i Hb Hi) as (s & _ & -> & _). simpl. rewrite elem_of_singleton. split; [by intros ->|].
  intros E0%(inj Some). assert (s ∈ ({[ q ]} : gset Z)) by (rewrite <- E0; set_solver). set_solver.
Qed.

Lemma last_position_some q i p : seq_set a !! i = Some {[ q ]} -> pos (batch a) !! i = Some p ->
  (forall j, seq_set a !! j = Some {[ q ]} -> (j <= i)%nat) -> last_position a q = Some p.
Proof.
  intros Hi Hp Hj. pose proof (bt_alloc a (pb_ok n a Hb)) as Hok.
  assert (Hlt : (i < n_tokens (batch a))%nat) by (rewrite <- (ok_sets _ Hok); by eapply lookup_lt_Some).
  unfold last_position. assert (E0 : seq 0 (n_tokens (batch a)) = seq 0 i ++ i :: seq (S i) (n_tokens (batch a) - S i)).
  { change (i :: seq (S i) (n_tokens (batch a) - S i)) with (seq (0 + i) (S (n_tokens (batch a) - S i))). rewrite <- seq_app. f_equal. lia. }
  rewrite E0. apply last_omap.
  - rewrite bool_decide_eq_true_2; [done|]. by apply single_member.
  - intros z Hz%elem_of_seq. rewrite bool_decide_eq_false_2; [done|]. rewrite single_member by lia. intros Hzq. specialize (Hj z Hzq). lia.
Qed.

Lemma last_position_none q : (forall i, seq_set a !! i <> Some {[ q ]}) -> last_position a q = None.
Proof.
  intros Hno. unfold last_position.
  assert (E0 : forall l, (forall i, i ∈ l -> (i < n_tokens (batch a))%nat) ->
    omap (fun i => if bool_decide (q ∈ default ∅ (seq_set a !! i)) then pos (batch a) !! i else None) l = []).
  { induction l as [|i l IH]; intros Hl; [done|]. cbn [omap list_omap]. rewrite bool_decide_eq_false_2.
    - apply IH. intros j Hj. apply Hl. by right.
    - rewrite single_member by (apply Hl; left). apply Hno. }
  rewrite E0; [done|]. intros i Hi%elem_of_seq. lia.
Qed.

Lemma last_position_spec q : match last_position a q with
  | Some p => exists i, seq_set a !! i = Some {[ q ]} /\ pos (batch a) !! i = Some p
      /\ forall j, seq_set a !! j = Some {[ q ]} -> (j <= i)%nat
  | None => forall i, seq_set a !! i <> Some {[ q ]}
  end.
Proof.
  destruct (plain_split n 1 a Hb) as (us & _ & _ & _ & Hfin). specialize (Hfin q). destruct (final us q) as [p|].
  - destruct Hfin as (i & H1 & H2 & H3). rewrite (last_position_some q i p H1 H2 H3). by exists i.
  - by rewrite last_position_none.
Qed.

End Last.

Section Decode.
Context {E F : Type}.
Notation llama_ubatch := (@llama_ubatch E).
Notation rec_context := (@Rec.rec_context E).
Context (model : llama_model) (cparams : llama_cparams) (alloc_buffer : Z -> bool).
Context (compute : llama_memory_recurrent -> rec_context -> llama_ubatch -> nat -> ggml_status + @graph_result F).
Context (compute_encoder : llama_ubatch -> nat -> ggml_status + @graph_result F).
Context (row : llama_memory_recurrent -> llama_ubatch -> nat -> list F).
Notation llama_context := (@llama_context E F llama_memory_recurrent).
Notation decode := (decode model cparams alloc_buffer compute compute_encoder).
Implicit Types (c : llama_context) (b : llama_batch E) (a : @llama_batch_allocr E).

(** A batch for a recurrent memory with a cell for every sequence. *)
Record rec_request (c : llama_context) (b : llama_batch E) m (a : @llama_batch_allocr E) : Prop := {
  rr_request : request model cparams alloc_buffer c b m m a;
  rr_ok : rec_ok m;
  rr_max : (batch_seq_max cparams <= rc_size m)%nat;
  rr_npos : n_pos_per_embd (lc_balloc c) = 1%nat;
  rr_nodup i ids : token_seqs (batch a) i ids -> NoDup ids;
  rr_pos i p : pos (batch a) !! i = Some p -> 0 <= p;
}.

Lemma pos_max_eq m m' q (o : option Z) : rec_ok m -> rec_ok m' ->
  (forall p, pos_at m' q p <-> match o with Some p' => p = p' | None => pos_at m q p end) ->
  Rec.seq_pos_max m' q = match o with Some p => Ret p | None => Rec.seq_pos_max m q end.
Proof.
  intros Hok Hok' H. destruct (seq_pos_ok m' q Hok') as (lo' & hi' & _ & -> & H').
  assert (Hx : forall p, pos_at m' q p -> hi' = p).
  { intros p [i Hp]. destruct H' as [(_ & _ & Hno)|(i' & p' & Hp' & -> & _)]; [by destruct (Hno i p)|].
    by destruct (seq_at_unique _ _ _ _ _ _ Hok' Hp Hp') as [_ ->]. }
  destruct o as [p|]; [f_equal; apply Hx, H; done|].
  destruct (seq_pos_ok m q Hok) as (lo & hi & _ & -> & H0). f_equal.
  destruct H0 as [(_ & -> & Hno)|(i & p & Hp & -> & _)]; [|apply Hx, H; by exists i].
  destruct H' as [(_ & -> & _)|(i' & p' & Hp' & _)]; [done|]. exfalso.
  destruct (proj1 (H p') ltac:(by exists i')) as [i0 Hi0]. by apply (Hno i0 p').
Qed.

(** The split of a batch, what preparing it leaves and the walk through its
    ubatches. *)
Lemma rec_run n_ubatch m a : rec_ok m -> plain_batch (rc_size m) a -> (0 < n_tokens (batch a))%nat -> exists us a2 idxss m1 steps m',
  split_all (Equal true) n_ubatch a = Ret (Some us, a2) /\ us <> [] /\ split_of a us idxss
  /\ get_out_ids a2 = List.filter (is_output (batch a)) (concat idxss)
  /\ Rec.prepare m us = Ret (true, m1) /\ only_range m m1
  /\ passes m1 (Rec.rec_batch us) steps m' /\ map snd steps = us /\ rec_ok m' /\ rc_size m' = rc_size m
  /\ forall q, Rec.seq_pos_max m' q = match last_position a q with Some p => Ret p | None => Rec.seq_pos_max m q end.
Proof.
  intros Hok Hb Hn. pose proof Hb as [Hbo _ _ Hc Hne _].
  destruct (plain_split (rc_size m) n_ubatch a Hb) as (us & a2 & Esp & Hus & Hfin).
  destruct (split_all_ok (Equal true) n_ubatch a (bt_alloc a Hbo) (conj Hne (fun _ => Hc))) as (us' & a2' & idxss & Esp' & Hd & Hperm & Hout).
  rewrite Esp in Esp'. injection Esp' as <- <-.
  assert (Hus0 : us <> []).
  { intros ->. inversion Hd; subst. apply Permutation_length in Hperm. rewrite length_seq in Hperm. simpl in Hperm. unfold get_n_tokens in Hperm. lia. }
  destruct (rec_prepare_ok m us Hok Hus) as (m1 & E2 & Ho & Hok1). pose proof Ho as (Ho1 & Ho2 & _).
  destruct (rec_passes us m1 [] Hus0 Hok1) as (steps & m' & Hpass & Hst & Hok' & Hsz & Hposs); [by rewrite Ho2|].
  exists us, a2, idxss, m1, steps, m'. split_and!; try done; [congruence|].
  intros q. assert (El : last_position a q = final us q).
  { specialize (Hfin q). destruct (final us q) as [p|]; [|by apply (last_position_none (rc_size m))].
    destruct Hfin as (i & H1 & H2 & H3). by apply (last_position_some (rc_size m) a Hb q i p). }
  rewrite El. apply pos_max_eq; [done|done|]. intros p. rewrite Hposs. unfold final. destruct (fold_left _ us None); [done|].
  unfold pos_at, seq_at. by rewrite Ho1, Ho2.
Qed.

Lemma rec_serves c b m a : rec_request c b m a -> has_cpl a = false -> exists steps m', served cparams m a steps m'
  /\ rec_ok m' /\ rc_size m' = rc_size m
  /\ forall q, Rec.seq_pos_max m' q = match last_position a q with Some p => Ret p | None => Rec.seq_pos_max m q end.
Proof.
  intros [[Hp _ _ Hinit Har _ _] Hok Hmax Hnp Hnd Hpos] Hc.
  destruct (init_plain (rc_size m) _ _ _ _ _ _ _ _ Hinit Har (pc_seqs _ _ _ c Hp) Hnp Hnd Hpos Hc Hmax) as [Hb Hn].
  destruct (rec_run (cp_n_ubatch cparams) m a Hok Hb Hn)
    as (us & a2 & idxss & m1 & steps & m' & Esp & Hus0 & [Hd Hperm] & Hout & Eprep & _ & Hpass & Hst & Hok' & Hsz & Hposs).
  exists steps, m'. split; [|done]. exists (Rec.rec_batch us), m1, a2, idxss. rewrite (pc_embeddings _ _ _ c Hp). simpl (mi_init_batch _ _ _ _).
  unfold Rec.init_batch. rewrite Esp. cbn [mbind outcome_bind]. rewrite Eprep. split_and!; try done.
  rewrite <- Hst in Hd. by rewrite Forall2_fmap_l in Hd.
Qed.

(** Coupled sequences are refused. *)
Lemma coupled_refused a n_ubatch : has_cpl a = true -> (0 < get_n_tokens a)%nat -> exists a', split_all (Equal true) n_ubatch a = Ret (None, a').
Proof.
  intros Hc Hn. unfold split_all. cbn [split_loop split_by]. unfold split_equal.
  assert (E1 : has_cpl (split_reset a) = true) by done. rewrite E1. cbn [andb mbind outcome_bind]. cbn [u_n_tokens no_ubatch Nat.eqb].
  cbn [mbind outcome_bind]. assert (E2 : (get_n_used (split_reset a) <? get_n_tokens (split_reset a))%nat = true) by (apply Nat.ltb_lt; exact Hn).
  rewrite E2. cbn [mbind outcome_bind]. by eexists.
Qed.

Lemma rec_refuses a m n_ubatch : has_cpl a = true -> (0 < get_n_tokens a)%nat ->
  exists a', Rec.init_batch m a n_ubatch false = Ret (Rec.rec_fail LLAMA_MEMORY_STATUS_FAILED_PREPARE, m, a').
Proof. intros Hc Hn. destruct (coupled_refused a n_ubatch Hc Hn) as [a' Esp]. exists a'. unfold Rec.init_batch. by rewrite Esp. Qed.

(** C25. [decode], without embeddings and backend samplers, of an accepted batch
    with a recurrent memory that has a cell for every sequence: a batch with a
    token in several sequences is refused with code 1 and the memory is unchanged;
    any other batch is decoded, when the computations succeed, and afterwards every
    sequence of the batch stands at the position of its last token and the others
    where they were. No batch fails for want of a cell. With embeddings the batch
    is split by sequence, and this is false:
    [RecurrentExamples.embedding_split_misplaces]. *)
Theorem decode_recurrent c b m a : rec_request c b m a -> (forall m u, computes model compute row m u) ->
  if has_cpl a then exists c', decode c b = Ret (1, c') /\ lc_memory c' = Some m
  else exists c' m', decode c b = Ret (0, c') /\ lc_memory c' = Some m' /\ rec_ok m' /\ rc_size m' = rc_size m
    /\ forall q, Rec.seq_pos_max m' q = match last_position a q with Some p => Ret p | None => Rec.seq_pos_max m q end.
Proof.
  intros Hrq Hcm. pose proof Hrq as [Hr Hok Hmax Hnp Hnd Hpos]. destruct (has_cpl a) eqn:Hc.
  - pose proof Hr as [Hp _ _ Hinit Har _ _]. destruct (init_tokens _ _ _ _ _ _ _ _ Hinit Har (pc_seqs _ _ _ c Hp)) as (Hn & _).
    destruct (rec_refuses a m (cp_n_ubatch cparams) Hc Hn) as [a2 Eb].
    rewrite (decode_search model cparams alloc_buffer compute compute_encoder c b m m a Hr).
    cbn [find_context]. simpl (mi_init_batch _ _ _ _). rewrite Eb. cbn [mbind outcome_bind]. simpl (mi_get_status _).
    cbn iota. unfold memory_update. simpl. by eexists.
  - destruct (rec_serves c b m a Hrq Hc) as (steps & m' & Hserved & Hok' & Hsz & Hposs).
    destruct (decode_ok model cparams alloc_buffer compute compute_encoder row c b m m a steps m' Hr Hserved)
      as (c' & rows & E1 & Hm & _); [|by exists c', m'].
    apply Forall_forall. intros [m2 u] _. apply Hcm.
Qed.

End Decode.
