(* ===== verification/RecurrentExamples.v ===== *)
(** * The recurrent memory on concrete inputs: witnesses, and what the code does
    where its callers expect something else. *)

From S2P Require Import Prelude Batch BatchFacts BatchTheorems BatchInit.
From S2P Require Import KvCells KvCellsFacts KvCache KvCacheFacts KvContext KvBatch Decode DecodeFacts DecodeRun DecodeTheorems.
From S2P Require Import Recurrent RecurrentFacts RecurrentSteps RecurrentSlot RecurrentStage RecurrentFind RecurrentView RecurrentTheorems RecurrentDecode.
From Stdlib Require Import Lia.

Implicit Types (m : llama_memory_recurrent).

(** ** A check of the invariant *)

Definition cell_okb m (i : nat) : bool :=
  let c := cells_of m !!! i in
  forallb (fun q => (0 <=? q) && (q <? Z.of_nat (rc_size m)) && (mc_tail (cells_of m !!! Z.to_nat q) =? Z.of_nat i)) (elements (mc_seq c))
  && ((mc_tail c =? -1) || (0 <=? mc_tail c) && (mc_tail c <? Z.of_nat (rc_size m)) && has_seq_id (cells_of m !!! Z.to_nat (mc_tail c)) (Z.of_nat i))
  && (if is_empty c then mc_pos c =? -1 else (0 <=? mc_pos c) && (mc_src c =? Z.of_nat i))
  && ((mc_src c =? -1) || (mc_src c =? Z.of_nat i)).

Definition rec_okb m : bool :=
  (length (cells_of m) =? rc_size m)%nat && (Z.of_nat (rc_size m) <? 2 ^ 31) && (0 <=? rc_head m) && (rc_head m <=? Z.of_nat (rc_size m))
  && forallb (cell_okb m) (seq 0 (rc_size m)) && (rc_used m =? Rec.count_used m).

Lemma rec_okb_ok m : rec_okb m = true -> rec_ok m.
Proof.
  unfold rec_okb. rewrite !andb_true_iff. intros (((((H1 & H2) & H3) & H4) & H5) & H6). rewrite forallb_forall in H5.
  apply Nat.eqb_eq in H1. apply Z.ltb_lt in H2. apply Z.leb_le in H3, H4. apply Z.eqb_eq in H6.
  assert (Hc : forall i, (i < rc_size m)%nat -> cell_okb m i = true) by (intros i Hi; apply H5, List.in_seq; lia). clear H5.
  unfold cell_okb in Hc. constructor; try done.
  - intros i q Hi Hq. specialize (Hc i Hi). rewrite !andb_true_iff, forallb_forall in Hc. destruct Hc as (((H5 & _) & _) & _).
    specialize (H5 q ltac:(apply list_elem_of_In; by apply elem_of_elements)).
    rewrite !andb_true_iff, Z.leb_le, Z.ltb_lt, Z.eqb_eq in H5. tauto.
  - intros j Hj. specialize (Hc j Hj). rewrite !andb_true_iff, orb_true_iff in Hc. destruct Hc as (((_ & H5) & _) & _).
    destruct H5 as [H5%Z.eqb_eq|H5]; [by left|right]. rewrite !andb_true_iff, Z.leb_le, Z.ltb_lt, has_seq_id_spec in H5.
    exists (Z.to_nat (mc_tail (cells_of m !!! j))). split; [lia|]. split; [lia|tauto].
  - intros i Hi He. specialize (Hc i Hi). rewrite !andb_true_iff in Hc. destruct Hc as (((_ & _) & H5) & _).
    apply is_empty_spec in He. rewrite He in H5. by apply Z.eqb_eq.
  - intros i Hi He. specialize (Hc i Hi). rewrite !andb_true_iff in Hc. destruct Hc as (((_ & _) & H5) & _).
    destruct (is_empty _) eqn:Ee; [by apply is_empty_spec in Ee|]. rewrite andb_true_iff, Z.leb_le, Z.eqb_eq in H5. done.
  - intros i Hi. specialize (Hc i Hi). rewrite andb_true_iff in Hc. destruct Hc as [_ H5]. rewrite orb_true_iff, !Z.eqb_eq in H5. done.
Qed.

(** Idle cells hold the cleared state. *)
Definition idle_okb {S} `{EqDecision S} m (st : list S) (zero : S) : bool :=
  forallb (fun i => let c := cells_of m !!! i in
    negb (is_empty c && (mc_src c =? Z.of_nat i)) || bool_decide (st !! i = Some zero)) (seq 0 (rc_size m)).

Lemma rec_inv_ok {S} `{EqDecision S} m (st : list S) zero : rec_okb m && (length st =? rc_size m)%nat && idle_okb m st zero = true -> rec_inv zero m st.
Proof.
  rewrite !andb_true_iff. intros ((H1 & H2%Nat.eqb_eq) & H3). constructor; [by apply rec_okb_ok|done|].
  intros i (Hi & He & Hs). unfold idle_okb in H3. rewrite forallb_forall in H3. specialize (H3 i ltac:(apply List.in_seq; lia)).
  apply is_empty_spec in He. rewrite He, (proj2 (Z.eqb_eq _ _) Hs) in H3. by apply bool_decide_eq_true in H3.
Qed.

(** ** Ubatches *)

(** A ubatch with one token for each set of sequences. *)
Definition slot_ubatch (sets : list (list Z)) (ps : list Z) : llama_ubatch unit :=
  mk_ubatch true (length sets) 1 (length sets) 0 1 (Some (map (fun _ => 0) sets)) None ps
    (map (fun l => Z.of_nat (length l)) sets) sets [] [] (map (fun _ => 0) sets).

Definition fitsb (n : nat) (u : llama_ubatch unit) : bool :=
  u_equal_seqs u && (0 <? u_n_seqs u)%nat
  && forallb (fun s => match u_seq_id u !! (s * u_n_seq_tokens u)%nat, u_n_seq_id u !! (s * u_n_seq_tokens u)%nat,
                         u_pos u !! (s * u_n_seq_tokens u + u_n_seq_tokens u - 1)%nat with
       | Some (q :: ids), Some k, Some p => (k =? Z.of_nat (S (length ids))) && (0 <=? p)
       | _, _, _ => false end) (seq 0 (u_n_seqs u))
  && bool_decide (NoDup (concat (sets_of u)))
  && forallb (fun q => (0 <=? q) && (q <? Z.of_nat n)) (concat (sets_of u)).

Lemma fitsb_ok n u : fitsb n u = true -> fits n u.
Proof.
  unfold fitsb. rewrite !andb_true_iff, !forallb_forall, bool_decide_eq_true. intros ((((H1 & H2%Nat.ltb_lt) & H3) & H4) & H5).
  assert (Hs : forall s, (s < u_n_seqs u)%nat -> exists q ids p, u_seq_id u !! (s * u_n_seq_tokens u)%nat = Some (q :: ids)
    /\ u_n_seq_id u !! (s * u_n_seq_tokens u)%nat = Some (Z.of_nat (S (length ids)))
    /\ u_pos u !! (s * u_n_seq_tokens u + u_n_seq_tokens u - 1)%nat = Some p /\ 0 <= p).
  { intros s Hs. specialize (H3 s ltac:(apply List.in_seq; lia)). destruct (u_seq_id u !! _) as [[|q ids]|]; try done.
    destruct (u_n_seq_id u !! _) as [k|]; [|done]. destruct (u_pos u !! _) as [p|]; [|done]. apply andb_true_iff in H3 as [Hk%Z.eqb_eq Hp%Z.leb_le].
    subst k. by exists q, ids, p. }
  constructor; try done.
  - intros s Hlt. destruct (Hs s Hlt) as (q & ids & p & E1 & E2 & _). by exists q, ids.
  - intros s Hlt. destruct (Hs s Hlt) as (q & ids & p & _ & _ & E3 & Hp). by exists p.
  - intros q Hq. specialize (H5 q ltac:(by apply list_elem_of_In)). apply andb_true_iff in H5 as [?%Z.leb_le ?%Z.ltb_lt]. lia.
Qed.

(** ** A run *)

(** The graph of the example doubles every state and adds the number of its set. *)
Definition ex_graph (_ : llama_ubatch unit) (l : list Z) : list Z := imap (fun i x => 2 * x + Z.of_nat i + 1) l.

(** Sequences 0 and 1, then 2 as a copy of 0, then 2 goes on alone. *)
Definition ex_m0 : llama_memory_recurrent := Rec.make 4.
Definition ex_first : list (llama_ubatch unit) := [slot_ubatch [[0]; [1]] [0; 0]; slot_ubatch [[1]; [0]] [1; 1]].
Definition ex_run (m : llama_memory_recurrent) (st : list Z) (us : list (llama_ubatch unit)) : outcome (llama_memory_recurrent * list Z) :=
  graph_run 0 (length us) m st (Rec.rec_batch us) ex_graph.
Definition ex_after : llama_memory_recurrent * list Z :=
  match ex_run ex_m0 [7; 7; 7; 7] ex_first with Ret r => r | _ => (ex_m0, []) end.
Definition ex_copied : llama_memory_recurrent := match Rec.seq_cp ex_after.1 0 2 (-1) (-1) with Ret m => m | _ => ex_m0 end.
Definition ex_second : list (llama_ubatch unit) := [slot_ubatch [[2]] [2]; slot_ubatch [[3]; [1]; [2]] [0; 2; 3]].

Example ex_copied_view : map (view ex_copied ex_after.2) [0; 1; 2; 3] = [Some (1, 4); Some (1, 5); Some (1, 4); None].
Proof. vm_compute. reflexivity. Qed.

Lemma recurrent_states_witness : exists m' st', ex_run ex_copied ex_after.2 ex_second = Ret (m', st')
  /\ map (view m' st') [0; 1; 2; 3] = [Some (1, 4); Some (2, 12); Some (3, 21); Some (0, 1)].
Proof.
  destruct (recurrent_states 0 ex_copied ex_after.2 ex_second ex_graph) as (m' & st' & E & _ & _ & Hv).
  - apply rec_inv_ok. vm_compute. reflexivity.
  - apply List.Forall_cons; [apply fitsb_ok; vm_compute; reflexivity|]. apply List.Forall_cons; [apply fitsb_ok; vm_compute; reflexivity|apply List.Forall_nil].
  - discriminate.
  - intros u l. apply length_imap.
  - exists m', st'. split; [exact E|]. cbn [map]. rewrite !Hv. vm_compute. reflexivity.
Defined.

Lemma recurrent_operations_witness : exists m', run_op ex_copied (OpRm 0 0 (-1)) = Ret (true, m')
  /\ map (view m' ex_after.2) [0; 1; 2; 3] = [None; Some (1, 5); Some (1, 4); None].
Proof.
  destruct (recurrent_operations 0 ex_copied ex_after.2 (OpRm 0 0 (-1))) as (m' & E & _ & _ & _ & Hv).
  - apply rec_inv_ok. vm_compute. reflexivity.
  - left. lia.
  - exists m'. split; [rewrite E; vm_compute; reflexivity|]. cbn [map]. rewrite !Hv. vm_compute. reflexivity.
Defined.

(** ** Decoding *)

Definition rec_model : llama_model := mk_model 3 2 0 2 1 false.
Definition rec_cparams : llama_cparams := mk_cparams false false true 4 4 2 LLAMA_POOLING_TYPE_NONE.
Definition rec_sampling : @sampling_info Z := mk_sampling ∅ None None None None [] [] [].
Definition rec_context (m : llama_memory_recurrent) : @llama_context unit Z llama_memory_recurrent :=
  mk_lctx (Some m) (new_allocr 1) 0 [] [] None (mk_outputs None None ∅ rec_sampling).

Definition rec_row (m : llama_memory_recurrent) (u : llama_ubatch unit) (ii : nat) : list Z :=
  [match u_token u with Some l => nth ii l 0 | None => 0 end; nth ii (u_pos u) 0; 7].
Definition rec_compute (m : llama_memory_recurrent) (cx : @Rec.rec_context unit) (u : llama_ubatch unit) (n : nat)
    : ggml_status + @graph_result Z :=
  inr (mk_result (Some (concat (map (rec_row m u) (out_pos u)))) None None [] [] [] []).
Definition rec_encoder (u : llama_ubatch unit) (n : nat) : ggml_status + @graph_result Z := inl GGML_STATUS_FAILED.

Lemma rec_computes m u : computes rec_model rec_compute rec_row m u.
Proof. constructor; [done|]. intros cx. eexists. by split. Qed.

(** Three tokens of the sequences 0, 1 and 0, for the memory [ex_copied]. *)
Definition rec_inp : llama_batch unit := mk_batch 3 (Some [2; 0; 1]) None None (Some [1; 1; 1]) (Some [[0]; [1]; [0]]) None.
Definition rec_allocr : llama_batch_allocr unit :=
  match init (new_allocr 1) rec_inp 3 (Some (@mi_positions unit _ _ _ ex_copied)) 0 4 false with
  | Ret (Some a) => a
  | _ => new_allocr 1
  end.

Lemma rec_pos i p : pos (batch rec_allocr) !! i = Some p -> 0 <= p.
Proof.
  assert (E1 : pos (batch rec_allocr) = [2; 2; 3]) by (vm_compute; reflexivity). rewrite E1.
  intros Hp%list_elem_of_lookup_2. rewrite !elem_of_cons, elem_of_nil in Hp. lia.
Qed.

Lemma rec_ids i ids : token_seqs (batch rec_allocr) i ids -> NoDup ids.
Proof.
  assert (E1 : n_seq_id (batch rec_allocr) = [1; 1; 1]) by (vm_compute; reflexivity).
  assert (E2 : seq_id (batch rec_allocr) = [[0]; [1]; [0]]) by (vm_compute; reflexivity).
  unfold token_seqs. rewrite E1, E2. intros (k & l & _ & Hl & -> & _)%seqs_of_inv. apply list_elem_of_lookup_2 in Hl.
  rewrite !elem_of_cons, elem_of_nil in Hl. destruct Hl as [->|[->|[->|[]]]]; destruct (Z.to_nat k) as [|[|]]; simpl;
    apply NoDup_nil || apply NoDup_singleton; done.
Qed.

Lemma rec_arrays : arrays_ok rec_inp 0 1.
Proof.
  constructor; simpl; try discriminate; try lia.
  intros l i k [= <-] Hk. apply list_elem_of_lookup_2 in Hk. rewrite !elem_of_cons, elem_of_nil in Hk. lia.
Qed.

Lemma rec_ex_request : rec_request rec_model rec_cparams (fun _ => true) (rec_context ex_copied) rec_inp ex_copied rec_allocr.
Proof.
  constructor; [constructor| | | | |].
  - constructor; try done; [by left|]. unfold batch_seq_max. simpl. lia.
  - done.
  - done.
  - vm_cast_no_check (eq_refl (Ret (Some rec_allocr) : outcome _)).
  - exact rec_arrays.
  - vm_compute. lia.
  - exists false. done.
  - apply rec_okb_ok. vm_compute. reflexivity.
  - vm_compute. lia.
  - done.
  - exact rec_ids.
  - exact rec_pos.
Qed.

(** Sequence 0 gets two tokens and stands at 3, sequence 1 one token; the copy
    number 2 stays where it was. *)
Lemma decode_recurrent_witness : map (last_position rec_allocr) [0; 1; 2; 3] = [Some 3; Some 2; None; None]
  /\ exists c' m', decode rec_model rec_cparams (fun _ => true) rec_compute rec_encoder (rec_context ex_copied) rec_inp = Ret (0, c')
     /\ lc_memory c' = Some m' /\ Rec.seq_pos_max m' 0 = Ret 3 /\ Rec.seq_pos_max m' 1 = Ret 2 /\ Rec.seq_pos_max m' 2 = Ret 1.
Proof.
  split; [vm_compute; reflexivity|].
  pose proof (decode_recurrent rec_model rec_cparams (fun _ => true) rec_compute rec_encoder rec_row
    (rec_context ex_copied) rec_inp ex_copied rec_allocr rec_ex_request rec_computes) as H.
  assert (Hc : has_cpl rec_allocr = false) by (vm_compute; reflexivity). rewrite Hc in H.
  destruct H as (c' & m' & E & Hm & _ & _ & Hp). exists c', m'. split; [exact E|]. split; [exact Hm|].
  rewrite !Hp. split; [|split]; vm_compute; reflexivity.
Defined.

(** ** Findings *)

(** Removing the sequences of all cells ([seq_id < 0]) leaves their tails: the
    next search for one of them fails an assertion. *)
Lemma rm_any_leaves_tails :
  (r ← Rec.seq_rm ex_after.1 (-1) (-1) (-1); Rec.find_slot r.2 (slot_ubatch [[0]] [2])) = Fatal "cell.has_seq_id(seq_id)".
Proof. vm_compute. reflexivity. Qed.

(** Removing a part before the last position removes nothing and reports success. *)
Lemma rm_prefix_reports_success : exists m, Rec.seq_rm ex_after.1 0 0 1 = Ret (true, m)
  /\ Rec.seq_pos_max ex_after.1 0 = Ret 1 /\ map (view m ex_after.2) [0; 1] = map (view ex_after.1 ex_after.2) [0; 1].
Proof. eexists. split; [vm_compute; reflexivity|]. by vm_compute. Qed.

(** Two tokens, the first of the sequences 0 and 1 and the second of sequence 0,
    when all tokens are outputs. *)
Definition coupled_inp : llama_batch unit := mk_batch 2 (Some [2; 0]) None None (Some [2; 1]) (Some [[0; 1]; [0]]) None.

(** The positions of the sequences 0 and 1 after the batch. *)
Definition coupled_run : outcome (option (Z * Z)) :=
  r ← init (new_allocr 1) coupled_inp 3 (Some (@mi_positions unit _ _ _ ex_m0)) 0 4 true;
  match r with
  | None => Ret None
  | Some a =>
      '(cx, m, _) ← Rec.init_batch ex_m0 a 4 true;
      '(_, m, _) ← Rec.apply m cx;
      p ← Rec.seq_pos_max m 0;
      q ← Rec.seq_pos_max m 1;
      Ret (Some (p, q))
  end.

(** Sequence 1 ends at position 1, where it has no token. *)
Lemma embedding_split_misplaces : coupled_run = Ret (Some (1, 1)).
Proof. vm_compute. reflexivity. Qed.

(** A computation that the user aborts. *)
Definition rec_aborted (m : llama_memory_recurrent) (cx : @Rec.rec_context unit) (u : llama_ubatch unit) (n : nat)
    : ggml_status + @graph_result Z := inl GGML_STATUS_ABORTED.

(** The positions of the aborted ubatch stay: the sequences 0 and 1 were at 1. *)
Lemma abort_keeps_position :
  (r ← decode rec_model rec_cparams (fun _ => true) rec_aborted rec_encoder (rec_context ex_copied) rec_inp;
   match lc_memory r.2 with
   | Some m => p ← Rec.seq_pos_max m 0; q ← Rec.seq_pos_max m 1; Ret (r.1, p, q)
   | None => Undef
   end) = Ret (2, 2, 2)
  /\ Rec.seq_pos_max ex_copied 0 = Ret 1 /\ Rec.seq_pos_max ex_copied 1 = Ret 1.
Proof. vm_compute. done. Qed.
