(* ===== verification/RecurrentState.v ===== *)
(** * Saving and restoring a recurrent memory,
    [src/llama-memory-recurrent.cpp], and the saved states of hybrid memories.

    A layer has up to two tensors, R and S; every row is the state of one cell.
    The buffers are those of [KvState.v].  The branches for a transposed S are left
    out: [state_write_data] writes [s_trans] as 0, and [state_read_data] refuses
    any other value before it looks at it. *)

From S2P Require Import Prelude KvCells Batch KvCache KvState Recurrent.
From stdpp Require Import sorting.
#[local] Open Scope Z_scope.

(** A tensor with its type and the size [ggml_row_size] gives for a row. *)
Record rec_tensor := mk_rtensor { rt_type : Z; rt_row : nat; rt_data : list Z }.

(** The tensors of a layer; a layer of another kind has none. *)
Record rec_layer := mk_rlayer { rl_r : option rec_tensor; rl_s : option rec_tensor }.

Record rec_store := mk_rstore { rs_mem : llama_memory_recurrent; rs_n_pos : nat; rs_layers : list rec_layer }.

Definition set_data (t : rec_tensor) (d : list Z) : rec_tensor := mk_rtensor (rt_type t) (rt_row t) d.
Definition set_r (l : rec_layer) (t : option rec_tensor) : rec_layer := mk_rlayer t (rl_s l).
Definition set_s (l : rec_layer) (t : option rec_tensor) : rec_layer := mk_rlayer (rl_r l) t.
Definition set_mem (st : rec_store) (m : llama_memory_recurrent) : rec_store := mk_rstore m (rs_n_pos st) (rs_layers st).
Definition set_rlayers (st : rec_store) (ls : list rec_layer) : rec_store := mk_rstore (rs_mem st) (rs_n_pos st) ls.

Module RState.

(** [clear(true)]: the buffers are filled with zeros. *)
Definition zero_tensor (t : rec_tensor) : rec_tensor := set_data t (map (fun _ => 0) (rt_data t)).
Definition clear_data (st : rec_store) : outcome rec_store :=
  m ← Rec.clear (rs_mem st);
  Ret (mk_rstore m (rs_n_pos st)
         (map (fun l => mk_rlayer (option_map zero_tensor (rl_r l)) (option_map zero_tensor (rl_s l))) (rs_layers st))).

(** ** Writing *)

Definition in_state (seq_id : Z) (c : mem_cell) : bool := ((seq_id =? -1) && negb (is_empty c)) || has_seq_id c seq_id.

Definition range_step (m : llama_memory_recurrent) (seq_id : Z) (acc : nat * nat * list (nat * nat)) (i : nat)
    : outcome (nat * nat * list (nat * nat)) :=
  c ← Rec.cell m (Z.of_nat i); Ret (State.extend_ranges (rc_size m) (in_state seq_id c) acc i).

Definition cell_ranges (m : llama_memory_recurrent) (seq_id : Z) : outcome (nat * list (nat * nat)) :=
  acc ← foldM (range_step m seq_id) (0%nat, rc_size m, []) (seq 0 (rc_size m));
  State.finish_ranges (rc_size m) acc.

(** A [std::set] is walked through in order. *)
Definition in_ids_order (ids : gset Z) : list Z := merge_sort Z.le (elements ids).

Definition write_cell (m : llama_memory_recurrent) (seq_id : Z) (out : list Z) (i : nat) : outcome (list Z) :=
  c ← Rec.cell m (Z.of_nat i);
  let seq_ids := if seq_id =? -1 then in_ids_order (mc_seq c) else [] in
  let out := Io.write out (Io.le_bytes 4 (mc_pos c)) in
  let out := Io.write out (Io.le_bytes 4 (Z.of_nat (length seq_ids))) in
  Ret (foldl (fun out s => Io.write out (Io.le_bytes 4 s)) out seq_ids).

Definition state_write_meta (m : llama_memory_recurrent) (ranges : list (nat * nat)) (seq_id : Z) (out : list Z) : outcome (list Z) :=
  foldM (write_cell m seq_id) out (State.range_cells ranges).

(** The type, the row size and the rows of a tensor that is there. *)
Definition write_rows (ranges : list (nat * nat)) (out : list Z) (t : option rec_tensor) : outcome (list Z) :=
  match t with
  | None => Ret out
  | Some t =>
      let out := Io.write out (Io.le_bytes 4 (rt_type t)) in
      let out := Io.write out (Io.le_bytes 8 (Z.of_nat (rt_row t))) in
      foldM (fun out r => Io.write_tensor out (rt_data t) (r.1 * rt_row t) ((r.2 - r.1) * rt_row t)) out ranges
  end.

Definition state_write_data (st : rec_store) (ranges : list (nat * nat)) (out : list Z) : outcome (list Z) :=
  let out := Io.write out (Io.le_bytes 4 0) in
  let out := Io.write out (Io.le_bytes 4 (Z.of_nat (length (rs_layers st)))) in
  out ← foldM (fun out l => write_rows ranges out (rl_r l)) out (rs_layers st);
  foldM (fun out l => write_rows ranges out (rl_s l)) out (rs_layers st).

Definition state_write (st : rec_store) (seq_id : Z) : outcome (list Z) :=
  '(cell_count, ranges) ← cell_ranges (rs_mem st) seq_id;
  let out := Io.write [] (Io.le_bytes 4 (Z.of_nat cell_count)) in
  out ← state_write_meta (rs_mem st) ranges seq_id out;
  state_write_data st ranges out.

(** ** Reading

    As in [KvState.v], an exception carries what has been changed by then. *)

(** The positions of a saved sequence; [None] is "invalid seq_id-agnostic kv cell". *)
Fixpoint read_positions (cells : list nat) (pos : list Z) (inp : list Z) : outcome (option (list Z) * list Z) :=
  match cells with
  | [] => Ret (Some pos, inp)
  | i :: cells =>
      '(p, inp) ← Io.read_i32 inp;
      '(n_seq_id, inp) ← Io.read_u32 inp;
      if negb (n_seq_id =? 0) then Ret (None, inp)
      else pos ← set_ pos i p; read_positions cells pos inp
  end.

(** [ubatch.n_seq_id[0] = 1; ubatch.seq_id[0] = &dest_seq_id;] *)
Definition of_sequence (u : @llama_ubatch unit) (pos : list Z) (dest : Z) : outcome (@llama_ubatch unit) :=
  n ← set_ (u_n_seq_id u) 0 1;
  ids ← set_ (u_seq_id u) 0 [dest];
  Ret (mk_ubatch (u_equal_seqs u) (u_n_tokens u) (u_n_seq_tokens u) (u_n_seqs u) (u_n_seqs_unq u)
         (u_n_pos u) (u_token u) (u_embd u) pos n ids (u_seq_id_unq u) (u_seq_idx u) (u_output u)).

(** "single sequence", up to the sources. *)
Definition read_meta_seq (m : llama_memory_recurrent) (n_pos cell_count : nat) (dest : Z) (inp : list Z)
    : changing llama_memory_recurrent (bool * llama_memory_recurrent * list Z) :=
  '(_, m) ← keeping m (Rec.seq_rm m dest (-1) (-1));
  if (cell_count =? 0)%nat then Ret (true, m, inp)
  else
    '(u, _) ← keeping m (ubatch_reserve (new_allocr n_pos) cell_count 1);
    '(pos, inp) ← keeping m (read_positions (seq 0 cell_count) (u_pos u) inp);
    match pos with
    | None => Ret (false, m, inp)
    | Some pos =>
        u ← keeping m (of_sequence u pos dest);
        '(ok, m) ← keeping m (Rec.find_slot m u);
        if negb ok then Ret (false, m, inp)
        else
          keeping m (
            c_assert (u32 (rc_head m + Z.of_nat cell_count) <=? Rec.size_z m) "head + cell_count <= size";;
            first ← Rec.cell m (rc_head m);
            p ← at_ pos 0;
            c_assert (mc_pos first =? p) "cells[head].pos == ubatch.pos[0]";;
            last ← Rec.cell m (rc_head m + Z.of_nat cell_count - 1);
            p ← at_ pos (cell_count - 1);
            c_assert (mc_pos last =? p) "cells[head + cell_count - 1].pos == ubatch.pos[cell_count - 1]";;
            c_assert (has_seq_id first dest) "cells[head].has_seq_id(dest_seq_id)";;
            c_assert (has_seq_id last dest) "cells[head + cell_count - 1].has_seq_id(dest_seq_id)");;
          Ret (true, m, inp)
    end.

(** The sequences of cell [i]; a negative id or one that has a cell is refused.
    An id is not compared with the number of cells. *)
Fixpoint read_seq_ids (m : llama_memory_recurrent) (i : nat) (n_seq_id : nat) (inp : list Z)
    : changing llama_memory_recurrent (bool * llama_memory_recurrent * list Z) :=
  match n_seq_id with
  | O => Ret (true, m, inp)
  | S n_seq_id =>
      '(seq_id, inp) ← keeping m (Io.read_i32 inp);
      if seq_id <? 0 then Ret (false, m, inp)
      else
        m ← keeping m (Rec.change m (Z.of_nat i) (fun c => with_seq (mc_seq c ∪ {[ seq_id ]}) c));
        t ← keeping m (Rec.cell m seq_id);
        if negb (mc_tail t =? -1) then Ret (false, m, inp)
        else
          m ← keeping m (Rec.change m seq_id (with_tail (Z.of_nat i)));
          read_seq_ids m i n_seq_id inp
  end.

Fixpoint read_cells (cells : list nat) (m : llama_memory_recurrent) (inp : list Z)
    : changing llama_memory_recurrent (bool * llama_memory_recurrent * list Z) :=
  match cells with
  | [] => Ret (true, m, inp)
  | i :: cells =>
      '(pos, inp) ← keeping m (Io.read_i32 inp);
      '(n_seq_id, inp) ← keeping m (Io.read_u32 inp);
      m ← keeping m (Rec.change m (Z.of_nat i) (with_pos pos));
      '(ok, m, inp) ← read_seq_ids m i (Z.to_nat n_seq_id) inp;
      if ok : bool then read_cells cells m inp else Ret (false, m, inp)
  end.

(** "whole KV cache restore", up to the sources. *)
Definition read_meta_all (st : rec_store) (cell_count : nat) (inp : list Z) : changing rec_store (bool * rec_store * list Z) :=
  if (rc_size (rs_mem st) <? cell_count)%nat then Ret (false, st, inp)
  else
    st ← keeping st (clear_data st);
    '(ok, m, inp) ← within (set_mem st) (read_cells (seq 0 cell_count) (rs_mem st) inp);
    Ret (ok, set_mem st (if ok : bool then Rec.with_used (Rec.with_head m 0) (Z.of_nat cell_count) else m), inp).

(** "make sure the recurrent states will keep their restored state"; nothing for no
    cells, where the code returns before. *)
Definition own_sources (m : llama_memory_recurrent) (cell_count : nat) : outcome llama_memory_recurrent :=
  foldM (fun m i => let cell_id := u32 (rc_head m + Z.of_nat i) in Rec.change m cell_id (with_src cell_id)) m (seq 0 cell_count).

Definition state_read_meta (st : rec_store) (cell_count : nat) (dest : Z) (inp : list Z) : changing rec_store (bool * rec_store * list Z) :=
  '(ok, st, inp) ← (if negb (dest =? -1) then
                      '(ok, m, inp) ← within (set_mem st) (read_meta_seq (rs_mem st) (rs_n_pos st) cell_count dest inp);
                      Ret (ok, set_mem st m, inp)
                    else read_meta_all st cell_count inp);
  if negb ok then Ret (false, st, inp)
  else m ← keeping st (own_sources (rs_mem st) cell_count); Ret (true, set_mem st m, inp).

(** The rows of a tensor, to the cells from the head on; [None] is a mismatch. *)
Definition read_rows (cell_count head : nat) (t : option rec_tensor) (inp : list Z) : outcome (option (option rec_tensor) * list Z) :=
  match t with
  | None => Ret (Some None, inp)
  | Some t =>
      '(type_i_ref, inp) ← Io.read_i32 inp;
      if negb (rt_type t =? type_i_ref) then Ret (None, inp)
      else
        '(size_row_ref, inp) ← Io.read_u64 inp;
        if negb (Z.of_nat (rt_row t) =? size_row_ref) then Ret (None, inp)
        else if (cell_count =? 0)%nat then Ret (Some (Some t), inp)
        else
          '(src, inp) ← Io.read inp (cell_count * rt_row t);
          d ← Io.tensor_set (rt_data t) src (head * rt_row t);
          Ret (Some (Some (set_data t d)), inp)
  end.

Definition read_r (cell_count head : nat) (l : rec_layer) (inp : list Z) : changing rec_layer (option rec_layer * list Z) :=
  '(t, inp) ← keeping l (read_rows cell_count head (rl_r l) inp); Ret (option_map (set_r l) t, inp).
Definition read_s (cell_count head : nat) (l : rec_layer) (inp : list Z) : changing rec_layer (option rec_layer * list Z) :=
  '(t, inp) ← keeping l (read_rows cell_count head (rl_s l) inp); Ret (option_map (set_s l) t, inp).

Definition state_read_data (st : rec_store) (cell_count : nat) (inp : list Z) : changing rec_store (bool * rec_store * list Z) :=
  '(s_trans, inp) ← keeping st (Io.read_u32 inp);
  '(n_layer, inp) ← keeping st (Io.read_u32 inp);
  if negb (n_layer =? Z.of_nat (length (rs_layers st))) then Ret (false, st, inp)
  else if (rc_size (rs_mem st) <? cell_count)%nat then Ret (false, st, inp)
  else if negb (s_trans =? 0) then Ret (false, st, inp)
  else
    let head := Z.to_nat (rc_head (rs_mem st)) in
    '(ok, ls, inp) ← within (set_rlayers st) (State.read_layers (read_r cell_count head) (rs_layers st) inp);
    if negb ok then Ret (false, set_rlayers st ls, inp)
    else
      '(ok, ls, inp) ← within (set_rlayers st) (State.read_layers (read_s cell_count head) ls inp);
      Ret (ok, set_rlayers st ls, inp).

(** [false] is the exception "failed to restore kv cache", with the state it leaves
    after the clean-up; an exception of [io.read] passes without a clean-up. *)
Definition state_read (st : rec_store) (seq_id : Z) (inp : list Z) : changing rec_store (bool * rec_store * list Z) :=
  '(cell_count, inp) ← keeping st (Io.read_u32 inp);
  let cell_count := Z.to_nat cell_count in
  '(res, st, inp) ← state_read_meta st cell_count seq_id inp;
  '(res, st, inp) ← (if res : bool then state_read_data st cell_count inp else Ret (false, st, inp));
  if res : bool then Ret (true, st, inp)
  else if seq_id =? -1 then st ← keeping st (clear_data st); Ret (false, st, inp)
  else '(_, m) ← keeping st (Rec.seq_rm (rs_mem st) seq_id (-1) (-1)); Ret (false, set_mem st m, inp).

End RState.
