(* ===== verification/RecurrentRestore.v ===== *)
(** * The tensors of a saved recurrent memory. *)

From S2P Require Import Prelude KvCells KvCellsFacts Batch KvCache KvCacheFacts KvState KvStateFacts KvTensors Recurrent.
From S2P Require Import RecurrentFacts RecurrentState KvStateSeq RecurrentSteps RecurrentSlot RecurrentStage.
From S2P Require Import RecurrentFind RecurrentView.
From Stdlib Require Import Lia.

Implicit Types (t : rec_tensor) (o : option rec_tensor) (l : rec_layer) (ls : list rec_layer) (i j : nat).

(** ** The states of the cells *)

(** The row of cell [i]. *)
Definition state_row o i : option (list Z) := (fun t => slice (rt_row t) i (rt_data t)) <$> o.

(** The state of cell [i]: its rows in all layers. *)
Definition cell_state ls i : list (option (list Z) * option (list Z)) := map (fun l => (state_row (rl_r l) i, state_row (rl_s l) i)) ls.
Definition cell_states n ls : list (list (option (list Z) * option (list Z))) := map (cell_state ls) (seq 0 n).

Lemma length_states n ls : length (cell_states n ls) = n.
Proof. unfold cell_states. by rewrite length_map, length_seq. Qed.

Lemma lookup_states n ls i : (i < n)%nat -> cell_states n ls !! i = Some (cell_state ls i).
Proof. intros Hi. unfold cell_states. by rewrite list_lookup_fmap, lookup_seq_lt. Qed.

(** A tensor of [n] rows, with a type and a size that the saved state can hold. *)
Definition tensor_ok n t : Prop :=
  length (rt_data t) = (n * rt_row t)%nat /\ - 2 ^ 31 <= rt_type t < 2 ^ 31 /\ Z.of_nat (rt_row t) < 2 ^ 64.
Definition layers_ok n ls : Prop := Forall (fun l => (forall t, rl_r l = Some t -> tensor_ok n t) /\ forall t, rl_s l = Some t -> tensor_ok n t) ls.

(** The same type and row size, or no tensor in both. *)
Definition same_tensor o o' : Prop :=
  (fun t => (rt_type t, rt_row t)) <$> o = (fun t => (rt_type t, rt_row t)) <$> o'.
Definition same_layer l l' : Prop := same_tensor (rl_r l) (rl_r l') /\ same_tensor (rl_s l) (rl_s l').
Definition same_layers ls ls' : Prop := Forall2 same_layer ls ls'.

Lemma same_tensor_some o t' : same_tensor o (Some t') -> exists t, o = Some t /\ rt_type t = rt_type t' /\ rt_row t = rt_row t'.
Proof. destruct o as [t|]; intros H; [|done]. injection H as H1 H2. by exists t. Qed.

Lemma same_tensor_none o : same_tensor o None -> o = None.
Proof. by destruct o. Qed.

(** ** Writing *)

Section Data.
Context (n : nat) (used : list nat).
Hypothesis (Hused : forall i, i ∈ used -> (i < n)%nat).

Definition tensor_bytes o : list Z :=
  match o with
  | None => []
  | Some t => Io.le_bytes 4 (rt_type t) ++ Io.le_bytes 8 (Z.of_nat (rt_row t)) ++ rows_bytes used (rt_row t) 0 (rt_data t)
  end.

Definition states_bytes ls : list Z :=
  Io.le_bytes 4 0 ++ Io.le_bytes 4 (Z.of_nat (length ls))
  ++ flat_map (fun l => tensor_bytes (rl_r l)) ls ++ flat_map (fun l => tensor_bytes (rl_s l)) ls.

Lemma write_tensor_rows ranges out o : Forall (fun r => (r.1 <= r.2)%nat /\ (r.2 <= n)%nat) ranges -> State.range_cells ranges = used ->
  (forall t, o = Some t -> tensor_ok n t) -> RState.write_rows ranges out o = Ret (out ++ tensor_bytes o).
Proof using.
  clear Hused. intros Hr Hu Ho. destruct o as [t|]; [|by rewrite app_nil_r]. destruct (Ho t eq_refl) as (Hl & _). simpl. unfold Io.write.
  rewrite (write_ranges_ok n used ranges Hr Hu (rt_row t) 0 n _ _ (fun a => (a * rt_row t)%nat)); [|done|lia|lia].
  by rewrite <- !app_assoc.
Qed.

Lemma write_states_ok st ranges out : Forall (fun r => (r.1 <= r.2)%nat /\ (r.2 <= n)%nat) ranges -> State.range_cells ranges = used ->
  layers_ok n (rs_layers st) -> RState.state_write_data st ranges out = Ret (out ++ states_bytes (rs_layers st)).
Proof using.
  clear Hused. intros Hr Hu Hls. unfold RState.state_write_data, states_bytes, Io.write. unfold layers_ok in Hls. rewrite Forall_forall in Hls.
  rewrite (foldM_append _ (fun l => tensor_bytes (rl_r l))) by (intros l out' Hl; apply write_tensor_rows; try done; by apply Hls).
  cbn [mbind outcome_bind keeping within map_throw].
  rewrite (foldM_append _ (fun l => tensor_bytes (rl_s l))) by (intros l out' Hl; apply write_tensor_rows; try done; by apply Hls).
  by rewrite <- !app_assoc.
Qed.

(** ** Reading *)

Section Read.
Context (n' head : nat).
Hypothesis (Hroom : (head + length used <= n')%nat).

(** The saved rows, in the cells from the head on; everything else as it was. *)
Definition tensor_restored o o' o'' : Prop :=
  same_tensor o' o'' /\ (forall t, o'' = Some t -> tensor_ok n' t)
  /\ (forall j i, used !! j = Some i -> state_row o'' (head + j) = state_row o i)
  /\ (forall i, ~ (head <= i < head + length used)%nat -> state_row o'' i = state_row o' i).

Definition readable o o' : Prop := same_tensor o o' /\ (forall t, o = Some t -> tensor_ok n t) /\ (forall t, o' = Some t -> tensor_ok n' t).

Lemma read_tensor_rows o o' rest : readable o o' ->
  exists o'', RState.read_rows (length used) head o' (tensor_bytes o ++ rest) = Ret (Some o'', rest) /\ tensor_restored o o' o''.
Proof using Hused Hroom.
  intros (Hsame & Ho & Ho'). destruct o' as [t'|].
  2: { apply same_tensor_none in Hsame as ->. exists None. split; [done|]. by split_and!. }
  destruct (same_tensor_some _ _ Hsame) as (t & -> & Et & Er). destruct (Ho t eq_refl) as (Hl & Hty & Hrow).
  destruct (Ho' t' eq_refl) as (Hl' & Hty' & Hrow'). cbn [tensor_bytes RState.read_rows]. rewrite <- !app_assoc.
  rewrite read_i32_ok by done. cbn [mbind outcome_bind keeping within map_throw]. rewrite Et, Z.eqb_refl. cbn [negb].
  rewrite read_u64_ok by lia. cbn [mbind outcome_bind keeping within map_throw]. rewrite Er, Z.eqb_refl. cbn [negb].
  destruct (Nat.eqb_spec (length used) 0) as [H0|H0].
  - apply nil_length_inv in H0. rewrite H0. simpl. exists (Some t'). split; [done|]. split; [done|]. split; [exact Ho'|]. split; [intros j i Hj; by rewrite H0 in Hj|done].
  - assert (Hb : length (rows_bytes used (rt_row t') 0 (rt_data t)) = (length used * rt_row t')%nat).
    { apply (length_rows n used used Hused eq_refl ltac:(lia) _ 0 n); [congruence|lia]. }
    assert (Erd : forall r, Io.read (rows_bytes used (rt_row t') 0 (rt_data t) ++ r) (length used * rt_row t') = Ret (rows_bytes used (rt_row t') 0 (rt_data t), r)) by (intros r; rewrite <- Hb; apply read_app).
    rewrite Erd. cbn [mbind outcome_bind keeping within map_throw].
    destruct (write_rows_ok (rt_row t') 0 head (length used) (rows_bytes used (rt_row t') 0 (rt_data t)) (rt_data t') Hb)
      as (d & Ed & Hld & Hin & Hout); [rewrite Hl'; nia|]. rewrite Nat.add_0_r in Ed. rewrite Ed. cbn [mbind outcome_bind keeping within map_throw].
    exists (Some (set_data t' d)). split; [done|]. split_and!.
    + done.
    + intros t0 [= <-]. unfold tensor_ok, set_data. simpl. by rewrite Hld.
    + intros j i Hj. simpl. f_equal. rewrite <- Er. pose proof (Hin j (head + j)%nat) as H. rewrite Nat.add_0_r in H.
      rewrite Er, H by (apply lookup_seq; split; [done|by eapply lookup_lt_Some]).
      rewrite (slice_rows n used used Hused eq_refl ltac:(lia) (rt_row t') 0 n (rt_data t) j i); [by rewrite Nat.add_0_r|congruence|lia|done].
    + intros i Hi. simpl. f_equal. apply Hout. intros q Hq%elem_of_seq. lia.
Qed.

Definition layer_restored l l' l'' : Prop := tensor_restored (rl_r l) (rl_r l') (rl_r l'') /\ tensor_restored (rl_s l) (rl_s l') (rl_s l'').

Lemma read_states_ok st ls rest : rc_size (rs_mem st) = n' -> Z.to_nat (rc_head (rs_mem st)) = head -> Z.of_nat (length ls) < 2 ^ 32 ->
  layers_ok n ls -> layers_ok n' (rs_layers st) -> same_layers ls (rs_layers st) ->
  exists ls'', RState.state_read_data st (length used) (states_bytes ls ++ rest) = Ret (true, set_rlayers st ls'', rest)
    /\ Forall3 layer_restored ls (rs_layers st) ls''.
Proof using Hused Hroom.
  intros Hn Hh Hnum Hls Hls' Hsame. unfold RState.state_read_data, states_bytes. rewrite <- !app_assoc.
  rewrite read_u32_ok by lia. cbn [mbind outcome_bind keeping within map_throw]. rewrite read_u32_ok by lia. cbn [mbind outcome_bind keeping within map_throw].
  rewrite (Forall2_length _ _ _ Hsame), Z.eqb_refl, Hn, Hh, (proj2 (Nat.ltb_ge _ _)) by lia. cbn [negb Z.eqb].
  set (R := fun l l' => readable (rl_r l) (rl_r l') /\ readable (rl_s l) (rl_s l')).
  assert (HR : Forall2 R ls (rs_layers st)).
  { clear - Hls Hls' Hsame. unfold layers_ok in *. induction Hsame as [|l l' ls ls' [H1 H2] _ IH]; [constructor|].
    apply Forall_cons in Hls as [[G1 G2] Hls], Hls' as [[G3 G4] Hls']. constructor; [by split_and!|by apply IH]. }
  destruct (read_layers_ok (RState.read_r (length used) head) (fun l => tensor_bytes (rl_r l)) R
    (fun l l' l'' => tensor_restored (rl_r l) (rl_r l') (rl_r l'') /\ rl_s l'' = rl_s l') ls (rs_layers st)
    (flat_map (fun l => tensor_bytes (rl_s l)) ls ++ rest)) as (ls1 & -> & H1); [|done|].
  { intros l l' rest' [Hr _]. destruct (read_tensor_rows _ _ rest' Hr) as (o & E & Ho). exists (set_r l' o).
    unfold RState.read_r. by rewrite E. }
  cbn [mbind outcome_bind keeping within map_throw negb].
  assert (HR1 : Forall2 (fun l l' => readable (rl_s l) (rl_s l')) ls ls1).
  { clear - H1 HR. induction H1 as [|l l' l1 ls ls' ls1 [_ E] _ IH]; [constructor|]. apply Forall2_cons in HR as [[_ H] HR].
    constructor; [by rewrite E|by apply IH]. }
  destruct (read_layers_ok (RState.read_s (length used) head) (fun l => tensor_bytes (rl_s l)) (fun l l' => readable (rl_s l) (rl_s l'))
    (fun l l' l'' => tensor_restored (rl_s l) (rl_s l') (rl_s l'') /\ rl_r l'' = rl_r l') ls ls1 rest) as (ls2 & -> & H2); [|done|].
  { intros l l' rest' Hr. destruct (read_tensor_rows _ _ rest' Hr) as (o & E & Ho). exists (set_s l' o).
    unfold RState.read_s. by rewrite E. }
  cbn [mbind outcome_bind keeping within map_throw]. exists ls2. split; [done|]. clear - H1 H2. revert ls2 H2.
  induction H1 as [|l l' l1 ls ls' ls1 [Hr E] _ IH]; intros ls2 H2; inversion H2 as [|? ? l2 ? ? ? [Hs E2]]; subst; [constructor|].
  constructor; [|by apply IH]. split; [by rewrite E2|by rewrite <- E].
Qed.

Lemma restored_state ls ls' ls'' : Forall3 layer_restored ls ls' ls'' ->
  (forall j i, used !! j = Some i -> cell_state ls'' (head + j) = cell_state ls i)
  /\ (forall i, ~ (head <= i < head + length used)%nat -> cell_state ls'' i = cell_state ls' i)
  /\ same_layers ls' ls'' /\ layers_ok n' ls''.
Proof using.
  clear. induction 1 as [|l l' l'' ls ls' ls'' [(R1 & R2 & R3 & R4) (S1 & S2 & S3 & S4)] _ (H1 & H2 & H3 & H4)]; [by split_and!; try constructor|].
  unfold cell_state in *. split_and!.
  - intros j i Hj. simpl. by rewrite (R3 j i Hj), (S3 j i Hj), (H1 j i Hj).
  - intros i Hi. simpl. by rewrite (R4 i Hi), (S4 i Hi), (H2 i Hi).
  - constructor; [by split|done].
  - by constructor.
Qed.

End Read.
End Data.

(** * What a saved recurrent memory holds, and its restoration. *)

From stdpp Require Import sorting.
#[local] Open Scope Z_scope.

Implicit Types (m : llama_memory_recurrent) (s q p : Z) (k : nat).

(** ** Writing *)

Definition saved m s i : bool := RState.in_state s (cells_of m !!! i).
Definition saved_list m s : list nat := List.filter (saved m s) (seq 0 (rc_size m)).

Lemma elem_of_saved_list m s i : i ∈ saved_list m s <-> (i < rc_size m)%nat /\ saved m s i = true.
Proof. unfold saved_list. rewrite list_elem_of_In, List.filter_In, List.in_seq. intuition lia. Qed.

Lemma saved_all m i : saved m (-1) i = true <-> mc_seq (cells_of m !!! i) <> ∅ \/ -1 ∈ mc_seq (cells_of m !!! i).
Proof.
  unfold saved, RState.in_state. rewrite orb_true_iff, has_seq_id_spec, Z.eqb_refl. cbn [andb].
  rewrite negb_true_iff, <- not_true_iff_false, is_empty_spec. done.
Qed.

Lemma saved_seq m s i : s <> -1 -> saved m s i = true <-> s ∈ mc_seq (cells_of m !!! i).
Proof. intros Hs. unfold saved, RState.in_state. rewrite (proj2 (Z.eqb_neq _ _)) by done. cbn [andb orb]. apply has_seq_id_spec. Qed.

Lemma NoDup_saved_list m s : NoDup (saved_list m s).
Proof. unfold saved_list. apply NoDup_ListNoDup, List.NoDup_filter, List.seq_NoDup. Qed.

(** The text of a cell. *)
Definition saved_ids m s i : list Z := if s =? -1 then RState.in_ids_order (mc_seq (cells_of m !!! i)) else [].
Definition cell_bytes m s i : list Z :=
  Io.le_bytes 4 (mc_pos (cells_of m !!! i)) ++ Io.le_bytes 4 (Z.of_nat (length (saved_ids m s i)))
  ++ flat_map (Io.le_bytes 4) (saved_ids m s i).

Lemma write_ids ids out : foldl (fun out s => Io.write out (Io.le_bytes 4 s)) out ids = out ++ flat_map (Io.le_bytes 4) ids.
Proof.
  revert out. induction ids as [|s ids IH]; intros out; [by rewrite app_nil_r|].
  cbn [foldl flat_map]. rewrite IH. unfold Io.write. by rewrite <- app_assoc.
Qed.

Lemma write_cell_ok m s out i : (i < length (cells_of m))%nat -> RState.write_cell m s out i = Ret (out ++ cell_bytes m s i).
Proof.
  intros Hi. unfold RState.write_cell. rewrite cell_nat by done. cbn [mbind outcome_bind keeping within map_throw]. rewrite write_ids. unfold Io.write, cell_bytes, saved_ids.
  by rewrite <- !app_assoc.
Qed.

Definition rec_bytes (st : rec_store) s : list Z :=
  let l := saved_list (rs_mem st) s in
  Io.le_bytes 4 (Z.of_nat (length l)) ++ flat_map (cell_bytes (rs_mem st) s) l ++ states_bytes l (rs_layers st).

Lemma rec_state_write_ok st s : rec_ok (rs_mem st) -> layers_ok (rc_size (rs_mem st)) (rs_layers st) ->
  RState.state_write st s = Ret (rec_bytes st s).
Proof.
  intros Hok Hls. set (m := rs_mem st) in *. pose proof (ro_len m Hok) as Hl. unfold RState.state_write. fold m.
  destruct (collect_ok (rc_size m) (saved m s) (RState.range_step m s)) as (ranges & E & Hr & Hall).
  { intros acc i Hi. unfold RState.range_step. by rewrite cell_nat by lia. }
  unfold RState.cell_ranges. rewrite E. cbn [mbind outcome_bind keeping within map_throw]. unfold RState.state_write_meta.
  rewrite (foldM_append _ (cell_bytes m s)).
  2: { intros i out Hi. apply write_cell_ok. rewrite Hr in Hi. apply elem_of_saved_list in Hi. lia. }
  cbn [mbind outcome_bind keeping within map_throw]. rewrite (write_states_ok (rc_size m) (saved_list m s)) by done. rewrite Hr. fold (saved_list m s).
  unfold rec_bytes, Io.write. fold m. by rewrite <- !app_assoc.
Qed.

(** ** Cells that own their states *)

Lemma own_sources_ok m a n : length (cells_of m) = rc_size m -> Z.of_nat (rc_size m) < 2 ^ 31 -> rc_head m = Z.of_nat a -> (a + n <= rc_size m)%nat ->
  exists m', RState.own_sources m n = Ret m' /\ length (cells_of m') = rc_size m /\ rc_size m' = rc_size m /\ rc_head m' = rc_head m
  /\ rc_used m' = rc_used m
  /\ forall j, cells_of m' !!! j = if decide (a <= j < a + n)%nat then with_src (Z.of_nat j) (cells_of m !!! j) else cells_of m !!! j.
Proof.
  intros Hl Hsm Ha Hn. unfold RState.own_sources. match goal with |- context [foldM ?f _ _] => set (step := f) end.
  destruct (foldM_interval step (fun k m' => length (cells_of m') = rc_size m /\ rc_size m' = rc_size m /\ rc_head m' = rc_head m
    /\ rc_used m' = rc_used m
    /\ forall j, cells_of m' !!! j = if decide (a <= j < a + k)%nat then with_src (Z.of_nat j) (cells_of m !!! j) else cells_of m !!! j) m n)
    as (m' & E & H).
  - do 4 (split; [done|]). intros j. by rewrite decide_False by lia.
  - intros k b Hk (Hlb & Hsb & Hhb & Hub & Hb). unfold step. cbv zeta. rewrite Hhb, Ha.
    replace (u32 (Z.of_nat a + Z.of_nat k)) with (Z.of_nat (a + k)) by (rewrite u32_small; lia). rewrite change_nat by lia.
    eexists. split; [reflexivity|]. split; [by rewrite length_changed|]. split; [exact Hsb|]. split; [etrans; [exact Hhb|done]|]. split; [exact Hub|]. intros j. rewrite changed_cell by lia.
    destruct (decide (a + k = j)%nat) as [<-|Hne].
    + rewrite Hb, decide_False by lia. by rewrite decide_True by lia.
    + rewrite Hb. destruct (decide (a <= j < a + k)%nat); [by rewrite decide_True by lia|by rewrite decide_False by lia].
  - by exists m'.
Qed.

(** ** Restoring a whole memory *)

(** Sequences [ids] join cell [i]. *)
Definition seated (ids : list Z) i m m' : Prop :=
  length (cells_of m') = rc_size m /\ rc_size m' = rc_size m
  /\ forall j, mc_pos (cells_of m' !!! j) = mc_pos (cells_of m !!! j) /\ mc_src (cells_of m' !!! j) = mc_src (cells_of m !!! j)
    /\ mc_seq (cells_of m' !!! j) = (if decide (j = i) then mc_seq (cells_of m !!! j) ∪ list_to_set ids else mc_seq (cells_of m !!! j))
    /\ mc_tail (cells_of m' !!! j) = (if decide (Z.of_nat j ∈ ids) then Z.of_nat i else mc_tail (cells_of m !!! j)).

Lemma seat_first m i q : length (cells_of m) = rc_size m -> (i < rc_size m)%nat -> 0 <= q < Z.of_nat (rc_size m) ->
  seated [q] i m (changed (changed m i (fun c => with_seq (mc_seq c ∪ {[ q ]}) c)) (Z.to_nat q) (with_tail (Z.of_nat i))).
Proof.
  intros Hl Hi Hq. set (m1 := changed m i _). split; [unfold m1; by rewrite !length_changed|]. split; [done|]. intros j.
  rewrite changed_cell by (unfold m1; rewrite length_changed; lia). unfold m1. rewrite (changed_cell m i j) by lia.
  assert (Hin : Z.of_nat j ∈ [q] <-> Z.to_nat q = j) by (rewrite list_elem_of_singleton; lia).
  destruct (decide (Z.to_nat q = j)) as [<-|Hne].
  - rewrite (decide_True (P := Z.of_nat (Z.to_nat q) ∈ [q])) by by apply Hin. rewrite (changed_cell m i) by lia.
    destruct (decide (i = Z.to_nat q)) as [->|Hni].
    + rewrite decide_True by done. simpl. split_and!; [done|done|set_solver|done].
    + rewrite decide_False by done. by split_and!.
  - rewrite (decide_False (P := Z.of_nat j ∈ [q])) by (rewrite Hin; done).
    destruct (decide (i = j)) as [<-|Hni].
    + rewrite decide_True by done. simpl. split_and!; [done|done|set_solver|done].
    + rewrite decide_False by done. by split_and!.
Qed.

Lemma read_ids_ok ids i rest : forall m, length (cells_of m) = rc_size m -> (i < rc_size m)%nat -> Z.of_nat (rc_size m) < 2 ^ 31 -> NoDup ids ->
  (forall q, q ∈ ids -> 0 <= q < Z.of_nat (rc_size m) /\ mc_tail (cells_of m !!! Z.to_nat q) = -1) ->
  exists m', RState.read_seq_ids m i (length ids) (flat_map (Io.le_bytes 4) ids ++ rest) = Ret (true, m', rest) /\ seated ids i m m'.
Proof.
  induction ids as [|q ids IH]; intros m Hl Hi Hsm Hnd Hids.
  - exists m. split; [done|]. split; [done|]. split; [done|]. intros j. rewrite (decide_False (P := Z.of_nat j ∈ [])) by (by apply not_elem_of_nil).
    split_and!; [done|done| |done]. destruct (decide (j = i)); [simpl; set_solver|done].
  - destruct (Hids q ltac:(left)) as [Hq Ht]. apply NoDup_cons in Hnd as [Hqi Hnd].
    cbn [length RState.read_seq_ids flat_map]. rewrite <- app_assoc, read_i32_ok by lia. cbn [mbind outcome_bind keeping within map_throw].
    rewrite (proj2 (Z.ltb_ge q 0)) by lia. rewrite change_nat by lia. cbn [mbind outcome_bind keeping within map_throw].
    rewrite cell_Ret by (rewrite length_changed; lia). cbn [mbind outcome_bind keeping within map_throw].
    assert (E : mc_tail (cells_of (changed m i (fun c => with_seq (mc_seq c ∪ {[ q ]}) c)) !!! Z.to_nat q) = -1).
    { rewrite changed_cell by lia. by destruct (decide (i = Z.to_nat q)) as [->|]. }
    rewrite E. clear E. cbn [Z.eqb negb]. rewrite change_Ret by (rewrite length_changed; lia). cbn [mbind outcome_bind keeping within map_throw].
    destruct (seat_first m i q Hl Hi Hq) as (Hl1 & Hs1 & H1). set (m1 := changed _ _ _) in *.
    destruct (IH m1) as (m2 & -> & Hl2 & Hs2 & H2); [congruence|congruence|congruence|done| |].
    + intros q' Hq'. destruct (Hids q' ltac:(by right)) as [Hr Ht']. rewrite Hs1. split; [done|]. destruct (H1 (Z.to_nat q')) as (_ & _ & _ & ->).
      rewrite decide_False; [done|]. rewrite list_elem_of_singleton. intros E'. rewrite Z2Nat.id in E' by lia. congruence.
    + exists m2. split; [done|]. split; [congruence|]. split; [congruence|]. intros j.
      destruct (H1 j) as (P1 & P2 & P3 & P4), (H2 j) as (Q1 & Q2 & Q3 & Q4). rewrite Q1, Q2, Q3, Q4, P1, P2, P3, P4.
      split_and!; [done|done| |].
      * destruct (decide (j = i)); [simpl; set_solver|done].
      * destruct (decide (Z.of_nat j ∈ ids)) as [Hin|Hno].
        -- by rewrite decide_True by by right.
        -- destruct (decide (Z.of_nat j ∈ [q])) as [Hin|Hnq].
           ++ rewrite decide_True; [done|]. apply list_elem_of_singleton in Hin. apply elem_of_cons. by left.
           ++ rewrite decide_False; [done|]. rewrite elem_of_cons. intros [E|E]; [|done]. by apply Hnq, list_elem_of_singleton.
Qed.

Lemma in_ids_order_spec (ids : gset Z) : NoDup (RState.in_ids_order ids) /\ forall q, q ∈ RState.in_ids_order ids <-> q ∈ ids.
Proof.
  unfold RState.in_ids_order. pose proof (merge_sort_Permutation Z.le (elements ids)) as Hp. split.
  - rewrite Hp. apply NoDup_elements.
  - intros q. rewrite Hp. apply elem_of_elements.
Qed.

Lemma length_range (ids : list Z) n : NoDup ids -> (forall q, q ∈ ids -> 0 <= q < Z.of_nat n) -> (length ids <= n)%nat.
Proof.
  intros Hnd Hr. rewrite <- (length_seq n 0), <- (length_map Z.of_nat (seq 0 n)). apply submseteq_length, NoDup_submseteq; [done|].
  intros q Hq. apply list_elem_of_fmap. exists (Z.to_nat q). specialize (Hr q Hq). split; [lia|]. apply elem_of_seq. lia.
Qed.

(** Every saved cell has a sequence of its own, so that there is room for them. *)
Lemma saved_room m n' : rec_ok m -> (forall i q, (i < rc_size m)%nat -> q ∈ mc_seq (cells_of m !!! i) -> q < Z.of_nat n') ->
  (length (saved_list m (-1)) <= n')%nat.
Proof.
  intros Hok Hids. rewrite <- (length_seq n' 0), <- (length_map (fun q : nat => Z.to_nat (mc_tail (cells_of m !!! q))) (seq 0 n')).
  apply submseteq_length, NoDup_submseteq; [apply NoDup_saved_list|]. intros i [Hi H]%elem_of_saved_list.
  assert (Hq : exists q, q ∈ mc_seq (cells_of m !!! i)) by (apply saved_all in H as [H|H]; [by apply set_choose_L|by exists (-1)]).
  destruct Hq as [q Hq]. destruct (ro_tail m Hok i q Hi Hq) as [Hr Ht]. specialize (Hids i q Hi Hq).
  apply list_elem_of_fmap. exists (Z.to_nat q). rewrite Ht. split; [lia|]. apply elem_of_seq. lia.
Qed.

Section Whole.
Context (m : llama_memory_recurrent) (n' : nat).
Hypotheses (Hok : rec_ok m) (Hn' : Z.of_nat n' < 2 ^ 31)
  (Hpos : forall i, (i < rc_size m)%nat -> mc_pos (cells_of m !!! i) < 2 ^ 31)
  (Hids : forall i q, (i < rc_size m)%nat -> q ∈ mc_seq (cells_of m !!! i) -> q < Z.of_nat n').

Notation xs := (saved_list m (-1)).

Hypothesis (Hroom : (length xs <= n')%nat).

(** The first [k] saved cells, in a memory of [n'] cells. *)
Record filled k (mk : llama_memory_recurrent) : Prop := {
  fl_len : length (cells_of mk) = n';
  fl_size : rc_size mk = n';
  fl_src j : (j < n')%nat -> mc_src (cells_of mk !!! j) = -1;
  fl_full j i : (j < k)%nat -> xs !! j = Some i -> mc_pos (cells_of mk !!! j) = mc_pos (cells_of m !!! i)
    /\ mc_seq (cells_of mk !!! j) = mc_seq (cells_of m !!! i);
  fl_empty j : (k <= j < n')%nat -> mc_pos (cells_of mk !!! j) = -1 /\ mc_seq (cells_of mk !!! j) = ∅;
  fl_tail j : (j < n')%nat -> (mc_tail (cells_of mk !!! j) = -1 /\ forall x i, (x < k)%nat -> xs !! x = Some i -> Z.of_nat j ∉ mc_seq (cells_of m !!! i))
    \/ exists x i, (x < k)%nat /\ xs !! x = Some i /\ Z.of_nat j ∈ mc_seq (cells_of m !!! i) /\ mc_tail (cells_of mk !!! j) = Z.of_nat x;
}.

Lemma saved_cell x i : xs !! x = Some i -> (i < rc_size m)%nat /\ mc_seq (cells_of m !!! i) <> ∅.
Proof using Hok.
  clear Hroom Hids Hpos Hn' n'. intros Hx%list_elem_of_lookup_2. apply elem_of_saved_list in Hx as [Hi [H|H]%saved_all]; (split; [done|]); [done|].
  destruct (ro_tail m Hok i (-1) Hi H) as [? _]. lia.
Qed.

Lemma filled_step k i mk mk' : filled k mk -> xs !! k = Some i ->
  seated (RState.in_ids_order (mc_seq (cells_of m !!! i))) k (changed mk k (with_pos (mc_pos (cells_of m !!! i)))) mk' -> filled (S k) mk'.
Proof using All.
  intros Hf Hk (Hl & Hs & H). destruct Hf as [F1 F2 F3 F4 F5 F6]. pose proof (lookup_lt_Some _ _ _ Hk) as Hkx.
  destruct (in_ids_order_spec (mc_seq (cells_of m !!! i))) as [_ Hin]. set (ids := RState.in_ids_order _) in *.
  change (rc_size (changed mk k (with_pos (mc_pos (cells_of m !!! i))))) with (rc_size mk) in *.
  assert (Hset : list_to_set ids = mc_seq (cells_of m !!! i)) by (apply set_eq; intros q; rewrite elem_of_list_to_set; apply Hin).
  assert (Hj : forall j, mc_pos (cells_of mk' !!! j) = (if decide (j = k) then mc_pos (cells_of m !!! i) else mc_pos (cells_of mk !!! j))
    /\ mc_src (cells_of mk' !!! j) = mc_src (cells_of mk !!! j)
    /\ mc_seq (cells_of mk' !!! j) = (if decide (j = k) then mc_seq (cells_of mk !!! j) ∪ mc_seq (cells_of m !!! i) else mc_seq (cells_of mk !!! j))
    /\ mc_tail (cells_of mk' !!! j) = (if decide (Z.of_nat j ∈ ids) then Z.of_nat k else mc_tail (cells_of mk !!! j))).
  { intros j. destruct (H j) as (-> & -> & -> & ->). rewrite Hset, changed_cell by lia.
    destruct (decide (k = j)) as [<-|Hne]; [by rewrite !(decide_True (P := k = k))|by rewrite !(decide_False (P := j = k))]. }
  clear H. constructor; [congruence|congruence| | | |].
  - intros j Hjn. destruct (Hj j) as (_ & -> & _). by apply F3.
  - intros j i' Hjk Hx. destruct (Hj j) as (-> & _ & -> & _). destruct (decide (j = k)) as [->|Hne].
    + destruct (F5 k ltac:(lia)) as [_ ->]. assert (i' = i) as -> by congruence. split; [done|set_solver].
    + apply F4; [lia|done].
  - intros j Hjn. destruct (Hj j) as (-> & _ & -> & _). rewrite !decide_False by lia. apply F5. lia.
  - intros j Hjn. destruct (Hj j) as (_ & _ & _ & ->). destruct (decide (Z.of_nat j ∈ ids)) as [Hi|Hi].
    + right. exists k, i. split; [lia|]. split; [done|]. split; [by apply Hin|done].
    + destruct (F6 j Hjn) as [[-> Hno]|(x & i' & Hx & Hxi & Hji & ->)].
      * left. split; [done|]. intros x i' Hx Hxi. destruct (decide (x = k)) as [->|Hne]; [|apply (Hno x); [lia|done]].
        assert (i' = i) as -> by congruence. by rewrite <- Hin.
      * right. exists x, i'. split; [lia|done].
Qed.

Lemma rec_read_cells_ok rest : forall d k mk, (k + d = length xs)%nat -> filled k mk -> exists mk',
  RState.read_cells (seq k d) mk (flat_map (cell_bytes m (-1)) (drop k xs) ++ rest) = Ret (true, mk', rest) /\ filled (length xs) mk'.
Proof using Hok Hn' Hpos Hids Hroom.
  induction d as [|d IH]; intros k mk Hkd Hf.
  - exists mk. rewrite drop_ge by lia. split; [done|]. by replace (length xs) with k by lia.
  - destruct (lookup_lt_is_Some_2 xs k ltac:(lia)) as [i Hi]. rewrite (drop_S _ _ _ Hi). cbn [seq RState.read_cells flat_map].
    destruct (saved_cell k i Hi) as [Hin Hne]. destruct (ro_full m Hok i Hin Hne) as [Hp0 _]. pose proof (Hpos i Hin) as Hpi.
    unfold cell_bytes at 1. unfold saved_ids. rewrite Z.eqb_refl. set (ids := RState.in_ids_order (mc_seq (cells_of m !!! i))).
    destruct (in_ids_order_spec (mc_seq (cells_of m !!! i))) as [Hnd Hel]. fold ids in Hnd, Hel.
    assert (Hr : forall q, q ∈ ids -> 0 <= q < Z.of_nat n').
    { intros q Hq%Hel. destruct (ro_tail m Hok i q Hin Hq) as [Hr _]. split; [lia|by apply (Hids i)]. }
    pose proof (length_range ids n' Hnd Hr) as Hlen. rewrite <- !app_assoc.
    rewrite read_i32_ok by lia. cbn [mbind outcome_bind keeping within map_throw]. rewrite read_u32_ok by lia. cbn [mbind outcome_bind keeping within map_throw].
    pose proof Hf as [F1 F2 F3 F4 F5 F6]. rewrite change_nat by lia. cbn [mbind outcome_bind keeping within map_throw]. rewrite Nat2Z.id.
    set (m1 := changed mk k (with_pos (mc_pos (cells_of m !!! i)))).
    destruct (read_ids_ok ids k (flat_map (cell_bytes m (-1)) (drop (S k) xs) ++ rest) m1) as (m2 & -> & Hm2).
    + unfold m1. rewrite length_changed. simpl; lia.
    + unfold m1. simpl. lia.
    + unfold m1. simpl. lia.
    + done.
    + intros q Hq. change (rc_size m1) with (rc_size mk). rewrite F2. specialize (Hr q Hq). split; [done|]. unfold m1. rewrite changed_cell by lia.
      assert (Et : mc_tail (cells_of mk !!! Z.to_nat q) = -1).
      { destruct (F6 (Z.to_nat q)) as [[E _]|(x & i' & Hx & Hxi & Hqi & _)]; [lia|done|]. exfalso. rewrite Z2Nat.id in Hqi by lia.
        apply Hel in Hq. destruct (saved_cell x i' Hxi) as [Hin' _].
        destruct (ro_tail m Hok i q Hin Hq) as [_ E1], (ro_tail m Hok i' q Hin' Hqi) as [_ E2].
        assert (i' = i) as -> by lia. pose proof (NoDup_lookup _ _ _ _ (NoDup_saved_list m (-1)) Hxi Hi). lia. }
      destruct (decide (k = Z.to_nat q)) as [E|]; [|done]. rewrite E. simpl. exact Et.
    + cbn [mbind outcome_bind keeping within map_throw]. destruct (IH (S k) m2) as (mk' & E & Hf'); [lia|by eapply filled_step|]. by exists mk'.
Qed.

(** The memory after the cells were read and own their states. *)
Record restored (m2 : llama_memory_recurrent) : Prop := {
  rd_ok : rec_ok m2;
  rd_size : rc_size m2 = n';
  rd_head : rc_head m2 = 0;
  rd_idle j : ~ idle m2 j;
  rd_at q j p : seq_at m2 q j p <-> exists i, xs !! j = Some i /\ seq_at m q i p;
}.

Lemma filled_at mk m2 : filled (length xs) mk -> length (cells_of m2) = n' -> rc_size m2 = n' ->
  (forall j, (j < n')%nat -> mc_pos (cells_of m2 !!! j) = mc_pos (cells_of mk !!! j) /\ mc_seq (cells_of m2 !!! j) = mc_seq (cells_of mk !!! j)) ->
  forall q j p, seq_at m2 q j p <-> exists i, xs !! j = Some i /\ seq_at m q i p.
Proof using Hok Hroom.
  clear Hids Hpos Hn'. intros Hf Hl Hs Hc q j p. destruct Hf as [F1 F2 F3 F4 F5 F6]. unfold seq_at. rewrite Hs. split.
  - intros (Hj & Hq & Hp). destruct (Hc j Hj) as [E1 E2]. rewrite E1 in Hp. rewrite E2 in Hq.
    destruct (decide (j < length xs)%nat) as [Hlt|Hge].
    + destruct (lookup_lt_is_Some_2 xs j Hlt) as [i Hi]. destruct (F4 j i Hlt Hi) as [E3 E4]. exists i. split; [done|].
      apply list_elem_of_lookup_2, elem_of_saved_list in Hi as [Hin _]. rewrite E4 in Hq. rewrite E3 in Hp. by split_and!.
    + destruct (F5 j ltac:(lia)) as [_ E]. rewrite E in Hq. by apply elem_of_empty in Hq.
  - intros (i & Hi & Hin & Hq & Hp). pose proof (lookup_lt_Some _ _ _ Hi) as Hlt. destruct (Hc j ltac:(lia)) as [-> ->].
    destruct (F4 j i Hlt Hi) as [-> ->]. split_and!; [lia|done|done].
Qed.

Lemma count_first (l : list mem_cell) c : (c <= length l)%nat -> (forall j, (j < length l)%nat -> mc_seq (l !!! j) = ∅ <-> (c <= j)%nat) ->
  length (List.filter (fun x => negb (is_empty x)) l) = c.
Proof using.
  clear. revert c. induction l as [|x l IH]; intros c Hc H; [simpl in *; lia|]. pose proof (H 0%nat ltac:(simpl; lia)) as H0. simpl in H0.
  simpl. destruct c as [|c].
  - rewrite (proj2 (is_empty_spec x)) by (apply H0; lia). cbn [negb]. apply IH; [lia|]. intros j Hj. pose proof (H (S j) ltac:(simpl; lia)) as Hs. simpl in Hs. rewrite Hs. lia.
  - assert (E : is_empty x = false) by (apply not_true_iff_false; rewrite is_empty_spec, H0; lia). rewrite E. cbn [negb length]. f_equal.
    simpl in Hc. apply IH; [lia|]. intros j Hj. pose proof (H (S j) ltac:(simpl; lia)) as Hs. simpl in Hs. rewrite Hs. lia.
Qed.

Lemma filled_restored mk m2 : filled (length xs) mk -> length (cells_of m2) = n' -> rc_size m2 = n' -> rc_head m2 = 0 ->
  rc_used m2 = Z.of_nat (length xs) ->
  (forall j, cells_of m2 !!! j = if decide (0 <= j < 0 + length xs)%nat then with_src (Z.of_nat j) (cells_of mk !!! j) else cells_of mk !!! j) ->
  restored m2.
Proof using All.
  intros Hf Hl Hs Hh Hu Hc. pose proof Hf as [F1 F2 F3 F4 F5 F6].
  assert (Hsame : forall j, mc_pos (cells_of m2 !!! j) = mc_pos (cells_of mk !!! j) /\ mc_seq (cells_of m2 !!! j) = mc_seq (cells_of mk !!! j)
    /\ mc_tail (cells_of m2 !!! j) = mc_tail (cells_of mk !!! j)).
  { intros j. rewrite Hc. by destruct (decide _). }
  pose proof (filled_at mk m2 Hf Hl Hs (fun j _ => conj (proj1 (Hsame j)) (proj1 (proj2 (Hsame j))))) as Hat.
  assert (Hsrc : forall j, (j < n')%nat -> mc_src (cells_of m2 !!! j) = if decide (j < length xs)%nat then Z.of_nat j else -1).
  { intros j Hj. rewrite Hc. destruct (decide (0 <= j < 0 + length xs)%nat), (decide (j < length xs)%nat); try lia; [done|by apply F3]. }
  assert (Hemp : forall j, (j < n')%nat -> mc_seq (cells_of m2 !!! j) = ∅ <-> (length xs <= j)%nat).
  { intros j Hj. destruct (Hsame j) as (_ & -> & _). split; [|intros Hge; by apply F5]. intros E. destruct (decide (j < length xs)%nat) as [Hlt|]; [|lia].
    destruct (lookup_lt_is_Some_2 xs j Hlt) as [i Hi]. destruct (F4 j i Hlt Hi) as [_ E']. destruct (saved_cell j i Hi) as [_ Hne]. congruence. }
  constructor; [|done|done| |done].
  - constructor; rewrite ?Hs; [done|done|lia| | | | | |].
    + intros j q Hj Hq. assert (H : seq_at m2 q j (mc_pos (cells_of m2 !!! j))) by (split; [by rewrite Hs|done]).
      apply Hat in H as (i & Hi & (Him & Hqi & _)). destruct (ro_tail m Hok i q Him Hqi) as [Hr Ht]. pose proof (Hids i q Him Hqi) as Hqn.
      split; [lia|]. destruct (Hsame (Z.to_nat q)) as (_ & _ & ->). pose proof (lookup_lt_Some _ _ _ Hi) as Hjx.
      destruct (F6 (Z.to_nat q)) as [[_ Hno]|(x & i' & Hx & Hxi & Hqi' & ->)]; [lia|exfalso|].
      * rewrite Z2Nat.id in Hno by lia. by apply (Hno j i).
      * rewrite Z2Nat.id in Hqi' by lia. destruct (saved_cell x i' Hxi) as [Him' _]. destruct (ro_tail m Hok i' q Him' Hqi') as [_ Ht'].
        assert (i' = i) as -> by lia. by rewrite (NoDup_lookup _ _ _ _ (NoDup_saved_list m (-1)) Hxi Hi).
    + intros j Hj. destruct (Hsame j) as (_ & _ & ->). destruct (F6 j Hj) as [[-> _]|(x & i & Hx & Hxi & Hji & ->)]; [by left|right].
      exists x. split; [lia|]. split; [done|]. destruct (Hsame x) as (_ & -> & _). by destruct (F4 x i Hx Hxi) as [_ ->].
    + intros j Hj E%Hemp; [|done]. destruct (Hsame j) as (-> & _). by apply F5.
    + intros j Hj Hne. rewrite Hemp in Hne by done. destruct (lookup_lt_is_Some_2 xs j ltac:(lia)) as [i Hi].
      destruct (Hsame j) as (-> & _). destruct (F4 j i ltac:(lia) Hi) as [-> _]. destruct (saved_cell j i Hi) as [Hin Hne'].
      split; [by apply (ro_full m Hok)|]. rewrite Hsrc, decide_True by lia. done.
    + intros j Hj. rewrite Hsrc by done. destruct (decide _); [by right|by left].
    + rewrite Hu. unfold Rec.count_used. by rewrite (count_first _ (length xs)) by (rewrite Hl; done).
  - intros j (Hj & E & Es). rewrite Hs in Hj. rewrite Hemp in E by done. rewrite Hsrc in Es by done. rewrite decide_False in Es by lia. lia.
Qed.

End Whole.

(** ** Stores *)

(** The cleared state. *)
Definition zero_row (o : option rec_tensor) : option (list Z) := (fun t => replicate (rt_row t) 0) <$> o.
Definition zero_state (ls : list rec_layer) : list (option (list Z) * option (list Z)) := map (fun l => (zero_row (rl_r l), zero_row (rl_s l))) ls.

(** The states a store holds, and its map from sequences to positions and states. *)
Definition states_of (st : rec_store) : list (list (option (list Z) * option (list Z))) := cell_states (rc_size (rs_mem st)) (rs_layers st).
Definition rec_view (st : rec_store) : Z -> option (Z * list (option (list Z) * option (list Z))) := view (rs_mem st) (states_of st).

(** A store whose cells and tensors are intact. *)
Record rec_store_ok (st : rec_store) : Prop := {
  rso_inv : rec_inv (zero_state (rs_layers st)) (rs_mem st) (states_of st);
  rso_layers : layers_ok (rc_size (rs_mem st)) (rs_layers st);
  rso_number : Z.of_nat (length (rs_layers st)) < 2 ^ 32;
}.

Lemma zero_state_same ls ls' : same_layers ls ls' -> zero_state ls' = zero_state ls.
Proof.
  assert (H : forall o o', same_tensor o o' -> zero_row o' = zero_row o).
  { intros [t|] [t'|]; try done. intros Et. injection Et as _ E. unfold zero_row. simpl. by rewrite E. }
  induction 1 as [|l l' ls ls' [H1 H2] _ IH]; [done|]. simpl. by rewrite IH, (H _ _ H1), (H _ _ H2).
Qed.

(** The layers after [clear(true)]. *)
Definition zeroed (ls : list rec_layer) : list rec_layer :=
  map (fun l => mk_rlayer (option_map RState.zero_tensor (rl_r l)) (option_map RState.zero_tensor (rl_s l))) ls.

Lemma same_layers_zeroed ls ls' : same_layers ls ls' -> same_layers ls (zeroed ls').
Proof.
  intros H. induction H as [|l l' ls ls' [H1 H2] _ IH]; constructor; [|done].
  split; simpl; [destruct (rl_r l')|destruct (rl_s l')]; done.
Qed.

Lemma layers_ok_zeroed n ls : layers_ok n ls -> layers_ok n (zeroed ls).
Proof.
  induction 1 as [|l ls [H1 H2] _ IH]; constructor; [|done]. split; simpl; [destruct (rl_r l) as [t|]|destruct (rl_s l) as [t|]];
    intros t0 E; try done; injection E as <-; [destruct (H1 t eq_refl)|destruct (H2 t eq_refl)]; split; simpl; rewrite ?length_map; done.
Qed.

Lemma same_layers_trans ls ls' ls'' : same_layers ls ls' -> same_layers ls' ls'' -> same_layers ls ls''.
Proof.
  intros H. revert ls''. induction H as [|l l' ls ls' [H1 H2] _ IH]; intros ls'' H'; inversion H' as [|? l'' ? ? [H3 H4]]; subst; constructor; [|by apply IH].
  split; unfold same_tensor in *; congruence.
Qed.

(** The positions and sequences of a store, as the map has them. *)
Definition storable (n' : nat) (v : Z -> option (Z * list (option (list Z) * option (list Z)))) : Prop :=
  forall q p x, v q = Some (p, x) -> q < Z.of_nat n' /\ p < 2 ^ 31.

Lemma storable_cells st n' i q : rec_store_ok st -> storable n' (rec_view st) -> (i < rc_size (rs_mem st))%nat -> q ∈ mc_seq (cells_of (rs_mem st) !!! i) ->
  q < Z.of_nat n' /\ mc_pos (cells_of (rs_mem st) !!! i) < 2 ^ 31.
Proof.
  intros [[Hok Hl _] _ _] Hv Hi Hq. destruct (view_at (rs_mem st) (states_of st) q i (mc_pos (cells_of (rs_mem st) !!! i)) Hok Hl) as (x & _ & E); [by split_and!|].
  by apply (Hv q _ x).
Qed.

Lemma storable_pos st n' i : rec_store_ok st -> storable n' (rec_view st) -> (i < rc_size (rs_mem st))%nat -> mc_pos (cells_of (rs_mem st) !!! i) < 2 ^ 31.
Proof.
  intros Hst Hv Hi. destruct (decide (mc_seq (cells_of (rs_mem st) !!! i) = ∅)) as [E|[q Hq]%set_choose_L].
  - destruct Hst as [[Hok _ _] _ _]. rewrite (ro_empty _ Hok i Hi E). lia.
  - by apply (storable_cells st n' i q).
Qed.

Lemma whole_meta_ok m st' rest (n' := rc_size (rs_mem st')) : rec_ok m -> rec_ok (rs_mem st') ->
  (forall i, (i < rc_size m)%nat -> mc_pos (cells_of m !!! i) < 2 ^ 31) ->
  (forall i q, (i < rc_size m)%nat -> q ∈ mc_seq (cells_of m !!! i) -> q < Z.of_nat n') ->
  exists m2, RState.state_read_meta st' (length (saved_list m (-1))) (-1) (flat_map (cell_bytes m (-1)) (saved_list m (-1)) ++ rest)
      = Ret (true, mk_rstore m2 (rs_n_pos st') (zeroed (rs_layers st')), rest)
    /\ restored m n' m2.
Proof.
  intros Hok Hok' Hpos Hids. pose proof (saved_room m n' Hok Hids) as Hroom. pose proof (ro_small _ Hok') as Hsm.
  unfold RState.state_read_meta. rewrite Z.eqb_refl. cbn [negb]. unfold RState.read_meta_all. fold n'. rewrite (proj2 (Nat.ltb_ge _ _)) by done.
  unfold RState.clear_data. destruct (clear_cells (rs_mem st') (ro_len _ Hok')) as (m0 & -> & Hl0 & Hs0 & Hh0 & Hu0 & H0). fold n' in Hl0, Hs0, H0.
  cbn [mbind outcome_bind keeping within map_throw rs_mem].
  assert (Hf0 : filled m n' 0 m0).
  { constructor; try done; [by intros; apply H0|intros; lia|intros j Hj; destruct (H0 j ltac:(lia)) as (? & _ & _ & ?); done|]. intros j Hj. left. split; [by apply H0|intros; lia]. }
  destruct (rec_read_cells_ok m n' Hok Hsm Hpos Hids Hroom rest (length (saved_list m (-1))) 0 m0 eq_refl Hf0) as (m1 & E & Hf1).
  rewrite drop_0 in E. rewrite E. cbn [mbind outcome_bind keeping within map_throw]. unfold set_mem. cbn [rs_n_pos rs_layers rs_mem negb].
  set (mu := Rec.with_used (Rec.with_head m1 0) (Z.of_nat (length (saved_list m (-1))))).
  destruct (own_sources_ok mu 0 (length (saved_list m (-1)))) as (m2 & -> & Hl2 & Hs2 & Hh2 & Hu2 & H2).
  - change (length (cells_of m1) = rc_size m1). by rewrite (fl_len _ _ _ _ Hf1), (fl_size _ _ _ _ Hf1).
  - change (Z.of_nat (rc_size m1) < 2 ^ 31). by rewrite (fl_size _ _ _ _ Hf1).
  - done.
  - change (0 + length (saved_list m (-1)) <= rc_size m1)%nat. by rewrite (fl_size _ _ _ _ Hf1).
  - cbn [mbind outcome_bind keeping within map_throw]. exists m2. split; [done|]. change (rc_size mu) with (rc_size m1) in *. rewrite (fl_size _ _ _ _ Hf1) in *.
    by apply (filled_restored m n' Hok Hsm Hpos Hids Hroom m1 m2).
Qed.

Lemma same_layers_length ls ls' : same_layers ls ls' -> length ls = length ls'.
Proof. apply Forall2_length. Qed.

Lemma whole_restore_ok st st' rest : rec_store_ok st -> rec_store_ok st' -> same_layers (rs_layers st) (rs_layers st') ->
  storable (rc_size (rs_mem st')) (rec_view st) ->
  exists st'', RState.state_read st' (-1) (rec_bytes st (-1) ++ rest) = Ret (true, st'', rest)
    /\ rec_store_ok st'' /\ rc_size (rs_mem st'') = rc_size (rs_mem st') /\ same_layers (rs_layers st') (rs_layers st'')
    /\ forall q, rec_view st'' q = rec_view st q.
Proof.
  intros Hst Hst' Hsame Hv. pose proof Hst as [[Hok Hl Hid] Hls Hnum]. pose proof Hst' as [[Hok' Hl' Hid'] Hls' Hnum'].
  set (m := rs_mem st) in *. set (n' := rc_size (rs_mem st')) in *. pose proof (ro_small _ Hok') as Hsm. fold n' in Hsm.
  assert (Hids : forall i q, (i < rc_size m)%nat -> q ∈ mc_seq (cells_of m !!! i) -> q < Z.of_nat n').
  { intros i q Hi Hq. by apply (storable_cells st n' i q). }
  pose proof (saved_room m n' Hok Hids) as Hroom. set (xs := saved_list m (-1)) in *.
  unfold RState.state_read, rec_bytes. fold m. fold xs. rewrite <- !app_assoc. rewrite read_u32_ok by lia. cbn [mbind outcome_bind keeping within map_throw]. rewrite Nat2Z.id.
  destruct (whole_meta_ok m st' (states_bytes xs (rs_layers st) ++ rest) Hok Hok') as (m2 & E & Hr); [|done|].
  { intros i Hi. by apply (storable_pos st n' i). }
  fold xs in E. rewrite E. cbn [mbind outcome_bind keeping within map_throw]. clear E. fold n' in Hr. pose proof Hr as [Hok2 Hs2 Hh2 Hni Hat].
  set (st2 := mk_rstore m2 (rs_n_pos st') (zeroed (rs_layers st'))).
  assert (Hused : forall i, i ∈ xs -> (i < rc_size m)%nat) by (intros i Hi; by apply elem_of_saved_list in Hi as [? _]).
  destruct (read_states_ok (rc_size m) xs Hused n' 0 Hroom st2 (rs_layers st) rest) as (ls'' & E & H3); try done.
  - simpl. by rewrite Hh2.
  - by apply layers_ok_zeroed.
  - by apply same_layers_zeroed.
  - rewrite E. cbn [mbind outcome_bind keeping within map_throw]. destruct (restored_state xs n' 0 _ _ _ H3) as (R1 & R2 & R3 & R4).
    assert (Hsl : same_layers (rs_layers st') ls'').
    { eapply same_layers_trans; [|exact R3]. apply same_layers_zeroed. clear. induction (rs_layers st'); by constructor. }
    exists (set_rlayers st2 ls''). split; [done|]. split; [|split; [done|split; [done|]]].
    + constructor; unfold states_of; simpl; rewrite ?Hs2; [|done|by rewrite <- (same_layers_length _ _ Hsl)].
      constructor; [done|by rewrite length_states|]. intros j Hj. by destruct (Hni j).
    + intros q. unfold rec_view. fold m. apply view_ext; try done; [unfold states_of; simpl; by rewrite Hs2, length_states|].
      intros p x. unfold states_of. simpl. fold m. rewrite Hs2. split.
      * intros (j & Hj & Hx). apply Hat in Hj as (i & Hi & Hq). exists i. split; [done|]. pose proof (lookup_lt_Some _ _ _ Hi) as Hjx.
        rewrite lookup_states in Hx by (unfold xs in *; lia). rewrite lookup_states by (destruct Hq; done). by rewrite <- (R1 j i Hi).
      * intros (i & Hq & Hx). pose proof Hq as (Hi & Hqi & _).
        assert (Hin : i ∈ xs) by (apply elem_of_saved_list; split; [done|]; apply saved_all; left; set_solver).
        apply list_elem_of_lookup in Hin as [j Hj]. exists j. split; [apply Hat; by exists i|]. pose proof (lookup_lt_Some _ _ _ Hj) as Hjx.
        rewrite lookup_states in Hx by done. rewrite lookup_states by lia. by rewrite <- Hx, <- (R1 j i Hj).
Qed.
