(* ===== verification/RecurrentRestoreSeq.v ===== *)
(** * Restoring one sequence of a recurrent memory. *)

From S2P Require Import Prelude KvCells KvCellsFacts Batch KvCache KvCacheFacts KvState KvStateFacts KvTensors.
From S2P Require Import Recurrent RecurrentFacts RecurrentSteps RecurrentSlot RecurrentStage RecurrentFind RecurrentView RecurrentState RecurrentRestore.
From Stdlib Require Import Lia.

Implicit Types (m : llama_memory_recurrent) (s q p : Z) (i j k : nat).

(** ** The saved cells of a sequence *)

Lemma saved_list_one m s i p : rec_ok m -> seq_at m s i p -> s <> -1 -> saved_list m s = [i].
Proof.
  intros Hok Hat Hs. assert (Hin : forall j, j ∈ saved_list m s <-> j = i).
  { intros j. rewrite elem_of_saved_list, saved_seq by done. split; [intros [Hj Hq]|intros ->; by destruct Hat as (? & ? & _)].
    eapply (seq_at_unique m s j (mc_pos (cells_of m !!! j)) i p); [done| |done]. by split. }
  pose proof (NoDup_saved_list m s) as Hnd. destruct (saved_list m s) as [|x [|y l]].
  - exfalso. destruct (Hin i) as [_ H]. by apply elem_of_nil in H.
  - f_equal. apply Hin. left.
  - exfalso. assert (x = i) as -> by (apply Hin; left). assert (y = i) as -> by (apply Hin; right; left). apply NoDup_cons in Hnd as [H _]. apply H. left.
Qed.

Lemma saved_list_none m s : (forall i p, ~ seq_at m s i p) -> s <> -1 -> saved_list m s = [].
Proof.
  intros Hno Hs. destruct (saved_list m s) as [|x l] eqn:E; [done|]. exfalso. assert (Hx : x ∈ saved_list m s) by (rewrite E; left).
  apply elem_of_saved_list in Hx as [Hi Hq]. apply saved_seq in Hq; [|done]. by apply (Hno x (mc_pos (cells_of m !!! x))).
Qed.

(** ** The ubatch *)

Definition one_token (u : @llama_ubatch unit) p (d : Z) : Prop :=
  u_equal_seqs u = true /\ u_n_seq_tokens u = 1%nat /\ u_n_seqs u = 1%nat /\ u_pos u = [p] /\ u_n_seq_id u = [1] /\ u_seq_id u = [[d]].

Lemma reserve_one npe p d : exists u0 a u, ubatch_reserve (new_allocr npe) 1 1 = Ret (u0, a) /\ length (u_pos u0) = 1%nat
  /\ RState.of_sequence u0 [p] d = Ret u /\ one_token u p d.
Proof.
  unfold ubatch_reserve. cbn [foldM seq]. unfold set_ at 1. rewrite length_replicate.
  rewrite decide_True by (unfold LLAMA_MAX_SEQ; lia). cbn [mbind outcome_bind keeping within map_throw].
  eexists _, _, _. split; [reflexivity|]. split; [done|]. split; [reflexivity|]. done.
Qed.

Lemma one_token_fits n u p d : one_token u p (Z.of_nat d) -> (d < n)%nat -> 0 <= p -> fits n u /\ sets_of u = [[Z.of_nat d]] /\ last_of u 0 = p.
Proof.
  intros (E1 & E2 & E3 & E4 & E5 & E6) Hd Hp. assert (Hsets : sets_of u = [[Z.of_nat d]]) by (unfold sets_of; by rewrite E3, E6, E2).
  split; [|split; [done|unfold last_of; by rewrite E4, E2]]. constructor; rewrite ?E3, ?E2, ?E4, ?E5, ?E6, ?Hsets; try done; try lia.
  - intros [|s] Hs; [|lia]. by exists (Z.of_nat d), [].
  - intros [|s] Hs; [|lia]. by exists p.
  - simpl. apply NoDup_singleton.
  - intros q Hq. simpl in Hq. apply list_elem_of_singleton in Hq. lia.
Qed.

(** A cell in use owns its state already. *)
Lemma own_source_same m j : rec_ok m -> (j < rc_size m)%nat -> mc_seq (cells_of m !!! j) <> ∅ -> rc_head m = Z.of_nat j ->
  RState.own_sources m 1 = Ret m.
Proof.
  intros Hok Hj Hne Hh. pose proof (ro_len m Hok). pose proof (ro_small m Hok). unfold RState.own_sources. cbn [foldM seq]. cbv zeta.
  rewrite Hh. replace (u32 (Z.of_nat j + Z.of_nat 0)) with (Z.of_nat j) by (rewrite u32_small; lia).
  rewrite change_nat by lia. cbn [mbind outcome_bind keeping within map_throw]. f_equal. unfold changed.
  destruct (ro_full m Hok j Hj Hne) as [_ Es]. assert (E : with_src (Z.of_nat j) (cells_of m !!! j) = cells_of m !!! j).
  { destruct (cells_of m !!! j) as [a b c d e]. simpl in *. by rewrite Es. }
  rewrite E, list_insert_id by (apply list_lookup_lookup_total_lt; lia). by destruct m.
Qed.

(** ** The cells *)

(** The memory after the sequence [d] was given the cell [h] for position [p]; nothing else moved. *)
Record reseated (d : nat) p h m m2 : Prop := {
  rs_ok : rec_ok m2;
  rs_size : rc_size m2 = rc_size m;
  rs_head : rc_head m2 = Z.of_nat h /\ (h < rc_size m)%nat;
  rs_here : seq_at m2 (Z.of_nat d) h p;
  rs_other q j p' : q <> Z.of_nat d -> seq_at m2 q j p' <-> seq_at m q j p';
  rs_free q p' : q <> Z.of_nat d -> ~ seq_at m q h p';
  rs_idle j : idle m2 j -> idle m j /\ j <> h;
}.

Lemma slotted_reseated u m m1 m2 d p : one_token u p (Z.of_nat d) -> (d < rc_size m)%nat -> 0 <= p -> rc_size m1 = rc_size m ->
  (forall q i p', seq_at m1 q i p' <-> seq_at m q i p' /\ q <> Z.of_nat d) -> (forall i, idle m1 i -> idle m i) ->
  slotted u m1 m2 -> reseated d p (head_nat m2) m m2.
Proof.
  intros Hu Hd Hp Hsz Hat Hid Hs. destruct (one_token_fits (rc_size m) u p d Hu Hd Hp) as (_ & Hsets & Hlast).
  destruct Hu as (_ & _ & Hn & _). pose proof (sl_range _ _ _ Hs) as (Hh & Hn1 & Hh2). rewrite Hn in Hn1. pose proof (sl_alone _ _ _ Hs Hn) as Hone.
  pose proof (sl_size _ _ _ Hs) as Hsz2. pose proof (sl_ok _ _ _ Hs) as Hok2.
  assert (Hout : forall q, q <> Z.of_nat d -> q ∉ concat (sets_of u)) by (intros q Hq; rewrite Hsets; simpl; by rewrite list_elem_of_singleton).
  assert (Hhead : rc_head m2 = Z.of_nat (head_nat m2)) by (unfold head_nat; lia).
  assert (Hsrc : forall i, i <> head_nat m2 -> source m2 i = Z.of_nat i) by (intros i Hi; unfold source; rewrite decide_False by lia; done).
  assert (Hstay : forall q i i' p1 p2, q <> Z.of_nat d -> seq_at m1 q i p1 -> seq_at m2 q i' p2 -> i' = i /\ i' <> head_nat m2).
  { intros q i i' p1 p2 Hq H1 H2. destruct (sl_source _ _ _ Hs q i i' p1 p2 (Hout q Hq) H1 H2) as [E Hno]. rewrite Hn in Hno.
    assert (Hne : i' <> head_nat m2) by lia. rewrite Hsrc in E by done. lia. }
  assert (Hother : forall q j p', q <> Z.of_nat d -> seq_at m2 q j p' <-> seq_at m1 q j p').
  { intros q j p' Hq. split; intros H.
    - destruct (proj1 (sl_other _ _ _ Hs q p' (Hout q Hq))) as [i Hi]; [by exists j|]. by destruct (Hstay q i j p' p' Hq Hi H) as [-> _].
    - destruct (proj2 (sl_other _ _ _ Hs q p' (Hout q Hq))) as [i Hi]; [by exists j|]. by destruct (Hstay q j i p' p' Hq H Hi) as [<- _]. }
  constructor; [done|congruence|split; [done|lia]| | | |].
  - pose proof (sl_here _ _ _ Hs 0%nat [Z.of_nat d] (Z.of_nat d)) as H. rewrite Hsets, Nat.add_0_r, Hlast in H. apply H; [done|left].
  - intros q j p' Hq. rewrite Hother, Hat by done. naive_solver.
  - intros q p' Hq H. assert (H1 : seq_at m1 q (head_nat m2) p') by by apply Hat. pose proof H1 as H2. apply Hother in H2; [|done].
    by destruct (Hstay q _ _ p' p' Hq H1 H2).
  - intros j Hj. destruct (sl_idle _ _ _ Hs j Hj) as [Hno Hz]. rewrite Hn in Hno. assert (Hne : j <> head_nat m2) by lia. split; [|done].
    rewrite Hsrc in Hz by done. destruct Hz as [[Hz E]|(k & E & Hk)].
    + destruct (sl_rs _ _ _ Hs) as [?|?]; lia.
    + assert (j = k) as -> by lia. by apply Hid.
Qed.

(** ** Restoring *)

Lemma rm_sequence m d : rec_ok m -> (d < rc_size m)%nat -> (forall i p, seq_at m (Z.of_nat d) i p -> p < INT32_MAX) ->
  exists b m1, Rec.seq_rm m (Z.of_nat d) (-1) (-1) = Ret (b, m1) /\ rec_ok m1 /\ rc_size m1 = rc_size m
  /\ (forall q i p, seq_at m1 q i p <-> seq_at m q i p /\ q <> Z.of_nat d) /\ (forall i, idle m1 i -> idle m i).
Proof.
  intros Hok Hd Hmax. destruct (rec_seq_rm_ok m d (-1) (-1) Hok Hd) as (b & m1 & E & Hb & _ & Hok1 & Hsz & Hid & Hat).
  assert (Ht : b = true). { apply Hb. intros (i & p & _ & H & _). unfold Kv.lower in H. simpl in H. lia. }
  exists b, m1. do 3 (split; [done|]). split; [|done]. intros q i p. rewrite (Hat Ht). split; intros [H Hn]; (split; [done|]).
  - intros ->. apply Hn. split; [done|]. pose proof H as (Hi & Hq & <-). specialize (Hmax i _ H). destruct (ro_full m Hok i Hi); [set_solver|].
    unfold in_pos, Kv.lower, Kv.upper. simpl. lia.
  - by intros [? _].
Qed.

(** The cell of one saved sequence. *)
Lemma read_one_meta st' d p rest (m' := rs_mem st') : rec_ok m' -> (d < rc_size m')%nat -> 0 <= p < 2 ^ 31 ->
  (forall i p', seq_at m' (Z.of_nat d) i p' -> p' < INT32_MAX) ->
  exists m2 h, RState.state_read_meta st' 1 (Z.of_nat d) (Io.le_bytes 4 p ++ Io.le_bytes 4 0 ++ rest) = Ret (true, set_mem st' m2, rest)
    /\ reseated d p h m' m2.
Proof.
  intros Hok Hd Hp Hmax. destruct (rm_sequence m' d Hok Hd Hmax) as (b & m1 & Erm & Hok1 & Hsz1 & Hat & Hid).
  destruct (reserve_one (rs_n_pos st') p (Z.of_nat d)) as (u0 & a & u & Er & Hl0 & Eu & Hu).
  destruct (one_token_fits (rc_size m1) u p d Hu) as (Hfit & Hsets & Hlast); [lia|lia|].
  destruct (rec_find_slot_ok u m1 Hok1 Hfit) as (m2 & Ef & Hs).
  pose proof (slotted_reseated u m' m1 m2 d p Hu Hd ltac:(lia) Hsz1 Hat Hid Hs) as Hre. set (h := head_nat m2) in *.
  exists m2, h. split; [|done]. pose proof Hre as [Hok2 Hs2 [Hh2 Hh] Hhere _ _ _]. pose proof (ro_len _ Hok2) as Hl2. pose proof (ro_small _ Hok2) as Hsm.
  pose proof Hhere as (_ & Hin & Hpos). unfold RState.state_read_meta. rewrite (proj2 (Z.eqb_neq _ _)) by lia. cbn [negb]. fold m'.
  unfold RState.read_meta_seq. rewrite Erm. cbn [mbind outcome_bind keeping within map_throw Nat.eqb]. rewrite Er. cbn [mbind outcome_bind keeping within map_throw seq RState.read_positions].
  rewrite read_i32_ok by lia. cbn [mbind outcome_bind keeping within map_throw]. rewrite read_u32_ok by lia. cbn [mbind outcome_bind keeping within map_throw]. rewrite Z.eqb_refl. cbn [negb].
  destruct (u_pos u0) as [|x [|y l]] eqn:Eu0; try (simpl in Hl0; lia).
  assert (Eset : set_ [x] 0 p = Ret [p]) by done. rewrite Eset. cbn [mbind outcome_bind keeping within map_throw]. rewrite Eu. cbn [mbind outcome_bind keeping within map_throw].
  rewrite Ef. cbn [mbind outcome_bind keeping within map_throw negb]. unfold Rec.size_z. rewrite Hh2.
  rewrite u32_small by lia. rewrite (proj2 (Z.leb_le _ _)) by lia. cbn [c_assert mbind outcome_bind keeping within map_throw].
  replace (Z.of_nat h + Z.of_nat 1 - 1) with (Z.of_nat h) by lia. rewrite cell_nat by lia. cbn [mbind outcome_bind keeping within map_throw Nat.sub].
  assert (Eat : at_ [p] 0 = Ret p) by done. rewrite Eat. cbn [mbind outcome_bind keeping within map_throw]. rewrite Hpos, Z.eqb_refl. cbn [c_assert mbind outcome_bind keeping within map_throw].
  rewrite (proj2 (has_seq_id_spec _ _) Hin). cbn [c_assert mbind outcome_bind keeping within map_throw negb]. change (rs_mem (set_mem st' m2)) with m2.
  rewrite (own_source_same m2 h) by (try done; first [lia|set_solver]). done.
Qed.

(** The positions of [d] can be compared with the greatest one. *)
Definition movable (v : Z -> option (Z * list (option (list Z) * option (list Z)))) q : Prop := forall p x, v q = Some (p, x) -> p < INT32_MAX.

Lemma movable_cells st q i p : rec_store_ok st -> movable (rec_view st) q -> seq_at (rs_mem st) q i p -> p < INT32_MAX.
Proof.
  intros [[Hok Hl _] _ _] Hv H. destruct (view_at (rs_mem st) (states_of st) q i p Hok Hl H) as (x & _ & E). by apply (Hv p x).
Qed.

(** A store with one sequence replaced. *)
Definition replaced (st' : rec_store) (d : nat) (x : option (Z * list (option (list Z) * option (list Z)))) (st'' : rec_store) : Prop :=
  rec_store_ok st'' /\ rc_size (rs_mem st'') = rc_size (rs_mem st') /\ same_layers (rs_layers st') (rs_layers st'')
  /\ forall q, rec_view st'' q = if q =? Z.of_nat d then x else rec_view st' q.

Lemma rec_bytes_one st s i p : rec_ok (rs_mem st) -> seq_at (rs_mem st) s i p -> s <> -1 ->
  rec_bytes st s = Io.le_bytes 4 1 ++ Io.le_bytes 4 p ++ Io.le_bytes 4 0 ++ states_bytes [i] (rs_layers st).
Proof.
  intros Hok Hat Hs. unfold rec_bytes. rewrite (saved_list_one _ s i p) by done. cbn [length flat_map]. unfold cell_bytes, saved_ids.
  rewrite (proj2 (Z.eqb_neq _ _)) by done. cbn [length flat_map]. rewrite !app_nil_r. destruct Hat as (_ & _ & ->). by rewrite <- !app_assoc.
Qed.

Lemma seq_restore_one st st' s d i p rest : rec_store_ok st -> rec_store_ok st' -> same_layers (rs_layers st) (rs_layers st') ->
  s <> -1 -> seq_at (rs_mem st) s i p -> p < 2 ^ 31 -> (d < rc_size (rs_mem st'))%nat -> movable (rec_view st') (Z.of_nat d) ->
  exists st'', RState.state_read st' (Z.of_nat d) (rec_bytes st s ++ rest) = Ret (true, st'', rest)
    /\ replaced st' d (rec_view st s) st''.
Proof.
  intros Hst Hst' Hsame Hs Hat Hp Hd Hmov. pose proof Hst as [[Hok Hl Hid] Hls Hnum]. pose proof Hst' as [[Hok' Hl' Hid'] Hls' Hnum'].
  assert (Hp0 : 0 <= p) by (destruct Hat as (Hi & Hq & <-); apply (ro_full _ Hok i Hi); set_solver).
  destruct (read_one_meta st' d p (states_bytes [i] (rs_layers st) ++ rest)) as (m2 & h & E & Hre); [done|done|lia|by intros j p' H; eapply movable_cells|].
  rewrite (rec_bytes_one st s i p) by done. unfold RState.state_read. rewrite <- !app_assoc, read_u32_ok by lia. cbn [mbind outcome_bind keeping within map_throw].
  change (Z.to_nat 1) with 1%nat. rewrite E. clear E. cbn [mbind outcome_bind keeping within map_throw]. destruct Hre as [Hok2 Hs2 [Hh2 Hh] Hhere Hother Hfree Hid2].
  assert (Hused : forall j, j ∈ [i] -> (j < rc_size (rs_mem st))%nat) by (intros j ->%list_elem_of_singleton; by destruct Hat).
  destruct (read_states_ok (rc_size (rs_mem st)) [i] Hused (rc_size (rs_mem st')) h ltac:(simpl; lia) (set_mem st' m2) (rs_layers st) rest)
    as (ls'' & E & H3); try done; [simpl; rewrite Hh2; lia|].
  cbn [length] in E. rewrite E. clear E. cbn [mbind outcome_bind keeping within map_throw]. destruct (restored_state [i] _ h _ _ _ H3) as (R1 & R2 & R3 & R4).
  cbn [set_mem rs_layers] in R2, R3. specialize (R1 0%nat i eq_refl). rewrite Nat.add_0_r in R1. cbn [length] in R2.
  assert (Hlook : forall j, (j < rc_size (rs_mem st'))%nat -> states_of (set_rlayers (set_mem st' m2) ls'') !! j = Some (cell_state ls'' j)).
  { intros j Hj. unfold states_of. simpl. rewrite Hs2. by apply lookup_states. }
  assert (Hlen : length (states_of (set_rlayers (set_mem st' m2) ls'')) = rc_size m2) by (unfold states_of; simpl; by rewrite length_states).
  exists (set_rlayers (set_mem st' m2) ls''). split; [done|]. split; [|split; [done|split; [done|]]].
  - constructor; simpl; rewrite ?Hs2; [|done|by rewrite <- (same_layers_length _ _ R3)]. constructor; [done|done|].
    intros j Hj. pose proof Hj as (Hj2 & _ & _). rewrite Hs2 in Hj2. destruct (Hid2 j Hj) as [Hj' Hne]. rewrite Hlook by done. specialize (Hid' j Hj').
    unfold states_of in Hid'. rewrite lookup_states in Hid' by done. rewrite R2 by lia. by rewrite (zero_state_same _ _ R3).
  - intros q. unfold rec_view. cbn [set_rlayers set_mem rs_mem] in *. destruct (Z.eqb_spec q (Z.of_nat d)) as [->|Hq].
    + destruct (view_at (rs_mem st) (states_of st) s i p Hok Hl Hat) as (x & Hx & ->). apply view_spec; [done..|]. exists h. split; [done|].
      rewrite Hlook, R1 by done. unfold states_of in Hx. by rewrite lookup_states in Hx by (by destruct Hat).
    + apply view_ext; [done..|]. intros p' x. split; intros (j & H & Hx); exists j; pose proof H as (Hj & _ & _).
      * rewrite Hs2 in Hj. apply Hother in H; [|done]. split; [done|]. rewrite Hlook, R2 in Hx; [unfold states_of; by rewrite lookup_states| |done].
        intros Hjh. assert (j = h) as -> by lia. by apply (Hfree q p').
      * split; [by apply Hother|]. rewrite Hlook, R2; [unfold states_of in Hx; by rewrite lookup_states in Hx| |done].
        intros Hjh. assert (j = h) as -> by lia. by apply (Hfree q p').
Qed.

(** An empty sequence takes the destination out. *)
Lemma seq_restore_none st st' s d rest : rec_store_ok st -> rec_store_ok st' -> same_layers (rs_layers st) (rs_layers st') ->
  s <> -1 -> (forall i p, ~ seq_at (rs_mem st) s i p) -> (d < rc_size (rs_mem st'))%nat -> movable (rec_view st') (Z.of_nat d) ->
  exists st'', RState.state_read st' (Z.of_nat d) (rec_bytes st s ++ rest) = Ret (true, st'', rest) /\ replaced st' d None st''.
Proof.
  intros Hst Hst' Hsame Hs Hno Hd Hmov. pose proof Hst as [_ Hls Hnum]. pose proof Hst' as [[Hok' Hl' Hid'] Hls' Hnum'].
  destruct (rm_sequence (rs_mem st') d Hok' Hd) as (b & m1 & Erm & Hok1 & Hsz1 & Hat & Hid1); [intros i p H; by eapply movable_cells|].
  unfold rec_bytes. rewrite saved_list_none by done. cbn [length flat_map app]. unfold RState.state_read.
  rewrite <- !app_assoc, read_u32_ok by lia. cbn [mbind outcome_bind keeping within map_throw]. change (Z.to_nat (Z.of_nat 0)) with 0%nat.
  unfold RState.state_read_meta. rewrite (proj2 (Z.eqb_neq _ _)) by lia. cbn [negb]. unfold RState.read_meta_seq. rewrite Erm.
  cbn [mbind outcome_bind keeping within map_throw Nat.eqb negb]. change (rs_mem (set_mem st' m1)) with m1. unfold RState.own_sources. cbn [seq foldM mbind outcome_bind keeping within map_throw].
  change (set_mem (set_mem st' m1) m1) with (set_mem st' m1). pose proof (ro_head _ Hok1) as Hh1.
  destruct (read_states_ok (rc_size (rs_mem st)) [] ltac:(by intros i H%elem_of_nil) (rc_size (rs_mem st')) (Z.to_nat (rc_head m1)) ltac:(simpl; lia) (set_mem st' m1) (rs_layers st) rest)
    as (ls'' & E & H3); try done.
  cbn [length] in E. rewrite E. clear E. cbn [mbind outcome_bind keeping within map_throw]. destruct (restored_state [] _ _ _ _ _ H3) as (_ & R2 & R3 & R4).
  cbn [set_mem rs_layers] in R2, R3. exists (set_rlayers (set_mem st' m1) ls''). split; [done|].
  assert (Hst2 : states_of (set_rlayers (set_mem st' m1) ls'') = states_of st').
  { unfold states_of, cell_states. simpl. rewrite Hsz1. apply map_ext. intros j. apply R2. simpl. lia. }
  split; [|split; [done|split; [done|]]].
  - constructor; rewrite ?Hst2; simpl; rewrite ?Hsz1; [|done|by rewrite <- (same_layers_length _ _ R3)]. constructor; [done|congruence|].
    intros j Hj. rewrite (zero_state_same _ _ R3). by apply Hid', Hid1.
  - intros q. unfold rec_view. rewrite Hst2. cbn [set_rlayers set_mem rs_mem]. destruct (Z.eqb_spec q (Z.of_nat d)) as [->|Hq].
    + apply view_none; [done|congruence|]. intros j p H. by apply Hat in H as [_ H].
    + apply view_ext; [done..|congruence|]. intros p x. split; intros (j & H & Hx); exists j; (split; [|done]); [by apply Hat in H as [H _]|by apply Hat].
Qed.

Lemma seq_restore_ok st st' s d rest : rec_store_ok st -> rec_store_ok st' -> same_layers (rs_layers st) (rs_layers st') ->
  s <> -1 -> (d < rc_size (rs_mem st'))%nat -> movable (rec_view st') (Z.of_nat d) -> (forall p x, rec_view st s = Some (p, x) -> p < 2 ^ 31) ->
  exists st'', RState.state_read st' (Z.of_nat d) (rec_bytes st s ++ rest) = Ret (true, st'', rest) /\ replaced st' d (rec_view st s) st''.
Proof.
  intros Hst Hst' Hsame Hs Hd Hmov Hp. pose proof Hst as [[Hok Hl _] _ _]. destruct (seq_at_dec (rs_mem st) s Hok) as [(i & p & Hat)|Hno].
  - destruct (view_at (rs_mem st) (states_of st) s i p Hok Hl Hat) as (x & _ & E). by apply (seq_restore_one st st' s d i p); try done; apply (Hp p x).
  - assert (E : rec_view st s = None) by (unfold rec_view; by apply view_none). rewrite E. by apply seq_restore_none.
Qed.

(** ** The theorems *)

(** A saved recurrent memory comes back: the state that [state_write] makes of all
    sequences is read by any memory with the same layers whose size is above the
    ids of the sequences, whatever it held before, and leaves there the map from
    sequences to positions and states of the saved memory. *)
Theorem recurrent_state_roundtrip st st' rest : rec_store_ok st -> rec_store_ok st' -> same_layers (rs_layers st) (rs_layers st') ->
  storable (rc_size (rs_mem st')) (rec_view st) ->
  exists bytes st'', RState.state_write st (-1) = Ret bytes /\ RState.state_read st' (-1) (bytes ++ rest) = Ret (true, st'', rest)
    /\ rec_store_ok st'' /\ rc_size (rs_mem st'') = rc_size (rs_mem st') /\ forall q, rec_view st'' q = rec_view st q.
Proof.
  intros Hst Hst' Hsame Hv. destruct (whole_restore_ok st st' rest Hst Hst' Hsame Hv) as (st'' & E & H1 & H2 & _ & H3).
  exists (rec_bytes st (-1)), st''. split; [|done]. apply rec_state_write_ok; apply Hst.
Qed.

(** C26. The saved state of a sequence replaces a sequence of any memory with the same
    layers, and nothing else: the destination gets the position and the state of
    the source, or is taken out when the source is empty; a cell is always found;
    all other sequences keep their positions and states. *)
Theorem recurrent_sequence_roundtrip st st' s d rest : rec_store_ok st -> rec_store_ok st' -> same_layers (rs_layers st) (rs_layers st') ->
  s <> -1 -> (d < rc_size (rs_mem st'))%nat -> movable (rec_view st') (Z.of_nat d) -> (forall p x, rec_view st s = Some (p, x) -> p < 2 ^ 31) ->
  exists bytes st'', RState.state_write st s = Ret bytes /\ RState.state_read st' (Z.of_nat d) (bytes ++ rest) = Ret (true, st'', rest)
    /\ rec_store_ok st'' /\ rc_size (rs_mem st'') = rc_size (rs_mem st')
    /\ forall q, rec_view st'' q = if q =? Z.of_nat d then rec_view st s else rec_view st' q.
Proof.
  intros Hst Hst' Hsame Hs Hd Hmov Hp. destruct (seq_restore_ok st st' s d rest Hst Hst' Hsame Hs Hd Hmov Hp) as (st'' & E & H1 & H2 & _ & H3).
  exists (rec_bytes st s), st''. split; [|done]. apply rec_state_write_ok; apply Hst.
Qed.
