(* ===== verification/RecurrentRefuse.v ===== *)
(** * What a refused state leaves in a recurrent memory. *)

From S2P Require Import Prelude KvCells KvCache KvState KvStateFacts KvTensors Recurrent RecurrentFacts RecurrentSteps RecurrentView.
From S2P Require Import RecurrentState RecurrentRestore Batch KvContext RecurrentTheorems RecurrentExamples.
From S2P Require Import RecurrentRestoreSeq.
From Stdlib Require Import Lia.

Implicit Types (m : llama_memory_recurrent) (s q p : Z) (i j k : nat).

(** ** Postconditions

    Of code that may be given a state that does not fit: it returns [a] with [P a],
    throws and leaves an object [s] with [E s], or reads out of bounds; it fails no
    assertion and ends within its fuel. *)

Definition safe {X A} (o : outcome_of X A) (P : A -> Prop) (E : X -> Prop) : Prop :=
  match o with Ret a => P a | Throw x => E x | Undef => True | _ => False end.

Notation leaves E := (fun x => E x.2).

Lemma safe_bind {X A B} (o : outcome_of X A) (k : A -> outcome_of X B) P Q E :
  safe o P E -> (forall a, P a -> safe (k a) Q E) -> safe (o ≫= k) Q E.
Proof. destruct o; simpl; auto. Qed.

Lemma safe_mono {X A} (o : outcome_of X A) (P P' : A -> Prop) (E E' : X -> Prop) :
  safe o P E -> (forall a, P a -> P' a) -> (forall x, E x -> E' x) -> safe o P' E'.
Proof. destruct o; simpl; auto. Qed.

Lemma safe_keeping {S A} (x : S) (o : outcome A) P (E : S -> Prop) :
  safe o P (fun _ => True) -> E x -> safe (keeping x o) P (leaves E).
Proof. destruct o; simpl; auto. Qed.

Lemma safe_within {S T A} (f : S -> T) (o : changing S A) P (E : S -> Prop) (E' : T -> Prop) :
  safe o P (leaves E) -> (forall x, E x -> E' (f x)) -> safe (within f o) P (leaves E').
Proof. destruct o; simpl; auto. Qed.

Lemma safe_any_read inp n : safe (Io.read inp n) (fun r => length r.1 = n) (fun _ => True).
Proof. unfold Io.read. destruct (Nat.ltb_spec (length inp) n); [done|]. simpl. rewrite length_take. lia. Qed.

Lemma safe_u32 inp : safe (Io.read_u32 inp) (fun _ => True) (fun _ => True).
Proof. eapply safe_bind; [apply safe_any_read|by intros []]. Qed.
Lemma safe_i32 inp : safe (Io.read_i32 inp) (fun _ => True) (fun _ => True).
Proof. eapply safe_bind; [apply safe_any_read|by intros []]. Qed.
Lemma safe_u64 inp : safe (Io.read_u64 inp) (fun _ => True) (fun _ => True).
Proof. eapply safe_bind; [apply safe_any_read|by intros []]. Qed.

#[local] Hint Resolve safe_u32 safe_i32 safe_u64 : persona.

(** The next step is [o], while the object is [s] with [E s]. *)
Ltac keeping_step := eapply safe_bind; [apply safe_keeping; [solve [eauto with persona]|]|].

(** ** The number of cells *)

Definition sized (n : nat) m : Prop := length (cells_of m) = n /\ rc_size m = n.

Lemma safe_cell m z : safe (Rec.cell m z) (fun _ => True) (fun _ => True).
Proof. unfold Rec.cell, at_z, at_. by repeat case_match. Qed.

Lemma safe_change n m z f : sized n m -> safe (Rec.change m z f) (fun m' => sized n m' /\ rc_head m' = rc_head m) (fun _ => True).
Proof.
  intros [Hl Hs]. unfold Rec.change. eapply safe_bind; [apply safe_cell|]. intros c _. unfold set_. case_decide; [|done].
  split; [|done]. split; [simpl; by rewrite length_insert|done].
Qed.
#[local] Hint Resolve safe_cell safe_change : persona.

Lemma seq_ids_sized n i k : forall m inp, sized n m ->
  safe (RState.read_seq_ids m i k inp) (fun r => sized n r.1.2) (leaves (sized n)).
Proof.
  induction k as [|k IH]; intros m inp Hm; cbn [RState.read_seq_ids]; [done|].
  keeping_step; [done|]. intros [q inp1] _. destruct (q <? 0); [done|].
  keeping_step; [done|]. intros m1 [Hm1 _]. keeping_step; [done|]. intros t _.
  destruct (negb _); [done|]. keeping_step; [done|]. intros m2 [Hm2 _]. by apply IH.
Qed.

Lemma cells_sized n cells : forall m inp, sized n m ->
  safe (RState.read_cells cells m inp) (fun r => sized n r.1.2) (leaves (sized n)).
Proof.
  induction cells as [|i cells IH]; intros m inp Hm; cbn [RState.read_cells]; [done|].
  keeping_step; [done|]. intros [pos inp1] _. keeping_step; [done|]. intros [k inp2] _.
  keeping_step; [done|]. intros m1 [Hm1 _]. eapply safe_bind; [by apply seq_ids_sized|].
  intros [[ok m2] inp3] Hm2. destruct ok; [by apply IH|done].
Qed.

Lemma own_sized n k m : sized n m -> safe (RState.own_sources m k) (fun m' => sized n m' /\ rc_head m' = rc_head m) (fun _ => True).
Proof.
  unfold RState.own_sources. generalize (seq 0 k) as l. intros l. revert m. induction l as [|i l IH]; intros m Hm; [done|].
  cbn [foldM]. eapply safe_bind; [by eapply safe_change|]. intros m1 [Hm1 E1].
  eapply safe_mono; [by apply IH|cbv beta; by intros m2 [? ->]|done].
Qed.
#[local] Hint Resolve own_sized : persona.

(** ** The tensors *)

Lemma rows_shape n c h o inp : (h + c <= n)%nat -> (forall t, o = Some t -> tensor_ok n t) ->
  safe (RState.read_rows c h o inp) (fun r => forall o', r.1 = Some o' -> same_tensor o o' /\ forall t, o' = Some t -> tensor_ok n t) (fun _ => True).
Proof.
  intros Hh Ho. destruct o as [t|]; cbn [RState.read_rows]; [|intros o' [= <-]; by split].
  eapply safe_bind; [apply safe_i32|]. intros [ty inp1] _. destruct (negb _); [done|].
  eapply safe_bind; [apply safe_u64|]. intros [sz inp2] _. destruct (negb _); [done|].
  destruct (c =? 0)%nat; [by intros o' [= <-]; split|]. eapply safe_bind; [apply safe_any_read|]. intros [src inp3] Hsrc. simpl in Hsrc.
  destruct (Ho t eq_refl) as [Hl Ht]. unfold Io.tensor_set. destruct (_ =? 0)%nat.
  - intros o' [= <-]. split; [done|]. by intros t0 [= <-].
  - rewrite Hsrc, (proj2 (Nat.leb_le _ _)) by (rewrite Hl; nia). intros o' [= <-]. split; [done|]. intros t0 [= <-].
    split; [|done]. simpl. rewrite !length_app, length_take, length_drop. nia.
Qed.

(** A layer, or the layers, after some of the reading. *)
Definition shape (n : nat) l l' : Prop := same_layer l l' /\ layers_ok n [l'].
Definition shapes (n : nat) ls ls' : Prop := same_layers ls ls' /\ layers_ok n ls'.

Lemma same_layers_refl ls : same_layers ls ls.
Proof. induction ls; by constructor. Qed.

Lemma shapes_cons n l l' ls ls' : shape n l l' -> shapes n ls ls' -> shapes n (l :: ls) (l' :: ls').
Proof. intros [H1 H2] [H3 H4]. split; [by constructor|]. unfold layers_ok in *. apply Forall_cons. split; [by inversion H2|done]. Qed.

Lemma layers_shape n f : (forall l inp, layers_ok n [l] -> safe (f l inp) (fun r => forall l', r.1 = Some l' -> shape n l l') (leaves (shape n l))) ->
  forall ls inp, layers_ok n ls -> safe (State.read_layers f ls inp) (fun r => shapes n ls r.1.2) (leaves (shapes n ls)).
Proof.
  intros Hf. induction ls as [|l ls IH]; intros inp Hls; cbn [State.read_layers]; [by split; constructor|].
  apply Forall_cons in Hls as [Hl Hls]. assert (Hl1 : layers_ok n [l]) by (by constructor).
  assert (Hls0 : shapes n ls ls) by (split; [apply same_layers_refl|done]).
  eapply safe_bind; [eapply safe_within; [by apply Hf|intros l' Hl'; by apply shapes_cons]|].
  intros [[l1|] inp1] Hr; cbn [fst] in Hr; [|by apply shapes_cons].
  eapply safe_bind; [eapply safe_within; [by apply IH|intros ls' Hls'; apply shapes_cons; [by apply Hr|done]]|].
  intros [[ok2 ls2] inp2] H2. apply shapes_cons; [by apply Hr|done].
Qed.

Lemma r_shape n c h l inp : (h + c <= n)%nat -> layers_ok n [l] ->
  safe (RState.read_r c h l inp) (fun r => forall l', r.1 = Some l' -> shape n l l') (leaves (shape n l)).
Proof.
  intros Hh Hl. pose proof Hl as [Hr Hs]%Forall_singleton. unfold RState.read_r.
  eapply safe_bind; [apply safe_keeping; [by apply rows_shape|done]|]. intros [[t|] inp1] H l'; [|done]. intros [= <-].
  destruct (H t eq_refl) as [H1 H2]. split; [by split|]. apply Forall_singleton. by split.
Qed.

Lemma s_shape n c h l inp : (h + c <= n)%nat -> layers_ok n [l] ->
  safe (RState.read_s c h l inp) (fun r => forall l', r.1 = Some l' -> shape n l l') (leaves (shape n l)).
Proof.
  intros Hh Hl. pose proof Hl as [Hr Hs]%Forall_singleton. unfold RState.read_s.
  eapply safe_bind; [apply safe_keeping; [by apply rows_shape|done]|]. intros [[t|] inp1] H l'; [|done]. intros [= <-].
  destruct (H t eq_refl) as [H1 H2]. split; [by split|]. apply Forall_singleton. by split.
Qed.

(** ** The store *)

(** A memory of [n] cells whose tensors have the types and sizes of [ls]. *)
Definition store_shape (n : nat) (ls : list rec_layer) (st : rec_store) : Prop := sized n (rs_mem st) /\ shapes n ls (rs_layers st).

Lemma shapes_trans n l1 l2 l3 : shapes n l1 l2 -> shapes n l2 l3 -> shapes n l1 l3.
Proof. intros [H1 _] [H2 H3]. split; [by eapply same_layers_trans|done]. Qed.

Lemma data_shape n ls st c inp : store_shape n ls st -> rc_head (rs_mem st) = 0 ->
  safe (RState.state_read_data st c inp) (fun r => store_shape n ls r.1.2) (leaves (store_shape n ls)).
Proof.
  intros Hst Hh. pose proof Hst as [[Hl Hs] Hls]. unfold RState.state_read_data.
  keeping_step; [done|]. intros [tr inp1] _. keeping_step; [done|]. intros [nl inp2] _.
  destruct (negb _); [done|]. destruct (Nat.ltb_spec (rc_size (rs_mem st)) c) as [|Hc]; [done|]. destruct (negb _); [done|].
  rewrite Hh. assert (Hn : (Z.to_nat 0 + c <= n)%nat) by (simpl; lia).
  eapply safe_bind; [eapply safe_within; [apply (layers_shape n); [intros; by apply r_shape|apply Hls]|]|].
  { intros ls1 H1. split; [done|]. by eapply shapes_trans. }
  intros [[ok1 ls1] inp3] H1. simpl in H1. assert (Hls1 : shapes n ls ls1) by (by eapply shapes_trans).
  destruct (negb ok1); [by split|].
  eapply safe_bind; [eapply safe_within; [apply (layers_shape n); [intros; by apply s_shape|apply H1]|]|].
  { intros ls2 H2. split; [done|]. by eapply shapes_trans. }
  intros [[ok2 ls2] inp4] H2. split; [done|]. by eapply shapes_trans.
Qed.

Lemma clear_store n st : sized n (rs_mem st) -> Z.of_nat n < 2 ^ 31 -> layers_ok n (rs_layers st) -> Z.of_nat (length (rs_layers st)) < 2 ^ 32 ->
  exists st', RState.clear_data st = Ret st' /\ rec_store_ok st' /\ rc_size (rs_mem st') = n /\ (forall q, rec_view st' q = None).
Proof.
  intros [Hl Hs] Hn Hls Hnum. unfold RState.clear_data. destruct (clear_cells (rs_mem st)) as (m & -> & Hl' & Hs' & Hh & Hu & Hc); [congruence|].
  cbn [mbind outcome_bind keeping within map_throw]. eexists. split; [reflexivity|]. rewrite Hs in *. clear Hs Hl.
  assert (Hok : rec_ok m).
  { constructor; rewrite ?Hs'; [done|done|lia| | | | | |].
    - intros i q Hi Hq. destruct (Hc i Hi) as (_ & _ & _ & E). rewrite E in Hq. by apply elem_of_empty in Hq.
    - intros j Hj. left. by apply Hc.
    - intros i Hi _. by apply Hc.
    - intros i Hi Hne. by destruct (Hc i Hi) as (_ & _ & _ & ?).
    - intros i Hi. left. by apply Hc.
    - rewrite Hu. symmetry. apply count_none. intros j Hj. apply Hc. lia. }
  assert (Hno : forall q i p, ~ seq_at m q i p).
  { intros q i p (Hi & Hq & _). rewrite Hs' in Hi. destruct (Hc i Hi) as (_ & _ & _ & E). rewrite E in Hq. by apply elem_of_empty in Hq. }
  split; [|split; [done|]].
  - constructor; simpl; [|rewrite Hs'; by apply layers_ok_zeroed|by rewrite length_map]. constructor; [done|unfold states_of; simpl; by rewrite length_states|].
    intros i (Hi & _ & Ei). rewrite Hs' in Hi. destruct (Hc i Hi) as (_ & Es & _). lia.
  - intros q. unfold rec_view. apply view_none; [done|unfold states_of; simpl; by rewrite length_states|apply Hno].
Qed.

Lemma clear_shape n ls st : store_shape n ls st -> exists st', RState.clear_data st = Ret st' /\ store_shape n ls st' /\ rc_head (rs_mem st') = 0.
Proof.
  intros [[Hl Hs] [H1 H2]]. unfold RState.clear_data. destruct (clear_cells (rs_mem st)) as (m & -> & Hl' & Hs' & Hh & _); [congruence|].
  cbn [mbind outcome_bind]. eexists. split; [reflexivity|]. split; [|done]. split; [by split; simpl; congruence|].
  split; [by apply same_layers_zeroed|by apply layers_ok_zeroed].
Qed.

Lemma meta_all_shape n ls st c inp : store_shape n ls st ->
  safe (RState.state_read_meta st c (-1) inp) (fun r => store_shape n ls r.1.2 /\ (r.1.1 = true -> rc_head (rs_mem r.1.2) = 0)) (leaves (store_shape n ls)).
Proof.
  intros Hst. unfold RState.state_read_meta. rewrite Z.eqb_refl. cbn [negb].
  eapply safe_bind with (P := fun r => store_shape n ls r.1.2 /\ (r.1.1 = true -> rc_head (rs_mem r.1.2) = 0)).
  - unfold RState.read_meta_all. destruct (_ <? _)%nat; [done|]. destruct (clear_shape n ls st Hst) as (st0 & -> & H0 & _).
    cbn [mbind outcome_bind keeping map_throw]. eapply safe_bind; [eapply safe_within; [apply cells_sized, H0|]|].
    { intros m Hm. split; [done|apply H0]. }
    intros [[ok m] inp1] Hm. simpl in Hm. split; [|by destruct ok]. split; [by destruct ok|apply H0].
  - intros [[ok1 st1] inp1] [H1 Hh]. simpl in H1, Hh. destruct ok1; [|done]. cbn [negb].
    eapply safe_bind; [apply safe_keeping; [eapply own_sized, H1|done]|]. intros m2 [Hm2 E2].
    split; [split; [done|apply H1]|]. intros _. simpl. rewrite E2. by apply Hh.
Qed.

(** C27. Restoring a whole state that does not fit: one that is refused, for its
    number of cells, an id, the number of layers, a type or a size, leaves an
    empty, intact memory with zeros in the tensors.  When the buffer ends too
    early the exception passes without a clean-up: the memory keeps its number of
    cells and the types and sizes of its tensors, and is left with what was read
    by then.  No assertion fails.  (An id that is not below the number of cells
    is written out of bounds.) *)
Theorem refused_restore_clears st inp : rec_store_ok st ->
  match RState.state_read st (-1) inp with
  | Ret (false, st', _) => rec_store_ok st' /\ rc_size (rs_mem st') = rc_size (rs_mem st) /\ forall q, rec_view st' q = None
  | Ret (true, st', _) | Throw (_, st') => store_shape (rc_size (rs_mem st)) (rs_layers st) st'
  | Undef => True
  | Fatal _ | NoFuel => False
  end.
Proof.
  intros [[Hok _ _] Hls Hnum]. set (n := rc_size (rs_mem st)) in *. pose proof (ro_small _ Hok) as Hn.
  assert (Hst : store_shape n (rs_layers st) st) by (split; [split; [apply Hok|done]|split; [apply same_layers_refl|done]]).
  enough (H : safe (RState.state_read st (-1) inp) (fun r => if r.1.1 : bool then store_shape n (rs_layers st) r.1.2
      else rec_store_ok r.1.2 /\ rc_size (rs_mem r.1.2) = n /\ forall q, rec_view r.1.2 q = None) (leaves (store_shape n (rs_layers st)))).
  { destruct (RState.state_read st (-1) inp) as [[[[] st'] rest]|[e st']| | |]; done. }
  unfold RState.state_read. keeping_step; [done|]. intros [c inp1] _.
  eapply safe_bind; [by apply meta_all_shape|]. intros [[ok1 st1] inp2] [H1 Hh]. simpl in H1, Hh.
  eapply safe_bind with (P := fun r => store_shape n (rs_layers st) r.1.2).
  { destruct ok1; [|done]. apply data_shape; [done|by apply Hh]. }
  intros [[ok2 st2] inp3] H2. simpl in H2. destruct ok2; [done|]. rewrite Z.eqb_refl.
  destruct H2 as [Hm2 [S2 Hl2]]. destruct (clear_store n st2) as (st4 & -> & H4); [done|done|done| |].
  { by rewrite <- (same_layers_length _ _ S2). }
  done.
Qed.

(** * Saved recurrent memories on concrete inputs: witnesses, and what the code
    does with a state that does not fit. *)

(** ** A check of stores *)

Definition tensor_okb (n : nat) (o : option rec_tensor) : bool :=
  match o with
  | None => true
  | Some t => (length (rt_data t) =? n * rt_row t)%nat && (- 2 ^ 31 <=? rt_type t) && (rt_type t <? 2 ^ 31) && (Z.of_nat (rt_row t) <? 2 ^ 64)
  end.

Definition store_okb (st : rec_store) : bool :=
  let n := rc_size (rs_mem st) in
  (rec_okb (rs_mem st) && (length (states_of st) =? n)%nat && idle_okb (rs_mem st) (states_of st) (zero_state (rs_layers st)))
  && forallb (fun l => tensor_okb n (rl_r l) && tensor_okb n (rl_s l)) (rs_layers st) && (Z.of_nat (length (rs_layers st)) <? 2 ^ 32).

Lemma tensor_okb_ok n o t : tensor_okb n o = true -> o = Some t -> tensor_ok n t.
Proof.
  intros H ->. simpl in H. rewrite !andb_true_iff, Nat.eqb_eq, Z.leb_le, !Z.ltb_lt in H. unfold tensor_ok. tauto.
Qed.

Lemma store_okb_ok st : store_okb st = true -> rec_store_ok st.
Proof.
  unfold store_okb. cbv zeta. intros H. apply andb_true_iff in H as [H H3%Z.ltb_lt]. apply andb_true_iff in H as [H1 H2].
  constructor; [by apply rec_inv_ok| |done]. apply Forall_forall. intros l Hl. rewrite forallb_forall in H2.
  specialize (H2 l ltac:(by apply list_elem_of_In)). apply andb_true_iff in H2 as [Hr Hs].
  split; intros t Ht; [by apply (tensor_okb_ok _ _ t Hr)|by apply (tensor_okb_ok _ _ t Hs)].
Qed.

(** ** Two memories *)

(** Four cells: the sequences 0 and 2 share one, 1 has another; an R and an S. *)
Definition ex_saved : rec_store :=
  mk_rstore ex_copied 1
    [mk_rlayer (Some (mk_rtensor 0 2 [10; 11; 20; 21; 30; 31; 40; 41])) None; mk_rlayer None (Some (mk_rtensor 1 1 [1; 2; 3; 4]))].

(** Three cells with the sequence 1 at position 5. *)
Definition ex_other_mem : llama_memory_recurrent :=
  match ex_run (Rec.make 3) [0; 0; 0] [slot_ubatch [[1]] [5]] with Ret (m, _) => m | _ => Rec.make 3 end.
Definition ex_other : rec_store :=
  mk_rstore ex_other_mem 1
    [mk_rlayer (Some (mk_rtensor 0 2 [90; 91; 92; 93; 94; 95])) None; mk_rlayer None (Some (mk_rtensor 1 1 [7; 8; 9]))].

Lemma rec_saved_ok : rec_store_ok ex_saved.
Proof. apply store_okb_ok. vm_compute. reflexivity. Qed.

Lemma ex_other_ok : rec_store_ok ex_other.
Proof. apply store_okb_ok. vm_compute. reflexivity. Qed.

Lemma ex_same : same_layers (rs_layers ex_saved) (rs_layers ex_other).
Proof. repeat constructor. Qed.

Lemma ex_saved_none q : ~ (0 <= q < 4) -> rec_view ex_saved q = None.
Proof.
  intros Hq. apply view_none; [apply rec_saved_ok|apply rec_saved_ok|]. intros i p H.
  destruct (seq_at_tail _ _ _ _ (ri_ok _ _ _ (rso_inv _ rec_saved_ok)) H) as [Hr _]. apply Hq. exact Hr.
Qed.

Lemma ex_storable : storable 3 (rec_view ex_saved).
Proof.
  intros q p x E. destruct (decide (0 <= q < 4)) as [Hq|Hq]; [|by rewrite ex_saved_none in E].
  assert (Hc : q = 0 \/ q = 1 \/ q = 2 \/ q = 3) by lia. destruct Hc as [E0|[E0|[E0|E0]]]; rewrite E0 in E |- *; vm_compute in E; (discriminate E || (injection E as E1 E2; lia)).
Qed.

(** The map, as a list. *)
Definition ex_map (v : Z -> option (Z * list (option (list Z) * option (list Z)))) : list (option (Z * list (option (list Z) * option (list Z)))) := map v [0; 1; 2; 3].

Definition ex_bytes : list Z := match RState.state_write ex_saved (-1) with Ret b => b | _ => [] end.

Lemma recurrent_state_roundtrip_witness : exists st'', RState.state_write ex_saved (-1) = Ret ex_bytes
  /\ RState.state_read ex_other (-1) ex_bytes = Ret (true, st'', [])
  /\ ex_map (rec_view st'')
     = [Some (1, [(Some [20; 21], None); (None, Some [2])]); Some (1, [(Some [10; 11], None); (None, Some [1])]);
        Some (1, [(Some [20; 21], None); (None, Some [2])]); None].
Proof.
  destruct (recurrent_state_roundtrip ex_saved ex_other [] rec_saved_ok ex_other_ok ex_same ex_storable) as (bytes & st'' & E1 & E2 & _ & _ & Hv).
  assert (Eb : bytes = ex_bytes) by (unfold ex_bytes; by rewrite E1). exists st''. rewrite Eb in E1, E2. rewrite app_nil_r in E2.
  split; [exact E1|]. split; [exact E2|]. unfold ex_map. cbn [map]. rewrite !Hv. vm_compute. reflexivity.
Defined.

Lemma ex_movable : movable (rec_view ex_other) 0.
Proof. intros p x E. vm_compute in E. discriminate E. Qed.

(** Sequence 2 of the saved memory becomes sequence 0 of the other one. *)
Lemma recurrent_sequence_roundtrip_witness : exists bytes st'', RState.state_write ex_saved 2 = Ret bytes
  /\ RState.state_read ex_other 0 bytes = Ret (true, st'', [])
  /\ ex_map (rec_view st'')
     = [Some (1, [(Some [20; 21], None); (None, Some [2])]); Some (5, [(Some [90; 91], None); (None, Some [7])]); None; None].
Proof.
  destruct (recurrent_sequence_roundtrip ex_saved ex_other 2 0 [] rec_saved_ok ex_other_ok ex_same) as (bytes & st'' & E1 & E2 & _ & _ & Hv).
  - discriminate.
  - vm_compute. lia.
  - exact ex_movable.
  - intros p x E. by apply (ex_storable 2 p x).
  - exists bytes, st''. rewrite app_nil_r in E2. split; [exact E1|]. split; [exact E2|]. unfold ex_map. cbn [map]. rewrite !Hv. vm_compute. reflexivity.
Defined.

(** ** States that do not fit *)

(** The id of a restored sequence is not compared with the number of cells: the
    tail of sequence 2 is written behind the two cells of this memory. *)
Definition ex_small : rec_store := mk_rstore (Rec.make 2) 1 (rs_layers ex_other).

Lemma restore_id_out_of_bounds : (RState.state_read ex_small (-1) ex_bytes = Undef) /\ rec_ok (rs_mem ex_small).
Proof. split; [vm_compute; reflexivity|]. apply rec_okb_ok. vm_compute. reflexivity. Qed.

(** A sequence with two cells is refused. *)
Definition two_tails : list Z :=
  Io.le_bytes 4 2 ++ Io.le_bytes 4 0 ++ Io.le_bytes 4 1 ++ Io.le_bytes 4 0 ++ Io.le_bytes 4 1 ++ Io.le_bytes 4 1 ++ Io.le_bytes 4 0.
Definition ex_refused : bool * rec_store * list Z :=
  match RState.state_read ex_other (-1) two_tails with Ret r => r | _ => (true, ex_other, []) end.

Lemma refused_restore_clears_witness : ex_refused.1.1 = false /\ rec_store_ok ex_refused.1.2 /\ rec_view ex_refused.1.2 1 = None.
Proof.
  assert (E : RState.state_read ex_other (-1) two_tails = Ret (false, ex_refused.1.2, ex_refused.2)) by (vm_compute; reflexivity).
  pose proof (refused_restore_clears ex_other two_tails ex_other_ok) as H. rewrite E in H. destruct H as (Hok & _ & Hv).
  split; [vm_compute; reflexivity|]. split; [exact Hok|exact (Hv 1)].
Defined.

(** The same memory after a state that ends in the middle of its second cell: the
    first cell is taken, while no cell counts as used. *)
Lemma short_state_breaks_count : exists e st', RState.state_read ex_other (-1) (take 22 ex_bytes) = Throw (e, st')
  /\ rc_used (rs_mem st') = 0 /\ Rec.count_used (rs_mem st') = 1 /\ ~ rec_ok (rs_mem st').
Proof.
  eexists _, _. split; [vm_compute; reflexivity|]. split; [reflexivity|]. split; [vm_compute; reflexivity|].
  intros H. pose proof (ro_used _ H) as E. vm_compute in E. discriminate E.
Qed.

(** A state of a sequence with two cells: the search puts them in one cell, at the
    last position, and the comparison with the first one aborts. *)
Definition two_cells : list Z := Io.le_bytes 4 2 ++ Io.le_bytes 4 0 ++ Io.le_bytes 4 0 ++ Io.le_bytes 4 1 ++ Io.le_bytes 4 0.

Lemma two_cells_abort : RState.state_read ex_other 0 two_cells = Fatal "cells[head].pos == ubatch.pos[0]".
Proof. vm_compute. reflexivity. Qed.
