(* ===== verification/Hybrid.v ===== *)
(** * Hybrid memories, [src/llama-memory-hybrid.cpp] and
    [src/llama-memory-hybrid-iswa.cpp].

    A hybrid memory is a memory for the attention layers and one for the
    recurrent layers, which every operation keeps together.  The two files differ
    in the memory for attention only: what they use of it is the class
    [attention_i], with the KV cache and the pair of caches as instances. *)

From S2P Require Import Prelude Batch KvCells KvCache KvInputs KvContext Decode Recurrent.

(** ** The memory for attention *)

(** [at_prepare] is [prepare] with the construction of the context: none when
    some ubatch finds no slot. *)
Class attention_i {E} (A C : Type) := {
  at_memory :: @memory_i E A C;
  at_prepare : A -> list (llama_ubatch E) -> outcome (option C * A);
  at_get_can_shift : A -> outcome bool;
  at_clear : A -> A;
  at_seq_cp : A -> Z -> Z -> Z -> Z -> outcome A;
  at_seq_keep : A -> Z -> outcome A;
  at_seq_add : A -> Z -> Z -> Z -> Z -> outcome A;
  at_seq_div : A -> Z -> Z -> Z -> Z -> outcome A;
}.

Section Prepare.
Context {E : Type}.
Notation llama_ubatch := (llama_ubatch E).

Definition kv_prepare (k : llama_kv_cache) (us : list llama_ubatch) : outcome (option Context.kv_context * llama_kv_cache) :=
  '(heads_attn, k) ← Kv.prepare k us;
  Ret (match heads_attn with
       | None | Some [] => None
       | Some sinfos => Some (Context.batch_context sinfos us)
       end, k).

(** First the base cache, then the one of the window. *)
Definition iswa_prepare (k : Context.kv_iswa) (us : list llama_ubatch) : outcome (option Context.iswa_context * Context.kv_iswa) :=
  '(sinfos_base, b) ← Kv.prepare (Context.kv_base k) us;
  let k := Context.mk_iswa b (Context.kv_swa k) (Context.iswa_unified k) in
  match sinfos_base with
  | None | Some [] => Ret (None, k)
  | Some sinfos_base =>
      '(sinfos_swa, s) ← Kv.prepare (Context.kv_swa k) us;
      let k := Context.mk_iswa b s (Context.iswa_unified k) in
      Ret (match sinfos_swa with
           | None | Some [] => None
           | Some sinfos_swa => Some (Context.iswa_batch sinfos_base sinfos_swa us)
           end, k)
  end.

End Prepare.

(** [can_shift] also is what [get_can_shift] answers, from the architecture. *)
Definition kv_attention_i {E} (can_shift has_rope computed : bool) : @attention_i E llama_kv_cache (@Context.kv_context E) := {|
  at_memory := kv_memory_i can_shift has_rope computed;
  at_prepare := kv_prepare;
  at_get_can_shift _ := Ret can_shift;
  at_clear := Kv.clear;
  at_seq_cp := Kv.seq_cp;
  at_seq_keep := Kv.seq_keep;
  at_seq_add := Kv.seq_add;
  at_seq_div := Kv.seq_div;
|}.
#[export] Existing Instance kv_attention_i.

Definition iswa_attention_i {E} (can_shift has_rope computed : bool) : @attention_i E Context.kv_iswa (@Context.iswa_context E) := {|
  at_memory := iswa_memory_i can_shift has_rope computed;
  at_prepare := iswa_prepare;
  at_get_can_shift := Context.iswa_get_can_shift can_shift can_shift;
  at_clear := Context.iswa_clear;
  at_seq_cp := Context.iswa_seq_cp;
  at_seq_keep := Context.iswa_seq_keep;
  at_seq_add := Context.iswa_seq_add;
  at_seq_div := Context.iswa_seq_div;
|}.
#[export] Existing Instance iswa_attention_i.

Module Hyb.
Section Hyb.
Context {E A C : Type} `{!@attention_i E A C}.
Notation llama_ubatch := (llama_ubatch E).
Notation rec_context := (@Rec.rec_context E).

(** ** [llama_memory_hybrid] *)

Record llama_memory_hybrid := mk_hybrid { mem_attn : A; mem_recr : llama_memory_recurrent }.

(** An operation on both memories, that for attention first. *)
Definition both (f : A -> outcome A) (g : llama_memory_recurrent -> outcome llama_memory_recurrent) (h : llama_memory_hybrid)
    : outcome llama_memory_hybrid :=
  a ← f (mem_attn h); r ← g (mem_recr h); Ret (mk_hybrid a r).

Definition clear (h : llama_memory_hybrid) : outcome llama_memory_hybrid :=
  both (fun a => Ret (at_clear a)) Rec.clear h.

(** "Try removing from the recurrent cache first since it may fail." *)
Definition seq_rm (h : llama_memory_hybrid) (s p0 p1 : Z) : outcome (bool * llama_memory_hybrid) :=
  '(ok, r) ← Rec.seq_rm (mem_recr h) s p0 p1;
  if negb ok then Ret (false, mk_hybrid (mem_attn h) r)
  else '(ok, a) ← mi_seq_rm (mem_attn h) s p0 p1; Ret (ok, mk_hybrid a r).

Definition seq_cp (h : llama_memory_hybrid) (src dst p0 p1 : Z) : outcome llama_memory_hybrid :=
  both (fun a => at_seq_cp a src dst p0 p1) (fun r => Rec.seq_cp r src dst p0 p1) h.
Definition seq_keep (h : llama_memory_hybrid) (s : Z) : outcome llama_memory_hybrid :=
  both (fun a => at_seq_keep a s) (fun r => Rec.seq_keep r s) h.
Definition seq_add (h : llama_memory_hybrid) (s p0 p1 shift : Z) : outcome llama_memory_hybrid :=
  both (fun a => at_seq_add a s p0 p1 shift) (fun r => Rec.seq_add r s p0 p1 shift) h.
Definition seq_div (h : llama_memory_hybrid) (s p0 p1 d : Z) : outcome llama_memory_hybrid :=
  both (fun a => at_seq_div a s p0 p1 d) (fun r => Rec.seq_div r s p0 p1 d) h.

(** "the min of the total cache is the max of the two caches' min values" *)
Definition seq_pos_min (h : llama_memory_hybrid) (s : Z) : outcome Z :=
  p ← mi_seq_pos_min (mem_attn h) s; q ← Rec.seq_pos_min (mem_recr h) s; Ret (Z.max p q).
Definition seq_pos_max (h : llama_memory_hybrid) (s : Z) : outcome Z :=
  p ← mi_seq_pos_max (mem_attn h) s; q ← Rec.seq_pos_max (mem_recr h) s; Ret (Z.min p q).

Definition get_can_shift (h : llama_memory_hybrid) : outcome bool := at_get_can_shift (mem_attn h).

(** ** [llama_memory_hybrid_context] *)

(** A failed context has no inner ones. *)
Record hybrid_context := mk_hybrid_context {
  hx_i_next : nat;
  hx_ubatches : list llama_ubatch;
  hx_attn : option C;
  hx_recr : option rec_context;
  hx_status : llama_memory_status;
}.

Definition fail (s : llama_memory_status) : hybrid_context := mk_hybrid_context 0 [] None None s.

(** The constructors that combine the status of the inner contexts. *)
Definition pair_context (us : list llama_ubatch) (a : C) (r : rec_context) : hybrid_context :=
  mk_hybrid_context 0 us (Some a) (Some r) (llama_memory_status_combine (mi_get_status a) (Rec.rx_status r)).

Definition init_full (h : llama_memory_hybrid) : outcome hybrid_context :=
  a ← mi_init_full (mem_attn h); Ret (pair_context [] a Rec.rec_full).

Definition init_update (h : llama_memory_hybrid) (optimize : bool) : outcome (hybrid_context * llama_memory_hybrid) :=
  '(ca, a) ← mi_init_update (mem_attn h) optimize;
  '(cr, r) ← mi_init_update (mem_recr h) optimize;
  Ret (pair_context [] ca cr, mk_hybrid a r).

(** "prepare the recurrent batches first" *)
Definition init_batch (h : llama_memory_hybrid) (balloc : llama_batch_allocr E) (n_ubatch : nat) (embd_all : bool)
    : outcome (hybrid_context * llama_memory_hybrid * llama_batch_allocr E) :=
  let failed := fail LLAMA_MEMORY_STATUS_FAILED_PREPARE in
  '(us, balloc) ← split_all (if embd_all then SeqWise else Equal true) n_ubatch balloc;
  match us with
  | None => Ret (failed, h, balloc)
  | Some us =>
      '(ok, r) ← Rec.prepare (mem_recr h) us;
      if negb ok then Ret (failed, mk_hybrid (mem_attn h) r, balloc)
      else
        '(ca, a) ← at_prepare (mem_attn h) us;
        Ret (match ca with
             | None => failed
             | Some ca => pair_context us ca (Rec.rec_batch us)
             end, mk_hybrid a r, balloc)
  end.

Definition deref {B} (o : option B) : outcome B := match o with Some x => Ret x | None => Undef end.

(** What the inner contexts answer is not looked at. *)
Definition next (cx : hybrid_context) : outcome (bool * hybrid_context) :=
  c_assert (Context.is_success (hx_status cx)) "status == LLAMA_MEMORY_STATUS_SUCCESS";;
  ca ← deref (hx_attn cx);
  cr ← deref (hx_recr cx);
  '(_, ca) ← mi_next ca;
  '(_, cr) ← Rec.next cr;
  let i := S (hx_i_next cx) in
  Ret (negb (length (hx_ubatches cx) <=? i)%nat,
       mk_hybrid_context i (hx_ubatches cx) (Some ca) (Some cr) (hx_status cx)).

Definition apply (h : llama_memory_hybrid) (cx : hybrid_context) : outcome (bool * llama_memory_hybrid * hybrid_context) :=
  c_assert (negb (llama_memory_status_is_fail (hx_status cx))) "!llama_memory_status_is_fail(status)";;
  ca ← deref (hx_attn cx);
  cr ← deref (hx_recr cx);
  '(res0, a, ca) ← mi_apply (mem_attn h) ca;
  '(res1, r, cr) ← Rec.apply (mem_recr h) cr;
  Ret (res0 && res1, mk_hybrid a r,
       mk_hybrid_context (hx_i_next cx) (hx_ubatches cx) (Some ca) (Some cr) (hx_status cx)).

Definition get_ubatch (cx : hybrid_context) : outcome llama_ubatch :=
  c_assert (Context.is_success (hx_status cx)) "status == LLAMA_MEMORY_STATUS_SUCCESS";;
  at_ (hx_ubatches cx) (hx_i_next cx).

End Hyb.
Arguments llama_memory_hybrid : clear implicits.
Arguments hybrid_context : clear implicits.
End Hyb.

(** A hybrid memory as the memory of a context. *)
Definition hybrid_memory_i {E A C} {_ : @attention_i E A C}
    : @memory_i E (Hyb.llama_memory_hybrid A) (Hyb.hybrid_context E C) := {|
  mi_init_batch := Hyb.init_batch;
  mi_init_full := Hyb.init_full;
  mi_init_update := Hyb.init_update;
  mi_seq_rm := Hyb.seq_rm;
  mi_seq_pos_min := Hyb.seq_pos_min;
  mi_seq_pos_max := Hyb.seq_pos_max;
  mi_next := Hyb.next;
  mi_apply := Hyb.apply;
  mi_get_ubatch := Hyb.get_ubatch;
  mi_get_status := Hyb.hx_status;
|}.
#[export] Existing Instance hybrid_memory_i.
