(* ===== verification/HybridIswa.v ===== *)
(** * [llama_memory_hybrid_iswa], [src/llama-memory-hybrid-iswa.cpp]: the code of
    [Hybrid.v] with a pair of caches as the memory for attention.

    [init_batch] asks the base cache and then the one of the window, which is
    [iswa_prepare]. *)

From S2P Require Import Prelude Batch KvCells KvCache KvContext Decode Recurrent Hybrid.

Module HybIswa.
Section Iswa.
Context {E : Type} (can_shift has_rope computed : bool).
#[local] Instance iswa_attn : @attention_i E Context.kv_iswa (@Context.iswa_context E) := iswa_attention_i can_shift has_rope computed.
Notation memory := (Hyb.llama_memory_hybrid Context.kv_iswa).
Notation context := (Hyb.hybrid_context E (@Context.iswa_context E)).

Definition llama_memory_hybrid_iswa : Type := memory.
Definition llama_memory_hybrid_iswa_context : Type := context.

Definition init_batch : memory -> llama_batch_allocr E -> nat -> bool -> outcome (context * memory * llama_batch_allocr E) := Hyb.init_batch.
Definition init_full : memory -> outcome context := Hyb.init_full.
Definition init_update : memory -> bool -> outcome (context * memory) := Hyb.init_update.
Definition get_can_shift : memory -> outcome bool := Hyb.get_can_shift.
Definition clear : memory -> outcome memory := Hyb.clear.
Definition seq_rm : memory -> Z -> Z -> Z -> outcome (bool * memory) := Hyb.seq_rm.
Definition seq_cp : memory -> Z -> Z -> Z -> Z -> outcome memory := Hyb.seq_cp.
Definition seq_keep : memory -> Z -> outcome memory := Hyb.seq_keep.
Definition seq_add : memory -> Z -> Z -> Z -> Z -> outcome memory := Hyb.seq_add.
Definition seq_div : memory -> Z -> Z -> Z -> Z -> outcome memory := Hyb.seq_div.
Definition seq_pos_min : memory -> Z -> outcome Z := Hyb.seq_pos_min.
Definition seq_pos_max : memory -> Z -> outcome Z := Hyb.seq_pos_max.
Definition next : context -> outcome (bool * context) := Hyb.next.
Definition apply : memory -> context -> outcome (bool * memory * context) := Hyb.apply.
Definition get_ubatch : context -> outcome (llama_ubatch E) := Hyb.get_ubatch.
Definition pair_context : list (llama_ubatch E) -> @Context.iswa_context E -> @Rec.rec_context E -> context := Hyb.pair_context.

End Iswa.
End HybIswa.
