(* ===== verification/HybridTheorems.v ===== *)
(** * What a hybrid memory does for its callers.

    Both parts do what they do on their own: an operation that the recurrent part
    refuses changes neither, and a decoded batch leaves both at the same
    positions. *)

From S2P Require Import Prelude Batch BatchFacts BatchTheorems BatchInit KvCells KvCellsFacts KvCache KvCacheFacts KvCopy KvSlot.
From S2P Require Import KvPlace KvPrepare KvInputs KvContext KvTheorems KvBatch Decode DecodeFacts DecodeRun DecodeTheorems.
From S2P Require Import DecodeKv Recurrent RecurrentFacts RecurrentSteps RecurrentSlot RecurrentStage.
From S2P Require Import RecurrentFind RecurrentView RecurrentTheorems RecurrentDecode Hybrid.
From S2P Require Import RecurrentExamples.
From Stdlib Require Import Lia.

Implicit Types (k : llama_kv_cache) (m : llama_memory_recurrent) (h : Hyb.llama_memory_hybrid llama_kv_cache) (op : rec_op).

(** ** Operations on sequences *)

(** The operation on the cache. *)
Definition kv_of {E} op : KvContext.kv_op E :=
  match op with
  | OpClear => KvContext.OpClear
  | OpRm s p0 p1 => KvContext.OpRm s p0 p1
  | OpCp s d p0 p1 => KvContext.OpCp s d p0 p1
  | OpKeep s => KvContext.OpKeep s
  | OpAdd s p0 p1 shift => KvContext.OpAdd s p0 p1 shift
  | OpDiv s p0 p1 d => KvContext.OpDiv s p0 p1 d
  end.

Section Ops.
Context {E S : Type} (zero : S) (can_shift has_rope computed : bool).
#[local] Instance attn : @attention_i E llama_kv_cache (@Context.kv_context E) := kv_attention_i can_shift has_rope computed.
Implicit Types (st : list S).

Definition run_hybrid h op : outcome (bool * Hyb.llama_memory_hybrid llama_kv_cache) :=
  match op with
  | OpClear => h ← Hyb.clear h; Ret (true, h)
  | OpRm s p0 p1 => Hyb.seq_rm h s p0 p1
  | OpCp s d p0 p1 => h ← Hyb.seq_cp h s d p0 p1; Ret (true, h)
  | OpKeep s => h ← Hyb.seq_keep h s; Ret (true, h)
  | OpAdd s p0 p1 shift => h ← Hyb.seq_add h s p0 p1 shift; Ret (true, h)
  | OpDiv s p0 p1 d => h ← Hyb.seq_div h s p0 p1 d; Ret (true, h)
  end.

(** The operation on the parts. *)
Lemma run_hybrid_parts h op k' m' : KvContext.run_op (E := E) (Hyb.mem_attn h) (kv_of op) = Ret k' -> run_op (Hyb.mem_recr h) op = Ret (true, m') ->
  run_hybrid h op = Ret (true, Hyb.mk_hybrid k' m').
Proof.
  assert (Hb : forall (r : outcome llama_memory_recurrent), (x ← r; Ret (true, x)) = Ret (true, m') -> r = Ret m').
  { intros [] H; simpl in H; congruence. }
  destruct op; simpl; intros E1 E2;
    first [apply Hb in E2; unfold Hyb.clear, Hyb.seq_cp, Hyb.seq_keep, Hyb.seq_add, Hyb.seq_div, Hyb.both; simpl; rewrite ?E1; simpl; by rewrite E2
          |unfold Hyb.seq_rm; rewrite E2; simpl; by rewrite E1
          |injection E1 as <-; apply Hb in E2; unfold Hyb.clear, Hyb.both; simpl; by rewrite E2].
Qed.

(** A refused operation changes neither part. *)
Lemma run_hybrid_refused h st op : rec_inv zero (Hyb.mem_recr h) st -> op_fits (view (Hyb.mem_recr h) st) op ->
  refused (view (Hyb.mem_recr h) st) (rc_size (Hyb.mem_recr h)) op = true -> run_hybrid h op = Ret (false, h).
Proof.
  intros Hm Hop Href. destruct op as [|s p0 p1|s d p0 p1|s|s p0 p1 shift|s p0 p1 d]; try done. cbn [run_hybrid].
  unfold Hyb.seq_rm. rewrite (rm_refused zero _ st) by done. cbn [mbind outcome_bind negb]. by destruct h.
Qed.

(** C28. The operations of a hybrid memory of a KV cache and a recurrent memory act on
    both: what the recurrent part refuses (the removal of a range that holds the
    last position but does not start at 0, of an id that is too great, or of a part
    of all sequences) changes neither of them; every other operation, with ids and
    positions that both parts take, changes the relation of the cache and the map
    of the recurrent part as its abstract operations on them do.  Not covered is
    the removal of all sequences at once. *)
Theorem hybrid_operations n h st op : kv_ok n (Hyb.mem_attn h) -> rec_inv zero (Hyb.mem_recr h) st ->
  op_fits (view (Hyb.mem_recr h) st) op ->
  (refused (view (Hyb.mem_recr h) st) (rc_size (Hyb.mem_recr h)) op = false -> KvContext.op_pre n (Hyb.mem_attn h) (kv_of (E := E) op)) ->
  exists h', run_hybrid h op = Ret (negb (refused (view (Hyb.mem_recr h) st) (rc_size (Hyb.mem_recr h)) op), h')
  /\ kv_ok n (Hyb.mem_attn h') /\ rec_inv zero (Hyb.mem_recr h') st
  /\ if refused (view (Hyb.mem_recr h) st) (rc_size (Hyb.mem_recr h)) op then h' = h
     else (forall s i p, at_pos (Hyb.mem_attn h') s i p
            <-> KvContext.spec_op (home (Hyb.mem_attn h)) (at_pos (Hyb.mem_attn h)) (kv_of (E := E) op) s i p)
       /\ forall q, view (Hyb.mem_recr h') st q = spec_op (view (Hyb.mem_recr h) st) (rc_size (Hyb.mem_recr h)) (together (Hyb.mem_recr h)) op q.
Proof.
  intros Hk Hm Hfit Hpre. destruct (refused (view (Hyb.mem_recr h) st) (rc_size (Hyb.mem_recr h)) op) eqn:Href.
  - exists h. split; [by eapply run_hybrid_refused|done].
  - destruct (KvContext.op_refines n _ _ Hk (Hpre eq_refl)) as (k' & E1 & Hk' & _ & Hv).
    destruct (run_op_ok zero _ st op Hm Hfit) as (m' & E2 & Hm' & _ & Hv'). rewrite Href in E2.
    exists (Hyb.mk_hybrid k' m'). split; [by apply run_hybrid_parts|done].
Qed.

End Ops.

(** ** Contexts *)

Section Passes.
Context {E A C : Type} (attn : @attention_i E A C).
Notation llama_ubatch := (llama_ubatch E).
Notation rec_context := (@Rec.rec_context E).

(** Two walks through the same ubatches are a walk of the pair. *)
Lemma pair_passes (a : A) (ca : C) stepsA a' : passes a ca stepsA a' ->
  forall m (cr : rec_context) stepsR m' us0 us, passes m cr stepsR m' -> map snd stepsA = us -> map snd stepsR = us ->
  exists steps, passes (Hyb.mk_hybrid a m) (Hyb.mk_hybrid_context (length us0) (us0 ++ us) (Some ca) (Some cr) LLAMA_MEMORY_STATUS_SUCCESS)
      steps (Hyb.mk_hybrid a' m') /\ map snd steps = us.
Proof.
  induction 1 as [a ca u a1 ca1 ca2 Hg Ha Hn|a ca u a1 ca1 ca2 stepsA a' Hg Ha Hn Hp IH]; intros m cr stepsR m' us0 us Hr Hus Hus'; simpl in Hus; subst us.
  - inversion Hr as [m0 cr0 u' m1 cr1 cr2 Hg' Ha' Hn'|m0 cr0 u' m1 cr1 cr2 steps' m2 Hg' Ha' Hn' Hp']; subst; simpl in Hus'.
    2: { injection Hus' as -> H0. apply map_eq_nil in H0 as ->. by inversion Hp'. }
    injection Hus' as ->. exists [(Hyb.mk_hybrid a1 m', u)]. split; [|done]. eapply passes_last.
    + simpl. unfold Hyb.get_ubatch. simpl. apply at_Ret. by apply list_lookup_middle.
    + simpl. unfold Hyb.apply. simpl. rewrite Ha. cbn [mbind outcome_bind]. simpl in Ha'. rewrite Ha'. done.
    + simpl. unfold Hyb.next. simpl. rewrite Hn. cbn [mbind outcome_bind]. simpl in Hn'. rewrite Hn'. cbn [mbind outcome_bind].
      f_equal. f_equal. apply negb_false_iff, Nat.leb_le. rewrite length_app. simpl. lia.
  - inversion Hr as [m0 cr0 u' m1 cr1 cr2 Hg' Ha' Hn'|m0 cr0 u' m1 cr1 cr2 steps' m2 Hg' Ha' Hn' Hp']; subst; simpl in Hus'.
    { injection Hus' as -> H0. symmetry in H0. apply map_eq_nil in H0 as ->. by inversion Hp. }
    injection Hus' as -> H0. destruct (IH m1 cr2 steps' m' (us0 ++ [u]) (map snd stepsA) Hp' eq_refl H0) as (steps & Hs & Hst).
    exists ((Hyb.mk_hybrid a1 m1, u) :: steps). split; [|simpl; by rewrite Hst].
    eapply passes_next; [| | |exact Hs].
    + simpl. unfold Hyb.get_ubatch. simpl. apply at_Ret. by apply list_lookup_middle.
    + simpl. unfold Hyb.apply. simpl. rewrite Ha. cbn [mbind outcome_bind]. simpl in Ha'. rewrite Ha'. done.
    + simpl. unfold Hyb.next. simpl. rewrite Hn. cbn [mbind outcome_bind]. simpl in Hn'. rewrite Hn'. cbn [mbind outcome_bind].
      rewrite <- app_assoc, (length_app us0 [u]), Nat.add_1_r. f_equal. f_equal. apply negb_true_iff, Nat.leb_gt.
      rewrite length_app. simpl. destruct stepsA; [by inversion Hp|simpl; lia].
Qed.

End Passes.

(** ** Decoding *)

Section Decode.
Context {E F : Type} (can_shift has_rope computed : bool).
Notation llama_ubatch := (llama_ubatch E).
Notation kv_context := (@Context.kv_context E).
#[local] Instance attn_kv : @attention_i E llama_kv_cache kv_context := kv_attention_i can_shift has_rope computed.
Notation memory := (Hyb.llama_memory_hybrid llama_kv_cache).
Notation context := (Hyb.hybrid_context E kv_context).
Context (model : llama_model) (cparams : llama_cparams) (alloc_buffer : Z -> bool).
Context (compute : memory -> context -> llama_ubatch -> nat -> ggml_status + @graph_result F).
Context (compute_encoder : llama_ubatch -> nat -> ggml_status + @graph_result F).
Context (row : memory -> llama_ubatch -> nat -> list F).
Notation llama_context := (@llama_context E F memory).
Notation decode := (decode model cparams alloc_buffer compute compute_encoder).
Implicit Types (c : llama_context) (b : llama_batch E) (a : llama_batch_allocr E).

(** A batch for a hybrid memory whose cache has one stream and full attention and
    whose recurrent part has a cell for every sequence. *)
Record hybrid_request (n : nat) c b h a : Prop := {
  hr_request : request model cparams alloc_buffer c b h h a;
  hr_nothing : nothing_pending (Hyb.mem_attn h);
  hr_kv : kv_ok n (Hyb.mem_attn h);
  hr_unified : unified (Hyb.mem_attn h);
  hr_full : full_attention (Hyb.mem_attn h);
  hr_rec : rec_ok (Hyb.mem_recr h);
  hr_max : (batch_seq_max cparams <= rc_size (Hyb.mem_recr h))%nat;
  hr_npos : n_pos_per_embd (lc_balloc c) = 1%nat;
  hr_nodup i ids : token_seqs (batch a) i ids -> NoDup ids;
  hr_pos i p : pos (batch a) !! i = Some p -> 0 <= p;
}.

Lemma hybrid_update h optimize : nothing_pending (Hyb.mem_attn h) -> memory_update h optimize = Ret (false, h).
Proof.
  intros H. unfold memory_update. simpl. unfold Hyb.init_update. simpl. unfold Context.init_update. rewrite H. by destruct h.
Qed.

(** What the cache finds for ubatches of an accepted batch, however it was split. *)
Lemma kv_prepared n k a us idxss : kv_ok n k -> unified k -> full_attention k -> batch_ok a -> split_of a us idxss -> us <> [] ->
  exists (b : bool) sis, kv_prepare k us = Ret (if b then Some (Context.batch_context sis us) else None, k)
    /\ prepared n k us b sis /\ Forall (fits_stream k) us
    /\ (b = true <-> (n_tokens (batch a) <= length (free_cells n k 0))%nat).
Proof.
  intros Hok Huni Hfull Hb Hsp Hne. pose proof (split_fits n k a us idxss Hok Huni Hb Hsp) as Hus.
  destruct (prepare_ok n k us Hok (proj1 Hfull) (proj2 Hfull) Hne) as (b & sis & Ep & Hprep).
  { eapply Forall_impl; [exact Hus|]. apply fits_ready. }
  pose proof (prepared_free n k us b sis Hok Hfull Hus Hprep) as Hfree. rewrite (split_tokens _ _ _ Hsp) in Hfree.
  exists b, sis. split; [|done]. unfold kv_prepare. rewrite Ep. cbn [mbind outcome_bind]. destruct b; [|done].
  destruct Hprep as (k' & Hplan & _). pose proof (plan_length _ _ _ _ _ Hplan) as Hlen. by destruct sis; [destruct us|].
Qed.

(** What both parts hold after a batch. *)
Record hybrid_after (n : nat) h a h' : Prop := {
  ha_kv : kv_ok n (Hyb.mem_attn h');
  ha_rec : rec_ok (Hyb.mem_recr h');
  ha_size : rc_size (Hyb.mem_recr h') = rc_size (Hyb.mem_recr h);
  ha_shape : same_shape (Hyb.mem_attn h) (Hyb.mem_attn h');
  ha_free : (length (free_cells n (Hyb.mem_attn h') 0) + n_tokens (batch a) = length (free_cells n (Hyb.mem_attn h) 0))%nat;
  ha_cache (s : nat) p : in_cache (Hyb.mem_attn h') (Z.of_nat s) p
    <-> in_cache (Hyb.mem_attn h) (Z.of_nat s) p \/ seq_position (batch a) s p;
  ha_last q : Rec.seq_pos_max (Hyb.mem_recr h') q
    = match last_position a q with Some p => Ret p | None => Rec.seq_pos_max (Hyb.mem_recr h) q end;
}.

Lemma hybrid_plain n c b h a : hybrid_request n c b h a -> has_cpl a = false ->
  plain_batch (rc_size (Hyb.mem_recr h)) a /\ (0 < n_tokens (batch a))%nat.
Proof.
  intros [[Hp _ _ Hinit Har _ _] _ _ _ _ _ Hmax Hnp Hnd Hpos] Hc. eapply init_plain; try done. apply (pc_seqs _ _ _ c Hp).
Qed.

Lemma hybrid_serves n c b h a : hybrid_request n c b h a -> has_cpl a = false ->
  if (n_tokens (batch a) <=? length (free_cells n (Hyb.mem_attn h) 0))%nat
  then exists steps h', served cparams h a steps h' /\ hybrid_after n h a h'
  else exists m a2, only_range (Hyb.mem_recr h) m /\ Hyb.init_batch h a (cp_n_ubatch cparams) false
    = Ret (Hyb.fail LLAMA_MEMORY_STATUS_FAILED_PREPARE, Hyb.mk_hybrid (Hyb.mem_attn h) m, a2).
Proof.
  intros Hrq Hc. destruct (hybrid_plain n c b h a Hrq Hc) as [Hb Hn]. pose proof Hrq as [[Hp _ _ _ _ _ _] _ Hk Huni Hfull Hr _ _ _ _].
  destruct (rec_run (cp_n_ubatch cparams) _ a Hr Hb Hn)
    as (us & a2 & idxss & m1 & stepsR & m' & Esp & Hne & Hsp & Hout & Eprep & Ho & HpR & HsR & Hr' & Hsz & Hlast).
  destruct (kv_prepared n _ a us idxss Hk Huni Hfull (pb_ok _ _ Hb) Hsp Hne) as (ok & sis & Ek & Hprep & Hus & Hfree).
  assert (Eb : Hyb.init_batch h a (cp_n_ubatch cparams) false
    = Ret (if ok then Hyb.pair_context us (Context.batch_context sis us) (Rec.rec_batch us) else Hyb.fail LLAMA_MEMORY_STATUS_FAILED_PREPARE,
           Hyb.mk_hybrid (Hyb.mem_attn h) m1, a2)).
  { unfold Hyb.init_batch. rewrite Esp. cbn [mbind outcome_bind]. rewrite Eprep. cbn [mbind outcome_bind negb].
    simpl at_prepare. rewrite Ek. cbn [mbind outcome_bind]. by destruct ok. }
  destruct ok.
  - rewrite (proj2 (Nat.leb_le _ _) (proj1 Hfree eq_refl)). destruct Hprep as (k' & Hplan & Hk').
    destruct (plan_passes can_shift has_rope computed n _ sis us k' Hplan Hne [] [] (Context.batch_context sis us)) as (stepsA & HpA & HsA & _); try done.
    destruct (pair_passes attn_kv _ _ stepsA k' HpA m1 (Rec.rec_batch us) stepsR m' [] us HpR HsA HsR) as (steps & Hpass & Hst).
    exists steps, (Hyb.mk_hybrid k' m'). split.
    + exists (Hyb.pair_context us (Context.batch_context sis us) (Rec.rec_batch us)), (Hyb.mk_hybrid (Hyb.mem_attn h) m1), a2, idxss.
      rewrite (pc_embeddings _ _ _ c Hp). split_and!; try done; [|by destruct Hsp].
      destruct Hsp as [Hd _]. rewrite <- Hst in Hd. by rewrite Forall2_fmap_l in Hd.
    + destruct (plan_adds n _ sis us k' Hplan Hk' Hfull Hus) as (Hsh & Hsum & Hadd). constructor; try done.
      * by rewrite <- (split_tokens _ _ _ Hsp).
      * intros s p. simpl. by rewrite Hadd, (split_positions a us idxss s p (pb_ok _ _ Hb) Hsp).
  - rewrite (proj2 (Nat.leb_gt _ _)); [by exists m1, a2|]. apply Nat.nle_gt. intros Hle. by apply Hfree in Hle.
Qed.

(** Coupled sequences are refused. *)
Lemma hybrid_refuses h a n_ubatch : has_cpl a = true -> (0 < get_n_tokens a)%nat ->
  exists a', Hyb.init_batch h a n_ubatch false = Ret (Hyb.fail LLAMA_MEMORY_STATUS_FAILED_PREPARE, h, a').
Proof.
  intros Hc Hn. destruct (coupled_refused a n_ubatch Hc Hn) as [a' Esp]. exists a'.
  unfold Hyb.init_batch. by rewrite Esp.
Qed.

(** *** Staying in step *)

(** Both parts hold sequence [s] up to the same position. *)
Definition in_step h (s : nat) : Prop := Kv.seq_pos_max (Hyb.mem_attn h) (Z.of_nat s) = Rec.seq_pos_max (Hyb.mem_recr h) (Z.of_nat s).

(** The tokens of every sequence come in the order of their positions. *)
Definition in_order a : Prop := forall i j q p p', (i < j)%nat ->
  seq_set a !! i = Some {[ q ]} -> seq_set a !! j = Some {[ q ]} ->
  pos (batch a) !! i = Some p -> pos (batch a) !! j = Some p' -> p < p'.

Lemma plain_position n a (s : nat) p : plain_batch n a -> seq_position (batch a) s p <->
  exists i, (i < n_tokens (batch a))%nat /\ seq_set a !! i = Some {[ Z.of_nat s ]} /\ pos (batch a) !! i = Some p.
Proof.
  intros Hb. split.
  - intros (i & ids & Hi & Hids & Hs & Hp). destruct (token_single n a i Hb Hi) as (q & Hq & Hset & _).
    unfold token_seqs in *. assert (ids = [q]) as -> by congruence. apply list_elem_of_singleton in Hs as <-. by exists i.
  - intros (i & Hi & Hset & Hp). destruct (token_single n a i Hb Hi) as (q & Hq & Hset' & _). exists i, [q].
    split; [done|]. split; [done|]. split; [|done]. rewrite Hset in Hset'. apply (inj Some) in Hset'.
    apply list_elem_of_singleton. assert (Hin : Z.of_nat s ∈ ({[ q ]} : gset Z)) by (rewrite <- Hset'; set_solver). set_solver.
Qed.

(** The last token of a sequence has its greatest position. *)
Lemma last_greatest n a (s : nat) : plain_batch n a -> in_order a -> match last_position a (Z.of_nat s) with
  | Some p => seq_position (batch a) s p /\ forall p', seq_position (batch a) s p' -> p' <= p
  | None => forall p, ~ seq_position (batch a) s p
  end.
Proof.
  intros Hb Hord. pose proof (last_position_spec n a Hb (Z.of_nat s)) as H. destruct (last_position a _) as [p|].
  - destruct H as (i & Hi & Hp & Hmax). pose proof (ok_sets _ (bt_alloc a (pb_ok _ _ Hb))) as Hl.
    split; [apply (plain_position n); [done|]; exists i; split; [rewrite <- Hl; by eapply lookup_lt_Some|done]|].
    intros p' (j & Hj & Hset & Hp')%(plain_position n); [|done]. specialize (Hmax j Hset).
    destruct (decide (j = i)) as [->|Hne]; [assert (p' = p) as -> by congruence; done|].
    specialize (Hord j i _ p' p ltac:(lia) Hset Hi Hp' Hp). lia.
  - intros p (j & _ & Hset & _)%(plain_position n); [|done]. by apply (H j).
Qed.

(** The greatest position of a sequence in the cache. *)
Lemma cache_greatest n k s p : kv_ok n k -> unified k -> (s < LLAMA_MAX_SEQ)%nat -> in_cache k (Z.of_nat s) p ->
  (forall p', in_cache k (Z.of_nat s) p' -> p' <= p) -> Kv.seq_pos_max k (Z.of_nat s) = Ret p.
Proof.
  intros Hok Huni Hs [i Hp] Hle. destruct (unified_home n k (Z.of_nat s) Hok Huni ltac:(lia)) as [Hk _].
  destruct (queries_ok n k _ Hok Hk) as (lo & hi & _ & -> & [(_ & _ & Hno)|(_ & Hhi & Hrange)]); [by destruct (Hno i p)|].
  f_equal. specialize (Hle hi Hhi). specialize (Hrange i p Hp). lia.
Qed.

Lemma cache_none n k s : kv_ok n k -> unified k -> (s < LLAMA_MAX_SEQ)%nat -> (forall p, ~ in_cache k (Z.of_nat s) p) ->
  Kv.seq_pos_max k (Z.of_nat s) = Ret (-1).
Proof.
  intros Hok Huni Hs Hno. destruct (unified_home n k (Z.of_nat s) Hok Huni ltac:(lia)) as [Hk _].
  destruct (queries_ok n k _ Hok Hk) as (lo & hi & _ & -> & [(_ & -> & _)|(_ & Hhi & _)]); [done|by destruct (Hno hi)].
Qed.

(** The cache holds nothing, or a greatest position. *)
Lemma cache_cases n k s : kv_ok n k -> unified k -> (s < LLAMA_MAX_SEQ)%nat ->
  (forall p, ~ in_cache k (Z.of_nat s) p) \/ exists p, in_cache k (Z.of_nat s) p /\ forall p', in_cache k (Z.of_nat s) p' -> p' <= p.
Proof.
  intros Hok Huni Hs. destruct (unified_home n k (Z.of_nat s) Hok Huni ltac:(lia)) as [Hk _].
  destruct (queries_ok n k _ Hok Hk) as (lo & hi & _ & _ & [(_ & _ & Hno)|(_ & Hhi & Hle)]).
  - left. intros p [i Hp]. by apply (Hno i p).
  - right. exists hi. split; [done|]. intros p' [i Hp]. by apply (Hle i p').
Qed.

Lemma after_in_step n c b h a h' s : hybrid_request n c b h a -> has_cpl a = false -> in_order a ->
  length (seq_pos (lc_balloc c)) = LLAMA_MAX_SEQ -> (s < batch_seq_max cparams)%nat -> hybrid_after n h a h' ->
  in_step h s -> in_step h' s.
Proof.
  intros Hrq Hc Hord Hlen Hs Ha Hstep. destruct (hybrid_plain n c b h a Hrq Hc) as [Hb _].
  pose proof Hrq as [[Hp _ _ Hinit Har _ _] _ Hk Huni _ _ _ Hnp _ _].
  destruct (init_tokens _ _ _ _ _ _ _ _ Hinit Har (pc_seqs _ _ _ c Hp)) as (_ & _ & _ & Hmax & _).
  assert (Huni' : unified (Hyb.mem_attn h')).
  { destruct Huni, (ha_shape _ _ _ _ Ha) as (_ & E2 & _ & _ & _ & _ & E3). split; congruence. }
  pose proof (last_greatest _ a s Hb Hord) as Hlast. unfold in_step. rewrite (ha_last _ _ _ _ Ha).
  destruct (init_positions _ _ _ _ _ _ _ _ s Hinit Hlen ltac:(lia) Hs) as [_ Hbehind].
  assert (Hs' : (s < LLAMA_MAX_SEQ)%nat) by lia.
  destruct (last_position a (Z.of_nat s)) as [p|].
  - destruct Hlast as [Hsp Hle]. apply (cache_greatest n); [apply Ha|done|done|apply Ha; by right|].
    intros p' [Hp'|Hp']%Ha; [|by apply Hle]. destruct (cache_cases n _ s Hk Huni Hs') as [Hno|(hi & Hhi & Hhle)]; [by destruct (Hno p')|].
    pose proof (cache_greatest n _ s hi Hk Huni Hs' Hhi Hhle) as Ek. pose proof (in_cache_pos n _ _ _ Hk Hhi) as H0.
    specialize (Hhle p' Hp'). specialize (Hbehind (mi_positions h) p eq_refl). unfold in_step in Hstep. rewrite Ek in Hstep.
    assert (Ep : @m_seq_pos_max (mi_positions h) (Z.of_nat s) = hi).
    { simpl. unfold Hyb.seq_pos_max. simpl. rewrite Ek. cbn [mbind outcome_bind]. rewrite <- Hstep. simpl. lia. }
    rewrite Ep in Hbehind. destruct (Hbehind H0 Hsp). lia.
  - rewrite <- Hstep. assert (Hsame : forall p, in_cache (Hyb.mem_attn h') (Z.of_nat s) p <-> in_cache (Hyb.mem_attn h) (Z.of_nat s) p).
    { intros p. rewrite (ha_cache _ _ _ _ Ha). split; [intros [?|H]; [done|by destruct (Hlast p)]|by left]. }
    destruct (cache_cases n _ s Hk Huni Hs') as [Hno|(hi & Hhi & Hhle)].
    + rewrite (cache_none n _ s Hk Huni Hs' Hno). apply (cache_none n); [apply Ha|done|done|]. intros p. by rewrite Hsame.
    + rewrite (cache_greatest n _ s hi Hk Huni Hs' Hhi Hhle). apply (cache_greatest n); [apply Ha|done|done|by apply Hsame|].
      intros p' Hp'. by apply Hhle, Hsame.
Qed.

(** *** The whole call *)

Lemma decode_hybrid_ok n c b h a : hybrid_request n c b h a -> (forall h u, computes model compute row h u) ->
  if has_cpl a then exists c', decode c b = Ret (1, c') /\ lc_memory c' = Some h
  else if (n_tokens (batch a) <=? length (free_cells n (Hyb.mem_attn h) 0))%nat then
    exists c' h', decode c b = Ret (0, c') /\ lc_memory c' = Some h' /\ hybrid_after n h a h'
  else exists c' m, decode c b = Ret (1, c') /\ lc_memory c' = Some (Hyb.mk_hybrid (Hyb.mem_attn h) m) /\ only_range (Hyb.mem_recr h) m.
Proof.
  intros Hrq Hcm. pose proof Hrq as [Hr Hnp _ _ _ _ _ _ _ _]. pose proof Hr as [Hp _ _ Hinit Har _ _].
  destruct (has_cpl a) eqn:Hc.
  - destruct (init_tokens _ _ _ _ _ _ _ _ Hinit Har (pc_seqs _ _ _ c Hp)) as (Hn & _).
    destruct (hybrid_refuses h a (cp_n_ubatch cparams) Hc Hn) as [a2 Eb].
    rewrite (decode_search model cparams alloc_buffer compute compute_encoder c b h h a Hr).
    cbn [find_context]. simpl (mi_init_batch _ _ _ _). rewrite Eb. cbn [mbind outcome_bind]. simpl (mi_get_status _).
    cbn iota. rewrite hybrid_update by done. cbn [mbind outcome_bind]. by eexists.
  - pose proof (hybrid_serves n c b h a Hrq Hc) as Hsv. destruct (_ <=? _)%nat.
    + destruct Hsv as (steps & h' & Hserved & Hafter).
      destruct (decode_ok model cparams alloc_buffer compute compute_encoder row c b h h a steps h' Hr Hserved)
        as (c' & rows & E1 & Hm & _); [|by exists c', h'].
      apply Forall_forall. intros [h2 u] _. apply Hcm.
    + destruct Hsv as (m & a2 & Ho & Eb). rewrite (decode_search model cparams alloc_buffer compute compute_encoder c b h h a Hr).
      cbn [find_context]. simpl (mi_init_batch _ _ _ _). rewrite Eb. cbn [mbind outcome_bind]. simpl (mi_get_status _).
      cbn iota. rewrite hybrid_update by done. cbn [mbind outcome_bind]. by eexists _, m.
Qed.


(** Parts that are in step stay in step: when both hold a sequence up to the same
    position and a batch with the tokens of every sequence in the order of their
    positions is decoded, both hold it up to the same position again, which is
    what the hybrid memory answers as the last position. *)
Theorem hybrid_in_step n c b h a c' h' s : hybrid_request n c b h a -> (forall h u, computes model compute row h u) ->
  has_cpl a = false -> in_order a -> length (seq_pos (lc_balloc c)) = LLAMA_MAX_SEQ -> (s < batch_seq_max cparams)%nat ->
  decode c b = Ret (0, c') -> lc_memory c' = Some h' -> in_step h s ->
  in_step h' s /\ Hyb.seq_pos_max h' (Z.of_nat s) = Rec.seq_pos_max (Hyb.mem_recr h') (Z.of_nat s).
Proof.
  intros Hrq Hcm Hc Hord Hlen Hs Edec Hm Hstep. pose proof (decode_hybrid_ok n c b h a Hrq Hcm) as H. rewrite Hc in H.
  destruct (_ <=? _)%nat; [|destruct H as (c2 & m & E2 & _); congruence].
  destruct H as (c2 & h2 & E2 & Hm2 & Ha). assert (c2 = c') as -> by congruence. assert (h2 = h') as -> by congruence.
  assert (Hin : in_step h' s) by by eapply after_in_step. split; [done|].
  unfold Hyb.seq_pos_max. simpl. unfold in_step in Hin. rewrite Hin.
  destruct (seq_pos_ok (Hyb.mem_recr h') (Z.of_nat s) (ha_rec _ _ _ _ Ha)) as (lo & hi & _ & -> & _). simpl. by rewrite Z.min_id.
Qed.

End Decode.

(** * Hybrid memories on concrete inputs: witnesses, and where the parts part. *)


#[local] Instance ex_attn : @attention_i unit llama_kv_cache (@Context.kv_context unit) := kv_attention_i true true true.
#[local] Notation ex_hybrid := (Hyb.llama_memory_hybrid llama_kv_cache).

(** ** A memory *)

(** The cache holds sequence 0 at the positions 0 to 2 and sequence 1 at 2; the
    recurrent part has both in one cell at position 2. *)
Definition hy_m : llama_memory_recurrent :=
  match (r ← Rec.find_slot ex_m0 (slot_ubatch [[0]] [2]); Rec.seq_cp r.2 0 1 (-1) (-1)) with Ret m => m | _ => ex_m0 end.
Definition hy : ex_hybrid := Hyb.mk_hybrid ex_k1 hy_m.

Lemma hy_inv : rec_inv 0 hy_m [7; 0; 0; 0].
Proof. apply rec_inv_ok. vm_compute. reflexivity. Qed.

Lemma hy_range i p : at_pos ex_k1 1 i p -> 0 <= p <= 2.
Proof.
  intros Hp. destruct (queries_ok 8 ex_k1 1 ex_k1_ok eq_refl) as (lo & hi & E1 & E2 & [(_ & _ & Hno)|(_ & _ & H)]); [by destruct (Hno i p)|].
  assert (hi = 2) as -> by (vm_compute in E2; by injection E2). pose proof (in_cache_pos 8 ex_k1 1 p ex_k1_ok (ex_intro _ i Hp)).
  specialize (H i p Hp). lia.
Qed.

(** Removing sequence 1 removes it from both parts; the end of sequence 0 is not
    removed from either. *)
Lemma hybrid_operations_witness :
  (exists h', run_hybrid (E := unit) true true true hy (OpRm 1 0 (-1)) = Ret (true, h')
    /\ (forall i p, ~ at_pos (Hyb.mem_attn h') 1 i p) /\ view (Hyb.mem_recr h') [7; 0; 0; 0] 1 = None
    /\ view (Hyb.mem_recr h') [7; 0; 0; 0] 0 = Some (2, 7))
  /\ run_hybrid (E := unit) true true true hy (OpRm 0 1 (-1)) = Ret (false, hy).
Proof.
  split.
  - destruct (hybrid_operations (E := unit) 0 true true true 8 hy [7; 0; 0; 0] (OpRm 1 0 (-1)) ex_k1_ok hy_inv)
      as (h' & E1 & Hk & _ & H); [by left|by right|].
    assert (Er : refused (view (Hyb.mem_recr hy) [7; 0; 0; 0]) (rc_size (Hyb.mem_recr hy)) (OpRm 1 0 (-1)) = false) by (vm_compute; reflexivity).
    rewrite Er in E1, H. destruct H as [H1 H2]. exists h'. split; [exact E1|]. split; [|split].
    + intros i p Hp. apply H1 in Hp as [Hp Hno]. apply Hno. split; [by right|]. pose proof (hy_range i p Hp) as Hr.
      unfold in_pos. change (Kv.lower 0) with 0. change (Kv.upper (-1)) with 2147483647. lia.
    + rewrite H2. vm_compute. reflexivity.
    + rewrite H2. vm_compute. reflexivity.
  - destruct (hybrid_operations (E := unit) 0 true true true 8 hy [7; 0; 0; 0] (OpRm 0 1 (-1)) ex_k1_ok hy_inv)
      as (h' & E1 & _ & _ & H); [by left|by right|].
    assert (Er : refused (view (Hyb.mem_recr hy) [7; 0; 0; 0]) (rc_size (Hyb.mem_recr hy)) (OpRm 0 1 (-1)) = true) by (vm_compute; reflexivity).
    rewrite Er in E1, H. subst h'. exact E1.
Defined.

(** ** Decoding *)

Definition hy_context (h : ex_hybrid) : @llama_context unit Z ex_hybrid :=
  mk_lctx (Some h) (new_allocr 1) 0 [] [] None (mk_outputs None None ∅ no_sampling).
Definition hy_row (h : ex_hybrid) (u : llama_ubatch unit) (ii : nat) : list Z :=
  [match u_token u with Some l => nth ii l 0 | None => 0 end; nth ii (u_pos u) 0; 7].
Definition hy_compute (h : ex_hybrid) (cx : Hyb.hybrid_context unit (@Context.kv_context unit)) (u : llama_ubatch unit) (n : nat)
    : ggml_status + @graph_result Z :=
  inr (mk_result (Some (concat (map (hy_row h u) (out_pos u)))) None None [] [] [] []).
Definition hy_encoder (u : llama_ubatch unit) (n : nat) : ggml_status + @graph_result Z := inl GGML_STATUS_FAILED.
Definition hy_cparams : llama_cparams := ex_cparams false 2 2.
Definition hy_decode := decode ex_model hy_cparams (fun _ => true) hy_compute hy_encoder.

Lemma hy_computes h u : computes ex_model hy_compute hy_row h u.
Proof. constructor; [done|]. intros cx. eexists. by split. Qed.

(** What the batch allocator makes of a batch for the memory [h]. *)
Definition allocr_for (h : ex_hybrid) (inp : llama_batch unit) : llama_batch_allocr unit :=
  match init (new_allocr 1) inp 3 (Some (@mi_positions unit _ _ _ h)) 0 2 false with Ret (Some a) => a | _ => new_allocr 1 end.
Definition hy_allocr : llama_batch_allocr unit := allocr_for hy next_inp.

Lemma hy_pos : pos (batch hy_allocr) = [3; 3; 4].
Proof. vm_compute. reflexivity. Qed.

Lemma hy_sets : seq_set hy_allocr = [{[ 0 ]}; {[ 1 ]}; {[ 0 ]}].
Proof. vm_compute. reflexivity. Qed.

Lemma hy_ids i ids : token_seqs (batch hy_allocr) i ids -> NoDup ids.
Proof.
  assert (E1 : n_seq_id (batch hy_allocr) = [1; 1; 1]) by (vm_compute; reflexivity).
  assert (E2 : seq_id (batch hy_allocr) = [[0]; [1]; [0]]) by (vm_compute; reflexivity).
  unfold token_seqs. rewrite E1, E2. intros (k & l & _ & Hl & -> & _)%seqs_of_inv. apply list_elem_of_lookup_2 in Hl.
  rewrite !elem_of_cons, elem_of_nil in Hl. destruct Hl as [->|[->|[->|[]]]]; destruct (Z.to_nat k) as [|[|]]; simpl;
    apply NoDup_nil || apply NoDup_singleton; done.
Qed.

Lemma hy_request : hybrid_request true true true ex_model hy_cparams (fun _ => true) 8 (hy_context hy) next_inp hy hy_allocr.
Proof.
  constructor; [constructor| | | | | | | | |].
  - constructor; try done; [by left|]. unfold batch_seq_max. simpl. lia.
  - done.
  - done.
  - vm_cast_no_check (eq_refl (Ret (Some hy_allocr) : outcome _)).
  - exact next_arrays.
  - vm_compute. lia.
  - exists false. by vm_compute.
  - by vm_compute.
  - exact ex_k1_ok.
  - by split.
  - by split.
  - apply hy_inv.
  - vm_compute. lia.
  - done.
  - exact hy_ids.
  - intros i p. rewrite hy_pos. intros Hp%list_elem_of_lookup_2. rewrite !elem_of_cons, elem_of_nil in Hp. lia.
Qed.

Lemma hy_plain : has_cpl hy_allocr = false.
Proof. vm_compute. reflexivity. Qed.

Lemma hy_room : (n_tokens (batch hy_allocr) <=? length (free_cells 8 (Hyb.mem_attn hy) 0))%nat = true.
Proof. vm_compute. reflexivity. Qed.


Lemma hy_order : in_order hy_allocr.
Proof.
  intros i j q p p'. rewrite hy_sets, hy_pos. intros Hij Hi Hj Hp Hp'.
  destruct i as [|[|[|i]]], j as [|[|[|j]]]; try lia; try discriminate; simpl in Hi, Hj; try discriminate;
    injection Hp as <-; injection Hp' as <-; try lia.
  all: exfalso; apply (inj Some) in Hi, Hj; set_solver.
Qed.

Lemma hybrid_in_step_witness : exists c' h', hy_decode (hy_context hy) next_inp = Ret (0, c') /\ lc_memory c' = Some h'
  /\ in_step h' 1.
Proof.
  assert (Hd : exists c' h', hy_decode (hy_context hy) next_inp = Ret (0, c') /\ lc_memory c' = Some h').
  { pose proof (decode_hybrid_ok true true true ex_model hy_cparams (fun _ => true) hy_compute hy_encoder hy_row
      8 (hy_context hy) next_inp hy hy_allocr hy_request hy_computes) as H. rewrite hy_plain, hy_room in H.
    destruct H as (c' & h' & E1 & Hm & _). exists c', h'. exact (conj E1 Hm). }
  destruct Hd as (c' & h' & E1 & Hm). exists c', h'. split; [exact E1|]. split; [exact Hm|].
  refine (proj1 (hybrid_in_step true true true ex_model hy_cparams (fun _ => true) hy_compute hy_encoder hy_row
    8 (hy_context hy) next_inp hy hy_allocr c' h' 1 hy_request hy_computes hy_plain hy_order eq_refl _ E1 Hm _)).
  - unfold batch_seq_max. simpl. lia.
  - vm_compute. reflexivity.
Defined.

(** ** Findings *)

(** The positions 1 and 0 of one sequence, in this order, for an empty memory. *)
Definition hy_empty : ex_hybrid := Hyb.mk_hybrid ex_k0 ex_m0.
Definition falling_inp : llama_batch unit := mk_batch 2 (Some [2; 0]) None (Some [1; 0]) (Some [1; 1]) (Some [[0]; [0]]) None.

(** The batch is accepted and decoded, and afterwards the cache ends at position 1
    and the recurrent part at position 0. *)
Lemma falling_positions_part :
  (r ← hy_decode (hy_context hy_empty) falling_inp;
   match lc_memory r.2 with
   | Some h => p ← Kv.seq_pos_max (Hyb.mem_attn h) 0; q ← Rec.seq_pos_max (Hyb.mem_recr h) 0; Ret (r.1, p, q)
   | None => Undef
   end) = Ret (0, 1, 0).
Proof. vm_compute. reflexivity. Qed.

(** After an aborted computation neither part gives the ubatch back: the recurrent
    part refuses, and the cache is not asked. *)
Definition hy_aborted (h : ex_hybrid) (cx : Hyb.hybrid_context unit (@Context.kv_context unit)) (u : llama_ubatch unit) (n : nat)
    : ggml_status + @graph_result Z := inl GGML_STATUS_ABORTED.

Lemma hybrid_abort_keeps_tokens :
  (r ← decode ex_model hy_cparams (fun _ => true) hy_aborted hy_encoder (hy_context hy) next_inp;
   match lc_memory r.2 with
   | Some h => p ← Kv.seq_pos_max (Hyb.mem_attn h) 0; q ← Rec.seq_pos_max (Hyb.mem_recr h) 0; Ret (r.1, p, q)
   | None => Undef
   end) = Ret (2, 3, 3)
  /\ Kv.seq_pos_max ex_k1 0 = Ret 2.
Proof. vm_compute. done. Qed.
