(* ===== verification/Vocabulary.v ===== *)
(** * The vocabulary of a model, [src/llama-vocab.cpp] and [.h].

    Texts are lists of bytes.  Scores are floats of which the tokenizers take the
    order and, in one case, sums: a finite float is a multiple of the least
    positive one, and a score here is that multiple.  Reading a vocabulary from a
    model file is not modelled; log messages are left out. *)

From S2P Require Import Prelude Utf8.

(** ** Data *)

Inductive llama_vocab_type :=
  | LLAMA_VOCAB_TYPE_NONE
  | LLAMA_VOCAB_TYPE_SPM
  | LLAMA_VOCAB_TYPE_BPE
  | LLAMA_VOCAB_TYPE_WPM
  | LLAMA_VOCAB_TYPE_UGM
  | LLAMA_VOCAB_TYPE_RWKV
  | LLAMA_VOCAB_TYPE_PLAMO2.

#[export] Instance llama_vocab_type_eq_dec : EqDecision llama_vocab_type.
Proof. solve_decision. Defined.

Definition LLAMA_TOKEN_NULL : Z := -1.

(** [enum llama_token_attr]. *)
Definition ATTR_UNKNOWN : Z := 1.
Definition ATTR_UNUSED : Z := 2.
Definition ATTR_NORMAL : Z := 4.
Definition ATTR_CONTROL : Z := 8.
Definition ATTR_USER_DEFINED : Z := 16.
Definition ATTR_BYTE : Z := 32.
Definition ATTR_LSTRIP : Z := 128.
Definition ATTR_RSTRIP : Z := 256.

Record token_data := mk_token_data { td_text : list Z; td_score : Z; td_attr : Z }.

(** The fields of [llama_vocab::impl] that the tokenizers use. *)
Record llama_vocab := mk_vocab {
  vb_type : llama_vocab_type;
  id_to_token : list token_data;
  token_to_id : gmap (list Z) Z;
  bpe_ranks : gmap (list Z * list Z) Z;
  special_bos_id : Z;
  special_eos_id : Z;
  special_unk_id : Z;
  special_sep_id : Z;
  add_space_prefix : bool;
  add_bos : bool;
  add_eos : bool;
  ignore_merges : bool;
  clean_spaces : bool;
  max_token_len : Z;
  cache_special_tokens : list Z;
  cache_token_to_piece : list (list Z);
}.

Module Voc.

Definition has_type (v : llama_vocab) : outcome unit :=
  c_assert (negb (bool_decide (vb_type v = LLAMA_VOCAB_TYPE_NONE))) "type != LLAMA_VOCAB_TYPE_NONE".

(** ** Lookups *)

Definition text_to_token (v : llama_vocab) (text : list Z) : outcome Z :=
  has_type v;; Ret (default LLAMA_TOKEN_NULL (token_to_id v !! text)).

(** [.at(id)] throws on an index out of range. *)
Definition data_at (v : llama_vocab) (id : Z) : outcome token_data :=
  if (0 <=? id) && (id <? Z.of_nat (length (id_to_token v))) then at_z (id_to_token v) id else Throw "vector::_M_range_check".

Definition get_token_data (v : llama_vocab) (id : Z) : outcome token_data := has_type v;; data_at v id.

Definition token_get_attr (v : llama_vocab) (id : Z) : outcome Z := has_type v;; d ← data_at v id; Ret (td_attr d).

(** A test of an attribute, on [id_to_token[id]]. *)
Definition has_attr (mask : Z) (v : llama_vocab) (id : Z) : outcome bool :=
  has_type v;; d ← at_z (id_to_token v) id; Ret (negb (Z.land (td_attr d) mask =? 0)).

Definition is_byte (v : llama_vocab) (id : Z) : outcome bool := has_attr ATTR_BYTE v id.
Definition is_user_defined (v : llama_vocab) (id : Z) : outcome bool := has_attr ATTR_USER_DEFINED v id.

(** [token_to_id.at(text)]. *)
Definition id_at (v : llama_vocab) (text : list Z) : outcome Z :=
  match token_to_id v !! text with Some id => Ret id | None => Throw "_Map_base::at" end.

(** ** Bytes *)

Definition hex_digit (d : Z) : Z := nth (Z.to_nat d) (bytes "0123456789ABCDEF") 0.

(** [<0xXX>] *)
Definition byte_text (c : Z) : list Z := bytes "<0x" ++ [hex_digit (Z.shiftr c 4); hex_digit (Z.land c 15)] ++ bytes ">".

Definition byte_to_token (v : llama_vocab) (c : Z) : outcome Z :=
  has_type v;;
  match vb_type v with
  | LLAMA_VOCAB_TYPE_SPM | LLAMA_VOCAB_TYPE_UGM =>
      match token_to_id v !! byte_text c with
      | Some id => Ret id
      | None => id_at v (if c =? 0 then [] else [c])
      end
  | LLAMA_VOCAB_TYPE_WPM | LLAMA_VOCAB_TYPE_BPE => t ← Unicode.unicode_byte_to_utf8 c; id_at v t
  | LLAMA_VOCAB_TYPE_PLAMO2 => id_at v (byte_text c)
  | _ => Fatal "fatal error"
  end.

(** [strtol] with base 16 on at most two bytes: blanks, a sign, digits. *)
Definition hex_value (c : Z) : option Z :=
  if (48 <=? c) && (c <=? 57) then Some (c - 48)
  else if (65 <=? c) && (c <=? 70) then Some (c - 55)
  else if (97 <=? c) && (c <=? 102) then Some (c - 87)
  else None.
Fixpoint hex_digits (acc : Z) (s : list Z) : Z :=
  match s with
  | c :: s => match hex_value c with Some d => hex_digits (16 * acc + d) s | None => acc end
  | [] => acc
  end.
Definition is_space (c : Z) : bool := (c =? 32) || (9 <=? c) && (c <=? 13).
Fixpoint skip_blanks (s : list Z) : list Z :=
  match s with
  | c :: s' => if is_space c then skip_blanks s' else s
  | [] => []
  end.
Definition strtol16 (s : list Z) : Z :=
  match skip_blanks s with
  | c :: s' => if c =? 45 then - hex_digits 0 s' else if c =? 43 then hex_digits 0 s' else hex_digits 0 (c :: s')
  | [] => 0
  end.

(** [substr(3, 2)] throws when the text is shorter than three bytes. *)
Definition token_to_byte (v : llama_vocab) (id : Z) : outcome Z :=
  has_type v;;
  b ← is_byte v id;
  c_assert b "is_byte(id)";;
  d ← data_at v id;
  match vb_type v with
  | LLAMA_VOCAB_TYPE_SPM | LLAMA_VOCAB_TYPE_UGM =>
      if (length (td_text d) <? 3)%nat then Throw "basic_string::substr"
      else Ret (u8 (strtol16 (take 2 (drop 3 (td_text d)))))
  | _ => Fatal "fatal error"
  end.

(** ** Merges *)

Definition find_bpe_rank (v : llama_vocab) (l r : list Z) : outcome Z :=
  c_assert (negb (bool_decide (32 ∈ l))) "token_left.find(' ') == std::string::npos";;
  c_assert (negb (bool_decide (10 ∈ l))) "token_left.find('\n') == std::string::npos";;
  c_assert (negb (bool_decide (32 ∈ r))) "token_right.find(' ') == std::string::npos";;
  c_assert (negb (bool_decide (10 ∈ r))) "token_right.find('\n') == std::string::npos";;
  Ret (default (-1) (bpe_ranks v !! (l, r))).

End Voc.

(** ** Symbols *)

(** A symbol of a word: [text] is the offset of its first byte. *)
Record llm_symbol := mk_symbol { sy_prev : Z; sy_next : Z; sy_text : nat; sy_n : nat }.

Module Sym.

Definition set_prev (p : Z) (s : llm_symbol) : llm_symbol := mk_symbol p (sy_next s) (sy_text s) (sy_n s).
Definition set_next (p : Z) (s : llm_symbol) : llm_symbol := mk_symbol (sy_prev s) p (sy_text s) (sy_n s).
Definition set_n (n : nat) (s : llm_symbol) : llm_symbol := mk_symbol (sy_prev s) (sy_next s) (sy_text s) n.

(** [std::string(word + off, n)]. *)
Definition sub (word : list Z) (off n : nat) : outcome (list Z) :=
  if (off + n <=? length word)%nat then Ret (take n (drop off word)) else Undef.

Definition update (syms : list llm_symbol) (i : nat) (f : llm_symbol -> llm_symbol) : outcome (list llm_symbol) :=
  s ← at_ syms i; set_ syms i (f s).

(** The symbols of a word, one for each character as its first byte announces it. *)
Fixpoint split (fuel : nat) (word : list Z) (offset : nat) (index : Z) : outcome (list llm_symbol) :=
  if (offset <? length word)%nat then
    match fuel with
    | O => NoFuel
    | S fuel =>
        c ← at_ word offset;
        let n := Nat.min (Z.to_nat (Unicode.unicode_len_utf8 c)) (length word - offset) in
        let next := if (offset + n =? length word)%nat then -1 else index + 1 in
        syms ← split fuel word (offset + n) (index + 1);
        Ret (mk_symbol (index - 1) next offset n :: syms)
    end
  else Ret [].

(** The right symbol is merged into the left one and leaves the chain. *)
Definition merge (syms : list llm_symbol) (left right : nat) : outcome (list llm_symbol) :=
  r ← at_ syms right;
  syms ← update syms left (fun l => set_n (sy_n l + sy_n r) l);
  syms ← update syms right (set_n 0);
  syms ← update syms left (set_next (sy_next r));
  if 0 <=? sy_next r then update syms (Z.to_nat (sy_next r)) (set_prev (Z.of_nat left)) else Ret syms.

(** [std::priority_queue]: an element that no other one exceeds is taken out. *)
Fixpoint pop {A} (less : A -> A -> bool) (q : list A) : option (A * list A) :=
  match q with
  | [] => None
  | x :: q =>
      match pop less q with
      | None => Some (x, [])
      | Some (y, r) => if less x y then Some (y, x :: r) else Some (x, y :: r)
      end
  end.

End Sym.
