(* ===== verification/SpmTokenizer.v ===== *)
(** * [llm_tokenizer_spm_session] of [src/llama-vocab.cpp].

    It keeps the symbols of a text in a list linked by indices and a priority
    queue of pairs of neighbours that may be merged; entries of the queue whose
    symbols have changed since are recognised and skipped. *)

From S2P Require Import Prelude Utf8 Vocabulary.

Record llm_bigram_spm := mk_bigram_spm { bs_left : Z; bs_right : Z; bs_score : Z; bs_size : nat }.

Record spm_session := mk_spm {
  sp_symbols : list llm_symbol;
  sp_queue : list llm_bigram_spm;
  sp_rev : gmap (list Z) (Z * Z);
}.

Module Spm.

(** [comparator]: [l] comes later than [r]. *)
Definition less (l r : llm_bigram_spm) : bool :=
  (bs_score l <? bs_score r) || ((bs_score l =? bs_score r) && (bs_left r <? bs_left l)).

Definition with_symbols (s : spm_session) (syms : list llm_symbol) : spm_session := mk_spm syms (sp_queue s) (sp_rev s).
Definition with_queue (s : spm_session) (q : list llm_bigram_spm) : spm_session := mk_spm (sp_symbols s) q (sp_rev s).

Definition try_add_bigram (v : llama_vocab) (word : list Z) (s : spm_session) (left right : Z) : outcome spm_session :=
  if (left =? -1) || (right =? -1) then Ret s
  else
    l ← at_z (sp_symbols s) left;
    r ← at_z (sp_symbols s) right;
    text ← Sym.sub word (sy_text l) (sy_n l + sy_n r);
    token ← Voc.text_to_token v text;
    if token =? LLAMA_TOKEN_NULL then Ret s
    else if Z.of_nat (length (id_to_token v)) <=? u32 token then Ret s
    else
      d ← Voc.get_token_data v token;
      Ret (mk_spm (sp_symbols s) (mk_bigram_spm left right (td_score d) (length text) :: sp_queue s)
             (<[text := (left, right)]> (sp_rev s))).

Definition seed (v : llama_vocab) (word : list Z) (s : spm_session) : outcome spm_session :=
  foldM (fun s i => try_add_bigram v word s (Z.of_nat i - 1) (Z.of_nat i)) s (seq 1 (length (sp_symbols s) - 1)).

(** The loop over the queue. *)
Fixpoint substitute (fuel : nat) (v : llama_vocab) (word : list Z) (s : spm_session) : outcome spm_session :=
  match Sym.pop less (sp_queue s) with
  | None => Ret s
  | Some (b, q) =>
      match fuel with
      | O => NoFuel
      | S fuel =>
          let s := with_queue s q in
          l ← at_z (sp_symbols s) (bs_left b);
          r ← at_z (sp_symbols s) (bs_right b);
          if (sy_n l =? 0)%nat || (sy_n r =? 0)%nat || negb (sy_n l + sy_n r =? bs_size b)%nat then substitute fuel v word s
          else
            syms ← Sym.merge (sp_symbols s) (Z.to_nat (bs_left b)) (Z.to_nat (bs_right b));
            let s := with_symbols s syms in
            l ← at_z syms (bs_left b);
            s ← try_add_bigram v word s (sy_prev l) (bs_left b);
            s ← try_add_bigram v word s (bs_left b) (sy_next l);
            substitute fuel v word s
      end
  end.

Fixpoint resegment (fuel : nat) (v : llama_vocab) (word : list Z) (s : spm_session) (sym : llm_symbol) (output : list Z) : outcome (list Z) :=
  match fuel with
  | O => NoFuel
  | S fuel =>
      text ← Sym.sub word (sy_text sym) (sy_n sym);
      token ← Voc.text_to_token v text;
      if negb (token =? LLAMA_TOKEN_NULL) then Ret (output ++ [token])
      else
        match sp_rev s !! text with
        | None => foldM (fun output c => id ← Voc.byte_to_token v c; Ret (output ++ [id])) output text
        | Some (i, j) =>
            l ← at_z (sp_symbols s) i;
            output ← resegment fuel v word s l output;
            r ← at_z (sp_symbols s) j;
            resegment fuel v word s r output
        end
  end.

(** [for (int i = 0; i != -1; i = symbols[i].next)] *)
Fixpoint emit (fuel : nat) (v : llama_vocab) (word : list Z) (s : spm_session) (i : Z) (output : list Z) : outcome (list Z) :=
  if i =? -1 then Ret output
  else
    match fuel with
    | O => NoFuel
    | S fuel =>
        sym ← at_z (sp_symbols s) i;
        output ← resegment (S (length word)) v word s sym output;
        emit fuel v word s (sy_next sym) output
    end.

(** Three entries of the queue for every symbol are enough. *)
Definition tokenize (v : llama_vocab) (text : list Z) (output : list Z) : outcome (list Z) :=
  syms ← Sym.split (length text) text 0 0;
  s ← seed v text (mk_spm syms [] ∅);
  s ← substitute (4 * length syms) v text s;
  emit (S (length syms)) v text s 0 output.

End Spm.
