(* ===== verification/BpeTokenizer.v ===== *)
(** * [llm_tokenizer_bpe_session] of [src/llama-vocab.cpp]: as for SPM, with the
    ranks of the vocabulary's merges instead of the scores of its tokens.  The
    regular expressions that cut a text into words are not modelled: the words
    are the input. *)

From S2P Require Import Prelude Utf8 Vocabulary.

Record llm_bigram_bpe := mk_bigram_bpe { bb_left : Z; bb_right : Z; bb_text : list Z; bb_rank : Z; bb_size : nat }.

Module Bpe.

Definition less (l r : llm_bigram_bpe) : bool :=
  (bb_rank r <? bb_rank l) || ((bb_rank l =? bb_rank r) && (bb_left r <? bb_left l)).

Definition add_new_bigram (v : llama_vocab) (word : list Z) (syms : list llm_symbol) (q : list llm_bigram_bpe) (left right : Z)
    : outcome (list llm_bigram_bpe) :=
  if (left =? -1) || (right =? -1) then Ret q
  else
    l ← at_z syms left;
    r ← at_z syms right;
    left_token ← Sym.sub word (sy_text l) (sy_n l);
    right_token ← Sym.sub word (sy_text r) (sy_n r);
    rank ← Voc.find_bpe_rank v left_token right_token;
    if rank <? 0 then Ret q
    else Ret (mk_bigram_bpe left right (left_token ++ right_token) rank (length left_token + length right_token) :: q).

Definition seed (v : llama_vocab) (word : list Z) (syms : list llm_symbol) : outcome (list llm_bigram_bpe) :=
  foldM (fun q i => add_new_bigram v word syms q (Z.of_nat i - 1) (Z.of_nat i)) [] (seq 1 (length syms - 1)).

(** "build token(s)" *)
Fixpoint build (fuel : nat) (v : llama_vocab) (word : list Z) (syms : list llm_symbol) (q : list llm_bigram_bpe) : outcome (list llm_symbol) :=
  match Sym.pop less q with
  | None => Ret syms
  | Some (b, q) =>
      match fuel with
      | O => NoFuel
      | S fuel =>
          l ← at_z syms (bb_left b);
          r ← at_z syms (bb_right b);
          if (sy_n l =? 0)%nat || (sy_n r =? 0)%nat then build fuel v word syms q
          else
            left_token ← Sym.sub word (sy_text l) (sy_n l);
            right_token ← Sym.sub word (sy_text r) (sy_n r);
            if negb (bool_decide (left_token ++ right_token = bb_text b)) then build fuel v word syms q
            else
              syms ← Sym.merge syms (Z.to_nat (bb_left b)) (Z.to_nat (bb_right b));
              l ← at_z syms (bb_left b);
              q ← add_new_bigram v word syms q (sy_prev l) (bb_left b);
              q ← add_new_bigram v word syms q (bb_left b) (sy_next l);
              build fuel v word syms q
      end
  end.

(** A word that is a token stays whole when merges are ignored; its symbol is the
    only one. *)
Definition word_symbols (v : llama_vocab) (word : list Z) : outcome (list llm_symbol) :=
  whole ← (if ignore_merges v then token ← Voc.text_to_token v word; Ret (negb (token =? LLAMA_TOKEN_NULL)) else Ret false);
  if whole : bool then Ret [mk_symbol (-1) (-1) 0 (length word)] else Sym.split (length word) word 0 0.

(** The symbols of a word that are left, with their texts; [symbols_final] links
    them in this order. *)
Definition word_texts (v : llama_vocab) (word : list Z) : outcome (list (list Z)) :=
  syms ← word_symbols v word;
  q ← seed v word syms;
  syms ← build (4 * length syms) v word syms q;
  foldM (fun texts s => if (0 <? sy_n s)%nat then text ← Sym.sub word (sy_text s) (sy_n s); Ret (texts ++ [text]) else Ret texts) [] syms.

(** A symbol that is no token is written byte by byte; bytes that are no tokens are
    left out. *)
Definition emit (v : llama_vocab) (output : list Z) (text : list Z) : outcome (list Z) :=
  token ← Voc.text_to_token v text;
  if token =? LLAMA_TOKEN_NULL then
    foldM (fun output c => token ← Voc.text_to_token v [c]; Ret (if token =? LLAMA_TOKEN_NULL then output else output ++ [token])) output text
  else Ret (output ++ [token]).

Definition tokenize_words (v : llama_vocab) (words : list (list Z)) (output : list Z) : outcome (list Z) :=
  texts ← foldM (fun texts word => ts ← word_texts v word; Ret (texts ++ ts)) [] words;
  foldM (emit v) output texts.

End Bpe.
