(* ===== verification/VocabText.v ===== *)
(** * From tokens to texts: [llama_vocab::impl::token_to_piece] and [detokenize] of
    [src/llama-vocab.cpp], and [replace_all] of [src/llama-impl.cpp].

    A function that fills a buffer returns its result and the bytes it wrote. *)

From S2P Require Import Prelude Utf8 Vocabulary.
Definition INT32_MAX : Z := 2 ^ 31 - 1.

Module Text.

(** ** Strings *)

Fixpoint is_prefix (needle s : list Z) : bool :=
  match needle, s with
  | [], _ => true
  | a :: needle, b :: s => (a =? b) && is_prefix needle s
  | _ :: _, [] => false
  end.

Fixpoint occurs (needle s : list Z) : option nat :=
  if is_prefix needle s then Some 0%nat
  else match s with [] => None | _ :: s => S <$> occurs needle s end.

(** [s.find(search, pos)]; [None] is [npos]. *)
Definition str_find (s search : list Z) (pos : nat) : option nat :=
  if (pos <=? length s)%nat then (fun k => pos + k)%nat <$> occurs search (drop pos s) else None.

Fixpoint replace_loop (fuel : nat) (s search replace : list Z) (last_pos : nat) (builder : list Z) : outcome (list Z) :=
  match str_find s search last_pos with
  | None => Ret (builder ++ drop last_pos s)
  | Some pos =>
      match fuel with
      | O => NoFuel
      | S fuel => replace_loop fuel s search replace (pos + length search) (builder ++ take (pos - last_pos) (drop last_pos s) ++ replace)
      end
  end.

Definition replace_all (s search replace : list Z) : outcome (list Z) :=
  if decide (search = []) then Ret s else replace_loop (length s) s search replace 0 [].

(** U+2581 *)
Definition LOWER_BLOCK : list Z := [0xe2; 0x96; 0x81].

Definition llama_escape_whitespace (text : list Z) : outcome (list Z) := replace_all text [32] LOWER_BLOCK.
Definition llama_unescape_whitespace (word : list Z) : outcome (list Z) := replace_all word LOWER_BLOCK [32].

(** [format("%02x", c)] *)
Definition hex2 (c : Z) : list Z :=
  let digit d := nth (Z.to_nat d) (bytes "0123456789abcdef") 0 in [digit (Z.shiftr c 4); digit (Z.land c 15)].

Definition llama_decode_text (text : list Z) : outcome (list Z) :=
  cpts ← Unicode.unicode_cpts_from_utf8 text;
  foldM (fun decoded_text cpt =>
    utf8 ← Unicode.unicode_cpt_to_utf8 cpt;
    match Unicode.unicode_utf8_to_byte utf8 with
    | Throw _ => Ret (decoded_text ++ bytes "[UNK_BYTE_0x" ++ flat_map hex2 utf8 ++ text ++ bytes "]")
    | r => b ← r; Ret (decoded_text ++ [b])
    end) [] cpts.

(** ** [llama_unescape_rwkv_token] *)

Record unescape_state := mk_unescape { us_escaping : bool; us_remaining : Z; us_acc : Z; us_output : list Z }.

Definition unescape_step (st : unescape_state) (c : Z) : unescape_state :=
  if negb (us_remaining st =? 0) then
    (* [char] is signed *)
    let sc := if c <? 128 then c else c - 256 in
    let value := u8 (if 97 <=? sc then sc - 97 + 10 else sc - 48) in
    let acc := u8 (Z.shiftl (us_acc st) 4 + value) in
    let remaining := us_remaining st - 1 in
    if remaining =? 0 then mk_unescape (us_escaping st) remaining 0 (us_output st ++ [acc])
    else mk_unescape (us_escaping st) remaining acc (us_output st)
  else if us_escaping st then
    if c =? ch "t" then mk_unescape false 0 (us_acc st) (us_output st ++ [9])
    else if c =? ch "n" then mk_unescape false 0 (us_acc st) (us_output st ++ [10])
    else if c =? ch "r" then mk_unescape false 0 (us_acc st) (us_output st ++ [13])
    else if c =? ch "x" then mk_unescape false 2 (us_acc st) (us_output st)
    else mk_unescape false 0 (us_acc st) (us_output st ++ [c])
  else if c =? ch "\" then mk_unescape true 0 (us_acc st) (us_output st)
  else mk_unescape false 0 (us_acc st) (us_output st ++ [c]).

Definition llama_unescape_rwkv_token (escaped : list Z) : list Z :=
  us_output (foldl unescape_step (mk_unescape false 0 0 []) escaped).

(** ** [token_to_piece] *)

Definition attr_special : Z := Z.lor ATTR_UNKNOWN ATTR_CONTROL.
Definition attr_has (attr mask : Z) : bool := negb (Z.land attr mask =? 0).

(** [for (i = 0; i < lstrip && size && *token == ' '; ++i)] *)
Fixpoint strip (n : nat) (token : list Z) : list Z :=
  match n, token with
  | S n, c :: rest => if c =? 32 then strip n rest else token
  | _, _ => token
  end.

(** [_try_copy] *)
Definition try_copy (length_ lstrip : Z) (token : list Z) : outcome (Z * list Z) :=
  if INT32_MAX <=? Z.of_nat (length token) then Fatal "invalid token size"
  else
    let token := strip (Z.to_nat lstrip) token in
    let size := Z.of_nat (length token) in
    Ret (if length_ <? size then (- size, []) else (size, token)).

(** [std::stoi(s, nullptr, 16)] *)
Definition stoi16 (s : list Z) : outcome Z :=
  match Voc.skip_blanks s with
  | [] => Throw "stoi"
  | c :: s' =>
      let digits := if (c =? 45) || (c =? 43) then s' else c :: s' in
      match digits with
      | d :: _ => match Voc.hex_value d with Some _ => Ret (Voc.strtol16 s) | None => Throw "stoi" end
      | [] => Throw "stoi"
      end
  end.

(** The branch for a token's text. *)
Definition piece_of_text (v : llama_vocab) (token attr length_ lstrip : Z) (token_text : list Z) : outcome (Z * list Z) :=
  match vb_type v with
  | LLAMA_VOCAB_TYPE_WPM | LLAMA_VOCAB_TYPE_SPM | LLAMA_VOCAB_TYPE_UGM =>
      if attr_has attr (Z.lor attr_special ATTR_USER_DEFINED) then try_copy length_ lstrip token_text
      else if attr_has attr ATTR_NORMAL then r ← llama_unescape_whitespace token_text; try_copy length_ lstrip r
      else if attr_has attr ATTR_BYTE then b ← Voc.token_to_byte v token; try_copy length_ lstrip [b]
      else Ret (0, [])
  | LLAMA_VOCAB_TYPE_BPE =>
      if attr_has attr (Z.lor attr_special ATTR_USER_DEFINED) then try_copy length_ lstrip token_text
      else if attr_has attr ATTR_NORMAL then r ← llama_decode_text token_text; try_copy length_ lstrip r
      else Ret (0, [])
  | LLAMA_VOCAB_TYPE_RWKV =>
      let result := llama_unescape_rwkv_token token_text in
      let size := Z.of_nat (length result) in
      Ret (if length_ <? size then (- size, []) else (size, result))
  | LLAMA_VOCAB_TYPE_PLAMO2 =>
      b ← Voc.is_byte v token;
      if (b : bool) && (length token_text =? 6)%nat && bool_decide (take 3 token_text = bytes "<0x") && bool_decide (last token_text = Some (ch ">"))
      then
        hex_val ← stoi16 (take 2 (drop 3 token_text));
        Ret (if length_ <? 1 then (-1, []) else (1, [u8 hex_val]))
      else try_copy length_ lstrip token_text
  | LLAMA_VOCAB_TYPE_NONE => Fatal "fatal error"
  end.

Definition token_to_piece (v : llama_vocab) (token length_ lstrip : Z) (special : bool) : outcome (Z * list Z) :=
  attr ← Voc.token_get_attr v token;
  if negb special && attr_has attr attr_special then Ret (0, [])
  else if negb (bool_decide (cache_token_to_piece v = [])) then
    if (0 <=? token) && (token <? Z.of_nat (length (cache_token_to_piece v)))
    then result ← at_z (cache_token_to_piece v) token; try_copy length_ lstrip result
    else Throw "vector::_M_range_check"
  else if (0 <=? token) && (token <? i32 (Z.of_nat (length (id_to_token v)))) then
    d ← at_z (id_to_token v) token;
    piece_of_text v token attr length_ lstrip (td_text d)
  else Ret (0, []).

(** [capacity] is that of an empty string. *)
Definition token_to_piece_for_cache (capacity : nat) (v : llama_vocab) (token : Z) (special : bool) : outcome (list Z) :=
  '(n_chars, piece) ← token_to_piece v token (Z.of_nat capacity) 0 special;
  if n_chars <? 0 then
    '(check, piece) ← token_to_piece v token (- n_chars) 0 special;
    c_assert (check =? - n_chars) "check == -n_chars";;
    Ret piece
  else Ret piece.

Definition with_cache (v : llama_vocab) (cache : list (list Z)) : llama_vocab :=
  mk_vocab (vb_type v) (id_to_token v) (token_to_id v) (bpe_ranks v) (special_bos_id v) (special_eos_id v) (special_unk_id v) (special_sep_id v)
    (add_space_prefix v) (add_bos v) (add_eos v) (ignore_merges v) (clean_spaces v) (max_token_len v) (cache_special_tokens v) cache.

(** "build token to piece cache" *)
Definition build_cache (capacity : nat) (v : llama_vocab) : outcome llama_vocab :=
  cache ← foldM (fun cache id => piece ← token_to_piece_for_cache capacity v (Z.of_nat id) true; Ret (cache ++ [piece])) [] (seq 0 (length (id_to_token v)));
  Ret (with_cache v cache).

End Text.

(** * [llama_vocab::impl::detokenize] and the two [llama_vocab::detokenize] of
    [src/llama-vocab.cpp].

    The text is the part of the buffer that was written; the three passes that
    clean spaces move bytes to the left in it and return the length that is
    left. *)

Module Detok.

(** ** Cleaning *)

(** [total--] *)
Definition dec (total : nat) : outcome nat := match total with O => Undef | S t => Ret t end.

(** [text[total++] = x] *)
Definition put (st : list Z * nat) (total : nat) (x : Z) : outcome (list Z * nat) :=
  text ← set_ st.1 total x; Ret (text, S total).

Definition is_punct (x : Z) : bool := (x =? ch "?") || (x =? ch "!") || (x =? ch ".") || (x =? ch ",").

(** "first pass: characters ?!.," *)
Definition punct_step (st : list Z * nat) (i : nat) : outcome (list Z * nat) :=
  x ← at_ st.1 i;
  y ← at_ st.1 (i - 1);
  total ← (if (y =? 32) && is_punct x then dec st.2 else Ret st.2);
  put st total x.

(** [total = total ? 1 : 0], then the loop from 1 to the old total. *)
Definition pass (step : list Z * nat -> nat -> outcome (list Z * nat)) (text : list Z) (total : nat) : outcome (list Z * nat) :=
  foldM step (text, if (total =? 0)%nat then 0%nat else 1%nat) (seq 1 (total - 1)).

(** "second pass: strip single apostrophe between spaces"; here the body moves
    [i] as well. *)
Fixpoint apostrophe_loop (fuel : nat) (total2 : nat) (st : list Z * nat) (i : nat) : outcome (list Z * nat) :=
  if (i <? total2)%nat then
    match fuel with
    | O => NoFuel
    | S fuel =>
        x ← at_ st.1 i;
        lone ← (if (x =? 39) && (i + 1 <? total2)%nat then
                  y ← at_ st.1 (i - 1);
                  if y =? 32 then z ← at_ st.1 (i + 1); Ret (z =? 32) else Ret false
                else Ret false);
        if lone : bool then
          total ← dec st.2;
          text ← set_ st.1 (i + 1) 0;
          st ← put (text, total) total x;
          apostrophe_loop fuel total2 st (i + 2)
        else
          st ← put st st.2 x;
          apostrophe_loop fuel total2 st (i + 1)
    end
  else Ret st.

Definition apostrophe_pass (text : list Z) (total : nat) : outcome (list Z * nat) :=
  apostrophe_loop total total (text, if (total =? 0)%nat then 0%nat else 1%nat) 1.

(** "third pass: apostrophe contractions" *)
Definition contraction_step (total3 : nat) (st : list Z * nat) (i : nat) : outcome (list Z * nat) :=
  x ← at_ st.1 i;
  y ← at_ st.1 (i - 1);
  remove ← (if (y =? 32) && (x =? 39) && (i + 1 <? total3)%nat then
      x1 ← at_ st.1 (i + 1);
      if (x1 =? ch "t") || (x1 =? ch "d") then Ret false
      else if (x1 =? ch "s") || (x1 =? ch "m") then Ret true
      else if (i + 2 <? total3)%nat then
        x2 ← at_ st.1 (i + 2);
        if (x1 =? ch "l") && (x2 =? ch "l") then Ret false
        else Ret ((x1 =? ch "r") && (x2 =? ch "e") || (x1 =? ch "v") && (x2 =? ch "e"))
      else Ret false
    else Ret false);
  total ← (if remove : bool then dec st.2 else Ret st.2);
  put st total x.

Definition clean (text : list Z) (total : nat) : outcome (list Z * nat) :=
  '(text, total) ← pass punct_step text total;
  '(text, total) ← apostrophe_pass text total;
  pass (contraction_step total) text total.

(** ** Pieces *)

(** The variables of the loop over the tokens; [dt_text] is what was written. *)
Record detok_state := mk_detok { dt_avail : Z; dt_total : Z; dt_text : list Z; dt_remove_space : bool }.

Definition detok_step (v : llama_vocab) (unparse_special : bool) (st : detok_state) (token : Z) : outcome detok_state :=
  c_assert (0 <=? dt_avail st) "avail >= 0";;
  '(n_chars, piece) ← Text.token_to_piece v token (dt_avail st) (if dt_remove_space st then 1 else 0) unparse_special;
  if n_chars <? 0 then
    let total := dt_total st - n_chars in
    (* a signed overflow *)
    if 2 ^ 31 <=? total then Undef else Ret (mk_detok 0 total (dt_text st) false)
  else if 0 <? n_chars then
    let total := dt_total st + n_chars in
    if 2 ^ 31 <=? total then Undef else Ret (mk_detok (dt_avail st - n_chars) total (dt_text st ++ piece) false)
  else Ret (mk_detok (dt_avail st) (dt_total st) (dt_text st) false).

(** [(tokens, remove_space)] after [remove_special]. *)
Definition trim_special (v : llama_vocab) (tokens : list Z) (remove_special : bool) : list Z * bool :=
  let '(tokens, remove_space) :=
    if remove_special && add_bos v then
      match tokens with
      | t :: rest => if t =? special_bos_id v then (rest, false) else (tokens, add_space_prefix v)
      | [] => (tokens, add_space_prefix v)
      end
    else (tokens, add_space_prefix v) in
  let tokens :=
    if remove_special && add_eos v then
      match last tokens with
      | Some t => if t =? special_eos_id v then removelast tokens else tokens
      | None => tokens
      end
    else tokens in
  (tokens, remove_space).

Definition detokenize (v : llama_vocab) (tokens : list Z) (text_len_max : Z) (remove_special unparse_special : bool) : outcome (Z * list Z) :=
  if decide (vb_type v = LLAMA_VOCAB_TYPE_NONE) then Ret (0, [])
  else
    let '(tokens, remove_space) := trim_special v tokens remove_special in
    st ← foldM (detok_step v unparse_special) (mk_detok text_len_max 0 [] remove_space) tokens;
    if text_len_max <? dt_total st then Ret (- dt_total st, dt_text st)
    else
      '(text, total) ← (if clean_spaces v then clean (dt_text st) (Z.to_nat (dt_total st)) else Ret (dt_text st, Z.to_nat (dt_total st)));
      Ret (if Z.of_nat total <=? text_len_max then Z.of_nat total else - Z.of_nat total, text).

(** [std::string llama_vocab::detokenize]; [capacity] is that of an empty string. *)
Definition detokenize_string (capacity : nat) (v : llama_vocab) (tokens : list Z) (special : bool) : outcome (list Z) :=
  '(n_chars, text) ← detokenize v tokens (Z.of_nat (Nat.max capacity (length tokens))) false special;
  '(n_chars, text) ← (if n_chars <? 0 then
      let size := - n_chars in
      '(n_chars, text) ← detokenize v tokens size false special;
      c_assert (n_chars <=? size) "n_chars <= (int32_t)text.size()";;
      Ret (n_chars, text)
    else Ret (n_chars, text));
  if n_chars <? 0 then Throw "basic_string::resize" else Ret (take (Z.to_nat n_chars) text).

End Detok.
