(* ===== verification/VocabTokenize.v ===== *)
(** * From texts to tokens: [tokenizer_st_partition] and [tokenize] of
    [llama_vocab::impl] in [src/llama-vocab.cpp].

    The list of fragments is a list, and an iterator into it an index: inserting
    behind the iterator leaves it, erasing an element before it moves it one
    down.  Of the cases of [tokenize] the one of SPM is modelled. *)

From S2P Require Import Prelude Utf8 Vocabulary SpmTokenizer VocabText.

(** [fragment_buffer_variant]; a raw text is a part of the one text that is
    tokenized. *)
Inductive fragment_buffer_variant :=
  | FRAGMENT_TOKEN (token : Z)
  | FRAGMENT_RAW_TEXT (offset length_ : nat).

Module Tok.

(** The constructor of a raw text. *)
Definition raw_fragment (raw_text : list Z) (offset length_ : nat) : outcome fragment_buffer_variant :=
  c_assert (1 <=? length_)%nat "_length >= 1";;
  c_assert (offset + length_ <=? length raw_text)%nat "offset + length <= raw_text.length()";;
  Ret (FRAGMENT_RAW_TEXT offset length_).

Definition emplace_after (buffer : list fragment_buffer_variant) (it : nat) (f : fragment_buffer_variant) : list fragment_buffer_variant :=
  take (S it) buffer ++ f :: drop (S it) buffer.

(** [while (length > 0 && isspace(raw_text[offset + length - 1])) length--]. *)
Fixpoint lstrip_length (raw_text : list Z) (offset length_ : nat) : outcome nat :=
  match length_ with
  | O => Ret 0%nat
  | S l =>
      c ← at_ raw_text (offset + l);
      if Voc.is_space c then lstrip_length raw_text offset l else Ret (S l)
  end.

(** [while (length > 0 && isspace(raw_text[offset])) { offset++; length--; }] *)
Fixpoint rstrip_range (raw_text : list Z) (offset length_ : nat) : outcome (nat * nat) :=
  match length_ with
  | O => Ret (offset, 0%nat)
  | S l =>
      c ← at_ raw_text offset;
      if Voc.is_space c then rstrip_range raw_text (S offset) l else Ret (offset, S l)
  end.

(** "loop over the text": the buffer, the iterator and the part of the text that
    is looked at. *)
Fixpoint cut_loop (fuel : nat) (raw_text text : list Z) (attr special_id : Z) (buffer : list fragment_buffer_variant) (it base len : nat)
    : outcome (list fragment_buffer_variant * nat) :=
  match Text.str_find (take (base + len) raw_text) text base with
  | None => Ret (buffer, it)
  | Some match_ =>
      match fuel with
      | O => NoFuel
      | S fuel =>
          let source := it in
          '(buffer, it) ← (
            if (base <? match_)%nat then
              left ← (if Text.attr_has attr ATTR_LSTRIP then lstrip_length raw_text base (match_ - base) else Ret (match_ - base)%nat);
              if (0 <? left)%nat then f ← raw_fragment raw_text base left; Ret (emplace_after buffer it f, S it) else Ret (buffer, it)
            else Ret (buffer, it));
          let buffer := emplace_after buffer it (FRAGMENT_TOKEN special_id) in
          let it := S it in
          if (match_ + length text <? base + len)%nat then
            let offset := (match_ + length text)%nat in
            let rest := (len - ((match_ - base) + length text))%nat in
            '(offset, rest) ← (if Text.attr_has attr ATTR_RSTRIP then rstrip_range raw_text offset rest else Ret (offset, rest));
            '(buffer, it) ← (if (0 <? rest)%nat then f ← raw_fragment raw_text offset rest; Ret (emplace_after buffer it f, S it) else Ret (buffer, it));
            cut_loop fuel raw_text text attr special_id (delete source buffer) (it - 1) offset rest
          else Ret (delete source buffer, (it - 1)%nat)
      end
  end.

(** "for each text fragment", from the iterator [it] on. *)
Fixpoint cut_fragments (fuel : nat) (raw_text text : list Z) (attr special_id : Z) (buffer : list fragment_buffer_variant) (it : nat)
    : outcome (list fragment_buffer_variant) :=
  match buffer !! it with
  | None => Ret buffer
  | Some fragment =>
      match fuel with
      | O => NoFuel
      | S fuel =>
          '(buffer, it) ← (match fragment with
            | FRAGMENT_RAW_TEXT offset length_ => cut_loop (S length_) raw_text text attr special_id buffer it offset length_
            | FRAGMENT_TOKEN _ => Ret (buffer, it)
            end);
          cut_fragments fuel raw_text text attr special_id buffer (S it)
      end
  end.

Definition partition_step (v : llama_vocab) (raw_text : list Z) (parse_special : bool) (buffer : list fragment_buffer_variant) (special_id : Z)
    : outcome (list fragment_buffer_variant) :=
  data ← Voc.get_token_data v special_id;
  if negb parse_special && Text.attr_has (td_attr data) (Z.lor ATTR_CONTROL ATTR_UNKNOWN) then Ret buffer
  else cut_fragments (length buffer) raw_text (td_text data) (td_attr data) special_id buffer 0.

Definition tokenizer_st_partition (v : llama_vocab) (raw_text : list Z) (parse_special : bool) (buffer : list fragment_buffer_variant)
    : outcome (list fragment_buffer_variant) :=
  foldM (partition_step v raw_text parse_special) buffer (cache_special_tokens v).

(** The fragments of a text. *)
Definition fragments (v : llama_vocab) (raw_text : list Z) (parse_special : bool) : outcome (list fragment_buffer_variant) :=
  if decide (raw_text = []) then Ret []
  else f ← raw_fragment raw_text 0 (length raw_text); tokenizer_st_partition v raw_text parse_special [f].

(** [fragment.raw_text.substr(fragment.offset, fragment.length)] *)
Definition fragment_text (raw_text : list Z) (offset length_ : nat) : list Z := take length_ (drop offset raw_text).

(** The case of SPM; the variables of its loop are the output and
    [is_prev_special]. *)
Definition spm_fragment (v : llama_vocab) (raw_text : list Z) (st : list Z * bool) (fragment : fragment_buffer_variant) : outcome (list Z * bool) :=
  let '(output, is_prev_special) := st in
  match fragment with
  | FRAGMENT_RAW_TEXT offset length_ =>
      let text := (if add_space_prefix v && is_prev_special then [32] else []) ++ fragment_text raw_text offset length_ in
      text ← Text.llama_escape_whitespace text;
      output ← Spm.tokenize v text output;
      Ret (output, false)
  | FRAGMENT_TOKEN token => Ret (output ++ [token], true)
  end.

(** A special token that is added. *)
Definition push_special (add : bool) (id : Z) (output : list Z) : outcome (list Z) :=
  if add then c_assert (negb (id =? LLAMA_TOKEN_NULL)) "special token"%string;; Ret (output ++ [id]) else Ret output.

Definition tokenize_spm (v : llama_vocab) (raw_text : list Z) (add_special parse_special : bool) : outcome (list Z) :=
  buffer ← fragments v raw_text parse_special;
  output ← push_special (add_special && add_bos v) (special_bos_id v) [];
  '(output, _) ← foldM (spm_fragment v raw_text) (output, true) buffer;
  push_special (add_special && add_eos v) (special_eos_id v) output.

End Tok.
