(* ===== verification/MergeFacts.v ===== *)
(** * The symbols of the merging tokenizers, and the reference they implement:
    merge the best pair of neighbours, the first of several, until no pair can be
    merged. *)

From S2P Require Import Prelude Utf8 Utf8Facts Vocabulary.
From Stdlib Require Import Lia.

Implicit Types (word g h : list Z) (segs : list (list Z)) (syms : list llm_symbol) (alive : list nat) (i j k x : nat).

(** ** The reference *)

Section Greedy.
Context (offer : list Z -> list Z -> option Z) (worse : Z -> Z -> bool).

(** The best pair of neighbours, the first one of several, with its key. *)
Fixpoint best_pair segs : option (nat * Z) :=
  match segs with
  | [] => None
  | g :: rest =>
      let later := (fun p => (S p.1, p.2)) <$> best_pair rest in
      match rest with
      | [] => None
      | h :: _ =>
          match offer g h, later with
          | None, _ => later
          | Some key, Some (k, key') => if worse key key' then later else Some (0%nat, key)
          | Some key, None => Some (0%nat, key)
          end
      end
  end.

Definition join_at k segs : list (list Z) :=
  match segs !! k, segs !! S k with Some g, Some h => <[k := g ++ h]> (delete (S k) segs) | _, _ => segs end.

Fixpoint greedy_n (n : nat) segs : list (list Z) :=
  match n with
  | O => segs
  | S n => match best_pair segs with None => segs | Some (k, _) => greedy_n n (join_at k segs) end
  end.

(** Every step makes the list shorter. *)
Definition greedy segs : list (list Z) := greedy_n (length segs) segs.

(** Pair [k] is a candidate. *)
Definition candidate segs k key : Prop := exists g h, segs !! k = Some g /\ segs !! S k = Some h /\ offer g h = Some key.

Lemma best_pair_spec (Hirr : forall a, worse a a = false) (Htr : forall a b c, worse a b = true -> worse b c = true -> worse a c = true)
    (Htot : forall a b, worse a b = false -> worse b a = false -> a = b) segs :
  match best_pair segs with
  | None => forall k key, ~ candidate segs k key
  | Some (k, key) => candidate segs k key /\ forall k' key', candidate segs k' key' -> worse key key' = false /\ (key' = key -> (k <= k')%nat)
  end.
Proof.
  assert (Htr2 : forall a b c, worse a b = true -> worse c b = false -> worse a c = true).
  { intros a b c H1 H2. destruct (worse b c) eqn:E; [by apply Htr with b|]. by rewrite <- (Htot b c). }
  assert (Hcons : forall g h rest k key, candidate (g :: h :: rest) k key <-> (k = 0%nat /\ offer g h = Some key) \/ exists k', k = S k' /\ candidate (h :: rest) k' key).
  { intros g h rest k key. unfold candidate. split.
    - destruct k as [|k]; intros (a & b & H1 & H2 & H3); simpl in *; [left; by simplify_eq|right; exists k; split; [done|by exists a, b]].
    - intros [[-> H]|(k' & -> & a & b & H1 & H2 & H3)]; [by exists g, h|by exists a, b]. }
  induction segs as [|g rest IH]; [by intros k key (a & b & H & _)|]. cbn [best_pair]. destruct rest as [|h rest]; [by intros [|k] key (a & b & _ & H & _)|].
  destruct (offer g h) as [key|] eqn:Eo; destruct (best_pair (h :: rest)) as [[k' key']|]; cbn [fmap option_fmap option_map fst snd].
  - destruct IH as [Hc Hb]. destruct (worse key key') eqn:Ew.
    + split; [apply Hcons; right; by exists k'|]. intros k2 key2 [[-> E]|(k3 & -> & H3)]%Hcons.
      * assert (key2 = key) as -> by congruence. split; [|intros ->; by rewrite Hirr in Ew]. destruct (worse key' key) eqn:E2; [|done].
        pose proof (Htr _ _ _ Ew E2) as E3. by rewrite Hirr in E3.
      * destruct (Hb k3 key2 H3) as [H1 H2]. split; [done|]. intros E. specialize (H2 E). lia.
    + split; [apply Hcons; by left|]. intros k2 key2 [[-> E]|(k3 & -> & H3)]%Hcons; [assert (key2 = key) as -> by congruence; split; [done|lia]|].
      destruct (Hb k3 key2 H3) as [H1 H2]. split; [|lia]. destruct (worse key key2) eqn:E2; [|done]. by rewrite (Htr2 key key2 key' E2 H1) in Ew.
  - split; [apply Hcons; by left|]. intros k2 key2 [[-> E]|(k3 & -> & H3)]%Hcons; [assert (key2 = key) as -> by congruence; split; [done|lia]|by destruct (IH k3 key2)].
  - destruct IH as [Hc Hb]. split; [apply Hcons; right; by exists k'|]. intros k2 key2 [[-> E]|(k3 & -> & H3)]%Hcons; [congruence|].
    destruct (Hb k3 key2 H3) as [H1 H2]. split; [done|]. intros E. specialize (H2 E). lia.
  - intros k2 key2 [[-> E]|(k3 & -> & H3)]%Hcons; [congruence|by destruct (IH k3 key2)].
Qed.

End Greedy.

(** ** Joining two neighbours *)

Lemma join_at_Some k segs g h : segs !! k = Some g -> segs !! S k = Some h -> join_at k segs = <[k := g ++ h]> (delete (S k) segs).
Proof. intros H1 H2. unfold join_at. by rewrite H1, H2. Qed.

Lemma length_join k segs g h : segs !! k = Some g -> segs !! S k = Some h -> S (length (join_at k segs)) = length segs.
Proof.
  intros H1 H2. rewrite (join_at_Some k segs g h) by done. rewrite length_insert, length_delete by done. apply lookup_lt_Some in H2. lia.
Qed.

Lemma lookup_join k segs g h x : segs !! k = Some g -> segs !! S k = Some h ->
  join_at k segs !! x = if decide (x = k) then Some (g ++ h) else if decide (x < k)%nat then segs !! x else segs !! S x.
Proof.
  intros H1 H2. rewrite (join_at_Some k segs g h) by done. pose proof (lookup_lt_Some _ _ _ H2). destruct (decide (x = k)) as [->|Hne].
  - apply list_lookup_insert_eq. rewrite length_delete by done. lia.
  - rewrite list_lookup_insert_ne by done. destruct (decide (x < k)%nat); [by rewrite list_lookup_delete_lt by lia|by rewrite list_lookup_delete_ge by lia].
Qed.

Definition seg_off segs k : nat := length (concat (take k segs)).

Lemma seg_off_S segs k g : segs !! k = Some g -> seg_off segs (S k) = (seg_off segs k + length g)%nat.
Proof. intros H. unfold seg_off. rewrite (take_S_r _ _ _ H), concat_app, length_app. simpl. rewrite app_nil_r. done. Qed.

Lemma join_split k segs g h : segs !! k = Some g -> segs !! S k = Some h ->
  segs = take k segs ++ g :: h :: drop (S (S k)) segs /\ join_at k segs = take k segs ++ (g ++ h) :: drop (S (S k)) segs.
Proof.
  intros H1 H2. assert (E : segs = take k segs ++ g :: h :: drop (S (S k)) segs).
  { rewrite <- (take_drop k segs) at 1. by rewrite (drop_S _ _ _ H1), (drop_S _ _ _ H2). }
  split; [done|]. pose proof (lookup_lt_Some _ _ _ H1) as Hk. apply list_eq. intros x. rewrite (lookup_join k segs g h) by done.
  destruct (decide (x = k)) as [->|Hne]; [by rewrite list_lookup_middle by (rewrite length_take; lia)|].
  destruct (decide (x < k)%nat) as [Hlt|Hge].
  - rewrite lookup_app_l by (rewrite length_take; lia). by rewrite lookup_take_lt.
  - rewrite lookup_app_r by (rewrite length_take; lia). rewrite length_take, Nat.min_l by lia.
    destruct (x - k)%nat as [|d] eqn:Ed; [lia|]. simpl. rewrite lookup_drop. f_equal. lia.
Qed.

Lemma concat_join k segs g h : segs !! k = Some g -> segs !! S k = Some h -> concat (join_at k segs) = concat segs.
Proof.
  intros H1 H2. destruct (join_split k segs g h H1 H2) as [E1 E2]. rewrite E2. rewrite E1 at 3. rewrite !concat_app. simpl. by rewrite <- app_assoc.
Qed.

Lemma greedy_concat offer worse (Hirr : forall a : Z, worse a a = false) (Htr : forall a b c, worse a b = true -> worse b c = true -> worse a c = true)
  (Htot : forall a b, worse a b = false -> worse b a = false -> a = b) segs : concat (greedy offer worse segs) = concat segs.
Proof.
  unfold greedy. generalize (length segs) as n. intros n. revert segs. induction n as [|n IH]; intros segs; [done|]. cbn [greedy_n].
  pose proof (best_pair_spec offer worse Hirr Htr Htot segs) as Hb. destruct (best_pair offer worse segs) as [[k key]|]; [|done].
  destruct Hb as [(g & h & Hg & Hh & _) _]. by rewrite IH, (concat_join k segs g h).
Qed.

(** The parts of the reference are groups of the parts it starts from: single
    ones, and groups that were offered. *)
Definition group_ok (offer : list Z -> list Z -> option Z) (cs : list (list Z)) : Prop :=
  (exists c, cs = [c]) \/ (cs <> [] /\ exists g h, concat cs = g ++ h /\ is_Some (offer g h)).

Lemma greedy_groups offer worse (Hirr : forall a : Z, worse a a = false) (Htr : forall a b c, worse a b = true -> worse b c = true -> worse a c = true)
  (Htot : forall a b, worse a b = false -> worse b a = false -> a = b) segs :
  exists css, greedy offer worse segs = map (@concat Z) css /\ concat css = segs /\ Forall (group_ok offer) css.
Proof.
  assert (H : forall n css, Forall (group_ok offer) css -> exists css', greedy_n offer worse n (map (@concat Z) css) = map (@concat Z) css' /\ concat css' = concat css /\ Forall (group_ok offer) css').
  { induction n as [|n IH]; intros css Hok; [by exists css|]. cbn [greedy_n]. pose proof (best_pair_spec offer worse Hirr Htr Htot (map (@concat Z) css)) as Hb.
    destruct (best_pair offer worse (map (@concat Z) css)) as [[k key]|]; [|by exists css]. destruct Hb as [(g & h & Hg & Hh & Ho) _].
    destruct (join_split k _ g h Hg Hh) as [_ ->]. apply list_lookup_fmap_Some in Hg as (c1 & -> & Hc1), Hh as (c2 & -> & Hc2).
    assert (E : css = take k css ++ c1 :: c2 :: drop (S (S k)) css) by (rewrite <- (drop_S _ _ _ Hc2), <- (drop_S _ _ _ Hc1); by rewrite take_drop).
    destruct (IH (take k css ++ (c1 ++ c2) :: drop (S (S k)) css)) as (css' & E1 & E2 & E3).
    - rewrite E in Hok. apply Forall_app in Hok as [H1 H2]. apply Forall_app. split; [done|]. apply Forall_cons in H2 as [G1 [_ H2]%Forall_cons]. constructor; [|done].
      right. split; [destruct G1 as [[c ->]|[Hne _]]; [done|by destruct c1]|]. exists (concat c1), (concat c2). by rewrite concat_app.
    - exists css'. split; [|split; [|done]].
      + rewrite <- E1. f_equal. rewrite map_app. cbn [map]. by rewrite concat_app, <- fmap_take, <- fmap_drop.
      + rewrite E2. rewrite E at 3. rewrite !concat_app. cbn [concat]. by rewrite <- !app_assoc. }
  destruct (H (length segs) (map (fun c => [c]) segs)) as (css & E1 & E2 & E3).
  - apply Forall_forall. intros cs (c & -> & _)%list_elem_of_fmap. left. by exists c.
  - assert (Hs : map (@concat Z) (map (fun c : list Z => [c]) segs) = segs) by (rewrite map_map; rewrite <- (map_id segs) at 2; apply map_ext; intros; apply app_nil_r).
    assert (Hc : concat (map (fun c : list Z => [c]) segs) = segs) by (clear; induction segs as [|g segs IH]; [done|]; simpl; by rewrite IH).
    exists css. rewrite Hs in E1. rewrite Hc in E2. done.
Qed.

Lemma seg_off_join k segs g h x : segs !! k = Some g -> segs !! S k = Some h ->
  seg_off (join_at k segs) x = if decide (x <= k)%nat then seg_off segs x else seg_off segs (S x).
Proof.
  intros H1 H2. destruct (join_split k segs g h H1 H2) as [E1 E2]. pose proof (lookup_lt_Some _ _ _ H1) as Hk. unfold seg_off. rewrite E2.
  assert (Hl : length (take k segs) = k) by (rewrite length_take; lia). destruct (decide (x <= k)%nat) as [Hle|Hgt].
  - rewrite take_app_le by lia. rewrite take_take. by rewrite Nat.min_l by lia.
  - destruct (x - k)%nat as [|d] eqn:Ed; [lia|].
    assert (E3 : take (S x) segs = take k segs ++ g :: h :: take d (drop (S (S k)) segs)).
    { rewrite E1 at 1. rewrite take_app_ge by lia. rewrite Hl. by replace (S x - k)%nat with (S (S d)) by lia. }
    rewrite E3, take_app_ge by lia. rewrite Hl, Ed. simpl. rewrite !concat_app. simpl. by rewrite <- app_assoc.
Qed.

Lemma sub_off word segs k g : word = concat segs -> segs !! k = Some g -> Sym.sub word (seg_off segs k) (length g) = Ret g.
Proof.
  intros -> H. unfold Sym.sub, seg_off. assert (E : concat segs = concat (take k segs) ++ g ++ concat (drop (S k) segs)).
  { rewrite <- (take_drop k segs) at 1. rewrite (drop_S _ _ _ H), concat_app. done. }
  rewrite E. rewrite !length_app, (proj2 (Nat.leb_le _ _)) by lia. by rewrite drop_app_length, take_app_length.
Qed.

Lemma sub_pair word segs k g h : word = concat segs -> segs !! k = Some g -> segs !! S k = Some h ->
  Sym.sub word (seg_off segs k) (length g + length h) = Ret (g ++ h).
Proof.
  intros Hw H1 H2. pose proof (sub_off word (join_at k segs) k (g ++ h)) as H. rewrite length_app, (concat_join k segs g h H1 H2) in H.
  rewrite (seg_off_join k segs g h k H1 H2), decide_True in H by lia. apply H; [done|]. rewrite (lookup_join k segs g h) by done. by rewrite decide_True.
Qed.

(** ** Linked symbols *)

Definition prev_of alive k : Z := match k with O => -1 | S k => from_option Z.of_nat (-1) (alive !! k) end.
Definition next_of alive k : Z := from_option Z.of_nat (-1) (alive !! S k).

(** The symbols [alive], in order, hold the parts [segs] of the word; the others
    hold nothing. *)
Record linked syms alive segs : Prop := {
  lk_len : length alive = length segs;
  lk_sym k i g : alive !! k = Some i -> segs !! k = Some g ->
    syms !! i = Some (mk_symbol (prev_of alive k) (next_of alive k) (seg_off segs k) (length g));
  lk_full g : g ∈ segs -> g <> [];
  lk_sorted k1 k2 i1 i2 : alive !! k1 = Some i1 -> alive !! k2 = Some i2 -> (k1 < k2)%nat -> (i1 < i2)%nat;
  lk_dead x s : syms !! x = Some s -> x ∈ alive \/ sy_n s = 0%nat;
}.

Lemma linked_inj syms alive segs k1 k2 i : linked syms alive segs -> alive !! k1 = Some i -> alive !! k2 = Some i -> k1 = k2.
Proof.
  intros Hl H1 H2. destruct (Nat.lt_trichotomy k1 k2) as [H|[H|H]]; [|done|];
    [pose proof (lk_sorted _ _ _ Hl _ _ _ _ H1 H2 H)|pose proof (lk_sorted _ _ _ Hl _ _ _ _ H2 H1 H)]; lia.
Qed.

Lemma linked_seg syms alive segs k i : linked syms alive segs -> alive !! k = Some i -> exists g, segs !! k = Some g.
Proof. intros Hl H. apply lookup_lt_is_Some. rewrite <- (lk_len _ _ _ Hl). by eapply lookup_lt_Some. Qed.

Lemma full_pos syms alive segs k g : linked syms alive segs -> segs !! k = Some g -> (0 < length g)%nat.
Proof.
  intros Hl H. assert (Hne : g <> []) by (apply (lk_full _ _ _ Hl); by eapply list_elem_of_lookup_2). destruct g; [done|simpl; lia].
Qed.

(** An offset determines the part. *)
Lemma seg_off_lt syms alive segs k1 k2 g : linked syms alive segs -> segs !! k1 = Some g -> (k1 < k2)%nat -> (k2 <= length segs)%nat ->
  (seg_off segs k1 < seg_off segs k2)%nat.
Proof.
  intros Hl H1 Hlt Hle. induction k2 as [|k2 IH]; [lia|]. destruct (lookup_lt_is_Some_2 segs k2 ltac:(lia)) as [g2 H2].
  pose proof (full_pos _ _ _ _ _ Hl H2). rewrite (seg_off_S segs k2 g2) by done.
  destruct (decide (k1 = k2)) as [->|Hne]; [lia|]. specialize (IH ltac:(lia) ltac:(lia)). lia.
Qed.

(** There are no more parts than symbols. *)
Lemma linked_length syms alive segs : linked syms alive segs -> (length segs <= length syms)%nat.
Proof.
  intros Hl. rewrite <- (lk_len _ _ _ Hl).
  assert (Hnd : NoDup alive) by (apply NoDup_alt; intros x y i Hx Hy; by apply (linked_inj _ _ _ _ _ _ Hl Hx Hy)).
  assert (Hsub : alive ⊆ seq 0 (length syms)).
  { intros i Hi. apply list_elem_of_lookup in Hi as [k Hk]. destruct (linked_seg _ _ _ _ _ Hl Hk) as [g Hg].
    pose proof (lk_sym _ _ _ Hl k i g Hk Hg) as Hs. apply lookup_lt_Some in Hs. apply elem_of_seq. lia. }
  pose proof (submseteq_length _ _ (NoDup_submseteq _ _ Hnd Hsub)) as Hle. by rewrite length_seq in Hle.
Qed.

(** *** Merging *)

Definition merged syms i j : nat -> llm_symbol -> llm_symbol := fun x s =>
  match syms !! j with
  | Some r =>
      if decide (x = i) then mk_symbol (sy_prev s) (sy_next r) (sy_text s) (sy_n s + sy_n r)
      else if decide (x = j) then Sym.set_n 0 s
      else if decide (Z.of_nat x = sy_next r) then Sym.set_prev (Z.of_nat i) s
      else s
  | None => s
  end.

Lemma update_lookup syms i f s : syms !! i = Some s -> Sym.update syms i f = Ret (<[i := f s]> syms).
Proof.
  intros H. unfold Sym.update. rewrite (proj2 (at_Ret _ _ _) H). cbn [mbind outcome_bind]. unfold set_. rewrite decide_True; [done|by eapply lookup_lt_Some].
Qed.

Lemma merge_lookup syms i j l r : syms !! i = Some l -> syms !! j = Some r -> i <> j -> sy_next r <> Z.of_nat i -> sy_next r <> Z.of_nat j ->
  (sy_next r = -1 \/ exists x s, sy_next r = Z.of_nat x /\ syms !! x = Some s) ->
  exists syms', Sym.merge syms i j = Ret syms' /\ forall x, syms' !! x = merged syms i j x <$> syms !! x.
Proof.
  intros Hi Hj Hij H1 H2 Hn. pose proof (lookup_lt_Some _ _ _ Hi) as Hil. pose proof (lookup_lt_Some _ _ _ Hj) as Hjl.
  unfold Sym.merge. rewrite (proj2 (at_Ret _ _ _) Hj). cbn [mbind outcome_bind].
  rewrite (update_lookup syms i _ l) by done. cbn [mbind outcome_bind]. rewrite (update_lookup _ j _ r) by by rewrite list_lookup_insert_ne.
  cbn [mbind outcome_bind]. rewrite (update_lookup _ i _ (Sym.set_n (sy_n l + sy_n r) l)) by (rewrite list_lookup_insert_ne by done; by apply list_lookup_insert_eq).
  cbn [mbind outcome_bind]. set (s3 := <[i := _]> _).
  assert (H3 : forall x, s3 !! x = if decide (x = i) then Some (mk_symbol (sy_prev l) (sy_next r) (sy_text l) (sy_n l + sy_n r))
    else if decide (x = j) then Some (Sym.set_n 0 r) else syms !! x).
  { intros x. unfold s3. destruct (decide (x = i)) as [->|Hxi]; [by rewrite list_lookup_insert_eq by (rewrite !length_insert; lia)|].
    rewrite list_lookup_insert_ne by done. destruct (decide (x = j)) as [->|Hxj]; [by rewrite list_lookup_insert_eq by (rewrite !length_insert; lia)|].
    by rewrite !list_lookup_insert_ne. }
  assert (Hfin : forall x, sy_next r <> Z.of_nat x -> s3 !! x = merged syms i j x <$> syms !! x).
  { intros x Hx. rewrite H3. unfold merged. rewrite Hj. destruct (decide (x = i)) as [->|]; [by rewrite Hi|].
    destruct (decide (x = j)) as [->|]; [by rewrite Hj|]. destruct (syms !! x) as [s|]; [|done]. simpl. by rewrite decide_False by done. }
  destruct Hn as [Hn|(y & s & Hn & Hy)].
  - rewrite Hn. cbn [Z.leb Z.compare]. exists s3. split; [done|]. intros x. apply Hfin. lia.
  - rewrite Hn, (proj2 (Z.leb_le _ _)), Nat2Z.id by lia. assert (Hyi : y <> i) by (intros ->; done). assert (Hyj : y <> j) by (intros ->; done).
    rewrite (update_lookup s3 y _ s) by (rewrite H3, !decide_False by done; done). eexists. split; [reflexivity|]. intros x.
    destruct (decide (x = y)) as [->|Hne].
    + rewrite list_lookup_insert_eq; [|by unfold s3; rewrite !length_insert; eapply lookup_lt_Some].
      rewrite Hy. unfold merged. simpl. rewrite Hj, (decide_False (P := y = i)), (decide_False (P := y = j)), decide_True by done. done.
    + rewrite list_lookup_insert_ne by done. apply Hfin. lia.
Qed.

(** Symbols only grow or disappear. *)
Definition grown syms syms' : Prop := forall x s, syms !! x = Some s -> exists s', syms' !! x = Some s' /\ sy_text s' = sy_text s
  /\ (sy_n s' = 0%nat \/ (0 < sy_n s <= sy_n s')%nat).

Lemma linked_merge syms alive segs k i j g h : linked syms alive segs -> alive !! k = Some i -> alive !! S k = Some j ->
  segs !! k = Some g -> segs !! S k = Some h ->
  exists syms', Sym.merge syms i j = Ret syms' /\ linked syms' (delete (S k) alive) (join_at k segs) /\ grown syms syms' /\ length syms' = length syms.
Proof.
  intros Hl Hi Hj Hg Hh. pose proof (lk_sorted _ _ _ Hl k (S k) i j Hi Hj ltac:(lia)) as Hij.
  pose proof (lk_sym _ _ _ Hl k i g Hi Hg) as Hsi. pose proof (lk_sym _ _ _ Hl (S k) j h Hj Hh) as Hsj.
  assert (Hnext : forall y, alive !! S (S k) = Some y -> (j < y)%nat) by (intros y Hy; apply (lk_sorted _ _ _ Hl (S k) (S (S k))); [done|done|lia]).
  destruct (merge_lookup syms i j _ _ Hsi Hsj) as (syms' & E & Hs'); [lia| | | |].
  { unfold next_of; simpl. destruct (alive !! S (S k)) as [y|] eqn:Ey; simpl; [specialize (Hnext y eq_refl); lia|lia]. }
  { unfold next_of; simpl. destruct (alive !! S (S k)) as [y|] eqn:Ey; simpl; [specialize (Hnext y eq_refl); lia|lia]. }
  { unfold next_of; simpl. destruct (alive !! S (S k)) as [y|] eqn:Ey; simpl; [right|by left].
    destruct (linked_seg _ _ _ _ _ Hl Ey) as [g' Hg']. eexists _, _. split; [done|]. by apply (lk_sym _ _ _ Hl (S (S k)) y g'). }
  exists syms'. split; [done|]. unfold merged in Hs'. rewrite Hsj in Hs'. cbn [sy_next] in Hs'.
  assert (Hlk : forall x, delete (S k) alive !! x = if decide (x <= k)%nat then alive !! x else alive !! S x).
  { intros x. destruct (decide (x <= k)%nat); [by rewrite list_lookup_delete_lt by lia|by rewrite list_lookup_delete_ge by lia]. }
  split; [|split].
  - constructor.
    + pose proof (length_join k segs g h Hg Hh). rewrite length_delete by done. rewrite (lk_len _ _ _ Hl). lia.
    + intros x y g' Hy Hg'. rewrite Hlk in Hy. rewrite (lookup_join k segs g h) in Hg' by done. rewrite (seg_off_join k segs g h) by done.
      unfold next_of, prev_of. rewrite (Hlk (S x)). rewrite Hs'. destruct (decide (x = k)) as [->|Hxk].
      * rewrite decide_True in Hy by lia. rewrite (decide_True (P := (k <= k)%nat)) by lia. assert (y = i) as -> by congruence. injection Hg' as <-.
        rewrite Hsi. simpl. rewrite decide_True by done. rewrite decide_False by lia. rewrite length_app. unfold prev_of. do 2 f_equal.
        destruct k as [|k']; [done|]. rewrite Hlk. by rewrite decide_True by lia.
      * destruct (decide (x <= k)%nat) as [Hle|Hgt].
        -- rewrite decide_True in Hg' by lia. rewrite (lk_sym _ _ _ Hl x y g' Hy Hg'). simpl.
           assert (Hyi : (y < i)%nat) by (apply (lk_sorted _ _ _ Hl x k); [done|done|lia]).
           rewrite decide_False, decide_False by lia. rewrite decide_False.
           2: { unfold next_of. destruct (alive !! S (S k)) as [z|] eqn:Ez; simpl; [specialize (Hnext z eq_refl); lia|lia]. }
           f_equal. unfold next_of, prev_of. rewrite decide_True by lia. f_equal. destruct x as [|x']; [done|]. rewrite Hlk. by rewrite decide_True by lia.
        -- rewrite decide_False in Hg' by lia. rewrite (lk_sym _ _ _ Hl (S x) y g' Hy Hg'). cbn [fmap option_fmap option_map].
           assert (Hyj : (j < y)%nat) by (apply (lk_sorted _ _ _ Hl (S k) (S x)); [done|done|lia]).
           rewrite decide_False, decide_False by lia. rewrite (decide_False (P := (S x <= k)%nat)) by lia. destruct x as [|x']; [lia|]. rewrite Hlk.
           destruct (decide (x' = k)) as [->|Hne].
           ++ rewrite (decide_True (P := (k <= k)%nat)) by lia. rewrite decide_True by (unfold next_of; by rewrite Hy). by rewrite Hi.
           ++ rewrite (decide_False (P := (x' <= k)%nat)) by lia. rewrite decide_False; [done|]. unfold next_of.
              destruct (alive !! S (S k)) as [z|] eqn:Ez; simpl; [|lia]. intros E2. assert (z = y) as -> by lia.
              pose proof (linked_inj _ _ _ _ _ _ Hl Ez Hy). lia.
    + intros g' Hg'. apply list_elem_of_lookup in Hg' as [x Hx]. rewrite (lookup_join k segs g h) in Hx by done.
      pose proof (full_pos _ _ _ _ _ Hl Hg) as Hp. destruct (decide (x = k)); [injection Hx as <-; destruct g; simpl in Hp; [lia|done]|].
      destruct (decide (x < k)%nat); apply (lk_full _ _ _ Hl); by eapply list_elem_of_lookup_2.
    + intros k1 k2 i1 i2 H1 H2 Hlt. rewrite Hlk in H1, H2. destruct (decide (k1 <= k)%nat), (decide (k2 <= k)%nat); try lia;
        (eapply (lk_sorted _ _ _ Hl); [exact H1|exact H2|lia]).
    + intros x s Hx. rewrite Hs' in Hx. destruct (syms !! x) as [s0|] eqn:E0; [|done]. injection Hx as <-.
      destruct (decide (x = i)) as [->|Hxi].
      { left. apply list_elem_of_lookup. exists k. by rewrite Hlk, decide_True by lia. }
      destruct (decide (x = j)) as [->|Hxj]; [by right|].
      destruct (lk_dead _ _ _ Hl x s0 E0) as [Hin|Hn]; [left|right; by destruct (decide _)].
      apply list_elem_of_lookup in Hin as [y Hy]. apply list_elem_of_lookup. destruct (decide (y <= k)%nat) as [Hle|Hgt].
      * exists y. by rewrite Hlk, decide_True.
      * exists (y - 1)%nat. assert (y <> S k) by (intros ->; congruence). rewrite Hlk, decide_False by lia. by replace (S (y - 1)) with y by lia.
  - intros x s Hx. rewrite Hs', Hx. cbn [fmap option_fmap option_map]. eexists. split; [reflexivity|].
    pose proof (full_pos _ _ _ _ _ Hl Hg). destruct (decide (x = i)) as [->|]; [rewrite Hsi in Hx; injection Hx as <-; simpl; split; [done|right; lia]|].
    destruct (decide (x = j)); [split; [done|by left]|].
    destruct (decide (Z.of_nat x = _)); (split; [done|simpl; destruct (sy_n s); [by left|right; lia]]).
  - destruct (Nat.lt_trichotomy (length syms') (length syms)) as [H|[H|H]]; [|done|]; exfalso.
    + destruct (lookup_lt_is_Some_2 syms (length syms') H) as [s E0]. pose proof (Hs' (length syms')) as H0. rewrite E0, lookup_ge_None_2 in H0 by lia. done.
    + destruct (lookup_lt_is_Some_2 syms' (length syms) H) as [s E0]. pose proof (Hs' (length syms)) as H0. rewrite E0, lookup_ge_None_2 in H0 by lia. done.
Qed.

(** ** The characters of a word *)

Definition char_len word c : nat := Nat.min (Z.to_nat (Unicode.unicode_len_utf8 c)) (length word).

Fixpoint chars_n (n : nat) word : list (list Z) :=
  match n, word with
  | S n, c :: _ => take (char_len word c) word :: chars_n n (drop (char_len word c) word)
  | _, _ => []
  end.
Definition chars word : list (list Z) := chars_n (length word) word.

Definition is_bytes word : Prop := Forall (fun c => 0 <= c < 256) word.

Lemma len_utf8_pos c : 0 <= c < 256 -> 1 <= Unicode.unicode_len_utf8 c <= 4.
Proof.
  intros Hc. unfold Unicode.unicode_len_utf8. assert (H : Forall (fun z => 1 <= z <= 4) Unicode.len_lookup) by (repeat constructor; lia).
  assert (Hi : (Z.to_nat (Z.shiftr c 4) < length Unicode.len_lookup)%nat).
  { rewrite Z.shiftr_div_pow2 by lia. assert (c / 2 ^ 4 < 16) by (apply Z.div_lt_upper_bound; lia). unfold Unicode.len_lookup. simpl length. lia. }
  apply Forall_nth; done.
Qed.

Lemma char_len_pos word c : 0 <= c < 256 -> word <> [] -> (1 <= char_len word c <= length word)%nat.
Proof. intros Hc Hw. pose proof (len_utf8_pos c Hc). unfold char_len. destruct word; [done|]. simpl length. lia. Qed.

Lemma chars_n_enough n : forall word, is_bytes word -> (length word <= n)%nat -> chars_n n word = chars word.
Proof.
  assert (H : forall n m word, is_bytes word -> (length word <= n)%nat -> (length word <= m)%nat -> chars_n n word = chars_n m word).
  { clear n. induction n as [|n IH]; intros m word Hb Hn Hm; [destruct word; [by destruct m|simpl in Hn; lia]|].
    destruct m as [|m]; [destruct word; [done|simpl in Hm; lia]|]. destruct word as [|c word]; [done|]. cbn [chars_n]. f_equal.
    pose proof (Forall_inv Hb) as Hc. pose proof (char_len_pos (c :: word) c Hc ltac:(done)). apply IH; [by apply Forall_drop|rewrite length_drop; lia..]. }
  intros word Hb Hn. by apply H.
Qed.

Lemma chars_step c word : is_bytes (c :: word) -> chars (c :: word) = take (char_len (c :: word) c) (c :: word) :: chars (drop (char_len (c :: word) c) (c :: word)).
Proof.
  intros Hb. unfold chars at 1. cbn [length chars_n]. f_equal. pose proof (Forall_inv Hb) as Hc. pose proof (char_len_pos (c :: word) c Hc ltac:(done)) as Hl.
  apply chars_n_enough; [by apply Forall_drop|]. rewrite length_drop. simpl in *. lia.
Qed.

Lemma chars_ind (P : list Z -> list (list Z) -> Prop) : P [] [] ->
  (forall c word, is_bytes (c :: word) -> P (drop (char_len (c :: word) c) (c :: word)) (chars (drop (char_len (c :: word) c) (c :: word))) -> P (c :: word) (chars (c :: word))) ->
  forall word, is_bytes word -> P word (chars word).
Proof.
  intros H0 Hs word. remember (length word) as n eqn:En. revert word En. induction (lt_wf n) as [n _ IH]. intros word En Hb. destruct word as [|c word]; [done|].
  apply Hs; [done|]. pose proof (Forall_inv Hb) as Hc. pose proof (char_len_pos (c :: word) c Hc ltac:(done)) as Hl.
  eapply IH; [|reflexivity|by apply Forall_drop]. rewrite length_drop, En. lia.
Qed.

Lemma concat_chars word : is_bytes word -> concat (chars word) = word.
Proof.
  intros Hb. apply (chars_ind (fun w cs => concat cs = w)); [done| |done]. clear. intros c word Hb IH. rewrite chars_step by done. cbn [concat]. rewrite IH. apply take_drop.
Qed.

Lemma chars_full word g : is_bytes word -> g ∈ chars word -> g <> [].
Proof.
  intros Hb. revert g. apply (chars_ind (fun w cs => forall g, g ∈ cs -> g <> [])); [by intros g H%elem_of_nil| |done]. clear. intros c word Hb IH g. rewrite chars_step by done.
  intros [->|H]%elem_of_cons; [|by apply IH]. pose proof (char_len_pos (c :: word) c (Forall_inv Hb) ltac:(done)). intros E. apply (f_equal length) in E. rewrite length_take in E. simpl length in *. lia.
Qed.

Lemma split_ok word fuel : is_bytes word -> forall rest offset index, rest = drop offset word -> (offset <= length word)%nat -> (length rest <= fuel)%nat ->
  exists syms, Sym.split fuel word offset index = Ret syms /\ length syms = length (chars rest)
  /\ forall k g, chars rest !! k = Some g -> syms !! k = Some (mk_symbol (index + Z.of_nat k - 1) (if (S k =? length (chars rest))%nat then -1 else index + Z.of_nat k + 1)
       (offset + seg_off (chars rest) k) (length g)).
Proof.
  intros Hb. induction fuel as [|fuel IH]; intros rest offset index -> Ho Hf; rewrite length_drop in Hf; cbn [Sym.split].
  - rewrite (proj2 (Nat.ltb_ge _ _)) by lia. exists []. rewrite drop_ge by lia. done.
  - destruct (Nat.ltb_spec offset (length word)) as [Hlt|Hge]; [|exists []; rewrite drop_ge by lia; done].
    destruct (lookup_lt_is_Some_2 word offset Hlt) as [c Hc]. rewrite (proj2 (at_Ret _ _ _) Hc). cbn [mbind outcome_bind]. cbv zeta.
    assert (Hbr : is_bytes (drop offset word)) by by apply Forall_drop. rewrite (drop_S _ _ _ Hc) in *.
    assert (Hlen : length (c :: drop (S offset) word) = (length word - offset)%nat) by (simpl; rewrite length_drop; lia).
    set (n := char_len (c :: drop (S offset) word) c).
    assert (En : Nat.min (Z.to_nat (Unicode.unicode_len_utf8 c)) (length word - offset) = n) by (unfold n, char_len; by rewrite Hlen). rewrite En.
    pose proof (char_len_pos (c :: drop (S offset) word) c (Forall_inv Hbr) ltac:(done)) as Hn. fold n in Hn. rewrite Hlen in Hn.
    assert (Hrest : drop n (c :: drop (S offset) word) = drop (offset + n) word) by by rewrite <- (drop_S _ _ _ Hc), drop_drop.
    destruct (IH (drop (offset + n) word) (offset + n)%nat (index + 1)) as (syms & E & Hl & Hs); [done|lia|rewrite length_drop; lia|].
    rewrite E. cbn [mbind outcome_bind]. eexists. split; [reflexivity|]. rewrite (chars_step c) by done. fold n. rewrite Hrest. split; [simpl; by rewrite Hl|].
    assert (Hnil : (offset + n =? length word)%nat = (1 =? S (length (chars (drop (offset + n) word))))%nat).
    { destruct (Nat.eqb_spec (offset + n) (length word)) as [En2|En2]; symmetry.
      - rewrite En2, drop_all. done.
      - apply Nat.eqb_neq. intros E1. assert (E2 : chars (drop (offset + n) word) = []) by (apply nil_length_inv; lia).
        pose proof (concat_chars (drop (offset + n) word) (Forall_drop _ _ _ Hb)) as E3. rewrite E2 in E3. apply (f_equal length) in E3. rewrite length_drop in E3. simpl in E3. lia. }
    intros [|k] g Hk.
    + injection Hk as <-. cbn [lookup list_lookup length]. do 2 f_equal; [lia| |unfold seg_off; simpl; lia|].
      * rewrite <- Hnil. replace (offset + n =? length word)%nat with (offset + n =? length word)%nat by done. destruct (_ =? _)%nat; lia.
      * rewrite length_take. lia.
    + change ((mk_symbol (index - 1) _ offset _ :: syms) !! S k) with (syms !! k). rewrite (Hs k g Hk). do 2 f_equal.
      * lia.
      * cbn [length]. destruct (Nat.eqb_spec (S k) (length (chars (drop (offset + n) word)))), (Nat.eqb_spec (S (S k)) (S (length (chars (drop (offset + n) word))))); lia.
      * unfold seg_off. cbn [take concat]. rewrite length_app, length_take. lia.
Qed.

Lemma split_linked word : is_bytes word -> exists syms, Sym.split (length word) word 0 0 = Ret syms /\ length syms = length (chars word)
  /\ linked syms (seq 0 (length (chars word))) (chars word).
Proof.
  intros Hb. destruct (split_ok word (length word) Hb word 0%nat 0 eq_refl ltac:(lia) ltac:(lia)) as (syms & E & Hl & Hs). exists syms. split; [done|]. split; [done|].
  constructor.
  - by rewrite length_seq.
  - intros k i g [-> Hk]%lookup_seq Hg. cbn [Nat.add]. rewrite (Hs k g Hg). do 2 f_equal.
    + unfold prev_of. destruct k as [|k]; [done|]. rewrite lookup_seq_lt by lia. simpl. lia.
    + unfold next_of. destruct (Nat.eqb_spec (S k) (length (chars word))) as [Ek|Ek].
      * rewrite lookup_seq_ge by lia. done.
      * rewrite lookup_seq_lt by lia. simpl. lia.
  - intros g. by apply chars_full.
  - intros k1 k2 i1 i2 [-> _]%lookup_seq [-> _]%lookup_seq. lia.
  - intros x s Hx. left. apply elem_of_seq. apply lookup_lt_Some in Hx. lia.
Qed.
