(* ===== verification/MergeQueue.v ===== *)
(** * The queue of the merging tokenizers. *)

From S2P Require Import Prelude Utf8 Utf8Facts Vocabulary MergeFacts.
From Stdlib Require Import Lia.

Implicit Types (word g h : list Z) (segs : list (list Z)) (syms : list llm_symbol) (alive : list nat) (i j k : nat).

(** ** Priority queues *)

Lemma pop_spec {A} (less : A -> A -> bool) (Hirr : forall x, less x x = false)
  (Htr : forall x y z, less x y = true -> less y z = true -> less x z = true)
  (Hneg : forall x y z, less x z = true -> less x y = true \/ less y z = true) (q : list A) :
  match Sym.pop less q with
  | None => q = []
  | Some (x, r) => q ≡ₚ x :: r /\ forall y, y ∈ q -> less x y = false
  end.
Proof.
  induction q as [|x q IH]; [done|]. cbn [Sym.pop]. destruct (Sym.pop less q) as [[y r]|].
  - destruct IH as [Hp Hmax]. destruct (less x y) eqn:E.
    + split; [rewrite Hp; by constructor|]. intros z [->|Hz]%elem_of_cons; [|by apply Hmax].
      destruct (less y x) eqn:E2; [|done]. rewrite <- (Hirr x). symmetry. by apply (Htr x y x).
    + split; [by rewrite Hp|]. intros z [->|Hz]%elem_of_cons; [done|]. destruct (less x z) eqn:E2; [|done]. exfalso.
      specialize (Hmax z Hz). destruct (Hneg x y z E2); congruence.
  - subst q. split; [done|]. intros z ->%list_elem_of_singleton. apply Hirr.
Qed.

(** ** Entries *)

(** What both kinds of bigrams hold. *)
Record entry := mk_entry { en_left : Z; en_right : Z; en_key : Z; en_size : nat }.

Lemma ltb_tr (a b c : Z) : (a <? b) = true -> (b <? c) = true -> (a <? c) = true.
Proof. rewrite !Z.ltb_lt. lia. Qed.
Lemma ltb_tot (a b : Z) : (a <? b) = false -> (b <? a) = false -> a = b.
Proof. rewrite !Z.ltb_ge. lia. Qed.

Section Queue.
Context (offer : list Z -> list Z -> option Z) (worse : Z -> Z -> bool) (word : list Z).

(** The comparators: the worse key, and for the same key the pair further to the right, comes later. *)
Definition later (l r : entry) : bool := worse (en_key l) (en_key r) || ((en_key l =? en_key r) && (en_left r <? en_left l)).

(** The entry describes two neighbours as they were when it was made. *)
Definition seen syms (e : entry) : Prop := exists i j si sj nl nr g h,
  en_left e = Z.of_nat i /\ en_right e = Z.of_nat j /\ syms !! i = Some si /\ syms !! j = Some sj
  /\ en_size e = (nl + nr)%nat /\ (0 < nl)%nat /\ (0 < nr)%nat /\ sy_text sj = (sy_text si + nl)%nat
  /\ (sy_n si = 0%nat \/ (nl <= sy_n si)%nat) /\ (sy_n sj = 0%nat \/ (nr <= sy_n sj)%nat)
  /\ Sym.sub word (sy_text si) nl = Ret g /\ Sym.sub word (sy_text sj) nr = Ret h /\ offer g h = Some (en_key e).

Definition fresh syms (e : entry) : Prop := exists i j si sj,
  en_left e = Z.of_nat i /\ en_right e = Z.of_nat j /\ syms !! i = Some si /\ syms !! j = Some sj
  /\ sy_n si <> 0%nat /\ sy_n sj <> 0%nat /\ (sy_n si + sy_n sj)%nat = en_size e.

(** The entry of pair [k]. *)
Definition pair_entry alive segs k : option entry :=
  i ← alive !! k; j ← alive !! S k; g ← segs !! k; h ← segs !! S k; key ← offer g h;
  Some (mk_entry (Z.of_nat i) (Z.of_nat j) key (length g + length h)).

Record queue_ok syms alive segs (q : list entry) : Prop := {
  qo_seen e : e ∈ q -> seen syms e;
  qo_pairs k e : pair_entry alive segs k = Some e -> e ∈ q;
}.

Lemma pair_entry_Some alive segs k e : pair_entry alive segs k = Some e -> exists i j g h, alive !! k = Some i /\ alive !! S k = Some j
  /\ segs !! k = Some g /\ segs !! S k = Some h /\ offer g h = Some (en_key e) /\ e = mk_entry (Z.of_nat i) (Z.of_nat j) (en_key e) (length g + length h).
Proof.
  unfold pair_entry. destruct (alive !! k) as [i|]; [|done]. destruct (alive !! S k) as [j|]; [|done].
  destruct (segs !! k) as [g|]; [|done]. destruct (segs !! S k) as [h|]; [|done]. cbn [mbind option_bind].
  destruct (offer g h) as [key|] eqn:E; [|done]. intros [= <-]. by exists i, j, g, h.
Qed.

Lemma seen_grown syms syms' e : grown syms syms' -> seen syms e -> seen syms' e.
Proof.
  intros Hg (i & j & si & sj & nl & nr & g & h & H1 & H2 & Hi & Hj & Hs & Hnl & Hnr & Ht & H3 & H4 & H5 & H6 & H7).
  destruct (Hg i si Hi) as (si' & Hi' & E1 & G1). destruct (Hg j sj Hj) as (sj' & Hj' & E2 & G2).
  exists i, j, si', sj', nl, nr, g, h. rewrite E1, E2. split_and!; try done; lia.
Qed.

(** An entry that is not outdated is that of a pair of neighbours. *)
Lemma fresh_pair syms alive segs e : linked syms alive segs -> concat segs = word -> seen syms e -> fresh syms e ->
  exists k, pair_entry alive segs k = Some e.
Proof.
  intros Hl Hw (i & j & si & sj & nl & nr & g & h & H1 & H2 & Hi & Hj & Hs & Hnl & Hnr & Ht & H3 & H4 & H5 & H6 & H7) (i' & j' & si' & sj' & F1 & F2 & Fi & Fj & N1 & N2 & N3).
  assert (i' = i) as -> by lia. assert (j' = j) as -> by lia. assert (si' = si) as -> by congruence. assert (sj' = sj) as -> by congruence.
  assert (En1 : sy_n si = nl) by lia. assert (En2 : sy_n sj = nr) by lia.
  destruct (lk_dead _ _ _ Hl i si Hi) as [Hin|?]; [|lia]. apply list_elem_of_lookup in Hin as [k Hk]. destruct (linked_seg _ _ _ _ _ Hl Hk) as [g' Hg'].
  destruct (lk_dead _ _ _ Hl j sj Hj) as [Hin|?]; [|lia]. apply list_elem_of_lookup in Hin as [k2 Hk2]. destruct (linked_seg _ _ _ _ _ Hl Hk2) as [h' Hh'].
  pose proof (lk_sym _ _ _ Hl k i g' Hk Hg') as S1. rewrite Hi in S1. injection S1 as S1.
  pose proof (lk_sym _ _ _ Hl k2 j h' Hk2 Hh') as S2. rewrite Hj in S2. injection S2 as S2.
  assert (T1 : sy_text si = seg_off segs k /\ sy_n si = length g') by (by rewrite S1).
  assert (T2 : sy_text sj = seg_off segs k2 /\ sy_n sj = length h') by (by rewrite S2). destruct T1 as [T1 L1], T2 as [T2 L2].
  assert (Eoff : seg_off segs k2 = seg_off segs (S k)) by (rewrite (seg_off_S segs k g') by done; lia).
  pose proof (lookup_lt_Some _ _ _ Hg') as Hk1l. pose proof (lookup_lt_Some _ _ _ Hh') as Hk2l.
  assert (k2 = S k) as ->.
  { destruct (Nat.lt_trichotomy k2 (S k)) as [H|[H|H]]; [|done|].
    - pose proof (seg_off_lt _ _ _ k2 (S k) h' Hl Hh' H ltac:(lia)). lia.
    - destruct (lookup_lt_is_Some_2 segs (S k) ltac:(lia)) as [y Hy]. pose proof (seg_off_lt _ _ _ (S k) k2 y Hl Hy H ltac:(lia)). lia. }
  exists k. unfold pair_entry. rewrite Hk, Hk2, Hg', Hh'. cbn [mbind option_bind].
  rewrite T1 in H5. rewrite T2 in H6. rewrite <- En1, L1, (sub_off word segs k g') in H5 by done. rewrite <- En2, L2, (sub_off word segs (S k) h') in H6 by done.
  injection H5 as <-. injection H6 as <-. rewrite H7. cbn [mbind option_bind]. destruct e as [l r key size]. simpl in *. do 2 f_equal; lia.
Qed.

Lemma pair_fresh syms alive segs k e : linked syms alive segs -> concat segs = word -> pair_entry alive segs k = Some e -> seen syms e /\ fresh syms e.
Proof.
  intros Hl Hw (i & j & g & h & Hi & Hj & Hg & Hh & Ho & ->)%pair_entry_Some.
  pose proof (lk_sym _ _ _ Hl k i g Hi Hg) as S1. pose proof (lk_sym _ _ _ Hl (S k) j h Hj Hh) as S2.
  pose proof (full_pos _ _ _ _ _ Hl Hg). pose proof (full_pos _ _ _ _ _ Hl Hh). split.
  - exists i, j. eexists _, _. exists (length g), (length h), g, h. split; [done|]. split; [done|]. split; [exact S1|]. split; [exact S2|].
    split; [done|]. split; [done|]. split; [done|]. simpl. split; [by apply seg_off_S|]. split; [by right|]. split; [by right|].
    split; [by apply sub_off|]. split; [by apply sub_off|done].
  - exists i, j. eexists _, _. split; [done|]. split; [done|]. split; [exact S1|]. split; [exact S2|]. simpl. split; [lia|]. split; [lia|done].
Qed.

(** A pair is not the pair of another index. *)
Lemma pair_entry_inj syms alive segs k1 k2 e : linked syms alive segs -> pair_entry alive segs k1 = Some e -> pair_entry alive segs k2 = Some e -> k1 = k2.
Proof.
  intros Hl (i & j & g & h & Hi & _ & _ & _ & _ & E1)%pair_entry_Some (i' & j' & g' & h' & Hi' & _ & _ & _ & _ & E2)%pair_entry_Some.
  assert (i = i') as <- by (apply Nat2Z.inj; congruence). by apply (linked_inj _ _ _ _ _ _ Hl Hi Hi').
Qed.

Lemma drop_stale syms alive segs q e r : linked syms alive segs -> concat segs = word -> queue_ok syms alive segs q -> q ≡ₚ e :: r -> ~ fresh syms e ->
  queue_ok syms alive segs r.
Proof.
  intros Hl Hw [H1 H2] Hp Hst. constructor.
  - intros x Hx. apply H1. rewrite Hp. by right.
  - intros k x Hx. pose proof (H2 k x Hx) as Hin. rewrite Hp in Hin. apply elem_of_cons in Hin as [->|Hin]; [|done].
    exfalso. by apply Hst, (pair_fresh syms alive segs k e).
Qed.

(** The other pairs stay as they are. *)
Lemma pair_entry_join alive segs k g h m j : segs !! k = Some g -> segs !! S k = Some h -> alive !! S k = Some j -> m <> k -> S m <> k ->
  pair_entry (delete (S k) alive) (join_at k segs) m = pair_entry alive segs (if decide (m < k)%nat then m else S m).
Proof.
  intros Hg Hh Hj H1 H2.
  assert (Ha : forall x : nat, x <> S k -> delete (S k) alive !! (if decide (x <= k)%nat then x else pred x) = alive !! x).
  { intros x Hx. destruct (decide (x <= k)%nat); [by rewrite list_lookup_delete_lt by lia|]. rewrite list_lookup_delete_ge by lia. f_equal. lia. }
  assert (Hs : forall x : nat, x <> S k -> x <> k -> join_at k segs !! (if decide (x <= k)%nat then x else pred x) = segs !! x).
  { intros x Hx Hk. rewrite (lookup_join k segs g h) by done. destruct (decide (x <= k)%nat).
    - rewrite decide_False by done. by rewrite decide_True by lia.
    - rewrite decide_False by lia. rewrite decide_False by lia. f_equal. lia. }
  unfold pair_entry. set (m' := if decide (m < k)%nat then m else S m).
  assert (Em : m = if decide (m' <= k)%nat then m' else pred m') by (unfold m'; destruct (decide (m < k)%nat); [by rewrite decide_True by lia|by rewrite decide_False by lia]).
  assert (Em2 : S m = if decide (S m' <= k)%nat then S m' else pred (S m')).
  { unfold m'. destruct (decide (m < k)%nat); [by rewrite decide_True by lia|by rewrite decide_False by lia]. }
  assert (B1 : m' <> S k /\ m' <> k /\ S m' <> S k /\ S m' <> k) by (unfold m'; destruct (decide (m < k)%nat); lia).
  assert (A1 : delete (S k) alive !! m = alive !! m') by (rewrite Em at 1; apply Ha; lia).
  assert (A2 : delete (S k) alive !! S m = alive !! S m') by (rewrite Em2; apply Ha; lia).
  assert (A3 : join_at k segs !! m = segs !! m') by (rewrite Em at 1; apply Hs; lia).
  assert (A4 : join_at k segs !! S m = segs !! S m') by (rewrite Em2; apply Hs; lia).
  by rewrite A1, A2, A3, A4.
Qed.

(** The entries after pair [k] was merged: the rest and those of the new symbol. *)
Definition renewed alive' segs' k (r q' : list entry) : Prop := forall e,
  e ∈ q' <-> e ∈ r \/ pair_entry alive' segs' k = Some e \/ exists k', k = S k' /\ pair_entry alive' segs' k' = Some e.

Lemma merge_queue syms syms' alive segs q e r k i j g h q' : linked syms alive segs -> concat segs = word -> queue_ok syms alive segs q -> q ≡ₚ e :: r ->
  alive !! k = Some i -> alive !! S k = Some j -> segs !! k = Some g -> segs !! S k = Some h -> pair_entry alive segs k = Some e ->
  linked syms' (delete (S k) alive) (join_at k segs) -> grown syms syms' -> renewed (delete (S k) alive) (join_at k segs) k r q' ->
  queue_ok syms' (delete (S k) alive) (join_at k segs) q'.
Proof.
  intros Hl Hw [H1 H2] Hp Hi Hj Hg Hh He Hl' Hgr Hr. assert (Hw' : concat (join_at k segs) = word) by by rewrite (concat_join k segs g h).
  constructor.
  - intros x Hx. apply Hr in Hx as [Hx|[Hx|(k' & _ & Hx)]].
    + eapply seen_grown; [exact Hgr|]. apply H1. rewrite Hp. by right.
    + by apply (pair_fresh syms' _ _ _ _ Hl' Hw') in Hx as [? _].
    + by apply (pair_fresh syms' _ _ _ _ Hl' Hw') in Hx as [? _].
  - intros m x Hx. apply Hr. destruct (decide (m = k)) as [->|Hmk]; [by right; left|]. destruct (decide (S m = k)) as [<-|Hmk2]; [right; right; by exists m|].
    left. rewrite (pair_entry_join alive segs k g h m j) in Hx by done. set (m' := if decide (m < k)%nat then m else S m) in *.
    pose proof (H2 m' x Hx) as Hin. rewrite Hp in Hin. apply elem_of_cons in Hin as [->|Hin]; [|done]. exfalso.
    pose proof (pair_entry_inj _ _ _ _ _ _ Hl Hx He). unfold m' in *. destruct (decide (m < k)%nat); lia.
Qed.

(** *** The entry on top *)

Context (Hirr : forall a, worse a a = false) (Htr : forall a b c, worse a b = true -> worse b c = true -> worse a c = true)
  (Htot : forall a b, worse a b = false -> worse b a = false -> a = b).

Lemma later_irr e : later e e = false.
Proof. unfold later. by rewrite Hirr, Z.eqb_refl, Z.ltb_irrefl. Qed.

Lemma worse_neg a b c : worse a c = true -> worse a b = true \/ worse b c = true.
Proof using Hirr Htr Htot.
  intros H. destruct (worse a b) eqn:E; [by left|right]. destruct (worse b a) eqn:E2; [by apply Htr with a|]. by rewrite <- (Htot a b).
Qed.

Lemma later_tr x y z : later x y = true -> later y z = true -> later x z = true.
Proof using Htr.
  unfold later. rewrite !orb_true_iff, !andb_true_iff, !Z.eqb_eq, !Z.ltb_lt. intros [H1|[E1 H1]] [H2|[E2 H2]].
  - left. by apply Htr with (en_key y).
  - left. by rewrite <- E2.
  - left. by rewrite E1.
  - right. split; [congruence|lia].
Qed.

Lemma later_neg x y z : later x z = true -> later x y = true \/ later y z = true.
Proof using Hirr Htr Htot.
  unfold later. rewrite !orb_true_iff, !andb_true_iff, !Z.eqb_eq, !Z.ltb_lt. intros [H|[E H]].
  - destruct (worse_neg _ (en_key y) _ H); auto.
  - destruct (Z.eq_dec (en_key x) (en_key y)) as [Ek|Ek].
    + destruct (decide (en_left y < en_left x)); [left; right; split; [done|lia]|right; right; split; [congruence|lia]].
    + destruct (worse (en_key x) (en_key y)) eqn:E1; [auto|]. destruct (worse (en_key y) (en_key x)) eqn:E2; [right; left; by rewrite <- E|].
      exfalso. by apply Ek, Htot.
Qed.

(** A fresh entry that no other exceeds is the one the reference merges. *)
Lemma top_best syms alive segs q e k : linked syms alive segs -> queue_ok syms alive segs q -> (forall x, x ∈ q -> later e x = false) ->
  pair_entry alive segs k = Some e -> best_pair offer worse segs = Some (k, en_key e).
Proof using Hirr Htr Htot.
  intros Hl [_ H2] Hmax He. pose proof (best_pair_spec offer worse Hirr Htr Htot segs) as Hb.
  pose proof He as (i & j & g & h & Hi & Hj & Hg & Hh & Ho & _)%pair_entry_Some.
  assert (Hc : candidate offer segs k (en_key e)) by by exists g, h.
  destruct (best_pair offer worse segs) as [[k' key']|]; [|by destruct (Hb k (en_key e))]. destruct Hb as [(g' & h' & Hg' & Hh' & Ho') Hb].
  destruct (Hb k (en_key e) Hc) as [B1 B2].
  assert (Ha : exists i' j', alive !! k' = Some i' /\ alive !! S k' = Some j').
  { pose proof (lk_len _ _ _ Hl). pose proof (lookup_lt_Some _ _ _ Hg'). pose proof (lookup_lt_Some _ _ _ Hh').
    destruct (lookup_lt_is_Some_2 alive k') as [i' Hi']; [lia|]. destruct (lookup_lt_is_Some_2 alive (S k')) as [j' Hj']; [lia|]. by exists i', j'. }
  destruct Ha as (i' & j' & Hi' & Hj'). assert (Hp : pair_entry alive segs k' = Some (mk_entry (Z.of_nat i') (Z.of_nat j') key' (length g' + length h'))).
  { unfold pair_entry. rewrite Hi', Hj', Hg', Hh'. cbn [mbind option_bind]. by rewrite Ho'. }
  specialize (Hmax _ (H2 _ _ Hp)). unfold later in Hmax. cbn [en_key en_left] in Hmax. apply orb_false_iff in Hmax as [M1 M2].
  assert (Ek : key' = en_key e) by by apply Htot. subst key'. rewrite Z.eqb_refl in M2. cbn [andb] in M2. apply Z.ltb_ge in M2.
  specialize (B2 eq_refl). destruct (decide (k' = k)) as [->|Hne]; [done|]. exfalso.
  pose proof (lk_sorted _ _ _ Hl k' k i' i Hi' Hi ltac:(lia)). pose proof He as (i2 & j2 & g2 & h2 & Hi2 & _ & _ & _ & _ & E)%pair_entry_Some.
  assert (i2 = i) as -> by congruence. rewrite E in M2. simpl in M2. lia.
Qed.

Lemma empty_queue syms alive segs : linked syms alive segs -> queue_ok syms alive segs [] -> best_pair offer worse segs = None.
Proof using Hirr Htr Htot.
  intros Hl [_ H2]. pose proof (best_pair_spec offer worse Hirr Htr Htot segs) as Hb. destruct (best_pair offer worse segs) as [[k key]|]; [|done].
  destruct Hb as [(g & h & Hg & Hh & Ho) _]. pose proof (lk_len _ _ _ Hl). pose proof (lookup_lt_Some _ _ _ Hg). pose proof (lookup_lt_Some _ _ _ Hh).
  destruct (lookup_lt_is_Some_2 alive k) as [i Hi]; [lia|]. destruct (lookup_lt_is_Some_2 alive (S k)) as [j Hj]; [lia|]. exfalso.
  eapply not_elem_of_nil, (H2 k). unfold pair_entry. rewrite Hi, Hj, Hg, Hh. cbn [mbind option_bind]. by rewrite Ho.
Qed.

Lemma greedy_enough n : forall segs, (length segs <= n)%nat -> greedy_n offer worse n segs = greedy offer worse segs.
Proof using Hirr Htr Htot.
  assert (Hmore : forall n m segs, (length segs <= n)%nat -> (length segs <= m)%nat -> greedy_n offer worse n segs = greedy_n offer worse m segs).
  { clear n. induction n as [|n IH]; intros m segs Hn Hm; [destruct segs; simpl in Hn; [|lia]; by destruct m|].
    destruct m as [|m]; [destruct segs; simpl in Hm; [done|lia]|]. cbn [greedy_n].
    pose proof (best_pair_spec offer worse Hirr Htr Htot segs) as Hb. destruct (best_pair offer worse segs) as [[k key]|]; [|done].
    destruct Hb as [(g & h & Hg & Hh & _) _]. pose proof (length_join k segs g h Hg Hh). apply IH; lia. }
  intros segs Hn. by apply Hmore.
Qed.

Lemma greedy_step segs k key : best_pair offer worse segs = Some (k, key) -> greedy offer worse segs = greedy offer worse (join_at k segs).
Proof using Hirr Htr Htot.
  intros E. pose proof (best_pair_spec offer worse Hirr Htr Htot segs) as Hb. rewrite E in Hb. destruct Hb as [(g & h & Hg & Hh & _) _].
  pose proof (length_join k segs g h Hg Hh) as Hl. unfold greedy at 1. rewrite <- Hl. cbn [greedy_n]. rewrite E. by apply greedy_enough.
Qed.

Lemma greedy_done segs : best_pair offer worse segs = None -> greedy offer worse segs = segs.
Proof using. intros E. unfold greedy. destruct (length segs); [done|]. cbn [greedy_n]. by rewrite E. Qed.

End Queue.

(** * One step of the merging tokenizers, for both of them. *)


(** What a session must provide: its symbols and entries, and a way to offer two
    neighbours that adds the entry of their pair. *)
Record session_laws {Ses} (offer : list Z -> list Z -> option Z) word (syms_of : Ses -> list llm_symbol) (ents : Ses -> list entry)
    (ok : Ses -> Prop) (with_syms : Ses -> list llm_symbol -> Ses) (add : Ses -> Z -> Z -> outcome Ses) : Prop := {
  sl_with s syms : syms_of (with_syms s syms) = syms /\ ents (with_syms s syms) = ents s;
  sl_ok s syms : ok s -> grown (syms_of s) syms -> ok (with_syms s syms);
  sl_none s l r : l = -1 \/ r = -1 -> add s l r = Ret s;
  sl_add s alive segs k i j : linked (syms_of s) alive segs -> concat segs = word -> ok s -> alive !! k = Some i -> alive !! S k = Some j ->
    exists s', add s (Z.of_nat i) (Z.of_nat j) = Ret s' /\ syms_of s' = syms_of s /\ ents s' = option_list (pair_entry offer alive segs k) ++ ents s /\ ok s';
}.

Section Session.
Context {Ses : Type} (offer : list Z -> list Z -> option Z) (worse : Z -> Z -> bool) (word : list Z).
Context (syms_of : Ses -> list llm_symbol) (ents : Ses -> list entry) (ok : Ses -> Prop) (with_syms : Ses -> list llm_symbol -> Ses) (add : Ses -> Z -> Z -> outcome Ses).
Hypothesis (Hlaws : session_laws offer word syms_of ents ok with_syms add).
Context (Hirr : forall a, worse a a = false) (Htr : forall a b c, worse a b = true -> worse b c = true -> worse a c = true)
  (Htot : forall a b, worse a b = false -> worse b a = false -> a = b).

Notation pair_entry := (pair_entry offer).

(** The session after it was offered a pair, or nothing. *)
Definition offered (e : option entry) (s s' : Ses) : Prop := syms_of s' = syms_of s /\ ents s' = option_list e ++ ents s /\ ok s'.

Lemma offered_elem (o : option entry) e : e ∈ option_list o <-> o = Some e.
Proof. destruct o as [e'|]; simpl; [rewrite list_elem_of_singleton|rewrite elem_of_nil]; naive_solver. Qed.

Lemma offered_length (o : option entry) : (length (option_list o) <= 1)%nat.
Proof. destruct o; simpl; lia. Qed.

Lemma add_prev s alive segs k i : linked (syms_of s) alive segs -> concat segs = word -> ok s -> alive !! k = Some i ->
  exists s', add s (prev_of alive k) (Z.of_nat i) = Ret s' /\ offered (match k with O => None | S k => pair_entry alive segs k end) s s'.
Proof using Hlaws.
  intros Hl Hw Hr Hi. unfold prev_of. destruct k as [|k]; [exists s; split; [apply (sl_none _ _ _ _ _ _ _ Hlaws); by left|done]|].
  destruct (lookup_lt_is_Some_2 alive k) as [i' Hi']; [apply lookup_lt_Some in Hi; lia|]. rewrite Hi'. by apply (sl_add _ _ _ _ _ _ _ Hlaws).
Qed.

Lemma add_next s alive segs k i : linked (syms_of s) alive segs -> concat segs = word -> ok s -> alive !! k = Some i ->
  exists s', add s (Z.of_nat i) (next_of alive k) = Ret s' /\ offered (pair_entry alive segs k) s s'.
Proof using Hlaws.
  intros Hl Hw Hr Hi. unfold next_of. destruct (alive !! S k) as [j|] eqn:Hj; [by apply (sl_add _ _ _ _ _ _ _ Hlaws)|].
  exists s. split; [apply (sl_none _ _ _ _ _ _ _ Hlaws); by right|]. unfold MergeQueue.pair_entry. by rewrite Hi, Hj.
Qed.

(** Offering all pairs of neighbours. *)
Lemma seed_session s segs : linked (syms_of s) (seq 0 (length segs)) segs -> concat segs = word -> ok s -> ents s = [] ->
  exists s', foldM (fun s i => add s (Z.of_nat i - 1) (Z.of_nat i)) s (seq 1 (length segs - 1)) = Ret s' /\ syms_of s' = syms_of s /\ ok s'
    /\ queue_ok offer word (syms_of s') (seq 0 (length segs)) segs (ents s') /\ (length (ents s') <= length segs)%nat.
Proof using Hlaws.
  intros Hl Hw Hr Hq. set (alive := seq 0 (length segs)) in *.
  destruct (foldM_prefix (fun s i => add s (Z.of_nat i - 1) (Z.of_nat i))
    (fun pre s' => syms_of s' = syms_of s /\ ok s' /\ (length (ents s') <= length pre)%nat
      /\ forall e, e ∈ ents s' <-> exists k, (k < length pre)%nat /\ pair_entry alive segs k = Some e) s (seq 1 (length segs - 1))) as (s' & E & H1 & H2 & H3 & H4).
  - split; [done|]. split; [done|]. rewrite Hq. split; [done|]. intros e. split; [by intros H%elem_of_nil|]. intros (k & Hk & _). simpl in Hk. lia.
  - intros pre i rest b Hs (B1 & B2 & B3 & B4). assert (Hi : seq 1 (length segs - 1) !! length pre = Some i) by (rewrite Hs; by apply list_lookup_middle).
    apply lookup_seq in Hi as [-> Hi].
    destruct (sl_add _ _ _ _ _ _ _ Hlaws b alive segs (length pre) (length pre) (S (length pre))) as (b' & Eb & C1 & C2 & C3); try done.
    { by rewrite B1. } { apply lookup_seq. lia. } { apply lookup_seq. lia. }
    exists b'. replace (Z.of_nat (1 + length pre) - 1) with (Z.of_nat (length pre)) by lia. split; [done|]. rewrite length_app. cbn [length].
    split; [congruence|]. split; [done|]. split.
    + rewrite C2, length_app. pose proof (offered_length (pair_entry alive segs (length pre))). lia.
    + intros e. rewrite C2, elem_of_app, B4, offered_elem. split.
      * intros [H|(k & Hk & He)]; [exists (length pre); split; [lia|done]|exists k; split; [lia|done]].
      * intros (k & Hk & He). destruct (decide (k = length pre)) as [->|Hne]; [by left|right; exists k; split; [lia|done]].
  - exists s'. rewrite length_seq in *. split; [done|]. split; [done|]. split; [done|]. split; [|lia]. constructor.
    + intros e He. apply H4 in He as (k & _ & He). rewrite H1. by apply (pair_fresh offer word _ alive segs k e Hl Hw).
    + intros k e He. apply H4. exists k. split; [|done]. apply pair_entry_Some in He as (i & j & g & h & _ & _ & _ & Hh & _). apply lookup_lt_Some in Hh. lia.
Qed.

(** The states a session can be in while it computes the parts of [segs]. *)
Record running (s : Ses) alive segs : Prop := {
  rn_linked : linked (syms_of s) alive segs;
  rn_word : concat segs = word;
  rn_ok : ok s;
  rn_queue : queue_ok offer word (syms_of s) alive segs (ents s);
  rn_some : segs <> [];
}.

(** An outdated entry on top is dropped. *)
Lemma running_drop s s0 alive segs e : running s alive segs -> ents s ≡ₚ e :: ents s0 -> syms_of s0 = syms_of s -> ok s0 -> ~ fresh (syms_of s) e ->
  running s0 alive segs.
Proof using.
  intros [Hl Hw Hr Hq Hne] Hp Hs Hok Hf. constructor; rewrite ?Hs; try done. by eapply drop_stale.
Qed.

(** Merging the pair of the best entry is one step of the reference. *)
Lemma running_merge s s0 alive segs e : running s alive segs -> ents s ≡ₚ e :: ents s0 -> (forall x, x ∈ ents s -> later worse e x = false) ->
  syms_of s0 = syms_of s -> ok s0 -> fresh (syms_of s) e ->
  exists syms l s1 s2 alive' segs', Sym.merge (syms_of s) (Z.to_nat (en_left e)) (Z.to_nat (en_right e)) = Ret syms /\ at_z syms (en_left e) = Ret l
    /\ add (with_syms s0 syms) (sy_prev l) (en_left e) = Ret s1 /\ add s1 (en_left e) (sy_next l) = Ret s2
    /\ running s2 alive' segs' /\ (length (ents s2) + 2 * length segs' + 1 <= length (ents s) + 2 * length segs)%nat
    /\ length (syms_of s2) = length (syms_of s) /\ greedy offer worse segs = greedy offer worse segs' /\ alive' !! 0%nat = alive !! 0%nat.
Proof using Hlaws Hirr Htr Htot.
  intros [Hl Hw Hr Hq Hne] Hperm Hmax Hs0 Hok0 Hfr. assert (Hseen : seen offer word (syms_of s) e) by (apply Hq; rewrite Hperm; left).
  destruct (fresh_pair offer word _ alive segs e Hl Hw Hseen Hfr) as [k Hk].
  pose proof Hk as (i & j & g & h & Hi & Hj & Hg & Hh & Ho & Ee)%pair_entry_Some. rewrite Ee. cbn [en_left en_right]. rewrite !Nat2Z.id.
  destruct (linked_merge _ _ _ k i j g h Hl Hi Hj Hg Hh) as (syms & Em & Hl' & Hgr & Hls). set (alive1 := delete (S k) alive) in *. set (segs1 := join_at k segs) in *.
  assert (Hw1 : concat segs1 = word) by (unfold segs1; by rewrite (concat_join k segs g h)).
  assert (Hi1 : alive1 !! k = Some i) by (unfold alive1; by rewrite list_lookup_delete_lt by lia).
  destruct (linked_seg _ _ _ _ _ Hl' Hi1) as [g1 Hg1]. destruct (sl_with _ _ _ _ _ _ _ Hlaws s0 syms) as [Hws Hwe].
  assert (Hok1 : ok (with_syms s0 syms)) by (apply (sl_ok _ _ _ _ _ _ _ Hlaws); [done|by rewrite Hs0]).
  destruct (add_prev (with_syms s0 syms) alive1 segs1 k i) as (s1 & E1 & O1s & O1e & O1r); [by rewrite Hws|done|done|done|].
  destruct (add_next s1 alive1 segs1 k i) as (s2 & E2 & O2s & O2e & O2r); [by rewrite O1s, Hws|done|done|done|].
  assert (Hs2 : syms_of s2 = syms) by congruence. pose proof (Permutation_length Hperm) as Hlen. cbn [length] in Hlen.
  assert (Hseg1 : S (length segs1) = length segs) by (unfold segs1; by apply (length_join k segs g h)).
  exists syms, (mk_symbol (prev_of alive1 k) (next_of alive1 k) (seg_off segs1 k) (length g1)), s1, s2, alive1, segs1. split; [done|].
  split; [apply at_z_Ret; [lia|rewrite Nat2Z.id; by apply (lk_sym _ _ _ Hl' k i g1)]|]. split; [done|]. split; [done|]. split; [constructor; rewrite ?Hs2; try done|split; [|split; [congruence|split]]].
  - eapply (merge_queue offer word (syms_of s) syms alive segs (ents s) e (ents s0) k i j g h); try done.
    intros x. rewrite O2e, O1e, Hwe, !elem_of_app, !offered_elem. destruct k; naive_solver.
  - intros E0. by rewrite E0 in Hg1.
  - rewrite O2e, O1e, Hwe, !length_app. pose proof (offered_length (pair_entry alive1 segs1 k)).
    pose proof (offered_length (match k with O => None | S k => pair_entry alive1 segs1 k end)). lia.
  - apply (greedy_step offer worse Hirr Htr Htot segs k (en_key e)). by eapply (top_best offer worse word Hirr Htr Htot (syms_of s) alive segs (ents s) e k).
  - unfold alive1. by rewrite list_lookup_delete_lt by lia.
Qed.

(** Without entries the parts are those of the reference. *)
Lemma running_done s alive segs : running s alive segs -> ents s = [] -> greedy offer worse segs = segs.
Proof using Hirr Htr Htot.
  intros [Hl Hw Hr Hq Hne] E. apply greedy_done. rewrite E in Hq. by eapply (empty_queue offer worse word Hirr Htr Htot).
Qed.

End Session.
