(* ===== verification/SpmFacts.v ===== *)
(** * The SPM tokenizer computes the reference. *)

From S2P Require Import Prelude Utf8 Utf8Facts Vocabulary SpmTokenizer MergeFacts MergeQueue.
From Stdlib Require Import Lia.

Implicit Types (v : llama_vocab) (word g h : list Z) (segs : list (list Z)) (syms : list llm_symbol) (alive : list nat) (i j k : nat).

(** ** Vocabularies *)

(** The texts lead to tokens with these texts. *)
Record vocab_ok v : Prop := {
  vo_type : vb_type v <> LLAMA_VOCAB_TYPE_NONE;
  vo_ids text id : token_to_id v !! text = Some id -> exists d, 0 <= id < Z.of_nat (length (id_to_token v)) /\ id_to_token v !! Z.to_nat id = Some d /\ td_text d = text;
  vo_small : Z.of_nat (length (id_to_token v)) < 2 ^ 31;
}.

(** Every byte has a token. *)
Definition has_bytes v : Prop := forall c, 0 <= c < 256 -> is_Some (token_to_id v !! Voc.byte_text c).

Definition token_score v (id : Z) : Z := default 0 (td_score <$> id_to_token v !! Z.to_nat id).
Definition spm_offer v g h : option Z := token_score v <$> token_to_id v !! (g ++ h).

(** The tokens of a part that is not merged further. *)
Definition byte_id v (c : Z) : Z := default LLAMA_TOKEN_NULL (token_to_id v !! Voc.byte_text c).
Definition spm_ids v g : list Z := match token_to_id v !! g with Some id => [id] | None => map (byte_id v) g end.

Lemma has_type_ok v : vocab_ok v -> Voc.has_type v = Ret ().
Proof. intros H. unfold Voc.has_type. by rewrite bool_decide_eq_false_2 by apply H. Qed.

Lemma text_to_token_ok v text : vocab_ok v -> Voc.text_to_token v text = Ret (default LLAMA_TOKEN_NULL (token_to_id v !! text)).
Proof. intros H. unfold Voc.text_to_token. by rewrite has_type_ok. Qed.

Lemma get_token_data_ok v text id : vocab_ok v -> token_to_id v !! text = Some id ->
  exists d, Voc.get_token_data v id = Ret d /\ id_to_token v !! Z.to_nat id = Some d /\ td_text d = text /\ 0 <= id < Z.of_nat (length (id_to_token v)).
Proof.
  intros Hv H. destruct (vo_ids v Hv text id H) as (d & Hr & Hd & Ht). exists d. split; [|done].
  unfold Voc.get_token_data, Voc.data_at. rewrite has_type_ok by done. cbn [mbind outcome_bind].
  rewrite (proj2 (Z.leb_le _ _)), (proj2 (Z.ltb_lt _ _)) by lia. cbn [andb]. apply at_z_Ret; [lia|done].
Qed.

Lemma byte_to_token_ok v c : vocab_ok v -> vb_type v = LLAMA_VOCAB_TYPE_SPM -> has_bytes v -> 0 <= c < 256 -> Voc.byte_to_token v c = Ret (byte_id v c).
Proof.
  intros Hv Ht Hb Hc. unfold Voc.byte_to_token, byte_id. rewrite has_type_ok by done. cbn [mbind outcome_bind]. rewrite Ht.
  destruct (Hb c Hc) as [id E]. by rewrite E.
Qed.

(** ** Adding *)

Definition erase (b : llm_bigram_spm) : entry := mk_entry (bs_left b) (bs_right b) (bs_score b) (bs_size b).
Definition entries (s : spm_session) : list entry := map erase (sp_queue s).

(** Only texts of tokens can be taken apart. *)
Definition rev_ok v (s : spm_session) : Prop := forall text p, sp_rev s !! text = Some p -> is_Some (token_to_id v !! text).

Lemma less_later b b' : Spm.less b b' = later Z.ltb (erase b) (erase b').
Proof. done. Qed.

Section Word.
Context (v : llama_vocab) (word : list Z).
Hypotheses (Hv : vocab_ok v).

Notation pair_entry := (pair_entry (spm_offer v)).

Lemma spm_add s alive segs k i j : linked (sp_symbols s) alive segs -> concat segs = word -> rev_ok v s -> alive !! k = Some i -> alive !! S k = Some j ->
  exists s', Spm.try_add_bigram v word s (Z.of_nat i) (Z.of_nat j) = Ret s' /\ sp_symbols s' = sp_symbols s
    /\ entries s' = option_list (pair_entry alive segs k) ++ entries s /\ rev_ok v s'.
Proof using Hv.
  intros Hl Hw Hr Hi Hj. destruct (linked_seg _ _ _ _ _ Hl Hi) as [g Hg]. destruct (linked_seg _ _ _ _ _ Hl Hj) as [h Hh].
  unfold Spm.try_add_bigram. rewrite !(proj2 (Z.eqb_neq _ (-1))) by lia. cbn [orb].
  rewrite (at_z_Ret (sp_symbols s) (Z.of_nat i) _ (Nat2Z.is_nonneg i)) by (rewrite Nat2Z.id; by apply (lk_sym _ _ _ Hl k i g)). cbn [mbind outcome_bind].
  rewrite (at_z_Ret (sp_symbols s) (Z.of_nat j) _ (Nat2Z.is_nonneg j)) by (rewrite Nat2Z.id; by apply (lk_sym _ _ _ Hl (S k) j h)). cbn [mbind outcome_bind sy_text sy_n].
  rewrite (sub_pair word segs k g h) by done. cbn [mbind outcome_bind]. rewrite text_to_token_ok by done. cbn [mbind outcome_bind].
  unfold MergeQueue.pair_entry. rewrite Hi, Hj, Hg, Hh. cbn [mbind option_bind]. unfold spm_offer.
  destruct (token_to_id v !! (g ++ h)) as [id|] eqn:Eid; cbn [default fmap option_fmap option_map mbind option_bind option_list app].
  - destruct (get_token_data_ok v _ _ Hv Eid) as (d & Ed & Hd & Htx & Hid). pose proof (vo_small v Hv).
    unfold Datatypes.id. rewrite (proj2 (Z.eqb_neq _ _)) by (unfold LLAMA_TOKEN_NULL; lia). rewrite u32_small by lia. rewrite (proj2 (Z.leb_gt _ _)) by lia.
    rewrite Ed. cbn [mbind outcome_bind]. eexists. split; [reflexivity|]. split; [done|]. split.
    + unfold entries. simpl. f_equal. unfold erase. simpl. unfold token_score. rewrite Hd. simpl. by rewrite length_app.
    + intros text p. simpl. destruct (decide (text = g ++ h)) as [->|Hne]; [by rewrite Eid|]. rewrite lookup_insert_ne by done. apply Hr.
  - exists s. change (default LLAMA_TOKEN_NULL None) with LLAMA_TOKEN_NULL. by rewrite Z.eqb_refl.
Qed.

Lemma spm_laws : session_laws (spm_offer v) word sp_symbols entries (rev_ok v) Spm.with_symbols (Spm.try_add_bigram v word).
Proof using Hv.
  constructor; [done| |intros s l r [->| ->]; unfold Spm.try_add_bigram; by rewrite Z.eqb_refl, ?orb_true_r|exact spm_add]. intros s syms H _. exact H.
Qed.

(** ** The loop *)

Notation greedy := (greedy (spm_offer v) Z.ltb).

(** The test of an entry finds the outdated ones. *)
Lemma fresh_dec syms e : seen (spm_offer v) word syms e ->
  exists l r, at_z syms (en_left e) = Ret l /\ at_z syms (en_right e) = Ret r
  /\ ((sy_n l =? 0)%nat || (sy_n r =? 0)%nat || negb (sy_n l + sy_n r =? en_size e)%nat = true -> ~ fresh syms e)
  /\ ((sy_n l =? 0)%nat || (sy_n r =? 0)%nat || negb (sy_n l + sy_n r =? en_size e)%nat = false -> fresh syms e).
Proof using.
  intros (i & j & si & sj & nl & nr & g & h & H1 & H2 & Hi & Hj & _). exists si, sj. rewrite H1, H2.
  rewrite !(at_z_Ret syms (Z.of_nat _) _) by (lia || by rewrite Nat2Z.id). split; [done|]. split; [done|]. split.
  - intros Hb (i' & j' & si' & sj' & F1 & F2 & Fi & Fj & N1 & N2 & N3). assert (i' = i) as -> by lia. assert (j' = j) as -> by lia.
    assert (si' = si) as -> by congruence. assert (sj' = sj) as -> by congruence.
    rewrite !orb_true_iff, negb_true_iff, !Nat.eqb_eq, Nat.eqb_neq in Hb. lia.
  - intros Hb. rewrite !orb_false_iff, negb_false_iff, !Nat.eqb_neq, Nat.eqb_eq in Hb. exists i, j, si, sj. tauto.
Qed.

Notation spm_running := (running (spm_offer v) word sp_symbols entries (rev_ok v)).

Lemma substitute_ok fuel : forall s alive segs, spm_running s alive segs -> (length (sp_queue s) + 2 * length segs <= fuel + 2)%nat ->
  exists s' alive', Spm.substitute fuel v word s = Ret s' /\ spm_running s' alive' (greedy segs) /\ length (sp_symbols s') = length (sp_symbols s)
    /\ alive' !! 0%nat = alive !! 0%nat.
Proof using Hv.
  induction fuel as [|fuel IH]; intros s alive segs Hrun Hfuel.
  all: pose proof (pop_spec Spm.less (fun x => later_irr _ Z.ltb_irrefl (erase x)) (fun x y z => later_tr _ ltb_tr (erase x) (erase y) (erase z))
    (fun x y z => later_neg _ Z.ltb_irrefl ltb_tr ltb_tot (erase x) (erase y) (erase z)) (sp_queue s)) as Hpop; cbn [Spm.substitute].
  all: destruct (Sym.pop Spm.less (sp_queue s)) as [[b q]|];
    [|exists s, alive; split; [done|]; rewrite (running_done _ Z.ltb word _ _ _ Z.ltb_irrefl ltb_tr ltb_tot s alive segs Hrun) by (unfold entries; by rewrite Hpop); done].
  all: destruct Hpop as [Hperm Hmax]; pose proof (Permutation_length Hperm) as Hlen; cbn [length] in Hlen.
  { destruct segs; [by destruct (rn_some _ _ _ _ _ _ _ _ Hrun)|simpl in Hfuel; lia]. }
  assert (Hpe : entries s ≡ₚ erase b :: map erase q) by (unfold entries; by rewrite Hperm).
  destruct (fresh_dec (sp_symbols s) (erase b)) as (l & r & El & Er & Hst & Hfr); [apply (qo_seen _ _ _ _ _ _ (rn_queue _ _ _ _ _ _ _ _ Hrun)); rewrite Hpe; left|].
  cbn [sp_symbols Spm.with_queue erase en_left en_right en_size] in *. rewrite El. cbn [mbind outcome_bind]. rewrite Er. cbn [mbind outcome_bind].
  assert (Hok : rev_ok v (Spm.with_queue s q)) by exact (rn_ok _ _ _ _ _ _ _ _ Hrun).
  destruct ((sy_n l =? 0)%nat || (sy_n r =? 0)%nat || negb (sy_n l + sy_n r =? bs_size b)%nat).
  - destruct (IH (Spm.with_queue s q) alive segs) as (s' & alive' & E & H); [by eapply running_drop; [exact Hrun|exact Hpe|done|done|apply Hst]|simpl; lia|].
    by exists s', alive'.
  - assert (Hmax' : forall x, x ∈ entries s -> later Z.ltb (erase b) x = false) by (intros x (y & -> & Hy)%list_elem_of_fmap; by apply Hmax).
    destruct (running_merge _ Z.ltb word _ _ _ _ _ spm_laws Z.ltb_irrefl ltb_tr ltb_tot s (Spm.with_queue s q) alive segs (erase b) Hrun Hpe Hmax' eq_refl Hok (Hfr eq_refl))
      as (syms & l' & s1 & s2 & alive1 & segs1 & E1 & E2 & E3 & E4 & Hrun2 & Hf2 & Hls & Hgr & H0).
    cbn [erase en_left en_right] in *. rewrite E1. cbn [mbind outcome_bind]. rewrite E2. cbn [mbind outcome_bind]. rewrite E3. cbn [mbind outcome_bind]. rewrite E4. cbn [mbind outcome_bind].
    destruct (IH s2 alive1 segs1) as (s' & alive' & E & F1 & F2 & F3); [done|unfold entries in Hf2; rewrite !length_map in Hf2; lia|].
    exists s', alive'. rewrite Hgr. split; [done|]. split; [done|]. split; congruence.
Qed.

End Word.

(** ** The whole tokenizer *)

Lemma flat_map_single {A B} (f : A -> B) l : flat_map (fun x => [f x]) l = map f l.
Proof. induction l as [|x l IH]; [done|]. simpl. by rewrite IH. Qed.

Section Emit.
Context (v : llama_vocab) (word : list Z).
Hypotheses (Hv : vocab_ok v) (Ht : vb_type v = LLAMA_VOCAB_TYPE_SPM) (Hb : has_bytes v) (Hw : is_bytes word).

Lemma resegment_ok s alive segs k i g out fuel : linked (sp_symbols s) alive segs -> concat segs = word -> rev_ok v s -> alive !! k = Some i -> segs !! k = Some g ->
  exists sym, at_z (sp_symbols s) (Z.of_nat i) = Ret sym /\ sy_next sym = next_of alive k /\ Spm.resegment (S fuel) v word s sym out = Ret (out ++ spm_ids v g).
Proof using Hv Ht Hb Hw.
  intros Hl Hcw Hr Hi Hg. pose proof (lk_sym _ _ _ Hl k i g Hi Hg) as Hs. eexists. split; [apply at_z_Ret; [lia|rewrite Nat2Z.id; exact Hs]|]. split; [done|].
  cbn [Spm.resegment sy_text sy_n]. rewrite (sub_off word segs k g) by done. cbn [mbind outcome_bind]. rewrite text_to_token_ok by done. cbn [mbind outcome_bind].
  unfold spm_ids. destruct (token_to_id v !! g) as [id|] eqn:E; unfold from_option, Datatypes.id.
  - destruct (vo_ids v Hv g id E) as (d & Hr' & _). by rewrite (proj2 (Z.eqb_neq _ _)) by (unfold LLAMA_TOKEN_NULL; lia).
  - rewrite Z.eqb_refl. cbn [negb]. destruct (sp_rev s !! g) as [p|] eqn:Ep; [destruct (Hr g p Ep); congruence|].
    assert (Hgb : forall c, c ∈ g -> 0 <= c < 256).
    { intros c Hc. unfold is_bytes in Hw. rewrite Forall_forall in Hw. apply Hw. rewrite <- Hcw. apply list_elem_of_In, in_concat. exists g.
      split; apply list_elem_of_In; [by eapply list_elem_of_lookup_2|done]. }
    rewrite (foldM_append _ (fun c => [byte_id v c])) by (intros c o Hc; by rewrite byte_to_token_ok by auto).
    by rewrite flat_map_single.
Qed.

Lemma emit_ok s alive segs : linked (sp_symbols s) alive segs -> concat segs = word -> rev_ok v s -> forall d k fuel out, (k + d = length segs)%nat -> (d < fuel)%nat ->
  Spm.emit fuel v word s (from_option Z.of_nat (-1) (alive !! k)) out = Ret (out ++ flat_map (spm_ids v) (drop k segs)).
Proof using Hv Ht Hb Hw.
  intros Hl Hcw Hr. induction d as [|d IH]; intros k fuel out Hk Hf.
  - rewrite lookup_ge_None_2 by (rewrite (lk_len _ _ _ Hl); lia). rewrite drop_ge by lia. cbn [flat_map]. rewrite app_nil_r. by destruct fuel.
  - destruct fuel as [|fuel]; [lia|]. destruct (lookup_lt_is_Some_2 segs k ltac:(lia)) as [g Hg].
    destruct (lookup_lt_is_Some_2 alive k) as [i Hi]; [rewrite (lk_len _ _ _ Hl); lia|]. rewrite Hi. cbn [from_option Spm.emit].
    rewrite (proj2 (Z.eqb_neq _ _)) by lia. destruct (resegment_ok s alive segs k i g out (length word) Hl Hcw Hr Hi Hg) as (sym & Es & Hn & Er).
    rewrite Es. cbn [mbind outcome_bind]. rewrite Er. cbn [mbind outcome_bind]. rewrite Hn. unfold next_of. rewrite IH by lia. rewrite (drop_S _ _ _ Hg). cbn [flat_map]. by rewrite app_assoc.
Qed.

Lemma spm_tokenize_ok out : word <> [] -> Spm.tokenize v word out = Ret (out ++ flat_map (spm_ids v) (greedy (spm_offer v) Z.ltb (chars word))).
Proof using Hv Ht Hb Hw.
  intros Hne. unfold Spm.tokenize. destruct (split_linked word Hw) as (syms & -> & Hlen & Hl). cbn [mbind outcome_bind].
  pose proof (concat_chars word Hw) as Hc. assert (Hcs : chars word <> []) by (intros E; rewrite E in Hc; by subst).
  assert (Hr0 : rev_ok v (mk_spm syms [] ∅)) by (intros text p H; simpl in H; by rewrite lookup_empty in H).
  destruct (seed_session _ word _ _ _ _ _ (spm_laws v word Hv) (mk_spm syms [] ∅) (chars word) Hl Hc Hr0 eq_refl) as (s1 & E1 & Hs1 & Hr1 & Hq1 & Hl1).
  unfold Spm.seed. cbn [sp_symbols]. rewrite Hlen, E1. cbn [mbind outcome_bind sp_symbols] in *.
  assert (Hpos : (0 < length (chars word))%nat) by (destruct (chars word); [done|simpl; lia]).
  destruct (substitute_ok v word Hv (4 * length (chars word)) s1 (seq 0 (length (chars word))) (chars word)) as (s2 & alive & E2 & Hrun & Hs2 & H0).
  { constructor; rewrite ?Hs1; try done. by rewrite Hs1 in Hq1. } { unfold entries in Hl1. rewrite length_map in Hl1. lia. }
  rewrite E2. cbn [mbind outcome_bind]. rewrite lookup_seq_lt in H0 by done. destruct Hrun as [Hl2 Hg Hr2 _ _].
  pose proof (emit_ok s2 alive _ Hl2 Hg Hr2 (length (greedy (spm_offer v) Z.ltb (chars word))) 0 (S (length (chars word))) out) as E.
  rewrite H0, drop_0 in E. apply E; [done|].
  pose proof (linked_length _ _ _ Hl2) as Hle. rewrite Hs2, Hs1, Hlen in Hle. lia.
Qed.

End Emit.
