(* ===== verification/BpeFacts.v ===== *)
(** * The BPE tokenizer computes the reference. *)

From S2P Require Import Prelude Utf8 Utf8Facts Vocabulary BpeTokenizer MergeFacts MergeQueue SpmFacts.
From Stdlib Require Import Lia.

Implicit Types (v : llama_vocab) (word g h : list Z) (segs : list (list Z)) (syms : list llm_symbol) (q : list llm_bigram_bpe) (alive : list nat) (i j k : nat).

Definition bpe_offer v g h : option Z := r ← bpe_ranks v !! (g, h); if r <? 0 then None else Some r.

(** A lower rank is better. *)
Definition worse_rank (a b : Z) : bool := b <? a.

(** The parts of a word, and the tokens of a part: bytes without a token are lost. *)
Definition whole_word v word : bool := ignore_merges v && bool_decide (is_Some (token_to_id v !! word)) && bool_decide (word <> []).
Definition bpe_parts v word : list (list Z) := if whole_word v word then [word] else greedy (bpe_offer v) worse_rank (chars word).
Definition bpe_ids v g : list Z :=
  match token_to_id v !! g with Some id => [id] | None => omap (fun c => token_to_id v !! [c]) g end.

Lemma rank_irr a : worse_rank a a = false. Proof. apply Z.ltb_irrefl. Qed.
Lemma rank_tr a b c : worse_rank a b = true -> worse_rank b c = true -> worse_rank a c = true.
Proof. intros H1 H2. by apply (ltb_tr c b a). Qed.
Lemma rank_tot a b : worse_rank a b = false -> worse_rank b a = false -> a = b.
Proof. intros H1 H2. by apply ltb_tot. Qed.

(** ** The queue *)

Definition bpe_erase (b : llm_bigram_bpe) : entry := mk_entry (bb_left b) (bb_right b) (bb_rank b) (bb_size b).

Lemma sub_length word off n t : Sym.sub word off n = Ret t -> length t = n.
Proof.
  unfold Sym.sub. destruct (Nat.leb_spec (off + n) (length word)); [|done]. intros [= <-]. rewrite length_take, length_drop. lia.
Qed.

Section Word.
Context (v : llama_vocab) (word : list Z).
Hypotheses (Hblank : 32 ∉ word) (Hline : 10 ∉ word).

Notation pair_entry := (pair_entry (bpe_offer v)).

(** A session: the symbols and the queue. *)
Notation state := (list llm_symbol * list llm_bigram_bpe)%type.
Definition bpe_syms (s : state) : list llm_symbol := s.1.
Definition bpe_entries (s : state) : list entry := map bpe_erase s.2.
Definition bpe_with (s : state) syms : state := (syms, s.2).
Definition bpe_add (s : state) (l r : Z) : outcome state := q ← Bpe.add_new_bigram v word s.1 s.2 l r; Ret (s.1, q).

(** The texts of the bigrams are those of their bytes. *)
Definition texts_ok (s : state) : Prop :=
  forall b, b ∈ s.2 -> exists i si, bb_left b = Z.of_nat i /\ s.1 !! i = Some si /\ Sym.sub word (sy_text si) (bb_size b) = Ret (bb_text b).

Lemma find_bpe_rank_ok g h : (forall c, c ∈ g -> c ∈ word) -> (forall c, c ∈ h -> c ∈ word) ->
  Voc.find_bpe_rank v g h = Ret (default (-1) (bpe_ranks v !! (g, h))).
Proof using Hblank Hline.
  intros Hg Hh. unfold Voc.find_bpe_rank. rewrite !bool_decide_eq_false_2 by auto. done.
Qed.

Lemma seg_elem segs k g c : concat segs = word -> segs !! k = Some g -> c ∈ g -> c ∈ word.
Proof using.
  intros Hw Hg Hc. rewrite <- Hw. apply list_elem_of_In, in_concat. exists g. split; apply list_elem_of_In; [by eapply list_elem_of_lookup_2|done].
Qed.

Lemma bpe_add_ok s alive segs k i j : linked (bpe_syms s) alive segs -> concat segs = word -> texts_ok s -> alive !! k = Some i -> alive !! S k = Some j ->
  exists s', bpe_add s (Z.of_nat i) (Z.of_nat j) = Ret s' /\ bpe_syms s' = bpe_syms s
    /\ bpe_entries s' = option_list (pair_entry alive segs k) ++ bpe_entries s /\ texts_ok s'.
Proof using Hblank Hline.
  intros Hl Hw Hr Hi Hj. destruct s as [syms q]. unfold bpe_syms, bpe_entries, texts_ok in *. cbn [fst snd] in *.
  destruct (linked_seg _ _ _ _ _ Hl Hi) as [g Hg]. destruct (linked_seg _ _ _ _ _ Hl Hj) as [h Hh].
  pose proof (lk_sym _ _ _ Hl k i g Hi Hg) as Hsi. pose proof (lk_sym _ _ _ Hl (S k) j h Hj Hh) as Hsj.
  unfold bpe_add, Bpe.add_new_bigram. cbn [fst snd]. rewrite !(proj2 (Z.eqb_neq _ (-1))) by lia. cbn [orb].
  rewrite (at_z_Ret syms (Z.of_nat i) _ (Nat2Z.is_nonneg i)) by (rewrite Nat2Z.id; exact Hsi). cbn [mbind outcome_bind].
  rewrite (at_z_Ret syms (Z.of_nat j) _ (Nat2Z.is_nonneg j)) by (rewrite Nat2Z.id; exact Hsj). cbn [mbind outcome_bind sy_text sy_n].
  rewrite (sub_off word segs k g), (sub_off word segs (S k) h) by done. cbn [mbind outcome_bind].
  rewrite find_bpe_rank_ok by (intros c; by eapply seg_elem). cbn [mbind outcome_bind].
  unfold MergeQueue.pair_entry. rewrite Hi, Hj, Hg, Hh. cbn [mbind option_bind]. unfold bpe_offer.
  destruct (bpe_ranks v !! (g, h)) as [r|]; cbn [default mbind option_bind]; [unfold Datatypes.id; destruct (r <? 0)|]; cbn [mbind outcome_bind option_bind option_list app].
  1,3: by exists (syms, q).
  eexists. split; [reflexivity|]. split; [done|]. split; [done|]. intros b [->|Hb]%elem_of_cons; [|by apply Hr].
  exists i. eexists. split; [done|]. split; [exact Hsi|]. cbn [sy_text bb_size bb_text]. by apply sub_pair.
Qed.

Lemma bpe_laws : session_laws (bpe_offer v) word bpe_syms bpe_entries texts_ok bpe_with bpe_add.
Proof using Hblank Hline.
  constructor; [done| |intros [syms q] l r [->| ->]; unfold bpe_add, Bpe.add_new_bigram; by rewrite Z.eqb_refl, ?orb_true_r|exact bpe_add_ok].
  intros s syms H Hg b Hb. destruct (H b Hb) as (i & si & H1 & H2 & H3). destruct (Hg i si H2) as (si' & E & Et & _).
  exists i, si'. by rewrite Et.
Qed.

(** ** The loop *)

(** The texts tell the outdated bigrams. *)
Lemma text_fresh s alive segs b : linked (bpe_syms s) alive segs -> concat segs = word -> texts_ok s -> b ∈ s.2 -> seen (bpe_offer v) word (bpe_syms s) (bpe_erase b) ->
  exists l r, at_z (bpe_syms s) (bb_left b) = Ret l /\ at_z (bpe_syms s) (bb_right b) = Ret r
  /\ ((sy_n l =? 0)%nat || (sy_n r =? 0)%nat = true -> ~ fresh (bpe_syms s) (bpe_erase b))
  /\ ((sy_n l =? 0)%nat || (sy_n r =? 0)%nat = false -> exists g h, Sym.sub word (sy_text l) (sy_n l) = Ret g /\ Sym.sub word (sy_text r) (sy_n r) = Ret h
       /\ (g ++ h = bb_text b <-> fresh (bpe_syms s) (bpe_erase b))).
Proof using.
  intros Hl Hw Hr Hb Hseen. pose proof Hseen as (i & j & si & sj & nl & nr & _ & _ & H1 & H2 & Hi & Hj & _). cbn [bpe_erase en_left en_right] in H1, H2.
  exists si, sj. rewrite H1, H2, !(at_z_Ret (bpe_syms s) (Z.of_nat _) _) by (lia || by rewrite Nat2Z.id). split; [done|]. split; [done|].
  assert (Hfr : fresh (bpe_syms s) (bpe_erase b) <-> sy_n si <> 0%nat /\ sy_n sj <> 0%nat /\ (sy_n si + sy_n sj)%nat = bb_size b).
  { split; [|intros H; exists i, j, si, sj; tauto]. intros (i' & j' & si' & sj' & F1 & F2 & Fi & Fj & N). cbn [bpe_erase en_left en_right en_size] in *.
    assert (i' = i) as -> by lia. assert (j' = j) as -> by lia. assert (si' = si) as -> by congruence. assert (sj' = sj) as -> by congruence. done. }
  destruct (Hr b Hb) as (i2 & si2 & L1 & L2 & L3). assert (i2 = i) as -> by lia. assert (si2 = si) as -> by (unfold bpe_syms in Hi; congruence).
  split; [rewrite Hfr, orb_true_iff, !Nat.eqb_eq; lia|]. rewrite orb_false_iff, !Nat.eqb_neq. intros [N1 N2].
  assert (Hsub : forall x sx, bpe_syms s !! x = Some sx -> sy_n sx <> 0%nat -> exists k g, alive !! k = Some x /\ segs !! k = Some g /\ Sym.sub word (sy_text sx) (sy_n sx) = Ret g).
  { intros x sx Hx Nx. destruct (lk_dead _ _ _ Hl x sx Hx) as [Hin|?]; [|done]. apply list_elem_of_lookup in Hin as [k Hk]. destruct (linked_seg _ _ _ _ _ Hl Hk) as [g Hg].
    exists k, g. split; [done|]. split; [done|]. pose proof (lk_sym _ _ _ Hl k x g Hk Hg) as E. assert (sx = mk_symbol (prev_of alive k) (next_of alive k) (seg_off segs k) (length g)) as -> by congruence. by apply sub_off. }
  destruct (Hsub i si Hi N1) as (k1 & g & K1 & G1 & S1). destruct (Hsub j sj Hj N2) as (k2 & h & K2 & G2 & S2). exists g, h. split; [done|]. split; [done|]. rewrite Hfr. split.
  - intros E. split; [done|]. split; [done|]. apply sub_length in L3, S1, S2. apply (f_equal length) in E. rewrite length_app in E. lia.
  - intros Hsum%Hfr. destruct (fresh_pair (bpe_offer v) word _ alive segs _ Hl Hw Hseen Hsum) as [k Hk].
    apply pair_entry_Some in Hk as (i' & j' & g' & h' & P1 & P2 & P3 & P4 & _ & [= E1 E2 E3]). assert (i' = i) as -> by lia. assert (j' = j) as -> by lia.
    assert (k1 = k) as -> by by eapply linked_inj. assert (k2 = S k) as -> by by eapply linked_inj. assert (g' = g) as -> by congruence. assert (h' = h) as -> by congruence.
    pose proof (lk_sym _ _ _ Hl k i g P1 G1) as E. assert (Et : sy_text si = seg_off segs k) by (assert (si = mk_symbol (prev_of alive k) (next_of alive k) (seg_off segs k) (length g)) as -> by congruence; done).
    rewrite Et, E3, (sub_pair word segs k g h) in L3 by done. congruence.
Qed.

Notation greedy := (greedy (bpe_offer v) worse_rank).
Notation bpe_running := (running (bpe_offer v) word bpe_syms bpe_entries texts_ok).

Lemma build_ok fuel : forall syms q alive segs, bpe_running (syms, q) alive segs -> (length q + 2 * length segs <= fuel + 2)%nat ->
  exists syms' alive', Bpe.build fuel v word syms q = Ret syms' /\ linked syms' alive' (greedy segs) /\ concat (greedy segs) = word.
Proof using Hblank Hline.
  induction fuel as [|fuel IH]; intros syms q alive segs Hrun Hfuel.
  all: pose proof (pop_spec Bpe.less (fun x => later_irr _ rank_irr (bpe_erase x)) (fun x y z => later_tr _ rank_tr (bpe_erase x) (bpe_erase y) (bpe_erase z))
    (fun x y z => later_neg _ rank_irr rank_tr rank_tot (bpe_erase x) (bpe_erase y) (bpe_erase z)) q) as Hpop; cbn [Bpe.build].
  all: destruct (Sym.pop Bpe.less q) as [[b q']|];
    [|exists syms, alive; split; [done|]; rewrite (running_done _ worse_rank word _ _ _ rank_irr rank_tr rank_tot _ alive segs Hrun) by (by subst q); split; apply Hrun].
  all: destruct Hpop as [Hperm Hmax]; pose proof (Permutation_length Hperm) as Hlen; cbn [length] in Hlen.
  { destruct segs; [by destruct (rn_some _ _ _ _ _ _ _ _ Hrun)|simpl in Hfuel; lia]. }
  assert (Hpe : bpe_entries (syms, q) ≡ₚ bpe_erase b :: map bpe_erase q') by (unfold bpe_entries; by rewrite Hperm).
  pose proof Hrun as [Hl Hw Hok Hq _]. assert (Hb : b ∈ q) by (rewrite Hperm; left).
  assert (Hok' : texts_ok (syms, q')) by (intros x Hx; apply Hok; cbn [snd]; rewrite Hperm; by right).
  destruct (text_fresh (syms, q) alive segs b Hl Hw Hok Hb) as (l & r & El & Er & Hd & Hf); [apply (qo_seen _ _ _ _ _ _ Hq); rewrite Hpe; left|].
  change (bpe_syms (syms, q)) with syms in El, Er, Hd, Hf. rewrite El. cbn [mbind outcome_bind]. rewrite Er. cbn [mbind outcome_bind].
  assert (Hdrop : ~ fresh syms (bpe_erase b) -> exists syms' alive', Bpe.build fuel v word syms q' = Ret syms' /\ linked syms' alive' (greedy segs) /\ concat (greedy segs) = word).
  { intros Hn. apply (IH syms q' alive segs); [|lia]. by eapply (running_drop _ _ _ _ _ (syms, q) (syms, q')). }
  destruct ((sy_n l =? 0)%nat || (sy_n r =? 0)%nat); [by apply Hdrop, Hd|].
  destruct (Hf eq_refl) as (g & h & Eg & Eh & Hiff). rewrite Eg. cbn [mbind outcome_bind]. rewrite Eh. cbn [mbind outcome_bind].
  destruct (decide (g ++ h = bb_text b)) as [Et|Et]; [rewrite (bool_decide_eq_true_2 _ Et)|rewrite (bool_decide_eq_false_2 _ Et); cbn [negb]; apply Hdrop; tauto]. cbn [negb].
  assert (Hmax' : forall x, x ∈ bpe_entries (syms, q) -> later worse_rank (bpe_erase b) x = false) by (intros x (y & -> & Hy)%list_elem_of_fmap; by apply Hmax).
  destruct (running_merge _ worse_rank word _ _ _ _ _ bpe_laws rank_irr rank_tr rank_tot (syms, q) (syms, q') alive segs (bpe_erase b) Hrun Hpe Hmax' eq_refl Hok' (proj1 Hiff Et))
    as (syms1 & l' & s1 & s2 & alive1 & segs1 & E1 & E2 & E3 & E4 & Hrun2 & Hf2 & _ & Hgr & _).
  cbn [bpe_erase en_left en_right bpe_syms fst] in *. rewrite E1. cbn [mbind outcome_bind]. rewrite E2. cbn [mbind outcome_bind].
  unfold bpe_add in E3, E4. cbn [bpe_with fst snd] in E3. destruct (Bpe.add_new_bigram v word syms1 q' _ _) as [q1| | | |]; try done. injection E3 as <-.
  cbn [fst snd mbind outcome_bind] in *. destruct (Bpe.add_new_bigram v word syms1 q1 _ _) as [q2| | | |]; try done. injection E4 as <-.
  cbn [mbind outcome_bind]. rewrite Hgr. eapply IH; [exact Hrun2|]. unfold bpe_entries in Hf2. cbn [snd] in Hf2. rewrite !length_map in Hf2. lia.
Qed.

End Word.

(** ** The symbols that are left *)

(** The elements of a list that hold something, in order. *)
Lemma flat_map_sparse {A B} (f : A -> list B) (l : list A) : forall base alive (outs : list B),
  (forall x a, l !! x = Some a -> (base + x)%nat ∈ alive \/ f a = []) ->
  (forall k i, alive !! k = Some i -> exists x a o, i = (base + x)%nat /\ l !! x = Some a /\ outs !! k = Some o /\ f a = [o]) ->
  (forall k1 k2 i1 i2, alive !! k1 = Some i1 -> alive !! k2 = Some i2 -> (k1 < k2)%nat -> (i1 < i2)%nat) ->
  length alive = length outs -> flat_map f l = outs.
Proof.
  induction l as [|a l IH]; intros base alive outs Hd Ha Hs Hlen.
  - destruct alive as [|i alive]; [by destruct outs|]. destruct (Ha 0%nat i eq_refl) as (x & a & o & _ & H & _). done.
  - cbn [flat_map]. destruct (decide (base ∈ alive)) as [Hin|Hnot].
    + apply list_elem_of_lookup in Hin as [k Hk]. assert (k = 0%nat) as ->.
      { destruct k as [|k]; [done|]. destruct alive as [|i alive]; [done|]. pose proof (Hs 0%nat (S k) i base eq_refl Hk ltac:(lia)).
        destruct (Ha 0%nat i eq_refl) as (x & _ & _ & -> & _). lia. }
      destruct alive as [|i alive]; [done|]. injection Hk as ->. destruct outs as [|o outs]; [done|].
      destruct (Ha 0%nat base eq_refl) as (x & a' & o' & Ex & El & Eo & Ef). assert (x = 0%nat) as -> by lia. injection El as <-. injection Eo as <-. rewrite Ef. cbn [app]. f_equal.
      assert (Hgt : forall k i, alive !! k = Some i -> (base < i)%nat) by (intros k i Hk; apply (Hs 0%nat (S k)); [done|done|lia]).
      apply (IH (S base) alive); [| | |simpl in Hlen; lia].
      * intros x y Hx. destruct (Hd (S x) y Hx) as [H|H]; [left|by right]. apply elem_of_cons in H as [H|H]; [lia|]. by rewrite Nat.add_succ_comm.
      * intros k i Hk. destruct (Ha (S k) i Hk) as ([|x] & y & o2 & -> & Hy & Ho & Hf); [specialize (Hgt k _ Hk); lia|]. exists x, y, o2. split; [lia|done].
      * intros k1 k2 i1 i2 H1 H2 H3. apply (Hs (S k1) (S k2)); [done|done|lia].
    + destruct (Hd 0%nat a eq_refl) as [H|H]; [by rewrite Nat.add_0_r in H|]. rewrite H. apply (IH (S base) alive); [| |done|done].
      * intros x y Hx. rewrite Nat.add_succ_comm. by apply (Hd (S x)).
      * intros k i Hk. destruct (Ha k i Hk) as ([|x] & y & o2 & -> & Hy & Ho & Hf); [destruct Hnot; rewrite Nat.add_0_r in Hk; by eapply list_elem_of_lookup_2|].
        exists x, y, o2. split; [lia|done].
Qed.

Lemma symbol_texts word syms alive segs : linked syms alive segs -> concat segs = word ->
  foldM (fun texts s => if (0 <? sy_n s)%nat then text ← Sym.sub word (sy_text s) (sy_n s); Ret (texts ++ [text]) else Ret texts) [] syms = Ret segs.
Proof.
  intros Hl Hw. set (f := fun s => if (0 <? sy_n s)%nat then [take (sy_n s) (drop (sy_text s) word)] else []).
  assert (Hf : forall k i g, alive !! k = Some i -> segs !! k = Some g -> exists s, syms !! i = Some s /\ Sym.sub word (sy_text s) (sy_n s) = Ret g /\ f s = [g]).
  { intros k i g Hi Hg. pose proof (lk_sym _ _ _ Hl k i g Hi Hg) as Hs. eexists. split; [exact Hs|]. pose proof (sub_off word segs k g (eq_sym Hw) Hg) as E. split; [done|].
    unfold f. cbn [sy_n sy_text]. rewrite (proj2 (Nat.ltb_lt _ _)) by by eapply full_pos. unfold Sym.sub in E. destruct (_ <=? _)%nat; [|done]. by injection E as ->. }
  assert (E : flat_map f syms = segs).
  { apply (flat_map_sparse f syms 0 alive segs); [| |apply (lk_sorted _ _ _ Hl)|apply (lk_len _ _ _ Hl)].
    - intros x s Hx. destruct (lk_dead _ _ _ Hl x s Hx) as [H|H]; [by left|right]. unfold f. by rewrite H.
    - intros k i Hk. destruct (linked_seg _ _ _ _ _ Hl Hk) as [g Hg]. destruct (Hf k i g Hk Hg) as (s & Hs & _ & Ef). by exists i, s, g. }
  rewrite (foldM_append _ f); [cbn [app]; by rewrite E|]. intros s texts Hs. apply list_elem_of_lookup in Hs as [x Hx].
  destruct (Nat.ltb_spec 0 (sy_n s)) as [Hpos|Hz].
  - destruct (lk_dead _ _ _ Hl x s Hx) as [Hin|?]; [|lia]. apply list_elem_of_lookup in Hin as [k Hk]. destruct (linked_seg _ _ _ _ _ Hl Hk) as [g Hg].
    destruct (Hf k x g Hk Hg) as (s' & Hs' & E1 & E2). assert (s' = s) as -> by congruence. by rewrite E1, E2.
  - unfold f. rewrite (proj2 (Nat.ltb_ge _ _)) by lia. by rewrite app_nil_r.
Qed.

(** ** The whole tokenizer *)

(** A word as the pre-tokenizer makes them: bytes without blanks and line ends. *)
Definition word_ok word : Prop := is_bytes word /\ 32 ∉ word /\ 10 ∉ word.

#[export] Instance word_ok_dec word : Decision (word_ok word).
Proof. unfold word_ok, is_bytes. apply _. Defined.

Section Tokenize.
Context (v : llama_vocab).
Hypotheses (Hv : vocab_ok v).

Lemma seed_build word syms segs : word_ok word -> linked syms (seq 0 (length segs)) segs -> concat segs = word -> length syms = length segs -> segs <> [] ->
  exists q syms' alive', Bpe.seed v word syms = Ret q /\ Bpe.build (4 * length syms) v word syms q = Ret syms'
    /\ linked syms' alive' (greedy (bpe_offer v) worse_rank segs) /\ concat (greedy (bpe_offer v) worse_rank segs) = word.
Proof using.
  intros (Hb & Hsp & Hnl) Hl Hw Hlen Hne.
  destruct (seed_session _ word _ _ _ _ _ (bpe_laws v word Hsp Hnl) (syms, []) segs Hl Hw) as ([syms1 q] & E & Hs & Hok & Hq & Hlq); [by intros b Hb2%elem_of_nil|done|].
  cbn [bpe_syms fst] in Hs. subst syms1. exists q.
  destruct (build_ok v word Hsp Hnl (4 * length syms) syms q (seq 0 (length segs)) segs) as (syms' & alive' & E2 & H).
  { by constructor. }
  { unfold bpe_entries in Hlq. cbn [snd] in Hlq. rewrite length_map in Hlq. assert (segs <> [] -> 0 < length segs)%nat by (destruct segs; simpl; [done|lia]). lia. }
  exists syms', alive'. split; [|done]. unfold Bpe.seed. rewrite Hlen.
  enough (F : forall l s, foldM (fun s i => bpe_add v word s (Z.of_nat i - 1) (Z.of_nat i)) s l
    = (q ← foldM (fun q i => Bpe.add_new_bigram v word s.1 q (Z.of_nat i - 1) (Z.of_nat i)) s.2 l; Ret (s.1, q))).
  { rewrite F in E. cbn [fst snd] in E. destruct (foldM _ [] _) as [q'| | | |]; try done. by injection E as ->. }
  clear. induction l as [|i l IH]; intros [syms q]; [done|]. cbn [foldM fst snd].
  change (bpe_add v word (syms, q) (Z.of_nat i - 1) (Z.of_nat i)) with (q' ← Bpe.add_new_bigram v word syms q (Z.of_nat i - 1) (Z.of_nat i); Ret (syms, q')).
  destruct (Bpe.add_new_bigram _ _ _ _ _ _) as [q'| | | |]; cbn [mbind outcome_bind]; done.
Qed.

Lemma whole_linked word : word <> [] -> linked [mk_symbol (-1) (-1) 0 (length word)] (seq 0 1) [word].
Proof using.
  intros Hne. constructor; [done| | | |].
  - intros k i g H1 H2. apply lookup_seq in H1 as [-> Hk]. assert (k = 0%nat) as -> by lia. by injection H2 as <-.
  - by intros g ->%list_elem_of_singleton.
  - intros k1 k2 i1 i2 [-> _]%lookup_seq [-> _]%lookup_seq. lia.
  - intros [|x] s H; [left; left|done].
Qed.

(** A word that is a token is a fixed point of the reference. *)
Lemma greedy_single offer worse (g : list Z) : greedy offer worse [g] = [g].
Proof using. done. Qed.

Lemma word_symbols_ok word : word_ok word -> word <> [] ->
  exists syms segs, Bpe.word_symbols v word = Ret syms /\ linked syms (seq 0 (length segs)) segs /\ concat segs = word /\ length syms = length segs /\ segs <> []
    /\ bpe_parts v word = greedy (bpe_offer v) worse_rank segs.
Proof using Hv.
  intros (Hb & _) Hne. unfold Bpe.word_symbols, bpe_parts, whole_word. rewrite (bool_decide_eq_true_2 (word <> [])), andb_true_r by done.
  assert (Hwh : (if ignore_merges v then token ← Voc.text_to_token v word; Ret (negb (token =? LLAMA_TOKEN_NULL)) else Ret false)
    = Ret (ignore_merges v && bool_decide (is_Some (token_to_id v !! word)))).
  { destruct (ignore_merges v); [|done]. rewrite text_to_token_ok by done. cbn [mbind outcome_bind andb]. f_equal. destruct (token_to_id v !! word) as [id|] eqn:E; [|done].
    destruct (vo_ids v Hv word id E) as (d & Hr & _). unfold from_option, Datatypes.id. by rewrite (proj2 (Z.eqb_neq _ _)) by (unfold LLAMA_TOKEN_NULL; lia). }
  rewrite Hwh. cbn [mbind outcome_bind]. destruct (ignore_merges v && bool_decide (is_Some (token_to_id v !! word))).
  - eexists _, [word]. split; [reflexivity|]. split; [by apply whole_linked|]. split; [simpl; by rewrite app_nil_r|]. done.
  - destruct (split_linked word Hb) as (syms & -> & Hlen & Hl). pose proof (concat_chars word Hb) as Hc. exists syms, (chars word).
    split; [done|]. split; [done|]. split; [done|]. split; [done|]. split; [|done]. intros E. rewrite E in Hc. by subst.
Qed.

Lemma word_texts_ok word : word_ok word -> Bpe.word_texts v word = Ret (bpe_parts v word).
Proof using Hv.
  intros Hok. unfold Bpe.word_texts. destruct (decide (word = [])) as [->|Hne].
  - unfold Bpe.word_symbols, bpe_parts, whole_word. rewrite andb_false_r.
    destruct (ignore_merges v); [rewrite text_to_token_ok by done; cbn [mbind outcome_bind]; by destruct (negb _)|done].
  - destruct (word_symbols_ok word Hok Hne) as (syms & segs & -> & Hl & Hw & Hlen & Hsn & ->). cbn [mbind outcome_bind].
    destruct (seed_build word syms segs Hok Hl Hw Hlen Hsn) as (q & syms' & alive' & -> & E & Hl' & Hw').
    cbn [mbind outcome_bind]. rewrite E. cbn [mbind outcome_bind]. by eapply symbol_texts.
Qed.

Lemma bpe_emit_ok out g : Bpe.emit v out g = Ret (out ++ bpe_ids v g).
Proof using Hv.
  unfold Bpe.emit, bpe_ids. rewrite text_to_token_ok by done. cbn [mbind outcome_bind].
  destruct (token_to_id v !! g) as [id|] eqn:E; unfold from_option, Datatypes.id.
  - destruct (vo_ids v Hv g id E) as (d & Hr & _). by rewrite (proj2 (Z.eqb_neq _ _)) by (unfold LLAMA_TOKEN_NULL; lia).
  - rewrite Z.eqb_refl. rewrite (foldM_append _ (fun c => option_list (token_to_id v !! [c]))).
    + do 2 f_equal. clear. induction g as [|c g IH]; [done|]. simpl. rewrite IH. by destruct (token_to_id v !! [c]).
    + intros c o _. rewrite text_to_token_ok by done. cbn [mbind outcome_bind]. destruct (token_to_id v !! [c]) as [id|] eqn:Ec; unfold from_option, Datatypes.id.
      * destruct (vo_ids v Hv [c] id Ec) as (d & Hr & _). by rewrite (proj2 (Z.eqb_neq _ _)) by (unfold LLAMA_TOKEN_NULL; lia).
      * rewrite Z.eqb_refl. simpl. by rewrite app_nil_r.
Qed.

Lemma bpe_tokenize_ok words out : Forall word_ok words ->
  Bpe.tokenize_words v words out = Ret (out ++ flat_map (bpe_ids v) (flat_map (bpe_parts v) words)).
Proof using Hv.
  intros Hw. unfold Bpe.tokenize_words. rewrite (foldM_append _ (bpe_parts v)).
  - cbn [mbind outcome_bind app]. apply foldM_append. intros g o _. apply bpe_emit_ok.
  - intros word texts Hin. rewrite Forall_forall in Hw. by rewrite word_texts_ok by auto.
Qed.

End Tokenize.
