(* ===== verification/TextFacts.v ===== *)
(** * Searching and replacing in texts of UTF-8 characters. *)

From S2P Require Import Prelude Utf8 Utf8Facts Vocabulary VocabText MergeFacts.
From Stdlib Require Import Lia.

Implicit Types (s g search replace : list Z) (cs : list (list Z)) (k n : nat).

(** ** Searching *)

Lemma is_prefix_spec g s : Text.is_prefix g s = true <-> g `prefix_of` s.
Proof.
  revert s. induction g as [|a g IH]; intros s; [split; [intros _; apply prefix_nil|done]|]. destruct s as [|b s]; simpl.
  - split; [done|]. intros H. by apply prefix_nil_not in H.
  - rewrite andb_true_iff, Z.eqb_eq, IH. split; [intros [-> H]; by apply prefix_cons|]. intros H. split; [by apply prefix_cons_inv_1 in H|by apply prefix_cons_inv_2 in H].
Qed.

Lemma occurs_spec g s :
  match Text.occurs g s with
  | Some k => g `prefix_of` drop k s /\ (k <= length s)%nat /\ forall k', (k' < k)%nat -> ~ g `prefix_of` drop k' s
  | None => forall k, ~ g `prefix_of` drop k s
  end.
Proof.
  induction s as [|c s IH]; cbn [Text.occurs].
  - pose proof (is_prefix_spec g []) as Hp. destruct (Text.is_prefix g []); [by split; [apply Hp|split; [simpl; lia|lia]]|].
    intros k H. rewrite drop_nil in H. by apply Hp in H.
  - pose proof (is_prefix_spec g (c :: s)) as Hp. destruct (Text.is_prefix g (c :: s)); [by split; [apply Hp|split; [simpl; lia|lia]]|].
    assert (H0 : ~ g `prefix_of` c :: s) by (intros H; by apply Hp in H).
    destruct (Text.occurs g s) as [k|]; cbn [fmap option_fmap option_map].
    + destruct IH as (H1 & H2 & H3). split; [done|]. split; [simpl; lia|]. intros [|k'] Hk'; [done|]. apply H3. lia.
    + intros [|k]; [done|apply IH].
Qed.

Lemma str_find_spec s search pos : (pos <= length s)%nat ->
  match Text.str_find s search pos with
  | Some m => (pos <= m <= length s)%nat /\ search `prefix_of` drop m s /\ forall k, (pos <= k < m)%nat -> ~ search `prefix_of` drop k s
  | None => forall k, (pos <= k)%nat -> ~ search `prefix_of` drop k s
  end.
Proof.
  intros Hp. unfold Text.str_find. rewrite (proj2 (Nat.leb_le _ _) Hp). pose proof (occurs_spec search (drop pos s)) as H.
  destruct (Text.occurs search (drop pos s)) as [k|]; cbn [fmap option_fmap option_map].
  - destruct H as (H1 & H2 & H3). rewrite length_drop in H2. rewrite drop_drop in H1. split; [lia|]. split; [done|]. intros k' Hk'.
    specialize (H3 (k' - pos)%nat ltac:(lia)). rewrite drop_drop in H3. by replace (pos + (k' - pos))%nat with k' in H3 by lia.
  - intros k Hk. specialize (H (k - pos)%nat). rewrite drop_drop in H. by replace (pos + (k - pos))%nat with k in H by lia.
Qed.

(** ** Texts cut into characters *)

Lemma drop_off cs n g r : cs !! n = Some g -> (r <= length g)%nat -> drop (seg_off cs n + r) (concat cs) = drop r g ++ concat (drop (S n) cs).
Proof.
  intros Hg Hr. assert (E : concat cs = concat (take n cs) ++ g ++ concat (drop (S n) cs)).
  { rewrite <- (take_drop n cs) at 1. by rewrite (drop_S _ _ _ Hg), concat_app. }
  rewrite E. unfold seg_off. rewrite <- drop_drop, drop_app_length. by rewrite drop_app_le.
Qed.

Lemma seg_off_mono cs k n : (k <= n)%nat -> (seg_off cs k <= seg_off cs n)%nat.
Proof.
  intros H. induction n as [|n IH]; [by assert (k = 0%nat) as -> by lia|]. destruct (decide (k = S n)) as [->|Hne]; [lia|].
  destruct (cs !! n) as [g|] eqn:E; [rewrite (seg_off_S cs n g) by done; specialize (IH ltac:(lia)); lia|].
  apply lookup_ge_None in E. unfold seg_off in *. rewrite (take_ge cs (S n)) by lia. rewrite (take_ge cs n) in IH by lia. apply IH. lia.
Qed.

Lemma seg_off_le cs n : (seg_off cs n <= length (concat cs))%nat.
Proof. unfold seg_off. rewrite <- (take_drop n cs) at 2. rewrite concat_app, length_app. lia. Qed.

(** Every byte is in some character. *)
Lemma seg_locate cs k : (k < length (concat cs))%nat -> exists n g r, cs !! n = Some g /\ k = (seg_off cs n + r)%nat /\ (r < length g)%nat.
Proof.
  revert k. induction cs as [|g cs IH]; intros k Hk; [simpl in Hk; lia|]. simpl in Hk. rewrite length_app in Hk.
  destruct (decide (k < length g)%nat) as [Hlt|Hge]; [by exists 0%nat, g, k|].
  destruct (IH (k - length g)%nat ltac:(lia)) as (n & g' & r & Hg & E & Hr). exists (S n), g', r. split; [done|]. split; [|done].
  unfold seg_off in *. simpl. rewrite length_app. lia.
Qed.

(** ** Replacing *)

Definition replaced search replace g : list Z := if decide (g = search) then replace else g.

(** The text occurs only as a whole character. *)
Definition aligned search cs : Prop := forall k, search `prefix_of` drop k (concat cs) -> exists n, k = seg_off cs n /\ cs !! n = Some search.

Lemma map_replaced_id search replace cs : search ∉ cs -> map (replaced search replace) cs = cs.
Proof.
  induction cs as [|g cs IH]; [done|]. intros H. simpl. unfold replaced at 1. rewrite decide_False by set_solver. f_equal. apply IH. set_solver.
Qed.

Lemma aligned_drop search cs n : search <> [] -> aligned search cs -> aligned search (drop n cs).
Proof.
  intros Hne Ha k Hk. assert (E : drop (seg_off cs n + k) (concat cs) = drop k (concat (drop n cs))).
  { rewrite <- (take_drop n cs) at 2. rewrite concat_app. unfold seg_off. by rewrite <- drop_drop, drop_app_length. }
  rewrite <- E in Hk. destruct (Ha _ Hk) as (m & Em & Hm). assert (Hle : (n <= m)%nat).
  { destruct (decide (n <= m)%nat) as [|Hgt]; [done|]. pose proof (seg_off_mono cs (S m) n ltac:(lia)) as H. rewrite (seg_off_S cs m search) in H by done.
    assert (0 < length search)%nat by (destruct search; [done|simpl; lia]). lia. }
  exists (m - n)%nat. rewrite lookup_drop. replace (n + (m - n))%nat with m by lia. split; [|done].
  assert (Es : seg_off cs m = (seg_off cs n + seg_off (drop n cs) (m - n))%nat).
  { unfold seg_off. rewrite <- length_app, <- concat_app. do 2 f_equal. rewrite <- (take_drop n cs) at 1. destruct (decide (n <= length cs)%nat).
    - rewrite take_app_ge by (rewrite length_take; lia). by rewrite length_take, Nat.min_l by lia.
    - rewrite take_ge by (rewrite length_app, length_take, length_drop; lia). rewrite (take_ge (drop n cs)) by (rewrite length_drop; lia). done. }
  lia.
Qed.

Lemma replace_loop_ok search replace fuel : search <> [] -> forall s last builder cs, drop last s = concat cs -> (last <= length s)%nat -> aligned search cs ->
  (length (concat cs) <= fuel)%nat -> Text.replace_loop fuel s search replace last builder = Ret (builder ++ concat (map (replaced search replace) cs)).
Proof.
  intros Hne. assert (Hpos : (0 < length search)%nat) by (destruct search; [done|simpl; lia]).
  induction fuel as [|fuel IH]; intros s last builder cs Hs Hl Ha Hf; cbn [Text.replace_loop]; unfold Text.str_find; rewrite (proj2 (Nat.leb_le _ _) Hl).
  all: pose proof (occurs_spec search (drop last s)) as Hocc; rewrite Hs in *; destruct (Text.occurs search (concat cs)) as [k|]; cbn [fmap option_fmap option_map].
  2,4: rewrite map_replaced_id; [done|]; intros [n Hn]%list_elem_of_lookup; apply (Hocc (seg_off cs n)); rewrite <- (Nat.add_0_r (seg_off cs n));
       rewrite (drop_off cs n search 0) by (done || lia); by apply prefix_app_r.
  all: destruct Hocc as (Hp & Hk & Hmin); pose proof (prefix_length _ _ Hp) as Hlp; rewrite length_drop in Hlp.
  { lia. }
  destruct (Ha k Hp) as (n & -> & Hn). pose proof (seg_off_S cs n search Hn) as HS.
  assert (Hcs : concat cs = concat (take n cs) ++ search ++ concat (drop (S n) cs)).
  { rewrite <- (take_drop n cs) at 1. by rewrite (drop_S _ _ _ Hn), concat_app. }
  assert (Hlen : length (drop last s) = length (concat cs)) by by rewrite Hs. rewrite length_drop in Hlen.
  rewrite (IH s _ _ (drop (S n) cs)).
  - f_equal. replace (last + seg_off cs n - last)%nat with (seg_off cs n) by lia. rewrite Hcs. unfold seg_off at 1. rewrite take_app_length.
    assert (E : map (replaced search replace) cs = take n cs ++ replace :: map (replaced search replace) (drop (S n) cs)); [|by rewrite E, concat_app, <- !app_assoc].
    rewrite <- (take_drop n cs) at 1. rewrite (drop_S _ _ _ Hn), map_app. cbn [map]. unfold replaced at 2. rewrite decide_True by done.
    f_equal. apply map_replaced_id.
    intros [m Hm]%list_elem_of_lookup. apply lookup_take_Some in Hm as [Hm Hlt]. pose proof (seg_off_S cs m search Hm) as E.
    pose proof (seg_off_mono cs (S m) n ltac:(lia)). apply (Hmin (seg_off cs m)); [lia|]. rewrite <- (Nat.add_0_r (seg_off cs m)), (drop_off cs m search 0) by (done || lia).
    by apply prefix_app_r.
  - rewrite <- !drop_drop, Hs. rewrite Hcs. unfold seg_off. by rewrite drop_app_length, drop_app_length.
  - lia.
  - by apply aligned_drop.
  - rewrite Hcs, !length_app in Hf. lia.
Qed.

Lemma replace_all_ok search replace cs : search <> [] -> aligned search cs ->
  Text.replace_all (concat cs) search replace = Ret (concat (map (replaced search replace) cs)).
Proof.
  intros Hne Ha. unfold Text.replace_all. rewrite decide_False by done. by rewrite (replace_loop_ok search replace _ Hne _ 0 [] cs) by (done || lia).
Qed.

(** ** UTF-8 *)

Definition cont_byte (x : Z) : Prop := 128 <= x < 192.

(** A first byte and the continuation bytes it announces. *)
Definition utf8_char g : Prop :=
  match g with
  | [] => False
  | c :: t => 0 <= c < 256 /\ ~ cont_byte c /\ length g = Z.to_nat (Unicode.unicode_len_utf8 c) /\ Forall cont_byte t
  end.

#[export] Instance cont_byte_dec x : Decision (cont_byte x).
Proof. unfold cont_byte. apply _. Defined.
#[export] Instance utf8_char_dec g : Decision (utf8_char g).
Proof. destruct g; unfold utf8_char; apply _. Defined.

Lemma utf8_char_bytes g : utf8_char g -> is_bytes g.
Proof.
  destruct g as [|c t]; [done|]. intros (Hc & _ & _ & Ht). constructor; [done|]. eapply Forall_impl; [exact Ht|]. unfold cont_byte. intros; lia.
Qed.

Lemma utf8_chars_bytes cs : Forall utf8_char cs -> is_bytes (concat cs).
Proof. induction 1 as [|g cs Hg _ IH]; [constructor|]. simpl. apply Forall_app. by split; [apply utf8_char_bytes|]. Qed.

(** A text of characters is cut into them. *)
Lemma chars_concat cs : Forall utf8_char cs -> chars (concat cs) = cs.
Proof.
  induction 1 as [|g cs Hg Hcs IH]; [done|]. simpl. destruct g as [|c t]; [done|]. pose proof Hg as (_ & _ & Hl & _). cbn [app].
  rewrite chars_step by exact (utf8_chars_bytes ((c :: t) :: cs) (Forall_cons_2 _ _ _ Hg Hcs)).
  assert (E : char_len (c :: t ++ concat cs) c = length (c :: t)) by (unfold char_len; rewrite <- Hl; simpl; rewrite length_app; lia).
  rewrite E, app_comm_cons, take_app_length, drop_app_length. by rewrite IH.
Qed.

(** A character occurs in such a text only as one of its characters. *)
Lemma utf8_aligned search cs : utf8_char search -> Forall utf8_char cs -> aligned search cs.
Proof.
  intros Hs Hcs k Hp. destruct search as [|c t]; [done|]. pose proof (prefix_length _ _ Hp) as Hl. rewrite length_drop in Hl. simpl in Hl.
  destruct (seg_locate cs k ltac:(lia)) as (n & g & r & Hg & -> & Hr). exists n. rewrite (drop_off cs n g r) in Hp by (done || lia).
  rewrite Forall_lookup in Hcs. pose proof (Hcs n g Hg) as Hug. destruct g as [|a u]; [done|]. destruct Hs as (_ & Hnc & Hlen & _). destruct Hug as (_ & _ & Hlen' & Hu).
  destruct r as [|r].
  - split; [lia|]. rewrite Hg. f_equal. simpl in Hp. pose proof (prefix_cons_inv_1 _ _ _ _ Hp) as ->. rewrite <- Hlen in Hlen'.
    destruct Hp as [rest E]. rewrite app_comm_cons in E. by apply app_inj_1 in E as [-> _].
  - exfalso. simpl in Hr, Hp. destruct (drop r u) as [|b u'] eqn:E; [apply (f_equal length) in E; rewrite length_drop in E; simpl in E; lia|].
    cbn [app] in Hp. pose proof (prefix_cons_inv_1 _ _ _ _ Hp) as ->. apply Hnc. rewrite Forall_lookup in Hu. apply (Hu r).
    rewrite <- (Nat.add_0_r r), <- lookup_drop, E. done.
Qed.

(** ** Spaces *)

Definition space : list Z := [32].

Lemma utf8_space : utf8_char space.
Proof. by apply (bool_decide_eq_true_1 (utf8_char space)). Qed.
Lemma utf8_block : utf8_char Text.LOWER_BLOCK.
Proof. by apply (bool_decide_eq_true_1 (utf8_char Text.LOWER_BLOCK)). Qed.

Notation escape_char := (replaced space Text.LOWER_BLOCK).
Notation unescape_char := (replaced Text.LOWER_BLOCK space).

Lemma utf8_replaced search replace g : utf8_char replace -> utf8_char g -> utf8_char (replaced search replace g).
Proof. intros H1 H2. unfold replaced. by destruct (decide _). Qed.

Lemma escape_ok cs : Forall utf8_char cs -> Text.llama_escape_whitespace (concat cs) = Ret (concat (map escape_char cs)).
Proof. intros H. apply replace_all_ok; [done|]. apply utf8_aligned; [apply utf8_space|done]. Qed.

Lemma unescape_ok cs : Forall utf8_char cs -> Text.llama_unescape_whitespace (concat cs) = Ret (concat (map unescape_char cs)).
Proof. intros H. apply replace_all_ok; [done|]. apply utf8_aligned; [apply utf8_block|done]. Qed.

Lemma unescape_escape cs : Text.LOWER_BLOCK ∉ cs -> map unescape_char (map escape_char cs) = cs.
Proof.
  intros H. rewrite map_map. rewrite <- (map_id cs) at 2. apply map_ext_in. intros g Hg%list_elem_of_In. unfold replaced.
  destruct (decide (g = space)) as [->|Hs]; [done|]. rewrite decide_False; [done|]. by intros ->.
Qed.
