(* ===== verification/DetokenizeFacts.v ===== *)
(** * Detokenizing: the text does not depend on the size of the buffer, and the
    passes that clean spaces compute a function on texts. *)

From S2P Require Import Prelude Utf8 Utf8Facts Vocabulary VocabText.
From Stdlib Require Import Lia.

Implicit Types (v : llama_vocab) (s text tokens : list Z) (total i k : nat).

(** ** Pieces *)

(** What a function that fills a buffer of [len] bytes returns. *)
Definition fit (len : Z) s : Z * list Z := if len <? Z.of_nat (length s) then (- Z.of_nat (length s), []) else (Z.of_nat (length s), s).

(** The text of [tokens] when the first one is asked to leave a leading space out. *)
Definition spelled (piece : Z -> bool -> list Z) (remove : bool) tokens : list Z :=
  match tokens with
  | [] => []
  | t :: rest => piece t remove ++ flat_map (fun t => piece t false) rest
  end.

Lemma spelled_false piece tokens : spelled piece false tokens = flat_map (fun t => piece t false) tokens.
Proof. by destruct tokens. Qed.

(** The texts of tokens, whatever the buffer. *)
Definition spells v (special : bool) (piece : Z -> bool -> list Z) tokens : Prop :=
  forall t remove len, t ∈ tokens -> 0 <= len -> Text.token_to_piece v t len (if remove : bool then 1 else 0) special = Ret (fit len (piece t remove)).

(** The state of the loop after a text: it still fits, or it does not. *)
Definition detok_inv (max : Z) text (st : Detok.detok_state) : Prop :=
  Detok.dt_total st = Z.of_nat (length text)
  /\ (if Z.of_nat (length text) <=? max then Detok.dt_avail st = max - Z.of_nat (length text) /\ Detok.dt_text st = text else Detok.dt_avail st = 0).

Lemma detok_loop v special piece max tokens : forall st done_, spells v special piece tokens -> detok_inv max done_ st -> 0 <= max ->
  Z.of_nat (length (done_ ++ spelled piece (Detok.dt_remove_space st) tokens)) < 2 ^ 31 ->
  exists st', foldM (Detok.detok_step v special) st tokens = Ret st' /\ detok_inv max (done_ ++ spelled piece (Detok.dt_remove_space st) tokens) st'.
Proof.
  induction tokens as [|t tokens IH]; intros st done_ Hp [Htot Hst] Hmax Hlen; [exists st; split; [done|by rewrite app_nil_r]|].
  cbn [foldM]. cbn [spelled] in Hlen |- *. set (p := piece t (Detok.dt_remove_space st)) in *. rewrite app_assoc, <- spelled_false in Hlen |- *.
  enough (Hstep : exists st1, Detok.detok_step v special st t = Ret st1 /\ Detok.dt_remove_space st1 = false /\ detok_inv max (done_ ++ p) st1).
  { destruct Hstep as (st1 & E & Hr & Hinv). rewrite E. cbn [mbind outcome_bind]. rewrite <- Hr in Hlen |- *. apply (IH st1 (done_ ++ p)); [|done|done|done].
    intros t' r len Ht. apply Hp. by right. }
  assert (Hav : 0 <= Detok.dt_avail st) by (destruct (Z.leb_spec (Z.of_nat (length done_)) max); lia).
  unfold Detok.detok_step. rewrite (proj2 (Z.leb_le _ _) Hav). cbn [c_assert mbind outcome_bind]. rewrite (Hp t (Detok.dt_remove_space st)) by (done || left). fold p.
  rewrite !length_app in Hlen. cbn [mbind outcome_bind]. unfold fit, detok_inv. rewrite length_app, Nat2Z.inj_add.
  destruct (Z.ltb_spec (Detok.dt_avail st) (Z.of_nat (length p))) as [Hlt|Hge].
  - rewrite (proj2 (Z.ltb_lt _ _)) by lia. rewrite (proj2 (Z.leb_gt _ _)) by lia. eexists. split; [reflexivity|]. cbn [Detok.dt_total Detok.dt_avail Detok.dt_text]. split; [done|].
    split; [lia|]. destruct (Z.leb_spec (Z.of_nat (length done_)) max); rewrite (proj2 (Z.leb_gt _ _)) by lia; done.
  - rewrite (proj2 (Z.ltb_ge _ _)) by lia. destruct (Z.ltb_spec 0 (Z.of_nat (length p))) as [Hpos|Hz].
    + rewrite (proj2 (Z.leb_gt _ _)) by lia. eexists. split; [reflexivity|]. cbn [Detok.dt_total Detok.dt_avail Detok.dt_text]. split; [done|]. split; [lia|].
      destruct (Z.leb_spec (Z.of_nat (length done_)) max) as [Hfit|Hno]; [|lia]. destruct Hst as [Ha ->]. rewrite (proj2 (Z.leb_le _ _)) by lia. split; [lia|done].
    + assert (p = []) as -> by (destruct p; [done|simpl in Hz; lia]). eexists. split; [reflexivity|]. cbn [Detok.dt_total Detok.dt_avail Detok.dt_text length Z.of_nat]. split; [done|].
      rewrite Z.add_0_r, app_nil_r. done.
Qed.

(** ** Cleaning: what the passes compute *)

(** A space goes when what follows passes the test. *)
Fixpoint clean_with (test : list Z -> bool) s : list Z :=
  match s with
  | [] => []
  | a :: rest => if (a =? 32) && test rest then clean_with test rest else a :: clean_with test rest
  end.

Definition punct_next s : bool := match s with x :: _ => Detok.is_punct x | [] => false end.

(** 's, 'm, 're and 've *)
Definition contraction_next s : bool :=
  match s with
  | a :: x1 :: rest =>
      (a =? 39) && ((x1 =? ch "s") || (x1 =? ch "m")
                    || match rest with x2 :: _ => ((x1 =? ch "r") || (x1 =? ch "v")) && (x2 =? ch "e") | [] => false end)
  | _ => false
  end.

(** A single apostrophe between spaces loses both. *)
Fixpoint clean_apostrophes s : list Z :=
  match s with
  | [] => []
  | a :: rest =>
      match rest with
      | b :: c :: rest' => if (a =? 32) && (b =? 39) && (c =? 32) then 39 :: clean_apostrophes rest' else a :: clean_apostrophes rest
      | _ => a :: clean_apostrophes rest
      end
  end.

Definition clean_text s : list Z := clean_with contraction_next (clean_apostrophes (clean_with punct_next s)).

(** *** The passes that drop spaces *)

Section Pass.
Context (test : list Z -> bool) (step : list Z * nat -> nat -> outcome (list Z * nat)) (orig : list Z).
Hypothesis (Hnil : test [] = false).
Hypothesis (Hstep : forall t k i x a, orig !! i = Some x -> orig !! (i - 1)%nat = Some a -> (1 <= i)%nat -> (forall j, (i - 1 <= j < length orig)%nat -> t !! j = orig !! j) ->
  (1 <= k)%nat -> step (t, k) i = (let k' := if (a =? 32) && test (drop i orig) then (k - 1)%nat else k in Detok.put (t, k') k' x)).

(** Before index [i]: the last byte written is that before [i], and it may go. *)
Definition pass_inv (t : list Z) k i : Prop :=
  (1 <= k <= i)%nat /\ (length orig <= length t)%nat /\ t !! (k - 1)%nat = orig !! (i - 1)%nat
  /\ (forall j, (i - 1 <= j < length orig)%nat -> t !! j = orig !! j)
  /\ take (k - 1) t ++ clean_with test (drop (i - 1) orig) = clean_with test orig.

Lemma put_ok t k x : (k < length t)%nat -> Detok.put (t, k) k x = Ret (<[k := x]> t, S k).
Proof using. intros H. unfold Detok.put, set_. cbn [fst]. by rewrite decide_True. Qed.

Lemma pass_step t k i : pass_inv t k i -> (i < length orig)%nat -> (1 <= i)%nat ->
  exists t' k', step (t, k) i = Ret (t', k') /\ length t' = length t /\ pass_inv t' k' (S i).
Proof using Hstep.
  intros (Hk & Hlt & Hlast & Hrest & Hclean) Hi H1. destruct (lookup_lt_is_Some_2 orig i Hi) as [x Hx]. destruct (lookup_lt_is_Some_2 orig (i - 1)%nat ltac:(lia)) as [a Ha].
  rewrite (Hstep t k i x a) by (done || lia). cbv zeta. replace i with (S (i - 1)) in Hx at 1 by lia. pose proof (drop_S _ _ _ Ha) as Ed. replace (S (i - 1)) with i in * by lia.
  rewrite Ed in Hclean. cbn [clean_with] in Hclean. destruct ((a =? 32) && test (drop i orig)).
  - rewrite put_ok by lia. eexists _, _. split; [reflexivity|]. rewrite length_insert. split; [done|]. replace (S (k - 1)) with k by lia. unfold pass_inv. rewrite length_insert.
    replace (S i - 1)%nat with i by lia. split; [lia|]. split; [done|]. split; [by rewrite list_lookup_insert_eq by lia|]. split.
    + intros j Hj. rewrite list_lookup_insert_ne by lia. apply Hrest. lia.
    + by rewrite take_insert_ge by lia.
  - rewrite put_ok by lia. eexists _, _. split; [reflexivity|]. rewrite length_insert. split; [done|]. unfold pass_inv. rewrite length_insert. cbn [Nat.sub]. rewrite !Nat.sub_0_r.
    split; [lia|]. split; [done|]. split; [by rewrite list_lookup_insert_eq by lia|]. split.
    + intros j Hj. destruct (decide (j = k)) as [->|Hne]; [rewrite list_lookup_insert_eq by lia; by replace k with i by lia|]. rewrite list_lookup_insert_ne by done. apply Hrest. lia.
    + rewrite take_insert_ge by lia. rewrite <- Hclean. replace k with (S (k - 1)) at 1 by lia. rewrite (take_S_r _ _ a) by congruence. by rewrite <- app_assoc.
Qed.

Lemma pass_loop d : forall t k i, (i + d = length orig)%nat -> (1 <= i)%nat -> pass_inv t k i ->
  exists t' k', foldM step (t, k) (seq i d) = Ret (t', k') /\ length t' = length t /\ pass_inv t' k' (length orig).
Proof using Hstep.
  induction d as [|d IH]; intros t k i Hd H1 Hinv; cbn [seq foldM].
  - exists t, k. by replace (length orig) with i by lia.
  - destruct (pass_step t k i Hinv ltac:(lia) H1) as (t1 & k1 & -> & Hl & Hinv1). cbn [mbind outcome_bind].
    destruct (IH t1 k1 (S i) ltac:(lia) ltac:(lia) Hinv1) as (t' & k' & E & Hl' & H). exists t', k'. by rewrite Hl', Hl.
Qed.

Lemma pass_ok text total : (total <= length text)%nat -> orig = take total text ->
  exists text' total', Detok.pass step text total = Ret (text', total') /\ length text' = length text /\ (total' <= length text)%nat /\ take total' text' = clean_with test orig.
Proof using Hstep Hnil.
  intros Hle Eo. assert (Hlo : length orig = total) by (rewrite Eo, length_take; lia). unfold Detok.pass. destruct (Nat.eqb_spec total 0) as [->|Hne].
  - exists text, 0%nat. split; [done|]. split; [done|]. split; [lia|]. by rewrite Eo.
  - destruct (pass_loop (total - 1) text 1 1) as (t' & k' & E & Hl & Hk & Hlt & Hlast & _ & Hc); [lia|lia| |].
    { unfold pass_inv. split; [lia|]. split; [lia|]. cbn [Nat.sub]. split; [rewrite Eo, lookup_take_lt by lia; done|]. split; [intros j Hj; rewrite Eo, lookup_take_lt by lia; done|]. done. }
    exists t', k'. split; [done|]. split; [done|]. split; [lia|]. destruct (lookup_lt_is_Some_2 orig (length orig - 1)%nat ltac:(lia)) as [a Ha].
    rewrite <- Hc, (drop_S _ _ _ Ha), drop_ge by lia. cbn [clean_with]. rewrite Hnil, andb_false_r. replace k' with (S (k' - 1)) at 1 by lia. by rewrite (take_S_r _ _ a) by congruence.
Qed.

End Pass.

Lemma punct_pass text total : (total <= length text)%nat ->
  exists text' total', Detok.pass Detok.punct_step text total = Ret (text', total') /\ length text' = length text /\ (total' <= length text)%nat
    /\ take total' text' = clean_with punct_next (take total text).
Proof.
  intros Hle. apply (pass_ok punct_next _ (take total text)); [done| |done|done]. intros t k i x a Hx Ha H1 Hrest Hk. pose proof (lookup_lt_Some _ _ _ Hx) as Hi.
  unfold Detok.punct_step. cbn [fst snd]. rewrite (proj2 (at_Ret t i x)) by (rewrite Hrest by lia; done). cbn [mbind outcome_bind].
  rewrite (proj2 (at_Ret t (i - 1) a)) by (rewrite Hrest by lia; done). cbn [mbind outcome_bind]. rewrite (drop_S _ _ _ Hx). cbn [punct_next].
  destruct ((a =? 32) && Detok.is_punct x); [|done]. destruct k as [|k]; [lia|]. cbn [Detok.dec mbind outcome_bind Nat.sub]. by rewrite Nat.sub_0_r.
Qed.

Lemma contraction_pass text total : (total <= length text)%nat ->
  exists text' total', Detok.pass (Detok.contraction_step total) text total = Ret (text', total') /\ length text' = length text /\ (total' <= length text)%nat
    /\ take total' text' = clean_with contraction_next (take total text).
Proof.
  intros Hle. apply (pass_ok contraction_next _ (take total text)); [done| |done|done]. intros t k i x a Hx Ha H1 Hrest Hk. pose proof (lookup_lt_Some _ _ _ Hx) as Hi.
  set (orig := take total text) in *. assert (Hlo : length orig = total) by (unfold orig; rewrite length_take; lia).
  assert (Hat : forall j y, (i - 1 <= j)%nat -> orig !! j = Some y -> at_ t j = Ret y).
  { intros j y Hj Hy. apply at_Ret. rewrite Hrest; [done|]. split; [done|]. by eapply lookup_lt_Some. }
  unfold Detok.contraction_step. cbn [fst snd]. rewrite (Hat i x), (Hat (i - 1)%nat a) by (done || lia). cbn [mbind outcome_bind].
  rewrite (drop_S _ _ _ Hx). cbn [contraction_next].
  assert (Hdec : forall b : bool, (total0 ← (if b then Detok.dec k else Ret k); Detok.put (t, k) total0 x) = (let k' := if b then (k - 1)%nat else k in Detok.put (t, k') k' x)).
  { intros [|]; [|done]. destruct k as [|k]; [lia|]. cbn [Detok.dec mbind outcome_bind Nat.sub]. by rewrite Nat.sub_0_r. }
  destruct (a =? 32); cbn [andb]; [|apply (Hdec false)]. destruct (orig !! S i) as [x1|] eqn:E1.
  - pose proof (lookup_lt_Some _ _ _ E1) as L1. rewrite (drop_S _ _ _ E1), (proj2 (Nat.ltb_lt (i + 1) total)), andb_true_r by lia. destruct (x =? 39); cbn [andb]; [|apply (Hdec false)].
    rewrite Nat.add_1_r, (Hat (S i) x1) by (done || lia). cbn [mbind outcome_bind].
    destruct (Z.eqb_spec x1 (ch "t")) as [->|Nt]; [|destruct (Z.eqb_spec x1 (ch "d")) as [->|Nd]]; cbn [orb].
    1,2: destruct (drop (S (S i)) orig); apply (Hdec false).
    destruct ((x1 =? ch "s") || (x1 =? ch "m")); cbn [orb]; [apply (Hdec true)|]. destruct (orig !! S (S i)) as [x2|] eqn:E2.
    + pose proof (lookup_lt_Some _ _ _ E2) as L2. rewrite (drop_S _ _ _ E2), (proj2 (Nat.ltb_lt (i + 2) total)) by lia.
      replace (i + 2)%nat with (S (S i)) by lia. rewrite (Hat (S (S i)) x2) by (done || lia). cbn [mbind outcome_bind].
      destruct (Z.eqb_spec x1 (ch "l")) as [->|Nl]; [destruct (x2 =? ch "l"); apply (Hdec false)|]. cbn [andb].
      rewrite <- andb_orb_distrib_l. apply Hdec.
    + apply lookup_ge_None in E2. rewrite drop_ge, (proj2 (Nat.ltb_ge (i + 2) total)) by lia. apply (Hdec false).
  - apply lookup_ge_None in E1. rewrite drop_ge, (proj2 (Nat.ltb_ge (i + 1) total)), andb_false_r by lia. destruct (x =? 39); apply (Hdec false).
Qed.

(** *** The pass for single apostrophes *)

Section Apostrophe.
Context (orig : list Z).

(** Before index [i]: the last byte written is that before [i], or that byte was
    dropped with the space before it. *)
Definition lone_inv (t : list Z) k i : Prop :=
  (1 <= k <= i)%nat /\ (i <= length orig <= length t)%nat /\ (forall j, (i <= j < length orig)%nat -> t !! j = orig !! j)
  /\ ((t !! (k - 1)%nat = orig !! (i - 1)%nat /\ t !! (i - 1)%nat = orig !! (i - 1)%nat /\ take (k - 1) t ++ clean_apostrophes (drop (i - 1) orig) = clean_apostrophes orig)
      \/ ((k < i)%nat /\ t !! (i - 1)%nat = Some 0 /\ take k t ++ clean_apostrophes (drop i orig) = clean_apostrophes orig)).

Lemma lone_end t k : lone_inv t k (length orig) -> take k t = clean_apostrophes orig.
Proof using.
  intros (Hk & Hl & _ & [(H1 & H2 & Hc)|(H1 & H2 & Hc)]).
  - destruct (lookup_lt_is_Some_2 orig (length orig - 1)%nat ltac:(lia)) as [a Ha]. rewrite <- Hc, (drop_S _ _ _ Ha), drop_ge by lia.
    replace k with (S (k - 1)) at 1 by lia. by rewrite (take_S_r _ _ a) by congruence.
  - rewrite <- Hc, drop_ge by lia. by rewrite app_nil_r.
Qed.

(** The byte before [i] as the loop sees it. *)
Lemma lone_write t k i x : lone_inv t k i -> orig !! i = Some x ->
  (forall a r, drop (i - 1) orig = a :: x :: r -> t !! (i - 1)%nat = Some a -> clean_apostrophes (a :: x :: r) = a :: clean_apostrophes (x :: r)) ->
  lone_inv (<[k := x]> t) (S k) (S i).
Proof using.
  intros (Hk & Hl & Hrest & H) Hx Hno. pose proof (lookup_lt_Some _ _ _ Hx) as Hi. unfold lone_inv. rewrite length_insert. cbn [Nat.sub]. rewrite !Nat.sub_0_r.
  split; [lia|]. split; [lia|]. split; [intros j Hj; rewrite list_lookup_insert_ne by lia; apply Hrest; lia|]. left. split; [by rewrite list_lookup_insert_eq by lia|].
  split; [destruct (decide (i = k)) as [->|Hne]; [by rewrite list_lookup_insert_eq by lia|rewrite list_lookup_insert_ne by done; apply Hrest; lia]|].
  rewrite take_insert_ge by lia. destruct H as [(H1 & H2 & Hc)|(H1 & H2 & Hc)]; [|done].
  destruct (lookup_lt_is_Some_2 orig (i - 1)%nat ltac:(lia)) as [a Ha]. rewrite <- Hc. pose proof (drop_S _ _ _ Ha) as Ed. replace (S (i - 1)) with i in Ed by lia.
  rewrite (drop_S _ _ _ Hx) in *. rewrite Ed. rewrite (Hno a _ Ed) by congruence. replace k with (S (k - 1)) at 1 by lia. rewrite (take_S_r _ _ a) by congruence. by rewrite <- app_assoc.
Qed.

Lemma apostrophe_loop_ok fuel : forall t k i, lone_inv t k i -> (1 <= i)%nat -> (length orig <= fuel + i)%nat ->
  exists t' k', Detok.apostrophe_loop fuel (length orig) (t, k) i = Ret (t', k') /\ length t' = length t /\ (k' <= length t)%nat /\ take k' t' = clean_apostrophes orig.
Proof using.
  induction fuel as [|fuel IH]; intros t k i Hinv H1 Hf; cbn [Detok.apostrophe_loop].
  all: pose proof Hinv as (Hk & Hl & Hrest & H); destruct (Nat.ltb_spec i (length orig)) as [Hi|Hge];
    [|assert (i = length orig) as -> by lia; exists t, k; split; [done|]; split; [done|]; split; [lia|by apply lone_end]].
  { lia. }
  destruct (lookup_lt_is_Some_2 orig i Hi) as [x Hx]. cbn [fst snd]. rewrite (proj2 (at_Ret t i x)) by (rewrite Hrest by lia; done). cbn [mbind outcome_bind].
  assert (Hwrite : (forall a r, drop (i - 1) orig = a :: x :: r -> t !! (i - 1)%nat = Some a -> clean_apostrophes (a :: x :: r) = a :: clean_apostrophes (x :: r)) ->
    exists t' k', (st ← Detok.put (t, k) k x; Detok.apostrophe_loop fuel (length orig) st (i + 1)) = Ret (t', k') /\ length t' = length t /\ (k' <= length t)%nat /\ take k' t' = clean_apostrophes orig).
  { intros Hno. rewrite put_ok by lia. cbn [mbind outcome_bind]. rewrite Nat.add_1_r. pose proof (lone_write t k i x Hinv Hx Hno) as Hinv'.
    destruct (IH _ _ _ Hinv' ltac:(lia) ltac:(lia)) as (t' & k' & E & Hl' & H'). rewrite length_insert in *. by exists t', k'. }
  destruct (Z.eqb_spec x 39) as [->|Hx39]; cbn [andb].
  2: { apply Hwrite. intros a [|c r] _ _; [done|]. cbn [clean_apostrophes]. by rewrite (proj2 (Z.eqb_neq _ _) Hx39), andb_false_r. }
  destruct (Nat.ltb_spec (i + 1) (length orig)) as [Hi1|Hi1]; cbn [mbind outcome_bind].
  2: { apply Hwrite. intros a r Ed _. apply (f_equal length) in Ed. rewrite length_drop in Ed. simpl in Ed. by assert (r = []) as -> by (destruct r; [done|simpl in Ed; lia]). }
  destruct (lookup_lt_is_Some_2 t (i - 1)%nat ltac:(lia)) as [y Hy]. rewrite (proj2 (at_Ret t (i - 1) y)) by done. cbn [mbind outcome_bind].
  destruct (Z.eqb_spec y 32) as [->|Hy32]; cbn [mbind outcome_bind].
  2: { apply Hwrite. intros a [|c r] _ Ha; [done|]. assert (a = y) as -> by congruence. cbn [clean_apostrophes]. by rewrite (proj2 (Z.eqb_neq _ _) Hy32). }
  destruct (lookup_lt_is_Some_2 orig (i + 1)%nat Hi1) as [z Hz]. rewrite (proj2 (at_Ret t (i + 1) z)) by (rewrite Hrest by lia; done). cbn [mbind outcome_bind].
  assert (Ed : drop i orig = 39 :: z :: drop (i + 2) orig) by (rewrite (drop_S _ _ _ Hx); replace (S i) with (i + 1)%nat by lia; rewrite (drop_S _ _ _ Hz); do 3 f_equal; lia).
  destruct (Z.eqb_spec z 32) as [->|Hz32].
  2: { apply Hwrite. intros a r Ed' _. assert (drop i orig = 39 :: r) as E by (replace i with (1 + (i - 1))%nat by lia; rewrite Nat.add_comm, <- drop_drop, Ed'; done).
    rewrite E in Ed. injection Ed as ->. cbn [clean_apostrophes]. by rewrite (proj2 (Z.eqb_neq _ _) Hz32), andb_false_r. }
  destruct H as [(Hlast & Hprev & Hc)|(_ & H0 & _)]; [|congruence]. destruct k as [|k]; [lia|]. cbn [Detok.dec mbind outcome_bind]. unfold set_. cbn [fst]. rewrite decide_True by lia.
  cbn [mbind outcome_bind]. rewrite put_ok by (rewrite length_insert; lia). cbn [mbind outcome_bind].
  assert (Ha : orig !! (i - 1)%nat = Some 32) by congruence. pose proof (drop_S _ _ _ Ha) as Ed'. replace (S (i - 1)) with i in Ed' by lia. rewrite Ed', Ed in Hc. cbn [clean_apostrophes] in Hc.
  rewrite !Z.eqb_refl in Hc. cbn [andb Nat.sub] in Hc. rewrite Nat.sub_0_r in Hc.
  destruct (IH (<[k := 39]> (<[(i + 1)%nat := 0]> t)) (S k) (i + 2)%nat) as (t' & k' & E & Hl' & H'); [|lia|lia|rewrite !length_insert in *; by exists t', k'].
  unfold lone_inv. rewrite !length_insert. split; [lia|]. split; [lia|]. split; [intros j Hj; rewrite !list_lookup_insert_ne by lia; apply Hrest; lia|]. right. split; [lia|].
  replace (i + 2 - 1)%nat with (i + 1)%nat by lia. split; [rewrite list_lookup_insert_ne by lia; by rewrite list_lookup_insert_eq by lia|].
  rewrite <- Hc. rewrite (take_S_r _ _ 39) by (rewrite list_lookup_insert_eq; [done|rewrite length_insert; lia]). rewrite take_insert_ge by lia. rewrite take_insert_ge by lia. by rewrite <- app_assoc.
Qed.

End Apostrophe.

Lemma apostrophe_pass_ok text total : (total <= length text)%nat ->
  exists text' total', Detok.apostrophe_pass text total = Ret (text', total') /\ length text' = length text /\ (total' <= length text)%nat
    /\ take total' text' = clean_apostrophes (take total text).
Proof.
  intros Hle. set (orig := take total text). assert (Hlo : length orig = total) by (unfold orig; rewrite length_take; lia). unfold Detok.apostrophe_pass.
  destruct (Nat.eqb_spec total 0) as [->|Hne]; [exists text, 0%nat; split; [done|]; split; [done|]; split; [lia|done]|].
  pose proof (apostrophe_loop_ok orig total text 1 1) as H. rewrite Hlo in H. apply H; [|lia|lia]. unfold lone_inv. split; [lia|]. split; [lia|]. cbn [Nat.sub].
  split; [intros j Hj; unfold orig; by rewrite lookup_take_lt by lia|]. left. unfold orig. rewrite lookup_take_lt by lia. done.
Qed.

Lemma clean_ok text : exists text', Detok.clean text (length text) = Ret (text', length (clean_text text)) /\ (length (clean_text text) <= length text)%nat
  /\ take (length (clean_text text)) text' = clean_text text.
Proof.
  unfold Detok.clean, clean_text. destruct (punct_pass text (length text) ltac:(lia)) as (t1 & k1 & -> & L1 & K1 & C1). cbn [mbind outcome_bind].
  rewrite (take_ge text) in C1 by lia. destruct (apostrophe_pass_ok t1 k1 ltac:(lia)) as (t2 & k2 & -> & L2 & K2 & C2). cbn [mbind outcome_bind].
  destruct (contraction_pass t2 k2 ltac:(lia)) as (t3 & k3 & E & L3 & K3 & C3). exists t3. rewrite C2, C1 in C3.
  assert (Hk : k3 = length (clean_with contraction_next (clean_apostrophes (clean_with punct_next text)))) by (rewrite <- C3, length_take; lia).
  rewrite <- Hk. split; [done|]. split; [lia|done].
Qed.

(** ** The whole text *)

(** The text of a list of tokens after cleaning. *)
Definition cleaned v s : list Z := if clean_spaces v then clean_text s else s.

Lemma detokenize_buffer v special piece tokens max remove_special : vb_type v <> LLAMA_VOCAB_TYPE_NONE -> 0 <= max ->
  let '(rest, remove) := Detok.trim_special v tokens remove_special in
  spells v special piece rest -> Z.of_nat (length (spelled piece remove rest)) < 2 ^ 31 ->
  exists text, Detok.detokenize v tokens max remove_special special
    = Ret (if max <? Z.of_nat (length (spelled piece remove rest)) then - Z.of_nat (length (spelled piece remove rest)) else Z.of_nat (length (cleaned v (spelled piece remove rest))), text)
    /\ (Z.of_nat (length (spelled piece remove rest)) <= max -> take (length (cleaned v (spelled piece remove rest))) text = cleaned v (spelled piece remove rest)).
Proof.
  intros Ht Hmax. unfold Detok.detokenize. rewrite decide_False by done. destruct (Detok.trim_special v tokens remove_special) as [rest remove]. intros Hp Hlen.
  set (s := spelled piece remove rest) in *.
  destruct (detok_loop v special piece max rest (Detok.mk_detok max 0 [] remove) [] Hp) as (st & -> & Htot & Hst); [|done|done|].
  { unfold detok_inv. cbn [length Z.of_nat Detok.dt_total Detok.dt_avail Detok.dt_text]. split; [done|]. change (Z.of_nat 0) with 0. rewrite (proj2 (Z.leb_le _ _) Hmax). split; [lia|done]. }
  cbn [Detok.dt_remove_space app] in *. fold s in Htot, Hst. cbn [mbind outcome_bind]. rewrite Htot. destruct (Z.ltb_spec max (Z.of_nat (length s))) as [Hgt|Hle].
  - eexists. split; [reflexivity|]. lia.
  - rewrite (proj2 (Z.leb_le _ _) Hle) in Hst. destruct Hst as [_ ->]. rewrite Nat2Z.id. unfold cleaned. destruct (clean_spaces v).
    + destruct (clean_ok s) as (text' & -> & Hl & Hc). cbn [mbind outcome_bind]. rewrite (proj2 (Z.leb_le _ _)) by lia. by exists text'.
    + cbn [mbind outcome_bind]. rewrite (proj2 (Z.leb_le _ _)) by lia. eexists. split; [reflexivity|]. intros _. by rewrite take_ge.
Qed.

(** The string does not depend on what fits into the first buffer. *)
Lemma detokenize_string_ok capacity v special piece tokens : vb_type v <> LLAMA_VOCAB_TYPE_NONE -> spells v special piece tokens ->
  Z.of_nat (length (spelled piece (add_space_prefix v) tokens)) < 2 ^ 31 ->
  Detok.detokenize_string capacity v tokens special = Ret (cleaned v (spelled piece (add_space_prefix v) tokens)).
Proof.
  intros Ht Hp Hlen. set (s := spelled piece (add_space_prefix v) tokens) in *.
  assert (Hgo : forall max, 0 <= max -> exists text, Detok.detokenize v tokens max false special
    = Ret (if max <? Z.of_nat (length s) then - Z.of_nat (length s) else Z.of_nat (length (cleaned v s)), text) /\ (Z.of_nat (length s) <= max -> take (length (cleaned v s)) text = cleaned v s)).
  { intros max Hmax. exact (detokenize_buffer v special piece tokens max false Ht Hmax Hp Hlen). }
  unfold Detok.detokenize_string. destruct (Hgo (Z.of_nat (Nat.max capacity (length tokens))) ltac:(lia)) as (t1 & -> & H1). cbn [mbind outcome_bind].
  destruct (Z.ltb_spec (Z.of_nat (Nat.max capacity (length tokens))) (Z.of_nat (length s))) as [Hgt|Hle].
  - rewrite (proj2 (Z.ltb_lt _ _)) by lia. rewrite Z.opp_involutive. destruct (Hgo (Z.of_nat (length s)) ltac:(lia)) as (t2 & -> & H2). cbn [mbind outcome_bind].
    rewrite Z.ltb_irrefl. assert (Hc : (length (cleaned v s) <= length s)%nat) by (unfold cleaned; destruct (clean_spaces v); [by destruct (clean_ok s) as (? & _ & ? & _)|lia]).
    rewrite (proj2 (Z.leb_le _ _)) by lia. cbn [c_assert mbind outcome_bind]. rewrite (proj2 (Z.ltb_ge _ _)) by lia. rewrite Nat2Z.id. by rewrite H2.
  - rewrite (proj2 (Z.ltb_ge _ _)) by lia. cbn [mbind outcome_bind]. rewrite (proj2 (Z.ltb_ge _ _)) by lia. rewrite Nat2Z.id. by rewrite H1.
Qed.
