(* ===== verification/PartitionFacts.v ===== *)
(** * Cutting a text at its special tokens. *)

From S2P Require Import Prelude Utf8 Utf8Facts Vocabulary VocabText VocabTokenize MergeFacts TextFacts.
From Stdlib Require Import Lia.

Implicit Types (v : llama_vocab) (raw text s : list Z) (f : fragment_buffer_variant) (buffer pre post : list fragment_buffer_variant) (base len k m : nat).

Lemma emplace_ok pre f post g : Tok.emplace_after (pre ++ f :: post) (length pre) g = pre ++ f :: g :: post.
Proof.
  unfold Tok.emplace_after. rewrite (cons_middle f pre post), app_assoc. assert (E : S (length pre) = length (pre ++ [f])) by (rewrite length_app; simpl; lia).
  rewrite E, take_app_length, drop_app_length, <- app_assoc. done.
Qed.

(** ** Stripping *)

Lemma lstrip_ok raw base len : (base + len <= length raw)%nat -> exists n, Tok.lstrip_length raw base len = Ret n /\ (n <= len)%nat.
Proof.
  induction len as [|len IH]; intros H; cbn [Tok.lstrip_length]; [by exists 0%nat|].
  destruct (lookup_lt_is_Some_2 raw (base + len)%nat ltac:(lia)) as [c Hc]. rewrite (proj2 (at_Ret _ _ _) Hc). cbn [mbind outcome_bind].
  destruct (Voc.is_space c); [|by exists (S len)]. destruct IH as (n & E & Hn); [lia|]. exists n. split; [done|lia].
Qed.

Lemma rstrip_ok raw len : forall base, (base + len <= length raw)%nat -> exists o n, Tok.rstrip_range raw base len = Ret (o, n) /\ (base <= o)%nat /\ (o + n = base + len)%nat.
Proof.
  induction len as [|len IH]; intros base H; cbn [Tok.rstrip_range]; [exists base, 0%nat; split; [done|lia]|].
  destruct (lookup_lt_is_Some_2 raw base ltac:(lia)) as [c Hc]. rewrite (proj2 (at_Ret _ _ _) Hc). cbn [mbind outcome_bind].
  destruct (Voc.is_space c); [|exists base, (S len); split; [done|lia]]. destruct (IH (S base)) as (o & n & E & Ho & Hs); [lia|]. exists o, n. split; [done|lia].
Qed.

(** ** Fragments *)

Definition contains raw base len s : Prop := exists k, (k + length s <= len)%nat /\ s `prefix_of` drop (base + k) raw.

(** A raw text is a part of the text that is not empty. *)
Definition in_text raw (lo hi : nat) f : Prop :=
  match f with FRAGMENT_RAW_TEXT o l => (1 <= l)%nat /\ (lo <= o)%nat /\ (o + l <= hi)%nat /\ (hi <= length raw)%nat | FRAGMENT_TOKEN _ => True end.

Definition without raw s f : Prop := match f with FRAGMENT_RAW_TEXT o l => ~ contains raw o l s | FRAGMENT_TOKEN _ => True end.

(** The text of a fragment; that of a token is a parameter. *)
Definition spell raw (piece : Z -> list Z) f : list Z := match f with FRAGMENT_RAW_TEXT o l => Tok.fragment_text raw o l | FRAGMENT_TOKEN t => piece t end.
Definition spell_all raw (piece : Z -> list Z) buffer : list Z := flat_map (spell raw piece) buffer.

Lemma spell_app raw piece b1 b2 : spell_all raw piece (b1 ++ b2) = spell_all raw piece b1 ++ spell_all raw piece b2.
Proof. apply flat_map_app. Qed.

Lemma fragment_split raw base len k : (k <= len)%nat ->
  Tok.fragment_text raw base len = Tok.fragment_text raw base k ++ Tok.fragment_text raw (base + k) (len - k).
Proof.
  intros H. unfold Tok.fragment_text. rewrite <- (take_drop k (take len (drop base raw))). rewrite take_take, Nat.min_l by done. f_equal.
  by rewrite skipn_firstn_comm, drop_drop.
Qed.

Lemma fragment_prefix raw base len s : s `prefix_of` drop base raw -> (length s <= len)%nat -> Tok.fragment_text raw base (length s) = s.
Proof. intros [r E] _. unfold Tok.fragment_text. by rewrite E, take_app_length. Qed.

(** *** One fragment *)

Section Cut.
Context (raw text : list Z) (attr id : Z).
Hypothesis (Hne : text <> []).

Definition no_strip : Prop := Text.attr_has attr ATTR_LSTRIP = false /\ Text.attr_has attr ATTR_RSTRIP = false.

(** What a part of the text is replaced by. *)
Record cut_of base len (mid : list fragment_buffer_variant) : Prop := {
  cu_in f : f ∈ mid -> in_text raw base (base + len) f;
  cu_without f : f ∈ mid -> without raw text f;
  cu_token t : FRAGMENT_TOKEN t ∈ mid -> t = id;
  cu_spell piece : no_strip -> piece id = text -> spell_all raw piece mid = Tok.fragment_text raw base len;
}.

Lemma find_match base len : (base + len <= length raw)%nat ->
  match Text.str_find (take (base + len) raw) text base with
  | Some m => (base <= m)%nat /\ (m + length text <= base + len)%nat /\ text `prefix_of` drop m raw /\ forall l, (l <= m - base)%nat -> ~ contains raw base l text
  | None => ~ contains raw base len text
  end.
Proof using Hne.
  intros Hle. assert (Hpos : (0 < length text)%nat) by (destruct text; [done|simpl; lia]).
  assert (Hin : forall k, text `prefix_of` drop k (take (base + len) raw) <-> (k + length text <= base + len)%nat /\ text `prefix_of` drop k raw).
  { intros k. rewrite skipn_firstn_comm. split.
    - intros H. pose proof (prefix_length _ _ H) as Hl. rewrite length_take in Hl. split; [lia|]. etrans; [exact H|apply prefix_take].
    - intros [Hk [r E]]. rewrite E, take_app_ge by lia. by apply prefix_app_r. }
  pose proof (str_find_spec (take (base + len) raw) text base ltac:(rewrite length_take; lia)) as H. destruct (Text.str_find _ _ _) as [m|].
  - destruct H as (Hm & Hp & Hmin). apply Hin in Hp as [Hml Hp]. split; [lia|]. split; [done|]. split; [done|]. intros l Hl (k & Hk & Hpk).
    apply (Hmin (base + k)%nat); [lia|]. apply Hin. split; [lia|done].
  - intros (k & Hk & Hp). apply (H (base + k)%nat); [lia|]. apply Hin. split; [lia|done].
Qed.

Lemma cut_none base len : (1 <= len)%nat -> (base + len <= length raw)%nat -> ~ contains raw base len text -> cut_of base len [FRAGMENT_RAW_TEXT base len].
Proof using.
  intros H1 H2 H3. constructor; try (intros f ->%list_elem_of_singleton); [simpl; lia|done|by intros t H%list_elem_of_singleton|]. intros piece _ _. unfold spell_all. simpl. by rewrite app_nil_r.
Qed.

(** A match: the text on its left, the token, and what the rest becomes. *)
Lemma cut_match base len m l o r mid : (base <= m)%nat -> (m + length text <= base + len)%nat -> (base + len <= length raw)%nat -> text `prefix_of` drop m raw ->
  (forall l, (l <= m - base)%nat -> ~ contains raw base l text) -> (l <= m - base)%nat -> (no_strip -> l = (m - base)%nat) ->
  (m + length text <= o)%nat -> (o + r = base + len)%nat -> (no_strip -> o = (m + length text)%nat) -> (if decide (r = 0%nat) then mid = [] else cut_of o r mid) ->
  cut_of base len ((if decide (l = 0%nat) then [] else [FRAGMENT_RAW_TEXT base l]) ++ FRAGMENT_TOKEN id :: mid).
Proof using.
  clear Hne. intros Hm Hml Hr Hp Hmin Hl Hls Ho Hor Hos Hmid.
  assert (Hlf : forall f, f ∈ (if decide (l = 0%nat) then [] else [FRAGMENT_RAW_TEXT base l]) -> f = FRAGMENT_RAW_TEXT base l /\ (1 <= l)%nat).
  { intros f. destruct (decide (l = 0%nat)); [by intros H%elem_of_nil|]. intros ->%list_elem_of_singleton. split; [done|lia]. }
  constructor.
  - intros f [[-> H]%Hlf|[->|H]%elem_of_cons]%elem_of_app; [simpl; lia|done|]. destruct (decide (r = 0%nat)); [subst; by apply elem_of_nil in H|].
    pose proof (cu_in _ _ _ Hmid f H) as H'. destruct f; simpl in *; lia.
  - intros f [[-> H]%Hlf|[->|H]%elem_of_cons]%elem_of_app; [simpl; by apply Hmin|done|]. destruct (decide (r = 0%nat)); [subst; by apply elem_of_nil in H|]. by apply (cu_without _ _ _ Hmid).
  - intros t [[? _]%Hlf|[[= ->]|H]%elem_of_cons]%elem_of_app; [done|done|]. destruct (decide (r = 0%nat)); [subst; by apply elem_of_nil in H|]. by apply (cu_token _ _ _ Hmid).
  - intros piece Hns Hpc. rewrite (fragment_split raw base len (m - base)) by lia. replace (base + (m - base))%nat with m by lia.
    rewrite (fragment_split raw m _ (length text)) by lia. rewrite (fragment_prefix raw m (length text) text) by done. rewrite spell_app. f_equal; [|unfold spell_all; cbn [flat_map spell]; rewrite Hpc; f_equal].
    + rewrite <- (Hls Hns). destruct (decide (l = 0%nat)) as [->|_]; [done|]. unfold spell_all. simpl. by rewrite app_nil_r.
    + specialize (Hos Hns). subst o. replace (len - (m - base) - length text)%nat with r by lia. destruct (decide (r = 0%nat)) as [->|_]; [by subst|]. by apply (cu_spell _ _ _ Hmid).
Qed.

(** The text on the left of a match. *)
Lemma cut_left pre cur post base m : (base <= m <= length raw)%nat -> exists l, (l <= m - base)%nat /\ (no_strip -> l = (m - base)%nat) /\
    (if (base <? m)%nat then
       left ← (if Text.attr_has attr ATTR_LSTRIP then Tok.lstrip_length raw base (m - base) else Ret (m - base)%nat);
       if (0 <? left)%nat then f ← Tok.raw_fragment raw base left; Ret (Tok.emplace_after (pre ++ cur :: post) (length pre) f, S (length pre)) else Ret (pre ++ cur :: post, length pre)
     else Ret (pre ++ cur :: post, length pre))
    = Ret (pre ++ cur :: (if decide (l = 0%nat) then [] else [FRAGMENT_RAW_TEXT base l]) ++ post, (length pre + if decide (l = 0%nat) then 0 else 1)%nat).
Proof using.
  clear Hne. intros Hm.
  destruct (Nat.ltb_spec base m) as [Hlt|Hge]; [|exists 0%nat; split; [lia|]; split; [lia|]; cbn [decide Nat.eq_dec app]; by rewrite Nat.add_0_r].
  assert (Hl : exists l, (if Text.attr_has attr ATTR_LSTRIP then Tok.lstrip_length raw base (m - base) else Ret (m - base)%nat) = Ret l /\ (l <= m - base)%nat /\ (no_strip -> l = (m - base)%nat)).
  { unfold no_strip. destruct (Text.attr_has attr ATTR_LSTRIP); [|by eexists]. destruct (lstrip_ok raw base (m - base) ltac:(lia)) as (n & E & Hn). exists n. split; [done|]. split; [done|]. by intros [? _]. }
  destruct Hl as (l & -> & Hl & Hns). exists l. split; [done|]. split; [done|]. cbn [mbind outcome_bind]. destruct (Nat.ltb_spec 0 l) as [Hl0|Hl0].
  - unfold Tok.raw_fragment. rewrite (proj2 (Nat.leb_le _ _)) by lia. cbn [c_assert mbind outcome_bind]. rewrite (proj2 (Nat.leb_le _ _)) by lia. cbn [c_assert mbind outcome_bind].
    rewrite emplace_ok, !decide_False by lia. cbn [app]. f_equal. f_equal. lia.
  - rewrite !decide_True by lia. cbn [app]. by rewrite Nat.add_0_r.
Qed.

(** The text on its right. *)
Lemma cut_right o r : (o + r <= length raw)%nat ->
  exists o' r', (if Text.attr_has attr ATTR_RSTRIP then Tok.rstrip_range raw o r else Ret (o, r)) = Ret (o', r') /\ (o <= o')%nat /\ (o' + r' = o + r)%nat /\ (no_strip -> o' = o).
Proof using.
  clear Hne. intros H. unfold no_strip. destruct (Text.attr_has attr ATTR_RSTRIP); [|by exists o, r].
  destruct (rstrip_ok raw r o H) as (o' & r' & E & H1 & H2). exists o', r'. split; [done|]. split; [done|]. split; [done|]. by intros [_ ?].
Qed.

(** The loop replaces the fragment under the iterator, and leaves the iterator on
    the last of the new ones. *)
Lemma cut_loop_ok fuel : forall pre cur post base len, (len <> 0%nat -> cur = FRAGMENT_RAW_TEXT base len) -> (base + len <= length raw)%nat -> (len < fuel)%nat ->
  exists mid, Tok.cut_loop fuel raw text attr id (pre ++ cur :: post) (length pre) base len = Ret (pre ++ mid ++ post, (length pre + length mid - 1)%nat)
    /\ mid <> [] /\ (if decide (len = 0%nat) then mid = [cur] else cut_of base len mid).
Proof using Hne.
  assert (Hpos : (0 < length text)%nat) by (destruct text; [done|simpl; lia]).
  induction fuel as [|fuel IH]; intros pre cur post base len Hcur Hr Hf; [lia|]. cbn [Tok.cut_loop].
  pose proof (find_match base len Hr) as Hm. destruct (Text.str_find _ _ _) as [m|].
  2: { exists [cur]. split; [f_equal; f_equal; simpl; lia|]. split; [done|]. destruct (decide (len = 0%nat)) as [|Hn]; [done|]. rewrite (Hcur Hn). apply cut_none; [lia|done|done]. }
  destruct Hm as (Hbm & Hml & Hp & Hmin). assert (Hlen : len <> 0%nat) by lia.
  destruct (cut_left pre cur post base m ltac:(lia)) as (l & Hl & Hls & ->). cbn [mbind outcome_bind]. set (lf := if decide (l = 0%nat) then [] else [FRAGMENT_RAW_TEXT base l]) in *.
  assert (Hlf : length lf = (if decide (l = 0%nat) then 0 else 1)%nat) by (unfold lf; by destruct (decide _)). rewrite <- Hlf. clear Hlf.
  assert (Htok : Tok.emplace_after (pre ++ cur :: lf ++ post) (length pre + length lf) (FRAGMENT_TOKEN id) = pre ++ cur :: lf ++ FRAGMENT_TOKEN id :: post).
  { unfold lf. destruct (decide (l = 0%nat)); cbn [app length]; [by rewrite Nat.add_0_r, emplace_ok|].
    rewrite (cons_middle cur pre), app_assoc. replace (length pre + 1)%nat with (length (pre ++ [cur])) by (by rewrite length_app). rewrite emplace_ok. by rewrite <- app_assoc. }
  rewrite Htok. clear Htok.
  pose proof (fun o r mid => cut_match base len m l o r mid Hbm Hml Hr Hp Hmin Hl Hls) as Hmatch. fold lf in Hmatch.
  assert (Hdel : forall rest, delete (length pre) (pre ++ cur :: rest) = pre ++ rest) by (intros; apply delete_middle).
  destruct (Nat.ltb_spec (m + length text) (base + len)) as [Hright|Hend].
  2: { rewrite Hdel. exists (lf ++ [FRAGMENT_TOKEN id]). rewrite (decide_False (P := len = 0%nat)) by done. rewrite <- app_assoc. cbn [app]. split; [f_equal; f_equal; rewrite length_app; simpl; lia|]. split; [by destruct lf|].
    apply (Hmatch (base + len)%nat 0%nat []); [lia|lia|lia|done]. }
  destruct (cut_right (m + length text) (len - ((m - base) + length text))) as (o & r & -> & Ho & Hor & Hos); [lia|]. cbn [mbind outcome_bind].
  destruct (Nat.ltb_spec 0 r) as [Hr0|Hr0].
  - unfold Tok.raw_fragment. rewrite (proj2 (Nat.leb_le _ _)) by lia. cbn [c_assert mbind outcome_bind]. rewrite (proj2 (Nat.leb_le _ _)) by lia. cbn [c_assert mbind outcome_bind].
    assert (E : pre ++ cur :: lf ++ FRAGMENT_TOKEN id :: post = (pre ++ cur :: lf) ++ FRAGMENT_TOKEN id :: post) by (rewrite <- app_assoc; done).
    replace (S (length pre + length lf)) with (length (pre ++ cur :: lf)) by (rewrite length_app; simpl; lia). rewrite E, emplace_ok, <- app_assoc. cbn [app]. rewrite Hdel.
    destruct (IH (pre ++ lf ++ [FRAGMENT_TOKEN id]) (FRAGMENT_RAW_TEXT o r) post o r) as (mid & E2 & Hm0 & Hmid); [done|lia|lia|]. rewrite decide_False in Hmid by lia.
    exists (lf ++ FRAGMENT_TOKEN id :: mid). rewrite (decide_False (P := len = 0%nat)) by done. split; [|split; [by destruct lf|]].
    + replace (S (length (pre ++ cur :: lf)) - 1)%nat with (length (pre ++ lf ++ [FRAGMENT_TOKEN id])) by (rewrite !length_app; simpl; lia).
      rewrite <- !app_assoc in E2. cbn [app] in E2. rewrite E2. rewrite <- !app_assoc. cbn [app]. f_equal. f_equal. rewrite !length_app. simpl. lia.
    + apply (Hmatch o r mid); [lia|lia|done|]. by rewrite decide_False by lia.
  - cbn [mbind outcome_bind]. replace (S (length pre + length lf) - 1)%nat with (length (pre ++ lf)) by (rewrite length_app; lia). rewrite Hdel.
    destruct (IH (pre ++ lf) (FRAGMENT_TOKEN id) post o r) as (mid & E2 & Hm0 & Hmid); [lia|lia|lia|]. rewrite decide_True in Hmid by lia. subst mid.
    exists (lf ++ [FRAGMENT_TOKEN id]). rewrite (decide_False (P := len = 0%nat)) by done. rewrite <- !app_assoc in *. cbn [app] in *. split; [rewrite E2; f_equal; f_equal; rewrite !length_app; simpl; lia|]. split; [by destruct lf|].
    apply (Hmatch o r []); [lia|lia|done|]. by rewrite decide_True by lia.
Qed.

End Cut.

(** *** All fragments *)

Definition becomes raw text attr id f mid : Prop :=
  match f with FRAGMENT_RAW_TEXT o l => cut_of raw text attr id o l mid | FRAGMENT_TOKEN _ => mid = [f] end.

Lemma cut_fragments_ok raw text attr id (Hne : text <> []) todo : forall fuel done_, Forall (in_text raw 0 (length raw)) todo -> (length todo <= fuel)%nat ->
  exists mids, Tok.cut_fragments fuel raw text attr id (done_ ++ todo) (length done_) = Ret (done_ ++ concat mids) /\ Forall2 (becomes raw text attr id) todo mids.
Proof.
  induction todo as [|f todo IH]; intros fuel done_ Hin Hf.
  - exists []. rewrite !app_nil_r. destruct fuel; cbn [Tok.cut_fragments]; by rewrite lookup_ge_None_2.
  - apply Forall_cons in Hin as [Hf0 Hin]. destruct fuel as [|fuel]; [simpl in Hf; lia|]. cbn [Tok.cut_fragments]. rewrite list_lookup_middle by done.
    assert (Hmid : exists mid, (match f with FRAGMENT_RAW_TEXT o l => Tok.cut_loop (S l) raw text attr id (done_ ++ f :: todo) (length done_) o l | FRAGMENT_TOKEN _ => Ret (done_ ++ f :: todo, length done_) end)
      = Ret (done_ ++ mid ++ todo, (length done_ + length mid - 1)%nat) /\ mid <> [] /\ becomes raw text attr id f mid).
    { destruct f as [t|o l]; [exists [FRAGMENT_TOKEN t]; split; [f_equal; f_equal; simpl; lia|done]|]. cbn [in_text] in Hf0.
      destruct (cut_loop_ok raw text attr id Hne (S l) done_ (FRAGMENT_RAW_TEXT o l) todo o l) as (mid & E & H0 & H); [done|lia|lia|].
      rewrite decide_False in H by lia. by exists mid. }
    destruct Hmid as (mid & -> & H0 & Hm). cbn [mbind outcome_bind]. assert (Hl : (1 <= length mid)%nat) by (destruct mid; [done|simpl; lia]).
    replace (S (length done_ + length mid - 1)) with (length (done_ ++ mid)) by (rewrite length_app; lia). rewrite app_assoc.
    destruct (IH fuel (done_ ++ mid) Hin ltac:(simpl in Hf; lia)) as (mids & E & H). exists (mid :: mids). rewrite E. split; [simpl; by rewrite <- app_assoc|by constructor].
Qed.

(** The texts of the special tokens that are looked for. *)
Definition considered v (parse_special : bool) (id : Z) : Prop :=
  forall d, id_to_token v !! Z.to_nat id = Some d -> parse_special = true \/ Text.attr_has (td_attr d) (Z.lor ATTR_CONTROL ATTR_UNKNOWN) = false.

Definition specials_ok v : Prop :=
  Forall (fun id => 0 <= id < Z.of_nat (length (id_to_token v)) /\ Forall (fun d => td_text d <> []) (option_list (id_to_token v !! Z.to_nat id))) (cache_special_tokens v).

Definition strips v (id : Z) : bool :=
  match id_to_token v !! Z.to_nat id with Some d => Text.attr_has (td_attr d) (Z.lor ATTR_LSTRIP ATTR_RSTRIP) | None => false end.

Definition token_text v (id : Z) : list Z := from_option td_text [] (id_to_token v !! Z.to_nat id).

(** The fragments after the special tokens [seen] were cut out. *)
Record partitioned v raw (parse_special : bool) (seen : list Z) buffer : Prop := {
  pt_in : Forall (in_text raw 0 (length raw)) buffer;
  pt_without id f : id ∈ seen -> considered v parse_special id -> f ∈ buffer -> without raw (token_text v id) f;
  pt_token t : FRAGMENT_TOKEN t ∈ buffer -> t ∈ seen /\ considered v parse_special t;
  pt_spell : Forall (fun id => strips v id = false) seen -> spell_all raw (token_text v) buffer = raw;
}.

Lemma without_sub raw s o l o' l' : (o <= o')%nat -> (o' + l' <= o + l)%nat -> ~ contains raw o l s -> ~ contains raw o' l' s.
Proof.
  intros H1 H2 Hn (k & Hk & Hp). apply Hn. exists (o' - o + k)%nat. split; [lia|]. by replace (o + (o' - o + k))%nat with (o' + k)%nat by lia.
Qed.

Lemma attr_has_lor attr a b : Text.attr_has attr (Z.lor a b) = Text.attr_has attr a || Text.attr_has attr b.
Proof.
  unfold Text.attr_has. rewrite Z.land_lor_distr_r. destruct (Z.eqb_spec (Z.land attr a) 0) as [->|Ha]; [by rewrite Z.lor_0_l|].
  rewrite (proj2 (Z.eqb_neq _ _)); [done|]. intros E. by apply Z.lor_eq_0_iff in E as [? _].
Qed.

Lemma in_concat_mids raw text attr id todo mids f : Forall2 (becomes raw text attr id) todo mids -> f ∈ concat mids ->
  f ∈ todo \/ exists o l mid, FRAGMENT_RAW_TEXT o l ∈ todo /\ cut_of raw text attr id o l mid /\ f ∈ mid.
Proof.
  induction 1 as [|g mid todo mids Hg _ IH]; [by intros H%elem_of_nil|]. cbn [concat]. intros [H|H]%elem_of_app.
  - destruct g as [t|o l]; simpl in Hg; [subst mid; apply list_elem_of_singleton in H as ->; left; left|]. right. exists o, l, mid. split; [left|done].
  - destruct (IH H) as [H1|(o & l & m & H1 & H2)]; [left; by right|right; exists o, l, m; split; [by right|done]].
Qed.

Lemma spell_concat raw text attr id piece todo mids : no_strip attr -> piece id = text -> Forall2 (becomes raw text attr id) todo mids ->
  spell_all raw piece (concat mids) = spell_all raw piece todo.
Proof.
  intros Hs Hp. induction 1 as [|g mid todo mids Hg _ IH]; [done|]. cbn [concat]. rewrite spell_app, IH. unfold spell_all. cbn [flat_map]. f_equal.
  destruct g as [t|o l]; simpl in Hg; [subst mid; simpl; by rewrite app_nil_r|]. by apply (cu_spell _ _ _ _ _ _ _ Hg).
Qed.

Lemma partition_step_ok v raw parse seen buffer id : vb_type v <> LLAMA_VOCAB_TYPE_NONE -> 0 <= id < Z.of_nat (length (id_to_token v)) -> token_text v id <> [] ->
  partitioned v raw parse seen buffer -> exists buffer', Tok.partition_step v raw parse buffer id = Ret buffer' /\ partitioned v raw parse (seen ++ [id]) buffer'.
Proof.
  intros Ht Hid Hne [Hin Hwo Htk Hsp]. destruct (lookup_lt_is_Some_2 (id_to_token v) (Z.to_nat id)) as [d Hd]; [lia|].
  unfold Tok.partition_step, Voc.get_token_data, Voc.has_type, Voc.data_at. rewrite bool_decide_eq_false_2 by done. cbn [negb c_assert mbind outcome_bind].
  rewrite (proj2 (Z.leb_le _ _)), (proj2 (Z.ltb_lt _ _)) by lia. cbn [andb]. rewrite (at_z_Ret _ id d) by (done || lia). cbn [mbind outcome_bind].
  assert (Etx : token_text v id = td_text d) by (unfold token_text; by rewrite Hd). rewrite Etx in Hne.
  destruct (negb parse && Text.attr_has (td_attr d) (Z.lor ATTR_CONTROL ATTR_UNKNOWN)) eqn:Eskip.
  - exists buffer. split; [done|]. apply andb_true_iff in Eskip as [Ep Ea]. constructor; [done| | |].
    + intros i f [H| ->%list_elem_of_singleton]%elem_of_app Hc Hf; [by apply Hwo|]. destruct (Hc d Hd) as [->|E]; [done|congruence].
    + intros t H. destruct (Htk t H) as [H1 H2]. split; [set_solver|done].
    + intros H%Forall_app. by apply Hsp, H.
  - destruct (cut_fragments_ok raw (td_text d) (td_attr d) id Hne buffer (length buffer) [] Hin ltac:(lia)) as (mids & E & Hm). cbn [app length] in E.
    exists (concat mids). split; [done|]. assert (Hcons : considered v parse id).
    { intros d' Hd'. assert (d' = d) as -> by congruence. destruct parse; [by left|right]. by destruct (Text.attr_has _ _). }
    constructor.
    + apply Forall_forall. intros f Hf. destruct (in_concat_mids _ _ _ _ _ _ f Hm Hf) as [H|(o & l & mid & H1 & H2 & H3)]; [rewrite Forall_forall in Hin; by apply Hin|].
      pose proof (cu_in _ _ _ _ _ _ _ H2 f H3) as Hi. rewrite Forall_forall in Hin. pose proof (Hin _ H1) as Hio. destruct f; simpl in *; lia.
    + intros i f Hi Hc Hf. apply elem_of_app in Hi as [Hi| ->%list_elem_of_singleton].
      * destruct (in_concat_mids _ _ _ _ _ _ f Hm Hf) as [H|(o & l & mid & H1 & H2 & H3)]; [by apply Hwo|].
        pose proof (cu_in _ _ _ _ _ _ _ H2 f H3) as Hi2. pose proof (Hwo i _ Hi Hc H1) as Hw. destruct f as [t|o' l']; [done|]. simpl in *. eapply without_sub; [| |exact Hw]; lia.
      * rewrite Etx. apply list_elem_of_In, in_concat in Hf as (mid & Hmid%list_elem_of_In & Hf%list_elem_of_In). apply list_elem_of_lookup in Hmid as [k Hk].
        destruct (Forall2_lookup_r _ _ _ _ _ Hm Hk) as (g & Hg & Hb). destruct g as [t|o l]; simpl in Hb; [subst mid; by apply list_elem_of_singleton in Hf as ->|].
        by apply (cu_without _ _ _ _ _ _ _ Hb).
    + intros t Hf. destruct (in_concat_mids _ _ _ _ _ _ _ Hm Hf) as [H|(o & l & mid & H1 & H2 & H3)]; [destruct (Htk t H); split; [set_solver|done]|].
      rewrite (cu_token _ _ _ _ _ _ _ H2 t H3). split; [set_solver|done].
    + intros [Hs1 Hs2]%Forall_app. apply Forall_cons in Hs2 as [Hs2 _]. unfold strips in Hs2. rewrite Hd, attr_has_lor in Hs2. apply orb_false_iff in Hs2.
      rewrite (spell_concat raw (td_text d) (td_attr d) id (token_text v) buffer mids Hs2 Etx Hm). by apply Hsp.
Qed.

Lemma fragments_ok v raw parse : vb_type v <> LLAMA_VOCAB_TYPE_NONE -> specials_ok v ->
  exists buffer, Tok.fragments v raw parse = Ret buffer /\ partitioned v raw parse (cache_special_tokens v) buffer.
Proof.
  intros Ht Hs. unfold Tok.fragments. destruct (decide (raw = [])) as [->|Hne].
  - exists []. split; [done|]. constructor; [constructor| | |done]; [by intros ? ? _ _ H%elem_of_nil|by intros ? H%elem_of_nil].
  - assert (Hpos : (1 <= length raw)%nat) by (destruct raw; [done|simpl; lia]). unfold Tok.raw_fragment. rewrite (proj2 (Nat.leb_le _ _) Hpos). cbn [c_assert mbind outcome_bind].
    rewrite (proj2 (Nat.leb_le _ _)) by lia. cbn [c_assert mbind outcome_bind].
    apply (foldM_prefix (Tok.partition_step v raw parse) (partitioned v raw parse)).
    + constructor; [constructor; [simpl; lia|constructor]|by intros ? ? H%elem_of_nil|by intros t H%list_elem_of_singleton|].
      intros _. unfold spell_all. simpl. unfold Tok.fragment_text. rewrite drop_0, app_nil_r. by apply take_ge.
    + intros pre id rest b E Hp. unfold specials_ok in Hs. rewrite E in Hs. apply Forall_app in Hs as [_ [[Hid Htx] _]%Forall_cons]. apply partition_step_ok; [done|done| |done].
      unfold token_text. destruct (lookup_lt_is_Some_2 (id_to_token v) (Z.to_nat id)) as [d Hd]; [lia|]. rewrite Hd in Htx |- *. by apply Forall_cons in Htx as [? _].
Qed.
