(* ===== verification/SpmRoundtrip.v ===== *)
(** * Pieces of tokens: the cache, and the texts of the tokens of an SPM
    vocabulary. *)

From S2P Require Import Prelude Utf8 Utf8Facts Vocabulary VocabText MergeFacts SpmFacts TextFacts DetokenizeFacts SpmTokenizer.
From S2P Require Import VocabTokenize MergeQueue PartitionFacts.
From Stdlib Require Import Lia.

Implicit Types (v : llama_vocab) (s text tokens : list Z) (id : Z).

(** ** What a token is written as *)

(** The text of a token without a buffer, as [token_to_piece] computes it when
    there is no cache. *)
Definition text_of v (token attr : Z) text : outcome (list Z) :=
  match vb_type v with
  | LLAMA_VOCAB_TYPE_WPM | LLAMA_VOCAB_TYPE_SPM | LLAMA_VOCAB_TYPE_UGM =>
      if Text.attr_has attr (Z.lor Text.attr_special ATTR_USER_DEFINED) then Ret text
      else if Text.attr_has attr ATTR_NORMAL then Text.llama_unescape_whitespace text
      else if Text.attr_has attr ATTR_BYTE then b ← Voc.token_to_byte v token; Ret [b]
      else Ret []
  | LLAMA_VOCAB_TYPE_BPE =>
      if Text.attr_has attr (Z.lor Text.attr_special ATTR_USER_DEFINED) then Ret text
      else if Text.attr_has attr ATTR_NORMAL then Text.llama_decode_text text
      else Ret []
  | LLAMA_VOCAB_TYPE_RWKV => Ret (Text.llama_unescape_rwkv_token text)
  | LLAMA_VOCAB_TYPE_PLAMO2 =>
      b ← Voc.is_byte v token;
      if (b : bool) && (length text =? 6)%nat && bool_decide (take 3 text = bytes "<0x") && bool_decide (last text = Some (ch ">"))
      then hex_val ← Text.stoi16 (take 2 (drop 3 text)); Ret [u8 hex_val]
      else Ret text
  | LLAMA_VOCAB_TYPE_NONE => Fatal "fatal error"
  end.

Definition piece_of v id : list Z :=
  match id_to_token v !! Z.to_nat id with
  | Some d => match text_of v id (td_attr d) (td_text d) with Ret s => s | _ => [] end
  | None => []
  end.

(** Every token can be written. *)
Definition writable v : Prop :=
  vb_type v <> LLAMA_VOCAB_TYPE_NONE /\ Z.of_nat (length (id_to_token v)) < 2 ^ 31
  /\ forall k d, id_to_token v !! k = Some d -> text_of v (Z.of_nat k) (td_attr d) (td_text d) = Ret (piece_of v (Z.of_nat k)) /\ Z.of_nat (length (piece_of v (Z.of_nat k))) < INT32_MAX.

Lemma try_copy_fit len lstrip s : Z.of_nat (length s) < INT32_MAX -> Text.try_copy len lstrip s = Ret (fit len (Text.strip (Z.to_nat lstrip) s)).
Proof. intros H. unfold Text.try_copy. by rewrite (proj2 (Z.leb_gt _ _)). Qed.

Lemma strip_0 s : Text.strip 0 s = s.
Proof. done. Qed.

Lemma piece_of_text_ok v id attr len text s : text_of v id attr text = Ret s -> Z.of_nat (length s) < INT32_MAX -> 0 <= len ->
  Text.piece_of_text v id attr len 0 text = Ret (fit len s).
Proof.
  intros H Hs Hlen. assert (H0 : (Ret (0, []) : outcome _) = Ret (fit len [])) by (unfold fit; by rewrite (proj2 (Z.ltb_ge _ _))).
  unfold text_of in H. unfold Text.piece_of_text.
  assert (Hc : forall m : outcome (list Z), m = Ret s -> (r ← m; Text.try_copy len 0 r) = Ret (fit len s)).
  { intros m ->. cbn [mbind outcome_bind]. by rewrite try_copy_fit. }
  destruct (vb_type v); [done|..].
  1,3,4: destruct (Text.attr_has attr (Z.lor Text.attr_special ATTR_USER_DEFINED)); [apply (Hc (Ret text)), H|]; destruct (Text.attr_has attr ATTR_NORMAL); [by apply Hc|];
    destruct (Text.attr_has attr ATTR_BYTE); [|by injection H as <-]; destruct (Voc.token_to_byte v id); cbn [mbind outcome_bind] in *; try done; injection H as <-; by rewrite try_copy_fit.
  - destruct (Text.attr_has attr (Z.lor Text.attr_special ATTR_USER_DEFINED)); [apply (Hc (Ret text)), H|]. destruct (Text.attr_has attr ATTR_NORMAL); [by apply Hc|]. by injection H as <-.
  - by injection H as <-.
  - destruct (Voc.is_byte v id) as [b| | | |]; cbn [mbind outcome_bind] in *; try done.
    destruct (b && (length text =? 6)%nat && bool_decide (take 3 text = bytes "<0x") && bool_decide (last text = Some (ch ">"))); [|by apply (Hc (Ret text))].
    destruct (Text.stoi16 _) as [h| | | |]; cbn [mbind outcome_bind] in *; try done. by injection H as <-.
Qed.

Lemma get_attr_ok v id d : vb_type v <> LLAMA_VOCAB_TYPE_NONE -> 0 <= id -> id_to_token v !! Z.to_nat id = Some d -> Voc.token_get_attr v id = Ret (td_attr d).
Proof.
  intros Ht H0 Hd. unfold Voc.token_get_attr, Voc.has_type, Voc.data_at. rewrite bool_decide_eq_false_2 by done. cbn [negb c_assert mbind outcome_bind].
  pose proof (lookup_lt_Some _ _ _ Hd). rewrite (proj2 (Z.leb_le _ _)), (proj2 (Z.ltb_lt _ _)) by lia. cbn [andb]. by rewrite (at_z_Ret _ _ d).
Qed.

(** ** The cache *)

Lemma piece_for_cache_ok capacity v k : writable v -> cache_token_to_piece v = [] -> (k < length (id_to_token v))%nat ->
  Text.token_to_piece_for_cache capacity v (Z.of_nat k) true = Ret (piece_of v (Z.of_nat k)).
Proof.
  intros (Ht & Hn & Hw) Hc Hk. destruct (lookup_lt_is_Some_2 _ _ Hk) as [d Hd]. destruct (Hw k d Hd) as [Htx Hl].
  assert (Hgo : forall len, 0 <= len -> Text.token_to_piece v (Z.of_nat k) len 0 true = Ret (fit len (piece_of v (Z.of_nat k)))).
  { intros len Hlen. unfold Text.token_to_piece. rewrite (get_attr_ok v _ d) by (done || lia || by rewrite Nat2Z.id). cbn [mbind outcome_bind negb andb].
    rewrite bool_decide_eq_true_2 by done. cbn [negb]. rewrite (i32_small (Z.of_nat (length _))) by lia. rewrite (proj2 (Z.leb_le _ _)), (proj2 (Z.ltb_lt _ _)) by lia. cbn [andb].
    rewrite (at_z_Ret _ _ d) by (lia || by rewrite Nat2Z.id). cbn [mbind outcome_bind]. by apply piece_of_text_ok. }
  unfold Text.token_to_piece_for_cache. rewrite Hgo by lia. cbn [mbind outcome_bind]. unfold fit at 1.
  destruct (Z.ltb_spec (Z.of_nat capacity) (Z.of_nat (length (piece_of v (Z.of_nat k))))) as [Hgt|Hle].
  - rewrite (proj2 (Z.ltb_lt _ _)) by lia. rewrite Z.opp_involutive, Hgo by lia. cbn [mbind outcome_bind]. unfold fit. rewrite Z.ltb_irrefl. cbn [mbind outcome_bind]. by rewrite Z.eqb_refl.
  - by rewrite (proj2 (Z.ltb_ge _ _)) by lia.
Qed.

Definition cached v : llama_vocab := Text.with_cache v (map (fun k => piece_of v (Z.of_nat k)) (seq 0 (length (id_to_token v)))).

Lemma build_cache_ok capacity v : writable v -> cache_token_to_piece v = [] -> Text.build_cache capacity v = Ret (cached v).
Proof.
  intros Hw Hc. unfold Text.build_cache. rewrite (foldM_append _ (fun k => [piece_of v (Z.of_nat k)])).
  - cbn [mbind outcome_bind app]. by rewrite flat_map_single.
  - intros k cache Hk%elem_of_seq. rewrite piece_for_cache_ok by (done || lia). done.
Qed.

(** What a token is written as with the cache. *)
Definition shown v (special : bool) id (remove : bool) : list Z :=
  match id_to_token v !! Z.to_nat id with
  | Some d => if negb special && Text.attr_has (td_attr d) Text.attr_special then [] else Text.strip (if remove then 1 else 0) (piece_of v id)
  | None => []
  end.

Lemma cached_spells v special tokens : writable v -> (forall t, t ∈ tokens -> 0 <= t < Z.of_nat (length (id_to_token v))) ->
  spells (cached v) special (shown v special) tokens.
Proof.
  intros (Ht & Hn & Hw) Hin t remove len Htk Hlen. specialize (Hin t Htk). destruct (lookup_lt_is_Some_2 (id_to_token v) (Z.to_nat t)) as [d Hd]; [lia|].
  destruct (Hw _ d Hd) as [_ Hl]. rewrite Z2Nat.id in Hl by lia.
  unfold Text.token_to_piece. rewrite (get_attr_ok (cached v) _ d) by (done || lia). cbn [mbind outcome_bind]. unfold shown. rewrite Hd.
  destruct (negb special && Text.attr_has (td_attr d) Text.attr_special); [unfold fit; by rewrite (proj2 (Z.ltb_ge _ _))|].
  assert (Hcl : length (cache_token_to_piece (cached v)) = length (id_to_token v)) by (simpl; by rewrite length_map, length_seq).
  rewrite bool_decide_eq_false_2 by (intros E; rewrite E in Hcl; simpl in Hcl; lia). cbn [negb]. rewrite Hcl, (proj2 (Z.leb_le _ _)), (proj2 (Z.ltb_lt _ _)) by lia. cbn [andb].
  rewrite (at_z_Ret _ _ (piece_of v t)).
  - cbn [mbind outcome_bind]. rewrite try_copy_fit by done. by destruct remove.
  - lia.
  - simpl. apply list_lookup_fmap_Some. exists (Z.to_nat t). split; [by rewrite Z2Nat.id by lia|]. apply lookup_seq. lia.
Qed.

(** Any list of tokens is written as the texts of the tokens, cleaned. *)
Lemma detokenize_text_ok capacity capacity' v special tokens : writable v -> cache_token_to_piece v = [] ->
  (forall t, t ∈ tokens -> 0 <= t < Z.of_nat (length (id_to_token v))) -> Z.of_nat (length (spelled (shown v special) (add_space_prefix v) tokens)) < 2 ^ 31 ->
  (v ← Text.build_cache capacity v; Detok.detokenize_string capacity' v tokens special) = Ret (cleaned v (spelled (shown v special) (add_space_prefix v) tokens)).
Proof.
  intros Hw Hc Hin Hlen. rewrite build_cache_ok by done. cbn [mbind outcome_bind]. apply (detokenize_string_ok capacity' (cached v)); [by destruct Hw|by apply cached_spells|done].
Qed.

(** * A text that is cut into SPM tokens is written back by them. *)

Implicit Types (raw word : list Z) (cs : list (list Z)) (f : fragment_buffer_variant).

(** ** Vocabularies *)

(** The attributes of the tokens that stand for parts of texts, for one byte, and
    for themselves. *)
Definition normal_token (d : token_data) : Prop :=
  Text.attr_has (td_attr d) (Z.lor Text.attr_special ATTR_USER_DEFINED) = false /\ Text.attr_has (td_attr d) ATTR_NORMAL = true.
Definition byte_token (d : token_data) : Prop :=
  Text.attr_has (td_attr d) (Z.lor Text.attr_special ATTR_USER_DEFINED) = false /\ Text.attr_has (td_attr d) ATTR_NORMAL = false /\ Text.attr_has (td_attr d) ATTR_BYTE = true.
Definition special_token (d : token_data) : Prop := Text.attr_has (td_attr d) (Z.lor Text.attr_special ATTR_USER_DEFINED) = true.

Definition token_is v (P : token_data -> Prop) id : Prop := Forall P (option_list (id_to_token v !! Z.to_nat id)).

Record spm_vocab v : Prop := {
  sv_ok : vocab_ok v;
  sv_type : vb_type v = LLAMA_VOCAB_TYPE_SPM;
  sv_write : writable v;
  sv_nocache : cache_token_to_piece v = [];
  sv_bytes : Forall (fun c => exists id, token_to_id v !! Voc.byte_text c = Some id /\ token_is v byte_token id) (seqZ 0 256);
  sv_block : is_Some (token_to_id v !! Text.LOWER_BLOCK);
  sv_specials : specials_ok v;
  sv_special : Forall (token_is v special_token) (cache_special_tokens v);
}.

(** No special token and no byte token is spelled out in the word. *)
Definition plain v word : Prop :=
  Forall (fun k => Forall (fun n => Forall (token_is v normal_token) (option_list (token_to_id v !! take n (drop k word)))) (seq 0 (S (length word)))) (seq 0 (S (length word))).

Lemma token_is_Some v (P : token_data -> Prop) id d : token_is v P id -> id_to_token v !! Z.to_nat id = Some d -> P d.
Proof. unfold token_is. intros H E. rewrite E in H. by apply Forall_cons in H as [? _]. Qed.

Lemma plain_token v word k n id d : plain v word -> (k <= length word)%nat -> (n <= length word)%nat -> token_to_id v !! take n (drop k word) = Some id -> id_to_token v !! Z.to_nat id = Some d -> normal_token d.
Proof.
  intros H Hk Hn Hid Hd. unfold plain in H. rewrite Forall_forall in H. specialize (H k ltac:(apply elem_of_seq; lia)). rewrite Forall_forall in H.
  specialize (H n ltac:(apply elem_of_seq; lia)). rewrite Hid in H. apply Forall_cons in H as [H _]. by eapply token_is_Some.
Qed.

Lemma has_bytes_ok v : spm_vocab v -> has_bytes v.
Proof.
  intros Hv c Hc. pose proof (sv_bytes v Hv) as H. rewrite Forall_forall in H. destruct (H c) as (id & E & _); [apply elem_of_seqZ; lia|]. by exists id.
Qed.

(** ** The tokens of a part *)

(** The byte a byte token stands for. *)
Lemma byte_text_value c : 0 <= c < 256 -> (3 <= length (Voc.byte_text c))%nat /\ u8 (Voc.strtol16 (take 2 (drop 3 (Voc.byte_text c)))) = c.
Proof.
  intros Hc. assert (H : Forall (fun c => (3 <= length (Voc.byte_text c))%nat /\ u8 (Voc.strtol16 (take 2 (drop 3 (Voc.byte_text c)))) = c) (seqZ 0 256)) by (apply (bool_decide_unpack _); by vm_compute).
  rewrite Forall_forall in H. apply H. apply elem_of_seqZ. lia.
Qed.

Lemma byte_piece v c : spm_vocab v -> 0 <= c < 256 -> shown v true (byte_id v c) false = [c] /\ 0 <= byte_id v c < Z.of_nat (length (id_to_token v)).
Proof.
  intros Hv Hc. pose proof (sv_bytes v Hv) as H. rewrite Forall_forall in H. destruct (H c) as (id & E & Hb); [apply elem_of_seqZ; lia|].
  unfold byte_id. rewrite E. cbn [from_option]. destruct (vo_ids v (sv_ok v Hv) _ _ E) as (d & Hr & Hd & Ht). split; [|done].
  pose proof (token_is_Some v _ id d Hb Hd) as (H1 & H2 & H3). unfold shown, piece_of, Datatypes.id. rewrite Hd. cbn [negb andb]. unfold text_of. rewrite (sv_type v Hv), H1, H2, H3.
  unfold Voc.token_to_byte, Voc.is_byte, Voc.has_attr, Voc.data_at. rewrite !(has_type_ok v (sv_ok v Hv)). cbn [mbind outcome_bind]. rewrite (at_z_Ret _ id d) by (done || lia). cbn [mbind outcome_bind].
  unfold Text.attr_has in H3. rewrite H3. cbn [c_assert mbind outcome_bind]. rewrite (proj2 (Z.leb_le _ _)), (proj2 (Z.ltb_lt _ _)) by lia. cbn [andb mbind outcome_bind].
  rewrite (sv_type v Hv), Ht. destruct (byte_text_value c Hc) as [Hl Hval]. by rewrite (proj2 (Nat.ltb_ge _ _) Hl), Hval.
Qed.

Lemma normal_piece v id d cs : spm_vocab v -> 0 <= id -> id_to_token v !! Z.to_nat id = Some d -> normal_token d -> td_text d = concat cs -> Forall utf8_char cs ->
  shown v true id false = concat (map unescape_char cs).
Proof.
  intros Hv H0 Hd [H1 H2] Ht Hcs. unfold shown, piece_of, text_of. rewrite Hd. cbn [negb andb]. rewrite (sv_type v Hv), H1, H2, Ht. by rewrite unescape_ok.
Qed.

(** What the tokens [ids] write; every one of them writes something. *)
Record writes v (ids text : list Z) : Prop := {
  wr_text : flat_map (fun t => shown v true t false) ids = text;
  wr_range t : t ∈ ids -> 0 <= t < Z.of_nat (length (id_to_token v)) /\ shown v true t false <> [];
}.

Lemma writes_nil v : writes v [] [].
Proof. split; [done|]. by intros t H%elem_of_nil. Qed.

Lemma writes_app v ids1 ids2 text1 text2 : writes v ids1 text1 -> writes v ids2 text2 -> writes v (ids1 ++ ids2) (text1 ++ text2).
Proof.
  intros [H1 R1] [H2 R2]. split; [by rewrite flat_map_app, H1, H2|]. intros t [H|H]%elem_of_app; [by apply R1|by apply R2].
Qed.

Lemma writes_single v id text : 0 <= id < Z.of_nat (length (id_to_token v)) -> shown v true id false = text -> text <> [] -> writes v [id] text.
Proof. intros Hr E Hne. split; [simpl; by rewrite app_nil_r|]. intros t ->%list_elem_of_singleton. by rewrite E. Qed.

Lemma writes_bytes v bytes_ : spm_vocab v -> is_bytes bytes_ -> writes v (map (byte_id v) bytes_) bytes_.
Proof.
  intros Hv. induction 1 as [|c bytes_ Hc _ IH]; [apply writes_nil|]. destruct (byte_piece v c Hv Hc) as [E Hr].
  apply (writes_app v [byte_id v c] (map (byte_id v) bytes_) [c] bytes_); [by apply writes_single|done].
Qed.

Lemma concat_utf8_nonempty cs : cs <> [] -> Forall utf8_char cs -> concat cs <> [].
Proof. intros Hne H E. destruct H as [|g cs Hg _]; [done|]. by destruct g. Qed.

Lemma part_writes v word cs k : spm_vocab v -> plain v word -> cs <> [] -> Forall utf8_char cs -> group_ok (spm_offer v) cs -> (k + length (concat cs) <= length word)%nat ->
  concat cs = take (length (concat cs)) (drop k word) -> writes v (spm_ids v (concat cs)) (concat (map unescape_char cs)).
Proof.
  intros Hv Hp Hne Hcs Hg Hk Hw. assert (Hune : concat (map unescape_char cs) <> []).
  { apply concat_utf8_nonempty; [by destruct cs|]. apply Forall_fmap. eapply Forall_impl; [exact Hcs|]. intros g H. apply utf8_replaced; [apply utf8_space|done]. }
  unfold spm_ids. destruct (token_to_id v !! concat cs) as [id|] eqn:E.
  - destruct (vo_ids v (sv_ok v Hv) _ _ E) as (d & Hr & Hd & Ht). rewrite Hw in E.
    pose proof (plain_token v word k (length (concat cs)) id d Hp ltac:(lia) ltac:(lia) E Hd) as Hn. apply writes_single; [done| |done]. by apply (normal_piece v id d cs Hv ltac:(lia)).
  - destruct Hg as [[c ->]|(_ & g & h & Egh & [key Hoff])]; [|unfold spm_offer in Hoff; rewrite <- Egh, E in Hoff; done].
    assert (Ec : concat (map unescape_char [c]) = concat [c]).
    { simpl. rewrite !app_nil_r. unfold replaced. destruct (decide (c = Text.LOWER_BLOCK)) as [->|]; [|done]. change (token_to_id v !! Text.LOWER_BLOCK = None) in E. destruct (sv_block v Hv) as [id Hid]. congruence. }
    rewrite Ec. apply writes_bytes; [done|by apply utf8_chars_bytes].
Qed.

(** All parts of a word. *)
Lemma parts_write v word css : spm_vocab v -> plain v word -> Forall (group_ok (spm_offer v)) css -> Forall utf8_char (concat css) -> forall pre, word = concat (pre ++ concat css) ->
  writes v (flat_map (spm_ids v) (map (@concat Z) css)) (concat (map unescape_char (concat css))).
Proof.
  intros Hv Hp. induction css as [|cs css IH]; intros Hg Hu pre Hw; [apply writes_nil|]. apply Forall_cons in Hg as [Hg Hgs]. cbn [concat] in Hu, Hw |- *. apply Forall_app in Hu as [Hu Hus].
  cbn [map flat_map]. rewrite map_app, concat_app. apply writes_app; [|apply (IH Hgs Hus (pre ++ cs)); by rewrite <- app_assoc].
  assert (Hwd : word = concat pre ++ concat cs ++ concat (concat css)) by (by rewrite Hw, !concat_app).
  apply (part_writes v word cs (length (concat pre))); [done|done|by destruct Hg as [[c ->]|[? _]]|done|done| |].
  - rewrite Hwd, !length_app. lia.
  - by rewrite Hwd, drop_app_length, take_app_length.
Qed.

(** ** Fragments *)

(** A text that can be written back: UTF-8 without U+2581, in which no special
    token is spelled out, also when a space is put before it. *)
Definition ready v (prefix text : list Z) : Prop :=
  Forall utf8_char (chars text) /\ Text.LOWER_BLOCK ∉ chars text /\ is_bytes text /\ plain v (concat (map escape_char (chars (prefix ++ text)))).

Lemma spm_text_writes v prefix text out : spm_vocab v -> prefix = [] \/ prefix = space -> text <> [] -> ready v prefix text ->
  exists ids, (t ← Text.llama_escape_whitespace (prefix ++ text); Spm.tokenize v t out) = Ret (out ++ ids) /\ writes v ids (prefix ++ text).
Proof.
  intros Hv Hpre Hne (Hu & Hb & Hby & Hp). pose proof (concat_chars text Hby) as Hc.
  assert (Hcs : exists cs, concat cs = prefix ++ text /\ Forall utf8_char cs /\ Text.LOWER_BLOCK ∉ cs).
  { destruct Hpre as [-> | ->]; [by exists (chars text)|]. exists (space :: chars text). split; [simpl; by rewrite Hc|]. split; [by constructor; [apply utf8_space|]|].
    intros [H|H]%elem_of_cons; [by vm_compute in H|done]. }
  destruct Hcs as (cs & Ecs & Hcu & Hcb). rewrite <- Ecs in Hp |- *. rewrite chars_concat in Hp by done. rewrite escape_ok by done. cbn [mbind outcome_bind].
  set (es := map escape_char cs) in *. assert (Hes : Forall utf8_char es).
  { apply Forall_fmap. eapply Forall_impl; [exact Hcu|]. intros g H. apply utf8_replaced; [apply utf8_block|done]. }
  assert (Hcne : cs <> []) by (intros ->; simpl in Ecs; destruct prefix, text; done).
  rewrite spm_tokenize_ok; [|apply Hv|apply Hv|by apply has_bytes_ok|by apply utf8_chars_bytes|by apply concat_utf8_nonempty; [unfold es; destruct cs|]].
  rewrite chars_concat by done. destruct (greedy_groups (spm_offer v) Z.ltb Z.ltb_irrefl ltb_tr ltb_tot es) as (css & -> & Ecss & Hg).
  eexists. split; [reflexivity|]. pose proof (parts_write v (concat es) css Hv Hp Hg) as H. rewrite Ecss in H. specialize (H Hes [] eq_refl). unfold es in H. by rewrite unescape_escape in H.
Qed.

(** What the fragments write: a space before a text that follows a special token
    or begins the text, when the vocabulary asks for it. *)
Definition prefix_of v (prev : bool) : list Z := if add_space_prefix v && prev then space else [].

Fixpoint expand v raw (prev : bool) (buffer : list fragment_buffer_variant) : list Z :=
  match buffer with
  | [] => []
  | FRAGMENT_TOKEN t :: buffer => token_text v t ++ expand v raw true buffer
  | FRAGMENT_RAW_TEXT o l :: buffer => prefix_of v prev ++ Tok.fragment_text raw o l ++ expand v raw false buffer
  end.

Definition fragment_ready v raw f : Prop :=
  match f with
  | FRAGMENT_TOKEN _ => True
  | FRAGMENT_RAW_TEXT o l => ready v [] (Tok.fragment_text raw o l) /\ ready v (prefix_of v true) (Tok.fragment_text raw o l)
  end.

Lemma special_writes v id : spm_vocab v -> id ∈ cache_special_tokens v -> writes v [id] (token_text v id).
Proof.
  intros Hv Hin. pose proof (sv_specials v Hv) as Hs. pose proof (sv_special v Hv) as Hsp. unfold specials_ok in Hs. rewrite Forall_forall in Hs, Hsp. destruct (Hs id Hin) as [Hr Hne].
  destruct (lookup_lt_is_Some_2 (id_to_token v) (Z.to_nat id)) as [d Hd]; [lia|]. pose proof (token_is_Some v _ id d (Hsp id Hin) Hd) as Ha. rewrite Hd in Hne. apply Forall_cons in Hne as [Hne _].
  unfold token_text. rewrite Hd. cbn [from_option]. apply writes_single; [done| |done]. unfold shown, piece_of, text_of. rewrite Hd. cbn [negb andb]. by rewrite (sv_type v Hv), Ha.
Qed.

Lemma fragments_write v raw buffer : spm_vocab v -> forall prev out, Forall (in_text raw 0 (length raw)) buffer -> (forall t, FRAGMENT_TOKEN t ∈ buffer -> t ∈ cache_special_tokens v) ->
  Forall (fragment_ready v raw) buffer ->
  exists ids prev', foldM (Tok.spm_fragment v raw) (out, prev) buffer = Ret (out ++ ids, prev') /\ writes v ids (expand v raw prev buffer).
Proof.
  intros Hv. induction buffer as [|f buffer IH]; intros prev out Hin Htk Hr; [exists [], prev; rewrite app_nil_r; split; [done|apply writes_nil]|].
  apply Forall_cons in Hin as [Hf Hin], Hr as [Hrf Hr]. assert (Htk' : forall t, FRAGMENT_TOKEN t ∈ buffer -> t ∈ cache_special_tokens v) by (intros t H; apply Htk; by right).
  cbn [foldM]. destruct f as [t|o l]; cbn [Tok.spm_fragment expand].
  - cbn [mbind outcome_bind]. destruct (IH true (out ++ [t]) Hin Htk' Hr) as (ids & prev' & E & Hw). exists (t :: ids), prev'. rewrite E, <- app_assoc. split; [done|].
    apply (writes_app v [t]); [|done]. apply special_writes; [done|]. apply Htk. left.
  - change (if add_space_prefix v && prev then [32] else []) with (prefix_of v prev). simpl in Hf. destruct Hrf as [Hr0 Hr1].
    assert (Hlen : length (Tok.fragment_text raw o l) = l) by (unfold Tok.fragment_text; rewrite length_take, length_drop; lia).
    destruct (spm_text_writes v (prefix_of v prev) (Tok.fragment_text raw o l) out Hv) as (ids1 & E1 & Hw1).
    { unfold prefix_of. destruct (add_space_prefix v && prev); [by right|by left]. } { intros E. rewrite E in Hlen. simpl in Hlen. lia. }
    { unfold prefix_of in *. destruct prev; [done|]. by rewrite andb_false_r. }
    destruct (Text.llama_escape_whitespace _) as [t| | | |]; cbn [mbind outcome_bind] in *; try done. rewrite E1. cbn [mbind outcome_bind].
    destruct (IH false (out ++ ids1) Hin Htk' Hr) as (ids2 & prev' & E2 & Hw2). exists (ids1 ++ ids2), prev'. rewrite E2, <- app_assoc. split; [done|]. rewrite app_assoc. by apply writes_app.
Qed.
