(* ===== verification/TokenizerTheorems.v ===== *)
(** * The theorems on the tokenizers and on detokenizing. *)

From S2P Require Import Prelude Utf8 Utf8Facts Vocabulary SpmTokenizer BpeTokenizer VocabText VocabTokenize MergeFacts.
From S2P Require Import MergeQueue SpmFacts BpeFacts TextFacts DetokenizeFacts PartitionFacts SpmRoundtrip.
From Stdlib Require Import Lia.

Implicit Types (v : llama_vocab) (raw word tokens : list Z).

(** ** Round trip *)

Lemma strip_app s rest : s <> [] -> Text.strip 1 (s ++ rest) = Text.strip 1 s ++ rest.
Proof. destruct s as [|c s]; [done|]. intros _. simpl. by destruct (c =? 32). Qed.

(** Only the first piece can lose a space. *)
Lemma spelled_strip v tokens text remove : writes v tokens text -> spelled (shown v true) remove tokens = Text.strip (if remove then 1 else 0) text.
Proof.
  intros [<- Hr]. destruct remove; [|by rewrite spelled_false]. destruct tokens as [|t tokens]; [done|]. cbn [spelled flat_map].
  destruct (Hr t ltac:(left)) as [_ Hne]. rewrite strip_app by done. f_equal. unfold shown in *. by destruct (id_to_token v !! Z.to_nat t).
Qed.

Lemma expand_plain v raw prev buffer : add_space_prefix v = false -> expand v raw prev buffer = spell_all raw (token_text v) buffer.
Proof.
  intros H. revert prev. induction buffer as [|f buffer IH]; intros prev; [done|]. unfold spell_all in *. destruct f as [t|o l]; cbn [expand flat_map spell]; [by rewrite IH|].
  unfold prefix_of. by rewrite H, IH.
Qed.

(** The tokens of a text write what its fragments expand to. *)
Lemma tokenize_writes v raw parse buffer : spm_vocab v -> Tok.fragments v raw parse = Ret buffer -> Forall (fragment_ready v raw) buffer ->
  exists tokens, Tok.tokenize_spm v raw false parse = Ret tokens /\ writes v tokens (expand v raw true buffer).
Proof.
  intros Hv Hf Hr. destruct (fragments_ok v raw parse (vo_type v (sv_ok v Hv)) (sv_specials v Hv)) as (buffer' & E & Hp). assert (buffer' = buffer) as -> by congruence.
  destruct (fragments_write v raw buffer Hv true [] (pt_in _ _ _ _ _ Hp) (fun t H => proj1 (pt_token _ _ _ _ _ Hp t H)) Hr) as (ids & prev' & E2 & Hw).
  exists ids. split; [|done]. unfold Tok.tokenize_spm, Tok.push_special. rewrite Hf. cbn [andb mbind outcome_bind]. rewrite E2. done.
Qed.

(** What the fragments expand to, without the space the detokenizer removes. *)
Lemma expand_strip v raw parse buffer : spm_vocab v -> Tok.fragments v raw parse = Ret buffer ->
  (add_space_prefix v = false /\ Forall (fun id => strips v id = false) (cache_special_tokens v)) \/ buffer = [FRAGMENT_RAW_TEXT 0 (length raw)] ->
  Text.strip (if add_space_prefix v then 1 else 0) (expand v raw true buffer) = raw.
Proof.
  intros Hv Hf Hcase. destruct (fragments_ok v raw parse (vo_type v (sv_ok v Hv)) (sv_specials v Hv)) as (buffer' & E & Hp). assert (buffer' = buffer) as -> by congruence.
  destruct Hcase as [[Hns Hst]| ->].
  - rewrite Hns, expand_plain by done. by apply (pt_spell _ _ _ _ _ Hp).
  - cbn [expand]. assert (Et : Tok.fragment_text raw 0 (length raw) = raw) by (unfold Tok.fragment_text; rewrite drop_0; by apply take_ge).
    rewrite Et, app_nil_r. unfold prefix_of. by destruct (add_space_prefix v).
Qed.

(** C6. C1: Detokenizing the tokens of a text gives the text back, for an SPM
    vocabulary and a text of UTF-8 characters without U+2581, whatever the sizes
    of the first buffers: a text without special tokens also when the vocabulary
    puts a space before it, and a text with special tokens when it does not. *)
Theorem spm_roundtrip capacity capacity' v raw parse_special buffer : spm_vocab v -> clean_spaces v = false ->
  Tok.fragments v raw parse_special = Ret buffer -> Forall (fragment_ready v raw) buffer ->
  (add_space_prefix v = false /\ Forall (fun id => strips v id = false) (cache_special_tokens v)) \/ buffer = [FRAGMENT_RAW_TEXT 0 (length raw)] ->
  Z.of_nat (length raw) < 2 ^ 31 ->
  (tokens ← Tok.tokenize_spm v raw false parse_special; v ← Text.build_cache capacity v; Detok.detokenize_string capacity' v tokens true) = Ret raw.
Proof.
  intros Hv Hcl Hf Hr Hcase Hlen. destruct (tokenize_writes v raw parse_special buffer Hv Hf Hr) as (tokens & -> & Hw). cbn [mbind outcome_bind].
  pose proof (spelled_strip v tokens _ (add_space_prefix v) Hw) as Es.
  rewrite (expand_strip v raw parse_special buffer Hv Hf Hcase) in Es.
  rewrite detokenize_text_ok; [unfold cleaned; by rewrite Hcl, Es|apply Hv|apply Hv|intros t Ht; by apply (wr_range _ _ _ Hw)|by rewrite Es].
Qed.

(** C7. C2: The SPM tokenizer computes the reference: from the characters of the text
    on, the neighbours whose joint token has the best score, the first ones of
    several, are joined until no token covers two neighbours; a part that is no
    token is written as its bytes.  It never fails. *)
Theorem spm_reference v word output : vocab_ok v -> vb_type v = LLAMA_VOCAB_TYPE_SPM -> has_bytes v -> is_bytes word -> word <> [] ->
  Spm.tokenize v word output = Ret (output ++ flat_map (spm_ids v) (greedy (spm_offer v) Z.ltb (chars word)))
  /\ concat (greedy (spm_offer v) Z.ltb (chars word)) = word.
Proof.
  intros Hv Ht Hb Hw Hne. split; [by apply spm_tokenize_ok|]. rewrite (greedy_concat _ _ Z.ltb_irrefl ltb_tr ltb_tot). by apply concat_chars.
Qed.

(** C8. The BPE tokenizer computes the reference on every word: the neighbours
    whose merge has the lowest rank are joined first; a word that is a token stays
    whole when merges are ignored.  It never fails on words without blanks and
    line ends. *)
Theorem bpe_reference v words output : vocab_ok v -> Forall word_ok words ->
  Bpe.tokenize_words v words output = Ret (output ++ flat_map (bpe_ids v) (flat_map (bpe_parts v) words))
  /\ Forall (fun word => concat (bpe_parts v word) = word) words.
Proof.
  intros Hv Hw. split; [by apply bpe_tokenize_ok|]. eapply Forall_impl; [exact Hw|]. intros word (Hb & _). unfold bpe_parts. destruct (whole_word v word); [simpl; by rewrite app_nil_r|].
  rewrite (greedy_concat _ _ rank_irr rank_tr rank_tot). by apply concat_chars.
Qed.

(** C9. C4: Cutting a text at its special tokens never fails and loses nothing: the
    fragments spell the text, unless a token strips the blanks beside it; the raw
    texts are parts of it in which no special token that was looked for is left,
    and control tokens are looked for only when they are to be parsed. *)
Theorem special_partition v raw parse_special : vb_type v <> LLAMA_VOCAB_TYPE_NONE -> specials_ok v ->
  exists buffer, Tok.fragments v raw parse_special = Ret buffer /\ partitioned v raw parse_special (cache_special_tokens v) buffer.
Proof. intros Ht Hs. by apply fragments_ok. Qed.

(** C10. C5: With the cache of pieces, a string of tokens is the texts the tokens have
    without it, one after the other, without a leading space when the vocabulary
    adds one and cleaned when it asks for it; the sizes of the first buffers do
    not matter.  The passes in the buffer compute a function of the text. *)
Theorem detokenize_text capacity capacity' v special tokens : writable v -> cache_token_to_piece v = [] ->
  (forall t, t ∈ tokens -> 0 <= t < Z.of_nat (length (id_to_token v))) -> Z.of_nat (length (spelled (shown v special) (add_space_prefix v) tokens)) < 2 ^ 31 ->
  (v ← Text.build_cache capacity v; Detok.detokenize_string capacity' v tokens special) = Ret (cleaned v (spelled (shown v special) (add_space_prefix v) tokens)).
Proof. intros. by apply detokenize_text_ok. Qed.

(** * A small SPM vocabulary and a small BPE vocabulary: the hypotheses of the
    theorems hold for them, and the texts come out as expected. *)

(** ** Deciding the conditions on a vocabulary *)

#[export] Instance token_is_dec v (P : token_data -> Prop) `{forall d, Decision (P d)} id : Decision (token_is v P id).
Proof. unfold token_is. apply _. Defined.
#[export] Instance normal_token_dec d : Decision (normal_token d).
Proof. unfold normal_token. apply _. Defined.
#[export] Instance byte_token_dec d : Decision (byte_token d).
Proof. unfold byte_token. apply _. Defined.
#[export] Instance special_token_dec d : Decision (special_token d).
Proof. unfold special_token. apply _. Defined.
#[export] Instance plain_dec v word : Decision (plain v word).
Proof. unfold plain. apply _. Defined.
#[export] Instance ready_dec v prefix text : Decision (ready v prefix text).
Proof. unfold ready, is_bytes. apply _. Defined.
#[export] Instance specials_ok_dec v : Decision (specials_ok v).
Proof. unfold specials_ok. apply _. Defined.
#[export] Instance fragment_ready_dec v raw f : Decision (fragment_ready v raw f).
Proof. destruct f; unfold fragment_ready; apply _. Defined.

(** The texts of the map are those of its tokens. *)
Definition ids_ok (v : llama_vocab) : Prop :=
  map_Forall (fun text id => 0 <= id < Z.of_nat (length (id_to_token v)) /\ (td_text <$> id_to_token v !! Z.to_nat id) = Some text) (token_to_id v).

#[export] Instance ids_ok_dec v : Decision (ids_ok v).
Proof. unfold ids_ok. apply _. Defined.

Lemma vocab_ok_intro v : vb_type v <> LLAMA_VOCAB_TYPE_NONE -> ids_ok v -> Z.of_nat (length (id_to_token v)) < 2 ^ 31 -> vocab_ok v.
Proof.
  intros Ht Hi Hs. constructor; [done| |done]. intros text id H. destruct (Hi text id H) as [Hr Hd].
  destruct (id_to_token v !! Z.to_nat id) as [d|]; [|done]. injection Hd as Hd. by exists d.
Qed.

Definition written (v : llama_vocab) (k : nat) : bool :=
  match id_to_token v !! k with
  | Some d => match text_of v (Z.of_nat k) (td_attr d) (td_text d) with Ret s => Z.of_nat (length s) <? INT32_MAX | _ => false end
  | None => true
  end.

Lemma writable_intro v : vb_type v <> LLAMA_VOCAB_TYPE_NONE -> Z.of_nat (length (id_to_token v)) < 2 ^ 31 -> forallb (written v) (seq 0 (length (id_to_token v))) = true -> writable v.
Proof.
  intros Ht Hs Hw. split; [done|]. split; [done|]. intros k d Hd. rewrite forallb_forall in Hw.
  specialize (Hw k ltac:(apply list_elem_of_In, elem_of_seq; apply lookup_lt_Some in Hd; lia)). unfold written in Hw. rewrite Hd in Hw. unfold piece_of. rewrite Nat2Z.id, Hd.
  destruct (text_of v (Z.of_nat k) (td_attr d) (td_text d)); try done. split; [done|]. by apply Z.ltb_lt.
Qed.

(** Byte [c] is token [c]. *)
Definition byte_ids (v : llama_vocab) : bool :=
  let m := token_to_id v in
  let tokens := id_to_token v in
  forallb (fun c => bool_decide (m !! Voc.byte_text c = Some c /\ Forall byte_token (option_list (tokens !! Z.to_nat c)))) (seqZ 0 256).

Lemma byte_ids_intro v : byte_ids v = true -> Forall (fun c => exists id, token_to_id v !! Voc.byte_text c = Some id /\ token_is v byte_token id) (seqZ 0 256).
Proof.
  intros H. apply Forall_forall. intros c Hc%list_elem_of_In. unfold byte_ids in H. rewrite forallb_forall in H. specialize (H c Hc). apply bool_decide_eq_true_1 in H. by exists c.
Qed.

(** ** The SPM vocabulary *)

Definition normal (text : list Z) (score : Z) : token_data := mk_token_data text score ATTR_NORMAL.

(** The bytes, some letters and their pairs, and <s>. *)
Definition spm_tokens : list token_data :=
  map (fun c => mk_token_data (Voc.byte_text c) 0 ATTR_BYTE) (seqZ 0 256)
  ++ [normal Text.LOWER_BLOCK (-1); normal (bytes "a") (-2); normal (bytes "b") (-3); normal (bytes "c") (-4); normal (bytes "ab") (-6); normal (bytes "bc") (-5);
      normal (bytes "abc") (-7); normal (Text.LOWER_BLOCK ++ bytes "a") (-8); mk_token_data (bytes "<s>") 0 ATTR_CONTROL; mk_token_data (bytes "</s>") 0 ATTR_CONTROL].

Definition ids_of (tokens : list token_data) : gmap (list Z) Z := list_to_map (zip (map td_text tokens) (seqZ 0 (Z.of_nat (length tokens)))).

Definition spm_example (prefix : bool) : llama_vocab :=
  mk_vocab LLAMA_VOCAB_TYPE_SPM spm_tokens (ids_of spm_tokens) ∅ 264 265 0 LLAMA_TOKEN_NULL prefix true false false false 6 [265; 264] [].

Lemma spm_example_ok prefix : spm_vocab (spm_example prefix).
Proof.
  assert (Ht : vb_type (spm_example prefix) <> LLAMA_VOCAB_TYPE_NONE) by done.
  assert (Hs : Z.of_nat (length (id_to_token (spm_example prefix))) < 2 ^ 31) by by vm_compute.
  constructor; [|done|apply writable_intro; [done|done|destruct prefix; by vm_compute]|done| | | |].
  - apply vocab_ok_intro; [done| |done]. apply (bool_decide_unpack _). destruct prefix; by vm_compute.
  - apply byte_ids_intro. destruct prefix; by vm_compute.
  - destruct prefix; by vm_compute; eexists.
  - apply (bool_decide_unpack _). destruct prefix; by vm_compute.
  - apply (bool_decide_unpack _). destruct prefix; by vm_compute.
Qed.

Lemma spm_roundtrip_witness :
  (tokens ← Tok.tokenize_spm (spm_example true) (bytes "abc a d") false false; v ← Text.build_cache 15 (spm_example true); Detok.detokenize_string 15 v tokens true) = Ret (bytes "abc a d")
  /\ (tokens ← Tok.tokenize_spm (spm_example false) (bytes "ab<s>cab") false true; v ← Text.build_cache 15 (spm_example false); Detok.detokenize_string 3 v tokens true) = Ret (bytes "ab<s>cab").
Proof.
  split.
  - apply (spm_roundtrip 15 15 (spm_example true) (bytes "abc a d") false [FRAGMENT_RAW_TEXT 0 7]); [apply spm_example_ok|reflexivity|by vm_compute| |by right|by vm_compute].
    apply (bool_decide_unpack _). by vm_compute.
  - apply (spm_roundtrip 15 3 (spm_example false) (bytes "ab<s>cab") true [FRAGMENT_RAW_TEXT 0 2; FRAGMENT_TOKEN 264; FRAGMENT_RAW_TEXT 5 3]); [apply spm_example_ok|reflexivity|by vm_compute| | |by vm_compute].
    + apply (bool_decide_unpack _). by vm_compute.
    + left. split; [reflexivity|]. apply (bool_decide_unpack _). by vm_compute.
Defined.

Lemma spm_reference_witness :
  Spm.tokenize (spm_example true) (bytes "abcd") [] = Ret ([] ++ flat_map (spm_ids (spm_example true)) (greedy (spm_offer (spm_example true)) Z.ltb (chars (bytes "abcd"))))
  /\ concat (greedy (spm_offer (spm_example true)) Z.ltb (chars (bytes "abcd"))) = bytes "abcd".
Proof.
  apply spm_reference; [apply spm_example_ok|reflexivity|apply has_bytes_ok, spm_example_ok| |done]. unfold is_bytes. apply (bool_decide_unpack _). by vm_compute.
Defined.

Lemma special_partition_witness :
  exists buffer, Tok.fragments (spm_example true) (bytes "ab<s>c</s>") true = Ret buffer /\ partitioned (spm_example true) (bytes "ab<s>c</s>") true [265; 264] buffer.
Proof.
  apply (special_partition (spm_example true)); [done|]. apply (bool_decide_unpack _). by vm_compute.
Defined.

Lemma detokenize_text_witness :
  (v ← Text.build_cache 15 (spm_example true); Detok.detokenize_string 2 v [263; 262; 256; 259] true)
  = Ret (cleaned (spm_example true) (spelled (shown (spm_example true) true) true [263; 262; 256; 259])).
Proof.
  apply (detokenize_text 15 2 (spm_example true) true [263; 262; 256; 259]); [apply spm_example_ok|reflexivity| |by vm_compute].
  intros t Ht. change (Z.of_nat (length (id_to_token (spm_example true)))) with 266. apply list_elem_of_In in Ht. simpl in Ht. lia.
Defined.

(** The tokens of a text, and of one with a special token. *)
Example tokens_of_text : Tok.tokenize_spm (spm_example true) (bytes "abc a d") false false = Ret [256; 262; 263; 256; 100].
Proof. by vm_compute. Qed.

(** ** The space before the text *)

(** The BOS token that [remove_special] removes takes the removal of the space
    with it. *)
Example space_left_behind :
  (tokens ← Tok.tokenize_spm (spm_example true) (bytes "abc") true false;
   v ← Text.build_cache 15 (spm_example true);
   Detok.detokenize v tokens 15 true true) = Ret (4, bytes " abc").
Proof. by vm_compute. Qed.

(** ** The BPE vocabulary *)

Definition bpe_tokens : list token_data := [normal (bytes "a") 0; normal (bytes "b") 0; normal (bytes "c") 0; normal (bytes "bc") 0; normal (bytes "abc") 0].

Definition bpe_example : llama_vocab :=
  mk_vocab LLAMA_VOCAB_TYPE_BPE bpe_tokens (ids_of bpe_tokens) (<[(bytes "b", bytes "c") := 0]> (<[(bytes "a", bytes "b") := 1]> (<[(bytes "a", bytes "bc") := 2]> ∅)))
    LLAMA_TOKEN_NULL LLAMA_TOKEN_NULL LLAMA_TOKEN_NULL LLAMA_TOKEN_NULL false false false false false 3 [] [].

Lemma bpe_reference_witness :
  Bpe.tokenize_words bpe_example [bytes "aabc"; bytes "xb"] [] = Ret ([] ++ flat_map (bpe_ids bpe_example) (flat_map (bpe_parts bpe_example) [bytes "aabc"; bytes "xb"]))
  /\ Forall (fun word => concat (bpe_parts bpe_example word) = word) [bytes "aabc"; bytes "xb"].
Proof.
  apply bpe_reference; [|apply (bool_decide_unpack _); by vm_compute].
  apply vocab_ok_intro; [done|apply (bool_decide_unpack _); by vm_compute|by vm_compute].
Defined.

(** A byte without a token is left out. *)
Example bpe_tokens_of_words : Bpe.tokenize_words bpe_example [bytes "aabc"; bytes "xb"] [] = Ret [0; 4; 1].
Proof. by vm_compute. Qed.

(** ** Cleaning *)

Example clean_example : clean_text (bytes "It 's a ' test , isn 't it ?") = bytes "It's a'test, isn 't it?".
Proof. by vm_compute. Qed.
