(* ===== verification/ServerQueue.v ===== *)
(** * The queues of the server, [tools/server/server-queue.cpp] and [.h].

    Any number of HTTP threads and the main loop share two objects that a mutex
    protects each.  What a thread does while it holds a mutex is one step here; a
    thread that waits on a condition variable goes on in a state in which its
    predicate holds.  (A notification that is lost is therefore not seen; a wake-up
    without reason, which the predicates guard against, makes no difference.)  The
    times of the clock are arguments, log messages are left out, and of tasks and
    results the fields are kept that the queues look at. *)

From S2P Require Import Prelude.

(** ** Tasks *)

Inductive server_task_type :=
  | SERVER_TASK_TYPE_COMPLETION
  | SERVER_TASK_TYPE_EMBEDDING
  | SERVER_TASK_TYPE_RERANK
  | SERVER_TASK_TYPE_INFILL
  | SERVER_TASK_TYPE_CANCEL
  | SERVER_TASK_TYPE_NEXT_RESPONSE
  | SERVER_TASK_TYPE_METRICS
  | SERVER_TASK_TYPE_SLOT_SAVE
  | SERVER_TASK_TYPE_SLOT_RESTORE
  | SERVER_TASK_TYPE_SLOT_ERASE
  | SERVER_TASK_TYPE_GET_LORA
  | SERVER_TASK_TYPE_SET_LORA.

#[export] Instance server_task_type_eq_dec : EqDecision server_task_type.
Proof. solve_decision. Defined.

(** A task; [tk_children] are the ids of its child tasks. *)
Record server_task := mk_task {
  tk_id : Z;
  tk_index : nat;
  tk_id_target : Z;
  tk_id_slot : Z;
  tk_children : list (Z * nat);
  tk_type : server_task_type;
}.

#[export] Instance server_task_eq_dec : EqDecision server_task.
Proof. solve_decision. Defined.

Definition with_id (i : Z) (t : server_task) : server_task := mk_task i (tk_index t) (tk_id_target t) (tk_id_slot t) (tk_children t) (tk_type t).

Definition is_parent (t : server_task) : bool := (0 <? length (tk_children t))%nat.

(** [server_task(SERVER_TASK_TYPE_CANCEL)] with its target. *)
Definition cancel_task (id_target : Z) : server_task := mk_task (-1) 0 id_target (-1) [] SERVER_TASK_TYPE_CANCEL.

(** ** [server_queue] *)

Record server_queue := mk_queue {
  sq_next_id : Z;
  sq_running : bool;
  sq_sleeping : bool;
  sq_req_stop_sleeping : bool;
  sq_time_last_task : Z;
  sq_tasks : list server_task;
  sq_deferred : list server_task;
}.

Module Queue.

Definition new_queue : server_queue := mk_queue 0 false false false 0 [] [].

Definition with_tasks (l : list server_task) (q : server_queue) : server_queue :=
  mk_queue (sq_next_id q) (sq_running q) (sq_sleeping q) (sq_req_stop_sleeping q) (sq_time_last_task q) l (sq_deferred q).
Definition with_deferred (l : list server_task) (q : server_queue) : server_queue :=
  mk_queue (sq_next_id q) (sq_running q) (sq_sleeping q) (sq_req_stop_sleeping q) (sq_time_last_task q) (sq_tasks q) l.
Definition with_time (now : Z) (q : server_queue) : server_queue :=
  mk_queue (sq_next_id q) (sq_running q) (sq_sleeping q) (sq_req_stop_sleeping q) now (sq_tasks q) (sq_deferred q).
Definition with_running (b : bool) (q : server_queue) : server_queue :=
  mk_queue (sq_next_id q) b (sq_sleeping q) (sq_req_stop_sleeping q) (sq_time_last_task q) (sq_tasks q) (sq_deferred q).
Definition with_sleep (sleeping req : bool) (q : server_queue) : server_queue :=
  mk_queue (sq_next_id q) (sq_running q) sleeping req (sq_time_last_task q) (sq_tasks q) (sq_deferred q).
Definition with_next_id (i : Z) (q : server_queue) : server_queue :=
  mk_queue i (sq_running q) (sq_sleeping q) (sq_req_stop_sleeping q) (sq_time_last_task q) (sq_tasks q) (sq_deferred q).

Definition is_target (id_target : Z) (t : server_task) : bool := tk_id t =? id_target.

Definition cleanup_pending_task (id_target : Z) (q : server_queue) : server_queue :=
  with_deferred (filter (fun t => is_target id_target t = false) (sq_deferred q))
    (with_tasks (filter (fun t => is_target id_target t = false) (sq_tasks q)) q).

(** Cancelling removes the pending tasks first; the task itself is put at one
    end. *)
Definition enqueue (front : bool) (t : server_task) (q : server_queue) : server_queue :=
  let q := if decide (tk_type t = SERVER_TASK_TYPE_CANCEL) then cleanup_pending_task (tk_id_target t) q else q in
  with_tasks (if front then t :: sq_tasks q else sq_tasks q ++ [t]) q.

Definition post (now : Z) (front : bool) (t : server_task) (q : server_queue) : outcome (Z * server_queue) :=
  c_assert (negb (tk_id t =? -1)) "task.id != -1";;
  Ret (tk_id t, with_time now (enqueue front t q)).

(** A task without an id gets the next one. *)
Definition post_step (front : bool) (q : server_queue) (t : server_task) : server_queue :=
  if tk_id t =? -1 then enqueue front (with_id (sq_next_id q) t) (with_next_id (sq_next_id q + 1) q) else enqueue front t q.

Definition post_all (now : Z) (front : bool) (tasks : list server_task) (q : server_queue) : server_queue :=
  with_time now (foldl (post_step front) q tasks).

Definition defer (now : Z) (t : server_task) (q : server_queue) : server_queue := with_time now (with_deferred (sq_deferred q ++ [t]) q).

Definition get_new_id (q : server_queue) : Z * server_queue := (sq_next_id q, with_next_id (sq_next_id q + 1) q).

(** The first deferred task that asks for the slot, and the others. *)
Fixpoint take_slot (id_slot : Z) (l : list server_task) : option (server_task * list server_task) :=
  match l with
  | [] => None
  | t :: l => if tk_id_slot t =? id_slot then Some (t, l) else '(x, r) ← take_slot id_slot l; Some (x, t :: r)
  end.

Definition pop_deferred_task (now : Z) (id_slot : Z) (q : server_queue) : server_queue :=
  with_time now
    match take_slot id_slot (sq_deferred q) with
    | Some (t, rest) => with_deferred rest (with_tasks (t :: sq_tasks q) q)
    | None =>
        match sq_deferred q with
        | t :: rest => with_deferred rest (with_tasks (t :: sq_tasks q) q)
        | [] => q
        end
    end.

(** [wait_until_no_sleep] up to its wait, and whether the wait is over. *)
Definition request_wake (q : server_queue) : server_queue := if sq_sleeping q then with_sleep true true q else q.
Definition awake (q : server_queue) : bool := negb (sq_sleeping q).

Definition terminate (q : server_queue) : server_queue := with_running false q.

(** *** [start_loop]

    The places where the main loop takes the mutex or gives it back. *)
Inductive loop_pc :=
  | PcStart
  | PcTake
  | PcNewTask (t : server_task)
  | PcUpdateSlots
  | PcUpdated
  | PcWait
  | PcTimedWait
  | PcSleep
  | PcDone.

(** The calls of the callbacks. *)
Inductive loop_event :=
  | EvNewTask (t : server_task)
  | EvUpdateSlots
  | EvSleeping (b : bool).

Definition should_sleep (idle_sleep_ms now : Z) (q : server_queue) : bool :=
  if idle_sleep_ms <? 0 then false else idle_sleep_ms <=? now - sq_time_last_task q.

(** One step of the main loop; [timeout] says that [wait_for] timed out.  [None]:
    the loop waits. *)
Definition loop_step (idle_sleep_ms now : Z) (timeout : bool) (q : server_queue) (pc : loop_pc) : option (server_queue * loop_pc * list loop_event) :=
  match pc with
  | PcStart => Some (with_time now (with_running true q), PcTake, [])
  | PcTake =>
      if negb (sq_running q) then Some (q, PcDone, [])
      else
        match sq_tasks q with
        | [] => Some (q, PcUpdateSlots, [])
        | t :: rest => Some (with_tasks rest q, PcNewTask t, [EvNewTask t])
        end
  | PcNewTask _ => Some (q, PcTake, [])
  | PcUpdateSlots => Some (q, PcUpdated, [EvUpdateSlots])
  | PcUpdated => Some (with_time now q, PcWait, [])
  | PcWait =>
      if negb (sq_running q) || negb (bool_decide (sq_tasks q = [])) then Some (q, PcTake, [])
      else if should_sleep idle_sleep_ms now q then Some (with_sleep true false q, PcSleep, [EvSleeping true])
      else Some (q, PcTimedWait, [])
  | PcTimedWait =>
      if negb (bool_decide (sq_tasks q = [])) || negb (sq_running q) then Some (q, PcTake, [])
      else if timeout then Some (q, PcWait, [])
      else None
  | PcSleep =>
      if negb (sq_running q) then Some (q, PcTake, [])
      else if sq_req_stop_sleeping q then Some (with_time now (with_sleep false false q), PcTake, [EvSleeping false])
      else None
  | PcDone => None
  end.

End Queue.

(** ** [server_response] *)

Record server_task_result := mk_result { rs_id : Z; rs_index : nat; rs_error : bool; rs_stop : bool; rs_data : Z }.

#[export] Instance server_task_result_eq_dec : EqDecision server_task_result.
Proof. solve_decision. Defined.

Record server_response := mk_response { sr_running : bool; sr_waiting : gset Z; sr_results : list server_task_result }.

Module Response.

Definition with_results (l : list server_task_result) (s : server_response) : server_response := mk_response (sr_running s) (sr_waiting s) l.

Definition add_waiting_task_id (i : Z) (s : server_response) : server_response := mk_response (sr_running s) ({[i]} ∪ sr_waiting s) (sr_results s).
Definition add_waiting_task_ids (ids : list Z) (s : server_response) : server_response := foldl (fun s i => add_waiting_task_id i s) s ids.

Definition remove_waiting_task_id (i : Z) (s : server_response) : server_response :=
  mk_response (sr_running s) (sr_waiting s ∖ {[i]}) (filter (fun r => rs_id r <> i) (sr_results s)).

(** The results stay. *)
Definition remove_waiting_task_ids (ids : list Z) (s : server_response) : server_response :=
  foldl (fun s i => mk_response (sr_running s) (sr_waiting s ∖ {[i]}) (sr_results s)) s ids.

(** The first result for one of the ids. *)
Fixpoint find_result (ids : list Z) (l : list server_task_result) : option (server_task_result * list server_task_result) :=
  match l with
  | [] => None
  | r :: l => if decide (rs_id r ∈ ids) then Some (r, l) else '(x, rest) ← find_result ids l; Some (x, r :: rest)
  end.

(** What [recv] and [recv_with_timeout] do while they hold the mutex. *)
Definition take_result (ids : list Z) (s : server_response) : option (server_task_result * server_response) :=
  '(r, rest) ← find_result ids (sr_results s); Some (r, with_results rest s).

Definition send (r : server_task_result) (s : server_response) : server_response :=
  if decide (rs_id r ∈ sr_waiting s) then with_results (sr_results s ++ [r]) s else s.

Definition terminate_responses (s : server_response) : server_response := mk_response false (sr_waiting s) (sr_results s).

End Response.

(** ** [server_response_reader]

    The ids in the order in which the set is iterated; of the states only their
    number matters here. *)

Record response_reader := mk_reader { rd_ids : list Z; rd_received : nat; rd_cancelled : bool; rd_states : nat }.

(** What the other threads do to the results while the reader waits. *)
Inductive response_op :=
  | OpSend (r : server_task_result)
  | OpAddWaiting (ids : list Z)
  | OpRemoveWaiting (i : Z)
  | OpRemoveAllWaiting (ids : list Z)
  | OpTakeResult (ids : list Z)
  | OpTerminateResponses.

(** One wait of the reader: what happens meanwhile, and whether it timed out, with
    the answer of [should_stop]. *)
Record poll := mk_poll { pl_ops : list response_op; pl_timeout : option bool }.

Record batch_response := mk_batch_response { br_terminated : bool; br_results : list (option server_task_result); br_error : option server_task_result }.

Module Reader.

Definition new_reader : response_reader := mk_reader [] 0 false 0.

(** *** Posting *)

Definition post_task (now : Z) (front : bool) (task : server_task) (rd : response_reader) (q : server_queue) (s : server_response)
    : outcome (response_reader * server_queue * server_response) :=
  c_assert (bool_decide (rd_ids rd = [])) "post_task() can only be called once per reader";;
  c_assert (negb (is_parent task)) "not supported, use post_tasks() instead";;
  let task := mk_task (tk_id task) 0 (tk_id_target task) (tk_id_slot task) (tk_children task) (tk_type task) in
  let rd := mk_reader [tk_id task] (rd_received rd) (rd_cancelled rd) (rd_states rd + 1) in
  let s := Response.add_waiting_task_id (tk_id task) s in
  '(_, q) ← Queue.post now front task q;
  Ret (rd, q, s).

(** [server_task::get_list_id] *)
Definition get_list_id (tasks : list server_task) : list Z := remove_dups (flat_map (fun t => tk_id t :: map fst (tk_children t)) tasks).

(** The tasks and their children are numbered. *)
Definition number_step (st : nat * list server_task) (t : server_task) : nat * list server_task :=
  let '(index, done_) := st in
  let n := length (tk_children t) in
  (index + 1 + n, done_ ++ [mk_task (tk_id t) index (tk_id_target t) (tk_id_slot t) (zip (map fst (tk_children t)) (seq (index + 1) n)) (tk_type t)])%nat.

Definition post_tasks (now : Z) (front : bool) (tasks : list server_task) (rd : response_reader) (q : server_queue) (s : server_response)
    : outcome (response_reader * server_queue * server_response) :=
  c_assert (bool_decide (rd_ids rd = [])) "post_tasks() can only be called once per reader";;
  let ids := get_list_id tasks in
  let '(index, tasks) := foldl number_step (0%nat, []) tasks in
  let states := (rd_states rd + index)%nat in
  c_assert (states =? length ids)%nat "states.size() == id_tasks.size()";;
  let s := Response.add_waiting_task_ids ids s in
  Ret (mk_reader ids (rd_received rd) (rd_cancelled rd) states, Queue.post_all now front tasks q, s).

(** *** Receiving *)

Definition has_next (rd : response_reader) : bool := negb (rd_cancelled rd) && (rd_received rd <? length (rd_ids rd))%nat.

Definition stop (now : Z) (rd : response_reader) (q : server_queue) (s : server_response) : response_reader * server_queue * server_response :=
  let s := Response.remove_waiting_task_ids (rd_ids rd) s in
  if has_next rd && negb (rd_cancelled rd) then
    let s := foldl (fun s i => Response.remove_waiting_task_id i s) s (rd_ids rd) in
    (mk_reader (rd_ids rd) (rd_received rd) true (rd_states rd), Queue.post_all now true (map cancel_task (rd_ids rd)) q, s)
  else (rd, q, s).

Definition apply_response_op (s : server_response) (op : response_op) : server_response :=
  match op with
  | OpSend r => Response.send r s
  | OpAddWaiting ids => Response.add_waiting_task_ids ids s
  | OpRemoveWaiting i => Response.remove_waiting_task_id i s
  | OpRemoveAllWaiting ids => Response.remove_waiting_task_ids ids s
  | OpTakeResult ids => match Response.take_result ids s with Some (_, s) => s | None => s end
  | OpTerminateResponses => Response.terminate_responses s
  end.

(** The rest of the iteration of [next] that received a result. *)
Definition receive (now : Z) (result : server_task_result) (rd : response_reader) (q : server_queue) (s : server_response)
    : outcome (response_reader * server_queue * server_response) :=
  if rs_error result then Ret (stop now rd q s)
  else
    c_assert ((rd_states rd =? 0) || (rs_index result <? rd_states rd))%nat "idx < states.size()";;
    Ret (mk_reader (rd_ids rd) (if rs_stop result then rd_received rd + 1 else rd_received rd)%nat (rd_cancelled rd) (rd_states rd), q, s).

(** [next]: no result at the end of the polls means that the reader still waits. *)
Fixpoint next (now : Z) (polls : list poll) (rd : response_reader) (q : server_queue) (s : server_response)
    : outcome (option server_task_result * list poll * response_reader * server_queue * server_response) :=
  match Response.take_result (rd_ids rd) s with
  | Some (r, s) => '(rd, q, s) ← receive now r rd q s; Ret (Some r, polls, rd, q, s)
  | None =>
      match polls with
      | [] => NoFuel
      | p :: polls =>
          let s := foldl apply_response_op s (pl_ops p) in
          if negb (sr_running s) then Fatal "std::terminate"
          else
            match pl_timeout p with
            | Some true => Ret (None, polls, rd, q, s)
            | _ => next now polls rd q s
            end
      end
  end.

(** The loop of [wait_for_all], with a bound on its iterations. *)
Fixpoint wait_loop (fuel : nat) (now : Z) (polls : list poll) (results : list (option server_task_result)) (rd : response_reader) (q : server_queue) (s : server_response)
    : outcome (batch_response * list poll * response_reader * server_queue * server_response) :=
  if has_next rd then
    match fuel with
    | O => NoFuel
    | S fuel =>
        '(res, polls, rd, q, s) ← next now polls rd q s;
        match res with
        | None => Ret (mk_batch_response true results None, polls, rd, q, s)
        | Some r =>
            if rs_error r then Ret (mk_batch_response false results (Some r), polls, rd, q, s)
            else
              c_assert (rs_index r <? length results)%nat "index out of range";;
              old ← at_ results (rs_index r);
              c_assert (bool_decide (old = None)) "duplicate result received";;
              results ← set_ results (rs_index r) (Some r);
              wait_loop fuel now polls results rd q s
        end
    end
  else Ret (mk_batch_response false results None, polls, rd, q, s).

Definition wait_for_all (fuel : nat) (now : Z) (polls : list poll) (rd : response_reader) (q : server_queue) (s : server_response)
    : outcome (batch_response * list poll * response_reader * server_queue * server_response) :=
  wait_loop fuel now polls (replicate (length (rd_ids rd)) None) rd q s.

End Reader.

(** ** Interleavings of the queue *)

(** What other threads, or the callbacks of the main loop, do to the queue. *)
Inductive queue_op :=
  | OpPost (front : bool) (t : server_task)
  | OpPostAll (front : bool) (ts : list server_task)
  | OpDefer (t : server_task)
  | OpNewId
  | OpPopDeferred (id_slot : Z)
  | OpRequestWake
  | OpTerminate.

Definition apply_op (now : Z) (op : queue_op) (q : server_queue) : outcome server_queue :=
  match op with
  | OpPost front t => '(_, q) ← Queue.post now front t q; Ret q
  | OpPostAll front ts => Ret (Queue.post_all now front ts q)
  | OpDefer t => Ret (Queue.defer now t q)
  | OpNewId => Ret (Queue.get_new_id q).2
  | OpPopDeferred id_slot => Ret (Queue.pop_deferred_task now id_slot q)
  | OpRequestWake => Ret (Queue.request_wake q)
  | OpTerminate => Ret (Queue.terminate q)
  end.

(** *** The history of a run: the tasks that were put into the queues, those that
    were cancelled there, and those the main loop took. *)

Definition pending (q : server_queue) : list server_task := sq_tasks q ++ sq_deferred q.

(** The pending tasks that posting [t] removes. *)
Definition dropped (t : server_task) (l : list server_task) : list server_task :=
  if decide (tk_type t = SERVER_TASK_TYPE_CANCEL) then filter (fun x => Queue.is_target (tk_id_target t) x = true) l else [].

Fixpoint log_all (front : bool) (q : server_queue) (ts : list server_task) : list server_task * list server_task :=
  match ts with
  | [] => ([], [])
  | t :: ts =>
      let t' := if tk_id t =? -1 then with_id (sq_next_id q) t else t in
      let '(added, removed) := log_all front (Queue.post_step front q t) ts in
      (t' :: added, dropped t' (pending q) ++ removed)
  end.

Definition op_log (op : queue_op) (q : server_queue) : list server_task * list server_task :=
  match op with
  | OpPost _ t => ([t], dropped t (pending q))
  | OpPostAll front ts => log_all front q ts
  | OpDefer t => ([t], [])
  | _ => ([], [])
  end.

Definition server_state : Type := server_queue * Queue.loop_pc.

Inductive label := LLoop (es : list Queue.loop_event) | LOp (op : queue_op) (added removed : list server_task).

(** A step of the main loop or of another thread. *)
Inductive step (idle_sleep_ms : Z) : server_state -> label -> server_state -> Prop :=
  | step_loop now timeout q pc q' pc' es : Queue.loop_step idle_sleep_ms now timeout q pc = Some (q', pc', es) -> step idle_sleep_ms (q, pc) (LLoop es) (q', pc')
  | step_op now op q q' pc : apply_op now op q = Ret q' -> step idle_sleep_ms (q, pc) (LOp op (op_log op q).1 (op_log op q).2) (q', pc).

Inductive run (idle_sleep_ms : Z) : server_state -> list label -> server_state -> Prop :=
  | run_nil x : run idle_sleep_ms x [] x
  | run_cons x l y ls z : step idle_sleep_ms x l y -> run idle_sleep_ms y ls z -> run idle_sleep_ms x (l :: ls) z.

Definition start_state : server_state := (Queue.new_queue, Queue.PcStart).
Definition reachable (idle_sleep_ms : Z) (x : server_state) : Prop := exists ls, run idle_sleep_ms start_state ls x.

Definition added_by (l : label) : list server_task := match l with LOp _ a _ => a | LLoop _ => [] end.
Definition removed_by (l : label) : list server_task := match l with LOp _ _ r => r | LLoop _ => [] end.
Definition event_task (e : Queue.loop_event) : list server_task := match e with Queue.EvNewTask t => [t] | _ => [] end.
Definition taken_by (l : label) : list server_task := match l with LLoop es => flat_map event_task es | LOp _ _ _ => [] end.
