(* ===== verification/ServerTheorems.v ===== *)
(** * The queues of the server: no task is lost, the main loop makes progress, and
    a reader gets the results of its tasks. *)

From S2P Require Import Prelude ServerQueue.
From Stdlib Require Import Lia.
Import Queue.

Implicit Types (q : server_queue) (t : server_task) (ts l : list server_task) (pc : loop_pc) (op : queue_op) (ls : list label) (now : Z).

(** ** Tasks *)

Lemma pending_time now q : pending (with_time now q) = pending q.
Proof. done. Qed.

Lemma filter_split {A} (P : A -> bool) (l : list A) : l ≡ₚ filter (fun x => P x = true) l ++ filter (fun x => P x = false) l.
Proof.
  induction l as [|x l IH]; [done|]. rewrite !filter_cons. destruct (P x); simpl; [by rewrite <- IH|]. by rewrite <- Permutation_middle, <- IH.
Qed.

Lemma enqueue_pending front t q : t :: pending q ≡ₚ dropped t (pending q) ++ pending (enqueue front t q).
Proof.
  unfold enqueue, dropped, pending. destruct (decide (tk_type t = SERVER_TASK_TYPE_CANCEL)); cbn [sq_tasks sq_deferred with_tasks cleanup_pending_task with_deferred app].
  - rewrite (filter_split (is_target (tk_id_target t)) (sq_tasks q ++ sq_deferred q)) at 1. rewrite !filter_app. destruct front; cbn [app]; [by rewrite <- Permutation_middle|].
    rewrite <- !app_assoc. cbn [app]. by rewrite <- !Permutation_middle.
  - destruct front; cbn [app]; [done|]. rewrite <- app_assoc. cbn [app]. by rewrite <- Permutation_middle.
Qed.

Lemma log_all_pending front ts : forall q, (log_all front q ts).1 ++ pending q ≡ₚ (log_all front q ts).2 ++ pending (foldl (post_step front) q ts).
Proof.
  induction ts as [|t ts IH]; intros q; [done|]. cbn [log_all foldl]. set (t' := if tk_id t =? -1 then with_id (sq_next_id q) t else t).
  assert (E : t' :: pending q ≡ₚ dropped t' (pending q) ++ pending (post_step front q t)).
  { unfold post_step, t'. destruct (tk_id t =? -1); [|apply enqueue_pending]. exact (enqueue_pending front (with_id (sq_next_id q) t) (with_next_id (sq_next_id q + 1) q)). }
  specialize (IH (post_step front q t)). destruct (log_all front (post_step front q t) ts) as [a r]. cbn [fst snd app] in *.
  rewrite Permutation_middle, E, Permutation_app_swap_app, IH. by rewrite <- app_assoc.
Qed.

Lemma take_slot_perm i l t rest : take_slot i l = Some (t, rest) -> l ≡ₚ t :: rest.
Proof.
  revert rest. induction l as [|x l IH]; intros rest H; [done|]. simpl in H. destruct (tk_id_slot x =? i); [by injection H as -> ->|].
  destruct (take_slot i l) as [[y r]|]; [|done]. injection H as -> <-. rewrite (IH r) by done. apply perm_swap.
Qed.

Lemma pop_deferred_pending now i q : pending (pop_deferred_task now i q) ≡ₚ pending q.
Proof.
  unfold pop_deferred_task, pending. destruct (take_slot i (sq_deferred q)) as [[t rest]|] eqn:E.
  - apply take_slot_perm in E. cbn. rewrite E. by rewrite <- Permutation_middle.
  - destruct (sq_deferred q) as [|t rest] eqn:Ed; cbn; [by rewrite Ed|]. by rewrite <- Permutation_middle.
Qed.

(** Every operation accounts for the tasks. *)
Lemma op_conserves now op q q' : apply_op now op q = Ret q' -> (op_log op q).1 ++ pending q ≡ₚ (op_log op q).2 ++ pending q'.
Proof.
  destruct op; cbn [apply_op op_log fst snd app]; intros H.
  - unfold post in H. destruct (negb (tk_id t =? -1)); [|done]. cbn [c_assert mbind outcome_bind] in H. injection H as <-. rewrite pending_time. apply enqueue_pending.
  - injection H as <-. unfold post_all. rewrite pending_time. apply log_all_pending.
  - injection H as <-. unfold defer, pending. cbn. rewrite app_assoc. by rewrite <- Permutation_cons_append.
  - by injection H as <-.
  - injection H as <-. by rewrite pop_deferred_pending.
  - injection H as <-. unfold request_wake. by destruct (sq_sleeping q).
  - by injection H as <-.
Qed.

Lemma loop_conserves idle now timeout q pc q' pc' es : loop_step idle now timeout q pc = Some (q', pc', es) -> pending q = flat_map event_task es ++ pending q'.
Proof.
  destruct pc; cbn [loop_step]; intros H; repeat case_match; simplify_eq; try done. unfold pending. cbn. by rewrite H1.
Qed.

(** C32. C1: No task is lost, duplicated or made up: in every interleaving of the main
    loop with other threads, the tasks that were posted or deferred are those that
    were cancelled while they were pending, those the main loop took, and those
    that are pending. *)
Theorem tasks_conserved idle_sleep_ms ls q pc : run idle_sleep_ms start_state ls (q, pc) ->
  flat_map added_by ls ≡ₚ flat_map removed_by ls ++ flat_map taken_by ls ++ pending q.
Proof.
  assert (H : forall x y, run idle_sleep_ms x ls y -> flat_map added_by ls ++ pending x.1 ≡ₚ flat_map removed_by ls ++ flat_map taken_by ls ++ pending y.1).
  { induction 1 as [x|x l y ls z Hs _ IH]; [done|]. cbn [flat_map]. destruct Hs as [now timeout q0 pc0 q1 pc1 es E|now op q0 q1 pc0 E]; cbn [added_by removed_by taken_by fst app] in *.
    - rewrite (loop_conserves _ _ _ _ _ _ _ _ E), Permutation_app_swap_app, IH. rewrite <- !app_assoc. by rewrite (Permutation_app_swap_app (flat_map event_task es)).
    - rewrite <- !app_assoc. rewrite (Permutation_app_swap_app _ (flat_map added_by ls)), (op_conserves _ _ _ _ E), (Permutation_app_swap_app (flat_map added_by ls)), IH. done. }
  intros Hr. specialize (H _ _ Hr). cbn [fst] in H. unfold pending at 1, start_state, new_queue in H. cbn in H. by rewrite app_nil_r in H.
Qed.

(** ** Order *)

(** Posting at the end, without cancelling; nothing is deferred. *)
Definition plain_post t : Prop := tk_type t <> SERVER_TASK_TYPE_CANCEL.
Definition orderly (l : label) : Prop :=
  match l with
  | LOp (OpPost front t) _ _ => front = false /\ plain_post t
  | LOp (OpPostAll front ts) _ _ => front = false /\ Forall plain_post ts
  | LOp (OpDefer _) _ _ => False
  | _ => True
  end.

Lemma enqueue_back t q : plain_post t -> sq_tasks (enqueue false t q) = sq_tasks q ++ [t] /\ sq_deferred (enqueue false t q) = sq_deferred q.
Proof. intros H. unfold enqueue. by rewrite decide_False. Qed.

Lemma post_step_back t q : plain_post t -> sq_tasks (post_step false q t) = sq_tasks q ++ [if tk_id t =? -1 then with_id (sq_next_id q) t else t]
  /\ sq_deferred (post_step false q t) = sq_deferred q.
Proof. intros H. unfold post_step. destruct (tk_id t =? -1); [exact (enqueue_back (with_id (sq_next_id q) t) (with_next_id (sq_next_id q + 1) q) H)|by apply enqueue_back]. Qed.

Lemma log_all_back ts : forall q, Forall plain_post ts ->
  sq_tasks (foldl (post_step false) q ts) = sq_tasks q ++ (log_all false q ts).1 /\ sq_deferred (foldl (post_step false) q ts) = sq_deferred q.
Proof.
  induction ts as [|t ts IH]; intros q H; [by rewrite app_nil_r|]. apply Forall_cons in H as [Ht H]. destruct (post_step_back t q Ht) as [E1 E2]. destruct (IH (post_step false q t) H) as [E3 E4].
  cbn [foldl log_all]. destruct (log_all false (post_step false q t) ts) as [a r]. cbn [fst] in *. by rewrite E3, E4, E1, E2, <- app_assoc.
Qed.

Lemma orderly_op now op q q' : apply_op now op q = Ret q' -> orderly (LOp op (op_log op q).1 (op_log op q).2) -> sq_deferred q = [] ->
  sq_tasks q' = sq_tasks q ++ (op_log op q).1 /\ sq_deferred q' = [].
Proof.
  destruct op; cbn [apply_op op_log fst snd orderly]; intros H Ho Hd; rewrite ?app_nil_r.
  - destruct Ho as [-> Ht]. unfold post in H. destruct (negb (tk_id t =? -1)); [|done]. cbn [c_assert mbind outcome_bind] in H. injection H as <-. destruct (enqueue_back t q Ht) as [E1 E2]. cbn [with_time sq_tasks sq_deferred]. by rewrite E1, E2.
  - destruct Ho as [-> Ht]. injection H as <-. destruct (log_all_back ts q Ht) as [E1 E2]. unfold post_all. cbn [with_time sq_tasks sq_deferred]. by rewrite E1, E2.
  - done.
  - by injection H as <-.
  - injection H as <-. unfold pop_deferred_task. rewrite Hd. done.
  - injection H as <-. unfold request_wake. by destruct (sq_sleeping q).
  - by injection H as <-.
Qed.

Lemma loop_tasks idle now timeout q pc q' pc' es : loop_step idle now timeout q pc = Some (q', pc', es) -> sq_tasks q = flat_map event_task es ++ sq_tasks q' /\ sq_deferred q' = sq_deferred q.
Proof. destruct pc; cbn [loop_step]; intros H; repeat case_match; simplify_eq; try done. Qed.

(** C2: Tasks that are posted at the end are taken in the order in which they were
    posted, whatever threads post them. *)
Theorem tasks_in_order idle_sleep_ms ls q pc : run idle_sleep_ms start_state ls (q, pc) -> Forall orderly ls ->
  flat_map added_by ls = flat_map taken_by ls ++ sq_tasks q.
Proof.
  assert (H : forall x y, run idle_sleep_ms x ls y -> Forall orderly ls -> sq_deferred x.1 = [] -> sq_tasks x.1 ++ flat_map added_by ls = flat_map taken_by ls ++ sq_tasks y.1).
  { induction 1 as [x|x l y ls z Hs _ IH]; intros Ho Hd; [by rewrite app_nil_r|]. apply Forall_cons in Ho as [Hl Ho]. cbn [flat_map].
    destruct Hs as [now timeout q0 pc0 q1 pc1 es E|now op q0 q1 pc0 E]; cbn [added_by taken_by fst app] in *.
    - destruct (loop_tasks _ _ _ _ _ _ _ _ E) as [E1 E2]. rewrite E1, <- !app_assoc. f_equal. apply IH; [done|by rewrite E2].
    - destruct (orderly_op _ _ _ _ E Hl Hd) as [E1 E2]. rewrite app_assoc, <- E1. by apply IH. }
  intros Hr Ho. exact (H _ _ Hr Ho eq_refl).
Qed.

(** ** Sleeping and progress *)

(** The main loop sleeps only at its place for that; terminating leaves the flag. *)
Record sleep_ok q pc : Prop := {
  so_asleep : pc = PcSleep -> sq_sleeping q = true;
  so_sleeping : sq_sleeping q = true -> pc = PcSleep \/ (sq_running q = false /\ (pc = PcTake \/ pc = PcDone));
  so_request : sq_req_stop_sleeping q = true -> sq_sleeping q = true;
}.

(** The main loop waits for something that is not there. *)
Definition waits_ok q pc : Prop :=
  match pc with
  | PcTimedWait => sq_running q = true /\ sq_tasks q = []
  | PcSleep => sq_running q = true /\ sq_req_stop_sleeping q = false
  | PcDone => True
  | _ => False
  end.

Lemma op_flags now op q q' : apply_op now op q = Ret q' -> sq_sleeping q' = sq_sleeping q /\ (sq_running q' = sq_running q \/ sq_running q' = false)
  /\ (sq_req_stop_sleeping q' = sq_req_stop_sleeping q \/ sq_sleeping q = true).
Proof.
  assert (He : forall front t q, sq_sleeping (enqueue front t q) = sq_sleeping q /\ sq_running (enqueue front t q) = sq_running q /\ sq_req_stop_sleeping (enqueue front t q) = sq_req_stop_sleeping q).
  { intros front t q0. unfold enqueue. by destruct (decide _). }
  assert (Hp : forall front ts q, sq_sleeping (foldl (post_step front) q ts) = sq_sleeping q /\ sq_running (foldl (post_step front) q ts) = sq_running q
    /\ sq_req_stop_sleeping (foldl (post_step front) q ts) = sq_req_stop_sleeping q).
  { intros front ts. induction ts as [|t ts IH]; intros q0; [done|]. cbn [foldl]. destruct (IH (post_step front q0 t)) as (-> & -> & ->). unfold post_step. destruct (tk_id t =? -1); [|apply He].
    destruct (He front (with_id (sq_next_id q0) t) (with_next_id (sq_next_id q0 + 1) q0)) as (-> & -> & ->). done. }
  destruct op; cbn [apply_op]; intros H.
  - unfold post in H. destruct (negb (tk_id t =? -1)); [|done]. cbn [c_assert mbind outcome_bind] in H. injection H as <-. destruct (He front t q) as (E1 & E2 & E3). cbn [with_time sq_sleeping sq_running sq_req_stop_sleeping]. rewrite E1, E2, E3. auto.
  - injection H as <-. unfold post_all. destruct (Hp front ts q) as (E1 & E2 & E3). cbn [with_time sq_sleeping sq_running sq_req_stop_sleeping]. rewrite E1, E2, E3. auto.
  - injection H as <-. auto.
  - injection H as <-. auto.
  - injection H as <-. unfold pop_deferred_task. destruct (take_slot id_slot (sq_deferred q)) as [[t r]|]; [by auto|]. destruct (sq_deferred q); auto.
  - injection H as <-. unfold request_wake. destruct (sq_sleeping q) eqn:E; cbn; auto.
  - injection H as <-. cbn. auto.
Qed.

Lemma sleep_step idle q pc lb q' pc' : sleep_ok q pc -> step idle (q, pc) lb (q', pc') -> sleep_ok q' pc'.
Proof.
  intros [H1 H2 H3] Hs. inversion Hs as [now timeout ? ? ? ? es E|now op ? ? ? E]; subst.
  - destruct pc; cbn [loop_step] in E; repeat case_match; simplify_eq; constructor; cbn; try done; try tauto; intros; try (destruct (H2 ltac:(done)) as [?|[? [?|?]]]; try done); auto.
    all: try (right; split; [by destruct (sq_running q')|by left]).
    all: try (right; split; [by destruct (sq_running q')|by right]).
    all: by match goal with Hn : negb (sq_running ?x) = false, Hf : sq_running ?x = false |- _ => rewrite Hf in Hn end.
  - destruct (op_flags _ _ _ _ E) as (F1 & F2 & F3). constructor.
    + intros Hp. rewrite F1. by apply H1.
    + rewrite F1. intros H. destruct (H2 H) as [?|[? ?]]; [by left|right]. split; [destruct F2; congruence|done].
    + rewrite F1. destruct F3 as [F3|F3]; [rewrite F3; apply H3|done].
Qed.

Lemma sleep_reachable idle q pc : reachable idle (q, pc) -> sleep_ok q pc.
Proof.
  intros [ls Hr]. assert (H : forall x ls y, run idle x ls y -> sleep_ok x.1 x.2 -> sleep_ok y.1 y.2).
  { clear. induction 1 as [x|x lb y ls z Hs _ IH]; [done|]. intros Hx. apply IH. destruct x as [q0 pc0], y as [q1 pc1]. by eapply sleep_step. }
  apply (H _ _ _ Hr). by constructor.
Qed.

Lemma loop_stuck idle now q pc : loop_step idle now false q pc = None <-> waits_ok q pc.
Proof.
  destruct pc; cbn [loop_step waits_ok]; try (split; [done|done]).
  - split; [|done]. repeat case_match; done.
  - split; [|done]. repeat case_match; done.
  - destruct (sq_running q), (sq_tasks q) eqn:E; rewrite ?(bool_decide_eq_true_2 (@nil server_task = [])), ?bool_decide_eq_false_2 by done; cbn; split; try done; intros [? ?]; done.
  - destruct (sq_running q), (sq_req_stop_sleeping q); cbn; split; try done; intros [? ?]; done.
Qed.

(** The main loop on its own. *)
Fixpoint loop_run (fuel : nat) (idle now : Z) q pc : server_queue * loop_pc * list loop_event :=
  match fuel with
  | O => (q, pc, [])
  | S fuel =>
      match loop_step idle now false q pc with
      | Some (q, pc, es) => let '(q, pc, es') := loop_run fuel idle now q pc in (q, pc, es ++ es')
      | None => (q, pc, [])
      end
  end.

Lemma loop_drains idle now q : sq_running q = true ->
  loop_run (2 * length (sq_tasks q) + 2) idle now q PcTake = (with_tasks [] q, PcUpdated, map EvNewTask (sq_tasks q) ++ [EvUpdateSlots]).
Proof.
  remember (sq_tasks q) as l eqn:El. revert q El. induction l as [|t l IH]; intros q El Hr.
  - cbn [length Nat.mul Nat.add loop_run loop_step]. rewrite Hr. cbn [negb]. rewrite <- El. destruct q; cbn in El |- *. by subst.
  - replace (2 * length (t :: l) + 2)%nat with (S (S (2 * length l + 2))) by (simpl; lia). cbn [loop_run loop_step]. rewrite Hr. cbn [negb]. rewrite <- El.
    change (loop_step idle now false (with_tasks l q) (PcNewTask t)) with (Some (with_tasks l q, PcTake, @nil loop_event)). cbn iota beta. rewrite (IH (with_tasks l q)) by done. done.
Qed.

Lemma loop_terminates idle now q pc : pc <> PcStart -> sq_running q = false -> exists q' es, loop_run 4 idle now q pc = (q', PcDone, es) /\ flat_map event_task es = [] /\ sq_tasks q' = sq_tasks q.
Proof.
  intros Hp Hr. destruct pc; [done|..]; cbn; do 3 (rewrite ?Hr, ?orb_true_r; cbn); eexists _, _; (split; [reflexivity|done]).
Qed.

(** From wherever the main loop is, unless it sleeps or has ended. *)
Definition loop_start (pc : loop_pc) : nat :=
  match pc with PcTake => 0 | PcStart | PcNewTask _ | PcWait | PcTimedWait => 1 | PcUpdated => 2 | _ => 3 end.

Lemma loop_run_drains idle now q : sq_running q = true -> flat_map event_task (loop_run (2 * length (sq_tasks q) + 2) idle now q PcTake).2 = sq_tasks q.
Proof.
  intros Hr. rewrite (loop_drains _ _ _ Hr). cbn [snd]. rewrite flat_map_app. cbn. rewrite app_nil_r. induction (sq_tasks q) as [|t l IH]; [done|]. cbn. by rewrite IH.
Qed.

Lemma loop_run_snd n idle now q pc q' pc' es : loop_step idle now false q pc = Some (q', pc', es) -> flat_map event_task es = [] ->
  flat_map event_task (loop_run (S n) idle now q pc).2 = flat_map event_task (loop_run n idle now q' pc').2.
Proof. intros H He. cbn [loop_run]. rewrite H. destruct (loop_run n idle now q' pc') as [[q1 pc1] es1]. cbn [snd]. by rewrite flat_map_app, He. Qed.

Lemma loop_takes_all idle now q pc : sq_running q = true -> sq_tasks q <> [] -> pc <> PcSleep -> pc <> PcDone ->
  flat_map event_task (loop_run (loop_start pc + (2 * length (sq_tasks q) + 2)) idle now q pc).2 = sq_tasks q.
Proof.
  intros Hr Ht Hs Hd. assert (Hb : bool_decide (sq_tasks q = []) = false) by by apply bool_decide_eq_false_2.
  destruct pc; try done; cbn [loop_start Nat.add].
  - erewrite loop_run_snd; [|reflexivity|done]. exact (loop_run_drains idle now (with_time now (with_running true q)) eq_refl).
  - by apply loop_run_drains.
  - erewrite loop_run_snd; [|reflexivity|done]. by apply loop_run_drains.
  - do 2 (erewrite loop_run_snd; [|reflexivity|done]). erewrite loop_run_snd; [|cbn; rewrite Hb, orb_true_r; reflexivity|done]. exact (loop_run_drains idle now (with_time now q) Hr).
  - erewrite loop_run_snd; [|reflexivity|done]. erewrite loop_run_snd; [|cbn; rewrite Hb, orb_true_r; reflexivity|done]. exact (loop_run_drains idle now (with_time now q) Hr).
  - erewrite loop_run_snd; [|cbn; rewrite Hb, orb_true_r; reflexivity|done]. by apply loop_run_drains.
  - erewrite loop_run_snd; [|cbn; rewrite Hb; reflexivity|done]. by apply loop_run_drains.
Qed.

(** C33. The main loop makes progress: while it runs and is awake, it takes all tasks
    of the queue in their order, within two steps for each and five more; it stops
    within four steps once it was told to, without taking a task; it waits only
    while there is no task, while it sleeps, or at its end; and it sleeps exactly
    while the flag says so, unless it was told to stop. *)
Theorem loop_progress idle_sleep_ms q pc now : reachable idle_sleep_ms (q, pc) ->
  (sq_running q = true -> sq_tasks q <> [] -> pc <> PcSleep -> pc <> PcDone ->
    flat_map event_task (loop_run (loop_start pc + (2 * length (sq_tasks q) + 2)) idle_sleep_ms now q pc).2 = sq_tasks q)
  /\ (pc <> PcStart -> sq_running q = false -> exists q' es, loop_run 4 idle_sleep_ms now q pc = (q', PcDone, es) /\ flat_map event_task es = [] /\ sq_tasks q' = sq_tasks q)
  /\ (loop_step idle_sleep_ms now false q pc = None <-> waits_ok q pc)
  /\ sleep_ok q pc.
Proof.
  intros Hr. split; [by apply loop_takes_all|]. split; [by apply loop_terminates|]. split; [apply loop_stuck|by eapply sleep_reachable].
Qed.

(** ** A run

    Two tasks are posted, the first is taken, cancelled too late, and the second
    deferred; then the loop waits. *)

Definition task (i : Z) : server_task := mk_task i 0 (-1) (-1) [] SERVER_TASK_TYPE_COMPLETION.

(** The states after the labels, to build runs of concrete steps. *)
Lemma run_loop idle q pc q' pc' z ls now timeout es : loop_step idle now timeout q pc = Some (q', pc', es) -> run idle (q', pc') ls z -> run idle (q, pc) (LLoop es :: ls) z.
Proof. intros H Hr. econstructor; [by eapply (step_loop _ now timeout)|done]. Qed.

Lemma run_op idle q q' pc z ls now op : apply_op now op q = Ret q' -> run idle (q', pc) ls z -> run idle (q, pc) (LOp op (op_log op q).1 (op_log op q).2 :: ls) z.
Proof. intros H Hr. econstructor; [by eapply (step_op _ now)|done]. Qed.

Ltac run_loop_step := eapply (run_loop _ _ _ _ _ _ _ 0 false); [vm_compute; reflexivity|].
Ltac run_op_step o := eapply (run_op _ _ _ _ _ _ 0 o); [vm_compute; reflexivity|].

Definition sample_labels : list label :=
  [LLoop []; LOp (OpPost false (task 1)) [task 1] []; LOp (OpPost false (task 2)) [task 2] []; LLoop [EvNewTask (task 1)]; LLoop []; LLoop [EvNewTask (task 2)]].
Definition sample_queue : server_queue := mk_queue 0 true false false 0 [] [].

Lemma sample_run : run (-1) start_state sample_labels (sample_queue, PcNewTask (task 2)).
Proof. run_loop_step. run_op_step (OpPost false (task 1)). run_op_step (OpPost false (task 2)). do 3 run_loop_step. constructor. Qed.

Lemma tasks_conserved_witness : run (-1) start_state sample_labels (sample_queue, PcNewTask (task 2))
  /\ flat_map added_by sample_labels ≡ₚ flat_map removed_by sample_labels ++ flat_map taken_by sample_labels ++ pending sample_queue.
Proof. split; [exact sample_run|]. exact (tasks_conserved (-1) sample_labels sample_queue (PcNewTask (task 2)) sample_run). Defined.

Lemma tasks_in_order_witness : Forall orderly sample_labels /\ flat_map added_by sample_labels = flat_map taken_by sample_labels ++ sq_tasks sample_queue.
Proof. assert (H : Forall orderly sample_labels) by by repeat constructor. split; [exact H|]. exact (tasks_in_order (-1) sample_labels sample_queue (PcNewTask (task 2)) sample_run H). Defined.

(** The same run as far as its first task: the second one is taken next, and when it
    is told to stop instead, the main loop ends without it. *)
Definition busy_queue : server_queue := mk_queue 0 true false false 0 [task 2] [].

Lemma busy_run : run (-1) start_state (take 4 sample_labels) (busy_queue, PcNewTask (task 1)).
Proof. cbn. run_loop_step. run_op_step (OpPost false (task 1)). run_op_step (OpPost false (task 2)). run_loop_step. constructor. Qed.

Lemma stopped_run : run (-1) start_state (take 4 sample_labels ++ [LOp OpTerminate [] []]) (terminate busy_queue, PcNewTask (task 1)).
Proof. cbn. run_loop_step. run_op_step (OpPost false (task 1)). run_op_step (OpPost false (task 2)). run_loop_step. run_op_step OpTerminate. constructor. Qed.

Lemma loop_progress_witness :
  flat_map event_task (loop_run (loop_start (PcNewTask (task 1)) + 4) (-1) 0 busy_queue (PcNewTask (task 1))).2 = [task 2]
  /\ (exists q' es, loop_run 4 (-1) 0 (terminate busy_queue) (PcNewTask (task 1)) = (q', PcDone, es)
        /\ flat_map event_task es = [] /\ sq_tasks q' = [task 2])
  /\ sleep_ok sample_queue (PcNewTask (task 2)).
Proof.
  split_and!.
  - apply (loop_progress (-1) busy_queue (PcNewTask (task 1)) 0 (ex_intro _ _ busy_run)); done.
  - apply (loop_progress (-1) (terminate busy_queue) (PcNewTask (task 1)) 0 (ex_intro _ _ stopped_run)); done.
  - apply (loop_progress (-1) sample_queue (PcNewTask (task 2)) 0 (ex_intro _ sample_labels sample_run)).
Defined.

(** ** What can go wrong *)

(** A task that is posted while the main loop sleeps is not taken, however often the
    main loop runs: only [wait_until_no_sleep] wakes it up. *)
Definition asleep (l : list server_task) : server_queue := mk_queue 0 true true false 0 l [].

Example post_while_asleep : reachable 0 (asleep [task 1], PcSleep) /\ forall now timeout, loop_step 0 now timeout (asleep [task 1]) PcSleep = None.
Proof.
  split; [|done]. eexists. do 4 run_loop_step. run_loop_step. run_op_step (OpPost false (task 1)). constructor.
Qed.

(** Told to stop while it sleeps, the main loop ends and leaves the flag set: who
    waits in [wait_until_no_sleep] waits for ever. *)
Example terminate_while_asleep : forall q pc ls, run 0 (terminate (asleep []), PcSleep) ls (q, pc) -> Forall (fun lb => exists es, lb = LLoop es) ls -> awake q = false.
Proof.
  assert (H : forall x ls y, run 0 x ls y -> Forall (fun lb => exists es, lb = LLoop es) ls -> x.2 = PcSleep \/ x.2 = PcTake \/ x.2 = PcDone -> sq_running x.1 = false -> awake x.1 = false -> awake y.1 = false).
  { induction 1 as [x|x lb y ls z Hs _ IH]; [done|]. intros Ha Hp Hr Hw. apply Forall_cons in Ha as [[es ->] Ha]. inversion Hs as [now timeout q pc q' pc' ? E|]; subst. cbn [fst snd] in *.
    destruct Hp as [->|[->| ->]]; cbn [loop_step] in E; rewrite ?Hr in E; cbn in E; simplify_eq; apply IH; auto. }
  intros q pc ls Hr Ha. exact (H _ _ _ Hr Ha (or_introl eq_refl) eq_refl eq_refl).
Qed.

(** A task that is cancelled after the main loop took it and before it is deferred
    stays in the queue, as if it had not been cancelled. *)
Example cancelled_task_deferred : exists ls, run (-1) start_state ls (mk_queue 0 true false false 0 [with_id 9 (cancel_task 1)] [task 1], PcNewTask (task 1)).
Proof.
  eexists. run_loop_step. run_op_step (OpPost false (task 1)). run_loop_step. run_op_step (OpPost true (with_id 9 (cancel_task 1))). run_op_step (OpDefer (task 1)). constructor.
Qed.

(** Told to stop before it starts, the main loop starts all the same. *)
Example terminate_before_start now : loop_step (-1) now false (terminate new_queue) PcStart = Some (with_time now (with_running true new_queue), PcTake, []).
Proof. reflexivity. Qed.
