(* ===== verification/ServerReader.v ===== *)
(** * The reader of the responses: a client that posts tasks and waits for them gets
    the result of every task at its index, and an error cancels what is left. *)

From S2P Require Import Prelude ServerQueue.
From Stdlib Require Import Lia.
Import Reader.

Implicit Types (q : server_queue) (s : server_response) (rd : response_reader) (r : server_task_result) (t : server_task) (ids : list Z).

(** ** What arrives for a reader *)

Definition own ids (l : list server_task_result) : list server_task_result := filter (fun r => rs_id r ∈ ids) l.

(** The results that are sent to the reader, and the steps of the other clients that
    leave the reader alone: what they remove or take are the results of other
    tasks, and nobody stops the server. *)
Definition sent ids (op : response_op) : list server_task_result := match op with OpSend r => own ids [r] | _ => [] end.

Definition keeps_off ids (op : response_op) : Prop :=
  match op with
  | OpSend _ | OpAddWaiting _ => True
  | OpRemoveWaiting i => i ∉ ids
  | OpRemoveAllWaiting ks | OpTakeResult ks => forall i, i ∈ ks -> i ∉ ids
  | OpTerminateResponses => False
  end.

Definition quiet ids (p : poll) : Prop := Forall (keeps_off ids) (pl_ops p) /\ pl_timeout p <> Some true.
Definition stream ids (polls : list poll) : list server_task_result := flat_map (fun p => flat_map (sent ids) (pl_ops p)) polls.

(** The reader's ids are waited for. *)
Record waiting_for ids s : Prop := { wf_running : sr_running s = true; wf_waiting : forall i, i ∈ ids -> i ∈ sr_waiting s }.

Lemma own_app ids l1 l2 : own ids (l1 ++ l2) = own ids l1 ++ own ids l2.
Proof. apply filter_app. Qed.

Lemma find_result_None ids l : Response.find_result ids l = None <-> own ids l = [].
Proof.
  induction l as [|r l IH]; [done|]. cbn [Response.find_result]. unfold own. rewrite filter_cons. destruct (decide (rs_id r ∈ ids)); [done|].
  destruct (Response.find_result ids l) as [[x y]|]; cbn; rewrite <- IH; done.
Qed.

(** What another client takes or removes was not for the reader. *)
Lemma find_result_Some ids l r rest : Response.find_result ids l = Some (r, rest) ->
  own ids l = r :: own ids rest /\ rs_id r ∈ ids /\ forall js, rs_id r ∉ js -> own js rest = own js l.
Proof.
  revert rest. induction l as [|x l IH]; intros rest H; [done|]. cbn [Response.find_result] in H. destruct (decide (rs_id x ∈ ids)) as [Hx|Hx].
  - injection H as -> ->. unfold own. rewrite filter_cons_True by done. repeat split; [done|]. intros js Hj. by rewrite filter_cons_False.
  - destruct (Response.find_result ids l) as [[y rest']|]; [|done]. injection H as -> <-. destruct (IH rest' eq_refl) as (E & Hr & Ej). unfold own in *. rewrite !filter_cons_False by done.
    repeat split; [done|done|]. intros js Hj. rewrite !filter_cons. by rewrite (Ej js Hj).
Qed.

Lemma own_remove i ids l : i ∉ ids -> own ids (filter (fun r => rs_id r <> i) l) = own ids l.
Proof.
  intros Hi. unfold own. induction l as [|r l IH]; [done|]. rewrite !filter_cons. destruct (decide (rs_id r <> i)) as [Hr|Hr].
  - rewrite filter_cons. by rewrite IH.
  - rewrite IH. destruct (decide (rs_id r ∈ ids)) as [Hd|]; [|done]. destruct Hr. intros <-. done.
Qed.

Lemma add_waiting_all ks s : Response.add_waiting_task_ids ks s = mk_response (sr_running s) (sr_waiting (Response.add_waiting_task_ids ks s)) (sr_results s)
  /\ forall i, i ∈ sr_waiting (Response.add_waiting_task_ids ks s) <-> i ∈ ks \/ i ∈ sr_waiting s.
Proof.
  unfold Response.add_waiting_task_ids. revert s. induction ks as [|j ks IH]; intros s; [cbn; split; [by destruct s|set_solver]|]. cbn [foldl].
  destruct (IH (Response.add_waiting_task_id j s)) as [E H]. split; [rewrite E at 1; done|]. intros i. rewrite H. cbn. set_solver.
Qed.

Lemma remove_waiting_all ks s : Response.remove_waiting_task_ids ks s = mk_response (sr_running s) (sr_waiting (Response.remove_waiting_task_ids ks s)) (sr_results s)
  /\ forall i, i ∈ sr_waiting (Response.remove_waiting_task_ids ks s) <-> i ∉ ks /\ i ∈ sr_waiting s.
Proof.
  unfold Response.remove_waiting_task_ids. revert s. induction ks as [|j ks IH]; intros s; [cbn; split; [by destruct s|set_solver]|]. cbn [foldl].
  destruct (IH (mk_response (sr_running s) (sr_waiting s ∖ {[j]}) (sr_results s))) as [E H]. split; [rewrite E at 1; done|]. intros i. rewrite H. cbn. set_solver.
Qed.

(** A step of another client: the reader's results grow by what is sent to it. *)
Lemma op_own ids op s : waiting_for ids s -> keeps_off ids op ->
  waiting_for ids (apply_response_op s op) /\ own ids (sr_results (apply_response_op s op)) = own ids (sr_results s) ++ sent ids op.
Proof.
  intros [Hr Hw] Hk. destruct op as [r|ks|i|ks|ks|]; cbn [apply_response_op sent keeps_off] in *; [| | | | |done].
  - unfold Response.send. destruct (decide (rs_id r ∈ sr_waiting s)) as [Hd|Hd]; [split; [by constructor|]; cbn; apply own_app|]. split; [by constructor|].
    unfold own at 3. rewrite filter_cons_False by auto. by rewrite app_nil_r.
  - rewrite app_nil_r. destruct (add_waiting_all ks s) as [E Hi]. split; [constructor; [by rewrite E|]; intros i Hii; apply Hi; auto|by rewrite E].
  - rewrite app_nil_r. split; [|by apply own_remove]. constructor; [done|]. cbn. intros j Hj. assert (j <> i) by congruence. set_solver.
  - rewrite app_nil_r. destruct (remove_waiting_all ks s) as [E Hi]. split; [constructor; [by rewrite E|]; intros i Hii; apply Hi; split; [|auto]; intros H; by destruct (Hk i H)|by rewrite E].
  - rewrite app_nil_r. unfold Response.take_result. destruct (Response.find_result ks (sr_results s)) as [[r rest]|] eqn:E; cbn; [|by split; [constructor|]].
    destruct (find_result_Some _ _ _ _ E) as (_ & Hi & Ho). split; [by constructor|]. cbn. apply Ho. by apply Hk.
Qed.

Lemma ops_own ids ops s : waiting_for ids s -> Forall (keeps_off ids) ops ->
  waiting_for ids (foldl apply_response_op s ops) /\ own ids (sr_results (foldl apply_response_op s ops)) = own ids (sr_results s) ++ flat_map (sent ids) ops.
Proof.
  revert s. induction ops as [|op ops IH]; intros s Hw H; [by rewrite app_nil_r|]. apply Forall_cons in H as [Ho H]. destruct (op_own ids op s Hw Ho) as [Hw' E].
  destruct (IH _ Hw' H) as [Hw2 E2]. split; [done|]. cbn [foldl flat_map]. rewrite E2, E. by rewrite app_assoc.
Qed.

(** ** Waiting for results *)

(** The reader takes the first result that arrives for it. *)
Lemma next_takes now rd q r more : forall polls s, waiting_for (rd_ids rd) s -> Forall (quiet (rd_ids rd)) polls -> own (rd_ids rd) (sr_results s) ++ stream (rd_ids rd) polls = r :: more ->
  exists polls' s', waiting_for (rd_ids rd) s' /\ Forall (quiet (rd_ids rd)) polls' /\ own (rd_ids rd) (sr_results s') ++ stream (rd_ids rd) polls' = more
    /\ next now polls rd q s = ('(rd, q, s) ← receive now r rd q s'; Ret (Some r, polls', rd, q, s)).
Proof.
  induction polls as [|p polls IH]; intros s Hw Hq Hs; cbn [next]; unfold Response.take_result.
  all: destruct (Response.find_result (rd_ids rd) (sr_results s)) as [[x rest]|] eqn:E; cbn [mbind option_bind].
  1,3: destruct (find_result_Some _ _ _ _ E) as (Eo & _ & _); rewrite Eo in Hs; injection Hs as -> Hs;
    eexists _, (Response.with_results rest s); split; [|split; [exact Hq|split; [exact Hs|reflexivity]]]; destruct Hw; by constructor.
  - apply find_result_None in E. by rewrite E in Hs.
  - apply find_result_None in E. apply Forall_cons in Hq as [[Ho Ht] Hq]. destruct (ops_own _ _ _ Hw Ho) as [Hw' E'].
    destruct (IH _ Hw' Hq) as (polls' & s' & R1 & R2 & R3 & R4); [rewrite E', <- app_assoc; exact Hs|].
    exists polls', s'. split; [done|]. split; [done|]. split; [done|]. rewrite <- R4. destruct Hw' as [Hr _]. cbn zeta. rewrite Hr. cbn [negb]. by destruct (pl_timeout p) as [[]|].
Qed.

(** A result that is a final one and no error. *)
Definition final r : Prop := rs_error r = false /\ rs_stop r = true.

Definition place (results : list (option server_task_result)) (l : list server_task_result) : list (option server_task_result) :=
  foldl (fun v r => <[rs_index r := Some r]> v) results l.

Definition advance (n : nat) rd : response_reader := mk_reader (rd_ids rd) (rd_received rd + n) (rd_cancelled rd) (rd_states rd).

(** The loop of [wait_for_all] puts the results that arrive in their places. *)
Lemma wait_loop_places now fuel q more l : forall polls results rd s, rd_cancelled rd = false -> (rd_received rd + length l <= length (rd_ids rd))%nat -> rd_states rd = length results ->
  Forall final l -> NoDup (map rs_index l) -> (forall r, r ∈ l -> results !! rs_index r = Some None) ->
  waiting_for (rd_ids rd) s -> Forall (quiet (rd_ids rd)) polls -> own (rd_ids rd) (sr_results s) ++ stream (rd_ids rd) polls = l ++ more ->
  exists polls' s', waiting_for (rd_ids rd) s' /\ Forall (quiet (rd_ids rd)) polls' /\ own (rd_ids rd) (sr_results s') ++ stream (rd_ids rd) polls' = more
    /\ wait_loop (length l + fuel) now polls results rd q s = wait_loop fuel now polls' (place results l) (advance (length l) rd) q s'.
Proof.
  induction l as [|r l IH]; intros polls results rd s Hc Hn Hst Hf Hd Hp Hw Hq Hs.
  - exists polls, s. repeat (split; [done|]). cbn [length Nat.add place foldl]. unfold advance. rewrite Nat.add_0_r. by destruct rd.
  - cbn [length] in *. apply Forall_cons in Hf as [[He Hstop] Hf]. cbn [map] in Hd. apply NoDup_cons in Hd as [Hni Hd].
    assert (Hr : results !! rs_index r = Some None) by (apply Hp; set_solver). assert (Hlt : (rs_index r < length results)%nat) by (apply lookup_lt_is_Some; eauto).
    destruct (next_takes now rd q r (l ++ more) polls s Hw Hq Hs) as (polls1 & s1 & W1 & Q1 & S1 & E1).
    destruct (IH polls1 (<[rs_index r := Some r]> results) (advance 1 rd) s1) as (polls' & s' & R1 & R2 & R3 & R4); try done; cbn [advance rd_received rd_ids rd_states].
    + lia.
    + by rewrite length_insert.
    + intros r' Hr'. rewrite list_lookup_insert_ne; [apply Hp; set_solver|]. intros Ei. apply Hni. rewrite Ei. by apply list_elem_of_fmap_2.
    + exists polls', s'. repeat (split; [done|]). cbn [Nat.add wait_loop]. unfold has_next. rewrite Hc, (proj2 (Nat.ltb_lt _ _)) by lia. cbn [negb andb]. rewrite E1. unfold receive. rewrite He, Hstop.
      rewrite Hst, (proj2 (Nat.ltb_lt _ _) Hlt), orb_true_r. cbn [c_assert mbind outcome_bind]. rewrite He, (proj2 (Nat.ltb_lt _ _) Hlt). cbn [c_assert mbind outcome_bind].
      rewrite (proj2 (at_Ret _ _ _) Hr). cbn [mbind outcome_bind]. rewrite (bool_decide_eq_true_2 (None = None)) by done. cbn [c_assert mbind outcome_bind]. unfold set_. rewrite decide_True by done. cbn [mbind outcome_bind].
      rewrite <- Hst. unfold advance in R4 |- *. cbn [rd_ids rd_received rd_cancelled rd_states] in R4. rewrite R4. cbn [place foldl]. by rewrite <- Nat.add_assoc.
Qed.

Lemma place_length results l : length (place results l) = length results.
Proof. revert results. induction l as [|r l IH]; intros results; [done|]. cbn [place foldl]. unfold place in IH. by rewrite IH, length_insert. Qed.

Lemma place_other results l i : i ∉ map rs_index l -> place results l !! i = results !! i.
Proof. revert results. induction l as [|r l IH]; intros results H; [done|]. cbn [place foldl map] in *. unfold place in IH. rewrite IH by set_solver. apply list_lookup_insert_ne. set_solver. Qed.

Lemma place_lookup results l r : NoDup (map rs_index l) -> r ∈ l -> (rs_index r < length results)%nat -> place results l !! rs_index r = Some (Some r).
Proof.
  revert results. induction l as [|x l IH]; intros results Hd Hr Hl; [by apply elem_of_nil in Hr|]. cbn [map] in Hd. apply NoDup_cons in Hd as [Hx Hd]. cbn [place foldl].
  apply elem_of_cons in Hr as [->|Hr]; [|apply IH; [done|done|by rewrite length_insert]]. fold (place (<[rs_index x := Some x]> results) l). rewrite place_other by done. by apply list_lookup_insert_eq.
Qed.

(** ** Posting *)

Definition numbers (ts : list server_task) : list (Z * nat) := flat_map (fun t => (tk_id t, tk_index t) :: tk_children t) ts.

(** The tasks and their children get the indices in a row. *)
Lemma number_all tasks : forall k acc, exists ts n, foldl number_step (k, acc) tasks = ((k + n)%nat, acc ++ ts)
  /\ map fst (numbers ts) = flat_map (fun t => tk_id t :: map fst (tk_children t)) tasks /\ map snd (numbers ts) = seq k n.
Proof.
  induction tasks as [|t tasks IH]; intros k acc; [exists [], 0%nat; by rewrite Nat.add_0_r, app_nil_r|]. cbn [foldl number_step].
  set (m := length (tk_children t)). set (t' := mk_task _ k _ _ _ _). destruct (IH (k + 1 + m)%nat (acc ++ [t'])) as (ts & n & E & E1 & E2).
  exists (t' :: ts), (S (m + n)). rewrite E. split; [f_equal; [lia|by rewrite <- app_assoc]|]. unfold numbers in *. cbn [flat_map t' tk_id tk_index tk_children]. rewrite !map_app, E1, E2. cbn [map fst snd].
  rewrite (fst_zip (map fst (tk_children t))) by (rewrite length_map, length_seq; lia). rewrite (snd_zip (map fst (tk_children t))) by (rewrite length_map, length_seq; lia).
  split; [done|]. cbn [seq app]. replace (S (k + 1 + m)) with (k + 1 + S m)%nat by lia. replace (S k) with (k + 1)%nat by lia. by rewrite seq_app.
Qed.

(** ** Cancelling *)

Fixpoint cancels (next_id : Z) ids : list server_task :=
  match ids with [] => [] | i :: ids => with_id next_id (cancel_task i) :: cancels (next_id + 1) ids end.

Lemma filter_ids i ids (l : list server_task) : filter (fun t => tk_id t ∉ ids) (filter (fun t => Queue.is_target i t = false) l) = filter (fun t => tk_id t ∉ i :: ids) l.
Proof.
  rewrite list_filter_filter. apply list_filter_iff. intros t. rewrite not_elem_of_cons. unfold Queue.is_target. rewrite Z.eqb_neq. tauto.
Qed.

Lemma post_cancel i q : let q' := Queue.post_step true q (cancel_task i) in
  sq_next_id q' = sq_next_id q + 1 /\ sq_tasks q' = with_id (sq_next_id q) (cancel_task i) :: filter (fun t => Queue.is_target i t = false) (sq_tasks q)
  /\ sq_deferred q' = filter (fun t => Queue.is_target i t = false) (sq_deferred q).
Proof. unfold Queue.post_step, Queue.enqueue. cbn [cancel_task tk_id Z.eqb with_id tk_type]. by rewrite decide_True. Qed.

Lemma cancel_all ids : forall q, (forall i, i ∈ ids -> i < sq_next_id q) -> let q' := foldl (Queue.post_step true) q (map cancel_task ids) in
  sq_tasks q' = rev (cancels (sq_next_id q) ids) ++ filter (fun t => tk_id t ∉ ids) (sq_tasks q) /\ sq_deferred q' = filter (fun t => tk_id t ∉ ids) (sq_deferred q).
Proof.
  induction ids as [|i ids IH]; intros q Hn; cbn [map foldl cancels rev app].
  - assert (F : forall l : list server_task, filter (fun t => tk_id t ∉ []) l = l) by (intros l; induction l as [|t l IHl]; [done|]; rewrite filter_cons_True by set_solver; by rewrite IHl).
    by rewrite !F.
  - destruct (post_cancel i q) as (N & T & D). destruct (IH (Queue.post_step true q (cancel_task i))) as [E1 E2]; [intros j Hj; rewrite N; specialize (Hn j ltac:(set_solver)); lia|]. cbn zeta.
    rewrite E1, E2, N, T, D, filter_cons_True; [|cbn; intros Hj; pose proof (Hn _ (proj2 (elem_of_cons _ _ _) (or_intror Hj))); lia]. rewrite !filter_ids, <- app_assoc. done.
Qed.

(** [stop] takes the ids back and removes what has arrived for them. *)
Lemma remove_each ids : forall s, (forall i, i ∈ sr_waiting (foldl (fun s i => Response.remove_waiting_task_id i s) s ids) -> i ∈ sr_waiting s /\ i ∉ ids)
  /\ sr_results (foldl (fun s i => Response.remove_waiting_task_id i s) s ids) = filter (fun r => rs_id r ∉ ids) (sr_results s).
Proof.
  induction ids as [|j ids IH]; intros s; cbn [foldl].
  - split; [set_solver|]. induction (sr_results s) as [|r l IHl]; [done|]. rewrite filter_cons_True by set_solver. by rewrite <- IHl.
  - destruct (IH (Response.remove_waiting_task_id j s)) as [H1 H2]. split.
    + intros i Hi. destruct (H1 i Hi) as [H3 H4]. cbn in H3. set_solver.
    + rewrite H2. cbn [Response.remove_waiting_task_id sr_results]. rewrite list_filter_filter. apply list_filter_iff. intros r. rewrite not_elem_of_cons. tauto.
Qed.

Lemma own_none ids l : own ids (filter (fun r => rs_id r ∉ ids) l) = [].
Proof. unfold own. induction l as [|r l IH]; [done|]. rewrite filter_cons. destruct (decide (rs_id r ∉ ids)); [|done]. by rewrite filter_cons_False. Qed.

(** What is left of a reader that stopped before its tasks were finished. *)
Record stopped ids q q' s' : Prop := {
  st_tasks : sq_tasks q' = rev (cancels (sq_next_id q) ids) ++ filter (fun t => tk_id t ∉ ids) (sq_tasks q);
  st_deferred : sq_deferred q' = filter (fun t => tk_id t ∉ ids) (sq_deferred q);
  st_waiting : forall i, i ∈ ids -> i ∉ sr_waiting s';
  st_results : own ids (sr_results s') = [];
}.

Lemma stop_stopped now rd q s : has_next rd = true -> (forall i, i ∈ rd_ids rd -> i < sq_next_id q) -> exists rd' q' s', stop now rd q s = (rd', q', s') /\ rd_cancelled rd' = true /\ stopped (rd_ids rd) q q' s'.
Proof.
  intros Hh Hn. unfold stop. rewrite Hh. unfold has_next in Hh. apply andb_prop in Hh as [Hc _]. rewrite Hc. cbn [andb]. eexists _, _, _. split; [reflexivity|]. split; [done|].
  destruct (cancel_all (rd_ids rd) q Hn) as [E1 E2]. destruct (remove_each (rd_ids rd) (Response.remove_waiting_task_ids (rd_ids rd) s)) as [H1 H2].
  constructor; [exact E1|exact E2|intros i Hi Hw; destruct (H1 i Hw) as [_ Hni]; exact (Hni Hi)|]. rewrite H2. apply own_none.
Qed.

(** ** The client *)

(** The tasks as [post_tasks] numbers them. *)
Definition numbered (tasks : list server_task) : list server_task := (foldl number_step (0%nat, []) tasks).2.

Lemma post_tasks_reader now front tasks q s rd q' s' : post_tasks now front tasks new_reader q s = Ret (rd, q', s') ->
  rd = mk_reader (get_list_id tasks) 0 false (length (get_list_id tasks)) /\ length (get_list_id tasks) = length (numbers (numbered tasks))
  /\ map snd (numbers (numbered tasks)) = seq 0 (length (numbers (numbered tasks))) /\ map fst (numbers (numbered tasks)) = flat_map (fun t => tk_id t :: map fst (tk_children t)) tasks
  /\ q' = Queue.post_all now front (numbered tasks) q /\ s' = Response.add_waiting_task_ids (get_list_id tasks) s.
Proof.
  unfold post_tasks, numbered. destruct (number_all tasks 0 []) as (ts & n & -> & E1 & E2). cbn [Nat.add new_reader rd_ids rd_states rd_received rd_cancelled app snd].
  rewrite (bool_decide_eq_true_2 (@nil Z = [])) by done. cbn [c_assert mbind outcome_bind]. destruct (n =? length (get_list_id tasks))%nat eqn:E; cbn [c_assert mbind outcome_bind]; [|done].
  apply Nat.eqb_eq in E. intros H. injection H as <- <- <-. assert (En : length (numbers ts) = n) by (rewrite <- (length_map snd), E2; apply length_seq). rewrite En, <- E. by split_and!.
Qed.

Lemma waiting_after ids s : sr_running s = true -> waiting_for ids (Response.add_waiting_task_ids ids s).
Proof. intros Hr. destruct (add_waiting_all ids s) as [E H]. constructor; [by rewrite E|]. intros i Hi. apply H. auto. Qed.

(** C30. C1: A client that posts tasks and waits for them gets every result at the index
    of its task: when the results of the tasks arrive, one final result without
    error for each task and child task, in any order and between any steps of other
    clients that leave these tasks alone, [wait_for_all] returns them all, none is
    lost, and the reader has nothing left to wait for. *)
Theorem wait_for_all_complete now front tasks q s rd q' s1 polls l more : post_tasks now front tasks new_reader q s = Ret (rd, q', s1) -> sr_running s = true ->
  Forall (quiet (rd_ids rd)) polls -> own (rd_ids rd) (sr_results s1) ++ stream (rd_ids rd) polls = l ++ more ->
  Forall final l -> map (fun r => (rs_id r, rs_index r)) l ≡ₚ numbers (numbered tasks) ->
  exists results polls' rd' s', wait_for_all (length l) now polls rd q' s1 = Ret (mk_batch_response false results None, polls', rd', q', s')
    /\ length results = length l /\ (forall r, r ∈ l -> results !! rs_index r = Some (Some r)) /\ has_next rd' = false
    /\ own (rd_ids rd) (sr_results s') ++ stream (rd_ids rd) polls' = more.
Proof.
  intros Hp Hr Hq Hs Hf Hn. destruct (post_tasks_reader _ _ _ _ _ _ _ _ Hp) as (-> & El & Ei & _ & _ & ->). cbn [rd_ids] in *. set (ids := get_list_id tasks) in *.
  pose proof (waiting_after ids s Hr) as Hw. assert (Ell : length l = length ids) by (rewrite El, <- Hn, length_map; done).
  assert (Hx : map rs_index l ≡ₚ seq 0 (length l)). { apply (Permutation_map snd) in Hn. rewrite Ei, map_map in Hn. cbn [snd] in Hn. by rewrite Hn, <- El, Ell. }
  assert (Hd : NoDup (map rs_index l)) by (rewrite Hx; apply NoDup_seq).
  assert (Hb : forall r, r ∈ l -> (rs_index r < length ids)%nat) by (intros r Hrl; rewrite <- Ell; apply (list_elem_of_fmap_2 rs_index) in Hrl; change (rs_index <$> l) with (map rs_index l) in Hrl; rewrite Hx in Hrl; apply elem_of_seq in Hrl; lia).
  destruct (wait_loop_places now 0 q' more l polls (replicate (length ids) None) (mk_reader ids 0 false (length ids)) (Response.add_waiting_task_ids ids s)) as (polls' & s' & _ & _ & Hm & E); cbn [rd_ids rd_received rd_cancelled rd_states]; try done.
  - lia.
  - by rewrite length_replicate.
  - intros r Hrl. apply lookup_replicate_2. by apply Hb.
  - unfold wait_for_all. cbn [rd_ids]. rewrite Nat.add_0_r in E. rewrite E. exists (place (replicate (length ids) None) l), polls', (advance (length l) (mk_reader ids 0 false (length ids))), s'.
    assert (Hh : has_next (advance (length l) (mk_reader ids 0 false (length ids))) = false) by (unfold has_next; cbn; rewrite Ell; apply Nat.ltb_irrefl).
    cbn [wait_loop]. rewrite Hh. rewrite place_length, length_replicate. repeat split; [done| |done]. intros r Hrl. apply place_lookup; [done|done|]. rewrite length_replicate. by apply Hb.
Qed.

(** C31. C2: When one of the tasks fails, [wait_for_all] returns the error and cancels
    what is left: the reader gives its results back and waits for nothing, none of
    its tasks is in the queues any more, and before all other tasks the queue
    cancels each of them, for those the main loop has taken already. *)
Theorem wait_for_all_error now polls rd q s l e more : rd_cancelled rd = false -> rd_received rd = 0%nat -> rd_states rd = length (rd_ids rd) -> (forall i, i ∈ rd_ids rd -> i < sq_next_id q) ->
  waiting_for (rd_ids rd) s -> Forall (quiet (rd_ids rd)) polls -> own (rd_ids rd) (sr_results s) ++ stream (rd_ids rd) polls = l ++ e :: more ->
  Forall final l -> NoDup (map rs_index l) -> (forall r, r ∈ l -> (rs_index r < length (rd_ids rd))%nat) -> (length l < length (rd_ids rd))%nat -> rs_error e = true ->
  exists results polls' rd' q' s', wait_for_all (S (length l)) now polls rd q s = Ret (mk_batch_response false results (Some e), polls', rd', q', s')
    /\ has_next rd' = false /\ stopped (rd_ids rd) q q' s' /\ (forall r, r ∈ l -> results !! rs_index r = Some (Some r)).
Proof.
  intros Hc Hz Hst Hn Hw Hq Hs Hf Hd Hb Hl He.
  destruct (wait_loop_places now 1 q (e :: more) l polls (replicate (length (rd_ids rd)) None) rd s) as (polls1 & s1 & W1 & Q1 & S1 & E1); try done.
  - lia.
  - by rewrite length_replicate.
  - intros r Hr. apply lookup_replicate_2. by apply Hb.
  - destruct (next_takes now (advance (length l) rd) q e more polls1 s1 W1 Q1 S1) as (polls2 & s2 & _ & _ & _ & E2).
    assert (Hh : has_next (advance (length l) rd) = true) by (unfold has_next; cbn; rewrite Hc, Hz; cbn; by apply Nat.ltb_lt).
    destruct (stop_stopped now (advance (length l) rd) q s2 Hh Hn) as (rd' & q' & s' & E3 & Hc' & Hstop).
    exists (place (replicate (length (rd_ids rd)) None) l), polls2, rd', q', s'. unfold wait_for_all. rewrite Nat.add_comm in E1. cbn [Nat.add] in E1. rewrite E1. cbn [wait_loop]. rewrite Hh, E2. unfold receive. rewrite He, E3.
    cbn [mbind outcome_bind]. rewrite He. split; [done|]. split; [unfold has_next; by rewrite Hc'|]. split; [done|]. intros r Hr. apply place_lookup; [done|done|]. rewrite length_replicate. by apply Hb.
Qed.

(** ** Two tasks and a child *)

Definition parent : server_task := mk_task 3 0 (-1) (-1) [(4, 0%nat)] SERVER_TASK_TYPE_COMPLETION.
Definition single : server_task := mk_task 5 0 (-1) (-1) [] SERVER_TASK_TYPE_EMBEDDING.
Definition empty_response : server_response := mk_response true ∅ [].
Definition result (i : Z) (k : nat) (err : bool) : server_task_result := mk_result i k err true (i * 10).

Definition posted : response_reader * server_queue * server_response :=
  match post_tasks 0 false [parent; single] new_reader (mk_queue 6 true false false 0 [] []) empty_response with Ret x => x | _ => (new_reader, Queue.new_queue, empty_response) end.
Definition results_of_three : list server_task_result := [result 5 2 false; result 3 0 false; result 4 1 false].
Definition sends (l : list server_task_result) : list poll := map (fun r => mk_poll [OpSend (result 9 0 true); OpSend r] (Some false)) l.

Lemma wait_for_all_complete_witness : exists results polls' rd' s', wait_for_all 3 0 (sends results_of_three) posted.1.1 posted.1.2 posted.2 = Ret (mk_batch_response false results None, polls', rd', posted.1.2, s')
  /\ results !! 1%nat = Some (Some (result 4 1 false)).
Proof.
  assert (Hq : Forall (quiet [3; 4; 5]) (sends results_of_three)) by by repeat constructor.
  assert (Hf : Forall final results_of_three) by by repeat constructor.
  destruct (wait_for_all_complete 0 false [parent; single] (mk_queue 6 true false false 0 [] []) empty_response posted.1.1 posted.1.2 posted.2 (sends results_of_three) results_of_three []
    eq_refl eq_refl Hq eq_refl Hf) as (results & polls' & rd' & s' & E & _ & Hr & _).
  - apply (bool_decide_unpack _). by vm_compute.
  - exists results, polls', rd', s'. split; [exact E|]. apply (Hr (result 4 1 false)). set_solver.
Defined.

Lemma wait_for_all_error_witness : exists results polls' rd' q' s', wait_for_all 2 0 (sends [result 5 2 false; result 3 0 true]) posted.1.1 posted.1.2 posted.2 = Ret (mk_batch_response false results (Some (result 3 0 true)), polls', rd', q', s')
  /\ stopped [3; 4; 5] posted.1.2 q' s'.
Proof.
  assert (Hq : Forall (quiet [3; 4; 5]) (sends [result 5 2 false; result 3 0 true])) by by repeat constructor.
  assert (Hf : Forall final [result 5 2 false]) by by repeat constructor.
  assert (Hw : waiting_for [3; 4; 5] posted.2) by (constructor; [done|]; intros i Hi; cbn; set_solver).
  assert (Hn : forall i, i ∈ [3; 4; 5] -> i < 6) by (intros i Hi; repeat (apply elem_of_cons in Hi as [->|Hi]; [lia|]); by apply elem_of_nil in Hi).
  destruct (wait_for_all_error 0 (sends [result 5 2 false; result 3 0 true]) posted.1.1 posted.1.2 posted.2 [result 5 2 false] (result 3 0 true) []
    eq_refl eq_refl eq_refl Hn Hw Hq eq_refl Hf) as (results & polls' & rd' & q' & s' & E & _ & Hs & _).
  - repeat constructor. set_solver.
  - intros r Hr. apply list_elem_of_singleton in Hr as ->. by apply Nat.ltb_lt.
  - by apply Nat.ltb_lt.
  - done.
  - exists results, polls', rd', q', s'. split; [exact E|exact Hs].
Defined.
