(* ===== verification/NgramCache.v ===== *)
(** * Drafting tokens from n-gram caches, [common/ngram-cache.cpp] and [.h], and the
    part of [common/speculative.cpp] that uses it.

    A cache counts, for every n-gram, the tokens that followed it.  It is an
    [std::unordered_map]: a finite map here, and the order in which a loop visits it
    is a parameter, [Iteration].  Counts are of type [int]: where the code adds and
    multiplies them, leaving the range of [int] is undefined behaviour.  A file is
    the list of its bytes; the progress that is printed is left out. *)

From S2P Require Import Prelude KvState Vocabulary.

Definition LLAMA_NGRAM_MIN : nat := 1.
Definition LLAMA_NGRAM_MAX : nat := 4.
Definition LLAMA_NGRAM_STATIC : nat := 2.

(** The tokens of an n-gram, filled up with [LLAMA_TOKEN_NULL]. *)
Notation common_ngram := (list Z).
Notation common_ngram_cache_part := (gmap Z Z).
Notation common_ngram_cache := (gmap (list Z) (gmap Z Z)).

(** The order of iteration of the maps. *)
Class Iteration := {
  iter_part : common_ngram_cache_part -> list (Z * Z);
  iter_cache : common_ngram_cache -> list (common_ngram * common_ngram_cache_part);
  iter_part_perm : forall p, iter_part p ≡ₚ map_to_list p;
  iter_cache_perm : forall c, iter_cache c ≡ₚ map_to_list c;
}.

(** The result of an operation on [int]. *)
Definition int_ (z : Z) : outcome Z := if (- 2 ^ 31 <=? z) && (z <? 2 ^ 31) then Ret z else Undef.

(** An element [v[z]] for an index that is a [size_t]. *)
Definition at_u (l : list Z) (z : Z) : outcome Z := if z <? Z.of_nat (length l) then at_z l z else Undef.

(** ** [common_ngram] *)

Definition ngram_new : common_ngram := replicate LLAMA_NGRAM_MAX LLAMA_TOKEN_NULL.

(** [common_ngram(&input[start], ngram_size)] *)
Definition ngram_of (input : list Z) (start ngram_size : nat) : outcome common_ngram :=
  foldM (fun g i => t ← (if (i <? ngram_size)%nat then at_ input (start + i) else Ret LLAMA_TOKEN_NULL); Ret (g ++ [t])) [] (seq 0 LLAMA_NGRAM_MAX).

(** ** Updating a cache *)

Definition count_token (c : common_ngram_cache) (ngram : common_ngram) (token : Z) : outcome common_ngram_cache :=
  match c !! ngram with
  | None => Ret (<[ngram := {[token := 1]}]> c)
  | Some part =>
      match part !! token with
      | None => Ret (<[ngram := <[token := 1]> part]> c)
      | Some count => count ← int_ (count + 1); Ret (<[ngram := <[token := count]> part]> c)
      end
  end.

Definition update_size (inp : list Z) (nnew : Z) (c : common_ngram_cache) (ngram_size : nat) : outcome common_ngram_cache :=
  let i_start := Z.to_nat (Z.max (Z.of_nat (length inp) - nnew) (Z.of_nat ngram_size)) in
  foldM (fun c i =>
      ngram ← ngram_of inp (i - ngram_size) ngram_size;
      token ← at_ inp i;
      count_token c ngram token)
    c (seq i_start (length inp - i_start)).

Definition common_ngram_cache_update (c : common_ngram_cache) (ngram_min ngram_max : nat) (inp : list Z) (nnew : Z) : outcome common_ngram_cache :=
  foldM (update_size inp nnew) c (seq ngram_min (S ngram_max - ngram_min)).

(** ** Drafting *)

(** The index [i] is converted to [size_t]. *)
Definition get_token (inp draft : list Z) (i : Z) : outcome Z :=
  let i := u64 i in
  let n := Z.of_nat (length inp) in
  if i <? n then at_u inp i else at_u draft (u64 (1 + i - n)).

Definition draft_min_sample_size_lax : list Z := [2; 2; 1; 1].
Definition draft_min_percent_lax : list Z := [66; 50; 50; 50].
Definition draft_min_sample_size_strict : list Z := [4; 3; 2; 2].
Definition draft_min_percent_strict : list Z := [75; 66; 66; 66].

(** The tests of a candidate against the thresholds. *)
Definition enough (min_sample_size min_percent sum_count max_count : Z) : outcome bool :=
  if sum_count <? min_sample_size then Ret false
  else
    a ← int_ (100 * max_count);
    b ← int_ (min_percent * sum_count);
    Ret (negb (a <? b)).

Section Draft.
Context `{Iteration}.

(** [try_draft] with the static cache alone. *)
Definition static_step (st : Z * Z * Z) (token_count : Z * Z) : outcome (Z * Z * Z) :=
  let '(max_token, max_count, sum_count) := st in
  let '(token, count) := token_count in
  sum_count ← int_ (sum_count + count);
  Ret (if max_count <? count then (token, count, sum_count) else (max_token, max_count, sum_count)).

Definition try_draft_static (nc_static : common_ngram_cache) (ngram : common_ngram) : outcome Z :=
  match nc_static !! ngram with
  | None => Ret LLAMA_TOKEN_NULL
  | Some part =>
      '(max_token, max_count, sum_count) ← foldM static_step (LLAMA_TOKEN_NULL, 0, 0) (iter_part part);
      min_sample_size ← at_ draft_min_sample_size_lax (LLAMA_NGRAM_STATIC - 1);
      min_percent ← at_ draft_min_percent_lax (LLAMA_NGRAM_STATIC - 1);
      ok ← enough min_sample_size min_percent sum_count max_count;
      Ret (if ok : bool then max_token else LLAMA_TOKEN_NULL)
  end.

(** [try_draft] with a primary cache; the static one validates. *)
Definition count_static (part_static : common_ngram_cache_part) (token : Z) : outcome Z :=
  match part_static !! token with Some count => int_ (100 * count) | None => Ret 1 end.

Definition primary_step (part_static : common_ngram_cache_part) (st : Z * Z * Z * Z) (token_count : Z * Z) : outcome (Z * Z * Z * Z) :=
  let '(max_token, max_count, max_static, sum_count) := st in
  let '(token, count) := token_count in
  static ← count_static part_static token;
  a ← int_ (count * static);
  b ← int_ (max_count * max_static);
  sum_count ← int_ (sum_count + count);
  Ret (if b <? a then (token, count, static, sum_count) else (max_token, max_count, max_static, sum_count)).

(** The n-grams with their indices, the last one first. *)
Fixpoint try_draft_loop (nc_primary : common_ngram_cache) (ngrams : list (nat * common_ngram)) (part_static : common_ngram_cache_part) (min_sample_size min_percent : list Z) : outcome Z :=
  match ngrams with
  | [] => Ret LLAMA_TOKEN_NULL
  | (i, ngram) :: ngrams =>
      match nc_primary !! ngram with
      | None => try_draft_loop nc_primary ngrams part_static min_sample_size min_percent
      | Some part =>
          '(max_token, max_count, _, sum_count) ← foldM (primary_step part_static) (LLAMA_TOKEN_NULL, 0, 0, 0) (iter_part part);
          size ← at_ min_sample_size i;
          percent ← at_ min_percent i;
          ok ← enough size percent sum_count max_count;
          if (ok : bool) && negb (max_token =? LLAMA_TOKEN_NULL) then Ret max_token
          else try_draft_loop nc_primary ngrams part_static min_sample_size min_percent
      end
  end.

Definition try_draft (nc_primary : common_ngram_cache) (ngrams : list common_ngram) : common_ngram_cache_part -> list Z -> list Z -> outcome Z :=
  try_draft_loop nc_primary (rev (zip (seq 0 (length ngrams)) ngrams)).

(** The n-gram of [size] tokens of [inp] and [draft] that starts at [start]. *)
Definition gram_at (inp draft : list Z) (start : Z) (size : nat) : outcome common_ngram :=
  foldM (fun g k => t ← get_token inp draft (start + Z.of_nat k); set_ g k t) ngram_new (seq 0 size).

Definition draft_token (inp draft : list Z) (ngram_min ngram_max : nat) (nc_context nc_dynamic nc_static : common_ngram_cache) : outcome Z :=
  let ngram_start size := Z.of_nat (length inp) - Z.of_nat size + Z.of_nat (length draft) - 1 in
  ngram_static ← gram_at inp draft (ngram_start LLAMA_NGRAM_STATIC) LLAMA_NGRAM_STATIC;
  let part_static := default ∅ (nc_static !! ngram_static) in
  ngrams_cd ← foldM (fun l size => g ← gram_at inp draft (ngram_start size) size; Ret (l ++ [g])) [] (seq ngram_min (S ngram_max - ngram_min));
  drafted ← try_draft nc_context ngrams_cd part_static draft_min_sample_size_lax draft_min_percent_lax;
  drafted ← (if drafted =? LLAMA_TOKEN_NULL then try_draft nc_dynamic ngrams_cd part_static draft_min_sample_size_strict draft_min_percent_strict else Ret drafted);
  if drafted =? LLAMA_TOKEN_NULL then try_draft_static nc_static ngram_static else Ret drafted.

(** The loop adds one token each time. *)
Fixpoint draft_loop (fuel : nat) (inp draft : list Z) (n_draft : Z) (ngram_min ngram_max : nat) (nc_context nc_dynamic nc_static : common_ngram_cache) : outcome (list Z) :=
  if Z.of_nat (length draft) - 1 <? n_draft then
    match fuel with
    | O => NoFuel
    | S fuel =>
        drafted ← draft_token inp draft ngram_min ngram_max nc_context nc_dynamic nc_static;
        if drafted =? LLAMA_TOKEN_NULL then Ret draft
        else draft_loop fuel inp (draft ++ [drafted]) n_draft ngram_min ngram_max nc_context nc_dynamic nc_static
    end
  else Ret draft.

Definition common_ngram_cache_draft (inp draft : list Z) (n_draft : Z) (ngram_min ngram_max : nat) (nc_context nc_dynamic nc_static : common_ngram_cache) : outcome (list Z) :=
  c_assert (length draft =? 1)%nat "draft.size() == 1";;
  if (length inp <? LLAMA_NGRAM_STATIC)%nat then Ret draft
  else draft_loop (Z.to_nat n_draft) inp draft n_draft ngram_min ngram_max nc_context nc_dynamic nc_static.

(** ** Saving and loading *)

Definition save_item (out : list Z) (item : common_ngram * common_ngram_cache_part) : outcome (list Z) :=
  let '(ngram, token_counts) := item in
  c_assert (negb (bool_decide (token_counts = ∅))) "!token_counts.empty()";;
  let ntokens := i32 (Z.of_nat (size token_counts)) in
  c_assert (0 <? ntokens) "ntokens > 0";;
  let out := foldl (fun out t => Io.write out (Io.le_bytes 4 t)) out ngram in
  let out := Io.write out (Io.le_bytes 4 ntokens) in
  foldM (fun out '(token, count) =>
      c_assert (0 <? count) "count > 0";;
      Ret (Io.write (Io.write out (Io.le_bytes 4 token)) (Io.le_bytes 4 count)))
    out (iter_part token_counts).

Definition common_ngram_cache_save (c : common_ngram_cache) : outcome (list Z) := foldM save_item [] (iter_cache c).

End Draft.

(** [emplace] keeps the value of a key that is there. *)
Definition emplace `{Countable K} {V} (m : gmap K V) (k : K) (v : V) : gmap K V := match m !! k with Some _ => m | None => <[k := v]> m end.

(** A [read] that the assertion around it requires to succeed. *)
Definition read_int (inp : list Z) : outcome (Z * list Z) :=
  match Io.read_i32 inp with Ret r => Ret r | _ => Fatal "hashmap_file.read" end.

Fixpoint load_counts (n : nat) (token_counts : common_ngram_cache_part) (inp : list Z) : outcome (common_ngram_cache_part * list Z) :=
  match n with
  | O => Ret (token_counts, inp)
  | S n =>
      '(token, inp) ← read_int inp;
      '(count, inp) ← read_int inp;
      c_assert (0 <? count) "count > 0";;
      load_counts n (emplace token_counts token count) inp
  end.

(** The four tokens of an n-gram. *)
Definition read_ngram (inp : list Z) : outcome (common_ngram * list Z) :=
  '(b, rest) ← Io.read inp (4 * LLAMA_NGRAM_MAX);
  Ret (map (fun k => i32 (Io.le_value (take 4 (drop (4 * k) b)))) (seq 0 LLAMA_NGRAM_MAX), rest).

(** The loop ends where an n-gram cannot be read any more; every item takes at
    least the bytes of its n-gram. *)
Fixpoint load_loop (fuel : nat) (c : common_ngram_cache) (inp : list Z) : outcome common_ngram_cache :=
  match read_ngram inp with
  | Ret (ngram, inp) =>
      match fuel with
      | O => NoFuel
      | S fuel =>
          '(ntokens, inp) ← read_int inp;
          c_assert (0 <? ntokens) "ntokens > 0";;
          '(token_counts, inp) ← load_counts (Z.to_nat ntokens) ∅ inp;
          load_loop fuel (emplace c ngram token_counts) inp
      end
  | _ => Ret c
  end.

Definition common_ngram_cache_load (file : option (list Z)) : outcome common_ngram_cache :=
  match file with
  | None => Throw "Unable to open file"
  | Some inp => load_loop (length inp) ∅ inp
  end.

(** ** Merging *)

Section Merge.
Context `{Iteration}.

Definition merge_count (ngram : common_ngram) (target : common_ngram_cache) (token_count : Z * Z) : outcome common_ngram_cache :=
  let '(token, count) := token_count in
  c_assert (0 <? count) "count > 0";;
  match target !! ngram with
  | None => Undef
  | Some merged =>
      match merged !! token with
      | None => Ret (<[ngram := <[token := count]> merged]> target)
      | Some old => sum ← int_ (old + count); Ret (<[ngram := <[token := sum]> merged]> target)
      end
  end.

Definition merge_part (target : common_ngram_cache) (item : common_ngram * common_ngram_cache_part) : outcome common_ngram_cache :=
  let '(ngram, part) := item in
  match target !! ngram with
  | None => Ret (<[ngram := part]> target)
  | Some _ => foldM (merge_count ngram) target (iter_part part)
  end.

Definition common_ngram_cache_merge (target add : common_ngram_cache) : outcome common_ngram_cache := foldM merge_part target (iter_cache add).

(** ** [common_speculative_state_ngram_cache::draft] *)

Record ngram_cache_state := mk_ngram_cache_state {
  nc_n_draft : Z;
  nc_context : common_ngram_cache;
  nc_dynamic : common_ngram_cache;
  nc_static : common_ngram_cache;
  nc_cache_size : nat;
}.

Definition cache_catch_up (st : ngram_cache_state) (prompt_tgt : list Z) (id_last : Z) : outcome ngram_cache_state :=
  if (nc_cache_size st <? length prompt_tgt + 1)%nat then
    let tokens_new := drop (nc_cache_size st) prompt_tgt ++ [id_last] in
    context ← common_ngram_cache_update (nc_context st) LLAMA_NGRAM_MIN LLAMA_NGRAM_MAX tokens_new (Z.of_nat (length tokens_new));
    Ret (mk_ngram_cache_state (nc_n_draft st) context (nc_dynamic st) (nc_static st) (length prompt_tgt + 1))
  else Ret st.

(** [result] is empty when it is called. *)
Definition cache_state_draft (st : ngram_cache_state) (prompt_tgt : list Z) (id_last : Z) : outcome (list Z * ngram_cache_state) :=
  st ← cache_catch_up st prompt_tgt id_last;
  result ← common_ngram_cache_draft (prompt_tgt ++ [id_last]) [id_last] (nc_n_draft st) LLAMA_NGRAM_MIN LLAMA_NGRAM_MAX (nc_context st) (nc_dynamic st) (nc_static st);
  Ret (drop 1 result, st).

End Merge.
