(* ===== verification/NgramCacheFacts.v ===== *)
(** * N-gram caches: counting, merging, saving. *)

From S2P Require Import Prelude KvCells Batch KvCache KvState KvStateFacts Vocabulary NgramCache.
From Stdlib Require Import Lia.

Implicit Types (c : common_ngram_cache) (p : common_ngram_cache_part) (g : common_ngram) (t : Z) (inp : list Z).

(** ** What a cache stands for *)

(** How often [t] was counted after [g]. *)
Definition total c g t : Z := default 0 (c !! g ≫= fun p => p !! t).

(** No part is empty, every count is positive and fits. *)
Definition part_ok p : Prop := p <> ∅ /\ forall t k, p !! t = Some k -> 0 < k < 2 ^ 31.
Definition cache_ok c : Prop := forall g p, c !! g = Some p -> part_ok p.

Lemma cache_ok_empty : cache_ok ∅.
Proof. intros g p H. by rewrite lookup_empty in H. Qed.

Lemma total_empty g t : total ∅ g t = 0.
Proof. unfold total. by rewrite lookup_empty. Qed.

Lemma total_range c g t : cache_ok c -> 0 <= total c g t < 2 ^ 31.
Proof. intros Hc. unfold total. destruct (c !! g) as [p|] eqn:Eg; cbn; [|lia]. destruct (p !! t) as [k|] eqn:Et; cbn; [|lia]. destruct (proj2 (Hc g p Eg) t k Et). lia. Qed.

Lemma part_lookup c g p t : cache_ok c -> c !! g = Some p -> p !! t = if decide (total c g t = 0) then None else Some (total c g t).
Proof.
  intros Hc Eg. unfold total. rewrite Eg. cbn [mbind option_bind]. destruct (p !! t) as [k|] eqn:Et; cbn; [|by destruct (decide (0 = 0))].
  destruct (proj2 (Hc g p Eg) t k Et). destruct (decide (k = 0)); [lia|done].
Qed.

(** A well-formed cache is determined by its counts. *)
Lemma cache_ext c1 c2 : cache_ok c1 -> cache_ok c2 -> (forall g t, total c1 g t = total c2 g t) -> c1 = c2.
Proof.
  intros H1 H2 Ht. apply map_eq. intros g. destruct (c1 !! g) as [p1|] eqn:E1, (c2 !! g) as [p2|] eqn:E2; [|exfalso|exfalso|done].
  - f_equal. apply map_eq. intros t. by rewrite (part_lookup c1 g p1 t H1 E1), (part_lookup c2 g p2 t H2 E2), Ht.
  - destruct (proj1 (H1 g p1 E1)). apply map_eq. intros t. rewrite (part_lookup c1 g p1 t H1 E1), Ht, lookup_empty. unfold total. rewrite E2. by destruct (decide _).
  - destruct (proj1 (H2 g p2 E2)). apply map_eq. intros t. rewrite (part_lookup c2 g p2 t H2 E2), <- Ht, lookup_empty. unfold total. rewrite E1. by destruct (decide _).
Qed.

Lemma total_insert c g p g' t' : total (<[g := p]> c) g' t' = if decide (g' = g) then default 0 (p !! t') else total c g' t'.
Proof. unfold total. destruct (decide (g' = g)) as [->|Hg]; [by rewrite lookup_insert_eq|by rewrite lookup_insert_ne]. Qed.

Lemma total_insert2 c g p t k g' t' : c !! g = Some p -> total (<[g := <[t := k]> p]> c) g' t' = if decide (g' = g /\ t' = t) then k else total c g' t'.
Proof.
  intros Eg. rewrite total_insert. destruct (decide (g' = g)) as [->|Hg]; [|rewrite decide_False; [done|naive_solver]].
  destruct (decide (t' = t)) as [->|Ht]; [rewrite lookup_insert_eq, decide_True; done|]. rewrite lookup_insert_ne by done. rewrite decide_False by naive_solver. unfold total. by rewrite Eg.
Qed.

Lemma cache_ok_insert c g p : cache_ok c -> part_ok p -> cache_ok (<[g := p]> c).
Proof. intros Hc Hp g' p' H. apply lookup_insert_Some in H as [[_ <-]|[_ H]]; [done|exact (Hc g' p' H)]. Qed.

Lemma part_ok_insert p t k : (forall t k, p !! t = Some k -> 0 < k < 2 ^ 31) -> 0 < k < 2 ^ 31 -> part_ok (<[t := k]> p).
Proof. intros Hp Hk. split; [apply insert_non_empty|]. intros t' k' H. apply lookup_insert_Some in H as [[_ <-]|[_ H]]; [done|exact (Hp t' k' H)]. Qed.

Lemma int_Ret z : - 2 ^ 31 <= z < 2 ^ 31 -> int_ z = Ret z.
Proof. intros H. unfold int_. by rewrite (proj2 (Z.leb_le _ _)), (proj2 (Z.ltb_lt _ _)) by lia. Qed.

(** Adding [k] to a count; the common part of updating and merging. *)
Lemma add_count c g p t k : cache_ok c -> c !! g = Some p -> 0 < k -> total c g t + k < 2 ^ 31 ->
  exists c', (match p !! t with None => Ret (<[g := <[t := k]> p]> c) | Some old => sum ← int_ (old + k); Ret (<[g := <[t := sum]> p]> c) end) = Ret c'
    /\ cache_ok c' /\ is_Some (c' !! g) /\ forall g' t', total c' g' t' = total c g' t' + (if decide (g' = g /\ t' = t) then k else 0).
Proof.
  intros Hc Eg Hk Hb. pose proof (proj2 (Hc g p Eg)) as Hp. assert (Et : total c g t = default 0 (p !! t)) by (unfold total; by rewrite Eg). rewrite Et in Hb.
  assert (Hres : exists z, z = default 0 (p !! t) + k /\ (match p !! t with None => Ret (<[g := <[t := k]> p]> c) | Some old => sum ← int_ (old + k); Ret (<[g := <[t := sum]> p]> c) end) = Ret (<[g := <[t := z]> p]> c)).
  { eexists. split; [reflexivity|]. destruct (p !! t) as [old|] eqn:E; cbn [from_option] in Hb |- *; unfold id in Hb |- *; [|done]. destruct (Hp t old E). rewrite int_Ret by lia. done. }
  destruct Hres as (z & Hz & ->). assert (Hz' : 0 < z < 2 ^ 31). { subst z. destruct (p !! t) as [old|] eqn:E; unfold from_option, default in *; [destruct (Hp t old E)|]; simpl in *; lia. }
  eexists. split; [reflexivity|]. split; [apply cache_ok_insert; [done|by apply part_ok_insert]|]. split; [by rewrite lookup_insert_eq|].
  intros g' t'. rewrite (total_insert2 c g p t z g' t' Eg). destruct (decide (g' = g /\ t' = t)) as [[-> ->]|]; [by rewrite Et|lia].
Qed.

Lemma count_token_ok c g t : cache_ok c -> total c g t + 1 < 2 ^ 31 ->
  exists c', count_token c g t = Ret c' /\ cache_ok c' /\ forall g' t', total c' g' t' = total c g' t' + (if decide (g' = g /\ t' = t) then 1 else 0).
Proof.
  intros Hc Hb. unfold count_token. destruct (c !! g) as [p|] eqn:Eg.
  - destruct (add_count c g p t 1 Hc Eg ltac:(lia) Hb) as (c' & E & Hc' & _ & Ht). exists c'. by split_and!.
  - eexists. split; [reflexivity|]. split. { apply cache_ok_insert; [done|]. rewrite <- insert_empty. apply part_ok_insert; [intros ? ? H; by rewrite lookup_empty in H|lia]. }
    intros g' t'. rewrite total_insert. destruct (decide (g' = g)) as [->|Hg].
    + unfold total. rewrite Eg. cbn. destruct (decide (t' = t)) as [->|Ht]; [by rewrite lookup_singleton_eq, decide_True|]. rewrite lookup_singleton_ne, decide_False by naive_solver. done.
    + rewrite decide_False by naive_solver. lia.
Qed.

(** ** Updating *)

(** An n-gram of the cache: the first tokens of a list, filled up. *)
Definition pad (l : list Z) : common_ngram := take LLAMA_NGRAM_MAX l ++ replicate (LLAMA_NGRAM_MAX - length l) LLAMA_TOKEN_NULL.

(** [g] is the n-gram of the given size before position [i]. *)
Definition gram_before inp (size i : nat) : common_ngram := pad (take size (drop (i - size) inp)).

(** How often [t] follows [g] in a text, for n-grams of the given sizes. *)
Definition occurrences (ngram_min ngram_max : nat) inp g t : Z :=
  Z.of_nat (length (filter (fun '(size, i) => (size <= i)%nat /\ gram_before inp size i = g /\ inp !! i = Some t)
    (size ← seq ngram_min (S ngram_max - ngram_min); i ← seq 0 (length inp); [(size, i)]))).

Lemma ngram_of_pad inp start size : (start + size <= length inp)%nat -> ngram_of inp start size = Ret (pad (take size (drop start inp))).
Proof.
  intros Hl. assert (H : forall n g, foldM (fun g i => t ← (if (i <? size)%nat then at_ inp (start + i) else Ret LLAMA_TOKEN_NULL); Ret (g ++ [t])) g (seq n (LLAMA_NGRAM_MAX - n))
    = Ret (g ++ drop n (pad (take size (drop start inp))))).
  2: { unfold ngram_of. rewrite <- (Nat.sub_0_r LLAMA_NGRAM_MAX), (H 0%nat []). by rewrite drop_0. }
  assert (Hpad : forall i, (i < LLAMA_NGRAM_MAX)%nat -> (if (i <? size)%nat then at_ inp (start + i) else Ret LLAMA_TOKEN_NULL) = Ret (nth i (pad (take size (drop start inp))) 0)).
  { intros i Hi. set (l := take size (drop start inp)). assert (Hll : length l = size) by (unfold l; rewrite length_take, length_drop; lia).
    assert (Hn : pad l !! i = Some (if (i <? size)%nat then default 0 (inp !! (start + i)%nat) else LLAMA_TOKEN_NULL)).
    { unfold pad. destruct (i <? size)%nat eqn:E; [apply Nat.ltb_lt in E|apply Nat.ltb_ge in E].
      - rewrite lookup_app_l by (rewrite length_take; lia). rewrite lookup_take_lt by done. unfold l. rewrite lookup_take_lt, lookup_drop by done.
        destruct (lookup_lt_is_Some_2 inp (start + i)) as [x ->]; [lia|done].
      - rewrite lookup_app_r by (rewrite length_take; lia). apply lookup_replicate_2. rewrite length_take. lia. }
    rewrite (nth_lookup_Some _ _ _ _ Hn). destruct (i <? size)%nat eqn:E; [|done]. apply Nat.ltb_lt in E. apply at_Ret. destruct (lookup_lt_is_Some_2 inp (start + i)) as [x ->]; [lia|done]. }
  assert (Hlen : length (pad (take size (drop start inp))) = LLAMA_NGRAM_MAX) by (unfold pad; rewrite length_app, length_take, length_replicate; lia).
  intros n g. remember (LLAMA_NGRAM_MAX - n)%nat as m eqn:Em. revert n g Em. induction m as [|m IH]; intros n g Em.
  - cbn [seq foldM]. rewrite drop_ge by lia. by rewrite app_nil_r.
  - cbn [seq foldM]. rewrite Hpad by lia. cbn [mbind outcome_bind]. rewrite IH by lia. rewrite <- app_assoc. f_equal. f_equal.
    cbn [app]. symmetry. apply drop_S. destruct (nth_lookup_or_length (pad (take size (drop start inp))) n 0); [done|lia].
Qed.

(** The n-grams that an update counts, each with the token that follows it. *)
Definition events_of inp (nnew : Z) (size : nat) : list (common_ngram * Z) :=
  let i_start := Z.to_nat (Z.max (Z.of_nat (length inp) - nnew) (Z.of_nat size)) in
  map (fun i => (gram_before inp size i, nth i inp 0)) (seq i_start (length inp - i_start)).
Definition events (ngram_min ngram_max : nat) inp (nnew : Z) : list (common_ngram * Z) := flat_map (events_of inp nnew) (seq ngram_min (S ngram_max - ngram_min)).

Definition count_events c (es : list (common_ngram * Z)) : outcome common_ngram_cache := foldM (fun c '(g, t) => count_token c g t) c es.

Lemma update_size_events inp nnew c size : update_size inp nnew c size = count_events c (events_of inp nnew size).
Proof.
  unfold update_size, events_of, count_events. set (i_start := Z.to_nat _). assert (Hi : (size <= i_start)%nat) by (unfold i_start; lia).
  assert (H : forall n k c, (size <= k)%nat -> (k + n <= length inp)%nat ->
    foldM (fun c i => ngram ← ngram_of inp (i - size) size; token ← at_ inp i; count_token c ngram token) c (seq k n)
    = foldM (fun c '(g, t) => count_token c g t) c (map (fun i => (gram_before inp size i, nth i inp 0)) (seq k n))).
  { induction n as [|n IH]; intros k c' Hk Hn; [done|]. cbn [seq map foldM]. rewrite ngram_of_pad by lia. cbn [mbind outcome_bind]. fold (gram_before inp size k).
    destruct (lookup_lt_is_Some_2 inp k) as [x Hx]; [lia|]. rewrite (proj2 (at_Ret _ _ _) Hx), (nth_lookup_Some _ _ _ _ Hx). cbn [mbind outcome_bind].
    destruct (count_token c' (gram_before inp size k) x); cbn [mbind outcome_bind]; [apply IH; lia|done..]. }
  destruct (decide (i_start <= length inp)%nat); [apply H; lia|]. replace (length inp - i_start)%nat with 0%nat by lia. done.
Qed.

Lemma update_events c ngram_min ngram_max inp nnew : common_ngram_cache_update c ngram_min ngram_max inp nnew = count_events c (events ngram_min ngram_max inp nnew).
Proof.
  unfold common_ngram_cache_update, events. generalize (seq ngram_min (S ngram_max - ngram_min)) as sizes. intros sizes. revert c.
  induction sizes as [|size sizes IH]; intros c; [done|]. cbn [foldM flat_map]. unfold count_events in *. rewrite update_size_events. unfold count_events. rewrite foldM_app.
  destruct (foldM _ c (events_of inp nnew size)); cbn [mbind outcome_bind]; [apply IH|done..].
Qed.

Definition times (e : common_ngram * Z) (es : list (common_ngram * Z)) : Z := Z.of_nat (length (filter (fun x => x = e) es)).

Lemma times_app e es es' : times e (es ++ es') = times e es + times e es'.
Proof. unfold times. rewrite filter_app, length_app. lia. Qed.

Lemma times_perm e es es' : es ≡ₚ es' -> times e es = times e es'.
Proof. unfold times. by intros ->. Qed.

Lemma times_cons e x es : times e (x :: es) = (if decide (x = e) then 1 else 0) + times e es.
Proof. unfold times. rewrite filter_cons. destruct (decide (x = e)); cbn [length]; lia. Qed.

Lemma count_events_ok es : forall c, cache_ok c -> (forall g t, total c g t + times (g, t) es < 2 ^ 31) ->
  exists c', count_events c es = Ret c' /\ cache_ok c' /\ forall g t, total c' g t = total c g t + times (g, t) es.
Proof.
  induction es as [|[g t] es IH]; intros c Hc Hb; [exists c; split_and!; [done|done|intros; unfold times; cbn; lia]|].
  destruct (count_token_ok c g t Hc) as (c1 & E1 & H1 & T1). { specialize (Hb g t). rewrite times_cons, decide_True in Hb by done. unfold times in Hb. lia. }
  assert (T1' : forall g' t', total c1 g' t' = total c g' t' + (if decide ((g, t) = (g', t')) then 1 else 0)) by (intros g' t'; rewrite T1; f_equal; destruct (decide (g' = g /\ t' = t)), (decide ((g, t) = (g', t'))); naive_solver).
  destruct (IH c1 H1) as (c2 & E2 & H2 & T2). { intros g' t'. specialize (Hb g' t'). rewrite times_cons in Hb. rewrite T1'. lia. }
  exists c2. split; [|split; [done|]]; [|intros g' t'; rewrite T2, T1', times_cons; lia]. unfold count_events in *. cbn [foldM]. rewrite E1. exact E2.
Qed.

(** ** A text that grows *)

Lemma gram_before_app inp ch size i : (i <= length inp)%nat -> (size <= i)%nat -> gram_before (inp ++ ch) size i = gram_before inp size i.
Proof. intros Hi Hs. unfold gram_before. rewrite drop_app_le by lia. rewrite take_app_le; [done|]. rewrite length_drop. lia. Qed.

Definition all_of inp : Z := Z.of_nat (length inp).

Lemma events_of_grow inp ch size : events_of inp (all_of inp) size ++ events_of (inp ++ ch) (all_of ch) size = events_of (inp ++ ch) (all_of (inp ++ ch)) size.
Proof.
  unfold events_of, all_of. rewrite length_app. replace (Z.max (Z.of_nat (length inp) - Z.of_nat (length inp)) (Z.of_nat size)) with (Z.of_nat size) by lia.
  replace (Z.max (Z.of_nat (length inp + length ch) - Z.of_nat (length ch)) (Z.of_nat size)) with (Z.of_nat (length inp `max` size)) by lia.
  replace (Z.max (Z.of_nat (length inp + length ch) - Z.of_nat (length inp + length ch)) (Z.of_nat size)) with (Z.of_nat size) by lia. rewrite !Nat2Z.id.
  set (f := fun i => (gram_before (inp ++ ch) size i, nth i (inp ++ ch) 0)).
  assert (E : map (fun i => (gram_before inp size i, nth i inp 0)) (seq size (length inp - size)) = map f (seq size (length inp - size))).
  { apply map_ext_in. intros i Hi. apply in_seq in Hi. unfold f. rewrite gram_before_app by lia. by rewrite app_nth1 by lia. }
  rewrite E, <- map_app. f_equal. destruct (decide (size <= length inp)%nat) as [Hs|Hs].
  - rewrite Nat.max_l by lia. replace (length inp + length ch - size)%nat with ((length inp - size) + (length inp + length ch - length inp))%nat by lia. rewrite seq_app. do 2 f_equal. lia.
  - replace (length inp - size)%nat with 0%nat by lia. rewrite Nat.max_r by lia. done.
Qed.

Lemma flat_map_app_perm {A B} (f g : A -> list B) (l : list A) : flat_map (fun x => f x ++ g x) l ≡ₚ flat_map f l ++ flat_map g l.
Proof. induction l as [|x l IH]; [done|]. cbn. rewrite IH, <- !app_assoc. apply Permutation_app_head. rewrite !app_assoc. apply Permutation_app_tail. apply Permutation_app_comm. Qed.

Lemma events_grow ngram_min ngram_max inp ch :
  events ngram_min ngram_max inp (all_of inp) ++ events ngram_min ngram_max (inp ++ ch) (all_of ch) ≡ₚ events ngram_min ngram_max (inp ++ ch) (all_of (inp ++ ch)).
Proof.
  unfold events. rewrite <- flat_map_app_perm. erewrite flat_map_ext; [done|]. intros size. apply events_of_grow.
Qed.

Lemma times_map (P : nat -> Prop) `{forall i, Decision (P i)} (f : nat -> common_ngram * Z) e l : (forall i, i ∈ l -> P i <-> f i = e) -> times e (map f l) = Z.of_nat (length (filter P l)).
Proof.
  intros H1. unfold times. f_equal. induction l as [|i l IH]; [done|]. cbn [map]. rewrite !filter_cons. specialize (IH ltac:(intros j Hj; apply H1; set_solver)). specialize (H1 i ltac:(set_solver)).
  destruct (decide (f i = e)), (decide (P i)); cbn [length]; try tauto; lia.
Qed.

Lemma filter_none {A} (P : A -> Prop) `{forall x, Decision (P x)} (l : list A) : (forall x, x ∈ l -> ~ P x) -> filter P l = [].
Proof. intros Hn. induction l as [|x l IH]; [done|]. rewrite filter_cons_False by (apply Hn; set_solver). apply IH. set_solver. Qed.

Lemma filter_ge (P : nat -> Prop) `{forall i, Decision (P i)} size n : (forall i, P i -> (size <= i)%nat) -> length (filter P (seq 0 n)) = length (filter P (seq size (n - size))).
Proof.
  intros HP. destruct (decide (size <= n)%nat) as [Hs|Hs].
  - replace n with (size + (n - size))%nat at 1 by lia. rewrite seq_app, filter_app, length_app. cbn [Nat.add]. rewrite (filter_none P (seq 0 size)); [done|].
    intros i Hi Hp. apply elem_of_seq in Hi. specialize (HP i Hp). lia.
  - replace (n - size)%nat with 0%nat by lia. cbn [seq]. rewrite filter_none; [done|]. intros i Hi Hp. apply elem_of_seq in Hi. specialize (HP i Hp). lia.
Qed.

(** An update with a whole text counts what follows its n-grams. *)
Lemma times_occurrences ngram_min ngram_max inp g t : times (g, t) (events ngram_min ngram_max inp (all_of inp)) = occurrences ngram_min ngram_max inp g t.
Proof.
  unfold events, occurrences. generalize (seq ngram_min (S ngram_max - ngram_min)) as sizes. intros sizes. induction sizes as [|size sizes IH]; [done|]. cbn [flat_map mbind list_bind].
  rewrite times_app, IH, filter_app, length_app, Nat2Z.inj_add. f_equal. clear IH. set (P := fun i => (size <= i)%nat /\ gram_before inp size i = g /\ inp !! i = Some t).
  assert (E : length (filter (fun '(size, i) => (size <= i)%nat /\ gram_before inp size i = g /\ inp !! i = Some t) (i ← seq 0 (length inp); [(size, i)])) = length (filter P (seq 0 (length inp)))).
  { generalize (seq 0 (length inp)) as l. induction l as [|i l IHl]; [done|]. cbn [mbind list_bind app]. rewrite !filter_cons. case_decide as H1; case_decide as H2; cbn [length]; unfold P in H2; by rewrite ?IHl. }
  rewrite E, (filter_ge P size) by (by intros i [Hi _]). unfold events_of, all_of. replace (Z.max (Z.of_nat (length inp) - Z.of_nat (length inp)) (Z.of_nat size)) with (Z.of_nat size) by lia. rewrite Nat2Z.id.
  apply times_map. intros i Hi. apply elem_of_seq in Hi. unfold P. destruct (lookup_lt_is_Some_2 inp i) as [x Hx]; [lia|]. rewrite Hx, (nth_lookup_Some _ _ _ _ Hx). split; [intros (_ & -> & [= ->]); done|intros [= -> ->]; by split_and!; [lia|..]].
Qed.

(** ** Merging *)

Section Merging.
Context `{Iteration}.

Definition part_total (l : list (Z * Z)) t : Z := default 0 (list_to_map (M := gmap Z Z) l !! t).

Lemma part_total_cons t k l t' : part_total ((t, k) :: l) t' = if decide (t' = t) then k else part_total l t'.
Proof. unfold part_total. cbn. destruct (decide (t' = t)) as [->|Ht]; [by rewrite lookup_insert_eq|by rewrite lookup_insert_ne]. Qed.

Lemma part_total_none l t : t ∉ l.*1 -> part_total l t = 0.
Proof. intros Hn. unfold part_total. by rewrite not_elem_of_list_to_map_1. Qed.

Lemma merge_counts_ok g l : forall c, cache_ok c -> is_Some (c !! g) -> NoDup l.*1 -> (forall t k, (t, k) ∈ l -> 0 < k) -> (forall t, total c g t + part_total l t < 2 ^ 31) ->
  exists c', foldM (merge_count g) c l = Ret c' /\ cache_ok c' /\ forall g' t', total c' g' t' = total c g' t' + (if decide (g' = g) then part_total l t' else 0).
Proof.
  induction l as [|[t k] l IH]; intros c Hc [p Eg] Hd Hk Hb.
  - exists c. split_and!; [done|done|]. intros g' t'. rewrite part_total_none by (cbn; set_solver). destruct (decide (g' = g)); lia.
  - cbn in Hd. apply NoDup_cons in Hd as [Hni Hd]. assert (Hk0 : 0 < k) by (apply (Hk t k); set_solver).
    destruct (add_count c g p t k Hc Eg Hk0) as (c1 & E1 & H1 & S1 & T1). { specialize (Hb t). by rewrite part_total_cons, decide_True in Hb. }
    destruct (IH c1 H1 S1 Hd) as (c2 & E2 & H2 & T2). { intros t' k' Ht. apply (Hk t' k'). set_solver. }
    { intros t'. specialize (Hb t'). rewrite part_total_cons in Hb. rewrite T1. destruct (decide (t' = t)) as [->|Ht].
      - rewrite decide_True, part_total_none by done. lia.
      - rewrite decide_False by naive_solver. lia. }
    exists c2. cbn [foldM merge_count]. rewrite (proj2 (Z.ltb_lt _ _)) by done. cbn [c_assert mbind outcome_bind]. rewrite Eg.
    split; [by rewrite E1|]. split; [done|]. intros g' t'. rewrite T2, T1. destruct (decide (g' = g)) as [->|Hg]; [|rewrite decide_False by naive_solver; lia].
    rewrite part_total_cons. destruct (decide (t' = t)) as [->|Ht]; [rewrite decide_True, part_total_none by done; lia|]. rewrite decide_False by naive_solver. lia.
Qed.

Lemma part_total_iter p t : part_total (iter_part p) t = default 0 (p !! t).
Proof. unfold part_total. f_equal. f_equal. rewrite <- (list_to_map_to_list p) at 2. apply list_to_map_proper; [|apply iter_part_perm]. rewrite iter_part_perm. apply NoDup_fst_map_to_list. Qed.

Lemma iter_part_elem p t k : (t, k) ∈ iter_part p <-> p !! t = Some k.
Proof. by rewrite iter_part_perm, elem_of_map_to_list. Qed.

Lemma merge_part_ok c g p : cache_ok c -> part_ok p -> (forall t, total c g t + default 0 (p !! t) < 2 ^ 31) ->
  exists c', merge_part c (g, p) = Ret c' /\ cache_ok c' /\ forall g' t', total c' g' t' = total c g' t' + (if decide (g' = g) then default 0 (p !! t') else 0).
Proof.
  intros Hc Hp Hb. cbn [merge_part]. destruct (c !! g) as [p0|] eqn:Eg.
  - destruct (merge_counts_ok g (iter_part p) c Hc) as (c' & E & Hc' & T); [by rewrite Eg|rewrite iter_part_perm; apply NoDup_fst_map_to_list| | |].
    + intros t k Ht. apply iter_part_elem in Ht. by destruct (proj2 Hp t k Ht).
    + intros t. by rewrite part_total_iter.
    + exists c'. split_and!; [done|done|]. intros g' t'. rewrite T. by rewrite part_total_iter.
  - eexists. split; [reflexivity|]. split; [by apply cache_ok_insert|]. intros g' t'. rewrite total_insert. destruct (decide (g' = g)) as [->|]; [|lia]. unfold total. by rewrite Eg.
Qed.

Definition list_total (l : list (common_ngram * common_ngram_cache_part)) g t : Z := default 0 (list_to_map (M := gmap (list Z) (gmap Z Z)) l !! g ≫= fun p => p !! t).

Lemma list_total_cons g p l g' t : list_total ((g, p) :: l) g' t = if decide (g' = g) then default 0 (p !! t) else list_total l g' t.
Proof. unfold list_total. cbn. destruct (decide (g' = g)) as [->|Hg]; [by rewrite lookup_insert_eq|by rewrite lookup_insert_ne]. Qed.

Lemma list_total_none l g t : g ∉ l.*1 -> list_total l g t = 0.
Proof. intros Hn. unfold list_total. by rewrite not_elem_of_list_to_map_1. Qed.

Lemma merge_parts_ok l : forall c, cache_ok c -> NoDup l.*1 -> (forall g p, (g, p) ∈ l -> part_ok p) -> (forall g t, total c g t + list_total l g t < 2 ^ 31) ->
  exists c', foldM merge_part c l = Ret c' /\ cache_ok c' /\ forall g t, total c' g t = total c g t + list_total l g t.
Proof.
  induction l as [|[g p] l IH]; intros c Hc Hd Hl Hb.
  - exists c. split_and!; [done|done|]. intros g t. rewrite list_total_none by (cbn; set_solver). lia.
  - cbn in Hd. apply NoDup_cons in Hd as [Hni Hd]. destruct (merge_part_ok c g p Hc) as (c1 & E1 & H1 & T1); [by apply (Hl g p); set_solver|intros t; specialize (Hb g t); by rewrite list_total_cons, decide_True in Hb|].
    assert (T : forall g' t', total c1 g' t' + list_total l g' t' = total c g' t' + list_total ((g, p) :: l) g' t').
    { intros g' t'. rewrite T1, list_total_cons. destruct (decide (g' = g)) as [->|]; [rewrite list_total_none by done|]; lia. }
    destruct (IH c1 H1 Hd) as (c2 & E2 & H2 & T2); [intros g' p' Hgp; apply (Hl g' p'); set_solver|intros g' t'; by rewrite T|].
    exists c2. cbn [foldM]. rewrite E1. cbn [mbind outcome_bind]. split_and!; [done|done|]. intros g' t'. by rewrite T2, T.
Qed.

Lemma iter_cache_elem c g p : (g, p) ∈ iter_cache c <-> c !! g = Some p.
Proof. by rewrite iter_cache_perm, elem_of_map_to_list. Qed.

Lemma iter_cache_NoDup c : NoDup (iter_cache c).*1.
Proof. rewrite iter_cache_perm. apply NoDup_fst_map_to_list. Qed.

Lemma iter_cache_map c : list_to_map (iter_cache c) = c.
Proof. rewrite <- (list_to_map_to_list c) at 2. apply list_to_map_proper; [apply iter_cache_NoDup|apply iter_cache_perm]. Qed.

(** Merging adds the counts, in whatever order the map is visited. *)
Lemma merge_ok c1 c2 : cache_ok c1 -> cache_ok c2 -> (forall g t, total c1 g t + total c2 g t < 2 ^ 31) ->
  exists c, common_ngram_cache_merge c1 c2 = Ret c /\ cache_ok c /\ forall g t, total c g t = total c1 g t + total c2 g t.
Proof.
  intros H1 H2 Hb. assert (E : forall g t, list_total (iter_cache c2) g t = total c2 g t) by (intros g t; unfold list_total, total; by rewrite iter_cache_map).
  destruct (merge_parts_ok (iter_cache c2) c1 H1 (iter_cache_NoDup c2)) as (c & Ec & Hc & T).
  - intros g p Hgp. apply iter_cache_elem in Hgp. by apply (H2 g p).
  - intros g t. by rewrite E.
  - exists c. split_and!; [done|done|]. intros g t. by rewrite T, E.
Qed.

End Merging.

(** ** Saving and loading *)

Definition is_int (z : Z) : Prop := - 2 ^ 31 <= z < 2 ^ 31.

(** A cache of n-grams and tokens of type [int]. *)
Record saveable c : Prop := {
  sv_ok : cache_ok c;
  sv_ngram : forall g p, c !! g = Some p -> length g = LLAMA_NGRAM_MAX /\ Forall is_int g;
  sv_size : forall g p, c !! g = Some p -> Z.of_nat (size p) < 2 ^ 31;
  sv_tokens : forall g p t k, c !! g = Some p -> p !! t = Some k -> is_int t;
}.

Lemma read_int_ok z rest : is_int z -> read_int (Io.le_bytes 4 z ++ rest) = Ret (z, rest).
Proof. intros Hz. unfold read_int. by rewrite read_i32_ok. Qed.

Lemma i32_le z : is_int z -> i32 (Io.le_value (Io.le_bytes 4 z)) = z.
Proof.
  intros Hz. pose proof (read_i32_ok z [] Hz) as E. unfold Io.read_i32 in E. rewrite read_bytes in E. cbn [mbind outcome_bind] in E. by injection E.
Qed.

Lemma read_ngram_ok g rest : length g = LLAMA_NGRAM_MAX -> Forall is_int g -> read_ngram (flat_map (Io.le_bytes 4) g ++ rest) = Ret (g, rest).
Proof.
  intros Hl Hg. destruct g as [|a [|b [|d [|e [|? ?]]]]]; try done. unfold read_ngram. cbn [flat_map]. rewrite app_nil_r.
  set (bs := Io.le_bytes 4 a ++ Io.le_bytes 4 b ++ Io.le_bytes 4 d ++ Io.le_bytes 4 e). change (4 * LLAMA_NGRAM_MAX)%nat with (length bs). rewrite read_app. cbn [mbind outcome_bind]. f_equal. f_equal.
  cbn [seq map LLAMA_NGRAM_MAX]. change (take 4 (drop (4 * 0) bs)) with (Io.le_bytes 4 a). change (take 4 (drop (4 * 1) bs)) with (Io.le_bytes 4 b).
  change (take 4 (drop (4 * 2) bs)) with (Io.le_bytes 4 d). change (take 4 (drop (4 * 3) bs)) with (Io.le_bytes 4 e). repeat (apply Forall_cons in Hg as [? Hg]). by rewrite !i32_le.
Qed.

Lemma foldl_emplace `{Countable K} {V} (l : list (K * V)) : forall acc, NoDup l.*1 -> (forall k, k ∈ l.*1 -> acc !! k = None) ->
  forall k, foldl (fun m '(k, v) => emplace m k v) acc l !! k = match list_to_map (M := gmap K V) l !! k with Some v => Some v | None => acc !! k end.
Proof.
  induction l as [|[k0 v0] l IH]; intros acc Hd Hn k; [cbn [foldl list_to_map foldr]; by rewrite lookup_empty|]. cbn in Hd. apply NoDup_cons in Hd as [Hni Hd].
  cbn [foldl]. unfold emplace at 2. rewrite (Hn k0) by (cbn; set_solver). rewrite IH; [|done|].
  - cbn [list_to_map foldr fst snd uncurry]. destruct (decide (k = k0)) as [->|Hk].
    + rewrite lookup_insert_eq, (not_elem_of_list_to_map_1 (M := gmap K) l k0 Hni). by rewrite lookup_insert_eq.
    + rewrite !(lookup_insert_ne _ k0 k) by done. done.
  - intros k' Hk'. rewrite lookup_insert_ne by congruence. apply Hn. cbn. set_solver.
Qed.

Section Saving.
Context `{Iteration}.

Definition counts_bytes (l : list (Z * Z)) : list Z := flat_map (fun '(t, k) => Io.le_bytes 4 t ++ Io.le_bytes 4 k) l.
Definition item_bytes (item : common_ngram * common_ngram_cache_part) : list Z :=
  flat_map (Io.le_bytes 4) item.1 ++ Io.le_bytes 4 (Z.of_nat (size item.2)) ++ counts_bytes (iter_part item.2).

Lemma save_item_bytes out g p : part_ok p -> Z.of_nat (size p) < 2 ^ 31 -> save_item out (g, p) = Ret (out ++ item_bytes (g, p)).
Proof.
  intros [Hne Hk] Hs. unfold save_item, item_bytes. rewrite bool_decide_eq_false_2 by done. cbn [negb c_assert mbind outcome_bind fst snd].
  assert (Hp : (0 < size p)%nat) by (apply Nat.neq_0_lt_0; by rewrite map_size_non_empty_iff). rewrite i32_small by lia. rewrite (proj2 (Z.ltb_lt _ _)) by lia. cbn [c_assert mbind outcome_bind].
  assert (Hg : forall o, foldl (fun out t => Io.write out (Io.le_bytes 4 t)) o g = o ++ flat_map (Io.le_bytes 4) g).
  { induction g as [|t g IH]; intros o; cbn [foldl flat_map]; [by rewrite app_nil_r|]. rewrite IH. unfold Io.write. by rewrite app_assoc. }
  rewrite Hg. unfold Io.write. rewrite !app_assoc. rewrite <- (app_assoc out). generalize (out ++ flat_map (Io.le_bytes 4) g ++ Io.le_bytes 4 (Z.of_nat (size p))) as o. intros o.
  assert (Hl : forall t k, (t, k) ∈ iter_part p -> 0 < k) by (intros t k Ht; apply iter_part_elem in Ht; by destruct (Hk t k Ht)).
  revert o Hl. induction (iter_part p) as [|[t k] l IH]; intros o Hl; cbn [foldM counts_bytes flat_map]; [by rewrite app_nil_r|].
  rewrite (proj2 (Z.ltb_lt _ _)) by (apply (Hl t k); set_solver). cbn [c_assert mbind outcome_bind]. rewrite IH by (intros t0 k0 H0; apply (Hl t0 k0); by right). by rewrite <- !app_assoc.
Qed.

Lemma load_counts_ok l : forall acc rest, (forall t k, (t, k) ∈ l -> is_int t /\ 0 < k < 2 ^ 31) ->
  load_counts (length l) acc (counts_bytes l ++ rest) = Ret (foldl (fun m '(t, k) => emplace m t k) acc l, rest).
Proof.
  induction l as [|[t k] l IH]; intros acc rest Hl; [done|]. cbn [length load_counts counts_bytes flat_map foldl]. destruct (Hl t k) as [Ht Hk]; [set_solver|]. rewrite <- !app_assoc.
  rewrite read_int_ok by done. cbn [mbind outcome_bind]. rewrite read_int_ok by (unfold is_int; lia). cbn [mbind outcome_bind]. rewrite (proj2 (Z.ltb_lt _ _)) by lia. cbn [c_assert mbind outcome_bind].
  apply IH. intros t' k' Ht'. apply Hl. set_solver.
Qed.

Lemma iter_part_load p : foldl (fun m '(t, k) => emplace m t k) ∅ (iter_part p) = p.
Proof.
  assert (Hd : NoDup (iter_part p).*1) by (rewrite iter_part_perm; apply NoDup_fst_map_to_list). apply map_eq. intros t.
  rewrite foldl_emplace by (done || (intros; apply lookup_empty)). rewrite lookup_empty. replace (list_to_map (iter_part p) : gmap Z Z) with p; [by destruct (p !! t)|].
  rewrite <- (list_to_map_to_list p) at 1. symmetry. apply list_to_map_proper; [done|apply iter_part_perm].
Qed.

Lemma load_items_ok l : forall fuel c, (length l <= fuel)%nat -> (forall g p, (g, p) ∈ l -> part_ok p /\ length g = LLAMA_NGRAM_MAX /\ Forall is_int g /\ Z.of_nat (size p) < 2 ^ 31 /\ forall t k, p !! t = Some k -> is_int t) ->
  load_loop fuel c (flat_map item_bytes l) = Ret (foldl (fun m '(g, p) => emplace m g p) c l).
Proof.
  induction l as [|[g p] l IH]; intros fuel c Hf Hl; [by destruct fuel|]. destruct fuel as [|fuel]; [cbn in Hf; lia|]. destruct (Hl g p) as (Hp & Hg & Hi & Hs & Ht); [set_solver|].
  cbn [flat_map load_loop foldl]. unfold item_bytes at 1. cbn [fst snd]. rewrite <- !app_assoc. rewrite read_ngram_ok by done. rewrite read_int_ok by (unfold is_int; lia). cbn [mbind outcome_bind].
  assert (Hn : (0 < size p)%nat) by (apply Nat.neq_0_lt_0; rewrite map_size_non_empty_iff; apply Hp). rewrite (proj2 (Z.ltb_lt _ _)) by lia. cbn [c_assert mbind outcome_bind]. rewrite Nat2Z.id.
  assert (Hlen : length (iter_part p) = size p) by (rewrite iter_part_perm; apply length_map_to_list). rewrite <- Hlen, load_counts_ok.
  - cbn [mbind outcome_bind]. rewrite iter_part_load. apply IH; [cbn in Hf; lia|]. intros g' p' Hgp. apply Hl. set_solver.
  - intros t k Htk. apply iter_part_elem in Htk. split; [by apply (Ht t k)|by apply (proj2 Hp t k)].
Qed.

Lemma save_cache c : saveable c -> common_ngram_cache_save c = Ret (flat_map item_bytes (iter_cache c)).
Proof.
  intros Hc. unfold common_ngram_cache_save. assert (Hl : forall g p, (g, p) ∈ iter_cache c -> part_ok p /\ Z.of_nat (size p) < 2 ^ 31).
  { intros g p Hgp. apply iter_cache_elem in Hgp. split; [by apply (sv_ok c Hc g)|by apply (sv_size c Hc g)]. }
  assert (H1 : forall l out, (forall g p, (g, p) ∈ l -> part_ok p /\ Z.of_nat (size p) < 2 ^ 31) -> foldM save_item out l = Ret (out ++ flat_map item_bytes l)).
  { induction l as [|[g p] l IH]; intros out Hg; cbn [foldM flat_map]; [by rewrite app_nil_r|]. destruct (Hg g p) as [H1 H2]; [set_solver|]. rewrite save_item_bytes by done.
    cbn [mbind outcome_bind]. rewrite IH by (intros; apply (Hg g0); set_solver). by rewrite <- app_assoc. }
  by rewrite (H1 _ _ Hl).
Qed.

Lemma length_items l : (length l <= length (flat_map item_bytes l))%nat.
Proof. induction l as [|[g p] l IH]; [done|]. cbn [flat_map length]. unfold item_bytes at 1. rewrite !length_app, length_le_bytes. lia. Qed.

Lemma save_load c : saveable c -> exists bs, common_ngram_cache_save c = Ret bs /\ common_ngram_cache_load (Some bs) = Ret c.
Proof.
  intros Hc. eexists. split; [by apply save_cache|]. cbn [common_ngram_cache_load]. rewrite load_items_ok.
  - f_equal. apply map_eq. intros g. rewrite foldl_emplace by (apply iter_cache_NoDup || (intros; apply lookup_empty)). rewrite iter_cache_map, lookup_empty. by destruct (c !! g).
  - apply length_items.
  - intros g p Hgp. apply iter_cache_elem in Hgp. destruct (sv_ngram c Hc g p Hgp). split_and!; [by apply (sv_ok c Hc g)|done|done|by apply (sv_size c Hc g)|intros t k; by apply (sv_tokens c Hc g)].
Qed.

End Saving.

(** Loading never reads outside of the file, and ends. *)
Lemma load_counts_total n : forall acc inp, (exists r, load_counts n acc inp = Ret r /\ (length r.2 <= length inp)%nat) \/ exists m, load_counts n acc inp = Fatal m.
Proof.
  assert (Hr : forall inp, (exists r, read_int inp = Ret r /\ (length r.2 <= length inp)%nat) \/ exists m, read_int inp = Fatal m).
  { intros inp. unfold read_int, Io.read_i32, Io.read. destruct (length inp <? 4)%nat; cbn [mbind outcome_bind]; [right; eauto|]. left. eexists. split; [done|]. cbn [snd]. rewrite length_drop. lia. }
  induction n as [|n IH]; intros acc inp; [left; by exists (acc, inp)|]. cbn [load_counts]. destruct (Hr inp) as [([t r1] & -> & L1)|[m ->]]; [|right; by exists m]. cbn [mbind outcome_bind].
  destruct (Hr r1) as [([k r2] & -> & L2)|[m ->]]; [|right; by exists m]. cbn [mbind outcome_bind snd] in *. destruct (0 <? k); cbn [c_assert mbind outcome_bind]; [|right; eauto].
  destruct (IH (emplace acc t k) r2) as [(r & -> & L)|[m ->]]; [left; exists r; split; [done|lia]|right; by exists m].
Qed.

Lemma load_total inp : (exists c, common_ngram_cache_load (Some inp) = Ret c) \/ exists m, common_ngram_cache_load (Some inp) = Fatal m.
Proof.
  cbn [common_ngram_cache_load]. assert (H : forall fuel inp c, (length inp <= fuel)%nat -> (exists r, load_loop fuel c inp = Ret r) \/ exists m, load_loop fuel c inp = Fatal m); [|by apply H].
  clear inp. induction fuel as [|fuel IH]; intros inp c Hf.
  - destruct inp; [|cbn in Hf; lia]. left. eexists. reflexivity.
  - cbn [load_loop]. unfold read_ngram, Io.read. destruct (length inp <? 4 * LLAMA_NGRAM_MAX)%nat eqn:E; cbn [mbind outcome_bind]; [left; eauto|]. apply Nat.ltb_ge in E.
    unfold read_int, Io.read_i32, Io.read. destruct (length (drop (4 * LLAMA_NGRAM_MAX) inp) <? 4)%nat; cbn [mbind outcome_bind]; [right; eauto|].
    set (rest := drop 4 (drop (4 * LLAMA_NGRAM_MAX) inp)). assert (Hl : (length rest < length inp)%nat) by (unfold rest; rewrite !length_drop; unfold LLAMA_NGRAM_MAX in *; lia).
    destruct (0 <? i32 _); cbn [c_assert mbind outcome_bind]; [|right; eauto].
    match goal with |- context [load_counts ?n ?a rest] => destruct (load_counts_total n a rest) as [([p r] & -> & L)|[m ->]] end; cbn [mbind outcome_bind snd] in *; [|right; eauto].
    apply IH. lia.
Qed.
