(* ===== verification/NgramDraft.v ===== *)
(** * Drafting from n-gram caches: every drafted token is the suggestion of the first
    rule that has one. *)

From S2P Require Import Prelude KvCells Batch KvCache KvState KvStateFacts Vocabulary NgramCache NgramCacheFacts.
From Stdlib Require Import Lia.

Implicit Types (c : common_ngram_cache) (p ps : common_ngram_cache_part) (g : common_ngram) (t k d : Z) (inp draft h : list Z).

(** ** The rules

    A rule looks an n-gram up in a cache.  Of the tokens that followed it, the best
    one, weighted with what the static cache says of it, is suggested when the
    n-gram was seen often enough and the token makes up a large enough part. *)

Record rule := mk_rule { rl_cache : common_ngram_cache; rl_ngram : common_ngram; rl_static : common_ngram_cache_part; rl_size : Z; rl_percent : Z }.

Definition sum_list (l : list (Z * Z)) : Z := foldr Z.add 0 l.*2.
Definition sum_counts p : Z := sum_list (map_to_list p).
Definition weight ps t : Z := match ps !! t with Some count => 100 * count | None => 1 end.

(** [t] is a best token of a part. *)
Definition best ps p t k : Prop := p !! t = Some k /\ forall t' k', p !! t' = Some k' -> k' * weight ps t' <= k * weight ps t.
Definition passes (size percent : Z) p k : Prop := size <= sum_counts p /\ percent * sum_counts p <= 100 * k.

Definition suggests (r : rule) t : Prop := exists p k, rl_cache r !! rl_ngram r = Some p /\ best (rl_static r) p t k /\ passes (rl_size r) (rl_percent r) p k.
Definition declines (r : rule) : Prop := rl_cache r !! rl_ngram r = None
  \/ exists p t k, rl_cache r !! rl_ngram r = Some p /\ best (rl_static r) p t k /\ ~ passes (rl_size r) (rl_percent r) p k.

(** The suggestion of the first rule that has one. *)
Fixpoint first_suggestion (rs : list rule) d : Prop :=
  match rs with
  | [] => d = LLAMA_TOKEN_NULL
  | r :: rs => (d <> LLAMA_TOKEN_NULL /\ suggests r d) \/ (declines r /\ first_suggestion rs d)
  end.

(** The n-gram of the last tokens. *)
Definition last_gram (size : nat) h : common_ngram := pad (drop (length h - size) h).

(** The rules of a cache, for the longest n-gram first; the thresholds go by the
    index of the n-gram's size. *)
Definition cache_rules c ps (sizes percents : list Z) (ngram_min ngram_max : nat) h : list rule :=
  rev (map (fun i => mk_rule c (last_gram (ngram_min + i) h) ps (nth i sizes 0) (nth i percents 0)) (seq 0 (S ngram_max - ngram_min))).

Definition rules (nc_context nc_dynamic nc_static : common_ngram_cache) (ngram_min ngram_max : nat) h : list rule :=
  let g := last_gram LLAMA_NGRAM_STATIC h in
  let ps := default ∅ (nc_static !! g) in
  cache_rules nc_context ps draft_min_sample_size_lax draft_min_percent_lax ngram_min ngram_max h
  ++ cache_rules nc_dynamic ps draft_min_sample_size_strict draft_min_percent_strict ngram_min ngram_max h
  ++ [mk_rule nc_static g ∅ 2 50].

(** ** Bounds

    Tokens are not negative, and the counts are so small that the code's products
    fit into an [int]. *)

Record calm c : Prop := {
  cm_ok : cache_ok c;
  cm_tokens : forall g p t, c !! g = Some p -> is_Some (p !! t) -> 0 <= t;
  cm_sums : forall g p, c !! g = Some p -> 100 * sum_counts p < 2 ^ 31;
}.
Definition calm_products c (nc_static : common_ngram_cache) : Prop :=
  forall g p g' ps t k s, c !! g = Some p -> nc_static !! g' = Some ps -> p !! t = Some k -> ps !! t = Some s -> k * (100 * s) < 2 ^ 31.

Lemma sum_list_perm l l' : l ≡ₚ l' -> sum_list l = sum_list l'.
Proof. unfold sum_list. induction 1 as [|x l l' _ IH|x y l|l1 l2 l3 _ IH1 _ IH2]; cbn in *; lia. Qed.

Lemma sum_list_app l l' : sum_list (l ++ l') = sum_list l + sum_list l'.
Proof. unfold sum_list. rewrite fmap_app, foldr_app. induction l as [|x l IH]; cbn; [done|]. rewrite IH. lia. Qed.

Definition positive (l : list (Z * Z)) : Prop := forall t k, (t, k) ∈ l -> 0 < k.

Lemma positive_app l l' : positive (l ++ l') <-> positive l /\ positive l'.
Proof. unfold positive. split; [intros H; split; intros t k Ht; apply (H t k); set_solver|intros [H1 H2] t k Ht; apply elem_of_app in Ht as [Ht|Ht]; [by apply (H1 t)|by apply (H2 t)]]. Qed.

Lemma sum_list_nonneg l : positive l -> 0 <= sum_list l.
Proof.
  unfold sum_list. induction l as [|[t k] l IH]; intros H; [done|]. cbn. pose proof (H t k ltac:(set_solver)). apply (positive_app [(t, k)] l) in H as [_ H]. specialize (IH H). lia.
Qed.

Lemma sum_list_bound l t k : positive l -> (t, k) ∈ l -> k <= sum_list l.
Proof.
  intros Hl Ht. apply list_elem_of_split in Ht as (l1 & l2 & ->). rewrite cons_middle in Hl |- *. apply positive_app in Hl as [H1 Hl]. apply positive_app in Hl as [_ H2].
  rewrite !sum_list_app. pose proof (sum_list_nonneg _ H1). pose proof (sum_list_nonneg _ H2). unfold sum_list at 2. cbn. lia.
Qed.

Section Rules.
Context {It : Iteration}.

Lemma sum_iter p : sum_list (iter_part p) = sum_counts p.
Proof. apply sum_list_perm, iter_part_perm. Qed.

(** *** The best token of a part *)

(** The entries of a part are such that nothing overflows. *)
Definition small ps (l : list (Z * Z)) : Prop := 100 * sum_list l < 2 ^ 31 /\ forall t k, (t, k) ∈ l -> 0 < k /\ 0 < weight ps t < 2 ^ 31 /\ k * weight ps t < 2 ^ 31.

(** What the loop knows of the entries it has seen. *)
Definition top ps (l : list (Z * Z)) (mt mc ms : Z) : Prop :=
  (l = [] /\ mt = LLAMA_TOKEN_NULL /\ mc = 0 /\ ms = 0) \/ ((mt, mc) ∈ l /\ ms = weight ps mt /\ forall t k, (t, k) ∈ l -> k * weight ps t <= mc * ms).

Lemma small_positive ps l : small ps l -> positive l.
Proof. intros [_ H] t k Ht. by destruct (H t k Ht). Qed.

Lemma small_prefix ps l l' : small ps (l ++ l') -> small ps l.
Proof.
  intros Hs. pose proof (small_positive _ _ Hs) as Hp. apply positive_app in Hp as [_ Hp]. pose proof (sum_list_nonneg _ Hp). destruct Hs as [Hs Hk]. rewrite sum_list_app in Hs.
  split; [lia|]. intros t k Ht. apply Hk. set_solver.
Qed.

Lemma count_static_Ret ps t : 0 < weight ps t < 2 ^ 31 -> count_static ps t = Ret (weight ps t).
Proof. unfold count_static, weight. destruct (ps !! t); [|done]. intros Hw. apply int_Ret. lia. Qed.

Lemma top_product ps l mt mc ms : small ps l -> top ps l mt mc ms -> 0 <= mc * ms < 2 ^ 31.
Proof. intros [_ Hk] [(_ & _ & -> & ->)|(Hin & -> & _)]; [lia|]. destruct (Hk mt mc Hin). lia. Qed.

Lemma primary_step_top ps l mt mc ms t k : small ps (l ++ [(t, k)]) -> top ps l mt mc ms ->
  exists mt' mc' ms', primary_step ps (mt, mc, ms, sum_list l) (t, k) = Ret (mt', mc', ms', sum_list (l ++ [(t, k)])) /\ top ps (l ++ [(t, k)]) mt' mc' ms'.
Proof.
  intros Hs Ht. destruct (proj2 Hs t k) as (Hk & Hw & Hp); [set_solver|]. pose proof (small_prefix _ _ _ Hs) as Hsl.
  pose proof (top_product _ _ _ _ _ Hsl Ht). pose proof (sum_list_nonneg _ (small_positive _ _ Hsl)). pose proof (proj1 Hs) as Hsum. assert (E1 : sum_list (l ++ [(t, k)]) = sum_list l + k) by (rewrite sum_list_app; unfold sum_list at 2; cbn; lia). rewrite E1 in Hsum |- *.
  cbn [primary_step]. rewrite count_static_Ret by done. cbn [mbind outcome_bind]. rewrite int_Ret by lia. cbn [mbind outcome_bind]. rewrite int_Ret by lia. cbn [mbind outcome_bind]. rewrite int_Ret by lia. cbn [mbind outcome_bind].
  destruct (mc * ms <? k * weight ps t) eqn:E; bool_hyps; eexists _, _, _; (split; [reflexivity|]).
  - right. split_and!; [set_solver|done|]. intros t' k' H'. apply elem_of_app in H' as [H'|H']; [|set_solver by lia]. destruct Ht as [(-> & _)|(_ & _ & Hm)]; [by apply elem_of_nil in H'|]. specialize (Hm t' k' H'). lia.
  - destruct Ht as [(-> & -> & -> & ->)|(Hin & -> & Hm)]; [nia|]. right. split_and!; [set_solver|done|]. intros t' k' H'. apply elem_of_app in H' as [H'|H']; [by apply Hm|]. apply list_elem_of_singleton in H'. injection H' as -> ->. lia.
Qed.

Lemma primary_fold ps l : forall l0 mt mc ms, small ps (l0 ++ l) -> top ps l0 mt mc ms ->
  exists mt' mc' ms', foldM (primary_step ps) (mt, mc, ms, sum_list l0) l = Ret (mt', mc', ms', sum_list (l0 ++ l)) /\ top ps (l0 ++ l) mt' mc' ms'.
Proof.
  induction l as [|[t k] l IH]; intros l0 mt mc ms Hs Ht; [rewrite app_nil_r; by exists mt, mc, ms|]. cbn [foldM].
  rewrite cons_middle in Hs |- *. rewrite app_assoc in Hs |- *.
  destruct (primary_step_top ps l0 mt mc ms t k (small_prefix _ _ _ Hs) Ht) as (mt1 & mc1 & ms1 & -> & Ht1). cbn [mbind outcome_bind]. by apply IH.
Qed.

(** The static cache on its own: as if nothing validated it. *)
Lemma static_fold l : forall l0 mt mc ms, small ∅ (l0 ++ l) -> top ∅ l0 mt mc ms ->
  exists mt' mc' ms', foldM static_step (mt, mc, sum_list l0) l = Ret (mt', mc', sum_list (l0 ++ l)) /\ top ∅ (l0 ++ l) mt' mc' ms'.
Proof.
  induction l as [|[t k] l IH]; intros l0 mt mc ms Hs Ht; [rewrite app_nil_r; by exists mt, mc, ms|]. cbn [foldM].
  rewrite cons_middle in Hs |- *. rewrite app_assoc in Hs |- *. destruct (primary_step_top ∅ l0 mt mc ms t k (small_prefix _ _ _ Hs) Ht) as (mt1 & mc1 & ms1 & E & Ht1).
  assert (Es : static_step (mt, mc, sum_list l0) (t, k) = Ret (mt1, mc1, sum_list (l0 ++ [(t, k)]))).
  { assert (Hw : mc * ms = mc) by (destruct Ht as [(_ & _ & -> & ->)|(_ & -> & _)]; [done|]; unfold weight; rewrite lookup_empty; lia).
    pose proof (small_prefix _ _ _ Hs) as Hs1. destruct (proj2 Hs1 t k) as (Hk & Hw1 & Hp); [set_solver|]. pose proof (top_product _ _ _ _ _ (small_prefix _ _ _ Hs1) Ht) as Hp0.
    pose proof (sum_list_nonneg _ (small_positive _ _ Hs1)) as Hn. pose proof (proj1 Hs1) as Hsum.
    assert (E1 : sum_list (l0 ++ [(t, k)]) = sum_list l0 + k) by (rewrite sum_list_app; unfold sum_list at 2; cbn; lia). rewrite E1 in *.
    cbn [primary_step static_step] in *. rewrite count_static_Ret in E by done. assert (Hwt : weight ∅ t = 1) by (unfold weight; by rewrite lookup_empty). rewrite Hwt in *. rewrite Hw, Z.mul_1_r in *. cbn [mbind outcome_bind] in E.
    rewrite !int_Ret in E by lia. cbn [mbind outcome_bind] in E. rewrite int_Ret by lia. cbn [mbind outcome_bind]. rewrite (Z.mul_1_r k) in E. revert E. destruct (mc <? k); intros E; by simplify_eq. }
  rewrite Es. cbn [mbind outcome_bind]. by apply (IH _ mt1 mc1 ms1).
Qed.

(** *** The rules of one cache *)

Lemma top_is_best ps p mt mc ms : p <> ∅ -> top ps (iter_part p) mt mc ms -> best ps p mt mc.
Proof.
  intros Hp [(Hn & _)|(Hin & -> & Hm)].
  - destruct Hp. apply map_eq. intros t. destruct (p !! t) as [k|] eqn:E; [|by rewrite lookup_empty]. apply iter_part_elem in E. rewrite Hn in E. by apply elem_of_nil in E.
  - split; [by apply iter_part_elem|]. intros t k Ht. apply Hm. by apply iter_part_elem.
Qed.

Lemma enough_passes size percent p k : 0 <= percent <= 100 -> 0 <= sum_counts p -> 100 * sum_counts p < 2 ^ 31 -> 0 < k <= sum_counts p -> enough size percent (sum_counts p) k = Ret (bool_decide (passes size percent p k)).
Proof.
  intros Hq Hs Hb Hk. unfold enough, passes. destruct (sum_counts p <? size) eqn:E; bool_hyps; [rewrite bool_decide_eq_false_2; [done|lia]|].
  rewrite !int_Ret by nia. cbn [mbind outcome_bind]. f_equal. destruct (100 * k <? percent * sum_counts p) eqn:E2; bool_hyps; symmetry; [apply bool_decide_eq_false_2|apply bool_decide_eq_true_2]; lia.
Qed.

Lemma small_part c ps p g : calm c -> c !! g = Some p -> (forall t, 0 < weight ps t < 2 ^ 31) -> (forall t k, p !! t = Some k -> k * weight ps t < 2 ^ 31) -> small ps (iter_part p).
Proof.
  intros Hc Hg Hw Hp. split; [rewrite sum_iter; by apply (cm_sums c Hc g)|]. intros t k Ht. apply iter_part_elem in Ht. split; [by apply (proj2 (cm_ok c Hc g p Hg) t k)|]. split; [apply Hw|by apply Hp].
Qed.

Lemma best_count c ps p g t k : calm c -> c !! g = Some p -> best ps p t k -> 0 < k <= sum_counts p /\ 0 <= t.
Proof.
  intros Hc Hg [Ht _]. assert (Hp : positive (iter_part p)) by (intros t' k' H'; apply iter_part_elem in H'; by apply (proj2 (cm_ok c Hc g p Hg) t' k')).
  split; [split; [by apply (proj2 (cm_ok c Hc g p Hg) t k)|]|by apply (cm_tokens c Hc g p t Hg)]. rewrite <- sum_iter. apply (sum_list_bound _ t); [done|by apply iter_part_elem].
Qed.

Definition thresholds_ok (sizes percents : list Z) (rs : list (nat * common_ngram)) : Prop :=
  forall i g, (i, g) ∈ rs -> exists size percent, sizes !! i = Some size /\ percents !! i = Some percent /\ 0 <= percent <= 100.

Lemma try_draft_loop_spec c ps sizes percents rs : calm c -> (forall t, 0 < weight ps t < 2 ^ 31) -> (forall g p t k, c !! g = Some p -> p !! t = Some k -> k * weight ps t < 2 ^ 31) ->
  thresholds_ok sizes percents rs -> exists d, try_draft_loop c rs ps sizes percents = Ret d
    /\ first_suggestion (map (fun '(i, g) => mk_rule c g ps (nth i sizes 0) (nth i percents 0)) rs) d /\ (d = LLAMA_TOKEN_NULL \/ 0 <= d).
Proof.
  intros Hc Hw Hp. induction rs as [|[i g] rs IH]; intros Ht; [exists LLAMA_TOKEN_NULL; by split_and!; [..|left]|]. destruct (IH ltac:(intros i' g' H'; apply (Ht i' g'); set_solver)) as (d & Ed & Hd & Hd0). cbn [try_draft_loop map first_suggestion].
  destruct (c !! g) as [p|] eqn:Eg; [|exists d; split_and!; [done| |done]; right; split; [by left|done]].
  destruct (primary_fold ps (iter_part p) [] LLAMA_TOKEN_NULL 0 0 (small_part c ps p g Hc Eg Hw (fun t k => Hp g p t k Eg)) (or_introl (conj eq_refl (conj eq_refl (conj eq_refl eq_refl))))) as (mt & mc & ms & E & Htop).
  cbn [app] in *. change (sum_list []) with 0 in E. rewrite E. cbn [mbind outcome_bind]. apply top_is_best in Htop as Hb; [|by apply (cm_ok c Hc g p Eg)]. destruct (best_count c ps p g mt mc Hc Eg Hb) as [Hmc Hmt].
  destruct (Ht i g ltac:(set_solver)) as (size & percent & E1 & E2 & Hq). rewrite (proj2 (at_Ret _ _ _) E1), (proj2 (at_Ret _ _ _) E2), sum_iter. cbn [mbind outcome_bind].
  rewrite enough_passes; [|done|lia|by apply (cm_sums c Hc g)|done]. cbn [mbind outcome_bind]. rewrite (nth_lookup_Some _ _ _ _ E1), (nth_lookup_Some _ _ _ _ E2).
  assert (Hn : negb (mt =? LLAMA_TOKEN_NULL) = true) by (apply negb_true_iff, Z.eqb_neq; unfold LLAMA_TOKEN_NULL; lia). rewrite Hn, andb_true_r. case_bool_decide as Hpass.
  - exists mt. split_and!; [done| |by right]. left. split; [unfold LLAMA_TOKEN_NULL; lia|]. by exists p, mc.
  - exists d. split_and!; [done| |done]. right. split; [|done]. right. by exists p, mt, mc.
Qed.

Lemma try_draft_static_spec c g : calm c -> exists d, try_draft_static c g = Ret d /\ first_suggestion [mk_rule c g ∅ 2 50] d /\ (d = LLAMA_TOKEN_NULL \/ 0 <= d).
Proof.
  intros Hc. unfold try_draft_static. cbn [first_suggestion]. destruct (c !! g) as [p|] eqn:Eg; [|exists LLAMA_TOKEN_NULL; split_and!; [done| |by left]; right; split; [by left|done]].
  assert (Hw : forall t, weight ∅ t = 1) by (intros t; unfold weight; by rewrite lookup_empty).
  assert (Hs : small ∅ (iter_part p)).
  { apply (small_part c ∅ p g Hc Eg); [intros t; rewrite Hw; lia|]. intros t k Ht. rewrite Hw. pose proof (proj2 (cm_ok c Hc g p Eg) t k Ht). lia. }
  destruct (static_fold (iter_part p) [] LLAMA_TOKEN_NULL 0 0 Hs (or_introl (conj eq_refl (conj eq_refl (conj eq_refl eq_refl))))) as (mt & mc & ms & E & Htop). cbn [app] in *. change (sum_list []) with 0 in E. rewrite E. cbn [mbind outcome_bind].
  apply top_is_best in Htop as Hb; [|by apply (cm_ok c Hc g p Eg)]. destruct (best_count c ∅ p g mt mc Hc Eg Hb) as [Hmc Hmt]. change (at_ draft_min_sample_size_lax _) with (Ret 2 : outcome Z). change (at_ draft_min_percent_lax _) with (Ret 50 : outcome Z). cbn [mbind outcome_bind].
  rewrite sum_iter, enough_passes; [|lia|lia|by apply (cm_sums c Hc g)|done]. cbn [mbind outcome_bind]. case_bool_decide as Hpass.
  - exists mt. split_and!; [done| |by right]. left. split; [unfold LLAMA_TOKEN_NULL; lia|]. by exists p, mc.
  - exists LLAMA_TOKEN_NULL. split_and!; [done| |by left]. right. split; [|done]. right. by exists p, mt, mc.
Qed.

End Rules.

(** ** The n-grams of the history *)

(** The tokens so far: the first token of the draft is the last one of [inp]. *)
Definition history inp draft : list Z := inp ++ drop 1 draft.

Lemma get_token_history inp draft i : (0 < length draft)%nat -> Z.of_nat (length inp + length draft) < 2 ^ 63 -> 0 <= i < Z.of_nat (length (history inp draft)) -> get_token inp draft i = Ret (nth (Z.to_nat i) (history inp draft) 0).
Proof.
  intros Hd Hb Hi. unfold history in *. rewrite length_app, length_drop in Hi. unfold get_token. rewrite u64_small by lia. destruct (i <? Z.of_nat (length inp)) eqn:E; bool_hyps.
  - unfold at_u. rewrite (proj2 (Z.ltb_lt _ _)) by lia. destruct (lookup_lt_is_Some_2 inp (Z.to_nat i)) as [x Hx]; [lia|]. rewrite (at_z_Ret _ _ x) by (done || lia). rewrite app_nth1 by lia. by rewrite (nth_lookup_Some _ _ _ _ Hx).
  - rewrite u64_small by lia. unfold at_u. rewrite (proj2 (Z.ltb_lt _ _)) by lia. destruct (lookup_lt_is_Some_2 draft (Z.to_nat (1 + i - Z.of_nat (length inp)))) as [x Hx]; [lia|]. rewrite (at_z_Ret _ _ x) by (done || lia).
    rewrite app_nth2 by lia. symmetry. f_equal. apply nth_lookup_Some. rewrite lookup_drop, <- Hx. f_equal. lia.
Qed.

Lemma gram_at_pad inp draft start size : (0 < length draft)%nat -> Z.of_nat (length inp + length draft) < 2 ^ 63 -> (start + size <= length (history inp draft))%nat -> (size <= LLAMA_NGRAM_MAX)%nat ->
  gram_at inp draft (Z.of_nat start) size = Ret (pad (take size (drop start (history inp draft)))).
Proof.
  intros Hd Hb Hl Hs. set (l := take size (drop start (history inp draft))). assert (Hll : length l = size) by (unfold l; rewrite length_take, length_drop; lia).
  assert (H : forall n, (n <= size)%nat -> foldM (fun g j => x ← get_token inp draft (Z.of_nat start + Z.of_nat j); set_ g j x) ngram_new (seq 0 n) = Ret (take n l ++ replicate (LLAMA_NGRAM_MAX - n) LLAMA_TOKEN_NULL)).
  { induction n as [|n IH]; intros Hn; [done|]. rewrite seq_S, foldM_app, IH by lia. cbn [mbind outcome_bind foldM Nat.add]. rewrite get_token_history by (done || lia).
    cbn [mbind outcome_bind]. replace (Z.to_nat (Z.of_nat start + Z.of_nat n)) with (start + n)%nat by lia.
    assert (Hx : l !! n = Some (nth (start + n) (history inp draft) 0)). { unfold l. rewrite lookup_take_lt, lookup_drop by lia. destruct (nth_lookup_or_length (history inp draft) (start + n) 0); [done|lia]. }
    rewrite (take_S_r _ _ _ Hx). unfold set_. rewrite decide_True by (rewrite length_app, length_take, length_replicate; lia). cbn [mbind outcome_bind]. f_equal.
    assert (Htn : length (take n l) = n) by (rewrite length_take; lia). rewrite <- (Nat.add_0_r n) at 1. rewrite <- Htn at 1. rewrite insert_app_r. replace (LLAMA_NGRAM_MAX - n)%nat with (S (LLAMA_NGRAM_MAX - S n)) by lia.
    cbn [replicate]. rewrite <- app_assoc. done. }
  unfold gram_at. rewrite H by done. unfold pad. rewrite Hll. rewrite (take_ge l LLAMA_NGRAM_MAX) by lia. by rewrite (take_ge l size) by lia.
Qed.

Lemma last_gram_at inp draft size : (0 < length draft)%nat -> Z.of_nat (length inp + length draft) < 2 ^ 63 -> (size <= length inp)%nat -> (size <= LLAMA_NGRAM_MAX)%nat ->
  gram_at inp draft (Z.of_nat (length inp) - Z.of_nat size + Z.of_nat (length draft) - 1) size = Ret (last_gram size (history inp draft)).
Proof.
  intros Hd Hb Hl Hs. assert (Hh : length (history inp draft) = (length inp + length draft - 1)%nat) by (unfold history; rewrite length_app, length_drop; lia).
  replace (Z.of_nat (length inp) - Z.of_nat size + Z.of_nat (length draft) - 1) with (Z.of_nat (length (history inp draft) - size)) by lia. rewrite gram_at_pad by (done || lia).
  unfold last_gram. rewrite take_ge; [done|]. rewrite length_drop. lia.
Qed.

(** ** The loop *)

Section Drafting.
Context {It : Iteration}.
Variables (nc_context nc_dynamic nc_static : common_ngram_cache) (ngram_min ngram_max : nat).
Hypotheses (Hctx : calm nc_context) (Hdyn : calm nc_dynamic) (Hsta : calm nc_static) (Hpc : calm_products nc_context nc_static) (Hpd : calm_products nc_dynamic nc_static).
Hypotheses (Hmin : (1 <= ngram_min)%nat) (Hmax : (ngram_max <= LLAMA_NGRAM_MAX)%nat).

Lemma count_sum c g p t k : calm c -> c !! g = Some p -> p !! t = Some k -> 0 < k <= sum_counts p.
Proof.
  intros Hc Hg Ht. assert (Hp : positive (iter_part p)) by (intros t' k' H'; apply iter_part_elem in H'; by apply (proj2 (cm_ok c Hc g p Hg) t' k')).
  split; [by apply (proj2 (cm_ok c Hc g p Hg) t k)|]. rewrite <- sum_iter. apply (sum_list_bound _ t); [done|by apply iter_part_elem].
Qed.

Lemma weight_small g t : 0 < weight (default ∅ (nc_static !! g)) t < 2 ^ 31.
Proof using Hsta It.
  clear Hmin Hmax. unfold weight. destruct (nc_static !! g) as [ps|] eqn:E; cbn [default from_option id]; [|by rewrite lookup_empty]. destruct (ps !! t) as [s|] eqn:Es; [|done].
  pose proof (count_sum nc_static g ps t s Hsta E Es). pose proof (cm_sums _ Hsta g ps E). lia.
Qed.

Lemma product_small c g0 g p t k : calm c -> calm_products c nc_static -> c !! g = Some p -> p !! t = Some k -> k * weight (default ∅ (nc_static !! g0)) t < 2 ^ 31.
Proof using It.
  clear Hmin Hmax. intros Hc Hp Hg Ht. pose proof (count_sum c g p t k Hc Hg Ht). pose proof (cm_sums _ Hc g p Hg). unfold weight. destruct (nc_static !! g0) as [ps|] eqn:E; cbn [default from_option id]; [|rewrite lookup_empty; lia].
  destruct (ps !! t) as [s|] eqn:Es; [|lia]. by apply (Hp g p g0 ps t k s).
Qed.

Lemma try_draft_spec c ps sizes percents h : calm c -> (forall t, 0 < weight ps t < 2 ^ 31) -> (forall g p t k, c !! g = Some p -> p !! t = Some k -> k * weight ps t < 2 ^ 31) ->
  length sizes = LLAMA_NGRAM_MAX -> length percents = LLAMA_NGRAM_MAX -> Forall (fun x => 0 <= x <= 100) percents ->
  exists d, try_draft c (map (fun size => last_gram size h) (seq ngram_min (S ngram_max - ngram_min))) ps sizes percents = Ret d
    /\ first_suggestion (cache_rules c ps sizes percents ngram_min ngram_max h) d /\ (d = LLAMA_TOKEN_NULL \/ 0 <= d).
Proof using It Hmin Hmax.
  intros Hc Hw Hp Hs1 Hs2 Hq. unfold try_draft, cache_rules. rewrite length_map, length_seq. set (n := (S ngram_max - ngram_min)%nat). assert (Hn : (n <= LLAMA_NGRAM_MAX)%nat) by (unfold n; lia).
  assert (E : zip (seq 0 n) (map (fun size => last_gram size h) (seq ngram_min n)) = map (fun i => (i, last_gram (ngram_min + i) h)) (seq 0 n)).
  { apply list_eq. intros i. rewrite lookup_zip_with, !list_lookup_fmap. destruct (decide (i < n)%nat) as [Hi|Hi]; [by rewrite !lookup_seq_lt by done|]. by rewrite !lookup_seq_ge by lia. }
  rewrite E, <- map_rev. destruct (try_draft_loop_spec c ps sizes percents (rev (map (fun i => (i, last_gram (ngram_min + i) h)) (seq 0 n)))) as (d & Ed & Hd & H0); [done|done|done| |].
  - intros i g Hi. rewrite <- map_rev in Hi. apply list_elem_of_In, in_map_iff in Hi as (j & [= -> <-] & Hi). apply in_rev, in_seq in Hi. destruct (lookup_lt_is_Some_2 sizes i) as [x Hx]; [lia|]. destruct (lookup_lt_is_Some_2 percents i) as [y Hy]; [lia|].
    exists x, y. split_and!; [done|done|..]; by apply (Forall_lookup_1 _ _ _ _ Hq Hy).
  - rewrite <- map_rev in Ed. exists d. split_and!; [exact Ed| |done]. rewrite map_rev, map_map in Hd. rewrite <- map_rev. by rewrite <- map_rev in Hd.
Qed.

Lemma draft_token_spec inp draft : (0 < length draft)%nat -> Z.of_nat (length inp + length draft) < 2 ^ 63 -> (LLAMA_NGRAM_STATIC <= length inp)%nat -> (ngram_max <= length inp)%nat ->
  exists d, draft_token inp draft ngram_min ngram_max nc_context nc_dynamic nc_static = Ret d
    /\ first_suggestion (rules nc_context nc_dynamic nc_static ngram_min ngram_max (history inp draft)) d /\ (d = LLAMA_TOKEN_NULL \/ 0 <= d).
Proof using It Hctx Hdyn Hsta Hpc Hpd Hmin Hmax.
  intros Hd Hb Hl Hm. unfold draft_token. rewrite last_gram_at by (done || (unfold LLAMA_NGRAM_STATIC, LLAMA_NGRAM_MAX in *; lia)). cbn [mbind outcome_bind]. set (h := history inp draft). set (g := last_gram LLAMA_NGRAM_STATIC h). set (ps := default ∅ (nc_static !! g)).
  assert (E : foldM (fun l size => x ← gram_at inp draft (Z.of_nat (length inp) - Z.of_nat size + Z.of_nat (length draft) - 1) size; Ret (l ++ [x])) [] (seq ngram_min (S ngram_max - ngram_min))
    = Ret (map (fun size => last_gram size h) (seq ngram_min (S ngram_max - ngram_min)))).
  { assert (H : forall sizes l, (forall size, size ∈ sizes -> (size <= ngram_max)%nat) -> foldM (fun l size => x ← gram_at inp draft (Z.of_nat (length inp) - Z.of_nat size + Z.of_nat (length draft) - 1) size; Ret (l ++ [x])) l sizes
      = Ret (l ++ map (fun size => last_gram size h) sizes)); [|apply (H _ []); intros size Hs; apply elem_of_seq in Hs; lia].
    induction sizes as [|size sizes IH]; intros l Hs; cbn [foldM map]; [by rewrite app_nil_r|]. pose proof (Hs size ltac:(set_solver)). rewrite last_gram_at by (done || lia). cbn [mbind outcome_bind]. rewrite IH by set_solver. by rewrite <- app_assoc. }
  rewrite E. cbn [mbind outcome_bind]. clear E.
  assert (Hlax : Forall (fun x => 0 <= x <= 100) draft_min_percent_lax) by by repeat constructor. assert (Hstr : Forall (fun x => 0 <= x <= 100) draft_min_percent_strict) by by repeat constructor.
  destruct (try_draft_spec nc_context ps draft_min_sample_size_lax draft_min_percent_lax h Hctx (weight_small g) (fun g1 p t k => product_small nc_context g g1 p t k Hctx Hpc) eq_refl eq_refl Hlax) as (d1 & E1 & F1 & N1).
  destruct (try_draft_spec nc_dynamic ps draft_min_sample_size_strict draft_min_percent_strict h Hdyn (weight_small g) (fun g1 p t k => product_small nc_dynamic g g1 p t k Hdyn Hpd) eq_refl eq_refl Hstr) as (d2 & E2 & F2 & N2).
  destruct (try_draft_static_spec nc_static g Hsta) as (d3 & E3 & F3 & N3).
  assert (Happ : forall rs rs' d d', first_suggestion rs d -> first_suggestion rs' d' -> first_suggestion (rs ++ rs') (if d =? LLAMA_TOKEN_NULL then d' else d)).
  { induction rs as [|r rs IH]; intros rs' d d' F F'; cbn [first_suggestion app] in *; [by rewrite F|]. destruct F as [[Hne F]|[Hdec F]]; [|right; split; [done|by apply IH]].
    rewrite (proj2 (Z.eqb_neq _ _) Hne). left. by split. }
  pose proof (Happ _ _ _ _ F1 (Happ _ _ _ _ F2 F3)) as F. rewrite E1. cbn [mbind outcome_bind]. unfold rules. fold g. fold ps.
  destruct (d1 =? LLAMA_TOKEN_NULL) eqn:D1; [rewrite E2|]; cbn [mbind outcome_bind].
  - destruct (d2 =? LLAMA_TOKEN_NULL) eqn:D2; [exists d3|exists d2]; by split_and!.
  - rewrite D1. exists d1. by split_and!.
Qed.

Lemma draft_loop_spec inp n_draft : (LLAMA_NGRAM_STATIC <= length inp)%nat -> (ngram_max <= length inp)%nat -> forall fuel draft, (0 < length draft)%nat -> Z.of_nat fuel = Z.max 0 (n_draft - (Z.of_nat (length draft) - 1)) -> Z.of_nat (length inp + length draft) + Z.of_nat fuel < 2 ^ 63 ->
  exists more, draft_loop fuel inp draft n_draft ngram_min ngram_max nc_context nc_dynamic nc_static = Ret (draft ++ more) /\ (length more <= fuel)%nat
    /\ (forall i t, more !! i = Some t -> 0 <= t /\ first_suggestion (rules nc_context nc_dynamic nc_static ngram_min ngram_max (history inp (draft ++ take i more))) t)
    /\ ((length more < fuel)%nat -> first_suggestion (rules nc_context nc_dynamic nc_static ngram_min ngram_max (history inp (draft ++ more))) LLAMA_TOKEN_NULL).
Proof using It Hctx Hdyn Hsta Hpc Hpd Hmin Hmax.
  intros Hl Hm. induction fuel as [|fuel IH]; intros draft Hd Hf Hb; cbn [draft_loop].
  - rewrite (proj2 (Z.ltb_ge _ _)) by lia. exists []. rewrite app_nil_r. split_and!; [done|done|intros i t H'; done|cbn; lia].
  - rewrite (proj2 (Z.ltb_lt _ _)) by lia. destruct (draft_token_spec inp draft Hd ltac:(lia) Hl Hm) as (d & E & F & H0). rewrite E. cbn [mbind outcome_bind]. destruct H0 as [->|H0].
    + exists []. rewrite app_nil_r. split_and!; [done|cbn; lia|intros i t H'; done|done].
    + rewrite (proj2 (Z.eqb_neq _ _)) by (unfold LLAMA_TOKEN_NULL; lia). destruct (IH (draft ++ [d])) as (more & E2 & Hlen & Hm1 & Hm2); [rewrite length_app; cbn; lia..|].
      exists (d :: more). replace (draft ++ d :: more) with ((draft ++ [d]) ++ more) by (by rewrite <- app_assoc). split_and!; [done|cbn; lia| |].
      * intros [|i] t Hi; cbn in Hi; [injection Hi as <-; cbn [take]; by rewrite app_nil_r|]. cbn [take]. replace (draft ++ d :: take i more) with ((draft ++ [d]) ++ take i more) by (by rewrite <- app_assoc). by apply Hm1.
      * intros Hlt. apply Hm2. cbn in Hlt. lia.
Qed.

End Drafting.

(** ** What the caches promise *)

Lemma length_events ngram_min ngram_max inp nnew : (length (events ngram_min ngram_max inp nnew) <= (S ngram_max - ngram_min) * length inp)%nat.
Proof.
  assert (H : forall sizes, (length (flat_map (events_of inp nnew) sizes) <= length sizes * length inp)%nat).
  { induction sizes as [|size sizes IH]; [done|]. cbn [flat_map length Nat.mul]. rewrite length_app. unfold events_of at 1. rewrite length_map, length_seq. lia. }
  unfold events. specialize (H (seq ngram_min (S ngram_max - ngram_min))). by rewrite length_seq in H.
Qed.

Lemma times_length e es : times e es <= Z.of_nat (length es).
Proof. unfold times. apply inj_le. apply length_filter. Qed.

(** Updating after every piece of a text. *)
Definition update_pieces (ngram_min ngram_max : nat) (pieces : list (list Z)) : outcome (common_ngram_cache * list Z) :=
  foldM (fun '(c, inp) piece => c ← common_ngram_cache_update c ngram_min ngram_max (inp ++ piece) (all_of piece); Ret (c, inp ++ piece)) (∅, []) pieces.

(** C35. C1: A cache counts how often each token followed each n-gram, and it makes no
    difference into what pieces the text is cut between the updates, as long as the
    text is only appended to and passed as a whole. *)
Theorem ngram_cache_counts ngram_min ngram_max pieces : Z.of_nat ((S ngram_max - ngram_min) * length (concat pieces)) < 2 ^ 31 ->
  exists c, update_pieces ngram_min ngram_max pieces = Ret (c, concat pieces) /\ common_ngram_cache_update ∅ ngram_min ngram_max (concat pieces) (all_of (concat pieces)) = Ret c
    /\ cache_ok c /\ forall g t, total c g t = occurrences ngram_min ngram_max (concat pieces) g t.
Proof.
  intros Hb. assert (Hfull : forall text, Z.of_nat ((S ngram_max - ngram_min) * length text) < 2 ^ 31 -> exists c, count_events ∅ (events ngram_min ngram_max text (all_of text)) = Ret c /\ cache_ok c /\ forall g t, total c g t = times (g, t) (events ngram_min ngram_max text (all_of text))).
  { intros text Ht. destruct (count_events_ok (events ngram_min ngram_max text (all_of text)) ∅ cache_ok_empty) as (c & E & Hc & T).
    - intros g t. rewrite total_empty. pose proof (times_length (g, t) (events ngram_min ngram_max text (all_of text))). pose proof (length_events ngram_min ngram_max text (all_of text)). lia.
    - exists c. split_and!; [done|done|]. intros g t. by rewrite T, total_empty. }
  assert (H : exists c, update_pieces ngram_min ngram_max pieces = Ret (c, concat pieces) /\ cache_ok c /\ forall g t, total c g t = times (g, t) (events ngram_min ngram_max (concat pieces) (all_of (concat pieces)))).
  { unfold update_pieces. induction pieces as [|piece pieces IH] using rev_ind.
    - exists ∅. split_and!; [done|apply cache_ok_empty|]. intros g t. rewrite total_empty, times_occurrences. unfold occurrences. cbn [concat length seq]. generalize (seq ngram_min (S ngram_max - ngram_min)) as sizes. intros sizes. induction sizes as [|size sizes IHs]; [done|]. exact IHs.
    - rewrite concat_app in Hb |- *. cbn [concat] in Hb |- *. rewrite app_nil_r in Hb |- *. rewrite length_app, Nat.mul_add_distr_l in Hb. destruct IH as (c & E & Hc & T); [eapply Z.le_lt_trans; [apply inj_le, Nat.le_add_r|exact Hb]|]. set (text := concat pieces) in *. rewrite foldM_app, E. cbn [mbind outcome_bind foldM].
      assert (Hg : forall g t, total c g t + times (g, t) (events ngram_min ngram_max (text ++ piece) (all_of piece)) = times (g, t) (events ngram_min ngram_max (text ++ piece) (all_of (text ++ piece)))).
      { intros g t. rewrite T, <- times_app. apply times_perm, events_grow. }
      destruct (count_events_ok (events ngram_min ngram_max (text ++ piece) (all_of piece)) c Hc) as (c' & E' & Hc' & T').
      + intros g t. rewrite Hg. pose proof (times_length (g, t) (events ngram_min ngram_max (text ++ piece) (all_of (text ++ piece)))). pose proof (length_events ngram_min ngram_max (text ++ piece) (all_of (text ++ piece))) as He. rewrite (length_app text piece), Nat.mul_add_distr_l in He. lia.
      + exists c'. rewrite update_events, E'. cbn [mbind outcome_bind]. split_and!; [done|done|]. intros g t. by rewrite T', Hg. }
  destruct H as (c & E & Hc & T). destruct (Hfull (concat pieces) Hb) as (c0 & E0 & Hc0 & T0). assert (c0 = c) as -> by (apply cache_ext; [done|done|intros g t; by rewrite T0, T]).
  exists c. rewrite update_events. split_and!; [done|done|done|]. intros g t. by rewrite T, times_occurrences.
Qed.

(** C2: Merging two caches adds their counts; neither the order in which the maps are
    visited nor which cache is merged into which makes a difference. *)
Theorem ngram_cache_merge (It : Iteration) c1 c2 : cache_ok c1 -> cache_ok c2 -> (forall g t, total c1 g t + total c2 g t < 2 ^ 31) ->
  exists c, common_ngram_cache_merge c1 c2 = Ret c /\ common_ngram_cache_merge c2 c1 = Ret c /\ cache_ok c /\ forall g t, total c g t = total c1 g t + total c2 g t.
Proof.
  intros H1 H2 Hb. destruct (merge_ok c1 c2 H1 H2 Hb) as (c & E & Hc & T). destruct (merge_ok c2 c1 H2 H1) as (c' & E' & Hc' & T'); [intros g t; rewrite Z.add_comm; apply Hb|].
  assert (c' = c) as -> by (apply cache_ext; [done|done|]; intros g t; rewrite T, T'; lia). exists c. by split_and!.
Qed.

(** Loading a saved cache gives the cache back, whatever the order in which it
    was written; loading any other file returns a cache or fails an assertion. *)
Theorem ngram_cache_roundtrip (It : Iteration) c inp : saveable c ->
  (exists bs, common_ngram_cache_save c = Ret bs /\ common_ngram_cache_load (Some bs) = Ret c)
  /\ ((exists c', common_ngram_cache_load (Some inp) = Ret c') \/ exists m, common_ngram_cache_load (Some inp) = Fatal m).
Proof. intros Hc. split; [by apply save_load|apply load_total]. Qed.

(** C34. C4: A draft continues the text token by token with what the first rule suggests
    that suggests something: the context cache with the longest n-gram first, then
    the dynamic cache with its stricter thresholds, then the static cache; it stops
    after [n_draft] tokens or where no rule suggests a token. *)
Theorem ngram_draft_suggestions (It : Iteration) nc_context nc_dynamic nc_static ngram_min ngram_max inp id_last n_draft :
  calm nc_context -> calm nc_dynamic -> calm nc_static -> calm_products nc_context nc_static -> calm_products nc_dynamic nc_static -> (1 <= ngram_min)%nat -> (ngram_max <= LLAMA_NGRAM_MAX)%nat ->
  (LLAMA_NGRAM_STATIC <= length inp)%nat -> (ngram_max <= length inp)%nat -> Z.of_nat (length inp) + Z.max 0 n_draft < 2 ^ 31 ->
  let follows text t := first_suggestion (rules nc_context nc_dynamic nc_static ngram_min ngram_max text) t in
  exists more, common_ngram_cache_draft inp [id_last] n_draft ngram_min ngram_max nc_context nc_dynamic nc_static = Ret (id_last :: more)
    /\ Z.of_nat (length more) <= Z.max 0 n_draft /\ (forall i t, more !! i = Some t -> 0 <= t /\ follows (inp ++ take i more) t)
    /\ (Z.of_nat (length more) < n_draft -> follows (inp ++ more) LLAMA_TOKEN_NULL).
Proof.
  intros Hc Hd Hs Hpc Hpd Hmin Hmax Hl Hm Hb follows. unfold common_ngram_cache_draft. cbn [length Nat.eqb c_assert mbind outcome_bind]. rewrite (proj2 (Nat.ltb_ge _ _)) by done.
  destruct (draft_loop_spec nc_context nc_dynamic nc_static ngram_min ngram_max Hc Hd Hs Hpc Hpd Hmin Hmax inp n_draft Hl Hm (Z.to_nat n_draft) [id_last]) as (more & E & H1 & H2 & H3); [cbn; lia..|].
  exists more. split_and!; [exact E|lia|exact H2|]. intros Hlt. apply H3. lia.
Qed.

(** ** Instances *)

#[local] Instance in_order : Iteration := { iter_part := map_to_list; iter_cache := map_to_list; iter_part_perm p := reflexivity _; iter_cache_perm c := reflexivity _ }.

Lemma ngram_cache_counts_witness : exists c, update_pieces 1 2 [[1; 2; 1]; [2; 3]] = Ret (c, [1; 2; 1; 2; 3]) /\ total c [1; -1; -1; -1] 2 = 2.
Proof.
  destruct (ngram_cache_counts 1 2 [[1; 2; 1]; [2; 3]] eq_refl) as (c & E & _ & _ & T). exists c. split; [exact E|]. by rewrite T.
Defined.

Definition small_cache : common_ngram_cache := {[ [1; -1; -1; -1] := {[ 2 := 3; 5 := 1 ]} ]}.

Lemma small_cache_part g p : small_cache !! g = Some p -> g = [1; -1; -1; -1] /\ p = {[ 2 := 3; 5 := 1 ]}.
Proof. unfold small_cache. intros H. by apply lookup_singleton_Some in H as [<- <-]. Qed.

Lemma small_part_counts t k : ({[ 2 := 3; 5 := 1 ]} : gmap Z Z) !! t = Some k -> (t = 2 /\ k = 3) \/ (t = 5 /\ k = 1).
Proof. intros H. apply lookup_insert_Some in H as [[<- <-]|[_ H]]; [by left|]. apply lookup_singleton_Some in H as [<- <-]. by right. Qed.

Lemma small_cache_ok : cache_ok small_cache.
Proof. intros g p H. apply small_cache_part in H as [_ ->]. split; [apply insert_non_empty|]. intros t k H. apply small_part_counts in H. lia. Qed.

Lemma small_cache_saveable : saveable small_cache.
Proof.
  constructor; [exact small_cache_ok|..]; intros g p.
  - intros H. apply small_cache_part in H as [-> _]. split; [done|]. repeat constructor; done.
  - intros H. apply small_cache_part in H as [_ ->]. done.
  - intros t k H Ht. apply small_cache_part in H as [_ ->]. apply small_part_counts in Ht. unfold is_int. lia.
Qed.

Lemma small_cache_calm : calm small_cache.
Proof.
  constructor; [exact small_cache_ok|..]; intros g p.
  - intros t H [k Ht]. apply small_cache_part in H as [_ ->]. apply small_part_counts in Ht. lia.
  - intros H. apply small_cache_part in H as [_ ->]. done.
Qed.

Lemma small_cache_products : calm_products small_cache small_cache.
Proof. intros g p g' ps t k s H1 H2 Ht Hs. apply small_cache_part in H1 as [_ ->]. apply small_cache_part in H2 as [_ ->]. apply small_part_counts in Ht, Hs. lia. Qed.

Lemma ngram_cache_merge_witness : exists c, common_ngram_cache_merge small_cache small_cache = Ret c /\ total c [1; -1; -1; -1] 2 = 6.
Proof.
  destruct (ngram_cache_merge in_order small_cache small_cache small_cache_ok small_cache_ok) as (c & E & _ & _ & T).
  - intros g t. unfold total. destruct (small_cache !! g) as [p|] eqn:E; [|done]. apply small_cache_part in E as [_ ->]. cbn [mbind option_bind]. destruct (({[ 2 := 3; 5 := 1 ]} : gmap Z Z) !! t) as [k|] eqn:Et; [|done]. apply small_part_counts in Et. cbn. lia.
  - exists c. split; [exact E|]. by rewrite T.
Defined.

Lemma ngram_cache_roundtrip_witness : exists bs, common_ngram_cache_save small_cache = Ret bs /\ common_ngram_cache_load (Some bs) = Ret small_cache.
Proof. exact (proj1 (ngram_cache_roundtrip in_order small_cache [] small_cache_saveable)). Defined.

Lemma ngram_draft_suggestions_witness : exists more, common_ngram_cache_draft [7; 7; 7; 1] [1] 3 1 4 small_cache small_cache small_cache = Ret (1 :: more).
Proof.
  destruct (ngram_draft_suggestions in_order small_cache small_cache small_cache 1 4 [7; 7; 7; 1] 1 3 small_cache_calm small_cache_calm small_cache_calm small_cache_products small_cache_products
    ltac:(lia) ltac:(done) ltac:(cbn; unfold LLAMA_NGRAM_STATIC; lia) ltac:(cbn; lia) eq_refl) as (more & E & _). exists more. exact E.
Defined.

(** The token 2 followed 1 three times of four. *)
Example small_cache_draft : common_ngram_cache_draft [7; 7; 7; 1] [1] 3 1 4 small_cache ∅ ∅ = Ret [1; 2].
Proof. vm_compute. reflexivity. Qed.

(** ** What can go wrong *)

(** A single token is never counted: there is no n-gram before it.  The speculative
    decoder passes only the new tokens, so once the prompt is counted, tokens that
    are generated one by one leave the context cache as it is. *)
Example single_token_not_counted c t : common_ngram_cache_update c LLAMA_NGRAM_MIN LLAMA_NGRAM_MAX [t] 1 = Ret c.
Proof. reflexivity. Qed.

Example generated_tokens_not_counted st prompt id_last : nc_cache_size st = length prompt ->
  cache_catch_up st prompt id_last = Ret (mk_ngram_cache_state (nc_n_draft st) (nc_context st) (nc_dynamic st) (nc_static st) (length prompt + 1)).
Proof.
  intros E. unfold cache_catch_up. rewrite E, (proj2 (Nat.ltb_lt _ _)) by lia. rewrite drop_ge by lia. reflexivity.
Qed.

(** A text of two or three tokens is shorter than the longest n-gram: the index of
    its first token is negative, and the draft is read far outside. *)
Example short_text_undefined t1 t2 : common_ngram_cache_draft [t1; t2] [t2] 1 LLAMA_NGRAM_MIN LLAMA_NGRAM_MAX ∅ ∅ ∅ = Undef.
Proof. reflexivity. Qed.

(** Counts that a large text reaches overflow the product of the two counts. *)
Example counts_overflow : try_draft {[ [1; -1; -1; -1] := {[ 2 := 300 ]} ]} [[1; -1; -1; -1]] {[ 2 := 100000 ]} draft_min_sample_size_lax draft_min_percent_lax = Undef.
Proof. vm_compute. reflexivity. Qed.
