(* ===== verification/NgramMap.v ===== *)
(** * Drafting from the history of the tokens itself: [common/ngram-map.cpp],
    [common/ngram-mod.cpp] and their states in [common/speculative.cpp].

    The sizes of keys and values are [uint16_t], the size of a key is at least 1
    ([common/arg.cpp]).  Indices into the history are natural numbers: the history is
    asserted to be shorter than [UINT32_MAX], so nothing wraps.  Statistics and traces
    that are printed are left out. *)

From S2P Require Import Prelude Vocabulary NgramCache.

Implicit Types (tokens inp draft pattern : list Z).

Definition UINT32_MAX : Z := 2 ^ 32 - 1.

(** ** Searching for a pattern *)

(** [tokens[j + k] == pattern[k]] for all [k] *)
Fixpoint matches tokens (j : nat) pattern : outcome bool :=
  match pattern with
  | [] => Ret true
  | x :: pattern => y ← at_ tokens j; if y =? x then matches tokens (S j) pattern else Ret false
  end.

(** [inp[i + k] == inp[j + k]] for all [k < m] *)
Fixpoint same_tokens inp (i j m : nat) : outcome bool :=
  match m with
  | O => Ret true
  | S m => x ← at_ inp i; y ← at_ inp j; if x =? y then same_tokens inp (S i) (S j) m else Ret false
  end.

(** [for (j = ...; j > lo; --j)]; the result is 0 when there is no match. *)
Fixpoint search_down tokens pattern (lo j : nat) : outcome nat :=
  match j with
  | O => Ret 0%nat
  | S j' =>
      if (lo <? j)%nat then
        m ← matches tokens j pattern;
        if m : bool then Ret j else search_down tokens pattern lo j'
      else Ret 0%nat
  end.

(** The last [n - 1] tokens and the sampled one. *)
Definition key_of tokens (sampled : Z) (n : nat) : list Z := drop (length tokens + 1 - n) tokens ++ [sampled].

(** The loop that appends [inp[start + i]] to a draft. *)
Definition copy_tokens inp (start n : nat) draft : outcome (list Z) := foldM (fun d i => t ← at_ inp (start + i); Ret (d ++ [t])) draft (seq 0 n).

(** ** [common_ngram_simple_draft] *)

Record common_ngram_simple_config := mk_simple_config { sc_size_ngram : nat; sc_size_mgram : nat }.

Definition common_ngram_simple_draft (config : common_ngram_simple_config) tokens (sampled : Z) : outcome (list Z) :=
  let cur_len := length tokens in
  let n_draft_min := sc_size_ngram config in
  let n_draft_max := sc_size_mgram config in
  if (cur_len <=? n_draft_min + n_draft_max + 1)%nat then Ret []
  else
    match_pos ← search_down tokens (key_of tokens sampled n_draft_min) 0 (cur_len - n_draft_min - 1);
    if (match_pos =? 0)%nat then Ret []
    else
      let copy_max := Nat.min n_draft_max (cur_len - (match_pos + n_draft_min)) in
      if (copy_max <? n_draft_min)%nat then Ret []
      else copy_tokens tokens (match_pos + n_draft_min) copy_max [].

(** ** [common_ngram_map] *)

Definition COMMON_NGRAM_MAX_VALUES : nat := 4.
Definition COMMON_NGRAM_HASH_MAP_SIZE : nat := Z.to_nat 262144.
Definition COMMON_NGRAM_MAX_VALUE_COUNT : Z := 16380.
Definition LCG_FACTOR : Z := 2654435761.

(** The conversion to [int16_t]. *)
Definition i16 (z : Z) : Z := (z + 2 ^ 15) mod 2 ^ 16 - 2 ^ 15.

Record common_ngram_map_value := mk_value { vl_idx : nat; vl_num : Z; vl_n_accepted : Z }.
Record common_ngram_map_key := mk_key { ky_idx : nat; ky_stat_idx : nat; ky_num : Z; ky_values : list common_ngram_map_value }.

Record common_ngram_map := mk_map {
  mp_size_key : nat;
  mp_size_value : nat;
  mp_key_only : bool;
  mp_keys : list common_ngram_map_key;
  mp_min_hits : Z;
  mp_size_last_begin : nat;
  mp_last_draft_created : bool;
  mp_last_draft_key_idx : nat;
  mp_last_draft_value_idx : nat;
  mp_idx_last_check : nat;
  mp_key_map : list nat;
  mp_key_map_last_idx : nat;
}.

Definition new_map (size_key size_value : nat) (only_keys : bool) (min_hits : Z) : common_ngram_map :=
  mk_map size_key size_value only_keys [] min_hits 0 false 0 0 0 (replicate COMMON_NGRAM_HASH_MAP_SIZE 0%nat) 0.

Definition with_keys (keys : list common_ngram_map_key) (mp : common_ngram_map) : common_ngram_map :=
  mk_map (mp_size_key mp) (mp_size_value mp) (mp_key_only mp) keys (mp_min_hits mp) (mp_size_last_begin mp)
    (mp_last_draft_created mp) (mp_last_draft_key_idx mp) (mp_last_draft_value_idx mp) (mp_idx_last_check mp) (mp_key_map mp) (mp_key_map_last_idx mp).
Definition with_last_draft (created : bool) (key_idx value_idx : nat) (mp : common_ngram_map) : common_ngram_map :=
  mk_map (mp_size_key mp) (mp_size_value mp) (mp_key_only mp) (mp_keys mp) (mp_min_hits mp) (mp_size_last_begin mp)
    created key_idx value_idx (mp_idx_last_check mp) (mp_key_map mp) (mp_key_map_last_idx mp).
Definition with_check (size_last_begin idx_last_check : nat) (mp : common_ngram_map) : common_ngram_map :=
  mk_map (mp_size_key mp) (mp_size_value mp) (mp_key_only mp) (mp_keys mp) (mp_min_hits mp) size_last_begin
    (mp_last_draft_created mp) (mp_last_draft_key_idx mp) (mp_last_draft_value_idx mp) idx_last_check (mp_key_map mp) (mp_key_map_last_idx mp).
Definition with_key_map (key_map : list nat) (key_map_last_idx : nat) (mp : common_ngram_map) : common_ngram_map :=
  mk_map (mp_size_key mp) (mp_size_value mp) (mp_key_only mp) (mp_keys mp) (mp_min_hits mp) (mp_size_last_begin mp)
    (mp_last_draft_created mp) (mp_last_draft_key_idx mp) (mp_last_draft_value_idx mp) (mp_idx_last_check mp) key_map key_map_last_idx.

Definition common_ngram_map_hash tokens (start len : nat) : outcome Z :=
  foldM (fun hash i => t ← at_ tokens (start + i); Ret (u32 (hash * LCG_FACTOR + t))) 0 (seq 0 len).

Definition hash_idx tokens (start len size : nat) : outcome nat :=
  hash ← common_ngram_map_hash tokens start len;
  Ret (Z.to_nat (hash mod Z.of_nat size)).

(** *** [common_ngram_map_begin] *)

(** The values after the one that is deleted move to the left. *)
Definition delete_value (values : list common_ngram_map_value) (j : nat) : list common_ngram_map_value :=
  match values !! (COMMON_NGRAM_MAX_VALUES - 1)%nat with
  | Some last => take j values ++ drop (S j) values ++ [mk_value 0 0 (vl_n_accepted last)]
  | None => values
  end.

Definition refresh_values (size_last_begin : nat) (values : list common_ngram_map_value) : list common_ngram_map_value :=
  foldl (fun values j => match values !! j with Some v => if (size_last_begin <=? vl_idx v)%nat then delete_value values j else values | None => values end)
    values (rev (seq 0 COMMON_NGRAM_MAX_VALUES)).

(** What becomes of one key; keys are erased from the last one on. *)
Definition refresh_key (key_only : bool) (size_last_begin : nat) (key : common_ngram_map_key) : option common_ngram_map_key :=
  if (size_last_begin <=? ky_idx key)%nat then None
  else if key_only then Some key
  else
    let values := refresh_values size_last_begin (ky_values key) in
    match values with
    | v :: _ => if (vl_idx v =? 0)%nat then None else Some (mk_key (ky_idx key) (ky_stat_idx key) (ky_num key) values)
    | [] => None
    end.

Definition common_ngram_map_begin (mp : common_ngram_map) tokens : common_ngram_map :=
  let size_begin := length tokens in
  let slb := mp_size_last_begin mp in
  let shrunk := (size_begin <? mp_idx_last_check mp)%nat in
  let mp := if negb (bool_decide (mp_key_map mp = [])) && shrunk
    then with_key_map (map (fun key_idx => if (slb <=? key_idx)%nat then 0%nat else key_idx) (mp_key_map mp)) (slb - 1) mp else mp in
  let mp := if shrunk && negb (bool_decide (mp_keys mp = []))
    then with_keys (omap (refresh_key (mp_key_only mp) slb) (mp_keys mp)) mp else mp in
  with_check size_begin (slb - 1) mp.

(** *** [common_ngram_map_draft] *)

(** The search for the key: with the hash map, up to the last beginning, and after
    it. *)
Definition find_in_key_map (mp : common_ngram_map) inp key_tokens : outcome nat :=
  let n := mp_size_key mp in
  if bool_decide (mp_key_map mp = []) then Ret 0%nat
  else
    idx_hash ← hash_idx key_tokens 0 n (length (mp_key_map mp));
    idx_key ← at_ (mp_key_map mp) idx_hash;
    if negb (idx_key =? 0)%nat && (idx_key <? length inp - n - mp_size_value mp - 1)%nat then
      m ← matches inp idx_key key_tokens;
      Ret (if m : bool then idx_key else 0%nat)
    else Ret 0%nat.

Definition find_match (mp : common_ngram_map) inp key_tokens : outcome nat :=
  let n := mp_size_key mp in
  let m := mp_size_value mp in
  let slb := mp_size_last_begin mp in
  match_pos ← find_in_key_map mp inp key_tokens;
  match_pos ← (if (match_pos =? 0)%nat && (n + m + 1 <? slb)%nat then search_down inp key_tokens (mp_key_map_last_idx mp) (slb - n - m - 1) else Ret match_pos);
  if (match_pos =? 0)%nat then search_down inp key_tokens (Nat.max slb (mp_key_map_last_idx mp)) (length inp - n - m - 1) else Ret match_pos.

(** [for (j = ...; j > lo; --j)]: the hashes of new n-grams; collisions may occur. *)
Fixpoint add_hashes inp (n lo j : nat) (key_map : list nat) : outcome (list nat) :=
  match j with
  | O => Ret key_map
  | S j' =>
      if (lo <? j)%nat then
        idx_hash ← hash_idx inp j n (length key_map);
        old ← at_ key_map idx_hash;
        key_map ← (if (old =? 0)%nat then set_ key_map idx_hash j else Ret key_map);
        add_hashes inp n lo j' key_map
      else Ret key_map
  end.

Definition update_key_map (mp : common_ngram_map) inp : outcome common_ngram_map :=
  let n := mp_size_key mp in
  let m := mp_size_value mp in
  let slb := mp_size_last_begin mp in
  let last := mp_key_map_last_idx mp in
  if bool_decide (mp_key_map mp = []) then Ret mp
  else
    key_map ← (if (n + m + 1 <? slb)%nat then add_hashes inp n last (slb - n - m - 1) (mp_key_map mp) else Ret (mp_key_map mp));
    key_map ← add_hashes inp n (Nat.max slb last) (length inp - n - m - 1) key_map;
    Ret (with_key_map key_map (Nat.max (length inp - n - m - 1) last) mp).

(** The index of the key among the keys, or their number. *)
Fixpoint find_key (keys : list common_ngram_map_key) inp key_tokens : outcome nat :=
  match keys with
  | [] => Ret 0%nat
  | key :: keys =>
      m ← matches inp (ky_idx key) key_tokens;
      if m : bool then Ret 0%nat else i ← find_key keys inp key_tokens; Ret (S i)
  end.

Definition new_key (match_pos m : nat) : common_ngram_map_key := mk_key match_pos 0 0 (replicate COMMON_NGRAM_MAX_VALUES (mk_value 0 0 (i16 (Z.of_nat m)))).

(** The slot of the m-gram at [idx], which may be a new one. *)
Fixpoint find_value inp (m idx v : nat) (values : list common_ngram_map_value) : outcome (option nat * list common_ngram_map_value) :=
  match values with
  | [] => Ret (None, [])
  | x :: values =>
      if (vl_idx x =? 0)%nat then Ret (Some v, mk_value idx 0 (i16 (Z.of_nat m)) :: values)
      else
        same ← same_tokens inp idx (vl_idx x) m;
        if same : bool then Ret (Some v, x :: values)
        else '(r, values) ← find_value inp m idx (S v) values; Ret (r, x :: values)
  end.

Definition count_value (x : common_ngram_map_value) : common_ngram_map_value := mk_value (vl_idx x) (Z.min (vl_num x + 1) COMMON_NGRAM_MAX_VALUE_COUNT) (vl_n_accepted x).

Definition stat_step inp key_tokens (n m : nat) (values : list common_ngram_map_value) (i : nat) : outcome (list common_ngram_map_value) :=
  match_key ← matches inp i key_tokens;
  if match_key : bool then
    '(idx_value, values) ← find_value inp m (i + n) 0 values;
    match idx_value with
    | Some v => x ← at_ values v; set_ values v (count_value x)
    | None => Ret values
    end
  else Ret values.

(** The most frequent value, the first of several. *)
Definition max_slot (values : list common_ngram_map_value) : Z * nat :=
  foldl (fun '(max_occur, slot_max) '(v, x) => if max_occur <? vl_num x then (vl_num x, v) else (max_occur, slot_max)) (0, 0%nat) (zip (seq 0 (length values)) values).

Definition other_occurrences (values : list common_ngram_map_value) (slot_max : nat) : Z :=
  u32 (foldr Z.add 0 (map (fun '(v, x) => if (v =? slot_max)%nat then 0 else vl_num x) (zip (seq 0 (length values)) values))).

(** The number of tokens to draft. *)
Definition n_draft_tokens (m : nat) (x : common_ngram_map_value) : nat := Z.to_nat (Z.min (Z.of_nat m) (vl_n_accepted x)).

(** The draft for a key that was found at [match_pos]. *)
Definition draft_at (mp : common_ngram_map) inp key_tokens (match_pos : nat) draft : outcome (common_ngram_map * list Z) :=
  let n := mp_size_key mp in
  let m := mp_size_value mp in
  key_offset ← find_key (mp_keys mp) inp key_tokens;
  let keys := if (key_offset =? length (mp_keys mp))%nat then mp_keys mp ++ [new_key match_pos m] else mp_keys mp in
  key ← at_ keys key_offset;
  let key := mk_key (ky_idx key) (ky_stat_idx key) (Z.min (ky_num key + 1) COMMON_NGRAM_MAX_VALUE_COUNT) (ky_values key) in
  keys ← set_ keys key_offset key;
  let mp := with_keys keys mp in
  if mp_key_only mp then
    x ← at_ (ky_values key) 0;
    draft ← copy_tokens inp (match_pos + n) (n_draft_tokens m x) draft;
    Ret (with_last_draft false key_offset 0 mp, draft)
  else if ky_num key <? mp_min_hits mp then Ret (mp, draft)
  else
    values ← foldM (stat_step inp key_tokens n m) (ky_values key) (seq (ky_stat_idx key) (S match_pos - ky_stat_idx key));
    keys ← set_ keys key_offset (mk_key (ky_idx key) match_pos (ky_num key) values);
    let mp := with_keys keys mp in
    let '(max_occur, slot_max) := max_slot values in
    let sum_occur := other_occurrences values slot_max in
    if (0 <? sum_occur) && (max_occur <? u32 (2 * sum_occur)) then Ret (mp, draft)
    else
      x ← at_ values slot_max;
      draft ← copy_tokens inp (match_pos + n) (n_draft_tokens m x) draft;
      Ret (with_last_draft true key_offset slot_max mp, draft).

Definition common_ngram_map_draft (mp : common_ngram_map) inp (sampled : Z) draft : outcome (common_ngram_map * list Z) :=
  let mp := with_last_draft false 0 0 mp in
  let cur_len := length inp in
  let n := mp_size_key mp in
  let m := mp_size_value mp in
  if (cur_len <? 2 * n + m)%nat then Ret (mp, draft)
  else
    c_assert (Z.of_nat cur_len <? UINT32_MAX) "cur_len exceeds UINT32_MAX";;
    c_assert (mp_idx_last_check mp <=? cur_len)%nat "map.idx_last_check > cur_len";;
    let mp := with_check (mp_size_last_begin mp) cur_len mp in
    let key_tokens := key_of inp sampled n in
    c_assert (mp_size_last_begin mp <=? cur_len)%nat "map.size_last_begin > cur_len";;
    match_pos ← find_match mp inp key_tokens;
    mp ← update_key_map mp inp;
    if (match_pos =? 0)%nat then Ret (mp, draft) else draft_at mp inp key_tokens match_pos draft.

(** *** [common_ngram_map_accept] *)

Definition common_ngram_map_accept (mp : common_ngram_map) (n_accepted : Z) : outcome common_ngram_map :=
  if mp_last_draft_created mp then
    key ← at_ (mp_keys mp) (mp_last_draft_key_idx mp);
    x ← at_ (ky_values key) (mp_last_draft_value_idx mp);
    values ← set_ (ky_values key) (mp_last_draft_value_idx mp) (mk_value (vl_idx x) (vl_num x) (i16 n_accepted));
    keys ← set_ (mp_keys mp) (mp_last_draft_key_idx mp) (mk_key (ky_idx key) (ky_stat_idx key) (ky_num key) values);
    Ret (with_keys keys mp)
  else Ret mp.

(** ** [common_ngram_mod]

    A table of the token that followed an n-gram last, under the hash of the
    n-gram.  A pointer to tokens is the list that starts there. *)

Definition EMPTY : Z := -1.

Record common_ngram_mod := mk_mod { md_n : nat; md_used : nat; md_entries : list Z }.

Definition mod_reset (md : common_ngram_mod) : common_ngram_mod := mk_mod (md_n md) 0 (replicate (length (md_entries md)) EMPTY).

Definition new_mod (n size : nat) : common_ngram_mod := mod_reset (mk_mod n 0 (replicate size 0)).

Definition mod_hash (n : nat) tokens : outcome Z :=
  foldM (fun res i => t ← at_ tokens i; Ret (u64 (res * 6364136223846793005 + t))) 0 (seq 0 n).

(** The remainder of a division by 0 is undefined. *)
Definition mod_idx (md : common_ngram_mod) tokens : outcome nat :=
  res ← mod_hash (md_n md) tokens;
  match md_entries md with
  | [] => Undef
  | _ => Ret (Z.to_nat (res mod Z.of_nat (length (md_entries md))))
  end.

Definition mod_add (md : common_ngram_mod) tokens : outcome common_ngram_mod :=
  i ← mod_idx md tokens;
  old ← at_ (md_entries md) i;
  t ← at_ tokens (md_n md);
  entries ← set_ (md_entries md) i t;
  Ret (mk_mod (md_n md) (if old =? EMPTY then S (md_used md) else md_used md) entries).

Definition mod_get (md : common_ngram_mod) tokens : outcome Z := i ← mod_idx md tokens; at_ (md_entries md) i.

(** *** [common_speculative_state_ngram_mod] *)

Record ngram_mod_state := mk_mod_state { ms_mod : common_ngram_mod; ms_i_last : nat; ms_n_draft_last : nat; ms_n_low : nat }.

(** Adding the n-grams from [first] up to [last]. *)
Definition add_range (md : common_ngram_mod) tokens (first last : nat) : outcome common_ngram_mod :=
  foldM (fun md i => mod_add md (drop i tokens)) md (seq first (last - first)).

(** The occupancy is compared with a quarter. *)
Definition mod_begin (st : ngram_mod_state) (prompt : list Z) : outcome ngram_mod_state :=
  let n := md_n (ms_mod st) in
  if (length prompt <? n)%nat then Ret (mk_mod_state (ms_mod st) 0 0 (ms_n_low st))
  else
    md ← add_range (ms_mod st) prompt 0 (length prompt - n);
    let full := Z.of_nat (length (md_entries md)) <? 4 * Z.of_nat (md_used md) in
    Ret (mk_mod_state (if full then mod_reset md else md) (length prompt - n) 0 (ms_n_low st)).

(** The loop over the drafted tokens; [None]: the draft is given up. *)
Fixpoint mod_draft_loop (md : common_ngram_mod) (n_min : Z) (i : Z) (steps : nat) (result : list Z) : outcome (option (list Z)) :=
  match steps with
  | O => Ret (Some result)
  | S steps =>
      token ← mod_get md (drop (Z.to_nat i) result);
      if token =? EMPTY then Ret (if i <? n_min then None else Some result)
      else mod_draft_loop md n_min (i + 1) steps (result ++ [token])
  end.

(** The [n] tokens before the place of the draft are dropped at the end. *)
Definition mod_draft (st : ngram_mod_state) (n_min n_max : Z) (prompt_tgt : list Z) (id_last : Z) (result : list Z) : outcome (list Z * ngram_mod_state) :=
  let n := md_n (ms_mod st) in
  let cur_len := length prompt_tgt in
  let st := mk_mod_state (ms_mod st) (ms_i_last st) 0 (ms_n_low st) in
  if (cur_len <? n)%nat then Ret (result, st)
  else
    st ← (if (ms_i_last st + 32 <? cur_len)%nat
          then md ← add_range (ms_mod st) prompt_tgt (ms_i_last st) (cur_len - n); Ret (mk_mod_state md (cur_len - n) 0 (ms_n_low st))
          else Ret st);
    r ← mod_draft_loop (ms_mod st) n_min 0 (Z.to_nat n_max) (drop (cur_len - n + 1) prompt_tgt ++ [id_last]);
    match r with
    | None => Ret ([], st)
    | Some r => let r := drop n r in Ret (r, mk_mod_state (ms_mod st) (ms_i_last st) (length r) (ms_n_low st))
    end.

(** The accepted fraction is compared with a half. *)
Definition mod_accept (st : ngram_mod_state) (n_accepted : Z) : ngram_mod_state :=
  if (0 <? ms_n_draft_last st)%nat then
    if 2 * n_accepted <? Z.of_nat (ms_n_draft_last st) then
      if (3 <=? S (ms_n_low st))%nat then mk_mod_state (mod_reset (ms_mod st)) (ms_i_last st) (ms_n_draft_last st) 0
      else mk_mod_state (ms_mod st) (ms_i_last st) (ms_n_draft_last st) (S (ms_n_low st))
    else mk_mod_state (ms_mod st) (ms_i_last st) (ms_n_draft_last st) 0
  else st.

(** ** [common_speculative]: the implementations in the order of preference

    The table of [common_ngram_mod] is shared by the contexts of all slots; here is
    one context.  The draft model is not modelled. *)

Inductive spec_impl :=
  | ImplSimple (config : common_ngram_simple_config)
  | ImplMap (mp : common_ngram_map)
  | ImplMod (st : ngram_mod_state)
  | ImplCache (st : ngram_cache_state).

Record common_speculative := mk_spec { sp_impls : list spec_impl; sp_curr_impl : option nat }.

Section Speculative.
Context {It : Iteration}.

Definition impl_begin (impl : spec_impl) (prompt : list Z) : outcome spec_impl :=
  match impl with
  | ImplMap mp => Ret (ImplMap (common_ngram_map_begin mp prompt))
  | ImplMod st => st ← mod_begin st prompt; Ret (ImplMod st)
  | _ => Ret impl
  end.

Definition impl_draft (n_min n_max : Z) (impl : spec_impl) (prompt_tgt : list Z) (id_last : Z) : outcome (list Z * spec_impl) :=
  match impl with
  | ImplSimple config => draft ← common_ngram_simple_draft config prompt_tgt id_last; Ret (draft, impl)
  | ImplMap mp => '(mp, draft) ← common_ngram_map_draft mp prompt_tgt id_last []; Ret (draft, ImplMap mp)
  | ImplMod st => '(draft, st) ← mod_draft st n_min n_max prompt_tgt id_last []; Ret (draft, ImplMod st)
  | ImplCache st => '(draft, st) ← cache_state_draft st prompt_tgt id_last; Ret (draft, ImplCache st)
  end.

Definition impl_accept (impl : spec_impl) (n_accepted : Z) : outcome spec_impl :=
  match impl with
  | ImplMap mp => mp ← common_ngram_map_accept mp n_accepted; Ret (ImplMap mp)
  | ImplMod st => Ret (ImplMod (mod_accept st n_accepted))
  | _ => Ret impl
  end.

Definition common_speculative_begin (spec : common_speculative) (prompt : list Z) : outcome common_speculative :=
  impls ← foldM (fun l impl => impl ← impl_begin impl prompt; Ret (l ++ [impl])) [] (sp_impls spec);
  Ret (mk_spec impls (sp_curr_impl spec)).

(** The implementations before the current one are [done_]. *)
Fixpoint draft_impls (n_min n_max : Z) (prompt_tgt : list Z) (id_last : Z) (done_ impls : list spec_impl) : outcome (list Z * common_speculative) :=
  match impls with
  | [] => Ret ([], mk_spec done_ None)
  | impl :: impls =>
      '(result, impl) ← impl_draft n_min n_max impl prompt_tgt id_last;
      if bool_decide (result = []) then draft_impls n_min n_max prompt_tgt id_last (done_ ++ [impl]) impls
      else Ret (result, mk_spec (done_ ++ impl :: impls) (Some (length done_)))
  end.

Definition common_speculative_draft (n_min n_max : Z) (spec : common_speculative) (prompt_tgt : list Z) (id_last : Z) : outcome (list Z * common_speculative) :=
  draft_impls n_min n_max prompt_tgt id_last [] (sp_impls spec).

Definition common_speculative_accept (spec : common_speculative) (n_accepted : Z) : outcome common_speculative :=
  if n_accepted =? 0 then Ret spec
  else
    match sp_curr_impl spec with
    | None => Fatal "impl"
    | Some i =>
        impl ← at_ (sp_impls spec) i;
        impl ← impl_accept impl n_accepted;
        impls ← set_ (sp_impls spec) i impl;
        Ret (mk_spec impls (sp_curr_impl spec))
    end.

End Speculative.
