(* ===== verification/NgramTheorems.v ===== *)
(** * Drafts from the history: the search is exact, the map of n-grams stays within
    the history, and the table of n-grams is followed. *)

From S2P Require Import Prelude Vocabulary NgramCache NgramMap.
From Stdlib Require Import Lia.

Implicit Types (tokens inp draft pattern : list Z) (mp : common_ngram_map) (md : common_ngram_mod).

(** ** Searching *)

(** The [n] tokens at a position. *)
Definition gram tokens (j n : nat) : list Z := take n (drop j tokens).

Lemma gram_S tokens j n x : tokens !! j = Some x -> gram tokens j (S n) = x :: gram tokens (S j) n.
Proof. intros Hx. unfold gram. by rewrite (drop_S tokens x j Hx). Qed.

Lemma matches_spec tokens pattern : forall j, (j + length pattern <= length tokens)%nat -> matches tokens j pattern = Ret (bool_decide (gram tokens j (length pattern) = pattern)).
Proof.
  induction pattern as [|x pattern IH]; intros j Hj; [done|]. cbn [matches length] in *. destruct (lookup_lt_is_Some_2 tokens j) as [y Hy]; [lia|]. rewrite (proj2 (at_Ret _ _ _) Hy), (gram_S _ _ _ _ Hy). cbn [mbind outcome_bind].
  destruct (y =? x) eqn:E; bool_hyps.
  - subst. rewrite IH by lia. f_equal. apply bool_decide_ext. split; [congruence|intros H; by injection H].
  - rewrite bool_decide_eq_false_2; [done|]. intros H. by injection H as ?.
Qed.

Lemma same_tokens_spec inp m : forall i j, (i + m <= length inp)%nat -> (j + m <= length inp)%nat -> same_tokens inp i j m = Ret (bool_decide (gram inp i m = gram inp j m)).
Proof.
  induction m as [|m IH]; intros i j Hi Hj; [done|]. cbn [same_tokens]. destruct (lookup_lt_is_Some_2 inp i) as [x Hx]; [lia|]. destruct (lookup_lt_is_Some_2 inp j) as [y Hy]; [lia|].
  rewrite (proj2 (at_Ret _ _ _) Hx), (proj2 (at_Ret _ _ _) Hy), (gram_S _ _ _ _ Hx), (gram_S _ _ _ _ Hy). cbn [mbind outcome_bind]. destruct (x =? y) eqn:E; bool_hyps.
  - subst. rewrite IH by lia. f_equal. apply bool_decide_ext. split; [congruence|intros H; by injection H].
  - rewrite bool_decide_eq_false_2; [done|]. intros H. by injection H as ?.
Qed.

(** [p] is the last position in a range where the pattern is, or 0. *)
Definition last_match tokens pattern (lo hi p : nat) : Prop :=
  (p = 0%nat /\ forall i, (lo < i <= hi)%nat -> gram tokens i (length pattern) <> pattern)
  \/ ((lo < p <= hi)%nat /\ gram tokens p (length pattern) = pattern /\ forall i, (p < i <= hi)%nat -> gram tokens i (length pattern) <> pattern).

Lemma search_down_spec tokens pattern lo : forall j, (j + length pattern <= length tokens)%nat -> exists p, search_down tokens pattern lo j = Ret p /\ last_match tokens pattern lo j p.
Proof.
  induction j as [|j IH]; intros Hj; cbn [search_down]; [exists 0%nat; split; [done|]; left; split; [done|lia]|].
  destruct (lo <? S j)%nat eqn:E; [apply Nat.ltb_lt in E|apply Nat.ltb_ge in E; exists 0%nat; split; [done|]; left; split; [done|lia]].
  rewrite matches_spec by done. cbn [mbind outcome_bind]. case_bool_decide as Hm; [exists (S j); split; [done|]; right; split_and!; [lia|lia|done|lia]|].
  destruct (IH ltac:(lia)) as (p & -> & Hp). exists p. split; [done|].
  destruct Hp as [[-> Hn]|(Hp & Hg & Hn)]; [left; split; [done|]|right; split_and!; [lia|lia|done|]]; intros i Hi; (destruct (decide (i = S j)) as [->|]; [done|apply Hn; lia]).
Qed.

Lemma copy_tokens_spec inp start n draft : (start + n <= length inp)%nat -> copy_tokens inp start n draft = Ret (draft ++ gram inp start n).
Proof.
  intros Hl. unfold copy_tokens. induction n as [|n IH]; [by rewrite app_nil_r|]. rewrite seq_S, foldM_app, IH by lia. cbn [mbind outcome_bind foldM Nat.add].
  destruct (lookup_lt_is_Some_2 inp (start + n)) as [x Hx]; [lia|]. rewrite (proj2 (at_Ret _ _ _) Hx). cbn [mbind outcome_bind]. rewrite <- app_assoc. unfold gram. rewrite (take_S_r _ n x); [done|]. by rewrite lookup_drop.
Qed.

Lemma length_key_of tokens sampled n : (1 <= n <= length tokens)%nat -> length (key_of tokens sampled n) = n.
Proof. intros Hn. unfold key_of. rewrite length_app, length_drop. cbn. lia. Qed.

(** C1: The simple draft is exact: for a history that is long enough it is what
    followed the last earlier occurrence of the current n-gram, up to the size of an
    m-gram, unless less than an n-gram is left; without an occurrence there is no
    draft.  Position 0 is left out. *)
Theorem simple_draft_exact config tokens sampled : (1 <= sc_size_ngram config)%nat ->
  let n := sc_size_ngram config in
  let m := sc_size_mgram config in
  let key := key_of tokens sampled n in
  ((length tokens <= n + m + 1)%nat -> common_ngram_simple_draft config tokens sampled = Ret [])
  /\ ((n + m + 1 < length tokens)%nat -> exists p, last_match tokens key 0 (length tokens - n - 1) p
    /\ common_ngram_simple_draft config tokens sampled = Ret (if decide (p = 0%nat \/ (m < n)%nat \/ (length tokens < p + n + n)%nat) then [] else gram tokens (p + n) m)).
Proof.
  intros Hn n m key. unfold common_ngram_simple_draft. fold n m key. split; intros Hl; [by rewrite (proj2 (Nat.leb_le _ _)) by lia|]. rewrite (proj2 (Nat.leb_gt _ _)) by lia.
  assert (Hk : length key = n) by (apply length_key_of; unfold n in *; lia). destruct (search_down_spec tokens key 0 (length tokens - n - 1)) as (p & -> & Hp); [unfold n in *; lia|]. exists p. split; [done|]. cbn [mbind outcome_bind].
  destruct (p =? 0)%nat eqn:E0; [apply Nat.eqb_eq in E0; by rewrite decide_True by auto|apply Nat.eqb_neq in E0]. assert (Hr : (p <= length tokens - n - 1)%nat) by (destruct Hp as [[-> _]|(? & _)]; lia).
  destruct (Nat.min m (length tokens - (p + n)) <? n)%nat eqn:E; [apply Nat.ltb_lt in E; rewrite decide_True by lia; done|apply Nat.ltb_ge in E]. rewrite decide_False by lia. rewrite copy_tokens_spec by lia. cbn [app]. f_equal.
  unfold gram. destruct (decide (m <= length tokens - (p + n))%nat); [by rewrite Nat.min_l by lia|]. rewrite Nat.min_r by lia. rewrite !take_ge by (rewrite length_drop; lia). done.
Qed.

(** ** The map of n-grams stays within the history *)

(** The n-gram and the m-gram at [i] lie before the last beginning, or after it and
    before the last check. *)
Definition fits (n m slb chk i : nat) : Prop := (i + n + m < slb)%nat \/ (slb < i /\ i + n + m < chk)%nat.
Definition value_fits (m : nat) (key_only : bool) (top : nat) (x : common_ngram_map_value) : Prop := vl_idx x = 0%nat \/ (key_only = false /\ vl_idx x + m <= top)%nat.

Record key_ok (n m : nat) (key_only : bool) (slb chk : nat) (key : common_ngram_map_key) : Prop := {
  ko_idx : fits n m slb chk (ky_idx key);
  ko_length : length (ky_values key) = COMMON_NGRAM_MAX_VALUES;
  ko_values : Forall (value_fits m key_only (Nat.max slb chk)) (ky_values key);
}.

Record map_ok mp : Prop := {
  mo_keys : Forall (key_ok (mp_size_key mp) (mp_size_value mp) (mp_key_only mp) (mp_size_last_begin mp) (mp_idx_last_check mp)) (mp_keys mp);
  mo_key_map : Forall (fun e => e = 0%nat \/ fits (mp_size_key mp) (mp_size_value mp) (mp_size_last_begin mp) (mp_idx_last_check mp) e) (mp_key_map mp);
}.

(** The last draft belongs to a value that is there. *)
Definition last_ok mp : Prop := mp_last_draft_created mp = true -> exists key, mp_keys mp !! mp_last_draft_key_idx mp = Some key /\ (mp_last_draft_value_idx mp < length (ky_values key))%nat.

Lemma fits_mono n m slb chk chk' i : (chk <= chk')%nat -> fits n m slb chk i -> fits n m slb chk' i.
Proof. unfold fits. lia. Qed.

Lemma value_fits_mono m ko top top' x : (top <= top')%nat -> value_fits m ko top x -> value_fits m ko top' x.
Proof. unfold value_fits. intros Ht [?|[? ?]]; [by left|right; split; [done|lia]]. Qed.

Lemma key_ok_mono n m ko slb chk chk' key : (chk <= chk')%nat -> key_ok n m ko slb chk key -> key_ok n m ko slb chk' key.
Proof. intros Hc [H1 H2 H3]. constructor; [by eapply fits_mono|done|]. eapply Forall_impl; [exact H3|]. intros x. apply value_fits_mono. lia. Qed.

(** *** Beginning again *)

Lemma begin_ok mp tokens : map_ok mp -> (mp_size_last_begin mp <= length tokens)%nat -> mp_key_only mp = true \/ (mp_idx_last_check mp <= length tokens)%nat -> map_ok (common_ngram_map_begin mp tokens).
Proof.
  intros [Hk He] Hs Hc. set (n := mp_size_key mp) in *. set (m := mp_size_value mp) in *. set (slb := mp_size_last_begin mp) in *. set (chk := mp_idx_last_check mp) in *. set (L := length tokens) in *.
  assert (Hold : forall i, (chk <= L)%nat -> fits n m slb chk i -> fits n m L (slb - 1) i) by (unfold fits; lia).
  assert (Hnew : forall i, (i < slb)%nat -> fits n m slb chk i -> fits n m L (slb - 1) i) by (unfold fits; lia).
  unfold common_ngram_map_begin. fold slb chk L. destruct (L <? chk)%nat eqn:E; [apply Nat.ltb_lt in E|apply Nat.ltb_ge in E].
  - destruct Hc as [Hko|?]; [|lia]. rewrite andb_true_r. cbn [andb].
    assert (Hkeys : Forall (key_ok n m (mp_key_only mp) L (slb - 1)) (omap (refresh_key (mp_key_only mp) slb) (mp_keys mp))).
    { apply Forall_forall. intros key Hin. apply list_elem_of_omap in Hin as (key0 & Hin & Hr). rewrite Forall_forall in Hk. destruct (Hk key0 Hin) as [K1 K2 K3]. unfold refresh_key in Hr. rewrite Hko in Hr.
      destruct (slb <=? ky_idx key0)%nat eqn:El; [done|apply Nat.leb_gt in El]. injection Hr as <-. constructor; [by apply Hnew|done|]. eapply Forall_impl; [exact K3|]. intros x [Hx|[Hx _]]; [by left|congruence]. }
    assert (Hmap : Forall (fun e => e = 0%nat \/ fits n m L (slb - 1) e) (map (fun key_idx => if (slb <=? key_idx)%nat then 0%nat else key_idx) (mp_key_map mp))).
    { apply Forall_fmap. eapply Forall_impl; [exact He|]. intros e He'. cbn. destruct (slb <=? e)%nat eqn:El; [by left|apply Nat.leb_gt in El]. destruct He' as [->|He']; [by left|right; by apply Hnew]. }
    destruct (decide (mp_key_map mp = [])) as [Em|Em], (decide (mp_keys mp = [])) as [Ek|Ek]; rewrite ?(bool_decide_eq_true_2 (mp_key_map mp = [])), ?(bool_decide_eq_false_2 (mp_key_map mp = [])) by done; cbn [negb with_key_map mp_keys];
      rewrite ?(bool_decide_eq_true_2 (mp_keys mp = [])), ?(bool_decide_eq_false_2 (mp_keys mp = [])) by done; cbn [negb]; constructor; cbn; rewrite ?Em, ?Ek; done.
  - rewrite andb_false_r. cbn [andb]. constructor; cbn [with_check mp_keys mp_key_map mp_size_key mp_size_value mp_key_only mp_size_last_begin mp_idx_last_check]; fold n m L.
    + eapply Forall_impl; [exact Hk|]. intros key [K1 K2 K3]. constructor; [by apply Hold|done|]. eapply Forall_impl; [exact K3|]. intros x. apply value_fits_mono. lia.
    + eapply Forall_impl; [exact He|]. intros e [->|H]; [by left|right; by apply Hold].
Qed.

Lemma set_in {A} (l : list A) i x : (i < length l)%nat -> set_ l i x = Ret (<[i := x]> l).
Proof. intros Hi. unfold set_. by rewrite decide_True. Qed.

(** *** Hashes *)

Lemma hash_total tokens start len : (start + len <= length tokens)%nat -> exists h, common_ngram_map_hash tokens start len = Ret h /\ 0 <= h.
Proof.
  unfold common_ngram_map_hash. induction len as [|len IH]; intros Hl; [by exists 0|]. destruct IH as (h & E & Hh); [lia|]. rewrite seq_S, foldM_app, E. cbn [mbind outcome_bind foldM Nat.add].
  destruct (lookup_lt_is_Some_2 tokens (start + len)) as [x Hx]; [lia|]. rewrite (proj2 (at_Ret _ _ _) Hx). eexists. split; [done|]. apply u32_range.
Qed.

Lemma hash_idx_total tokens start len size : (start + len <= length tokens)%nat -> (0 < size)%nat -> exists i, hash_idx tokens start len size = Ret i /\ (i < size)%nat.
Proof.
  intros Hl Hs. unfold hash_idx. destruct (hash_total tokens start len Hl) as (h & -> & Hh). eexists. split; [done|]. pose proof (Z.mod_pos_bound h (Z.of_nat size)). lia.
Qed.

Lemma add_hashes_total inp n lo : forall j key_map, (j + n <= length inp)%nat -> key_map <> [] ->
  exists key_map', add_hashes inp n lo j key_map = Ret key_map' /\ key_map' <> [] /\ forall e, e ∈ key_map' -> e ∈ key_map \/ (lo < e <= j)%nat.
Proof.
  induction j as [|j IH]; intros key_map Hj Hm; cbn [add_hashes]; [exists key_map; split_and!; [done|done|by left]|]. destruct (lo <? S j)%nat eqn:E; [apply Nat.ltb_lt in E|exists key_map; split_and!; [done|done|by left]].
  assert (Hs : (0 < length key_map)%nat) by (destruct key_map; [done|cbn; lia]). destruct (hash_idx_total inp (S j) n (length key_map)) as (i & -> & Hi); [lia|done|]. cbn [mbind outcome_bind].
  destruct (lookup_lt_is_Some_2 key_map i Hi) as [old Hold]. rewrite (proj2 (at_Ret _ _ _) Hold). cbn [mbind outcome_bind]. destruct (old =? 0)%nat.
  - unfold set_. rewrite decide_True by done. cbn [mbind outcome_bind]. destruct (IH (<[i:=S j]> key_map)) as (km & -> & Hn & He); [lia|destruct key_map; [done|by destruct i]|]. exists km. split_and!; [done|done|].
    intros e Hin. destruct (He e Hin) as [H|H]; [|right; lia]. apply list_elem_of_lookup in H as [k Hk]. destruct (decide (k = i)) as [->|Hne].
    + rewrite list_lookup_insert_eq in Hk by done. injection Hk as <-. right. lia.
    + rewrite list_lookup_insert_ne in Hk by done. left. by eapply list_elem_of_lookup_2.
  - cbn [mbind outcome_bind]. destruct (IH key_map) as (km & -> & Hn & He); [lia|done|]. exists km. split_and!; [done|done|]. intros e Hin. destruct (He e Hin); [by left|right; lia].
Qed.

(** *** Finding the key *)

Section Draft.
Variables (mp : common_ngram_map) (inp key : list Z).
Let n := mp_size_key mp.
Let m := mp_size_value mp.
Let slb := mp_size_last_begin mp.
Let cur := length inp.
Hypotheses (Hn : (1 <= n)%nat) (Hkey : length key = n) (Hlen : (2 * n + m <= cur)%nat) (Hslb : (slb <= cur)%nat) (Hchk : mp_idx_last_check mp = cur) (Hok : map_ok mp) (Hlast : mp_last_draft_created mp = false).

(** A place where the key was found. *)
Definition found (p : nat) : Prop := p <> 0%nat /\ fits n m slb cur p /\ gram inp p n = key.

Lemma found_bound p : found p -> (0 < p /\ p + n + m < cur)%nat.
Proof using All. unfold found, fits. lia. Qed.

Lemma find_in_key_map_ok : exists p, find_in_key_map mp inp key = Ret p /\ (p = 0%nat \/ found p).
Proof using All.
  unfold find_in_key_map. case_bool_decide as Hm; [exists 0%nat; by auto|]. destruct (hash_idx_total key 0 (mp_size_key mp) (length (mp_key_map mp))) as (i & -> & Hi); [fold n; lia|destruct (mp_key_map mp); [done|cbn; lia]|].
  cbn [mbind outcome_bind]. destruct (lookup_lt_is_Some_2 _ i Hi) as [e He]. rewrite (proj2 (at_Ret _ _ _) He). cbn [mbind outcome_bind]. fold n m cur.
  destruct (negb (e =? 0)%nat && (e <? cur - n - m - 1)%nat) eqn:E; [|exists 0%nat; by auto]. apply andb_true_iff in E as [E0 E1]. apply negb_true_iff, Nat.eqb_neq in E0. apply Nat.ltb_lt in E1.
  rewrite matches_spec by (fold cur; lia). cbn [mbind outcome_bind]. case_bool_decide as Hg; [|exists 0%nat; by auto]. exists e. split; [done|]. right. rewrite Hkey in Hg. split_and!; [done| |done].
  destruct (proj1 (Forall_forall _ _) (mo_key_map mp Hok) e) as [?|H]; [by eapply list_elem_of_lookup_2|done|]. by rewrite Hchk in H.
Qed.

Lemma find_match_ok : exists p, find_match mp inp key = Ret p /\ (p = 0%nat \/ found p).
Proof using All.
  unfold find_match. destruct find_in_key_map_ok as (p & -> & Hp). cbn [mbind outcome_bind]. fold n m slb cur.
  assert (H2 : exists p2, (if (p =? 0)%nat && (n + m + 1 <? slb)%nat then search_down inp key (mp_key_map_last_idx mp) (slb - n - m - 1) else Ret p) = Ret p2 /\ (p2 = 0%nat \/ found p2)).
  { destruct ((p =? 0)%nat && (n + m + 1 <? slb)%nat) eqn:E; [|by exists p]. apply andb_true_iff in E as [_ E]. apply Nat.ltb_lt in E. destruct (search_down_spec inp key (mp_key_map_last_idx mp) (slb - n - m - 1)) as (p2 & -> & H); [fold cur; lia|].
    exists p2. split; [done|]. destruct H as [[-> _]|(Hr & Hg & _)]; [by left|right]. rewrite Hkey in Hg. split_and!; [lia|left; lia|done]. }
  destruct H2 as (p2 & -> & H2). cbn [mbind outcome_bind]. destruct (p2 =? 0)%nat eqn:E; [|by exists p2]. destruct (search_down_spec inp key (Nat.max slb (mp_key_map_last_idx mp)) (cur - n - m - 1)) as (p3 & -> & H); [fold cur; lia|].
  exists p3. split; [done|]. destruct H as [[-> _]|(Hr & Hg & _)]; [by left|right]. rewrite Hkey in Hg. split_and!; [lia|right; lia|done].
Qed.

Lemma update_key_map_ok : exists km last, update_key_map mp inp = Ret (with_key_map km last mp) /\ Forall (fun e => e = 0%nat \/ fits n m slb cur e) km.
Proof using All.
  pose proof (mo_key_map mp Hok) as He. fold n m slb in He. rewrite Hchk in He. unfold update_key_map. case_bool_decide as Hm; [exists (mp_key_map mp), (mp_key_map_last_idx mp); split; [by destruct mp|done]|]. fold n m slb cur.
  set (last := mp_key_map_last_idx mp). assert (H1 : exists km, (if (n + m + 1 <? slb)%nat then add_hashes inp n last (slb - n - m - 1) (mp_key_map mp) else Ret (mp_key_map mp)) = Ret km /\ km <> [] /\ Forall (fun e => e = 0%nat \/ fits n m slb cur e) km).
  { destruct (n + m + 1 <? slb)%nat eqn:E; [apply Nat.ltb_lt in E|by exists (mp_key_map mp)]. destruct (add_hashes_total inp n last (slb - n - m - 1) (mp_key_map mp)) as (km & -> & Hk & Hin); [fold cur; lia|done|]. exists km. split_and!; [done|done|].
    apply Forall_forall. intros e H. destruct (Hin e H) as [H'|H']; [exact (proj1 (Forall_forall _ _) He e H')|right; left; lia]. }
  destruct H1 as (km & -> & Hkm & Hf). cbn [mbind outcome_bind]. destruct (add_hashes_total inp n (Nat.max slb last) (cur - n - m - 1) km) as (km' & -> & _ & Hin); [fold cur; lia|done|]. cbn [mbind outcome_bind].
  eexists _, _. split; [reflexivity|]. apply Forall_forall. intros e H. destruct (Hin e H) as [H'|H']; [exact (proj1 (Forall_forall _ _) Hf e H')|right; right; lia].
Qed.

(** *** The statistics of a key *)

Lemma find_key_ok keys : Forall (fun k => (ky_idx k + n <= cur)%nat) keys -> exists i, find_key keys inp key = Ret i /\ (i <= length keys)%nat.
Proof using All.
  induction keys as [|k keys IH]; intros H; [by exists 0%nat|]. apply Forall_cons in H as [Hk H]. cbn [find_key]. rewrite matches_spec by (fold cur; lia). cbn [mbind outcome_bind].
  case_bool_decide; [exists 0%nat; split; [done|cbn; lia]|]. destruct (IH H) as (i & -> & Hi). exists (S i). split; [done|cbn; lia].
Qed.

Definition values_ok (values : list common_ngram_map_value) : Prop := length values = COMMON_NGRAM_MAX_VALUES /\ Forall (value_fits m false cur) values.

Lemma find_value_ok idx : (idx + m <= cur)%nat -> forall values v, Forall (value_fits m false cur) values ->
  exists r values', find_value inp m idx v values = Ret (r, values') /\ length values' = length values /\ Forall (value_fits m false cur) values' /\ forall s, r = Some s -> (v <= s < v + length values)%nat.
Proof using All.
  intros Hi. induction values as [|x values IH]; intros v H; [exists None, []; by split_and!|]. apply Forall_cons in H as [Hx H]. cbn [find_value]. destruct (vl_idx x =? 0)%nat eqn:E.
  - eexists _, _. split_and!; [reflexivity|done|apply Forall_cons; split; [right; done|done]|]. intros s [= <-]. cbn. lia.
  - apply Nat.eqb_neq in E. destruct Hx as [?|[_ Hx]]; [done|]. rewrite same_tokens_spec by (fold cur; lia). cbn [mbind outcome_bind]. case_bool_decide.
    + eexists _, _. split_and!; [reflexivity|done|apply Forall_cons; split; [by right|done]|]. intros s [= <-]. cbn. lia.
    + destruct (IH (S v) H) as (r & values' & -> & Hl & Hf & Hr). cbn [mbind outcome_bind]. eexists _, _. split_and!; [reflexivity|cbn; by rewrite Hl|apply Forall_cons; split; [by right|done]|]. intros s Hs. specialize (Hr s Hs). cbn. lia.
Qed.

Lemma stat_step_ok values i : values_ok values -> (i + n + m <= cur)%nat -> exists values', stat_step inp key n m values i = Ret values' /\ values_ok values'.
Proof using All.
  intros [Hl Hv] Hi. unfold stat_step. rewrite matches_spec by (fold cur; lia). cbn [mbind outcome_bind]. case_bool_decide; [|exists values; split; [done|by split]].
  destruct (find_value_ok (i + n) ltac:(lia) values 0 Hv) as (r & values' & -> & Hl' & Hf & Hr). cbn [mbind outcome_bind]. destruct r as [s|]; [|exists values'; split; [done|split; [congruence|done]]].
  destruct (lookup_lt_is_Some_2 values' s) as [x Hx]; [specialize (Hr s eq_refl); lia|]. rewrite (proj2 (at_Ret _ _ _) Hx). cbn [mbind outcome_bind]. unfold set_. rewrite decide_True by (by eapply lookup_lt_Some).
  eexists. split; [done|]. split; [by rewrite length_insert, Hl'|]. apply Forall_insert; [done|]. exact (proj1 (Forall_lookup _ _) Hf s x Hx).
Qed.

Lemma stats_ok p first values : values_ok values -> (p + n + m <= cur)%nat -> exists values', foldM (stat_step inp key n m) values (seq first (S p - first)) = Ret values' /\ values_ok values'.
Proof using All.
  intros Hv Hp. assert (H : forall js values, (forall i, i ∈ js -> (i <= p)%nat) -> values_ok values -> exists values', foldM (stat_step inp key n m) values js = Ret values' /\ values_ok values').
  { clear values Hv. induction js as [|i js IH]; intros values Hi Hv; [by exists values|]. cbn [foldM]. destruct (stat_step_ok values i Hv) as (v1 & -> & H1); [specialize (Hi i ltac:(set_solver)); lia|]. cbn [mbind outcome_bind]. apply IH; [set_solver|done]. }
  apply H; [|done]. intros i Hi. apply elem_of_seq in Hi. lia.
Qed.

Lemma max_slot_bound values : (0 < length values)%nat -> ((max_slot values).2 < length values)%nat.
Proof using All.
  intros Hl. unfold max_slot. assert (H : forall l acc, (acc.2 < length values)%nat -> (forall v x, (v, x) ∈ l -> (v < length values)%nat) ->
    ((foldl (fun '(max_occur, slot_max) '(v, x) => if (max_occur <? vl_num x)%Z then (vl_num x, v) else (max_occur, slot_max)) acc l).2 < length values)%nat).
  { induction l as [|[v x] l IH]; intros [mo sm] Ha Hin; [done|]. cbn [foldl]. apply IH; [|intros v' x' H'; apply (Hin v' x'); by right]. destruct (mo <? vl_num x); [|done]. cbn. apply (Hin v x). by left. }
  apply H; [done|]. intros v x Hin. apply elem_of_zip_l in Hin. apply elem_of_seq in Hin. lia.
Qed.

(** *** The draft *)

(** A draft is a part of the history that follows an occurrence of the key. *)
Definition drafted draft : Prop := exists p k, (0 < p /\ p + n + m < cur)%nat /\ gram inp p n = key /\ (k <= m)%nat /\ draft = gram inp (p + n) k.

(** The settings stay; the last check is now. *)
Definition same_settings mp' : Prop := mp_size_key mp' = n /\ mp_size_value mp' = m /\ mp_key_only mp' = mp_key_only mp /\ mp_size_last_begin mp' = slb /\ mp_idx_last_check mp' = cur.

Lemma draft_at_ok p : found p -> exists mp' draft, draft_at mp inp key p [] = Ret (mp', draft) /\ map_ok mp' /\ last_ok mp' /\ same_settings mp' /\ (draft = [] \/ drafted draft).
Proof using All.
  intros Hp. destruct (found_bound p Hp) as [Hp0 Hpb]. destruct Hp as (_ & Hfit & Hg). pose proof (mo_keys mp Hok) as Hk. pose proof (mo_key_map mp Hok) as Hm. fold n m slb in Hk, Hm. rewrite Hchk in Hk, Hm.
  unfold draft_at. fold n m. destruct (find_key_ok (mp_keys mp)) as (i & -> & Hi).
  { eapply Forall_impl; [exact Hk|]. intros k [K _ _]. unfold fits in K. lia. }
  cbn [mbind outcome_bind]. set (keys := if (i =? length (mp_keys mp))%nat then mp_keys mp ++ [new_key p m] else mp_keys mp).
  assert (Hkeys : Forall (key_ok n m (mp_key_only mp) slb cur) keys /\ (i < length keys)%nat).
  { unfold keys. destruct (i =? length (mp_keys mp))%nat eqn:E; [apply Nat.eqb_eq in E|apply Nat.eqb_neq in E; split; [done|lia]]. split; [|rewrite length_app; cbn; lia].
    apply Forall_app; split; [done|]. apply Forall_singleton. constructor; [done|done|]. cbn. repeat constructor. }
  destruct Hkeys as [Hkeys Hik]. clearbody keys. destruct (lookup_lt_is_Some_2 keys i Hik) as [k Hki]. rewrite (proj2 (at_Ret _ _ _) Hki). cbn [mbind outcome_bind]. destruct (proj1 (Forall_lookup _ _) Hkeys i k Hki) as [K1 K2 K3].
  set (num := Z.min (ky_num k + 1) COMMON_NGRAM_MAX_VALUE_COUNT). rewrite (set_in keys i) by done. cbn [mbind outcome_bind ky_values ky_num ky_idx ky_stat_idx].
  assert (Hk1 : forall stat values, length values = COMMON_NGRAM_MAX_VALUES -> Forall (value_fits m (mp_key_only mp) (Nat.max slb cur)) values -> Forall (key_ok n m (mp_key_only mp) slb cur) (<[i := mk_key (ky_idx k) stat num values]> keys)).
  { intros stat values Hv1 Hv2. by apply Forall_insert. }
  assert (Hok' : forall keys', Forall (key_ok n m (mp_key_only mp) slb cur) keys' -> map_ok (with_keys keys' mp)) by (intros keys' H'; constructor; cbn; fold n m slb; by rewrite Hchk).
  assert (Hmp : mp_key_only (with_keys (<[i:=mk_key (ky_idx k) (ky_stat_idx k) num (ky_values k)]> keys) mp) = mp_key_only mp) by done. rewrite Hmp. clear Hmp.
  assert (Hcopy : forall x, exists d, copy_tokens inp (p + n) (n_draft_tokens m x) [] = Ret d /\ (d = [] \/ drafted d)).
  { intros x. assert (Hd : (n_draft_tokens m x <= m)%nat) by (unfold n_draft_tokens; lia). rewrite copy_tokens_spec by (fold cur; lia). eexists. split; [done|]. right. exists p, (n_draft_tokens m x). by split_and!. }
  destruct (mp_key_only mp) eqn:Eko.
  - destruct (lookup_lt_is_Some_2 (ky_values k) 0) as [x Hx]; [rewrite K2; unfold COMMON_NGRAM_MAX_VALUES; lia|]. rewrite (proj2 (at_Ret _ _ _) Hx). cbn [mbind outcome_bind]. destruct (Hcopy x) as (d & -> & Hd). cbn [mbind outcome_bind].
    eexists _, d. split; [reflexivity|]. assert (Hok1 : map_ok (with_keys (<[i:=mk_key (ky_idx k) (ky_stat_idx k) num (ky_values k)]> keys) mp)) by (apply Hok'; by apply Hk1). destruct Hok1 as [A B]. split_and!; [by constructor|done|by split_and!|done].
  - cbn [mp_min_hits with_keys]. destruct (num <? mp_min_hits mp).
    { eexists _, []. split; [reflexivity|]. split_and!; [apply Hok'; by apply Hk1|intros H'; cbn in H'; congruence|by split_and!|by left]. }
    assert (Hv0 : values_ok (ky_values k)). { split; [done|]. eapply Forall_impl; [exact K3|]. intros x. apply value_fits_mono. lia. }
    destruct (stats_ok p (ky_stat_idx k) (ky_values k) Hv0) as (values & -> & Hvl & Hvf); [lia|]. cbn [mbind outcome_bind]. rewrite set_in by (by rewrite length_insert). cbn [mbind outcome_bind]. rewrite list_insert_insert_eq.
    assert (Hk2 : Forall (key_ok n m false slb cur) (<[i := mk_key (ky_idx k) p num values]> keys)) by (apply Hk1; [done|]; eapply Forall_impl; [exact Hvf|]; intros x; apply value_fits_mono; lia).
    pose proof (max_slot_bound values ltac:(rewrite Hvl; unfold COMMON_NGRAM_MAX_VALUES; lia)) as Hslot. destruct (max_slot values) as [max_occur slot]. cbn [snd] in Hslot.
    destruct ((0 <? other_occurrences values slot) && (max_occur <? u32 (2 * other_occurrences values slot))).
    { eexists _, []. split; [reflexivity|]. split_and!; [by apply Hok'|intros H'; cbn in H'; congruence|by split_and!|by left]. }
    destruct (lookup_lt_is_Some_2 values slot Hslot) as [x Hx]. rewrite (proj2 (at_Ret _ _ _) Hx). cbn [mbind outcome_bind]. destruct (Hcopy x) as (d & -> & Hd). cbn [mbind outcome_bind].
    eexists _, d. split; [reflexivity|]. destruct (Hok' _ Hk2) as [A B]. split_and!; [by constructor| |by split_and!|done].
    intros _. cbn. eexists. split; [by apply list_lookup_insert_eq|done].
Qed.

End Draft.

Lemma draft_ok mp inp sampled : map_ok mp -> (1 <= mp_size_key mp)%nat -> (mp_size_last_begin mp <= length inp)%nat -> (mp_idx_last_check mp <= length inp)%nat -> Z.of_nat (length inp) < UINT32_MAX ->
  exists mp' draft, common_ngram_map_draft mp inp sampled [] = Ret (mp', draft) /\ map_ok mp' /\ last_ok mp'
    /\ mp_size_key mp' = mp_size_key mp /\ mp_size_value mp' = mp_size_value mp /\ mp_key_only mp' = mp_key_only mp /\ mp_size_last_begin mp' = mp_size_last_begin mp /\ (mp_idx_last_check mp' <= length inp)%nat
    /\ (draft = [] \/ drafted mp inp (key_of inp sampled (mp_size_key mp)) draft).
Proof.
  intros [Hk Hm] Hn Hs Hc Hu. unfold common_ngram_map_draft. cbn [with_last_draft mp_size_key mp_size_value mp_idx_last_check mp_size_last_begin].
  destruct (length inp <? 2 * mp_size_key mp + mp_size_value mp)%nat eqn:El; [apply Nat.ltb_lt in El|apply Nat.ltb_ge in El].
  { eexists _, []. split; [reflexivity|]. split_and!; [by constructor|by intros ?|done|done|done|done|done|by left]. }
  rewrite (proj2 (Z.ltb_lt _ _) Hu), (proj2 (Nat.leb_le _ _) Hc). cbn [c_assert mbind outcome_bind]. change (mp_size_last_begin (with_check _ _ _)) with (mp_size_last_begin mp). rewrite (proj2 (Nat.leb_le _ _) Hs). cbn [c_assert mbind outcome_bind].
  set (mp0 := with_check (mp_size_last_begin mp) (length inp) (with_last_draft false 0 0 mp)). set (key := key_of inp sampled (mp_size_key mp)).
  assert (Hkey : length key = mp_size_key mp0) by (apply length_key_of; cbn; lia).
  assert (Hok0 : map_ok mp0).
  { constructor; cbn; [eapply Forall_impl; [exact Hk|]; intros k; by apply key_ok_mono|]. eapply Forall_impl; [exact Hm|]. intros e [->|He]; [by left|right; exact (fits_mono _ _ _ _ _ _ Hc He)]. }
  destruct (find_match_ok mp0 inp key Hn Hkey El Hs eq_refl Hok0 eq_refl) as (p & -> & Hp). cbn [mbind outcome_bind].
  destruct (update_key_map_ok mp0 inp key Hn Hkey El Hs eq_refl Hok0 eq_refl) as (km & last & -> & Hkm). cbn [mbind outcome_bind].
  set (mp1 := with_key_map km last mp0). assert (Hok1 : map_ok mp1) by (constructor; [apply Hok0|exact Hkm]). destruct (p =? 0)%nat eqn:Ep.
  - eexists _, []. split; [reflexivity|]. split_and!; [done|by intros ?|done|done|done|done|done|by left].
  - apply Nat.eqb_neq in Ep. destruct Hp as [?|Hp]; [done|]. destruct (draft_at_ok mp1 inp key Hn Hkey El Hs eq_refl Hok1 eq_refl p Hp) as (mp' & d & E & Hok' & Hl & (S1 & S2 & S3 & S4 & S5) & Hd).
    exists mp', d. rewrite E. split_and!; [done|done|done|exact S1|exact S2|exact S3|exact S4|by rewrite S5|exact Hd].
Qed.

Lemma accept_ok mp k : map_ok mp -> last_ok mp -> exists mp', common_ngram_map_accept mp k = Ret mp' /\ map_ok mp'
  /\ mp_size_key mp' = mp_size_key mp /\ mp_size_value mp' = mp_size_value mp /\ mp_key_only mp' = mp_key_only mp /\ mp_size_last_begin mp' = mp_size_last_begin mp /\ mp_idx_last_check mp' = mp_idx_last_check mp.
Proof.
  intros [Hk Hm] Hl. unfold common_ngram_map_accept. destruct (mp_last_draft_created mp) eqn:E; [|exists mp; split_and!; by try constructor]. destruct (Hl E) as (key & Hki & Hv).
  rewrite (proj2 (at_Ret _ _ _) Hki). cbn [mbind outcome_bind]. destruct (lookup_lt_is_Some_2 _ _ Hv) as [x Hx]. rewrite (proj2 (at_Ret _ _ _) Hx). cbn [mbind outcome_bind]. rewrite set_in by done. cbn [mbind outcome_bind].
  rewrite set_in by (by eapply lookup_lt_Some). cbn [mbind outcome_bind]. eexists. split; [reflexivity|]. split; [|by split_and!]. destruct (proj1 (Forall_lookup _ _) Hk _ _ Hki) as [K1 K2 K3].
  constructor; cbn; [|done]. apply Forall_insert; [done|]. constructor; [done|cbn; by rewrite length_insert|]. cbn. apply Forall_insert; [done|]. exact (proj1 (Forall_lookup _ _) K3 _ _ Hx).
Qed.

(** *** A conversation

    A turn begins with a prompt; then drafts are asked for, and some of their tokens
    accepted. *)
Inductive ngram_op :=
  | NgBegin (tokens : list Z)
  | NgDraft (inp : list Z) (sampled : Z) (accepted : option Z).

Definition ngram_step (mp : common_ngram_map) (op : ngram_op) : outcome (common_ngram_map * list Z) :=
  match op with
  | NgBegin tokens => Ret (common_ngram_map_begin mp tokens, [])
  | NgDraft inp sampled accepted =>
      '(mp, draft) ← common_ngram_map_draft mp inp sampled [];
      mp ← match accepted with Some k => common_ngram_map_accept mp k | None => Ret mp end;
      Ret (mp, draft)
  end.

(** The drafts of a conversation, in order. *)
Fixpoint converse (mp : common_ngram_map) (ops : list ngram_op) : outcome (common_ngram_map * list (list Z)) :=
  match ops with
  | [] => Ret (mp, [])
  | op :: ops => '(mp, draft) ← ngram_step mp op; '(mp, drafts) ← converse mp ops; Ret (mp, draft :: drafts)
  end.

(** During a turn the history grows.  The prompt of the next turn is at least as long
    as that of the turn before; when values are kept, as long as the history. *)
Fixpoint plausible (key_only : bool) (len_begin len_last : nat) (ops : list ngram_op) : Prop :=
  match ops with
  | [] => True
  | NgBegin tokens :: ops => (len_begin <= length tokens)%nat /\ (key_only = true \/ (len_last <= length tokens)%nat) /\ plausible key_only (length tokens) (length tokens) ops
  | NgDraft inp _ _ :: ops => (len_last <= length inp)%nat /\ Z.of_nat (length inp) < UINT32_MAX /\ plausible key_only len_begin (length inp) ops
  end.

(** A draft repeats what followed an earlier occurrence of the current n-gram. *)
Definition repeats (n m : nat) (op : ngram_op) draft : Prop :=
  match op with
  | NgBegin _ => draft = []
  | NgDraft inp sampled _ => draft = [] \/ exists p k, (0 < p)%nat /\ (p + n + m < length inp)%nat /\ gram inp p n = key_of inp sampled n /\ (k <= m)%nat /\ draft = gram inp (p + n) k
  end.

(** C36. C2: In a conversation whose prompts do not shrink the map of n-grams never reads
    outside of the history and never aborts, and every draft repeats at most [m]
    tokens that followed an earlier occurrence of the current n-gram. *)
Theorem ngram_map_conversation n m key_only min_hits ops : (1 <= n)%nat -> plausible key_only 0 0 ops ->
  exists mp drafts, converse (new_map n m key_only min_hits) ops = Ret (mp, drafts) /\ Forall2 (repeats n m) ops drafts /\ map_ok mp.
Proof.
  intros Hn Hp. assert (H : forall ops mp len_begin len_last, mp_size_key mp = n -> mp_size_value mp = m -> mp_key_only mp = key_only -> mp_size_last_begin mp = len_begin -> (mp_idx_last_check mp <= len_last)%nat -> (len_begin <= len_last)%nat -> map_ok mp ->
    plausible key_only len_begin len_last ops -> exists mp' drafts, converse mp ops = Ret (mp', drafts) /\ Forall2 (repeats n m) ops drafts /\ map_ok mp').
  { clear ops Hp. induction ops as [|op ops IH]; intros mp lb ll E1 E2 E3 E4 Hc Hb Hok Hp; [exists mp, []; by split_and!|]. destruct op as [tokens|inp sampled accepted]; cbn [plausible converse ngram_step] in *.
    - destruct Hp as (H1 & H2 & H3). cbn [mbind outcome_bind]. assert (Hok' : map_ok (common_ngram_map_begin mp tokens)). { apply begin_ok; [done|lia|]. rewrite E3. destruct H2; [by left|right; lia]. }
      assert (Hset : forall A (f : common_ngram_map -> A), (forall ks x, f (with_keys ks x) = f x) -> (forall km l x, f (with_key_map km l x) = f x) -> (forall a b x, f (with_check a b x) = f x) -> f (common_ngram_map_begin mp tokens) = f mp).
      { intros A f F1 F2 F3. unfold common_ngram_map_begin. rewrite F3. destruct (_ && _); [rewrite F1|]; destruct (_ && _); by rewrite ?F2. }
      destruct (IH (common_ngram_map_begin mp tokens) (length tokens) (length tokens)) as (mp' & drafts & E & HF & Hm'); try done; [by rewrite Hset|by rewrite Hset|by rewrite Hset|cbn; lia|].
      exists mp', ([] :: drafts). rewrite E. split_and!; [done|by constructor|done].
    - destruct Hp as (H1 & H2 & H3). destruct (draft_ok mp inp sampled Hok) as (mp1 & d & E & Hok1 & Hl & S1 & S2 & S3 & S4 & S5 & Hd); [lia..|done|]. rewrite E. cbn [mbind outcome_bind].
      assert (Ha : exists mp2, match accepted with Some k => common_ngram_map_accept mp1 k | None => Ret mp1 end = Ret mp2 /\ map_ok mp2 /\ mp_size_key mp2 = n /\ mp_size_value mp2 = m /\ mp_key_only mp2 = key_only /\ mp_size_last_begin mp2 = lb /\ (mp_idx_last_check mp2 <= length inp)%nat).
      { destruct accepted as [k|]; [|exists mp1; split_and!; by try congruence]. destruct (accept_ok mp1 k Hok1 Hl) as (mp2 & E' & Hok2 & T1 & T2 & T3 & T4 & T5). exists mp2. split_and!; [done|done|congruence..|lia]. }
      destruct Ha as (mp2 & -> & Hok2 & T1 & T2 & T3 & T4 & T5). cbn [mbind outcome_bind]. destruct (IH mp2 lb (length inp) T1 T2 T3 T4 T5 ltac:(lia) Hok2 H3) as (mp' & drafts & E' & HF & Hm').
      exists mp', (d :: drafts). rewrite E'. split_and!; [done| |done]. constructor; [|done]. cbn [repeats]. destruct Hd as [->|(p & k & [D1 D2] & D3 & D4 & D5)]; [by left|right; exists p, k]. rewrite E1, ?E2 in *. by split_and!. }
  apply (H ops (new_map n m key_only min_hits) 0%nat 0%nat); try done. constructor; cbn [new_map mp_keys mp_key_map]; [done|]. apply Forall_replicate. by left.
Qed.

(** ** The table of n-grams *)

Definition mod_slot md (g : list Z) : nat := Z.to_nat (foldl (fun res t => u64 (res * 6364136223846793005 + t)) 0 g mod Z.of_nat (length (md_entries md))).
Definition entry md (g : list Z) : Z := nth (mod_slot md g) (md_entries md) EMPTY.

Record mod_ok md : Prop := { mk_n : (1 <= md_n md)%nat; mk_entries : md_entries md <> [] }.

(** The counter of used entries is right. *)
Definition counted md : Prop := md_used md = length (filter (fun t => t <> EMPTY) (md_entries md)).

Lemma entries_length md : mod_ok md -> (0 < length (md_entries md))%nat.
Proof. intros [_ H]. destruct (md_entries md); [done|cbn; lia]. Qed.

Lemma mod_slot_bound md g : mod_ok md -> (mod_slot md g < length (md_entries md))%nat.
Proof. intros H. pose proof (entries_length md H). unfold mod_slot. match goal with |- context [?z mod ?w] => pose proof (Z.mod_pos_bound z w) end. lia. Qed.

Lemma mod_idx_spec md tokens : mod_ok md -> (md_n md <= length tokens)%nat -> mod_idx md tokens = Ret (mod_slot md (take (md_n md) tokens)).
Proof.
  intros Hm Hl. assert (H : forall n, (n <= length tokens)%nat -> mod_hash n tokens = Ret (foldl (fun res t => u64 (res * 6364136223846793005 + t)) 0 (take n tokens))).
  { unfold mod_hash. induction n as [|n IH]; intros Hn; [done|]. rewrite seq_S, foldM_app, IH by lia. cbn [mbind outcome_bind foldM Nat.add]. destruct (lookup_lt_is_Some_2 tokens n) as [x Hx]; [lia|].
    rewrite (proj2 (at_Ret _ _ _) Hx). cbn [mbind outcome_bind]. by rewrite (take_S_r _ n x Hx), foldl_snoc. }
  unfold mod_idx, mod_slot. rewrite H by done. cbn [mbind outcome_bind]. destruct (md_entries md) eqn:E; [by destruct (mk_entries md Hm)|]. done.
Qed.

Lemma mod_get_spec md tokens : mod_ok md -> (md_n md <= length tokens)%nat -> mod_get md tokens = Ret (entry md (take (md_n md) tokens)).
Proof.
  intros Hm Hl. unfold mod_get, entry. rewrite mod_idx_spec by done. cbn [mbind outcome_bind]. destruct (lookup_lt_is_Some_2 (md_entries md) (mod_slot md (take (md_n md) tokens))) as [x Hx]; [by apply mod_slot_bound|].
  rewrite (proj2 (at_Ret _ _ _) Hx). by rewrite (nth_lookup_Some _ _ _ _ Hx).
Qed.

Lemma filter_insert_count (l : list Z) i old t : l !! i = Some old -> t <> EMPTY ->
  length (filter (fun t => t <> EMPTY) (<[i := t]> l)) = if old =? EMPTY then S (length (filter (fun t => t <> EMPTY) l)) else length (filter (fun t => t <> EMPTY) l).
Proof.
  intros Hi Ht. apply list_elem_of_split_length in Hi as (l1 & l2 & -> & ->). rewrite <- (Nat.add_0_r (length l1)), insert_app_r. cbn [insert list_insert]. rewrite !filter_app, (filter_cons_True _ t) by done.
  destruct (old =? EMPTY) eqn:E; bool_hyps; [rewrite (filter_cons_False _ old) by naive_solver|rewrite (filter_cons_True _ old) by done]; rewrite !length_app; cbn [length]; lia.
Qed.

Lemma mod_add_spec md tokens t : mod_ok md -> tokens !! md_n md = Some t ->
  exists md', mod_add md tokens = Ret md' /\ mod_ok md' /\ md_n md' = md_n md /\ md_entries md' = <[mod_slot md (take (md_n md) tokens) := t]> (md_entries md) /\ (counted md -> t <> EMPTY -> counted md').
Proof.
  intros Hm Ht. assert (Hl : (md_n md <= length tokens)%nat) by (apply lookup_lt_Some in Ht; lia). unfold mod_add. rewrite mod_idx_spec by done. cbn [mbind outcome_bind]. pose proof (mod_slot_bound md (take (md_n md) tokens) Hm) as Hb.
  destruct (lookup_lt_is_Some_2 _ _ Hb) as [old Hold]. rewrite (proj2 (at_Ret _ _ _) Hold), (proj2 (at_Ret _ _ _) Ht). cbn [mbind outcome_bind]. rewrite set_in by done. cbn [mbind outcome_bind].
  eexists. split; [reflexivity|]. split_and!; [constructor; [apply Hm|]|done|done|].
  - cbn. intros H. apply (f_equal length) in H. rewrite length_insert in H. cbn in H. pose proof (entries_length md Hm). lia.
  - unfold counted. cbn. intros Hc Hne. rewrite (filter_insert_count _ _ _ _ Hold Hne), Hc. by destruct (old =? EMPTY).
Qed.

(** What a range of a text teaches: the token after the last n-gram of a slot. *)
Definition learned md md' tokens (first last : nat) : Prop :=
  forall g, let hit i := (first <= i < last)%nat /\ mod_slot md (gram tokens i (md_n md)) = mod_slot md g in
    (forall i, hit i -> (forall j, (i < j)%nat -> ~ hit j) -> entry md' g = nth (i + md_n md) tokens EMPTY) /\ ((forall i, ~ hit i) -> entry md' g = entry md g).

Lemma add_range_spec md tokens first last : mod_ok md -> (last + md_n md <= length tokens)%nat ->
  exists md', add_range md tokens first last = Ret md' /\ mod_ok md' /\ md_n md' = md_n md /\ length (md_entries md') = length (md_entries md) /\ learned md md' tokens first last
    /\ (counted md -> Forall (fun t => t <> EMPTY) tokens -> counted md').
Proof.
  intros Hm Hl. unfold add_range. set (k := (last - first)%nat). assert (Hk : (last <= first \/ last = first + k)%nat) by lia.
  assert (H : forall k, (k <= last - first)%nat -> exists md', foldM (fun md i => mod_add md (drop i tokens)) md (seq first k) = Ret md' /\ mod_ok md' /\ md_n md' = md_n md /\ length (md_entries md') = length (md_entries md)
    /\ learned md md' tokens first (first + k) /\ (counted md -> Forall (fun t => t <> EMPTY) tokens -> counted md')).
  { clear k Hk. induction k as [|k IH]; intros Hk.
    - exists md. split_and!; [done|done|done|done| |done]. intros g hit. split; [|done]. intros i [Hi _]. lia.
    - destruct IH as (md1 & E & Hm1 & Hn1 & Hl1 & Hle & Hc); [lia|]. rewrite seq_S, foldM_app, E. cbn [mbind outcome_bind foldM]. destruct (lookup_lt_is_Some_2 tokens (first + k + md_n md)) as [t Ht]; [lia|].
      destruct (mod_add_spec md1 (drop (first + k) tokens) t Hm1) as (md2 & -> & Hm2 & Hn2 & He2 & Hc2); [by rewrite lookup_drop, Hn1|]. cbn [mbind outcome_bind]. exists md2. rewrite Hn1 in *.
      assert (Hslot : forall g, mod_slot md1 g = mod_slot md g) by (intros g; unfold mod_slot; by rewrite Hl1). assert (Hl2 : length (md_entries md2) = length (md_entries md1)) by (by rewrite He2, length_insert).
      assert (Hslot2 : forall g, mod_slot md2 g = mod_slot md g) by (intros g; unfold mod_slot; by rewrite Hl2, Hl1).
      split_and!; [done|done|done|congruence| |].
      + intros g hit. assert (Hent : entry md2 g = if decide (mod_slot md (gram tokens (first + k) (md_n md)) = mod_slot md g) then t else entry md1 g).
        { unfold entry. rewrite He2, !Hslot, Hslot2. fold (gram tokens (first + k) (md_n md)). destruct (decide (mod_slot md (gram tokens (first + k) (md_n md)) = mod_slot md g)) as [->|Hne].
          - apply nth_lookup_Some. rewrite list_lookup_insert_eq; [done|]. rewrite Hl1. by apply mod_slot_bound.
          - rewrite !nth_lookup. by rewrite list_lookup_insert_ne. }
        destruct (Hle g) as [L1 L2]. rewrite Hent. split.
        * intros i [Hi Hs] Hlast. destruct (decide (i = first + k)%nat) as [->|Hik]; [rewrite decide_True by done; by rewrite (nth_lookup_Some _ _ _ _ Ht)|].
          rewrite decide_False by (intros Hx; apply (Hlast (first + k)%nat); [lia|split; [lia|done]]). apply L1; [split; [lia|done]|]. intros j Hj [Hj1 Hj2]. apply (Hlast j Hj). split; [lia|done].
        * intros Hno. rewrite decide_False by (intros Hx; apply (Hno (first + k)%nat); split; [lia|done]). apply L2. intros i [Hi1 Hi2]. apply (Hno i). split; [lia|done].
      + intros Hc0 Hne. apply Hc2; [by apply Hc|]. exact (proj1 (Forall_lookup _ _) Hne _ _ Ht). }
  destruct (H k ltac:(lia)) as (md' & E & R). exists md'. split; [exact E|]. destruct Hk as [Hk|Hk]; [|by rewrite <- Hk in R]. assert (k = 0%nat) as Hk0 by lia. rewrite Hk0, Nat.add_0_r in R.
  destruct R as (R1 & R2 & R3 & R4 & R5). split_and!; [done|done|done| |done]. intros g hit. destruct (R4 g) as [_ L2]. split; [intros i [Hi _]; lia|]. intros _. apply L2. intros i [Hi _]. lia.
Qed.

(** *** Drafting from the table *)

Definition last_tokens (n : nat) (l : list Z) : list Z := drop (length l - n) l.

Lemma mod_draft_loop_spec md n_min prompt id_last : mod_ok md -> (md_n md <= length prompt)%nat -> forall steps more,
  let window := drop (length prompt - md_n md + 1) prompt ++ [id_last] in
  exists r, mod_draft_loop md n_min (Z.of_nat (length more)) steps (window ++ more) = Ret r
    /\ match r with
       | None => exists drafted, (length drafted < length more + steps)%nat /\ Z.of_nat (length drafted) < n_min /\ entry md (last_tokens (md_n md) (prompt ++ id_last :: drafted)) = EMPTY
       | Some result => exists new, result = window ++ more ++ new /\ (length new <= steps)%nat
           /\ (forall i t, new !! i = Some t -> t <> EMPTY /\ t = entry md (last_tokens (md_n md) (prompt ++ id_last :: more ++ take i new)))
           /\ ((length new < steps)%nat -> n_min <= Z.of_nat (length more + length new) /\ entry md (last_tokens (md_n md) (prompt ++ id_last :: more ++ new)) = EMPTY)
       end.
Proof.
  intros Hm Hl steps. induction steps as [|steps IH]; intros more window; cbn [mod_draft_loop].
  - eexists. split; [done|]. cbn. exists []. rewrite app_nil_r. split_and!; [done|done|done|lia].
  - assert (Hw : length window = md_n md) by (unfold window; rewrite length_app, length_drop; cbn; pose proof (mk_n md Hm); lia).
    assert (Hlast : take (md_n md) (drop (length more) (window ++ more)) = last_tokens (md_n md) (prompt ++ id_last :: more)).
    { rewrite take_ge by (rewrite length_drop, length_app; lia). unfold last_tokens. rewrite length_app. cbn [length]. unfold window. replace (prompt ++ id_last :: more) with ((prompt ++ [id_last]) ++ more) by (by rewrite <- app_assoc).
      rewrite <- (drop_app_le prompt [id_last] (length prompt - md_n md + 1)) by (pose proof (mk_n md Hm); lia). rewrite <- drop_app_le by (rewrite length_app; cbn; pose proof (mk_n md Hm); lia). rewrite drop_drop. f_equal. pose proof (mk_n md Hm). lia. }
    rewrite Nat2Z.id, mod_get_spec; [|done|rewrite length_drop, length_app; lia]. rewrite Hlast. cbn [mbind outcome_bind]. destruct (entry md (last_tokens (md_n md) (prompt ++ id_last :: more)) =? EMPTY) eqn:E; bool_hyps.
    + destruct (Z.of_nat (length more) <? n_min) eqn:En; bool_hyps; eexists; (split; [done|]); cbn.
      * exists more. split_and!; [lia|done|done].
      * exists []. rewrite !app_nil_r. split_and!; [done|cbn [length]; lia|done|]. intros _. split; [cbn [length]; lia|done].
    + set (t := entry md (last_tokens (md_n md) (prompt ++ id_last :: more))) in *. replace (Z.of_nat (length more) + 1) with (Z.of_nat (length (more ++ [t]))) by (rewrite length_app; cbn; lia). rewrite <- app_assoc.
      destruct (IH (more ++ [t])) as (r & Er & Hr). exists r. split; [exact Er|]. destruct r as [result|].
      * destruct Hr as (new & -> & H1 & H2 & H3). exists (t :: new). split_and!; [by rewrite <- (app_assoc more)|cbn [length]; lia| |].
        -- intros [|i] x Hx; cbn in Hx; [injection Hx as <-; cbn [take]; by rewrite app_nil_r|]. destruct (H2 i x Hx) as [Hx1 Hx2]. split; [done|]. by rewrite Hx2, <- app_assoc.
        -- intros Hlt. destruct H3 as [H3 H4]; [cbn in Hlt; lia|]. rewrite length_app in H3. cbn [length] in *. rewrite <- app_assoc in H4. split; [lia|exact H4].
      * destruct Hr as (d & H1 & H2 & H3). exists d. rewrite length_app in H1. cbn in H1. split_and!; [lia|done|done].
Qed.

(** C37. A draft follows the table: every token is what the table holds for the [n]
    tokens before it, and the draft ends after [n_max] tokens or where the table
    holds nothing; a draft that would be shorter than [n_min] is given up.  New text
    is learned first, in chunks; where two n-grams share a slot, the later one
    counts. *)
Theorem ngram_mod_draft st n_min n_max prompt id_last : mod_ok (ms_mod st) -> (md_n (ms_mod st) <= length prompt)%nat ->
  let n := md_n (ms_mod st) in
  let after more := last_tokens n (prompt ++ id_last :: more) in
  exists draft st', mod_draft st n_min n_max prompt id_last [] = Ret (draft, st') /\ mod_ok (ms_mod st') /\ md_n (ms_mod st') = n /\ ms_n_draft_last st' = length draft
    /\ (counted (ms_mod st) -> Forall (fun t => t <> EMPTY) prompt -> counted (ms_mod st'))
    /\ (if decide (ms_i_last st + 32 < length prompt)%nat then learned (ms_mod st) (ms_mod st') prompt (ms_i_last st) (length prompt - n) /\ ms_i_last st' = (length prompt - n)%nat else ms_mod st' = ms_mod st)
    /\ (forall i t, draft !! i = Some t -> t <> EMPTY /\ t = entry (ms_mod st') (after (take i draft)))
    /\ Z.of_nat (length draft) <= Z.max 0 n_max
    /\ (Z.of_nat (length draft) < n_max -> exists more, Z.of_nat (length more) < n_max /\ entry (ms_mod st') (after more) = EMPTY /\ draft = if Z.of_nat (length more) <? n_min then [] else more).
Proof.
  intros Hm Hl n after. unfold mod_draft. cbn [ms_mod ms_i_last ms_n_low]. rewrite (proj2 (Nat.ltb_ge _ _)) by (fold n; lia). fold n.
  assert (H : exists st1, (if (ms_i_last st + 32 <? length prompt)%nat then md ← add_range (ms_mod st) prompt (ms_i_last st) (length prompt - n); Ret (mk_mod_state md (length prompt - n) 0 (ms_n_low st)) else Ret (mk_mod_state (ms_mod st) (ms_i_last st) 0 (ms_n_low st))) = Ret st1
    /\ mod_ok (ms_mod st1) /\ md_n (ms_mod st1) = n /\ ms_n_draft_last st1 = 0%nat /\ (counted (ms_mod st) -> Forall (fun t => t <> EMPTY) prompt -> counted (ms_mod st1))
    /\ (if decide (ms_i_last st + 32 < length prompt)%nat then learned (ms_mod st) (ms_mod st1) prompt (ms_i_last st) (length prompt - n) /\ ms_i_last st1 = (length prompt - n)%nat else ms_mod st1 = ms_mod st)).
  { destruct (decide (ms_i_last st + 32 < length prompt)%nat) as [E|E]; [rewrite (proj2 (Nat.ltb_lt _ _) E)|rewrite (proj2 (Nat.ltb_ge _ _)) by lia].
    - destruct (add_range_spec (ms_mod st) prompt (ms_i_last st) (length prompt - n) Hm) as (md' & -> & Hm' & Hn' & _ & Hle & Hc); [fold n; lia|]. cbn [mbind outcome_bind]. eexists. split; [reflexivity|]. by split_and!.
    - eexists. split; [reflexivity|]. by split_and!. }
  destruct H as (st1 & -> & Hm1 & Hn1 & Hz1 & Hc1 & Hle). cbn [mbind outcome_bind].
  destruct (mod_draft_loop_spec (ms_mod st1) n_min prompt id_last Hm1 ltac:(rewrite Hn1; exact Hl) (Z.to_nat n_max) []) as (r & Er & Hr). cbn zeta in Er. cbn [length] in Er. rewrite Hn1, app_nil_r in Er. change (Z.of_nat 0) with 0 in Er. rewrite Er. cbn [mbind outcome_bind].
  rewrite Hn1 in Hr. destruct r as [result|].
  - destruct Hr as (new & -> & H1 & H2 & H3). cbn [app] in *. assert (Hd : drop n ((drop (length prompt - n + 1) prompt ++ [id_last]) ++ new) = new) by (apply drop_app_length'; rewrite length_app, length_drop; cbn [length]; pose proof (mk_n _ Hm : (1 <= n)%nat); lia). rewrite Hd.
    exists new. eexists. split; [reflexivity|]. cbn [ms_mod ms_n_draft_last ms_i_last]. split_and!; [done|done|done|done|done|exact H2|lia|].
    intros Hlt. destruct H3 as [H3 H4]; [lia|]. exists new. split_and!; [done|exact H4|]. cbn in H3. by rewrite (proj2 (Z.ltb_ge _ _)) by lia.
  - destruct Hr as (d & H1 & H2 & H3). exists []. eexists. split; [reflexivity|]. split_and!; [done|done|done|done|done|done|cbn [length]; lia|].
    intros _. exists d. split_and!; [cbn in H1; lia|exact H3|]. by rewrite (proj2 (Z.ltb_lt _ _)).
Qed.

(** ** Several implementations *)

(** The draft is that of the first implementation that has one; the ones before it
    had none, and the ones after it were not asked.  Accepting tokens finds it. *)
Theorem speculative_first_draft (It : Iteration) n_min n_max spec prompt id_last result spec' : common_speculative_draft n_min n_max spec prompt id_last = Ret (result, spec') ->
  length (sp_impls spec') = length (sp_impls spec)
  /\ match sp_curr_impl spec' with
     | Some i => result <> [] /\ (i < length (sp_impls spec))%nat
         /\ (forall j impl, sp_impls spec !! j = Some impl -> exists impl', sp_impls spec' !! j = Some impl'
              /\ ((j < i)%nat -> impl_draft n_min n_max impl prompt id_last = Ret ([], impl')) /\ (j = i -> impl_draft n_min n_max impl prompt id_last = Ret (result, impl')) /\ ((i < j)%nat -> impl' = impl))
     | None => result = [] /\ (forall j impl, sp_impls spec !! j = Some impl -> exists impl', sp_impls spec' !! j = Some impl' /\ impl_draft n_min n_max impl prompt id_last = Ret ([], impl'))
     end.
Proof.
  unfold common_speculative_draft. assert (H : forall impls done_ r sp, draft_impls n_min n_max prompt id_last done_ impls = Ret (r, sp) -> exists impls', sp_impls sp = done_ ++ impls' /\ length impls' = length impls
    /\ match sp_curr_impl sp with
       | Some i => exists k, i = (length done_ + k)%nat /\ (k < length impls)%nat /\ r <> [] /\ (forall j impl, impls !! j = Some impl -> exists impl', impls' !! j = Some impl'
              /\ ((j < k)%nat -> impl_draft n_min n_max impl prompt id_last = Ret ([], impl')) /\ (j = k -> impl_draft n_min n_max impl prompt id_last = Ret (r, impl')) /\ ((k < j)%nat -> impl' = impl))
       | None => r = [] /\ (forall j impl, impls !! j = Some impl -> exists impl', impls' !! j = Some impl' /\ impl_draft n_min n_max impl prompt id_last = Ret ([], impl'))
       end).
  { induction impls as [|impl impls IH]; intros done_ r sp E; cbn [draft_impls] in E.
    - injection E as <- <-. exists []. cbn. rewrite app_nil_r. split_and!; [done|done|done|]. intros j impl Hj. by rewrite lookup_nil in Hj.
    - destruct (impl_draft n_min n_max impl prompt id_last) as [[d impl1]| | | |] eqn:Ed; cbn [mbind outcome_bind] in E; try done. case_bool_decide as Hd.
      + subst d. destruct (IH _ _ _ E) as (impls' & -> & Hl & Hc). exists (impl1 :: impls'). rewrite <- app_assoc. split_and!; [done|cbn; by rewrite Hl|]. destruct (sp_curr_impl sp) as [i|].
        * destruct Hc as (k & -> & Hk & Hr & Hj). exists (S k). rewrite length_app. cbn [length]. split_and!; [lia|lia|done|]. intros [|j] x Hx; cbn in Hx.
          -- injection Hx as <-. exists impl1. cbn. split_and!; [done|done|lia|lia].
          -- destruct (Hj j x Hx) as (x' & A & B & C & D). exists x'. split_and!; [done|intros; apply B; lia|intros; apply C; lia|intros; apply D; lia].
        * destruct Hc as (-> & Hj). split; [done|]. intros [|j] x Hx; cbn in Hx; [injection Hx as <-; by exists impl1|by apply Hj].
      + injection E as <- <-. exists (impl1 :: impls). cbn [sp_impls sp_curr_impl]. split_and!; [done|done|]. exists 0%nat. cbn [length]. split_and!; [lia|lia|done|]. intros [|j] x Hx; cbn in Hx.
        * injection Hx as <-. exists impl1. cbn. split_and!; [done|lia|done|lia].
        * exists x. cbn. split_and!; [done|lia|lia|done]. }
  intros E. destruct (H _ _ _ _ E) as (impls' & -> & Hl & Hc). cbn [app]. split; [done|]. destruct (sp_curr_impl spec') as [i|]; [|done]. destruct Hc as (k & -> & Hk & Hr & Hj). by split_and!.
Qed.

(** ** Instances *)

Lemma simple_draft_exact_witness : exists p, last_match [9; 1; 2; 3; 4; 5; 6; 1] [1; 2] 0 5 p
  /\ common_ngram_simple_draft (mk_simple_config 2 3) [9; 1; 2; 3; 4; 5; 6; 1] 2 = Ret (if decide (p = 0%nat \/ (3 < 2)%nat \/ (8 < p + 2 + 2)%nat) then [] else gram [9; 1; 2; 3; 4; 5; 6; 1] (p + 2) 3).
Proof. exact (proj2 (simple_draft_exact (mk_simple_config 2 3) [9; 1; 2; 3; 4; 5; 6; 1] 2 ltac:(cbn; lia)) ltac:(cbn; lia)). Defined.

Example simple_draft_example : common_ngram_simple_draft (mk_simple_config 2 3) [9; 1; 2; 3; 4; 5; 6; 1] 2 = Ret [3; 4; 5].
Proof. reflexivity. Qed.

Definition conversation : list ngram_op :=
  [NgBegin [9; 7; 1; 7; 1]; NgDraft [9; 7; 1; 7; 1; 5] 7 (Some 1); NgBegin [9; 7; 1; 7; 1; 5; 7]; NgDraft [9; 7; 1; 7; 1; 5; 7; 1] 7 None].

Lemma ngram_map_conversation_witness : plausible false 0 0 conversation /\ exists mp drafts, converse (new_map 1 1 false 1) conversation = Ret (mp, drafts) /\ Forall2 (repeats 1 1) conversation drafts.
Proof.
  assert (H : plausible false 0 0 conversation) by (unfold conversation, UINT32_MAX; cbn [plausible length]; split_and!; (lia || (right; lia) || done)). split; [exact H|].
  destruct (ngram_map_conversation 1 1 false 1 conversation ltac:(lia) H) as (mp & drafts & E & F & _). exists mp, drafts. by split.
Defined.

Lemma ngram_mod_draft_witness : exists draft st', mod_draft (mk_mod_state (mk_mod 1 2 [5; EMPTY; 5; EMPTY]) 0 0 0) 0 2 [1; 2] 4 [] = Ret (draft, st') /\ (forall i t, draft !! i = Some t -> t <> EMPTY).
Proof.
  assert (Hm : mod_ok (mk_mod 1 2 [5; EMPTY; 5; EMPTY])) by by constructor.
  destruct (ngram_mod_draft (mk_mod_state (mk_mod 1 2 [5; EMPTY; 5; EMPTY]) 0 0 0) 0 2 [1; 2] 4 Hm ltac:(cbn; lia)) as (draft & st' & E & _ & _ & _ & _ & _ & H & _). exists draft, st'. split; [exact E|]. intros i t Hi. exact (proj1 (H i t Hi)).
Defined.

Lemma speculative_first_draft_witness : exists i, sp_curr_impl (mk_spec [ImplSimple (mk_simple_config 2 3)] (Some 0%nat)) = Some i /\ [3; 4; 5] <> @nil Z.
Proof.
  set (It := {| iter_part := map_to_list; iter_cache := map_to_list; iter_part_perm p := reflexivity _; iter_cache_perm c := reflexivity _ |} : Iteration).
  destruct (speculative_first_draft It 0 16 (mk_spec [ImplSimple (mk_simple_config 2 3)] None) [9; 1; 2; 3; 4; 5; 6; 1] 2 [3; 4; 5] (mk_spec [ImplSimple (mk_simple_config 2 3)] (Some 0%nat)) eq_refl) as (_ & H & _). by exists 0%nat.
Defined.

(** ** What can go wrong *)

(** A turn whose prompt is shorter than that of the turn before aborts the program at
    its first draft: [common_ngram_map_begin] sets the last check to the beginning of
    the turn before. *)
Example shorter_prompt_aborts mp long short inp sampled : (2 * mp_size_key mp + mp_size_value mp <= length inp)%nat -> (length inp < length long - 1)%nat -> Z.of_nat (length inp) < UINT32_MAX ->
  common_ngram_map_draft (common_ngram_map_begin (common_ngram_map_begin mp long) short) inp sampled [] = Fatal "map.idx_last_check > cur_len".
Proof.
  intros Hl Hs Hu. assert (Hset : forall A (f : common_ngram_map -> A) x tokens, (forall ks x, f (with_keys ks x) = f x) -> (forall km l x, f (with_key_map km l x) = f x) -> (forall a b x, f (with_check a b x) = f x) -> f (common_ngram_map_begin x tokens) = f x).
  { intros A f x tokens F1 F2 F3. unfold common_ngram_map_begin. rewrite F3. destruct (_ && _); [rewrite F1|]; destruct (_ && _); by rewrite ?F2. }
  set (mp2 := common_ngram_map_begin (common_ngram_map_begin mp long) short). assert (E1 : mp_size_key mp2 = mp_size_key mp) by (unfold mp2; by rewrite !Hset). assert (E2 : mp_size_value mp2 = mp_size_value mp) by (unfold mp2; by rewrite !Hset).
  assert (E3 : mp_idx_last_check mp2 = (length long - 1)%nat) by done. unfold common_ngram_map_draft. cbn [with_last_draft mp_size_key mp_size_value mp_idx_last_check]. rewrite E1, E2, E3.
  rewrite (proj2 (Nat.ltb_ge _ _)), (proj2 (Z.ltb_lt _ _) Hu), (proj2 (Nat.leb_gt (length long - 1) (length inp)) Hs) by lia. done.
Qed.

(** Without the hash map, keys of one token and values of one token. *)
Definition small_map : common_ngram_map := mk_map 1 1 false [] 1 0 false 0 0 0 [] 0.

(** The draft is what followed the last occurrence of the key, not the most frequent
    value: 7 was followed by 1 three times, and then once by 2. *)
Example draft_is_not_most_frequent :
  ('(mp, draft) ← common_ngram_map_draft small_map [0; 7; 1; 7; 1; 7; 1; 7; 2; 5; 5] 7 []; Ret (draft, map (fun key => vl_num <$> take 2 (ky_values key)) (mp_keys mp), mp_last_draft_value_idx mp)) = Ret ([2], [[3; 1]], 0%nat).
Proof. vm_compute. reflexivity. Qed.

(** The last position of the statistics is counted again by the next draft: 7 occurs
    once. *)
Example occurrence_counted_twice :
  ('(mp, _) ← common_ngram_map_draft small_map [0; 7; 1; 5; 5] 7 []; '(mp, _) ← common_ngram_map_draft mp [0; 7; 1; 5; 5] 7 []; Ret (map (fun key => vl_num <$> take 1 (ky_values key)) (mp_keys mp))) = Ret [[2]].
Proof. vm_compute. reflexivity. Qed.
